(* ===== verification/_CoqProject ===== *)
-Q . S2P
Prelude.v
Config.v
PtvCodec.v
DeltaPage.v
VertexIndex.v
VertexFile.v
PageMap.v
DiskManager.v
CsrPage.v
IndexPage.v
IndexFile.v
Db.v
EdgeOps.v
Chains.v
GiantDb.v
Sketch.v
Reorder.v
Builder.v
Smo.v
SmoMerge.v
SmoBuild.v
SmoInv.v
SmoEdges.v
SmoPublish.v
SmoSwitch.v
SmoConsolidate.v
SmoRun.v
SmoSteps.v
Bitmap.v
Sequence.v
VertexSet.v
GraphRead.v
EdgeScan.v
PageScan.v
Interleave.v
Latch.v
BufPool.v
BufPoolInv.v
BufPoolRun.v
Txn.v
TxnSafe.v
TxnChain.v
PropStore.v
MemGraph.v
MapGraph.v
CsrGraph.v
ComGraph.v
MemGraphSub.v
MemBfs.v
GraphLoad.v
SmallGraph.v
MemEdges.v
BuildDb.v
BuildPages.v
BuildCompressed.v
Partition.v
PartitionMap.v
Sparsify.v
Tat.v
TatSmo.v
EdgeMap.v
EdgeMapDb.v
EdgePush.v
Bfs.v
BfsMap.v
ParallelBfs.v
Wcc.v
ParallelWcc.v
WccSv.v
Cdlp.v
CdlpMap.v
PageRank.v
PageRankMap.v
PageRankExact.v
PageRankScan.v
Samples.v
SmoSamples.v
AlgoSamples.v
RankSamples.v
BuildSamples.v
