(* ===== verification/Prelude.v ===== *)
(** * Bw-Graph: a verification development

    Bw-Graph is a disk-resident graph store.  The base graph lives in CSR
    pages of one file; an update appends a record to a chain of delta pages
    instead of rewriting the page; a background task consolidates a page with
    its deltas into new pages, which a vertex index makes visible.  Graph
    algorithms run over the store.  The paths below are those of the
    repository: [x.cc] is src/src/x.cc, [d/x.h] is src/include/bw_graph/d/x.h.

    ** How the parts interact

    - An edge update ([db_dyn.cc]) looks its source up in the vertex index
      (page, slot, head of the delta chain), obtains a delta page from the page
      map, appends a record linked to the chain's head and moves the head.  A
      giant vertex is kept in RocksDB instead of a CSR page.
    - When a page's chain is long enough, by a threshold that the workload
      sketch derives from counters, a consolidation task is queued.  The task
      ([smo.cc]) detaches the deltas, merges, writes new pages, installs a
      forwarding table for writers that still go to the old page, and switches
      the vertices over, at once or when pending switches are published.  The
      old page is recycled when the index has reclaimed the replaced versions.
    - A neighbour read takes the base list and applies the chain to it.  The
      algorithms ([db_algorithm.cc]) read base lists only, through edge scans
      and edge maps over vertex subsets.
    - Pages are cached in buffer pools over the disk manager.
    - Transactions, the property store, the in-memory graphs and the workload
      generators stand beside this core.

    ** Shared files

    - Prelude.v: integers of a given width, byte buffers, results with
      errors, loops with fuel, lemmas and tactics, the hint databases [bw].
    - Config.v: the globals of [common/config.h] as a class, enumerations of
      [common/type.h], the capacity search of [common/utils.h].
    - Interleave.v: tasks that take atomic steps in the order of a schedule.

    ** Pages and their codecs

    - PtvCodec.v ([Ptv]): [common/ptv_codec.h], variable-length identifiers.
    - DeltaPage.v ([Delta]): [io/io_delta.h], [io_delta.cc].
    - CsrPage.v ([Csr]): [io/io_csr.h], [io_csr.cc], raw and compressed lists.
    - IndexPage.v ([Index]): [io/io_index.h], [io_index.cc]; IndexFile.v: the
      saving and loading of index pages in [db.cc].
    - Builder.v ([Builder]): [io/builder.h], [builder.cc].
    - Reorder.v ([Reorder]): the Gorder variant of [part/reorder.h] used by
      page splits.

    Theorems: what is written is read back ([range_roundtrip],
    [build_parse_roundtrip], [flush_reload_contents],
    [index_file_roundtrip]); an index page answers as the graph it was built
    from ([index_page_refines]); the greedy order is a permutation whatever
    the scores and hash orders ([gorder_permutation]).

    ** Storage

    - DiskManager.v ([Disk]): [storage/disk_manager.h], [disk_manager.cc].
    - BufPool.v, BufPoolInv.v, BufPoolRun.v: [buf/buf_pool.h], [buf_pool.cc];
      a call is a step, and its claim, write-back and load are also apart.
    - Latch.v ([Latch]): [common/latch.h], threads interleave at the atomic
      accesses.
    - PageMap.v ([PMap]): [buf/page_map.h], [page_map.cc],
      [part/page_delta.h].
    - VertexIndex.v ([VIndex]): [index/vertex_index.h], [vertex_index.cc];
      VertexFile.v: its file format.
    - GiantDb.v ([Giant]): [db/external.h], [external.cc].
    - Sketch.v ([Sketch]): [buf/sketch.h], [sketch.cc].

    Theorems: the buffer pool refines a map from pages to contents under any
    eviction, for calls that do not overlap and pages that parse
    ([buffer_contents]; [pool_races] and [rejected_page_erases] show what
    happens otherwise), and what a read can come to is stated, the rejection of
    a page included ([read_page_outcomes]); latches exclude
    ([latch_exclusive]); reclamation frees no version in use
    ([version_gc_safe]); fetched deltas are the inserted ones, once each
    ([insert_then_fetch]).  The last supposes, as does everything built on
    [PMap], that no frame of a delta chain is evicted while the chain is in
    use; the code unpins such frames ([delta_frame_reused]).

    ** The database and its consolidation

    - Db.v ([DB]): state and edge operations of [bw_graph_db_t] ([db_dyn.cc],
      [db.cc]).  Its state is a record of the components' states, so an
      operation of the code is the composition of theirs.
    - EdgeOps.v, Chains.v: the operations refine insertion into and deletion
      from neighbour sets.
    - Smo.v ([Smo]): the operations of [part/smo.h], [smo.cc].  SmoMerge.v,
      SmoBuild.v, SmoConsolidate.v, SmoPublish.v, SmoSwitch.v, SmoRun.v: one
      phase each.  SmoInv.v: the invariant with consolidations in flight,
      SmoEdges.v: writers keep it.
    - SmoSteps.v ([Steps]): edge updates, reads, tasks, publications and
      reclamation as a labelled transition system.  A task is two steps, and
      other operations may come between them; a read takes its base list and
      the head of the chain in one step and then walks the chain one record per
      step.  [steps_refine] is the main theorem: every read returns the set its
      vertex had when it began, and every vertex always has the set the updates
      give it.  It supposes that updates, the halves of tasks and publications
      do not overlap each other, and that no vertex is switched while a read of
      it is under way: the code does not ensure the latter, and
      [read_loses_records] shows a read that loses edges.  A publication waits
      for the reclamation of what it replaced ([publish_settles]).  Loaded
      states are consistent ([LoadState]).
    - BuildDb.v ([BuildDb]): [build_seq_db] of [db_build.cc], whose result holds
      exactly the graph's lists ([build_seq_db_holds]).  BuildPages.v: what the
      builds share, from locations and written pages to a database that holds
      a graph; BuildCompressed.v: [build_compressed_db], for either neighbour
      encoding ([build_compressed_db_holds]).
    - Partition.v, PartitionMap.v, Sparsify.v: [part/partition.h].  The
      partitioner is the class [KaMinPar].  The refinement ends with every
      part within the bound ([partition_within_bound]) unless one vertex alone
      exceeds it ([oversized_vertex_never_ends]); thinning the block graph
      connects the ends of every edge by a forest within the degree bound, as
      far as the bound lets it ([sparsification_spec]).
    - Tat.v ([Tat]): the hierarchy of index pages over the base pages, built
      level by level in [db_build.cc]: each level lists and connects the one
      below ([tat_from_csr_pages]); over the roots of partitions it may end in
      a root that lists nothing ([global_root_lists_nothing]).  The base
      pages' neighbours are written where their vertices are
      ([neighbor_overwrites_vertex]).
    - TatSmo.v ([TatSmo]): the hierarchy under consolidation ([smo.cc]), with a
      heap of index pages: a new page takes the old one's place
      ([no_split_renames], [split_lists_new_pages]); an index page that
      overflows is divided among new ones ([index_split_below],
      [index_split_at_root]).
    - Txn.v, TxnSafe.v, TxnChain.v: [db/txn.h], [txn.cc] and the transactional
      operations of [db.cc] and [db_dyn.cc]; serializability of what commits
      ([serializable_commits]), with the exact conditions under which the code
      provides it ([transactions_not_isolated]).  The chains are looked at
      between consolidations: what a consolidation does to timestamps is not
      modelled.
    - PropStore.v: [db/property_store.h], [property_store.cc].

    ** Algorithms

    - Bitmap.v, Sequence.v, VertexSet.v: [common/bitmap.h],
      [common/sequence.h], [mem/vertex_set.h].
    - GraphRead.v: what algorithms read, as the class [NeighborReader], kept by
      the database; walks, distances and components.
    - EdgeScan.v, PageScan.v: [algo/edge_scan.h]; EdgeMap.v,
      EdgeMapDb.v, EdgePush.v: [algo/edge_map.h], [algo/vertex_map.h].
    - Bfs.v, ParallelBfs.v, BfsMap.v; Wcc.v, ParallelWcc.v,
      WccSv.v (with [WccMap]); Cdlp.v, CdlpMap.v; PageRank.v, PageRankMap.v,
      PageRankExact.v, PageRankScan.v: the functions of [db_algorithm.cc] with
      these names.  In WccSv.v, ParallelBfs.v, ParallelWcc.v, EdgePush.v and
      PageRankScan.v every access of a callback to the shared memory is a step;
      in BfsMap.v and [WccMap] a call of the functor is.  PageRank computes over the class [Scalar]: a rounded format,
      every operation rounded separately, or exact rationals.

    Theorems: each search and component algorithm ends with the distances,
    components or labels it should, under the conditions on the graph that its
    theorem states, and the parallel versions return what the sequential ones do
    for every interleaving of their atomic steps.

    ** Graphs in memory

    - MemGraph.v (the class of [mem/graph.h]), MapGraph.v ([mem_g0map.cc]),
      CsrGraph.v ([mem_g0csr.cc]), ComGraph.v, MemGraphSub.v, MemBfs.v,
      GraphLoad.v ([mem_g0com.cc]), SmallGraph.v ([small_graph.cc]), MemEdges.v
      ([mem_edges.cc]).

    Samples.v, SmoSamples.v, AlgoSamples.v, RankSamples.v and BuildSamples.v
    hold the concrete instances on which theorems with hypotheses are applied.

    ** Conventions

    An operation takes the component's state and returns the new one; one that
    can throw returns a [result], one that aborts or reads out of bounds has no
    result ([None]).  Integers are [Z] reduced to their width where the code
    reduces them; binary32 and binary64 are [SpecFloat].  Critical sections and
    atomic accesses are steps; a thread schedule is a list of task numbers, and
    theorems hold for all of them.  Iteration orders of hash containers are
    parameters or quantified.

    Loops without a structural measure take fuel.  Delta chains: the number of
    records of the chain, or of pages of the store, as links descend.
    Insertion of a batch: twice its length, since a full page is followed by
    an insertion.  Searches: the number of vertices, since every vertex enters
    the queue at most once.  Label propagation: more than the square of that
    number, since each round lowers a label; hooking: more than the sum of the
    parents, which each round that hooks and each pass that moves lowers.  Partition refinement: one more round than
    the square of the number of vertices, since each round splits a block.
    Roots of a union-find forest: the number of nodes plus one, since a path to
    a root repeats no node.  Levels of the page hierarchy: the number of pages,
    since a level has at most half the pages of the one below.  Text and byte loops: the length of the
    input.  For each, a theorem states that this fuel gives a result.

    ** Parameters

    RocksDB ([RocksDB], [OrderedStore]), Group Varint ([GroupVarint]), zlib,
    random numbers, [std::pow], [std::hash], the splitting of ranges by tbb,
    KaMinPar ([KaMinPar], whose weight type is taken to be wide enough, and
    [Balanced]), the
    order [std::sort] gives to equal keys and the orders of hash containers.  Their hypotheses are their documented
    behaviour, and each class has a concrete instance.

    ** Not modelled

    The block-wise searches and the timed copies of algorithms: other versions
    of what is modelled.  The builds that lay pages out by a partition and
    the files of saved partitions: they combine the partitioning, page building
    and page hierarchy modelled here.  The calls of the hierarchy's maintenance
    when a switch is published: the consolidation and the index pages share no
    state but the vertex index.  The threads that flush periodically, logging, statistics,
    prefetching, the YAML reader and the command line tools: input, output and
    timing.  Errors of the file system and of RocksDB.  Reads and writes by io_uring transfer the bytes that [pread] and
    [pwrite] do. *)

From stdpp Require Export prelude gmap sorting.
From Stdlib Require Export ZArith Lia.

Local Open Scope Z_scope.

(** ** Machine integers

    The program computes on [uint8_t], [uint16_t], [uint32_t] and [uint64_t];
    an integer of width [w] is a [Z] and the conversions below are its
    [static_cast]s. *)

Definition wrap (w : Z) (z : Z) : Z := z `mod` 2 ^ w.

Abbreviation u8 := (wrap 8).
Abbreviation u16 := (wrap 16).
Abbreviation u32 := (wrap 32).
Abbreviation u64 := (wrap 64).

Definition in_width (w z : Z) : Prop := 0 <= z < 2 ^ w.

Create HintDb bw.
Create Rewrite HintDb bw.

Lemma wrap_range w z : 0 <= w -> in_width w (wrap w z).
Proof. intros. apply Z.mod_pos_bound. apply Z.pow_pos_nonneg; lia. Qed.

Lemma wrap_small w z : in_width w z -> wrap w z = z.
Proof. apply Z.mod_small. Qed.

Lemma wrap_wrap w z : 0 <= w -> wrap w (wrap w z) = wrap w z.
Proof. intros. by apply wrap_small, wrap_range. Qed.

#[export] Hint Resolve wrap_range wrap_small : bw.

(** [solve_width] closes the range side conditions of concrete widths. *)
Ltac solve_width :=
  unfold in_width, wrap in *; change (2 ^ 8) with 256 in *; change (2 ^ 16) with 65536 in *;
  change (2 ^ 32) with 4294967296 in *;
  change (2 ^ 64) with 18446744073709551616 in *;
  first [lia | apply Z.mod_pos_bound; lia | Z.div_mod_to_equations; lia].

(** Disjoint bit fields: [|] of a shifted field and a small one is [+]. *)
Lemma lor_shiftl_add a b n : 0 <= n -> 0 <= b < 2 ^ n -> Z.lor (Z.shiftl a n) b = a * 2 ^ n + b.
Proof.
  intros Hn Hb. rewrite <- Z.shiftl_mul_pow2 by lia.
  assert (Z.land (Z.shiftl a n) b = 0) as Hl.
  { apply Z.bits_inj'. intros i Hi. rewrite Z.land_spec, Z.bits_0, Z.shiftl_spec by lia.
    destruct (decide (i < n)).
    - by rewrite Z.testbit_neg_r by lia.
    - rewrite andb_comm. destruct (decide (b = 0)) as [->|]; [by rewrite Z.bits_0|].
      rewrite (Z.bits_above_log2 b i); [done|lia|].
      apply Z.lt_le_trans with n; [apply Z.log2_lt_pow2; lia|lia]. }
  pose proof (Z.add_lor_land (Z.shiftl a n) b). lia.
Qed.

Lemma land_ones_mod a k m : 0 <= m -> k = Z.ones m -> Z.land a k = a `mod` 2 ^ m.
Proof. intros ? ->. by apply Z.land_ones. Qed.

(** ** Byte buffers

    A page, a file block or a serialised record is a list of byte values.
    [mem_read] and [mem_write] are [memcpy] out of and into a buffer;
    [get_le] and [put_le] access an integer of [n] bytes the way a
    little-endian host does through a [reinterpret_cast]. *)

Abbreviation buf := (list Z).

Definition is_byte (b : Z) : Prop := in_width 8 b.

Definition mem_read (off n : nat) (b : buf) : list Z := take n (drop off b).

Definition mem_write (off : nat) (bs : list Z) (b : buf) : buf := list_inserts off bs b.

Fixpoint le_bytes (n : nat) (v : Z) : list Z :=
  match n with
  | O => []
  | S n => v `mod` 256 :: le_bytes n (v `div` 256)
  end.

Fixpoint le_val (l : list Z) : Z :=
  match l with
  | [] => 0
  | b :: l => b + 256 * le_val l
  end.

Definition get_le (n off : nat) (b : buf) : Z := le_val (mem_read off n b).

Definition put_le (n off : nat) (v : Z) (b : buf) : buf := mem_write off (le_bytes n v) b.

Definition get_byte (b : buf) (off : nat) : Z := default 0 (b !! off).

Lemma get_byte_0 b l : get_byte (b :: l) 0 = b.
Proof. done. Qed.

Lemma get_byte_S b l i : get_byte (b :: l) (S i) = get_byte l i.
Proof. done. Qed.

Abbreviation get16 := (get_le 2).
Abbreviation get32 := (get_le 4).
Abbreviation get64 := (get_le 8).
Abbreviation put16 := (put_le 2).
Abbreviation put32 := (put_le 4).
Abbreviation put64 := (put_le 8).

Lemma length_le_bytes n v : length (le_bytes n v) = n.
Proof. revert v; induction n; simpl; auto. Qed.

Lemma le_bytes_is_byte n v : Forall is_byte (le_bytes n v).
Proof.
  revert v; induction n as [|n IH]; intros v; simpl; constructor; auto.
  unfold is_byte, in_width. change (2 ^ 8) with 256. apply Z.mod_pos_bound; lia.
Qed.

Lemma le_val_le_bytes n v : le_val (le_bytes n v) = v `mod` 256 ^ Z.of_nat n.
Proof.
  revert v; induction n as [|n IH]; intros v; cbn [le_val le_bytes].
  - by rewrite Z.mod_1_r.
  - rewrite IH, Nat2Z.inj_succ, Z.pow_succ_r by lia.
    rewrite Z.rem_mul_r by lia. lia.
Qed.

Lemma le_val_range l : Forall is_byte l -> 0 <= le_val l < 256 ^ Z.of_nat (length l).
Proof.
  induction 1 as [|b l Hb Hl IH]; cbn [le_val length]; [lia|].
  rewrite Nat2Z.inj_succ, Z.pow_succ_r by lia.
  unfold is_byte, in_width in Hb. change (2 ^ 8) with 256 in Hb. lia.
Qed.

Lemma length_mem_write off bs b : length (mem_write off bs b) = length b.
Proof. apply length_inserts. Qed.

Lemma length_put_le n off v b : length (put_le n off v b) = length b.
Proof. apply length_inserts. Qed.

Lemma length_mem_read off n b : (off + n <= length b)%nat -> length (mem_read off n b) = n.
Proof. intros. unfold mem_read. rewrite length_take, length_drop. lia. Qed.

Lemma lookup_mem_read off n b i :
  (i < n)%nat -> mem_read off n b !! i = b !! (off + i)%nat.
Proof. intros. unfold mem_read. by rewrite lookup_take_lt, lookup_drop. Qed.

Lemma mem_read_write_same off bs b n :
  n = length bs -> (off + length bs <= length b)%nat ->
  mem_read off n (mem_write off bs b) = bs.
Proof.
  intros -> Hb. apply list_eq. intros i.
  destruct (decide (i < length bs)%nat).
  - rewrite lookup_mem_read by lia. unfold mem_write.
    rewrite list_lookup_inserts by lia. f_equal; lia.
  - rewrite !lookup_ge_None_2; auto; [lia|].
    rewrite length_mem_read; [lia|]. by rewrite length_mem_write.
Qed.

Lemma mem_read_write_other off bs b off' n :
  (off' + n <= off \/ off + length bs <= off')%nat ->
  mem_read off' n (mem_write off bs b) = mem_read off' n b.
Proof.
  intros Hd. apply list_eq. intros i.
  destruct (decide (i < n)%nat).
  - rewrite !lookup_mem_read by lia. unfold mem_write. destruct Hd.
    + apply list_lookup_inserts_lt; lia.
    + apply list_lookup_inserts_ge; lia.
  - unfold mem_read. by rewrite !lookup_take_ge by lia.
Qed.

Lemma get_put_le n off v b :
  0 <= v < 256 ^ Z.of_nat n -> (off + n <= length b)%nat ->
  get_le n off (put_le n off v b) = v.
Proof.
  intros Hv Hb. unfold get_le, put_le.
  rewrite mem_read_write_same; rewrite ?length_le_bytes; auto.
  rewrite le_val_le_bytes. by apply Z.mod_small.
Qed.

Lemma get_put_le_other n off n' off' v b :
  (off' + n' <= off \/ off + n <= off')%nat ->
  get_le n' off' (put_le n off v b) = get_le n' off' b.
Proof.
  intros. unfold get_le, put_le.
  by rewrite mem_read_write_other by (rewrite length_le_bytes; lia).
Qed.

Lemma get_le_mem_write_other off bs b n' off' :
  (off' + n' <= off \/ off + length bs <= off')%nat ->
  get_le n' off' (mem_write off bs b) = get_le n' off' b.
Proof. intros. unfold get_le. by rewrite mem_read_write_other. Qed.

Lemma mem_read_put_le_other n off v b off' n' :
  (off' + n' <= off \/ off + n <= off')%nat ->
  mem_read off' n' (put_le n off v b) = mem_read off' n' b.
Proof.
  intros. unfold put_le. apply mem_read_write_other. by rewrite length_le_bytes.
Qed.

#[export] Hint Rewrite length_le_bytes length_mem_write length_put_le : bw.

(** Normalises a chain of reads over writes whose offsets are literals. *)
Ltac buf_simpl :=
  repeat first
    [ rewrite get_put_le by (autorewrite with bw; lia)
    | rewrite get_put_le_other by lia
    | rewrite mem_read_put_le_other by lia
    | rewrite get_le_mem_write_other by (autorewrite with bw; lia)
    | rewrite mem_read_write_same by (autorewrite with bw; lia)
    | rewrite mem_read_write_other by (autorewrite with bw; lia) ].

(** Reading a field out of a concatenation of fields. *)
Lemma get_le_app_here n v rest :
  0 <= v < 256 ^ Z.of_nat n -> get_le n 0 (le_bytes n v ++ rest) = v.
Proof.
  intros Hv. unfold get_le, mem_read. rewrite drop_0.
  rewrite take_app_length' by (by rewrite length_le_bytes).
  rewrite le_val_le_bytes. by apply Z.mod_small.
Qed.

Lemma get_le_app_skip n off bs rest :
  (length bs <= off)%nat -> get_le n off (bs ++ rest) = get_le n (off - length bs) rest.
Proof. intros. unfold get_le, mem_read. by rewrite drop_app_ge. Qed.

Lemma get_le_mem_read n off m k b :
  (off + n <= m)%nat -> get_le n off (mem_read k m b) = get_le n (k + off) b.
Proof.
  intros. unfold get_le, mem_read. f_equal.
  rewrite skipn_firstn_comm, take_take, drop_drop. f_equal. lia.
Qed.


(** Fixed-size elements laid out one after the other. *)
Lemma length_mjoin_const {A} (ls : list (list A)) k :
  Forall (fun l => length l = k) ls -> length (mjoin ls) = (length ls * k)%nat.
Proof. induction 1 as [|l ls Hl _ IH]; [done|].
  change (mjoin (l :: ls)) with (l ++ mjoin ls). rewrite length_app, IH, Hl. cbn [length]. lia.
Qed.

Lemma mem_read_mjoin (ls : list (list Z)) k i x rest :
  Forall (fun l => length l = k) ls -> ls !! i = Some x ->
  mem_read (i * k) k (mjoin ls ++ rest) = x.
Proof.
  intros Hls. revert i. induction Hls as [|l ls Hl Hls IH]; intros i Hi; [done|].
  unfold mem_read in *. change (mjoin (l :: ls)) with (l ++ mjoin ls).
  rewrite <- app_assoc. destruct i as [|i].
  - cbn in Hi. injection Hi as ->. rewrite Nat.mul_0_l, drop_0. by apply take_app_length'.
  - cbn in Hi. rewrite drop_app_ge by (rewrite Hl; lia).
    replace (S i * k - length l)%nat with (i * k)%nat by lia. by apply IH.
Qed.

Lemma get_le_le_bytes n v : 0 <= v < 256 ^ Z.of_nat n -> get_le n 0 (le_bytes n v) = v.
Proof. intros. rewrite <- (app_nil_r (le_bytes n v)). by apply get_le_app_here. Qed.

(** Reads one field of a record laid out as a concatenation of fields. *)
Ltac get_field :=
  repeat (rewrite get_le_app_skip by (rewrite length_le_bytes; lia); rewrite length_le_bytes; cbn [Nat.sub]);
  first [apply get_le_app_here | apply get_le_le_bytes].

(** ** Counting the entries of a list that pass a test *)

Section Count.
Context {A : Type}.
Implicit Types (p : A -> bool) (l : list A).

Definition count p l : Z := Z.of_nat (length (filter (fun x => p x = true) l)).

Lemma count_cons p x l : count p (x :: l) = Z.b2z (p x) + count p l.
Proof. unfold count. rewrite filter_cons. case_decide as Hp; [rewrite Hp; cbn; lia|]. apply not_true_is_false in Hp. rewrite Hp. cbn. lia. Qed.

Lemma count_app p l m : count p (l ++ m) = count p l + count p m.
Proof. unfold count. rewrite filter_app, length_app. lia. Qed.

Lemma count_nonneg p l : 0 <= count p l.
Proof. unfold count. lia. Qed.

Lemma count_insert p l : forall i x y, l !! i = Some x -> count p (<[i := y]> l) = count p l - Z.b2z (p x) + Z.b2z (p y).
Proof.
  induction l as [|a l IH]; intros [|i] x y E; [done|done|..].
  - injection E as ->. change (<[0%nat := y]> (x :: l)) with (y :: l). rewrite !count_cons. lia.
  - change (<[S i := y]> (a :: l)) with (a :: <[i := y]> l). rewrite !count_cons, (IH i x y E). lia.
Qed.

Lemma count_some p l : forall i x, l !! i = Some x -> p x = true -> 1 <= count p l.
Proof.
  induction l as [|a l IH]; intros [|i] x E Hx; [done|done|..]; rewrite count_cons.
  - injection E as ->. rewrite Hx. pose proof (count_nonneg p l). cbn. lia.
  - specialize (IH i x E Hx). destruct (p a); cbn; lia.
Qed.

Lemma count_none p l : (forall i x, l !! i = Some x -> p x = false) -> count p l = 0.
Proof.
  induction l as [|x l IH]; intros Hn; [done|]. rewrite count_cons, (Hn 0%nat x eq_refl), IH; [done|].
  intros i y E. by apply (Hn (S i)).
Qed.

Lemma count_find p l : 0 < count p l -> exists i x, l !! i = Some x /\ p x = true.
Proof.
  induction l as [|x l IH]; [done|]. rewrite count_cons. destruct (p x) eqn:Ep; [by exists 0%nat, x|].
  intros H. destruct IH as (i & y & ? & ?); [done|]. by exists (S i), y.
Qed.

Lemma count_two p l : forall i j x y, i <> j -> l !! i = Some x -> l !! j = Some y -> p x = true -> p y = true -> 2 <= count p l.
Proof.
  induction l as [|a l IH]; intros [|i] [|j] x y Hij Ei Ej Hx Hy; [done|done|done|done|by destruct Hij|..]; rewrite count_cons.
  - injection Ei as ->. rewrite Hx. pose proof (count_some p l j y Ej Hy). cbn. lia.
  - injection Ej as ->. rewrite Hy. pose proof (count_some p l i x Ei Hx). cbn. lia.
  - assert (2 <= count p l) by (apply (IH i j x y); [congruence|done..]). destruct (p a); cbn; lia.
Qed.

End Count.

(** ** Code that throws

    The result of a function that may throw: its value or the exception. *)


Inductive exn := runtime_error | logic_error | invalid_argument.

Inductive res (A : Type) : Type :=
  | Ok (a : A)
  | Throw (e : exn).
Arguments Ok {A} _.
Arguments Throw {A} _.

#[export] Instance res_ret : MRet res := fun A => Ok.
#[export] Instance res_bind : MBind res := fun A B f m =>
  match m with Ok a => f a | Throw e => Throw e end.

#[export] Instance Ok_inj {A} : Inj (=) (=) (@Ok A).
Proof. by intros x y [= ->]. Qed.

Definition is_ok {A} (r : res A) : bool := match r with Ok _ => true | Throw _ => false end.

Lemma res_bind_Ok {A B} (m : res A) (f : A -> res B) b :
  (m ≫= f) = Ok b -> exists a, m = Ok a /\ f a = Ok b.
Proof. destruct m; cbn; [eauto|done]. Qed.

(** Code that may throw and changes a state: what was done before an exception
    stays done. *)
Definition stm (St A : Type) : Type := St -> res A * St.

#[export] Instance stm_ret {St} : MRet (stm St) := fun A a s => (Ok a, s).
#[export] Instance stm_bind {St} : MBind (stm St) := fun A B f m s =>
  match m s with (Ok a, s) => f a s | (Throw e, s) => (Throw e, s) end.

Definition get_state {St} : stm St St := fun s => (Ok s, s).
Definition modify {St} (f : St -> St) : stm St unit := fun s => (Ok tt, f s).
Definition throw {St A} (e : exn) : stm St A := fun s => (Throw e, s).
Definition from_res {St A} (r : res A) : stm St A := fun s => (r, s).
(** [None] is an exception of the callee, or behaviour the language does not
    define. *)
Definition from_opt {St A} (o : option A) : stm St A :=
  match o with Some a => mret a | None => throw runtime_error end.
(** A destructor that runs in either case. *)
Definition finally {St A} (m : stm St A) (f : St -> St) : stm St A :=
  fun s => let '(r, s) := m s in (r, f s).

Lemma stm_bind_Ok {St A B} (m : stm St A) (f : A -> stm St B) s a s' :
  m s = (Ok a, s') -> (m ≫= f) s = f a s'.
Proof. intros H. unfold mbind, stm_bind. by rewrite H. Qed.

Lemma stm_get {St B} (f : St -> stm St B) s : (get_state ≫= f) s = f s s.
Proof. done. Qed.

Lemma stm_modify {St B} g (f : unit -> stm St B) s : (modify g ≫= f) s = f tt (g s).
Proof. done. Qed.

(** An array of [n] little-endian 32-bit integers at [off]. *)
Definition read_u32s (off n : nat) (b : buf) : list Z := (fun i => get32 (off + 4 * i) b) <$> seq 0 n.

Definition u32s_bytes (l : list Z) : list Z := mjoin (le_bytes 4 <$> l).

Lemma u32s_bytes_app l l' : u32s_bytes (l ++ l') = u32s_bytes l ++ u32s_bytes l'.
Proof. unfold u32s_bytes. by rewrite fmap_app, join_app. Qed.

Lemma length_u32s_bytes l : length (u32s_bytes l) = (4 * length l)%nat.
Proof.
  unfold u32s_bytes. rewrite (length_mjoin_const _ 4).
  - rewrite length_fmap. lia.
  - apply Forall_fmap, Forall_true. intros x. apply length_le_bytes.
Qed.

Lemma read_u32s_bytes l b off n :
  Forall (in_width 32) l -> n = length l -> mem_read off (4 * n) b = u32s_bytes l ->
  read_u32s off n b = l.
Proof.
  intros Hl -> Hb. unfold read_u32s. apply list_eq. intros i. rewrite list_lookup_fmap.
  destruct (decide (i < length l)%nat) as [Hi|Hi].
  2:{ rewrite lookup_seq_ge by lia. by rewrite lookup_ge_None_2 by lia. }
  rewrite lookup_seq_lt by done. destruct (lookup_lt_is_Some_2 l i Hi) as [x Hx]. rewrite Hx.
  cbn [fmap option_fmap option_map]. f_equal.
  rewrite Nat.add_0_l, <- (get_le_mem_read 4 (4 * i) (4 * length l) off b) by lia. rewrite Hb.
  rewrite Forall_lookup in Hl. specialize (Hl _ _ Hx). unfold in_width in Hl.
  assert (Hr : mem_read (i * 4) 4 (u32s_bytes l) = le_bytes 4 x).
  { rewrite <- (app_nil_r (u32s_bytes l)). apply mem_read_mjoin.
    - apply Forall_fmap, Forall_true. intros y. apply length_le_bytes.
    - by rewrite list_lookup_fmap, Hx. }
  unfold get_le. replace (4 * i)%nat with (i * 4)%nat by lia. rewrite Hr, le_val_le_bytes.
  apply Z.mod_small. change (2 ^ 32) with 4294967296 in Hl. lia.
Qed.

(** Reading inside a block that was copied into a buffer. *)
Lemma mem_read_sub off n k m b : (k + n <= m)%nat -> mem_read k n (mem_read off m b) = mem_read (off + k) n b.
Proof.
  intros. unfold mem_read. rewrite skipn_firstn_comm, take_take, drop_drop. f_equal. lia.
Qed.

Lemma mem_read_write_in off bs b k n :
  (k + n <= length bs)%nat -> (off + length bs <= length b)%nat ->
  mem_read (off + k) n (mem_write off bs b) = mem_read k n bs.
Proof.
  intros. rewrite <- (mem_read_sub off n k (length bs)) by lia.
  by rewrite mem_read_write_same by lia.
Qed.

Lemma mem_read_app_l k n b b' : (k + n <= length b)%nat -> mem_read k n (b ++ b') = mem_read k n b.
Proof.
  intros. unfold mem_read. rewrite drop_app_le by lia. apply take_app_le. rewrite length_drop. lia.
Qed.

Lemma mem_read_app_r k n b b' : (length b <= k)%nat -> mem_read k n (b ++ b') = mem_read (k - length b) n b'.
Proof. intros. unfold mem_read. by rewrite drop_app_ge by lia. Qed.

(** ** Writing one entry per vertex *)

Definition write_all {X : Type} (f : Z -> X) (vs : list Z) (l : list X) : list X := foldl (fun l v => <[Z.to_nat v := f v]> l) l vs.

Lemma length_write_all {X : Type} (f : Z -> X) vs l : length (write_all f vs l) = length l.
Proof. unfold write_all. revert l. induction vs as [|v vs IH]; intros l; [done|]. cbn [foldl]. by rewrite IH, length_insert. Qed.

Lemma write_all_lookup {X : Type} (f : Z -> X) vs i : forall l, (i < length l)%nat -> (forall v, v ∈ vs -> 0 <= v) ->
  write_all f vs l !! i = if decide (Z.of_nat i ∈ vs) then Some (f (Z.of_nat i)) else l !! i.
Proof.
  induction vs as [|v vs IH]; intros l Hi Hv; [by rewrite decide_False by apply not_elem_of_nil|].
  cbn [write_all foldl]. change (write_all f vs (<[Z.to_nat v := f v]> l) !! i = if decide (Z.of_nat i ∈ v :: vs) then Some (f (Z.of_nat i)) else l !! i).
  rewrite IH; [|by rewrite length_insert|intros w Hw; apply Hv; by right]. assert (H0 : 0 <= v) by (apply Hv; left).
  destruct (decide (Z.of_nat i ∈ vs)) as [Hin|Hin].
  - rewrite decide_True by by right. done.
  - destruct (decide (v = Z.of_nat i)) as [->|Hne].
    + rewrite decide_True by left. rewrite Nat2Z.id. by apply list_lookup_insert_eq.
    + rewrite list_lookup_insert_ne by lia. rewrite decide_False; [done|]. rewrite elem_of_cons. naive_solver.
Qed.

Lemma write_all_ids {X : Type} (f : Z -> X) k l : length l = k -> write_all f (seqZ 0 (Z.of_nat k)) l = f <$> seqZ 0 (Z.of_nat k).
Proof.
  intros Hl. apply list_eq. intros i. rewrite list_lookup_fmap. destruct (decide (i < k)%nat) as [Hi|Hi].
  - rewrite write_all_lookup; [|lia|intros v Hv; apply elem_of_seqZ in Hv; lia]. rewrite decide_True by (apply elem_of_seqZ; lia).
    by rewrite (proj2 (lookup_seqZ 0 (Z.of_nat k) i (Z.of_nat i))) by lia.
  - rewrite (lookup_ge_None_2 (write_all f _ l)) by (rewrite length_write_all; lia).
    by rewrite (lookup_ge_None_2 (seqZ _ _)) by (rewrite length_seqZ; lia).
Qed.
