(* ===== verification/Config.v ===== *)
(** * Configuration constants and shared identifier types

    The globals of [common/config.h] that the storage engine reads, the
    enumerations of [common/type.h] and the index-capacity computation of
    [common/utils.h].  The globals are set once from a configuration file, so
    every definition takes them from a [Config] instance; [default_config] has
    the values of the header. *)

From S2P Require Import Prelude.

Local Open Scope Z_scope.

Class Config := {
  PAGE_SIZE : nat;               (* BW_GRAPH_PAGE_SIZE *)
  DEFAULT_DB_IO_SIZE : Z;        (* BW_GRAPH_DEFAULT_DB_IO_SIZE *)
  DELTA_PAGE_SIZE : nat;         (* BW_DELTA_PAGE_SIZE *)
  GIANT_DEGREE_BOUND : Z;        (* BW_GRAPH_GIANT_DEGREE_BOUND *)
  INDEX_PAGE_SIZE : nat;         (* BW_GRAPH_INDEX_PAGE_SIZE *)
  MAX_BLOCK_NEIGHBOR : nat;      (* BW_GRAPH_MAX_BLOCK_NEIGHBOR *)
  MAX_DELTA_CHAIN_LENGTH : Z;    (* BW_GRAPH_MAX_DELTA_CHAIN_LENGTH *)
  EDGE_SLOT_COUNT : Z;           (* BW_GRAPH_EDGE_SLOT_COUNT *)
  INDEX_MAX_BLOCKS : nat;        (* BW_GRAPH_INDEX_MAX_BLOCKS *)
  NEIGHBOR_COMPRESS : bool       (* BW_GRAPH_NEIGHBOR_COMPRESS, a build option *)
}.

(** ** Enumerations of [common/type.h] *)

Inductive vertex_type_t := NORMAL | GIANT.
Inductive insert_status_t := INSERTED | EXISTS | SLOT_FULL | FAILED.
Inductive delta_page_status_t := ACCUMULATE | CONSOLIDATE | OUTOFDATE.
Inductive delta_target_t := VERTEX | EDGE.
Inductive delta_type_t := INSERT | DELETE.

#[export] Instance vertex_type_t_eq_dec : EqDecision vertex_type_t.
Proof. solve_decision. Defined.
#[export] Instance insert_status_t_eq_dec : EqDecision insert_status_t.
Proof. solve_decision. Defined.
#[export] Instance delta_page_status_t_eq_dec : EqDecision delta_page_status_t.
Proof. solve_decision. Defined.
#[export] Instance delta_target_t_eq_dec : EqDecision delta_target_t.
Proof. solve_decision. Defined.
#[export] Instance delta_type_t_eq_dec : EqDecision delta_type_t.
Proof. solve_decision. Defined.

(** [std::numeric_limits<page_no_t>::max()] and the record-index sentinel. *)
Definition INVALID_DELTA_PAGE_NO : Z := 2 ^ 32 - 1.
Definition INVALID_DELTA_RECORD_IDX : Z := 2 ^ 32 - 1.

(** ** Index page capacity ([common/utils.h]) *)

Section Capacity.
Variables P N : Z.

(** The left-hand side of the page-size inequality for [B] blocks. *)
Definition bw_left_side (B : Z) : Z := (3 + B + N) * 4 + (B * B + 7) `div` 8.

(** The binary search; [None] when the fuel runs out. *)
Fixpoint bw_search (fuel : nat) (left right result : Z) : option Z :=
  match fuel with
  | O => None
  | S fuel =>
    if left <=? right then
      let mid := left + (right - left) `div` 2 in
      if bw_left_side mid <? P then bw_search fuel (mid + 1) right mid
      else if mid =? 0 then Some result
      else bw_search fuel left (mid - 1) result
    else Some result
  end.

Definition calculate_bw_capacity : option Z :=
  if P <=? (3 + N) * 4 then Some 0
  else
    result ← bw_search 65 0 P 0;
    if P <=? bw_left_side result then Some 100 else Some result.

Lemma bw_left_side_mono a b : 0 <= a <= b -> bw_left_side a <= bw_left_side b.
Proof.
  intros. unfold bw_left_side.
  assert (a * a <= b * b) by nia.
  pose proof (Z.div_le_mono (a * a + 7) (b * b + 7) 8). lia.
Qed.

(** The search returns the last value that fits: everything above the
    interval does not fit, [result] is the value just below it. *)
Lemma bw_search_max fuel left right result :
  right - left + 1 < 2 ^ Z.of_nat fuel ->
  0 <= left -> left - 1 <= right -> 0 <= result -> bw_left_side result < P ->
  (left = result + 1 \/ left = 0 /\ result = 0) ->
  (forall b, right < b -> P <= bw_left_side b) ->
  exists r, bw_search (S fuel) left right result = Some r /\ 0 <= r /\ bw_left_side r < P /\
    forall b, r < b -> P <= bw_left_side b.
Proof.
  revert left right result. induction fuel as [|fuel IH]; intros left right result Hf Hl Hlr Hr Hfit Hres Habove.
  { change (2 ^ Z.of_nat 0) with 1 in Hf. cbn [bw_search].
    destruct (Z.leb_spec left right); [lia|]. exists result. repeat split; auto.
    intros b Hb. apply Habove. lia. }
  rewrite Nat2Z.inj_succ, Z.pow_succ_r in Hf by lia. cbn [bw_search].
  destruct (Z.leb_spec left right) as [Hle|Hgt].
  2:{ exists result. repeat split; auto. intros b Hb. apply Habove. lia. }
  set (mid := left + (right - left) `div` 2).
  assert (left <= mid <= right) by (unfold mid; Z.div_mod_to_equations; lia).
  assert (right - mid < 2 ^ Z.of_nat fuel /\ mid - left < 2 ^ Z.of_nat fuel)
    by (unfold mid; Z.div_mod_to_equations; lia).
  destruct (Z.ltb_spec (bw_left_side mid) P) as [Hm|Hm].
  - apply IH; auto; lia.
  - destruct (Z.eqb_spec mid 0).
    + exists result. repeat split; auto. intros b Hb.
      pose proof (bw_left_side_mono mid b). lia.
    + apply IH; auto; try lia. intros b Hb.
      pose proof (bw_left_side_mono mid b). lia.
Qed.

(** For a page of less than 2^32 bytes that holds the fixed metadata,
    [calculate_bw_capacity] terminates and returns the largest number of
    blocks whose index page layout fits strictly below the page size; the
    fallback value 100 is never taken. *)
Theorem calculate_bw_capacity_max :
  0 <= N -> (3 + N) * 4 < P < 2 ^ 32 ->
  exists B, calculate_bw_capacity = Some B /\ 0 <= B /\ bw_left_side B < P /\
    forall b, B < b -> P <= bw_left_side b.
Proof.
  intros HN [HP HP32]. unfold calculate_bw_capacity.
  destruct (Z.leb_spec P ((3 + N) * 4)); [lia|].
  destruct (bw_search_max 64 0 P 0) as (r & Hr & Hr0 & Hfit & Habove); try lia.
  - unfold bw_left_side. change ((0 * 0 + 7) `div` 8) with 0. lia.
  - intros b Hb. unfold bw_left_side.
    assert (0 <= b * b) by nia. pose proof (Z.div_pos (b * b + 7) 8). lia.
  - rewrite Hr. cbn. destruct (Z.leb_spec P (bw_left_side r)); [lia|]. eauto.
Qed.

End Capacity.

Lemma calculate_bw_capacity_max_witness :
  calculate_bw_capacity 16384 16 = Some 345 /\
  exists B, calculate_bw_capacity 16384 16 = Some B /\ 0 <= B /\ bw_left_side 16 B < 16384 /\
    forall b, B < b -> 16384 <= bw_left_side 16 b.
Proof.
  split; [vm_compute; reflexivity|].
  apply (calculate_bw_capacity_max 16384 16); [lia|]. split; [lia|reflexivity].
Defined.

(** ** Configurations

    The header's defaults, and a small one for evaluating the model. *)

Definition default_config : Config := {|
  PAGE_SIZE := 65536; DEFAULT_DB_IO_SIZE := 16; DELTA_PAGE_SIZE := 4096;
  GIANT_DEGREE_BOUND := 128; INDEX_PAGE_SIZE := 16384; MAX_BLOCK_NEIGHBOR := 16;
  MAX_DELTA_CHAIN_LENGTH := 1; EDGE_SLOT_COUNT := 0;
  INDEX_MAX_BLOCKS := Z.to_nat (default 0 (calculate_bw_capacity 16384 16));
  NEIGHBOR_COMPRESS := false |}.

Definition small_config : Config := {|
  PAGE_SIZE := 256; DEFAULT_DB_IO_SIZE := 2; DELTA_PAGE_SIZE := 100;
  GIANT_DEGREE_BOUND := 8; INDEX_PAGE_SIZE := 256; MAX_BLOCK_NEIGHBOR := 2;
  MAX_DELTA_CHAIN_LENGTH := 1; EDGE_SLOT_COUNT := 0; INDEX_MAX_BLOCKS := 4;
  NEIGHBOR_COMPRESS := false |}.
