(* ===== verification/PtvCodec.v ===== *)
(** * The PTV neighbour codec ([common/ptv_codec.h])

  Variable-length vertex identifiers: the two top bits of the first byte
  give the length, the remaining bits the identifier, most significant byte
  first.  A slot is the same identifier in the fixed four-byte form. *)

From S2P Require Import Prelude.

Local Open Scope Z_scope.

Module Ptv.

Definition ptv_encoded_size (id : Z) : nat :=
  if id <? Z.shiftl 1 6 then 1%nat
  else if id <? Z.shiftl 1 14 then 2%nat
  else if id <? Z.shiftl 1 22 then 3%nat
  else 4%nat.

(** The bytes that [ptv_write] stores at [buf]; their number is its result. *)
Definition ptv_write (id : Z) : list Z :=
  match ptv_encoded_size id with
  | 1%nat => [u8 id]
  | 2%nat => [u8 (Z.lor 0x40 (Z.shiftr id 8)); u8 id]
  | 3%nat => [u8 (Z.lor 0x80 (Z.shiftr id 16)); u8 (Z.shiftr id 8); u8 id]
  | _ => [u8 (Z.lor 0xC0 (Z.shiftr id 24)); u8 (Z.shiftr id 16);
          u8 (Z.shiftr id 8); u8 id]
  end.

Definition ptv_write_slot (id : Z) : list Z :=
  [u8 (Z.lor 0xC0 (Z.shiftr id 24)); u8 (Z.shiftr id 16); u8 (Z.shiftr id 8); u8 id].

Definition ptv_read (b : buf) : Z * nat :=
  let tag := Z.land (Z.shiftr (get_byte b 0) 6) 0x3 in
  let hi := Z.land (get_byte b 0) 0x3F in
  if tag =? 0 then (hi, 1%nat)
  else if tag =? 1 then (Z.lor (Z.shiftl hi 8) (get_byte b 1), 2%nat)
  else if tag =? 2 then
    (Z.lor (Z.lor (Z.shiftl hi 16) (Z.shiftl (get_byte b 1) 8)) (get_byte b 2), 3%nat)
  else
    (Z.lor (Z.lor (Z.lor (Z.shiftl hi 24) (Z.shiftl (get_byte b 1) 16))
              (Z.shiftl (get_byte b 2) 8)) (get_byte b 3), 4%nat).

Definition ptv_slot_is_empty (b : buf) : bool :=
  (get_byte b 0 =? 0xC0) && (get_byte b 1 =? 0) && (get_byte b 2 =? 0) && (get_byte b 3 =? 0).

(** ** The lazy iterator and its range

    [ptr_] is the rest of the encoded stream. *)

Record ptv_neighbor_iter_t := Iter { ptr_ : buf; remaining_ : Z }.

Definition has_next (it : ptv_neighbor_iter_t) : bool := 0 <? remaining_ it.

Definition next (it : ptv_neighbor_iter_t) : Z * ptv_neighbor_iter_t :=
  let '(id, sz) := ptv_read (ptr_ it) in
  (id, Iter (drop sz (ptr_ it)) (u32 (remaining_ it - 1))).

Definition deref (it : ptv_neighbor_iter_t) : Z := (ptv_read (ptr_ it)).1.

Definition incr (it : ptv_neighbor_iter_t) : ptv_neighbor_iter_t :=
  Iter (drop (ptv_read (ptr_ it)).2 (ptr_ it)) (u32 (remaining_ it - 1)).

Definition iter_eqb (a b : ptv_neighbor_iter_t) : bool := remaining_ a =? remaining_ b.

Record ptv_neighbor_range_t := Range { data_ : buf; count_ : Z }.

Definition range_begin (r : ptv_neighbor_range_t) := Iter (data_ r) (count_ r).
Definition range_end (r : ptv_neighbor_range_t) := Iter (data_ r) 0.

(** [for (auto id : range)]: the loop a range-based [for] expands to. *)
Fixpoint range_for (fuel : nat) (it e : ptv_neighbor_iter_t) : list Z :=
  match fuel with
  | O => []
  | S fuel => if iter_eqb it e then [] else deref it :: range_for fuel (incr it) e
  end.

Definition range_list (r : ptv_neighbor_range_t) : list Z :=
  range_for (Z.to_nat (count_ r)) (range_begin r) (range_end r).

Definition encode_list (ids : list Z) : list Z := mjoin (ptv_write <$> ids).

(** ** Properties *)

Lemma land3_mod a : Z.land a 0x3 = a `mod` 4.
Proof. by rewrite (land_ones_mod a 0x3 2). Qed.

Lemma land3F_mod a : Z.land a 0x3F = a `mod` 64.
Proof. by rewrite (land_ones_mod a 0x3F 6). Qed.

Lemma tag_byte t x : 0 <= x < 64 -> Z.lor (Z.shiftl t 6) x = t * 64 + x.
Proof. intros. by rewrite lor_shiftl_add by (cbn; lia). Qed.

(** The first byte as arithmetic on the identifier's top bits. *)
Lemma tag_bytes x : 0 <= x < 64 ->
  Z.lor 0x40 x = 64 + x /\ Z.lor 0x80 x = 128 + x /\ Z.lor 0xC0 x = 192 + x.
Proof.
  intros. pose proof (tag_byte 1 x). pose proof (tag_byte 2 x). pose proof (tag_byte 3 x).
  change (Z.shiftl 1 6) with 0x40 in *. change (Z.shiftl 2 6) with 0x80 in *.
  change (Z.shiftl 3 6) with 0xC0 in *. lia.
Qed.

Lemma join2 a b : 0 <= b < 256 -> Z.lor (Z.shiftl a 8) b = a * 256 + b.
Proof. intros. by rewrite lor_shiftl_add by (cbn; lia). Qed.

Lemma join3 a b c : 0 <= b < 256 -> 0 <= c < 256 ->
  Z.lor (Z.lor (Z.shiftl a 16) (Z.shiftl b 8)) c = a * 65536 + b * 256 + c.
Proof.
  intros. replace (Z.shiftl a 16) with (Z.shiftl (Z.shiftl a 8) 8)
    by (by rewrite Z.shiftl_shiftl by lia).
  rewrite <- Z.shiftl_lor, !join2 by lia. lia.
Qed.

Lemma join4 a b c d : 0 <= b < 256 -> 0 <= c < 256 -> 0 <= d < 256 ->
  Z.lor (Z.lor (Z.lor (Z.shiftl a 24) (Z.shiftl b 16)) (Z.shiftl c 8)) d =
  a * 16777216 + b * 65536 + c * 256 + d.
Proof.
  intros. replace (Z.shiftl a 24) with (Z.shiftl (Z.shiftl a 16) 8)
    by (by rewrite Z.shiftl_shiftl by lia).
  replace (Z.shiftl b 16) with (Z.shiftl (Z.shiftl b 8) 8)
    by (by rewrite Z.shiftl_shiftl by lia).
  rewrite <- !Z.shiftl_lor, join3, join2 by lia. lia.
Qed.

Lemma length_ptv_write id : length (ptv_write id) = ptv_encoded_size id.
Proof. unfold ptv_write, ptv_encoded_size. by repeat case_match. Qed.

Lemma ptv_write_is_byte id : Forall is_byte (ptv_write id).
Proof.
  unfold ptv_write. repeat case_match; repeat constructor; apply Z.mod_pos_bound; lia.
Qed.

Ltac ptv_arith :=
  rewrite ?Z.shiftr_div_pow2, ?land3_mod, ?land3F_mod by lia;
  unfold wrap;
  change (2 ^ 6) with 64 in *; change (2 ^ 8) with 256 in *;
  change (2 ^ 14) with 16384 in *; change (2 ^ 22) with 4194304 in *;
  change (2 ^ 16) with 65536 in *; change (2 ^ 24) with 16777216 in *.

Lemma ptv_size_cases id :
  0 <= id ->
  (id < 64 /\ ptv_encoded_size id = 1%nat) \/
  (64 <= id < 16384 /\ ptv_encoded_size id = 2%nat) \/
  (16384 <= id < 4194304 /\ ptv_encoded_size id = 3%nat) \/
  (4194304 <= id /\ ptv_encoded_size id = 4%nat).
Proof.
  intros. unfold ptv_encoded_size.
  change (Z.shiftl 1 6) with 64; change (Z.shiftl 1 14) with 16384;
    change (Z.shiftl 1 22) with 4194304.
  destruct (Z.ltb_spec id 64); [lia|]. destruct (Z.ltb_spec id 16384); [lia|].
  destruct (Z.ltb_spec id 4194304); lia.
Qed.

(** Decoding of a first byte [t * 64 + x]. *)
Lemma first_byte t x : 0 <= t < 4 -> 0 <= x < 64 ->
  Z.land (Z.shiftr (t * 64 + x) 6) 0x3 = t /\ Z.land (t * 64 + x) 0x3F = x.
Proof.
  intros. ptv_arith. split; Z.div_mod_to_equations; lia.
Qed.

Lemma read_1 b rest x : 0 <= x < 64 -> b = x -> ptv_read (b :: rest) = (x, 1%nat).
Proof.
  intros ? ->. unfold ptv_read. change (get_byte (x :: rest) 0) with x.
  destruct (first_byte 0 x) as [Et Ex]; [lia..|]. rewrite Z.mul_0_l, Z.add_0_l in Et, Ex.
  by rewrite Et, Ex.
Qed.

Lemma read_2 x b1 rest : 0 <= x < 64 -> 0 <= b1 < 256 ->
  ptv_read (64 + x :: b1 :: rest) = (x * 256 + b1, 2%nat).
Proof.
  intros. unfold ptv_read. rewrite !get_byte_S, !get_byte_0.
  destruct (first_byte 1 x) as [Et Ex]; [lia..|]. rewrite Z.mul_1_l in Et, Ex.
  rewrite Et, Ex. cbn [Z.eqb Pos.eqb]. by rewrite join2 by lia.
Qed.

Lemma read_3 x b1 b2 rest : 0 <= x < 64 -> 0 <= b1 < 256 -> 0 <= b2 < 256 ->
  ptv_read (128 + x :: b1 :: b2 :: rest) = (x * 65536 + b1 * 256 + b2, 3%nat).
Proof.
  intros. unfold ptv_read. rewrite !get_byte_S, !get_byte_0.
  destruct (first_byte 2 x) as [Et Ex]; [lia..|]. change (2 * 64) with 128 in Et, Ex.
  rewrite Et, Ex. cbn [Z.eqb Pos.eqb]. by rewrite join3 by lia.
Qed.

Lemma read_4 x b1 b2 b3 rest :
  0 <= x < 64 -> 0 <= b1 < 256 -> 0 <= b2 < 256 -> 0 <= b3 < 256 ->
  ptv_read (192 + x :: b1 :: b2 :: b3 :: rest) =
  (x * 16777216 + b1 * 65536 + b2 * 256 + b3, 4%nat).
Proof.
  intros. unfold ptv_read. rewrite !get_byte_S, !get_byte_0.
  destruct (first_byte 3 x) as [Et Ex]; [lia..|]. change (3 * 64) with 192 in Et, Ex.
  rewrite Et, Ex. cbn [Z.eqb Pos.eqb]. by rewrite join4 by lia.
Qed.

Lemma read_slot id rest : 0 <= id < 2 ^ 30 ->
  ptv_read (ptv_write_slot id ++ rest) = (id, 4%nat).
Proof.
  intros H. change (2 ^ 30) with 1073741824 in H. unfold ptv_write_slot. ptv_arith.
  destruct (tag_bytes (id `div` 16777216)) as (_ & _ & ->);
    [Z.div_mod_to_equations; lia|].
  rewrite Z.mod_small by (Z.div_mod_to_equations; lia). cbn [app].
  rewrite read_4 by (Z.div_mod_to_equations; lia). f_equal.
  Z.div_mod_to_equations; lia.
Qed.

Lemma ptv_read_write id rest : 0 <= id < 2 ^ 30 ->
  ptv_read (ptv_write id ++ rest) = (id, ptv_encoded_size id).
Proof.
  intros H. unfold ptv_write.
  destruct (ptv_size_cases id) as [[? ->]|[[? ->]|[[? ->]|[? E]]]]; [lia|..].
  - apply read_1; [lia|]. ptv_arith. by rewrite Z.mod_small by lia.
  - ptv_arith. destruct (tag_bytes (id `div` 256)) as (-> & _ & _);
      [Z.div_mod_to_equations; lia|].
    rewrite Z.mod_small by (Z.div_mod_to_equations; lia). cbn [app].
    rewrite read_2 by (Z.div_mod_to_equations; lia). f_equal.
    Z.div_mod_to_equations; lia.
  - ptv_arith. destruct (tag_bytes (id `div` 65536)) as (_ & -> & _);
      [Z.div_mod_to_equations; lia|].
    rewrite Z.mod_small by (Z.div_mod_to_equations; lia). cbn [app].
    rewrite read_3 by (Z.div_mod_to_equations; lia). f_equal.
    Z.div_mod_to_equations; lia.
  - rewrite E. by apply (read_slot id rest).
Qed.

Lemma range_for_encode ids rest :
  Forall (fun id => 0 <= id < 2 ^ 30) ids -> Z.of_nat (length ids) < 2 ^ 32 ->
  range_for (length ids) (Iter (encode_list ids ++ rest) (Z.of_nat (length ids)))
    (Iter (encode_list ids ++ rest) 0) = ids.
Proof.
  generalize (encode_list ids ++ rest) at 2 as e.
  induction ids as [|id ids IH]; intros e Hids Hlen; [done|].
  apply Forall_cons in Hids as [Hid Hids]. cbn [length] in *.
  cbn [range_for]. unfold iter_eqb, deref, incr, encode_list; cbn [remaining_ ptr_].
  cbn [fmap list_fmap mjoin list_join].
  rewrite <- app_assoc, ptv_read_write by done. cbn [fst snd].
  rewrite <- length_ptv_write, drop_app_length.
  destruct (Z.eqb_spec (Z.of_nat (S (length ids))) 0); [lia|]. f_equal.
  rewrite wrap_small by (unfold in_width; lia).
  replace (Z.of_nat (S (length ids)) - 1) with (Z.of_nat (length ids)) by lia.
  apply IH; [done|lia].
Qed.

(** C9: encoding a neighbour list with [ptv_write] and iterating the
    resulting range gives the list back, whatever bytes follow it in the
    page, for identifiers below [2^30] (the four-byte form keeps 30 bits). *)
Theorem range_roundtrip ids rest :
  Forall (fun id => 0 <= id < 2 ^ 30) ids -> Z.of_nat (length ids) < 2 ^ 32 ->
  range_list (Range (encode_list ids ++ rest) (Z.of_nat (length ids))) = ids.
Proof.
  intros. unfold range_list, range_begin, range_end; cbn [data_ count_].
  rewrite Nat2Z.id. by apply range_for_encode.
Qed.

Lemma range_roundtrip_witness :
  range_list (Range (encode_list [5; 100; 20000; 5000000] ++ [7; 7])
    (Z.of_nat (length [5; 100; 20000; 5000000]))) = [5; 100; 20000; 5000000].
Proof.
  apply (range_roundtrip [5; 100; 20000; 5000000] [7; 7]).
  - repeat constructor; vm_compute; congruence.
  - reflexivity.
Defined.

End Ptv.
