(* ===== verification/DeltaPage.v ===== *)
(** * Delta pages ([io/io_delta.h], [io_delta.cc])

    A delta page is a byte frame: a 24-byte header of three [uint64_t] (record
    count, used bytes, parent page) followed by 32-byte [delta_record_t]s,
    plus the parsed fields the object caches.  The operations below work on
    the bytes as the code does; [wf_page] ties the cache to the bytes, and
    [records] is the abstract content. *)

From S2P Require Import Prelude Config.

Local Open Scope Z_scope.

(** ** Delta records *)

Record delta_record_t := DeltaRecord {
  target : delta_target_t;
  type : delta_type_t;
  first : Z;
  second : Z;
  time : Z;
  next_page_no : Z;
  next_record_idx : Z
}.

#[export] Instance delta_record_t_eq_dec : EqDecision delta_record_t.
Proof. solve_decision. Defined.

(** The default constructor. *)
Definition delta_record_default : delta_record_t :=
  DeltaRecord VERTEX INSERT 0 0 0 INVALID_DELTA_PAGE_NO INVALID_DELTA_RECORD_IDX.

(** [delta_record_t(target, type, first, second)]; [now] is the wall clock. *)
Definition new_record (now : Z) (t : delta_target_t) (op : delta_type_t) (a b : Z) : delta_record_t :=
  DeltaRecord t op a b now INVALID_DELTA_PAGE_NO INVALID_DELTA_RECORD_IDX.

Definition has_next (r : delta_record_t) : bool := negb (next_page_no r =? INVALID_DELTA_PAGE_NO).

Definition target_code (t : delta_target_t) : Z := match t with VERTEX => 0 | EDGE => 1 end.
Definition type_code (t : delta_type_t) : Z := match t with INSERT => 0 | DELETE => 1 end.

(** The code only tests [== EDGE] and [== INSERT]. *)
Definition target_of (z : Z) : delta_target_t := if z =? 1 then EDGE else VERTEX.
Definition type_of (z : Z) : delta_type_t := if z =? 0 then INSERT else DELETE.

Definition RECORD_SIZE : nat := 32.
Definition HEADER_SIZE : nat := 24.

(** Object representation of the record: two [uint16_t], two [uint32_t], four
    padding bytes, the [uint64_t] time and the two [uint32_t] link fields. *)
Definition record_bytes (r : delta_record_t) : list Z :=
  le_bytes 2 (target_code (target r)) ++ le_bytes 2 (type_code (type r)) ++
  le_bytes 4 (first r) ++ le_bytes 4 (second r) ++ le_bytes 4 0 ++
  le_bytes 8 (time r) ++ le_bytes 4 (next_page_no r) ++ le_bytes 4 (next_record_idx r).

Definition record_of (b : buf) : delta_record_t :=
  DeltaRecord (target_of (get16 0 b)) (type_of (get16 2 b)) (get32 4 b) (get32 8 b)
    (get64 16 b) (get32 24 b) (get32 28 b).

Definition wf_record (r : delta_record_t) : Prop :=
  in_width 32 (first r) /\ in_width 32 (second r) /\ in_width 64 (time r) /\
  in_width 32 (next_page_no r) /\ in_width 32 (next_record_idx r).

Lemma length_record_bytes r : length (record_bytes r) = RECORD_SIZE.
Proof. unfold record_bytes. by rewrite !length_app, !length_le_bytes. Qed.

Lemma record_of_bytes r rest : wf_record r -> record_of (record_bytes r ++ rest) = r.
Proof.
  destruct r as [tg ty a b t np ni]. unfold wf_record.
  cbn [target type first second time next_page_no next_record_idx]. intros (H1 & H2 & H3 & H4 & H5).
  unfold record_of, record_bytes; cbn [target type first second time next_page_no next_record_idx].
  rewrite <- !app_assoc. unfold in_width in *.
  f_equal.
  - assert (get16 0 (le_bytes 2 (target_code tg) ++ le_bytes 2 (type_code ty) ++ le_bytes 4 a ++
      le_bytes 4 b ++ le_bytes 4 0 ++ le_bytes 8 t ++ le_bytes 4 np ++ le_bytes 4 ni ++ rest)
      = target_code tg) as -> by (get_field; destruct tg; cbn; lia).
    by destruct tg.
  - assert (get16 2 (le_bytes 2 (target_code tg) ++ le_bytes 2 (type_code ty) ++ le_bytes 4 a ++
      le_bytes 4 b ++ le_bytes 4 0 ++ le_bytes 8 t ++ le_bytes 4 np ++ le_bytes 4 ni ++ rest)
      = type_code ty) as -> by (get_field; destruct ty; cbn; lia).
    by destruct ty.
  - get_field; lia.
  - get_field; lia.
  - get_field; lia.
  - get_field; lia.
  - get_field; lia.
Qed.

(** ** Pages *)

Module Delta.

Record delta_page_t := DeltaPage {
  page_no : Z;
  data : buf;
  dirty : bool;
  is_parse_ : bool;
  num_delta_records_ : Z;
  span_len : Z;                     (* delta_records_span_: records at offset 24, its size *)
  used_bytes_ : Z;
  parent_page_no_ : Z;
  next_delta_page_ : option Z;      (* the pointed-to page, by its page number *)
  status_ : delta_page_status_t
}.

Section Ops.
Context `{Config}.

(** The frame contents both constructors and [reinit] write. *)
Definition fresh_data : buf :=
  put64 16 0 (put64 8 24 (put64 0 0 (replicate DELTA_PAGE_SIZE 0))).

Definition reinit (pno : Z) : delta_page_t :=
  DeltaPage pno fresh_data true false 0 0 24 0 None ACCUMULATE.

Definition self_parse (p : delta_page_t) : delta_page_t :=
  let n := get64 0 (data p) in
  DeltaPage (page_no p) (data p) (dirty p) true n
    (if 0 <? n then n else span_len p)
    (get64 8 (data p)) (get64 16 (data p)) (next_delta_page_ p) (status_ p).

Definition ensure_parsed (p : delta_page_t) : delta_page_t :=
  if is_parse_ p then p else self_parse p.

(** [None]: the record at [idx] lies outside the span (undefined in C++). *)
Definition span_get (p : delta_page_t) (idx : Z) : option delta_record_t :=
  if (0 <=? idx) && (idx <? span_len p)
  then Some (record_of (mem_read (HEADER_SIZE + Z.to_nat idx * RECORD_SIZE) RECORD_SIZE (data p)))
  else None.

Definition insert_delta (p : delta_page_t) (r : delta_record_t) : bool * delta_page_t :=
  let p := ensure_parsed p in
  let required_space := used_bytes_ p + Z.of_nat RECORD_SIZE in
  if Z.of_nat DELTA_PAGE_SIZE <? required_space then (false, p)
  else
    let off := (HEADER_SIZE + Z.to_nat (num_delta_records_ p) * RECORD_SIZE)%nat in
    let n := num_delta_records_ p + 1 in
    let d := mem_write off (record_bytes r) (data p) in
    let d := put64 0 n d in
    let d := put64 8 required_space d in
    let d := put64 16 (parent_page_no_ p) d in
    (true, DeltaPage (page_no p) d true true n n required_space (parent_page_no_ p)
             (next_delta_page_ p) (status_ p)).

Definition get_related_records (p : delta_page_t) (v : Z) : list delta_record_t * delta_page_t :=
  let p := ensure_parsed p in
  if num_delta_records_ p =? 0 then ([], p)
  else (filter (fun r => first r = v)
          (omap (span_get p) (seqZ 0 (num_delta_records_ p))), p).

Definition set_parent_page_no (p : delta_page_t) (parent : Z) : delta_page_t :=
  DeltaPage (page_no p) (put64 16 parent (data p)) true (is_parse_ p) (num_delta_records_ p)
    (span_len p) (used_bytes_ p) parent (next_delta_page_ p) (status_ p).

Definition set_next_ptr (p : delta_page_t) (next : option Z) : delta_page_t :=
  DeltaPage (page_no p) (data p) (dirty p) (is_parse_ p) (num_delta_records_ p)
    (span_len p) (used_bytes_ p) (parent_page_no_ p) next (status_ p).

Definition set_status (p : delta_page_t) (st : delta_page_status_t) : delta_page_t :=
  DeltaPage (page_no p) (data p) (dirty p) (is_parse_ p) (num_delta_records_ p)
    (span_len p) (used_bytes_ p) (parent_page_no_ p) (next_delta_page_ p) st.

Definition get_delta_span (p : delta_page_t) : list delta_record_t :=
  omap (span_get p) (seqZ 0 (span_len p)).

Definition get_num_records (p : delta_page_t) : Z := num_delta_records_ p.

Definition get_record (p : delta_page_t) (idx : Z) : option delta_record_t * delta_page_t :=
  let p := ensure_parsed p in (span_get p idx, p).

(** Writes the two link fields of the record in place. *)
Definition clear_record_next (p : delta_page_t) (idx : Z) : delta_page_t :=
  let p := ensure_parsed p in
  let off := (HEADER_SIZE + Z.to_nat idx * RECORD_SIZE)%nat in
  let d := put32 (off + 24) INVALID_DELTA_PAGE_NO (data p) in
  let d := put32 (off + 28) INVALID_DELTA_RECORD_IDX d in
  DeltaPage (page_no p) d true (is_parse_ p) (num_delta_records_ p) (span_len p)
    (used_bytes_ p) (parent_page_no_ p) (next_delta_page_ p) (status_ p).

(** [flush_to_disk] against the page's latch word and a disk that maps page
    numbers to frames; the result says whether the latch was free. *)
Definition flush_to_disk (latched : bool) (p : delta_page_t) (disk : gmap Z buf) :
    bool * delta_page_t * gmap Z buf :=
  if latched then (false, p, disk)
  else if dirty p then
    (true, DeltaPage (page_no p) (data p) false (is_parse_ p) (num_delta_records_ p)
       (span_len p) (used_bytes_ p) (parent_page_no_ p) (next_delta_page_ p) (status_ p),
     <[page_no p := data p]> disk)
  else (true, p, disk).


(** ** Abstract content and the page invariant *)

Definition slot_off (i : nat) : nat := HEADER_SIZE + i * RECORD_SIZE.

Definition record_at (d : buf) (i : nat) : delta_record_t :=
  record_of (mem_read (slot_off i) RECORD_SIZE d).

Definition contents (p : delta_page_t) : list delta_record_t :=
  record_at (data p) <$> seq 0 (Z.to_nat (num_delta_records_ p)).

(** The cached fields agree with the header bytes, and the records fit. *)
Record wf_page (p : delta_page_t) : Prop := {
  wf_len : length (data p) = DELTA_PAGE_SIZE;
  wf_bound : Z.of_nat DELTA_PAGE_SIZE < 2 ^ 32;
  wf_num : get64 0 (data p) = num_delta_records_ p;
  wf_used : get64 8 (data p) = used_bytes_ p;
  wf_parent : get64 16 (data p) = parent_page_no_ p;
  wf_parent_w : in_width 64 (parent_page_no_ p);
  wf_span : span_len p = num_delta_records_ p;
  wf_pos : 0 <= num_delta_records_ p;
  wf_acct : used_bytes_ p = 24 + 32 * num_delta_records_ p;
  wf_fits : used_bytes_ p <= Z.of_nat DELTA_PAGE_SIZE
}.

Definition page_full (p : delta_page_t) : bool := Z.of_nat DELTA_PAGE_SIZE <? used_bytes_ p + 32.

Lemma length_contents p : length (contents p) = Z.to_nat (num_delta_records_ p).
Proof. unfold contents. by rewrite length_fmap, length_seq. Qed.

Lemma lookup_contents p i :
  contents p !! i = if decide (i < Z.to_nat (num_delta_records_ p))%nat
                    then Some (record_at (data p) i) else None.
Proof.
  unfold contents. rewrite list_lookup_fmap. case_decide.
  - by rewrite lookup_seq_lt by lia.
  - by rewrite lookup_seq_ge by lia.
Qed.

Lemma ensure_parsed_wf p : wf_page p ->
  let p' := ensure_parsed p in
  wf_page p' /\ data p' = data p /\ num_delta_records_ p' = num_delta_records_ p /\
  used_bytes_ p' = used_bytes_ p /\ parent_page_no_ p' = parent_page_no_ p /\
  page_no p' = page_no p /\ next_delta_page_ p' = next_delta_page_ p /\ status_ p' = status_ p /\
  is_parse_ p' = true /\ span_len p' = span_len p.
Proof.
  intros Hwf. unfold ensure_parsed. destruct (is_parse_ p) eqn:Hp; [by repeat split; try apply Hwf|].
  destruct Hwf. unfold self_parse. cbn. rewrite wf_num0, wf_used0, wf_parent0.
  assert ((if 0 <? num_delta_records_ p then num_delta_records_ p else span_len p)
          = num_delta_records_ p) as -> by (destruct (Z.ltb_spec 0 (num_delta_records_ p)); lia).
  unfold in_width in *. repeat split; auto; cbn; auto; lia.
Qed.

Lemma contents_ensure_parsed p : wf_page p -> contents (ensure_parsed p) = contents p.
Proof.
  intros Hwf. destruct (ensure_parsed_wf p Hwf) as (_ & Hd & Hn & _).
  unfold contents. by rewrite Hd, Hn.
Qed.

Lemma record_at_header n off v d i :
  (off + n <= HEADER_SIZE)%nat -> record_at (put_le n off v d) i = record_at d i.
Proof.
  intros. unfold record_at, slot_off. f_equal. apply mem_read_put_le_other. lia.
Qed.

Lemma record_at_write_other bs d i j :
  length bs = RECORD_SIZE -> i <> j -> record_at (mem_write (slot_off j) bs d) i = record_at d i.
Proof.
  intros Hl Hij. unfold record_at, slot_off. f_equal. apply mem_read_write_other.
  rewrite Hl. unfold RECORD_SIZE. lia.
Qed.

Lemma record_at_write_same r d i :
  wf_record r -> (slot_off i + RECORD_SIZE <= length d)%nat ->
  record_at (mem_write (slot_off i) (record_bytes r) d) i = r.
Proof.
  intros Hr Hfit. unfold record_at.
  rewrite mem_read_write_same by (rewrite length_record_bytes; lia).
  rewrite <- (app_nil_r (record_bytes r)). by apply record_of_bytes.
Qed.

Lemma reinit_wf pno :
  (24 <= DELTA_PAGE_SIZE)%nat -> Z.of_nat DELTA_PAGE_SIZE < 2 ^ 32 ->
  wf_page (reinit pno) /\ contents (reinit pno) = [].
Proof.
  intros H24 Hb. split; [|done].
  constructor; unfold reinit, fresh_data; cbn [data num_delta_records_ used_bytes_ span_len parent_page_no_];
    autorewrite with bw; rewrite ?length_replicate; auto;
    try (unfold in_width; lia); buf_simpl;
    rewrite ?get_put_le by (autorewrite with bw; rewrite ?length_replicate; lia); auto.
Qed.

Lemma insert_delta_spec p r :
  wf_page p -> wf_record r ->
  let '(ok, p') := insert_delta p r in
  ok = negb (page_full p) /\ wf_page p' /\
  contents p' = (if ok then contents p ++ [r] else contents p) /\
  page_no p' = page_no p /\ next_delta_page_ p' = next_delta_page_ p /\ status_ p' = status_ p.
Proof.
  intros Hwf Hr. unfold insert_delta, page_full.
  pose proof (contents_ensure_parsed p Hwf) as Hc.
  destruct (ensure_parsed_wf p Hwf) as (Hwf' & Hd & Hn & Hu & Hpar & Hpn & Hnx & Hst & _ & Hsp).
  generalize dependent (ensure_parsed p). intros q Hc Hq Hd Hn Hu Hpar Hpn Hnx Hst Hsp.
  change (Z.of_nat RECORD_SIZE) with 32. rewrite <- Hu.
  destruct (Z.ltb_spec (Z.of_nat DELTA_PAGE_SIZE) (used_bytes_ q + 32)) as [Hfull|Hfit]; [done|].
  cbn [negb]. destruct Hq.
  assert (slot_off (Z.to_nat (num_delta_records_ q)) + RECORD_SIZE <= length (data q))%nat as Hslot
    by (unfold slot_off, HEADER_SIZE, RECORD_SIZE; lia).
  change (2 ^ 32) with 4294967296 in *.
  split; [done|]. split; [|split; [|done]].
  { constructor; cbn [data num_delta_records_ used_bytes_ span_len parent_page_no_];
      autorewrite with bw; auto; try lia; buf_simpl; auto.
    unfold in_width in *. by rewrite get_put_le by (autorewrite with bw; lia). }
  unfold contents at 1; cbn [data num_delta_records_].
  rewrite Z2Nat.inj_add by lia. change (Z.to_nat 1) with 1%nat.
  rewrite seq_app, fmap_app. cbn [seq fmap list_fmap]. rewrite Nat.add_0_l.
  rewrite <- Hc. f_equal.
  - apply list_fmap_ext. intros i j Hj. apply lookup_seq in Hj as [-> ?].
    rewrite !record_at_header by (unfold HEADER_SIZE; lia).
    apply record_at_write_other; [apply length_record_bytes|lia].
  - rewrite !record_at_header by (unfold HEADER_SIZE; lia).
    f_equal. by apply record_at_write_same.
Qed.

Lemma insert_all_contents p rs :
  wf_page p -> Forall wf_record rs ->
  contents (foldl (fun p r => (insert_delta p r).2) p rs) =
  contents p ++ take ((DELTA_PAGE_SIZE - 24) / 32 - length (contents p))%nat rs.
Proof.
  intros Hwf Hrs. revert p Hwf. induction Hrs as [|r rs Hr _ IH]; intros p Hwf.
  { cbn. by rewrite take_nil, app_nil_r. }
  cbn [foldl]. pose proof (insert_delta_spec p r Hwf Hr) as Hspec.
  destruct (insert_delta p r) as [ok p']. destruct Hspec as (Hok & Hwf' & Hc & _).
  cbn [snd]. rewrite IH by done. rewrite Hc.
  assert (Hcap : ok = true <-> (length (contents p) < (DELTA_PAGE_SIZE - 24) / 32)%nat).
  { subst ok. unfold page_full. destruct Hwf. rewrite length_contents, wf_acct0.
    rewrite negb_true_iff, Z.ltb_ge.
    pose proof (Nat.div_mod_eq (DELTA_PAGE_SIZE - 24) 32).
    pose proof (Nat.mod_upper_bound (DELTA_PAGE_SIZE - 24) 32). lia. }
  destruct ok.
  - rewrite length_app. cbn [length]. rewrite <- app_assoc. f_equal.
    replace ((DELTA_PAGE_SIZE - 24) / 32 - length (contents p))%nat with
      (S ((DELTA_PAGE_SIZE - 24) / 32 - (length (contents p) + 1)))%nat
      by (assert (length (contents p) < (DELTA_PAGE_SIZE - 24) / 32)%nat by (by apply Hcap); lia).
    done.
  - assert (~ (length (contents p) < (DELTA_PAGE_SIZE - 24) / 32)%nat) by (rewrite <- Hcap; done).
    by replace ((DELTA_PAGE_SIZE - 24) / 32 - length (contents p))%nat with 0%nat by lia.
Qed.

(** A fresh delta page accepts exactly its capacity, floor((page size -
    24) / 32) records: inserting a list of records one after the other leaves
    the first ones, in insertion order, and every later insert is refused
    without disturbing them. *)
Theorem insert_delta_capacity pno rs :
  (24 <= DELTA_PAGE_SIZE)%nat -> Z.of_nat DELTA_PAGE_SIZE < 2 ^ 32 -> Forall wf_record rs ->
  contents (foldl (fun p r => (insert_delta p r).2) (reinit pno) rs) =
  take ((DELTA_PAGE_SIZE - 24) / 32)%nat rs.
Proof.
  intros H24 Hb Hrs. destruct (reinit_wf pno H24 Hb) as [Hwf Hc].
  rewrite insert_all_contents, Hc by done. cbn [length app]. by rewrite Nat.sub_0_r.
Qed.

Lemma span_get_wf p idx : wf_page p -> 0 <= idx -> span_get p idx = contents p !! Z.to_nat idx.
Proof.
  intros Hwf Hi. rewrite lookup_contents. unfold span_get.
  rewrite (wf_span p Hwf). pose proof (wf_pos p Hwf).
  destruct (Z.leb_spec 0 idx); [|lia]. cbn [andb].
  destruct (Z.ltb_spec idx (num_delta_records_ p)); case_decide; auto; lia.
Qed.

Lemma get_record_wf p idx : wf_page p -> 0 <= idx ->
  (get_record p idx).1 = contents p !! Z.to_nat idx /\ wf_page (get_record p idx).2 /\
  contents (get_record p idx).2 = contents p.
Proof.
  intros Hwf Hi. unfold get_record; cbn [fst snd].
  destruct (ensure_parsed_wf p Hwf) as (Hq & _).
  rewrite span_get_wf, contents_ensure_parsed by done. auto.
Qed.

Lemma omap_span_get p n : wf_page p -> (n <= Z.to_nat (num_delta_records_ p))%nat ->
  omap (span_get p) (seqZ 0 (Z.of_nat n)) = take n (contents p).
Proof.
  intros Hwf. induction n as [|n IH]; intros Hn; [done|].
  rewrite Nat2Z.inj_succ, <- Z.add_1_r, seqZ_app by lia.
  rewrite omap_app, IH by lia.
  replace (seqZ (0 + Z.of_nat n) 1) with [Z.of_nat n] by (cbn; f_equal; lia).
  cbn [omap list_omap]. rewrite span_get_wf by (auto; lia). rewrite Nat2Z.id.
  destruct (contents p !! n) eqn:E.
  - by rewrite (take_S_r _ _ _ E).
  - apply lookup_ge_None_1 in E. rewrite length_contents in E. lia.
Qed.

Lemma get_delta_span_wf p : wf_page p -> get_delta_span p = contents p.
Proof.
  intros Hwf. unfold get_delta_span. rewrite (wf_span p Hwf).
  pose proof (wf_pos p Hwf).
  rewrite <- (Z2Nat.id (num_delta_records_ p)) by done.
  rewrite omap_span_get by (auto; lia). apply take_ge. rewrite length_contents. lia.
Qed.

Lemma get_related_records_wf p v : wf_page p ->
  (get_related_records p v).1 = filter (fun r => first r = v) (contents p).
Proof.
  intros Hwf. unfold get_related_records.
  destruct (ensure_parsed_wf p Hwf) as (Hq & _). rewrite <- contents_ensure_parsed by done.
  generalize dependent (ensure_parsed p). intros q Hq.
  destruct (Z.eqb_spec (num_delta_records_ q) 0) as [E|E]; cbn [fst].
  - unfold contents. by rewrite E.
  - pose proof (wf_pos q Hq). rewrite <- (Z2Nat.id (num_delta_records_ q)) by done.
    rewrite omap_span_get by (auto; lia). by rewrite take_ge by (rewrite length_contents; lia).
Qed.

Lemma set_next_ptr_wf p nx : wf_page p ->
  wf_page (set_next_ptr p nx) /\ contents (set_next_ptr p nx) = contents p.
Proof. intros []. split; [constructor|]; auto. Qed.

Lemma set_status_wf p st : wf_page p ->
  wf_page (set_status p st) /\ contents (set_status p st) = contents p.
Proof. intros []. split; [constructor|]; auto. Qed.

Lemma set_parent_page_no_wf p par : in_width 64 par -> wf_page p ->
  wf_page (set_parent_page_no p par) /\ contents (set_parent_page_no p par) = contents p.
Proof.
  intros Hp []. unfold in_width in Hp.
  change (2 ^ 64) with 18446744073709551616 in Hp. change (2 ^ 32) with 4294967296 in *.
  split.
  - constructor; cbn [set_parent_page_no data num_delta_records_ used_bytes_ span_len parent_page_no_];
      autorewrite with bw; auto; buf_simpl; auto.
  - apply list_fmap_ext. intros i j _. apply record_at_header. unfold HEADER_SIZE; lia.
Qed.

(** The effect of the in-place edit on one record. *)
Definition clear_link (r : delta_record_t) : delta_record_t :=
  DeltaRecord (target r) (type r) (first r) (second r) (time r)
    INVALID_DELTA_PAGE_NO INVALID_DELTA_RECORD_IDX.

Lemma record_at_clear_same d i :
  (slot_off i + RECORD_SIZE <= length d)%nat ->
  record_at (put32 (slot_off i + 28) INVALID_DELTA_RECORD_IDX
    (put32 (slot_off i + 24) INVALID_DELTA_PAGE_NO d)) i = clear_link (record_at d i).
Proof.
  intros Hl. unfold record_at, record_of, clear_link, RECORD_SIZE in *.
  cbn [target type first second time].
  rewrite !get_le_mem_read by lia. unfold INVALID_DELTA_RECORD_IDX, INVALID_DELTA_PAGE_NO.
  change (2 ^ 32 - 1) with 4294967295. generalize dependent (slot_off i). intros k Hl.
  rewrite (get_put_le_other 4 (k + 28) 4 (k + 24)) by lia.
  rewrite !get_put_le by (autorewrite with bw; lia).
  rewrite !get_put_le_other by lia. done.
Qed.

Lemma clear_record_next_wf p idx : wf_page p -> 0 <= idx < num_delta_records_ p ->
  wf_page (clear_record_next p idx) /\
  contents (clear_record_next p idx) = alter clear_link (Z.to_nat idx) (contents p) /\
  page_no (clear_record_next p idx) = page_no p /\
  next_delta_page_ (clear_record_next p idx) = next_delta_page_ p.
Proof.
  intros Hwf Hi. unfold clear_record_next.
  pose proof (contents_ensure_parsed p Hwf) as Hc.
  destruct (ensure_parsed_wf p Hwf) as (Hq & Hd & Hn & _ & _ & Hpn & Hnx & _).
  generalize dependent (ensure_parsed p). intros q Hc Hq Hd Hn Hpn Hnx.
  rewrite <- Hn in Hi. fold (slot_off (Z.to_nat idx)).
  assert (slot_off (Z.to_nat idx) + RECORD_SIZE <= length (data q))%nat as Hs.
  { destruct Hq. unfold slot_off, HEADER_SIZE, RECORD_SIZE. lia. }
  assert (24 <= slot_off (Z.to_nat idx))%nat by (unfold slot_off, HEADER_SIZE; lia).
  split; [|split; [|done]].
  - destruct Hq. constructor; cbn [data num_delta_records_ used_bytes_ span_len parent_page_no_];
      autorewrite with bw; auto; buf_simpl; auto.
  - rewrite <- Hc. apply list_eq. intros i. rewrite list_lookup_alter.
    rewrite !lookup_contents. cbn [data num_delta_records_].
    destruct (decide (Z.to_nat idx = i)) as [<-|Hne].
    + rewrite !decide_True by lia. cbn [fmap option_fmap option_map].
      f_equal. by apply record_at_clear_same.
    + case_decide; [|done]. f_equal. unfold record_at. f_equal.
      rewrite !mem_read_put_le_other; auto; unfold slot_off, RECORD_SIZE in *; lia.
Qed.

(** A delta page written by [flush_to_disk] and parsed from the stored
    frame holds the same records, header fields included, whatever the fresh
    object's cached fields were: [self_parse] is the inverse of the in-place
    header updates. *)
Theorem flush_reload_contents p disk q :
  wf_page p -> dirty p = true -> span_len q = 0 ->
  data q = default [] ((flush_to_disk false p disk).2 !! page_no p) ->
  contents (self_parse q) = contents p /\ wf_page (self_parse q) /\
  dirty (flush_to_disk false p disk).1.2 = false.
Proof.
  intros Hwf Hd Hs. unfold flush_to_disk. rewrite Hd. cbn [fst snd].
  rewrite lookup_insert_eq. change (default [] (Some (data p))) with (data p).
  intros Hq. destruct Hwf.
  assert (contents (self_parse q) = contents p) as Hc.
  { unfold contents, self_parse; cbn [data num_delta_records_]. by rewrite Hq, wf_num0. }
  split; [done|]. split; [|done].
  constructor; cbn [self_parse data num_delta_records_ used_bytes_ span_len parent_page_no_];
    rewrite ?Hq, ?wf_num0, ?wf_used0, ?wf_parent0; auto.
  destruct (Z.ltb_spec 0 (num_delta_records_ p)); lia.
Qed.

End Ops.

Definition sample_record : delta_record_t := new_record 77 EDGE INSERT 3 9.

Lemma sample_record_wf : wf_record sample_record.
Proof. repeat split; vm_compute; congruence. Qed.

Lemma small_reinit_wf pno :
  @wf_page small_config (reinit (H:=small_config) pno).
Proof. apply (reinit_wf (H:=small_config)); vm_compute; [lia|done]. Qed.

Lemma insert_delta_capacity_witness :
  contents (foldl (fun p r => (insert_delta (H:=small_config) p r).2) (reinit (H:=small_config) 7)
    [sample_record; sample_record; new_record 5 EDGE DELETE 1 1]) =
  take ((@DELTA_PAGE_SIZE small_config - 24) / 32)%nat
    [sample_record; sample_record; new_record 5 EDGE DELETE 1 1].
Proof.
  apply (insert_delta_capacity (H:=small_config)); [vm_compute; lia|reflexivity|].
  repeat (constructor; [repeat split; vm_compute; congruence|]). constructor.
Defined.

Definition sample_page : delta_page_t :=
  (insert_delta (H:=small_config) (reinit (H:=small_config) 7) sample_record).2.

Lemma sample_page_wf : @wf_page small_config sample_page.
Proof.
  pose proof (insert_delta_spec (H:=small_config) (reinit (H:=small_config) 7) sample_record
    (small_reinit_wf 7) sample_record_wf) as Hs.
  unfold sample_page. destruct (insert_delta _ _). apply Hs.
Qed.

Lemma flush_reload_contents_witness :
  let q := DeltaPage 7 (data sample_page) false false 99 0 0 0 None ACCUMULATE in
  contents (self_parse q) = contents sample_page /\ @wf_page small_config (self_parse q) /\
  dirty (flush_to_disk false sample_page ∅).1.2 = false.
Proof.
  apply (flush_reload_contents (H:=small_config) sample_page ∅ _ sample_page_wf); reflexivity.
Defined.

End Delta.
