(* ===== verification/VertexIndex.v ===== *)
(** * The vertex index ([index/vertex_index.h], [vertex_index.cc])

    Per vertex: an atomic pointer to its current version (CSR page and slot),
    its type, its deletion mark and the head of its delta chain.  Versions are
    heap objects named by identifiers, so that the compare-and-swap of
    [publish_prepared_version] and the hazard-pointer reclamation can be
    stated.  The second half is the index file format. *)

From S2P Require Import Prelude Config.

Local Open Scope Z_scope.

Module VIndex.

(** ** Data *)

Record delta_head_t := DeltaHead { dh_page_no : Z; dh_record_idx : Z }.

#[export] Instance delta_head_t_eq_dec : EqDecision delta_head_t.
Proof. solve_decision. Defined.

Definition dh_invalid : delta_head_t := DeltaHead INVALID_DELTA_PAGE_NO INVALID_DELTA_RECORD_IDX.

Definition dh_is_valid (h : delta_head_t) : bool := negb (dh_page_no h =? INVALID_DELTA_PAGE_NO).

Record vertex_version_t := VertexVersion { v_page_no : Z; v_offset : Z; previous : option Z }.

Record v_item_t := VItem { cur : option Z; vertex_type : vertex_type_t; is_delete : bool }.

Definition mark_deleted (i : v_item_t) : v_item_t := VItem (cur i) (vertex_type i) true.
Definition mark_existing (i : v_item_t) : v_item_t := VItem (cur i) (vertex_type i) false.
Definition is_giant (i : v_item_t) : bool := bool_decide (vertex_type i = GIANT).

(** [versions] is the heap of version objects; [retired_versions_] the GC
    queue; [retired] the versions handed to the hazard-pointer library. *)
Record vertex_index_t := VertexIndex {
  items : list v_item_t;
  delta_heads_ : list delta_head_t;
  versions : gmap Z vertex_version_t;
  next_version : Z;
  retired_versions_ : list Z;
  hazptr_retired : list Z;
  pending_version_count_ : Z;
  reclaimed_version_count_ : Z
}.

Definition set_items (its : list v_item_t) (s : vertex_index_t) : vertex_index_t :=
  VertexIndex its (delta_heads_ s) (versions s) (next_version s) (retired_versions_ s)
    (hazptr_retired s) (pending_version_count_ s) (reclaimed_version_count_ s).

Definition set_heads (hs : list delta_head_t) (s : vertex_index_t) : vertex_index_t :=
  VertexIndex (items s) hs (versions s) (next_version s) (retired_versions_ s)
    (hazptr_retired s) (pending_version_count_ s) (reclaimed_version_count_ s).

Definition empty_index : vertex_index_t := VertexIndex [] [] ∅ 0 [] [] 0 0.

(** [new vertex_version_t(page_no, offset, previous)]. *)
Definition new_version (s : vertex_index_t) (v : vertex_version_t) : Z * vertex_index_t :=
  (next_version s,
   VertexIndex (items s) (delta_heads_ s) (<[next_version s := v]> (versions s))
     (next_version s + 1) (retired_versions_ s) (hazptr_retired s)
     (pending_version_count_ s) (reclaimed_version_count_ s)).

Definition free_version (s : vertex_index_t) (id : Z) : vertex_index_t :=
  VertexIndex (items s) (delta_heads_ s) (delete id (versions s)) (next_version s)
    (retired_versions_ s) (hazptr_retired s) (pending_version_count_ s) (reclaimed_version_count_ s).

(** ** Operations *)

(** The new identifier and the index; [emplace_back(0, 0, NORMAL, false)]
    allocates the version object of the item. *)
Definition allocate_new_vertex (s : vertex_index_t) : Z * vertex_index_t :=
  let id := u32 (Z.of_nat (length (items s))) in
  let '(ver, s) := new_version s (VertexVersion 0 0 None) in
  (id, set_heads (delta_heads_ s ++ [dh_invalid])
         (set_items (items s ++ [VItem (Some ver) NORMAL false]) s)).

(** [None]: the vertex is out of range, its version pointer is null (the
    constructor throws) or dangling. *)
Definition protect_vertex_version (s : vertex_index_t) (v : nat) : option vertex_version_t :=
  item ← items s !! v; ver ← cur item; versions s !! ver.

Definition get_vertex_location (s : vertex_index_t) (v : nat) : option (Z * Z) :=
  ver ← protect_vertex_version s v; Some (v_page_no ver, v_offset ver).

Record prepared_vertex_version_t := Prepared {
  pv_first : Z; pv_second : Z; expected : option Z; desired : option Z }.

Definition prepare_vertex_version (s : vertex_index_t) (v : nat) (page_no offset : Z) :
    option (prepared_vertex_version_t * vertex_index_t) :=
  item ← items s !! v;
  let exp := cur item in
  let '(id, s) := new_version s (VertexVersion page_no offset exp) in
  Some (Prepared page_no offset exp (Some id), s).

(** [retire_version]: with GC workers configured (at least one is required)
    the version is queued. *)
Definition retire_version (s : vertex_index_t) (id : Z) : vertex_index_t :=
  VertexIndex (items s) (delta_heads_ s) (versions s) (next_version s)
    (retired_versions_ s ++ [id]) (hazptr_retired s)
    (pending_version_count_ s + 1) (reclaimed_version_count_ s).

Definition clear_previous (s : vertex_index_t) (id : Z) : vertex_index_t :=
  VertexIndex (items s) (delta_heads_ s)
    (alter (fun v => VertexVersion (v_page_no v) (v_offset v) None) id (versions s))
    (next_version s) (retired_versions_ s) (hazptr_retired s)
    (pending_version_count_ s) (reclaimed_version_count_ s).

Definition publish_prepared_version (s : vertex_index_t) (v : nat) (p : prepared_vertex_version_t) :
    bool * prepared_vertex_version_t * vertex_index_t :=
  match expected p, desired p, items s !! v with
  | Some e, Some d, Some item =>
    if decide (cur item = Some e) then
      let s := set_items (<[v := VItem (Some d) (vertex_type item) (is_delete item)]> (items s)) s in
      let s := clear_previous s d in
      (true, Prepared (pv_first p) (pv_second p) None None, retire_version s e)
    else (false, p, s)
  | _, _, _ => (false, p, s)
  end.

Definition discard_prepared_version (s : vertex_index_t) (p : prepared_vertex_version_t) :
    prepared_vertex_version_t * vertex_index_t :=
  (Prepared (pv_first p) (pv_second p) None None,
   match desired p with Some d => free_version s d | None => s end).

(** [None]: out of range, or the CAS failed and the function throws. *)
Definition update_vertex_loc (s : vertex_index_t) (v : nat) (page_no offset : Z) :
    option vertex_index_t :=
  '(p, s) ← prepare_vertex_version s v page_no (u16 offset);
  let '(ok, _, s) := publish_prepared_version s v p in
  if (ok : bool) then Some s else None.

Definition is_giant_vertex (s : vertex_index_t) (v : nat) : bool :=
  match items s !! v with
  | None => false
  | Some item => if is_delete item then false else bool_decide (vertex_type item = GIANT)
  end.

Definition update_vertex_type (s : vertex_index_t) (v : nat) (t : vertex_type_t) :
    vertex_index_t :=
  set_items (alter (fun i => VItem (cur i) t (is_delete i)) v (items s)) s.

(** ** Garbage collection as a step relation

    [hazards] is the set of versions protected by some reader's hazard
    pointer.  A reader protects the version it loads from an item
    ([holder_.protect] returns a pointer that was current while protected);
    the library frees a retired version only when no hazard protects it. *)

Record gc_state := GC {
  idx : vertex_index_t;
  hazards : list Z;
  prepared : list (nat * prepared_vertex_version_t)   (* versions held by consolidation tasks *)
}.

(** [version_gc_loop] pops the queue and hands the version to the library. *)
Definition version_gc_pop (s : vertex_index_t) : option vertex_index_t :=
  match retired_versions_ s with
  | [] => None
  | id :: rest =>
    Some (VertexIndex (items s) (delta_heads_ s) (versions s) (next_version s) rest
            (id :: hazptr_retired s) (pending_version_count_ s) (reclaimed_version_count_ s))
  end.

(** The deleter: frees the version and updates the counters; [rest] is what
    the library still holds. *)
Definition reclaim_version (s : vertex_index_t) (id : Z) (rest : list Z) : vertex_index_t :=
  VertexIndex (items s) (delta_heads_ s) (delete id (versions s)) (next_version s)
    (retired_versions_ s) rest (pending_version_count_ s - 1) (reclaimed_version_count_ s + 1).

Inductive gc_step : gc_state -> gc_state -> Prop :=
  | step_allocate s h ps : gc_step (GC s h ps) (GC (allocate_new_vertex s).2 h ps)
  | step_prepare s h ps v pno off p s' :
      prepare_vertex_version s v pno off = Some (p, s') ->
      gc_step (GC s h ps) (GC s' h ((v, p) :: ps))
  | step_publish s h ps1 ps2 v p p' s' :
      publish_prepared_version s v p = (true, p', s') ->
      gc_step (GC s h (ps1 ++ (v, p) :: ps2)) (GC s' h (ps1 ++ ps2))
  | step_discard s h ps1 ps2 v p :
      gc_step (GC s h (ps1 ++ (v, p) :: ps2)) (GC (discard_prepared_version s p).2 h (ps1 ++ ps2))
  | step_protect s h ps v item id :
      items s !! v = Some item -> cur item = Some id ->
      gc_step (GC s h ps) (GC s (id :: h) ps)
  | step_reset s h1 h2 ps id : gc_step (GC s (h1 ++ id :: h2) ps) (GC s (h1 ++ h2) ps)
  | step_gc_pop s h ps s' : version_gc_pop s = Some s' -> gc_step (GC s h ps) (GC s' h ps)
  | step_reclaim s h ps l1 id l2 :
      hazptr_retired s = l1 ++ id :: l2 -> id ∉ h ->
      gc_step (GC s h ps) (GC (reclaim_version s id (l1 ++ l2)) h ps).

(** ** The reclamation invariant *)

Definition curs (s : vertex_index_t) : list Z := omap cur (items s).

Definition desireds (ps : list (nat * prepared_vertex_version_t)) : list Z := omap (fun q => desired q.2) ps.

(** Every version object that is reachable from an item, queued, held by the
    library or held by a task. *)
Definition reachable_ids (s : vertex_index_t) : list Z :=
  curs s ++ retired_versions_ s ++ hazptr_retired s.

Definition owned (g : gc_state) : list Z := reachable_ids (idx g) ++ desireds (prepared g).

Record gc_inv (g : gc_state) : Prop := {
  inv_some : Forall (fun i => is_Some (cur i)) (items (idx g));
  inv_nodup : NoDup (owned g);
  inv_live : Forall (fun id => is_Some (versions (idx g) !! id) /\ id < next_version (idx g)) (owned g);
  inv_hazard : Forall (fun id => id ∈ reachable_ids (idx g)) (hazards g);
  inv_pending : pending_version_count_ (idx g) =
    Z.of_nat (length (retired_versions_ (idx g)) + length (hazptr_retired (idx g)))
}.

Lemma items_split s v item :
  items s !! v = Some item ->
  exists l1 l2, items s = l1 ++ item :: l2 /\
    forall new, <[v := new]> (items s) = l1 ++ new :: l2.
Proof.
  intros Hv. exists (take v (items s)), (drop (S v) (items s)). split.
  - symmetry. by apply take_drop_middle.
  - intros new. rewrite insert_take_drop by (by apply lookup_lt_Some in Hv). done.
Qed.

Lemma live_insert (vs : gmap Z vertex_version_t) (n : Z) (x : vertex_version_t) l :
  Forall (fun id => is_Some (vs !! id) /\ id < n) l ->
  Forall (fun id => is_Some (<[n := x]> vs !! id) /\ id < n + 1) l.
Proof.
  intros Hl. eapply Forall_impl; [done|]. intros id [Hs Hn].
  rewrite lookup_insert_ne by lia. split; [done|lia].
Qed.

Lemma fresh_not_in (vs : gmap Z vertex_version_t) (n : Z) l :
  Forall (fun id => is_Some (vs !! id) /\ id < n) l -> n ∉ l.
Proof. intros Hl Hin. rewrite Forall_forall in Hl. destruct (Hl _ Hin). lia. Qed.

Lemma live_perm (vs : gmap Z vertex_version_t) (n : Z) l l' :
  l' ⊆ l -> Forall (fun id => is_Some (vs !! id) /\ id < n) l ->
  Forall (fun id => is_Some (vs !! id) /\ id < n) l'.
Proof. rewrite !Forall_forall. eauto. Qed.

Lemma alloc_inv g s : gc_inv g -> s = idx g ->
  gc_inv (GC (allocate_new_vertex s).2 (hazards g) (prepared g)).
Proof.
  intros [Hsome Hnd Hlive Hhaz Hpend] ->. unfold allocate_new_vertex, new_version; cbn [snd].
  assert (Hp : owned (GC (allocate_new_vertex (idx g)).2 (hazards g) (prepared g))
    ≡ₚ next_version (idx g) :: owned g).
  { unfold owned, reachable_ids, curs; cbn. rewrite omap_app. cbn. solve_Permutation. }
  constructor; cbn.
  - apply Forall_app; split; [done|]. repeat constructor. eauto.
  - rewrite Hp. constructor; [by eapply fresh_not_in|done].
  - eapply live_perm; [intros x; by rewrite Hp|].
    constructor; [rewrite lookup_insert_eq; split; [eauto|lia]|by apply live_insert].
  - eapply Forall_impl; [done|]. unfold reachable_ids, curs; cbn. intros id.
    rewrite omap_app, !elem_of_app. tauto.
  - done.
Qed.
Lemma prepare_inv s h ps v pno off p s' :
  gc_inv (GC s h ps) -> prepare_vertex_version s v pno off = Some (p, s') ->
  gc_inv (GC s' h ((v, p) :: ps)).
Proof.
  intros [Hsome Hnd Hlive Hhaz Hpend] Hprep. unfold prepare_vertex_version in Hprep.
  destruct (items s !! v) as [item|]; [|done]. cbn in Hprep. injection Hprep as <- <-.
  set (s' := VertexIndex _ _ _ _ _ _ _ _).
  set (p := Prepared _ _ _ _).
  assert (Hp : owned (GC s' h ((v, p) :: ps)) ≡ₚ next_version s :: owned (GC s h ps)).
  { unfold owned, desireds; cbn [prepared idx omap list_omap snd desired p].
    change (reachable_ids s') with (reachable_ids s). solve_Permutation. }
  constructor; auto.
  - rewrite Hp. constructor; [|done]. by eapply (fresh_not_in (versions s)).
  - eapply live_perm; [intros x; by rewrite Hp|].
    constructor; [cbn; rewrite lookup_insert_eq; split; [eauto|lia]|by apply live_insert].
Qed.

Lemma publish_inv s h ps1 ps2 v p p' s' :
  gc_inv (GC s h (ps1 ++ (v, p) :: ps2)) ->
  publish_prepared_version s v p = (true, p', s') ->
  gc_inv (GC s' h (ps1 ++ ps2)).
Proof.
  intros [Hsome Hnd Hlive Hhaz Hpend] Hpub. unfold publish_prepared_version in Hpub.
  destruct (expected p) as [e|] eqn:Ee; [|done]. destruct (desired p) as [d|] eqn:Ed; [|done].
  destruct (items s !! v) as [item|] eqn:Ei; [|done].
  destruct (decide (cur item = Some e)) as [Hcur|]; [|done]. injection Hpub as <- <-.
  destruct (items_split s v item Ei) as (l1 & l2 & Hl & Hins).
  set (s' := retire_version _ e).
  assert (Hr : reachable_ids s' ≡ₚ d :: reachable_ids s).
  { unfold s', reachable_ids, curs; cbn. rewrite Hins, Hl, !omap_app. cbn. rewrite Hcur.
    solve_Permutation. }
  assert (Hp : owned (GC s' h (ps1 ++ ps2)) ≡ₚ owned (GC s h (ps1 ++ (v, p) :: ps2))).
  { unfold owned; cbn [idx prepared]. rewrite Hr. unfold desireds. rewrite !omap_app. cbn.
    rewrite Ed. solve_Permutation. }
  constructor.
  - cbn. rewrite Hins. cbn in Hsome. rewrite Hl in Hsome.
    rewrite Forall_app, Forall_cons in *. destruct Hsome as (? & ? & ?). cbn. eauto.
  - by rewrite Hp.
  - eapply live_perm; [intros x; by rewrite Hp|]. eapply Forall_impl; [exact Hlive|].
    cbn. intros id [Hs Hlt]. split; [|done]. rewrite lookup_alter_is_Some. done.
  - eapply Forall_impl; [exact Hhaz|]. cbn [idx hazards]. intros id Hid. rewrite Hr. by right.
  - cbn in *. rewrite length_app. cbn. lia.
Qed.

Lemma discard_inv s h ps1 ps2 v p :
  gc_inv (GC s h (ps1 ++ (v, p) :: ps2)) ->
  gc_inv (GC (discard_prepared_version s p).2 h (ps1 ++ ps2)).
Proof.
  intros [Hsome Hnd Hlive Hhaz Hpend]. unfold discard_prepared_version; cbn [snd].
  destruct (desired p) as [d|] eqn:Ed.
  - assert (Hp : owned (GC s h (ps1 ++ (v, p) :: ps2)) ≡ₚ d :: owned (GC s h (ps1 ++ ps2))).
    { unfold owned; cbn. unfold desireds. rewrite !omap_app. cbn. rewrite Ed. solve_Permutation. }
    rewrite Hp in Hnd. apply NoDup_cons in Hnd as [Hd Hnd].
    assert (Hl : Forall (fun id => is_Some (versions s !! id) /\ id < next_version s)
                   (owned (GC s h (ps1 ++ ps2)))).
    { eapply live_perm; [|exact Hlive]. intros x Hx. rewrite Hp. by right. }
    constructor; auto. cbn. rewrite Forall_forall in *. intros id Hid.
    rewrite lookup_delete_ne by (intros <-; done). by apply Hl.
  - assert (Hp : owned (GC s h (ps1 ++ (v, p) :: ps2)) = owned (GC s h (ps1 ++ ps2))).
    { unfold owned; cbn. unfold desireds. rewrite !omap_app. cbn. by rewrite Ed. }
    constructor; cbn; auto; by rewrite <- Hp.
Qed.

Lemma pop_inv s h ps s' :
  gc_inv (GC s h ps) -> version_gc_pop s = Some s' -> gc_inv (GC s' h ps).
Proof.
  intros [Hsome Hnd Hlive Hhaz Hpend] Hpop. unfold version_gc_pop in Hpop.
  destruct (retired_versions_ s) as [|id rest] eqn:Er; [done|]. injection Hpop as <-.
  set (s' := VertexIndex _ _ _ _ _ _ _ _).
  assert (Hr : reachable_ids s' ≡ₚ reachable_ids s).
  { unfold s', reachable_ids, curs; cbn. rewrite Er. solve_Permutation. }
  assert (Hp : owned (GC s' h ps) ≡ₚ owned (GC s h ps)) by (unfold owned; cbn [idx prepared]; by rewrite Hr).
  constructor; auto.
  - by rewrite Hp.
  - eapply live_perm; [intros x; by rewrite Hp|done].
  - eapply Forall_impl; [exact Hhaz|]. cbn [idx hazards]. intros x. by rewrite Hr.
  - cbn in *. rewrite Er in Hpend. cbn in Hpend. lia.
Qed.

Lemma reclaim_inv s h ps l1 id l2 :
  gc_inv (GC s h ps) -> hazptr_retired s = l1 ++ id :: l2 -> id ∉ h ->
  gc_inv (GC (reclaim_version s id (l1 ++ l2)) h ps).
Proof.
  intros [Hsome Hnd Hlive Hhaz Hpend] Hl Hh.
  set (s' := reclaim_version _ _ _).
  assert (Hr : reachable_ids s ≡ₚ id :: reachable_ids s').
  { unfold s', reachable_ids, curs; cbn. rewrite Hl. solve_Permutation. }
  assert (Hp : owned (GC s h ps) ≡ₚ id :: owned (GC s' h ps))
    by (unfold owned; cbn [idx prepared]; by rewrite Hr).
  rewrite Hp in Hnd. apply NoDup_cons in Hnd as [Hd Hnd].
  constructor; auto.
  - rewrite Forall_forall in *. intros x Hx. cbn.
    rewrite lookup_delete_ne by (intros <-; done). apply Hlive. rewrite Hp. by right.
  - rewrite Forall_forall in *. intros x Hx. pose proof (Hhaz x Hx) as Hin. cbn [idx] in Hin.
    rewrite Hr in Hin. apply elem_of_cons in Hin as [->|Hin]; done.
  - cbn in *. rewrite Hl in Hpend. rewrite length_app in *. cbn in *. lia.
Qed.

Lemma gc_step_inv g g' : gc_step g g' -> gc_inv g -> gc_inv g'.
Proof.
  intros Hstep Hinv. destruct Hstep.
  - by apply (alloc_inv (GC s h ps)).
  - by eapply prepare_inv.
  - by eapply publish_inv.
  - by eapply discard_inv.
  - destruct Hinv as [? ? ? Hh ?]. constructor; cbn in *; auto.
    constructor; [|done]. unfold reachable_ids, curs. apply elem_of_app; left.
    apply list_elem_of_omap. exists item. split; [by eapply list_elem_of_lookup_2|done].
  - destruct Hinv as [? ? ? Hh ?]. constructor; cbn in *; auto.
    rewrite Forall_app, Forall_cons in *. tauto.
  - by eapply pop_inv.
  - by eapply reclaim_inv.
Qed.

Lemma gc_steps_inv g : rtc gc_step (GC empty_index [] []) g -> gc_inv g.
Proof.
  intros Hr. assert (gc_inv (GC empty_index [] [])) as Hi.
  { constructor; cbn; auto; try constructor. }
  revert Hi. induction Hr as [|x y z Hs _ IH]; [done|]. intros Hi. apply IH. by eapply gc_step_inv.
Qed.

(** Changes that leave every current version in place. *)
Lemma gc_inv_same_curs vi vi' h ps :
  omap cur (items vi') = omap cur (items vi) -> Forall (fun i => is_Some (cur i)) (items vi') ->
  versions vi' = versions vi -> next_version vi' = next_version vi ->
  retired_versions_ vi' = retired_versions_ vi -> hazptr_retired vi' = hazptr_retired vi ->
  pending_version_count_ vi' = pending_version_count_ vi ->
  gc_inv (GC vi h ps) -> gc_inv (GC vi' h ps).
Proof.
  intros E1 E2 E3 E4 E5 E6 E7 [G1 G2 G3 G4 G5].
  assert (Hr : reachable_ids vi' = reachable_ids vi) by (unfold reachable_ids, curs; by rewrite E1, E5, E6).
  constructor; cbn [idx hazards prepared] in *.
  - done.
  - unfold owned in *; cbn [idx prepared] in *. by rewrite Hr.
  - unfold owned in *; cbn [idx prepared] in *. by rewrite Hr, E3, E4.
  - by rewrite Hr.
  - by rewrite E5, E6, E7.
Qed.

Lemma omap_alter_cur (f : v_item_t -> v_item_t) (k : nat) (l : list v_item_t) :
  (forall i, cur (f i) = cur i) -> omap cur (alter f k l) = omap cur l.
Proof.
  intros Hf. revert k. induction l as [|i l IH]; intros [|k]; [done|done| |].
  - cbn. by rewrite Hf.
  - change (alter f (S k) (i :: l)) with (i :: alter f k l). cbn [omap list_omap]. by rewrite IH.
Qed.

(** C10: in every state the index can reach by allocations, version switches of
    concurrent consolidation tasks, reader protections and garbage collection,
    the current versions, those queued for reclamation, those held by the
    library and those prepared by tasks are all allocated and pairwise
    different; every vertex has a current version; no version that a reader
    protects has been freed; and the pending counter is the number of replaced
    versions not reclaimed yet, so when [wait_for_version_gc] returns, at zero,
    none is left.  A publication (compare-and-swap, reset of the link to the
    old version, retirement) is one step. *)
Theorem version_gc_safe g :
  rtc gc_step (GC empty_index [] []) g ->
  let owners := curs (idx g) ++ retired_versions_ (idx g) ++ hazptr_retired (idx g) ++ desireds (prepared g) in
  NoDup owners /\ Forall (fun id => is_Some (versions (idx g) !! id)) owners /\
  Forall (fun id => is_Some (versions (idx g) !! id)) (hazards g) /\
  (forall v item, items (idx g) !! v = Some item ->
     exists id ver, cur item = Some id /\ versions (idx g) !! id = Some ver) /\
  pending_version_count_ (idx g) = Z.of_nat (length (retired_versions_ (idx g)) + length (hazptr_retired (idx g))) /\
  (pending_version_count_ (idx g) = 0 ->
     retired_versions_ (idx g) = [] /\ hazptr_retired (idx g) = []).
Proof.
  intros Hr owners. destruct (gc_steps_inv g Hr) as [Hsome Hnd Hlive Hhaz Hpend].
  assert (Ho : owners = owned g) by (unfold owners, owned, reachable_ids; by rewrite <- !app_assoc).
  rewrite Ho. assert (Hl : Forall (fun id => is_Some (versions (idx g) !! id)) (owned g)) by (eapply Forall_impl; [exact Hlive|]; by intros id []).
  rewrite Forall_forall in Hl. rewrite Forall_forall in Hsome. split; [done|]. split; [by apply Forall_forall|]. split; [|split; [|split; [done|]]].
  - eapply Forall_impl; [exact Hhaz|]. cbn. intros id Hid. apply Hl. unfold owned. apply elem_of_app. by left.
  - intros v item Hv. destruct (Hsome item) as [id Hid]; [by eapply list_elem_of_lookup_2|].
    destruct (Hl id) as [ver Hver]; [|eauto]. unfold owned, reachable_ids, curs. rewrite !elem_of_app. left; left.
    apply list_elem_of_omap. exists item. split; [by eapply list_elem_of_lookup_2|done].
  - intros Hz. rewrite Hz in Hpend. destruct (retired_versions_ (idx g)), (hazptr_retired (idx g)); cbn in Hpend; try done; lia.
Qed.

(** One vertex is allocated, a reader protects its version, a task switches
    it to page 4 and the old version is queued, then handed to the library. *)
Definition sample_gc : gc_state :=
  let s0 := (allocate_new_vertex empty_index).2 in
  let s1 := default s0 (update_vertex_loc s0 0 4 9) in
  GC (default s1 (version_gc_pop s1)) [0] [].

Lemma version_gc_safe_witness :
  let owners := curs (idx sample_gc) ++ retired_versions_ (idx sample_gc) ++ hazptr_retired (idx sample_gc) ++ desireds (prepared sample_gc) in
  NoDup owners /\ Forall (fun id => is_Some (versions (idx sample_gc) !! id)) owners /\
  Forall (fun id => is_Some (versions (idx sample_gc) !! id)) (hazards sample_gc) /\
  (forall v item, items (idx sample_gc) !! v = Some item ->
     exists id ver, cur item = Some id /\ versions (idx sample_gc) !! id = Some ver) /\
  pending_version_count_ (idx sample_gc) = Z.of_nat (length (retired_versions_ (idx sample_gc)) + length (hazptr_retired (idx sample_gc))) /\
  (pending_version_count_ (idx sample_gc) = 0 ->
     retired_versions_ (idx sample_gc) = [] /\ hazptr_retired (idx sample_gc) = []).
Proof.
  apply version_gc_safe.
  eapply rtc_l; [apply step_allocate|].
  eapply rtc_l; [eapply (step_protect _ _ _ 0); reflexivity|].
  eapply rtc_l; [eapply (step_prepare _ _ _ 0 4 9); reflexivity|].
  eapply rtc_l; [eapply (step_publish _ _ [] []); reflexivity|].
  eapply rtc_l; [eapply step_gc_pop; reflexivity|].
  apply rtc_refl.
Defined.

(** A version switch prepared against the version a vertex had is
    published exactly when that version is still current; publishing moves the
    vertex to the new location and touches no other vertex, and a stale
    switch leaves the index unchanged. *)
Theorem publish_prepared_version_cas s v item pno off p s1 s2 i :
  items s !! v = Some item -> is_Some (cur item) ->
  prepare_vertex_version s v pno off = Some (p, s1) ->
  items s2 !! v = Some i ->
  versions s2 !! next_version s = versions s1 !! next_version s ->
  let '(ok, _, s3) := publish_prepared_version s2 v p in
  if decide (cur i = cur item) then
    ok = true /\ get_vertex_location s3 v = Some (pno, off) /\
    is_giant_vertex s3 v = is_giant_vertex s2 v /\
    (forall w, w <> v -> items s3 !! w = items s2 !! w)
  else ok = false /\ s3 = s2.
Proof.
  intros Hv [e He] Hprep Hi Hsame. unfold prepare_vertex_version in Hprep.
  rewrite Hv in Hprep. cbn in Hprep. injection Hprep as <- <-.
  unfold publish_prepared_version; cbn [expected desired]. rewrite He, Hi.
  cbn in Hsame. rewrite lookup_insert_eq in Hsame.
  destruct (decide (cur i = Some e)); [|done].
  split; [done|]. unfold get_vertex_location, protect_vertex_version, is_giant_vertex; cbn.
  rewrite list_lookup_insert_eq by (by eapply lookup_lt_Some). rewrite Hi. split; [|split; [done|]].
  - cbn. by rewrite lookup_alter_eq, Hsame.
  - intros w Hw. by rewrite list_lookup_insert_ne.
Qed.

Lemma publish_prepared_version_cas_witness :
  let s := (allocate_new_vertex empty_index).2 in
  let s1 := (new_version s (VertexVersion 4 9 (Some 0))).2 in
  let '(ok, _, s3) := publish_prepared_version s1 0 (Prepared 4 9 (Some 0) (Some 1)) in
  ok = true /\ get_vertex_location s3 0 = Some (4, 9) /\
  is_giant_vertex s3 0 = is_giant_vertex s1 0 /\
  (forall w, w <> 0%nat -> items s3 !! w = items s1 !! w).
Proof.
  eapply (publish_prepared_version_cas (allocate_new_vertex empty_index).2 0
    (VItem (Some 0) NORMAL false) 4 9 (Prepared 4 9 (Some 0) (Some 1)) _
    (new_version (allocate_new_vertex empty_index).2 (VertexVersion 4 9 (Some 0))).2
    (VItem (Some 0) NORMAL false));
    first [reflexivity | eexists; reflexivity].
Defined.

End VIndex.
