(* ===== verification/VertexFile.v ===== *)
(** * The vertex index file ([vertex_index.cc], save and load)

    A 32-byte header, a deletion bitmap and one fixed-size entry per vertex
    (page, type, slot and, since version 2, the delta head), the entries
    optionally compressed by zlib, which is a parameter with its round-trip
    law.  Files are byte lists. *)

From S2P Require Import Prelude Config VertexIndex.

Local Open Scope Z_scope.

Module VFile.
Import VIndex.

Definition MAGIC : Z := 0x5645525445585F49.

Section Format.
(** zlib: [compress2] may fail; [uncompress] gets the capacity. *)
Variable have_zlib : bool.
Variable compress2 : list Z -> option (list Z).
Variable uncompress : list Z -> nat -> option (list Z).

Definition file_header (count : Z) (compression : Z) : list Z :=
  le_bytes 8 MAGIC ++ le_bytes 8 2 ++ le_bytes 8 count ++ le_bytes 1 compression ++ replicate 7 0.

(** [write_buffered] and [read_buffered]: chunks of [buffer_size] bytes.  The
    stream being written is a byte list; [None] when the fuel runs out. *)
Fixpoint write_loop (fuel : nat) (buffer_size written : nat) (data ofs : list Z) : option (list Z) :=
  if (length data <=? written)%nat then Some ofs
  else match fuel with
  | O => None
  | S fuel =>
    let to_write := Nat.min buffer_size (length data - written) in
    write_loop fuel buffer_size (written + to_write) data
      (ofs ++ take to_write (drop written data))
  end.

Definition write_buffered (ofs data : list Z) (buffer_size : nat) : option (list Z) :=
  write_loop (length data) buffer_size 0 data ofs.

(** The result: did every chunk arrive, and the bytes read. *)
Fixpoint read_loop (fuel : nat) (buffer_size read_total size : nat) (ifs acc : list Z) :
    option (bool * list Z) :=
  if (size <=? read_total)%nat then Some (true, acc)
  else match fuel with
  | O => None
  | S fuel =>
    let to_read := Nat.min buffer_size (size - read_total) in
    let got := take to_read ifs in
    if (length got =? to_read)%nat
    then read_loop fuel buffer_size (read_total + to_read) size (drop to_read ifs) (acc ++ got)
    else Some (false, acc ++ got)
  end.

Definition read_buffered (ifs : list Z) (size buffer_size : nat) : option (bool * list Z) :=
  read_loop size buffer_size 0 size ifs [].

(** The deletion bitmap, one bit set per deleted vertex. *)
Definition bitmap_set (its : list v_item_t) (bm : list Z) (i : nat) : list Z :=
  match its !! i with
  | Some item => if is_delete item
                 then alter (fun b => Z.lor b (Z.shiftl 1 (Z.of_nat (i mod 8)))) (i / 8)%nat bm
                 else bm
  | None => bm
  end.

Definition deletion_bitmap (its : list v_item_t) : list Z :=
  foldl (bitmap_set its) (replicate ((length its + 7) / 8) 0) (seq 0 (length its)).

Definition bitmap_deleted (bm : list Z) (i : nat) : bool :=
  negb (Z.land (default 0 (bm !! (i / 8)%nat)) (Z.shiftl 1 (Z.of_nat (i mod 8))) =? 0).

Definition vertex_type_code (t : vertex_type_t) : Z := match t with NORMAL => 0 | GIANT => 1 end.
Definition vertex_type_of (z : Z) : vertex_type_t := if z =? 1 then GIANT else NORMAL.

(** The 18 bytes of vertex [i]; [None] when its version pointer is null. *)
Definition core_item (s : vertex_index_t) (i : nat) : option (list Z) :=
  item ← items s !! i;
  ver ← protect_vertex_version s i;
  let dh := default dh_invalid (delta_heads_ s !! i) in
  Some (le_bytes 4 (v_page_no ver) ++ le_bytes 4 (vertex_type_code (vertex_type item)) ++
        le_bytes 2 (v_offset ver) ++ le_bytes 4 (dh_page_no dh) ++ le_bytes 4 (dh_record_idx dh)).

Definition core_data (s : vertex_index_t) : option (list Z) :=
  cs ← mapM (core_item s) (seq 0 (length (items s))); Some (mjoin cs).

(** [save_to_file]: the returned flag and the file's bytes.  [None]: a null
    version pointer makes the constructor of the protected version throw. *)
Definition save_to_file (s : vertex_index_t) (use_compression : bool) (buffer_size : nat) :
    option (bool * list Z) :=
  let compression := if have_zlib then (if use_compression then 1 else 0) else 0 in
  let hdr := file_header (Z.of_nat (length (items s))) compression in
  if (length (items s) =? 0)%nat then Some (true, hdr)
  else
    data ← core_data s;
    let ofs := hdr ++ deletion_bitmap (items s) in
    if compression =? 0 then
      ofs ← write_buffered ofs data buffer_size; Some (true, ofs)
    else
      match compress2 data with
      | Some c =>
        ofs ← write_buffered (ofs ++ le_bytes 8 (Z.of_nat (length c))) c buffer_size;
        Some (true, ofs)
      | None => Some (false, ofs)
      end.

(** One vertex read back from the core data. *)
Definition load_item (version : Z) (data bm : list Z) (i : nat) :
    vertex_version_t * vertex_type_t * bool * delta_head_t :=
  let base := (i * (if (2 <=? version)%Z then 18 else 10))%nat in
  (VertexVersion (get32 base data) (get16 (base + 8) data) None,
   vertex_type_of (get32 (base + 4) data), bitmap_deleted bm i,
   if 2 <=? version then DeltaHead (get32 (base + 10) data) (get32 (base + 14) data)
   else dh_invalid).

(** Step 4: fresh items, one new version object each. *)
Definition rebuild_index (s : vertex_index_t)
    (vs : list (vertex_version_t * vertex_type_t * bool * delta_head_t)) : vertex_index_t :=
  let base := next_version s in
  VertexIndex
    (imap (fun i q => VItem (Some (base + Z.of_nat i)) q.1.1.2 q.1.2) vs)
    ((fun q => q.2) <$> vs)
    (list_to_map (imap (fun i q => (base + Z.of_nat i, q.1.1.1)) vs) ∪
       foldr delete (versions s) (curs s))
    (base + Z.of_nat (length vs))
    (retired_versions_ s) (hazptr_retired s) (pending_version_count_ s) (reclaimed_version_count_ s).

Definition clear_items (s : vertex_index_t) : vertex_index_t :=
  VertexIndex [] (delta_heads_ s) (foldr delete (versions s) (curs s)) (next_version s)
    (retired_versions_ s) (hazptr_retired s) (pending_version_count_ s) (reclaimed_version_count_ s).

(** The core data of the rest of the file; [None] for "return false". *)
Definition read_core (compression : Z) (ifs : list Z) (total buffer_size : nat) : option (list Z) :=
  if compression =? 0 then
    '(ok, data) ← read_buffered ifs total buffer_size;
    if (ok : bool) then Some data else None
  else if (compression =? 1) && have_zlib then
    if (length ifs <? 8)%nat then None
    else
      '(ok, c) ← read_buffered (drop 8 ifs) (Z.to_nat (get64 0 ifs)) buffer_size;
      if (ok : bool) then
        data ← uncompress c total;
        if (length data =? total)%nat then Some data else None
      else None
  else None.

Definition load_from_file (s : vertex_index_t) (file : list Z) (buffer_size : nat) :
    bool * vertex_index_t :=
  if (length file <? 32)%nat || negb (get64 0 file =? MAGIC) then (false, s)
  else
    let version := get64 8 file in
    let count := Z.to_nat (get64 16 file) in
    let compression := get_le 1 24 file in
    if (count =? 0)%nat then (true, clear_items s)
    else
      let bitmap_bytes := ((count + 7) / 8)%nat in
      let ifs := drop 32 file in
      if (length ifs <? bitmap_bytes)%nat then (false, s)
      else
        let bm := take bitmap_bytes ifs in
        let core_item_size := (if (2 <=? version)%Z then 18 else 10)%nat in
        match read_core compression (drop bitmap_bytes ifs) (count * core_item_size) buffer_size with
        | None => (false, s)
        | Some data => (true, rebuild_index s (load_item version data bm <$> seq 0 count))
        end.

(** ** Chunked streams *)

Lemma write_loop_spec fuel bs written data ofs :
  (0 < bs)%nat -> (length data - written <= fuel)%nat ->
  write_loop fuel bs written data ofs = Some (ofs ++ drop written data).
Proof.
  intros Hbs. revert written ofs. induction fuel as [|fuel IH]; intros written ofs Hf; cbn [write_loop];
    (destruct (Nat.leb_spec (length data) written); [by rewrite drop_ge, app_nil_r by lia|]); [lia|].
  rewrite IH by lia. f_equal. rewrite <- app_assoc. f_equal.
  rewrite <- (take_drop (Nat.min bs (length data - written)) (drop written data)) at 2.
  by rewrite drop_drop.
Qed.

Lemma read_loop_spec fuel bs total size ifs acc :
  (0 < bs)%nat -> (size - total <= fuel)%nat -> (size - total <= length ifs)%nat ->
  read_loop fuel bs total size ifs acc = Some (true, acc ++ take (size - total) ifs).
Proof.
  intros Hbs. revert total ifs acc.
  induction fuel as [|fuel IH]; intros total ifs acc Hf Hl; cbn [read_loop];
    (destruct (Nat.leb_spec size total);
      [replace (size - total)%nat with 0%nat by lia; by rewrite take_0, app_nil_r|]); [lia|].
  set (k := Nat.min bs (size - total)).
  rewrite length_take, Nat.min_l by lia. rewrite Nat.eqb_refl.
  rewrite IH by (rewrite ?length_drop; lia). f_equal. f_equal. rewrite <- app_assoc. f_equal.
  rewrite <- (take_drop k (take (size - total) ifs)).
  rewrite take_take, Nat.min_l by lia. f_equal.
  rewrite skipn_firstn_comm. f_equal. lia.
Qed.

(** ** The bitmap *)

Lemma land_bit x k : 0 <= k ->
  negb (Z.land x (Z.shiftl 1 k) =? 0) = Z.testbit x k.
Proof.
  intros Hk. assert (Hb : forall i, 0 <= i -> Z.testbit (Z.land x (Z.shiftl 1 k)) i =
    Z.testbit x i && bool_decide (i = k)).
  { intros i Hi. rewrite Z.land_spec, Z.shiftl_spec by done. f_equal.
    case_bool_decide; [subst; by rewrite Z.sub_diag|].
    destruct (decide (i < k)); [by rewrite Z.testbit_neg_r by lia|].
    apply Z.bits_above_log2; cbn; lia. }
  destruct (Z.eqb_spec (Z.land x (Z.shiftl 1 k)) 0) as [E|E]; cbn [negb].
  - specialize (Hb k Hk). rewrite E, Z.bits_0, bool_decide_eq_true_2, andb_true_r in Hb; auto.
  - destruct (Z.testbit x k) eqn:Ex; [done|]. destruct E. apply Z.bits_inj'. intros i Hi.
    rewrite Hb, Z.bits_0 by done. case_bool_decide; subst; [by rewrite Ex|by rewrite andb_false_r].
Qed.

Lemma testbit_shift_one k j : 0 <= k -> 0 <= j -> Z.testbit (Z.shiftl 1 k) j = bool_decide (j = k).
Proof.
  intros. rewrite Z.shiftl_spec by done. case_bool_decide; [subst; by rewrite Z.sub_diag|].
  destruct (decide (j < k)); [by rewrite Z.testbit_neg_r by lia|].
  apply Z.bits_above_log2; cbn; lia.
Qed.

Lemma length_bitmap_fold its l bm : length (foldl (bitmap_set its) bm l) = length bm.
Proof.
  revert bm; induction l as [|i l IH]; intros bm; [done|]. cbn. rewrite IH.
  unfold bitmap_set. repeat case_match; auto. apply length_alter.
Qed.

Lemma bitmap_fold_bit its n i :
  (n <= length its)%nat -> (i < length its)%nat ->
  Z.testbit (default 0 (foldl (bitmap_set its) (replicate ((length its + 7) / 8) 0) (seq 0 n)
                          !! (i / 8)%nat)) (Z.of_nat (i mod 8)) =
  bool_decide (i < n)%nat && from_option is_delete false (its !! i).
Proof.
  intros Hn Hi. assert (i / 8 < (length its + 7) / 8)%nat as Hb.
  { apply Nat.Div0.div_lt_upper_bound.
    pose proof (Nat.div_mod_eq (length its + 7) 8). pose proof (Nat.mod_upper_bound (length its + 7) 8). lia. }
  induction n as [|n IH].
  - cbn [seq foldl]. rewrite lookup_replicate_2 by done. cbn [default from_option].
    by rewrite Z.bits_0, bool_decide_eq_false_2 by lia.
  - rewrite seq_S, foldl_app, Nat.add_0_l. cbn [foldl]. specialize (IH ltac:(lia)).
    set (bm := foldl _ _ _) in *.
    assert (is_Some (bm !! (i / 8)%nat)) as [b Hbm].
    { apply lookup_lt_is_Some. unfold bm. by rewrite length_bitmap_fold, length_replicate. }
    rewrite Hbm in IH. change (default 0 (Some b)) with b in IH.
    destruct (lookup_lt_is_Some_2 its n) as [item Hit]; [lia|].
    assert (Hlt : bool_decide (i < S n)%nat = bool_decide (i < n)%nat || bool_decide (i = n)).
    { repeat case_bool_decide; auto; lia. }
    rewrite Hlt. unfold bitmap_set. rewrite Hit.
    destruct (decide (i = n)) as [->|Hne].
    + rewrite Hit in *. cbn [from_option] in *. rewrite bool_decide_eq_false_2 in IH by lia.
      rewrite (bool_decide_eq_true_2 (n = n)), orb_true_r by done. cbn [andb].
      destruct (is_delete item).
      * rewrite list_lookup_alter_eq, Hbm.
        cbn [fmap option_fmap option_map default from_option].
        unfold id. rewrite Z.lor_spec, testbit_shift_one, bool_decide_eq_true_2 by lia.
        by rewrite orb_true_r.
      * rewrite Hbm. exact IH.
    + rewrite (bool_decide_eq_false_2 (i = n)), orb_false_r by done.
      destruct (is_delete item); [|by rewrite Hbm].
      destruct (decide (i / 8 = n / 8)%nat) as [Hd|Hd].
      * rewrite <- Hd, list_lookup_alter_eq, Hbm.
        cbn [fmap option_fmap option_map default from_option]. unfold id.
        rewrite Z.lor_spec, testbit_shift_one, bool_decide_eq_false_2, orb_false_r; [exact IH|..]; try lia.
        intros Heq. apply Nat2Z.inj in Heq.
        pose proof (Nat.div_mod_eq i 8). pose proof (Nat.div_mod_eq n 8). lia.
      * rewrite list_lookup_alter_ne by done. by rewrite Hbm.
Qed.

Lemma bitmap_deleted_spec its i item :
  its !! i = Some item -> bitmap_deleted (deletion_bitmap its) i = is_delete item.
Proof.
  intros Hi. unfold bitmap_deleted. rewrite land_bit by lia. unfold deletion_bitmap.
  pose proof (lookup_lt_Some _ _ _ Hi).
  rewrite bitmap_fold_bit, Hi by lia. rewrite bool_decide_eq_true_2 by done. done.
Qed.

(** ** Round trip *)

(** What the file stores of an index: locations, types, marks and heads are
    machine integers, and every vertex has a delta head. *)
Record storable (s : vertex_index_t) : Prop := {
  st_count : Z.of_nat (length (items s)) < 2 ^ 64;
  st_heads : length (delta_heads_ s) = length (items s);
  st_loc : forall i, (i < length (items s))%nat ->
    exists ver, protect_vertex_version s i = Some ver /\
      in_width 32 (v_page_no ver) /\ in_width 16 (v_offset ver);
  st_dh : Forall (fun d => in_width 32 (dh_page_no d) /\ in_width 32 (dh_record_idx d)) (delta_heads_ s)
}.

Definition entry (s : vertex_index_t) (i : nat) :
    option (vertex_version_t * vertex_type_t * bool * delta_head_t) :=
  item ← items s !! i; ver ← protect_vertex_version s i; d ← delta_heads_ s !! i;
  Some (VertexVersion (v_page_no ver) (v_offset ver) None, vertex_type item, is_delete item, d).

Lemma length_bitmap its : length (deletion_bitmap its) = ((length its + 7) / 8)%nat.
Proof. unfold deletion_bitmap. by rewrite length_bitmap_fold, length_replicate. Qed.

Lemma core_item_length s k c : core_item s k = Some c -> length c = 18%nat.
Proof.
  unfold core_item. destruct (items s !! k) as [item|]; [|done]. cbn [mbind option_bind].
  destruct (protect_vertex_version s k) as [ver|]; [|done].
  intros Hc. apply (inj Some) in Hc as <-. by rewrite !length_app, !length_le_bytes.
Qed.

Lemma core_item_load s i b rest cs :
  storable s -> core_item s i = Some b -> mapM (core_item s) (seq 0 (length (items s))) = Some cs ->
  (i < length (items s))%nat ->
  entry s i = Some (load_item 2 (mjoin cs ++ rest) (deletion_bitmap (items s)) i).
Proof.
  intros [_ Hh Hloc Hd] Hb Hcs Hi. unfold core_item in Hb.
  destruct (Hloc i Hi) as (ver & Hver & Hp & Ho). unfold entry.
  destruct (items s !! i) as [item|] eqn:Ei; [|done]. rewrite Hver in Hb |- *.
  destruct (lookup_lt_is_Some_2 (delta_heads_ s) i) as [d Ed]; [lia|]. rewrite Ed in Hb |- *.
  rewrite Forall_lookup in Hd. destruct (Hd _ _ Ed) as [Hd1 Hd2].
  cbn [mbind option_bind default from_option] in Hb |- *. unfold id in Hb. apply (inj Some) in Hb.
  assert (Hread : mem_read (i * 18) 18 (mjoin cs ++ rest) = b).
  { apply mem_read_mjoin.
    - apply Forall_lookup. intros j c Hc. apply mapM_Some in Hcs.
      destruct (Forall2_lookup_r _ _ _ _ _ Hcs Hc) as (k & _ & Hk).
      by apply core_item_length in Hk.
    - apply mapM_Some in Hcs.
      destruct (Forall2_lookup_l _ _ _ i i Hcs) as (c & Hc & Hci).
      { by rewrite lookup_seq_lt. }
      rewrite Hc. f_equal. unfold core_item in Hci. rewrite Ei, Hver, Ed in Hci.
      cbn [mbind option_bind default from_option] in Hci. unfold id in Hci. congruence. }
  f_equal. unfold load_item. cbn [Z.leb Z.compare Pos.compare Pos.compare_cont].
  assert (Hget : forall n k, (k + n <= 18)%nat ->
    get_le n (i * 18 + k) (mjoin cs ++ rest) = get_le n k b).
  { intros n k Hk. rewrite <- Hread, get_le_mem_read by lia. done. }
  rewrite <- (Nat.add_0_r (i * 18)) at 1. rewrite !Hget by lia.
  unfold in_width in *. rewrite <- Hb.
  rewrite bitmap_deleted_spec with (item := item) by done.
  match goal with |- context [get_le 4 0 ?x] => set (f := x) end.
  assert (get32 0 f = v_page_no ver) as -> by (unfold f; get_field; lia).
  assert (get16 8 f = v_offset ver) as -> by (unfold f; get_field; lia).
  assert (get32 4 f = vertex_type_code (vertex_type item)) as ->
    by (unfold f; get_field; destruct (vertex_type item); cbn; lia).
  assert (get32 10 f = dh_page_no d) as -> by (unfold f; get_field; lia).
  assert (get32 14 f = dh_record_idx d) as -> by (unfold f; get_field; lia).
  by destruct (vertex_type item), d.
Qed.

Definition roundtrip_ok (s s' : vertex_index_t) : Prop :=
  length (items s') = length (items s) /\
  forall i, (i < length (items s))%nat -> entry s' i = entry s i.

Lemma rebuild_entries s vs :
  let s' := rebuild_index s vs in
  length (items s') = length vs /\
  forall i q, vs !! i = Some q ->
    previous q.1.1.1 = None -> entry s' i = Some q.
Proof.
  cbn zeta. split; [by cbn; rewrite length_imap|]. intros i q Hq Hprev.
  unfold entry, protect_vertex_version. unfold rebuild_index.
  cbn [items delta_heads_ versions]. rewrite list_lookup_imap, list_lookup_fmap, Hq.
  cbn [fmap option_fmap option_map mbind option_bind cur vertex_type is_delete].
  erewrite lookup_union_Some_l.
  2:{ apply elem_of_list_to_map_1'.
      - intros y Hy. apply elem_of_lookup_imap in Hy as (j & q' & Heq & Hj).
        injection Heq as Hi ->. assert (j = i) as -> by lia. rewrite Hq in Hj. by injection Hj as <-.
      - apply elem_of_lookup_imap. by exists i, q. }
  cbn [mbind option_bind]. destruct q as [[[[pn off pr] ty] del] d]; cbn in *. by subst.
Qed.

Lemma core_data_total s : storable s ->
  exists cs, mapM (core_item s) (seq 0 (length (items s))) = Some cs /\
    core_data s = Some (mjoin cs) /\ length (mjoin cs) = (length (items s) * 18)%nat.
Proof.
  intros [_ Hh Hloc _].
  destruct (mapM_is_Some_2 (core_item s) (seq 0 (length (items s)))) as [cs Hcs].
  { apply Forall_forall. intros i Hi. apply elem_of_seq in Hi.
    destruct (Hloc i) as (ver & Hver & _); [lia|].
    destruct (lookup_lt_is_Some_2 (items s) i) as [item Hit]; [lia|].
    change (is_Some (core_item s i)). unfold core_item. rewrite Hit, Hver. cbn. eauto. }
  exists cs. unfold core_data. rewrite Hcs. split; [done|]. split; [done|].
  apply mapM_Some in Hcs. rewrite (length_mjoin_const _ 18).
  - by rewrite <- (Forall2_length _ _ _ Hcs), length_seq.
  - apply Forall_lookup. intros j c Hc. destruct (Forall2_lookup_r _ _ _ _ _ Hcs Hc) as (k & _ & Hk).
    by apply core_item_length in Hk.
Qed.

(** The header and the bitmap, read back from the front of the file. *)
Lemma header_fields count comp rest :
  0 <= count < 2 ^ 64 -> comp = 0 \/ comp = 1 ->
  let f := file_header count comp ++ rest in
  (length f <? 32)%nat = false /\ get64 0 f = MAGIC /\ get64 8 f = 2 /\ get64 16 f = count /\
  get_le 1 24 f = comp /\ drop 32 f = rest.
Proof.
  intros Hc Hcomp f. unfold f, file_header. rewrite <- !app_assoc.
  change (2 ^ 64) with 18446744073709551616 in Hc.
  split; [|split; [|split; [|split; [|split]]]].
  - apply Nat.ltb_ge. rewrite !length_app, !length_le_bytes, length_replicate. lia.
  - get_field; vm_compute; split; congruence.
  - get_field; lia.
  - get_field; lia.
  - get_field; lia.
  - rewrite !app_assoc. apply drop_app_length'.
    by rewrite !length_app, !length_le_bytes, length_replicate.
Qed.

Section Roundtrip.
Hypothesis zlib_inverse : forall data c,
  compress2 data = Some c ->
  uncompress c (length data) = Some data /\ Z.of_nat (length c) < 2 ^ 64.

Lemma read_core_saved comp data ofs f bs bs' :
  (0 < bs)%nat -> (0 < bs')%nat -> comp = 0 \/ comp = 1 /\ have_zlib = true ->
  (if comp =? 0 then
     ofs' ← write_buffered ofs data bs; Some (true, ofs')
   else
     match compress2 data with
     | Some c => ofs' ← write_buffered (ofs ++ le_bytes 8 (Z.of_nat (length c))) c bs; Some (true, ofs')
     | None => Some (false, ofs)
     end) = Some (true, f) ->
  exists rest, f = ofs ++ rest /\ read_core comp rest (length data) bs' = Some data.
Proof.
  intros Hbs Hbs' Hcomp Hsave. unfold read_core, write_buffered, read_buffered in *.
  destruct Hcomp as [->|[-> Hz]]; cbn [Z.eqb Pos.eqb andb] in *.
  - rewrite write_loop_spec in Hsave by lia. cbn in Hsave. injection Hsave as <-.
    rewrite drop_0. exists data. split; [done|]. rewrite read_loop_spec by lia. cbn.
    by rewrite take_ge by lia.
  - rewrite Hz. destruct (compress2 data) as [c|] eqn:Ec; [|done].
    destruct (zlib_inverse _ _ Ec) as [Hinv Hlen].
    rewrite write_loop_spec in Hsave by lia. cbn [mbind option_bind] in Hsave.
    apply (inj Some) in Hsave. injection Hsave as <-. rewrite drop_0.
    exists (le_bytes 8 (Z.of_nat (length c)) ++ c). split; [by rewrite app_assoc|].
    rewrite length_app, length_le_bytes. cbn [Nat.ltb Nat.leb Nat.add].
    rewrite get_le_app_here by (change (256 ^ Z.of_nat 8) with (2 ^ 64); lia).
    rewrite drop_app_length' by (by rewrite length_le_bytes).
    rewrite Nat2Z.id, read_loop_spec by lia. cbn [mbind option_bind app].
    rewrite Nat.sub_0_r, take_ge, Hinv by lia. cbn. by rewrite Nat.eqb_refl.
Qed.

(** C11: saving an index and loading the file, with or without compression and
    whatever the two buffer sizes, gives back every vertex's location, type,
    deletion mark and delta head; the save itself always produces a file. *)
Theorem save_load_roundtrip s s0 use_compression bs bs' :
  storable s -> (0 < bs)%nat -> (0 < bs')%nat ->
  exists ok f, save_to_file s use_compression bs = Some (ok, f) /\
    (ok = true ->
       (load_from_file s0 f bs').1 = true /\ roundtrip_ok s (load_from_file s0 f bs').2).
Proof.
  intros Hst Hbs Hbs'. unfold save_to_file.
  set (comp := if have_zlib then _ else 0).
  assert (Hcomp : comp = 0 \/ comp = 1 /\ have_zlib = true)
    by (unfold comp; destruct have_zlib, use_compression; auto).
  assert (Hc01 : comp = 0 \/ comp = 1) by tauto.
  pose proof (st_count s Hst) as Hcnt.
  destruct (Nat.eqb_spec (length (items s)) 0) as [He|Hne].
  { exists true. eexists. split; [done|]. intros _. unfold load_from_file.
    destruct (header_fields (Z.of_nat (length (items s))) comp []) as (Hl & Hm & _ & Hn & _); [lia|done|].
    rewrite app_nil_r in *. rewrite Hl, Hm, Hn, Nat2Z.id, He. cbn. split; [done|].
    split; cbn; [done|lia]. }
  destruct (core_data_total s Hst) as (cs & Hcs & Hdata & Hlen). rewrite Hdata. cbn [mbind option_bind].
  match goal with |- exists ok f, ?e = _ /\ _ => assert (exists ok f, e = Some (ok, f)) as (ok & f & Hsave) end.
  { destruct (comp =? 0); [|destruct (compress2 _); [|eauto]];
      unfold write_buffered; rewrite write_loop_spec by lia; cbn; eauto. }
  exists ok, f. split; [done|]. intros ->.
  destruct (read_core_saved comp (mjoin cs) _ f bs bs' Hbs Hbs' Hcomp Hsave) as (rest & -> & Hread).
  unfold load_from_file. rewrite <- app_assoc.
  destruct (header_fields (Z.of_nat (length (items s))) comp (deletion_bitmap (items s) ++ rest))
    as (Hl & Hm & Hv & Hn & Hcp & Hdrop); [lia|done|].
  rewrite Hl, Hm, Hv, Hn, Hcp, Hdrop, Nat2Z.id. cbn [orb negb Z.eqb Z.leb Z.compare Pos.compare Pos.compare_cont].
  rewrite Z.eqb_refl. cbn [negb]. destruct (Nat.eqb_spec (length (items s)) 0); [done|].
  rewrite length_app, length_bitmap.
  destruct (Nat.ltb_spec ((length (items s) + 7) / 8 + length rest) ((length (items s) + 7) / 8)); [lia|].
  rewrite drop_app_length', take_app_length' by (by rewrite length_bitmap).
  rewrite <- Hlen, Hread. cbn [fst snd]. split; [done|].
  destruct (rebuild_entries s0 (load_item 2 (mjoin cs) (deletion_bitmap (items s)) <$>
    seq 0 (length (items s)))) as [Hlen' Hentry].
  split; [by rewrite Hlen', length_fmap, length_seq|]. intros i Hi.
  apply mapM_Some in Hcs as Hcs2.
  destruct (Forall2_lookup_l _ _ _ i i Hcs2) as (b & _ & Hb); [by rewrite lookup_seq_lt|].
  rewrite (core_item_load s i b [] cs) by done. rewrite app_nil_r.
  apply Hentry; [|done]. by rewrite list_lookup_fmap, lookup_seq_lt.
Qed.

End Roundtrip.
End Format.

(** A build with an identity compressor. *)
Definition copy_compress (data : list Z) : option (list Z) :=
  if Z.of_nat (length data) <? 2 ^ 64 then Some data else None.
Definition copy_uncompress (c : list Z) (cap : nat) : option (list Z) := Some c.

Definition sample_index : vertex_index_t :=
  set_heads [DeltaHead 3 1; dh_invalid]
    (update_vertex_type (allocate_new_vertex (allocate_new_vertex empty_index).2).2 1 GIANT).

Lemma sample_index_storable : storable sample_index.
Proof.
  constructor; cbn; [lia|done| |].
  - intros [|[|i]] Hi; [eexists; split; [reflexivity|]; vm_compute; intuition congruence..|].
    cbn in Hi. lia.
  - repeat constructor; vm_compute; congruence.
Qed.

Lemma save_load_roundtrip_witness :
  exists ok f, save_to_file true copy_compress sample_index true 5 = Some (ok, f) /\
    (ok = true ->
       (load_from_file true copy_uncompress empty_index f 7).1 = true /\
       roundtrip_ok sample_index (load_from_file true copy_uncompress empty_index f 7).2).
Proof.
  apply (save_load_roundtrip true copy_compress copy_uncompress).
  - unfold copy_compress, copy_uncompress. intros data c.
    destruct (Z.ltb_spec (Z.of_nat (length data)) (2 ^ 64)); [|done]. intros [= <-]. done.
  - exact sample_index_storable.
  - lia.
  - lia.
Defined.

End VFile.
