(* ===== verification/PageMap.v ===== *)
(** * The page map and its delta chains ([buf/page_map.h], [page_map.cc],
      [part/page_delta.h])

    For each CSR page an entry with the head of its list of delta pages, the
    list's length, the forwarding table of a consolidation in flight and the
    consolidation claim.  Delta pages live in a store indexed by page number:
    the frames of the delta buffer pool together with the delta file behind
    it.  A chain points to frames; the model supposes that no frame of a chain is
    evicted while the chain is in use, that is, that the delta pool has room for
    the chains.  The code does not ensure it: [alloc_delta_page] unpins its frame
    at once ([delta_frame_reused] in [BufPoolRun]), and [fetch_deltas_with_mark]
    unpins it again.  The allocator of page numbers is the disk manager, used through the
    [PageAllocator] interface.  Forwarding tables are shared objects (writers
    and the consolidation task hold references), named by identifiers. *)

From S2P Require Import Prelude Config DeltaPage VertexIndex.

Local Open Scope Z_scope.

(** ** Interface of the page allocator

    [allocate_page] returns a byte offset; the page number is the offset
    divided by the page size and truncated to [page_no_t]; [free_page] gives a
    page back.  The laws: a page handed out is not in use, as long as [room] is
    left, and a page given back once may be handed out again. *)

Class PageAllocator (A : Type) (page_bytes : Z) := {
  allocate_page : A -> Z * A;
  free_page : A -> Z -> A;
  alloc_ok : A -> gset Z -> Prop;
  room : A -> nat -> Prop;
  alloc_fresh : forall a used k, alloc_ok a used -> room a (S k) ->
    let pno := u32 (((allocate_page a).1) `div` page_bytes) in
    (pno ∉ used) /\ pno <> INVALID_DELTA_PAGE_NO /\
    alloc_ok (allocate_page a).2 ({[pno]} ∪ used) /\ room (allocate_page a).2 k;
  room_mono : forall a k, room a (S k) -> room a k;
  free_ok : forall a used n, alloc_ok a used -> n ∈ used -> alloc_ok (free_page a n) (used ∖ {[n]});
  free_room : forall a n k, room a k -> room (free_page a n) k
}.

Module PMap.
Import Delta VIndex.

(** ** Data *)

(** [page_delta_t]: where a consolidation moves each vertex, and the first
    record each vertex received on its new page meanwhile. *)
Record page_delta_t := PageDelta {
  forward_map_ : gmap Z Z;
  rerouted_tail_ : gmap Z delta_head_t
}.

Definition lookup_forward (f : page_delta_t) (v : Z) : option Z := forward_map_ f !! v.

(** [try_emplace]: the first location of a vertex is kept. *)
Definition note_rerouted_tail (f : page_delta_t) (v : Z) (tail : delta_head_t) : page_delta_t :=
  match rerouted_tail_ f !! v with
  | Some _ => f
  | None => PageDelta (forward_map_ f) (<[v := tail]> (rerouted_tail_ f))
  end.

Record page_map_entry_t := Entry {
  e_page_no : Z;
  delta_page : option Z;
  delta_page_count : Z;
  forwarder_ : option Z;
  consolidating_ : bool
}.

Definition new_entry (page_no : Z) : page_map_entry_t := Entry page_no None 0 None false.

Definition set_delta_page_ptr (e : page_map_entry_t) (p : option Z) : page_map_entry_t :=
  Entry (e_page_no e) p (delta_page_count e) (forwarder_ e) (consolidating_ e).
Definition inc_delta_page_count (e : page_map_entry_t) : page_map_entry_t :=
  Entry (e_page_no e) (delta_page e) (delta_page_count e + 1) (forwarder_ e) (consolidating_ e).
Definition reset_delta_page_count (e : page_map_entry_t) : page_map_entry_t :=
  Entry (e_page_no e) (delta_page e) 0 (forwarder_ e) (consolidating_ e).
Definition set_forwarder (e : page_map_entry_t) (f : option Z) : page_map_entry_t :=
  Entry (e_page_no e) (delta_page e) (delta_page_count e) f (consolidating_ e).
Definition set_consolidating (e : page_map_entry_t) (b : bool) : page_map_entry_t :=
  Entry (e_page_no e) (delta_page e) (delta_page_count e) (forwarder_ e) b.

Section Ops.
Context {A : Type} `{cfg : Config} `{!PageAllocator A (Z.of_nat DELTA_PAGE_SIZE)}.

Record page_map_t := PageMap {
  inner : gmap Z page_map_entry_t;
  pages : gmap Z delta_page_t;
  allocator : A;
  forwarders : gmap Z page_delta_t
}.

Definition set_inner (i : gmap Z page_map_entry_t) (m : page_map_t) : page_map_t :=
  PageMap i (pages m) (allocator m) (forwarders m).
Definition set_pages (p : gmap Z delta_page_t) (m : page_map_t) : page_map_t :=
  PageMap (inner m) p (allocator m) (forwarders m).
Definition set_forwarders (f : gmap Z page_delta_t) (m : page_map_t) : page_map_t :=
  PageMap (inner m) (pages m) (allocator m) f.

(** ** Operations *)

Definition get_or_create_entry (m : page_map_t) (page_no : Z) : page_map_entry_t * page_map_t :=
  match inner m !! page_no with
  | Some e => (e, m)
  | None => (new_entry page_no, set_inner (<[page_no := new_entry page_no]> (inner m)) m)
  end.

(** A disk slot and a reinitialised frame for it. *)
Definition alloc_delta_page (m : page_map_t) : Z * page_map_t :=
  let '(offset, a) := allocate_page (allocator m) in
  let new_page_no := u32 (offset `div` Z.of_nat DELTA_PAGE_SIZE) in
  (new_page_no,
   PageMap (inner m) (<[new_page_no := reinit new_page_no]> (pages m)) a (forwarders m)).

(** Makes [pno] the head of entry [e] (stored under [key]). *)
Definition prepend_page (m : page_map_t) (key pno : Z) : page_map_t :=
  set_inner (alter (fun e => inc_delta_page_count (set_delta_page_ptr e (Some pno))) key (inner m)) m.

(** The head page, allocated when the chain is empty. *)
Definition ensure_head (m : page_map_t) (key : Z) : Z * page_map_t :=
  match inner m !! key ≫= delta_page with
  | Some h => (h, m)
  | None => let '(pno, m) := alloc_delta_page m in (pno, prepend_page m key pno)
  end.

(** [alloc_delta_page], [set_next_ptr(head)] and the new head installed. *)
Definition new_head (m : page_map_t) (key head : Z) : Z * page_map_t :=
  let '(pno, m) := alloc_delta_page m in
  let m := set_pages (alter (fun p => set_next_ptr p (Some head)) pno (pages m)) m in
  (pno, prepend_page m key pno).

(** Insert into the frame of page [pno]; [None]: no such frame. *)
Definition page_insert (m : page_map_t) (pno : Z) (r : delta_record_t) : option (bool * page_map_t) :=
  p ← pages m !! pno;
  let '(ok, p) := insert_delta p r in
  Some (ok, set_pages (<[pno := p]> (pages m)) m).

(** The loop of [insert_delta]; a record that does not fit even on a fresh
    page makes it allocate pages forever ([None] when the fuel runs out). *)
Fixpoint insert_loop (fuel : nat) (m : page_map_t) (key head : Z) (rs : list delta_record_t) :
    option page_map_t :=
  match rs with
  | [] => Some m
  | r :: rest =>
    match fuel with
    | O => None
    | S fuel =>
      '(ok, m) ← page_insert m head r;
      if (ok : bool) then insert_loop fuel m key head rest
      else let '(pno, m) := new_head m key head in insert_loop fuel m key pno rs
    end
  end.

Definition insert_delta_batch (fuel : nat) (m : page_map_t) (page_no : Z) (rs : list delta_record_t) :
    option page_map_t :=
  let '(_, m) := get_or_create_entry m page_no in
  let '(head, m) := ensure_head m page_no in
  insert_loop fuel m page_no head rs.

(** [None] also stands for the exception of an insert failing on a fresh page. *)
Definition insert_delta_and_get_loc (m : page_map_t) (csr_page_no : Z) (r : delta_record_t) :
    option (delta_head_t * page_map_t) :=
  let '(_, m) := get_or_create_entry m csr_page_no in
  let '(head, m) := ensure_head m csr_page_no in
  hp ← pages m !! head;
  let record_idx := u32 (get_num_records hp) in
  '(ok, m) ← page_insert m head r;
  if (ok : bool) then Some (DeltaHead head record_idx, m)
  else
    let '(pno, m) := new_head m csr_page_no head in
    '(ok, m) ← page_insert m pno r;
    if (ok : bool) then Some (DeltaHead pno 0, m) else None.

(** The pages of a chain from [cur], newest first; [None]: no such frame, or
    out of fuel. *)
Fixpoint chain_pages (fuel : nat) (ps : gmap Z delta_page_t) (cur : option Z) : option (list Z) :=
  match cur with
  | None => Some []
  | Some pno =>
    match fuel with
    | O => None
    | S fuel => p ← ps !! pno; rest ← chain_pages fuel ps (next_delta_page_ p); Some (pno :: rest)
    end
  end.

(** Collects the chain head to tail, marks its pages, detaches it from the
    entry and returns the records of the last page first. *)
Definition fetch_deltas_with_mark (fuel : nat) (m : page_map_t) (page_no : Z) :
    option (list delta_record_t * page_map_t) :=
  match inner m !! page_no with
  | None => Some ([], m)
  | Some e =>
    pnos ← chain_pages fuel (pages m) (delta_page e);
    let page_records := (fun pno => from_option get_delta_span [] (pages m !! pno)) <$> pnos in
    let ps := foldl (fun ps pno => alter (fun p => set_status p CONSOLIDATE) pno ps) (pages m) pnos in
    let e := reset_delta_page_count (set_delta_page_ptr e None) in
    Some (mjoin (reverse page_records), set_inner (<[page_no := e]> (inner m)) (set_pages ps m))
  end.

Definition get_delta_chain_length (m : page_map_t) (page_no : Z) : Z :=
  match inner m !! page_no with Some e => delta_page_count e | None => 0 end.

Definition truncate_chain_at (m : page_map_t) (loc : delta_head_t) : page_map_t :=
  if dh_is_valid loc then
    set_pages (alter (fun p => clear_record_next p (dh_record_idx loc)) (dh_page_no loc) (pages m)) m
  else m.

Definition acquire_forwarder_for (m : page_map_t) (page_no : Z) : option Z :=
  inner m !! page_no ≫= forwarder_.

(** The result: the location, whether the record was rerouted, the new state. *)
Definition insert_delta_with_forward (m : page_map_t) (csr_page_no src : Z) (r : delta_record_t) :
    option (delta_head_t * bool * page_map_t) :=
  let fwd := acquire_forwarder_for m csr_page_no in
  let hit := fid ← fwd; f ← forwarders m !! fid; lookup_forward f src in
  let target_pno := default csr_page_no hit in
  '(loc, m) ← insert_delta_and_get_loc m target_pno r;
  match hit, fwd with
  | Some _, Some fid =>
    Some (loc, true, set_forwarders (alter (fun f => note_rerouted_tail f src loc) fid (forwarders m)) m)
  | _, _ => Some (loc, false, m)
  end.

Definition install_forwarder_for (m : page_map_t) (page_no fid : Z) : page_map_t :=
  match inner m !! page_no with
  | Some e => set_inner (<[page_no := set_forwarder e (Some fid)]> (inner m)) m
  | None => set_inner (<[page_no := set_forwarder (new_entry page_no) (Some fid)]> (inner m)) m
  end.

Definition detach_forwarder_for (m : page_map_t) (page_no : Z) : option Z * page_map_t :=
  match inner m !! page_no with
  | Some e => (forwarder_ e, set_inner (<[page_no := set_forwarder e None]> (inner m)) m)
  | None => (None, m)
  end.

Definition try_begin_consolidation_for (m : page_map_t) (page_no : Z) : bool * page_map_t :=
  match inner m !! page_no with
  | Some e => if consolidating_ e then (false, m)
              else (true, set_inner (<[page_no := set_consolidating e true]> (inner m)) m)
  | None => (false, m)
  end.

Definition end_consolidation_for (m : page_map_t) (page_no : Z) : page_map_t :=
  match inner m !! page_no with
  | Some e => set_inner (<[page_no := set_consolidating e false]> (inner m)) m
  | None => m
  end.

(** ** Chains, their records and the invariant *)

Inductive page_chain (ps : gmap Z delta_page_t) : option Z -> list Z -> Prop :=
  | page_chain_nil : page_chain ps None []
  | page_chain_cons pno p l :
      ps !! pno = Some p -> page_chain ps (next_delta_page_ p) l ->
      page_chain ps (Some pno) (pno :: l).

Lemma page_chain_det ps c l l' : page_chain ps c l -> page_chain ps c l' -> l = l'.
Proof.
  intros H. revert l'. induction H as [|pno p l Hp Hc IH]; intros l' H'; inversion H'; subst; auto.
  f_equal. apply IH. by simplify_eq.
Qed.

Lemma page_chain_suffix ps c l x : page_chain ps c l -> x ∈ l ->
  exists l2, page_chain ps (Some x) l2 /\ (length l2 <= length l)%nat.
Proof.
  induction 1 as [|pno p l Hp Hc IH]; intros Hx; [by apply elem_of_nil in Hx|].
  apply elem_of_cons in Hx as [->|Hx].
  - exists (pno :: l). split; [by econstructor|done].
  - destruct (IH Hx) as (l2 & H2 & Hlen). exists l2. split; [done|]. cbn. lia.
Qed.

Lemma page_chain_nodup ps c l : page_chain ps c l -> NoDup l.
Proof.
  induction 1 as [|pno p l Hp Hc IH]; constructor; auto. intros Hin.
  destruct (page_chain_suffix _ _ _ _ Hc Hin) as (l2 & H2 & Hlen).
  assert (l2 = pno :: l) as -> by (eapply page_chain_det; [done|]; by econstructor).
  cbn in Hlen. lia.
Qed.

Lemma page_chain_elem ps c l x : page_chain ps c l -> x ∈ l -> is_Some (ps !! x).
Proof.
  induction 1 as [|pno p l Hp Hc IH]; intros Hx; [by apply elem_of_nil in Hx|].
  apply elem_of_cons in Hx as [->|Hx]; eauto.
Qed.

Lemma chain_pages_spec fuel ps c l :
  page_chain ps c l -> (length l <= fuel)%nat -> chain_pages fuel ps c = Some l.
Proof.
  intros H. revert fuel. induction H as [|pno p l Hp Hc IH]; intros fuel Hf; [by destruct fuel|].
  destruct fuel as [|fuel]; cbn in Hf; [lia|]. cbn. rewrite Hp. cbn. rewrite IH by lia. done.
Qed.

(** The store only grows: pages stay, their links stay, and their contents
    are extended at the end. *)
Definition pages_ext (ps ps' : gmap Z delta_page_t) : Prop :=
  forall n p, ps !! n = Some p -> exists p', ps' !! n = Some p' /\
    next_delta_page_ p' = next_delta_page_ p /\ contents p `prefix_of` contents p'.

#[export] Instance pages_ext_preorder : PreOrder pages_ext.
Proof.
  split.
  - intros ps n p Hp. eauto.
  - intros ps1 ps2 ps3 H12 H23 n p Hp.
    destruct (H12 _ _ Hp) as (p2 & Hp2 & Hn2 & Hc2).
    destruct (H23 _ _ Hp2) as (p3 & Hp3 & Hn3 & Hc3).
    exists p3. split; [done|]. split; [congruence|]. by etrans.
Qed.

Lemma page_chain_ext ps ps' c l : pages_ext ps ps' -> page_chain ps c l -> page_chain ps' c l.
Proof.
  intros Hext. induction 1 as [|pno p l Hp Hc IH]; [constructor|].
  destruct (Hext _ _ Hp) as (p' & Hp' & Hn & _). econstructor; [done|]. by rewrite Hn.
Qed.

Definition page_records (ps : gmap Z delta_page_t) (pno : Z) : list delta_record_t :=
  from_option contents [] (ps !! pno).

(** The records of a chain, oldest first. *)
Definition records_of (ps : gmap Z delta_page_t) (l : list Z) : list delta_record_t :=
  mjoin (page_records ps <$> reverse l).

Lemma records_of_cons ps pno l : records_of ps (pno :: l) = records_of ps l ++ page_records ps pno.
Proof.
  unfold records_of. rewrite reverse_cons, fmap_app, join_app. f_equal.
  cbn. by rewrite app_nil_r.
Qed.

Lemma records_of_ext ps ps' l :
  (forall x, x ∈ l -> page_records ps' x = page_records ps x) -> records_of ps' l = records_of ps l.
Proof.
  intros H. unfold records_of. f_equal. apply list_fmap_ext. intros i x Hx.
  apply H. apply elem_of_reverse. by eapply list_elem_of_lookup_2.
Qed.

(** The delta records of a CSR page, oldest first. *)
Definition entry_recs (m : page_map_t) (k : Z) (rs : list delta_record_t) : Prop :=
  match inner m !! k with
  | None => rs = []
  | Some e => exists l, page_chain (pages m) (delta_page e) l /\ rs = records_of (pages m) l
  end.

Record pm_wf (m : page_map_t) : Prop := {
  w_pages : forall n p, pages m !! n = Some p -> wf_page p;
  w_nums : forall n, n ∈ dom (pages m) -> in_width 32 n /\ n <> INVALID_DELTA_PAGE_NO;
  w_alloc : alloc_ok (allocator m) (dom (pages m));
  w_entry : forall k e, inner m !! k = Some e ->
    exists l, page_chain (pages m) (delta_page e) l /\ delta_page_count e = Z.of_nat (length l);
  w_disj : forall k1 k2 e1 e2 l1 l2, k1 <> k2 ->
    inner m !! k1 = Some e1 -> inner m !! k2 = Some e2 ->
    page_chain (pages m) (delta_page e1) l1 -> page_chain (pages m) (delta_page e2) l2 -> l1 ## l2
}.

(** The claim on a page. *)
Definition claimed (m : page_map_t) (k : Z) : bool := from_option consolidating_ false (inner m !! k).

(** One step of the map that appends [new] to the records of page [key]. *)
Record appends (m m' : page_map_t) (key : Z) (new : list delta_record_t) : Prop := {
  ap_wf : pm_wf m';
  ap_ext : pages_ext (pages m) (pages m');
  ap_fwd : forwarders m' = forwarders m;
  ap_key : forall rs, entry_recs m key rs -> entry_recs m' key (rs ++ new);
  ap_other : forall k rs, k <> key -> entry_recs m k rs -> entry_recs m' k rs;
  ap_fields : forall k, acquire_forwarder_for m' k = acquire_forwarder_for m k /\ claimed m' k = claimed m k
}.

Lemma appends_trans m1 m2 m3 key a b :
  appends m1 m2 key a -> appends m2 m3 key b -> appends m1 m3 key (a ++ b).
Proof.
  intros [H1 H2 H3 H4 H5 H6] [K1 K2 K3 K4 K5 K6]. constructor; auto.
  - by etrans.
  - congruence.
  - intros rs Hrs. rewrite app_assoc. auto.
  - intros k. destruct (K6 k) as [-> ->]. apply H6.
Qed.

Lemma wf_entry_recs m k : pm_wf m -> exists rs, entry_recs m k rs.
Proof.
  intros Hwf. unfold entry_recs. destruct (inner m !! k) as [e|] eqn:E; [|eauto].
  destruct (w_entry m Hwf k e E) as (l & Hl & _). eauto.
Qed.

Lemma entry_recs_det m k rs rs' : entry_recs m k rs -> entry_recs m k rs' -> rs = rs'.
Proof.
  unfold entry_recs. destruct (inner m !! k); [|congruence].
  intros (l & Hl & ->) (l' & Hl' & ->). by rewrite (page_chain_det _ _ _ _ Hl Hl').
Qed.

(** ** The building steps *)

(** A page holds at least one record, and page offsets fit 32 bits. *)
Definition page_size_ok : Prop := (56 <= DELTA_PAGE_SIZE)%nat /\ Z.of_nat DELTA_PAGE_SIZE < 2 ^ 32.

Hypothesis Hsize : page_size_ok.

Lemma get_or_create_appends m key : pm_wf m ->
  appends m (get_or_create_entry m key).2 key [] /\
  is_Some (inner (get_or_create_entry m key).2 !! key) /\
  pages (get_or_create_entry m key).2 = pages m /\
  allocator (get_or_create_entry m key).2 = allocator m.
Proof.
  intros Hwf. unfold get_or_create_entry. destruct (inner m !! key) as [e|] eqn:E; cbn [snd].
  { split; [|eauto]. constructor; auto; [done|..]; intros; rewrite ?app_nil_r; eauto. }
  split; [|cbn; rewrite lookup_insert_eq; eauto].
  constructor; cbn; auto; [|done|..].
  - destruct Hwf as [W1 W2 W3 W4 W5]. constructor; cbn; auto.
    + intros k e. rewrite lookup_insert. case_decide; [|eauto].
      intros [= <-]. exists []. split; [constructor|done].
    + intros k1 k2 e1 e2 l1 l2 Hne. rewrite !lookup_insert.
      repeat case_decide; subst; try congruence.
      * intros [= <-] _ Hl _. inversion Hl. set_solver.
      * intros _ [= <-] _ Hl. inversion Hl. set_solver.
      * eauto.
  - intros rs. unfold entry_recs; cbn. rewrite lookup_insert_eq, E. intros ->.
    exists []. split; [constructor|done].
  - intros k rs Hk. unfold entry_recs; cbn. by rewrite lookup_insert_ne.
  - intros k. unfold acquire_forwarder_for, claimed; cbn. rewrite lookup_insert.
    case_decide; [subst; by rewrite E|done].
Qed.

(** A page allocated and made the head of [key]'s chain, in front of [nx]. *)
Definition grown (m : page_map_t) (key : Z) (nx : option Z) : Z * page_map_t :=
  let '(offset, a) := allocate_page (allocator m) in
  let pno := u32 (offset `div` Z.of_nat DELTA_PAGE_SIZE) in
  (pno, prepend_page (PageMap (inner m) (<[pno := set_next_ptr (reinit pno) nx]> (pages m)) a
                        (forwarders m)) key pno).

Lemma ensure_head_grown m key e :
  inner m !! key = Some e -> delta_page e = None -> ensure_head m key = grown m key None.
Proof.
  intros He Hd. unfold ensure_head, grown, alloc_delta_page. rewrite He. cbn. rewrite Hd.
  by destruct (allocate_page (allocator m)).
Qed.

Lemma new_head_grown m key head : new_head m key head = grown m key (Some head).
Proof.
  unfold new_head, grown, alloc_delta_page. destruct (allocate_page (allocator m)) as [off a].
  cbn. unfold set_pages; cbn. by rewrite alter_insert_eq.
Qed.

Lemma fresh_page_wf pno nx :
  wf_page (set_next_ptr (reinit pno) nx) /\ contents (set_next_ptr (reinit pno) nx) = [] /\
  page_full (set_next_ptr (reinit pno) nx) = false.
Proof.
  destruct Hsize as [H1 H2]. destruct (reinit_wf pno) as [Hw Hc]; [lia|done|].
  destruct (set_next_ptr_wf _ nx Hw) as [Hw' Hc']. split; [done|]. split; [congruence|].
  unfold page_full; cbn. apply Z.ltb_ge. lia.
Qed.

Lemma ext_insert_fresh ps pno p : ps !! pno = None -> pages_ext ps (<[pno := p]> ps).
Proof.
  intros Hf n q Hq. exists q. rewrite lookup_insert_ne by congruence. auto.
Qed.

Lemma records_of_insert_fresh ps pno p l c :
  ps !! pno = None -> page_chain ps c l -> records_of (<[pno := p]> ps) l = records_of ps l.
Proof.
  intros Hf Hl. apply records_of_ext. intros x Hx. unfold page_records.
  rewrite lookup_insert_ne; [done|]. intros <-.
  destruct (page_chain_elem _ _ _ _ Hl Hx). congruence.
Qed.

Lemma grown_appends m key e k :
  pm_wf m -> inner m !! key = Some e -> room (allocator m) (S k) ->
  let '(pno, m') := grown m key (delta_page e) in
  appends m m' key [] /\ room (allocator m') k /\
  (exists e', inner m' !! key = Some e' /\ delta_page e' = Some pno) /\
  exists p, pages m' !! pno = Some p /\ contents p = [] /\ page_full p = false /\ wf_page p.
Proof.
  intros Hwf He Hroom. unfold grown.
  pose proof (alloc_fresh (allocator m) (dom (pages m)) k (w_alloc m Hwf) Hroom) as Hfr.
  destruct (allocate_page (allocator m)) as [off a]. cbn [fst snd] in Hfr. cbn zeta in Hfr.
  assert (Hw32 : in_width 32 (u32 (off `div` Z.of_nat DELTA_PAGE_SIZE))) by (apply wrap_range; lia).
  generalize dependent (u32 (off `div` Z.of_nat DELTA_PAGE_SIZE)). intros pno (Hnin & Hinv & Hok & Hrm) Hw32.
  apply not_elem_of_dom in Hnin.
  destruct (fresh_page_wf pno (delta_page e)) as (Hpw & Hpc & Hpf).
  set (p := set_next_ptr (reinit pno) (delta_page e)) in *.
  pose proof (ext_insert_fresh (pages m) pno p Hnin) as Hext.
  destruct (w_entry m Hwf key e He) as (l & Hl & Hcnt).
  assert (Hnew : page_chain (<[pno := p]> (pages m)) (Some pno) (pno :: l)).
  { econstructor; [apply lookup_insert_eq|]. by eapply page_chain_ext. }
  set (m' := prepend_page _ key pno).
  assert (Hin : forall k, inner m' !! k = if decide (k = key)
    then Some (inc_delta_page_count (set_delta_page_ptr e (Some pno))) else inner m !! k).
  { intros k'. unfold m', prepend_page, set_inner; cbn. rewrite lookup_alter.
    repeat case_decide; subst; try congruence. by rewrite He. }
  assert (Hchain : forall k' e' l', k' <> key -> inner m !! k' = Some e' ->
    page_chain (<[pno := p]> (pages m)) (delta_page e') l' -> page_chain (pages m) (delta_page e') l').
  { intros k' e' l' _ He' Hl'. destruct (w_entry m Hwf k' e' He') as (l2 & Hl2 & _).
    pose proof (page_chain_ext _ _ _ _ Hext Hl2) as Hl2'.
    by rewrite (page_chain_det _ _ _ _ Hl' Hl2'). }
  assert (Hfreshl : forall k' e' l', inner m !! k' = Some e' ->
    page_chain (pages m) (delta_page e') l' -> pno ∉ l').
  { intros k' e' l' _ Hl' Hx. destruct (page_chain_elem _ _ _ _ Hl' Hx). congruence. }
  split; [|split; [done|split]].
  2:{ eexists. rewrite Hin, decide_True by done. split; done. }
  2:{ exists p. split; [apply lookup_insert_eq|done]. }
  constructor; auto.
  - constructor; cbn [m' prepend_page set_inner pages allocator].
    + intros n q. cbn. rewrite lookup_insert. case_decide; [intros [= <-]; done|].
      apply (w_pages m Hwf).
    + intros n. cbn. rewrite dom_insert, elem_of_union, elem_of_singleton.
      intros [->|Hn]; [done|by apply (w_nums m Hwf)].
    + cbn. by rewrite dom_insert_L.
    + intros k' e' He'. rewrite Hin in He'. cbn. case_decide.
      * injection He' as <-. exists (pno :: l). split; [done|]. cbn. lia.
      * destruct (w_entry m Hwf k' e' He') as (l' & Hl' & ?). exists l'.
        split; [by eapply page_chain_ext|done].
    + intros k1 k2 e1 e2 l1 l2 Hne H1 H2 Hl1 Hl2. rewrite Hin in H1, H2. cbn in Hl1, Hl2.
      destruct (decide (k1 = key)) as [Hk1|Hk1], (decide (k2 = key)) as [Hk2|Hk2]; [congruence|..].
      * subst k1. injection H1 as <-. cbn in Hl1. rewrite (page_chain_det _ _ _ _ Hl1 Hnew).
        pose proof (Hchain _ _ _ Hk2 H2 Hl2) as Hl2'.
        pose proof (w_disj m Hwf key k2 e e2 l l2 ltac:(congruence) He H2 Hl Hl2').
        pose proof (Hfreshl _ _ _ H2 Hl2'). set_solver.
      * subst k2. injection H2 as <-. cbn in Hl2. rewrite (page_chain_det _ _ _ _ Hl2 Hnew).
        pose proof (Hchain _ _ _ Hk1 H1 Hl1) as Hl1'.
        pose proof (w_disj m Hwf k1 key e1 e l1 l ltac:(congruence) H1 He Hl1' Hl).
        pose proof (Hfreshl _ _ _ H1 Hl1'). set_solver.
      * eapply (w_disj m Hwf k1 k2); eauto.
  - intros rs. rewrite app_nil_r. unfold entry_recs. rewrite He, Hin, decide_True by done.
    intros (l' & Hl' & ->). rewrite (page_chain_det _ _ _ _ Hl' Hl).
    exists (pno :: l). split; [done|]. cbn [m' prepend_page set_inner pages].
    rewrite records_of_cons. unfold page_records at 1. rewrite lookup_insert_eq. cbn [from_option].
    rewrite Hpc, app_nil_r. by erewrite records_of_insert_fresh.
  - intros k' rs Hk. unfold entry_recs. rewrite Hin, decide_False by done.
    destruct (inner m !! k') as [e'|]; [|done]. intros (l' & Hl' & ->).
    exists l'. split; [by eapply page_chain_ext|]. by erewrite <- records_of_insert_fresh.
  - intros k'. unfold acquire_forwarder_for, claimed. rewrite Hin. case_decide; [|done]. subst. by rewrite He.
Qed.

Lemma dom_insert_existing (ps : gmap Z delta_page_t) n p q :
  ps !! n = Some q -> dom (<[n := p]> ps) = dom ps.
Proof. intros H. apply dom_insert_lookup_L. eauto. Qed.

(** Replacing a page by one with the same link and an extended content. *)
Lemma update_page_appends m key e h p p' new :
  pm_wf m -> inner m !! key = Some e -> delta_page e = Some h -> pages m !! h = Some p ->
  wf_page p' -> next_delta_page_ p' = next_delta_page_ p -> contents p' = contents p ++ new ->
  appends m (set_pages (<[h := p']> (pages m)) m) key new.
Proof.
  intros Hwf He Hh Hp Hwf' Hnx Hc.
  assert (Hext : pages_ext (pages m) (<[h := p']> (pages m))).
  { intros n q Hq. rewrite lookup_insert. case_decide; [|eauto]. subst n. simplify_eq.
    exists p'. split; [done|]. split; [done|]. rewrite Hc. by apply prefix_app_r. }
  assert (Hback : forall k e' l, inner m !! k = Some e' ->
    page_chain (<[h := p']> (pages m)) (delta_page e') l -> page_chain (pages m) (delta_page e') l).
  { intros k e' l He' Hl. destruct (w_entry m Hwf k e' He') as (l2 & Hl2 & _).
    by rewrite (page_chain_det _ _ _ _ Hl (page_chain_ext _ _ _ _ Hext Hl2)). }
  destruct (w_entry m Hwf key e He) as (l & Hl & Hcnt).
  assert (Hhl : exists l', l = h :: l') by (rewrite Hh in Hl; inversion Hl; subst; eauto).
  destruct Hhl as (l' & ->).
  assert (Hsame : forall x, x <> h -> page_records (<[h := p']> (pages m)) x = page_records (pages m) x).
  { intros x Hx. unfold page_records. by rewrite lookup_insert_ne. }
  assert (Hdom : dom (<[h := p']> (pages m)) = dom (pages m)) by by eapply dom_insert_existing.
  constructor; auto.
  - constructor; cbn [set_pages inner pages allocator]; rewrite ?Hdom; try apply Hwf.
    + intros n q. rewrite lookup_insert. case_decide; [intros [= <-]; done|]. apply (w_pages m Hwf).
    + intros k e' He'. destruct (w_entry m Hwf k e' He') as (l2 & Hl2 & ?). exists l2.
      split; [by eapply page_chain_ext|done].
    + intros k1 k2 e1 e2 l1 l2 Hne H1 H2 Hl1 Hl2. eapply (w_disj m Hwf k1 k2); eauto.
  - intros rs. unfold entry_recs; cbn [set_pages inner pages]. rewrite He.
    intros (l2 & Hl2 & ->). rewrite (page_chain_det _ _ _ _ Hl2 Hl).
    exists (h :: l'). split; [by eapply page_chain_ext|]. rewrite !records_of_cons.
    rewrite (records_of_ext (pages m) (<[h := p']> (pages m)) l').
    + unfold page_records. rewrite lookup_insert_eq, Hp. cbn [from_option]. rewrite Hc. by rewrite app_assoc.
    + intros x Hx. apply Hsame. intros ->. apply page_chain_nodup in Hl. by apply NoDup_cons in Hl as [? _].
  - intros k rs Hk. unfold entry_recs; cbn [set_pages inner pages].
    destruct (inner m !! k) as [e'|] eqn:Ek; [|done]. intros (l2 & Hl2 & ->). exists l2.
    split; [by eapply page_chain_ext|]. symmetry. apply records_of_ext. intros x Hx. apply Hsame.
    intros ->. pose proof (w_disj m Hwf k key e' e l2 (h :: l') Hk Ek He Hl2 Hl). set_solver.
Qed.

Lemma page_insert_appends m key e h p r :
  pm_wf m -> inner m !! key = Some e -> delta_page e = Some h -> pages m !! h = Some p -> wf_record r ->
  exists m', page_insert m h r = Some (negb (page_full p), m') /\
    appends m m' key (if page_full p then [] else [r]) /\
    inner m' = inner m /\ allocator m' = allocator m /\
    exists p', pages m' !! h = Some p' /\ contents p' = contents p ++ (if page_full p then [] else [r]).
Proof.
  intros Hwf He Hh Hp Hr. unfold page_insert. rewrite Hp. cbn [mbind option_bind].
  pose proof (insert_delta_spec p r (w_pages m Hwf _ _ Hp) Hr) as Hspec.
  destruct (insert_delta p r) as [ok p']. destruct Hspec as (-> & Hwf' & Hc & _ & Hnx & _).
  assert (Hc' : contents p' = contents p ++ (if page_full p then [] else [r])).
  { rewrite Hc. destruct (page_full p); cbn; [by rewrite app_nil_r|done]. }
  eexists. split; [done|]. split; [by eapply update_page_appends|].
  split; [done|]. split; [done|]. exists p'. cbn. by rewrite lookup_insert_eq.
Qed.

(** The record stored at a location. *)
Definition loc_holds (ps : gmap Z delta_page_t) (loc : delta_head_t) (r : delta_record_t) : Prop :=
  0 <= dh_record_idx loc /\
  exists p, ps !! dh_page_no loc = Some p /\ contents p !! Z.to_nat (dh_record_idx loc) = Some r.

Definition wf_loc (loc : delta_head_t) : Prop :=
  in_width 32 (dh_page_no loc) /\ in_width 32 (dh_record_idx loc).

Lemma ensure_head_appends m key e k :
  pm_wf m -> inner m !! key = Some e -> room (allocator m) (S k) ->
  exists h m', ensure_head m key = (h, m') /\ appends m m' key [] /\ room (allocator m') k /\
    (exists e', inner m' !! key = Some e' /\ delta_page e' = Some h) /\
    exists p, pages m' !! h = Some p /\ wf_page p.
Proof.
  intros Hwf He Hroom. destruct (delta_page e) as [h|] eqn:Hd.
  - exists h, m. unfold ensure_head. rewrite He. cbn. rewrite Hd.
    split; [done|]. split.
    { constructor; auto; [done|..]; intros; rewrite ?app_nil_r; eauto. }
    split; [by apply room_mono|]. split; [eauto|].
    destruct (w_entry m Hwf key e He) as (l & Hl & _). rewrite Hd in Hl. inversion Hl; subst.
    eexists. split; [done|]. by eapply (w_pages m Hwf).
  - rewrite (ensure_head_grown _ _ _ He Hd).
    pose proof (grown_appends m key e k Hwf He Hroom) as Hg. rewrite Hd in Hg.
    destruct (grown m key None) as [pno m']. destruct Hg as (? & ? & ? & p & ? & _ & _ & ?). eauto 10.
Qed.

Lemma insert_delta_and_get_loc_spec m key r k :
  pm_wf m -> wf_record r -> room (allocator m) (S (S k)) ->
  exists loc m', insert_delta_and_get_loc m key r = Some (loc, m') /\ appends m m' key [r] /\
    loc_holds (pages m') loc r /\ dh_is_valid loc = true /\ wf_loc loc /\ room (allocator m') k.
Proof.
  intros Hwf Hr Hroom. unfold insert_delta_and_get_loc.
  destruct (get_or_create_appends m key Hwf) as (A1 & [e1 He1] & _ & Hal).
  destruct (get_or_create_entry m key) as [e0 m1]. cbn [snd] in *. rewrite <- Hal in Hroom.
  destruct (ensure_head_appends m1 key e1 _ (ap_wf _ _ _ _ A1) He1 Hroom)
    as (h & m2 & -> & A2 & Hroom2 & (e2 & He2 & Hh2) & p & Hp & Hpw).
  rewrite Hp. cbn [mbind option_bind].
  pose proof (appends_trans _ _ _ _ _ _ A1 A2) as A12. cbn in A12.
  pose proof (ap_wf _ _ _ _ A12) as Hwf2.
  destruct (page_insert_appends m2 key e2 h p r Hwf2 He2 Hh2 Hp Hr)
    as (m3 & -> & A3 & Hin3 & Hal3 & p3 & Hp3 & Hc3).
  assert (Hvalid : forall n, n ∈ dom (pages m2) -> dh_is_valid (DeltaHead n 0) = true /\ in_width 32 n).
  { intros n Hn. destruct (w_nums m2 Hwf2 n Hn) as [? Hne]. split; [|done].
    unfold dh_is_valid; cbn. by apply negb_true_iff, Z.eqb_neq. }
  assert (Hh : h ∈ dom (pages m2)) by (apply elem_of_dom; eauto).
  assert (Hnum : num_delta_records_ p = Z.of_nat (length (contents p)) /\
                 in_width 32 (num_delta_records_ p)).
  { destruct Hpw, Hsize. rewrite length_contents. unfold in_width. lia. }
  destruct Hnum as [Hnum Hnumw].
  destruct (page_full p) eqn:Hfull; cbn [negb mbind option_bind].
  - rewrite new_head_grown, <- Hh2.
    assert (He3 : inner m3 !! key = Some e2) by (by rewrite Hin3).
    rewrite <- Hal3 in Hroom2.
    pose proof (grown_appends m3 key e2 k (ap_wf _ _ _ _ A3) He3 Hroom2) as Hg.
    destruct (grown m3 key (delta_page e2)) as [pno m4].
    destruct Hg as (A4 & Hroom4 & (e4 & He4 & Hh4) & q & Hq & Hqc & Hqf & Hqw).
    destruct (page_insert_appends m4 key e4 pno q r (ap_wf _ _ _ _ A4) He4 Hh4 Hq Hr)
      as (m5 & -> & A5 & _ & Hal5 & q5 & Hq5 & Hqc5).
    rewrite Hqf in *. cbn [negb mbind option_bind].
    pose proof (appends_trans _ _ _ _ _ _ A12 (appends_trans _ _ _ _ _ _ A3 (appends_trans _ _ _ _ _ _ A4 A5))) as A1234.
    exists (DeltaHead pno 0), m5. split; [done|]. split; [exact A1234|].
    assert (Hpno : pno ∈ dom (pages m4)) by (apply elem_of_dom; eauto).
    destruct (w_nums m4 (ap_wf _ _ _ _ A4) pno Hpno) as [Hw Hne].
    split; [split; [done|]; exists q5; split; [done|]; rewrite Hqc5, Hqc; done|].
    split; [unfold dh_is_valid; cbn; by apply negb_true_iff, Z.eqb_neq|].
    split; [split; [done|cbn; unfold in_width; lia]|]. by rewrite Hal5.
  - exists (DeltaHead h (u32 (get_num_records p))), m3. split; [done|].
    split; [exact (appends_trans _ _ _ _ _ _ A12 A3)|].
    unfold get_num_records. rewrite wrap_small by done.
    destruct (Hvalid h Hh) as [Hv Hw].
    split; [|split; [done|split; [done|by rewrite Hal3; apply room_mono]]].
    split; cbn [dh_record_idx dh_page_no]; [lia|]. exists p3. split; [done|].
    rewrite Hc3, Hnum, Nat2Z.id, lookup_app_r, Nat.sub_diag by lia. done.
Qed.

Lemma loc_holds_ext ps ps' loc r : pages_ext ps ps' -> loc_holds ps loc r -> loc_holds ps' loc r.
Proof.
  intros Hext (Hi & p & Hp & Hr). split; [done|].
  destruct (Hext _ _ Hp) as (p' & Hp' & _ & [k Hk]). exists p'. split; [done|].
  rewrite Hk. by apply lookup_app_l_Some.
Qed.

(** ** Fetching a chain *)

(** The stores differ only in page statuses. *)
Definition pages_same (ps ps' : gmap Z delta_page_t) : Prop :=
  dom ps' = dom ps /\
  forall n p, ps !! n = Some p -> exists p', ps' !! n = Some p' /\
    next_delta_page_ p' = next_delta_page_ p /\ contents p' = contents p /\
    (wf_page p -> wf_page p').

Lemma mark_pages_same ps pnos :
  pages_same ps (foldl (fun ps pno => alter (fun p => set_status p CONSOLIDATE) pno ps) ps pnos).
Proof.
  revert ps. induction pnos as [|x pnos IH]; intros ps; [split; [done|eauto 10]|].
  cbn [foldl]. destruct (IH (alter (fun p => set_status p CONSOLIDATE) x ps)) as [Hd Hp].
  split; [by rewrite Hd, dom_alter_L|]. intros n p Hn.
  assert (exists p1, alter (fun p => set_status p CONSOLIDATE) x ps !! n = Some p1 /\
    next_delta_page_ p1 = next_delta_page_ p /\ contents p1 = contents p /\
    (wf_page p -> wf_page p1)) as (p1 & H1 & Hn1 & Hc1 & Hw1).
  { rewrite lookup_alter. case_decide; [subst x|eauto 10]. rewrite Hn. cbn. eexists. split; [done|].
    split; [done|]. split; [done|]. intros. by apply set_status_wf. }
  destruct (Hp _ _ H1) as (p2 & H2 & Hn2 & Hc2 & Hw2). exists p2. split; [done|].
  split; [congruence|]. split; [congruence|]. auto.
Qed.

Lemma pages_same_ext ps ps' : pages_same ps ps' -> pages_ext ps ps'.
Proof.
  intros [_ H] n p Hp. destruct (H _ _ Hp) as (p' & Hp' & Hn & Hc & _). exists p'.
  rewrite Hc. auto.
Qed.

Lemma pages_same_chain ps ps' c l : pages_same ps ps' -> page_chain ps' c l -> page_chain ps c l.
Proof.
  intros [Hd H]. induction 1 as [|pno p' l Hp' Hc IH]; [constructor|].
  assert (pno ∈ dom ps) as Hin by (rewrite <- Hd; apply elem_of_dom; eauto).
  apply elem_of_dom in Hin as [p Hp]. destruct (H _ _ Hp) as (q & Hq & Hn & _).
  simplify_eq. econstructor; [done|]. by rewrite <- Hn.
Qed.

Lemma pages_same_records ps ps' l : pages_same ps ps' -> (forall x, x ∈ l -> is_Some (ps !! x)) ->
  records_of ps' l = records_of ps l.
Proof.
  intros [_ H] Hl. apply records_of_ext. intros x Hx. destruct (Hl x Hx) as [p Hp].
  destruct (H _ _ Hp) as (q & Hq & _ & Hc & _). unfold page_records. by rewrite Hp, Hq.
Qed.

Lemma chain_length_bound ps c l : page_chain ps c l -> (length l <= size (dom ps))%nat.
Proof.
  intros Hl. pose proof (page_chain_nodup _ _ _ Hl) as Hnd.
  rewrite <- (size_list_to_set (C:=gset Z) l) by done. apply subseteq_size.
  intros x Hx. apply elem_of_list_to_set in Hx. apply elem_of_dom. by eapply page_chain_elem.
Qed.

Lemma fetch_records_spec ps c l :
  (forall n p, ps !! n = Some p -> wf_page p) -> page_chain ps c l ->
  mjoin (reverse ((fun pno => from_option get_delta_span [] (ps !! pno)) <$> l)) = records_of ps l.
Proof.
  intros Hwf Hl. unfold records_of. rewrite <- fmap_reverse. f_equal.
  apply list_fmap_ext. intros i x Hx. apply list_elem_of_lookup_2 in Hx. rewrite elem_of_reverse in Hx.
  destruct (page_chain_elem _ _ _ _ Hl Hx) as [p Hp]. unfold page_records. rewrite Hp. cbn.
  apply get_delta_span_wf. by eapply Hwf.
Qed.

(** Replacing the entries while the store keeps its chains: the invariant
    holds again when every entry is unchanged or emptied. *)
Lemma shrink_wf m inner' ps' fw :
  pm_wf m -> pages_same (pages m) ps' ->
  (forall k e', inner' !! k = Some e' ->
     (delta_page e' = None /\ delta_page_count e' = 0) \/
     exists e, inner m !! k = Some e /\ delta_page e = delta_page e' /\
       delta_page_count e = delta_page_count e') ->
  pm_wf (PageMap inner' ps' (allocator m) fw).
Proof.
  intros [W1 W2 W3 W4 W5] Hs Hin. destruct Hs as [Hd Hp] eqn:EHs.
  constructor; cbn; rewrite ?Hd; auto.
  - intros n p' Hp'. assert (n ∈ dom (pages m)) as Hn by (rewrite <- Hd; apply elem_of_dom; eauto).
    apply elem_of_dom in Hn as [p Hpp]. destruct (Hp _ _ Hpp) as (q & Hq & _ & _ & Hw).
    simplify_eq. eauto.
  - intros k e' He'. destruct (Hin _ _ He') as [[-> ->]|(e & He & <- & <-)].
    + exists []. split; [constructor|done].
    + destruct (W4 _ _ He) as (l & Hl & Hc). exists l. split; [|done].
      eapply page_chain_ext; [by apply pages_same_ext|done].
  - intros k1 k2 e1 e2 l1 l2 Hne H1 H2 Hl1 Hl2.
    destruct (Hin _ _ H1) as [[E1 _]|(f1 & F1 & E1 & _)];
      [rewrite E1 in Hl1; inversion Hl1; set_solver|].
    destruct (Hin _ _ H2) as [[E2 _]|(f2 & F2 & E2 & _)];
      [rewrite E2 in Hl2; inversion Hl2; set_solver|].
    eapply (W5 k1 k2); eauto; eapply pages_same_chain; try done; congruence.
Qed.

Lemma fetch_spec fuel m key rs :
  pm_wf m -> entry_recs m key rs -> (size (dom (pages m)) <= fuel)%nat ->
  exists m', fetch_deltas_with_mark fuel m key = Some (rs, m') /\ pm_wf m' /\
    pages_same (pages m) (pages m') /\ allocator m' = allocator m /\ forwarders m' = forwarders m /\
    entry_recs m' key [] /\ (forall k rs', k <> key -> entry_recs m k rs' -> entry_recs m' k rs') /\
    (forall k, inner m' !! k = (if decide (k = key) then
       (fun e => reset_delta_page_count (set_delta_page_ptr e None)) <$> inner m !! k
       else inner m !! k)).
Proof.
  intros Hwf Hrs Hfuel. unfold fetch_deltas_with_mark, entry_recs in *.
  destruct (inner m !! key) as [e|] eqn:E.
  2:{ subst rs. exists m. split; [done|]. split; [done|]. split; [split; [done|eauto 10]|].
      rewrite E. repeat split; auto. intros k. case_decide; [subst; by rewrite E|done]. }
  destruct Hrs as (l & Hl & ->). pose proof (chain_length_bound _ _ _ Hl).
  rewrite (chain_pages_spec _ _ _ _ Hl) by lia. cbn [mbind option_bind].
  erewrite fetch_records_spec; [|apply Hwf|done].
  eexists. split; [done|]. pose proof (mark_pages_same (pages m) l) as Hsame.
  set (ps' := foldl _ _ _) in *. set (e' := reset_delta_page_count _).
  split; [|split; [done|split; [done|split; [done|split; [|split]]]]].
  - apply (shrink_wf m); [done|done|]. intros k f. rewrite lookup_insert. case_decide; [|eauto 10].
    intros [= <-]. by left.
  - cbn. rewrite lookup_insert_eq. exists []. split; [constructor|done].
  - intros k rs' Hk. cbn. rewrite lookup_insert_ne by done.
    destruct (inner m !! k) as [f|]; [|done]. intros (l' & Hl' & ->). exists l'. split.
    + eapply page_chain_ext; [by apply pages_same_ext|done].
    + symmetry. apply pages_same_records; [done|]. intros x Hx. by eapply page_chain_elem.
  - intros k. cbn. rewrite lookup_insert. repeat case_decide; subst; try congruence. by rewrite E.
Qed.

(** The batch insert: two loop iterations and one page per record at most. *)
Lemma insert_loop_spec rs fuel m key e h k :
  pm_wf m -> inner m !! key = Some e -> delta_page e = Some h -> Forall wf_record rs ->
  room (allocator m) (length rs + k) -> (2 * length rs <= fuel)%nat ->
  exists m', insert_loop fuel m key h rs = Some m' /\ appends m m' key rs /\ room (allocator m') k.
Proof.
  intros Hwf He Hh Hrs. revert fuel m e h Hwf He Hh.
  induction Hrs as [|r rs Hr Hrs IH]; intros fuel m e h Hwf He Hh Hroom Hf.
  { exists m. destruct fuel; (split; [done|split; [|done]]);
      constructor; auto; try done; intros; rewrite ?app_nil_r; eauto. }
  destruct fuel as [|fuel]; cbn [length] in Hf; [lia|]. cbn [length Nat.add] in Hroom.
  destruct (w_entry m Hwf key e He) as (l & Hl & _). rewrite Hh in Hl.
  assert (exists p, pages m !! h = Some p) as [p Hp] by (inversion Hl; eauto).
  cbn [insert_loop].
  destruct (page_insert_appends m key e h p r Hwf He Hh Hp Hr) as (m1 & -> & A1 & Hin1 & Hal1 & _).
  cbn [mbind option_bind]. destruct (page_full p); cbn [negb].
  - destruct fuel as [|fuel]; [lia|]. cbn [insert_loop].
    rewrite new_head_grown, <- Hh. rewrite <- Hin1 in He. rewrite <- Hal1 in Hroom.
    pose proof (grown_appends m1 key e _ (ap_wf _ _ _ _ A1) He Hroom) as Hg.
    destruct (grown m1 key (delta_page e)) as [pno m2].
    destruct Hg as (A2 & Hroom2 & (e2 & He2 & Hh2) & q & Hq & _ & Hqf & _).
    destruct (page_insert_appends m2 key e2 pno q r (ap_wf _ _ _ _ A2) He2 Hh2 Hq Hr)
      as (m3 & -> & A3 & Hin3 & Hal3 & _). rewrite Hqf in *. cbn [negb mbind option_bind].
    rewrite <- Hin3 in He2. rewrite <- Hal3 in Hroom2.
    destruct (IH fuel m3 e2 pno (ap_wf _ _ _ _ A3) He2 Hh2 Hroom2) as (m4 & -> & A4 & Hroom4); [lia|].
    exists m4. split; [done|]. split; [|done].
    exact (appends_trans _ _ _ _ _ _ A1 (appends_trans _ _ _ _ _ _ A2 (appends_trans _ _ _ _ _ _ A3 A4))).
  - rewrite <- Hin1 in He. rewrite <- Hal1 in Hroom. apply room_mono in Hroom.
    destruct (IH fuel m1 e h (ap_wf _ _ _ _ A1) He Hh Hroom) as (m2 & -> & A2 & Hroom2); [lia|].
    exists m2. split; [done|]. split; [|done]. exact (appends_trans _ _ _ _ _ _ A1 A2).
Qed.

Lemma insert_batch_spec rs fuel m key k :
  pm_wf m -> Forall wf_record rs -> room (allocator m) (S (length rs + k)) -> (2 * length rs <= fuel)%nat ->
  exists m', insert_delta_batch fuel m key rs = Some m' /\ appends m m' key rs /\ room (allocator m') k.
Proof.
  intros Hwf Hrs Hroom Hf. unfold insert_delta_batch.
  destruct (get_or_create_appends m key Hwf) as (A1 & [e1 He1] & _ & Hal).
  destruct (get_or_create_entry m key) as [e0 m1]. cbn [snd] in *. rewrite <- Hal in Hroom.
  destruct (ensure_head_appends m1 key e1 _ (ap_wf _ _ _ _ A1) He1 Hroom)
    as (h & m2 & -> & A2 & Hroom2 & (e2 & He2 & Hh2) & _).
  destruct (insert_loop_spec rs fuel m2 key e2 h k (ap_wf _ _ _ _ A2) He2 Hh2 Hrs Hroom2 Hf)
    as (m3 & -> & A3 & Hroom3).
  exists m3. split; [done|]. split; [|done]. exact (appends_trans _ _ _ _ _ _ A1 (appends_trans _ _ _ _ _ _ A2 A3)).
Qed.

(** ** Forwarded insertion *)

(** The page whose chain receives a record of [src] aimed at page [key]. *)
Definition forward_hit (m : page_map_t) (key src : Z) : option (Z * Z) :=
  fid ← acquire_forwarder_for m key; f ← forwarders m !! fid; pno ← lookup_forward f src; Some (fid, pno).

Definition forward_target (m : page_map_t) (key src : Z) : Z := default key (snd <$> forward_hit m key src).

Lemma set_forwarders_wf m f : pm_wf m -> pm_wf (set_forwarders f m).
Proof. intros [? ? ? ? ?]. by constructor. Qed.

Lemma set_forwarders_wf_inv m f : pm_wf (set_forwarders f m) -> pm_wf m.
Proof. intros [? ? ? ? ?]. by constructor. Qed.

(** What one insertion with a location guarantees. *)
Record inserted (m m' : page_map_t) (tgt : Z) (r : delta_record_t) (loc : delta_head_t) : Prop := {
  in_appends : appends m (set_forwarders (forwarders m) m') tgt [r];
  in_holds : loc_holds (pages m') loc r;
  in_valid : dh_is_valid loc = true;
  in_loc : wf_loc loc
}.

Lemma insert_delta_with_forward_spec m key src r k :
  pm_wf m -> wf_record r -> room (allocator m) (S (S k)) ->
  exists loc m', insert_delta_with_forward m key src r =
      Some (loc, bool_decide (is_Some (forward_hit m key src)), m') /\
    inserted m m' (forward_target m key src) r loc /\ room (allocator m') k /\
    forwarders m' = match forward_hit m key src with
      | Some (fid, _) => alter (fun f => note_rerouted_tail f src loc) fid (forwarders m)
      | None => forwarders m end.
Proof.
  intros Hwf Hr Hroom.
  destruct (insert_delta_and_get_loc_spec m (forward_target m key src) r k Hwf Hr Hroom)
    as (loc & m1 & Hins & Hap & Hh & Hv & Hl & Hrm).
  assert (Hm1 : forall f, inserted m (set_forwarders f m1) (forward_target m key src) r loc).
  { intros f. constructor; auto. destruct Hap as [H1 H2 H3 H4 H5 H6].
    constructor; auto. by apply set_forwarders_wf, set_forwarders_wf. }
  assert (Hm0 : set_forwarders (forwarders m) m1 = m1)
    by (destruct Hap as [_ _ H3 _ _ _]; destruct m1; cbn in H3; by subst).
  pose proof (Hm1 (forwarders m)) as Hm2. rewrite Hm0 in Hm2.
  unfold insert_delta_with_forward, forward_target, forward_hit in *.
  destruct (acquire_forwarder_for m key) as [fid|]; cbn in *.
  2:{ rewrite Hins. cbn. exists loc, m1. split; [done|]. split; [done|split; [done|by apply Hap]]. }
  destruct (forwarders m !! fid) as [f|]; cbn in *.
  2:{ rewrite Hins. cbn. exists loc, m1. split; [done|]. split; [done|split; [done|by apply Hap]]. }
  destruct (lookup_forward f src) as [pno|]; cbn in *; rewrite Hins; cbn.
  - eexists loc, _. split; [done|]. split; [apply Hm1|]. split; [done|]. cbn. f_equal. apply Hap.
  - exists loc, m1. split; [done|]. split; [done|split; [done|by apply Hap]].
Qed.

(** Inserting a batch of records for a CSR page terminates whenever the
    delta file has room, and fetching the page's deltas afterwards returns the
    earlier records followed by the batch in insertion order (oldest first,
    across page boundaries), leaves the entry empty with length zero for new
    deltas and disturbs no other CSR page. *)
Theorem insert_then_fetch m key old rs fuel :
  pm_wf m -> entry_recs m key old -> Forall wf_record rs ->
  room (allocator m) (S (length rs + 0)) -> (2 * length rs <= fuel)%nat ->
  exists m1, insert_delta_batch fuel m key rs = Some m1 /\
    ((size (dom (pages m1)) <= fuel)%nat ->
     exists m2, fetch_deltas_with_mark fuel m1 key = Some (old ++ rs, m2) /\
       entry_recs m2 key [] /\ get_delta_chain_length m2 key = 0 /\
       (forall k rs', k <> key -> entry_recs m k rs' -> entry_recs m2 k rs') /\ pm_wf m2).
Proof.
  intros Hwf Hold Hrs Hroom Hf2.
  destruct (insert_batch_spec rs fuel m key 0 Hwf Hrs Hroom Hf2) as (m1 & Hins & Ap & _).
  exists m1. split; [done|]. intros Hf.
  destruct (fetch_spec fuel m1 key (old ++ rs)) as (m2 & Hfetch & Hwf2 & _ & _ & _ & Hk & Hoth & Hin);
    [apply Ap|by apply Ap|done|].
  exists m2. split; [done|]. split; [done|]. split; [|split; [|done]].
  - unfold get_delta_chain_length. rewrite Hin, decide_True by done.
    by destruct (inner m1 !! key).
  - intros k rs' Hne Hrs'. apply Hoth; [done|]. by apply Ap.
Qed.

End Ops.
End PMap.
