(* ===== verification/DiskManager.v ===== *)
(** * The disk manager ([storage/disk_manager.h], [disk_manager.cc])

    Page-granular access to one database file with a free list, a page counter
    and a tracked capacity.  The file is the list of its bytes; [pread],
    [pwrite] and [fallocate] are modelled as POSIX documents them, the
    outcome of a [pwrite] being an input (a short write is reported and
    nothing else happens).  The io_uring back end reads and writes the same
    bytes and is not distinguished. *)

From S2P Require Import Prelude Config DeltaPage PageMap.

Local Open Scope Z_scope.

Module Disk.

Record disk_manager_t := DiskManager {
  page_size_ : nat;
  db_file : list Z;
  page_capacity_ : Z;
  free_slots_ : list Z;        (* [push_back] and [pop_back] at the head *)
  global_page_count_ : Z;
  valid_page_count_ : Z;
  num_writes_ : Z;
  num_deletes_ : Z;
  num_flushes_ : Z;
  flush_log_ : bool;
  db_open : bool
}.

(** ** The file system calls *)

Definition pread (f : list Z) (n off : nat) : list Z := take n (drop off f).

Definition extend (f : list Z) (n : nat) : list Z := f ++ replicate (n - length f) 0.

Definition pwrite (f bs : list Z) (off : nat) : list Z :=
  let f := extend f (off + length bs) in take off f ++ bs ++ drop (off + length bs) f.

(** ** Opening: capacity from the file size, page count by a backward scan *)

Definition all_zero (l : list Z) : bool := forallb (fun b => b =? 0) l.

Fixpoint scan_back (ps : nat) (f : list Z) (i : nat) : nat :=
  match i with
  | O => O
  | S j =>
    let b := pread f ps (j * ps) in
    if negb (length b =? ps)%nat then O
    else if all_zero b then scan_back ps f j else i
  end.

Definition open_disk `{Config} (f : list Z) (ps : nat) : disk_manager_t :=
  let cap := if (length f =? 0)%nat then DEFAULT_DB_IO_SIZE else Z.of_nat (length f) in
  let total_pages := Z.to_nat (cap `div` Z.of_nat ps) in
  let valid := Z.of_nat (scan_back ps f total_pages) in
  DiskManager ps f cap [] valid valid 0 0 0 false true.

(** [shutdown]: syncs and closes the descriptors, clears the free list and the
    statistics. *)
Definition shutdown (d : disk_manager_t) : disk_manager_t :=
  DiskManager (page_size_ d) (db_file d) (page_capacity_ d) [] (global_page_count_ d)
    (valid_page_count_ d) 0 0 0 false false.

(** ** Page operations *)

Definition delete_page (d : disk_manager_t) (page_no : Z) : disk_manager_t :=
  let offset := page_no * Z.of_nat (page_size_ d) in
  if page_capacity_ d <? offset + Z.of_nat (page_size_ d) then d
  else DiskManager (page_size_ d) (db_file d) (page_capacity_ d) (offset :: free_slots_ d)
         (global_page_count_ d) (valid_page_count_ d) (num_writes_ d) (num_deletes_ d + 1)
         (num_flushes_ d) (flush_log_ d) (db_open d).

(** The capacity check of [write_page]. *)
Definition reserve (d : disk_manager_t) (required : Z) : disk_manager_t :=
  if page_capacity_ d <? required then
    let cap := Z.max required (page_capacity_ d * 2) in
    DiskManager (page_size_ d) (extend (db_file d) (Z.to_nat cap)) cap (free_slots_ d)
      (global_page_count_ d) (valid_page_count_ d) (num_writes_ d) (num_deletes_ d)
      (num_flushes_ d) (flush_log_ d) (db_open d)
  else d.

(** [ok]: did [pwrite] write the whole page. *)
Definition write_page (d : disk_manager_t) (page_no : Z) (bs : list Z) (ok : bool) : disk_manager_t :=
  let offset := page_no * Z.of_nat (page_size_ d) in
  let d := reserve d (offset + Z.of_nat (page_size_ d)) in
  if ok then
    DiskManager (page_size_ d) (pwrite (db_file d) bs (Z.to_nat offset)) (page_capacity_ d)
      (free_slots_ d) (Z.max (global_page_count_ d) (page_no + 1))
      (Z.max (valid_page_count_ d) (page_no + 1)) (num_writes_ d + 1) (num_deletes_ d)
      (num_flushes_ d + if flush_log_ d then 1 else 0) (flush_log_ d) (db_open d)
  else d.

Definition read_page (d : disk_manager_t) (page_no : Z) : list Z :=
  let ps := page_size_ d in
  let offset := page_no * Z.of_nat ps in
  if page_capacity_ d <? offset + Z.of_nat ps then replicate ps 0
  else
    let got := pread (db_file d) ps (Z.to_nat offset) in
    got ++ replicate (ps - length got) 0.

Definition get_page_count (d : disk_manager_t) : Z := valid_page_count_ d.

Definition disk_allocate_page (d : disk_manager_t) : Z * disk_manager_t :=
  match free_slots_ d with
  | offset :: rest =>
    (offset, DiskManager (page_size_ d) (db_file d) (page_capacity_ d) rest (global_page_count_ d)
       (valid_page_count_ d) (num_writes_ d) (num_deletes_ d) (num_flushes_ d) (flush_log_ d) (db_open d))
  | [] =>
    let ps := Z.of_nat (page_size_ d) in
    let current_size := global_page_count_ d * ps in
    let cap := if current_size <? page_capacity_ d then current_size + ps else page_capacity_ d in
    (current_size,
     DiskManager (page_size_ d) (db_file d) (cap + ps) [] (global_page_count_ d + 1)
       (valid_page_count_ d) (num_writes_ d) (num_deletes_ d) (num_flushes_ d) (flush_log_ d) (db_open d))
  end.

(** ** The log file *)

(** [written]: what the first [write] call accepted, [second]: the retry. *)
Definition write_log (log data : list Z) (written second : nat) : list Z :=
  if (length data <=? written)%nat then log ++ data
  else log ++ take written data ++ take second (drop written data).

(** The flag and the buffer contents ([buf] is what the caller passed). *)
Definition read_log (log bufr : list Z) (size off : nat) : bool * list Z :=
  let got := pread log size off in
  if (length got =? size)%nat then (true, got)
  else if (length got =? 0)%nat then (false, bufr)
  else (true, got ++ replicate (size - length got) 0).

(** ** Invariant and read-after-write *)

Inductive disk_op :=
  | OpWrite (page_no : Z) (bs : list Z) (ok : bool)
  | OpDelete (page_no : Z)
  | OpAllocate.

Definition run_op (d : disk_manager_t) (op : disk_op) : disk_manager_t :=
  match op with
  | OpWrite n bs ok => write_page d n bs ok
  | OpDelete n => delete_page d n
  | OpAllocate => (disk_allocate_page d).2
  end.

Definition op_ok (ps : nat) (op : disk_op) : Prop :=
  match op with
  | OpWrite n bs _ => 0 <= n /\ length bs = ps
  | OpDelete n => 0 <= n
  | OpAllocate => True
  end.

Definition writes (op : disk_op) (n : Z) : bool :=
  match op with OpWrite m _ _ => bool_decide (m = n) | _ => false end.

(** Pages below the counter lie within the tracked capacity. *)
Record disk_inv (d : disk_manager_t) : Prop := {
  di_ps : (0 < page_size_ d)%nat;
  di_count : 0 <= global_page_count_ d;
  di_cap : global_page_count_ d * Z.of_nat (page_size_ d) <= page_capacity_ d
}.

Lemma scan_back_le ps f i : (scan_back ps f i <= i)%nat.
Proof. induction i as [|i IH]; cbn; [done|]. repeat case_match; lia. Qed.

Lemma open_inv `{Config} f ps : (0 < ps)%nat -> 0 <= DEFAULT_DB_IO_SIZE -> disk_inv (open_disk f ps).
Proof.
  intros Hps Hd. unfold open_disk. set (cap := if (length f =? 0)%nat then _ else _).
  assert (0 <= cap) by (unfold cap; destruct (length f =? 0)%nat; lia).
  constructor; cbn; [done|lia|].
  pose proof (scan_back_le ps f (Z.to_nat (cap `div` Z.of_nat ps))).
  pose proof (Z.mul_div_le cap (Z.of_nat ps)).
  assert (0 <= cap `div` Z.of_nat ps) by (apply Z.div_pos; lia). nia.
Qed.

Lemma run_op_inv d op : disk_inv d -> op_ok (page_size_ d) op ->
  disk_inv (run_op d op) /\ page_size_ (run_op d op) = page_size_ d.
Proof.
  intros [Hps Hc Hcap] Hop. destruct op as [n bs ok|n|]; cbn [run_op op_ok] in *.
  - destruct Hop as [Hn Hl]. unfold write_page, reserve.
    destruct (Z.ltb_spec (page_capacity_ d) (n * Z.of_nat (page_size_ d) + Z.of_nat (page_size_ d)));
      destruct ok; (split; [constructor; cbn; [done|lia|nia]|done]).
  - unfold delete_page. destruct (_ <? _); split; try done; constructor; cbn; done.
  - unfold disk_allocate_page. destruct (free_slots_ d) as [|o rest]; cbn [snd];
      (split; [constructor; cbn; [done|lia|]|done]); [|done].
    destruct (Z.ltb_spec (global_page_count_ d * Z.of_nat (page_size_ d)) (page_capacity_ d)); nia.
Qed.

(** The bytes of page [n] in the file. *)
Definition page_bytes (d : disk_manager_t) (n : Z) : list Z :=
  pread (db_file d) (page_size_ d) (Z.to_nat n * page_size_ d).

Lemma pread_extend f n off m : (off + n <= length f)%nat -> pread (extend f m) n off = pread f n off.
Proof.
  intros. unfold pread, extend. rewrite drop_app_le by lia.
  apply take_app_le. rewrite length_drop. lia.
Qed.

Lemma length_extend f m : length (extend f m) = Nat.max (length f) m.
Proof. unfold extend. rewrite length_app, length_replicate. lia. Qed.

Lemma length_pwrite f bs off : length (pwrite f bs off) = Nat.max (length f) (off + length bs).
Proof.
  unfold pwrite. rewrite !length_app, length_take, length_drop, length_extend. lia.
Qed.

Lemma pread_pwrite_same f bs off : pread (pwrite f bs off) (length bs) off = bs.
Proof.
  unfold pread, pwrite. rewrite drop_app_length'.
  - apply take_app_length.
  - rewrite length_take, length_extend. lia.
Qed.

Lemma pread_pwrite_other f bs off n off' :
  (off' + n <= length f)%nat -> (off' + n <= off \/ off + length bs <= off')%nat ->
  pread (pwrite f bs off) n off' = pread f n off'.
Proof.
  intros Hl Hd. rewrite <- (pread_extend f n off' (off + length bs)) by done.
  assert (Hfl : (off + length bs <= length (extend f (off + length bs)))%nat)
    by (rewrite length_extend; lia).
  unfold pwrite. assert (Hl' : (off' + n <= length (extend f (off + length bs)))%nat)
    by (rewrite length_extend; lia).
  revert Hfl Hl'. generalize (extend f (off + length bs)). intros g Hfl Hl'. unfold pread.
  apply list_eq. intros i. destruct (decide (i < n)%nat); [|by rewrite !lookup_take_ge by lia].
  rewrite !lookup_take_lt, !lookup_drop by done. destruct Hd.
  - rewrite lookup_app_l by (rewrite length_take; lia). by rewrite lookup_take_lt by lia.
  - rewrite lookup_app_r by (rewrite length_take; lia).
    rewrite length_take, lookup_app_r by lia. rewrite lookup_drop. f_equal. lia.
Qed.

(** Page [n] was written with contents [bs]. *)
Definition holds (d : disk_manager_t) (n : Z) (bs : list Z) : Prop :=
  0 <= n < global_page_count_ d /\ length bs = page_size_ d /\ page_bytes d n = bs /\
  (Z.to_nat n * page_size_ d + page_size_ d <= length (db_file d))%nat.

Lemma holds_read d n bs : disk_inv d -> holds d n bs -> read_page d n = bs.
Proof.
  intros [Hps Hc Hcap] (Hn & Hl & Hb & Hlen). unfold read_page.
  destruct (Z.ltb_spec (page_capacity_ d) (n * Z.of_nat (page_size_ d) + Z.of_nat (page_size_ d))).
  - nia.
  - replace (Z.to_nat (n * Z.of_nat (page_size_ d))) with (Z.to_nat n * page_size_ d)%nat by lia.
    fold (page_bytes d n). rewrite Hb, Hl, Nat.sub_diag. apply app_nil_r.
Qed.

Lemma write_holds d n bs : disk_inv d -> 0 <= n -> length bs = page_size_ d ->
  holds (write_page d n bs true) n bs.
Proof.
  intros [Hps Hc Hcap] Hn Hl. unfold write_page, reserve, holds, page_bytes.
  set (d' := if _ <? _ then _ else d).
  assert (E : page_size_ d' = page_size_ d) by (unfold d'; by destruct (_ <? _)).
  cbn [db_file page_size_ global_page_count_]. rewrite E. replace (Z.to_nat (n * Z.of_nat (page_size_ d))) with (Z.to_nat n * page_size_ d)%nat by lia.
  split; [lia|]. split; [done|]. rewrite length_pwrite, Hl. split; [|lia].
  rewrite <- Hl. apply pread_pwrite_same.
Qed.

Lemma page_apart (a b ps : nat) : a <> b -> (a * ps + ps <= b * ps \/ b * ps + ps <= a * ps)%nat.
Proof. intros. nia. Qed.

Lemma run_op_holds d op n bs : disk_inv d -> op_ok (page_size_ d) op -> writes op n = false ->
  holds d n bs -> holds (run_op d op) n bs.
Proof.
  intros Hinv Hop Hw (Hn & Hl & Hb & Hlen). unfold holds, page_bytes in *.
  destruct op as [m cs ok|m|]; cbn [run_op op_ok writes] in *.
  - apply bool_decide_eq_false in Hw. destruct Hop as [Hm Hcs]. unfold write_page.
    set (r := reserve d _).
    assert (Hr : page_size_ r = page_size_ d /\ global_page_count_ r = global_page_count_ d /\
      exists k, db_file r = extend (db_file d) k).
    { unfold r, reserve. destruct (_ <? _); cbn; (split; [done|split; [done|]]); [eauto|].
      exists 0%nat. unfold extend. cbn. by rewrite app_nil_r. }
    destruct Hr as (Hps & Hg & k & Hf).
    assert (Hfl : (length (db_file d) <= length (db_file r))%nat) by (rewrite Hf, length_extend; lia).
    assert (Hpr : pread (db_file r) (page_size_ d) (Z.to_nat n * page_size_ d) = bs)
      by (rewrite Hf, pread_extend; auto).
    destruct ok; cbn [db_file page_size_ global_page_count_]; rewrite ?Hps, ?Hg; [|repeat split; auto; lia].
    split; [lia|]. split; [done|]. rewrite length_pwrite. split; [|lia].
    replace (Z.to_nat (m * Z.of_nat (page_size_ d))) with (Z.to_nat m * page_size_ d)%nat by lia.
    rewrite pread_pwrite_other; [done|lia|]. rewrite Hcs. apply page_apart. lia.
  - unfold delete_page. destruct (_ <? _); cbn; auto.
  - unfold disk_allocate_page. destruct (free_slots_ d); cbn; auto. split; [lia|auto].
Qed.

(** C12: read-after-write.  From a freshly opened file of any size, after any
    sequence of page writes (successful or short), deletions and allocations,
    a page whose write succeeded reads back exactly the bytes of its last
    successful write, although [allocate_page] also lowers the tracked
    capacity below which reads are served. *)
Theorem read_after_write `{Config} f ps ops1 n bs ops2 :
  (0 < ps)%nat -> 0 <= DEFAULT_DB_IO_SIZE ->
  Forall (op_ok ps) ops1 -> 0 <= n -> length bs = ps ->
  Forall (fun op => op_ok ps op /\ writes op n = false) ops2 ->
  read_page (foldl run_op (write_page (foldl run_op (open_disk f ps) ops1) n bs true) ops2) n = bs.
Proof.
  intros Hps Hd Hops1 Hn Hl Hops2.
  assert (H1 : forall ops d, disk_inv d -> page_size_ d = ps -> Forall (op_ok ps) ops ->
    disk_inv (foldl run_op d ops) /\ page_size_ (foldl run_op d ops) = ps).
  { intros ops. induction ops as [|op ops IH]; intros d Hi Hp Ho; [done|].
    apply Forall_cons in Ho as [Ho Hos]. cbn [foldl]. rewrite <- Hp in Ho.
    destruct (run_op_inv d op Hi Ho) as [Hi' Hp']. apply IH; [done|congruence|done]. }
  destruct (H1 ops1 (open_disk f ps)) as [Hi1 Hp1]; [by apply open_inv|done|done|].
  revert Hi1 Hp1. generalize (foldl run_op (open_disk f ps) ops1). intros d Hi1 Hp1.
  assert (Hop : op_ok (page_size_ d) (OpWrite n bs true)) by (cbn; lia).
  destruct (run_op_inv d (OpWrite n bs true) Hi1 Hop) as [Hi2 Hp2]. cbn [run_op] in *.
  assert (Hh : holds (write_page d n bs true) n bs) by (apply write_holds; auto; lia).
  rewrite Hp1 in Hp2. revert Hi2 Hp2 Hh. generalize (write_page d n bs true). clear d Hi1 Hp1 Hop.
  induction Hops2 as [|op ops [Ho Hw] _ IH]; intros d Hi Hp Hh; [by apply holds_read|].
  cbn [foldl]. rewrite <- Hp in Ho. destruct (run_op_inv d op Hi Ho) as [Hi' Hp'].
  apply IH; [done|congruence|by apply run_op_holds].
Qed.

Lemma read_after_write_witness :
  read_page (foldl run_op (write_page (foldl run_op (open_disk (H:=small_config) [] 2) [OpAllocate]) 1 [7; 8] true)
    [OpAllocate; OpDelete 0; OpWrite 5 [1; 1] true; OpAllocate; OpWrite 0 [2; 2] false]) 1 = [7; 8].
Proof.
  apply (read_after_write (H:=small_config) [] 2 [OpAllocate]); [lia|cbn; lia|..];
    repeat constructor; cbn; lia.
Defined.

(** ** The disk as a page allocator *)

(** Every page in use, and every free slot, lies below the counter, and a free
    slot is listed once and not in use. *)
Definition disk_alloc_ok (d : disk_manager_t) (used : gset Z) : Prop :=
  (0 < page_size_ d)%nat /\ 0 <= global_page_count_ d /\
  (forall n, n ∈ used -> 0 <= n < global_page_count_ d) /\
  NoDup (free_slots_ d) /\
  Forall (fun o => exists n, o = n * Z.of_nat (page_size_ d) /\ 0 <= n < global_page_count_ d /\ n ∉ used)
    (free_slots_ d).

Definition disk_room (ps : Z) (d : disk_manager_t) (k : nat) : Prop :=
  Z.of_nat (page_size_ d) = ps /\ global_page_count_ d + Z.of_nat k < 2 ^ 32.

Lemma disk_alloc_fresh ps d used k :
  disk_alloc_ok d used -> disk_room ps d (S k) ->
  let pno := u32 (((disk_allocate_page d).1) `div` ps) in
  (pno ∉ used) /\ pno <> INVALID_DELTA_PAGE_NO /\
  disk_alloc_ok (disk_allocate_page d).2 ({[pno]} ∪ used) /\ disk_room ps (disk_allocate_page d).2 k.
Proof.
  intros (Hps & Hg & Hu & Hnd & Hfree) [<- Hk]. unfold disk_allocate_page, INVALID_DELTA_PAGE_NO.
  destruct (free_slots_ d) as [|o rest] eqn:Ef; cbn zeta; cbn [fst snd].
  - rewrite Z.div_mul by lia. rewrite wrap_small by (unfold in_width; lia).
    split; [intros Hin; apply Hu in Hin; lia|]. split; [lia|].
    split; [|split; cbn; [done|lia]]. split; [done|]. cbn. split; [lia|].
    split; [|split; constructor].
    intros n. rewrite elem_of_union, elem_of_singleton. intros [->|Hn]; [lia|]. apply Hu in Hn. lia.
  - apply Forall_cons in Hfree as [(n & -> & Hn & Hnu) Hfree]. apply NoDup_cons in Hnd as [Hnin Hnd].
    rewrite Z.div_mul by lia. rewrite wrap_small by (unfold in_width; lia).
    split; [done|]. split; [lia|]. split; [|split; cbn; [done|lia]].
    split; [done|]. cbn. split; [done|]. split.
    + intros m. rewrite elem_of_union, elem_of_singleton. intros [->|Hm]; [done|by apply Hu].
    + split; [done|]. rewrite Forall_forall in *. intros o Ho.
      destruct (Hfree o Ho) as (m & -> & Hm & Hmu). exists m. split; [done|]. split; [done|].
      rewrite elem_of_union, elem_of_singleton. intros [->|?]; done.
Qed.

Lemma disk_free_ok d used n :
  disk_alloc_ok d used -> n ∈ used -> disk_alloc_ok (delete_page d n) (used ∖ {[n]}).
Proof.
  intros (Hps & Hg & Hu & Hnd & Hfree) Hn. unfold delete_page. rewrite Forall_forall in Hfree.
  destruct (_ <? _); (split; [done|split; [done|split; [set_solver|]]]); cbn [free_slots_ page_size_ global_page_count_].
  - split; [done|]. rewrite Forall_forall. intros o Ho. destruct (Hfree o Ho) as (m & -> & ? & ?).
    exists m. set_solver.
  - split.
    + constructor; [|done]. intros Ho. destruct (Hfree _ Ho) as (m & Hm & ? & Hmu).
      apply Z.mul_cancel_r in Hm; [by subst|lia].
    + rewrite Forall_forall. intros o. rewrite elem_of_cons.
      intros [->|Ho]; [exists n|destruct (Hfree o Ho) as (m & -> & ? & ?); exists m; set_solver].
      split; [done|]. split; [by apply Hu|set_solver].
Qed.

#[export] Instance disk_allocator (ps : Z) : PageAllocator disk_manager_t ps.
Proof.
  refine {| allocate_page := disk_allocate_page; free_page := delete_page; alloc_ok := disk_alloc_ok;
            room := disk_room ps |}.
  - intros. by apply disk_alloc_fresh.
  - intros d k [? ?]. split; [done|lia].
  - intros. by apply disk_free_ok.
  - intros d n k [? ?]. unfold delete_page. by destruct (_ <? _).
Defined.

(** Deleting a page twice lists its slot twice: two later allocations hand
    out the same page ([delete_page] does not look for duplicates). *)
Lemma double_delete_aliases d n :
  free_slots_ d = [] -> (n + 1) * Z.of_nat (page_size_ d) <= page_capacity_ d ->
  let d2 := delete_page (delete_page d n) n in
  let '(o1, d3) := disk_allocate_page d2 in
  let '(o2, _) := disk_allocate_page d3 in o1 = o2.
Proof.
  intros Hf Hc. unfold delete_page.
  destruct (Z.ltb_spec (page_capacity_ d) (n * Z.of_nat (page_size_ d) + Z.of_nat (page_size_ d))); [lia|].
  cbn. destruct (Z.ltb_spec (page_capacity_ d) (n * Z.of_nat (page_size_ d) + Z.of_nat (page_size_ d))); [lia|].
  done.
Qed.

(** ** An empty page map over a fresh delta file *)

Definition empty_map (cfg : Config) (d : disk_manager_t) : PMap.page_map_t (A := disk_manager_t) :=
  PMap.PageMap ∅ ∅ d ∅.

Lemma empty_map_wf `{cfg : Config} d :
  (0 < page_size_ d)%nat -> 0 <= global_page_count_ d -> free_slots_ d = [] ->
  PMap.pm_wf (empty_map cfg d).
Proof.
  intros Hp Hg Hf. constructor; cbn.
  - intros n p. by rewrite lookup_empty.
  - intros n. set_solver.
  - rewrite dom_empty_L. unfold disk_alloc_ok. rewrite Hf. split; [done|]. split; [done|].
    split; [set_solver|]. split; constructor.
  - intros k e. by rewrite lookup_empty.
  - intros k1 k2 e1 e2 l1 l2 _. by rewrite lookup_empty.
Qed.

Definition small_disk : disk_manager_t := open_disk (H:=small_config) [] 100.

Lemma small_room k : (k <= 1000)%nat -> disk_room (Z.of_nat 100) small_disk k.
Proof. intros. split; [done|]. change (global_page_count_ small_disk) with 0. lia. Qed.

Lemma small_page_size_ok : PMap.page_size_ok (cfg := small_config).
Proof. split; cbn; lia. Qed.

Definition sample_batch : list delta_record_t :=
  [Delta.sample_record; new_record 5 EDGE DELETE 1 1; new_record 6 EDGE INSERT 1 2].

Lemma insert_then_fetch_witness :
  exists m1, PMap.insert_delta_batch (cfg := small_config) 6
      (empty_map small_config small_disk) 9 sample_batch = Some m1 /\
    ((size (dom (PMap.pages m1)) <= 6)%nat ->
     exists m2, PMap.fetch_deltas_with_mark 6 m1 9 = Some ([] ++ sample_batch, m2) /\
       PMap.entry_recs m2 9 [] /\ PMap.get_delta_chain_length m2 9 = 0 /\
       (forall k rs', k <> 9 -> PMap.entry_recs (empty_map small_config small_disk) k rs' ->
          PMap.entry_recs m2 k rs') /\ PMap.pm_wf (cfg := small_config) m2).
Proof.
  apply (PMap.insert_then_fetch (cfg := small_config)).
  - exact small_page_size_ok.
  - apply (empty_map_wf (cfg := small_config)); [vm_compute; lia|vm_compute; discriminate|reflexivity].
  - reflexivity.
  - repeat (constructor; [repeat split; vm_compute; congruence|]). constructor.
  - apply small_room. cbn. lia.
  - cbn. lia.
Defined.

End Disk.
