(* ===== verification/CsrPage.v ===== *)
(** * CSR pages ([io/io_csr.h], [io_csr.cc])

    A page of the base graph: a 16-byte header, a block of
    [MAX_BLOCK_NEIGHBOR] neighbour page numbers, the array of 12-byte vertex
    entries and the neighbour data (raw 32-bit identifiers, or PTV when the
    build compresses).  The object caches the header fields; its spans and
    pointers point into the page and are given by their offsets.  Adjacency
    maps are hash maps whose iteration order the code relies on only within a
    call: they are association lists in iteration order. *)

From S2P Require Import Prelude Config PtvCodec DeltaPage.

Local Open Scope Z_scope.

Module Csr.

Record csr_vertex_t := CsrVertex {
  vertex_id : Z; degree : Z; offset : Z; delete_mark : Z }.

#[export] Instance csr_vertex_t_eq_dec : EqDecision csr_vertex_t.
Proof. solve_decision. Defined.

Definition is_deleted (v : csr_vertex_t) : bool := negb (delete_mark v =? 0).
Definition mark_deleted (v : csr_vertex_t) : csr_vertex_t :=
  CsrVertex (vertex_id v) (degree v) (offset v) 1.

Definition csr_vertex_bytes (v : csr_vertex_t) : list Z :=
  le_bytes 4 (vertex_id v) ++ le_bytes 4 (degree v) ++ le_bytes 2 (offset v) ++ le_bytes 2 (delete_mark v).

Definition csr_vertex_of (b : list Z) : csr_vertex_t :=
  CsrVertex (get32 0 b) (get32 4 b) (get16 8 b) (get16 10 b).

Record csr_page_t := CsrPage {
  page_no : Z;
  data : buf;
  dirty : bool;
  num_vertices_ : Z;
  num_edges_ : Z;
  used_bytes_ : Z;
  parent_page_no_ : Z;
  neighbor_page_count_ : Z;
  neighbor_page_span_ : nat * Z;    (* offset in the page, length *)
  vertex_span_ : nat * Z;           (* offset in the page, length *)
  neighbor_ptr_ : option nat;       (* offset in the page; None is nullptr *)
  is_parse_ : bool
}.

Section Ops.
Context `{Config}.

Definition METADATA_SIZE : nat := 16.
Definition VERTEX_SIZE : nat := 12.
Definition neighbor_block_data_size : nat := MAX_BLOCK_NEIGHBOR * 4.
Definition vertices_off : nat := METADATA_SIZE + neighbor_block_data_size.
Definition neighbors_off (nv : Z) : nat := vertices_off + Z.to_nat nv * VERTEX_SIZE.

(** [page_t(page_no)] with the member initialisers. *)
Definition new_page (pno : Z) : csr_page_t :=
  CsrPage pno (replicate PAGE_SIZE 0) false 0 0 0 0 0 (0%nat, 0) (0%nat, 0) None false.

(** ** Reading *)

(** [vertex_span_[i]]; [None] when outside the span (undefined in C++). *)
Definition vertex_at (p : csr_page_t) (i : Z) : option csr_vertex_t :=
  if (0 <=? i) && (i <? (vertex_span_ p).2)
  then Some (csr_vertex_of (mem_read ((vertex_span_ p).1 + Z.to_nat i * VERTEX_SIZE) VERTEX_SIZE (data p)))
  else None.

(** Uncompressed: the span of raw identifiers, as the list it denotes. *)
Definition get_neighbors (p : csr_page_t) (vertex_offset : Z) : list Z :=
  if num_vertices_ p <=? vertex_offset then []
  else match vertex_at p vertex_offset, neighbor_ptr_ p with
  | Some v, Some np =>
    if GIANT_DEGREE_BOUND <=? degree v then []
    else read_u32s (np + Z.to_nat (offset v `div` 4) * 4) (Z.to_nat (degree v)) (data p)
  | _, _ => []
  end.

(** Compressed: the lazy range over the encoded bytes. *)
Definition get_neighbor_ptv_range (p : csr_page_t) (vertex_offset : Z) : Ptv.ptv_neighbor_range_t :=
  if num_vertices_ p <=? vertex_offset then Ptv.Range [] 0
  else match vertex_at p vertex_offset, neighbor_ptr_ p with
  | Some v, Some np =>
    if GIANT_DEGREE_BOUND <=? degree v then Ptv.Range [] 0
    else Ptv.Range (drop (np + Z.to_nat (offset v)) (data p)) (degree v)
  | _, _ => Ptv.Range [] 0
  end.

(** What every caller does under the build option. *)
Definition page_neighbors (p : csr_page_t) (vertex_offset : Z) : list Z :=
  if NEIGHBOR_COMPRESS then Ptv.range_list (get_neighbor_ptv_range p vertex_offset)
  else get_neighbors p vertex_offset.

Definition get_vertex_degree (p : csr_page_t) (vertex_offset : Z) : Z :=
  if num_vertices_ p <=? vertex_offset then 0 else from_option degree 0 (vertex_at p vertex_offset).

Definition get_vertices (p : csr_page_t) : list csr_vertex_t :=
  omap (vertex_at p) (seqZ 0 (vertex_span_ p).2).

Definition read_neighbor_block (p : csr_page_t) : list Z :=
  read_u32s (neighbor_page_span_ p).1 (Z.to_nat (neighbor_page_span_ p).2) (data p).

(** ** Building *)

(** The bytes of one vertex's neighbour region, reserved slots included. *)
Definition neighbor_bytes (ns : list Z) (slot : Z) : list Z :=
  if NEIGHBOR_COMPRESS
  then Ptv.encode_list ns ++ mjoin (replicate (Z.to_nat slot) (Ptv.ptv_write_slot 0))
  else u32s_bytes ns ++ replicate (4 * Z.to_nat slot) 0.

Record build_state := BuildState {
  b_vertices : list csr_vertex_t;
  b_map : list (Z * Z);
  b_edges : Z;
  b_off : Z;
  b_page_offset : Z;
  b_bytes : list Z
}.

Definition build_vertex (slots : gmap Z Z) (st : build_state) (vid : Z) (ns : list Z) : res build_state :=
  let this_slot := default 0 (slots !! vid) in
  if 2 ^ 32 - 1 <? Z.of_nat (length ns) then Throw runtime_error
  else
    let deg := Z.of_nat (length ns) in
    let m := b_map st ++ [(vid, b_page_offset st)] in
    let po := u16 (b_page_offset st + 1) in
    if GIANT_DEGREE_BOUND <=? deg then
      Ok (BuildState (b_vertices st ++ [CsrVertex vid deg 0 0]) m (b_edges st) (b_off st) po (b_bytes st))
    else
      let nb := neighbor_bytes ns this_slot in
      if 2 ^ 16 - 1 <? b_off st + Z.of_nat (length nb) then Throw runtime_error
      else
        Ok (BuildState (b_vertices st ++ [CsrVertex vid deg (u16 (b_off st)) 0]) m
              (u32 (b_edges st + deg)) (u32 (b_off st + Z.of_nat (length nb))) po (b_bytes st ++ nb)).

Fixpoint build_loop (slots : gmap Z Z) (st : build_state) (adj : list (Z * list Z)) : res build_state :=
  match adj with
  | [] => Ok st
  | (vid, ns) :: adj => st ← build_vertex slots st vid ns; build_loop slots st adj
  end.

(** The empty map: only the header is written. *)
Definition build_empty (p : csr_page_t) : csr_page_t :=
  let d := replicate PAGE_SIZE 0 in
  let d := put32 12 0 (put32 8 0 (put32 4 16 (put16 2 0 (put16 0 0 d)))) in
  CsrPage (page_no p) d (dirty p) 0 0 0 0 0 (0%nat, 0) (0%nat, 0) None (is_parse_ p).

(** Header, neighbour block, vertex array and neighbour data. *)
Definition build_write (p : csr_page_t) (vs : list csr_vertex_t) (nbytes : list Z) (nv ne used : Z) : buf :=
  let d := replicate PAGE_SIZE 0 in
  let d := put16 0 (u16 nv) d in
  let d := put16 2 (u16 ne) d in
  let d := put32 4 used d in
  let d := put32 8 (parent_page_no_ p) d in
  let d := put32 12 (neighbor_page_count_ p) d in
  let d := mem_write METADATA_SIZE (u32s_bytes (replicate MAX_BLOCK_NEIGHBOR 0)) d in
  let d := mem_write vertices_off (mjoin (csr_vertex_bytes <$> vs)) d in
  mem_write (vertices_off + length vs * VERTEX_SIZE) nbytes d.

(** The per-vertex slot variant: the rebuilt page and the vertex map pushed. *)
Definition build_from_adjacency_map (p : csr_page_t) (adj : list (Z * list Z)) (slots : gmap Z Z) :
    res (csr_page_t * list (Z * Z)) :=
  match adj with
  | [] => Ok (build_empty p, [])
  | _ =>
    st ← build_loop slots (BuildState [] [] 0 0 0 []) adj;
    let total_vertex_count := Z.of_nat (length adj) in
    if 2 ^ 16 - 1 <? total_vertex_count then Throw runtime_error
    else if 2 ^ 16 - 1 <? b_edges st then Throw runtime_error
    else
      let total_required := (vertices_off + length (b_vertices st) * VERTEX_SIZE + length (b_bytes st))%nat in
      if (PAGE_SIZE <? total_required)%nat then Throw runtime_error
      else
        let used := u32 (Z.of_nat total_required) in
        let d := build_write p (b_vertices st) (b_bytes st) total_vertex_count (b_edges st) used in
        let nv := u16 total_vertex_count in
        Ok (CsrPage (page_no p) d (dirty p) nv (u16 (b_edges st)) used (parent_page_no_ p)
              (neighbor_page_count_ p) (METADATA_SIZE, neighbor_page_count_ p) (vertices_off, nv)
              (Some (vertices_off + length (b_vertices st) * VERTEX_SIZE)%nat) true,
            b_map st)
  end.

(** The uniform-slot variant. *)
Definition build_uniform (p : csr_page_t) (adj : list (Z * list Z)) (edge_slot_count : Z) :
    res (csr_page_t * list (Z * Z)) :=
  if edge_slot_count =? 0 then build_from_adjacency_map p adj ∅
  else build_from_adjacency_map p adj (list_to_map ((fun q => (q.1, edge_slot_count)) <$> adj)).

(** ** Parsing *)

Definition parse_from_page_data (p : csr_page_t) : res csr_page_t :=
  let d := data p in
  let vertex_count := get16 0 d in
  let edge_count := get16 2 d in
  let used := get32 4 d in
  let npc := get32 12 d in
  let minimum_required := Z.of_nat (neighbors_off vertex_count) in
  if (vertex_count =? 0) && (edge_count =? 0) then
    Ok (CsrPage (page_no p) d (dirty p) 0 0 0 0 0 (0%nat, 0) (0%nat, 0) None true)
  else if (vertex_count =? 0) && (0 <? edge_count) then Throw runtime_error
  else if Z.of_nat MAX_BLOCK_NEIGHBOR <? npc then Throw runtime_error
  else if used <? minimum_required then Throw runtime_error
  else if Z.of_nat PAGE_SIZE <? used then Throw runtime_error
  else Ok (CsrPage (page_no p) d (dirty p) vertex_count edge_count used (get32 8 d) npc
             (METADATA_SIZE, npc) (vertices_off, vertex_count) (Some (neighbors_off vertex_count)) true).

Definition self_parse (p : csr_page_t) : res csr_page_t :=
  if is_parse_ p then Ok p else parse_from_page_data p.

Definition disable_parse (p : csr_page_t) : csr_page_t :=
  CsrPage (page_no p) (data p) (dirty p) (num_vertices_ p) (num_edges_ p) (used_bytes_ p)
    (parent_page_no_ p) (neighbor_page_count_ p) (neighbor_page_span_ p) (vertex_span_ p)
    (neighbor_ptr_ p) false.

Definition reinit (p : csr_page_t) (pno : Z) : csr_page_t :=
  CsrPage pno (data p) (dirty p) (num_vertices_ p) (num_edges_ p) (used_bytes_ p)
    (parent_page_no_ p) (neighbor_page_count_ p) (neighbor_page_span_ p) (vertex_span_ p)
    (neighbor_ptr_ p) false.

(** The loop over the vertices of [is_valid_csr_data]. *)
Definition offsets_ok (vs : list csr_vertex_t) (ne : Z) : bool :=
  match foldl (fun acc v => e ← acc; if negb (offset v =? e) then None else Some (e + degree v * 4))
          (Some 0) vs with
  | None => false
  | Some e => e =? ne * 4
  end.

Definition is_valid_csr_data (p : csr_page_t) : bool :=
  if num_vertices_ p =? 0 then true
  else if ((vertex_span_ p).2 =? 0) || bool_decide (neighbor_ptr_ p = None) then false
  else if NEIGHBOR_COMPRESS then true
  else offsets_ok (take (Z.to_nat (num_vertices_ p)) (get_vertices p)) (num_edges_ p).

Definition calculate_compressed_size (ns : list Z) : Z :=
  foldl (fun acc id => acc + Z.of_nat (Ptv.ptv_encoded_size id)) 0 ns.

(** ** In-place changes *)

Definition with_data (p : csr_page_t) (d : buf) (ne used : Z) : csr_page_t :=
  CsrPage (page_no p) d (dirty p) (num_vertices_ p) ne used (parent_page_no_ p)
    (neighbor_page_count_ p) (neighbor_page_span_ p) (vertex_span_ p) (neighbor_ptr_ p) (is_parse_ p).

(** End of the room of vertex [i], in identifiers: the next vertex's start, or
    the end of the used neighbour data. *)
Definition neighbor_capacity_end_idx (p : csr_page_t) (i : Z) : Z :=
  if i + 1 <? num_vertices_ p then from_option (fun v => offset v `div` 4) 0 (vertex_at p (i + 1))
  else (used_bytes_ p - Z.of_nat (neighbors_off (num_vertices_ p))) `div` 4.

(** The writes both insertions end with: the identifier, the degree, the edge
    count and, when the page grew, the used bytes. *)
Definition store_edge (p : csr_page_t) (np : nat) (i : Z) (v : csr_vertex_t) (end_idx dest : Z) : csr_page_t :=
  let d := put32 (np + 4 * Z.to_nat end_idx) dest (data p) in
  let d := put32 ((vertex_span_ p).1 + Z.to_nat i * VERTEX_SIZE + 4) (u32 (degree v + 1)) d in
  let ne := u16 (num_edges_ p + 1) in
  let required := Z.of_nat (neighbors_off (num_vertices_ p)) + (end_idx + 1) * 4 in
  let used := if used_bytes_ p <? required then required else used_bytes_ p in
  let d := if used_bytes_ p <? required then put32 4 used d else d in
  with_data p (put16 2 ne d) ne used.

Definition insert_edge (p : csr_page_t) (i src dest : Z) : insert_status_t * csr_page_t :=
  if negb (is_parse_ p) then (FAILED, p)
  else if NEIGHBOR_COMPRESS then (SLOT_FULL, p)
  else if num_vertices_ p <=? i then (FAILED, p)
  else match vertex_at p i, neighbor_ptr_ p with
  | Some v, Some np =>
    if negb (src =? vertex_id v) then (FAILED, p)
    else if is_deleted v then (FAILED, p)
    else if GIANT_DEGREE_BOUND <=? degree v then (FAILED, p)
    else if existsb (Z.eqb dest) (read_u32s (np + Z.to_nat (offset v)) (Z.to_nat (degree v)) (data p))
    then (FAILED, p)
    else
      let start_idx := offset v `div` 4 in
      let end_idx := start_idx + degree v in
      if neighbor_capacity_end_idx p i <=? end_idx then (SLOT_FULL, p)
      else if 2 ^ 16 - 1 <? (start_idx + (degree v + 1)) * 4 then (SLOT_FULL, p)
      else if 2 ^ 16 - 1 <=? num_edges_ p then (FAILED, p)
      else (INSERTED, store_edge p np i v end_idx dest)
  | _, _ => (FAILED, p)
  end.

Definition insert_edge_in_slot (p : csr_page_t) (i src dest : Z) : insert_status_t * csr_page_t :=
  if num_vertices_ p <=? i then (FAILED, p)
  else if NEIGHBOR_COMPRESS then (SLOT_FULL, p)
  else match vertex_at p i, neighbor_ptr_ p with
  | Some v, Some np =>
    if negb (src =? vertex_id v) then (FAILED, p)
    else if GIANT_DEGREE_BOUND <=? degree v then (FAILED, p)
    else
      let end_idx := offset v `div` 4 + degree v in
      if neighbor_capacity_end_idx p i <=? end_idx then (SLOT_FULL, p)
      else (INSERTED, store_edge p np i v end_idx dest)
  | _, _ => (FAILED, p)
  end.

(** Writes the field at byte 16, four [page_no_t] into the page. *)
Definition set_parent_page_no (p : csr_page_t) (parent : Z) : csr_page_t :=
  CsrPage (page_no p) (put32 (4 * 4) parent (data p)) (dirty p) (num_vertices_ p) (num_edges_ p)
    (used_bytes_ p) parent (neighbor_page_count_ p) (neighbor_page_span_ p) (vertex_span_ p)
    (neighbor_ptr_ p) (is_parse_ p).

(** Uses a metadata size of six [uint64_t]. *)
Definition add_neighbor_page_no (p : csr_page_t) (pno : Z) : bool * csr_page_t :=
  if Z.of_nat MAX_BLOCK_NEIGHBOR <=? neighbor_page_count_ p then (false, p)
  else if existsb (Z.eqb pno) (read_neighbor_block p) then (false, p)
  else
    let d := put32 (48 + Z.to_nat (neighbor_page_count_ p) * 4) pno (data p) in
    let npc := neighbor_page_count_ p + 1 in
    let d := put64 40 npc d in
    (true, CsrPage (page_no p) d (dirty p) (num_vertices_ p) (num_edges_ p) (used_bytes_ p)
       (parent_page_no_ p) npc (48%nat, npc) (vertex_span_ p) (neighbor_ptr_ p) (is_parse_ p)).

Definition flush_to_disk (latched : bool) (p : csr_page_t) (disk : gmap Z buf) :
    bool * csr_page_t * gmap Z buf :=
  if latched then (false, p, disk)
  else if dirty p then
    (true, CsrPage (page_no p) (data p) false (num_vertices_ p) (num_edges_ p) (used_bytes_ p)
       (parent_page_no_ p) (neighbor_page_count_ p) (neighbor_page_span_ p) (vertex_span_ p)
       (neighbor_ptr_ p) (is_parse_ p), <[page_no p := data p]> disk)
  else (true, p, disk).

(** ** Applying deltas to a page ([apply_deltas]) *)

(** Step 1: the live vertices; a giant one keeps an empty list. *)
Definition old_graph (p : csr_page_t) : gmap Z (list Z) :=
  foldl (fun g q =>
    let '(i, v) := q in
    if is_deleted v then g
    else if GIANT_DEGREE_BOUND <=? degree v then <[vertex_id v := []]> g
    else <[vertex_id v := page_neighbors p i]> g)
  ∅ (imap (fun i v => (Z.of_nat i, v)) (get_vertices p)).

(** Step 2: one record. *)
Definition apply_delta (g : gmap Z (list Z)) (r : delta_record_t) : gmap Z (list Z) :=
  match target r with
  | EDGE =>
    match g !! first r with
    | None => g
    | Some ns =>
      match type r with
      | INSERT => if existsb (Z.eqb (second r)) ns then g else <[first r := ns ++ [second r]]> g
      | DELETE => <[first r := filter (fun x => x <> second r) ns]> g
      end
    end
  | VERTEX =>
    match type r with
    | INSERT => match g !! first r with Some _ => g | None => <[first r := []]> g end
    | DELETE => delete (first r) g
    end
  end.

Definition is_giant_list (ns : list Z) : bool := GIANT_DEGREE_BOUND <=? Z.of_nat (length ns).

(** Step 3: the giants pushed and (used bytes, normal vertices, edges); [None]
    for the early [FAILED]. *)
Fixpoint measure (l : list (Z * list Z)) (used nv ne : Z) (giants : list (Z * list Z)) :
    list (Z * list Z) * option (Z * Z * Z) :=
  match l with
  | [] => (giants, Some (used, nv, ne))
  | q :: l =>
    if is_giant_list q.2 then measure l (used + 12) nv ne (giants ++ [q])
    else if 2 ^ 16 - 1 <? ne + Z.of_nat (length q.2) then (giants, None)
    else measure l (used + 12 + Z.of_nat (length q.2) * 4) (nv + 1) (ne + Z.of_nat (length q.2)) giants
  end.

(** The status, the page, the vertex map and the giants handed back. *)
Definition apply_deltas (p : csr_page_t) (deltas : list delta_record_t) :
    insert_status_t * csr_page_t * list (Z * Z) * list (Z * list Z) :=
  let l := map_to_list (foldl apply_delta (old_graph p) deltas) in
  match measure l (Z.of_nat vertices_off) 0 0 [] with
  | (giants, None) => (FAILED, p, [], giants)
  | (giants, Some (used, nv, _)) =>
    if 2 ^ 16 - 1 <? nv then (FAILED, p, [], giants)
    else if Z.of_nat PAGE_SIZE <? used then (FAILED, p, [], giants)
    else
      let adj := filter (fun q => is_giant_list q.2 = false) l in
      let cleared := with_data p (replicate PAGE_SIZE 0) (num_edges_ p) (used_bytes_ p) in
      match build_uniform cleared adj 2 with
      | Throw _ => (FAILED, cleared, [], giants)
      | Ok (p', vmap) =>
        match parse_from_page_data (disable_parse p') with
        | Ok p'' => (INSERTED, p'', vmap, giants)
        | Throw _ => (FAILED, disable_parse p', vmap, giants)
        end
      end
  end.

(** ** The page layout *)

Definition wf_vertex (v : csr_vertex_t) : Prop :=
  in_width 32 (vertex_id v) /\ in_width 32 (degree v) /\ in_width 16 (offset v) /\
  in_width 16 (delete_mark v).

Lemma length_csr_vertex_bytes v : length (csr_vertex_bytes v) = VERTEX_SIZE.
Proof. unfold csr_vertex_bytes. by rewrite !length_app, !length_le_bytes. Qed.

Lemma csr_vertex_of_bytes v : wf_vertex v -> csr_vertex_of (csr_vertex_bytes v) = v.
Proof.
  destruct v as [id dg off del]. unfold wf_vertex, in_width. cbn [vertex_id degree offset delete_mark].
  intros (H1 & H2 & H3 & H4). unfold csr_vertex_of, csr_vertex_bytes.
  cbn [vertex_id degree offset delete_mark].
  f_equal; get_field; lia.
Qed.

(** Where the build put one vertex and its neighbours. *)
Record placed (slots : gmap Z Z) (bytes : list Z) (q : Z * list Z) (v : csr_vertex_t) : Prop := {
  pl_id : vertex_id v = q.1;
  pl_deg : degree v = Z.of_nat (length q.2) /\ degree v < 2 ^ 32;
  pl_del : delete_mark v = 0;
  pl_off : in_width 16 (offset v);
  pl_align : NEIGHBOR_COMPRESS = false -> offset v `mod` 4 = 0;
  pl_bytes : degree v < GIANT_DEGREE_BOUND ->
    let nb := neighbor_bytes q.2 (default 0 (slots !! q.1)) in
    (Z.to_nat (offset v) + length nb <= length bytes)%nat /\
    mem_read (Z.to_nat (offset v)) (length nb) bytes = nb
}.

Lemma placed_app slots bytes more q v : placed slots bytes q v -> placed slots (bytes ++ more) q v.
Proof.
  intros [H1 H2 H3 H4 H5 H6]. constructor; auto. intros Hg. destruct (H6 Hg) as [Hl Hm]. cbn zeta in *.
  rewrite length_app. split; [lia|]. by rewrite mem_read_app_l by lia.
Qed.

Definition off_ok (st : build_state) : Prop :=
  b_off st = Z.of_nat (length (b_bytes st)) /\ b_off st < 2 ^ 16 /\
  (NEIGHBOR_COMPRESS = false -> b_off st `mod` 4 = 0).

Lemma neighbor_bytes_align ns slot :
  NEIGHBOR_COMPRESS = false -> Z.of_nat (length (neighbor_bytes ns slot)) `mod` 4 = 0.
Proof.
  intros Hc. unfold neighbor_bytes. rewrite Hc, length_app, length_u32s_bytes, length_replicate.
  rewrite <- Nat.mul_add_distr_l, Nat2Z.inj_mul, Z.mul_comm. apply Z.mod_mul. lia.
Qed.

Lemma build_vertex_spec slots st vid ns st' :
  build_vertex slots st vid ns = Ok st' -> off_ok st ->
  exists v more, b_vertices st' = b_vertices st ++ [v] /\ b_bytes st' = b_bytes st ++ more /\
    placed slots (b_bytes st') (vid, ns) v /\ off_ok st' /\
    b_map st' = b_map st ++ [(vid, b_page_offset st)] /\ b_page_offset st' = u16 (b_page_offset st + 1).
Proof.
  intros Hb (Ho & Hlt & Ha). unfold build_vertex in Hb.
  destruct (Z.ltb_spec (2 ^ 32 - 1) (Z.of_nat (length ns))); [done|].
  destruct (Z.leb_spec GIANT_DEGREE_BOUND (Z.of_nat (length ns))).
  - injection Hb as <-. eexists _, []. split; [done|]. cbn [b_bytes]. rewrite app_nil_r.
    split; [done|]. split; [|done].
    constructor; cbn; auto; [lia|unfold in_width; lia|lia].
  - destruct (Z.ltb_spec (2 ^ 16 - 1)
      (b_off st + Z.of_nat (length (neighbor_bytes ns (default 0 (slots !! vid)))))); [done|].
    injection Hb as <-. eexists _, (neighbor_bytes ns (default 0 (slots !! vid))).
    split; [done|]. split; [done|]. cbn [b_bytes b_map b_page_offset].
    assert (Hw : in_width 16 (b_off st)) by (unfold in_width; lia).
    split; [|split; [|done]].
    + constructor; cbn [vertex_id degree offset delete_mark fst snd]; rewrite ?(wrap_small 16) by done; auto.
      * lia.
      * intros _. cbn zeta. rewrite Ho, Nat2Z.id, length_app. split; [lia|].
        rewrite mem_read_app_r, Nat.sub_diag by lia. unfold mem_read. rewrite drop_0. by apply take_ge.
    + unfold off_ok. cbn [b_off b_bytes]. rewrite wrap_small by (unfold in_width; lia).
      rewrite length_app. split; [lia|]. split; [lia|]. intros Hc.
      pose proof (neighbor_bytes_align ns (default 0 (slots !! vid)) Hc). specialize (Ha Hc).
      Z.div_mod_to_equations. lia.
Qed.

Lemma build_loop_spec slots adj st st' :
  build_loop slots st adj = Ok st' -> off_ok st -> 0 <= b_page_offset st ->
  b_page_offset st + Z.of_nat (length adj) < 2 ^ 16 ->
  exists vs more, b_vertices st' = b_vertices st ++ vs /\ b_bytes st' = b_bytes st ++ more /\
    Forall2 (placed slots (b_bytes st')) adj vs /\ off_ok st' /\
    b_map st' = b_map st ++ imap (fun i q => (q.1, b_page_offset st + Z.of_nat i)) adj.
Proof.
  revert st. induction adj as [|[vid ns] adj IH]; intros st Hb Ho Hp Hlen.
  { injection Hb as <-. exists [], []. cbn. rewrite !app_nil_r. auto using Forall2_nil. }
  cbn [build_loop] in Hb. apply res_bind_Ok in Hb as (st1 & H1 & H2).
  destruct (build_vertex_spec _ _ _ _ _ H1 Ho) as (v & m1 & Hv1 & Hb1 & Hpl & Ho1 & Hm1 & Hp1).
  cbn [length] in Hlen. rewrite wrap_small in Hp1 by (unfold in_width; lia).
  destruct (IH st1 H2 Ho1) as (vs & m2 & Hv2 & Hb2 & Hpls & Ho2 & Hm2); [lia|lia|].
  exists (v :: vs), (m1 ++ m2). split; [rewrite Hv2, Hv1, <- app_assoc; done|].
  split; [rewrite Hb2, Hb1, app_assoc; done|].
  split; [|split; [done|]].
  - constructor; [|done]. rewrite Hb2. by apply placed_app.
  - rewrite Hm2, Hm1, <- app_assoc, Hp1. cbn. f_equal. f_equal; [f_equal; lia|].
    apply imap_ext. intros i x _. cbn. f_equal. lia.
Qed.

Lemma length_vertex_array vs : length (mjoin (csr_vertex_bytes <$> vs)) = (length vs * VERTEX_SIZE)%nat.
Proof.
  rewrite (length_mjoin_const _ VERTEX_SIZE); [by rewrite length_fmap|].
  apply Forall_fmap, Forall_true. intros v. apply length_csr_vertex_bytes.
Qed.

Lemma get_put_wrap n w off v b :
  256 ^ Z.of_nat n = 2 ^ w -> 0 <= w -> (off + n <= length b)%nat ->
  get_le n off (put_le n off (wrap w v) b) = wrap w v.
Proof.
  intros Hw H0 Hl. apply get_put_le; [|done]. rewrite Hw. by apply wrap_range.
Qed.

Section Layout.
Variables (p : csr_page_t) (vs : list csr_vertex_t) (nbytes : list Z) (nv ne used : Z).
Hypothesis Hfit : (vertices_off + length vs * VERTEX_SIZE + length nbytes <= PAGE_SIZE)%nat.
Let d := build_write p vs nbytes nv ne used.

Lemma length_block : length (u32s_bytes (replicate MAX_BLOCK_NEIGHBOR 0)) = neighbor_block_data_size.
Proof. rewrite length_u32s_bytes, length_replicate. unfold neighbor_block_data_size. lia. Qed.

Lemma length_build_write : length d = PAGE_SIZE.
Proof. unfold d, build_write. autorewrite with bw. by rewrite length_replicate. Qed.

Lemma build_write_header :
  in_width 32 used -> in_width 32 (parent_page_no_ p) -> in_width 32 (neighbor_page_count_ p) ->
  get16 0 d = u16 nv /\ get16 2 d = u16 ne /\ get32 4 d = used /\
  get32 8 d = parent_page_no_ p /\ get32 12 d = neighbor_page_count_ p.
Proof.
  intros H1 H2 H3. unfold in_width in *. change (2 ^ 32) with 4294967296 in *.
  pose proof length_block as Hb. pose proof (length_vertex_array vs) as Hv.
  unfold d, build_write, vertices_off, METADATA_SIZE in *.
  assert (Hz : (16 <= length (replicate PAGE_SIZE 0%Z))%nat) by (rewrite length_replicate; lia).
  split; [|split; [|split; [|split]]];
    rewrite !get_le_mem_write_other by lia;
    repeat (rewrite get_put_le_other by lia);
    first [ apply get_put_wrap; [done|lia|] | apply get_put_le; [lia|] ];
    autorewrite with bw; lia.
Qed.

Lemma build_write_vertex i v :
  vs !! i = Some v -> wf_vertex v ->
  csr_vertex_of (mem_read (vertices_off + i * VERTEX_SIZE) VERTEX_SIZE d) = v.
Proof.
  intros Hi Hw. pose proof (length_vertex_array vs) as Hv. pose proof (lookup_lt_Some _ _ _ Hi).
  unfold d, build_write.
  rewrite mem_read_write_other by (unfold VERTEX_SIZE in *; lia).
  rewrite mem_read_write_in.
  2:{ rewrite Hv. unfold VERTEX_SIZE. lia. }
  2:{ rewrite Hv. autorewrite with bw. rewrite length_replicate. lia. }
  rewrite <- (app_nil_r (mjoin _)).
  erewrite mem_read_mjoin; [by apply csr_vertex_of_bytes|..].
  - apply Forall_fmap, Forall_true. intros x. apply length_csr_vertex_bytes.
  - by rewrite list_lookup_fmap, Hi.
Qed.

Lemma build_write_neighbors o k :
  (o + k <= length nbytes)%nat ->
  mem_read (vertices_off + length vs * VERTEX_SIZE + o) k d = mem_read o k nbytes.
Proof.
  intros Ho. unfold d, build_write. apply mem_read_write_in; [done|].
  autorewrite with bw. rewrite length_replicate. lia.
Qed.

End Layout.

(** ** Reading back what was built *)

(** The adjacency lists a page can hold: 32-bit identifiers, and for a
    compressing build ones the codec keeps. *)
Definition adj_ok (adj : list (Z * list Z)) : Prop :=
  Forall (fun q => in_width 32 q.1 /\
    Forall (fun n => 0 <= n < if NEIGHBOR_COMPRESS then 2 ^ 30 else 2 ^ 32) q.2) adj.

(** A page whose spans describe [adj], vertex by vertex. *)
Definition shows (p : csr_page_t) (adj : list (Z * list Z)) : Prop :=
  num_vertices_ p = Z.of_nat (length adj) /\ (vertex_span_ p).2 = Z.of_nat (length adj) /\
  forall i q, adj !! i = Some q ->
    (exists v, vertex_at p (Z.of_nat i) = Some v /\ vertex_id v = q.1 /\
       degree v = Z.of_nat (length q.2) /\ is_deleted v = false) /\
    page_neighbors p (Z.of_nat i) = (if is_giant_list q.2 then [] else q.2).

Lemma shows_intro slots p adj vs bytes np :
  adj_ok adj -> Forall2 (placed slots bytes) adj vs -> 0 <= GIANT_DEGREE_BOUND ->
  num_vertices_ p = Z.of_nat (length adj) -> (vertex_span_ p).2 = Z.of_nat (length adj) ->
  neighbor_ptr_ p = Some np ->
  (forall i v, vs !! i = Some v -> vertex_at p (Z.of_nat i) = Some v) ->
  (forall o k, (o + k <= length bytes)%nat -> mem_read (np + o) k (data p) = mem_read o k bytes) ->
  shows p adj.
Proof.
  intros Hok Hpl Hgb Hnv Hsp Hnp Hvs Hbytes. split; [done|]. split; [done|]. intros i q Hi.
  destruct (Forall2_lookup_l _ _ _ _ _ Hpl Hi) as (v & Hv & [P1 [P2 P2w] P3 P4 P5 P6]).
  pose proof (Hvs _ _ Hv) as Hva. split; [exists v; unfold is_deleted; by rewrite P3|].
  unfold adj_ok in Hok. rewrite Forall_lookup in Hok. destruct (Hok _ _ Hi) as [Hid Hns].
  pose proof (lookup_lt_Some _ _ _ Hi) as Hlt.
  unfold page_neighbors, get_neighbor_ptv_range, get_neighbors.
  destruct (Z.leb_spec (num_vertices_ p) (Z.of_nat i)); [lia|]. rewrite Hva, Hnp.
  unfold is_giant_list. rewrite <- P2. destruct (Z.leb_spec GIANT_DEGREE_BOUND (degree v)) as [Hg|Hg].
  { destruct NEIGHBOR_COMPRESS; done. }
  destruct (P6 Hg) as [Hlen Hread]. rewrite <- Hbytes in Hread by lia.
  unfold neighbor_bytes in Hread, Hlen. unfold in_width in P4.
  destruct NEIGHBOR_COMPRESS.
  - set (sl := mjoin (replicate _ _)) in *.
    assert (Hd : exists rest, drop (np + Z.to_nat (offset v)) (data p) = Ptv.encode_list q.2 ++ rest).
    { exists (sl ++ drop (length (Ptv.encode_list q.2 ++ sl)) (drop (np + Z.to_nat (offset v)) (data p))).
      unfold mem_read in Hread. rewrite <- (take_drop (length (Ptv.encode_list q.2 ++ sl)) (drop _ _)) at 1.
      rewrite Hread. by rewrite app_assoc. }
    destruct Hd as [rest Hd]. unfold Ptv.range_list, Ptv.range_begin, Ptv.range_end.
    cbn [Ptv.data_ Ptv.count_]. rewrite Hd, P2, Nat2Z.id. apply Ptv.range_for_encode; [done|].
    rewrite <- P2. lia.
  - rewrite P2, Nat2Z.id. apply read_u32s_bytes; [done|done|].
    specialize (P5 eq_refl).
    replace (Z.to_nat (offset v `div` 4) * 4)%nat with (Z.to_nat (offset v))
      by (Z.div_mod_to_equations; lia).
    rewrite <- length_u32s_bytes.
    rewrite length_app in Hread.
    pose proof (mem_read_sub (np + Z.to_nat (offset v)) (length (u32s_bytes q.2)) 0
      (length (u32s_bytes q.2) + length (replicate (4 * Z.to_nat (default 0 (slots !! q.1))) 0)) (data p)) as Hsub.
    rewrite Nat.add_0_r in Hsub. rewrite <- Hsub by lia. rewrite Hread.
    unfold mem_read. rewrite drop_0. apply take_app_length.
Qed.

(** A page object whose cached counters fit and that can be rebuilt. *)
Definition page_ready (p : csr_page_t) : Prop :=
  in_width 32 (parent_page_no_ p) /\ in_width 32 (neighbor_page_count_ p) /\
  neighbor_page_count_ p <= Z.of_nat MAX_BLOCK_NEIGHBOR.

Definition config_ok : Prop := 0 <= GIANT_DEGREE_BOUND /\ Z.of_nat PAGE_SIZE < 2 ^ 32.

Lemma placed_wf slots bytes adj vs :
  adj_ok adj -> Forall2 (placed slots bytes) adj vs -> Forall wf_vertex vs.
Proof.
  intros Hok Hpl. apply Forall_lookup. intros i v Hv.
  destruct (Forall2_lookup_r _ _ _ _ _ Hpl Hv) as (q & Hq & [P1 [P2 P2w] P3 P4 P5 P6]).
  unfold adj_ok in Hok. rewrite Forall_lookup in Hok. destruct (Hok _ _ Hq) as [Hid _].
  unfold wf_vertex, in_width in *. rewrite P1, P3. lia.
Qed.

Lemma build_parts p adj slots p' vmap :
  adj <> [] -> build_from_adjacency_map p adj slots = Ok (p', vmap) ->
  exists vs bytes ne used, Forall2 (placed slots bytes) adj vs /\
    (vertices_off + length vs * VERTEX_SIZE + length bytes <= PAGE_SIZE)%nat /\
    Z.of_nat (length adj) < 2 ^ 16 /\
    used = u32 (Z.of_nat (vertices_off + length vs * VERTEX_SIZE + length bytes)) /\
    p' = CsrPage (page_no p) (build_write p vs bytes (Z.of_nat (length adj)) ne used) (dirty p)
           (Z.of_nat (length adj)) (u16 ne) used (parent_page_no_ p) (neighbor_page_count_ p)
           (METADATA_SIZE, neighbor_page_count_ p) (vertices_off, Z.of_nat (length adj))
           (Some (vertices_off + length vs * VERTEX_SIZE)%nat) true /\
    vmap = imap (fun i q => (q.1, Z.of_nat i)) adj.
Proof.
  intros Hne Hb. unfold build_from_adjacency_map in Hb. destruct adj as [|q0 adj']; [done|].
  remember (q0 :: adj') as adj eqn:Eadj. apply res_bind_Ok in Hb as (st & Hst & Hb).
  destruct (Z.ltb_spec (2 ^ 16 - 1) (Z.of_nat (length adj))); [done|].
  destruct (Z.ltb_spec (2 ^ 16 - 1) (b_edges st)); [done|].
  destruct (Nat.ltb_spec PAGE_SIZE
    (vertices_off + length (b_vertices st) * VERTEX_SIZE + length (b_bytes st))); [done|].
  destruct (build_loop_spec slots adj _ st Hst) as (vs & more & Hv & Hbt & Hpl & Hoff & Hm).
  - split; [done|]. split; [cbn; lia|]. intros _. done.
  - done.
  - cbn [b_page_offset]. lia.
  - cbn [b_vertices app] in Hv. subst vs. apply (inj Ok) in Hb. injection Hb as <- <-.
    exists (b_vertices st), (b_bytes st), (b_edges st). eexists. split; [done|]. split; [lia|].
    split; [lia|]. split; [done|].
    assert (Hw : u16 (Z.of_nat (length adj)) = Z.of_nat (length adj))
      by (apply wrap_small; unfold in_width; lia).
    rewrite Hw. split; [done|]. rewrite Hm. done.
Qed.

Lemma vertex_at_intro p off n vs :
  vertex_span_ p = (off, Z.of_nat (length vs)) ->
  (forall i v, vs !! i = Some v ->
     csr_vertex_of (mem_read (off + i * VERTEX_SIZE) VERTEX_SIZE (data p)) = v) ->
  n = length vs -> forall i v, vs !! i = Some v -> vertex_at p (Z.of_nat i) = Some v.
Proof.
  intros Hs Hr _ i v Hi. unfold vertex_at. rewrite Hs. cbn [fst snd].
  pose proof (lookup_lt_Some _ _ _ Hi).
  destruct (Z.leb_spec 0 (Z.of_nat i)), (Z.ltb_spec (Z.of_nat i) (Z.of_nat (length vs))); try lia.
  cbn [andb]. by rewrite Nat2Z.id, (Hr _ _ Hi).
Qed.

(** Any object that loads the bytes of a build parses to the built map. *)
Lemma write_parses p slots adj vs bytes ne q :
  config_ok -> page_ready p -> adj_ok adj -> adj <> [] -> Forall2 (placed slots bytes) adj vs ->
  (vertices_off + length vs * VERTEX_SIZE + length bytes <= PAGE_SIZE)%nat ->
  Z.of_nat (length adj) < 2 ^ 16 ->
  let used := u32 (Z.of_nat (vertices_off + length vs * VERTEX_SIZE + length bytes)) in
  data q = build_write p vs bytes (Z.of_nat (length adj)) ne used -> is_parse_ q = false ->
  exists q', self_parse q = Ok q' /\ shows q' adj /\ parent_page_no_ q' = parent_page_no_ p /\
    used_bytes_ q' = used /\ page_no q' = page_no q /\ data q' = data q.
Proof.
  intros [Hgb Hps] (Hpar & Hnpc & Hnpm) Hok Hne Hpl Hfit Hlen used Hq Hqp.
  pose proof (Forall2_length _ _ _ Hpl) as Hlv.
  pose proof (placed_wf _ _ _ _ Hok Hpl) as Hwfv. rewrite Forall_lookup in Hwfv.
  assert (Hused' : used = Z.of_nat (vertices_off + length vs * VERTEX_SIZE + length bytes))
    by (apply wrap_small; unfold in_width; lia).
  destruct (build_write_header p vs bytes (Z.of_nat (length adj)) ne used Hfit)
    as (H0 & H2 & H4 & H8 & H12); [by apply wrap_range|done|done|].
  rewrite (wrap_small 16) in H0 by (unfold in_width; lia).
  unfold self_parse. rewrite Hqp. unfold parse_from_page_data.
  rewrite Hq, H0, H2, H4, H8, H12.
  assert (0 < Z.of_nat (length adj)) by (destruct adj; [done|cbn; lia]).
  destruct (Z.eqb_spec (Z.of_nat (length adj)) 0); [lia|]. cbn [andb].
  destruct (Z.ltb_spec (Z.of_nat MAX_BLOCK_NEIGHBOR) (neighbor_page_count_ p)); [lia|].
  assert (Hno : neighbors_off (Z.of_nat (length adj)) = (vertices_off + length vs * VERTEX_SIZE)%nat)
    by (unfold neighbors_off; rewrite Nat2Z.id; congruence).
  rewrite Hno. destruct (Z.ltb_spec used (Z.of_nat (vertices_off + length vs * VERTEX_SIZE))); [lia|].
  destruct (Z.ltb_spec (Z.of_nat PAGE_SIZE) used); [lia|].
  eexists. split; [done|]. split; [|done].
  eapply shows_intro; try done.
  - eapply vertex_at_intro; [by rewrite <- Hlv| |done]. intros i v Hv.
    apply build_write_vertex; eauto.
  - intros o k Ho. by apply build_write_neighbors.
Qed.

Lemma build_shows p adj slots p' vmap :
  config_ok -> page_ready p -> adj_ok adj -> adj <> [] ->
  build_from_adjacency_map p adj slots = Ok (p', vmap) ->
  shows p' adj /\ vmap = imap (fun i q => (q.1, Z.of_nat i)) adj /\
  page_no p' = page_no p /\ dirty p' = dirty p /\ is_parse_ p' = true /\
  forall q, data q = data p' -> is_parse_ q = false ->
    exists q', self_parse q = Ok q' /\ shows q' adj /\ parent_page_no_ q' = parent_page_no_ p /\
      used_bytes_ q' = used_bytes_ p' /\ page_no q' = page_no q.
Proof.
  intros Hc Hr Hok Hne Hb.
  destruct (build_parts _ _ _ _ _ Hne Hb) as (vs & bytes & ne & used & Hpl & Hfit & Hlen & Hused & -> & ->).
  pose proof (Forall2_length _ _ _ Hpl) as Hlv.
  pose proof (placed_wf _ _ _ _ Hok Hpl) as Hwfv. rewrite Forall_lookup in Hwfv.
  split; [|split; [done|split; [done|split; [done|split; [done|]]]]].
  - eapply shows_intro; try done; [apply Hc| |].
    + eapply vertex_at_intro; [by rewrite <- Hlv| |done]. intros i v Hv.
      apply build_write_vertex; eauto.
    + intros o k Ho. by apply build_write_neighbors.
  - intros q Hq Hqp. cbn [data used_bytes_] in *. subst used.
    destruct (write_parses p slots adj vs bytes ne q Hc Hr Hok Hne Hpl Hfit Hlen Hq Hqp)
      as (q' & H1 & H2 & H3 & H4 & H5 & _). eauto 10.
Qed.

Lemma length_built p adj slots p' vmap : adj <> [] ->
  build_from_adjacency_map p adj slots = Ok (p', vmap) -> length (data p') = PAGE_SIZE.
Proof.
  intros Hne Hb. destruct (build_parts _ _ _ _ _ Hne Hb) as (vs & bytes & ne & used & _ & _ & _ & _ & -> & _).
  apply length_build_write.
Qed.

(** ** When a build succeeds

    On pages of at most 64 KiB, by an upper bound of the bytes that holds for
    both encodings. *)

Section Fits.
Hypothesis page_64k : Z.of_nat PAGE_SIZE <= 2 ^ 16.

(** The bytes the lists take at most with their reserved slots. *)
Definition list_bytes (slots : gmap Z Z) (q : Z * list Z) : Z :=
  if is_giant_list q.2 then 0 else 4 * (Z.of_nat (length q.2) + default 0 (slots !! q.1)).

Definition lists_bytes (slots : gmap Z Z) (adj : list (Z * list Z)) : Z := foldr (fun q acc => list_bytes slots q + acc) 0 adj.

Lemma list_bytes_nonneg slots q : (forall v x, slots !! v = Some x -> 0 <= x) -> 0 <= list_bytes slots q.
Proof.
  intros Hs. unfold list_bytes. destruct (is_giant_list q.2); [lia|].
  destruct (slots !! q.1) eqn:E; cbn; [apply Hs in E|]; lia.
Qed.

Lemma lists_bytes_nonneg slots adj : (forall v x, slots !! v = Some x -> 0 <= x) -> 0 <= lists_bytes slots adj.
Proof.
  intros Hs. induction adj as [|q adj IH]; [done|]. cbn. pose proof (list_bytes_nonneg slots q Hs).
  unfold lists_bytes in IH. lia.
Qed.

Lemma lists_bytes_perm slots l l' : l ≡ₚ l' -> lists_bytes slots l = lists_bytes slots l'.
Proof. unfold lists_bytes. induction 1; cbn; lia. Qed.

Lemma encoded_bytes ns : (length ns <= length (Ptv.encode_list ns) <= 4 * length ns)%nat.
Proof.
  unfold Ptv.encode_list. induction ns as [|x ns IH]; [cbn; lia|].
  change (mjoin (Ptv.ptv_write <$> x :: ns)) with (Ptv.ptv_write x ++ mjoin (Ptv.ptv_write <$> ns)). rewrite length_app, Ptv.length_ptv_write.
  assert (1 <= Ptv.ptv_encoded_size x <= 4)%nat by (unfold Ptv.ptv_encoded_size; repeat case_match; clear; lia). cbn [length]. lia.
Qed.

Lemma neighbor_bytes_bound ns slot : 0 <= slot ->
  Z.of_nat (length ns) <= Z.of_nat (length (neighbor_bytes ns slot)) <= 4 * (Z.of_nat (length ns) + slot).
Proof.
  intros Hs. unfold neighbor_bytes. destruct NEIGHBOR_COMPRESS; rewrite length_app.
  - pose proof (encoded_bytes ns). assert (E : length (mjoin (replicate (Z.to_nat slot) (Ptv.ptv_write_slot 0))) = (4 * Z.to_nat slot)%nat).
    { rewrite (length_mjoin_const _ 4); [rewrite length_replicate; lia|]. by apply Forall_replicate. }
    lia.
  - rewrite length_u32s_bytes, length_replicate. lia.
Qed.

Lemma build_loop_ok slots adj : forall st,
  (forall v x, slots !! v = Some x -> 0 <= x) -> Forall (fun q : Z * list Z => Z.of_nat (length q.2) < 2 ^ 31) adj ->
  b_off st = Z.of_nat (length (b_bytes st)) -> 0 <= b_edges st <= b_off st ->
  b_off st + lists_bytes slots adj < 2 ^ 16 ->
  exists st', build_loop slots st adj = Ok st' /\
    length (b_vertices st') = (length (b_vertices st) + length adj)%nat /\
    Z.of_nat (length (b_bytes st')) <= b_off st + lists_bytes slots adj /\
    0 <= b_edges st' <= b_off st + lists_bytes slots adj.
Proof.
  induction adj as [|[v ns] adj IH]; intros st Hs Hl Ho He Hlt.
  { exists st. cbn in *. split; [done|]. split; [lia|]. lia. }
  apply Forall_cons in Hl as [Hns Hl]. cbn [snd] in Hns. cbn [build_loop lists_bytes foldr] in *.
  fold (lists_bytes slots adj) in Hlt |- *. pose proof (lists_bytes_nonneg slots adj Hs).
  pose proof (list_bytes_nonneg slots (v, ns) Hs). unfold build_vertex.
  destruct (Z.ltb_spec (2 ^ 32 - 1) (Z.of_nat (length ns))); [lia|].
  unfold list_bytes in *. cbn [fst snd] in *. fold (is_giant_list ns).
  destruct (is_giant_list ns) eqn:Eg; cbn [mbind res_bind].
  - edestruct (IH (BuildState (b_vertices st ++ [CsrVertex v (Z.of_nat (length ns)) 0 0])
      (b_map st ++ [(v, b_page_offset st)]) (b_edges st) (b_off st) (u16 (b_page_offset st + 1)) (b_bytes st)))
      as (st' & -> & E1 & E2 & E3); [done|done|done|done|cbn [b_off]; lia|].
    exists st'. split; [done|]. cbn [b_vertices b_off length] in *. rewrite length_app in E1. cbn in E1.
    split; [lia|]. lia.
  - set (nb := neighbor_bytes ns (default 0 (slots !! v))).
    assert (Hslot : 0 <= default 0 (slots !! v)) by (destruct (slots !! v) eqn:E; [by eapply Hs|done]).
    pose proof (neighbor_bytes_bound ns _ Hslot) as Hnb. fold nb in Hnb.
    destruct (Z.ltb_spec (2 ^ 16 - 1) (b_off st + Z.of_nat (length nb))); [lia|]. cbn [mbind res_bind].
    rewrite !(wrap_small 32) by (unfold in_width; lia).
    match goal with |- context [build_loop slots ?st1 adj] =>
      destruct (IH st1 Hs Hl) as (st' & -> & E1 & E2 & E3) end;
      cbn [b_vertices b_off b_bytes b_edges length] in *; rewrite ?length_app in *; cbn [length] in *; try lia.
    exists st'. split; [done|]. split; lia.
Qed.

Lemma build_ok p adj slots :
  adj <> [] -> (forall v x, slots !! v = Some x -> 0 <= x) ->
  Forall (fun q : Z * list Z => Z.of_nat (length q.2) < 2 ^ 31) adj ->
  Z.of_nat (vertices_off + length adj * VERTEX_SIZE) + lists_bytes slots adj <= Z.of_nat PAGE_SIZE ->
  is_ok (build_from_adjacency_map p adj slots) = true.
Proof.
  intros Hne Hs Hl Hfit. unfold vertices_off, METADATA_SIZE, VERTEX_SIZE in Hfit.
  destruct (build_loop_ok slots adj (BuildState [] [] 0 0 0 [])) as (st & Hb & E1 & E2 & E3);
    [done|done|done|done|cbn [b_off]; lia|].
  unfold build_from_adjacency_map. destruct adj as [|q adj']; [done|]. remember (q :: adj') as adj.
  rewrite Hb. cbn [mbind res_bind]. cbn [b_vertices b_off length] in *.
  destruct (Z.ltb_spec (2 ^ 16 - 1) (Z.of_nat (length adj))); [lia|].
  destruct (Z.ltb_spec (2 ^ 16 - 1) (b_edges st)); [lia|].
  destruct (Nat.ltb_spec PAGE_SIZE (vertices_off + length (b_vertices st) * VERTEX_SIZE + length (b_bytes st)));
    [|done]. unfold vertices_off, METADATA_SIZE, VERTEX_SIZE in *. lia.
Qed.

End Fits.

(** C13: a page built from a non-empty adjacency map shows that map (vertex
    [i] of the iteration order is entry [i], live, with its degree, and its
    neighbours read back in order, giant vertices with none), the vertex map
    handed back sends every vertex to that entry, and any object that loads
    the page's bytes parses them successfully to the same map.  This holds
    with reserved slots and for both neighbour encodings. *)
Theorem build_parse_roundtrip p adj slots p' vmap q :
  config_ok -> page_ready p -> adj_ok adj -> adj <> [] ->
  build_from_adjacency_map p adj slots = Ok (p', vmap) ->
  data q = data p' -> is_parse_ q = false ->
  shows p' adj /\ vmap = imap (fun i q => (q.1, Z.of_nat i)) adj /\
  exists q', self_parse q = Ok q' /\ shows q' adj /\ used_bytes_ q' = used_bytes_ p'.
Proof.
  intros H1 H2 H3 H4 H5 H6 H7.
  destruct (build_shows p adj slots p' vmap H1 H2 H3 H4 H5) as (Hs & Hm & _ & _ & _ & Hq).
  destruct (Hq q H6 H7) as (q' & Hq' & Hsq & _ & Hu & _). eauto 10.
Qed.

End Ops.

Definition sample_adj : list (Z * list Z) := [(4, [1; 2; 9]); (2, []); (7, replicate 9 3)].

Definition sample_page : csr_page_t * list (Z * Z) :=
  match build_from_adjacency_map (H:=small_config) (new_page (H:=small_config) 3) sample_adj {[4 := 2]} with
  | Ok r => r | Throw _ => (new_page (H:=small_config) 3, []) end.

Lemma build_parse_roundtrip_witness :
  let q := CsrPage 3 (data sample_page.1) false 0 0 0 0 0 (0%nat, 0) (0%nat, 0) None false in
  shows (H:=small_config) sample_page.1 sample_adj /\
  sample_page.2 = imap (fun i q => (q.1, Z.of_nat i)) sample_adj /\
  exists q', self_parse (H:=small_config) q = Ok q' /\ shows (H:=small_config) q' sample_adj /\
    used_bytes_ q' = used_bytes_ sample_page.1.
Proof.
  apply (build_parse_roundtrip (H:=small_config) (new_page (H:=small_config) 3) sample_adj {[4 := 2]}
    sample_page.1 sample_page.2).
  - split; cbn; lia.
  - repeat split; vm_compute; congruence.
  - repeat constructor; vm_compute; congruence.
  - done.
  - vm_compute. reflexivity.
  - done.
  - done.
Defined.

End Csr.
