(* ===== verification/IndexPage.v ===== *)
(** * Index pages ([io/io_index.h], [io_index.cc])

    A node of the page hierarchy: the numbers of its blocks (child pages), an
    adjacency matrix of bits over them, the numbers of the node's own
    neighbours, and its parent.  The object caches the counts and spans; the
    first bytes of the page are a header that the operations write with
    different widths and offsets, so the model keeps the bytes. *)

From S2P Require Import Prelude Config.

Local Open Scope Z_scope.

Module Index.

Record index_page_t := IndexPage {
  page_no : Z;
  data : buf;
  is_parsed_ : bool;
  num_blocks_ : Z;
  parent_page_no_ : Z;
  blocks_span_ : nat * Z;            (* offset in the page, length *)
  neighbor_page_count_ : Z;
  neighbor_page_span_ : nat * Z;     (* offset in the page, length *)
  block_bitmap_ptr_ : option nat     (* offset in the page; None is nullptr *)
}.

Section Ops.
Context `{Config}.

Definition metadata_size : nat := 12.
Definition block_neighbor_data_size : nat := MAX_BLOCK_NEIGHBOR * 4.
Definition block_entry_size : nat := INDEX_MAX_BLOCKS * 4.
Definition blocks_off : nat := metadata_size + block_neighbor_data_size.
Definition bitmap_off : nat := metadata_size + block_neighbor_data_size + block_entry_size.
Definition bitmap_size : nat := (INDEX_MAX_BLOCKS * INDEX_MAX_BLOCKS + 7) / 8.
Definition total_used : nat := metadata_size + block_entry_size + bitmap_size + block_neighbor_data_size.
Definition UINT32_MAX : Z := 2 ^ 32 - 1.

Definition with_data (p : index_page_t) (d : buf) : index_page_t :=
  IndexPage (page_no p) d (is_parsed_ p) (num_blocks_ p) (parent_page_no_ p) (blocks_span_ p)
    (neighbor_page_count_ p) (neighbor_page_span_ p) (block_bitmap_ptr_ p).

(** The object before its constructor's body; [num_blocks_] has no
    initialiser, [uninit] is what the memory held. *)
Definition new_page (uninit pno : Z) : index_page_t :=
  IndexPage pno (replicate INDEX_PAGE_SIZE 0) false uninit 0 (0%nat, 0) 0 (0%nat, 0) None.

(** ** The matrix *)

Definition bit_index (from_index to_index : Z) : Z := from_index * Z.of_nat INDEX_MAX_BLOCKS + to_index.

Definition in_capacity (i : Z) : bool := i <? Z.of_nat INDEX_MAX_BLOCKS.

Definition set_bitmap_bit (p : index_page_t) (from_index to_index : Z) : index_page_t :=
  if negb (in_capacity from_index) || negb (in_capacity to_index) then p
  else match block_bitmap_ptr_ p with
  | None => p
  | Some base =>
    let k := bit_index from_index to_index in
    let off := (base + Z.to_nat (k `div` 8))%nat in
    with_data p (<[off := Z.lor (get_byte (data p) off) (Z.shiftl 1 (k `mod` 8))]> (data p))
  end.

Definition get_bitmap_bit (p : index_page_t) (from_index to_index : Z) : bool :=
  if negb (in_capacity from_index) || negb (in_capacity to_index) then false
  else match block_bitmap_ptr_ p with
  | None => false
  | Some base =>
    let k := bit_index from_index to_index in
    negb (Z.land (get_byte (data p) (base + Z.to_nat (k `div` 8))) (Z.shiftl 1 (k `mod` 8)) =? 0)
  end.

(** ** Building *)

Definition block_to_index (blocks : list Z) : gmap Z Z :=
  foldl (fun m q => <[q.2 := Z.of_nat q.1]> m) ∅ (imap pair blocks).

Definition set_adjacent (index : gmap Z Z) (src_index : Z) (p : index_page_t) (adj_block : Z) : index_page_t :=
  match index !! adj_block with
  | None => p
  | Some dest_index => set_bitmap_bit p src_index dest_index
  end.

Definition set_row (index : gmap Z Z) (p : index_page_t) (q : Z * list Z) : index_page_t :=
  match index !! q.1 with
  | None => p
  | Some src_index => foldl (set_adjacent index src_index) p q.2
  end.

(** The adjacency map is given in its iteration order. *)
Definition build_from_block_adjmap (p : index_page_t) (adj : list (Z * list Z)) : res index_page_t :=
  if (INDEX_MAX_BLOCKS <? length adj)%nat then Throw runtime_error
  else
    let blocks := adj.*1 in
    let d := put32 0 (u32 (num_blocks_ p)) (data p) in
    let d := put32 4 (u32 (parent_page_no_ p)) d in
    let d := put32 8 (u32 (neighbor_page_count_ p)) d in
    let d := mem_write metadata_size (u32s_bytes (replicate MAX_BLOCK_NEIGHBOR 0)) d in
    let d := mem_write blocks_off (u32s_bytes blocks) d in
    if (INDEX_PAGE_SIZE <? total_used)%nat then Throw runtime_error
    else
      let d := mem_write bitmap_off (replicate bitmap_size 0) d in
      let nb := Z.of_nat (length blocks) in
      let p := IndexPage (page_no p) d (is_parsed_ p) nb (parent_page_no_ p) (blocks_span_ p)
                 0 (neighbor_page_span_ p) (Some bitmap_off) in
      let p := foldl (set_row (block_to_index blocks)) p adj in
      Ok (IndexPage (page_no p) (data p) true nb (parent_page_no_ p) (blocks_off, nb)
            0 (metadata_size, 0) (block_bitmap_ptr_ p)).

Definition index_page (uninit pno : Z) (adj : list (Z * list Z)) : res index_page_t :=
  build_from_block_adjmap (new_page uninit pno) adj.

(** The default constructor. *)
Definition index_page_default (uninit : Z) : res index_page_t := index_page uninit 0 [].

(** ** Parsing

    The fields are read with other widths than they were written with, and the
    page is not marked as parsed. *)
Definition self_parse (p : index_page_t) : index_page_t :=
  if is_parsed_ p then p
  else
    let d := data p in
    let nb := get32 0 d in
    let npc := get64 16 d in
    IndexPage (page_no p) d (is_parsed_ p) nb (get64 8 d) (blocks_off, nb) npc (metadata_size, npc)
      (Some bitmap_off).

(** ** Queries and updates *)

(** The entries that loops up to [num_blocks_] see. *)
Definition block_list (p : index_page_t) : list Z :=
  read_u32s (blocks_span_ p).1 (Z.to_nat (num_blocks_ p)) (data p).

Definition get_num_blocks (p : index_page_t) : Z := num_blocks_ p.

Definition get_blocks (p : index_page_t) : list Z :=
  read_u32s (blocks_span_ p).1 (Z.to_nat (blocks_span_ p).2) (data p).

(** First position of a block. *)
Definition position (b : Z) (bs : list Z) : option Z :=
  (fun q => Z.of_nat q.1) <$> list_find (fun c => c = b) bs.

Definition get_block_index (p : index_page_t) (b : Z) : (Z * bool) * index_page_t :=
  let p := self_parse p in
  match position b (block_list p) with
  | Some i => ((i, true), p)
  | None => ((UINT32_MAX, false), p)
  end.

(** The blocks whose bit is set in a row. *)
Definition row (p : index_page_t) (i : Z) : list Z :=
  omap (fun q => if get_bitmap_bit p i (Z.of_nat q.1) then Some q.2 else None) (imap pair (block_list p)).

Definition get_neighbor_blocks (p : index_page_t) (b : Z) : list Z * index_page_t :=
  let p := self_parse p in
  let block_index := default UINT32_MAX (position b (block_list p)) in
  if block_index =? UINT32_MAX then ([], p) else (row p block_index, p).

(** [blocks_span_[num_blocks_]] is one past the span: the entry in the page. *)
Definition insert_block (p : index_page_t) (b : Z) : bool * index_page_t :=
  let p := self_parse p in
  if Z.of_nat INDEX_MAX_BLOCKS <=? num_blocks_ p then (false, p)
  else if existsb (Z.eqb b) (block_list p) then (false, p)
  else
    let d := put32 ((blocks_span_ p).1 + 4 * Z.to_nat (num_blocks_ p)) b (data p) in
    let nb := num_blocks_ p + 1 in
    let d := put64 0 nb d in
    (true, IndexPage (page_no p) d (is_parsed_ p) nb (parent_page_no_ p) ((blocks_span_ p).1, nb)
             (neighbor_page_count_ p) (neighbor_page_span_ p) (block_bitmap_ptr_ p)).

Definition insert_block_edge (p : index_page_t) (src dest : Z) : bool * index_page_t :=
  let p := self_parse p in
  let '(src_res, p) := get_block_index p src in
  let '(dst_res, p) := get_block_index p dest in
  if negb src_res.2 || negb dst_res.2 then (false, p)
  else (true, set_bitmap_bit p src_res.1 dst_res.1).

Definition set_parent_page_no (p : index_page_t) (parent : Z) : index_page_t :=
  IndexPage (page_no p) (put64 8 parent (data p)) (is_parsed_ p) (num_blocks_ p) parent (blocks_span_ p)
    (neighbor_page_count_ p) (neighbor_page_span_ p) (block_bitmap_ptr_ p).

Definition read_neighbor_block_clone (p : index_page_t) : list Z :=
  read_u32s (neighbor_page_span_ p).1 (Z.to_nat (neighbor_page_span_ p).2) (data p).

Definition add_neighbor_page_no (p : index_page_t) (pno : Z) : bool * index_page_t :=
  if Z.of_nat MAX_BLOCK_NEIGHBOR <=? neighbor_page_count_ p then (false, p)
  else if existsb (Z.eqb pno) (read_neighbor_block_clone p) then (false, p)
  else
    let d := put32 (metadata_size + Z.to_nat (neighbor_page_count_ p) * 4) pno (data p) in
    let npc := neighbor_page_count_ p + 1 in
    let d := put32 8 (u32 npc) d in
    (true, IndexPage (page_no p) d (is_parsed_ p) (num_blocks_ p) (parent_page_no_ p) (blocks_span_ p)
             npc (metadata_size, npc) (block_bitmap_ptr_ p)).

Definition get_block_adj_map (p : index_page_t) : gmap Z (list Z) * index_page_t :=
  let p := self_parse p in
  (foldl (fun m q => <[q.2 := row p (Z.of_nat q.1)]> m) ∅ (imap pair (block_list p)), p).

End Ops.

(** ** The graph a page holds *)

Record index_graph := IndexGraph {
  ig_blocks : list Z;
  ig_edges : gset (Z * Z);
  ig_neighbors : list Z;
  ig_parent : Z
}.

Definition ig_adjacent (g : index_graph) (b : Z) : list Z :=
  filter (fun c => (b, c) ∈ ig_edges g) (ig_blocks g).

(** The graph of an adjacency map: edges to blocks that are not keys are left
    out. *)
Definition graph_of (adj : list (Z * list Z)) : index_graph :=
  IndexGraph adj.*1
    (list_to_set (q ← adj; c ← filter (fun c => c ∈ adj.*1) q.2; [(q.1, c)])) [] 0.

(** Operations of a client and what they return. *)
Inductive index_op :=
  | InsertBlock (b : Z) | InsertEdge (src dest : Z) | SetParent (parent : Z) | AddNeighbor (pno : Z)
  | NumBlocks | Blocks | NeighborBlocks (b : Z) | AdjMap | Neighbors | Parent.

Inductive index_result :=
  | RBool (b : bool) | RUnit | RNum (n : Z) | RList (l : list Z) | RMap (m : gmap Z (list Z)).

Section Spec.
Context `{Config}.

Definition step (p : index_page_t) (o : index_op) : index_result * index_page_t :=
  match o with
  | InsertBlock b => let '(r, p) := insert_block p b in (RBool r, p)
  | InsertEdge a b => let '(r, p) := insert_block_edge p a b in (RBool r, p)
  | SetParent x => (RUnit, set_parent_page_no p x)
  | AddNeighbor n => let '(r, p) := add_neighbor_page_no p n in (RBool r, p)
  | NumBlocks => (RNum (get_num_blocks p), p)
  | Blocks => (RList (get_blocks p), p)
  | NeighborBlocks b => let '(r, p) := get_neighbor_blocks p b in (RList r, p)
  | AdjMap => let '(r, p) := get_block_adj_map p in (RMap r, p)
  | Neighbors => (RList (read_neighbor_block_clone p), p)
  | Parent => (RNum (parent_page_no_ p), p)
  end.

Fixpoint run (p : index_page_t) (os : list index_op) : list index_result * index_page_t :=
  match os with
  | [] => ([], p)
  | o :: os => let '(r, p) := step p o in let '(rs, p) := run p os in (r :: rs, p)
  end.

(** The same operations on the graph.  Setting the parent overwrites the first
    neighbour with the upper half of the parent's number. *)
Definition spec_step (g : index_graph) (o : index_op) : index_result * index_graph :=
  let '(IndexGraph bs es ns pa) := g in
  match o with
  | InsertBlock b =>
    if (INDEX_MAX_BLOCKS <=? length bs)%nat || bool_decide (b ∈ bs) then (RBool false, g)
    else (RBool true, IndexGraph (bs ++ [b]) es ns pa)
  | InsertEdge a b =>
    if bool_decide (a ∈ bs) && bool_decide (b ∈ bs) then (RBool true, IndexGraph bs ({[(a, b)]} ∪ es) ns pa)
    else (RBool false, g)
  | SetParent x =>
    (RUnit, IndexGraph bs es (match ns with [] => [] | _ :: ns => x `div` 2 ^ 32 :: ns end) x)
  | AddNeighbor n =>
    if (MAX_BLOCK_NEIGHBOR <=? length ns)%nat || bool_decide (n ∈ ns) then (RBool false, g)
    else (RBool true, IndexGraph bs es (ns ++ [n]) pa)
  | NumBlocks => (RNum (Z.of_nat (length bs)), g)
  | Blocks => (RList bs, g)
  | NeighborBlocks b => (RList (ig_adjacent g b), g)
  | AdjMap => (RMap (list_to_map ((fun b => (b, ig_adjacent g b)) <$> bs)), g)
  | Neighbors => (RList ns, g)
  | Parent => (RNum pa, g)
  end.

Fixpoint spec_run (g : index_graph) (os : list index_op) : list index_result :=
  match os with
  | [] => []
  | o :: os => let '(r, g) := spec_step g o in r :: spec_run g os
  end.

(** The arguments' types. *)
Definition op_ok (o : index_op) : Prop :=
  match o with
  | InsertBlock b => in_width 32 b
  | AddNeighbor n => in_width 32 n
  | SetParent x => in_width 64 x
  | _ => True
  end.

End Spec.

(** ** Lemmas on the page's arrays *)

Lemma mem_read_split off a b (l : buf) : mem_read off (a + b) l = mem_read off a l ++ mem_read (off + a) b l.
Proof. unfold mem_read. by rewrite <- drop_drop, take_take_drop. Qed.

Lemma u32s_bytes_cons x l : u32s_bytes (x :: l) = le_bytes 4 x ++ u32s_bytes l.
Proof. done. Qed.

(** Appending an entry to an array inside a page. *)
Lemma array_push off l x (d : buf) :
  mem_read off (4 * length l) d = u32s_bytes l -> (off + 4 * S (length l) <= length d)%nat ->
  mem_read off (4 * length (l ++ [x])) (put32 (off + 4 * length l) x d) = u32s_bytes (l ++ [x]).
Proof.
  intros Hr Hd. rewrite length_app. cbn [length].
  replace (4 * (length l + 1))%nat with (4 * length l + 4)%nat by lia. rewrite mem_read_split, u32s_bytes_app. f_equal.
  - by rewrite mem_read_put_le_other by lia.
  - unfold put_le. rewrite mem_read_write_same; [done|by rewrite length_le_bytes|rewrite length_le_bytes; lia].
Qed.

Lemma le_bytes_8 x : le_bytes 8 x = le_bytes 4 x ++ le_bytes 4 (x / 2 ^ 32).
Proof.
  replace (2 ^ 32) with (256 * (256 * (256 * 256))) by done. cbn [le_bytes app].
  rewrite <- !Z.div_div by lia. done.
Qed.

(** A 64-bit store whose upper half lands on the first entry. *)
Lemma array_clobber off n l x (d : buf) : (4 <= off)%nat ->
  mem_read off (4 * length (n :: l)) d = u32s_bytes (n :: l) -> (off + 4 * length (n :: l) <= length d)%nat ->
  mem_read off (4 * length (n :: l)) (put64 (off - 4) x d) = u32s_bytes (x / 2 ^ 32 :: l).
Proof.
  intros Ho Hr Hd. cbn [length] in *. replace (4 * S (length l))%nat with (4 + 4 * length l)%nat in * by lia.
  rewrite mem_read_split, u32s_bytes_cons in *. f_equal.
  - unfold put_le. replace off with (off - 4 + 4)%nat at 1 by lia.
    rewrite mem_read_write_in by (rewrite length_le_bytes; lia). rewrite le_bytes_8. unfold mem_read. by rewrite drop_app_length', take_ge by (by rewrite !length_le_bytes).
  - rewrite mem_read_put_le_other by lia. apply app_inj_1 in Hr as [_ Hr]; [done|].
    rewrite length_le_bytes, length_mem_read by lia. done.
Qed.

Lemma get_byte_mem_write_other off bs (d : buf) k : (k < off \/ off + length bs <= k)%nat -> get_byte (mem_write off bs d) k = get_byte d k.
Proof.
  intros Hk. unfold get_byte, mem_write. f_equal. destruct Hk; [by apply list_lookup_inserts_lt|by apply list_lookup_inserts_ge].
Qed.

(** Bit [k] of the bits that start at byte [base]. *)
Definition bit_at (base : nat) (d : buf) (k : Z) : bool := Z.testbit (get_byte d (base + Z.to_nat (k `div` 8))) (k `mod` 8).

Lemma land_byte_bit b k : 0 <= k -> negb (Z.land b (Z.shiftl 1 k) =? 0) = Z.testbit b k.
Proof.
  intros Hk. rewrite Z.shiftl_1_l. destruct (Z.testbit b k) eqn:Eb.
  - destruct (Z.eqb_spec (Z.land b (2 ^ k)) 0) as [Hz|]; [|done].
    apply (f_equal (fun z => Z.testbit z k)) in Hz. by rewrite Z.land_spec, Z.bits_0, Eb, Z.pow2_bits_true in Hz by lia.
  - replace (Z.land b (2 ^ k)) with 0; [done|]. symmetry. apply Z.bits_inj'. intros n Hn.
    rewrite Z.land_spec, Z.bits_0. destruct (decide (n = k)) as [->|]; [by rewrite Eb|].
    rewrite Z.pow2_bits_false by lia. apply andb_false_r.
Qed.

Lemma bit_at_set base (d : buf) k k' : 0 <= k -> 0 <= k' -> (base + Z.to_nat (k / 8) < length d)%nat ->
  bit_at base (<[(base + Z.to_nat (k `div` 8))%nat := Z.lor (get_byte d (base + Z.to_nat (k `div` 8))) (Z.shiftl 1 (k `mod` 8))]> d) k'
  = bool_decide (k' = k) || bit_at base d k'.
Proof.
  intros Hk Hk' Hl. unfold bit_at, get_byte. pose proof (Z.mod_pos_bound k 8 ltac:(lia)). pose proof (Z.mod_pos_bound k' 8 ltac:(lia)).
  assert (0 <= k / 8 /\ 0 <= k' / 8) by (split; apply Z.div_pos; lia).
  destruct (decide (k' / 8 = k / 8)) as [Ed|Ed].
  - rewrite Ed, list_lookup_insert_eq by done. cbn [from_option default id]. rewrite Z.lor_spec, Z.shiftl_1_l, Z.pow2_bits_eqb, orb_comm by lia.
    f_equal. apply Bool.eq_true_iff_eq. rewrite Z.eqb_eq, bool_decide_eq_true. Z.div_mod_to_equations. lia.
  - rewrite list_lookup_insert_ne by lia. rewrite bool_decide_eq_false_2; [done|]. intros ->. done.
Qed.

Lemma bit_index_inj c i j i' j' : 0 <= j < c -> 0 <= j' < c -> i * c + j = i' * c + j' -> i = i' /\ j = j'.
Proof. intros. assert (i = i') by nia. nia. Qed.

(** Positions in a list without repetitions. *)
Lemma position_Some b bs i : position b bs = Some i -> exists n, i = Z.of_nat n /\ bs !! n = Some b.
Proof.
  unfold position. destruct (list_find _ bs) as [[n c]|] eqn:E; [|done]. intros [= <-].
  apply list_find_Some in E as (Hn & -> & _). by exists n.
Qed.

Lemma position_None b bs : position b bs = None -> b ∉ bs.
Proof. unfold position. intros E. apply fmap_None, list_find_None in E. rewrite Forall_forall in E. intros Hb. by apply (E b). Qed.

Lemma existsb_eqb_elem b bs : existsb (Z.eqb b) bs = bool_decide (b ∈ bs).
Proof.
  apply Bool.eq_true_iff_eq. rewrite bool_decide_eq_true, existsb_exists. setoid_rewrite Z.eqb_eq.
  setoid_rewrite list_elem_of_In. naive_solver.
Qed.

(** ** The page represents a graph *)

Section Proofs.
Context `{Config}.

(** The layout fits the page: what [build_from_block_adjmap] checks, the room
    for a neighbour, and fewer blocks than the sentinel of the searches. *)
Class IndexLayout := {
  layout_fits : (total_used <= INDEX_PAGE_SIZE)%nat;
  layout_neighbors : (1 <= MAX_BLOCK_NEIGHBOR)%nat;
  layout_blocks : Z.of_nat INDEX_MAX_BLOCKS < UINT32_MAX
}.
Context `{IndexLayout}.

(** A bit of the matrix is an edge. *)
Definition bits_are (p : index_page_t) (bs : list Z) (es : gset (Z * Z)) : Prop :=
  forall i j, (i < INDEX_MAX_BLOCKS)%nat -> (j < INDEX_MAX_BLOCKS)%nat ->
    (get_bitmap_bit p (Z.of_nat i) (Z.of_nat j) = true <->
     exists a b, bs !! i = Some a /\ bs !! j = Some b /\ (a, b) ∈ es).

Record rep (p : index_page_t) (g : index_graph) : Prop := Rep {
  rep_length : length (data p) = INDEX_PAGE_SIZE;
  rep_parsed : is_parsed_ p = true;
  rep_bitmap : block_bitmap_ptr_ p = Some bitmap_off;
  rep_num : num_blocks_ p = Z.of_nat (length (ig_blocks g));
  rep_span : blocks_span_ p = (blocks_off, Z.of_nat (length (ig_blocks g)));
  rep_cap : (length (ig_blocks g) <= INDEX_MAX_BLOCKS)%nat;
  rep_nodup : NoDup (ig_blocks g);
  rep_width : Forall (in_width 32) (ig_blocks g);
  rep_bytes : mem_read blocks_off (4 * length (ig_blocks g)) (data p) = u32s_bytes (ig_blocks g);
  rep_bits : bits_are p (ig_blocks g) (ig_edges g);
  rep_edges : forall a b, (a, b) ∈ ig_edges g -> a ∈ ig_blocks g /\ b ∈ ig_blocks g;
  rep_nnum : neighbor_page_count_ p = Z.of_nat (length (ig_neighbors g));
  rep_nspan : (neighbor_page_span_ p) = (metadata_size, Z.of_nat (length (ig_neighbors g)));
  rep_ncap : (length (ig_neighbors g) <= MAX_BLOCK_NEIGHBOR)%nat;
  rep_nwidth : Forall (in_width 32) (ig_neighbors g);
  rep_nbytes : mem_read metadata_size (4 * length (ig_neighbors g)) (data p) = u32s_bytes (ig_neighbors g);
  rep_parent : parent_page_no_ p = ig_parent g
}.

Lemma rep_block_list p g : rep p g -> block_list p = ig_blocks g.
Proof.
  intros R. unfold block_list. rewrite (rep_span _ _ R), (rep_num _ _ R), Nat2Z.id. cbn [fst].
  by apply read_u32s_bytes; [apply R| |apply R].
Qed.

Lemma rep_get_blocks p g : rep p g -> get_blocks p = ig_blocks g.
Proof.
  intros R. unfold get_blocks. rewrite (rep_span _ _ R). cbn [fst snd]. rewrite Nat2Z.id.
  by apply read_u32s_bytes; [apply R| |apply R].
Qed.

Lemma rep_neighbors p g : rep p g -> read_neighbor_block_clone p = ig_neighbors g.
Proof.
  intros R. unfold read_neighbor_block_clone. rewrite (rep_nspan _ _ R). cbn [fst snd]. rewrite Nat2Z.id.
  by apply read_u32s_bytes; [apply R| |apply R].
Qed.

Lemma rep_self_parse p g : rep p g -> self_parse p = p.
Proof. intros R. unfold self_parse. by rewrite (rep_parsed _ _ R). Qed.

(** The matrix ends inside the page. *)
Lemma bit_in_matrix k : 0 <= k < Z.of_nat INDEX_MAX_BLOCKS * Z.of_nat INDEX_MAX_BLOCKS -> (Z.to_nat (k / 8) < bitmap_size)%nat.
Proof.
  intros Hk. unfold bitmap_size. apply Nat2Z.inj_lt.
  rewrite Nat2Z.inj_div, Nat2Z.inj_add, Nat2Z.inj_mul. Z.div_mod_to_equations. lia.
Qed.

Lemma bit_in_page k : 0 <= k < Z.of_nat INDEX_MAX_BLOCKS * Z.of_nat INDEX_MAX_BLOCKS ->
  (bitmap_off + Z.to_nat (k / 8) < INDEX_PAGE_SIZE)%nat.
Proof.
  intros Hk. pose proof layout_fits as Hl. pose proof (bit_in_matrix k Hk). unfold total_used in Hl. unfold bitmap_off. lia.
Qed.

Lemma bit_index_range i j : (i < INDEX_MAX_BLOCKS)%nat -> (j < INDEX_MAX_BLOCKS)%nat ->
  0 <= bit_index (Z.of_nat i) (Z.of_nat j) < Z.of_nat INDEX_MAX_BLOCKS * Z.of_nat INDEX_MAX_BLOCKS.
Proof. unfold bit_index. nia. Qed.

Lemma in_capacity_lt i : (i < INDEX_MAX_BLOCKS)%nat -> in_capacity (Z.of_nat i) = true.
Proof. intros. apply Z.ltb_lt. lia. Qed.

Lemma get_bit_at p i j : block_bitmap_ptr_ p = Some bitmap_off -> (i < INDEX_MAX_BLOCKS)%nat -> (j < INDEX_MAX_BLOCKS)%nat ->
  get_bitmap_bit p (Z.of_nat i) (Z.of_nat j) = bit_at bitmap_off (data p) (bit_index (Z.of_nat i) (Z.of_nat j)).
Proof.
  intros Hp Hi Hj. unfold get_bitmap_bit. rewrite !in_capacity_lt, Hp by done. cbn [negb orb].
  rewrite land_byte_bit; [done|]. apply Z.mod_pos_bound. lia.
Qed.

(** Setting a bit changes that bit and nothing before the matrix. *)
Lemma set_matrix_bit_spec p i j : block_bitmap_ptr_ p = Some bitmap_off -> length (data p) = INDEX_PAGE_SIZE ->
  (i < INDEX_MAX_BLOCKS)%nat -> (j < INDEX_MAX_BLOCKS)%nat ->
  exists d, set_bitmap_bit p (Z.of_nat i) (Z.of_nat j) = with_data p d /\ length d = INDEX_PAGE_SIZE /\
    take bitmap_off d = take bitmap_off (data p) /\
    forall i' j', (i' < INDEX_MAX_BLOCKS)%nat -> (j' < INDEX_MAX_BLOCKS)%nat ->
      get_bitmap_bit (with_data p d) (Z.of_nat i') (Z.of_nat j')
      = bool_decide (i' = i /\ j' = j) || get_bitmap_bit p (Z.of_nat i') (Z.of_nat j').
Proof.
  intros Hp Hl Hi Hj. pose proof (bit_index_range i j Hi Hj) as Hk. unfold set_bitmap_bit. rewrite !in_capacity_lt, Hp by done. cbn [negb orb].
  eexists. split; [done|]. split; [by rewrite length_insert|]. split; [apply take_insert_ge; lia|]. intros i' j' Hi' Hj'.
  pose proof (bit_index_range i' j' Hi' Hj') as Hk'. rewrite (get_bit_at p) by done. rewrite get_bit_at by done. cbn [data with_data].
  rewrite bit_at_set by (first [lia|rewrite Hl; by apply bit_in_page]). f_equal. apply bool_decide_ext. unfold bit_index. split.
  - intros E. apply bit_index_inj in E; lia.
  - by intros [-> ->].
Qed.

Lemma mem_read_take n k l (d d' : buf) : take n d = take n d' -> (k + l <= n)%nat -> mem_read k l d = mem_read k l d'.
Proof.
  intros E Hn. pose proof (mem_read_sub 0 l k n d Hn) as E1. pose proof (mem_read_sub 0 l k n d' Hn) as E2.
  cbn [Nat.add] in E1, E2. rewrite <- E1, <- E2. unfold mem_read at 2 4. by rewrite !drop_0, E.
Qed.

Ltac rep_cbn := cbn [ig_blocks ig_edges ig_neighbors ig_parent data is_parsed_ num_blocks_ parent_page_no_ blocks_span_
  neighbor_page_count_ neighbor_page_span_ block_bitmap_ptr_ page_no with_data fst snd] in *.

Lemma rep_set_bit p bs es ns pa i j a b : rep p (IndexGraph bs es ns pa) -> bs !! i = Some a -> bs !! j = Some b ->
  rep (set_bitmap_bit p (Z.of_nat i) (Z.of_nat j)) (IndexGraph bs ({[(a, b)]} ∪ es) ns pa).
Proof.
  intros [] Ha Hb. rep_cbn. assert (Hi := lookup_lt_Some _ _ _ Ha). assert (Hj := lookup_lt_Some _ _ _ Hb).
  destruct (set_matrix_bit_spec p i j) as (d & -> & Hl & Hd & Hbits); [done|done|lia|lia|].
  split; rep_cbn; try done.
  - rewrite (mem_read_take bitmap_off _ _ d (data p)); [done..|]. unfold blocks_off, bitmap_off, block_entry_size. lia.
  - intros i' j' Hi' Hj'. rewrite Hbits, orb_true_iff, bool_decide_eq_true, (rep_bits0 i' j') by done. set_unfold. split.
    + intros [[-> ->]|(a' & b' & ? & ? & ?)]; [by exists a, b; auto|exists a', b'; auto].
    + intros (a' & b' & Ha' & Hb' & [E|?]); [|by right; exists a', b']. left. injection E as -> ->.
      split; by eapply NoDup_lookup.
  - intros a' b' E. set_unfold in E. destruct E as [E|]; [|by apply rep_edges0]. injection E as -> ->.
    split; by eapply list_elem_of_lookup_2.
  - rewrite (mem_read_take bitmap_off _ _ d (data p)); [done..|]. unfold bitmap_off, block_neighbor_data_size. lia.
Qed.

(** ** Building *)

Lemma block_to_index_spec bs b i : NoDup bs ->
  (block_to_index bs !! b = Some i <-> exists n, i = Z.of_nat n /\ bs !! n = Some b).
Proof.
  unfold block_to_index. induction bs as [|x bs IH] using rev_ind; intros Hnd.
  { split; [done|]. by intros (n & _ & ?). }
  apply NoDup_app in Hnd as (Hnd & Hx & _). rewrite imap_app, foldl_app. cbn [imap foldl fst snd compose].
  rewrite Nat.add_0_r. destruct (decide (b = x)) as [->|Hb].
  - rewrite lookup_insert_eq. split.
    + intros [= <-]. exists (length bs). split; [done|]. by rewrite lookup_app_r, Nat.sub_diag by lia.
    + intros (n & -> & E). apply lookup_app_Some in E as [E|[Hn E]].
      * apply list_elem_of_lookup_2 in E. exfalso. apply (Hx x E). by apply list_elem_of_singleton.
      * apply list_lookup_singleton_Some in E as [E _]. f_equal. lia.
  - rewrite lookup_insert_ne, IH by done. split; intros (n & -> & E); exists n; (split; [done|]).
    + by apply lookup_app_l_Some.
    + apply lookup_app_Some in E as [E|[Hn E]]; [done|]. apply list_lookup_singleton_Some in E as [_ E]. congruence.
Qed.

(** The edges that rows of an adjacency map give. *)
Definition row_edges (bs : list Z) (q : Z * list Z) : gset (Z * Z) :=
  list_to_set (c ← filter (fun c => c ∈ bs) q.2; [(q.1, c)]).

Lemma set_adjacent_rep bs es ns pa i a p c : rep p (IndexGraph bs es ns pa) -> bs !! i = Some a ->
  rep (set_adjacent (block_to_index bs) (Z.of_nat i) p c)
    (IndexGraph bs (list_to_set (c ← filter (fun c => c ∈ bs) [c]; [(a, c)]) ∪ es) ns pa).
Proof.
  intros R Ha. unfold set_adjacent. assert (Hnd := rep_nodup _ _ R). cbn in Hnd. 
  destruct (block_to_index bs !! c) as [k|] eqn:Ek.
  - apply block_to_index_spec in Ek as (n & -> & Hn); [|done].
    rewrite filter_cons_True by (by eapply list_elem_of_lookup_2). cbn. rewrite (right_id_L ∅ (∪)). by apply rep_set_bit.
  - rewrite filter_cons_False; [cbn; by rewrite (left_id_L ∅ (∪))|]. intros Hc. apply list_elem_of_lookup_1 in Hc as [n Hn].
    assert (block_to_index bs !! c = Some (Z.of_nat n)) by (apply block_to_index_spec; eauto). congruence.
Qed.

Lemma set_row_rep bs ns pa q : forall p es, rep p (IndexGraph bs es ns pa) -> q.1 ∈ bs ->
  rep (set_row (block_to_index bs) p q) (IndexGraph bs (row_edges bs q ∪ es) ns pa).
Proof.
  intros p es R Hq. apply list_elem_of_lookup_1 in Hq as [i Hi]. unfold set_row.
  rewrite (proj2 (block_to_index_spec bs q.1 (Z.of_nat i) (rep_nodup _ _ R))) by eauto.
  unfold row_edges. revert p es R. induction q.2 as [|c cs IH]; intros p es R; cbn [foldl].
  { cbn. by rewrite (left_id_L ∅ (∪)). }
  apply (set_adjacent_rep _ _ _ _ i q.1 p c) in R; [|done]. apply IH in R.
  match goal with |- rep _ (IndexGraph _ ?e _ _) => match type of R with rep _ (IndexGraph _ ?e' _ _) => replace e with e'; [exact R|] end end.
  change (c :: cs) with ([c] ++ cs). rewrite filter_app, bind_app, list_to_set_app_L. set_solver.
Qed.

Lemma rows_rep bs ns pa adj : forall p es, rep p (IndexGraph bs es ns pa) -> Forall (fun q => q.1 ∈ bs) adj ->
  rep (foldl (set_row (block_to_index bs)) p adj)
    (IndexGraph bs (list_to_set (q ← adj; c ← filter (fun c => c ∈ bs) q.2; [(q.1, c)]) ∪ es) ns pa).
Proof.
  induction adj as [|q adj IH]; intros p es R Hq; [cbn; by rewrite (left_id_L ∅ (∪))|]. apply Forall_cons in Hq as [Hq Hadj].
  apply (set_row_rep _ _ _ q) in R; [|done]. apply IH in R; [|done].
  rewrite bind_cons, list_to_set_app_L. unfold row_edges in R.
  rewrite (assoc_L (∪)), (comm_L (∪) (list_to_set (q ← adj; _))) in R. exact R.
Qed.

(** What the end of the constructor sets; it does not touch the bytes. *)
Definition finish (nb : Z) (p : index_page_t) : index_page_t :=
  IndexPage (page_no p) (data p) true nb (parent_page_no_ p) (blocks_off, nb) 0 (metadata_size, 0) (block_bitmap_ptr_ p).

Lemma finish_set_bit nb p i j : set_bitmap_bit (finish nb p) i j = finish nb (set_bitmap_bit p i j).
Proof. unfold set_bitmap_bit. rep_cbn. destruct (_ || _); [done|]. cbn. by destruct (block_bitmap_ptr_ p). Qed.

Lemma finish_rows nb idx adj : forall p, foldl (set_row idx) (finish nb p) adj = finish nb (foldl (set_row idx) p adj).
Proof.
  induction adj as [|q adj IH]; intros p; [done|]. cbn [foldl]. rewrite <- IH. f_equal.
  unfold set_row. destruct (idx !! q.1) as [i|]; [|done]. generalize q.2 p. intros cs. clear.
  induction cs as [|c cs IH]; intros p; [done|]. cbn [foldl]. rewrite <- IH. f_equal.
  unfold set_adjacent. destruct (idx !! c); [|done]. apply finish_set_bit.
Qed.

Lemma build_rep uninit pno adj : NoDup adj.*1 -> Forall (in_width 32) adj.*1 -> (length adj <= INDEX_MAX_BLOCKS)%nat ->
  exists p, index_page uninit pno adj = Ok p /\ rep p (graph_of adj).
Proof.
  intros Hnd Hw Hc. pose proof layout_fits as Hl. pose proof layout_neighbors as Hn. unfold index_page, build_from_block_adjmap.
  destruct (Nat.ltb_spec INDEX_MAX_BLOCKS (length adj)); [lia|].
  destruct (Nat.ltb_spec INDEX_PAGE_SIZE total_used); [lia|]. eexists. split; [done|].
  match goal with |- rep (IndexPage _ _ _ ?nb _ _ _ _ (block_bitmap_ptr_ (foldl _ ?p0 _))) _ =>
    change (rep (finish nb (foldl (set_row (block_to_index adj.*1)) p0 adj)) (graph_of adj)) end.
  rewrite <- finish_rows. unfold graph_of. rewrite <- (right_id_L ∅ (∪) (list_to_set _)).
  apply rows_rep; [|apply Forall_forall; intros q Hq; apply list_elem_of_fmap; by exists q].
  unfold total_used, metadata_size, block_entry_size, block_neighbor_data_size in Hl.
  assert (Hbytes : length (u32s_bytes adj.*1) = (4 * length adj)%nat) by (by rewrite length_u32s_bytes, length_fmap).
  assert (Hz : length (u32s_bytes (replicate MAX_BLOCK_NEIGHBOR 0)) = (4 * MAX_BLOCK_NEIGHBOR)%nat)
    by (by rewrite length_u32s_bytes, length_replicate).
  split; unfold finish, new_page; rep_cbn; rewrite ?length_fmap; try done.
  - rewrite !length_mem_write, !length_put_le, length_replicate. done.
  - rewrite mem_read_write_other by (rewrite length_replicate; unfold blocks_off, bitmap_off, block_entry_size; lia).
    apply mem_read_write_same; [lia|]. rewrite !length_mem_write, !length_put_le, length_replicate, Hbytes. unfold blocks_off, metadata_size, block_neighbor_data_size. lia.
  - intros i j Hi Hj. split; [|intros (a & b & _ & _ & He); set_solver].
    rewrite get_bit_at by done. unfold bit_at. rep_cbn.
    pose proof (bit_index_range i j Hi Hj) as Hk. set (k := bit_index _ _) in *.
    unfold get_byte, mem_write at 1. rewrite list_lookup_inserts.
    + rewrite lookup_replicate_2; [by rewrite Z.bits_0|]. pose proof (bit_in_matrix k Hk). lia.
    + rewrite length_replicate. pose proof (bit_in_matrix k Hk). lia.
    + rewrite !length_mem_write, !length_put_le, length_replicate. pose proof (bit_in_page k Hk). lia.
  - cbn. lia.
Qed.

(** ** The operations *)

Lemma omap_imap_filter (f : Z -> bool) (P : Z -> Prop) `{forall c, Decision (P c)} l : forall k,
  (forall j c, l !! j = Some c -> f (Z.of_nat (k + j)) = true <-> P c) ->
  omap (fun q => if f (Z.of_nat q.1) then Some q.2 else None) (imap (fun j c => ((k + j)%nat, c)) l) = filter P l.
Proof.
  induction l as [|c l IH]; intros k Hf; [done|]. cbn [imap omap list_omap fst snd]. rewrite filter_cons.
  pose proof (Hf 0%nat c eq_refl) as Hf0.
  assert (E : omap (fun q => if f (Z.of_nat q.1) then Some q.2 else None) (imap ((fun j c => ((k + j)%nat, c)) ∘ S) l) = filter P l).
  { rewrite <- (IH (S k)).
    - f_equal. apply imap_ext. intros j x _. cbn. f_equal. lia.
    - intros j x E. replace (S k + j)%nat with (k + S j)%nat by lia. by apply Hf. }
  case_decide as Hc.
  - rewrite (proj2 Hf0) by done. f_equal. exact E.
  - rewrite (not_true_is_false (f (Z.of_nat (k + 0)))); [exact E|tauto].
Qed.

Lemma row_adjacent p g n b : rep p g -> ig_blocks g !! n = Some b -> row p (Z.of_nat n) = ig_adjacent g b.
Proof.
  intros R Hb. unfold row, ig_adjacent. rewrite (rep_block_list _ _ R).
  assert (Hn := lookup_lt_Some _ _ _ Hb). pose proof (rep_cap _ _ R).
  apply (omap_imap_filter (get_bitmap_bit p (Z.of_nat n)) (fun c => (b, c) ∈ ig_edges g) _ 0). intros j c Hc. cbn [Nat.add].
  assert (Hj := lookup_lt_Some _ _ _ Hc). rewrite (rep_bits _ _ R n j) by lia. split; [|by exists b, c].
  intros (b' & c' & ? & ? & ?). congruence.
Qed.

Lemma ig_adjacent_nil p g b : rep p g -> b ∉ ig_blocks g -> ig_adjacent g b = [].
Proof.
  intros R Hb. unfold ig_adjacent. apply elem_of_nil_inv. intros c Hc. apply list_elem_of_filter in Hc as [He _].
  by apply (rep_edges _ _ R) in He as [? _].
Qed.

Lemma foldl_insert_map {A B} (f : A -> Z * B) l : NoDup (fst ∘ f <$> l) ->
  foldl (fun m q => <[(f q).1 := (f q).2]> m) ∅ l = (list_to_map (f <$> l) : gmap Z B).
Proof.
  induction l as [|x l IH] using rev_ind; intros Hnd; [done|]. rewrite fmap_app in Hnd. apply NoDup_app in Hnd as (Hnd & Hx & _).
  rewrite foldl_app, fmap_app. cbn [foldl fmap list_fmap]. destruct (f x) as [k v] eqn:Ef.
  rewrite list_to_map_snoc, IH; [by cbn|done|]. rewrite <- list_fmap_compose.
  intros Hk. apply (Hx k Hk). cbn. rewrite Ef. by apply list_elem_of_singleton.
Qed.

Lemma adj_map_spec p g : rep p g -> get_block_adj_map p = (list_to_map ((fun b => (b, ig_adjacent g b)) <$> ig_blocks g), p).
Proof.
  intros R. unfold get_block_adj_map. rewrite (rep_self_parse _ _ R), (rep_block_list _ _ R). f_equal.
  assert (Hk : (fun b => (b, ig_adjacent g b)) <$> ig_blocks g
               = (fun q => (q.2, row p (Z.of_nat q.1))) <$> imap pair (ig_blocks g)).
  { apply list_eq. intros n. rewrite !list_lookup_fmap, list_lookup_imap.
    destruct (ig_blocks g !! n) as [b|] eqn:Eb; [|done]. cbn. by rewrite (row_adjacent _ _ _ _ R Eb). }
  rewrite Hk. apply (foldl_insert_map (fun q => (q.2, row p (Z.of_nat q.1)))).
  replace (fst ∘ _ <$> imap pair (ig_blocks g)) with (ig_blocks g); [apply R|].
  apply list_eq. intros n. rewrite list_lookup_fmap, list_lookup_imap. by destruct (ig_blocks g !! n).
Qed.

Lemma get_block_index_spec p g b : rep p g ->
  match get_block_index p b with
  | ((i, true), p') => p' = p /\ exists n, i = Z.of_nat n /\ ig_blocks g !! n = Some b
  | ((i, false), p') => p' = p /\ i = UINT32_MAX /\ b ∉ ig_blocks g
  end.
Proof.
  intros R. unfold get_block_index. rewrite (rep_self_parse _ _ R), (rep_block_list _ _ R).
  destruct (position b (ig_blocks g)) as [i|] eqn:E; [by apply position_Some in E|by apply position_None in E].
Qed.

Lemma neighbor_blocks_spec p g b : rep p g -> get_neighbor_blocks p b = (ig_adjacent g b, p).
Proof.
  intros R. unfold get_neighbor_blocks. rewrite (rep_self_parse _ _ R), (rep_block_list _ _ R).
  destruct (position b (ig_blocks g)) as [i|] eqn:E; cbn [default from_option id].
  - apply position_Some in E as (n & -> & Hn). assert (Hl := lookup_lt_Some _ _ _ Hn). pose proof (rep_cap _ _ R). pose proof layout_blocks.
    destruct (Z.eqb_spec (Z.of_nat n) UINT32_MAX); [lia|]. by rewrite (row_adjacent _ _ _ _ R Hn).
  - apply position_None in E. by rewrite (ig_adjacent_nil _ _ _ R E).
Qed.

Lemma insert_block_spec p bs es ns pa b : rep p (IndexGraph bs es ns pa) -> in_width 32 b ->
  let '(r, p') := insert_block p b in
  if (INDEX_MAX_BLOCKS <=? length bs)%nat || bool_decide (b ∈ bs) then r = false /\ p' = p
  else r = true /\ rep p' (IndexGraph (bs ++ [b]) es ns pa).
Proof.
  intros R Hb. unfold insert_block. rewrite (rep_self_parse _ _ R), (rep_block_list _ _ R), (rep_num _ _ R), existsb_eqb_elem, (rep_span _ _ R).
  rep_cbn. rewrite Nat2Z.id. destruct R. rep_cbn.
  destruct (Nat.leb_spec INDEX_MAX_BLOCKS (length bs)).
  { by rewrite (proj2 (Z.leb_le _ _)) by lia. }
  rewrite (proj2 (Z.leb_gt _ _)) by lia. cbn [orb].
  case_bool_decide as Hin; [done|]. split; [done|]. pose proof layout_fits as Hl.
  assert (Hroom : (blocks_off + 4 * S (length bs) <= bitmap_off)%nat) by (unfold blocks_off, bitmap_off, block_entry_size; lia).
  assert (Hend : (bitmap_off <= INDEX_PAGE_SIZE)%nat) by (unfold total_used in Hl; unfold bitmap_off; lia).
  assert (Hbits : forall i j, (i < INDEX_MAX_BLOCKS)%nat -> (j < INDEX_MAX_BLOCKS)%nat -> forall q, block_bitmap_ptr_ q = Some bitmap_off ->
    data q = put64 0 (Z.of_nat (length bs) + 1) (put32 (blocks_off + 4 * length bs) b (data p)) ->
    get_bitmap_bit q (Z.of_nat i) (Z.of_nat j) = get_bitmap_bit p (Z.of_nat i) (Z.of_nat j)).
  { intros i j Hi Hj q Hq Hd. rewrite !get_bit_at by done. unfold bit_at. rewrite Hd. f_equal. unfold put_le.
    rewrite !get_byte_mem_write_other; [done|rewrite length_le_bytes..]; unfold bitmap_off, metadata_size in *; lia. }
  split; rep_cbn; try done.
  - by rewrite !length_put_le.
  - rewrite length_app. cbn. lia.
  - rewrite length_app. cbn. do 2 f_equal. lia.
  - rewrite length_app. cbn. lia.
  - apply NoDup_app. split; [done|]. split; [|by apply NoDup_singleton]. intros c Hc ->%list_elem_of_singleton. done.
  - by apply Forall_app_2; [|constructor].
  - rewrite mem_read_put_le_other by (unfold blocks_off, metadata_size; lia). apply array_push; [done|lia].
  - intros i j Hi Hj. rewrite (Hbits i j Hi Hj), (rep_bits0 i j Hi Hj) by done. split.
    + intros (a & c & Ha & Hc & He). exists a, c. split; [by apply lookup_app_l_Some|]. by split; [apply lookup_app_l_Some|].
    + intros (a & c & Ha & Hc & He). destruct (rep_edges0 _ _ He) as [Hea Hec]. exists a, c.
      apply lookup_app_Some in Ha as [Ha|[_ Ha]]; [|by apply list_lookup_singleton_Some in Ha as [_ ->]].
      apply lookup_app_Some in Hc as [Hc|[_ Hc]]; [|by apply list_lookup_singleton_Some in Hc as [_ ->]]. done.
  - intros a c He. destruct (rep_edges0 _ _ He). set_solver.
  - rewrite mem_read_put_le_other by (unfold metadata_size; lia).
    rewrite mem_read_put_le_other by (unfold blocks_off, block_neighbor_data_size; lia). done.
Qed.

Lemma insert_block_edge_spec p bs es ns pa a b : rep p (IndexGraph bs es ns pa) ->
  let '(r, p') := insert_block_edge p a b in
  if bool_decide (a ∈ bs) && bool_decide (b ∈ bs) then r = true /\ rep p' (IndexGraph bs ({[(a, b)]} ∪ es) ns pa)
  else r = false /\ p' = p.
Proof.
  intros R. unfold insert_block_edge. rewrite (rep_self_parse _ _ R).
  pose proof (get_block_index_spec _ _ a R) as Ha. destruct (get_block_index p a) as [[i []] q].
  - destruct Ha as (-> & n & -> & Hn). rewrite (bool_decide_eq_true_2 (a ∈ bs)) by (by eapply list_elem_of_lookup_2).
    pose proof (get_block_index_spec _ _ b R) as Hb. destruct (get_block_index p b) as [[j []] q].
    + destruct Hb as (-> & m & -> & Hm). rewrite bool_decide_eq_true_2 by (by eapply list_elem_of_lookup_2).
      cbn [negb orb snd fst andb]. split; [done|]. by apply rep_set_bit.
    + destruct Hb as (-> & _ & Hb). by rewrite (bool_decide_eq_false_2 (b ∈ bs)).
  - destruct Ha as (-> & _ & Ha). rewrite (bool_decide_eq_false_2 (a ∈ bs)) by done.
    by destruct (get_block_index p b) as [[j c] q] eqn:E; unfold get_block_index in E; rewrite (rep_self_parse _ _ R) in E;
      destruct (position _ _); injection E as <- <- <-.
Qed.

(** Writes into the header and the neighbour array keep the blocks and the
    matrix. *)
Lemma rep_header p d bs es ns pa pa' ns' npc : rep p (IndexGraph bs es ns pa) ->
  length d = length (data p) ->
  (forall k, (blocks_off <= k)%nat -> d !! k = data p !! k) ->
  npc = Z.of_nat (length ns') -> (length ns' <= MAX_BLOCK_NEIGHBOR)%nat -> Forall (in_width 32) ns' ->
  mem_read metadata_size (4 * length ns') d = u32s_bytes ns' ->
  rep (IndexPage (page_no p) d (is_parsed_ p) (num_blocks_ p) pa' (blocks_span_ p) npc (metadata_size, npc) (block_bitmap_ptr_ p))
    (IndexGraph bs es ns' pa').
Proof.
  intros [] Hl Hd -> Hns Hw Hb. rep_cbn. split; rep_cbn; try done.
  - by rewrite Hl.
  - rewrite <- rep_bytes0. unfold mem_read. f_equal. apply list_eq. intros k. rewrite !lookup_drop. apply Hd. lia.
  - intros i j Hi Hj. rewrite <- (rep_bits0 i j Hi Hj). rewrite !get_bit_at by done. unfold bit_at, get_byte. rep_cbn.
    rewrite Hd; [done|]. unfold blocks_off, bitmap_off. lia.
Qed.

Lemma lookup_put_le_ge n off v (d : buf) k : (off + n <= k)%nat -> put_le n off v d !! k = d !! k.
Proof. intros. unfold put_le, mem_write. apply list_lookup_inserts_ge. rewrite length_le_bytes. lia. Qed.

Lemma set_parent_spec p bs es ns pa x : rep p (IndexGraph bs es ns pa) -> in_width 64 x ->
  rep (set_parent_page_no p x) (IndexGraph bs es (match ns with [] => [] | _ :: ns => x / 2 ^ 32 :: ns end) x).
Proof.
  intros R Hx. unfold set_parent_page_no. pose proof layout_neighbors. pose proof layout_fits as Hl. unfold total_used in Hl.
  pose proof (rep_nspan _ _ R) as Hs. pose proof (rep_nnum _ _ R) as Hn. rep_cbn. rewrite Hs, <- Hn.
  assert (Hx32 : in_width 32 (x / 2 ^ 32)).
  { unfold in_width in *. split; [apply Z.div_pos; lia|]. apply Z.div_lt_upper_bound; [lia|]. change (2 ^ 32 * 2 ^ 32) with (2 ^ 64). lia. }
  apply (rep_header _ _ _ _ ns pa); [done|by rewrite length_put_le|..].
  - intros k Hk. apply lookup_put_le_ge. unfold blocks_off, metadata_size, block_neighbor_data_size in *. lia.
  - rewrite Hn. by destruct ns.
  - pose proof (rep_ncap _ _ R) as Hc. rep_cbn. by destruct ns.
  - pose proof (rep_nwidth _ _ R) as Hw. rep_cbn. destruct Hw; by constructor.
  - pose proof (rep_nbytes _ _ R) as Hb. pose proof (rep_ncap _ _ R) as Hc. rep_cbn. destruct ns as [|n ns]; [done|].
    apply (array_clobber metadata_size n ns x); [unfold metadata_size; lia|done|].
    rewrite (rep_length _ _ R). unfold metadata_size, block_neighbor_data_size in *. lia.
Qed.

Lemma add_neighbor_spec p bs es ns pa n : rep p (IndexGraph bs es ns pa) -> in_width 32 n ->
  let '(r, p') := add_neighbor_page_no p n in
  if (MAX_BLOCK_NEIGHBOR <=? length ns)%nat || bool_decide (n ∈ ns) then r = false /\ p' = p
  else r = true /\ rep p' (IndexGraph bs es (ns ++ [n]) pa).
Proof.
  intros R Hn. unfold add_neighbor_page_no. rewrite (rep_neighbors _ _ R), existsb_eqb_elem, (rep_nnum _ _ R). rep_cbn.
  destruct (Nat.leb_spec MAX_BLOCK_NEIGHBOR (length ns)).
  { by rewrite (proj2 (Z.leb_le _ _)) by lia. }
  rewrite (proj2 (Z.leb_gt _ _)) by lia. cbn [orb]. case_bool_decide as Hin; [done|]. split; [done|].
  pose proof layout_fits as Hl. unfold total_used in Hl. rewrite Nat2Z.id, (rep_parent _ _ R). rep_cbn.
  assert (Hroom : (metadata_size + 4 * S (length ns) <= blocks_off)%nat) by (unfold blocks_off, block_neighbor_data_size; lia).
  apply (rep_header _ _ _ _ ns pa); [done|by rewrite !length_put_le|..].
  - intros k Hk. rewrite !lookup_put_le_ge by (unfold metadata_size in *; lia). done.
  - rewrite length_app. cbn. lia.
  - rewrite length_app. cbn. lia.
  - apply Forall_app_2; [apply R|by constructor].
  - rewrite mem_read_put_le_other by (unfold metadata_size; lia). rewrite (Nat.mul_comm (length ns)).
    apply array_push; [apply R|]. rewrite (rep_length _ _ R). unfold blocks_off in *. lia.
Qed.

Lemma step_rep p g o : rep p g -> op_ok o ->
  (step p o).1 = (spec_step g o).1 /\ rep (step p o).2 (spec_step g o).2.
Proof.
  intros R Ho. destruct g as [bs es ns pa], o as [b|a b|x|n| | |b| | |]; cbn [step spec_step op_ok] in *.
  - pose proof (insert_block_spec _ _ _ _ _ b R Ho) as Hs. destruct (insert_block p b). by destruct (_ || _), Hs as [-> ?]; simplify_eq/=.
  - pose proof (insert_block_edge_spec _ _ _ _ _ a b R) as Hs. destruct (insert_block_edge p a b). by destruct (_ && _), Hs as [-> ?]; simplify_eq/=.
  - split; [done|]. by apply (set_parent_spec _ _ _ _ pa).
  - pose proof (add_neighbor_spec _ _ _ _ _ n R Ho) as Hs. destruct (add_neighbor_page_no p n). by destruct (_ || _), Hs as [-> ?]; simplify_eq/=.
  - split; [|done]. unfold get_num_blocks. cbn. f_equal. apply (rep_num _ _ R).
  - split; [|done]. cbn. f_equal. apply (rep_get_blocks _ _ R).
  - by rewrite (neighbor_blocks_spec _ _ b R).
  - by rewrite (adj_map_spec _ _ R).
  - split; [|done]. cbn. f_equal. apply (rep_neighbors _ _ R).
  - split; [|done]. cbn. f_equal. apply (rep_parent _ _ R).
Qed.

Lemma run_rep os : forall p g, rep p g -> Forall op_ok os -> (run p os).1 = spec_run g os.
Proof.
  induction os as [|o os IH]; intros p g R Ho; [done|]. apply Forall_cons in Ho as [Ho Hos]. cbn [run spec_run].
  destruct (step_rep p g o R Ho) as [E R']. destruct (step p o) as [r p'], (spec_step g o) as [r' g']. cbn in E, R'.
  specialize (IH _ _ R' Hos). destruct (run p' os). cbn in *. congruence.
Qed.

(** C39: a page built from a block adjacency map answers every sequence of
    queries and updates as the graph of the map does: blocks in order and
    without repetitions up to the capacity, edges between known blocks,
    neighbours up to their bound, and the parent, whose number overwrites the
    first neighbour. *)
Theorem index_page_refines uninit pno adj os :
  NoDup adj.*1 -> Forall (in_width 32) adj.*1 -> (length adj <= INDEX_MAX_BLOCKS)%nat -> Forall op_ok os ->
  exists p, index_page uninit pno adj = Ok p /\ (run p os).1 = spec_run (graph_of adj) os.
Proof.
  intros Hnd Hw Hc Hos. destruct (build_rep uninit pno adj Hnd Hw Hc) as (p & E & R).
  exists p. split; [done|]. by apply run_rep.
Qed.

(** More blocks than the page holds are refused. *)
Lemma index_page_too_large uninit pno adj : (INDEX_MAX_BLOCKS < length adj)%nat -> index_page uninit pno adj = Throw runtime_error.
Proof. intros Hc. unfold index_page, build_from_block_adjmap. by destruct (Nat.ltb_spec INDEX_MAX_BLOCKS (length adj)); [|lia]. Qed.

End Proofs.

#[export] Instance small_layout : @IndexLayout small_config.
Proof. split; [apply Nat.leb_le; vm_compute; reflexivity..|vm_compute; reflexivity]. Qed.

Lemma index_page_refines_witness : 
  exists p, @index_page small_config 77 5 [(10, [11; 12]); (11, [10; 99])] = Ok p /\
    (@run small_config p [InsertBlock 12; InsertEdge 12 10; InsertEdge 12 99; AddNeighbor 7; SetParent 4294967298;
                          AddNeighbor 7; Neighbors; Parent; NeighborBlocks 12; InsertBlock 13; InsertBlock 14; AdjMap]).1
    = [RBool true; RBool true; RBool false; RBool true; RUnit; RBool true; RList [1; 7]; RNum 4294967298; RList [10];
       RBool true; RBool false; RMap {[10 := [11]; 11 := [10]; 12 := [10]; 13 := []]}].
Proof.
  apply (@index_page_refines small_config small_layout 77 5); [apply (bool_decide_eq_true_1 _); vm_compute; reflexivity|..|cbn; lia|];
    repeat first [apply Forall_nil_2|apply Forall_cons_2]; cbn; try done; unfold in_width; lia.
Defined.

End Index.
