(* ===== verification/IndexFile.v ===== *)
(** * The index page file ([db.cc], save and load of the index pages)

    A header (page count, root page, number of levels) and one entry per index
    page, its number and its bytes, written and read through a buffer.  Files
    are byte lists; the map of index pages is the list of its entries in
    iteration order, the root a page number of the map. *)

From S2P Require Import Prelude Config IndexPage.

Local Open Scope Z_scope.

Module IndexFile.
Import Index.

Record index_state := IndexState {
  index_page_map : list (Z * option index_page_t);
  root_index_page : option Z;
  level_count_ : Z
}.

Section Ops.
Context `{Config}.

Definition DEFAULT_PAGE_NO : Z := 0.
Definition page_entry_size : nat := 4 + INDEX_PAGE_SIZE.

(** [None] in the map is a null pointer. *)
Definition present (m : list (Z * option index_page_t)) : list (Z * index_page_t) :=
  omap (fun q => (fun p => (q.1, p)) <$> q.2) m.

Definition file_header (page_count root_page_no level_count : Z) : list Z :=
  le_bytes 8 page_count ++ le_bytes 4 root_page_no ++ le_bytes 8 level_count.

(** One page into the write buffer; the buffer goes to the file when it is
    nearly full and at the last page. *)
Definition save_page (buffer_size : nat) (page_count : Z) (st : list Z * list Z * Z) (q : Z * index_page_t) : list Z * list Z * Z :=
  let '(file, write_buffer, pages_written) := st in
  let write_buffer := write_buffer ++ le_bytes 4 q.1 ++ data (self_parse q.2) in
  let pages_written := pages_written + 1 in
  if ((buffer_size - page_entry_size <=? length write_buffer)%nat || (pages_written =? page_count))
  then (file ++ write_buffer, [], pages_written)
  else (file, write_buffer, pages_written).

Definition parse_entry (q : Z * option index_page_t) : Z * option index_page_t := (q.1, self_parse <$> q.2).

(** The result, what the file then holds, and the pages, parsed. *)
Definition save_index_pages_to_file (buffer_size : nat) (st : index_state) : bool * list Z * index_state :=
  let pages := present (index_page_map st) in
  let page_count := Z.of_nat (length pages) in
  let root_page_no := default DEFAULT_PAGE_NO (root_index_page st) in
  let header := file_header page_count root_page_no (level_count_ st) in
  if (buffer_size / page_entry_size =? 0)%nat then (false, header, st)
  else
    let '(file, _, pages_written) := foldl (save_page buffer_size page_count) (header, [], 0) pages in
    (pages_written =? page_count, file,
     IndexState (parse_entry <$> index_page_map st) (root_index_page st) (level_count_ st)).

(** [ifs.read]: what it got and what is left. *)
Definition read_bytes (n : nat) (s : list Z) : list Z * list Z := (take n s, drop n s).

(** A variable read in place keeps the bytes the read did not reach. *)
Definition overlay (n : nat) (got : list Z) (old : Z) : Z := le_val (got ++ drop (length got) (le_bytes n old)).

(** A page from an entry: a fresh empty page that gets the bytes, and
    [self_parse]. *)
Definition load_page (uninit : Z) (entry : list Z) : res (Z * index_page_t) :=
  new_page ← index_page_default uninit;
  let pno := get32 0 entry in
  let p := IndexPage pno (mem_read 4 INDEX_PAGE_SIZE entry) (is_parsed_ new_page) (num_blocks_ new_page)
             (parent_page_no_ new_page) (blocks_span_ new_page) (neighbor_page_count_ new_page)
             (neighbor_page_span_ new_page) (block_bitmap_ptr_ new_page) in
  Ok (pno, self_parse p).

(** [index_page_map[page_no] = new_page]; the order of the entries of the map
    is that of the insertions. *)
Definition map_set (m : list (Z * option index_page_t)) (k : Z) (p : index_page_t) : list (Z * option index_page_t) :=
  match list_find (fun q => q.1 = k) m with
  | Some (i, _) => <[i := (k, Some p)]> m
  | None => m ++ [(k, Some p)]
  end.

Fixpoint load_entries (uninit root_page_no : Z) (n : nat) (read_buffer : list Z) (st : index_state) : res index_state :=
  match n with
  | O => Ok st
  | S n =>
    q ← load_page uninit (take page_entry_size read_buffer);
    load_entries uninit root_page_no n (drop page_entry_size read_buffer)
      (IndexState (map_set (index_page_map st) q.1 q.2)
         (if q.1 =? root_page_no then Some q.1 else root_index_page st) (level_count_ st))
  end.

(** The loop over batches of [pages_per_buffer] entries; a failed read empties
    the map and leaves the root.  [None]: out of fuel. *)
Fixpoint load_batches (fuel : nat) (uninit root_page_no : Z) (pages_per_buffer left : Z) (file : list Z) (st : index_state) :
    option (res (bool * index_state)) :=
  match fuel with
  | O => None
  | S fuel =>
    if left <=? 0 then Some (Ok (true, st))
    else
      let pages_to_read := Z.to_nat (if pages_per_buffer <? left then pages_per_buffer else left) in
      let bytes_to_read := (pages_to_read * page_entry_size)%nat in
      let '(got, file) := read_bytes bytes_to_read file in
      if negb (length got =? bytes_to_read)%nat
      then Some (Ok (false, IndexState [] (root_index_page st) (level_count_ st)))
      else
        match load_entries uninit root_page_no pages_to_read got st with
        | Throw e => Some (Throw e)
        | Ok st => load_batches fuel uninit root_page_no pages_per_buffer (left - Z.of_nat pages_to_read) file st
        end
  end.

Definition load_index_pages_from_file (uninit : Z) (buffer_size : nat) (file : list Z) (st : index_state) :
    option (res (bool * index_state)) :=
  let '(b, file) := read_bytes 8 file in
  let page_count := overlay 8 b 0 in
  let '(b, file) := read_bytes 4 file in
  let root_page_no := overlay 4 b DEFAULT_PAGE_NO in
  let '(b, file) := read_bytes 8 file in
  let st := IndexState (index_page_map st) (root_index_page st) (overlay 8 b (level_count_ st)) in
  if negb (length b =? 8)%nat then Some (Ok (false, st))
  else
    let st := IndexState [] None (level_count_ st) in
    let pages_per_buffer := (buffer_size / page_entry_size)%nat in
    if (pages_per_buffer =? 0)%nat then Some (Ok (false, st))
    else load_batches (S (length file)) uninit root_page_no (Z.of_nat pages_per_buffer) page_count file st.

End Ops.

Section Proofs.
Context `{Config}.

Definition entry (q : Z * index_page_t) : list Z := le_bytes 4 q.1 ++ data q.2.

Definition page_ok (q : Z * index_page_t) : Prop := in_width 32 q.1 /\ length (data q.2) = INDEX_PAGE_SIZE.

Lemma index_self_parse_data p : data (self_parse p) = data p.
Proof. unfold self_parse. by destruct (is_parsed_ p). Qed.

Lemma save_pages_file buffer_size pages : forall file wb w, pages <> [] \/ wb = [] ->
  foldl (save_page buffer_size (w + Z.of_nat (length pages))) (file, wb, w) pages
  = (file ++ wb ++ mjoin (entry <$> pages), [], w + Z.of_nat (length pages)).
Proof.
  induction pages as [|q pages IH]; intros file wb w Hne.
  { destruct Hne as [| ->]; [done|]. cbn. by rewrite !app_nil_r, Z.add_0_r. }
  cbn [foldl save_page length]. rewrite index_self_parse_data.
  replace (w + Z.of_nat (S (length pages))) with (w + 1 + Z.of_nat (length pages)) by lia.
  change (mjoin (entry <$> q :: pages)) with (entry q ++ mjoin (entry <$> pages)). unfold entry at 1.
  destruct (_ || _) eqn:Ef; rewrite IH.
  - by rewrite app_nil_l, <- !app_assoc.
  - by right.
  - by rewrite <- !app_assoc.
  - left. intros ->. apply orb_false_iff in Ef as [_ Ef%Z.eqb_neq]. cbn in Ef. lia.
Qed.

Lemma buffer_holds buffer_size : (page_entry_size <= buffer_size)%nat -> (1 <= buffer_size / page_entry_size)%nat.
Proof. intros Hb. assert (0 < page_entry_size)%nat by (unfold page_entry_size; lia). apply Nat.div_le_lower_bound; lia. Qed.

Lemma save_file buffer_size st : (page_entry_size <= buffer_size)%nat ->
  save_index_pages_to_file buffer_size st
  = (true, file_header (Z.of_nat (length (present (index_page_map st)))) (default DEFAULT_PAGE_NO (root_index_page st)) (level_count_ st)
             ++ mjoin (entry <$> present (index_page_map st)),
     IndexState (parse_entry <$> index_page_map st) (root_index_page st) (level_count_ st)).
Proof.
  intros Hb%buffer_holds. unfold save_index_pages_to_file. destruct (Nat.eqb_spec (buffer_size / page_entry_size) 0); [lia|].
  pose proof (save_pages_file buffer_size (present (index_page_map st))
    (file_header (Z.of_nat (length (present (index_page_map st)))) (default DEFAULT_PAGE_NO (root_index_page st)) (level_count_ st)) [] 0 (or_intror eq_refl)) as E.
  rewrite Z.add_0_l in E. rewrite E. by rewrite Z.eqb_refl.
Qed.

(** The page a loaded entry becomes: its bytes under the counts and spans of an
    empty page, which is marked as parsed and so never parsed again. *)
Definition loaded (q : Z * index_page_t) : Z * option index_page_t :=
  (q.1, Some (IndexPage q.1 (data q.2) true 0 0 (blocks_off, 0) 0 (metadata_size, 0) (Some bitmap_off))).

Context `{!IndexLayout}.

Lemma default_page uninit : exists d, index_page_default uninit = Ok (IndexPage 0 d true 0 0 (blocks_off, 0) 0 (metadata_size, 0) (Some bitmap_off)).
Proof.
  unfold index_page_default, index_page, build_from_block_adjmap. pose proof layout_fits.
  destruct (Nat.ltb_spec INDEX_MAX_BLOCKS (length (@nil (Z * list Z)))); [cbn in *; lia|].
  destruct (Nat.ltb_spec INDEX_PAGE_SIZE total_used); [lia|]. by eexists.
Qed.

Lemma load_page_entry uninit q : page_ok q -> exists p, load_page uninit (entry q) = Ok (q.1, p) /\ loaded q = (q.1, Some p).
Proof.
  intros [Hk Hd]. unfold load_page. destruct (default_page uninit) as [d ->]. eexists. split; [|done].
  cbn [mbind res_bind]. unfold entry. rewrite get_le_app_here by exact Hk.
  rewrite mem_read_app_r by (by rewrite length_le_bytes). rewrite length_le_bytes. unfold mem_read. change (4 - 4)%nat with 0%nat. rewrite drop_0, take_ge by (rewrite Hd; reflexivity). done.
Qed.

Lemma length_entry q : page_ok q -> length (entry q) = page_entry_size.
Proof. intros [_ Hd]. unfold entry. by rewrite length_app, length_le_bytes, Hd. Qed.

Lemma map_set_fresh m k p : k ∉ m.*1 -> map_set m k p = m ++ [(k, Some p)].
Proof.
  intros Hk. unfold map_set. destruct (list_find _ m) as [[i q]|] eqn:E; [|done].
  apply list_find_Some in E as (Hi & <- & _). destruct Hk. apply list_elem_of_fmap. exists q. split; [done|by eapply list_elem_of_lookup_2].
Qed.

Lemma root_cons (r k : Z) ks (root : option Z) :
  (if bool_decide (r ∈ ks) then Some r else if k =? r then Some k else root)
  = (if bool_decide (r ∈ k :: ks) then Some r else root).
Proof.
  destruct (Z.eqb_spec k r) as [->|Hk].
  - rewrite (bool_decide_eq_true_2 (r ∈ r :: ks)) by by left. by case_bool_decide.
  - by rewrite (bool_decide_ext (r ∈ k :: ks) (r ∈ ks)) by set_solver.
Qed.

Lemma load_entries_spec uninit r lc pages : forall m root, Forall page_ok pages -> NoDup (m.*1 ++ pages.*1) ->
  load_entries uninit r (length pages) (mjoin (entry <$> pages)) (IndexState m root lc)
  = Ok (IndexState (m ++ (loaded <$> pages)) (if bool_decide (r ∈ pages.*1) then Some r else root) lc).
Proof.
  induction pages as [|q pages IH]; intros m root Hp Hnd.
  { cbn. by rewrite app_nil_r. }
  apply Forall_cons in Hp as [Hq Hp]. change (mjoin (entry <$> q :: pages)) with (entry q ++ mjoin (entry <$> pages)).
  cbn [length load_entries]. rewrite take_app_length', drop_app_length' by (symmetry; by apply length_entry).
  destruct (load_page_entry uninit q Hq) as (p & -> & Hl). cbn [mbind res_bind fst snd index_page_map root_index_page level_count_].
  assert (Hk : q.1 ∉ m.*1 /\ q.1 ∉ pages.*1 /\ NoDup (m.*1 ++ pages.*1)).
  { cbn in Hnd. rewrite NoDup_app in *. rewrite NoDup_cons in Hnd. setoid_rewrite not_elem_of_cons in Hnd. naive_solver. }
  rewrite map_set_fresh by tauto. rewrite IH.
  - f_equal. f_equal.
    + rewrite fmap_cons, Hl. by rewrite <- (assoc_L (++)).
    + apply root_cons.
  - done.
  - rewrite fmap_app. cbn. rewrite <- (assoc_L (++)). cbn. exact Hnd.
Qed.

Lemma length_entries pages : Forall page_ok pages -> length (mjoin (entry <$> pages)) = (length pages * page_entry_size)%nat.
Proof.
  intros Hp. rewrite (length_mjoin_const _ page_entry_size), length_fmap; [done|].
  apply Forall_fmap. eapply Forall_impl; [exact Hp|]. intros q. apply length_entry.
Qed.

Lemma load_batches_spec uninit r lc ppb : 0 < ppb -> forall fuel pages m root,
  (length pages < fuel)%nat -> Forall page_ok pages -> NoDup (m.*1 ++ pages.*1) ->
  load_batches fuel uninit r ppb (Z.of_nat (length pages)) (mjoin (entry <$> pages)) (IndexState m root lc)
  = Some (Ok (true, IndexState (m ++ (loaded <$> pages)) (if bool_decide (r ∈ pages.*1) then Some r else root) lc)).
Proof.
  intros Hb. induction fuel as [|fuel IH]; intros pages m root Hf Hp Hnd; [lia|]. cbn [load_batches].
  destruct (Z.leb_spec (Z.of_nat (length pages)) 0) as [Hz|Hz].
  { destruct pages; [|cbn in Hz; lia]. cbn. by rewrite app_nil_r. }
  set (n := Z.to_nat (if ppb <? Z.of_nat (length pages) then ppb else Z.of_nat (length pages))).
  assert (Hn : (1 <= n <= length pages)%nat) by (unfold n; destruct (Z.ltb_spec ppb (Z.of_nat (length pages))); lia).
  clearbody n. rewrite <- (take_drop n pages) in Hp, Hnd. apply Forall_app in Hp as [Hp1 Hp2].
  assert (Hlt : length (take n pages) = n) by (rewrite length_take; lia).
  assert (Hj : mjoin (entry <$> pages) = mjoin (entry <$> take n pages) ++ mjoin (entry <$> drop n pages))
    by (by rewrite <- join_app, <- fmap_app, take_drop).
  assert (Hl1 := length_entries _ Hp1). rewrite Hlt in Hl1. unfold read_bytes. rewrite Hj, take_app_length', drop_app_length' by done.
  rewrite Hl1, Nat.eqb_refl. cbn [negb]. rewrite fmap_app in Hnd.
  pose proof (load_entries_spec uninit r lc (take n pages) m root Hp1) as El. rewrite Hlt in El. rewrite El.
  2:{ apply NoDup_app in Hnd as (? & Hd & Hnd). apply NoDup_app in Hnd as (? & ? & ?). apply NoDup_app. set_solver. }
  replace (Z.of_nat (length pages) - Z.of_nat n) with (Z.of_nat (length (drop n pages))) by (rewrite length_drop; lia).
  rewrite IH.
  - rewrite <- app_assoc, <- fmap_app, take_drop.
    assert (Hr : r ∈ pages.*1 <-> r ∈ (take n pages).*1 \/ r ∈ (drop n pages).*1).
    { rewrite <- (take_drop n pages) at 1. by rewrite fmap_app, elem_of_app. }
    repeat case_bool_decide; first [done|tauto].
  - rewrite length_drop. lia.
  - done.
  - rewrite fmap_app, <- app_assoc. replace (fst <$> (loaded <$> take n pages)) with (take n pages).*1; [done|].
    by rewrite <- list_fmap_compose.
Qed.

Lemma take_le_bytes n v l : take n (le_bytes n v ++ l) = le_bytes n v.
Proof. apply take_app_length'. by rewrite length_le_bytes. Qed.

Lemma drop_le_bytes n v l : drop n (le_bytes n v ++ l) = l.
Proof. apply drop_app_length'. by rewrite length_le_bytes. Qed.

Lemma overlay_full n v old : 0 <= v < 256 ^ Z.of_nat n -> overlay n (le_bytes n v) old = v.
Proof.
  intros Hv. unfold overlay. rewrite drop_ge by (by rewrite !length_le_bytes).
  rewrite app_nil_r, le_val_le_bytes. by apply Z.mod_small.
Qed.

(** A page as it is answered after a load. *)
Definition empty_page (p : index_page_t) : Prop :=
  get_num_blocks p = 0 /\ get_blocks p = [] /\ read_neighbor_block_clone p = [] /\
  (forall b, get_neighbor_blocks p b = ([], p)) /\ get_block_adj_map p = (∅, p).

Lemma loaded_empty q k p : loaded q = (k, Some p) -> k = q.1 /\ page_no p = q.1 /\ data p = data q.2 /\ empty_page p.
Proof. intros [= <- <-]. repeat split. Qed.

Record state_ok (st : index_state) : Prop := StateOk {
  ok_pages : Forall page_ok (present (index_page_map st));
  ok_keys : NoDup (present (index_page_map st)).*1;
  ok_count : Z.of_nat (length (present (index_page_map st))) < 2 ^ 64;
  ok_root : forall r, root_index_page st = Some r -> r ∈ (present (index_page_map st)).*1;
  ok_levels : in_width 64 (level_count_ st)
}.

(** C40: index pages saved with one buffer and loaded with another come back
    under their numbers with all their bytes, with the root and the number of
    levels; but every loaded page answers as an empty one: the constructor has
    marked it as parsed, so the counts in its bytes are never read. *)
Theorem index_file_roundtrip uninit b1 b2 st st0 :
  state_ok st -> (page_entry_size <= b1)%nat -> (page_entry_size <= b2)%nat ->
  exists file m,
    save_index_pages_to_file b1 st = (true, file, IndexState (parse_entry <$> index_page_map st) (root_index_page st) (level_count_ st)) /\
    load_index_pages_from_file uninit b2 file st0
    = Some (Ok (true, IndexState m
        (match root_index_page st with
         | Some r => Some r
         | None => if bool_decide (DEFAULT_PAGE_NO ∈ (present (index_page_map st)).*1) then Some DEFAULT_PAGE_NO else None
         end) (level_count_ st))) /\
    Forall2 (fun q q' => exists p, q' = (q.1, Some p) /\ page_no p = q.1 /\ data p = data q.2 /\ empty_page p)
      (present (index_page_map st)) m.
Proof.
  intros [Hp Hk Hc Hr Hlv] Hb1 Hb2%buffer_holds. rewrite save_file by done.
  eexists _, _. split; [done|]. set (pages := present (index_page_map st)) in *. split.
  - unfold load_index_pages_from_file, file_header, read_bytes. rewrite <- !app_assoc.
    repeat first [rewrite take_le_bytes|rewrite drop_le_bytes].
    rewrite length_le_bytes. cbn [negb Nat.eqb]. destruct (Nat.eqb_spec (b2 / page_entry_size) 0); [lia|].
    assert (Hroot : in_width 32 (default DEFAULT_PAGE_NO (root_index_page st))).
    { destruct (root_index_page st) as [r|] eqn:Er; [|done]. specialize (Hr r eq_refl). apply list_elem_of_fmap in Hr as (q & -> & Hq).
      rewrite Forall_forall in Hp. by apply Hp. }
    rewrite !overlay_full by first [exact Hroot|exact Hlv|change (256 ^ Z.of_nat 8) with (2 ^ 64); lia].
    cbn [index_page_map root_index_page level_count_].
    rewrite load_batches_spec; [|lia|rewrite length_entries by done; unfold page_entry_size; nia|done|done].
    do 3 f_equal. f_equal. destruct (root_index_page st) as [r|]; cbn [default from_option id]; [|done].
    by rewrite bool_decide_eq_true_2 by auto.
  - cbn [app]. rewrite Forall2_fmap_r. apply Forall_Forall2_diag, Forall_true. intros q.
    eexists. split; [reflexivity|]. by apply (loaded_empty q q.1).
Qed.

End Proofs.

Lemma index_file_roundtrip_witness :
  match @index_page small_config 9 5 [(10, [11]); (11, [10])] with
  | Throw _ => False
  | Ok p =>
    let st := IndexState [(5, Some p)] (Some 5) 2 in
    @state_ok small_config st /\ @get_neighbor_blocks small_config p 10 = ([11], p) /\
    exists file m,
      @save_index_pages_to_file small_config 300 st = (true, file, st) /\
      @load_index_pages_from_file small_config 0 600 file (IndexState [] None 0) = Some (Ok (true, IndexState m (Some 5) 2)) /\
      Forall2 (fun q q' => exists p, q' = (q.1, Some p) /\ page_no p = q.1 /\ data p = data q.2 /\ @empty_page small_config p)
        (present (index_page_map st)) m
  end.
Proof.
  destruct (@index_page small_config 9 5 [(10, [11]); (11, [10])]) as [p|] eqn:E; [|done]. cbn zeta. injection E as <-.
  set (st := IndexState _ _ _). assert (Hok : @state_ok small_config st).
  { split; cbn; [constructor; [by split|constructor]|apply NoDup_singleton|lia|intros r [= <-]; by left|done]. }
  split; [exact Hok|]. split; [vm_compute; reflexivity|].
  apply (@index_file_roundtrip small_config small_layout 0 300 600 st (IndexState [] None 0) Hok); unfold page_entry_size; apply Nat.leb_le; reflexivity.
Defined.

End IndexFile.
