(* ===== verification/Db.v ===== *)
(** * The database: edge updates and neighbour reads ([db_dyn.cc], [db.cc])

    The state of [bw_graph_db_t] that edge operations use: the vertex index,
    the page map with its delta store, the CSR pages (buffer pool frames and
    the file behind them, by page number), the store of giant vertices, the
    workload sketch and the queue of consolidation tasks.  A definition below
    is one call, executing alone between the acquisition and the release of
    the source vertex's latch; interleavings of calls are sequences of such
    steps.  Pinning, page latches and the lazy parsing of frames on reads are
    left to the buffer pool. *)

From S2P Require Import Prelude Config DeltaPage VertexIndex PageMap CsrPage.

Local Open Scope Z_scope.

(** ** Interfaces of the components the database calls *)

(** The giant-vertex store.  [g_stored] is what a store holds for a vertex
    ([None]: a record that does not decode); a successful insertion replaces
    it, up to order.  Cloning reads return it; the cached [read_neighbor]
    promises nothing about its result (an insertion does not refresh the
    cache). *)
Class GiantStore (G : Type) := {
  g_stored : G -> Z -> option (list Z);
  g_storable : list Z -> Prop;
  g_insert_vertex : G -> Z -> list Z -> bool * G;
  g_read_neighbor : G -> Z -> option (list Z) * G;
  g_read_neighbor_clone : G -> Z -> option (list Z) * G;
  g_insert_stored : forall g v ns, 0 <= v -> g_storable ns -> (g_insert_vertex g v ns).1 = true ->
    exists ns', g_stored (g_insert_vertex g v ns).2 v = Some ns' /\ ns' ≡ₚ ns;
  g_insert_other : forall g v w ns, 0 <= v -> 0 <= w -> v <> w ->
    g_stored (g_insert_vertex g v ns).2 w = g_stored g w;
  g_clone_stored : forall g v, (g_read_neighbor_clone g v).1 = g_stored g v;
  g_clone_keeps : forall g v w, g_stored (g_read_neighbor_clone g v).2 w = g_stored g w;
  g_read_keeps : forall g v w, g_stored (g_read_neighbor g v).2 w = g_stored g w;
  g_read_stable : forall g v w, (g_read_neighbor (g_read_neighbor g v).2 w).1 = (g_read_neighbor g w).1
}.

(** The workload sketch: its answers only steer when to consolidate and how
    many slots to reserve. *)
Class UpdateSketch (SK : Type) := {
  sk_record_read : SK -> Z -> SK;
  sk_record_write : SK -> Z -> SK;
  sk_consolidation_threshold : SK -> Z -> Z -> Z;
  sk_per_vertex_reservation : SK -> Z -> Z
}.

Module DB.
Import Delta VIndex PMap Csr.

Section Db.
Context {A G SK : Type} `{cfg : Config} `{!PageAllocator A (Z.of_nat DELTA_PAGE_SIZE)}
  `{!GiantStore G} `{!UpdateSketch SK}.

Record bw_graph_db_t := BwGraphDb {
  vertex_index : vertex_index_t;
  page_map_table : page_map_t (A := A);
  csr_pages : gmap Z csr_page_t;
  csr_disk : A;
  giant_db : G;
  vertex_update_sketch_ : option SK;
  smo_enabled : bool;
  smo_queue : list (Z * Z)      (* page and threshold of each submitted task *)
}.

Definition set_vertex_index (s : bw_graph_db_t) (vi : vertex_index_t) : bw_graph_db_t :=
  BwGraphDb vi (page_map_table s) (csr_pages s) (csr_disk s) (giant_db s)
    (vertex_update_sketch_ s) (smo_enabled s) (smo_queue s).
Definition set_page_map (s : bw_graph_db_t) (m : page_map_t) : bw_graph_db_t :=
  BwGraphDb (vertex_index s) m (csr_pages s) (csr_disk s) (giant_db s)
    (vertex_update_sketch_ s) (smo_enabled s) (smo_queue s).
Definition set_sketch (s : bw_graph_db_t) (sk : option SK) : bw_graph_db_t :=
  BwGraphDb (vertex_index s) (page_map_table s) (csr_pages s) (csr_disk s) (giant_db s)
    sk (smo_enabled s) (smo_queue s).
Definition set_queue (s : bw_graph_db_t) (q : list (Z * Z)) : bw_graph_db_t :=
  BwGraphDb (vertex_index s) (page_map_table s) (csr_pages s) (csr_disk s) (giant_db s)
    (vertex_update_sketch_ s) (smo_enabled s) q.
Definition set_csr (s : bw_graph_db_t) (p : gmap Z csr_page_t) (d : A) : bw_graph_db_t :=
  BwGraphDb (vertex_index s) (page_map_table s) p d (giant_db s)
    (vertex_update_sketch_ s) (smo_enabled s) (smo_queue s).
Definition set_giants (s : bw_graph_db_t) (g : G) : bw_graph_db_t :=
  BwGraphDb (vertex_index s) (page_map_table s) (csr_pages s) (csr_disk s) g
    (vertex_update_sketch_ s) (smo_enabled s) (smo_queue s).

Definition item_of (s : bw_graph_db_t) (v : Z) : option v_item_t := items (vertex_index s) !! Z.to_nat v.

Definition set_delta_head (vi : vertex_index_t) (v : Z) (h : delta_head_t) : vertex_index_t :=
  set_heads (<[Z.to_nat v := h]> (delta_heads_ vi)) vi.

(** ** Writing edges *)

(** The section under the source's write latch: link a record in front of the
    vertex's chain, append it to the page's deltas (or to the replacement
    page's, when forwarded), publish it as the head.  Returns the source's
    page, whether the record was rerouted, and the new state. *)
Definition prepend_delta (s : bw_graph_db_t) (src : Z) (r : delta_record_t) :
    option (Z * bool * bw_graph_db_t) :=
  loc ← get_vertex_location (vertex_index s) (Z.to_nat src);
  cur_head ← delta_heads_ (vertex_index s) !! Z.to_nat src;
  let r := DeltaRecord (target r) (type r) (first r) (second r) (time r)
             (dh_page_no cur_head) (dh_record_idx cur_head) in
  '(d, rerouted, m) ← insert_delta_with_forward (page_map_table s) loc.1 src r;
  Some (loc.1, rerouted,
    set_vertex_index (set_page_map s m) (set_delta_head (vertex_index s) src d)).

Definition record_write (s : bw_graph_db_t) (v : Z) : bw_graph_db_t :=
  set_sketch s ((fun sk => sk_record_write sk v) <$> vertex_update_sketch_ s).

(** Step 4 of [insert_edge]: the adaptive trigger; [None]: the page cannot be
    read (the claim is then released and the exception rethrown). *)
Definition trigger_consolidation (s : bw_graph_db_t) (src page_no : Z) (rerouted : bool) :
    option bw_graph_db_t :=
  let threshold := match vertex_update_sketch_ s with
    | Some sk => sk_consolidation_threshold sk src MAX_DELTA_CHAIN_LENGTH
    | None => MAX_DELTA_CHAIN_LENGTH
    end in
  if get_delta_chain_length (page_map_table s) page_no <? threshold then Some s
  else if negb (smo_enabled s) then Some s
  else if rerouted then Some s
  else match try_begin_consolidation_for (page_map_table s) page_no with
  | (false, _) => Some s
  | (true, m) =>
    _ ← csr_pages s !! page_no;
    Some (set_queue (set_page_map s m) (smo_queue s ++ [(page_no, threshold)]))
  end.

Definition vertex_live (s : bw_graph_db_t) (v : Z) : bool :=
  match item_of s v with Some i => negb (is_delete i) | None => false end.

Definition in_range (s : bw_graph_db_t) (v : Z) : bool :=
  match item_of s v with Some _ => true | None => false end.

(** [now] is the clock read by the record's constructor. *)
Definition insert_edge (s : bw_graph_db_t) (now src dst : Z) : option (bool * bw_graph_db_t) :=
  if negb (vertex_live s src && vertex_live s dst) then Some (false, s)
  else
    '(page_no, rerouted, s) ← prepend_delta (record_write s src) src (new_record now EDGE INSERT src dst);
    s ← trigger_consolidation s src page_no rerouted;
    Some (true, s).

(** Unlike [insert_edge], deletion marks are not consulted and consolidation
    is not triggered; the sketch is dereferenced unconditionally. *)
Definition delete_edge (s : bw_graph_db_t) (now src dst : Z) : option (bool * bw_graph_db_t) :=
  if negb (in_range s src && in_range s dst) then Some (false, s)
  else
    _ ← vertex_update_sketch_ s;
    '(_, _, s) ← prepend_delta (record_write s src) src (new_record now EDGE DELETE src dst);
    Some (true, s).

(** In-place insertion into a reserved slot, with [insert_edge] as fallback. *)
Definition insert_edge_direct (s : bw_graph_db_t) (now src dst : Z) : option (bool * bw_graph_db_t) :=
  loc ← get_vertex_location (vertex_index s) (Z.to_nat src);
  p ← csr_pages s !! loc.1;
  let '(st, p) := insert_edge_in_slot p loc.2 src dst in
  let s := set_csr s (<[loc.1 := p]> (csr_pages s)) (csr_disk s) in
  match st with
  | INSERTED => Some (true, s)
  | SLOT_FULL => insert_edge s now src dst
  | _ => Some (false, s)
  end.

(** ** Reading neighbours *)

Definition record_read (s : bw_graph_db_t) (v : Z) : bw_graph_db_t :=
  set_sketch s ((fun sk => sk_record_read sk v) <$> vertex_update_sketch_ s).

(** The base list: the giant store's cached list, or the CSR page of the
    current version, which is read in both cases.  [None]: no sketch, vertex
    or page. *)
Definition read_neighbor (s : bw_graph_db_t) (v : Z) : option (list Z * bw_graph_db_t) :=
  _ ← vertex_update_sketch_ s;
  item ← item_of s v;
  loc ← get_vertex_location (vertex_index s) (Z.to_nat v);
  p ← csr_pages s !! loc.1;
  let s := record_read s v in
  if is_giant item then
    let '(ns, g) := g_read_neighbor (giant_db s) v in ns ← ns; Some (ns, set_giants s g)
  else Some (page_neighbors p loc.2, s).

(** The same with a snapshot of the chain's head, invalid for a giant. *)
Definition read_neighbor_with_delta (s : bw_graph_db_t) (v : Z) :
    option (list Z * delta_head_t * bw_graph_db_t) :=
  _ ← vertex_update_sketch_ s;
  item ← item_of s v;
  loc ← get_vertex_location (vertex_index s) (Z.to_nat v);
  p ← csr_pages s !! loc.1;
  head ← delta_heads_ (vertex_index s) !! Z.to_nat v;
  let s := record_read s v in
  if is_giant item then
    let '(ns, g) := g_read_neighbor (giant_db s) v in ns ← ns; Some (ns, dh_invalid, set_giants s g)
  else Some (page_neighbors p loc.2, head, s).

Definition get_vertex_degree (s : bw_graph_db_t) (v : Z) : option (Z * bw_graph_db_t) :=
  if is_giant_vertex (vertex_index s) (Z.to_nat v) then
    let '(ns, g) := g_read_neighbor (giant_db s) v in
    ns ← ns; Some (Z.of_nat (length ns), set_giants s g)
  else '(ns, s) ← read_neighbor s v; Some (Z.of_nat (length ns), s).

(** [delta_record_ptr_t::is_valid]. *)
Definition ptr_is_valid (h : delta_head_t) : bool :=
  negb (dh_page_no h =? INVALID_DELTA_PAGE_NO) && negb (dh_record_idx h =? INVALID_DELTA_RECORD_IDX).

(** The newest-first walk: the inserts in the order met, the deleted and the
    seen destinations.  [None]: missing frame, record out of range, or out of
    fuel. *)
Fixpoint walk_chain (fuel : nat) (ps : gmap Z delta_page_t) (cur : delta_head_t)
    (ins : list Z) (dels seen : gset Z) : option (list Z * gset Z) :=
  if ptr_is_valid cur then
    match fuel with
    | O => None
    | S fuel =>
      p ← ps !! dh_page_no cur;
      rec ← (get_record p (dh_record_idx cur)).1;
      let next := DeltaHead (next_page_no rec) (next_record_idx rec) in
      if bool_decide (target rec = EDGE) && negb (bool_decide (second rec ∈ seen)) then
        match type rec with
        | INSERT => walk_chain fuel ps next (ins ++ [second rec]) dels ({[second rec]} ∪ seen)
        | DELETE => walk_chain fuel ps next ins ({[second rec]} ∪ dels) ({[second rec]} ∪ seen)
        end
      else walk_chain fuel ps next ins dels seen
    end
  else Some (ins, dels).

(** The base list and the head of the chain to walk. *)
Definition clone_base (s : bw_graph_db_t) (v : Z) : option (list Z * delta_head_t * bw_graph_db_t) :=
  item ← item_of s v;
  if is_giant item then
    head ← delta_heads_ (vertex_index s) !! Z.to_nat v;
    let '(ns, g) := g_read_neighbor_clone (giant_db s) v in
    ns ← ns; Some (ns, head, set_giants s g)
  else read_neighbor_with_delta s v.

Definition read_neighbor_clone (fuel : nat) (s : bw_graph_db_t) (v : Z) : option (list Z * bw_graph_db_t) :=
  '(base, head, s) ← clone_base s v;
  '(ins, dels) ← walk_chain fuel (pages (page_map_table s)) head [] ∅ ∅;
  Some (filter (fun x => x ∉ dels) base ++ filter (fun x => x ∉ dels) ins, s).

(** ** Vertices *)

(** [emplace_back(0, 0)]: the default location is slot 0 of page 0. *)
Definition insert_single_vertex (s : bw_graph_db_t) (v : Z) : bool * bw_graph_db_t :=
  let vi := vertex_index s in
  match item_of s v with
  | Some i =>
    if is_delete i then
      (true, set_vertex_index s (set_items (<[Z.to_nat v := mark_existing i]> (items vi)) vi))
    else (false, s)
  | None =>
    let '(ver, vi) := new_version vi (VertexVersion 0 0 None) in
    (true, set_vertex_index s
       (set_heads (delta_heads_ vi ++ [dh_invalid]) (set_items (items vi ++ [VItem (Some ver) NORMAL false]) vi)))
  end.

Fixpoint delete_neighbors (s : bw_graph_db_t) (now v : Z) (ns : list Z) : option bw_graph_db_t :=
  match ns with
  | [] => Some s
  | n :: ns =>
    '(_, s) ← delete_edge s now v n;
    '(_, s) ← delete_edge s now n v;
    delete_neighbors s now v ns
  end.

(** [is_giant_vertex] is false for the vertex just marked deleted, so the base
    list is read from the CSR page or, for a giant type, from the giant store;
    deltas are not consulted. *)
Definition delete_vertex (s : bw_graph_db_t) (now v : Z) (remove_neighbors : bool) :
    option (bool * bw_graph_db_t) :=
  match item_of s v with
  | None => Some (false, s)
  | Some i =>
    if is_delete i then Some (false, s)
    else
      let vi := vertex_index s in
      let s := set_vertex_index s (set_items (<[Z.to_nat v := VIndex.mark_deleted i]> (items vi)) vi) in
      if remove_neighbors && negb (is_giant_vertex (vertex_index s) (Z.to_nat v)) then
        '(ns, s) ← read_neighbor s v;
        s ← delete_neighbors s now v ns;
        Some (true, s)
      else Some (true, s)
  end.

(** Votes for the neighbours' most frequent page; the first to reach the
    maximum wins. *)
Fixpoint best_page (vi : vertex_index_t) (ns : list Z) (count : gmap Z Z) (best max_count : Z) : option Z :=
  match ns with
  | [] => Some best
  | n :: ns =>
    loc ← get_vertex_location vi (Z.to_nat n);
    let c := u32 (default 0 (count !! loc.1) + 1) in
    let count := <[loc.1 := c]> count in
    if max_count <? c then best_page vi ns count loc.1 c else best_page vi ns count best max_count
  end.

Fixpoint insert_edges (s : bw_graph_db_t) (now src : Z) (dsts : list Z) : option bw_graph_db_t :=
  match dsts with
  | [] => Some s
  | d :: dsts => '(_, s) ← insert_edge s now src d; insert_edges s now src dsts
  end.

Definition insert_vertex_with_neighbors (s : bw_graph_db_t) (now : Z) (ns : list Z) :
    option (Z * bw_graph_db_t) :=
  let '(v, vi) := allocate_new_vertex (vertex_index s) in
  page ← best_page vi ns ∅ 0 0;
  vi ← update_vertex_loc vi (Z.to_nat v) page 0;
  s ← insert_edges (set_vertex_index s vi) now v ns;
  Some (v, s).

End Db.
End DB.
