(* ===== verification/EdgeOps.v ===== *)
(** * Edge updates and neighbour reads refine operations on neighbour sets

    The abstract state of the database is the set of neighbours of every
    vertex: a base list (CSR page or giant store) and the vertex's delta chain,
    newest record first, applied from the oldest to the newest. *)

From S2P Require Import Prelude Config DeltaPage VertexIndex PageMap CsrPage Db.

Local Open Scope Z_scope.

Module EdgeOps.
Import Delta VIndex PMap Csr DB.

(** ** Delta chains *)

Definition link_of (r : delta_record_t) : delta_head_t := DeltaHead (next_page_no r) (next_record_idx r).

Inductive chain_at (ps : gmap Z delta_page_t) : delta_head_t -> list delta_record_t -> Prop :=
  | chain_end h : ptr_is_valid h = false -> chain_at ps h []
  | chain_link h r rs : ptr_is_valid h = true -> loc_holds ps h r -> chain_at ps (link_of r) rs ->
      chain_at ps h (r :: rs).

#[export] Hint Constructors chain_at : bw.

Lemma loc_holds_det ps h r r' : loc_holds ps h r -> loc_holds ps h r' -> r = r'.
Proof. intros (_ & p & Hp & Hr) (_ & q & Hq & Hr'). simplify_eq. congruence. Qed.

Lemma chain_at_det ps h rs rs' : chain_at ps h rs -> chain_at ps h rs' -> rs = rs'.
Proof.
  intros H. revert rs'. induction H as [h Hv|h r rs Hv Hr Hc IH]; intros rs' H'; inversion H'; subst;
    try congruence.
  assert (r0 = r) as -> by by eapply loc_holds_det. f_equal. auto.
Qed.

Lemma chain_at_ext ps ps' h rs : pages_ext ps ps' -> chain_at ps h rs -> chain_at ps' h rs.
Proof. intros Hext. induction 1; econstructor; eauto using loc_holds_ext. Qed.

(** ** The specification of a chain *)

(** The records applied to a set, from the oldest (last) to the newest. *)
Fixpoint ops_set (base : gset Z) (rs : list delta_record_t) : gset Z :=
  match rs with
  | [] => base
  | r :: rs =>
    match target r, type r with
    | EDGE, INSERT => {[second r]} ∪ ops_set base rs
    | EDGE, DELETE => ops_set base rs ∖ {[second r]}
    | VERTEX, _ => ops_set base rs
    end
  end.

(** The newest operation on destination [x]. *)
Fixpoint newest_op (rs : list delta_record_t) (x : Z) : option delta_type_t :=
  match rs with
  | [] => None
  | r :: rs => if bool_decide (target r = EDGE) && bool_decide (second r = x) then Some (type r) else newest_op rs x
  end.

Lemma elem_of_ops_set base rs x :
  x ∈ ops_set base rs <-> match newest_op rs x with
    | Some INSERT => True | Some DELETE => False | None => x ∈ base end.
Proof.
  induction rs as [|r rs IH]; [done|]. cbn [ops_set newest_op].
  destruct (target r); [done|]. rewrite bool_decide_eq_true_2 by done. cbn [andb]. case_bool_decide as Hx; destruct (type r); set_solver.
Qed.

Lemma ops_set_app base rs1 rs2 : ops_set base (rs1 ++ rs2) = ops_set (ops_set base rs2) rs1.
Proof.
  induction rs1 as [|r rs1 IH]; [done|]. cbn [app ops_set]. rewrite IH. done.
Qed.

Section Chains.
Context `{cfg : Config}.

(** What the walk accumulates, by the newest operations. *)
Lemma walk_chain_spec ps h rs :
  (forall n p, ps !! n = Some p -> wf_page p) -> chain_at ps h rs ->
  forall fuel ins dels seen, (length rs <= fuel)%nat ->
  exists ins' dels', walk_chain fuel ps h ins dels seen = Some (ins', dels') /\
    (forall x, x ∈ ins' <-> x ∈ ins \/ ((x ∉ seen) /\ newest_op rs x = Some INSERT)) /\
    (forall x, x ∈ dels' <-> x ∈ dels \/ ((x ∉ seen) /\ newest_op rs x = Some DELETE)).
Proof.
  intros Hwf. induction 1 as [h Hv|h r rs Hv (Hi & p & Hp & Hr) Hc IH]; intros fuel ins dels seen Hf.
  { exists ins, dels. destruct fuel; cbn; rewrite Hv; split; [done| |done|]; split; intros x;
      (split; [auto|]); by intros [?|[_ ?]]. }
  destruct fuel as [|fuel]; cbn [length] in Hf; [lia|]. cbn [walk_chain]. rewrite Hv, Hp.
  cbn [mbind option_bind]. destruct (get_record_wf p (dh_record_idx h) (Hwf _ _ Hp) Hi) as (-> & _ & _).
  rewrite Hr. cbn [mbind option_bind]. fold (link_of r). cbn [newest_op].
  destruct (bool_decide_reflect (target r = EDGE)) as [Ht|Ht]; cbn [andb].
  2:{ apply IH. lia. }
  destruct (bool_decide_reflect (second r ∈ seen)) as [Hs|Hs]; cbn [negb].
  - destruct (IH fuel ins dels seen) as (ins' & dels' & -> & H1 & H2); [lia|].
    exists ins', dels'. split; [done|]. split; intros x; [rewrite H1|rewrite H2];
      case_bool_decide; subst; clear IH; naive_solver.
  - destruct (type r) eqn:Ety.
    + destruct (IH fuel (ins ++ [second r]) dels ({[second r]} ∪ seen)) as (ins' & dels' & -> & H1 & H2); [lia|].
      exists ins', dels'. split; [done|]. split; intros x; [rewrite H1|rewrite H2];
        rewrite ?elem_of_app, ?list_elem_of_singleton, ?elem_of_union, ?elem_of_singleton;
        case_bool_decide; subst; clear IH; naive_solver.
    + destruct (IH fuel ins ({[second r]} ∪ dels) ({[second r]} ∪ seen)) as (ins' & dels' & -> & H1 & H2); [lia|].
      exists ins', dels'. split; [done|]. split; intros x; [rewrite H1|rewrite H2];
        rewrite ?elem_of_union, ?elem_of_singleton;
        case_bool_decide; subst; clear IH; naive_solver.
Qed.

Lemma loc_holds_ptr_valid ps h r :
  (forall n p, ps !! n = Some p -> wf_page p) -> loc_holds ps h r -> dh_is_valid h = true ->
  ptr_is_valid h = true.
Proof.
  intros Hwf (Hi & p & Hp & Hr) Hv. unfold ptr_is_valid. unfold dh_is_valid in Hv. rewrite Hv. cbn [andb].
  apply lookup_lt_Some in Hr. rewrite length_contents in Hr. destruct (Hwf _ _ Hp).
  unfold INVALID_DELTA_RECORD_IDX. apply negb_true_iff, Z.eqb_neq. lia.
Qed.

End Chains.

(** ** The database *)

Section Db.
Context {A G SK : Type} `{cfg : Config} `{!PageAllocator A (Z.of_nat DELTA_PAGE_SIZE)}
  `{!GiantStore G} `{!UpdateSketch SK}.

Abbreviation db := (bw_graph_db_t (A := A) (G := G) (SK := SK)).

Definition head_of (s : db) (v : Z) : option delta_head_t := delta_heads_ (vertex_index s) !! Z.to_nat v.

Definition location_of (s : db) (v : Z) : option (Z * Z) := get_vertex_location (vertex_index s) (Z.to_nat v).

(** The base list of a vertex. *)
Definition base_of (s : db) (v : Z) : option (list Z) :=
  item ← item_of s v;
  loc ← location_of s v;
  p ← csr_pages s !! loc.1;
  if is_giant item then g_stored (giant_db s) v else Some (page_neighbors p loc.2).

(** The abstract neighbour set. *)
Definition neighbors (s : db) (v : Z) (X : gset Z) : Prop :=
  exists base h rs, base_of s v = Some base /\ head_of s v = Some h /\
    chain_at (pages (page_map_table s)) h rs /\ X = ops_set (list_to_set base) rs.

Lemma neighbors_det s v X Y : neighbors s v X -> neighbors s v Y -> X = Y.
Proof.
  intros (b & h & rs & Hb & Hh & Hc & ->) (b' & h' & rs' & Hb' & Hh' & Hc' & ->). simplify_eq.
  by rewrite (chain_at_det _ _ _ _ Hc Hc').
Qed.

Definition vertex_ok (s : db) (v : Z) : Prop :=
  exists base h rs, base_of s v = Some base /\ head_of s v = Some h /\ wf_loc h /\
    chain_at (pages (page_map_table s)) h rs /\ Forall (fun r => first r = v) rs.

Definition vertex_count (s : db) : Z := Z.of_nat (length (items (vertex_index s))).

Record db_inv (s : db) : Prop := {
  i_pm : pm_wf (page_map_table s);
  i_sketch : is_Some (vertex_update_sketch_ s);
  i_ids : vertex_count s <= 2 ^ 32;
  i_vertex : forall v, 0 <= v < vertex_count s -> vertex_ok s v
}.

Lemma inv_neighbors s v : db_inv s -> 0 <= v < vertex_count s -> exists X, neighbors s v X.
Proof.
  intros Hi Hv. destruct (i_vertex s Hi v Hv) as (b & h & rs & Hb & Hh & _ & Hc & _).
  eexists. exists b, h, rs. eauto.
Qed.

(** States that agree on what the neighbour sets depend on. *)
Record same_view (s s' : db) : Prop := {
  sv_items : items (vertex_index s') = items (vertex_index s);
  sv_versions : versions (vertex_index s') = versions (vertex_index s);
  sv_csr : csr_pages s' = csr_pages s;
  sv_giants : forall v, g_stored (giant_db s') v = g_stored (giant_db s) v
}.

#[export] Instance same_view_preorder : PreOrder same_view.
Proof.
  split; [by constructor|]. intros s1 s2 s3 [] []. constructor; congruence.
Qed.

Lemma same_view_base s s' v : same_view s s' -> base_of s' v = base_of s v.
Proof.
  intros [H1 H2 H3 H4]. unfold base_of, location_of, item_of, get_vertex_location, protect_vertex_version.
  by rewrite H1, H2, H3, H4.
Qed.

Lemma same_view_count s s' : same_view s s' -> vertex_count s' = vertex_count s.
Proof. intros [H1 _ _ _]. unfold vertex_count. by rewrite H1. Qed.

(** A step that only extends delta pages and keeps the heads. *)
Lemma quiet_step s s' :
  same_view s s' -> delta_heads_ (vertex_index s') = delta_heads_ (vertex_index s) ->
  pages_ext (pages (page_map_table s)) (pages (page_map_table s')) ->
  pm_wf (page_map_table s') -> is_Some (vertex_update_sketch_ s') ->
  db_inv s -> db_inv s' /\ forall v X, neighbors s v X -> neighbors s' v X.
Proof.
  intros Hv Hh Hp Hpm Hsk Hi. split.
  - constructor; [done|done|by rewrite (same_view_count _ _ Hv); apply Hi|].
    intros v. rewrite (same_view_count _ _ Hv). intros Hr.
    destruct (i_vertex s Hi v Hr) as (b & h & rs & ? & ? & ? & ? & ?). exists b, h, rs.
    rewrite (same_view_base _ _ _ Hv). unfold head_of. rewrite Hh. eauto 10 using chain_at_ext.
  - intros v X (b & h & rs & ? & ? & ? & ->). exists b, h, rs.
    rewrite (same_view_base _ _ _ Hv). unfold head_of. rewrite Hh. eauto 10 using chain_at_ext.
Qed.

(** *** Reading *)

Lemma clone_base_spec s v base h :
  db_inv s -> base_of s v = Some base -> head_of s v = Some h ->
  exists s', clone_base s v = Some (base, h, s') /\ same_view s s' /\
    vertex_index s' = vertex_index s /\ page_map_table s' = page_map_table s /\
    is_Some (vertex_update_sketch_ s').
Proof.
  intros Hi Hb Hh. destruct (i_sketch s Hi) as [sk Hsk]. unfold clone_base, read_neighbor_with_delta.
  unfold base_of, location_of, head_of in *. destruct (item_of s v) as [item|]; [|done]. cbn in Hb |- *.
  destruct (get_vertex_location _ _) as [loc|]; [|done]. cbn in Hb |- *.
  destruct (csr_pages s !! loc.1) as [p|]; [|done]. cbn in Hb. rewrite Hh, Hsk. cbn.
  destruct (is_giant item).
  - pose proof (g_clone_stored (giant_db s) v) as Hc. pose proof (g_clone_keeps (giant_db s) v) as Hk.
    destruct (g_read_neighbor_clone (giant_db s) v) as [ns g]. cbn in Hc, Hk |- *. subst ns.
    rewrite Hb. cbn. eexists. split; [done|]. cbn. rewrite Hsk. split; [by constructor|eauto].
  - injection Hb as ->. eexists. split; [done|]. unfold record_read, set_sketch; cbn. rewrite Hsk. cbn.
    split; [by constructor|eauto].
Qed.

(** C6: a neighbour read walks the vertex's delta chain to its end (it
    terminates for any fuel from some bound on) and returns, as a set, exactly
    the abstract neighbours of the vertex: the base list with the chain's
    operations applied in the order they were issued, the newest operation on
    each destination deciding; it disturbs no vertex. *)
Theorem read_neighbor_clone_set s v X :
  db_inv s -> 0 <= v < vertex_count s -> neighbors s v X ->
  exists n, forall fuel, (n <= fuel)%nat ->
    exists l s', read_neighbor_clone fuel s v = Some (l, s') /\ list_to_set l = X /\
      db_inv s' /\ forall w Y, neighbors s w Y -> neighbors s' w Y.
Proof.
  intros Hi Hr (b & h & rs & Hb & Hh & Hc & ->). exists (length rs). intros fuel Hf.
  destruct (clone_base_spec s v b h Hi Hb Hh) as (s' & Hcb & Hv & Hvi & Hpm & Hsk).
  unfold read_neighbor_clone. rewrite Hcb. cbn [mbind option_bind]. rewrite Hpm.
  destruct (walk_chain_spec _ _ _ (w_pages _ (i_pm s Hi)) Hc fuel [] ∅ ∅ Hf)
    as (ins & dels & -> & Hins & Hdels). cbn [mbind option_bind].
  eexists _, s'. split; [done|]. split.
  - apply set_eq. intros x. rewrite elem_of_list_to_set, elem_of_app, !list_elem_of_filter, elem_of_ops_set.
    rewrite Hins, Hdels. destruct (newest_op rs x) as [[]|]; rewrite ?elem_of_list_to_set; set_solver.
  - apply quiet_step; [done|by rewrite Hvi|by rewrite Hpm|rewrite Hpm; by apply Hi|done|done].
Qed.

(** *** Prepending a record *)

Hypothesis Hsize : page_size_ok.

(** The record as it is stored: linked in front of [h]. *)
Definition linked (r : delta_record_t) (h : delta_head_t) : delta_record_t :=
  DeltaRecord (target r) (type r) (first r) (second r) (time r) (dh_page_no h) (dh_record_idx h).

Lemma linked_wf r h : wf_record r -> wf_loc h -> wf_record (linked r h).
Proof. unfold wf_record, wf_loc; cbn. tauto. Qed.

Lemma link_of_linked r h : link_of (linked r h) = h.
Proof. by destruct h. Qed.

(** Replacing the chain of [src] by one with one more record. *)
Lemma prepend_head s src (m' : page_map_t) d r h rs tgt :
  db_inv s -> 0 <= src < vertex_count s -> head_of s src = Some h ->
  chain_at (pages (page_map_table s)) h rs -> Forall (fun r => first r = src) rs -> first r = src ->
  inserted (page_map_table s) m' tgt (linked r h) d ->
  let s' := set_vertex_index (set_page_map s m') (set_delta_head (vertex_index s) src d) in
  db_inv s' /\ same_view s s' /\ head_of s' src = Some d /\
  chain_at (pages m') d (linked r h :: rs) /\
  (forall v, v <> src -> 0 <= v < vertex_count s -> head_of s' v = head_of s v).
Proof.
  intros Hi Hsrc Hh Hc Hf Hr [Hap Hho Hva Hlo] s'.
  pose proof (ap_ext _ _ _ _ Hap) as Hext. cbn [set_forwarders pages] in Hext.
  assert (Hwf' : pm_wf m') by exact (set_forwarders_wf_inv _ _ (ap_wf _ _ _ _ Hap)).
  assert (Hv : same_view s s') by by constructor.
  assert (Hd : head_of s' src = Some d).
  { unfold head_of, s'; cbn. apply list_lookup_insert_eq. unfold head_of in Hh. by eapply lookup_lt_Some. }
  assert (Hne : forall v, v <> src -> 0 <= v < vertex_count s -> head_of s' v = head_of s v).
  { intros v Hv1 Hv2. unfold head_of, s'; cbn. apply list_lookup_insert_ne. lia. }
  assert (Hchain : chain_at (pages m') d (linked r h :: rs)).
  { constructor; [eapply loc_holds_ptr_valid; eauto; apply (w_pages _ Hwf')|done|].
    rewrite link_of_linked. by eapply chain_at_ext. }
  split; [|done]. constructor; [done|apply Hi|by rewrite (same_view_count _ _ Hv); apply Hi|].
  intros v. rewrite (same_view_count _ _ Hv). intros Hvr.
  destruct (i_vertex s Hi v Hvr) as (b & h' & rs' & Hb & Hh' & Hw & Hc' & Hf').
  rewrite <- (same_view_base _ _ _ Hv) in Hb.
  destruct (decide (v = src)) as [->|Hvne].
  - exists b, d, (linked r h :: rs). eauto 10.
  - exists b, h', rs'. rewrite Hne by done. eauto 10 using chain_at_ext.
Qed.

Lemma prepend_delta_spec s src r k :
  db_inv s -> 0 <= src < vertex_count s -> wf_record r -> first r = src ->
  room (allocator (page_map_table s)) (S (S k)) ->
  exists loc h d m', location_of s src = Some loc /\ head_of s src = Some h /\
    prepend_delta s src r = Some (loc.1,
      bool_decide (is_Some (forward_hit (page_map_table s) loc.1 src)),
      set_vertex_index (set_page_map s m') (set_delta_head (vertex_index s) src d)) /\
    inserted (page_map_table s) m' (forward_target (page_map_table s) loc.1 src) (linked r h) d /\
    is_Some (csr_pages s !! loc.1) /\ room (allocator m') k /\
    forwarders m' = match forward_hit (page_map_table s) loc.1 src with
      | Some (fid, _) => alter (fun f => note_rerouted_tail f src d) fid (forwarders (page_map_table s))
      | None => forwarders (page_map_table s) end.
Proof.
  intros Hi Hsrc Hr Hfr Hroom. destruct (i_vertex s Hi src Hsrc) as (b & h & rs & Hb & Hh & Hw & Hc & Hf).
  unfold base_of in Hb. destruct (item_of s src) as [item|]; [|done]. cbn in Hb.
  destruct (location_of s src) as [loc|] eqn:El; [|done]. cbn in Hb.
  destruct (csr_pages s !! loc.1) as [p|] eqn:Ep; [|done].
  destruct (insert_delta_with_forward_spec Hsize (page_map_table s) loc.1 src (linked r h) k)
    as (d & m' & Hins & Hin & Hrm & Hfw); [apply Hi|by apply linked_wf|done|].
  exists loc, h, d, m'. split; [done|]. split; [done|]. split; [|split; [done|split; [eauto|split; done]]].
  unfold prepend_delta. unfold location_of in El. unfold head_of in Hh. rewrite El, Hh.
  cbn [mbind option_bind]. unfold linked in Hins. by rewrite Hins.
Qed.

(** Setting a claim or queueing a task changes no vertex. *)
Lemma try_begin_wf m key b m' :
  try_begin_consolidation_for m key = (b, m') -> pm_wf m ->
  pm_wf m' /\ pages m' = pages m /\ allocator m' = allocator m /\ forwarders m' = forwarders m.
Proof.
  unfold try_begin_consolidation_for. intros H Hwf.
  destruct (inner m !! key) as [e|] eqn:E; [destruct (consolidating_ e)|]; injection H as <- <-; auto.
  split; [|done]. destruct Hwf as [W1 W2 W3 W4 W5]. constructor; cbn; auto.
  - intros k f. rewrite lookup_insert. case_decide; [intros [= <-]; subst; cbn; eauto|eauto].
  - intros k1 k2 e1 e2 l1 l2 Hne. rewrite !lookup_insert.
    repeat case_decide; subst; try congruence; intros; simplify_eq/=; eauto.
Qed.

Lemma trigger_spec s src page_no rer :
  db_inv s -> is_Some (csr_pages s !! page_no) ->
  exists s', trigger_consolidation s src page_no rer = Some s' /\ same_view s s' /\
    vertex_index s' = vertex_index s /\ pages (page_map_table s') = pages (page_map_table s) /\
    allocator (page_map_table s') = allocator (page_map_table s) /\
    pm_wf (page_map_table s') /\ vertex_update_sketch_ s' = vertex_update_sketch_ s.
Proof.
  intros Hi [p Hp]. unfold trigger_consolidation. generalize (i_pm s Hi). intros Hpm.
  assert (Hs : same_view s s) by done.
  destruct (_ <? _); [eauto 10|]. destruct (negb _); [eauto 10|]. destruct rer; [eauto 10|].
  destruct (try_begin_consolidation_for _ _) as [[] m'] eqn:E; [|eauto 10].
  rewrite Hp. cbn [mbind option_bind]. eexists. split; [done|].
  destruct (try_begin_wf _ _ _ _ E Hpm) as (? & ? & ? & _).
  split; [by constructor|]. cbn. auto 10.
Qed.

(** *** The edge operations *)

Lemma record_write_view s v :
  db_inv s -> same_view s (record_write s v) /\ db_inv (record_write s v) /\
  forall w X, neighbors s w X <-> neighbors (record_write s v) w X.
Proof.
  intros Hi. destruct (i_sketch s Hi) as [sk Hsk].
  assert (Hv : same_view s (record_write s v)) by by constructor.
  split; [done|]. split.
  - apply (quiet_step s); [done|done|done|apply Hi| |done]. unfold record_write, set_sketch; cbn.
    rewrite Hsk. cbn. eauto.
  - done.
Qed.

(** What an edge operation promises: invariant kept, the source's set changed
    as [f] says, every other vertex untouched. *)
Record edge_step (s s' : db) (src : Z) (f : gset Z -> gset Z) : Prop := {
  es_inv : db_inv s';
  es_view : same_view s s';
  es_src : forall X, neighbors s src X -> neighbors s' src (f X);
  es_other : forall v X, v <> src -> 0 <= v < vertex_count s -> neighbors s v X -> neighbors s' v X
}.

Lemma edge_step_refl s src f : db_inv s -> (forall X, neighbors s src X -> f X = X) -> edge_step s s src f.
Proof. intros Hi Hf. constructor; auto; [done|]. intros X HX. by rewrite Hf. Qed.

(** Prepending an edge record. *)
Lemma prepend_edge s now src dst op k :
  db_inv s -> 0 <= src < vertex_count s -> in_width 32 dst -> in_width 64 now ->
  room (allocator (page_map_table s)) (S (S k)) ->
  exists page_no rer s', prepend_delta s src (new_record now EDGE op src dst) = Some (page_no, rer, s') /\
    is_Some (csr_pages s' !! page_no) /\ room (allocator (page_map_table s')) k /\
    edge_step s s' src (fun X => match op with INSERT => {[dst]} ∪ X | DELETE => X ∖ {[dst]} end).
Proof.
  intros Hi Hsrc Hdst Hnow Hroom.
  assert (Hr : wf_record (new_record now EDGE op src dst)).
  { pose proof (i_ids s Hi). unfold wf_record, new_record, in_width, INVALID_DELTA_PAGE_NO, INVALID_DELTA_RECORD_IDX in *; cbn. lia. }
  destruct (prepend_delta_spec s src _ k Hi Hsrc Hr eq_refl Hroom)
    as (loc & h & d & m' & Hloc & Hh & -> & Hin & Hp & Hrm & _).
  eexists _, _, _. split; [done|]. split; [exact Hp|]. split; [exact Hrm|].
  destruct (i_vertex s Hi src Hsrc) as (b & h' & rs & Hb & Hh' & Hw & Hc & Hf). simplify_eq.
  destruct (prepend_head s src m' d (new_record now EDGE op src dst) h rs _ Hi Hsrc Hh Hc Hf eq_refl Hin) as (Hi' & Hv & Hd & Hch & Hne).
  pose proof (ap_ext _ _ _ _ (in_appends _ _ _ _ _ Hin)) as Hext. cbn [set_forwarders pages] in Hext.
  constructor; [done|done|..].
  - intros X (b' & h' & rs' & Hb' & Hh'' & Hc' & ->). simplify_eq.
    rewrite (chain_at_det _ _ _ _ Hc' Hc). exists b, d. eexists.
    rewrite (same_view_base _ _ _ Hv). split; [done|]. split; [done|]. split; [exact Hch|]. by destruct op.
  - intros v X Hvs Hvr (b' & h' & rs' & Hb' & Hh'' & Hc' & ->). exists b', h', rs'.
    rewrite (same_view_base _ _ _ Hv), Hne by done. eauto using chain_at_ext.
Qed.

Definition live (s : db) (v : Z) : Prop := 0 <= v < vertex_count s /\ vertex_live s v = true.

(** C4: between live vertices [insert_edge] succeeds whenever the delta file
    has room for two pages, adds exactly the destination to the source's
    neighbour set, leaves every other vertex's set unchanged and keeps the
    invariant, also while the source's page is being consolidated (the record
    is then rerouted); otherwise it returns false and does nothing. *)
Theorem insert_edge_refines s now src dst k :
  db_inv s -> 0 <= src -> 0 <= dst -> in_width 64 now ->
  room (allocator (page_map_table s)) (S (S k)) ->
  (live s src /\ live s dst ->
   exists s', insert_edge s now src dst = Some (true, s') /\ edge_step s s' src (fun X => {[dst]} ∪ X) /\
     room (allocator (page_map_table s')) k) /\
  (~ (live s src /\ live s dst) -> insert_edge s now src dst = Some (false, s)).
Proof.
  intros Hi Hs0 Hd0 Hnow Hroom.
  assert (Hlv : forall v, 0 <= v -> live s v <-> vertex_live s v = true).
  { intros v Hv. unfold live. split; [tauto|]. intros H. split; [|done]. split; [done|].
    unfold vertex_live, item_of in H. destruct (items _ !! _) eqn:E; [|done].
    apply lookup_lt_Some in E. unfold vertex_count. lia. }
  rewrite !Hlv by done. unfold insert_edge. split.
  - intros [H1 H2]. rewrite H1, H2. cbn [andb negb].
    apply Hlv in H1 as [Hs _], H2 as [Hd _]; [|done..].
    destruct (record_write_view s src Hi) as (Hv1 & Hi1 & Hn1).
    assert (Hdw : in_width 32 dst) by (pose proof (i_ids s Hi); unfold in_width; lia).
    destruct (prepend_edge (record_write s src) now src dst INSERT k Hi1 Hs Hdw Hnow Hroom)
      as (pno & rer & s2 & -> & Hp & Hrm & E2). cbn [mbind option_bind].
    destruct (trigger_spec s2 src pno rer (es_inv _ _ _ _ E2) Hp)
      as (s3 & -> & Hv3 & Hvi & Hps & Hal & Hpm & Hsk). cbn [mbind option_bind].
    destruct (quiet_step s2 s3 Hv3) as [Hi3 Hn3];
      [by rewrite Hvi|by rewrite Hps|done|rewrite Hsk; apply (i_sketch _ (es_inv _ _ _ _ E2))|apply E2|].
    exists s3. split; [done|]. split; [|by rewrite Hal]. destruct E2 as [_ Ev Es Eo].
    constructor; [done|by etrans; [|etrans]|..].
    + intros X HX. apply Hn3, Es. by apply Hn1.
    + intros v X Hne Hr HX. apply Hn3, Eo; [done|done|]. by apply Hn1.
  - intros Hn. destruct (vertex_live s src), (vertex_live s dst); cbn; tauto.
Qed.

(** C5: [delete_edge] between existing vertices succeeds under the same
    conditions (deletion marks are not consulted), removes exactly the
    destination from the source's set and leaves the others unchanged; it
    returns false when a vertex does not exist. *)
Theorem delete_edge_refines s now src dst k :
  db_inv s -> 0 <= src -> 0 <= dst -> in_width 64 now ->
  room (allocator (page_map_table s)) (S (S k)) ->
  (src < vertex_count s /\ dst < vertex_count s ->
   exists s', delete_edge s now src dst = Some (true, s') /\ edge_step s s' src (fun X => X ∖ {[dst]}) /\
     room (allocator (page_map_table s')) k) /\
  (~ (src < vertex_count s /\ dst < vertex_count s) -> delete_edge s now src dst = Some (false, s)).
Proof.
  intros Hi Hs0 Hd0 Hnow Hroom.
  assert (Hlv : forall v, 0 <= v -> in_range s v = true <-> v < vertex_count s).
  { intros v Hv. unfold in_range, item_of, vertex_count.
    destruct (items _ !! _) eqn:E; [apply lookup_lt_Some in E|apply lookup_ge_None in E];
      split; intros; try done; lia. }
  rewrite <- !Hlv by done. unfold delete_edge. split.
  - intros [H1 H2]. rewrite H1, H2. cbn [andb negb]. apply Hlv in H1, H2; [|done..].
    destruct (i_sketch s Hi) as [sk Hsk]. rewrite Hsk. cbn [mbind option_bind].
    destruct (record_write_view s src Hi) as (Hv1 & Hi1 & Hn1).
    assert (Hdw : in_width 32 dst) by (pose proof (i_ids s Hi); unfold in_width; lia).
    destruct (prepend_edge (record_write s src) now src dst DELETE k Hi1 ltac:(done) Hdw Hnow Hroom)
      as (pno & rer & s2 & -> & Hp & Hrm & E2). cbn [mbind option_bind].
    exists s2. split; [done|]. split; [|done]. destruct E2 as [Ei Ev Es Eo].
    constructor; [done|by etrans|..].
    + intros X HX. apply Es. by apply Hn1.
    + intros v X Hne Hr HX. apply Eo; [done|done|]. by apply Hn1.
  - intros Hn. destruct (in_range s src), (in_range s dst); cbn; tauto.
Qed.

End Db.
End EdgeOps.
