(* ===== verification/Chains.v ===== *)
(** * Cutting delta chains

    Publishing a consolidated vertex clears the link of the oldest record it
    received meanwhile, in place, so that its chain ends there.  This file
    shows what the cut does to that chain, to the chains of the other vertices
    and to the records of the CSR pages. *)

From S2P Require Import Prelude Config DeltaPage VertexIndex PageMap Db EdgeOps.

Local Open Scope Z_scope.

Module Chains.
Import Delta VIndex PMap DB EdgeOps.

(** ** Operations without their links *)

Definition op_of (r : delta_record_t) : delta_target_t * delta_type_t * Z := (target r, type r, second r).

Abbreviation ops_of := (fmap op_of).

Lemma ops_set_ops B rs rs' : ops_of rs = ops_of rs' -> ops_set B rs = ops_set B rs'.
Proof.
  revert rs'. induction rs as [|r rs IH]; intros [|r' rs'] E; try done. cbn in E. injection E as E1 E2 E3 E4.
  cbn [ops_set]. by rewrite E1, E2, E3, (IH rs').
Qed.

(** Applying the same operations again changes nothing. *)
Lemma ops_set_idem B rs : ops_set (ops_set B rs) rs = ops_set B rs.
Proof.
  apply set_eq. intros x. rewrite !elem_of_ops_set. destruct (newest_op rs x) as [[]|] eqn:E; try done.
  by rewrite elem_of_ops_set, E.
Qed.

Definition rec_sim (r r' : delta_record_t) : Prop := op_of r' = op_of r /\ first r' = first r.

#[export] Instance rec_sim_refl : Reflexive rec_sim.
Proof. done. Qed.

Definition of_vertex (v : Z) (rs : list delta_record_t) : list delta_record_t := filter (fun r => first r = v) rs.

Lemma of_vertex_sim v rs rs' : Forall2 rec_sim rs rs' -> ops_of (of_vertex v rs') = ops_of (of_vertex v rs).
Proof.
  induction 1 as [|r r' rs rs' [Ho Hf] _ IH]; [done|]. unfold of_vertex in *. rewrite !filter_cons, Hf.
  case_decide; cbn; [by rewrite Ho, IH|done].
Qed.

Lemma ops_sim rs rs' : Forall2 rec_sim rs rs' -> ops_of rs' = ops_of rs.
Proof. induction 1 as [|r r' rs rs' [Ho _] _ IH]; [done|]. cbn. by rewrite Ho, IH. Qed.

Lemma first_sim v rs rs' : Forall2 rec_sim rs rs' -> Forall (fun r => first r = v) rs -> Forall (fun r => first r = v) rs'.
Proof.
  induction 1 as [|r r' rs rs' [_ Hf] _ IH]; [done|]. intros H. apply Forall_cons in H as [? ?].
  constructor; [congruence|auto].
Qed.

Lemma rec_sim_list rs : Forall2 rec_sim rs rs.
Proof. induction rs; by constructor. Qed.

Lemma ops_of_reverse rs : ops_of (reverse rs) = reverse (ops_of rs).
Proof. apply fmap_reverse. Qed.

(** ** Segments of chains *)

(** From [h], the records [rs] lead to location [h']. *)
Inductive chain_seg (ps : gmap Z delta_page_t) : delta_head_t -> list delta_record_t -> delta_head_t -> Prop :=
  | seg_nil h : chain_seg ps h [] h
  | seg_cons h r rs h' : ptr_is_valid h = true -> loc_holds ps h r -> chain_seg ps (link_of r) rs h' ->
      chain_seg ps h (r :: rs) h'.

#[export] Hint Constructors chain_seg : bw.

Lemma chain_seg_app ps h rs h' rs' : chain_seg ps h rs h' -> chain_at ps h' rs' -> chain_at ps h (rs ++ rs').
Proof. induction 1; [done|]. intros. cbn. constructor; auto. Qed.

Lemma chain_seg_ext ps ps' h rs h' : pages_ext ps ps' -> chain_seg ps h rs h' -> chain_seg ps' h rs h'.
Proof. intros He. induction 1; econstructor; eauto using loc_holds_ext. Qed.

(** [b] holds the last of the records [new]; [old] follows it. *)
Definition boundary_at (ps : gmap Z delta_page_t) (h : delta_head_t) (new : list delta_record_t)
    (b : delta_head_t) (old : list delta_record_t) : Prop :=
  exists front l, new = front ++ [l] /\ chain_seg ps h front b /\ dh_is_valid b = true /\ ptr_is_valid b = true /\
    loc_holds ps b l /\ chain_at ps (link_of l) old.

Lemma boundary_chain ps h new b old : boundary_at ps h new b old -> chain_at ps h (new ++ old).
Proof.
  intros (front & l & -> & Hs & _ & Hv & Hl & Hc). rewrite <- app_assoc. eapply chain_seg_app; [done|].
  by constructor.
Qed.

Lemma boundary_ext ps ps' h new b old : pages_ext ps ps' -> boundary_at ps h new b old -> boundary_at ps' h new b old.
Proof.
  intros He (front & l & ? & ? & ? & ? & ? & ?). exists front, l.
  eauto 10 using chain_seg_ext, loc_holds_ext, chain_at_ext.
Qed.

(** One more record in front. *)
Lemma boundary_cons ps h d r new b old :
  boundary_at ps h new b old -> ptr_is_valid d = true -> loc_holds ps d r -> link_of r = h ->
  boundary_at ps d (r :: new) b old.
Proof.
  intros (front & l & -> & Hs & ? & ? & ? & ?) Hd Hr <-. exists (r :: front), l. split; [done|].
  split; [by constructor|done].
Qed.

(** ** The cut *)

(** The record at [b] lost its link; nothing else changed. *)
Record pages_cut (ps ps' : gmap Z delta_page_t) (b : delta_head_t) : Prop := {
  pc_dom : dom ps' = dom ps;
  pc_page : forall n p, ps !! n = Some p -> exists p', ps' !! n = Some p' /\
    next_delta_page_ p' = next_delta_page_ p /\
    contents p' = (if decide (n = dh_page_no b) then alter clear_link (Z.to_nat (dh_record_idx b)) (contents p)
                   else contents p)
}.

Section Cut.
Variables (ps ps' : gmap Z delta_page_t) (b : delta_head_t) (l : delta_record_t).
Hypothesis Hcut : pages_cut ps ps' b.
Hypothesis Hb : loc_holds ps b l.

Lemma cut_loc h r : loc_holds ps h r -> (h = b /\ r = l) \/ loc_holds ps' h r.
Proof.
  intros (Hi & p & Hp & Hr). destruct Hb as (Hbi & q & Hq & Hl).
  destruct (pc_page _ _ _ Hcut _ _ Hp) as (p' & Hp' & _ & Hc).
  destruct (decide (h = b)) as [->|Hne]; [left; split; [done|]; simplify_eq; congruence|].
  right. split; [done|]. exists p'. split; [done|]. rewrite Hc. case_decide as Hn; [|done].
  rewrite list_lookup_alter_ne; [done|]. intros Hidx. apply Hne. destruct h, b; cbn in *. f_equal; [done|lia].
Qed.

Lemma cut_here : loc_holds ps' b (clear_link l).
Proof.
  destruct Hb as (Hbi & q & Hq & Hl). destruct (pc_page _ _ _ Hcut _ _ Hq) as (p' & Hp' & _ & Hc).
  split; [done|]. exists p'. split; [done|]. rewrite Hc, decide_True by done.
  by rewrite list_lookup_alter, decide_True, Hl by done.
Qed.

(** Chains of other vertices do not pass through [b]. *)
Lemma cut_chain_other w h rs :
  first l <> w -> Forall (fun r => first r = w) rs -> chain_at ps h rs -> chain_at ps' h rs.
Proof.
  intros Hw Hf Hc. revert Hf. induction Hc as [h Hv|h r rs Hv Hr Hc IH]; intros Hf; [by constructor|].
  apply Forall_cons in Hf as [Hr1 Hf]. constructor; [done| |auto].
  destruct (cut_loc h r Hr) as [[_ ->]|?]; [congruence|done].
Qed.

Lemma cut_seg_other w h rs h' :
  first l <> w -> Forall (fun r => first r = w) rs -> chain_seg ps h rs h' -> chain_seg ps' h rs h'.
Proof.
  intros Hw Hf Hc. revert Hf. induction Hc as [h|h r rs h' Hv Hr Hc IH]; intros Hf; [by constructor|].
  apply Forall_cons in Hf as [Hr1 Hf]. constructor; [done| |auto].
  destruct (cut_loc h r Hr) as [[_ ->]|?]; [congruence|done].
Qed.

Lemma cut_boundary_other w h new b' old :
  first l <> w -> Forall (fun r => first r = w) (new ++ old) -> boundary_at ps h new b' old ->
  boundary_at ps' h new b' old.
Proof.
  intros Hw Hf (front & l' & -> & Hs & Hd & Hv & Hl & Hc). rewrite !Forall_app, Forall_singleton in Hf.
  destruct Hf as [[Hf Hfl] Hfo]. exists front, l'. split; [done|]. split; [by eapply cut_seg_other|]. split; [done|].
  split; [done|]. split; [|by eapply cut_chain_other].
  destruct (cut_loc b' l' Hl) as [[_ ->]|?]; [congruence|done].
Qed.

Lemma cut_seg_front old front : chain_at ps b (l :: old) ->
  forall h, chain_seg ps h front b -> chain_seg ps' h front b.
Proof.
  intros Hbc. induction front as [|r rs IH]; intros h Hs; inversion Hs; subst; constructor; auto.
  destruct (cut_loc h r) as [[-> _]|?]; [done| |done]. exfalso.
  pose proof (chain_seg_app _ _ _ _ _ Hs Hbc) as Hc. pose proof (chain_at_det _ _ _ _ Hc Hbc) as E.
  apply (f_equal length) in E. rewrite length_app in E. cbn in E. lia.
Qed.

(** The vertex's own chain ends at the boundary. *)
Lemma cut_boundary h new old :
  boundary_at ps h new b old -> exists new', chain_at ps' h new' /\ Forall2 rec_sim new new'.
Proof.
  intros (front & l' & -> & Hs & Hd & Hv & Hl & Hc). assert (l' = l) as -> by by eapply loc_holds_det.
  exists (front ++ [clear_link l]). split.
  - eapply chain_seg_app.
    + apply (cut_seg_front old); [by constructor|done].
    + constructor; [done|apply cut_here|]. by constructor.
  - apply Forall2_app; [|by repeat constructor]. clear. induction front; constructor; auto. done.
Qed.

Lemma cut_page_chain c lst : page_chain ps c lst -> page_chain ps' c lst.
Proof.
  induction 1 as [|n p lst Hp Hc IH]; [constructor|].
  destruct (pc_page _ _ _ Hcut _ _ Hp) as (p' & Hp' & Hn & _). econstructor; [done|]. by rewrite Hn.
Qed.

Lemma alter_sim i (rs : list delta_record_t) : Forall2 rec_sim rs (alter clear_link i rs).
Proof.
  revert i. induction rs as [|r rs IH]; intros i; [constructor|]. destruct i; cbn.
  - constructor; [done|]. clear. induction rs; constructor; auto. done.
  - constructor; [done|apply IH].
Qed.

Lemma cut_records lst : (forall n, n ∈ lst -> is_Some (ps !! n)) ->
  Forall2 rec_sim (records_of ps lst) (records_of ps' lst).
Proof.
  induction lst as [|n lst IH]; intros Hs; [constructor|]. rewrite !records_of_cons. apply Forall2_app.
  - apply IH. intros. apply Hs. by right.
  - destruct (Hs n) as [p Hp]; [by left|]. destruct (pc_page _ _ _ Hcut _ _ Hp) as (p' & Hp' & _ & Hc).
    unfold page_records. rewrite Hp, Hp'. cbn [from_option]. rewrite Hc. case_decide; [apply alter_sim|].
    clear. induction (contents p); constructor; auto. done.
Qed.

End Cut.

(** ** [truncate_chain_at] *)

Section Truncate.
Context {A : Type} `{cfg : Config} `{!PageAllocator A (Z.of_nat DELTA_PAGE_SIZE)}.

Lemma truncate_spec (m : page_map_t (A := A)) b l :
  pm_wf m -> loc_holds (pages m) b l -> dh_is_valid b = true ->
  let m' := truncate_chain_at m b in
  pm_wf m' /\ pages_cut (pages m) (pages m') b /\ inner m' = inner m /\ allocator m' = allocator m /\
  forwarders m' = forwarders m /\
  forall k rs, entry_recs m k rs -> exists rs', entry_recs m' k rs' /\ Forall2 rec_sim rs rs'.
Proof.
  intros Hwf Hb Hv m'. unfold m', truncate_chain_at. rewrite Hv.
  set (ps' := alter (fun p => clear_record_next p (dh_record_idx b)) (dh_page_no b) (pages m)).
  pose proof Hb as (Hi & q & Hq & Hl).
  assert (Hq2 : wf_page (clear_record_next q (dh_record_idx b)) /\
    contents (clear_record_next q (dh_record_idx b)) = alter clear_link (Z.to_nat (dh_record_idx b)) (contents q) /\
    page_no (clear_record_next q (dh_record_idx b)) = page_no q /\
    next_delta_page_ (clear_record_next q (dh_record_idx b)) = next_delta_page_ q).
  { apply clear_record_next_wf; [by eapply w_pages|]. apply lookup_lt_Some in Hl.
    rewrite length_contents in Hl. pose proof (wf_pos q (w_pages _ Hwf _ _ Hq)). lia. }
  destruct Hq2 as (Hw & Hc & _ & Hn).
  assert (Hcut : pages_cut (pages m) ps' b).
  { constructor; [apply dom_alter_L|]. intros n p Hp. unfold ps'. rewrite lookup_alter.
    case_decide as E; [subst n|by exists p; rewrite decide_False by congruence].
    rewrite Hq in Hp. injection Hp as <-. rewrite Hq, decide_True by done. cbn. eauto. }
  assert (Hback : forall c lst lst0, page_chain (pages m) c lst0 -> page_chain ps' c lst -> lst = lst0).
  { intros c lst lst0 H1 H2. eapply page_chain_det; [exact H2|]. by apply (cut_page_chain _ _ _ Hcut). }
  split; [|split; [done|split; [done|split; [done|split; [done|]]]]].
  - destruct Hwf as [W1 W2 W3 W4 W5]. constructor; cbn; rewrite ?(pc_dom _ _ _ Hcut); auto.
    + intros n p. unfold ps'. rewrite lookup_alter. case_decide as E; [|apply W1]. subst n. rewrite Hq.
      cbn. by intros [= <-].
    + intros k e He. destruct (W4 k e He) as (lst & Hl2 & ?). exists lst. split; [|done].
      by apply (cut_page_chain _ _ _ Hcut).
    + intros k1 k2 e1 e2 l1 l2 Hne H1 H2 Hl1 Hl2. destruct (W4 _ _ H1) as (l1' & Hl1' & _), (W4 _ _ H2) as (l2' & Hl2' & _).
      rewrite (Hback _ _ _ Hl1' Hl1), (Hback _ _ _ Hl2' Hl2). by eapply (W5 k1 k2).
  - intros k rs. unfold entry_recs; cbn. destruct (inner m !! k) as [e|]; [|intros ->; eauto].
    intros (lst & Hl2 & ->). eexists. split; [eexists; split; [by apply (cut_page_chain _ _ _ Hcut)|done]|].
    apply (cut_records _ _ _ Hcut). intros n Hn2. by eapply page_chain_elem.
Qed.

End Truncate.
End Chains.
