(* ===== verification/GiantDb.v ===== *)
(** * The giant-vertex store ([db/external.h], [external.cc])

    Neighbour lists too large for a CSR page are kept in RocksDB under
    ["v:<id>"], sorted, delta-encoded and packed four at a time; updates can
    also be appended as delta records under ["d:<id>:<timestamp>"].  RocksDB
    and folly's Group Varint are not part of the repository: they are the
    classes [RocksDB] and [GroupVarint], whose laws are their documented
    behaviour.  The codec is the portable one (the [#else] of
    [USE_PFORDELTA], which calls a SIMD library).  Errors of RocksDB (which a read
    turns into an empty list) are left out. *)

From stdpp Require Import strings pretty.
From S2P Require Import Prelude Config Db.

Local Open Scope Z_scope.

(** A key-value store: a successful write is visible to every later read, a
    failed one changes nothing; a prefix scan returns the matching entries. *)
Class RocksDB (R : Type) := {
  r_view : R -> gmap string (list Z);
  r_put : R -> string -> list Z -> bool * R;
  r_write : R -> list (string * option (list Z)) -> bool * R;
  r_scan : R -> string -> list (string * list Z);
  r_put_view : forall r k v, r_view (r_put r k v).2 = (if (r_put r k v).1 then <[k := v]> (r_view r) else r_view r);
  r_write_view : forall r b, r_view (r_write r b).2 = (if (r_write r b).1
    then foldl (fun m q => match q.2 with Some v => <[q.1 := v]> m | None => delete q.1 m end) (r_view r) b
    else r_view r);
  r_scan_view : forall r p, r_scan r p ≡ₚ filter (fun q => String.prefix p q.1 = true) (map_to_list (r_view r))
}.

(** Four 32-bit integers at a time. *)
Class GroupVarint := {
  gv_encode : Z -> Z -> Z -> Z -> list Z;
  gv_decode : list Z -> option (Z * Z * Z * Z * list Z);
  gv_law : forall a b c d rest, in_width 32 a -> in_width 32 b -> in_width 32 c -> in_width 32 d ->
    gv_decode (gv_encode a b c d ++ rest) = Some (a, b, c, d, rest)
}.

Module Giant.

Inductive delta_operation_t := ADD_NEIGHBOR | REMOVE_NEIGHBOR.

Record neighbor_delta_t := NeighborDelta { operation : delta_operation_t; neighbor_id : Z; timestamp : Z }.

(** ** The codec *)

(** The byte loop of [encode_vbyte]; [fuel] bounds the number of bytes. *)
Fixpoint vbyte_loop (fuel : nat) (value : Z) : list Z :=
  match fuel with
  | O => []
  | S fuel =>
    if 128 <=? value then u8 (Z.lor (Z.land value 0x7F) 0x80) :: vbyte_loop fuel (Z.shiftr value 7)
    else [u8 (Z.land value 0x7F)]
  end.

(** Ten bytes hold any 64-bit integer. *)
Definition encode_vbyte (value : Z) : list Z := vbyte_loop 10 value.

(** [None]: the bytes end inside the number (the code reads on). [w] is the
    width of the accumulator. *)
Fixpoint decode_loop (w : Z) (bs : list Z) (value shift : Z) : option (Z * list Z) :=
  match bs with
  | [] => None
  | b :: bs =>
    let value := wrap w (Z.lor value (Z.shiftl (Z.land b 0x7F) shift)) in
    if Z.land b 0x80 =? 0 then Some (value, bs) else decode_loop w bs value (shift + 7)
  end.

Definition decode_vbyte (bs : list Z) : option (Z * list Z) := decode_loop 64 bs 0 0.

Section Codec.
Context `{!GroupVarint}.

Fixpoint delta_encode (prev : Z) (ns : list Z) : list Z :=
  match ns with
  | [] => []
  | n :: ns => u32 (n - prev) :: delta_encode n ns
  end.

(** Groups of four, then the remaining values byte by byte. *)
Fixpoint pack (ds : list Z) : list Z :=
  match ds with
  | a :: b :: c :: d :: rest => gv_encode a b c d ++ pack rest
  | _ => mjoin (encode_vbyte <$> ds)
  end.

Definition compress_neighbors (ns : list Z) : list Z :=
  match ns with
  | [] => []
  | n :: rest => pack (n :: delta_encode n rest)
  end.

Fixpoint unpack_bytes (k : nat) (bs : list Z) : option (list Z) :=
  match k with
  | O => Some []
  | S k => '(v, bs) ← decode_loop 32 bs 0 0; vs ← unpack_bytes k bs; Some (v :: vs)
  end.

Fixpoint unpack (k : nat) (bs : list Z) : option (list Z) :=
  match k with
  | S (S (S (S k))) => '(a, b, c, d, bs) ← gv_decode bs; vs ← unpack k bs; Some (a :: b :: c :: d :: vs)
  | k => unpack_bytes k bs
  end.

Fixpoint accumulate (current : Z) (ds : list Z) : list Z :=
  match ds with
  | [] => []
  | d :: ds => u32 (current + d) :: accumulate (u32 (current + d)) ds
  end.

Definition decompress_neighbors (bs : list Z) (degree : nat) : option (list Z) :=
  match degree with
  | O => Some []
  | _ =>
    ds ← unpack degree bs;
    match ds with
    | [] => None
    | d :: ds => Some (d :: accumulate d ds)
    end
  end.

(** Flag 1, the 8-byte degree and the packed sorted list; nothing for an empty
    list. *)
Definition serialize_neighbors (ns : list Z) : list Z :=
  match ns with
  | [] => []
  | _ =>
    let sorted := merge_sort (≤) ns in
    1 :: le_bytes 8 (Z.of_nat (length sorted)) ++ compress_neighbors sorted
  end.

(** [None] for the exceptions (and for reads past the end). *)
Definition deserialize_neighbors (data : list Z) : option (list Z) :=
  match data with
  | [] => Some []
  | flag :: rest =>
    if flag =? 1 then
      if (length rest <? 8)%nat then None
      else decompress_neighbors (drop 8 rest) (Z.to_nat (get64 0 rest))
    else if flag =? 0 then Some (read_u32s 0 (length rest / 4) rest)
    else None
  end.

(** *** Round trips *)

Lemma vbyte_roundtrip w fuel value acc shift rest :
  0 <= w -> 0 <= shift -> 0 <= value < 2 ^ (7 * Z.of_nat fuel) -> (0 < fuel)%nat ->
  0 <= acc < 2 ^ shift -> acc + value * 2 ^ shift < 2 ^ w ->
  decode_loop w (vbyte_loop fuel value ++ rest) acc shift = Some (acc + value * 2 ^ shift, rest).
Proof.
  intros Hw. revert value acc shift. induction fuel as [|fuel IH]; intros value acc shift Hs Hv Hf Ha Hb; [lia|].
  assert (H0 : 0 < 2 ^ shift) by (apply Z.pow_pos_nonneg; lia).
  assert (Hstep : forall b, 0 <= b -> b <= value ->
     wrap w (Z.lor acc (Z.shiftl b shift)) = acc + b * 2 ^ shift).
  { intros b Hb1 Hb2. rewrite Z.lor_comm, lor_shiftl_add by done. rewrite Z.add_comm.
    pose proof (Z.mul_le_mono_nonneg_r b value (2 ^ shift) ltac:(lia) Hb2).
    pose proof (Z.mul_nonneg_nonneg b (2 ^ shift) Hb1 ltac:(lia)).
    apply wrap_small. unfold in_width. lia. }
  cbn [vbyte_loop]. destruct (Z.leb_spec 128 value) as [Hl|Hl].
  - assert (E1 : Z.land value 0x7F = value mod 128) by (by rewrite (land_ones_mod _ _ 7)).
    assert (Hm : 0 <= value mod 128 < 128) by (apply Z.mod_pos_bound; lia).
    assert (E2 : Z.lor (value mod 128) 0x80 = value mod 128 + 128).
    { pose proof (lor_shiftl_add 1 (value mod 128) 7 ltac:(lia) Hm) as E.
      change (Z.shiftl 1 7) with 128 in E. change (1 * 2 ^ 7) with 128 in E. rewrite Z.lor_comm, E. lia. }
    rewrite E1, E2. rewrite wrap_small by (unfold in_width; change (2 ^ 8) with 256; lia).
    cbn [app decode_loop].
    assert (E3 : Z.land (value mod 128 + 128) 0x7F = value mod 128).
    { rewrite (land_ones_mod _ _ 7) by done. change (2 ^ 7) with 128.
      rewrite Z.add_mod, Z.mod_same, Z.add_0_r, !Z.mod_mod by lia. done. }
    assert (E4 : (Z.land (value mod 128 + 128) 0x80 =? 0) = false).
    { apply Z.eqb_neq. intros E. apply (f_equal (fun z => Z.testbit z 7)) in E.
      rewrite Z.land_spec, Z.bits_0 in E. change (Z.testbit 128 7) with true in E. rewrite andb_true_r in E.
      rewrite Z.testbit_eqb in E by lia. change (2 ^ 7) with 128 in E.
      replace (value mod 128 + 128) with (value mod 128 + 1 * 128) in E by lia.
      rewrite Z.div_add, Z.div_small in E by lia. done. }
    rewrite E3, E4, Hstep by (try apply Z.mod_le; lia).
    assert (Hd : value = 128 * (value / 128) + value mod 128) by (apply Z.div_mod; lia).
    assert (Hp : 2 ^ (shift + 7) = 2 ^ shift * 128) by (rewrite Z.pow_add_r by lia; done).
    rewrite Nat2Z.inj_succ, Z.mul_succ_r, Z.pow_add_r in Hv by lia. change (2 ^ 7) with 128 in Hv.
    rewrite Z.shiftr_div_pow2 by lia. change (2 ^ 7) with 128.
    destruct fuel as [|fuel']; [change (2 ^ (7 * Z.of_nat 0)) with 1 in Hv; lia|].
    rewrite IH; [f_equal; f_equal; rewrite Hp; nia|lia| |lia|rewrite Hp; nia|rewrite Hp; nia].
    split; [apply Z.div_pos; lia|apply Z.div_lt_upper_bound; lia].
  - assert (E1 : Z.land value 0x7F = value) by (rewrite (land_ones_mod _ _ 7) by done; apply Z.mod_small; change (2^7) with 128; lia).
    rewrite E1, wrap_small by (unfold in_width; change (2 ^ 8) with 256; lia). cbn [app decode_loop].
    rewrite E1, Hstep by (rewrite ?Z.mod_small; lia).
    assert (E4 : Z.land value 0x80 = 0).
    { apply Z.bits_inj'. intros n Hn. rewrite Z.land_spec, Z.bits_0.
      destruct (decide (n = 7)) as [->|Hne].
      - rewrite Z.testbit_eqb by lia. change (2 ^ 7) with 128. by rewrite Z.div_small by lia.
      - change 128 with (2 ^ 7). rewrite Z.pow2_bits_false by lia. by rewrite andb_false_r. }
    by rewrite E4.
Qed.

Lemma decode_encode_vbyte w value rest :
  64 <= w -> in_width 64 value -> decode_loop w (encode_vbyte value ++ rest) 0 0 = Some (value, rest).
Proof.
  intros Hw Hv. unfold encode_vbyte, in_width in *.
  assert (2 ^ 64 <= 2 ^ w) by (apply Z.pow_le_mono_r; lia).
  assert (2 ^ 64 < 2 ^ (7 * Z.of_nat 10)) by done.
  rewrite vbyte_roundtrip; rewrite ?Z.pow_0_r, ?Z.mul_1_r, ?Z.add_0_l; (done || lia).
Qed.

Lemma unpack_bytes_spec ds rest :
  Forall (in_width 32) ds -> unpack_bytes (length ds) (mjoin (encode_vbyte <$> ds) ++ rest) = Some ds.
Proof.
  induction 1 as [|d ds Hd Hds IH]; [done|]. cbn [length unpack_bytes fmap list_fmap].
  change (mjoin (encode_vbyte d :: (encode_vbyte <$> ds))) with (encode_vbyte d ++ mjoin (encode_vbyte <$> ds)).
  rewrite <- app_assoc. unfold encode_vbyte at 1. unfold in_width in *.
  assert (2 ^ 32 < 2 ^ (7 * Z.of_nat 10)) by done.
  rewrite vbyte_roundtrip; rewrite ?Z.pow_0_r, ?Z.mul_1_r, ?Z.add_0_l; try (done || lia).
  cbn [mbind option_bind]. by rewrite IH.
Qed.

Lemma unpack_pack ds rest : Forall (in_width 32) ds -> unpack (length ds) (pack ds ++ rest) = Some ds.
Proof.
  remember (length ds) as n eqn:Hn. revert ds Hn.
  induction (lt_wf n) as [n _ IH]. intros ds -> Hds.
  destruct ds as [|a [|b [|c [|d ds]]]]; try exact (unpack_bytes_spec _ rest Hds).
  cbn [length unpack pack]. rewrite !Forall_cons in Hds. destruct Hds as (Ha & Hb & Hc & Hd & Hds).
  rewrite <- app_assoc, gv_law by done. cbn [mbind option_bind].
  rewrite (IH (length ds)); [done|cbn; lia|done|done].
Qed.

Lemma accumulate_delta prev ns :
  in_width 32 prev -> Forall (in_width 32) ns -> accumulate prev (delta_encode prev ns) = ns.
Proof.
  intros Hp Hns. revert prev Hp. induction Hns as [|n ns Hn Hns IH]; intros prev Hp; [done|].
  cbn [delta_encode accumulate].
  assert (E : u32 (prev + u32 (n - prev)) = n) by solve_width. rewrite E. f_equal. auto.
Qed.

Lemma length_delta_encode prev ns : length (delta_encode prev ns) = length ns.
Proof. revert prev. induction ns; intros; cbn; auto. Qed.

Lemma delta_encode_width prev ns : Forall (in_width 32) (delta_encode prev ns).
Proof. revert prev. induction ns; intros; cbn; constructor; auto. apply wrap_range. lia. Qed.

Lemma decompress_compress ns rest :
  Forall (in_width 32) ns -> decompress_neighbors (compress_neighbors ns ++ rest) (length ns) = Some ns.
Proof.
  intros Hns. destruct ns as [|n ns]; [done|]. cbn [compress_neighbors length decompress_neighbors].
  apply Forall_cons in Hns as [Hn Hns].
  rewrite <- (length_delta_encode n ns), <- (length_cons n (delta_encode n ns)).
  rewrite unpack_pack by (constructor; [done|apply delta_encode_width]).
  cbn [mbind option_bind]. by rewrite accumulate_delta.
Qed.

Definition storable_list (ns : list Z) : Prop :=
  Forall (in_width 32) ns /\ Z.of_nat (length ns) < 2 ^ 64.

Lemma deserialize_packed ns :
  storable_list ns ->
  deserialize_neighbors (1 :: le_bytes 8 (Z.of_nat (length ns)) ++ compress_neighbors ns) = Some ns.
Proof.
  intros [Hns Hlen]. unfold deserialize_neighbors. rewrite Z.eqb_refl.
  rewrite length_app, length_le_bytes, drop_app_length' by by rewrite length_le_bytes.
  destruct (Nat.ltb_spec (8 + length (compress_neighbors ns)) 8); [lia|].
  rewrite get_le_app_here by (change (256 ^ Z.of_nat 8) with (2 ^ 64); lia).
  rewrite Nat2Z.id, <- (app_nil_r (compress_neighbors ns)). by apply decompress_compress.
Qed.

Lemma storable_list_perm ns ns' : ns' ≡ₚ ns -> storable_list ns -> storable_list ns'.
Proof. intros Hp [H1 H2]. split; [by rewrite Hp|by rewrite Hp]. Qed.

Lemma deserialize_serialize ns :
  storable_list ns -> deserialize_neighbors (serialize_neighbors ns) = Some (merge_sort (≤) ns).
Proof.
  intros Hns. destruct ns as [|n0 ns0]; [done|]. apply deserialize_packed.
  eapply storable_list_perm; [|done]. apply merge_sort_Permutation.
Qed.

End Codec.

(** ** The store *)

Definition make_vertex_key (v : Z) : string := "v:" +:+ pretty (Z.to_N v).

Definition make_delta_key (v ts : Z) : string := "d:" +:+ pretty (Z.to_N v) +:+ ":" +:+ pretty (Z.to_N ts).

#[export] Instance make_vertex_key_inj : Inj (fun v w => 0 <= v -> 0 <= w -> v = w) (=) make_vertex_key.
Proof. intros v w Hk Hv Hw. unfold make_vertex_key in Hk. apply (inj _), (inj pretty) in Hk. lia. Qed.

Definition operation_code (o : delta_operation_t) : Z := match o with ADD_NEIGHBOR => 0 | REMOVE_NEIGHBOR => 1 end.

Section Store.
Context {R : Type} `{!RocksDB R} `{!GroupVarint}.

Record giant_vertex_db_t := GiantVertexDb {
  db_ : R;
  neighbor_cache : gmap Z (list Z);
  vertex_count_ : Z
}.

Definition set_db (g : giant_vertex_db_t) (r : R) : giant_vertex_db_t :=
  GiantVertexDb r (neighbor_cache g) (vertex_count_ g).

Definition cache_put (g : giant_vertex_db_t) (v : Z) (ns : list Z) : giant_vertex_db_t :=
  GiantVertexDb (db_ g) (<[v := ns]> (neighbor_cache g)) (vertex_count_ g).

Definition get (g : giant_vertex_db_t) (k : string) : option (list Z) := r_view (db_ g) !! k.

(** The record's list; no record is an empty list; [None] on an exception. *)
Definition stored (g : giant_vertex_db_t) (v : Z) : option (list Z) :=
  match get g (make_vertex_key v) with None => Some [] | Some d => deserialize_neighbors d end.

Definition insert_vertex (g : giant_vertex_db_t) (v : Z) (ns : list Z) : bool * giant_vertex_db_t :=
  let '(ok, r) := r_put (db_ g) (make_vertex_key v) (serialize_neighbors ns) in (ok, set_db g r).

Definition read_neighbor_clone (g : giant_vertex_db_t) (v : Z) : option (list Z) * giant_vertex_db_t :=
  match get g (make_vertex_key v) with
  | None => (Some [], g)
  | Some d =>
    match deserialize_neighbors d with
    | None => (None, g)
    | Some ns => (Some ns, cache_put g v ns)
    end
  end.

Definition read_neighbor (g : giant_vertex_db_t) (v : Z) : option (list Z) * giant_vertex_db_t :=
  match neighbor_cache g !! v with
  | Some ns => (Some ns, g)
  | None => read_neighbor_clone g v
  end.

Definition get_vertex_degree (g : giant_vertex_db_t) (v : Z) : option Z * giant_vertex_db_t :=
  let '(ns, g) := read_neighbor g v in ((fun ns => Z.of_nat (length ns)) <$> ns, g).

Definition vertex_exists (g : giant_vertex_db_t) (v : Z) : bool :=
  match get g (make_vertex_key v) with Some _ => true | None => false end.

(** [None]: deserialisation threw. *)
Definition add_neighbor (g : giant_vertex_db_t) (v n : Z) : option (bool * giant_vertex_db_t) :=
  let '(ns, g) := read_neighbor_clone g v in
  ns ← ns;
  if existsb (Z.eqb n) ns then Some (true, g) else Some (insert_vertex g v (ns ++ [n])).

Fixpoint erase_first (n : Z) (ns : list Z) : list Z :=
  match ns with
  | [] => []
  | x :: ns => if x =? n then ns else x :: erase_first n ns
  end.

Definition remove_neighbor (g : giant_vertex_db_t) (v n : Z) : option (bool * giant_vertex_db_t) :=
  let '(ns, g) := read_neighbor_clone g v in
  ns ← ns;
  if existsb (Z.eqb n) ns then Some (insert_vertex g v (erase_first n ns)) else Some (true, g).

(** Batches of a thousand writes; [size] counts the pending ones. *)
Fixpoint batch_insert_vertices (g : giant_vertex_db_t) (vs : list (Z * list Z))
    (batch : list (string * option (list Z))) (i : nat) : bool * giant_vertex_db_t :=
  match vs with
  | [] => (true, g)
  | (v, ns) :: vs =>
    let batch := batch ++ [(make_vertex_key v, Some (serialize_neighbors ns))] in
    if ((i + 1) mod 1000 =? 0)%nat || bool_decide (vs = []) then
      let '(ok, r) := r_write (db_ g) batch in
      if (ok : bool) then batch_insert_vertices (set_db g r) vs [] (i + 1) else (false, set_db g r)
    else batch_insert_vertices g vs batch (i + 1)
  end.

(** *** Delta records *)

(** [memcpy]'d fields: a one-byte operation, the identifier, the timestamp. *)
Definition serialize_delta (d : neighbor_delta_t) : list Z :=
  le_bytes 1 (operation_code (operation d)) ++ le_bytes 4 (neighbor_id d) ++ le_bytes 8 (timestamp d).

Definition deserialize_delta (data : list Z) : option neighbor_delta_t :=
  if (length data <? 13)%nat then None
  else Some (NeighborDelta (if get_le 1 0 data =? 0 then ADD_NEIGHBOR else REMOVE_NEIGHBOR)
               (get32 1 data) (get64 5 data)).

Definition put_delta (g : giant_vertex_db_t) (v : Z) (d : neighbor_delta_t) : bool * giant_vertex_db_t :=
  let '(ok, r) := r_put (db_ g) (make_delta_key v (timestamp d)) (serialize_delta d) in (ok, set_db g r).

(** [now] is the clock in microseconds. *)
Definition add_neighbor_delta (g : giant_vertex_db_t) (now v n : Z) : bool * giant_vertex_db_t :=
  put_delta g v (NeighborDelta ADD_NEIGHBOR n now).
Definition remove_neighbor_delta (g : giant_vertex_db_t) (now v n : Z) : bool * giant_vertex_db_t :=
  put_delta g v (NeighborDelta REMOVE_NEIGHBOR n now).

Definition delta_prefix (v : Z) : string := "d:" +:+ pretty (Z.to_N v) +:+ ":".

(** By timestamp; the scan's order decides among equal ones. *)
Definition delta_le (a b : neighbor_delta_t) : Prop := timestamp a <= timestamp b.

#[local] Instance delta_le_dec : RelDecision delta_le := fun a b => Z.le_dec (timestamp a) (timestamp b).

Definition apply_neighbor_delta (s : gset Z) (d : neighbor_delta_t) : gset Z :=
  match operation d with ADD_NEIGHBOR => {[neighbor_id d]} ∪ s | REMOVE_NEIGHBOR => s ∖ {[neighbor_id d]} end.

#[local] Instance delta_le_total : Total delta_le.
Proof. intros a b. unfold delta_le. lia. Qed.

#[local] Instance delta_le_trans : Transitive delta_le.
Proof. intros a b c. unfold delta_le. lia. Qed.

(** The list a [std::set] is copied into: ascending. *)
Definition read_neighbors_with_deltas_applied (g : giant_vertex_db_t) (v : Z) :
    option (list Z) * giant_vertex_db_t :=
  match read_neighbor_clone g v with
  | (None, g) => (None, g)
  | (Some ns, g) =>
    let deltas := omap (fun q => deserialize_delta q.2) (r_scan (db_ g) (delta_prefix v)) in
    let s := foldl apply_neighbor_delta (list_to_set ns) (merge_sort delta_le deltas) in
    (Some (merge_sort (≤) (elements s)), g)
  end.

Definition consolidate_vertex_deltas (g : giant_vertex_db_t) (v : Z) : option (bool * giant_vertex_db_t) :=
  let '(ns, g) := read_neighbors_with_deltas_applied g v in
  ns ← ns;
  let '(ok, g) := insert_vertex g v ns in
  if negb ok then Some (false, g)
  else
    match (fun q => (q.1, None)) <$> r_scan (db_ g) (delta_prefix v) with
    | [] => Some (true, g)
    | batch => let '(ok, r) := r_write (db_ g) batch in Some (ok, set_db g r)
    end.

(** *** What the store promises *)

Lemma get_insert g v ns w :
  0 <= v -> 0 <= w -> (insert_vertex g v ns).1 = true ->
  get (insert_vertex g v ns).2 (make_vertex_key w) =
    if decide (v = w) then Some (serialize_neighbors ns) else get g (make_vertex_key w).
Proof.
  intros Hv Hw Hok. unfold insert_vertex, get in *. pose proof (r_put_view (db_ g) (make_vertex_key v) (serialize_neighbors ns)) as Hput.
  destruct (r_put _ _ _) as [ok r]. cbn in *. subst ok. rewrite Hput, lookup_insert.
  case_decide as Hk; case_decide as Hvw; try done; [|congruence].
  destruct Hvw. by apply make_vertex_key_inj.
Qed.

Lemma insert_other g v w ns : 0 <= v -> 0 <= w -> v <> w -> stored (insert_vertex g v ns).2 w = stored g w.
Proof.
  intros Hv Hw Hne. unfold stored. destruct (insert_vertex g v ns).1 eqn:Hok.
  - rewrite get_insert, decide_False by done. done.
  - unfold insert_vertex, get in *. pose proof (r_put_view (db_ g) (make_vertex_key v) (serialize_neighbors ns)) as Hput.
    destruct (r_put _ _ _) as [ok r]. cbn in *. subst ok. by rewrite Hput.
Qed.

Lemma insert_stored g v ns : 0 <= v -> storable_list ns -> (insert_vertex g v ns).1 = true ->
  stored (insert_vertex g v ns).2 v = Some (merge_sort (≤) ns).
Proof.
  intros Hv Hs Hok. unfold stored. rewrite get_insert, decide_True by done. by apply deserialize_serialize.
Qed.

Lemma read_clone_stored g v : (read_neighbor_clone g v).1 = stored g v.
Proof. unfold read_neighbor_clone, stored. destruct (get _ _); [|done]. by destruct (deserialize_neighbors _). Qed.

Lemma read_clone_db g v : db_ (read_neighbor_clone g v).2 = db_ g.
Proof. unfold read_neighbor_clone. destruct (get _ _); [|done]. by destruct (deserialize_neighbors _). Qed.

Lemma stored_db g g' v : db_ g' = db_ g -> stored g' v = stored g v.
Proof. unfold stored, get. by intros ->. Qed.

(** C7: after a successful insertion a cloning read returns the inserted list
    in ascending order, reads of other vertices are unchanged, and the cached
    read of the vertex still returns the list cached before the insertion, if
    there was one (the cache is not refreshed). *)
Theorem insert_then_read g v ns :
  0 <= v -> storable_list ns -> (insert_vertex g v ns).1 = true ->
  let g' := (insert_vertex g v ns).2 in
  (read_neighbor_clone g' v).1 = Some (merge_sort (≤) ns) /\
  (forall w, 0 <= w -> v <> w -> (read_neighbor_clone g' w).1 = (read_neighbor_clone g w).1) /\
  (forall old, neighbor_cache g !! v = Some old -> (read_neighbor g' v).1 = Some old) /\
  (neighbor_cache g !! v = None -> (read_neighbor g' v).1 = Some (merge_sort (≤) ns)).
Proof.
  intros Hv Hs Hok g'. assert (Hc : neighbor_cache g' = neighbor_cache g).
  { unfold g', insert_vertex. by destruct (r_put _ _ _). }
  split; [by rewrite read_clone_stored; apply insert_stored|].
  split; [intros w Hw Hne; rewrite !read_clone_stored; by apply insert_other|].
  unfold read_neighbor. rewrite Hc. split; [by intros old ->|]. intros ->.
  rewrite read_clone_stored. by apply insert_stored.
Qed.

(** *** Delta records *)

(** The delta records of [v] are those of [ds], oldest first. *)
Definition delta_log (g : giant_vertex_db_t) (v : Z) (ds : list neighbor_delta_t) : Prop :=
  StronglySorted (fun a b => timestamp a < timestamp b) ds /\
  Forall (fun d => in_width 32 (neighbor_id d) /\ in_width 64 (timestamp d)) ds /\
  filter (fun q => String.prefix (delta_prefix v) q.1 = true) (map_to_list (r_view (db_ g))) ≡ₚ
    (fun d => (make_delta_key v (timestamp d), serialize_delta d)) <$> ds.

Lemma string_app_assoc (a b c : string) : (a +:+ b) +:+ c = a +:+ (b +:+ c).
Proof. induction a as [|x a IH]; [done|]. change (String x ((a +:+ b) +:+ c) = String x (a +:+ (b +:+ c))). by f_equal. Qed.

Lemma prefix_app p s : String.prefix p (p +:+ s) = true.
Proof. induction p as [|c p IH]; [by destruct s|]. 
  change ((if Ascii.ascii_dec c c then String.prefix p (p +:+ s) else false) = true).
  by destruct (Ascii.ascii_dec c c).
Qed.

Lemma make_delta_key_prefix v ts : make_delta_key v ts = delta_prefix v +:+ pretty (Z.to_N ts).
Proof. unfold make_delta_key, delta_prefix. by rewrite !string_app_assoc. Qed.

Lemma make_delta_key_inj v ts ts' : 0 <= ts -> 0 <= ts' -> make_delta_key v ts = make_delta_key v ts' -> ts = ts'.
Proof. rewrite !make_delta_key_prefix. intros H1 H2 Hk. apply (inj _), (inj pretty) in Hk. lia. Qed.

Lemma deserialize_delta_serialize d :
  in_width 32 (neighbor_id d) -> in_width 64 (timestamp d) -> deserialize_delta (serialize_delta d) = Some d.
Proof.
  destruct d as [op n ts]. unfold in_width; cbn [neighbor_id timestamp]. intros Hn Ht.
  unfold deserialize_delta, serialize_delta; cbn [operation neighbor_id timestamp].
  rewrite !length_app, !length_le_bytes. cbn [Nat.add Nat.ltb Nat.leb]. f_equal. f_equal.
  - rewrite get_le_app_here by (destruct op; cbn; lia). by destruct op.
  - get_field. change (256 ^ Z.of_nat 4) with (2 ^ 32). lia.
  - get_field. change (256 ^ Z.of_nat 8) with (2 ^ 64). lia.
Qed.

Lemma put_delta_log g v ds d :
  delta_log g v ds -> Forall (fun e => timestamp e < timestamp d) ds ->
  in_width 32 (neighbor_id d) -> in_width 64 (timestamp d) -> (put_delta g v d).1 = true ->
  delta_log (put_delta g v d).2 v (ds ++ [d]).
Proof.
  intros (Hs & Hw & Hp) Hlt Hn Ht Hok. unfold put_delta in *.
  pose proof (r_put_view (db_ g) (make_delta_key v (timestamp d)) (serialize_delta d)) as Hv.
  destruct (r_put _ _ _) as [ok r]. cbn in *. subst ok.
  assert (Hf : r_view (db_ g) !! make_delta_key v (timestamp d) = None).
  { apply eq_None_not_Some. intros [x Hx]. apply elem_of_map_to_list in Hx.
    assert (Hin : (make_delta_key v (timestamp d), x) ∈
      (fun d => (make_delta_key v (timestamp d), serialize_delta d)) <$> ds).
    { rewrite <- Hp. apply list_elem_of_filter. split; [|done]. cbn.
      rewrite make_delta_key_prefix. apply prefix_app. }
    apply list_elem_of_fmap in Hin as (e & Hk & Hin).
    apply (f_equal fst) in Hk.
    change (make_delta_key v (timestamp d) = make_delta_key v (timestamp e)) in Hk.
    rewrite Forall_forall in Hlt, Hw. specialize (Hlt _ Hin). destruct (Hw _ Hin) as [_ He].
    unfold in_width in *. apply make_delta_key_inj in Hk; lia. }
  split; [|split].
  - clear -Hs Hlt. induction Hs as [|a l Hs IH Ha]; cbn; [repeat constructor|].
    apply Forall_cons in Hlt as [? Hlt]. constructor; [by apply IH|].
    apply Forall_app. split; [done|]. by constructor.
  - apply Forall_app. split; [done|]. by constructor.
  - cbn. rewrite Hv, map_to_list_insert by done. rewrite fmap_app.
    rewrite filter_cons_True, Hp by (cbn; rewrite make_delta_key_prefix; apply prefix_app).
    by rewrite Permutation_app_comm.
Qed.

Lemma delta_log_scan g v ds :
  delta_log g v ds ->
  merge_sort delta_le (omap (fun q => deserialize_delta q.2) (r_scan (db_ g) (delta_prefix v))) = ds.
Proof.
  intros (Hs & Hw & Hp).
  assert (Hds : omap (fun q => deserialize_delta q.2) (r_scan (db_ g) (delta_prefix v)) ≡ₚ ds).
  { rewrite r_scan_view, Hp. clear -Hw. induction Hw as [|d ds [H1 H2] _ IH]; [done|].
    cbn [fmap list_fmap omap list_omap snd]. rewrite deserialize_delta_serialize by done. by rewrite IH. }
  eapply (StronglySorted_unique_strong delta_le).
  - intros x y Hx Hy H1 H2. rewrite (merge_sort_Permutation delta_le), Hds in Hx.
    unfold delta_le in *. assert (E : timestamp x = timestamp y) by lia. clear -Hs Hx Hy E.
    induction Hs as [|a l Hs IH Ha]; [by apply elem_of_nil in Hx|]. rewrite Forall_forall in Ha.
    apply elem_of_cons in Hx as [->|Hx], Hy as [->|Hy]; auto.
    + specialize (Ha _ Hy). lia.
    + specialize (Ha _ Hx). lia.
  - apply (StronglySorted_merge_sort delta_le).
  - clear -Hs. induction Hs as [|a l Hs IH Ha]; constructor; auto.
    eapply Forall_impl; [done|]. unfold delta_le. cbn. lia.
  - by rewrite (merge_sort_Permutation delta_le).
Qed.

(** With the clock past every recorded timestamp, recording an addition or
    a removal of a neighbour makes the merged read return the previous merged
    set with exactly that neighbour added or removed, in ascending order. *)
Theorem delta_record_read g v ds d ns :
  delta_log g v ds -> stored g v = Some ns -> Forall (fun e => timestamp e < timestamp d) ds ->
  0 <= v -> in_width 32 (neighbor_id d) -> in_width 64 (timestamp d) -> (put_delta g v d).1 = true ->
  let before := foldl apply_neighbor_delta (list_to_set ns) ds in
  (read_neighbors_with_deltas_applied g v).1 = Some (merge_sort (≤) (elements before)) /\
  (read_neighbors_with_deltas_applied (put_delta g v d).2 v).1 =
    Some (merge_sort (≤) (elements (apply_neighbor_delta before d))).
Proof.
  intros Hl Hst Hlt Hv Hn Ht Hok before.
  assert (Hread : forall g ds, delta_log g v ds -> stored g v = Some ns ->
    (read_neighbors_with_deltas_applied g v).1 =
      Some (merge_sort (≤) (elements (foldl apply_neighbor_delta (list_to_set ns : gset Z) ds)))).
  { clear -Hv. intros g ds Hl Hst. unfold read_neighbors_with_deltas_applied.
    pose proof (read_clone_stored g v) as Hr. pose proof (read_clone_db g v) as Hdb. rewrite Hst in Hr.
    destruct (read_neighbor_clone g v) as [o g1]. cbn in Hr, Hdb. subst o. cbn [fst].
    rewrite Hdb, (delta_log_scan _ _ _ Hl). done. }
  split; [by apply Hread|]. pose proof (put_delta_log _ _ _ _ Hl Hlt Hn Ht Hok) as Hl'.
  rewrite (Hread _ _ Hl').
  - by rewrite foldl_app.
  - rewrite <- Hst. unfold stored, get, put_delta in *.
    pose proof (r_put_view (db_ g) (make_delta_key v (timestamp d)) (serialize_delta d)) as Hput.
    destruct (r_put _ _ _) as [ok r]. cbn in *. subst ok. by rewrite Hput, lookup_insert_ne.
Qed.

(** A cached read does not change what later reads return. *)
Lemma read_stable g v w : (read_neighbor (read_neighbor g v).2 w).1 = (read_neighbor g w).1.
Proof.
  unfold read_neighbor at 2. destruct (neighbor_cache g !! v) as [ns|] eqn:Ev; [done|].
  unfold read_neighbor_clone at 1, get. destruct (r_view (db_ g) !! make_vertex_key v) as [d|] eqn:Ed; [|done].
  destruct (deserialize_neighbors d) as [ns|] eqn:En; [|done]. cbn. unfold read_neighbor. cbn.
  rewrite lookup_insert. case_decide as E; [subst w|].
  - rewrite Ev. unfold read_neighbor_clone, get. rewrite Ed, En. done.
  - destruct (neighbor_cache g !! w); [done|]. unfold read_neighbor_clone, get; cbn.
    destruct (r_view (db_ g) !! make_vertex_key w) as [d'|]; [|done]. by destruct (deserialize_neighbors d').
Qed.

#[export] Instance giant_store : GiantStore giant_vertex_db_t.
Proof.
  refine {| g_stored := stored; g_storable := storable_list; g_insert_vertex := insert_vertex;
            g_read_neighbor := read_neighbor; g_read_neighbor_clone := read_neighbor_clone |}.
  - intros g v ns Hv Hs Hok. exists (merge_sort (≤) ns). split; [by apply insert_stored|].
    apply merge_sort_Permutation.
  - intros g v w ns. apply insert_other.
  - apply read_clone_stored.
  - intros g v w. apply stored_db, read_clone_db.
  - intros g v w. unfold read_neighbor. destruct (neighbor_cache g !! v); [done|].
    apply stored_db, read_clone_db.
  - intros g v w. apply read_stable.
Defined.

End Store.

(** ** Instances for concrete runs: a map, and a fixed-width group format *)

#[export] Instance map_store : RocksDB (gmap string (list Z)).
Proof.
  refine {|
    r_view := fun m => m;
    r_put := fun m k v => (true, <[k := v]> m);
    r_write := fun m b => (true,
      foldl (fun m q => match q.2 with Some v => <[q.1 := v]> m | None => delete q.1 m end) m b);
    r_scan := fun m p => filter (fun q => String.prefix p q.1 = true) (map_to_list m) |}; done.
Defined.

#[export] Instance fixed_group : GroupVarint.
Proof.
  refine {|
    gv_encode := fun a b c d => le_bytes 4 a ++ le_bytes 4 b ++ le_bytes 4 c ++ le_bytes 4 d;
    gv_decode := fun l => if (length l <? 16)%nat then None
      else Some (get32 0 l, get32 4 l, get32 8 l, get32 12 l, drop 16 l) |}.
  intros a b c d rest Ha Hb Hc Hd. unfold in_width in *. change (2 ^ 32) with (256 ^ Z.of_nat 4) in *.
  rewrite <- !app_assoc, !length_app, !length_le_bytes.
  destruct (Nat.ltb_spec (4 + (4 + (4 + (4 + length rest)))) 16); [lia|].
  set (l := le_bytes 4 a ++ _).
  assert (E1 : get32 0 l = a) by (unfold l; get_field; lia).
  assert (E2 : get32 4 l = b) by (unfold l; get_field; lia).
  assert (E3 : get32 8 l = c) by (unfold l; get_field; lia).
  assert (E4 : get32 12 l = d) by (unfold l; get_field; lia).
  by rewrite E1, E2, E3, E4.
Defined.

Definition empty_giants : giant_vertex_db_t (R := gmap string (list Z)) := GiantVertexDb ∅ {[7 := [1]]} 0.

Lemma insert_then_read_witness :
  let g' := (insert_vertex empty_giants 7 [30; 2; 9; 4294967295; 5]).2 in
  (read_neighbor_clone g' 7).1 = Some [2; 5; 9; 30; 4294967295] /\ (read_neighbor g' 7).1 = Some [1].
Proof.
  destruct (insert_then_read empty_giants 7 [30; 2; 9; 4294967295; 5]) as (H1 & _ & H3 & _).
  - lia.
  - split; [|vm_compute; reflexivity].
    repeat (constructor; [unfold in_width; lia|]). constructor.
  - reflexivity.
  - split; [exact H1|]. apply H3. reflexivity.
Defined.

Definition sample_giants : giant_vertex_db_t (R := gmap string (list Z)) :=
  (put_delta (insert_vertex empty_giants 7 [30; 2]).2 7 (NeighborDelta ADD_NEIGHBOR 9 100)).2.

Lemma delta_record_read_witness :
  (read_neighbors_with_deltas_applied sample_giants 7).1 = Some [2; 9; 30] /\
  (read_neighbors_with_deltas_applied (put_delta sample_giants 7 (NeighborDelta REMOVE_NEIGHBOR 30 101)).2 7).1 =
    Some [2; 9].
Proof.
  apply (delta_record_read sample_giants 7 [NeighborDelta ADD_NEIGHBOR 9 100]
    (NeighborDelta REMOVE_NEIGHBOR 30 101) [2; 30]).
  - split; [repeat constructor|]. split; [|reflexivity].
    constructor; [|constructor]. split; split; cbn; lia.
  - vm_compute. reflexivity.
  - repeat constructor.
  - lia.
  - unfold in_width; cbn; lia.
  - unfold in_width; cbn; lia.
  - reflexivity.
Defined.

End Giant.
