(* ===== verification/Sketch.v ===== *)
(** * The workload sketch ([buf/sketch.h], [sketch.cc])

    Per vertex a read and a write counter ([uint64_t] atomics that wrap), from
    which the database derives the slots to reserve and the chain length that
    triggers a consolidation.  The ratio is computed in [double]: binary64
    arithmetic of the Standard Library's [SpecFloat]. *)

From Stdlib Require Import SpecFloat.
From S2P Require Import Prelude Config Db.

Local Open Scope Z_scope.

Module Sketch.

(** ** Doubles *)

(** [static_cast<double>] of an unsigned integer: rounded to nearest, ties to
    even. *)
Definition to_double (z : Z) : spec_float := binary_normalize 53 1024 z 0 false.

Definition ddiv : spec_float -> spec_float -> spec_float := SFdiv 53 1024.
Definition dmul : spec_float -> spec_float -> spec_float := SFmul 53 1024.

(** [a / b] rounded: a decimal literal is the double nearest to it. *)
Definition literal (a b : Z) : spec_float := ddiv (to_double a) (to_double b).

(** [static_cast<uint64_t>] of a double in range: truncation. *)
Definition to_uint64 (f : spec_float) : Z :=
  match f with
  | S754_finite false m e => Z.shiftl (Zpos m) e
  | _ => 0
  end.

Definition THRESHOLD_LEVEL_1 : spec_float := literal 1 10.
Definition THRESHOLD_LEVEL_2 : spec_float := literal 1 4.
Definition THRESHOLD_LEVEL_3 : spec_float := literal 1 2.
Definition THRESHOLD_LEVEL_4 : spec_float := literal 3 4.
Definition MIN_SAMPLES_FOR_ADAPT : Z := 8.
Definition THRESHOLD_FACTOR_LV1 : spec_float := to_double 1.
Definition THRESHOLD_FACTOR_LV2 : spec_float := literal 3 2.
Definition THRESHOLD_FACTOR_LV3 : spec_float := to_double 3.
Definition THRESHOLD_FACTOR_LV4 : spec_float := to_double 5.

(** ** State *)

Record vertex_stat_entry_t := VertexStat { read_count : Z; write_count : Z }.

Definition increment_read (e : vertex_stat_entry_t) : vertex_stat_entry_t :=
  VertexStat (u64 (read_count e + 1)) (write_count e).
Definition increment_write (e : vertex_stat_entry_t) : vertex_stat_entry_t :=
  VertexStat (read_count e) (u64 (write_count e + 1)).

Definition write_ratio (reads writes : Z) : spec_float :=
  let total := u64 (reads + writes) in
  if total =? 0 then to_double 0 else ddiv (to_double writes) (to_double total).

Definition get_entry_ratio (e : vertex_stat_entry_t) : spec_float :=
  write_ratio (read_count e) (write_count e).

(** The array has [vertex_count] entries. *)
Record vertex_update_sketch_t := Sketch { vertex_stats : list vertex_stat_entry_t }.

Definition new_sketch (vertex_count : nat) : res vertex_update_sketch_t :=
  match vertex_count with
  | O => Throw invalid_argument
  | _ => Ok (Sketch (replicate vertex_count (VertexStat 0 0)))
  end.

Definition is_valid_vertex_id (s : vertex_update_sketch_t) (v : Z) : bool :=
  (0 <=? v) && (v <? Z.of_nat (length (vertex_stats s))).

(** ** Operations; an invalid identifier is ignored *)

Definition record_read (s : vertex_update_sketch_t) (v : Z) : vertex_update_sketch_t :=
  if is_valid_vertex_id s v then Sketch (alter increment_read (Z.to_nat v) (vertex_stats s)) else s.

Definition record_write (s : vertex_update_sketch_t) (v : Z) : vertex_update_sketch_t :=
  if is_valid_vertex_id s v then Sketch (alter increment_write (Z.to_nat v) (vertex_stats s)) else s.

Definition entry (s : vertex_update_sketch_t) (v : Z) : option vertex_stat_entry_t :=
  if is_valid_vertex_id s v then vertex_stats s !! Z.to_nat v else None.

Definition get_read_count (s : vertex_update_sketch_t) (v : Z) : Z := from_option read_count 0 (entry s v).
Definition get_write_count (s : vertex_update_sketch_t) (v : Z) : Z := from_option write_count 0 (entry s v).
Definition get_write_ratio (s : vertex_update_sketch_t) (v : Z) : spec_float :=
  from_option get_entry_ratio (to_double 0) (entry s v).

Definition calculate_reservation_level (r : spec_float) : Z :=
  if SFltb r THRESHOLD_LEVEL_1 then 0
  else if SFltb r THRESHOLD_LEVEL_2 then 1
  else if SFltb r THRESHOLD_LEVEL_3 then 2
  else if SFltb r THRESHOLD_LEVEL_4 then 3
  else 4.

Definition get_reservation_level (s : vertex_update_sketch_t) (v : Z) : Z :=
  match entry s v with None => 0 | Some e => calculate_reservation_level (get_entry_ratio e) end.

Definition get_per_vertex_reservation (s : vertex_update_sketch_t) (v : Z) : Z := get_reservation_level s v.

Definition get_reservation_levels (s : vertex_update_sketch_t) (vs : list Z) : Z :=
  let reads := foldl (fun a v => u64 (a + get_read_count s v)) 0 vs in
  let writes := foldl (fun a v => u64 (a + get_write_count s v)) 0 vs in
  if u64 (reads + writes) =? 0 then 0
  else calculate_reservation_level (ddiv (to_double writes) (to_double (u64 (reads + writes)))).

Definition get_consolidation_threshold (s : vertex_update_sketch_t) (v base : Z) : Z :=
  let baseline := if base =? 0 then 1 else base in
  match entry s v with
  | None => baseline
  | Some e =>
    let total := u64 (read_count e + write_count e) in
    if total <? MIN_SAMPLES_FOR_ADAPT then baseline
    else
      let r := ddiv (to_double (write_count e)) (to_double total) in
      if SFltb r THRESHOLD_LEVEL_1 then 1
      else
        let factor :=
          if SFleb THRESHOLD_LEVEL_4 r then THRESHOLD_FACTOR_LV4
          else if SFleb THRESHOLD_LEVEL_3 r then THRESHOLD_FACTOR_LV3
          else if SFleb THRESHOLD_LEVEL_2 r then THRESHOLD_FACTOR_LV2
          else THRESHOLD_FACTOR_LV1 in
        let out := to_uint64 (dmul (to_double baseline) factor) in
        if out =? 0 then 1 else out
  end.

Definition reset_vertex_stats (s : vertex_update_sketch_t) (v : Z) : vertex_update_sketch_t :=
  if is_valid_vertex_id s v then Sketch (alter (fun _ => VertexStat 0 0) (Z.to_nat v) (vertex_stats s)) else s.

Definition reset_all_stats (s : vertex_update_sketch_t) : vertex_update_sketch_t :=
  Sketch ((fun _ => VertexStat 0 0) <$> vertex_stats s).

#[export] Instance update_sketch : UpdateSketch vertex_update_sketch_t := {|
  sk_record_read := record_read;
  sk_record_write := record_write;
  sk_consolidation_threshold := get_consolidation_threshold;
  sk_per_vertex_reservation := get_per_vertex_reservation
|}.

(** ** Counters *)

Lemma entry_record_write s v w :
  entry (record_write s v) w =
    (if decide (v = w) then increment_write <$> entry s w else entry s w).
Proof.
  unfold record_write, entry. destruct (is_valid_vertex_id s v) eqn:Hv.
  - assert (E : is_valid_vertex_id (Sketch (alter increment_write (Z.to_nat v) (vertex_stats s))) w =
      is_valid_vertex_id s w) by (unfold is_valid_vertex_id; cbn; by rewrite length_alter).
    rewrite E. destruct (is_valid_vertex_id s w) eqn:Hw; [|by case_decide].
    unfold is_valid_vertex_id in *. cbn. rewrite list_lookup_alter.
    repeat case_decide; subst; try done. lia.
  - case_decide; [subst|done]. by rewrite Hv.
Qed.

Lemma entry_record_read s v w :
  entry (record_read s v) w =
    (if decide (v = w) then increment_read <$> entry s w else entry s w).
Proof.
  unfold record_read, entry. destruct (is_valid_vertex_id s v) eqn:Hv.
  - assert (E : is_valid_vertex_id (Sketch (alter increment_read (Z.to_nat v) (vertex_stats s))) w =
      is_valid_vertex_id s w) by (unfold is_valid_vertex_id; cbn; by rewrite length_alter).
    rewrite E. destruct (is_valid_vertex_id s w) eqn:Hw; [|by case_decide].
    unfold is_valid_vertex_id in *. cbn. rewrite list_lookup_alter.
    repeat case_decide; subst; try done. lia.
  - case_decide; [subst|done]. by rewrite Hv.
Qed.

(** ** The adaptive policy *)

(** The policy on exact fractions. *)
Definition exact_level (reads writes : Z) : Z :=
  let total := reads + writes in
  if total =? 0 then 0
  else if 10 * writes <? total then 0
  else if 4 * writes <? total then 1
  else if 2 * writes <? total then 2
  else if 4 * writes <? 3 * total then 3
  else 4.

Definition exact_threshold (reads writes base : Z) : Z :=
  let total := reads + writes in
  if total <? 8 then base
  else match exact_level reads writes with
  | 0 => 1
  | 1 => base
  | 2 => (3 * base) `div` 2
  | 3 => 3 * base
  | _ => 5 * base
  end.

(** The counters and baselines the bounded check runs over. *)
Definition window : list Z := seqZ 0 40.
Definition bases : list Z := seqZ 1 6.

Definition agrees (base reads writes : Z) : bool :=
  let s := Sketch [VertexStat reads writes] in
  (get_reservation_level s 0 =? exact_level reads writes) &&
  (get_consolidation_threshold s 0 base =? exact_threshold reads writes base).

Lemma window_agrees :
  forallb (fun b => forallb (fun r => forallb (agrees b r) window) window) bases = true.
Proof. vm_compute. reflexivity. Qed.

Lemma entry_single s v e : entry s v = Some e ->
  get_reservation_level s v = get_reservation_level (Sketch [e]) 0 /\
  forall base, get_consolidation_threshold s v base = get_consolidation_threshold (Sketch [e]) 0 base.
Proof.
  intros He. assert (E : entry (Sketch [e]) 0 = Some e) by done.
  unfold get_reservation_level, get_consolidation_threshold. by rewrite He, E.
Qed.

Lemma to_uint64_nonneg f : 0 <= to_uint64 f.
Proof. destruct f as [| | |[] m e]; cbn; try lia. apply Z.shiftl_nonneg. lia. Qed.

Lemma clamp_positive z : 0 <= z -> 1 <= (if z =? 0 then 1 else z).
Proof. intros. destruct (Z.eqb_spec z 0); lia. Qed.

(** C8: the reservation level is always between 0 and 4 and the trigger
    threshold at least 1; the counters of a vertex are exactly the reads and
    writes recorded for it; and although the ratio is rounded to a double, for
    up to 39 reads and writes and baselines up to 6 both answers are the ones
    of exact rational arithmetic. *)
Theorem sketch_policy s v reads writes base :
  entry s v = Some (VertexStat reads writes) -> 0 <= base ->
  (0 <= get_reservation_level s v <= 4 /\ 1 <= get_consolidation_threshold s v base) /\
  (reads + 1 < 2 ^ 64 -> 0 <= reads -> entry (record_read s v) v = Some (VertexStat (reads + 1) writes)) /\
  (writes + 1 < 2 ^ 64 -> 0 <= writes -> entry (record_write s v) v = Some (VertexStat reads (writes + 1))) /\
  (forall w, w <> v -> entry (record_read s v) w = entry s w /\ entry (record_write s v) w = entry s w) /\
  (0 <= reads < 40 -> 0 <= writes < 40 -> 1 <= base < 7 ->
   get_reservation_level s v = exact_level reads writes /\
   get_consolidation_threshold s v base = exact_threshold reads writes base).
Proof.
  intros He Hb. split; [|split; [|split; [|split]]].
  - split.
    + unfold get_reservation_level. rewrite He. unfold calculate_reservation_level.
      repeat case_match; lia.
    + unfold get_consolidation_threshold. rewrite He.
      assert (1 <= (if base =? 0 then 1 else base)) by (destruct (Z.eqb_spec base 0); lia).
      cbn [read_count write_count]. destruct (_ <? _); [assumption|].
      destruct (SFltb _ _); [lia|]. apply clamp_positive, to_uint64_nonneg.
  - intros Hr Hr0. rewrite entry_record_read, decide_True, He by done. cbn. unfold increment_read; cbn.
    by rewrite wrap_small by (unfold in_width; lia).
  - intros Hr Hr0. rewrite entry_record_write, decide_True, He by done. cbn. unfold increment_write; cbn.
    by rewrite wrap_small by (unfold in_width; lia).
  - intros w Hw. rewrite entry_record_read, entry_record_write, !decide_False by done. done.
  - intros Hr Hw Hbs. pose proof window_agrees as Ha. rewrite forallb_forall in Ha.
    assert (Hin : forall x a n, a <= x < a + n -> In x (seqZ a n)).
    { intros x a n Hx. apply list_elem_of_In, elem_of_seqZ. lia. }
    specialize (Ha base (Hin base 1 6 ltac:(lia))). rewrite forallb_forall in Ha.
    specialize (Ha reads (Hin reads 0 40 ltac:(lia))). rewrite forallb_forall in Ha.
    specialize (Ha writes (Hin writes 0 40 ltac:(lia))).
    destruct (entry_single s v _ He) as [-> Ht]. rewrite Ht.
    apply andb_true_iff in Ha as [H1 H2]. split; by apply Z.eqb_eq.
Qed.

Lemma sketch_policy_witness :
  let s := Sketch [VertexStat 3 1; VertexStat 9 30] in
  get_reservation_level s 1 = 4 /\ get_consolidation_threshold s 1 4 = 20.
Proof.
  destruct (sketch_policy (Sketch [VertexStat 3 1; VertexStat 9 30]) 1 9 30 4) as (_ & _ & _ & _ & H);
    [reflexivity|lia|]. destruct H as [H1 H2]; [lia|lia|lia|]. split; [exact H1|exact H2].
Defined.

End Sketch.
