(* ===== verification/Reorder.v ===== *)
(** * Vertex reordering ([part/reorder.h])

    [gorder_reordering_optimized]: the greedy order in which a split packs the
    vertices of a page.  A sliding window of recent vertices scores their
    unvisited neighbours; scores are [float] (binary32, [SpecFloat]).  The
    adjacency map is given in its iteration order, which a call does not
    change; the set of candidates is iterated in an unspecified order that may
    change from step to step: the class [SetOrder]. *)

From Stdlib Require Import SpecFloat.
From S2P Require Import Prelude Config.

Local Open Scope Z_scope.

(** The iteration order of a hash set at the [n]th step. *)
Class SetOrder := {
  set_order : nat -> gset Z -> list Z;
  set_order_elements : forall n s, set_order n s ≡ₚ elements s
}.

Module Reorder.

Section Gorder.
Context `{cfg : Config} `{!SetOrder}.

Definition INVALID_VERTEX : Z := 2 ^ 32 - 1.
Definition MAX_BUCKET : Z := 21.
Definition SAMPLE_SIZE : nat := 8.

(** ** Scores *)

Definition to_float (z : Z) : spec_float := binary_normalize 24 128 z 0 false.
Definition fmul : spec_float -> spec_float -> spec_float := SFmul 24 128.
Definition fadd : spec_float -> spec_float -> spec_float := SFadd 24 128.
Definition tenths (z : Z) : spec_float := SFdiv 24 128 (to_float z) (to_float 10).

Definition base_score (ns : list Z) : spec_float :=
  let score := fmul (tenths 1) (to_float (Z.of_nat (length ns))) in
  if GIANT_DEGREE_BOUND <=? Z.of_nat (length ns) then fmul score (tenths 8) else score.

(** ** State.  [window_set] is written and never read. *)

Record gorder_state := Gorder {
  ordered : list Z;
  visited : gset Z;
  window_queue : list Z;
  window_neighbor_count : gmap Z Z;
  active_candidates : gset Z
}.

Section Map.
(** The map, in iteration order, and its lookups. *)
Variable adj : list (Z * list Z).
Variable window_size : nat.

Definition adj_map : gmap Z (list Z) := list_to_map adj.
Definition get_neighbors (v : Z) : list Z := default [] (adj_map !! v).
Definition contains (v : Z) : bool := bool_decide (is_Some (adj_map !! v)).

Definition skipped (st : gorder_state) (ngh : Z) : bool :=
  negb (contains ngh) || bool_decide (ngh ∈ visited st).

(** Counts are [uint8_t]. *)
Definition count_up (st : gorder_state) (ngh : Z) : gorder_state :=
  if skipped st ngh then st
  else match window_neighbor_count st !! ngh with
  | Some c => Gorder (ordered st) (visited st) (window_queue st)
                (<[ngh := u8 (c + 1)]> (window_neighbor_count st)) (active_candidates st)
  | None => Gorder (ordered st) (visited st) (window_queue st)
              (<[ngh := 1]> (window_neighbor_count st)) ({[ngh]} ∪ active_candidates st)
  end.

Definition count_down (st : gorder_state) (ngh : Z) : gorder_state :=
  if skipped st ngh then st
  else match window_neighbor_count st !! ngh with
  | Some c =>
    if c =? 1
    then Gorder (ordered st) (visited st) (window_queue st)
           (delete ngh (window_neighbor_count st)) (active_candidates st ∖ {[ngh]})
    else Gorder (ordered st) (visited st) (window_queue st)
           (<[ngh := u8 (c - 1)]> (window_neighbor_count st)) (active_candidates st)
  | None => st
  end.

Definition visit (st : gorder_state) (v : Z) : gorder_state :=
  Gorder (ordered st ++ [v]) ({[v]} ∪ visited st) (window_queue st ++ [v])
    (window_neighbor_count st) (active_candidates st ∖ {[v]}).

(** ** One step *)

Definition bucket_of (st : gorder_state) (v : Z) : Z :=
  Z.min (default 0 (window_neighbor_count st !! v)) (MAX_BUCKET - 1).

Definition score (st : gorder_state) (v : Z) : spec_float :=
  fadd (to_float (default 0 (window_neighbor_count st !! v)))
       (default (to_float 0) (base_score <$> (adj_map !! v))).

(** The best of the sample, the first among equals; [best] and [max_score] are
    the loop's variables. *)
Fixpoint best_of (st : gorder_state) (cs : list Z) (best : Z) (max_score : spec_float) : Z :=
  match cs with
  | [] => best
  | c :: cs => if SFltb max_score (score st c) then best_of st cs c (score st c) else best_of st cs best max_score
  end.

(** The fullest non-empty bucket, searched from [i] down. *)
Fixpoint pick_bucket (st : gorder_state) (cands : list Z) (i : nat) : Z :=
  let bucket := filter (fun v => bucket_of st v = Z.of_nat i) cands in
  match bucket with
  | [] => match i with O => INVALID_VERTEX | S i => pick_bucket st cands i end
  | _ => best_of st (take SAMPLE_SIZE (reverse bucket)) INVALID_VERTEX (to_float (-1))
  end.

Definition pick_candidate (n : nat) (st : gorder_state) : Z :=
  if bool_decide (active_candidates st = ∅) then INVALID_VERTEX
  else pick_bucket st (set_order n (active_candidates st)) (Z.to_nat (MAX_BUCKET - 1)).

(** The first unvisited vertex of the map. *)
Definition first_unvisited (st : gorder_state) : Z :=
  match filter (fun u => u ∉ visited st) adj.*1 with [] => INVALID_VERTEX | u :: _ => u end.

Definition clear_window (st : gorder_state) : gorder_state :=
  Gorder (ordered st) (visited st) [] ∅ ∅.

Definition slide (st : gorder_state) : gorder_state :=
  match window_queue st with
  | removed :: rest =>
    if (window_size <? length (window_queue st))%nat then
      foldl count_down
        (Gorder (ordered st) (visited st) rest (window_neighbor_count st) (active_candidates st))
        (get_neighbors removed)
    else st
  | [] => st
  end.

(** [None] is the [break]. *)
Definition gorder_step (n : nat) (st : gorder_state) : option gorder_state :=
  let next := pick_candidate n st in
  let '(next, st) :=
    if next =? INVALID_VERTEX then (first_unvisited st, clear_window st) else (next, st) in
  if next =? INVALID_VERTEX then None
  else Some (slide (foldl count_up (visit st next) (get_neighbors next))).

Fixpoint gorder_loop (fuel : nat) (n : nat) (st : gorder_state) : option gorder_state :=
  if (size (visited st) <? length adj)%nat then
    match fuel with
    | O => None
    | S fuel => match gorder_step n st with None => Some st | Some st => gorder_loop fuel (S n) st end
    end
  else Some st.

(** The first vertex of the highest degree; the first vertex if all are
    isolated. *)
Definition seed : Z :=
  (foldl (fun '(s, m) q => if m <? Z.of_nat (length q.2) then (q.1, Z.of_nat (length q.2)) else (s, m))
    (INVALID_VERTEX, 0) adj).1.

Definition seed_count (st : gorder_state) (ngh : Z) : gorder_state :=
  if skipped st ngh then st
  else Gorder (ordered st) (visited st) (window_queue st)
         (<[ngh := 1]> (window_neighbor_count st)) ({[ngh]} ∪ active_candidates st).

(** [None]: out of fuel. *)
Definition gorder_reordering_optimized (fuel : nat) : option (list Z) :=
  match adj with
  | [] => Some []
  | q :: _ =>
    let s := if seed =? INVALID_VERTEX then q.1 else seed in
    if s =? INVALID_VERTEX then Some []
    else
      let st := visit (Gorder [] ∅ [] ∅ ∅) s in
      ordered <$> gorder_loop fuel 0 (foldl seed_count st (get_neighbors s))
  end.

(** ** The result is a permutation of the map's vertices *)

Record gorder_inv (st : gorder_state) : Prop := {
  gi_nodup : NoDup (ordered st);
  gi_visited : visited st = list_to_set (ordered st);
  gi_sub : ordered st ⊆ adj.*1;
  gi_active : forall v, v ∈ active_candidates st -> v ∈ adj.*1 /\ v ∉ visited st
}.

Lemma contains_spec v : contains v = true <-> v ∈ adj.*1.
Proof.
  unfold contains, adj_map. rewrite bool_decide_eq_true, <- elem_of_dom, dom_list_to_map_L.
  by rewrite elem_of_list_to_set.
Qed.

Lemma skipped_false st v : skipped st v = false -> v ∈ adj.*1 /\ v ∉ visited st.
Proof.
  unfold skipped. intros [H1 H2]%orb_false_iff. apply negb_false_iff, contains_spec in H1.
  by apply bool_decide_eq_false in H2.
Qed.

(** The counting passes keep the order and the visited set. *)
Definition keeps (f : gorder_state -> Z -> gorder_state) : Prop :=
  forall st v, gorder_inv st -> gorder_inv (f st v) /\ ordered (f st v) = ordered st.

Lemma keeps_intro st st' :
  gorder_inv st -> ordered st' = ordered st -> visited st' = visited st ->
  (forall v, v ∈ active_candidates st' -> v ∈ active_candidates st \/ skipped st v = false) -> gorder_inv st'.
Proof.
  intros [H1 H2 H3 H4] Ho Hv Ha. constructor; rewrite ?Ho, ?Hv; auto.
  intros v Hin. destruct (Ha v Hin) as [|Hs]; [auto|]. by apply skipped_false in Hs.
Qed.

Lemma count_up_keeps : keeps count_up.
Proof.
  intros st v Hi. unfold count_up. destruct (skipped st v) eqn:Hs; [done|].
  destruct (window_neighbor_count st !! v); (split; [|done]); apply (keeps_intro st); auto; cbn; set_solver.
Qed.

Lemma count_down_keeps : keeps count_down.
Proof.
  intros st v Hi. unfold count_down. destruct (skipped st v) eqn:Hs; [done|].
  destruct (window_neighbor_count st !! v) as [c|]; [|done]. destruct (c =? 1);
    (split; [|done]); apply (keeps_intro st); auto; cbn; set_solver.
Qed.

Lemma seed_count_keeps : keeps seed_count.
Proof.
  intros st v Hi. unfold seed_count. destruct (skipped st v) eqn:Hs; [done|].
  (split; [|done]); apply (keeps_intro st); auto; cbn; set_solver.
Qed.

Lemma keeps_foldl f vs st : keeps f -> gorder_inv st ->
  gorder_inv (foldl f st vs) /\ ordered (foldl f st vs) = ordered st.
Proof.
  intros Hf. revert st. induction vs as [|v vs IH]; intros st Hi; [done|]. cbn.
  destruct (Hf st v Hi) as [Hi' Ho]. destruct (IH _ Hi') as [? ?]. split; [done|congruence].
Qed.

Lemma visit_inv st v : gorder_inv st -> v ∈ adj.*1 -> v ∉ visited st -> gorder_inv (visit st v).
Proof.
  intros [H1 H2 H3 H4] Hv Hn. constructor; cbn.
  - apply NoDup_app. split; [done|]. split; [|apply NoDup_singleton].
    intros x Hx ->%list_elem_of_singleton. apply Hn. rewrite H2. by apply elem_of_list_to_set.
  - rewrite H2, list_to_set_app_L. cbn. set_solver.
  - set_solver.
  - intros x. rewrite elem_of_difference, elem_of_singleton. intros [Hx Hne].
    destruct (H4 x Hx). set_solver.
Qed.

(** A pick is a candidate. *)
Lemma best_of_elem st cs best ms : best_of st cs best ms = best \/ best_of st cs best ms ∈ cs.
Proof.
  revert best ms. induction cs as [|c cs IH]; intros; cbn; [auto|].
  destruct (SFltb _ _); [destruct (IH c (score st c)) as [->|]|destruct (IH best ms) as [->|]]; set_solver.
Qed.

Lemma pick_bucket_elem st cands i :
  pick_bucket st cands i = INVALID_VERTEX \/ pick_bucket st cands i ∈ cands.
Proof.
  induction i as [|i IH]; cbn;
    (destruct (filter _ cands) as [|x b] eqn:E; [auto|]); rewrite <- E;
    match goal with |- context [best_of st ?l ?b ?m] => destruct (best_of_elem st l b m) as [->|Hin] end; auto;
    right; apply elem_of_take in Hin as (k & Hk & _); apply list_elem_of_lookup_2 in Hk;
    rewrite elem_of_reverse in Hk; by apply list_elem_of_filter in Hk as [_ ?].
Qed.

Hypothesis Hnodup : NoDup adj.*1.
Hypothesis Hvalid : Forall (fun v => 0 <= v < INVALID_VERTEX) adj.*1.

Lemma step_inv n st :
  gorder_inv st -> (size (visited st) < length adj)%nat ->
  exists st', gorder_step n st = Some st' /\ gorder_inv st' /\
    exists v, ordered st' = ordered st ++ [v] /\ v ∉ visited st /\ v ∈ adj.*1.
Proof.
  intros Hi Hlt. unfold gorder_step.
  set (q := if pick_candidate n st =? INVALID_VERTEX then _ else _).
  assert (Hq : gorder_inv q.2 /\ ordered q.2 = ordered st /\ visited q.2 = visited st /\
    q.1 ∈ adj.*1 /\ q.1 ∉ visited st).
  { unfold q. destruct (Z.eqb_spec (pick_candidate n st) INVALID_VERTEX) as [E|E]; cbn [fst snd].
    - split; [destruct Hi; constructor; auto; set_solver|]. split; [done|]. split; [done|].
      unfold first_unvisited. destruct (filter _ adj.*1) as [|u l] eqn:Ef.
      + exfalso. assert (Hs : list_to_set adj.*1 ⊆ visited st).
        { intros x Hx%elem_of_list_to_set. destruct (decide (x ∈ visited st)); [done|].
          assert (Hx' : x ∈ filter (fun u => u ∉ visited st) adj.*1) by by apply list_elem_of_filter.
          rewrite Ef in Hx'. by apply elem_of_nil in Hx'. }
        apply subseteq_size in Hs. rewrite size_list_to_set in Hs by done. rewrite length_fmap in Hs. lia.
      + assert (Hu : u ∈ filter (fun u => u ∉ visited st) adj.*1) by (rewrite Ef; left).
        by apply list_elem_of_filter in Hu as [? ?].
    - split; [done|]. split; [done|]. split; [done|]. apply (gi_active st Hi).
      unfold pick_candidate in *. case_bool_decide as Ea; [done|].
      destruct (pick_bucket_elem st (set_order n (active_candidates st)) (Z.to_nat (MAX_BUCKET - 1)))
        as [?|Hin]; [done|]. apply elem_of_elements.
      by apply (elem_of_Permutation_proper _ _ _ (set_order_elements n (active_candidates st))). }
  destruct q as [next st0]. cbn [fst snd] in Hq. destruct Hq as (Hi0 & Ho & Hv & Hin & Hnv).
  pose proof (proj1 (Forall_forall _ _) Hvalid _ Hin) as Hr. cbn in Hr.
  destruct (Z.eqb_spec next INVALID_VERTEX); [lia|]. eexists. split; [done|].
  assert (Hi1 : gorder_inv (visit st0 next)) by (apply visit_inv; [done|done|by rewrite Hv]).
  destruct (keeps_foldl count_up (get_neighbors next) _ count_up_keeps Hi1) as [Hi2 Ho2].
  assert (Hs : forall st1, gorder_inv st1 -> gorder_inv (slide st1) /\ ordered (slide st1) = ordered st1).
  { intros st1 H1. unfold slide. destruct (window_queue st1) as [|r rest]; [done|].
    destruct (_ <? _)%nat; [|done]. edestruct (keeps_foldl count_down (get_neighbors r)) as [Ha Hb];
      [apply count_down_keeps| |split; [exact Ha|exact Hb]].
    apply (keeps_intro st1 _ H1); [done|done|]. intros v Hin'. by left. }
  destruct (Hs _ Hi2) as [Hi3 Ho3]. split; [done|]. exists next. rewrite Ho3, Ho2. cbn. by rewrite Ho.
Qed.

Lemma loop_perm fuel n st :
  gorder_inv st -> (length adj <= size (visited st) + fuel)%nat ->
  exists st', gorder_loop fuel n st = Some st' /\ ordered st' ≡ₚ adj.*1.
Proof.
  revert n st. induction fuel as [|fuel IH]; intros n st Hi Hf; cbn [gorder_loop].
  - destruct (Nat.ltb_spec (size (visited st)) (length adj)) as [?|Hl]; [lia|]. exists st. split; [done|].
    destruct Hi as [H1 H2 H3 _]. rewrite H2, size_list_to_set in Hl by done.
    apply submseteq_length_Permutation; [by apply NoDup_submseteq|]. by rewrite length_fmap.
  - destruct (Nat.ltb_spec (size (visited st)) (length adj)) as [Hl|Hl].
    + destruct (step_inv n st Hi Hl) as (st' & -> & Hi' & v & Ho & Hv & _). apply IH; [done|].
      rewrite (gi_visited st' Hi'), Ho, list_to_set_app_L, <- (gi_visited st Hi). cbn.
      rewrite size_union by set_solver. rewrite union_empty_r_L, size_singleton. lia.
    + exists st. split; [done|]. destruct Hi as [H1 H2 H3 _]. rewrite H2, size_list_to_set in Hl by done.
      apply submseteq_length_Permutation; [by apply NoDup_submseteq|]. by rewrite length_fmap.
Qed.

End Map.

Lemma seed_elem adj : seed adj = INVALID_VERTEX \/ seed adj ∈ adj.*1.
Proof.
  unfold seed. assert (Hg : forall (l : list (Z * list Z)) s m,
    (foldl (fun '(s, m) q => if m <? Z.of_nat (length q.2) then (q.1, Z.of_nat (length q.2)) else (s, m))
      (s, m) l).1 = s \/
    (foldl (fun '(s, m) q => if m <? Z.of_nat (length q.2) then (q.1, Z.of_nat (length q.2)) else (s, m))
      (s, m) l).1 ∈ l.*1).
  { induction l as [|q l IH]; intros s m; cbn; [auto|]. destruct (_ <? _).
    - destruct (IH q.1 (Z.of_nat (length q.2))) as [->|]; set_solver.
    - destruct (IH s m) as [->|]; set_solver. }
  apply Hg.
Qed.

Lemma gorder_perm adj window_size fuel :
  NoDup adj.*1 -> Forall (fun v => 0 <= v < INVALID_VERTEX) adj.*1 -> (length adj <= fuel)%nat ->
  exists l, gorder_reordering_optimized adj window_size fuel = Some l /\ l ≡ₚ adj.*1.
Proof.
  intros Hnd Hv Hf. destruct adj as [|q rest] eqn:E; [by exists []|]. rewrite <- E in Hnd, Hv, Hf |- *.
  assert (Hs : exists s, gorder_reordering_optimized adj window_size fuel =
    ordered <$> gorder_loop adj window_size fuel 0
      (foldl (seed_count adj) (visit (Gorder [] ∅ [] ∅ ∅) s) (get_neighbors adj s)) /\ s ∈ adj.*1).
  { exists (if seed adj =? INVALID_VERTEX then q.1 else seed adj).
    assert (Hin : (if seed adj =? INVALID_VERTEX then q.1 else seed adj) ∈ adj.*1).
    { destruct (Z.eqb_spec (seed adj) INVALID_VERTEX); [rewrite E; cbn; set_solver|].
      by destruct (seed_elem adj). }
    split; [|done]. rewrite Forall_forall in Hv. specialize (Hv _ Hin). rewrite E. rewrite E in Hv, Hin.
    unfold gorder_reordering_optimized.
    destruct (Z.eqb_spec (if seed (q :: rest) =? INVALID_VERTEX then q.1 else seed (q :: rest)) INVALID_VERTEX);
      [lia|done]. }
  destruct Hs as (s & -> & Hin).
  assert (Hi0 : gorder_inv adj (visit (Gorder [] ∅ [] ∅ ∅) s)).
  { apply visit_inv; [|done|set_solver]. constructor; cbn; [constructor|done|set_solver|set_solver]. }
  destruct (keeps_foldl adj (seed_count adj) (get_neighbors adj s) _ (seed_count_keeps adj) Hi0) as [Hi1 _].
  destruct (loop_perm adj window_size Hnd Hv fuel 0 _ Hi1) as (st' & -> & Hp); [lia|].
  exists (ordered st'). done.
Qed.

(** C14: the reordering terminates within as many steps as the map has
    vertices and returns every vertex of the map exactly once, whatever the
    iteration order of its hash containers. *)
Theorem gorder_permutation adj window_size fuel :
  NoDup adj.*1 -> Forall (fun v => 0 <= v < INVALID_VERTEX) adj.*1 -> (length adj <= fuel)%nat ->
  exists l, gorder_reordering_optimized adj window_size fuel = Some l /\ l ≡ₚ adj.*1.
Proof. apply gorder_perm. Qed.

End Gorder.

#[export] Instance elements_order : SetOrder := {| set_order := fun _ s => elements s; set_order_elements := fun _ _ => reflexivity _ |}.

Lemma gorder_permutation_witness :
  exists l, gorder_reordering_optimized (cfg := small_config)
      [(4, [7; 9; 2]); (7, [4]); (2, [4; 7]); (5, [])] 20 4 = Some l /\ l ≡ₚ [4; 7; 2; 5].
Proof.
  apply (gorder_permutation (cfg := small_config)).
  - apply (bool_decide_eq_true_1 (NoDup [4; 7; 2; 5])). vm_compute. reflexivity.
  - cbn. repeat (constructor; [unfold INVALID_VERTEX; lia|]). constructor.
  - reflexivity.
Defined.

End Reorder.
