(* ===== verification/Builder.v ===== *)
(** * The page builder ([io/builder.h], [builder.cc])

    Packs vertices into a CSR page one at a time, refusing a vertex that would
    not fit.  The neighbour data are always raw 32-bit identifiers: the builder
    knows nothing of the compressing build, whose readers decode PTV. *)

From S2P Require Import Prelude Config CsrPage.

Local Open Scope Z_scope.

Module Builder.
Import Csr.

Section Builder.
Context `{cfg : Config}.

Record csr_page_builder_t := PageBuilder {
  page_size_ : nat;
  edge_slot_count_ : Z;
  vertices_ : list Z;
  offsets_ : list Z;
  degrees_ : list Z;
  edges_ : list Z;
  current_edge_offset_ : Z;
  giant_vertices_ : list (Z * list Z)
}.

Definition new_builder (page_size : nat) (edge_slot_count : Z) : csr_page_builder_t :=
  PageBuilder page_size edge_slot_count [] [] [] [] 0 [].

Definition is_empty (b : csr_page_builder_t) : bool := bool_decide (vertices_ b = []).

Definition estimated_size (b : csr_page_builder_t) : nat :=
  METADATA_SIZE + neighbor_block_data_size + length (vertices_ b) * VERTEX_SIZE + length (edges_ b) * 4.

(** The overload with per-vertex slots.  The sum of the degree and the slots
    is 32-bit. *)
Definition add_vertex (b : csr_page_builder_t) (v : Z) (ns : list Z) (slots : Z) :
    res (bool * csr_page_builder_t) :=
  let degree := u32 (Z.of_nat (length ns)) in
  let giant := GIANT_DEGREE_BOUND <=? degree in
  let room := u32 (degree + slots) in
  let size := Z.of_nat (estimated_size b + VERTEX_SIZE) + (if giant then 0 else room * 4) in
  if (Z.of_nat (page_size_ b) <? size) && negb (is_empty b) then Ok (false, b)
  else if giant then
    Ok (true, PageBuilder (page_size_ b) (edge_slot_count_ b) (vertices_ b ++ [v]) (offsets_ b ++ [0])
      (degrees_ b ++ [degree]) (edges_ b) (current_edge_offset_ b) (giant_vertices_ b ++ [(v, ns)]))
  else if 2 ^ 16 - 1 <? current_edge_offset_ b then Throw runtime_error
  else
    Ok (true, PageBuilder (page_size_ b) (edge_slot_count_ b) (vertices_ b ++ [v])
      (offsets_ b ++ [u16 (current_edge_offset_ b)]) (degrees_ b ++ [degree])
      (edges_ b ++ ns ++ replicate (Z.to_nat slots) 0)
      (u32 (current_edge_offset_ b + room * 4)) (giant_vertices_ b)).

Definition add_vertex_default (b : csr_page_builder_t) (v : Z) (ns : list Z) : res (bool * csr_page_builder_t) :=
  add_vertex b v ns (edge_slot_count_ b).

(** [giant_vertices_] is kept. *)
Definition clear_all (b : csr_page_builder_t) : csr_page_builder_t :=
  PageBuilder (page_size_ b) (edge_slot_count_ b) [] [] [] [] 0 (giant_vertices_ b).

Definition num_edges (b : csr_page_builder_t) : Z :=
  foldr (fun '(v, d) acc => (if existsb (Z.eqb v) (giant_vertices_ b).*1 then 0 else d) + acc) 0
    (zip (vertices_ b) (degrees_ b)).

Definition vertex_array (b : csr_page_builder_t) : list csr_vertex_t :=
  zip_with (fun '(v, d) o => CsrVertex v d o 0) (zip (vertices_ b) (degrees_ b)) (offsets_ b).

(** The parsed page, the vertex map and the cleared builder. *)
Definition build (b : csr_page_builder_t) : res (csr_page_t * list (Z * Z) * csr_page_builder_t) :=
  if is_empty b then Throw runtime_error
  else if 2 ^ 16 - 1 <? Z.of_nat (length (vertices_ b)) then Throw runtime_error
  else if 2 ^ 16 - 1 <? num_edges b then Throw runtime_error
  else if (page_size_ b <? estimated_size b)%nat then Throw runtime_error
  else
    let p := new_page 0 in
    let d := build_write p (vertex_array b) (u32s_bytes (edges_ b)) (Z.of_nat (length (vertices_ b)))
               (num_edges b) (u32 (Z.of_nat (estimated_size b))) in
    let vertex_map := imap (fun i v => (v, u16 (Z.of_nat i))) (vertices_ b) in
    page ← self_parse (CsrPage 0 d false 0 0 0 0 0 (0%nat, 0) (0%nat, 0) None false);
    Ok (page, vertex_map, clear_all b).

(** ** What has been added *)

Definition is_giant_degree (d : Z) : bool := GIANT_DEGREE_BOUND <=? d.

Record builder_inv (b : csr_page_builder_t) (adj : list (Z * list Z)) : Prop := {
  bi_size : page_size_ b = PAGE_SIZE;
  bi_vertices : vertices_ b = adj.*1;
  bi_degrees : degrees_ b = (fun q => Z.of_nat (length q.2)) <$> adj;
  bi_offsets : length (offsets_ b) = length adj;
  bi_placed : Forall2 (placed ∅ (u32s_bytes (edges_ b))) adj (vertex_array b);
  bi_offset : current_edge_offset_ b = 4 * Z.of_nat (length (edges_ b));
  bi_fits : adj <> [] -> (estimated_size b <= PAGE_SIZE)%nat;
  bi_empty : adj = [] -> edges_ b = [];
  bi_giants : Forall (fun q => is_giant_list q.2 = true -> q.1 ∈ (giant_vertices_ b).*1) adj;
  bi_edges : foldr (fun (q : Z * list Z) acc => (if is_giant_list q.2 then 0 else Z.of_nat (length q.2)) + acc) 0 adj
    <= Z.of_nat (length (edges_ b))
}.

Hypothesis Hcompress : NEIGHBOR_COMPRESS = false.
Hypothesis Hpage : Z.of_nat PAGE_SIZE <= 2 ^ 16.
Hypothesis Hbound : 0 <= GIANT_DEGREE_BOUND.

Lemma new_builder_inv slots : builder_inv (new_builder PAGE_SIZE slots) [].
Proof. constructor; try done; constructor. Qed.

Lemma clear_all_inv b adj : builder_inv b adj -> builder_inv (clear_all b) [].
Proof. intros []. constructor; try done; constructor. Qed.

(** A vertex that fits a page alone. *)
Definition fits_alone (ns : list Z) (slots : Z) : Prop :=
  Z.of_nat (METADATA_SIZE + neighbor_block_data_size + VERTEX_SIZE) +
    (if is_giant_list ns then 0 else 4 * (Z.of_nat (length ns) + slots)) <= Z.of_nat PAGE_SIZE.

Lemma vertex_array_snoc b adj v d o :
  builder_inv b adj -> forall b', vertices_ b' = vertices_ b ++ [v] -> degrees_ b' = degrees_ b ++ [d] ->
  offsets_ b' = offsets_ b ++ [o] -> vertex_array b' = vertex_array b ++ [CsrVertex v d o 0].
Proof.
  intros [_ H1 H2 H3 _ _ _ _ _ _] b' E1 E2 E3. unfold vertex_array. rewrite E1, E2, E3.
  rewrite zip_with_app by (rewrite H1, H2, !length_fmap; done).
  rewrite zip_with_app; [done|]. rewrite length_zip_with, H1, H2, !length_fmap. lia.
Qed.

Lemma bi_edges_snoc adj ns v e e' :
  foldr (fun (q : Z * list Z) acc => (if is_giant_list q.2 then 0 else Z.of_nat (length q.2)) + acc) 0 adj <= e ->
  (if is_giant_list ns then 0 else Z.of_nat (length ns)) + e <= e' ->
  foldr (fun (q : Z * list Z) acc => (if is_giant_list q.2 then 0 else Z.of_nat (length q.2)) + acc) 0 (adj ++ [(v, ns)]) <= e'.
Proof.
  revert e e'. induction adj as [|q adj IH]; intros e e' He He'; cbn [foldr app snd] in *; [lia|].
  destruct (is_giant_list q.2).
  - apply (IH e e'); lia.
  - pose proof (IH (e - Z.of_nat (length q.2)) (e' - Z.of_nat (length q.2))). lia.
Qed.

Lemma forall_giants adj v ns (l l' : list (Z * list Z)) :
  Forall (fun q : Z * list Z => is_giant_list q.2 = true -> q.1 ∈ l.*1) adj -> l ⊆ l' ->
  (is_giant_list ns = true -> v ∈ l'.*1) ->
  Forall (fun q : Z * list Z => is_giant_list q.2 = true -> q.1 ∈ l'.*1) (adj ++ [(v, ns)]).
Proof.
  intros Ha Hl Hn. apply Forall_app. split; [|by constructor].
  eapply Forall_impl; [done|]. cbn. intros q Hq Hg. specialize (Hq Hg).
  apply list_elem_of_fmap in Hq as (x & -> & Hx). apply list_elem_of_fmap. eauto.
Qed.

Lemma add_giant_inv b adj v ns :
  builder_inv b adj -> is_giant_list ns = true -> Z.of_nat (length ns) < 2 ^ 32 ->
  (estimated_size b + VERTEX_SIZE <= PAGE_SIZE)%nat ->
  builder_inv (PageBuilder PAGE_SIZE (edge_slot_count_ b) (vertices_ b ++ [v]) (offsets_ b ++ [0])
    (degrees_ b ++ [Z.of_nat (length ns)]) (edges_ b) (current_edge_offset_ b) (giant_vertices_ b ++ [(v, ns)]))
    (adj ++ [(v, ns)]).
Proof.
  intros Hi Hg Hns Hs. destruct (Hi) as [I1 I2 I3 I4 I5 I6 I7 I8 I9 I10].
  constructor; cbn [page_size_ vertices_ degrees_ offsets_ edges_ current_edge_offset_ giant_vertices_].
  - done.
  - by rewrite I2, fmap_app.
  - by rewrite I3, fmap_app.
  - rewrite !length_app, I4. done.
  - erewrite (vertex_array_snoc b adj); try done. apply Forall2_app; [done|].
    constructor; [|constructor]. unfold is_giant_list in Hg. apply Z.leb_le in Hg.
    constructor; cbn [vertex_id degree offset delete_mark fst snd]; [done|lia|done|unfold in_width; lia|done|intros; lia].
  - done.
  - intros _. unfold estimated_size, VERTEX_SIZE in *. cbn [vertices_ edges_]. rewrite length_app. cbn [length]. lia.
  - by destruct adj.
  - eapply forall_giants; [done|set_solver|]. intros _. rewrite fmap_app. set_solver.
  - eapply bi_edges_snoc; [done|]. rewrite Hg. lia.
Qed.

Lemma add_normal_inv b adj v ns slots :
  builder_inv b adj -> is_giant_list ns = false -> 0 <= slots -> Z.of_nat (length ns) < 2 ^ 32 ->
  Z.of_nat (estimated_size b + VERTEX_SIZE) + (Z.of_nat (length ns) + slots) * 4 <= Z.of_nat PAGE_SIZE ->
  builder_inv (PageBuilder PAGE_SIZE (edge_slot_count_ b) (vertices_ b ++ [v])
      (offsets_ b ++ [u16 (current_edge_offset_ b)]) (degrees_ b ++ [Z.of_nat (length ns)])
      (edges_ b ++ ns ++ replicate (Z.to_nat slots) 0)
      (u32 (current_edge_offset_ b + (Z.of_nat (length ns) + slots) * 4)) (giant_vertices_ b))
    (adj ++ [(v, ns)]).
Proof.
  intros Hi Hg Hsl Hns Hs. destruct (Hi) as [I1 I2 I3 I4 I5 I6 I7 I8 I9 I10].
  unfold estimated_size, METADATA_SIZE, VERTEX_SIZE in Hs.
  constructor; cbn [page_size_ vertices_ degrees_ offsets_ edges_ current_edge_offset_ giant_vertices_].
  - done.
  - by rewrite I2, fmap_app.
  - by rewrite I3, fmap_app.
  - rewrite !length_app, I4. done.
  - erewrite (vertex_array_snoc b adj); try done. rewrite u32s_bytes_app. apply Forall2_app.
    { eapply Forall2_impl; [done|]. intros. by apply placed_app. }
    constructor; [|constructor].
    rewrite I6, (wrap_small 16) by (unfold in_width; lia).
    constructor; cbn [vertex_id degree offset delete_mark fst snd]; [done|lia|done|unfold in_width; lia|..].
    + intros _. rewrite Z.mul_comm. apply Z.mod_mul. lia.
    + intros _. unfold neighbor_bytes. rewrite Hcompress, lookup_empty. cbn. rewrite app_nil_r.
      rewrite u32s_bytes_app, !length_app, !length_u32s_bytes.
      replace (Z.to_nat (4 * Z.of_nat (length (edges_ b)))) with (length (u32s_bytes (edges_ b)))
        by (rewrite length_u32s_bytes; lia).
      rewrite length_u32s_bytes. split; [lia|].
      rewrite mem_read_app_r, length_u32s_bytes, Nat.sub_diag by (rewrite length_u32s_bytes; lia).
      rewrite mem_read_app_l by (rewrite length_u32s_bytes; lia). unfold mem_read. rewrite drop_0.
      apply take_ge. rewrite length_u32s_bytes. lia.
  - rewrite I6, wrap_small by (unfold in_width; lia). rewrite !length_app, length_replicate. lia.
  - intros _. unfold estimated_size, METADATA_SIZE, VERTEX_SIZE. cbn [vertices_ edges_].
    rewrite !length_app, length_replicate. cbn [length]. lia.
  - by destruct adj.
  - eapply forall_giants; [done|done|]. by rewrite Hg.
  - eapply bi_edges_snoc; [done|]. rewrite Hg, !length_app. lia.
Qed.

(** A vertex is added unless it would not fit beside those already there. *)
Lemma add_vertex_spec b adj v ns slots :
  builder_inv b adj -> Z.of_nat (length ns) < 2 ^ 31 -> 0 <= slots < 2 ^ 16 -> fits_alone ns slots ->
  (exists b', add_vertex b v ns slots = Ok (true, b') /\ builder_inv b' (adj ++ [(v, ns)])) \/
  (add_vertex b v ns slots = Ok (false, b) /\ adj <> []).
Proof.
  intros Hi Hns Hslots Hfit. destruct (Hi) as [I1 I2 I3 I4 I5 I6 I7 I8 I9 I10]. unfold add_vertex.
  rewrite (wrap_small 32 (Z.of_nat (length ns))) by (unfold in_width; lia).
  rewrite (wrap_small 32 (Z.of_nat (length ns) + slots)) by (unfold in_width; lia).
  fold (is_giant_list ns). rewrite I1.
  set (size := Z.of_nat (estimated_size b + VERTEX_SIZE) + _).
  assert (Hemp : is_empty b = bool_decide (adj = [])).
  { unfold is_empty. rewrite I2. by destruct adj. }
  destruct ((Z.of_nat PAGE_SIZE <? size) && negb (is_empty b)) eqn:Eq.
  { right. split; [done|]. intros ->. rewrite Hemp in Eq. by rewrite andb_false_r in Eq. }
  left. assert (Hsz : size <= Z.of_nat PAGE_SIZE).
  { rewrite Hemp in Eq. case_bool_decide as Ea; cbn [negb] in Eq.
    - unfold size, fits_alone, estimated_size in *. rewrite I2, (I8 Ea), Ea. cbn [fmap list_fmap length].
      destruct (is_giant_list ns); lia.
    - rewrite andb_true_r in Eq. by apply Z.ltb_ge in Eq. }
  unfold size, estimated_size, METADATA_SIZE, VERTEX_SIZE in Hsz.
  destruct (is_giant_list ns) eqn:Eg.
  - eexists. split; [done|]. apply add_giant_inv; [done|done|lia|].
    unfold estimated_size, METADATA_SIZE, VERTEX_SIZE. lia.
  - destruct (Z.ltb_spec (2 ^ 16 - 1) (current_edge_offset_ b)); [lia|].
    eexists. split; [done|]. apply add_normal_inv; [done|done|lia|lia|].
    unfold estimated_size, METADATA_SIZE, VERTEX_SIZE. lia.
Qed.

Lemma num_edges_bound b adj : builder_inv b adj -> num_edges b <= Z.of_nat (length (edges_ b)).
Proof.
  intros [_ I2 I3 _ _ _ _ _ I9 I10]. etransitivity; [|exact I10]. unfold num_edges. rewrite I2, I3.
  clear -I9. induction I9 as [|q adj Hq _ IH]; cbn [foldr zip_with fmap list_fmap snd]; [lia|].
  assert (He : is_giant_list q.2 = true -> existsb (Z.eqb q.1) (giant_vertices_ b).*1 = true).
  { intros Hg. apply existsb_exists. exists q.1. split; [|apply Z.eqb_refl].
    apply list_elem_of_In. by apply Hq. }
  destruct (is_giant_list q.2); [rewrite He by done|destruct (existsb _ _)]; lia.
Qed.

Lemma length_built_array b adj : builder_inv b adj -> length (vertex_array b) = length adj.
Proof. intros [_ _ _ _ I5 _ _ _ _ _]. by rewrite <- (Forall2_length _ _ _ I5). Qed.

Lemma build_spec b adj :
  builder_inv b adj -> adj <> [] -> adj_ok adj ->
  exists page, build b = Ok (page, imap (fun i q => (q.1, Z.of_nat i)) adj, clear_all b) /\ shows page adj /\
    forall q, data q = data page -> is_parse_ q = false ->
      exists q', self_parse q = Ok q' /\ shows q' adj /\ parent_page_no_ q' = 0 /\ page_no q' = page_no q.
Proof.
  intros Hi Hne Hok. pose proof (num_edges_bound b adj Hi) as Hnum.
  pose proof (length_built_array b adj Hi) as Hlv. destruct Hi as [I1 I2 I3 I4 I5 I6 I7 I8 I9 I10].
  specialize (I7 Hne). assert (Hlen : length (vertices_ b) = length adj) by (by rewrite I2, length_fmap).
  pose proof I7 as Hs. unfold estimated_size, METADATA_SIZE, VERTEX_SIZE in Hs. rewrite Hlen in Hs.
  unfold build. assert (is_empty b = false) as ->.
  { unfold is_empty. rewrite I2. by destruct adj. }
  rewrite Hlen, I1. destruct (Z.ltb_spec (2 ^ 16 - 1) (Z.of_nat (length adj))); [lia|].
  destruct (Z.ltb_spec (2 ^ 16 - 1) (num_edges b)); [lia|].
  destruct (Nat.ltb_spec PAGE_SIZE (estimated_size b)); [lia|].
  assert (Hsz : estimated_size b = (vertices_off + length (vertex_array b) * VERTEX_SIZE +
    length (u32s_bytes (edges_ b)))%nat).
  { rewrite Hlv, length_u32s_bytes. unfold estimated_size, vertices_off. rewrite Hlen. lia. }
  assert (Hparse : forall q, data q = build_write (new_page 0) (vertex_array b) (u32s_bytes (edges_ b))
      (Z.of_nat (length adj)) (num_edges b) (u32 (Z.of_nat (estimated_size b))) -> is_parse_ q = false ->
    exists q', self_parse q = Ok q' /\ shows q' adj /\ parent_page_no_ q' = 0 /\ page_no q' = page_no q /\
      data q' = data q).
  { intros q Hd Hp. rewrite Hsz in Hd.
    destruct (write_parses (new_page 0) ∅ adj (vertex_array b) (u32s_bytes (edges_ b)) (num_edges b) q)
      as (q' & ? & ? & ? & _ & ? & ?); eauto 10.
    - split; [done|]. lia.
    - split; [|split]; cbn; unfold in_width; lia.
    - rewrite <- Hsz. lia.
    - lia. }
  destruct (Hparse (CsrPage 0 (build_write (new_page 0) (vertex_array b) (u32s_bytes (edges_ b))
      (Z.of_nat (length adj)) (num_edges b) (u32 (Z.of_nat (estimated_size b))))
      false 0 0 0 0 0 (0%nat, 0) (0%nat, 0) None false)) as (page & -> & Hsh & _ & _ & Hd); [done|done|].
  cbn [mbind res_bind]. exists page. split; [|split; [done|]].
  - f_equal. f_equal. f_equal. rewrite I2, imap_fmap. apply list_eq. intros i. rewrite !list_lookup_imap.
    destruct (adj !! i) as [q|] eqn:Ei; [|done]. cbn. do 2 f_equal. apply lookup_lt_Some in Ei.
    apply wrap_small. unfold in_width. lia.
  - intros q Hq Hp. cbn in Hd. rewrite Hd in Hq. destruct (Hparse q Hq Hp) as (q' & ? & ? & ? & ? & _). eauto 10.
Qed.

(** ** Packing *)

(** Vertices added one after the other, each of which must be accepted. *)
Fixpoint add_all (b : csr_page_builder_t) (l : list (Z * list Z * Z)) : res (bool * csr_page_builder_t) :=
  match l with
  | [] => Ok (true, b)
  | (v, ns, slots) :: l =>
    '(ok, b) ← add_vertex b v ns slots;
    if (ok : bool) then add_all b l else Ok (false, b)
  end.

(** A page built from any vertices a fresh builder accepted shows exactly
    those vertices in the order added, each with its neighbours (a giant
    vertex with its degree and no neighbours), whatever slots were reserved;
    the vertex map gives each its position, and the build cannot fail. *)
Theorem builder_pages slots0 l b :
  l <> [] -> adj_ok l.*1 ->
  Forall (fun q => Z.of_nat (length q.1.2) < 2 ^ 31 /\ 0 <= q.2 < 2 ^ 16 /\ fits_alone q.1.2 q.2) l ->
  add_all (new_builder PAGE_SIZE slots0) l = Ok (true, b) ->
  exists page, build b = Ok (page, imap (fun i q => (q.1, Z.of_nat i)) l.*1, clear_all b) /\ shows page l.*1.
Proof.
  intros Hne Hok Hl Hadd.
  assert (Hg : forall b0 adj l, builder_inv b0 adj ->
    Forall (fun q => Z.of_nat (length q.1.2) < 2 ^ 31 /\ 0 <= q.2 < 2 ^ 16 /\ fits_alone q.1.2 q.2) l ->
    add_all b0 l = Ok (true, b) -> builder_inv b (adj ++ l.*1)).
  { clear -Hcompress Hpage Hbound. intros b0 adj l. revert b0 adj. induction l as [|[[v ns] sl] l IH]; intros b0 adj Hi Hl Ha.
    { injection Ha as <-. by rewrite app_nil_r. }
    apply Forall_cons in Hl as [(H1 & H2 & H3) Hl]. cbn [add_all] in Ha.
    destruct (add_vertex_spec b0 adj v ns sl Hi H1 H2 H3) as [(b1 & E & Hi1)|[E _]]; rewrite E in Ha;
      cbn [mbind res_bind] in Ha; [|done].
    cbn [fmap list_fmap fst]. change ((v, ns) :: l.*1) with ([(v, ns)] ++ l.*1). rewrite app_assoc.
    by apply (IH b1). }
  specialize (Hg _ [] l (new_builder_inv slots0) Hl Hadd). cbn [app] in Hg.
  destruct (build_spec b l.*1 Hg) as (page & Hb & Hs & _); [by destruct l|done|]. eauto.
Qed.

End Builder.

Lemma builder_pages_witness :
  let l := [(4, [1; 2; 9], 1); (7, replicate 9 3, 0); (2, [], 2); (5, [4], 0)] in
  exists b page, add_all (cfg := small_config) (new_builder (PAGE_SIZE (Config := small_config)) 0) l = Ok (true, b) /\
    build (cfg := small_config) b = Ok (page, imap (fun i q => (q.1, Z.of_nat i)) l.*1, clear_all b) /\
    shows (H := small_config) page l.*1.
Proof.
  cbn zeta. eexists. destruct (builder_pages (cfg := small_config) eq_refl ltac:(cbn; lia) ltac:(cbn; lia) 0
    [(4, [1; 2; 9], 1); (7, replicate 9 3, 0); (2, [], 2); (5, [4], 0)]
    (match add_all (cfg := small_config) (new_builder (PAGE_SIZE (Config := small_config)) 0)
       [(4, [1; 2; 9], 1); (7, replicate 9 3, 0); (2, [], 2); (5, [4], 0)] with
     | Ok (_, b) => b | Throw _ => new_builder 0 0 end)) as (page & H1 & H2).
  - done.
  - repeat (constructor; [split; [split; vm_compute; congruence|];
      repeat (constructor; [split; vm_compute; congruence|]); constructor|]). constructor.
  - repeat (constructor; [split; [cbn; lia|split; [cbn; lia|vm_compute; congruence]]|]). constructor.
  - vm_compute. reflexivity.
  - exists page. split; [|split; [exact H1|exact H2]]. vm_compute. reflexivity.
Defined.

End Builder.
