(* ===== verification/Smo.v ===== *)
(** * Structure modification: consolidating a page ([part/smo.h], [smo.cc])

    A consolidation merges the delta records of a CSR page into its lists,
    writes them to one new page or, when they no longer fit, to several, and
    switches the vertices over.  Between the two a forwarding table on the old
    page sends new records to the new pages.  The switch happens at the end of
    the task or, with [manual_version_switch_], when the pending switches are
    published; the old page is recycled when the last of the replaced vertex
    versions has been reclaimed.

    Left out: the index pages (their update does not touch the state below),
    statistics and logging, the flusher.  Records written between the fetch of
    the deltas and the installation of the table are drained as in the code; a
    task run as one step meets none.  [defer_recycle_old_page] has no caller,
    so the list of deferred pages is always empty. *)

From S2P Require Import Prelude Config DeltaPage VertexIndex PageMap CsrPage Db Reorder Builder.

Local Open Scope Z_scope.

(** The iteration order of a hash map; [salt] stands for everything it may
    depend on besides the entries. *)
Class MapOrder := {
  map_order : forall {V : Type}, nat -> gmap Z V -> list (Z * V);
  map_order_list : forall V n (m : gmap Z V), map_order n m ≡ₚ map_to_list m
}.

Module Smo.
Import Delta VIndex PMap Csr DB Builder.

Section Smo.
Context {A G SK : Type} `{cfg : Config} `{!PageAllocator A (Z.of_nat DELTA_PAGE_SIZE)}
  `{!PageAllocator A (Z.of_nat PAGE_SIZE)} `{!GiantStore G} `{!UpdateSketch SK} `{!SetOrder} `{!MapOrder}.

Abbreviation db := (bw_graph_db_t (A := A) (G := G) (SK := SK)).
Abbreviation graph_t := (gmap Z (list Z)).
Abbreviation locations_t := (gmap Z prepared_vertex_version_t).

(** ** State *)

Record pending_version_switch_t := Pending {
  new_locations : locations_t;
  forwarder : Z;                 (* the forwarding table, by its name *)
  giant_vertices : gset Z;
  old_page_no : Z;
  need_split : bool;
  new_page_nos : list Z
}.

(** [reclaim_batches]: the replaced versions not reclaimed yet and the page
    that is recycled after the last of them. *)
Record smo_t := SmoState {
  database : db;
  manual_version_switch_ : bool;
  pending_version_switches_ : list pending_version_switch_t;
  reclaim_batches : list (gset Z * Z)
}.

Definition upd_db (f : db -> db) (s : smo_t) : smo_t :=
  SmoState (f (database s)) (manual_version_switch_ s) (pending_version_switches_ s) (reclaim_batches s).
Definition upd_index (f : vertex_index_t -> vertex_index_t) : smo_t -> smo_t :=
  upd_db (fun d => set_vertex_index d (f (vertex_index d))).
Definition upd_map (f : page_map_t (A := A) -> page_map_t (A := A)) : smo_t -> smo_t :=
  upd_db (fun d => set_page_map d (f (page_map_table d))).
Definition set_pending (q : list pending_version_switch_t) (s : smo_t) : smo_t :=
  SmoState (database s) (manual_version_switch_ s) q (reclaim_batches s).
Definition set_batches (b : list (gset Z * Z)) (s : smo_t) : smo_t :=
  SmoState (database s) (manual_version_switch_ s) (pending_version_switches_ s) b.

Abbreviation smo := (stm smo_t).
Definition get_db : smo db := s ← get_state; mret (database s).

(** ** Merging *)

(** A live vertex of the page with its list; duplicates of an identifier
    overwrite each other, or add up when compressed. *)
Definition add_base (p : csr_page_t) (g : graph_t) (iv : Z * csr_vertex_t) : graph_t :=
  let '(idx, v) := iv in
  if is_deleted v then g
  else <[vertex_id v := if NEIGHBOR_COMPRESS then default [] (g !! vertex_id v) ++ page_neighbors p idx
                        else page_neighbors p idx]> g.

Definition snapshot_base (p : csr_page_t) : graph_t :=
  foldl (add_base p) ∅ (imap (fun i v => (u16 (Z.of_nat i), v)) (get_vertices p)).

(** The lists of giants come from the giant store. *)
Fixpoint replace_giants (vi : vertex_index_t) (vs : list Z) (g : graph_t) (gs : G) : option (graph_t * G) :=
  match vs with
  | [] => Some (g, gs)
  | v :: vs =>
    if is_giant_vertex vi (Z.to_nat v) then
      let '(ns, gs) := g_read_neighbor_clone gs v in
      ns ← ns; replace_giants vi vs (<[v := ns]> g) gs
    else replace_giants vi vs g gs
  end.

Definition merge_delta (g : graph_t) (r : delta_record_t) : graph_t :=
  match target r with
  | VERTEX => g
  | EDGE =>
    match type r with
    | INSERT => <[first r := default [] (g !! first r) ++ [second r]]> g
    | DELETE => match g !! first r with
                | Some ns => <[first r := filter (fun x => x <> second r) ns]> g
                | None => g
                end
    end
  end.

(** [std::unique]: the first of every run of equal elements. *)
Fixpoint unique (l : list Z) : list Z :=
  match l with
  | x :: (y :: _) as t => if x =? y then unique t else x :: unique t
  | _ => l
  end.

Definition sort_unique (l : list Z) : list Z := unique (merge_sort Z.le l).

Definition build_merged_graph (salt : nat) (p : csr_page_t) (deltas : list delta_record_t)
    (vi : vertex_index_t) (gs : G) : option (graph_t * G) :=
  let base := snapshot_base p in
  '(base, gs) ← replace_giants vi (map_order salt base).*1 base gs;
  Some (sort_unique <$> foldl merge_delta base deltas, gs).

(** 16 bytes of header; reserved slots are not counted. *)
Definition estimate_page_bytes (g : graph_t) : Z :=
  foldr (fun q acc => 12 + Z.of_nat (length q.2) * 4 + acc)
    (16 + Z.of_nat MAX_BLOCK_NEIGHBOR * 4) (map_to_list g).

(** ** Building the replacement pages *)

(** A page number for a CSR page. *)
Definition allocate_csr_page : smo Z :=
  d ← get_db;
  let '(offset, a) := allocate_page (page_bytes := Z.of_nat PAGE_SIZE) (csr_disk d) in
  _ ← modify (upd_db (fun d => set_csr d (csr_pages d) a));
  mret (u32 (offset `div` Z.of_nat PAGE_SIZE)).

Definition mark_dirty (p : csr_page_t) : csr_page_t :=
  CsrPage (page_no p) (data p) true (num_vertices_ p) (num_edges_ p) (used_bytes_ p) (parent_page_no_ p)
    (neighbor_page_count_ p) (neighbor_page_span_ p) (vertex_span_ p) (neighbor_ptr_ p) (is_parse_ p).

(** [buf_page_cp] into a free frame, which is parsed and then marked dirty; a
    null result, when the page is already there, is an exception. *)
Definition buf_page_cp (pno : Z) (bytes : buf) : smo unit :=
  d ← get_db;
  match csr_pages d !! pno with
  | Some _ => throw runtime_error
  | None =>
    p ← from_res (self_parse (CsrPage pno bytes false 0 0 0 0 0 (0%nat, 0) (0%nat, 0) None false));
    modify (upd_db (fun d => set_csr d (<[pno := mark_dirty p]> (csr_pages d)) (csr_disk d)))
  end.

(** The prepared versions of the vertices of a new page. *)
Fixpoint prepare_versions (pno : Z) (vmap : list (Z * Z)) (locs : locations_t) : smo locations_t :=
  match vmap with
  | [] => mret locs
  | (v, off) :: vmap =>
    d ← get_db;
    '(pv, vi) ← from_opt (prepare_vertex_version (vertex_index d) (Z.to_nat v) pno (u16 off));
    _ ← modify (upd_index (fun _ => vi));
    prepare_versions pno vmap (<[v := pv]> locs)
  end.

(** The slots to reserve for a vertex. *)
Definition slots_for (d : db) (v : Z) : Z :=
  match vertex_update_sketch_ d with
  | Some sk => u16 (sk_per_vertex_reservation sk v)
  | None => u16 EDGE_SLOT_COUNT
  end.

Definition do_no_split (salt : nat) (merged : graph_t) : smo (locations_t * list Z) :=
  new_page_no ← allocate_csr_page;
  d ← get_db;
  let per_vertex_slots := map_imap (fun v _ => Some (slots_for d v)) merged in
  '(p, vmap) ← from_res (build_from_adjacency_map (new_page new_page_no) (map_order salt merged) per_vertex_slots);
  _ ← buf_page_cp new_page_no (data p);
  locs ← prepare_versions new_page_no vmap ∅;
  mret (locs, [new_page_no]).

(** The builder, the locations and the pages made so far. *)
Definition split_state : Type := csr_page_builder_t * locations_t * list Z.

Definition flush_current_page (st : split_state) : smo split_state :=
  let '(b, locs, nos) := st in
  if is_empty b then mret st
  else
    '(built, vmap, b) ← from_res (build b);
    new_page_no ← allocate_csr_page;
    _ ← buf_page_cp new_page_no (data built);
    locs ← prepare_versions new_page_no vmap locs;
    mret (b, locs, nos ++ [new_page_no]).

Fixpoint split_loop (merged : graph_t) (vs : list Z) (st : split_state) : smo split_state :=
  match vs with
  | [] => mret st
  | v :: vs =>
    match merged !! v with
    | None => split_loop merged vs st
    | Some ns =>
      d ← get_db;
      '(ok, b) ← from_res (add_vertex st.1.1 v ns (slots_for d v));
      if (ok : bool) then split_loop merged vs (b, st.1.2, st.2)
      else
        st ← flush_current_page st;
        '(ok, b) ← from_res (add_vertex st.1.1 v ns (slots_for d v));
        if (ok : bool) then split_loop merged vs (b, st.1.2, st.2) else throw runtime_error
    end
  end.

Definition do_split (salt : nat) (merged : graph_t) : smo (locations_t * list Z) :=
  sorted_vertices ← from_opt (Reorder.gorder_reordering_optimized (map_order salt merged) 20 (size merged));
  st ← split_loop merged sorted_vertices
         (new_builder PAGE_SIZE (u16 EDGE_SLOT_COUNT), ∅, []);
  st ← flush_current_page st;
  mret (st.1.2, st.2).

(** ** Switching the vertices over *)

Definition finalize_vertex (fid : Z) (giants : gset Z) (v : Z) (loc : prepared_vertex_version_t) : smo Z :=
  d ← get_db;
  let boundary := forwarders (page_map_table d) !! fid ≫= (fun f => rerouted_tail_ f !! v) in
  new_head ← match boundary with
    | Some b =>
      _ ← modify (upd_map (fun m => truncate_chain_at m b));
      from_opt (delta_heads_ (vertex_index d) !! Z.to_nat v)
    | None => mret dh_invalid
    end;
  let t := if bool_decide (v ∈ giants) then GIANT else NORMAL in
  let vi := update_vertex_type (set_delta_head (vertex_index d) v new_head) (Z.to_nat v) t in
  let '(ok, _, vi) := publish_prepared_version vi (Z.to_nat v) loc in
  _ ← modify (upd_index (fun _ => vi));
  if (ok : bool) then from_opt (expected loc) else throw runtime_error.

(** Returns the replaced versions. *)
Fixpoint finalize_consolidation (fid : Z) (giants : gset Z) (locs : list (Z * prepared_vertex_version_t)) :
    smo (gset Z) :=
  match locs with
  | [] => mret ∅
  | (v, loc) :: locs =>
    old ← finalize_vertex fid giants v loc;
    rest ← finalize_consolidation fid giants locs;
    mret ({[old]} ∪ rest)
  end.

Definition drop_forwarder (fid : Z) (m : page_map_t (A := A)) : page_map_t :=
  set_forwarders (delete fid (forwarders m)) m.

(** The last reference to the forwarding table goes with the pending switch. *)
Definition publish_version_switch (salt : nat) (q : pending_version_switch_t) : smo unit :=
  olds ← finalize_consolidation (forwarder q) (giant_vertices q) (map_order salt (new_locations q));
  _ ← modify (fun s => set_batches (reclaim_batches s ++ [(olds, old_page_no q)]) s);
  _ ← modify (upd_map (fun m => (detach_forwarder_for m (old_page_no q)).2));
  modify (upd_map (drop_forwarder (forwarder q))).

Fixpoint publish_all (salt : nat) (qs : list pending_version_switch_t) : smo unit :=
  match qs with
  | [] => mret tt
  | q :: qs => _ ← publish_version_switch salt q; publish_all salt qs
  end.

(** ** Consolidation *)

Definition fetch_deltas (pno : Z) : smo (list delta_record_t) :=
  d ← get_db;
  let m := page_map_table d in
  '(rs, m) ← from_opt (fetch_deltas_with_mark (size (dom (pages m))) m pno);
  _ ← modify (upd_map (fun _ => m));
  mret rs.

(** Lists that reach the bound, and those of giants, go to the giant store. *)
Fixpoint promote_giants (merged : list (Z * list Z)) (giants : gset Z) : smo (gset Z) :=
  match merged with
  | [] => mret giants
  | (v, ns) :: merged =>
    d ← get_db;
    if is_giant_vertex (vertex_index d) (Z.to_nat v) || (GIANT_DEGREE_BOUND <=? Z.of_nat (length ns)) then
      let '(ok, gs) := g_insert_vertex (giant_db d) v ns in
      _ ← modify (upd_db (fun d => set_giants d gs));
      if (ok : bool) then promote_giants merged ({[v]} ∪ giants) else throw runtime_error
    else promote_giants merged giants
  end.

(** The table is a new object; it is put on the entry of the old page. *)
Definition install_forwarder (pno : Z) (locs : locations_t) : smo Z :=
  d ← get_db;
  let m := page_map_table d in
  let fid := fresh (dom (forwarders m)) in
  let f := PageDelta (pv_first <$> locs) ∅ in
  _ ← modify (upd_map (fun m =>
        install_forwarder_for (set_forwarders (<[fid := f]> (forwarders m)) m) pno fid));
  mret fid.

(** Records that reached the old page after the fetch are put in front of
    their vertices' chains, on the new pages. *)
Fixpoint reroute_strays (fid : Z) (locs : locations_t) (stray : list delta_record_t) : smo unit :=
  match stray with
  | [] => mret tt
  | r :: stray =>
    match target r with
    | VERTEX => reroute_strays fid locs stray
    | EDGE =>
      match locs !! first r with
      | None => throw runtime_error
      | Some loc =>
        d ← get_db;
        h ← from_opt (delta_heads_ (vertex_index d) !! Z.to_nat (first r));
        let r := DeltaRecord (target r) (type r) (first r) (second r) (time r) (dh_page_no h) (dh_record_idx h) in
        '(dloc, m) ← from_opt (insert_delta_and_get_loc (page_map_table d) (pv_first loc) r);
        let m := set_forwarders (alter (fun f => note_rerouted_tail f (first r) dloc) fid (forwarders m)) m in
        _ ← modify (upd_map (fun _ => m));
        _ ← modify (upd_index (fun vi => set_delta_head vi (first r) dloc));
        reroute_strays fid locs stray
      end
    end
  end.

(** Everything up to the switch; [None]: there was nothing to do. *)
Definition consolidate_prepare (salt : nat) (old_page_no : Z) (requested_threshold : Z) :
    smo (option pending_version_switch_t) :=
  d ← get_db;
  let safety_threshold := if requested_threshold =? 0 then MAX_DELTA_CHAIN_LENGTH else requested_threshold in
  if negb (smo_enabled d) then mret None
  else if get_delta_chain_length (page_map_table d) old_page_no <? safety_threshold then mret None
  else
    deltas ← fetch_deltas old_page_no;
    if bool_decide (deltas = []) then mret None
    else
      p ← from_opt (csr_pages d !! old_page_no);
      '(merged, gs) ← from_opt (build_merged_graph salt p deltas (vertex_index d) (giant_db d));
      _ ← modify (upd_db (fun d => set_giants d gs));
      if bool_decide (merged = ∅) then mret None
      else
        giants ← promote_giants (map_order salt merged) ∅;
        let need_split := Z.of_nat PAGE_SIZE <? estimate_page_bytes merged in
        '(locs, nos) ← (if need_split then do_split salt merged else do_no_split salt merged);
        fid ← install_forwarder old_page_no locs;
        stray ← fetch_deltas old_page_no;
        _ ← reroute_strays fid locs stray;
        mret (Some (Pending locs fid giants old_page_no need_split nos)).

(** The guard releases the claim however the task ends. *)
Definition consolidate_pages (salt : nat) (old_page_no requested_threshold : Z) (consolidation_claimed : bool) :
    smo unit :=
  finally
    (q ← consolidate_prepare salt old_page_no requested_threshold;
     match q with
     | None => mret tt
     | Some q =>
       s ← get_state;
       if manual_version_switch_ s
       then modify (set_pending (pending_version_switches_ s ++ [q]))
       else publish_version_switch salt q
     end)
    (if consolidation_claimed then upd_map (fun m => end_consolidation_for m old_page_no) else id).

(** A task in two halves, between which other calls may run: the first prepares
    the switch, and ends the task when there is nothing to do; the second
    publishes the switch, or leaves it to be published, and releases the claim. *)
Definition end_idle (pno : Z) (prepare : smo (option pending_version_switch_t)) : smo (option pending_version_switch_t) :=
  fun s => match prepare s with
    | (Ok (Some q), s) => (Ok (Some q), s)
    | (r, s) => (r, upd_map (fun m => end_consolidation_for m pno) s)
    end.

Definition begin_task (salt n : nat) : smo (option pending_version_switch_t) :=
  d ← get_db;
  '(pno, threshold) ← from_opt (smo_queue d !! n);
  _ ← modify (upd_db (fun d => set_queue d (list_delete n (smo_queue d))));
  end_idle pno (consolidate_prepare salt pno threshold).

Definition end_task (salt : nat) (q : pending_version_switch_t) : smo unit :=
  finally
    (s ← get_state;
     if manual_version_switch_ s
     then modify (set_pending (pending_version_switches_ s ++ [q]))
     else publish_version_switch salt q)
    (upd_map (fun m => end_consolidation_for m (old_page_no q))).

(** A worker takes the task at position [n] of the queue. *)
Definition run_task (salt n : nat) : smo unit :=
  d ← get_db;
  '(pno, threshold) ← from_opt (smo_queue d !! n);
  _ ← modify (upd_db (fun d => set_queue d (list_delete n (smo_queue d))));
  consolidate_pages salt pno threshold true.

(** ** Recycling *)

(** A version is reclaimed: its batch is decremented, and the page of a batch
    that becomes empty leaves the buffer pool and is given back. *)
Definition recycle_page (d : db) (pno : Z) : db :=
  set_csr d (delete pno (csr_pages d)) (free_page (page_bytes := Z.of_nat PAGE_SIZE) (csr_disk d) pno).

Definition finished (id : Z) (b : gset Z * Z) : bool := bool_decide (id ∈ b.1) && bool_decide (b.1 ∖ {[id]} = ∅).

Definition reclaim (s : smo_t) (id : Z) (rest : list Z) : smo_t :=
  let done := filter (finished id) (reclaim_batches s) in
  let left := (fun b : gset Z * Z => (b.1 ∖ {[id]}, b.2)) <$> filter (fun b => negb (finished id b)) (reclaim_batches s) in
  upd_db (fun d => foldl recycle_page d done.*2)
    (upd_index (fun vi => reclaim_version vi id rest) (set_batches left s)).

(** ** Publishing the pending switches *)

(** What the reclamation threads and the waiting thread do: the library frees
    the version at position [pick] of those it holds; with no such position a
    worker hands it the oldest queued version.  A reader lets go
    of its version before it walks the chain, so none is protected for long. *)
Definition gc_work (pick : nat) (s : smo_t) : option smo_t :=
  let vi := vertex_index (database s) in
  match hazptr_retired vi !! pick, version_gc_pop vi, hazptr_retired vi with
  | Some id, _, held => Some (reclaim s id (list_delete pick held))
  | None, Some vi, _ => Some (upd_index (fun _ => vi) s)
  | None, None, id :: rest => Some (reclaim s id rest)
  | None, None, [] => None
  end.

(** [None]: out of fuel, or waiting for ever. *)
Fixpoint wait_for_version_gc (fuel : nat) (pick : nat -> nat) (s : smo_t) : option smo_t :=
  match fuel with
  | O => None
  | S fuel =>
    if pending_version_count_ (vertex_index (database s)) =? 0 then Some s
    else s ← gc_work (pick fuel) s; wait_for_version_gc fuel pick s
  end.

Definition gc_fuel (vi : vertex_index_t) : nat := S (2 * length (retired_versions_ vi) + length (hazptr_retired vi)).

(** [wait_all_consolidations] returns when no task is running: the tasks are
    steps of their own, and publication is a step between them.  There is one
    vertex index, waited for when something was switched. *)
Definition publish_pending_versions (salt : nat) (pick : nat -> nat) : smo unit :=
  s ← get_state;
  _ ← modify (set_pending []);
  _ ← publish_all salt (pending_version_switches_ s);
  if bool_decide (pending_version_switches_ s = []) then mret tt
  else
    d ← get_db;
    s ← get_state;
    s ← from_opt (wait_for_version_gc (gc_fuel (vertex_index d)) pick s);
    modify (fun _ => s).

End Smo.
End Smo.
