(* ===== verification/SmoMerge.v ===== *)
(** * The merged graph of a consolidation

    [build_merged_graph] computes, for every vertex of the page, the ascending
    list without repetitions of the neighbour set that the page, the giant
    store and the delta records describe. *)

From S2P Require Import Prelude Config DeltaPage VertexIndex PageMap CsrPage Db EdgeOps Chains.
From S2P Require Import Reorder Builder Smo.

Local Open Scope Z_scope.

Module Merge.
Import Delta VIndex PMap Csr DB EdgeOps Chains Smo.

(** ** Sorting *)

Lemma elem_of_unique x l : x ∈ unique l <-> x ∈ l.
Proof.
  induction l as [|a [|b l] IH]; [done|done|]. cbn [unique] in *.
  destruct (Z.eqb_spec a b); rewrite ?elem_of_cons, IH, ?elem_of_cons; [subst|]; tauto.
Qed.

Lemma unique_sorted l : StronglySorted Z.le l -> StronglySorted Z.lt (unique l).
Proof.
  induction l as [|a [|b l] IH]; intros Hs; [constructor|by repeat constructor|].
  apply StronglySorted_inv in Hs as [Hs Ha]. cbn [unique] in *.
  destruct (Z.eqb_spec a b) as [->|Hne]; [auto|]. constructor; [auto|].
  apply Forall_forall. intros x Hx. change (x ∈ unique (b :: l)) in Hx. rewrite elem_of_unique in Hx.
  pose proof (Forall_inv Ha). apply StronglySorted_inv in Hs as [_ Hb].
  apply elem_of_cons in Hx as [->|Hx]; [lia|]. rewrite Forall_forall in Hb. specialize (Hb x Hx). lia.
Qed.

#[local] Instance le_total : Total Z.le.
Proof. intros x y. lia. Qed.

Lemma sort_unique_sorted l : StronglySorted Z.lt (sort_unique l).
Proof.
  apply unique_sorted. apply StronglySorted_merge_sort; [intros x y z; lia|apply _].
Qed.

Lemma elem_of_sort_unique x l : x ∈ sort_unique l <-> x ∈ l.
Proof. unfold sort_unique. rewrite elem_of_unique. by rewrite (merge_sort_Permutation Z.le l). Qed.

Lemma sort_unique_set l : (list_to_set (sort_unique l) : gset Z) = list_to_set l.
Proof. apply set_eq. intros x. by rewrite !elem_of_list_to_set, elem_of_sort_unique. Qed.

Lemma sorted_nodup l : StronglySorted Z.lt l -> NoDup l.
Proof.
  induction 1 as [|a l Hs IH Ha]; constructor; [|done]. intros Hin. rewrite Forall_forall in Ha.
  specialize (Ha a Hin). lia.
Qed.

(** ** One vertex's records *)

(** What a record does to the merged list of its vertex. *)
Definition merge_one (o : option (list Z)) (r : delta_record_t) : option (list Z) :=
  match target r, type r with
  | EDGE, INSERT => Some (default [] o ++ [second r])
  | EDGE, DELETE => filter (fun x => x <> second r) <$> o
  | VERTEX, _ => o
  end.

Lemma merge_delta_lookup g r v :
  merge_delta g r !! v = if decide (first r = v) then merge_one (g !! v) r else g !! v.
Proof.
  unfold merge_delta, merge_one. destruct (target r); [by case_decide|]. destruct (type r).
  - rewrite lookup_insert. by case_decide; subst.
  - destruct (g !! first r) as [ns|] eqn:E.
    + rewrite lookup_insert. case_decide; subst; [by rewrite E|done].
    + case_decide; subst; [by rewrite E|done].
Qed.

Lemma foldl_merge_lookup rs g v :
  foldl merge_delta g rs !! v = foldl merge_one (g !! v) (of_vertex v rs).
Proof.
  revert g. induction rs as [|r rs IH]; intros g; [done|]. cbn [foldl]. rewrite IH, merge_delta_lookup.
  unfold of_vertex. rewrite filter_cons. by case_decide.
Qed.

Lemma merge_one_set rs o :
  (list_to_set (default [] (foldl merge_one o rs)) : gset Z) = ops_set (list_to_set (default [] o)) (reverse rs).
Proof.
  revert o. induction rs as [|r rs IH] using rev_ind; intros o; [done|].
  rewrite foldl_app, reverse_app. cbn [foldl reverse app]. change (reverse [r]) with [r]. cbn [app ops_set].
  rewrite <- IH. unfold merge_one at 1. destruct (target r); [done|]. destruct (type r).
  - generalize (default [] (foldl merge_one o rs)). intros l. apply set_eq. intros x.
    rewrite elem_of_list_to_set. cbn. rewrite elem_of_app, elem_of_union, elem_of_list_to_set. set_solver.
  - destruct (foldl merge_one o rs) as [ns|]; cbn; [|set_solver]. apply set_eq. intros x.
    rewrite elem_of_difference, !elem_of_list_to_set, list_elem_of_filter. set_solver.
Qed.

Lemma merge_one_some rs o : is_Some o -> is_Some (foldl merge_one o rs).
Proof.
  revert o. induction rs as [|r rs IH]; intros o [ns ->]; [eauto|]. apply IH. unfold merge_one.
  destruct (target r), (type r); cbn; eauto.
Qed.

Section Merge.
Context {A G SK : Type} `{cfg : Config} `{!PageAllocator A (Z.of_nat DELTA_PAGE_SIZE)}
  `{!PageAllocator A (Z.of_nat PAGE_SIZE)} `{!GiantStore G} `{!UpdateSketch SK} `{!SetOrder} `{!MapOrder}.

(** ** The page's own lists *)

(** What a page shows of a list: giant lists are not stored. *)
Definition visible (ns : list Z) : list Z := if is_giant_list ns then [] else ns.

Lemma shows_vertices p adj :
  shows p adj -> exists vs, get_vertices p = vs /\
    Forall2 (fun q v => vertex_id v = q.1 /\ is_deleted v = false) adj vs.
Proof.
  intros (Hn & Hsp & Hs). eexists. split; [done|]. unfold get_vertices. rewrite Hsp. clear Hn Hsp.
  assert (Hg : forall l k, (forall i q, l !! i = Some q -> exists v, vertex_at p (k + Z.of_nat i) = Some v /\
      vertex_id v = q.1 /\ is_deleted v = false) ->
    Forall2 (fun (q : Z * list Z) v => vertex_id v = q.1 /\ is_deleted v = false) l
      (omap (vertex_at p) (seqZ k (Z.of_nat (length l))))).
  { induction l as [|q l IH]; intros k Hl; [constructor|].
    rewrite seqZ_cons by (cbn; lia). cbn [omap list_omap].
    destruct (Hl 0%nat q eq_refl) as (v & Hv & Hid). rewrite Z.add_0_r in Hv. rewrite Hv.
    constructor; [done|]. replace (Z.pred (Z.of_nat (length (q :: l)))) with (Z.of_nat (length l)) by (cbn; lia).
    apply IH. intros i q' Hi. destruct (Hl (S i) q' Hi) as (v' & Hv' & ?). exists v'.
    replace (Z.succ k + Z.of_nat i) with (k + Z.of_nat (S i)) by lia. done. }
  apply Hg. intros i q Hi. destruct (Hs i q Hi) as ((v & ? & ? & _ & ?) & _). eauto.
Qed.

Lemma snapshot_base_lookup p adj v :
  shows p adj -> NoDup adj.*1 -> Z.of_nat (length adj) < 2 ^ 16 ->
  snapshot_base p !! v = visible <$> (list_to_map adj : gmap Z (list Z)) !! v.
Proof.
  intros Hsh Hnd Hlen. destruct (shows_vertices p adj Hsh) as (vs & Hvs & Hf).
  destruct Hsh as (_ & _ & Hs). unfold snapshot_base. rewrite Hvs. clear Hvs.
  assert (Hg : forall l1 l2 vs2 g, adj = l1 ++ l2 ->
    Forall2 (fun (q : Z * list Z) v => vertex_id v = q.1 /\ is_deleted v = false) l2 vs2 ->
    (forall w, w ∈ l2.*1 -> g !! w = None) ->
    foldl (add_base p) g (imap (fun i v => (u16 (Z.of_nat (length l1 + i)), v)) vs2) !! v =
    match (list_to_map l2 : gmap Z (list Z)) !! v with Some ns => Some (visible ns) | None => g !! v end).
  { intros l1 l2. revert l1. induction l2 as [|q l2 IH]; intros l1 vs2 g Ha Hf2 Hg; [by inversion Hf2|].
    apply Forall2_cons_inv_l in Hf2 as (w0 & l' & [Hid Hdel] & Hf2 & ->). rewrite imap_cons. cbn [foldl].
    assert (Hd : u16 (Z.of_nat (length l1 + 0)) = Z.of_nat (length l1)).
    { rewrite Nat.add_0_r. apply wrap_small. rewrite Ha, length_app in Hlen. cbn in Hlen. unfold in_width. lia. }
    assert (Hq : q.1 ∉ l2.*1).
    { rewrite Ha, fmap_app in Hnd. apply NoDup_app in Hnd as (_ & _ & Hnd). cbn in Hnd. by apply NoDup_cons in Hnd as [? _]. }
    assert (Hpn : page_neighbors p (Z.of_nat (length l1)) = visible q.2).
    { apply (Hs (length l1) q). by rewrite Ha, lookup_app_r, Nat.sub_diag by lia. }
    unfold add_base at 2. rewrite Hdel, Hd, Hpn, Hid, Hg by (cbn; left). cbn [default app].
    assert (Hif : (if NEIGHBOR_COMPRESS then visible q.2 else visible q.2) = visible q.2) by by destruct NEIGHBOR_COMPRESS.
    cbn [from_option]. rewrite Hif.
    pose proof (IH (l1 ++ [q]) l' (<[q.1:=visible q.2]> g)) as IH'. rewrite length_app in IH'. cbn [length] in IH'.
    rewrite (imap_ext _ (fun i v => (u16 (Z.of_nat (length l1 + 1 + i)), v))) by (intros; cbn; do 2 f_equal; lia).
    rewrite IH'; [|by rewrite <- app_assoc|done|].
    - cbn [list_to_map foldr]. rewrite !lookup_insert. destruct q as [w ns]; cbn [fst snd uncurry] in *.
      change (foldr (fun p : Z * list Z => <[p.1:=p.2]>) ∅ l2) with (list_to_map l2 : gmap Z (list Z)).
      case_decide; [subst|done].
      by rewrite not_elem_of_list_to_map_1.
    - intros w Hw. rewrite lookup_insert_ne by (intros <-; done). apply Hg. by right. }
  specialize (Hg [] adj vs ∅ eq_refl Hf (fun _ _ => eq_refl)). cbn [length Nat.add] in Hg. rewrite Hg.
  by destruct (list_to_map adj !! v).
Qed.

(** ** Giants and the whole graph *)

Lemma replace_giants_spec (vi : vertex_index_t) (vs : list Z) (g : gmap Z (list Z)) (gs : G) :
  (forall v, v ∈ vs -> is_giant_vertex vi (Z.to_nat v) = true -> is_Some (g_stored gs v)) ->
  exists g' gs', replace_giants vi vs g gs = Some (g', gs') /\
    (forall w, g_stored gs' w = g_stored gs w) /\
    forall w, g' !! w = if bool_decide (w ∈ vs) && is_giant_vertex vi (Z.to_nat w) then g_stored gs w else g !! w.
Proof.
  revert g gs. induction vs as [|v vs IH]; intros g gs Hs; cbn [replace_giants]; [by exists g, gs|].
  destruct (is_giant_vertex vi (Z.to_nat v)) eqn:Eg.
  - destruct (Hs v) as [ns Hns]; [by left|done|].
    pose proof (g_clone_stored gs v) as Hc. pose proof (g_clone_keeps gs v) as Hk.
    destruct (g_read_neighbor_clone gs v) as [o gs1]. cbn in Hc, Hk |- *. subst o. rewrite Hns. cbn [mbind option_bind].
    destruct (IH (<[v := ns]> g) gs1) as (g' & gs' & -> & Hst & Hl).
    { intros w Hw Hg. rewrite Hk. apply Hs; [by right|done]. }
    exists g', gs'. split; [done|]. split; [intros w; by rewrite Hst|]. intros w. rewrite Hl, Hk, lookup_insert.
    destruct (decide (v = w)) as [<-|Hne].
    + rewrite Eg, (bool_decide_eq_true_2 (v ∈ v :: vs)) by by left. cbn. by case_bool_decide.
    + rewrite (bool_decide_ext (w ∈ v :: vs) (w ∈ vs)); [done|]. rewrite elem_of_cons. naive_solver.
  - destruct (IH g gs) as (g' & gs' & -> & Hst & Hl).
    { intros w Hw Hg. apply Hs; [by right|done]. }
    exists g', gs'. split; [done|]. split; [done|]. intros w. rewrite Hl.
    destruct (decide (v = w)) as [<-|Hne]; [by rewrite Eg, !andb_false_r|].
    rewrite (bool_decide_ext (w ∈ v :: vs) (w ∈ vs)); [done|]. rewrite elem_of_cons. naive_solver.
Qed.

(** The list a page and the giant store hold for a vertex. *)
Definition base_list (adj : list (Z * list Z)) (vi : vertex_index_t) (gs : G) (v : Z) : option (list Z) :=
  ns ← (list_to_map adj : gmap Z (list Z)) !! v;
  if is_giant_vertex vi (Z.to_nat v) then g_stored gs v else Some (visible ns).

Definition page_holds (p : csr_page_t) (adj : list (Z * list Z)) : Prop :=
  shows p adj /\ NoDup adj.*1 /\ Z.of_nat (length adj) < 2 ^ 16.

Lemma merged_spec salt p adj deltas vi (gs : G) :
  page_holds p adj -> (forall v, v ∈ adj.*1 -> is_giant_vertex vi (Z.to_nat v) = true -> is_Some (g_stored gs v)) ->
  exists m gs', build_merged_graph salt p deltas vi gs = Some (m, gs') /\
    (forall w, g_stored gs' w = g_stored gs w) /\
    forall v, m !! v = sort_unique <$> foldl merge_one (base_list adj vi gs v) (of_vertex v deltas).
Proof.
  intros (Hsh & Hnd & Hlen) Hg. unfold build_merged_graph.
  destruct (replace_giants_spec vi (map_order salt (snapshot_base p)).*1 (snapshot_base p) gs)
    as (g' & gs' & -> & Hst & Hl).
  { intros v Hv. apply Hg. apply list_elem_of_fmap in Hv as ([w ns] & -> & Hw).
    rewrite map_order_list, elem_of_map_to_list, (snapshot_base_lookup p adj) in Hw by done.
    destruct (list_to_map adj !! w) as [ns'|] eqn:E; [|done]. apply elem_of_list_to_map_2 in E.
    by apply (list_elem_of_fmap_2 fst) in E. }
  exists (sort_unique <$> foldl merge_delta g' deltas), gs'. split; [done|]. split; [done|]. intros v.
  rewrite lookup_fmap, foldl_merge_lookup. do 2 f_equal. rewrite Hl, (snapshot_base_lookup p adj) by done.
  unfold base_list. destruct (list_to_map adj !! v) as [ns|] eqn:E; cbn [fmap option_fmap option_map mbind option_bind].
  - rewrite bool_decide_eq_true_2; [done|]. rewrite map_order_list. apply list_elem_of_fmap.
    exists (v, visible ns). split; [done|]. rewrite elem_of_map_to_list, (snapshot_base_lookup p adj), E by done. done.
  - rewrite bool_decide_eq_false_2; [done|]. rewrite map_order_list. intros Hv.
    apply list_elem_of_fmap in Hv as ([w ns] & -> & Hw).
    rewrite elem_of_map_to_list, (snapshot_base_lookup p adj) in Hw by done. cbn in E. by rewrite E in Hw.
Qed.

(** The merge of a page's lists, its giants' stored lists and its delta
    records gives every vertex of the page, in strictly ascending order and
    without repetitions, exactly the set obtained by applying the vertex's
    records in the order they were written; a vertex that is neither on the
    page nor the source of a record is not in the result, and no stored list
    changes. *)
Theorem merged_graph_sets salt p adj deltas vi (gs : G) :
  page_holds p adj -> (forall v, v ∈ adj.*1 -> is_giant_vertex vi (Z.to_nat v) = true -> is_Some (g_stored gs v)) ->
  exists m gs', build_merged_graph salt p deltas vi gs = Some (m, gs') /\
    (forall w, g_stored gs' w = g_stored gs w) /\
    (forall v b, base_list adj vi gs v = Some b ->
       exists l, m !! v = Some l /\ StronglySorted Z.lt l /\
         (list_to_set l : gset Z) = ops_set (list_to_set b) (reverse (of_vertex v deltas))) /\
    forall v, v ∉ adj.*1 -> of_vertex v deltas = [] -> m !! v = None.
Proof.
  intros Hp Hg. destruct (merged_spec salt p adj deltas vi gs Hp Hg) as (m & gs' & Hb & Hst & Hm).
  exists m, gs'. split; [done|]. split; [done|]. split.
  - intros v b Hv. rewrite Hm, Hv.
    destruct (merge_one_some (of_vertex v deltas) (Some b)) as [l Hl]; [eauto|]. rewrite Hl. cbn.
    exists (sort_unique l). split; [done|]. split; [apply sort_unique_sorted|].
    rewrite sort_unique_set. pose proof (merge_one_set (of_vertex v deltas) (Some b)) as Hs. by rewrite Hl in Hs.
  - intros v Hv Hr. rewrite Hm, Hr. unfold base_list.
    rewrite (not_elem_of_list_to_map_1 (M := gmap Z) adj v) by done. done.
Qed.

End Merge.
End Merge.
