(* ===== verification/SmoBuild.v ===== *)
(** * Building the replacement pages of a consolidation

    Whether the merged lists go to one page or are split over several, they
    end on fresh pages, every vertex in exactly one slot, with a version
    prepared for that slot; everything else of the database is unchanged. *)

From S2P Require Import Prelude Config DeltaPage VertexIndex PageMap CsrPage Db EdgeOps Reorder Builder Smo SmoMerge.

Local Open Scope Z_scope.

Module Build.
Import Delta VIndex PMap Csr DB EdgeOps Builder Smo Merge.

(** ** Versions *)

(** The index only gained version objects. *)
Record grown_index (vi vi' : vertex_index_t) : Prop := {
  gr_items : items vi' = items vi;
  gr_heads : delta_heads_ vi' = delta_heads_ vi;
  gr_versions : forall id, id < next_version vi -> versions vi' !! id = versions vi !! id;
  gr_next : next_version vi <= next_version vi';
  gr_retired : retired_versions_ vi' = retired_versions_ vi;
  gr_hazptr : hazptr_retired vi' = hazptr_retired vi
}.

#[export] Instance grown_index_preorder : PreOrder grown_index.
Proof.
  split; [by constructor|]. intros a b c [] []. constructor; try congruence; [|lia].
  intros id Hid. rewrite gr_versions1 by lia. auto.
Qed.

(** The version prepared for a vertex: expected to replace the current one,
    and pointing to slot [off] of page [pno]. *)
Record loc_ready (vi : vertex_index_t) (v pno off : Z) (pv : prepared_vertex_version_t) : Prop := {
  lr_first : pv_first pv = pno;
  lr_second : pv_second pv = off;
  lr_expected : exists item, items vi !! Z.to_nat v = Some item /\ expected pv = cur item;
  lr_desired : exists d prev, desired pv = Some d /\ d < next_version vi /\
    versions vi !! d = Some (VertexVersion pno off prev)
}.

Lemma loc_ready_grown vi vi' v pno off pv : grown_index vi vi' -> loc_ready vi v pno off pv -> loc_ready vi' v pno off pv.
Proof.
  intros [] [? ? (item & ? & ?) (d & prev & ? & ? & ?)]. constructor; [done|done|..].
  - exists item. by rewrite gr_items0.
  - exists d, prev. rewrite gr_versions0 by done. split; [done|]. split; [lia|done].
Qed.

Lemma loc_ready_same vi vi' v pno off pv :
  items vi' = items vi -> versions vi' = versions vi -> next_version vi' = next_version vi ->
  loc_ready vi v pno off pv -> loc_ready vi' v pno off pv.
Proof. intros H1 H2 H3 [? ? ? ?]. by constructor; rewrite ?H1, ?H2, ?H3. Qed.

Lemma gc_inv_perm vi h ps ps' : ps ≡ₚ ps' -> gc_inv (GC vi h ps) -> gc_inv (GC vi h ps').
Proof.
  intros Hp [H1 H2 H3 H4 H5].
  assert (Ho : owned (GC vi h ps) ≡ₚ owned (GC vi h ps')).
  { unfold owned, desireds; cbn [idx prepared]. by rewrite Hp. }
  constructor; auto; [by rewrite <- Ho|]. eapply live_perm; [|exact H3]. intros x. by rewrite Ho.
Qed.

Section Build.
Context {A G SK : Type} `{cfg : Config} `{!PageAllocator A (Z.of_nat DELTA_PAGE_SIZE)}
  `{!PageAllocator A (Z.of_nat PAGE_SIZE)} `{!GiantStore G} `{!UpdateSketch SK} `{!SetOrder} `{!MapOrder}.

Abbreviation db := (bw_graph_db_t (A := A) (G := G) (SK := SK)).
Abbreviation smo_st := (smo_t (A := A) (G := G) (SK := SK)).
Abbreviation locations_t := (gmap Z prepared_vertex_version_t).
Abbreviation adj_list := (list (Z * list Z)).
Abbreviation csr_alloc_ok := (alloc_ok (page_bytes := Z.of_nat PAGE_SIZE)).
Abbreviation csr_room := (room (page_bytes := Z.of_nat PAGE_SIZE)).
Abbreviation index s := (vertex_index (database s)).

Definition prepared_of (locs : locations_t) : list (nat * prepared_vertex_version_t) :=
  (fun q => (Z.to_nat q.1, q.2)) <$> map_to_list locs.

Lemma get_db_bind {B} (f : db -> stm smo_st B) s : (get_db ≫= f) s = f (database s) s.
Proof. done. Qed.

Lemma prepared_of_insert locs v pv :
  locs !! v = None -> prepared_of (<[v := pv]> locs) ≡ₚ (Z.to_nat v, pv) :: prepared_of locs.
Proof. intros Hv. unfold prepared_of. by rewrite map_to_list_insert. Qed.

(** The vertices named exist. *)
Definition known (s : smo_st) (v : Z) : Prop := 0 <= v < Z.of_nat (length (items (index s))).

Lemma prepare_versions_spec pno vmap : forall (s : smo_st) locs ps,
  gc_inv (GC (index s) [] (prepared_of locs ++ ps)) -> NoDup vmap.*1 ->
  Forall (fun q => known s q.1 /\ in_width 16 q.2) vmap -> (forall v, v ∈ vmap.*1 -> locs !! v = None) ->
  exists locs' vi', prepare_versions pno vmap locs s = (Ok locs', upd_index (fun _ => vi') s) /\
    grown_index (index s) vi' /\ gc_inv (GC vi' [] (prepared_of locs' ++ ps)) /\
    (forall v, v ∉ vmap.*1 -> locs' !! v = locs !! v) /\
    forall v off, (v, off) ∈ vmap -> exists pv, locs' !! v = Some pv /\ loc_ready vi' v pno off pv.
Proof.
  induction vmap as [|[v off] vmap IH]; intros s locs ps Hgc Hnd Hok Hnew.
  { exists locs, (index s). split; [by destruct s as [[]]|]. split; [done|]. split; [done|]. split; [done|].
    intros v off Hv. by apply elem_of_nil in Hv. }
  cbn [fmap list_fmap fst] in Hnd. apply NoDup_cons in Hnd as [Hv Hnd]. apply Forall_cons in Hok as [[Hk Hoff] Hok].
  cbn in Hk, Hoff. destruct (lookup_lt_is_Some_2 (items (index s)) (Z.to_nat v)) as [item Hitem]; [unfold known in Hk; lia|].
  assert (Hprep : exists pv vi1, prepare_vertex_version (index s) (Z.to_nat v) pno (u16 off) = Some (pv, vi1) /\
    grown_index (index s) vi1 /\ loc_ready vi1 v pno off pv /\
    gc_inv (GC vi1 [] (prepared_of (<[v := pv]> locs) ++ ps))).
  { destruct (prepare_vertex_version (index s) (Z.to_nat v) pno (u16 off)) as [[pv vi1]|] eqn:E.
    - exists pv, vi1. split; [done|]. pose proof (prepare_inv _ _ _ _ _ _ _ _ Hgc E) as Hi.
      unfold prepare_vertex_version in E. rewrite Hitem in E. cbn in E. rewrite wrap_small in E by done.
      injection E as <- <-. split; [|split].
      + constructor; cbn; try done; [|lia]. intros id Hid. by rewrite lookup_insert_ne by lia.
      + constructor; cbn; [done|done|by exists item|]. eexists _, _. split; [done|]. split; [lia|].
        by rewrite lookup_insert_eq.
      + eapply gc_inv_perm; [|exact Hi]. rewrite prepared_of_insert by (apply Hnew; cbn; left). done.
    - unfold prepare_vertex_version in E. by rewrite Hitem in E. }
  destruct Hprep as (pv & vi1 & Ep & Hgr & Hlr & Hgc1).
  destruct (IH (upd_index (fun _ => vi1) s) (<[v := pv]> locs) ps) as (locs' & vi' & E & Hgr' & Hgc' & Hold & Hnew').
  - exact Hgc1.
  - done.
  - eapply Forall_impl; [exact Hok|]. intros q [Hq ?]. split; [|done]. unfold known in *; cbn. by rewrite (gr_items _ _ Hgr).
  - intros w Hw. rewrite lookup_insert_ne by (intros <-; done). apply Hnew. cbn. by right.
  - exists locs', vi'. split; [|split; [by etrans|split; [done|split]]].
    + cbn [prepare_versions]. unfold get_db. cbn. unfold mbind, stm_bind at 1. cbn. rewrite Ep. cbn.
      unfold mbind, stm_bind; cbn. rewrite E. done.
    + intros w Hw. cbn in Hw. rewrite Hold by set_solver. apply lookup_insert_ne. set_solver.
    + intros w o Hw. apply elem_of_cons in Hw as [[= -> ->]|Hw]; [|by apply Hnew'].
      exists pv. split; [|by eapply loc_ready_grown]. rewrite Hold by done. apply lookup_insert_eq.
Qed.

(** ** New pages *)

Definition with_pages (s : smo_st) (pg : gmap Z csr_page_t) (dk : A) (vi : vertex_index_t) : smo_st :=
  upd_db (fun d => set_vertex_index (set_csr d pg dk) vi) s.

Lemma with_pages_same (s : smo_st) : s = with_pages s (csr_pages (database s)) (csr_disk (database s)) (index s).
Proof. by destruct s as [[]]. Qed.

Definition page_shows (s : smo_st) (n : Z) (adj : adj_list) : Prop :=
  adj_ok adj /\ exists p, csr_pages (database s) !! n = Some p /\ page_holds p adj.

(** [groups]: the new pages with what they show; [ps]: versions prepared by
    earlier tasks. *)
Record building (s s' : smo_st) (locs : locations_t) (groups : list (Z * adj_list))
    (ps : list (nat * prepared_vertex_version_t)) : Prop := {
  bg_state : exists pg dk vi', s' = with_pages s pg dk vi';
  bg_index : grown_index (index s) (index s');
  bg_gc : gc_inv (GC (index s') [] (prepared_of locs ++ ps));
  bg_alloc : csr_alloc_ok (csr_disk (database s')) (dom (csr_pages (database s')));
  bg_old : forall n, n ∈ dom (csr_pages (database s)) -> csr_pages (database s') !! n = csr_pages (database s) !! n;
  bg_dom : dom (csr_pages (database s')) = dom (csr_pages (database s)) ∪ list_to_set groups.*1;
  bg_fresh : NoDup groups.*1 /\ forall n, n ∈ groups.*1 -> n ∉ dom (csr_pages (database s));
  bg_groups : forall n adj, (n, adj) ∈ groups -> page_shows s' n adj /\
    forall i q, adj !! i = Some q -> exists pv, locs !! q.1 = Some pv /\ loc_ready (index s') q.1 n (Z.of_nat i) pv;
  bg_locs : forall v, is_Some (locs !! v) <-> v ∈ (mjoin groups.*2).*1
}.

Lemma building_nil (s : smo_st) ps :
  gc_inv (GC (index s) [] ps) -> csr_alloc_ok (csr_disk (database s)) (dom (csr_pages (database s))) ->
  building s s ∅ [] ps.
Proof.
  intros Hgc Hal. constructor; try done.
  - eexists _, _, _. apply with_pages_same.
  - cbn. by rewrite union_empty_r_L.
  - split; [constructor|]. intros n Hn. by apply elem_of_nil in Hn.
  - intros n adj Hn. by apply elem_of_nil in Hn.
  - intros v. rewrite lookup_empty. cbn. rewrite elem_of_nil. split; [by intros []|done].
Qed.

Lemma allocate_spec (s : smo_st) k :
  csr_alloc_ok (csr_disk (database s)) (dom (csr_pages (database s))) -> csr_room (csr_disk (database s)) (S k) ->
  exists pno dk, allocate_csr_page s = (Ok pno, upd_db (fun d => set_csr d (csr_pages d) dk) s) /\
    (pno ∉ dom (csr_pages (database s))) /\
    csr_alloc_ok dk ({[pno]} ∪ dom (csr_pages (database s))) /\ csr_room dk k.
Proof.
  intros Hal Hr. pose proof (alloc_fresh _ _ _ Hal Hr) as Hf. cbn zeta in Hf.
  unfold allocate_csr_page, get_db. cbn. unfold mbind, stm_bind; cbn.
  destruct (allocate_page (csr_disk (database s))) as [off dk]. cbn in *.
  exists (u32 (off `div` Z.of_nat PAGE_SIZE)), dk. split; [done|]. tauto.
Qed.

Lemma mark_dirty_holds p adj : page_holds p adj -> page_holds (mark_dirty p) adj.
Proof. done. Qed.

(** Bytes that parse to [adj], put on the allocated page [pno]. *)
Lemma install_spec (s s1 : smo_st) locs groups ps pno dk adj bytes :
  building s s1 locs groups ps -> (pno ∉ dom (csr_pages (database s1))) ->
  csr_alloc_ok dk ({[pno]} ∪ dom (csr_pages (database s1))) ->
  adj_ok adj -> NoDup adj.*1 -> Z.of_nat (length adj) < 2 ^ 16 -> Forall (fun q => known s q.1) adj ->
  (forall v, v ∈ adj.*1 -> v ∉ (mjoin groups.*2).*1) ->
  (forall q, data q = bytes -> is_parse_ q = false -> exists q', self_parse q = Ok q' /\ shows q' adj) ->
  let s2 := upd_db (fun d => set_csr d (csr_pages d) dk) s1 in
  exists s3 s4 locs', buf_page_cp pno bytes s2 = (Ok tt, s3) /\
    prepare_versions pno (imap (fun i q => (q.1, Z.of_nat i)) adj) locs s3 = (Ok locs', s4) /\
    building s s4 locs' (groups ++ [(pno, adj)]) ps /\ csr_disk (database s4) = dk.
Proof.
  intros [B1 B2 B3 B4 B5 B6 B7 B8 B9] Hpno Hal Hok Hnd Hlen Hkn Hdis Hparse s2.
  destruct (Hparse (CsrPage pno bytes false 0 0 0 0 0 (0%nat, 0) (0%nat, 0) None false)) as (q & Eq & Hsh); [done..|].
  set (s3 := upd_db (fun d => set_csr d (<[pno := mark_dirty q]> (csr_pages d)) (csr_disk d)) s2).
  assert (Hcp : buf_page_cp pno bytes s2 = (Ok tt, s3)).
  { unfold buf_page_cp. rewrite get_db_bind. change (csr_pages (database s2)) with (csr_pages (database s1)).
    rewrite (not_elem_of_dom_1 _ _ Hpno). by rewrite (stm_bind_Ok _ _ _ q s2) by (unfold from_res; by rewrite Eq). }
  destruct B1 as (pg & dk1 & vi1 & ->).
  assert (Hf : (imap (fun i (q : Z * list Z) => (q.1, Z.of_nat i)) adj).*1 = adj.*1).
  { apply list_eq. intros i. rewrite !list_lookup_fmap, list_lookup_imap. by destruct (adj !! i). }
  destruct (prepare_versions_spec pno (imap (fun i q => (q.1, Z.of_nat i)) adj) s3 locs ps)
    as (locs' & vi' & Ev & Hgr & Hgc & Hold & Hnew).
  - exact B3.
  - by rewrite Hf.
  - apply Forall_lookup. intros i q' Hi. rewrite list_lookup_imap in Hi.
    destruct (adj !! i) as [q0|] eqn:E; [|done]. injection Hi as <-. cbn.
    rewrite Forall_lookup in Hkn. specialize (Hkn _ _ E). apply lookup_lt_Some in E.
    split; [|unfold in_width; lia]. unfold known in *; cbn. cbn in B2. by rewrite (gr_items _ _ B2).
  - intros v Hv. rewrite Hf in Hv. apply eq_None_not_Some. rewrite B9. by apply Hdis.
  - exists s3, (upd_index (fun _ => vi') s3), locs'. split; [done|]. split; [exact Ev|]. split; [|done].
    cbn in Hpno, Hal, B2, B3, B4, B5, B6, B8, Hgr. constructor.
    + by eexists _, _, _.
    + cbn. by etrans.
    + exact Hgc.
    + cbn. rewrite dom_insert_L. exact Hal.
    + cbn. intros n Hn. rewrite lookup_insert_ne; [by apply B5|]. intros <-. apply Hpno. rewrite B6. set_solver.
    + cbn. rewrite dom_insert_L, B6, fmap_app, list_to_set_app_L. cbn. set_solver.
    + rewrite fmap_app. split.
      * apply NoDup_app. split; [apply B7|]. split; [|apply NoDup_singleton].
        intros n Hn. cbn. rewrite list_elem_of_singleton. intros ->. apply Hpno. rewrite B6. set_solver.
      * intros n. rewrite elem_of_app. intros [Hn|Hn]; [by apply B7|]. cbn in Hn. apply list_elem_of_singleton in Hn as ->.
        rewrite B6 in Hpno. set_solver.
    + intros n adj' Hin. apply elem_of_app in Hin as [Hin|Hin].
      * destruct (B8 n adj' Hin) as [(Hok' & p & Hp & Hh) Hl]. split.
        -- split; [done|]. exists p. split; [|done]. cbn. rewrite lookup_insert_ne; [done|].
           intros <-. apply Hpno. by apply elem_of_dom.
        -- intros i q' Hi. destruct (Hl i q' Hi) as (pv & Hpv & Hr). exists pv. split; [|by eapply loc_ready_grown].
           rewrite Hold; [done|]. rewrite Hf. intros Hv. apply (Hdis _ Hv). apply list_elem_of_fmap. exists q'.
           split; [done|]. apply list_elem_of_join. exists adj'.
           split; [by eapply list_elem_of_lookup_2|]. by apply (list_elem_of_fmap_2 snd) in Hin.
      * apply list_elem_of_singleton in Hin as [= -> ->]. split.
        -- split; [done|]. exists (mark_dirty q). cbn. rewrite lookup_insert_eq. split; [done|]. by split.
        -- intros i q' Hi. apply Hnew. apply list_elem_of_lookup. exists i. by rewrite list_lookup_imap, Hi.
    + intros v. rewrite !fmap_app, join_app, fmap_app, elem_of_app. cbn. rewrite app_nil_r, <- B9.
      destruct (decide (v ∈ adj.*1)) as [Hv|Hv].
      * split; [by right|]. intros _. apply list_elem_of_fmap in Hv as ([w ns] & -> & Hw).
        apply list_elem_of_lookup in Hw as [i Hi]. destruct (Hnew w (Z.of_nat i)) as (pv & Hpv & _); [|by eexists].
        apply list_elem_of_lookup. exists i. by rewrite list_lookup_imap, Hi.
      * rewrite Hold by by rewrite Hf. tauto.
Qed.

(** ** Uncompressed pages of at most 64 KiB *)

Hypothesis Hcompress : NEIGHBOR_COMPRESS = false.
Hypothesis Hpage : Z.of_nat PAGE_SIZE <= 2 ^ 16.
Hypothesis Hbound : 0 <= GIANT_DEGREE_BOUND.

Lemma config_ok_of : config_ok.
Proof. split; [done|lia]. Qed.

Lemma from_res_bind {X B} (x : X) (f : X -> stm smo_st B) s : (from_res (Ok x) ≫= f) s = f x s.
Proof. done. Qed.

(** What the caller of either path gets. *)
Definition replaced (s s' : smo_st) (merged : gmap Z (list Z)) (locs : locations_t) (nos : list Z)
    (ps : list (nat * prepared_vertex_version_t)) : Prop :=
  exists groups, building s s' locs groups ps /\ mjoin groups.*2 ≡ₚ map_to_list merged /\ nos = groups.*1.

(** The lists to place: 32-bit identifiers of existing vertices. *)
Definition placeable (s : smo_st) (adj : adj_list) : Prop :=
  adj_ok adj /\ Forall (fun q => known s q.1 /\ Z.of_nat (length q.2) < 2 ^ 31) adj.

Definition slots_of (d : db) (merged : gmap Z (list Z)) : gmap Z Z := map_imap (fun v _ => Some (slots_for d v)) merged.

Lemma slots_for_range (d : db) v : 0 <= slots_for d v < 2 ^ 16.
Proof. unfold slots_for. destruct (vertex_update_sketch_ d); apply Z.mod_pos_bound; lia. Qed.

Lemma slots_of_nonneg (d : db) merged v x : slots_of d merged !! v = Some x -> 0 <= x.
Proof.
  unfold slots_of. rewrite map_lookup_imap. destruct (merged !! v); cbn; [|done]. intros [= <-].
  apply slots_for_range.
Qed.

Lemma do_no_split_spec salt merged (s : smo_st) ps k :
  merged <> ∅ -> gc_inv (GC (index s) [] ps) -> csr_alloc_ok (csr_disk (database s)) (dom (csr_pages (database s))) ->
  csr_room (csr_disk (database s)) (S k) -> placeable s (map_to_list merged) ->
  Z.of_nat (vertices_off + size merged * VERTEX_SIZE) +
    lists_bytes (slots_of (database s) merged) (map_order salt merged) <= Z.of_nat PAGE_SIZE ->
  exists locs nos s', do_no_split salt merged s = (Ok (locs, nos), s') /\ replaced s s' merged locs nos ps /\
    csr_room (csr_disk (database s')) k.
Proof.
  intros Hne Hgc Hal Hroom [Hok Hkn] Hfit.
  pose proof (map_order_list _ salt merged) as Hperm. set (adj := map_order salt merged) in *.
  assert (Hlen : length adj = size merged) by (by rewrite Hperm, length_map_to_list).
  assert (Hadj : adj <> []).
  { intros E. rewrite E in Hlen. cbn in Hlen. symmetry in Hlen. by apply map_size_empty_iff in Hlen. }
  assert (Hok' : adj_ok adj) by (unfold adj_ok in *; by rewrite Hperm).
  assert (Hkn' : Forall (fun q => known s q.1 /\ Z.of_nat (length q.2) < 2 ^ 31) adj) by by rewrite Hperm.
  destruct (allocate_spec s k Hal Hroom) as (pno & dk & Hall & Hpno & Hal' & Hroom').
  set (s1 := upd_db (fun d => set_csr d (csr_pages d) dk) s) in *.
  pose proof (build_ok Hpage (new_page pno) adj (slots_of (database s) merged) Hadj (slots_of_nonneg _ _)
    (Forall_impl _ _ _ Hkn' (fun q H => proj2 H))) as Hbo. rewrite Hlen in Hbo. specialize (Hbo Hfit).
  destruct (build_from_adjacency_map (new_page pno) adj (slots_of (database s) merged)) as [[p vmap]|] eqn:Hb; [|done].
  destruct (build_shows (new_page pno) adj (slots_of (database s) merged) p vmap config_ok_of) as (_ & Hvm & _ & _ & _ & Hparse); try done.
  { split; [|split]; cbn; unfold in_width; lia. }
  subst vmap.
  destruct (install_spec s s ∅ [] ps pno dk adj (data p)) as (s3 & s4 & locs & Hcp & Hpv & Hbg & Hdk); try done.
  - by apply building_nil.
  - rewrite Hperm. apply NoDup_fst_map_to_list.
  - unfold vertices_off, METADATA_SIZE, VERTEX_SIZE in Hfit.
    pose proof (lists_bytes_nonneg (slots_of (database s) merged) adj (slots_of_nonneg _ _)). lia.
  - eapply Forall_impl; [exact Hkn'|]. by intros q [? _].
  - intros v _ Hv. by apply elem_of_nil in Hv.
  - intros q Hq Hp. destruct (Hparse q Hq Hp) as (q' & ? & ? & _). eauto.
  - exists locs, [pno], s4. split; [|split].
    + unfold do_no_split. rewrite (stm_bind_Ok _ _ _ _ _ Hall), get_db_bind.
      change (map_imap (fun v _ => Some (slots_for (database s1) v)) merged) with (slots_of (database s) merged).
      fold adj. rewrite Hb, from_res_bind.
      rewrite (stm_bind_Ok _ _ _ _ _ Hcp), (stm_bind_Ok _ _ _ _ _ Hpv). done.
    + exists [(pno, adj)]. split; [done|]. split; [|done]. cbn. by rewrite app_nil_r.
    + by rewrite Hdk.
Qed.

Lemma flush_spec (s s1 : smo_st) b adj locs groups ps k :
  building s s1 locs groups ps -> builder_inv b adj -> placeable s adj -> NoDup adj.*1 ->
  (forall v, v ∈ adj.*1 -> v ∉ (mjoin groups.*2).*1) -> csr_room (csr_disk (database s1)) (S k) ->
  exists b' locs' groups' s2, flush_current_page (b, locs, groups.*1) s1 = (Ok (b', locs', groups'.*1), s2) /\
    building s s2 locs' groups' ps /\ builder_inv b' [] /\ mjoin groups'.*2 = mjoin groups.*2 ++ adj /\
    csr_room (csr_disk (database s2)) k.
Proof.
  intros Hbg Hb [Hok Hkn] Hnd Hdis Hroom. unfold flush_current_page.
  destruct (decide (adj = [])) as [->|Hne].
  { assert (is_empty b = true) as -> by (unfold is_empty; by rewrite (bi_vertices _ _ Hb)).
    exists b, locs, groups, s1. rewrite app_nil_r. split; [done|]. split; [done|]. split; [done|]. split; [done|].
    by apply room_mono. }
  assert (is_empty b = false) as ->.
  { unfold is_empty. rewrite (bi_vertices _ _ Hb). by destruct adj. }
  destruct (build_spec Hpage Hbound b adj Hb Hne Hok) as (page & -> & _ & Hparse).
  rewrite from_res_bind.
  destruct (allocate_spec s1 k (bg_alloc _ _ _ _ _ Hbg) Hroom) as (pno & dk & Hall & Hpno & Hal' & Hroom').
  rewrite (stm_bind_Ok _ _ _ _ _ Hall).
  destruct (install_spec s s1 locs groups ps pno dk adj (data page)) as (s3 & s4 & locs' & Hcp & Hpv & Hbg' & Hdk); try done.
  - pose proof (bi_fits _ _ Hb Hne) as Hf. unfold estimated_size, METADATA_SIZE, VERTEX_SIZE in Hf.
    rewrite (bi_vertices _ _ Hb), length_fmap in Hf. lia.
  - eapply Forall_impl; [exact Hkn|]. by intros q [? _].
  - intros q Hq Hp. destruct (Hparse q Hq Hp) as (q' & ? & ? & _). eauto.
  - rewrite (stm_bind_Ok _ _ _ _ _ Hcp), (stm_bind_Ok _ _ _ _ _ Hpv).
    exists (clear_all b), locs', (groups ++ [(pno, adj)]), s4. rewrite !fmap_app, join_app. cbn. rewrite app_nil_r.
    split; [done|]. split; [done|]. split; [by eapply clear_all_inv|]. split; [done|]. by rewrite Hdk.
Qed.

(** The lists of some vertices, in order. *)
Definition lists_of (merged : gmap Z (list Z)) (vs : list Z) : adj_list :=
  omap (fun v => (fun ns => (v, ns)) <$> merged !! v) vs.

Lemma lists_of_fst merged vs v : v ∈ (lists_of merged vs).*1 -> v ∈ vs.
Proof.
  intros Hv. apply list_elem_of_fmap in Hv as (q & -> & Hq). apply list_elem_of_omap in Hq as (w & Hw & E).
  destruct (merged !! w); [|done]. by injection E as <-.
Qed.

Lemma lists_of_nodup merged vs : NoDup vs -> NoDup (lists_of merged vs).*1.
Proof.
  induction 1 as [|v vs Hv Hnd IH]; [constructor|]. cbn. destruct (merged !! v); cbn; [|done].
  constructor; [|done]. intros Hin. by apply lists_of_fst in Hin.
Qed.

Lemma lists_of_all merged vs : vs ≡ₚ (map_to_list merged).*1 -> lists_of merged vs ≡ₚ map_to_list merged.
Proof.
  intros Hp. unfold lists_of. rewrite Hp. clear Hp vs.
  assert (Hg : Forall (fun q => merged !! q.1 = Some q.2) (map_to_list merged)).
  { apply Forall_forall. intros [v ns]. apply elem_of_map_to_list. }
  induction Hg as [|[v ns] l Hv Hg IH]; [done|]. cbn [fmap list_fmap omap list_omap fst snd] in *.
  rewrite Hv. cbn. by apply perm_skip.
Qed.

Section Split.
Variables (s : smo_st) (merged : gmap Z (list Z)) (ps : list (nat * prepared_vertex_version_t)).
Hypothesis Hplace : placeable s (map_to_list merged).
Hypothesis Halone : forall v ns, merged !! v = Some ns -> fits_alone ns (slots_for (database s) v).

Lemma building_slots s1 locs groups v :
  building s s1 locs groups ps -> slots_for (database s1) v = slots_for (database s) v.
Proof. intros [(pg & dk & vi & ->) _ _ _ _ _ _ _ _]. done. Qed.

Lemma merged_placeable v ns : merged !! v = Some ns -> placeable s [(v, ns)].
Proof.
  intros Hv. apply elem_of_map_to_list in Hv. destruct Hplace as [Hok Hkn]. unfold adj_ok in Hok.
  rewrite Forall_forall in Hok, Hkn. specialize (Hok _ Hv). specialize (Hkn _ Hv). split; by apply Forall_singleton.
Qed.

Lemma placeable_app l l' : placeable s l -> placeable s l' -> placeable s (l ++ l').
Proof. intros [] []. split; [apply Forall_app|apply Forall_app]; done. Qed.

(** [adj]: what the builder holds. *)
Lemma split_loop_spec vs : forall s1 b adj locs groups k,
  building s s1 locs groups ps -> builder_inv b adj -> placeable s adj ->
  NoDup ((mjoin groups.*2 ++ adj).*1 ++ vs) -> csr_room (csr_disk (database s1)) (length vs + k) ->
  exists b' adj' locs' groups' s2,
    split_loop merged vs (b, locs, groups.*1) s1 = (Ok (b', locs', groups'.*1), s2) /\
    building s s2 locs' groups' ps /\ builder_inv b' adj' /\ placeable s adj' /\
    mjoin groups'.*2 ++ adj' = (mjoin groups.*2 ++ adj) ++ lists_of merged vs /\
    csr_room (csr_disk (database s2)) k.
Proof.
  induction vs as [|v vs IH]; intros s1 b adj locs groups k Hbg Hb Hp Hnd Hroom.
  { exists b, adj, locs, groups, s1. cbn [lists_of omap list_omap]. rewrite app_nil_r. done. }
  cbn [split_loop lists_of omap list_omap] in *. cbn [length Nat.add] in Hroom.
  destruct (merged !! v) as [ns|] eqn:Ev; cbn [fmap option_fmap option_map].
  2:{ apply room_mono in Hroom. apply (IH s1 b adj locs groups k); try done.
      eapply sublist_NoDup; [exact Hnd|]. apply sublist_app; [done|]. by apply sublist_cons. }
  destruct (merged_placeable v ns Ev) as [Hok1 Hkn1]. pose proof (Forall_inv Hkn1) as [Hkv Hns]. cbn in Hkv, Hns.
  pose proof (slots_for_range (database s) v) as Hsl. rewrite get_db_bind. cbn [fst snd].
  rewrite (building_slots s1 locs groups v Hbg).
  assert (Hnd' : NoDup ((mjoin groups.*2 ++ adj ++ [(v, ns)]).*1 ++ vs)).
  { by rewrite app_assoc, fmap_app, <- app_assoc. }
  destruct (add_vertex_spec Hcompress Hpage Hbound b adj v ns _ Hb Hns Hsl (Halone v ns Ev))
    as [(b1 & E & Hb1)|[E Hne]]; rewrite E, from_res_bind.
  - apply room_mono in Hroom.
    destruct (IH s1 b1 (adj ++ [(v, ns)]) locs groups k Hbg Hb1) as (b' & adj' & locs' & groups' & s2 & Q1 & Q2 & Q3 & Q4 & Q5 & Q6); try done.
    { by apply placeable_app. }
    exists b', adj', locs', groups', s2. split; [exact Q1|]. split; [done|]. split; [done|]. split; [done|]. split; [|done].
    rewrite Q5, <- !app_assoc. done.
  - rewrite fmap_app, <- app_assoc in Hnd.
    destruct (flush_spec s s1 b adj locs groups ps (length vs + k) Hbg Hb Hp)
      as (b1 & locs1 & groups1 & s3 & Efl & Hbg1 & Hb1 & Hj & Hroom1); [..|done|].
    { apply NoDup_app in Hnd as (_ & _ & Hnd). by apply NoDup_app in Hnd as (Hnd & _). }
    { intros w Hw Hg. apply NoDup_app in Hnd as (_ & Hd & _). apply (Hd w Hg). apply elem_of_app. by left. }
    rewrite (stm_bind_Ok _ _ _ _ _ Efl). cbn [fst snd].
    destruct (add_vertex_spec Hcompress Hpage Hbound b1 [] v ns _ Hb1 Hns Hsl (Halone v ns Ev))
      as [(b2 & E2 & Hb2)|[_ ?]]; [|done]. rewrite E2, from_res_bind.
    destruct (IH s3 b2 [(v, ns)] locs1 groups1 k Hbg1 Hb2) as (b' & adj' & locs' & groups' & s2 & Q1 & Q2 & Q3 & Q4 & Q5 & Q6); try done.
    { by rewrite Hj, <- app_assoc. }
    exists b', adj', locs', groups', s2. split; [exact Q1|]. split; [done|]. split; [done|]. split; [done|]. split; [|done].
    rewrite Q5, Hj, <- !app_assoc. done.
Qed.

Lemma do_split_spec salt k :
  merged <> ∅ -> gc_inv (GC (index s) [] ps) -> csr_alloc_ok (csr_disk (database s)) (dom (csr_pages (database s))) ->
  csr_room (csr_disk (database s)) (size merged + S k) ->
  Z.of_nat (length (items (index s))) < 2 ^ 32 ->
  exists locs nos s', do_split salt merged s = (Ok (locs, nos), s') /\ replaced s s' merged locs nos ps /\
    csr_room (csr_disk (database s')) k.
Proof.
  intros Hne Hgc Hal Hroom Hcount. pose proof (map_order_list _ salt merged) as Hperm.
  destruct (Reorder.gorder_perm (map_order salt merged) 20 (size merged)) as (vs & Eg & Hvs).
  { rewrite Hperm. apply NoDup_fst_map_to_list. }
  { rewrite Hperm. apply Forall_fmap. eapply Forall_impl; [exact (proj2 Hplace)|]. intros q [Hq _].
    unfold known, Reorder.INVALID_VERTEX in *. cbn. lia. }
  { by rewrite Hperm, length_map_to_list. }
  assert (Hvs' : vs ≡ₚ (map_to_list merged).*1) by by rewrite Hvs, Hperm.
  assert (Hnd : NoDup vs) by (rewrite Hvs'; apply NoDup_fst_map_to_list).
  assert (Hlen : length vs = size merged) by (by rewrite Hvs', length_fmap, length_map_to_list).
  destruct (split_loop_spec vs s (new_builder PAGE_SIZE (u16 EDGE_SLOT_COUNT)) [] ∅ [] (S k))
    as (b & adj & locs & groups & s1 & E1 & Hbg & Hb & Hp & Hj & Hr1); try done.
  { by apply building_nil. }
  { split; constructor. }
  { by rewrite Hlen. }
  cbn in Hj. assert (Hndj : NoDup (mjoin groups.*2 ++ adj).*1) by (rewrite Hj; by apply lists_of_nodup).
  rewrite fmap_app in Hndj. apply NoDup_app in Hndj as (_ & Hdis & Hnda).
  destruct (flush_spec s s1 b adj locs groups ps k Hbg Hb Hp Hnda) as (b' & locs' & groups' & s2 & E2 & Hbg2 & _ & Hj2 & Hr2);
    [intros v Hv Hg; by apply (Hdis v)|done|].
  exists locs', groups'.*1, s2. split; [|split; [|done]].
  - unfold do_split. rewrite Eg. cbn [from_opt]. unfold mret, stm_ret. unfold mbind at 1, stm_bind at 1.
    change (new_builder PAGE_SIZE (u16 EDGE_SLOT_COUNT), ∅, []) with
      (new_builder PAGE_SIZE (u16 EDGE_SLOT_COUNT), (∅ : locations_t), ([] : list (Z * adj_list)).*1).
    rewrite (stm_bind_Ok _ _ _ _ _ E1), (stm_bind_Ok _ _ _ _ _ E2). done.
  - exists groups'. split; [done|]. split; [|done]. rewrite Hj2, Hj. by apply lists_of_all.
Qed.

End Split.

End Build.
End Build.
