(* ===== verification/SmoInv.v ===== *)
(** * The invariant of a database with consolidations in flight

    Every vertex is either settled, when the records of its CSR page for it
    are exactly its chain, or switching: a pending consolidation has merged
    the older part of its chain into a list on a new page, and the newer part
    is what the new page's entry records. *)

From S2P Require Import Prelude Config DeltaPage VertexIndex PageMap CsrPage Db EdgeOps Chains.
From S2P Require Import Reorder Builder Smo SmoMerge SmoBuild.

Local Open Scope Z_scope.

Module Inv.
Import Delta VIndex PMap Csr DB EdgeOps Chains Smo Merge Build.

Section Inv.
Context {A G SK : Type} `{cfg : Config} `{!PageAllocator A (Z.of_nat DELTA_PAGE_SIZE)}
  `{!PageAllocator A (Z.of_nat PAGE_SIZE)} `{!GiantStore G} `{!UpdateSketch SK} `{!SetOrder} `{!MapOrder}.

Abbreviation db := (bw_graph_db_t (A := A) (G := G) (SK := SK)).
Abbreviation smo_st := (smo_t (A := A) (G := G) (SK := SK)).
Abbreviation index s := (vertex_index (database s)).
Abbreviation pmap s := (page_map_table (database s)).
Abbreviation csr_alloc_ok := (alloc_ok (page_bytes := Z.of_nat PAGE_SIZE)).
Abbreviation csr_room := (room (page_bytes := Z.of_nat PAGE_SIZE)).

(** ** Pages and vertices *)

(** Slot [i] of page [P] is [v]'s, with list [ns]. *)
Definition slot (s : smo_st) (P : Z) (i : nat) (v : Z) (ns : list Z) : Prop :=
  exists adj, page_shows s P adj /\ adj !! i = Some (v, ns).

Definition located (s : smo_st) (v P i : Z) : Prop := known s v /\ location_of (database s) v = Some (P, i).

Definition current (s : smo_st) (P : Z) : Prop := exists v i, located s v P i.

(** Some consolidation in flight moves [v] to slot [i] of page [P]. *)
Definition moving_to (pend : list pending_version_switch_t) (v P i : Z) : Prop :=
  exists q pv, q ∈ pend /\ new_locations q !! v = Some pv /\ pv_first pv = P /\ pv_second pv = i.

Definition moving (pend : list pending_version_switch_t) (v : Z) : Prop :=
  exists q, q ∈ pend /\ is_Some (new_locations q !! v).

Definition target_page (pend : list pending_version_switch_t) (P : Z) : Prop :=
  exists q, q ∈ pend /\ P ∈ new_page_nos q.

(** The page that records a vertex's new deltas. *)
Definition home (d : db) (v : Z) : option Z :=
  loc ← location_of d v; Some (forward_target (page_map_table d) loc.1 v).

Definition chain_of (d : db) (v : Z) (rs : list delta_record_t) : Prop :=
  exists h, head_of d v = Some h /\ chain_at (pages (page_map_table d)) h rs.

(** ** The two states of a vertex *)

Definition settled (s : smo_st) (v : Z) : Prop :=
  exists P i rs recs, located s v P i /\ chain_of (database s) v rs /\ entry_recs (pmap s) P recs /\
    ops_of rs = ops_of (reverse (of_vertex v recs)).

(** The chain is [new ++ old]; [old] is merged into [ns]. *)
Record switching (s : smo_st) (q : pending_version_switch_t) (v : Z) (pv : prepared_vertex_version_t)
    (f : page_delta_t) (N : Z) (j : nat) (ns : list Z) (new old recs : list delta_record_t)
    (h : delta_head_t) (b : list Z) : Prop := {
  sw_ready : loc_ready (index s) v N (Z.of_nat j) pv;
  sw_target : N ∈ new_page_nos q;
  sw_slot : slot s N j v ns;
  sw_head : head_of (database s) v = Some h;
  sw_chain : match rerouted_tail_ f !! v with
             | None => new = [] /\ chain_at (pages (pmap s)) h old
             | Some tail => boundary_at (pages (pmap s)) h new tail old
             end;
  sw_own : Forall (fun r => first r = v) (new ++ old);
  sw_recs : entry_recs (pmap s) N recs;
  sw_ops : ops_of new = ops_of (reverse (of_vertex v recs));
  sw_base : base_of (database s) v = Some b;
  sw_merged : (list_to_set ns : gset Z) = ops_set (list_to_set b) old;
  sw_giant : v ∈ giant_vertices q -> exists b', g_stored (giant_db (database s)) v = Some b' /\ b' ≡ₚ ns;
  sw_small : v ∉ giant_vertices q -> is_giant_list ns = false
}.

Lemma sw_chain_at s q v pv f N j ns new old recs h b :
  switching s q v pv f N j ns new old recs h b -> chain_at (pages (pmap s)) h (new ++ old).
Proof.
  intros [_ _ _ _ Hc _ _ _ _ _ _ _]. destruct (rerouted_tail_ f !! v).
  - by eapply boundary_chain.
  - by destruct Hc as [-> ?].
Qed.

(** One consolidation in flight. *)
Record in_flight (s : smo_st) (q : pending_version_switch_t) : Prop := {
  fl_located : forall v, is_Some (new_locations q !! v) <-> exists i, located s v (old_page_no q) i;
  fl_entry : acquire_forwarder_for (pmap s) (old_page_no q) = Some (forwarder q);
  fl_forward : exists f, forwarders (pmap s) !! forwarder q = Some f /\
    forall v pv, new_locations q !! v = Some pv ->
      lookup_forward f v = Some (pv_first pv) /\
      exists N j ns new old recs h b, switching s q v pv f N j ns new old recs h b
}.

Definition all_prepared (pend : list pending_version_switch_t) : list (nat * prepared_vertex_version_t) :=
  mjoin ((fun q => prepared_of (new_locations q)) <$> pend).

(** ** The invariant *)

Record smo_core (s : smo_st) (pend : list pending_version_switch_t) : Prop := {
  sc_db : db_inv (database s);
  sc_count : vertex_count (database s) < 2 ^ 32;
  sc_live : Forall (fun i => is_delete i = false) (items (index s));
  sc_giants : forall v b, known s v -> is_giant_vertex (index s) (Z.to_nat v) = true ->
    g_stored (giant_db (database s)) v = Some b -> Forall (in_width 32) b;
  sc_gc : gc_inv (GC (index s) [] (all_prepared pend));
  sc_alloc : csr_alloc_ok (csr_disk (database s)) (dom (csr_pages (database s)));
  sc_slot : forall v P i, located s v P i -> exists n ns, i = Z.of_nat n /\ slot s P n v ns;
  sc_owner : forall P n v ns, current s P \/ target_page pend P -> P ∉ old_page_no <$> pend -> slot s P n v ns ->
    located s v P (Z.of_nat n) \/ known s v /\ moving_to pend v P (Z.of_nat n);
  sc_records : forall k recs, entry_recs (pmap s) k recs ->
    Forall (fun r => known s (first r) /\ home (database s) (first r) = Some k /\ in_width 32 (second r)) recs;
  sc_settled : forall v, known s v -> ~ moving pend v -> settled s v;
  sc_flight : forall q, q ∈ pend -> in_flight s q;
  sc_forwarders : forall k fid, acquire_forwarder_for (pmap s) k = Some fid ->
    exists q, q ∈ pend /\ old_page_no q = k /\ forwarder q = fid;
  sc_pend : NoDup (old_page_no <$> pend) /\ NoDup (forwarder <$> pend) /\ NoDup (mjoin (new_page_nos <$> pend));
  sc_old : forall q, q ∈ pend -> ~ target_page pend (old_page_no q);
  sc_batches : NoDup (reclaim_batches s).*2 /\ forall P, P ∈ (reclaim_batches s).*2 ->
    P ∈ dom (csr_pages (database s)) /\ ~ current s P /\ ~ target_page pend P /\ P ∉ old_page_no <$> pend;
  sc_queue : NoDup (smo_queue (database s)).*1 /\ forall P, P ∈ (smo_queue (database s)).*1 ->
    current s P /\ P ∉ old_page_no <$> pend /\ claimed (pmap s) P = true;
  sc_targets : forall P, target_page pend P \/ P ∈ old_page_no <$> pend -> P ∈ dom (csr_pages (database s))
}.

(** Between steps no vertex lives on a page that is still being filled. *)
Definition smo_inv (s : smo_st) (pend : list pending_version_switch_t) : Prop :=
  smo_core s pend /\ forall P, target_page pend P -> ~ current s P.

(** The neighbour sets are the same. *)
Definition same_sets (d d' : db) : Prop := forall v X, 0 <= v < vertex_count d -> neighbors d v X -> neighbors d' v X.

(** Steps that retire no version, reclaim none and cut no chain. *)
Record calm (s s' : smo_st) : Prop := {
  cm_retired : retired_versions_ (index s') = retired_versions_ (index s);
  cm_hazptr : hazptr_retired (index s') = hazptr_retired (index s);
  cm_batches : reclaim_batches s' = reclaim_batches s;
  cm_ext : pages_ext (pages (pmap s)) (pages (pmap s'))
}.

#[export] Instance calm_preorder : PreOrder calm.
Proof. split; [by constructor|]. intros a b c [] []. constructor; try congruence. by etrans. Qed.

(** Every batch waits for versions that are still to be reclaimed. *)
Definition tracked (s : smo_st) : Prop :=
  Forall (fun b : gset Z * Z => b.1 <> ∅ /\ forall id, id ∈ b.1 -> id ∈ retired_versions_ (index s) ++ hazptr_retired (index s)) (reclaim_batches s).

Lemma calm_tracked (s s' : smo_st) : calm s s' -> tracked s -> tracked s'.
Proof. intros [E1 E2 E3 _]. unfold tracked. by rewrite E1, E2, E3. Qed.

(** The chains of the vertices outside [vs] are kept, and the versions [olds]
    retired. *)
Record switches (vs : list Z) (olds : list Z) (s s' : smo_st) : Prop := {
  ss_retired : retired_versions_ (index s') = retired_versions_ (index s) ++ olds;
  ss_hazptr : hazptr_retired (index s') = hazptr_retired (index s);
  ss_chain : forall w h rs, w ∉ vs -> Forall (fun r => first r = w) rs -> chain_at (pages (pmap s)) h rs -> chain_at (pages (pmap s')) h rs
}.

Lemma switches_nil s : switches [] [] s s.
Proof. constructor; [by rewrite app_nil_r|done..]. Qed.

Lemma switches_app vs1 vs2 o1 o2 s1 s2 s3 : switches vs1 o1 s1 s2 -> switches vs2 o2 s2 s3 -> switches (vs1 ++ vs2) (o1 ++ o2) s1 s3.
Proof.
  intros [A1 A2 A3] [B1 B2 B3]. constructor; [by rewrite B1, A1, app_assoc|congruence|].
  intros w h rs Hw Hf Hc. apply not_elem_of_app in Hw as [W1 W2]. by apply (B3 w), (A3 w).
Qed.

(** ** Consequences *)

Section Core.
Variables (s : smo_st) (pend : list pending_version_switch_t).
Hypothesis Hc : smo_core s pend.

Lemma core_located v : known s v -> exists P i, located s v P i.
Proof.
  intros Hv. destruct (i_vertex _ (sc_db _ _ Hc) v Hv) as (b & h & rs & Hb & _).
  unfold base_of in Hb. destruct (item_of _ v); [|done]. cbn in Hb.
  destruct (location_of _ v) as [[P i]|] eqn:E; [|done]. by exists P, i.
Qed.

Lemma located_fun v P i P' i' : located s v P i -> located s v P' i' -> P = P' /\ i = i'.
Proof. intros [_ H1] [_ H2]. rewrite H1 in H2. by injection H2. Qed.

Lemma chain_of_fun v rs rs' : chain_of (database s) v rs -> chain_of (database s) v rs' -> rs = rs'.
Proof. intros (h & H1 & H2) (h' & H1' & H2'). simplify_eq. by eapply chain_at_det. Qed.

Lemma moving_dec v : moving pend v \/ ~ moving pend v.
Proof.
  unfold moving. destruct (decide (Exists (fun q => is_Some (new_locations q !! v)) pend)) as [Hm|Hm];
    rewrite Exists_exists in Hm; [left|right]; naive_solver.
Qed.

(** A page with a forwarding table moves all its vertices. *)
Lemma forwarded_moving v P i fid :
  located s v P i -> acquire_forwarder_for (pmap s) P = Some fid ->
  exists q pv, q ∈ pend /\ old_page_no q = P /\ forwarder q = fid /\ new_locations q !! v = Some pv.
Proof.
  intros Hv Hf. destruct (sc_forwarders _ _ Hc _ _ Hf) as (q & Hq & HP & Hfid).
  destruct (sc_flight _ _ Hc q Hq) as [H1 _ _]. destruct (proj2 (H1 v)) as [pv Hpv]; [exists i; by rewrite HP|]. eauto 10.
Qed.

Lemma moving_forward v P i : located s v P i -> moving pend v ->
  exists q pv, q ∈ pend /\ old_page_no q = P /\ new_locations q !! v = Some pv /\
    forward_hit (pmap s) P v = Some (forwarder q, pv_first pv).
Proof.
  intros Hv (q & Hq & [pv Hpv]). destruct (sc_flight _ _ Hc q Hq) as [H1 H2 (f & Hf & H3)].
  destruct (proj1 (H1 v)) as [i' Hv']; [eauto|]. destruct (located_fun _ _ _ _ _ Hv Hv') as [-> _].
  exists q, pv. split; [done|]. split; [done|]. split; [done|]. unfold forward_hit. rewrite H2. cbn. rewrite Hf. cbn.
  by rewrite (proj1 (H3 v pv Hpv)).
Qed.

Lemma settled_forward v P i : located s v P i -> ~ moving pend v ->
  acquire_forwarder_for (pmap s) P = None /\ forward_hit (pmap s) P v = None.
Proof.
  intros Hv Hm. assert (Hn : acquire_forwarder_for (pmap s) P = None).
  { destruct (acquire_forwarder_for (pmap s) P) as [fid|] eqn:E; [|done]. exfalso. apply Hm.
    destruct (forwarded_moving v P i fid Hv E) as (q & pv & ? & _ & _ & ?). exists q. eauto. }
  split; [done|]. unfold forward_hit. by rewrite Hn.
Qed.

Lemma settled_home v P i : located s v P i -> ~ moving pend v -> home (database s) v = Some P.
Proof.
  intros Hv Hm. unfold home. rewrite (proj2 Hv). cbn. unfold forward_target.
  by rewrite (proj2 (settled_forward v P i Hv Hm)).
Qed.

Lemma moving_home v q pv : q ∈ pend -> new_locations q !! v = Some pv -> home (database s) v = Some (pv_first pv).
Proof.
  intros Hq Hpv. destruct (sc_flight _ _ Hc q Hq) as [H1 H2 (f & Hf & H3)].
  destruct (proj1 (H1 v)) as [i Hv]; [eauto|]. unfold home. rewrite (proj2 Hv). cbn. unfold forward_target, forward_hit.
  rewrite H2. cbn. rewrite Hf. cbn. by rewrite (proj1 (H3 v pv Hpv)).
Qed.

Lemma moving_old v q : q ∈ pend -> is_Some (new_locations q !! v) -> exists i, located s v (old_page_no q) i.
Proof. intros Hq Hv. by apply (fl_located _ _ (sc_flight _ _ Hc q Hq)). Qed.

(** A vertex moves in one consolidation only. *)
Lemma moving_one v q q' : q ∈ pend -> q' ∈ pend -> is_Some (new_locations q !! v) -> is_Some (new_locations q' !! v) -> q = q'.
Proof.
  intros Hq Hq' H1 H2. destruct (moving_old v q Hq H1) as [i Hi], (moving_old v q' Hq' H2) as [i' Hi'].
  destruct (located_fun _ _ _ _ _ Hi Hi') as [E _]. destruct (sc_pend _ _ Hc) as (Hnd & _ & _).
  apply list_elem_of_lookup in Hq as [a Ha], Hq' as [a' Ha'].
  assert (a = a').
  { eapply (NoDup_lookup _ _ _ (old_page_no q) Hnd); rewrite list_lookup_fmap; [by rewrite Ha|by rewrite Ha', E]. }
  subst. congruence.
Qed.

End Core.

(** Steps that leave alone what a consolidation in flight depends on. *)
Lemma in_flight_mono (s s' : smo_st) q :
  (forall v P i, located s' v P i <-> located s v P i) ->
  (forall v, head_of (database s') v = head_of (database s) v) ->
  pages_ext (pages (pmap s)) (pages (pmap s')) ->
  acquire_forwarder_for (pmap s') (old_page_no q) = acquire_forwarder_for (pmap s) (old_page_no q) ->
  forwarders (pmap s') !! forwarder q = forwarders (pmap s) !! forwarder q ->
  (forall v pv N j, new_locations q !! v = Some pv -> loc_ready (index s) v N j pv -> loc_ready (index s') v N j pv) ->
  (forall N j v ns, N ∈ new_page_nos q -> slot s N j v ns -> slot s' N j v ns) ->
  (forall N recs, N ∈ new_page_nos q -> entry_recs (pmap s) N recs -> entry_recs (pmap s') N recs) ->
  (forall v, is_Some (new_locations q !! v) -> base_of (database s') v = base_of (database s) v) ->
  (forall v, is_Some (new_locations q !! v) ->
     g_stored (giant_db (database s')) v = g_stored (giant_db (database s)) v) ->
  in_flight s q -> in_flight s' q.
Proof.
  intros Hloc Hhd Hext Hacq Hfw Hrd Hsl Hrec Hbase Hst [F1 F2 (f & Hf & F3)]. constructor.
  - intros v. rewrite F1. split; intros [i Hv]; exists i; by apply Hloc.
  - by rewrite Hacq.
  - exists f. split; [by rewrite Hfw|]. intros v pv Hpv. destruct (F3 v pv Hpv) as (Hl & N & j & ns & new & old & recs & h & b & Hsw).
    split; [done|]. exists N, j, ns, new, old, recs, h, b. destruct Hsw as [S1 S2 S3 S4 S5 S6 S7 S8 S9 S10 S11 S12].
    assert (Hv : is_Some (new_locations q !! v)) by eauto.
    constructor; auto.
    + by rewrite Hhd.
    + destruct (rerouted_tail_ f !! v); [by eapply boundary_ext|]. destruct S5. split; [done|]. by eapply chain_at_ext.
    + by rewrite Hbase.
    + intros Hg. rewrite Hst by done. auto.
Qed.

(** Two readings of a page agree on the vertices. *)
Lemma slot_agree s P n v ns v' ns' : slot s P n v ns -> slot s P n v' ns' -> v = v'.
Proof.
  intros (adj & (_ & p & Hp & (_ & _ & Hs) & _) & Hn) (adj' & (_ & p' & Hp' & (_ & _ & Hs') & _) & Hn'). simplify_eq.
  destruct (Hs _ _ Hn) as ((w & Hw & E & _) & _), (Hs' _ _ Hn') as ((w' & Hw' & E' & _) & _). cbn in *. congruence.
Qed.

End Inv.
End Inv.
