(* ===== verification/SmoEdges.v ===== *)
(** * Edge updates while consolidations are in flight

    Writers keep the invariant of [SmoInv]: a record of a settled vertex goes
    to the vertex's page, one of a switching vertex to its new page, and the
    first of these becomes the boundary of the vertex's chain. *)

From S2P Require Import Prelude Config DeltaPage VertexIndex PageMap CsrPage Db EdgeOps Chains.
From S2P Require Import Reorder Builder Smo SmoMerge SmoBuild SmoInv.

Local Open Scope Z_scope.

Module Edges.
Import Delta VIndex PMap Csr DB EdgeOps Chains Smo Merge Build Inv.

Section Edges.
Context {A G SK : Type} `{cfg : Config} `{!PageAllocator A (Z.of_nat DELTA_PAGE_SIZE)}
  `{!PageAllocator A (Z.of_nat PAGE_SIZE)} `{!GiantStore G} `{!UpdateSketch SK} `{!SetOrder} `{!MapOrder}.

Abbreviation db := (bw_graph_db_t (A := A) (G := G) (SK := SK)).
Abbreviation smo_st := (smo_t (A := A) (G := G) (SK := SK)).
Abbreviation index s := (vertex_index (database s)).
Abbreviation pmap s := (page_map_table (database s)).

(** ** One record inserted *)

Section Inserted.
Variables (m m' : page_map_t (A := A)) (src tgt key : Z) (r : delta_record_t) (d : delta_head_t).
Hypothesis Hwf : pm_wf m.
Hypothesis Hin : inserted m m' tgt r d.
Hypothesis Hfw : forwarders m' = match forward_hit m key src with
  | Some (fid, _) => alter (fun f => note_rerouted_tail f src d) fid (forwarders m)
  | None => forwarders m end.

Lemma ins_ext : pages_ext (pages m) (pages m').
Proof. apply (ap_ext _ _ _ _ (in_appends _ _ _ _ _ Hin)). Qed.

Lemma ins_wf : pm_wf m'.
Proof. exact (set_forwarders_wf_inv _ _ (ap_wf _ _ _ _ (in_appends _ _ _ _ _ Hin))). Qed.

Lemma ins_records k recs' : entry_recs m' k recs' ->
  exists recs, entry_recs m k recs /\ recs' = recs ++ (if decide (k = tgt) then [r] else []).
Proof.
  intros H'. destruct (wf_entry_recs m k Hwf) as [recs Hr]. exists recs. split; [done|].
  eapply (entry_recs_det (set_forwarders (forwarders m) m')); [exact H'|].
  destruct Hin as [Hap _ _ _]. case_decide as E.
  - subst k. by apply (ap_key _ _ _ _ Hap).
  - rewrite app_nil_r. by apply (ap_other _ _ _ _ Hap).
Qed.

Lemma ins_acquire k : acquire_forwarder_for m' k = acquire_forwarder_for m k.
Proof. apply (ap_fields _ _ _ _ (in_appends _ _ _ _ _ Hin) k). Qed.

Lemma ins_claimed k : claimed m' k = claimed m k.
Proof. apply (ap_fields _ _ _ _ (in_appends _ _ _ _ _ Hin) k). Qed.

Lemma note_forward f v : forward_map_ (note_rerouted_tail f v d) = forward_map_ f.
Proof. unfold note_rerouted_tail. by destruct (rerouted_tail_ f !! v). Qed.

Lemma note_other f v w : w <> v -> rerouted_tail_ (note_rerouted_tail f v d) !! w = rerouted_tail_ f !! w.
Proof.
  intros Hne. unfold note_rerouted_tail. destruct (rerouted_tail_ f !! v); [done|]. cbn. by apply lookup_insert_ne.
Qed.

(** The tables keep their forwarding part; a table other than the source's
    keeps its tails. *)
Lemma ins_forwarder fid f : forwarders m !! fid = Some f ->
  exists f', forwarders m' !! fid = Some f' /\ forward_map_ f' = forward_map_ f /\
    (forall w, w <> src -> rerouted_tail_ f' !! w = rerouted_tail_ f !! w) /\
    (fst <$> forward_hit m key src = Some fid -> f' = note_rerouted_tail f src d).
Proof.
  intros Hf. rewrite Hfw. destruct (forward_hit m key src) as [[fid0 N]|]; [|by exists f].
  rewrite lookup_alter. case_decide as E.
  - subst fid0. rewrite Hf. cbn. exists (note_rerouted_tail f src d). split; [done|]. split; [apply note_forward|].
    split; [|done]. intros w Hw. by apply note_other.
  - exists f. split; [done|]. split; [done|]. split; [done|]. intros [= ->]. done.
Qed.

Lemma ins_forward_hit k v : forward_hit m' k v = forward_hit m k v.
Proof.
  unfold forward_hit. rewrite ins_acquire. destruct (acquire_forwarder_for m k) as [fid|]; [|done]. cbn.
  destruct (forwarders m !! fid) as [f|] eqn:Ef.
  - destruct (ins_forwarder fid f Ef) as (f' & -> & Hm & _). cbn. unfold lookup_forward. by rewrite Hm.
  - rewrite Hfw. destruct (forward_hit m key src) as [[fid0 N]|]; [|by rewrite Ef].
    rewrite lookup_alter, Ef. by case_decide; subst; rewrite ?Ef.
Qed.

End Inserted.

(** ** The invariant *)

Hypothesis Hsize : page_size_ok.

Section Prepend.
Variables (s : smo_st) (pend : list pending_version_switch_t) (src : Z) (r0 : delta_record_t).
Variables (P i : Z) (h d : delta_head_t) (m' : page_map_t (A := A)).
Hypothesis Hc : smo_core s pend.
Hypothesis Hsrc : located s src P i.
Hypothesis Hfirst : first r0 = src.
Hypothesis Hh : head_of (database s) src = Some h.
Let r := linked r0 h.
Let tgt := forward_target (pmap s) P src.
Hypothesis Hin : inserted (pmap s) m' tgt r d.
Hypothesis Hfw : forwarders m' = match forward_hit (pmap s) P src with
  | Some (fid, _) => alter (fun f => note_rerouted_tail f src d) fid (forwarders (pmap s))
  | None => forwarders (pmap s) end.

Let s' : smo_st := upd_db (fun d0 => set_vertex_index (set_page_map d0 m') (set_delta_head (vertex_index d0) src d)) s.

Lemma pre_wf : pm_wf (pmap s).
Proof. apply (i_pm _ (sc_db _ _ Hc)). Qed.

Lemma pre_valid : ptr_is_valid d = true.
Proof.
  destruct Hin as [Hap Hho Hva _]. eapply loc_holds_ptr_valid; [|exact Hho|exact Hva]. apply (w_pages _ (ap_wf _ _ _ _ Hap)).
Qed.

Lemma pre_head v : v <> src -> 0 <= v -> head_of (database s') v = head_of (database s) v.
Proof.
  intros Hne Hv. unfold head_of; cbn. apply list_lookup_insert_ne. destruct Hsrc as [[? _] _]. lia.
Qed.

Lemma pre_head_src : head_of (database s') src = Some d.
Proof. unfold head_of in *; cbn. apply list_lookup_insert_eq. by eapply lookup_lt_Some. Qed.

Lemma pre_home v : home (database s') v = home (database s) v.
Proof.
  unfold home. change (location_of (database s') v) with (location_of (database s) v).
  destruct (location_of (database s) v) as [[Q j]|]; [|done]. cbn. unfold forward_target.
  by rewrite (ins_forward_hit (pmap s) m' src tgt P r d Hin Hfw).
Qed.

Lemma pre_of_vertex v recs k : v <> src ->
  of_vertex v (recs ++ (if decide (k = tgt) then [r] else [])) = of_vertex v recs.
Proof.
  intros Hne. unfold of_vertex. rewrite filter_app. case_decide; [|by rewrite app_nil_r].
  rewrite filter_cons_False; [by rewrite app_nil_r|]. cbn. congruence.
Qed.

Lemma pre_of_src recs : reverse (of_vertex src (recs ++ [r])) = r :: reverse (of_vertex src recs).
Proof.
  unfold of_vertex. rewrite filter_app, filter_cons_True by (cbn; congruence). by rewrite reverse_app.
Qed.

Lemma pre_settled v : known s v -> ~ moving pend v -> settled s' v.
Proof.
  intros Hv Hm. destruct (sc_settled _ _ Hc v Hv Hm) as (Q & j & rs & recs & Hl & (h' & Hh' & Hch) & Hr & Ho).
  pose proof (ins_ext _ _ _ _ _ Hin) as Hext.
  destruct (wf_entry_recs m' Q) as [recs' Hr']; [exact (ins_wf _ _ _ _ _ Hin)|].
  destruct (ins_records _ _ _ _ _ pre_wf Hin Q recs' Hr') as (recs0 & Hr0 & ->).
  rewrite (entry_recs_det _ _ _ _ Hr0 Hr) in Hr'.
  destruct (decide (v = src)) as [->|Hne].
  - destruct (located_fun s _ _ _ _ _ Hsrc Hl) as [<- <-]. rewrite Hh in Hh'. injection Hh' as <-.
    assert (Ht : tgt = P).
    { unfold tgt, forward_target. by rewrite (proj2 (settled_forward s pend Hc src P i Hsrc Hm)). }
    rewrite decide_True in Hr' by done. eexists P, i, (r :: rs), _. split; [done|].
    split; [|split; [exact Hr'|]].
    + exists d. split; [apply pre_head_src|]. constructor; [apply pre_valid|apply Hin|].
      unfold r. rewrite link_of_linked. by eapply chain_at_ext.
    + rewrite pre_of_src. cbn. by rewrite Ho.
  - eexists Q, j, rs, _. split; [done|]. split; [|split; [exact Hr'|by rewrite pre_of_vertex]].
    exists h'. rewrite pre_head by (done || apply Hv). split; [done|]. by eapply chain_at_ext.
Qed.

Lemma pre_switching q v pv f f' N j ns new old recs h0 b :
  q ∈ pend -> new_locations q !! v = Some pv -> known s v ->
  (forall w, w <> src -> rerouted_tail_ f' !! w = rerouted_tail_ f !! w) ->
  (fst <$> forward_hit (pmap s) P src = Some (forwarder q) -> f' = note_rerouted_tail f src d) ->
  switching s q v pv f N j ns new old recs h0 b ->
  exists new' recs' h0', switching s' q v pv f' N j ns new' old recs' h0' b.
Proof.
  intros Hq Hpv Hv Hot Hsr [S1 S2 S3 S4 S5 S6 S7 S8 S9 S10 S11 S12].
  pose proof (ins_ext _ _ _ _ _ Hin) as Hext.
  destruct (wf_entry_recs m' N) as [recs' Hr']; [exact (ins_wf _ _ _ _ _ Hin)|].
  destruct (ins_records _ _ _ _ _ pre_wf Hin N recs' Hr') as (recs0 & Hr0 & ->).
  rewrite (entry_recs_det _ _ _ _ Hr0 S7) in Hr'.
  destruct (decide (v = src)) as [->|Hne].
  - rewrite Hh in S4. injection S4 as <-.
    destruct (moving_forward s pend Hc src P i Hsrc) as (q' & pv' & Hq' & _ & Hpv' & Hhit); [exists q; eauto|].
    assert (q' = q) as -> by (eapply (moving_one s pend Hc src); eauto). rewrite Hpv in Hpv'. injection Hpv' as <-.
    rewrite Hhit in Hsr. rewrite (Hsr eq_refl).
    assert (Ht : tgt = N) by (unfold tgt, forward_target; rewrite Hhit; apply S1).
    rewrite decide_True in Hr' by done. exists (r :: new), (recs ++ [r]), d. constructor; try done.
    + by apply (loc_ready_same (index s)).
    + apply pre_head_src.
    + unfold note_rerouted_tail. destruct (rerouted_tail_ f !! src) as [t|] eqn:Et.
      * rewrite Et. eapply boundary_cons; [by eapply boundary_ext|apply pre_valid|apply Hin|apply link_of_linked].
      * cbn. rewrite lookup_insert_eq. destruct S5 as [-> Hco]. exists [], r. split; [done|]. split; [constructor|].
        split; [apply Hin|]. split; [apply pre_valid|]. split; [apply Hin|]. unfold r. rewrite link_of_linked.
        by eapply chain_at_ext.
    + cbn. by constructor.
    + rewrite pre_of_src. cbn. by rewrite S8.
  - exists new, (recs ++ (if decide (N = tgt) then [r] else [])), h0. constructor; try done.
    + by apply (loc_ready_same (index s)).
    + by rewrite pre_head by (done || apply Hv).
    + rewrite Hot by done. destruct (rerouted_tail_ f !! v); [by eapply boundary_ext|].
      destruct S5 as [-> ?]. split; [done|]. by eapply chain_at_ext.
    + by rewrite pre_of_vertex.
Qed.

Lemma pre_flight q : q ∈ pend -> in_flight s' q.
Proof.
  intros Hq. destruct (sc_flight _ _ Hc q Hq) as [F1 F2 (f & Hf & F3)]. constructor; [done|..].
  - cbn. by rewrite (ins_acquire _ _ _ _ _ Hin).
  - destruct (ins_forwarder (pmap s) m' src P d Hfw (forwarder q) f Hf) as (f' & Hf' & Hm & Hot & Hsr). exists f'. split; [done|].
    intros v pv Hpv. destruct (F3 v pv Hpv) as (Hl & N & j & ns & new & old & recs & h0 & b & Hsw).
    split; [unfold lookup_forward in *; by rewrite Hm|].
    destruct (proj1 (F1 v)) as [j' [Hv _]]; [eauto|].
    destruct (pre_switching q v pv f f' N j ns new old recs h0 b) as (new' & recs' & h0' & Hsw'); try done.
    eauto 10.
Qed.

Lemma prepend_core : db_inv (database s') -> in_width 32 (second r0) -> smo_core s' pend.
Proof.
  intros Hdb Hw. pose proof Hc as [C1 C2 C3 C4 C5 C6 C7 C8 C9 C10 C11 C12 C13 C14 C15 C16 C17].
  constructor; try done.
  - destruct C5 as [? ? ? ? ?]. by constructor.
  - intros k recs' Hr'. destruct (ins_records _ _ _ _ _ pre_wf Hin k recs' Hr') as (recs & Hr & ->).
    apply Forall_app. split.
    + eapply Forall_impl; [by apply (sc_records _ _ Hc k)|]. cbn. intros x (? & ? & ?). by rewrite pre_home.
    + case_decide as E; [|done]. apply Forall_singleton. split; [|split].
      * cbn. rewrite Hfirst. apply Hsrc.
      * rewrite pre_home. cbn. rewrite Hfirst. unfold home. rewrite (proj2 Hsrc). cbn. by rewrite E.
      * done.
  - apply pre_settled.
  - apply pre_flight.
  - intros k fid. cbn. rewrite (ins_acquire _ _ _ _ _ Hin). apply Hc.
  - destruct (sc_queue _ _ Hc) as [Q1 Q2]. split; [done|]. intros Q HQ. cbn.
    rewrite (ins_claimed _ _ _ _ _ Hin). by apply Q2.
Qed.

End Prepend.

(** ** The operations *)

Abbreviation with_db s d := (upd_db (fun _ => d) s).
Abbreviation delta_room := (room (page_bytes := Z.of_nat DELTA_PAGE_SIZE)).

Lemma sketch_core (s : smo_st) pend v : smo_core s pend -> smo_core (with_db s (record_write (database s) v)) pend.
Proof.
  intros Hc. pose proof Hc as [C1 C2 C3 C4 C5 C6 C7 C8 C9 C10 C11 C12 C13 C14 C15 C16 C17]. constructor; try done.
  - apply (record_write_view (database s) v C1).
  - intros q Hq. by apply (in_flight_mono s); auto.
Qed.

Lemma smo_core_inv (s s' : smo_st) pend : smo_inv s pend -> smo_core s' pend ->
  (forall P, current s' P -> current s P) -> smo_inv s' pend.
Proof. intros [_ H1] H2 H3. split; [done|]. intros P HP Hcu. by apply (H1 P HP), H3. Qed.

Lemma prepend_smo (s : smo_st) pend now src dst op k :
  smo_core s pend -> known s src -> in_width 32 dst -> in_width 64 now ->
  delta_room (allocator (pmap s)) (S (S k)) ->
  exists P i rer d', located s src P i /\
    prepend_delta (database s) src (new_record now EDGE op src dst) = Some (P, rer, d') /\
    smo_core (with_db s d') pend /\ rer = bool_decide (is_Some (forward_hit (pmap s) P src)) /\
    (forall v Q j, located (with_db s d') v Q j <-> located s v Q j) /\
    smo_queue d' = smo_queue (database s) /\ delta_room (allocator (page_map_table d')) k /\ calm s (with_db s d') /\
    edge_step (database s) d' src (fun X => match op with INSERT => {[dst]} ∪ X | DELETE => X ∖ {[dst]} end).
Proof.
  intros Hc Hk Hdst Hnow Hroom. destruct (core_located s pend Hc src Hk) as (P & i & Hl).
  pose proof (sc_db _ _ Hc) as Hdb.
  destruct (prepend_edge Hsize (database s) now src dst op k Hdb Hk Hdst Hnow Hroom)
    as (P' & rer & d' & Hpre & _ & Hroom' & Hstep).
  assert (Hr : wf_record (new_record now EDGE op src dst)).
  { pose proof (i_ids _ Hdb). unfold known in Hk. unfold vertex_count in *.
    unfold wf_record, new_record, in_width, INVALID_DELTA_PAGE_NO, INVALID_DELTA_RECORD_IDX in *; cbn. lia. }
  destruct (prepend_delta_spec Hsize (database s) src _ k Hdb Hk Hr eq_refl Hroom)
    as (loc & h & d & m' & Hloc & Hh & Hpre' & Hin & _ & _ & Hfw).
  rewrite Hpre' in Hpre. injection Hpre as <- <- <-. rewrite (proj2 Hl) in Hloc. injection Hloc as <-.
  cbn [fst] in *. eexists P, i, _, _. split; [done|]. split; [exact Hpre'|]. split.
  { apply (prepend_core s pend src (new_record now EDGE op src dst) P i h d m' Hc Hl eq_refl Hh Hin Hfw); [|done].
    apply (es_inv _ _ _ _ Hstep). }
  do 4 (split; [done|]). split; [|done]. constructor; try done. by eapply ins_ext.
Qed.

(** Claiming a page and queueing its consolidation. *)
Lemma claim_core (s : smo_st) pend P t m' :
  smo_core s pend -> current s P -> P ∉ old_page_no <$> pend -> ~ target_page pend P ->
  try_begin_consolidation_for (pmap s) P = (true, m') ->
  smo_core (with_db s (set_queue (set_page_map (database s) m') (smo_queue (database s) ++ [(P, t)]))) pend.
Proof.
  intros Hc Hcur Hold Htg Htry. pose proof Hc as [C1 C2 C3 C4 C5 C6 C7 C8 C9 C10 C11 C12 C13 C14 C15 C16 C17].
  pose proof (i_pm _ C1) as Hwf. destruct (try_begin_wf _ _ _ _ Htry Hwf) as (Hwf' & Hps & Hal & Hfo).
  unfold try_begin_consolidation_for in Htry. destruct (inner (pmap s) !! P) as [e|] eqn:Ee; [|done].
  destruct (consolidating_ e) eqn:Ecl; [done|]. injection Htry as <-.
  set (m' := set_inner _ _) in *.
  assert (Hent : forall k rs, entry_recs m' k rs <-> entry_recs (pmap s) k rs).
  { intros k rs. unfold entry_recs, m'; cbn. rewrite lookup_insert. case_decide; [subst; by rewrite Ee|done]. }
  assert (Hacq : forall k, acquire_forwarder_for m' k = acquire_forwarder_for (pmap s) k).
  { intros k. unfold acquire_forwarder_for, m'; cbn. rewrite lookup_insert. case_decide; [subst; by rewrite Ee|done]. }
  assert (Hhit : forall k v, forward_target m' k v = forward_target (pmap s) k v).
  { intros k v. unfold forward_target, forward_hit. by rewrite Hacq. }
  assert (Hhome : forall d0 v, d0 = database s ->
    home (set_queue (set_page_map d0 m') (smo_queue d0 ++ [(P, t)])) v = home d0 v).
  { intros d0 v ->. unfold home. cbn. unfold location_of; cbn.
    destruct (get_vertex_location _ _); [|done]. cbn. by rewrite Hhit. }
  constructor; try done.
  - apply (quiet_step (database s)); [done|done|done|done|apply C1|done].
  - intros k rs Hrs. apply Hent in Hrs. eapply Forall_impl; [by apply (C9 k)|]. cbn. intros x. by rewrite Hhome.
  - intros v Hv Hm. destruct (C10 v Hv Hm) as (Q & j & rs & recs & ? & ? & ? & ?).
    exists Q, j, rs, recs. split; [done|]. split; [done|]. split; [by apply Hent|done].
  - intros q Hq. apply (in_flight_mono s); auto; [done|]. intros N rs _. apply Hent.
  - intros k fid. cbn. rewrite Hacq. apply C12.
  - assert (Hclm : forall k, claimed m' k = if decide (k = P) then true else claimed (pmap s) k).
    { intros k. unfold claimed, m'; cbn. rewrite lookup_insert. repeat case_decide; subst; done. }
    destruct C16 as [Q1 Q2]. cbn. rewrite fmap_app. split.
    + apply NoDup_app. split; [done|]. split; [|apply NoDup_singleton]. intros x Hx. cbn. rewrite list_elem_of_singleton.
      intros ->. destruct (Q2 P Hx) as (_ & _ & Hcl). unfold claimed in Hcl. rewrite Ee in Hcl. cbn in Hcl. congruence.
    + intros x. rewrite elem_of_app, Hclm. intros [Hx|Hx].
      * destruct (Q2 x Hx) as (? & ? & ?). by case_decide.
      * cbn in Hx. apply list_elem_of_singleton in Hx as ->. by rewrite decide_True.
Qed.

Lemma insert_edge_smo (s : smo_st) pend now src dst k :
  smo_inv s pend -> live (database s) src -> live (database s) dst -> in_width 64 now ->
  delta_room (allocator (pmap s)) (S (S k)) ->
  exists d', insert_edge (database s) now src dst = Some (true, d') /\ smo_inv (with_db s d') pend /\
    edge_step (database s) d' src (fun X => {[dst]} ∪ X) /\ delta_room (allocator (page_map_table d')) k /\ calm s (with_db s d').
Proof.
  intros Hi [Hs Hls] [Hd Hld] Hnow Hroom. unfold insert_edge. rewrite Hls, Hld. cbn [andb negb].
  destruct Hi as [Hc Htg].
  set (s1 := with_db s (record_write (database s) src) : smo_st).
  pose proof (sketch_core s pend src Hc) as Hc1. fold s1 in Hc1.
  assert (Hdw : in_width 32 dst) by (pose proof (i_ids _ (sc_db _ _ Hc)); unfold in_width; lia).
  destruct (prepend_smo s1 pend now src dst INSERT k Hc1 Hs Hdw Hnow Hroom)
    as (P & i & rer & d2 & Hl & Hpre & Hc2 & Hrer & Hloc & Hq & Hroom2 & [K1 K2 K3 K4] & Hstep).
  change (database s1) with (record_write (database s) src) in *. rewrite Hpre. cbn [mbind option_bind].
  destruct (record_write_view (database s) src (sc_db _ _ Hc)) as (Hv1 & Hi1 & Hn1).
  assert (Hcalm : calm s (with_db s d2)) by (constructor; done).
  assert (Hstep' : forall d3, db_inv d3 -> same_view d2 d3 -> (forall v X, neighbors d2 v X -> neighbors d3 v X) ->
    edge_step (database s) d3 src (fun X => {[dst]} ∪ X)).
  { intros d3 Hi3 Hv3 Hn3. destruct Hstep as [_ Ev Es Eo]. constructor; [done|by etrans; [|etrans]|..].
    - intros X HX. apply Hn3, Es. by apply Hn1.
    - intros v X Hne Hr HX. apply Hn3, Eo; [done|done|]. by apply Hn1. }
  assert (Hinv : forall s3 : smo_st, smo_core s3 pend -> (forall v Q j, located s3 v Q j <-> located s v Q j) -> smo_inv s3 pend).
  { intros s3 Hc3 Hl3. split; [done|]. intros Q HQ (v & j & Hv). apply (Htg Q HQ). exists v, j. by apply Hl3. }
  assert (Hcur : is_Some (csr_pages d2 !! P)).
  { destruct (proj2 (Hloc src P i) Hl) as [Hkn Hlo]. destruct (sc_slot _ _ Hc2 src P i (conj Hkn Hlo)) as (n & ns & _ & adj & (_ & p & Hp & _) & _).
    eauto. }
  unfold trigger_consolidation. set (thr := match vertex_update_sketch_ d2 with Some _ => _ | None => _ end).
  assert (Hnochange : exists d', Some d2 ≫= (fun s => Some (true, s)) = Some (true, d') /\ smo_inv (with_db s d') pend /\
    edge_step (database s) d' src (fun X => {[dst]} ∪ X) /\ delta_room (allocator (page_map_table d')) k /\ calm s (with_db s d')).
  { exists d2. split; [done|]. split; [by apply Hinv|]. split; [|done]. apply Hstep'; [apply Hstep|done|done]. }
  destruct (_ <? thr); [exact Hnochange|]. destruct (negb (smo_enabled d2)); [exact Hnochange|].
  destruct rer; [exact Hnochange|]. clear Hnochange.
  destruct (try_begin_consolidation_for (page_map_table d2) P) as [[] m'] eqn:Etry.
  - destruct Hcur as [p Hp]. rewrite Hp. cbn [mbind option_bind].
    assert (Hnm : ~ moving pend src).
    { intros Hm. destruct (moving_forward s1 pend Hc1 src P i Hl Hm) as (q & pv & _ & _ & _ & Hh). change (database s1) with (record_write (database s) src) in Hh.
      rewrite Hh, bool_decide_eq_true_2 in Hrer; [done|eauto]. }
    assert (Hc3 := claim_core (with_db s d2) pend P thr m' Hc2).
    eexists. split; [done|]. split; [|split; [|split]].
    + apply Hinv; [|done]. apply Hc3; [exists src, i; by apply Hloc|..|exact Etry].
      * intros Hin. apply list_elem_of_fmap in Hin as (q & -> & Hq'). apply Hnm. exists q. split; [done|].
        apply (fl_located _ _ (sc_flight _ _ Hc1 q Hq')). eauto.
      * intros HP. apply (Htg P HP). exists src, i. done.
    + apply Hstep'.
      * apply (quiet_step d2); [done|done|..]; destruct (try_begin_wf _ _ _ _ Etry (i_pm _ (es_inv _ _ _ _ Hstep))) as (? & Hps & _);
          [by cbn; rewrite Hps|done|apply (i_sketch _ (es_inv _ _ _ _ Hstep))|apply Hstep].
      * done.
      * apply (quiet_step d2); [done|done|..]; destruct (try_begin_wf _ _ _ _ Etry (i_pm _ (es_inv _ _ _ _ Hstep))) as (? & Hps & _);
          [by cbn; rewrite Hps|done|apply (i_sketch _ (es_inv _ _ _ _ Hstep))|apply Hstep].
    + cbn. destruct (try_begin_wf _ _ _ _ Etry (i_pm _ (es_inv _ _ _ _ Hstep))) as (_ & _ & -> & _). done.
    + constructor; try done. cbn. destruct (try_begin_wf _ _ _ _ Etry (i_pm _ (es_inv _ _ _ _ Hstep))) as (_ & -> & _). done.
  - exists d2. split; [done|]. split; [by apply Hinv|]. split; [|done]. apply Hstep'; [apply Hstep|done|done].
Qed.

Lemma delete_edge_smo (s : smo_st) pend now src dst k :
  smo_inv s pend -> known s src -> known s dst -> in_width 64 now ->
  delta_room (allocator (pmap s)) (S (S k)) ->
  exists d', delete_edge (database s) now src dst = Some (true, d') /\ smo_inv (with_db s d') pend /\
    edge_step (database s) d' src (fun X => X ∖ {[dst]}) /\ delta_room (allocator (page_map_table d')) k /\ calm s (with_db s d').
Proof.
  intros [Hc Htg] Hs Hd Hnow Hroom. unfold delete_edge.
  assert (Hlv : forall v, known s v -> in_range (database s) v = true).
  { intros v Hv. unfold in_range, item_of. destruct (items (index s) !! Z.to_nat v) eqn:E; [done|].
    apply lookup_ge_None in E. unfold known in Hv. lia. }
  rewrite !Hlv by done. cbn [andb negb]. destruct (i_sketch _ (sc_db _ _ Hc)) as [sk Hsk]. rewrite Hsk. cbn [mbind option_bind].
  set (s1 := with_db s (record_write (database s) src) : smo_st).
  pose proof (sketch_core s pend src Hc) as Hc1. fold s1 in Hc1.
  assert (Hdw : in_width 32 dst).
  { pose proof (i_ids _ (sc_db _ _ Hc)). unfold known in Hd. unfold in_width, vertex_count in *. lia. }
  destruct (prepend_smo s1 pend now src dst DELETE k Hc1 Hs Hdw Hnow Hroom)
    as (P & i & rer & d2 & Hl & Hpre & Hc2 & Hrer & Hloc & Hq & Hroom2 & [K1 K2 K3 K4] & Hstep).
  change (database s1) with (record_write (database s) src) in *. rewrite Hpre. cbn [mbind option_bind].
  destruct (record_write_view (database s) src (sc_db _ _ Hc)) as (Hv1 & Hi1 & Hn1).
  exists d2. split; [done|]. split; [|split; [|split; [done|by constructor]]].
  - split; [done|]. intros Q HQ (v & j & Hv). apply (Htg Q HQ). exists v, j. by apply Hloc.
  - destruct Hstep as [Ei Ev Es Eo]. constructor; [done|by etrans|..].
    + intros X HX. apply Es. by apply Hn1.
    + intros v X Hne Hr HX. apply Eo; [done|done|]. by apply Hn1.
Qed.

End Edges.
End Edges.
