(* ===== verification/SmoPublish.v ===== *)
(** * Switching vertices to their new pages

    [finalize_vertex], run under the vertex's latch, turns one switching
    vertex into a settled one without changing any neighbour set; the states
    between two of these steps satisfy the invariant too, so readers and
    writers may run between them. *)

From S2P Require Import Prelude Config DeltaPage VertexIndex PageMap CsrPage Db EdgeOps Chains.
From S2P Require Import Reorder Builder Smo SmoMerge SmoBuild SmoInv.

Local Open Scope Z_scope.

Module Publish.
Import Delta VIndex PMap Csr DB EdgeOps Chains Smo Merge Build Inv.

Section Publish.
Context {A G SK : Type} `{cfg : Config} `{!PageAllocator A (Z.of_nat DELTA_PAGE_SIZE)}
  `{!PageAllocator A (Z.of_nat PAGE_SIZE)} `{!GiantStore G} `{!UpdateSketch SK} `{!SetOrder} `{!MapOrder}.

Abbreviation db := (bw_graph_db_t (A := A) (G := G) (SK := SK)).
Abbreviation smo_st := (smo_t (A := A) (G := G) (SK := SK)).
Abbreviation index s := (vertex_index (database s)).
Abbreviation pmap s := (page_map_table (database s)).

(** ** The page map after the cut *)

Record map_cut (m m' : page_map_t (A := A)) (v : Z) : Prop := {
  mc_wf : pm_wf m';
  mc_inner : inner m' = inner m;
  mc_alloc : allocator m' = allocator m;
  mc_forwarders : forwarders m' = forwarders m;
  mc_records : forall k rs, entry_recs m k rs -> exists rs', entry_recs m' k rs' /\ Forall2 rec_sim rs rs';
  mc_chain : forall w h rs, w <> v -> Forall (fun r => first r = w) rs -> chain_at (pages m) h rs -> chain_at (pages m') h rs;
  mc_boundary : forall w h new b old, w <> v -> Forall (fun r => first r = w) (new ++ old) ->
    boundary_at (pages m) h new b old -> boundary_at (pages m') h new b old
}.

Lemma map_cut_refl m v : pm_wf m -> map_cut m m v.
Proof. intros Hwf. constructor; auto. intros k rs Hr. exists rs. split; [done|apply rec_sim_list]. Qed.

Lemma map_cut_truncate m v h new tail old :
  pm_wf m -> boundary_at (pages m) h new tail old -> Forall (fun r => first r = v) new ->
  map_cut m (truncate_chain_at m tail) v /\
  exists new', chain_at (pages (truncate_chain_at m tail)) h new' /\ Forall2 rec_sim new new'.
Proof.
  intros Hwf Hb Hf. pose proof Hb as (front & l & En & _ & Hv & _ & Hl & _).
  assert (Hfl : first l = v).
  { rewrite En, Forall_app, Forall_singleton in Hf. apply Hf. }
  destruct (truncate_spec m tail l Hwf Hl Hv) as (Hwf' & Hcut & Hi & Ha & Hfo & Hr). split.
  - constructor; try done.
    + intros w h' rs Hw Hfw Hc. apply (cut_chain_other _ _ _ l Hcut Hl w); [congruence|done|done].
    + intros w h' new' b' old' Hw Hfw Hb'. apply (cut_boundary_other _ _ _ l Hcut Hl w); [congruence|done|done].
  - by apply (cut_boundary _ _ _ l Hcut Hl h new old).
Qed.

Lemma map_cut_back m m' v k rs' : pm_wf m -> map_cut m m' v -> entry_recs m' k rs' ->
  exists rs, entry_recs m k rs /\ Forall2 rec_sim rs rs'.
Proof.
  intros Hwf Hm Hr'. destruct (wf_entry_recs m k Hwf) as [rs Hr]. exists rs. split; [done|].
  destruct (mc_records _ _ _ Hm k rs Hr) as (rs2 & Hr2 & Hs). by rewrite (entry_recs_det _ _ _ _ Hr' Hr2).
Qed.

Lemma map_cut_acquire m m' v k : map_cut m m' v -> acquire_forwarder_for m' k = acquire_forwarder_for m k.
Proof. intros Hm. unfold acquire_forwarder_for. by rewrite (mc_inner _ _ _ Hm). Qed.

Lemma map_cut_target m m' v k w : map_cut m m' v -> forward_target m' k w = forward_target m k w.
Proof.
  intros Hm. unfold forward_target, forward_hit. by rewrite (map_cut_acquire _ _ _ _ Hm), (mc_forwarders _ _ _ Hm).
Qed.

(** ** The index after the switch *)

Record index_switched (vi vi' : vertex_index_t) (v : Z) (item : v_item_t) (e d : Z) (t : vertex_type_t)
    (nh : delta_head_t) : Prop := {
  is_items : items vi' = <[Z.to_nat v := VItem (Some d) t (is_delete item)]> (items vi);
  is_heads : delta_heads_ vi' = <[Z.to_nat v := nh]> (delta_heads_ vi);
  is_versions : versions vi' = alter (fun x => VertexVersion (v_page_no x) (v_offset x) None) d (versions vi);
  is_next : next_version vi' = next_version vi;
  is_retired : retired_versions_ vi' = retired_versions_ vi ++ [e];
  is_hazptr : hazptr_retired vi' = hazptr_retired vi
}.

Lemma publish_index vi v item pv ps t nh e d :
  gc_inv (GC vi [] ((Z.to_nat v, pv) :: ps)) -> items vi !! Z.to_nat v = Some item ->
  expected pv = cur item -> cur item = Some e -> desired pv = Some d ->
  exists pv' vi', publish_prepared_version (update_vertex_type (set_delta_head vi v nh) (Z.to_nat v) t) (Z.to_nat v) pv =
      (true, pv', vi') /\ index_switched vi vi' v item e d t nh /\ gc_inv (GC vi' [] ps).
Proof.
  intros Hgc Hi He Hcur Hd. set (vi1 := update_vertex_type (set_delta_head vi v nh) (Z.to_nat v) t).
  assert (Hi1 : items vi1 !! Z.to_nat v = Some (VItem (cur item) t (is_delete item))).
  { cbn. by rewrite list_lookup_alter, decide_True, Hi by done. }
  assert (Hgc1 : gc_inv (GC vi1 [] ((Z.to_nat v, pv) :: ps))).
  { apply (gc_inv_same_curs vi); try done.
    - cbn. by apply omap_alter_cur.
    - cbn. apply Forall_alter; [apply Hgc|]. done. }
  destruct (publish_prepared_version vi1 (Z.to_nat v) pv) as [[ok pv'] vi'] eqn:E.
  assert (ok = true) as ->.
  { unfold publish_prepared_version in E. rewrite Hi1, He, Hcur, Hd in E. cbn [cur] in E.
    rewrite decide_True in E by done. by injection E as <- _ _. }
  exists pv', vi'. split; [done|]. split; [|by apply (publish_inv vi1 [] [] ps (Z.to_nat v) pv pv')].
  unfold publish_prepared_version in E. rewrite Hi1, He, Hcur, Hd in E. cbn [cur] in E.
  rewrite decide_True in E by done. injection E as _ <-.
  pose proof (lookup_lt_Some _ _ _ Hi) as Hlt. constructor; try done. cbn. apply list_eq. intros k.
  destruct (decide (k = Z.to_nat v)) as [->|Hk].
  - rewrite !list_lookup_insert_eq by (rewrite ?length_alter; done). done.
  - rewrite !list_lookup_insert_ne by done. by rewrite list_lookup_alter_ne.
Qed.

(** ** One vertex *)

Hypothesis Hcompress : NEIGHBOR_COMPRESS = false.

(** The consolidation without a vertex that has been switched. *)
Definition without (q : pending_version_switch_t) (v : Z) : pending_version_switch_t :=
  Pending (delete v (new_locations q)) (forwarder q) (giant_vertices q) (old_page_no q) (need_split q) (new_page_nos q).

Section Switch.
Variables (s : smo_st) (l1 l2 : list pending_version_switch_t) (q : pending_version_switch_t).
Let pend := l1 ++ q :: l2.
Variables (v : Z) (pv : prepared_vertex_version_t) (f : page_delta_t).
Variables (N : Z) (j : nat) (ns : list Z) (new old recs : list delta_record_t) (h : delta_head_t) (b : list Z).
Variables (m' : page_map_t (A := A)) (nh : delta_head_t) (new' : list delta_record_t).
Variables (vi' : vertex_index_t) (item : v_item_t) (e d : Z).
Let q' := without q v.
Let pend' := l1 ++ q' :: l2.
Let t := if bool_decide (v ∈ giant_vertices q) then GIANT else NORMAL.

Hypothesis Hc : smo_core s pend.
Hypothesis Hpv : new_locations q !! v = Some pv.
Hypothesis Hsw : switching s q v pv f N j ns new old recs h b.
Hypothesis Hcut : map_cut (pmap s) m' v.
Hypothesis Hnh : wf_loc nh.
Hypothesis Hnew : chain_at (pages m') nh new'.
Hypothesis Hsim : Forall2 rec_sim new new'.
Hypothesis Hitem : items (index s) !! Z.to_nat v = Some item.
Hypothesis Hidx : index_switched (index s) vi' v item e d t nh.
Hypothesis Hgc : gc_inv (GC vi' [] (all_prepared pend')).
Hypothesis Hdes : desired pv = Some d.

Let s' : smo_st := upd_db (fun d0 => set_vertex_index (set_page_map d0 m') vi') s.

Lemma sw_q : q ∈ pend.
Proof. unfold pend. set_solver. Qed.

Lemma sw_known : known s v.
Proof.
  destruct (moving_old s pend Hc v q sw_q) as [i [Hk _]]; [eauto|done].
Qed.

Lemma sw_nat w : w <> v -> 0 <= w -> Z.to_nat w <> Z.to_nat v.
Proof. pose proof sw_known as Hk. unfold known in Hk. lia. Qed.

Lemma sw_known_iff w : known s' w <-> known s w.
Proof. unfold known; cbn. rewrite (is_items _ _ _ _ _ _ _ _ Hidx), length_insert. done. Qed.

Lemma sw_item_other w : w <> v -> 0 <= w -> item_of (database s') w = item_of (database s) w.
Proof.
  intros Hw Hz. unfold item_of; cbn. rewrite (is_items _ _ _ _ _ _ _ _ Hidx). apply list_lookup_insert_ne.
  by apply not_eq_sym, sw_nat.
Qed.

Lemma sw_item : item_of (database s') v = Some (VItem (Some d) t (is_delete item)).
Proof.
  unfold item_of; cbn. rewrite (is_items _ _ _ _ _ _ _ _ Hidx). apply list_lookup_insert_eq.
  by eapply lookup_lt_Some.
Qed.

Lemma sw_head_other w : w <> v -> 0 <= w -> head_of (database s') w = head_of (database s) w.
Proof.
  intros Hw Hz. unfold head_of; cbn. rewrite (is_heads _ _ _ _ _ _ _ _ Hidx). apply list_lookup_insert_ne.
  by apply not_eq_sym, sw_nat.
Qed.

Lemma sw_head_v : head_of (database s') v = Some nh.
Proof.
  unfold head_of; cbn. rewrite (is_heads _ _ _ _ _ _ _ _ Hidx). apply list_lookup_insert_eq.
  pose proof (sw_head _ _ _ _ _ _ _ _ _ _ _ _ _ Hsw) as Hh. unfold head_of in Hh. by eapply lookup_lt_Some.
Qed.

Lemma sw_loc_other w : w <> v -> 0 <= w -> location_of (database s') w = location_of (database s) w.
Proof.
  intros Hw Hz. unfold location_of, get_vertex_location, protect_vertex_version.
  pose proof (sw_item_other w Hw Hz) as Hi. unfold item_of in Hi. rewrite Hi.
  destruct (items (index s) !! Z.to_nat w) as [it|]; [|done]. cbn. destruct (cur it) as [id|]; [|done]. cbn.
  rewrite (is_versions _ _ _ _ _ _ _ _ Hidx), lookup_alter. case_decide; [subst|done].
  by destruct (versions (index s) !! id).
Qed.

Lemma sw_loc_v : location_of (database s') v = Some (N, Z.of_nat j).
Proof.
  unfold location_of, get_vertex_location, protect_vertex_version.
  pose proof sw_item as Hi. unfold item_of in Hi. rewrite Hi. cbn.
  rewrite (is_versions _ _ _ _ _ _ _ _ Hidx), lookup_alter, decide_True by done.
  destruct (lr_desired _ _ _ _ _ (sw_ready _ _ _ _ _ _ _ _ _ _ _ _ _ Hsw)) as (d' & prev & Hd' & _ & Hv).
  rewrite Hdes in Hd'. injection Hd' as <-. by rewrite Hv.
Qed.

Lemma sw_located_other w P i : w <> v -> located s' w P i <-> located s w P i.
Proof.
  intros Hw. unfold located. rewrite sw_known_iff. split; intros [Hk Hl]; (split; [done|]);
    [rewrite <- sw_loc_other|rewrite sw_loc_other]; auto; apply Hk.
Qed.

Lemma sw_located_v P i : located s' v P i <-> P = N /\ i = Z.of_nat j.
Proof.
  unfold located. rewrite sw_known_iff, sw_loc_v. split; [by intros [_ [= <- <-]]|].
  intros [-> ->]. split; [apply sw_known|done].
Qed.

Lemma sw_base_other w : w <> v -> 0 <= w -> base_of (database s') w = base_of (database s) w.
Proof. intros Hw Hz. unfold base_of. by rewrite sw_item_other, sw_loc_other. Qed.

(** Its base is the merged list. *)
Lemma sw_base_v : exists b', base_of (database s') v = Some b' /\ (list_to_set b' : gset Z) = list_to_set ns /\
  Forall (in_width 32) b'.
Proof.
  destruct Hsw as [S1 S2 (adj & (Hok & p & Hp & (_ & _ & Hsh) & _) & Hadj) S4 S5 S6 S7 S8 S9 S10 S11 S12].
  assert (Hw : Forall (in_width 32) ns).
  { unfold adj_ok in Hok. rewrite Forall_lookup in Hok. destruct (Hok _ _ Hadj) as [_ H']. by rewrite Hcompress in H'. }
  unfold base_of. rewrite sw_item, sw_loc_v. cbn. rewrite Hp. cbn. unfold is_giant; cbn. unfold t.
  destruct (bool_decide_reflect (v ∈ giant_vertices q)) as [Hg|Hg]; cbn.
  - destruct (S11 Hg) as (b' & Hb' & Hperm). exists b'. split; [done|]. rewrite Hperm. done.
  - destruct (Hsh _ _ Hadj) as [_ Hpn]. cbn in Hpn. rewrite (S12 Hg) in Hpn. exists ns. by rewrite Hpn.
Qed.

Lemma sw_moving w : w <> v -> moving pend' w <-> moving pend w.
Proof.
  intros Hw. unfold moving, pend, pend'. split; intros (x & Hx & Hs).
  - apply elem_of_app in Hx as [Hx|Hx]; [exists x; set_solver|]. apply elem_of_cons in Hx as [->|Hx]; [|exists x; set_solver].
    exists q. split; [set_solver|]. cbn in Hs. by rewrite lookup_delete_ne in Hs.
  - apply elem_of_app in Hx as [Hx|Hx]; [exists x; set_solver|]. apply elem_of_cons in Hx as [->|Hx]; [|exists x; set_solver].
    exists q'. split; [set_solver|]. cbn. by rewrite lookup_delete_ne.
Qed.

Lemma sw_moving_to w P i : moving_to pend w P i ->
  moving_to pend' w P i \/ (w = v /\ P = N /\ i = Z.of_nat j).
Proof.
  intros (x & pv' & Hx & Hs & HP & Hi). destruct (decide (w = v)) as [->|Hw].
  - right. split; [done|]. assert (x = q) as -> by (eapply (moving_one s pend Hc v); eauto using sw_q).
    rewrite Hpv in Hs. injection Hs as <-. destruct (sw_ready _ _ _ _ _ _ _ _ _ _ _ _ _ Hsw) as [E1 E2 _ _]. split; congruence.
  - left. apply elem_of_app in Hx as [Hx|Hx]; [exists x, pv'; set_solver|].
    apply elem_of_cons in Hx as [->|Hx]; [|exists x, pv'; set_solver]. exists q', pv'. split; [set_solver|].
    cbn. by rewrite lookup_delete_ne.
Qed.

Lemma sw_target_page P : target_page pend' P <-> target_page pend P.
Proof.
  unfold target_page, pend, pend'. split; intros (x & Hx & HP).
  - apply elem_of_app in Hx as [Hx|Hx]; [exists x; set_solver|].
    apply elem_of_cons in Hx as [->|Hx]; [exists q|exists x]; set_solver.
  - apply elem_of_app in Hx as [Hx|Hx]; [exists x; set_solver|].
    apply elem_of_cons in Hx as [->|Hx]; [exists q'|exists x]; set_solver.
Qed.

Lemma sw_N_target : target_page pend N.
Proof. exists q. split; [apply sw_q|apply (sw_target _ _ _ _ _ _ _ _ _ _ _ _ _ Hsw)]. Qed.

Lemma sw_N_old x : x ∈ pend -> N <> old_page_no x.
Proof. intros Hx E. apply (sc_old _ _ Hc x Hx). rewrite <- E. apply sw_N_target. Qed.

Lemma sw_fmap {B} (g : pending_version_switch_t -> B) : (forall x w, g (without x w) = g x) -> g <$> pend' = g <$> pend.
Proof. intros Hg. unfold pend, pend', q'. rewrite !fmap_app. cbn. by rewrite Hg. Qed.

Lemma sw_home w : known s w -> home (database s') w = home (database s) w.
Proof.
  intros Hk. destruct (decide (w = v)) as [->|Hw].
  - rewrite (moving_home s pend Hc v q pv sw_q Hpv).
    rewrite (lr_first _ _ _ _ _ (sw_ready _ _ _ _ _ _ _ _ _ _ _ _ _ Hsw)).
    unfold home. rewrite sw_loc_v. cbn. rewrite (map_cut_target _ _ _ _ _ Hcut). unfold forward_target, forward_hit.
    destruct (acquire_forwarder_for (pmap s) N) as [fid|] eqn:E; [|done]. exfalso.
    destruct (sc_forwarders _ _ Hc _ _ E) as (x & Hx & HN & _). by apply (sw_N_old x Hx).
  - unfold home. rewrite sw_loc_other by (done || apply Hk). destruct (location_of (database s) w) as [[P i]|]; [|done].
    cbn. by rewrite (map_cut_target _ _ _ _ _ Hcut).
Qed.

Lemma sw_wf : pm_wf (pmap s).
Proof. apply (i_pm _ (sc_db _ _ Hc)). Qed.

Lemma sw_new_own : Forall (fun r => first r = v) new'.
Proof.
  eapply first_sim; [exact Hsim|]. pose proof (sw_own _ _ _ _ _ _ _ _ _ _ _ _ _ Hsw) as H'. by apply Forall_app in H' as [? _].
Qed.

Lemma sw_db_inv : db_inv (database s').
Proof.
  pose proof (sc_db _ _ Hc) as Hdb. constructor; [apply Hcut|apply Hdb|..].
  - unfold vertex_count; cbn. rewrite (is_items _ _ _ _ _ _ _ _ Hidx), length_insert. apply Hdb.
  - intros w Hw. change (known s' w) in Hw. rewrite sw_known_iff in Hw. destruct (decide (w = v)) as [->|Hne].
    + destruct sw_base_v as (b' & Hb' & _ & _). exists b', nh, new'. split; [done|]. split; [apply sw_head_v|].
      split; [done|]. split; [exact Hnew|apply sw_new_own].
    + destruct (i_vertex _ Hdb w Hw) as (b' & h' & rs & Hb' & Hh' & Hwf & Hch & Hf).
      exists b', h', rs. rewrite sw_base_other, sw_head_other by (done || apply Hw).
      do 3 (split; [done|]). split; [|done]. by apply (mc_chain _ _ _ Hcut w).
Qed.

Lemma sw_settled w : known s' w -> ~ moving pend' w -> settled s' w.
Proof.
  rewrite sw_known_iff. intros Hk Hm. destruct (decide (w = v)) as [->|Hne].
  - destruct (mc_records _ _ _ Hcut N recs (sw_recs _ _ _ _ _ _ _ _ _ _ _ _ _ Hsw)) as (recs' & Hr' & Hs).
    exists N, (Z.of_nat j), new', recs'. split; [by apply sw_located_v|]. split; [exists nh; split; [apply sw_head_v|exact Hnew]|].
    split; [exact Hr'|]. rewrite (ops_sim _ _ Hsim), (sw_ops _ _ _ _ _ _ _ _ _ _ _ _ _ Hsw), !ops_of_reverse.
    by rewrite (of_vertex_sim _ _ _ Hs).
  - rewrite sw_moving in Hm by done. destruct (sc_settled _ _ Hc w Hk Hm) as (P & i & rs & rc & Hl & (h' & Hh' & Hch) & Hr & Ho).
    destruct (mc_records _ _ _ Hcut P rc Hr) as (rc' & Hr' & Hs).
    exists P, i, rs, rc'. split; [by apply sw_located_other|]. split.
    + exists h'. rewrite sw_head_other by (done || apply Hk). split; [done|].
      destruct (i_vertex _ (sc_db _ _ Hc) w Hk) as (b0 & h0 & rs0 & _ & Hh0 & _ & Hch0 & Hf0).
      rewrite Hh' in Hh0. injection Hh0 as <-. rewrite (chain_at_det _ _ _ _ Hch Hch0).
      by apply (mc_chain _ _ _ Hcut w).
    + split; [exact Hr'|]. by rewrite Ho, !ops_of_reverse, (of_vertex_sim _ _ _ Hs).
Qed.

(** The other switching vertices, of this or another consolidation. *)
Lemma sw_switching_other x x' w pw g M i ms nw ol rc hw bw :
  w <> v -> known s w -> giant_vertices x' = giant_vertices x -> new_page_nos x' = new_page_nos x ->
  switching s x w pw g M i ms nw ol rc hw bw ->
  exists rc', switching s' x' w pw g M i ms nw ol rc' hw bw.
Proof.
  intros Hne Hk Eg En [S1 S2 S3 S4 S5 S6 S7 S8 S9 S10 S11 S12].
  destruct (mc_records _ _ _ Hcut M rc S7) as (rc' & Hr' & Hs). exists rc'. constructor; try done.
  - destruct S1 as [R1 R2 (it & Hit & Hex) (d0 & prev & Hd0 & Hlt & Hv)]. constructor; [done|done|..].
    + exists it. split; [|done]. pose proof (sw_item_other w Hne ltac:(apply Hk)) as Hi. unfold item_of in Hi. by rewrite Hi.
    + cbn. rewrite (is_versions _ _ _ _ _ _ _ _ Hidx), (is_next _ _ _ _ _ _ _ _ Hidx).
      destruct (decide (d = d0)) as [->|Hd]; [exists d0, None|exists d0, prev]; (split; [done|split; [done|]]);
        rewrite lookup_alter; [by rewrite decide_True, Hv|by rewrite decide_False].
  - by rewrite En.
  - by rewrite sw_head_other by (done || apply Hk).
  - destruct (rerouted_tail_ g !! w); [by apply (mc_boundary _ _ _ Hcut w)|].
    destruct S5 as [-> ?]. split; [done|]. by apply (mc_chain _ _ _ Hcut w).
  - by rewrite S8, !ops_of_reverse, (of_vertex_sim _ _ _ Hs).
  - by rewrite sw_base_other by (done || apply Hk).
  - by rewrite Eg.
  - by rewrite Eg.
Qed.

Lemma sw_in_flight x x' :
  x ∈ pend -> old_page_no x' = old_page_no x -> forwarder x' = forwarder x ->
  giant_vertices x' = giant_vertices x -> new_page_nos x' = new_page_nos x ->
  (forall w, new_locations x' !! w = if decide (w = v) then None else new_locations x !! w) ->
  in_flight s' x'.
Proof.
  intros Hx Eo Ef Eg En El. destruct (sc_flight _ _ Hc x Hx) as [F1 F2 (g & Hg & F3)]. constructor.
  - intros w. rewrite El, Eo. case_decide as Hw.
    + subst w. split; [by intros []|]. intros [i Hi]. apply sw_located_v in Hi as [E _]. by destruct (sw_N_old x Hx).
    + rewrite F1. split; intros [i Hi]; exists i; by apply sw_located_other.
  - rewrite Eo, Ef. cbn. by rewrite (map_cut_acquire _ _ _ _ Hcut).
  - exists g. split; [cbn; by rewrite Ef, (mc_forwarders _ _ _ Hcut)|]. intros w pw. rewrite El. case_decide as Hw; [done|].
    intros Hpw. destruct (F3 w pw Hpw) as (Hl & M & i & ms & nw & ol & rc & hw & bw & Hs). split; [done|].
    destruct (proj1 (F1 w)) as [i' [Hk _]]; [eauto|].
    destruct (sw_switching_other x x' w pw g M i ms nw ol rc hw bw) as (rc' & Hs'); try done. eauto 10.
Qed.

Lemma sw_flight x : x ∈ pend' -> in_flight s' x.
Proof.
  intros Hx. assert (Hother : x ∈ pend -> x <> q -> in_flight s' x).
  { intros Hin Hne. apply (sw_in_flight x x); try done. intros w. case_decide as Hw; [subst w|done].
    destruct (new_locations x !! v) eqn:E; [|done]. exfalso. apply Hne.
    eapply (moving_one s pend Hc v); eauto using sw_q. }
  destruct (sc_pend _ _ Hc) as (Hnd & _ & _). unfold pend in Hnd. rewrite fmap_app in Hnd. cbn in Hnd.
  apply NoDup_app in Hnd as (_ & Hd & Hnd2). apply NoDup_cons in Hnd2 as [Hd2 _].
  unfold pend' in Hx. apply elem_of_app in Hx as [Hx|Hx]; [|apply elem_of_cons in Hx as [->|Hx]].
  - apply Hother; [unfold pend; set_solver|]. intros ->. apply (Hd (old_page_no q)); [by apply (list_elem_of_fmap_2 old_page_no)|left].
  - apply (sw_in_flight q); try done; [apply sw_q|]. intros w. cbn. rewrite lookup_delete. repeat case_decide; congruence.
  - apply Hother; [unfold pend; set_solver|]. intros ->. apply Hd2. by apply (list_elem_of_fmap_2 old_page_no).
Qed.

Lemma sw_current P : current s' P -> current s P \/ P = N.
Proof.
  intros (w & i & Hl). destruct (decide (w = v)) as [->|Hw]; [right; by apply sw_located_v in Hl as [? _]|].
  left. exists w, i. by apply sw_located_other.
Qed.

Lemma switch_core : smo_core s' pend'.
Proof.
  pose proof Hc as [C1 C2 C3 C4 C5 C6 C7 C8 C9 C10 C11 C12 C13 C14 C15 C16 C17]. constructor.
  - apply sw_db_inv.
  - unfold vertex_count; cbn. rewrite (is_items _ _ _ _ _ _ _ _ Hidx), length_insert. exact C2.
  - cbn. rewrite (is_items _ _ _ _ _ _ _ _ Hidx). apply Forall_insert; [done|]. cbn.
    by apply (Forall_lookup_1 _ _ _ _ C3 Hitem).
  - intros w b0 Hk Hg Hst. rewrite sw_known_iff in Hk. destruct (decide (w = v)) as [->|Hne].
    + destruct sw_base_v as (b' & Hb' & _ & Hw). unfold base_of in Hb'. rewrite sw_item, sw_loc_v in Hb'. cbn in Hb'.
      unfold is_giant_vertex in Hg. pose proof sw_item as Hi. unfold item_of in Hi. rewrite Hi in Hg. cbn in Hg.
      destruct (is_delete item); [done|]. unfold is_giant in Hb'. cbn in Hb'.
      destruct (csr_pages (database s) !! N); [|done]. cbn in Hb'. rewrite Hg in Hb'. cbn in Hst.
      rewrite Hst in Hb'. by injection Hb' as ->.
    + apply (C4 w b0 Hk); [|done]. unfold is_giant_vertex in *. pose proof (sw_item_other w Hne ltac:(apply Hk)) as Hi.
      unfold item_of in Hi. by rewrite Hi in Hg.
  - exact Hgc.
  - exact C6.
  - intros w P i Hl. destruct (decide (w = v)) as [->|Hne].
    + apply sw_located_v in Hl as [-> ->]. exists j, ns. split; [done|]. apply (sw_slot _ _ _ _ _ _ _ _ _ _ _ _ _ Hsw).
    + apply sw_located_other in Hl; [|done]. exact (C7 w P i Hl).
  - intros P n w ns0 HP Hold Hsl. rewrite (sw_fmap old_page_no) in Hold by done. rewrite sw_target_page in HP.
    assert (HP' : current s P \/ target_page pend P).
    { destruct HP as [HP|HP]; [|by right]. apply sw_current in HP as [HP| ->]; [by left|right; apply sw_N_target]. }
    destruct (C8 P n w ns0 HP' Hold Hsl) as [Hl|[Hk Hm]].
    + left. destruct (decide (w = v)) as [->|Hne]; [|by apply sw_located_other].
      exfalso. apply Hold. destruct (moving_old s pend Hc v q sw_q) as [i Hi]; [eauto|].
      destruct (located_fun s _ _ _ _ _ Hl Hi) as [-> _]. apply (list_elem_of_fmap_2 old_page_no), sw_q.
    + destruct (sw_moving_to w P (Z.of_nat n) Hm) as [Hm'|(-> & -> & E)].
      * right. split; [by apply sw_known_iff|done].
      * left. by apply sw_located_v.
  - intros k rs' Hr'. destruct (map_cut_back _ _ _ k rs' sw_wf Hcut Hr') as (rs & Hr & Hs).
    pose proof (C9 k rs Hr) as Hall. clear Hr Hr'. induction Hs as [|r r' rs rs' [Ho Hf] Hs IH]; [constructor|].
    apply Forall_cons in Hall as [(H1 & H2 & H3) Hall]. constructor; [|auto]. rewrite Hf. split; [by apply sw_known_iff|].
    rewrite sw_home by done. split; [done|]. unfold op_of in Ho. congruence.
  - apply sw_settled.
  - apply sw_flight.
  - intros k fid. cbn. rewrite (map_cut_acquire _ _ _ _ Hcut). intros Hk. destruct (C12 k fid Hk) as (x & Hx & E1 & E2).
    unfold pend in Hx. apply elem_of_app in Hx as [Hx|Hx]; [exists x; set_solver|].
    apply elem_of_cons in Hx as [->|Hx]; [|exists x; set_solver]. exists q'. split; [set_solver|done].
  - by rewrite !sw_fmap.
  - intros x Hx. rewrite sw_target_page. unfold pend' in Hx. apply elem_of_app in Hx as [Hx|Hx]; [apply C14; set_solver|].
    apply elem_of_cons in Hx as [->|Hx]; [|apply C14; set_solver]. apply (C14 q), sw_q.
  - destruct C15 as [B1 B2]. split; [done|]. intros P HP. destruct (B2 P HP) as (D1 & D2 & D3 & D4). split; [done|].
    rewrite sw_target_page, (sw_fmap old_page_no) by done. split; [|done]. intros Hcu. apply sw_current in Hcu as [?| ->]; [done|]. apply D3, sw_N_target.
  - destruct C16 as [Q1 Q2]. split; [done|]. intros P HP. destruct (Q2 P HP) as ((w & i & Hl) & D2 & D3).
    rewrite sw_fmap by done. split; [|split; [done|]].
    + exists w, i. apply sw_located_other; [|done]. intros ->. apply D2.
      destruct (moving_old s pend Hc v q sw_q) as [i' Hi]; [eauto|].
      destruct (located_fun s _ _ _ _ _ Hl Hi) as [-> _]. apply (list_elem_of_fmap_2 old_page_no), sw_q.
    + unfold claimed in *. cbn. by rewrite (mc_inner _ _ _ Hcut).
  - intros P. rewrite sw_target_page, (sw_fmap old_page_no) by done. apply C17.
Qed.

Lemma switch_sets : same_sets (database s) (database s').
Proof.
  intros w X Hw (b0 & h0 & rs & Hb0 & Hh0 & Hch & ->). change (known s w) in Hw. destruct (decide (w = v)) as [->|Hne].
  - destruct sw_base_v as (b' & Hb' & Hset & _). exists b', nh, new'. split; [done|]. split; [apply sw_head_v|].
    split; [exact Hnew|]. pose proof (sw_chain_at _ _ _ _ _ _ _ _ _ _ _ _ _ Hsw) as Hch'.
    rewrite (sw_head _ _ _ _ _ _ _ _ _ _ _ _ _ Hsw) in Hh0. injection Hh0 as <-.
    rewrite (chain_at_det _ _ _ _ Hch Hch'), ops_set_app, Hset.
    rewrite (sw_base _ _ _ _ _ _ _ _ _ _ _ _ _ Hsw) in Hb0. injection Hb0 as <-.
    rewrite <- (sw_merged _ _ _ _ _ _ _ _ _ _ _ _ _ Hsw). symmetry. apply ops_set_ops. by rewrite (ops_sim _ _ Hsim).
  - exists b0, h0, rs. rewrite sw_base_other, sw_head_other by (done || apply Hw). split; [done|]. split; [done|].
    split; [|done]. destruct (i_vertex _ (sc_db _ _ Hc) w Hw) as (b1 & h1 & rs1 & _ & Hh1 & _ & Hch1 & Hf1).
    rewrite Hh0 in Hh1. injection Hh1 as <-. rewrite (chain_at_det _ _ _ _ Hch Hch1) in *.
    by apply (mc_chain _ _ _ Hcut w).
Qed.

End Switch.

End Publish.
End Publish.
