(* ===== verification/SmoSwitch.v ===== *)
(** * Publishing a consolidation

    The switch of every vertex of a pending consolidation, then the removal of
    the forwarding table and the batch of replaced versions.  The neighbour
    sets stay the same throughout, and the old page belongs to no vertex when
    its batch is recorded. *)

From S2P Require Import Prelude Config DeltaPage VertexIndex PageMap CsrPage Db EdgeOps Chains.
From S2P Require Import Reorder Builder Smo SmoMerge SmoBuild SmoInv SmoEdges SmoPublish.

Local Open Scope Z_scope.

Module Switch.
Import Delta VIndex PMap Csr DB EdgeOps Chains Smo Merge Build Inv Publish.

Section Switch.
Context {A G SK : Type} `{cfg : Config} `{!PageAllocator A (Z.of_nat DELTA_PAGE_SIZE)}
  `{!PageAllocator A (Z.of_nat PAGE_SIZE)} `{!GiantStore G} `{!UpdateSketch SK} `{!SetOrder} `{!MapOrder}.

Abbreviation db := (bw_graph_db_t (A := A) (G := G) (SK := SK)).
Abbreviation smo_st := (smo_t (A := A) (G := G) (SK := SK)).
Abbreviation index s := (vertex_index (database s)).
Abbreviation pmap s := (page_map_table (database s)).

Hypothesis Hcompress : NEIGHBOR_COMPRESS = false.

(** What a switch leaves alone. *)
Definition only_switched (s s' : smo_st) : Prop :=
  exists m' vi', s' = upd_db (fun d => set_vertex_index (set_page_map d m') vi') s /\
    inner m' = inner (pmap s) /\ allocator m' = allocator (pmap s) /\ forwarders m' = forwarders (pmap s).

Lemma only_switched_refl s : only_switched s s.
Proof. exists (pmap s), (index s). split; [by destruct s as [[]]|done]. Qed.

Lemma only_switched_trans s1 s2 s3 : only_switched s1 s2 -> only_switched s2 s3 -> only_switched s1 s3.
Proof.
  intros (m2 & v2 & -> & E1 & E2 & E3) (m3 & v3 & -> & F1 & F2 & F3). exists m3, v3. split; [done|].
  cbn in F1, F2, F3. by rewrite F1, F2, F3.
Qed.

Lemma same_sets_refl (d : db) : same_sets d d.
Proof. by intros v X _ HX. Qed.

Lemma same_sets_trans (d1 d2 d3 : db) : vertex_count d2 = vertex_count d1 ->
  same_sets d1 d2 -> same_sets d2 d3 -> same_sets d1 d3.
Proof. intros Hc H1 H2 v X Hv HX. apply H2; [by rewrite Hc|auto]. Qed.

Lemma all_prepared_middle l1 q l2 v pv : new_locations q !! v = Some pv ->
  all_prepared (l1 ++ q :: l2) ≡ₚ (Z.to_nat v, pv) :: all_prepared (l1 ++ without q v :: l2).
Proof.
  intros Hv. unfold all_prepared. rewrite !fmap_app, !join_app. cbn.
  rewrite <- (insert_delete_id _ _ _ Hv) at 1.
  rewrite prepared_of_insert by apply lookup_delete_eq. cbn. symmetry. apply Permutation_middle.
Qed.

(** One vertex. *)
Lemma finalize_vertex_spec (s : smo_st) l1 l2 q v pv :
  smo_core s (l1 ++ q :: l2) -> new_locations q !! v = Some pv ->
  exists old s', finalize_vertex (forwarder q) (giant_vertices q) v pv s = (Ok old, s') /\
    smo_core s' (l1 ++ without q v :: l2) /\ same_sets (database s) (database s') /\
    only_switched s s' /\ vertex_count (database s') = vertex_count (database s) /\
    (forall P, current s' P -> current s P \/ P ∈ new_page_nos q) /\ switches [v] [old] s s'.
Proof.
  intros Hc Hpv. assert (Hq : q ∈ l1 ++ q :: l2) by set_solver.
  destruct (sc_flight _ _ Hc q Hq) as [_ _ (f & Hf & H3)].
  destruct (H3 v pv Hpv) as (_ & N & j & ns & new & old & recs & h & b & Hsw).
  pose proof (i_pm _ (sc_db _ _ Hc)) as Hwf.
  destruct (proj1 (fl_located _ _ (sc_flight _ _ Hc q Hq) v) ltac:(eauto)) as [i0 [Hkn _]].
  destruct (lr_expected _ _ _ _ _ (sw_ready _ _ _ _ _ _ _ _ _ _ _ _ _ Hsw)) as (item & Hitem & Hexp).
  destruct (lr_desired _ _ _ _ _ (sw_ready _ _ _ _ _ _ _ _ _ _ _ _ _ Hsw)) as (d & prev & Hdes & _ & _).
  pose proof (sc_gc _ _ Hc) as Hgc. pose proof (gc_inv_perm _ _ _ _ (all_prepared_middle l1 q l2 v pv Hpv) Hgc) as Hgc'.
  destruct (Forall_lookup_1 _ _ _ _ (inv_some _ Hgc) Hitem) as [e He].
  set (t := if bool_decide (v ∈ giant_vertices q) then GIANT else NORMAL).
  assert (Hcut : exists m' nh new', map_cut (pmap s) m' v /\ wf_loc nh /\ chain_at (pages m') nh new' /\
    Forall2 rec_sim new new' /\
    (match rerouted_tail_ f !! v with
     | Some b => _ ← modify (upd_map (fun m => truncate_chain_at m b)); from_opt (delta_heads_ (index s) !! Z.to_nat v)
     | None => mret dh_invalid end) s = (Ok nh, upd_map (fun _ => m') s)).
  { pose proof (sw_chain _ _ _ _ _ _ _ _ _ _ _ _ _ Hsw) as Hch.
    pose proof (sw_own _ _ _ _ _ _ _ _ _ _ _ _ _ Hsw) as Hown. apply Forall_app in Hown as [Hown _].
    destruct (rerouted_tail_ f !! v) as [tail|].
    - destruct (map_cut_truncate (pmap s) v h new tail old Hwf Hch Hown) as (Hm & new' & Hn & Hs).
      exists (truncate_chain_at (pmap s) tail), h, new'. split; [done|].
      pose proof (sw_head _ _ _ _ _ _ _ _ _ _ _ _ _ Hsw) as Hh. split.
      { destruct (i_vertex _ (sc_db _ _ Hc) v Hkn) as (b1 & h1 & rs1 & _ & Hh1 & Hw & _). congruence. }
      split; [done|]. split; [done|]. rewrite stm_modify. unfold head_of in Hh. by rewrite Hh.
    - destruct Hch as [-> _]. exists (pmap s), dh_invalid, []. split; [by apply map_cut_refl|].
      split; [done|]. split; [by constructor|]. split; [constructor|]. by destruct s as [[]]. }
  destruct Hcut as (m' & nh & new' & Hcut & Hnh & Hnew & Hsim & Erun).
  destruct (publish_index (index s) v item pv _ t nh e d Hgc' Hitem ltac:(congruence) He Hdes)
    as (pv' & vi' & Epub & Hidx & Hgc2).
  set (s' := upd_db (fun d0 => set_vertex_index (set_page_map d0 m') vi') s).
  exists e, s'. split; [|split; [|split; [|split; [|split; [|split]]]]].
  - unfold finalize_vertex. rewrite get_db_bind. rewrite Hf. cbn [option_bind mbind].
    rewrite (stm_bind_Ok _ _ _ _ _ Erun). fold t. rewrite Epub. rewrite stm_modify. rewrite Hexp, He. done.
  - by apply (switch_core Hcompress s l1 l2 q v pv f N j ns new old recs h b m' nh new' vi' item e d).
  - by apply (switch_sets Hcompress s l1 l2 q v pv f N j ns new old recs h b m' nh new' vi' item e d).
  - exists m', vi'. split; [done|]. split; [apply Hcut|]. split; apply Hcut.
  - unfold vertex_count; cbn. by rewrite (is_items _ _ _ _ _ _ _ _ Hidx), length_insert.
  - intros P HP. destruct (sw_current Hcompress s l1 l2 q v pv f N j ns new old recs h b m' nh new' vi' item e d
      Hc Hpv Hsw Hcut Hnh Hnew Hsim Hitem Hidx Hgc2 Hdes P HP)
      as [?| ->]; [by left|right]. apply (sw_target _ _ _ _ _ _ _ _ _ _ _ _ _ Hsw).
  - constructor; [apply Hidx|apply Hidx|]. intros w h' rs Hw. rewrite list_elem_of_singleton in Hw. by apply (mc_chain _ _ _ Hcut).
Qed.

(** All vertices. *)
Definition emptied (q : pending_version_switch_t) : pending_version_switch_t :=
  Pending ∅ (forwarder q) (giant_vertices q) (old_page_no q) (need_split q) (new_page_nos q).

Lemma finalize_spec locs : forall (s : smo_st) l1 l2 q,
  smo_core s (l1 ++ q :: l2) -> locs ≡ₚ map_to_list (new_locations q) ->
  exists l s', finalize_consolidation (forwarder q) (giant_vertices q) locs s = (Ok (list_to_set l), s') /\ length l = length locs /\
    smo_core s' (l1 ++ emptied q :: l2) /\ same_sets (database s) (database s') /\
    only_switched s s' /\ vertex_count (database s') = vertex_count (database s) /\
    (forall P, current s' P -> current s P \/ P ∈ new_page_nos q) /\ switches locs.*1 l s s'.
Proof.
  induction locs as [|[v pv] locs IH]; intros s l1 l2 q Hc Hp.
  - assert (E : q = emptied q).
    { destruct q as [m]. unfold emptied; cbn in *. f_equal. apply Permutation_nil in Hp. by apply map_to_list_empty_iff. }
    exists [], s. rewrite <- E. split; [done|]. split; [done|]. split; [done|]. split; [apply same_sets_refl|]. split; [apply only_switched_refl|].
    split; [done|]. split; [auto|apply switches_nil].
  - assert (Hpv : new_locations q !! v = Some pv) by (apply elem_of_map_to_list; rewrite <- Hp; left).
    destruct (finalize_vertex_spec s l1 l2 q v pv Hc Hpv) as (old & s1 & E1 & Hc1 & Hs1 & Ho1 & Hn1 & Hcu1 & Hw1).
    destruct (IH s1 l1 l2 (without q v) Hc1) as (l & s2 & E2 & Hl & Hc2 & Hs2 & Ho2 & Hn2 & Hcu2 & Hw2).
    { cbn. apply (Permutation_cons_inv (a := (v, pv))). rewrite Hp. symmetry.
      rewrite <- (insert_delete_id _ _ _ Hpv) at 2. by rewrite map_to_list_insert by apply lookup_delete_eq. }
    exists (old :: l), s2. cbn [finalize_consolidation].
    cbn [without forwarder giant_vertices] in E2.
    split; [rewrite (stm_bind_Ok _ _ _ _ _ E1), (stm_bind_Ok _ _ _ _ _ E2); reflexivity|]. split; [cbn; by rewrite Hl|].
    split; [done|]. split; [by eapply same_sets_trans|]. split; [by eapply only_switched_trans|]. split; [congruence|]. split.
    + intros P HP. destruct (Hcu2 P HP) as [HP'|?]; [|by right]. by apply Hcu1.
    + exact (switches_app [v] locs.*1 [old] l s s1 s2 Hw1 Hw2).
Qed.

(** ** The table goes, the batch comes *)

Lemma detach_inner (m : page_map_t (A := A)) P k :
  inner (detach_forwarder_for m P).2 !! k =
  if decide (k = P) then (fun e => set_forwarder e None) <$> inner m !! k else inner m !! k.
Proof.
  unfold detach_forwarder_for. destruct (inner m !! P) as [e|] eqn:E.
  - cbn. rewrite lookup_insert. repeat case_decide; subst; by rewrite ?E.
  - cbn. case_decide; [subst; by rewrite E|done].
Qed.

Lemma detach_acquire (m : page_map_t (A := A)) P k :
  acquire_forwarder_for (detach_forwarder_for m P).2 k = if decide (k = P) then None else acquire_forwarder_for m k.
Proof. unfold acquire_forwarder_for. rewrite detach_inner. case_decide; [|done]. by destruct (inner m !! k). Qed.

Lemma detach_same (m : page_map_t (A := A)) P :
  pages (detach_forwarder_for m P).2 = pages m /\ allocator (detach_forwarder_for m P).2 = allocator m /\
  forwarders (detach_forwarder_for m P).2 = forwarders m.
Proof. unfold detach_forwarder_for. by destruct (inner m !! P). Qed.

Lemma detach_entry (m : page_map_t (A := A)) P k e : inner (detach_forwarder_for m P).2 !! k = Some e ->
  exists e0, inner m !! k = Some e0 /\ delta_page e = delta_page e0 /\ delta_page_count e = delta_page_count e0.
Proof.
  rewrite detach_inner. case_decide; [|eauto]. destruct (inner m !! k) as [e0|]; [|done]. intros [= <-]. by exists e0.
Qed.

Lemma detach_wf (m : page_map_t (A := A)) P : pm_wf m -> pm_wf (detach_forwarder_for m P).2.
Proof.
  intros [W1 W2 W3 W4 W5]. destruct (detach_same m P) as (E1 & E2 & _). constructor; rewrite ?E1, ?E2; try done.
  - intros k e Hk. destruct (detach_entry m P k e Hk) as (e0 & He0 & -> & ->). eauto.
  - intros k1 k2 e1 e2 lst1 lst2 Hne H1 H2. destruct (detach_entry m P k1 e1 H1) as (? & ? & -> & _).
    destruct (detach_entry m P k2 e2 H2) as (? & ? & -> & _). eauto.
Qed.

Lemma detach_recs (m : page_map_t (A := A)) P k rs :
  entry_recs (detach_forwarder_for m P).2 k rs <-> entry_recs m k rs.
Proof.
  unfold entry_recs. rewrite detach_inner. destruct (detach_same m P) as (-> & _ & _).
  case_decide; [|done]. by destruct (inner m !! k).
Qed.

Lemma detach_claimed (m : page_map_t (A := A)) P k : claimed (detach_forwarder_for m P).2 k = claimed m k.
Proof. unfold claimed. rewrite detach_inner. case_decide; [|done]. by destruct (inner m !! k). Qed.

Section Retire.
Variables (s : smo_st) (l1 l2 : list pending_version_switch_t) (q : pending_version_switch_t) (olds : gset Z).
Let pend := l1 ++ q :: l2.
Let P := old_page_no q.
Let m' := drop_forwarder (forwarder q) (detach_forwarder_for (pmap s) P).2.

Hypothesis Hc : smo_core s pend.
Hypothesis Hempty : new_locations q = ∅.

Let s' : smo_st := upd_map (fun _ => m') (set_batches (reclaim_batches s ++ [(olds, P)]) s).

Lemma rt_in : q ∈ pend.
Proof. unfold pend. set_solver. Qed.

Lemma rt_split x : x ∈ pend <-> x = q \/ x ∈ l1 ++ l2.
Proof. unfold pend. set_solver. Qed.

Lemma rt_not_current : ~ current s P.
Proof.
  intros (v & i & Hl). destruct (proj2 (fl_located _ _ (sc_flight _ _ Hc q rt_in) v)) as [pv Hpv]; [eauto|].
  by rewrite Hempty in Hpv.
Qed.

Lemma rt_old x : x ∈ l1 ++ l2 -> old_page_no x <> P /\ forwarder x <> forwarder q.
Proof.
  intros Hx. destruct (sc_pend _ _ Hc) as (H1 & H2 & _). unfold pend in *.
  rewrite fmap_app, fmap_cons in H1, H2. rewrite <- Permutation_middle in H1, H2. rewrite <- fmap_app in H1, H2.
  apply NoDup_cons in H1 as [H1 _], H2 as [H2 _]. split; intros E.
  - apply H1. fold P. rewrite <- E. by apply (list_elem_of_fmap_2 old_page_no).
  - apply H2. rewrite <- E. by apply (list_elem_of_fmap_2 forwarder).
Qed.

Lemma rt_acquire k : acquire_forwarder_for m' k = if decide (k = P) then None else acquire_forwarder_for (pmap s) k.
Proof. apply detach_acquire. Qed.

Lemma rt_target k v : k <> P -> forward_target m' k v = forward_target (pmap s) k v.
Proof.
  intros Hk. unfold forward_target, forward_hit. rewrite rt_acquire, decide_False by done.
  destruct (acquire_forwarder_for (pmap s) k) as [fid|] eqn:E; [|done]. cbn.
  destruct (detach_same (pmap s) P) as (_ & _ & ->). rewrite lookup_delete_ne; [done|].
  destruct (sc_forwarders _ _ Hc _ _ E) as (x & Hx & HP & <-). apply rt_split in Hx as [->|Hx]; [done|].
  apply not_eq_sym, (rt_old x Hx).
Qed.

Lemma rt_home v : known s v -> home (database s') v = home (database s) v.
Proof.
  intros Hv. destruct (core_located s pend Hc v Hv) as (Q & i & Hl). unfold home.
  change (location_of (database s') v) with (location_of (database s) v). rewrite (proj2 Hl). cbn.
  rewrite rt_target; [done|]. intros ->. apply rt_not_current. by exists v, i.
Qed.

Lemma rt_moving v : moving (l1 ++ l2) v <-> moving pend v.
Proof.
  unfold moving. split; intros (x & Hx & Hs).
  - exists x. split; [|done]. apply rt_split. by right.
  - apply rt_split in Hx as [->|Hx]; [|by exists x]. rewrite Hempty in Hs. by destruct Hs.
Qed.

Lemma rt_target_page Q : target_page (l1 ++ l2) Q -> target_page pend Q.
Proof. intros (x & Hx & HQ). exists x. split; [|done]. apply rt_split. by right. Qed.

Lemma rt_pages : pages (pmap s') = pages (pmap s).
Proof. unfold s', m'. cbn. apply detach_same. Qed.

Lemma rt_db_inv : db_inv (database s').
Proof.
  apply (quiet_step (database s)); [done|done|by rewrite rt_pages| |apply Hc|apply Hc].
  unfold s', m'. cbn. apply set_forwarders_wf, detach_wf, Hc.
Qed.

Lemma rt_sets : same_sets (database s) (database s').
Proof.
  intros v X _. apply (quiet_step (database s)); [done|done|by rewrite rt_pages| |apply Hc|apply Hc].
  unfold s', m'. cbn. apply set_forwarders_wf, detach_wf, Hc.
Qed.

Lemma rt_recs k rs : entry_recs m' k rs <-> entry_recs (pmap s) k rs.
Proof. apply detach_recs. Qed.

Lemma rt_flight x : x ∈ l1 ++ l2 -> in_flight s' x.
Proof.
  intros Hx. destruct (rt_old x Hx) as [Ho Hf]. apply (in_flight_mono s); auto; try done.
  - by rewrite rt_pages.
  - change (pmap s') with m'. by rewrite rt_acquire, decide_False.
  - cbn. rewrite lookup_delete_ne by done. by destruct (detach_same (pmap s) P) as (_ & _ & ->).
  - intros N recs _. apply rt_recs.
  - apply (sc_flight _ _ Hc). apply rt_split. by right.
Qed.

Lemma rt_sub {B} (g : pending_version_switch_t -> B) : g <$> pend ≡ₚ g q :: (g <$> l1 ++ l2).
Proof. unfold pend. rewrite !fmap_app, fmap_cons. symmetry. apply Permutation_middle. Qed.

Lemma retire_core : smo_core s' (l1 ++ l2).
Proof.
  pose proof Hc as [C1 C2 C3 C4 C5 C6 C7 C8 C9 C10 C11 C12 C13 C14 C15 C16 C17]. constructor; try done.
  - apply rt_db_inv.
  - eapply gc_inv_perm; [|exact C5]. unfold all_prepared. unfold pend. rewrite !fmap_app, !join_app, fmap_cons. cbn.
    by rewrite Hempty.
  - intros Q n v ns HQ Hold Hsl. assert (HQ' : current s Q \/ target_page pend Q) by (destruct HQ; [by left|right; by apply rt_target_page]).
    assert (HP : Q <> P).
    { intros ->. destruct HQ as [HQ|HQ]; [by apply rt_not_current|]. apply (C14 q rt_in). by apply rt_target_page. }
    destruct (C8 Q n v ns HQ') as [Hl|[Hk (x & pv & Hx & Hpv & Hr)]]; [|done|by left|].
    + rewrite rt_sub. by apply not_elem_of_cons.
    + right. split; [done|]. apply rt_split in Hx as [->|Hx]; [by rewrite Hempty in Hpv|]. by exists x, pv.
  - intros k recs Hr. apply rt_recs in Hr. eapply Forall_impl; [by apply (C9 k)|]. cbn. intros r (Hk & Hh & ?).
    by rewrite rt_home.
  - intros v Hv Hm. rewrite rt_moving in Hm. destruct (C10 v Hv Hm) as (Q & i & rs & recs & Hl & (h & Hh & Hch) & Hr & Ho).
    exists Q, i, rs, recs. split; [done|]. split; [exists h; split; [done|]; by rewrite rt_pages|].
    split; [by apply rt_recs|done].
  - apply rt_flight.
  - intros k fid. change (pmap s') with m'. rewrite rt_acquire. case_decide; [done|]. intros Hk. destruct (C12 k fid Hk) as (x & Hx & E1 & E2).
    apply rt_split in Hx as [->|Hx]; [done|]. by exists x.
  - destruct C13 as (D1 & D2 & D3). rewrite (rt_sub old_page_no) in D1. rewrite (rt_sub forwarder) in D2.
    rewrite (rt_sub new_page_nos) in D3. apply NoDup_cons in D1 as [_ D1], D2 as [_ D2]. split; [done|]. split; [done|].
    by apply NoDup_app in D3 as (_ & _ & D3).
  - intros x Hx Ht. apply (C14 x); [apply rt_split; by right|]. by apply rt_target_page.
  - destruct C15 as [B1 B2]. cbn. rewrite fmap_app. split.
    + apply NoDup_app. split; [done|]. split; [|apply NoDup_singleton]. cbn. intros Q HQ. rewrite list_elem_of_singleton.
      intros ->.
      destruct (B2 P HQ) as (_ & _ & _ & Hb). apply Hb. by apply (list_elem_of_fmap_2 old_page_no), rt_in.
    + intros Q. cbn. rewrite elem_of_app, list_elem_of_singleton. intros [HQ|HQ].
      * destruct (B2 Q HQ) as (? & ? & Ht & Ho). rewrite (rt_sub old_page_no) in Ho. apply not_elem_of_cons in Ho as [_ Ho].
        split; [done|]. split; [done|]. split; [|done]. intros Ht'. by apply Ht, rt_target_page.
      * rewrite HQ. split; [apply C17; right; by apply (list_elem_of_fmap_2 old_page_no), rt_in|].
        split; [apply rt_not_current|]. split; [intros Ht; apply (C14 q rt_in); by apply rt_target_page|].
        rewrite list_elem_of_fmap. intros (x & E & Hx). by destruct (rt_old x Hx).
  - destruct C16 as [Q1 Q2]. split; [done|]. intros Q HQ. destruct (Q2 Q HQ) as (? & Ho & Hcl). split; [done|].
    split; [rewrite rt_sub in Ho; by apply not_elem_of_cons in Ho as [_ ?]|]. rewrite <- Hcl. unfold claimed. cbn.
    apply detach_claimed.
  - intros Q [HQ|HQ]; apply C17; [left; by apply rt_target_page|right]. rewrite (rt_sub old_page_no).
    apply elem_of_cons. by right.
Qed.

End Retire.

(** ** A pending switch *)

Lemma publish_spec salt (s : smo_st) l1 l2 q :
  smo_inv s (l1 ++ q :: l2) ->
  exists s' olds, publish_version_switch salt q s = (Ok tt, s') /\ smo_inv s' (l1 ++ l2) /\
    same_sets (database s) (database s') /\ vertex_count (database s') = vertex_count (database s) /\
    reclaim_batches s' = reclaim_batches s ++ [(olds, old_page_no q)] /\
    (exists d', s' = set_batches (reclaim_batches s') (upd_db (fun _ => d') s) /\ smo_queue d' = smo_queue (database s)) /\
    csr_disk (database s') = csr_disk (database s) /\ allocator (pmap s') = allocator (pmap s) /\
    ~ current s' (old_page_no q) /\
    exists vs l, switches vs l s s' /\ olds = list_to_set l /\ (forall v, v ∈ vs -> is_Some (new_locations q !! v)) /\
      (new_locations q <> ∅ -> l <> []).
Proof.
  intros [Hc Htg]. assert (Hq : q ∈ l1 ++ q :: l2) by set_solver.
  destruct (finalize_spec (map_order salt (new_locations q)) s l1 l2 q Hc (map_order_list _ _ _))
    as (l & s1 & E1 & Hl & Hc1 & Hs1 & (m1 & vi1 & -> & Hin & Hal & Hfo) & Hn1 & Hcu1 & Hw).
  set (s1 := upd_db _ s) in *. set (olds := list_to_set l : gset Z) in *.
  pose proof (retire_core s1 l1 l2 (emptied q) olds Hc1 eq_refl) as Hc2.
  pose proof (rt_sets s1 l1 l2 (emptied q) olds Hc1) as Hs2.
  pose proof (rt_not_current s1 l1 l2 (emptied q) Hc1 eq_refl) as Hnc.
  cbn [old_page_no emptied forwarder] in *. eexists _, olds. split.
  { unfold publish_version_switch. rewrite (stm_bind_Ok _ _ _ _ _ E1), !stm_modify. reflexivity. }
  split; [|split; [|split; [|split; [|split; [|split; [|split; [|split]]]]]]].
  - split; [exact Hc2|]. intros P HP Hcu. destruct (Hcu1 P Hcu) as [HPc|HPn].
    + apply (Htg P); [|done]. destruct HP as (x & Hx & HP). exists x. set_solver.
    + destruct (sc_pend _ _ Hc) as (_ & _ & D3). rewrite (rt_sub l1 l2 q new_page_nos) in D3.
      cbn in D3. apply NoDup_app in D3 as (_ & D3 & _). apply (D3 P HPn). destruct HP as (x & Hx & HP).
      apply list_elem_of_join. exists (new_page_nos x). split; [done|]. by apply list_elem_of_fmap_2.
  - eapply same_sets_trans; [|exact Hs1|exact Hs2]. done.
  - exact Hn1.
  - done.
  - eexists. cbn. split; reflexivity.
  - done.
  - cbn. destruct (detach_same m1 (old_page_no q)) as (_ & -> & _). done.
  - exact Hnc.
  - exists (map_order salt (new_locations q)).*1, l. split; [|split; [done|split]].
    + destruct Hw as [W1 W2 W3]. constructor; [exact W1|exact W2|]. intros w h rs. cbn.
      destruct (detach_same m1 (old_page_no q)) as (-> & _). apply W3.
    + intros v ([w pv] & -> & Hv)%list_elem_of_fmap. rewrite map_order_list in Hv. apply elem_of_map_to_list in Hv. by exists pv.
    + intros Hne ->. apply Hne. apply map_to_list_empty_iff, Permutation_nil. rewrite <- (map_order_list _ salt). by destruct (map_order salt (new_locations q)).
Qed.

Lemma batch_tracked (s s' : smo_st) vs l P : switches vs l s s' -> l <> [] -> reclaim_batches s' = reclaim_batches s ++ [(list_to_set l, P)] ->
  tracked s -> tracked s'.
Proof.
  intros [E1 E2 _] Hl Eb Ht. unfold tracked in *. rewrite Eb, E1, E2, Forall_app, Forall_singleton. split.
  - eapply Forall_impl; [exact Ht|]. intros b [Hb Hid]. split; [done|]. intros id H'%Hid. set_solver.
  - cbn. split; [destruct l; [done|set_solver]|]. intros id. rewrite elem_of_list_to_set. set_solver.
Qed.

(** The pending switches, oldest first. *)
Lemma publish_all_spec salt qs : forall (s : smo_st) rest,
  smo_inv s (qs ++ rest) ->
  exists s', publish_all salt qs s = (Ok tt, s') /\ smo_inv s' rest /\ same_sets (database s) (database s') /\
    vertex_count (database s') = vertex_count (database s) /\
    (reclaim_batches s').*2 = (reclaim_batches s).*2 ++ (old_page_no <$> qs) /\
    (exists d' b', s' = set_batches b' (upd_db (fun _ => d') s) /\ smo_queue d' = smo_queue (database s)) /\
    (csr_disk (database s') = csr_disk (database s) /\ allocator (pmap s') = allocator (pmap s)) /\
    (tracked s -> Forall (fun q => new_locations q <> ∅) qs -> tracked s') /\
    (forall w h rs, (forall q, q ∈ qs -> new_locations q !! w = None) -> Forall (fun r => first r = w) rs ->
       chain_at (pages (pmap s)) h rs -> chain_at (pages (pmap s')) h rs).
Proof.
  induction qs as [|q qs IH]; intros s rest Hi.
  - exists s. cbn. rewrite app_nil_r. do 2 (split; [done|]). split; [apply same_sets_refl|]. do 2 (split; [done|]). split; [|done].
    exists (database s), (reclaim_batches s). split; [by destruct s|done].
  - destruct (publish_spec salt s [] (qs ++ rest) q Hi) as
      (s1 & olds & E1 & Hi1 & Hs1 & Hn1 & Hb1 & (d1 & Hd1 & Hq1) & Hk1 & Ha1 & _ & vs & l & Hw1 & -> & Hvs & Hl).
    destruct (IH s1 rest Hi1) as (s2 & E2 & Hi2 & Hs2 & Hn2 & Hb2 & (d2 & b2 & -> & Hq2) & [Hk2 Ha2] & Ht2 & Hch2).
    eexists. split; [cbn [publish_all]; rewrite (stm_bind_Ok _ _ _ _ _ E1); exact E2|].
    split; [done|]. split; [by eapply same_sets_trans|]. split; [congruence|]. split.
    { rewrite Hb2, Hb1, fmap_app. cbn. by rewrite <- app_assoc. }
    split; [exists d2, b2; rewrite Hq2, Hd1; split; [by destruct s|exact Hq1]|]. split; [by rewrite Hk2, Ha2, Hk1, Ha1|].
    split; [|intros w h rs Hw Hf Hch; apply (Hch2 w); [intros x Hx; apply Hw; by right|done|]; apply (ss_chain _ _ _ _ Hw1 w); [|done|done];
      intros Hin; apply Hvs in Hin as [? Hin]; rewrite Hw in Hin; [done|left]].
    intros Ht Hne. apply Forall_cons in Hne as [Hne1 Hne]. apply Ht2; [|done]. by apply (batch_tracked s s1 vs l (old_page_no q) Hw1 (Hl Hne1) Hb1).
Qed.

End Switch.
End Switch.
