(* ===== verification/SmoConsolidate.v ===== *)
(** * Preparing a consolidation

    The deltas of a page are detached and merged, the result is written to new
    pages, and a forwarding table is put on the old page: every vertex of the
    page is now switching, no neighbour set has changed. *)

From S2P Require Import Prelude Config DeltaPage VertexIndex PageMap CsrPage Db EdgeOps Chains.
From S2P Require Import Reorder Builder Smo SmoMerge SmoBuild SmoInv SmoEdges SmoPublish SmoSwitch.

Local Open Scope Z_scope.

Module Consolidate.
Import Delta VIndex PMap Csr DB EdgeOps Chains Smo Merge Build Inv Publish Switch.

Section Consolidate.
Context {A G SK : Type} `{cfg : Config} `{!PageAllocator A (Z.of_nat DELTA_PAGE_SIZE)}
  `{!PageAllocator A (Z.of_nat PAGE_SIZE)} `{!GiantStore G} `{!UpdateSketch SK} `{!SetOrder} `{!MapOrder}.

Abbreviation db := (bw_graph_db_t (A := A) (G := G) (SK := SK)).
Abbreviation smo_st := (smo_t (A := A) (G := G) (SK := SK)).
Abbreviation index s := (vertex_index (database s)).
Abbreviation pmap s := (page_map_table (database s)).
Abbreviation graph_t := (gmap Z (list Z)).
Abbreviation locations_t := (gmap Z prepared_vertex_version_t).

(** ** The page map: the records of [P] detached, a table installed *)

Record map_moved (m m' : page_map_t (A := A)) (P fid : Z) (locs : locations_t) : Prop := {
  mm_wf : pm_wf m';
  mm_ext : pages_ext (pages m) (pages m');
  mm_allocator : allocator m' = allocator m;
  mm_fresh : fid ∉ dom (forwarders m);
  mm_forwarders : forwarders m' = <[fid := PageDelta (pv_first <$> locs) ∅]> (forwarders m);
  mm_acquire : forall k, acquire_forwarder_for m' k = if decide (k = P) then Some fid else acquire_forwarder_for m k;
  mm_claimed : forall k, claimed m' k = claimed m k;
  mm_emptied : entry_recs m' P [];
  mm_other : forall k rs, k <> P -> entry_recs m k rs -> entry_recs m' k rs
}.

Lemma elem_ops_set (B : gset Z) rs x : x ∈ ops_set B rs -> x ∈ B \/ exists r, r ∈ rs /\ second r = x.
Proof.
  induction rs as [|r rs IH]; [by left|]. cbn [ops_set].
  assert (Hr : x ∈ ops_set B rs -> x ∈ B \/ exists r0, r0 ∈ r :: rs /\ second r0 = x).
  { intros Hx. destruct (IH Hx) as [?|(r0 & ? & ?)]; [by left|right; exists r0; set_solver]. }
  destruct (target r); [done|]. destruct (type r).
  - rewrite elem_of_union, elem_of_singleton. intros [->|Hx]; [|auto]. right. exists r. split; [left|done].
  - rewrite elem_of_difference. intros [Hx _]. auto.
Qed.

Lemma same_page_vertex p adj adj' n v ns :
  shows p adj -> shows p adj' -> adj' !! n = Some (v, ns) -> exists ns', adj !! n = Some (v, ns').
Proof.
  intros (_ & Hl & Hs) (_ & Hl' & Hs') Hn. rewrite Hl in Hl'. apply Nat2Z.inj in Hl'.
  destruct (lookup_lt_is_Some_2 adj n) as [[w ms] Hw]; [rewrite Hl'; by eapply lookup_lt_Some|].
  destruct (Hs _ _ Hw) as ((x & Hx & E & _) & _), (Hs' _ _ Hn) as ((x' & Hx' & E' & _) & _).
  cbn in *. exists ms. rewrite Hw. congruence.
Qed.

(** ** The state after the preparation *)

Section Moved.
Variables (s : smo_st) (pend : list pending_version_switch_t) (P : Z) (deltas : list delta_record_t).
Variables (merged : graph_t) (gs' : G) (giants : gset Z) (m1 m' : page_map_t (A := A)) (locs : locations_t).
Variables (groups : list (Z * list (Z * list Z))) (fid : Z) (need_split : bool).
Variables (pg : gmap Z csr_page_t) (dk : A) (vi' : vertex_index_t).
Let s1 : smo_st := upd_db (fun d => set_giants (set_page_map d m1) gs') s.
Let s2 : smo_st := with_pages s1 pg dk vi'.
Let s' : smo_st := upd_map (fun _ => m') s2.
Let q := Pending locs fid giants P need_split groups.*1.

Hypothesis Hc : smo_core s pend.
Hypothesis Hcur : current s P.
Hypothesis Hold : P ∉ old_page_no <$> pend.
Hypothesis Htgt : ~ target_page pend P.
Hypothesis Hqueue : P ∉ (smo_queue (database s)).*1.
Hypothesis Hrecs : entry_recs (pmap s) P deltas.
Hypothesis Hdom : forall v, is_Some (merged !! v) <-> exists i, located s v P i.
Hypothesis Hmerged : forall v ns b, merged !! v = Some ns -> base_of (database s) v = Some b ->
  (list_to_set ns : gset Z) = ops_set (list_to_set b) (reverse (of_vertex v deltas)).
Hypothesis Hwidth : forall v ns, merged !! v = Some ns -> Forall (in_width 32) ns.
Hypothesis Hgiants : forall v, v ∈ giants <->
  exists ns, merged !! v = Some ns /\ (is_giant_vertex (index s) (Z.to_nat v) || is_giant_list ns) = true.
Hypothesis Hst1 : forall v, 0 <= v -> v ∉ giants -> g_stored gs' v = g_stored (giant_db (database s)) v.
Hypothesis Hst2 : forall v, v ∈ giants -> exists ns b', merged !! v = Some ns /\ g_stored gs' v = Some b' /\ b' ≡ₚ ns.
Hypothesis Hbg : building s1 s2 locs groups (all_prepared pend).
Hypothesis Hgroups : mjoin groups.*2 ≡ₚ map_to_list merged.
Hypothesis Hm : map_moved (pmap s) m' P fid locs.

Lemma mv_items : items vi' = items (index s).
Proof. exact (gr_items _ _ (bg_index _ _ _ _ _ Hbg)). Qed.

Lemma mv_heads : delta_heads_ vi' = delta_heads_ (index s).
Proof. exact (gr_heads _ _ (bg_index _ _ _ _ _ Hbg)). Qed.

Lemma mv_known v : known s' v <-> known s v.
Proof. unfold known; cbn. by rewrite mv_items. Qed.

Lemma mv_head v : head_of (database s') v = head_of (database s) v.
Proof. unfold head_of; cbn. by rewrite mv_heads. Qed.

Lemma mv_item v : item_of (database s') v = item_of (database s) v.
Proof. unfold item_of; cbn. by rewrite mv_items. Qed.

Lemma cur_old v item id : item_of (database s) v = Some item -> cur item = Some id -> id < next_version (index s).
Proof.
  intros Hi Hid. pose proof (inv_live _ (sc_gc _ _ Hc)) as Hl. rewrite Forall_forall in Hl. apply (Hl id).
  unfold owned, reachable_ids, curs. rewrite !elem_of_app. left; left. apply list_elem_of_omap. exists item.
  split; [|done]. by eapply list_elem_of_lookup_2.
Qed.

Lemma mv_loc v : location_of (database s') v = location_of (database s) v.
Proof.
  unfold location_of, get_vertex_location, protect_vertex_version. cbn. rewrite mv_items.
  destruct (items (index s) !! Z.to_nat v) as [item|] eqn:Ei; [|done]. cbn.
  destruct (cur item) as [id|] eqn:Ec; [|done]. cbn.
  pose proof (gr_versions _ _ (bg_index _ _ _ _ _ Hbg) id) as Hv. cbn in Hv. rewrite Hv; [done|].
  by apply (cur_old v item).
Qed.

Lemma mv_located v Q i : located s' v Q i <-> located s v Q i.
Proof. unfold located. by rewrite mv_known, mv_loc. Qed.

Lemma mv_current Q : current s' Q <-> current s Q.
Proof. unfold current. split; intros (v & i & Hl); exists v, i; by apply mv_located. Qed.

Lemma located_page v Q i : located s v Q i -> Q ∈ dom (csr_pages (database s)).
Proof.
  intros Hl. destruct (sc_slot _ _ Hc v Q i Hl) as (n & ns & _ & adj & (_ & p & Hp & _) & _). apply elem_of_dom. eauto.
Qed.

Lemma mv_page Q : Q ∈ dom (csr_pages (database s)) -> csr_pages (database s') !! Q = csr_pages (database s) !! Q.
Proof. apply (bg_old _ _ _ _ _ Hbg). Qed.

Lemma mv_slot Q n v ns : Q ∈ dom (csr_pages (database s)) -> slot s' Q n v ns <-> slot s Q n v ns.
Proof. intros HQ. unfold slot, page_shows. by rewrite mv_page. Qed.

Lemma mv_page_dom Q : Q ∈ dom (csr_pages (database s')) <-> Q ∈ dom (csr_pages (database s)) \/ Q ∈ groups.*1.
Proof.
  change (dom (csr_pages (database s'))) with (dom (csr_pages (database s2))). rewrite (bg_dom _ _ _ _ _ Hbg).
  change (dom (csr_pages (database s1))) with (dom (csr_pages (database s))).
  by rewrite elem_of_union, elem_of_list_to_set.
Qed.

Lemma new_fresh N : N ∈ groups.*1 -> N ∉ dom (csr_pages (database s)).
Proof. intros HN. exact (proj2 (bg_fresh _ _ _ _ _ Hbg) N HN). Qed.

(** ** The vertices of the page *)

Lemma here_settled v i : located s v P i -> ~ moving pend v.
Proof.
  intros Hl (x & Hx & Hs). destruct (moving_old s pend Hc v x Hx Hs) as [i' Hl'].
  destruct (located_fun s _ _ _ _ _ Hl Hl') as [E _]. apply Hold. rewrite E. by apply (list_elem_of_fmap_2 old_page_no).
Qed.

Lemma here_chain v i : located s v P i -> exists rs, chain_of (database s) v rs /\
  ops_of rs = ops_of (reverse (of_vertex v deltas)).
Proof.
  intros Hl. destruct (sc_settled _ _ Hc v (proj1 Hl) (here_settled v i Hl)) as (Q & j & rs & recs & Hl' & Hch & Hr & Ho).
  destruct (located_fun s _ _ _ _ _ Hl Hl') as [<- _]. rewrite (entry_recs_det _ _ _ _ Hrecs Hr). by exists rs.
Qed.

(** The base lists after the promotion of giants. *)
Lemma mv_base v b rs : known s v -> base_of (database s) v = Some b -> chain_of (database s) v rs ->
  exists b', base_of (database s') v = Some b' /\
    ops_set (list_to_set b') rs = ops_set (list_to_set b) rs /\
    (v ∉ giants -> b' = b).
Proof.
  intros Hk Hb Hch. destruct (core_located s pend Hc v Hk) as (Q & i & Hl). pose proof Hb as Hb0.
  unfold base_of in Hb |- *. rewrite mv_item, mv_loc. rewrite (proj2 Hl) in Hb |- *. cbn in Hb |- *.
  destruct (item_of (database s) v) as [item|] eqn:Ei; [|done]. cbn in Hb |- *.
  pose proof (mv_page Q (located_page v Q i Hl)) as Hpg. cbn in Hpg. rewrite Hpg.
  destruct (csr_pages (database s) !! Q) as [p|]; [|done]. cbn in Hb |- *.
  destruct (is_giant item) eqn:Eg; [|by exists b].
  destruct (decide (v ∈ giants)) as [Hg|Hg]; [|rewrite Hst1 by (done || apply Hk); by exists b].
  destruct (Hst2 v Hg) as (ns & b' & Hns & Hb' & Hperm). exists b'. split; [done|]. split; [|done].
  destruct (proj1 (Hdom v)) as [i' Hl']; [eauto|]. destruct (here_chain v i' Hl') as (rs' & Hch' & Ho).
  rewrite (chain_of_fun s v _ _ Hch Hch'). rewrite Hperm, (Hmerged v ns b Hns Hb0), <- (ops_set_ops _ _ _ Ho).
  apply ops_set_idem.
Qed.

Lemma mv_neighbors v X : known s v -> neighbors (database s) v X -> neighbors (database s') v X.
Proof.
  intros Hk (b & h & rs & Hb & Hh & Hch & ->).
  destruct (mv_base v b rs Hk Hb) as (b' & Hb' & <- & _); [by exists h|].
  exists b', h, rs. rewrite mv_head. split; [done|]. split; [done|]. split; [|done].
  eapply chain_at_ext; [|exact Hch]. apply Hm.
Qed.

Lemma mv_db_inv : db_inv (database s').
Proof.
  pose proof (sc_db _ _ Hc) as Hdb. constructor; [apply Hm|apply Hdb|..].
  - unfold vertex_count; cbn. rewrite mv_items. apply Hdb.
  - intros v Hv. change (known s' v) in Hv. rewrite mv_known in Hv.
    destruct (i_vertex _ Hdb v Hv) as (b & h & rs & Hb & Hh & Hw & Hch & Hf).
    destruct (mv_base v b rs Hv Hb) as (b' & Hb' & _); [by exists h|].
    exists b', h, rs. rewrite mv_head. split; [done|]. split; [done|]. split; [done|]. split; [|done].
    eapply chain_at_ext; [|exact Hch]. apply Hm.
Qed.

(** ** Where the vertices go *)

Lemma locs_dom v : is_Some (locs !! v) <-> exists i, located s v P i.
Proof.
  rewrite <- Hdom, (bg_locs _ _ _ _ _ Hbg), Hgroups, list_elem_of_fmap. split.
  - intros ([w ns] & -> & Hw). apply elem_of_map_to_list in Hw. by exists ns.
  - intros [ns Hns]. exists (v, ns). split; [done|]. by apply elem_of_map_to_list.
Qed.

Lemma locs_slot v pv : locs !! v = Some pv ->
  exists N n ns, N ∈ groups.*1 /\ slot s' N n v ns /\ merged !! v = Some ns /\ loc_ready (index s') v N (Z.of_nat n) pv.
Proof.
  intros Hv. assert (Hin : v ∈ (mjoin groups.*2).*1) by (apply (bg_locs _ _ _ _ _ Hbg); eauto).
  apply list_elem_of_fmap in Hin as ([w ns] & -> & Hin). pose proof Hin as Hns. rewrite Hgroups in Hns.
  apply elem_of_map_to_list in Hns. apply list_elem_of_join in Hin as (adj & Hadj & Hg).
  apply list_elem_of_fmap in Hg as ([N adj'] & -> & Hg). apply list_elem_of_lookup in Hadj as [n Hn]. cbn [snd] in Hn.
  destruct (bg_groups _ _ _ _ _ Hbg N adj' Hg) as [Hsh Hl]. destruct (Hl n _ Hn) as (pv' & Hpv & Hr). cbn in Hpv, Hr, Hv.
  rewrite Hpv in Hv. injection Hv as ->.
  exists N, n, ns. split; [by apply (list_elem_of_fmap_2 fst) in Hg|]. split; [by exists adj'|done].
Qed.

(** What a new page shows is switching there. *)
Lemma new_slot N n v ns : N ∈ groups.*1 -> slot s' N n v ns ->
  exists pv, locs !! v = Some pv /\ pv_first pv = N /\ pv_second pv = Z.of_nat n.
Proof.
  intros HN (adj & (_ & p & Hp & (Hsh & _)) & Hn). apply list_elem_of_fmap in HN as ([N' adj'] & -> & Hg).
  destruct (bg_groups _ _ _ _ _ Hbg _ _ Hg) as [(_ & p' & Hp' & (Hsh' & _)) Hl]. cbn [fst] in *.
  change (csr_pages (database s')) with (csr_pages (database s2)) in Hp. rewrite Hp in Hp'. injection Hp' as <-.
  destruct (same_page_vertex p adj' adj n v ns Hsh' Hsh Hn) as [ns' Hn'].
  destruct (Hl n _ Hn') as (pv & Hpv & Hr). exists pv. destruct Hr. done.
Qed.

Lemma mv_in (x : pending_version_switch_t) : x ∈ pend ++ [q] <-> x ∈ pend \/ x = q.
Proof. by rewrite elem_of_app, list_elem_of_singleton. Qed.

Lemma mv_moving v : moving (pend ++ [q]) v <-> moving pend v \/ exists i, located s v P i.
Proof.
  rewrite <- locs_dom. unfold moving. setoid_rewrite mv_in. split.
  - intros (x & [Hx| ->] & Hs); [left; eauto|by right].
  - intros [(x & Hx & Hs)|Hs]; [eauto|]. exists q. auto.
Qed.

Lemma mv_target N : target_page (pend ++ [q]) N <-> target_page pend N \/ N ∈ groups.*1.
Proof.
  unfold target_page. setoid_rewrite mv_in. split.
  - intros (x & [Hx| ->] & Hs); [left; eauto|by right].
  - intros [(x & Hx & Hs)|Hs]; [eauto|]. exists q. auto.
Qed.

Lemma mv_acquire k : acquire_forwarder_for m' k = if decide (k = P) then Some fid else acquire_forwarder_for (pmap s) k.
Proof. apply Hm. Qed.

Lemma mv_forwarder x : x ∈ pend -> forwarder x <> fid.
Proof.
  intros Hx E. destruct (fl_forward _ _ (sc_flight _ _ Hc x Hx)) as (f & Hf & _). apply (mm_fresh _ _ _ _ _ Hm).
  rewrite <- E. apply elem_of_dom. eauto.
Qed.

Lemma mv_home v : known s v -> home (database s') v =
  match locs !! v with Some pv => Some (pv_first pv) | None => home (database s) v end.
Proof.
  intros Hk. unfold home. rewrite mv_loc. destruct (core_located s pend Hc v Hk) as (Q & i & Hl).
  rewrite (proj2 Hl). cbn. unfold forward_target, forward_hit. rewrite mv_acquire.
  destruct (decide (Q = P)) as [->|HQ].
  - destruct (proj2 (locs_dom v)) as [pv Hpv]; [eauto|]. rewrite Hpv. cbn.
    rewrite (mm_forwarders _ _ _ _ _ Hm), lookup_insert_eq. cbn. unfold lookup_forward; cbn.
    by rewrite lookup_fmap, Hpv.
  - assert (locs !! v = None) as ->.
    { apply eq_None_not_Some. rewrite locs_dom. intros [i' Hl']. destruct (located_fun s _ _ _ _ _ Hl Hl'); done. }
    destruct (acquire_forwarder_for (pmap s) Q) as [fid'|] eqn:E; [|done]. cbn.
    destruct (sc_forwarders _ _ Hc _ _ E) as (x & Hx & _ & <-).
    by rewrite (mm_forwarders _ _ _ _ _ Hm), lookup_insert_ne by by apply not_eq_sym, mv_forwarder.
Qed.

(** A fresh page has no records. *)
Lemma new_records N recs : N ∈ groups.*1 -> entry_recs (pmap s) N recs -> recs = [].
Proof.
  intros HN Hr. destruct recs as [|r recs]; [done|]. exfalso. apply (new_fresh N HN).
  pose proof (sc_records _ _ Hc N _ Hr) as Hall. apply Forall_cons in Hall as [(Hk & Hh & _) _].
  destruct (core_located s pend Hc (first r) Hk) as (Q & i & Hl).
  destruct (moving_dec pend (first r)) as [(x & Hx & [pv Hpv])|Hnm].
  - rewrite (moving_home s pend Hc _ x pv Hx Hpv) in Hh. injection Hh as <-. apply (sc_targets _ _ Hc); left.
    destruct (fl_forward _ _ (sc_flight _ _ Hc x Hx)) as (f & _ & H3).
    destruct (H3 _ _ Hpv) as (_ & M & j & ns & new & old & rc & h & b & Hsw). exists x. split; [done|].
    rewrite (lr_first _ _ _ _ _ (sw_ready _ _ _ _ _ _ _ _ _ _ _ _ _ Hsw)).
    apply (sw_target _ _ _ _ _ _ _ _ _ _ _ _ _ Hsw).
  - rewrite (settled_home s pend Hc _ Q i Hl Hnm) in Hh. injection Hh as <-. by apply (located_page _ _ _ Hl).
Qed.

Lemma mv_not_new Q : Q ∈ dom (csr_pages (database s)) -> Q ∉ groups.*1.
Proof. intros HQ HN. by apply (new_fresh Q HN). Qed.

Lemma mv_P : P ∈ dom (csr_pages (database s)).
Proof. destruct Hcur as (v & i & Hl). by apply (located_page v P i). Qed.

(** ** The consolidations in flight *)

Lemma mv_switching v pv : locs !! v = Some pv ->
  exists N j ns new old recs h b, switching s' q v pv (PageDelta (pv_first <$> locs) ∅) N j ns new old recs h b.
Proof.
  intros Hv. destruct (locs_slot v pv Hv) as (N & n & ns & HN & Hsl & Hns & Hr).
  destruct (proj1 (locs_dom v)) as [i Hl]; [eauto|]. destruct (here_chain v i Hl) as (rs & (h & Hh & Hch) & Ho).
  destruct (i_vertex _ (sc_db _ _ Hc) v (proj1 Hl)) as (b & h0 & rs0 & Hb & Hh0 & _ & Hch0 & Hf0).
  assert (h0 = h) as -> by congruence. assert (rs0 = rs) as -> by by eapply chain_at_det.
  destruct (mv_base v b rs (proj1 Hl) Hb) as (b' & Hb' & Hset & Hbb); [by exists h|].
  destruct (wf_entry_recs (pmap s) N (i_pm _ (sc_db _ _ Hc))) as [rN HrN].
  assert (rN = []) as -> by by apply (new_records N).
  assert (HNP : N <> P) by (intros ->; apply (new_fresh P HN), mv_P).
  exists N, n, ns, [], rs, [], h, b'. constructor; try done.
  - by rewrite mv_head.
  - cbn. split; [done|]. eapply chain_at_ext; [|exact Hch]. apply Hm.
  - by apply (mm_other _ _ _ _ _ Hm).
  - rewrite Hset, (Hmerged v ns b Hns Hb). symmetry. by apply ops_set_ops.
  - intros Hg. destruct (Hst2 v Hg) as (ns' & b2 & Hns' & Hb2 & Hp). exists b2. cbn. split; [done|]. congruence.
  - intros Hg. apply not_true_is_false. intros Hgl. apply Hg. cbn. rewrite Hgiants. exists ns. split; [done|].
    by rewrite Hgl, orb_true_r.
Qed.

Lemma mv_flight x : x ∈ pend ++ [q] -> in_flight s' x.
Proof.
  rewrite mv_in. intros [Hx| ->].
  - assert (Hox : old_page_no x <> P).
    { intros E. apply Hold. rewrite <- E. by apply (list_elem_of_fmap_2 old_page_no). }
    assert (Hng : forall v, is_Some (new_locations x !! v) -> known s v /\ v ∉ giants).
    { intros v Hv. destruct (moving_old s pend Hc v x Hx Hv) as [i Hl]. split; [apply Hl|].
      rewrite Hgiants. intros (ns & Hns & _). destruct (proj1 (Hdom v)) as [i' Hl']; [eauto|].
      destruct (located_fun s _ _ _ _ _ Hl Hl'); done. }
    assert (Hdx : forall N, N ∈ new_page_nos x -> N ∈ dom (csr_pages (database s))).
    { intros N HN. apply (sc_targets _ _ Hc). left. by exists x. }
    apply (in_flight_mono s); [..|by apply (sc_flight _ _ Hc)].
    + apply mv_located.
    + apply mv_head.
    + apply Hm.
    + cbn. by rewrite mv_acquire, decide_False.
    + cbn. by rewrite (mm_forwarders _ _ _ _ _ Hm), lookup_insert_ne by by apply not_eq_sym, mv_forwarder.
    + intros v pv N j _ Hr. eapply loc_ready_grown; [|exact Hr]. exact (bg_index _ _ _ _ _ Hbg).
    + intros N j v ns HN. by apply mv_slot, Hdx.
    + intros N recs HN. apply (mm_other _ _ _ _ _ Hm). intros ->. apply Htgt. by exists x.
    + intros v Hv. destruct (Hng v Hv) as [Hk Hg]. destruct (i_vertex _ (sc_db _ _ Hc) v Hk) as (b & h & rs & Hb & Hh & _ & Hch & _).
      destruct (mv_base v b rs Hk Hb) as (b' & -> & _ & E); [by exists h|]. by rewrite E.
    + intros v Hv. destruct (Hng v Hv) as [Hk Hg]. cbn. apply Hst1; [apply Hk|done].
  - constructor.
    + intros v. cbn. rewrite locs_dom. split; intros [i Hl]; exists i; by apply mv_located.
    + cbn. by rewrite mv_acquire, decide_True.
    + exists (PageDelta (pv_first <$> locs) ∅). cbn [forwarder q]. split.
      { change (pmap s') with m'. by rewrite (mm_forwarders _ _ _ _ _ Hm), lookup_insert_eq. }
      intros v pv Hpv. cbn in Hpv. split; [unfold lookup_forward; cbn; by rewrite lookup_fmap, Hpv|].
      by apply mv_switching.
Qed.

(** ** The invariant *)

Lemma mv_records k recs : entry_recs m' k recs ->
  Forall (fun r => known s' (first r) /\ home (database s') (first r) = Some k /\ in_width 32 (second r)) recs.
Proof.
  intros Hr. destruct (decide (k = P)) as [->|Hk].
  - by rewrite (entry_recs_det _ _ _ _ Hr (mm_emptied _ _ _ _ _ Hm)).
  - destruct (wf_entry_recs (pmap s) k (i_pm _ (sc_db _ _ Hc))) as [rs Hrs].
    rewrite (entry_recs_det _ _ _ _ Hr (mm_other _ _ _ _ _ Hm k rs Hk Hrs)).
    eapply Forall_impl; [by apply (sc_records _ _ Hc k)|]. cbn. intros r (Hkn & Hh & Hw). rewrite mv_known.
    split; [done|]. split; [|done]. rewrite mv_home by done. destruct (locs !! first r) as [pv|] eqn:E; [|done].
    exfalso. destruct (proj1 (locs_dom (first r))) as [i Hl]; [eauto|].
    rewrite (settled_home s pend Hc _ P i Hl (here_settled _ _ Hl)) in Hh. congruence.
Qed.

Lemma mv_settled v : known s' v -> ~ moving (pend ++ [q]) v -> settled s' v.
Proof.
  rewrite mv_known, mv_moving. intros Hk Hnm.
  destruct (sc_settled _ _ Hc v Hk) as (Q & i & rs & recs & Hl & (h & Hh & Hch) & Hr & Ho); [tauto|].
  assert (HQ : Q <> P) by (intros ->; apply Hnm; right; by exists i).
  exists Q, i, rs, recs. split; [by apply mv_located|]. split.
  - exists h. rewrite mv_head. split; [done|]. eapply chain_at_ext; [|exact Hch]. apply Hm.
  - split; [by apply (mm_other _ _ _ _ _ Hm)|done].
Qed.

Lemma mv_owner Q n v ns : current s' Q \/ target_page (pend ++ [q]) Q -> Q ∉ old_page_no <$> pend ++ [q] ->
  slot s' Q n v ns -> located s' v Q (Z.of_nat n) \/ known s' v /\ moving_to (pend ++ [q]) v Q (Z.of_nat n).
Proof.
  rewrite mv_current, mv_target, fmap_app, not_elem_of_app. intros HQ [Ho _] Hsl.
  destruct (decide (Q ∈ groups.*1)) as [HN|HN].
  - right. destruct (new_slot Q n v ns HN Hsl) as (pv & Hpv & E1 & E2).
    destruct (proj1 (locs_dom v)) as [i Hl]; [eauto|]. split; [apply mv_known, Hl|]. exists q, pv.
    split; [apply mv_in; by right|done].
  - assert (HQ' : current s Q \/ target_page pend Q) by tauto.
    assert (Hd : Q ∈ dom (csr_pages (database s))).
    { destruct HQ' as [(w & i & Hl)|Ht]; [by apply (located_page w Q i)|apply (sc_targets _ _ Hc); by left]. }
    apply (mv_slot Q n v ns Hd) in Hsl. destruct (sc_owner _ _ Hc Q n v ns HQ' Ho Hsl) as [Hl|[Hk (x & pv & Hx & Hr)]].
    + left. by apply mv_located.
    + right. split; [by apply mv_known|]. exists x, pv. split; [apply mv_in; by left|done].
Qed.

Lemma moved_core : smo_core s' (pend ++ [q]).
Proof.
  pose proof Hc as [C1 C2 C3 C4 C5 C6 C7 C8 C9 C10 C11 C12 C13 C14 C15 C16 C17]. constructor.
  - apply mv_db_inv.
  - unfold vertex_count; cbn. by rewrite mv_items.
  - cbn. by rewrite mv_items.
  - intros v b Hk Hg Hst. rewrite mv_known in Hk. cbn in Hst.
    assert (Hg' : is_giant_vertex (index s) (Z.to_nat v) = true) by (unfold is_giant_vertex in *; cbn in Hg; by rewrite mv_items in Hg).
    destruct (decide (v ∈ giants)) as [Hv|Hv]; [|rewrite Hst1 in Hst by (done || apply Hk); by apply (C4 v b)].
    destruct (Hst2 v Hv) as (ns & b' & Hns & Hb' & Hp). rewrite Hb' in Hst. injection Hst as <-. rewrite Hp.
    by apply (Hwidth v).
  - eapply gc_inv_perm; [|exact (bg_gc _ _ _ _ _ Hbg)]. unfold all_prepared. rewrite fmap_app, join_app. cbn.
    rewrite app_nil_r. apply Permutation_app_comm.
  - exact (bg_alloc _ _ _ _ _ Hbg).
  - intros v Q i Hl. apply mv_located in Hl. destruct (C7 v Q i Hl) as (n & ns & E & Hs). exists n, ns. split; [done|].
    apply mv_slot; [by apply (located_page v Q i)|done].
  - apply mv_owner.
  - apply mv_records.
  - apply mv_settled.
  - apply mv_flight.
  - intros k f0. cbn. rewrite mv_acquire. setoid_rewrite mv_in. case_decide as E.
    + subst k. intros [= <-]. exists q. auto.
    + intros Hk. destruct (C12 k f0 Hk) as (x & ? & ? & ?). eauto.
  - destruct C13 as (D1 & D2 & D3). rewrite !fmap_app, join_app. split; [|split].
    + apply NoDup_app. split; [done|]. split; [|apply NoDup_singleton]. cbn. intros y Hy.
      rewrite list_elem_of_singleton. by intros ->.
    + apply NoDup_app. split; [done|]. split; [|apply NoDup_singleton]. cbn. intros y Hy.
      rewrite list_elem_of_singleton. intros ->. apply list_elem_of_fmap in Hy as (x & E & Hx). by apply (mv_forwarder x).
    + cbn. rewrite app_nil_r. apply NoDup_app. split; [done|]. split; [|apply Hbg].
      intros N HN HN'. apply (new_fresh N HN'), C17. left. apply list_elem_of_join in HN as (l & Hl & Hx).
      apply list_elem_of_fmap in Hx as (x & -> & Hx). by exists x.
  - intros x. rewrite mv_in, mv_target. intros [Hx| ->] [Ht|Hn].
    + by apply (C14 x).
    + apply (new_fresh _ Hn), C17. right. by apply (list_elem_of_fmap_2 old_page_no).
    + done.
    + by apply (new_fresh _ Hn), mv_P.
  - destruct C15 as [B1 B2]. split; [done|]. intros Q HQ. destruct (B2 Q HQ) as (Hd & Hnc & Hnt & Ho).
    rewrite mv_current, mv_target, fmap_app, not_elem_of_app. split; [|split; [done|split; [|split; [done|]]]].
    + apply mv_page_dom. by left.
    + intros [?|Hn]; [done|]. by apply (new_fresh Q Hn).
    + cbn. rewrite list_elem_of_singleton. by intros ->.
  - destruct C16 as [Q1 Q2]. split; [done|]. intros Q HQ. destruct (Q2 Q HQ) as (Hcq & Ho & Hcl).
    rewrite mv_current, fmap_app, not_elem_of_app. split; [done|]. split; [|by cbn; rewrite (mm_claimed _ _ _ _ _ Hm)].
    split; [done|]. cbn. rewrite list_elem_of_singleton. by intros ->.
  - intros N. rewrite mv_page_dom, mv_target, fmap_app, elem_of_app. cbn. rewrite list_elem_of_singleton. intros [[Ht|Hn]|[Ht| ->]]; [left; apply C17; by left|by right|left; apply C17; by right|left; apply mv_P].
Qed.

End Moved.

End Consolidate.
End Consolidate.
