(* ===== verification/SmoRun.v ===== *)
(** * Running a consolidation

    [consolidate_pages] and the publication of pending switches return, keep
    the invariant and change no neighbour set, provided the merged lists fit
    on pages and there is room for them on the disk. *)

From S2P Require Import Prelude Config DeltaPage VertexIndex PageMap CsrPage Db EdgeOps Chains.
From S2P Require Import Reorder Builder Smo SmoMerge SmoBuild SmoInv SmoEdges SmoPublish SmoSwitch SmoConsolidate.

Local Open Scope Z_scope.

Module Run.
Import Delta VIndex PMap Csr DB EdgeOps Chains Builder Smo Merge Build Inv Edges Publish Switch Consolidate.

Section Run.
Context {A G SK : Type} `{cfg : Config} `{!PageAllocator A (Z.of_nat DELTA_PAGE_SIZE)}
  `{!PageAllocator A (Z.of_nat PAGE_SIZE)} `{!GiantStore G} `{!UpdateSketch SK} `{!SetOrder} `{!MapOrder}.

Abbreviation db := (bw_graph_db_t (A := A) (G := G) (SK := SK)).
Abbreviation smo_st := (smo_t (A := A) (G := G) (SK := SK)).
Abbreviation index s := (vertex_index (database s)).
Abbreviation pmap s := (page_map_table (database s)).
Abbreviation graph_t := (gmap Z (list Z)).
Abbreviation locations_t := (gmap Z prepared_vertex_version_t).
Abbreviation csr_room := (room (page_bytes := Z.of_nat PAGE_SIZE)).
Abbreviation csr_alloc_ok := (alloc_ok (page_bytes := Z.of_nat PAGE_SIZE)).

(** ** Changes of the page map no consolidation depends on *)

Record quiet_map (q : list (Z * Z)) (m m' : page_map_t (A := A)) : Prop := {
  qm_wf : pm_wf m';
  qm_ext : pages_ext (pages m) (pages m');
  qm_allocator : allocator m' = allocator m;
  qm_forwarders : forwarders m' = forwarders m;
  qm_acquire : forall k, acquire_forwarder_for m' k = acquire_forwarder_for m k;
  qm_claimed : forall k, k ∈ q.*1 -> claimed m' k = claimed m k;
  qm_recs : forall k rs, entry_recs m k rs -> entry_recs m' k rs
}.

Lemma quiet_map_core (s : smo_st) pend m' :
  quiet_map (smo_queue (database s)) (pmap s) m' -> smo_core s pend -> smo_core (upd_map (fun _ => m') s) pend.
Proof.
  intros Hm Hc. pose proof Hc as [C1 C2 C3 C4 C5 C6 C7 C8 C9 C10 C11 C12 C13 C14 C15 C16 C17].
  pose proof (i_pm _ C1) as Hwf. set (s' := upd_map (fun _ => m') s).
  assert (Hback : forall k rs', entry_recs m' k rs' -> entry_recs (pmap s) k rs').
  { intros k rs' Hr'. destruct (wf_entry_recs (pmap s) k Hwf) as [rs Hr].
    by rewrite (entry_recs_det _ _ _ _ Hr' (qm_recs _ _ _ Hm k rs Hr)). }
  assert (Hhome : forall v, home (database s') v = home (database s) v).
  { intros v. unfold home. change (location_of (database s') v) with (location_of (database s) v).
    destruct (location_of (database s) v) as [loc|]; [|done]. cbn. unfold forward_target, forward_hit.
    by rewrite (qm_acquire _ _ _ Hm), (qm_forwarders _ _ _ Hm). }
  constructor; try done.
  - apply (quiet_step (database s)); [done|done|apply Hm|apply Hm|apply C1|done].
  - intros k recs Hr. eapply Forall_impl; [by apply (C9 k), Hback|]. cbn. intros r (? & ? & ?). by rewrite Hhome.
  - intros v Hv Hnm. destruct (C10 v Hv Hnm) as (Q & i & rs & recs & Hl & (h & Hh & Hch) & Hr & Ho).
    exists Q, i, rs, recs. split; [done|]. split; [exists h; split; [done|]; eapply chain_at_ext; [apply Hm|done]|].
    split; [by apply (qm_recs _ _ _ Hm)|done].
  - intros q Hq. apply (in_flight_mono s); auto; [apply Hm|apply (qm_acquire _ _ _ Hm)|by cbn; rewrite (qm_forwarders _ _ _ Hm)|].
    intros N recs _. apply (qm_recs _ _ _ Hm).
  - intros k fid. cbn. rewrite (qm_acquire _ _ _ Hm). apply C12.
  - destruct C16 as [Q1 Q2]. split; [done|]. intros Q HQ. destruct (Q2 Q HQ) as (? & ? & Hcl). cbn.
    by rewrite (qm_claimed _ _ _ Hm).
Qed.

Lemma quiet_map_sets (s : smo_st) m' : db_inv (database s) ->
  quiet_map (smo_queue (database s)) (pmap s) m' -> same_sets (database s) (database (upd_map (fun _ => m') s)).
Proof.
  intros Hi Hm v X _. apply (quiet_step (database s)); [done|done|apply Hm|apply Hm|apply Hi|done].
Qed.

Lemma upd_map_inv (s : smo_st) pend m' :
  quiet_map (smo_queue (database s)) (pmap s) m' -> smo_inv s pend -> smo_inv (upd_map (fun _ => m') s) pend.
Proof. intros Hm [Hc Ht]. split; [by apply quiet_map_core|done]. Qed.

(** ** Detaching the records *)

Hypothesis Hsize : page_size_ok.

Lemma fetch_acquire (m m' : page_map_t (A := A)) key : (forall k, inner m' !! k = (if decide (k = key) then
    (fun e => reset_delta_page_count (set_delta_page_ptr e None)) <$> inner m !! k else inner m !! k)) ->
  (forall k, acquire_forwarder_for m' k = acquire_forwarder_for m k) /\ forall k, claimed m' k = claimed m k.
Proof.
  intros Hi. split; intros k; unfold acquire_forwarder_for, claimed; rewrite Hi;
    case_decide; try done; by destruct (inner m !! k).
Qed.

Record detached (m m1 : page_map_t (A := A)) (P : Z) : Prop := {
  dt_wf : pm_wf m1;
  dt_ext : pages_ext (pages m) (pages m1);
  dt_allocator : allocator m1 = allocator m;
  dt_forwarders : forwarders m1 = forwarders m;
  dt_acquire : forall k, acquire_forwarder_for m1 k = acquire_forwarder_for m k;
  dt_claimed : forall k, claimed m1 k = claimed m k;
  dt_emptied : entry_recs m1 P [];
  dt_other : forall k rs, k <> P -> entry_recs m k rs -> entry_recs m1 k rs
}.

Lemma fetch_run (s : smo_st) P rs :
  pm_wf (pmap s) -> entry_recs (pmap s) P rs ->
  exists m1, fetch_deltas P s = (Ok rs, upd_map (fun _ => m1) s) /\ detached (pmap s) m1 P.
Proof.
  intros Hwf0 Hr. destruct (fetch_spec Hsize (size (dom (pages (pmap s)))) (pmap s) P rs Hwf0 Hr ltac:(lia))
    as (m1 & E & Hwf & Hps & Hal & Hfo & Hk & Hoth & Hin). exists m1.
  destruct (fetch_acquire _ _ _ Hin) as [Ha Hcl]. split.
  { unfold fetch_deltas. rewrite get_db_bind, E. done. }
  constructor; auto. by apply pages_same_ext.
Qed.

(** Nothing was detached. *)
Lemma detached_quiet q m m1 P : entry_recs m P [] -> detached m m1 P -> quiet_map q m m1.
Proof.
  intros He []. constructor; auto. intros k rs Hr. destruct (decide (k = P)) as [->|Hk]; [|auto].
  by rewrite (entry_recs_det _ _ _ _ Hr He).
Qed.

Lemma detached_moved m m1 m2 m3 P fid (locs : gmap Z prepared_vertex_version_t) :
  detached m m1 P -> map_moved m1 m2 P fid locs -> detached m2 m3 P -> map_moved m m3 P fid locs.
Proof.
  intros [D1 D2 D3 D4 D5 D6 D7 D8] [M1 M2 M3 M4 M5 M6 M7 M8 M9] [T1 T2 T3 T4 T5 T6 T7 T8]. constructor; try done.
  - etrans; [exact D2|]. by etrans.
  - by rewrite T3, M3.
  - by rewrite <- D4.
  - by rewrite T4, M5, D4.
  - intros k. by rewrite T5, M6, D5.
  - intros k. by rewrite T6, M7, D6.
  - auto.
Qed.

(** ** The forwarding table *)

Lemma install_run (s : smo_st) P (locs : locations_t) :
  pm_wf (pmap s) -> entry_recs (pmap s) P [] ->
  exists fid m2, install_forwarder P locs s = (Ok fid, upd_map (fun _ => m2) s) /\
    map_moved (pmap s) m2 P fid locs.
Proof.
  intros Hwf He. set (m := pmap s) in *. set (fid := fresh (dom (forwarders m)) : Z).
  set (f := PageDelta (pv_first <$> locs) ∅). set (m0 := set_forwarders (<[fid := f]> (forwarders m)) m).
  exists fid, (install_forwarder_for m0 P fid). split; [reflexivity|].
  assert (Hin : forall k, inner (install_forwarder_for m0 P fid) !! k =
    if decide (k = P) then Some (set_forwarder (default (new_entry P) (inner m !! P)) (Some fid)) else inner m !! k).
  { intros k. unfold install_forwarder_for, m0; cbn. destruct (inner m !! P); cbn; rewrite lookup_insert;
      repeat case_decide; subst; done. }
  assert (Hsame : pages (install_forwarder_for m0 P fid) = pages m /\ allocator (install_forwarder_for m0 P fid) = allocator m /\
    forwarders (install_forwarder_for m0 P fid) = <[fid := f]> (forwarders m)).
  { unfold install_forwarder_for, m0; cbn. by destruct (inner m !! P). }
  destruct Hsame as (E1 & E2 & E3). set (m' := install_forwarder_for m0 P fid) in *.
  assert (Hent : forall k e, inner m' !! k = Some e ->
    (delta_page e = None /\ delta_page_count e = 0) \/ exists e0, inner m !! k = Some e0 /\
      delta_page e0 = delta_page e /\ delta_page_count e0 = delta_page_count e).
  { intros k e. rewrite Hin. case_decide as Ek; [|eauto]. subst k. intros [= <-].
    destruct (inner m !! P) as [e0|]; [right; by exists e0|by left]. }
  constructor.
  - destruct Hwf as [W1 W2 W3 W4 W5]. constructor; rewrite ?E1, ?E2; try done.
    + intros k e Hk. destruct (Hent k e Hk) as [[-> ->]|(e0 & H' & <- & <-)]; [exists []; split; [constructor|done]|eauto].
    + intros k1 k2 e1 e2 lst1 lst2 Hne H1 H2 Hc1 Hc2.
      destruct (Hent k1 e1 H1) as [[Hn _]|(e1' & H1' & Hn1 & _)].
      { rewrite Hn in Hc1. inversion Hc1; subst. intros x Hx; by apply elem_of_nil in Hx. }
      destruct (Hent k2 e2 H2) as [[Hn _]|(e2' & H2' & Hn2 & _)].
      { rewrite Hn in Hc2. inversion Hc2; subst. intros x _ Hx; by apply elem_of_nil in Hx. }
      rewrite <- Hn1 in Hc1. rewrite <- Hn2 in Hc2. by eapply W5.
  - by rewrite E1.
  - done.
  - apply is_fresh.
  - done.
  - intros k. unfold acquire_forwarder_for. rewrite Hin. by case_decide.
  - intros k. unfold claimed. rewrite Hin. case_decide; [subst|done]. by destruct (inner m !! P).
  - unfold entry_recs in *. rewrite Hin, decide_True, E1 by done. cbn. destruct (inner m !! P); [done|].
    exists []. split; [constructor|done].
  - intros k rs Hk Hr. unfold entry_recs in *. by rewrite Hin, decide_False, E1.
Qed.

(** ** Promoting giants *)

Hypothesis Hstore : forall g v ns, 0 <= v -> g_storable ns -> (g_insert_vertex g v ns).1 = true.

Definition promoted (vi : vertex_index_t) (q : Z * list Z) : bool :=
  is_giant_vertex vi (Z.to_nat q.1) || is_giant_list q.2.

Lemma promote_run l : forall (s : smo_st) giants,
  NoDup l.*1 -> Forall (fun q => 0 <= q.1 /\ g_storable q.2) l ->
  exists gs', promote_giants l giants s =
      (Ok (giants ∪ list_to_set (filter (fun q => promoted (index s) q = true) l).*1), upd_db (fun d => set_giants d gs') s) /\
    (forall v, 0 <= v -> (forall ns, (v, ns) ∈ l -> promoted (index s) (v, ns) = false) ->
       g_stored gs' v = g_stored (giant_db (database s)) v) /\
    (forall v ns, (v, ns) ∈ l -> promoted (index s) (v, ns) = true -> exists b', g_stored gs' v = Some b' /\ b' ≡ₚ ns).
Proof.
  induction l as [|[v ns] l IH]; intros s giants Hnd Hok; cbn [promote_giants].
  { exists (giant_db (database s)). split; [cbn; rewrite union_empty_r_L; by destruct s as [[]]|]. split; [done|].
    intros v ns Hv. by apply elem_of_nil in Hv. }
  cbn in Hnd. apply NoDup_cons in Hnd as [Hv Hnd]. apply Forall_cons in Hok as [[Hz Hs] Hok]. cbn in Hz, Hs.
  rewrite get_db_bind. change (is_giant_vertex (index s) (Z.to_nat v) || (GIANT_DEGREE_BOUND <=? Z.of_nat (length ns)))
    with (promoted (index s) (v, ns)). rewrite filter_cons.
  destruct (promoted (index s) (v, ns)) eqn:Ep.
  - pose proof (Hstore (giant_db (database s)) v ns Hz Hs) as Hins.
    pose proof (g_insert_stored (giant_db (database s)) v ns Hz Hs Hins) as (b' & Hb' & Hperm).
    pose proof (fun w => g_insert_other (giant_db (database s)) v w ns Hz) as Hother.
    destruct (g_insert_vertex (giant_db (database s)) v ns) as [ok gs]. cbn in Hins, Hb', Hother. subst ok.
    rewrite stm_modify. destruct (IH (upd_db (fun d => set_giants d gs) s) ({[v]} ∪ giants) Hnd Hok) as (gs' & E & H1 & H2).
    exists gs'. split; [|split].
    + rewrite decide_True by done. etrans; [exact E|]. f_equal. f_equal. cbn. set_solver.
    + intros w Hw Hn. rewrite H1; [|done|intros ms Hms; apply Hn; by right].
      cbn. apply Hother; [done|]. intros ->. rewrite (Hn ns) in Ep; [done|left].
    + intros w ms Hin Hp. apply elem_of_cons in Hin as [[= -> ->]|Hin]; [|by apply H2].
      exists b'. split; [|done]. rewrite H1; [done|done|]. intros ms Hms. exfalso. apply Hv.
      by apply (list_elem_of_fmap_2 fst) in Hms.
  - destruct (IH s giants Hnd Hok) as (gs' & E & H1 & H2). exists gs'. split; [|split].
    + rewrite decide_False by done. exact E.
    + intros w Hw Hn. apply H1; [done|]. intros ms Hms. apply Hn. by right.
    + intros w ms Hin Hp. apply elem_of_cons in Hin as [[= -> ->]|Hin]; [congruence|by apply H2].
Qed.

(** ** The lists to place *)

Hypothesis Hcompress : NEIGHBOR_COMPRESS = false.
Hypothesis Hpage : Z.of_nat PAGE_SIZE <= 2 ^ 16.
Hypothesis Hbound : 0 <= GIANT_DEGREE_BOUND.

(** [merged] holds the sorted neighbour sets of the vertices of [P]. *)
Definition merges (s : smo_st) (P : Z) (merged : graph_t) : Prop :=
  (forall v, is_Some (merged !! v) <-> exists i, located s v P i) /\
  forall v ns, merged !! v = Some ns -> StronglySorted Z.lt ns /\
    forall X, neighbors (database s) v X -> (list_to_set ns : gset Z) = X.

(** The lists can be stored, and fit on the page or pages chosen for them. *)
Definition fits (d : db) (k : nat) (merged : graph_t) : Prop :=
  (forall v ns, merged !! v = Some ns -> g_storable ns /\ Z.of_nat (length ns) < 2 ^ 31) /\
  csr_room (csr_disk d) (size merged + S k) /\
  if Z.of_nat PAGE_SIZE <? estimate_page_bytes merged
  then forall v ns, merged !! v = Some ns -> fits_alone ns (slots_for d v)
  else Z.of_nat (vertices_off + size merged * VERTEX_SIZE) +
         lists_bytes (slots_of d merged) (map_to_list merged) <= Z.of_nat PAGE_SIZE.

Section Page.
Variables (s : smo_st) (pend : list pending_version_switch_t) (P : Z).
Hypothesis Hc : smo_core s pend.
Hypothesis Hcur : current s P.
Hypothesis Hold : P ∉ old_page_no <$> pend.
Hypothesis Htgt : ~ target_page pend P.

Lemma moving_to_target v Q i : moving_to pend v Q i -> target_page pend Q.
Proof.
  intros (x & pv & Hx & Hpv & <- & _). exists x. split; [done|].
  destruct (fl_forward _ _ (sc_flight _ _ Hc x Hx)) as (f & _ & H3).
  destruct (H3 _ _ Hpv) as (_ & M & j & ns & new & old & rc & h & b & Hsw).
  rewrite (lr_first _ _ _ _ _ (sw_ready _ _ _ _ _ _ _ _ _ _ _ _ _ Hsw)).
  apply (sw_target _ _ _ _ _ _ _ _ _ _ _ _ _ Hsw).
Qed.

Lemma giant_type v item : item_of (database s) v = Some item ->
  is_giant_vertex (index s) (Z.to_nat v) = is_giant item.
Proof.
  intros Hi. unfold is_giant_vertex. unfold item_of in Hi. rewrite Hi.
  rewrite (Forall_lookup_1 _ _ _ _ (sc_live _ _ Hc) Hi). done.
Qed.

(** The vertices the page shows are those located on it, with their bases. *)
Lemma page_vertices : exists p adj, csr_pages (database s) !! P = Some p /\ adj_ok adj /\ page_holds p adj /\
  (forall v, v ∈ adj.*1 <-> exists i, located s v P i) /\
  forall v i, located s v P i -> exists b, base_of (database s) v = Some b /\
    base_list adj (index s) (giant_db (database s)) v = Some b.
Proof.
  destruct Hcur as (v0 & i0 & Hl0). destruct (sc_slot _ _ Hc v0 P i0 Hl0) as (n0 & ns0 & _ & adj & (Hok & p & Hp & Hh) & _).
  exists p, adj. split; [done|]. split; [done|]. split; [done|].
  assert (Hin : forall v i, located s v P i -> exists n ns, i = Z.of_nat n /\ adj !! n = Some (v, ns)).
  { intros v i Hl. destruct (sc_slot _ _ Hc v P i Hl) as (n & ns & -> & adj' & (_ & p' & Hp' & Hh') & Hn).
    rewrite Hp in Hp'. injection Hp' as <-.
    destruct (same_page_vertex p adj adj' n v ns (proj1 Hh) (proj1 Hh') Hn) as [ms Hms]. eauto. }
  split.
  - intros v. split.
    + intros Hv. apply list_elem_of_fmap in Hv as ([w ns] & -> & Hw). apply list_elem_of_lookup in Hw as [n Hn].
      destruct (sc_owner _ _ Hc P n w ns) as [Hl|[_ Hm]]; [by left|done|exists adj; split; [split; [done|by exists p]|done]|eauto|].
      by apply moving_to_target in Hm.
    + intros [i Hl]. destruct (Hin v i Hl) as (n & ns & _ & Hn). apply list_elem_of_lookup_2, (list_elem_of_fmap_2 fst) in Hn. done.
  - intros v i Hl. destruct (i_vertex _ (sc_db _ _ Hc) v (proj1 Hl)) as (b & _ & _ & Hb & _).
    exists b. split; [done|]. destruct (Hin v i Hl) as (n & ns & -> & Hn). unfold base_of in Hb. rewrite (proj2 Hl) in Hb.
    destruct (item_of (database s) v) as [item|] eqn:Ei; [|done]. cbn in Hb. rewrite Hp in Hb. cbn in Hb.
    unfold base_list. rewrite (proj1 (elem_of_list_to_map (M := gmap Z) adj v ns (proj1 (proj2 Hh))))
      by by eapply list_elem_of_lookup_2. cbn. rewrite (giant_type v item Ei).
    destruct (is_giant item); [done|]. rewrite <- Hb. unfold visible. by rewrite (proj2 (proj2 (proj2 (proj1 Hh)) n _ Hn)).
Qed.

Lemma merge_run salt deltas : entry_recs (pmap s) P deltas ->
  exists p merged gs, csr_pages (database s) !! P = Some p /\
    build_merged_graph salt p deltas (index s) (giant_db (database s)) = Some (merged, gs) /\
    (forall w, g_stored gs w = g_stored (giant_db (database s)) w) /\ merges s P merged /\
    (forall v ns b, merged !! v = Some ns -> base_of (database s) v = Some b ->
       (list_to_set ns : gset Z) = ops_set (list_to_set b) (reverse (of_vertex v deltas))) /\
    (forall v ns, merged !! v = Some ns -> Forall (in_width 32) ns).
Proof.
  intros Hrecs. destruct page_vertices as (p & adj & Hp & Hok & Hh & Hadj & Hbase).
  destruct (merged_spec salt p adj deltas (index s) (giant_db (database s)) Hh) as (m & gs & Hb & Hst & Hm).
  { intros v Hv Hg. apply Hadj in Hv as [i Hl]. destruct (Hbase v i Hl) as (b & _ & Hbl). unfold base_list in Hbl.
    destruct (list_to_map adj !! v); [|done]. cbn in Hbl. rewrite Hg in Hbl. eauto. }
  exists p, m, gs. split; [done|]. split; [done|]. split; [done|].
  assert (Hown : forall r, r ∈ deltas -> exists i, located s (first r) P i).
  { intros r Hr. pose proof (sc_records _ _ Hc P deltas Hrecs) as Hall. rewrite Forall_forall in Hall.
    destruct (Hall r Hr) as (Hk & Hhm & _). destruct (core_located s pend Hc (first r) Hk) as (Q & i & Hl).
    destruct (moving_dec pend (first r)) as [(x & Hx & [pv Hpv])|Hnm].
    - exfalso. apply Htgt. rewrite (moving_home s pend Hc _ x pv Hx Hpv) in Hhm. injection Hhm as <-.
      apply (moving_to_target (first r) _ (pv_second pv)). by exists x, pv.
    - rewrite (settled_home s pend Hc _ Q i Hl Hnm) in Hhm. injection Hhm as <-. eauto. }
  assert (Hdom : forall v, is_Some (m !! v) <-> exists i, located s v P i).
  { intros v. rewrite Hm. split.
    - intros Hv. destruct (base_list adj (index s) (giant_db (database s)) v) as [b|] eqn:E.
      + apply Hadj. unfold base_list in E. destruct (list_to_map adj !! v) as [ns|] eqn:Ea; [|done].
        apply elem_of_list_to_map_2 in Ea. by apply (list_elem_of_fmap_2 fst) in Ea.
      + destruct (of_vertex v deltas) as [|r l] eqn:Eo; [by destruct Hv|].
        assert (Hr : r ∈ of_vertex v deltas) by (rewrite Eo; left). unfold of_vertex in Hr.
        apply list_elem_of_filter in Hr as [<- Hr]. by apply Hown.
    - intros [i Hl]. destruct (Hbase v i Hl) as (b & _ & ->). destruct (merge_one_some (of_vertex v deltas) (Some b)) as [l ->]; eauto. }
  assert (Hset : forall v ns b, m !! v = Some ns -> base_of (database s) v = Some b ->
    (list_to_set ns : gset Z) = ops_set (list_to_set b) (reverse (of_vertex v deltas))).
  { intros v ns b Hv Hb'. destruct (proj1 (Hdom v)) as [i Hl]; [eauto|]. destruct (Hbase v i Hl) as (b2 & Hb2 & Hbl).
    rewrite Hb' in Hb2. injection Hb2 as <-. rewrite Hm, Hbl in Hv.
    destruct (foldl merge_one (Some b) (of_vertex v deltas)) as [l|] eqn:E; [|done]. cbn in Hv. injection Hv as <-.
    rewrite sort_unique_set. pose proof (merge_one_set (of_vertex v deltas) (Some b)) as Hs. by rewrite E in Hs. }
  split; [|split; [done|]].
  - split; [done|]. intros v ns Hv. split.
    + rewrite Hm in Hv. destruct (foldl _ _ _); [|done]. injection Hv as <-. apply sort_unique_sorted.
    + intros X (b & h & rs & Hb' & Hhd & Hch & ->). rewrite (Hset v ns b Hv Hb').
      destruct (proj1 (Hdom v)) as [i Hl]; [eauto|].
      destruct (here_chain s pend P deltas Hc Hold Hrecs v i Hl) as (rs' & Hch' & Ho).
      rewrite (chain_of_fun s v rs rs') by (done || by exists h). symmetry. by apply ops_set_ops.
  - intros v ns Hv. destruct (proj1 (Hdom v)) as [i Hl]; [eauto|]. destruct (Hbase v i Hl) as (b & Hb' & Hbl).
    apply Forall_forall. intros x Hx. assert (Hx' : x ∈ (list_to_set ns : gset Z)) by by apply elem_of_list_to_set.
    rewrite (Hset v ns b Hv Hb') in Hx'. apply elem_ops_set in Hx' as [Hx'|(r & Hr & <-)].
    + apply elem_of_list_to_set in Hx'. unfold base_list in Hbl. destruct (list_to_map adj !! v) as [ns0|] eqn:Ea; [|done].
      cbn in Hbl. destruct (is_giant_vertex (index s) (Z.to_nat v)) eqn:Eg.
      * pose proof (sc_giants _ _ Hc v b (proj1 Hl) Eg Hbl) as Hw. rewrite Forall_forall in Hw. auto.
      * injection Hbl as <-. unfold visible in Hx'. destruct (is_giant_list ns0); [by apply elem_of_nil in Hx'|].
        apply elem_of_list_to_map_2 in Ea. unfold adj_ok in Hok. rewrite Forall_forall in Hok.
        destruct (Hok _ Ea) as [_ Hw]. rewrite Hcompress, Forall_forall in Hw. by apply Hw.
    + pose proof (sc_records _ _ Hc P deltas Hrecs) as Hall. rewrite Forall_forall in Hall. apply Hall.
      rewrite elem_of_reverse in Hr. by apply list_elem_of_filter in Hr as [_ ?].
Qed.

End Page.

Lemma from_opt_bind {X B} (x : X) (f : X -> stm smo_st B) s : (from_opt (Some x) ≫= f) s = f x s.
Proof. done. Qed.

Lemma room_plus (a : A) n k : csr_room a (n + k) -> csr_room a k.
Proof. induction n as [|n IH]; [done|]. intros Hr. apply IH. by apply room_mono. Qed.

(** The merged lists can be placed. *)
Lemma merges_placeable (s : smo_st) pend P merged : smo_core s pend -> merges s P merged ->
  (forall v ns, merged !! v = Some ns -> Forall (in_width 32) ns) ->
  (forall v ns, merged !! v = Some ns -> Z.of_nat (length ns) < 2 ^ 31) -> placeable s (map_to_list merged).
Proof.
  intros Hc [Hdom _] Hw Hl.
  assert (Hall : Forall (fun q => known s q.1 /\ Forall (in_width 32) q.2 /\ Z.of_nat (length q.2) < 2 ^ 31) (map_to_list merged)).
  { apply Forall_forall. intros [v ns] Hv. apply elem_of_map_to_list in Hv. cbn. split; [|eauto].
    destruct (proj1 (Hdom v)) as [i [Hk _]]; eauto. }
  split; (eapply Forall_impl; [exact Hall|]); cbn; intros [v ns] (Hk & Hn & ?); [|by split].
  split; [|by rewrite Hcompress]. pose proof (sc_count _ _ Hc). unfold known, vertex_count, in_width in *. cbn in *. lia.
Qed.

Lemma build_run salt (s : smo_st) merged ps k :
  merged <> ∅ -> gc_inv (GC (index s) [] ps) -> csr_alloc_ok (csr_disk (database s)) (dom (csr_pages (database s))) ->
  placeable s (map_to_list merged) -> Z.of_nat (length (items (index s))) < 2 ^ 32 -> fits (database s) k merged ->
  exists locs groups pg dk vi', (if Z.of_nat PAGE_SIZE <? estimate_page_bytes merged then do_split salt merged else do_no_split salt merged) s =
      (Ok (locs, groups.*1), with_pages s pg dk vi') /\
    building s (with_pages s pg dk vi') locs groups ps /\ mjoin groups.*2 ≡ₚ map_to_list merged /\ csr_room dk k.
Proof.
  intros Hne Hgc Hal Hpl Hcount (_ & Hroom & Hfit).
  assert (Hex : exists locs nos s', (if Z.of_nat PAGE_SIZE <? estimate_page_bytes merged then do_split salt merged
      else do_no_split salt merged) s = (Ok (locs, nos), s') /\ replaced s s' merged locs nos ps /\
      csr_room (csr_disk (database s')) k).
  { destruct (_ <? _).
    - by apply (do_split_spec Hcompress Hpage Hbound s merged ps Hpl Hfit salt k).
    - apply (do_no_split_spec Hpage Hbound salt merged s ps k); auto.
      + replace (size merged + S k)%nat with (size merged + 1 + k)%nat in Hroom by lia.
        assert (Hsz : (0 < size merged)%nat).
        { destruct (decide (size merged = 0%nat)) as [E|]; [by apply map_size_empty_iff in E|lia]. }
        apply (room_plus _ (size merged)). by replace (size merged + S k)%nat with (size merged + 1 + k)%nat by lia.
      + by rewrite (lists_bytes_perm _ _ _ (map_order_list _ salt merged)). }
  destruct Hex as (locs & nos & s' & E & (groups & Hbg & Hg & ->) & Hr).
  destruct (bg_state _ _ _ _ _ Hbg) as (pg & dk & vi' & ->). exists locs, groups, pg, dk, vi'. done.
Qed.

(** ** Up to the switch *)

(** What a task may change besides the database. *)
Definition same_rest (s s' : smo_st) : Prop :=
  smo_queue (database s') = smo_queue (database s) /\ reclaim_batches s' = reclaim_batches s /\
  pending_version_switches_ s' = pending_version_switches_ s /\ manual_version_switch_ s' = manual_version_switch_ s /\
  allocator (pmap s') = allocator (pmap s).

(** When a task returns early. *)
Definition idle (s : smo_st) (P thr : Z) : Prop :=
  smo_enabled (database s) = false \/
  get_delta_chain_length (pmap s) P < (if thr =? 0 then MAX_DELTA_CHAIN_LENGTH else thr) \/
  entry_recs (pmap s) P [].

Lemma prepare_run salt P thr (s : smo_st) pend k :
  smo_inv s pend -> current s P -> P ∉ old_page_no <$> pend -> P ∉ (smo_queue (database s)).*1 ->
  (forall merged, merges s P merged -> fits (database s) k merged) ->
  exists o s', consolidate_prepare salt P thr s = (Ok o, s') /\ smo_inv s' (pend ++ option_list o) /\
    (forall q, o = Some q -> old_page_no q = P /\ new_locations q <> ∅) /\ (o = None -> idle s P thr) /\
    same_sets (database s) (database s') /\ vertex_count (database s') = vertex_count (database s) /\
    (same_rest s s' /\ calm s s') /\ csr_room (csr_disk (database s')) k.
Proof.
  intros [Hc Htg] Hcur Hold Hqueue Hfits. pose proof (i_pm _ (sc_db _ _ Hc)) as Hwf.
  assert (Htgt : ~ target_page pend P) by (intros Ht; by apply (Htg P Ht)).
  destruct (wf_entry_recs (pmap s) P Hwf) as [deltas Hrecs].
  destruct (merge_run s pend P Hc Hcur Hold Htgt salt deltas Hrecs) as (p & merged & gs & Hp & Hb & Hgs & Hmg & Hset & Hw).
  pose proof (Hfits merged Hmg) as Hfit.
  assert (Hroom : csr_room (csr_disk (database s)) k).
  { apply (room_plus _ (S (size merged))). destruct Hfit as (_ & Hr & _).
    by replace (S (size merged) + k)%nat with (size merged + S k)%nat by lia. }
  assert (Hnothing : idle s P thr -> forall s1, smo_inv s1 pend -> same_sets (database s) (database s1) ->
    vertex_count (database s1) = vertex_count (database s) -> same_rest s s1 /\ calm s s1 -> csr_room (csr_disk (database s1)) k ->
    exists o s', (Ok None, s1) = (Ok o, s') /\ smo_inv s' (pend ++ option_list o) /\ (forall q, o = Some q -> old_page_no q = P /\ new_locations q <> ∅) /\
    (o = None -> idle s P thr) /\
    same_sets (database s) (database s') /\ vertex_count (database s') = vertex_count (database s) /\
    (same_rest s s' /\ calm s s') /\ csr_room (csr_disk (database s')) k).
  { intros Hid s1 ? ? ? ? ?. exists None, s1. split; [done|]. cbn. rewrite app_nil_r. split; [done|]. split; [done|done]. }
  assert (Hself : idle s P thr -> exists o s', (Ok None, s) = (Ok o, s') /\ smo_inv s' (pend ++ option_list o) /\ (forall q, o = Some q -> old_page_no q = P /\ new_locations q <> ∅) /\
    (o = None -> idle s P thr) /\
    same_sets (database s) (database s') /\ vertex_count (database s') = vertex_count (database s) /\
    (same_rest s s' /\ calm s s') /\ csr_room (csr_disk (database s')) k).
  { intros Hid. apply (Hnothing Hid); [by split|apply same_sets_refl|done|by split|done]. }
  unfold consolidate_prepare. rewrite get_db_bind. destruct (smo_enabled (database s)) eqn:Een; [|apply Hself; by left]. cbn [negb].
  destruct (Z.ltb_spec (get_delta_chain_length (pmap s) P) (if thr =? 0 then MAX_DELTA_CHAIN_LENGTH else thr));
    [apply Hself; right; by left|].
  clear Hself. destruct (fetch_run s P deltas Hwf Hrecs) as (m1 & E1 & Hd1). rewrite (stm_bind_Ok _ _ _ _ _ E1).
  destruct (bool_decide_reflect (deltas = [])) as [->|Hne].
  { pose proof (detached_quiet (smo_queue (database s)) _ _ P Hrecs Hd1) as Hqm. apply Hnothing; [by right; right|..].
    - apply upd_map_inv; [done|by split].
    - apply quiet_map_sets; [apply Hc|done].
    - done.
    - split; [repeat split; apply Hd1|]. constructor; try done. apply Hd1.
    - done. }
  rewrite Hp, from_opt_bind, Hb, from_opt_bind.
  set (sb := upd_db (fun d => set_giants d gs) (upd_map (fun _ => m1) s)).
  assert (Hmne : merged <> ∅).
  { intros ->. destruct Hcur as (v & i & Hl). destruct (proj2 (proj1 Hmg v)) as [ns Hns]; [eauto|]. done. }
  assert (Hstor : forall v ns, merged !! v = Some ns -> 0 <= v /\ g_storable ns).
  { intros v ns Hv. destruct Hfit as (Hf & _). split; [|by apply (Hf v)].
    destruct (proj1 (proj1 Hmg v)) as [i [Hk _]]; [eauto|]. apply Hk. }
  destruct (promote_run (map_order salt merged) sb ∅) as (gs' & E2 & Hg1 & Hg2).
  { rewrite map_order_list. apply NoDup_fst_map_to_list. }
  { rewrite map_order_list. apply Forall_forall. intros [v ns] Hv. apply elem_of_map_to_list in Hv. by apply Hstor. }
  set (giants := ∅ ∪ _) in E2. change (index sb) with (index s) in *.
  assert (Hin : forall v ns, (v, ns) ∈ map_order salt merged <-> merged !! v = Some ns).
  { intros v ns. by rewrite map_order_list, elem_of_map_to_list. }
  assert (Hgi : forall v, v ∈ giants <-> exists ns, merged !! v = Some ns /\ promoted (index s) (v, ns) = true).
  { intros v. unfold giants. rewrite union_empty_l_L, elem_of_list_to_set, list_elem_of_fmap. split.
    - intros ([w ns] & -> & Hf). apply list_elem_of_filter in Hf as [Hf Hv]. apply Hin in Hv. eauto.
    - intros (ns & Hv & Hf). exists (v, ns). split; [done|]. apply list_elem_of_filter. split; [done|]. by apply Hin. }
  set (sc := upd_db (fun d => set_giants (set_page_map d m1) gs') s).
  change (upd_db (fun d => set_giants d gs') sb) with sc in E2.
  destruct (build_run salt sc merged (all_prepared pend) k Hmne) as (locs & groups & pg & dk & vi' & E3 & Hbg & Hgr & Hdk).
  { exact (sc_gc _ _ Hc). }
  { exact (sc_alloc _ _ Hc). }
  { apply (merges_placeable s pend P merged Hc Hmg Hw). intros v ns Hv. destruct Hfit as (Hf & _). by apply (Hf v). }
  { exact (sc_count _ _ Hc). }
  { exact Hfit. }
  set (sd := with_pages sc pg dk vi') in *.
  destruct (install_run sd P locs) as (fid & m2 & E4 & Hm2); [apply Hd1|apply Hd1|].
  set (se := upd_map (fun _ => m2) sd) in *. destruct (fetch_run se P []) as (m3 & E5 & Hd3); [apply Hm2|apply Hm2|].
  pose proof (detached_moved _ _ _ _ _ _ _ Hd1 Hm2 Hd3) as Hmoved.
  set (ns := Z.of_nat PAGE_SIZE <? estimate_page_bytes merged) in *.
  exists (Some (Pending locs fid giants P ns groups.*1)), (upd_map (fun _ => m3) sd). split.
  { change (upd_map (fun _ => m3) sd) with (upd_map (fun _ => m3) se).
    rewrite stm_modify. fold sb. rewrite bool_decide_false by done. rewrite (stm_bind_Ok _ _ _ _ _ E2). fold ns.
    rewrite (stm_bind_Ok _ _ _ _ _ E3). rewrite (stm_bind_Ok _ _ _ _ _ E4), (stm_bind_Ok _ _ _ _ _ E5). done. }
  assert (Hst1 : forall v, 0 <= v -> v ∉ giants -> g_stored gs' v = g_stored (giant_db (database s)) v).
  { intros v Hv Hn. rewrite Hg1, <- Hgs; [done|done|]. intros l Hl. apply Hin in Hl. apply not_true_is_false. intros Hpr.
    apply Hn, Hgi. eauto. }
  assert (Hst2 : forall v, v ∈ giants -> exists l b', merged !! v = Some l /\ g_stored gs' v = Some b' /\ b' ≡ₚ l).
  { intros v Hv. apply Hgi in Hv as (l & Hl & Hpr). destruct (Hg2 v l) as (b' & ? & ?); [by apply Hin|done|]. eauto. }
  assert (Hlne : locs <> ∅).
  { intros El. destruct Hcur as (v & i & Hl). destruct (proj2 (locs_dom s pend P merged gs' m1 locs groups pg dk vi' (proj1 Hmg) Hbg Hgr v)) as [pv Hpv]; [eauto|]. by rewrite El in Hpv. }
  cbn [option_list]. split; [|split; [by intros ? [= <-]|split; [done|split; [|split; [|split]]]]].
  - split.
    + by apply (moved_core s pend P deltas merged gs' giants m1 m3 locs groups fid ns pg dk vi'); try done; apply Hmg.
    + intros N HN Hcn. apply (proj1 (mv_current s pend gs' m1 m3 locs groups pg dk vi' Hc Hbg N)) in Hcn.
      apply (mv_target pend P giants locs groups fid ns) in HN as [HN|HN]; [by apply (Htg N)|]. destruct Hcn as (v & i & Hl).
      apply (new_fresh s pend gs' m1 locs groups pg dk vi' Hbg N HN). by apply (located_page s pend Hc v N i).
  - intros v X Hv. apply (mv_neighbors s pend P deltas merged gs' giants m1 m3 locs groups fid pg dk vi'); try done.
    by apply Hmg.
  - pose proof (gr_items _ _ (bg_index _ _ _ _ _ Hbg)) as Hit. unfold vertex_count. cbn in Hit |- *. by rewrite Hit.
  - split; [repeat split; apply Hmoved|]. constructor; try done; [| |apply Hmoved].
    + apply (gr_retired _ _ (bg_index _ _ _ _ _ Hbg)).
    + apply (gr_hazptr _ _ (bg_index _ _ _ _ _ Hbg)).
  - exact Hdk.
Qed.

End Run.
End Run.
