(* ===== verification/SmoSteps.v ===== *)
(** * The database as a transition system

    Edge updates, reads, consolidation tasks, the publication of pending
    switches and the reclamation of replaced versions, in any order.  A state
    is consistent when it satisfies the invariant for the switches that are
    pending; every step keeps a state consistent and has on the neighbour sets
    the effect of its label, nothing else. *)

From S2P Require Import Prelude Config DeltaPage VertexIndex PageMap CsrPage Db EdgeOps Chains Reorder Builder.
From S2P Require Import Smo SmoMerge SmoBuild SmoInv SmoEdges SmoPublish SmoSwitch SmoConsolidate SmoRun.

Local Open Scope Z_scope.

Module Steps.
Import Delta VIndex PMap Csr DB EdgeOps Chains Builder Smo Merge Build Inv Edges Publish Switch Consolidate Run.

Section Steps.
Context {A G SK : Type} `{cfg : Config} `{!PageAllocator A (Z.of_nat DELTA_PAGE_SIZE)}
  `{!PageAllocator A (Z.of_nat PAGE_SIZE)} `{!GiantStore G} `{!UpdateSketch SK} `{!SetOrder} `{!MapOrder}.

Abbreviation db := (bw_graph_db_t (A := A) (G := G) (SK := SK)).
Abbreviation smo_st := (smo_t (A := A) (G := G) (SK := SK)).
Abbreviation index s := (vertex_index (database s)).
Abbreviation pmap s := (page_map_table (database s)).
Abbreviation csr_room := (room (page_bytes := Z.of_nat PAGE_SIZE)).
Abbreviation csr_alloc_ok := (alloc_ok (page_bytes := Z.of_nat PAGE_SIZE)).
Abbreviation delta_room := (room (page_bytes := Z.of_nat DELTA_PAGE_SIZE)).
Abbreviation with_db s d := (upd_db (fun _ => d) s).

Hypothesis Hsize : page_size_ok.
Hypothesis Hstore : forall g v ns, 0 <= v -> g_storable ns -> (g_insert_vertex g v ns).1 = true.
Hypothesis Hcompress : NEIGHBOR_COMPRESS = false.
Hypothesis Hpage : Z.of_nat PAGE_SIZE <= 2 ^ 16.
Hypothesis Hbound : 0 <= GIANT_DEGREE_BOUND.

(** ** Consolidation tasks *)

Lemma end_consolidation_quiet (q : list (Z * Z)) (m : page_map_t (A := A)) P :
  pm_wf m -> P ∉ q.*1 -> quiet_map q m (end_consolidation_for m P).
Proof.
  intros Hwf HP. assert (Hin : forall k, inner (end_consolidation_for m P) !! k =
    if decide (k = P) then (fun e => set_consolidating e false) <$> inner m !! k else inner m !! k).
  { intros k. unfold end_consolidation_for. destruct (inner m !! P) as [e|] eqn:E.
    - cbn. rewrite lookup_insert. repeat case_decide; subst; by rewrite ?E.
    - case_decide; [subst; by rewrite E|done]. }
  assert (Hs : pages (end_consolidation_for m P) = pages m /\ allocator (end_consolidation_for m P) = allocator m /\
    forwarders (end_consolidation_for m P) = forwarders m) by (unfold end_consolidation_for; by destruct (inner m !! P)).
  destruct Hs as (E1 & E2 & E3).
  assert (Hent : forall k e, inner (end_consolidation_for m P) !! k = Some e -> exists e0, inner m !! k = Some e0 /\
    delta_page e0 = delta_page e /\ delta_page_count e0 = delta_page_count e).
  { intros k e. rewrite Hin. case_decide; [|eauto]. destruct (inner m !! k) as [e0|]; [|done]. intros [= <-]. by exists e0. }
  constructor; try done.
  - destruct Hwf as [W1 W2 W3 W4 W5]. constructor; rewrite ?E1, ?E2; try done.
    + intros k e Hk. destruct (Hent k e Hk) as (e0 & H' & <- & <-). eauto.
    + intros k1 k2 e1 e2 lst1 lst2 Hne H1 H2. destruct (Hent k1 e1 H1) as (? & ? & <- & _).
      destruct (Hent k2 e2 H2) as (? & ? & <- & _). eauto.
  - by rewrite E1.
  - intros k. unfold acquire_forwarder_for. rewrite Hin. case_decide; [|done]. by destruct (inner m !! k).
  - intros k Hk. unfold claimed. rewrite Hin. case_decide; [congruence|done].
  - intros k rs. unfold entry_recs. rewrite Hin, E1. case_decide; [|done]. by destruct (inner m !! k).
Qed.

Lemma queue_core (s : smo_st) pend q :
  smo_core s pend -> NoDup q.*1 -> (forall P, P ∈ q.*1 -> P ∈ (smo_queue (database s)).*1) ->
  smo_core (upd_db (fun d => set_queue d q) s) pend.
Proof.
  intros Hc Hnd Hsub. pose proof Hc as [C1 C2 C3 C4 C5 C6 C7 C8 C9 C10 C11 C12 C13 C14 C15 C16 C17].
  constructor; try done.
  - apply (quiet_step (database s)); [done|done|done|apply C1|apply C1|done].
  - intros x Hx. by apply (in_flight_mono s); auto.
  - destruct C16 as [_ Q2]. split; [exact Hnd|]. intros P HP. apply Q2, Hsub, HP.
Qed.

(** Only the database and the batches matter. *)
Lemma rest_core (s s' : smo_st) pend :
  database s' = database s -> reclaim_batches s' = reclaim_batches s -> smo_core s pend -> smo_core s' pend.
Proof.
  intros Ed Eb [C1 C2 C3 C4 C5 C6 C7 C8 C9 C10 C11 C12 C13 C14 C15 C16 C17]. destruct s, s'. cbn in Ed, Eb. subst.
  constructor; try done. intros q Hq. specialize (C11 q Hq). by eapply in_flight_mono; [..|exact C11].
Qed.

Lemma end_claimed (m : page_map_t (A := A)) P : claimed (end_consolidation_for m P) P = false.
Proof.
  unfold claimed, end_consolidation_for. destruct (inner m !! P) eqn:E; [|by rewrite E]. cbn. by rewrite lookup_insert_eq.
Qed.

(** The order of the switches in flight does not matter. *)
Lemma smo_inv_perm (s : smo_st) pend pend' : pend ≡ₚ pend' -> smo_inv s pend -> smo_inv s pend'.
Proof.
  intros Hp [Hc Ht].
  assert (Hin : forall q, q ∈ pend' <-> q ∈ pend) by (intros q; by rewrite Hp).
  assert (Hmt : forall v P i, moving_to pend' v P i <-> moving_to pend v P i) by (intros v P i; unfold moving_to; by setoid_rewrite Hin).
  assert (Htp : forall P, target_page pend' P <-> target_page pend P) by (intros P; unfold target_page; by setoid_rewrite Hin).
  assert (Hmv : forall v, moving pend' v <-> moving pend v) by (intros v; unfold moving; by setoid_rewrite Hin).
  assert (Hold : forall P, P ∈ old_page_no <$> pend' <-> P ∈ old_page_no <$> pend) by (intros P; by rewrite Hp).
  split; [|intros P; rewrite Htp; apply Ht].
  pose proof Hc as [C1 C2 C3 C4 C5 C6 C7 C8 C9 C10 C11 C12 C13 C14 C15 C16 C17]. constructor; try done.
  - apply (gc_inv_perm _ _ (all_prepared pend)); [|done]. unfold all_prepared. by rewrite Hp.
  - intros P n v ns. rewrite Htp, Hold, Hmt. apply C8.
  - intros v Hv Hm. apply C10; [done|]. by rewrite <- Hmv.
  - intros q Hq. apply C11. by apply Hin.
  - intros k fid Hk. destruct (C12 k fid Hk) as (q & Hq & ?). exists q. by rewrite Hin.
  - destruct C13 as (D1 & D2 & D3). split; [by rewrite <- Hp|]. split; [by rewrite <- Hp|]. by rewrite <- Hp.
  - intros q Hq. rewrite Htp. apply C14. by apply Hin.
  - destruct C15 as [B1 B2]. split; [done|]. intros P HP. rewrite Htp, Hold. by apply B2.
  - destruct C16 as [Q1 Q2]. split; [done|]. intros P HP. rewrite Hold. by apply Q2.
  - intros P. rewrite Htp, Hold. apply C17.
Qed.

(** The invariant between steps, while tasks that have prepared the switches
    [run] are under way. *)
Record consistent_with (s : smo_st) (run : list pending_version_switch_t) : Prop := {
  cw_inv : smo_inv s (pending_version_switches_ s ++ run);
  cw_moves : Forall (fun q => new_locations q <> ∅) (pending_version_switches_ s ++ run);
  cw_tracked : tracked s
}.

Definition consistent (s : smo_st) : Prop := consistent_with s [].

Definition room_for (s : smo_st) (P : Z) : Prop := forall merged, merges s P merged -> fits (database s) 0 merged.

(** The release of a claim at the end of a task. *)
Lemma release_run (s : smo_st) run P : consistent_with s run -> P ∉ (smo_queue (database s)).*1 ->
  let s' := upd_map (fun m => end_consolidation_for m P) s in
  consistent_with s' run /\ same_sets (database s) (database s') /\ claimed (pmap s') P = false /\ calm s s'.
Proof.
  intros [Hi Hm Ht] HP s'.
  pose proof (end_consolidation_quiet (smo_queue (database s)) (pmap s) P (i_pm _ (sc_db _ _ (proj1 Hi))) HP) as Hq.
  assert (Hcalm : calm s s') by (constructor; [done..|apply (qm_ext _ _ _ Hq)]).
  split; [|split; [|split; [apply end_claimed|done]]].
  - constructor; [by apply (upd_map_inv s)|done|by apply (calm_tracked s)].
  - apply (quiet_map_sets s); [apply Hi|done].
Qed.

(** *** The first half *)

Lemma begin_task_run salt n P thr (s : smo_st) run :
  consistent_with s run -> smo_queue (database s) !! n = Some (P, thr) -> room_for s P ->
  exists o s', begin_task salt n s = (Ok o, s') /\ consistent_with s' (run ++ option_list o) /\
    same_sets (database s) (database s') /\ vertex_count (database s') = vertex_count (database s) /\ calm s s' /\
    manual_version_switch_ s' = manual_version_switch_ s /\ (forall q, o = Some q -> old_page_no q = P) /\
    (o = None -> claimed (pmap s') P = false /\ idle s P thr).
Proof.
  intros [[Hc Ht] Hmv Htr] Hn Hfit. set (pend := pending_version_switches_ s ++ run) in *. destruct (sc_queue _ _ Hc) as [Hnd Hq].
  pose proof (list_elem_of_lookup_2 _ _ _ Hn) as Hin. apply (list_elem_of_fmap_2 fst) in Hin. cbn in Hin.
  destruct (Hq P Hin) as (Hcur & Hold & _). set (q := list_delete n (smo_queue (database s))).
  assert (Hsplit : smo_queue (database s) ≡ₚ (P, thr) :: q) by by apply delete_Permutation.
  assert (Hnd' : NoDup (P :: q.*1)) by (rewrite Hsplit in Hnd; exact Hnd).
  apply NoDup_cons in Hnd' as [HP Hnd'].
  set (s1 := upd_db (fun d => set_queue d q) s).
  assert (Hc1 : smo_core s1 pend).
  { apply queue_core; [done|done|]. intros Q HQ. rewrite Hsplit. by right. }
  destruct (prepare_run Hsize Hstore Hcompress Hpage Hbound salt P thr s1 pend 0 (conj Hc1 Ht) Hcur Hold HP Hfit)
    as (o & s2 & E2 & Hi2 & Ho & Hidle & Hs2 & Hn2 & ((Hq2 & _ & Hp2 & Hm2 & _) & Hk2) & _).
  assert (Hc2 : consistent_with s2 (run ++ option_list o)).
  { constructor; [by rewrite Hp2, app_assoc|rewrite Hp2, app_assoc|].
    - apply Forall_app. split; [exact Hmv|]. destruct o as [x|]; [|constructor]. by apply Forall_singleton, Ho.
    - by apply (calm_tracked s1). }
  assert (Hks : calm s s2) by (destruct Hk2; by constructor).
  assert (E : begin_task salt n s = end_idle P (consolidate_prepare salt P thr) s1).
  { unfold begin_task. by rewrite get_db_bind, Hn. }
  rewrite E. unfold end_idle. rewrite E2. destruct o as [x|]; cbn [option_list].
  - exists (Some x), s2. split; [done|]. split; [exact Hc2|]. split; [exact Hs2|]. split; [exact Hn2|].
    split; [exact Hks|]. split; [exact Hm2|]. split; [by intros ? [= <-]; apply Ho|done].
  - rewrite app_nil_r in Hc2. destruct (release_run s2 run P Hc2) as (H1 & H2 & H3 & H4); [by rewrite Hq2|].
    eexists None, _. split; [done|]. cbn [option_list]. rewrite app_nil_r. split; [exact H1|].
    split; [eapply same_sets_trans; [|exact Hs2|exact H2]; exact Hn2|]. split; [exact Hn2|].
    split; [exact (transitivity Hks H4)|]. split; [exact Hm2|]. split; [done|].
    intros _. split; [exact H3|]. exact (Hidle eq_refl).
Qed.

(** *** The second half *)

Lemma end_task_run salt q (s : smo_st) l1 l2 : consistent_with s (l1 ++ q :: l2) ->
  exists s', end_task salt q s = (Ok tt, s') /\ consistent_with s' (l1 ++ l2) /\
    same_sets (database s) (database s') /\ vertex_count (database s') = vertex_count (database s) /\
    claimed (pmap s') (old_page_no q) = false /\
    (manual_version_switch_ s = false -> old_page_no q ∈ (reclaim_batches s').*2) /\
    forall w h rs, manual_version_switch_ s = true \/ new_locations q !! w = None -> Forall (fun r => first r = w) rs ->
      chain_at (pages (pmap s)) h rs -> chain_at (pages (pmap s')) h rs.
Proof.
  intros [Hi Hmv Htr]. set (P := old_page_no q).
  assert (HP : P ∉ (smo_queue (database s)).*1).
  { intros HP. destruct (sc_queue _ _ (proj1 Hi)) as [_ Hq]. destruct (Hq P HP) as (_ & Hold & _). apply Hold.
    apply (list_elem_of_fmap_2 old_page_no). set_solver. }
  unfold end_task, finally. rewrite stm_get. destruct (manual_version_switch_ s) eqn:Em.
  - set (s1 := set_pending (pending_version_switches_ s ++ [q]) s).
    assert (Hp : pending_version_switches_ s ++ l1 ++ q :: l2 ≡ₚ pending_version_switches_ s1 ++ l1 ++ l2) by (cbn; solve_Permutation).
    assert (H1 : consistent_with s1 (l1 ++ l2)).
    { constructor; [|by rewrite <- Hp|done]. apply (smo_inv_perm s1 _ _ Hp). split; [|apply Hi]. by apply (rest_core s); [..|apply Hi]. }
    destruct (release_run s1 (l1 ++ l2) P H1 HP) as (H2 & H3 & H4 & H5).
    eexists. split; [reflexivity|]. split; [exact H2|]. split; [exact H3|]. split; [done|]. split; [exact H4|]. split; [done|].
    intros w h rs _ _ Hch. eapply chain_at_ext; [apply (cm_ext _ _ H5)|exact Hch].
  - rewrite app_assoc in Hi. destruct (publish_spec Hcompress salt s _ l2 q Hi)
      as (s2 & olds & E2 & Hi2 & Hs2 & Hn2 & Hb2 & (d2 & Hd2 & Hq2) & _ & _ & _ & vs & l & Hw & El & Hvs & Hl).
    assert (Hp2 : pending_version_switches_ s2 = pending_version_switches_ s) by by rewrite Hd2.
    assert (Hqd : smo_queue (database s2) = smo_queue (database s)) by by rewrite Hd2.
    rewrite E2. assert (H1 : consistent_with s2 (l1 ++ l2)).
    { constructor; [by rewrite Hp2, app_assoc|rewrite Hp2|].
      - rewrite !Forall_app, Forall_cons in Hmv. rewrite !Forall_app. tauto.
      - subst olds. apply (batch_tracked Hcompress s s2 vs l P Hw); [|done|done]. apply Hl.
        rewrite !Forall_app, Forall_cons in Hmv. apply Hmv. }
    destruct (release_run s2 (l1 ++ l2) P H1) as (H2 & H3 & H4 & H5); [by rewrite Hqd|].
    eexists. split; [reflexivity|]. split; [exact H2|]. split; [by eapply same_sets_trans; [|exact Hs2|exact H3]|].
    split; [exact Hn2|]. split; [exact H4|]. split.
    + intros _. cbn. rewrite Hb2, fmap_app. apply elem_of_app. right. by apply list_elem_of_singleton.
    + intros w h rs [?|Hno] Hf Hch; [done|]. eapply chain_at_ext; [apply (cm_ext _ _ H5)|].
      apply (ss_chain _ _ _ _ Hw w); [|done|done]. intros Hin. apply Hvs in Hin as [? Hin]. congruence.
Qed.

(** A task that runs as a whole. *)
Lemma run_task_halves salt n P thr (s s1 : smo_st) o : smo_queue (database s) !! n = Some (P, thr) ->
  begin_task salt n s = (Ok o, s1) -> (forall q, o = Some q -> old_page_no q = P) ->
  run_task salt n s = match o with Some q => end_task salt q s1 | None => (Ok tt, s1) end.
Proof.
  intros Hn E Ho. set (s0 := upd_db (fun d => set_queue d (list_delete n (smo_queue d))) s).
  assert (Eb : begin_task salt n s = end_idle P (consolidate_prepare salt P thr) s0) by (unfold begin_task; by rewrite get_db_bind, Hn).
  assert (Er : run_task salt n s = consolidate_pages salt P thr true s0) by (unfold run_task; by rewrite get_db_bind, Hn).
  rewrite Er. rewrite Eb in E. unfold end_idle in E. unfold consolidate_pages, finally.
  destruct (consolidate_prepare salt P thr s0) as [[[q|]|e] s2] eqn:Ep; [| |done]; injection E as <- <-.
  - rewrite (stm_bind_Ok _ _ _ _ _ Ep). unfold end_task, finally. by rewrite (Ho q eq_refl).
  - by rewrite (stm_bind_Ok _ _ _ _ _ Ep).
Qed.

Lemma run_task_run salt n P thr (s : smo_st) :
  consistent s -> smo_queue (database s) !! n = Some (P, thr) -> room_for s P ->
  exists s', run_task salt n s = (Ok tt, s') /\ consistent s' /\
    same_sets (database s) (database s') /\ claimed (pmap s') P = false /\
    (manual_version_switch_ s = false -> ~ idle s P thr -> P ∈ (reclaim_batches s').*2).
Proof.
  intros Hc Hn Hfit. destruct (begin_task_run salt n P thr s [] Hc Hn Hfit) as (o & s1 & E1 & Hc1 & Hs1 & Hn1 & _ & Hm1 & Ho & Hno).
  rewrite (run_task_halves salt n P thr s s1 o Hn E1 Ho). destruct o as [q|].
  - destruct (end_task_run salt q s1 [] [] Hc1) as (s2 & E2 & Hc2 & Hs2 & _ & Hcl & Hb & _). exists s2. rewrite (Ho q eq_refl) in Hcl, Hb.
    split; [done|]. split; [done|]. split; [by eapply same_sets_trans; [|exact Hs1|exact Hs2]|]. split; [done|]. rewrite Hm1 in Hb. auto.
  - destruct (Hno eq_refl) as [Hcl Hid]. exists s1. split; [done|]. split; [done|]. split; [done|]. split; [done|]. by intros _ [].
Qed.

(** ** Reclamation *)

(** The index loses versions nobody owns, or moves them between queues. *)
Lemma index_core (s : smo_st) pend vi' (gone : gset Z) :
  smo_core s pend -> items vi' = items (index s) -> delta_heads_ vi' = delta_heads_ (index s) ->
  next_version vi' = next_version (index s) -> gc_inv (GC vi' [] (all_prepared pend)) ->
  (forall id, id ∉ gone -> versions vi' !! id = versions (index s) !! id) ->
  (forall id, id ∈ curs (index s) ++ desireds (all_prepared pend) -> id ∉ gone) ->
  smo_core (upd_index (fun _ => vi') s) pend /\
  same_sets (database s) (database (upd_index (fun _ => vi') s)) /\
  forall v P i, located (upd_index (fun _ => vi') s) v P i <-> located s v P i.
Proof.
  intros Hc Ei Eh En Hgc Ev Hgone. set (s' := upd_index (fun _ => vi') s).
  assert (Hloc : forall v, location_of (database s') v = location_of (database s) v).
  { intros v. unfold location_of, get_vertex_location, protect_vertex_version. cbn. rewrite Ei.
    destruct (items (index s) !! Z.to_nat v) as [item|] eqn:Eit; [|done]. cbn.
    destruct (cur item) as [id|] eqn:Ec; [|done]. cbn. rewrite Ev; [done|]. apply Hgone, elem_of_app. left.
    unfold curs. apply list_elem_of_omap. exists item. split; [by eapply list_elem_of_lookup_2|done]. }
  assert (Hk : forall v, known s' v <-> known s v) by (intros v; unfold known; cbn; by rewrite Ei).
  assert (Hl : forall v P i, located s' v P i <-> located s v P i) by (intros v P i; unfold located; by rewrite Hk, Hloc).
  assert (Hit : forall v, item_of (database s') v = item_of (database s) v) by (intros v; unfold item_of; cbn; by rewrite Ei).
  assert (Hb : forall v, base_of (database s') v = base_of (database s) v) by (intros v; unfold base_of; by rewrite Hit, Hloc).
  assert (Hh : forall v, head_of (database s') v = head_of (database s) v) by (intros v; unfold head_of; cbn; by rewrite Eh).
  assert (Hhm : forall v, home (database s') v = home (database s) v) by (intros v; unfold home; by rewrite Hloc).
  assert (Hcu : forall P, current s' P <-> current s P) by (intros P; unfold current; by setoid_rewrite Hl).
  split; [|split; [|done]].
  2:{ intros v X _ (b & h & rs & ?). exists b, h, rs. by rewrite Hb, Hh. }
  pose proof Hc as [C1 C2 C3 C4 C5 C6 C7 C8 C9 C10 C11 C12 C13 C14 C15 C16 C17]. constructor; try done.
  - constructor; [apply C1|apply C1|unfold vertex_count; cbn; rewrite Ei; apply C1|].
    intros v Hv. change (known s' v) in Hv. rewrite Hk in Hv. destruct (i_vertex _ C1 v Hv) as (b & h & rs & ?).
    exists b, h, rs. by rewrite Hb, Hh.
  - unfold vertex_count; cbn. by rewrite Ei.
  - cbn. by rewrite Ei.
  - intros v b Hv Hg. rewrite Hk in Hv. unfold is_giant_vertex in Hg. cbn in Hg. rewrite Ei in Hg. by apply C4.
  - intros v P i Hv. apply Hl in Hv. by apply C7.
  - intros P n v ns HP Ho Hs. rewrite Hl, Hk. rewrite Hcu in HP. by apply (C8 P n v ns).
  - intros k recs Hr. eapply Forall_impl; [by apply (C9 k)|]. cbn. intros r (? & ? & ?). by rewrite Hk, Hhm.
  - intros v Hv Hm. rewrite Hk in Hv. destruct (C10 v Hv Hm) as (P & i & rs & recs & ? & (h & ? & ?) & ? & ?).
    exists P, i, rs, recs. rewrite Hl. split; [done|]. split; [|done]. exists h. by rewrite Hh.
  - intros q Hq. apply (in_flight_mono s); auto; [done|].
    intros v pv N j Hpv [R1 R2 (it & R3 & R4) (d0 & prev & R5 & R6 & R7)]. constructor; [done|done|..].
    + exists it. cbn. by rewrite Ei.
    + exists d0, prev. cbn. rewrite En, Ev; [done|]. apply Hgone, elem_of_app. right. unfold desireds.
      apply list_elem_of_omap. exists (Z.to_nat v, pv). split; [|done]. unfold all_prepared. apply list_elem_of_join.
      exists (prepared_of (new_locations q)). split; [|by apply list_elem_of_fmap; exists q].
      unfold prepared_of. apply list_elem_of_fmap. exists (v, pv). split; [done|]. by apply elem_of_map_to_list.
  - destruct C15 as [B1 B2]. split; [done|]. intros P HP. rewrite Hcu. by apply B2.
  - destruct C16 as [Q1 Q2]. split; [done|]. intros P HP. rewrite Hcu. by apply Q2.
Qed.

Lemma gc_pop_run (s : smo_st) run vi' : consistent_with s run -> version_gc_pop (index s) = Some vi' ->
  consistent_with (upd_index (fun _ => vi') s) run /\ same_sets (database s) (database (upd_index (fun _ => vi') s)).
Proof.
  intros [[Hc Ht] Hmv Htr] Hpop. pose proof (pop_inv _ _ _ _ (sc_gc _ _ Hc) Hpop) as Hgc.
  unfold version_gc_pop in Hpop. destruct (retired_versions_ (index s)) as [|id rest] eqn:Er; [done|]. injection Hpop as <-.
  set (vi' := VertexIndex _ _ _ _ _ _ _ _) in *.
  destruct (index_core s (pending_version_switches_ s ++ run) vi' ∅ Hc) as (H1 & H2 & _); [done..|].
  split; [|done]. constructor; [by split|done|]. eapply Forall_impl; [exact Htr|]. intros b [Hb Hid]. split; [done|].
  intros x Hx%Hid. cbn. rewrite Er in Hx. set_solver.
Qed.

Lemma batches_core (s : smo_st) pend b :
  smo_core s pend -> NoDup b.*2 -> (forall P, P ∈ b.*2 -> P ∈ (reclaim_batches s).*2) ->
  smo_core (set_batches b s) pend.
Proof.
  intros Hc Hnd Hsub. pose proof Hc as [C1 C2 C3 C4 C5 C6 C7 C8 C9 C10 C11 C12 C13 C14 C15 C16 C17].
  constructor; try done.
  - intros x Hx. by apply (in_flight_mono s); auto.
  - destruct C15 as [_ B2]. split; [exact Hnd|]. intros P HP. apply B2, Hsub, HP.
Qed.

(** A page of no vertex is given back. *)
Definition retired_page (s : smo_st) (pend : list pending_version_switch_t) (P : Z) : Prop :=
  P ∈ dom (csr_pages (database s)) /\ ~ current s P /\ ~ target_page pend P /\ P ∉ old_page_no <$> pend.

Abbreviation recycled s Q := (upd_db (fun d => recycle_page d Q) s).

Lemma recycle_core (s : smo_st) pend Q :
  smo_core s pend -> retired_page s pend Q -> Q ∉ (reclaim_batches s).*2 ->
  smo_core (recycled s Q) pend /\ same_sets (database s) (database (recycled s Q)).
Proof.
  intros Hc (Hd & Hn & Ht & Ho) Hb. set (s' := recycled s Q).
  assert (Hpg : forall N, N <> Q -> csr_pages (database s') !! N = csr_pages (database s) !! N).
  { intros N HN. cbn. by apply lookup_delete_ne. }
  assert (Hsl : forall N n v ns, N <> Q -> slot s' N n v ns <-> slot s N n v ns).
  { intros N n v ns HN. unfold slot, page_shows. by rewrite Hpg. }
  assert (Hbase : forall v, known s v -> base_of (database s') v = base_of (database s) v).
  { intros v Hv. destruct (core_located s pend Hc v Hv) as (P & i & Hl). unfold base_of.
    change (item_of (database s') v) with (item_of (database s) v).
    change (location_of (database s') v) with (location_of (database s) v). rewrite (proj2 Hl).
    destruct (item_of (database s) v); [|done]. cbn [mbind option_bind fst]. rewrite Hpg; [done|].
    intros ->. apply Hn. by exists v, i. }
  pose proof Hc as [C1 C2 C3 C4 C5 C6 C7 C8 C9 C10 C11 C12 C13 C14 C15 C16 C17].
  assert (Hdom : forall N, N <> Q -> N ∈ dom (csr_pages (database s)) -> N ∈ dom (csr_pages (database s'))).
  { intros N HN. cbn. rewrite dom_delete. set_solver. }
  split.
  2:{ intros v X Hv (b & h & rs & Hbs & ?). exists b, h, rs. by rewrite Hbase. }
  constructor; try done.
  - constructor; [apply C1|apply C1|apply C1|]. intros v Hv. destruct (i_vertex _ C1 v Hv) as (b & h & rs & ?).
    exists b, h, rs. by rewrite Hbase.
  - cbn. rewrite dom_delete_L. by apply free_ok.
  - intros v P i Hl. destruct (C7 v P i Hl) as (n & ns & E & Hs). exists n, ns. split; [done|]. apply Hsl; [|done].
    intros ->. apply Hn. by exists v, i.
  - intros P n v ns HP Hold Hs. apply Hsl in Hs; [by apply (C8 P n v ns)|]. intros ->. by destruct HP.
  - intros q Hq. apply (in_flight_mono s); auto; try done.
    + intros N j v ns HN. apply Hsl. intros ->. apply Ht. by exists q.
    + intros v Hv. destruct (moving_old s pend Hc v q Hq Hv) as [i Hl]. apply Hbase, Hl.
  - destruct C15 as [B1 B2]. split; [done|]. intros P HP. destruct (B2 P HP) as (? & ?). split; [|done].
    apply Hdom; [|done]. intros ->. done.
  - intros P HP. apply Hdom; [|by apply C17]. intros ->. by destruct HP.
Qed.

Lemma recycle_all l : forall (s : smo_st) pend,
  smo_core s pend -> NoDup l -> Forall (retired_page s pend) l -> (forall Q, Q ∈ l -> Q ∉ (reclaim_batches s).*2) ->
  let s' := upd_db (fun d => foldl recycle_page d l) s in
  smo_core s' pend /\ same_sets (database s) (database s').
Proof.
  induction l as [|Q l IH]; intros s pend Hc Hnd Hall Hb; cbn [foldl].
  { split; [by apply (rest_core s)|apply same_sets_refl]. }
  apply NoDup_cons in Hnd as [HQ Hnd]. apply Forall_cons in Hall as [Hr Hall].
  destruct (recycle_core s pend Q Hc Hr) as [Hc1 Hs1]; [apply Hb; left|].
  destruct (IH (recycled s Q) pend Hc1 Hnd) as [Hc2 Hs2].
  - rewrite Forall_forall in Hall |- *. intros P HP. destruct (Hall P HP) as (Hd & ?). split; [|done].
    cbn. rewrite dom_delete. apply elem_of_difference. split; [done|]. rewrite elem_of_singleton. by intros ->.
  - intros P HP. apply Hb. by right.
  - split; [exact Hc2|]. by eapply same_sets_trans; [|exact Hs1|exact Hs2].
Qed.

Lemma recycle_index l (d : db) : vertex_index (foldl recycle_page d l) = vertex_index d.
Proof. revert d. induction l as [|Q l IH]; intros d; [done|]. cbn [foldl]. by rewrite IH. Qed.

Lemma recycle_map l (d : db) : page_map_table (foldl recycle_page d l) = page_map_table d.
Proof. revert d. induction l as [|Q l IH]; intros d; [done|]. cbn [foldl]. by rewrite IH. Qed.

Lemma recycle_pages l (d : db) : dom (csr_pages (foldl recycle_page d l)) = dom (csr_pages d) ∖ list_to_set l.
Proof.
  revert d. induction l as [|Q l IH]; intros d; [cbn; set_solver|]. cbn [foldl list_to_set foldr]. rewrite IH. cbn. rewrite dom_delete_L. set_solver.
Qed.

Lemma reclaim_run (s : smo_st) run id l1 l2 : consistent_with s run -> hazptr_retired (index s) = l1 ++ id :: l2 ->
  consistent_with (reclaim s id (l1 ++ l2)) run /\ same_sets (database s) (database (reclaim s id (l1 ++ l2))).
Proof.
  intros [[Hc Ht] Hmv Htr] Hid. set (pend := pending_version_switches_ s ++ run) in *. unfold reclaim. set (dn := filter (finished id) (reclaim_batches s)).
  set (lf := filter (fun b => negb (finished id b)) (reclaim_batches s)).
  set (left := (fun b : gset Z * Z => (b.1 ∖ {[id]}, b.2)) <$> lf).
  assert (Hl2 : left.*2 = lf.*2) by (unfold left; rewrite <- list_fmap_compose; done).
  assert (Hperm : (reclaim_batches s).*2 ≡ₚ dn.*2 ++ lf.*2).
  { rewrite <- fmap_app. apply fmap_Permutation. unfold dn, lf. clear. induction (reclaim_batches s) as [|b l IH]; [done|].
    rewrite !filter_cons. destruct (finished id b); repeat case_decide; try done; [by apply perm_skip|].
    rewrite <- Permutation_middle. by apply perm_skip. }
  destruct (sc_batches _ _ Hc) as [Hnd Hb]. rewrite Hperm in Hnd. apply NoDup_app in Hnd as (Hnd1 & Hdis & Hnd2).
  set (s1 := set_batches left s).
  assert (Hc1 : smo_core s1 pend).
  { apply batches_core; [done|by rewrite Hl2|]. intros P HP. rewrite Hl2 in HP. rewrite Hperm. apply elem_of_app. by right. }
  pose proof (reclaim_inv _ _ _ _ _ _ (sc_gc _ _ Hc) Hid (not_elem_of_nil id)) as Hgc.
  pose proof (inv_nodup _ (sc_gc _ _ Hc)) as Hndo. unfold owned, reachable_ids in Hndo. cbn [idx prepared] in Hndo.
  destruct (index_core s1 pend (reclaim_version (index s) id (l1 ++ l2)) {[id]} Hc1)
    as (Hc2 & Hs2 & Hl); try done.
  { intros x Hx. cbn. apply lookup_delete_ne. set_solver. }
  { intros x Hx. rewrite elem_of_singleton. intros ->. rewrite Hid, <- !app_assoc in Hndo.
    assert (Hp : curs (index s) ++ retired_versions_ (index s) ++ (l1 ++ id :: l2) ++ desireds (all_prepared pend)
      ≡ₚ id :: (curs (index s) ++ desireds (all_prepared pend)) ++ retired_versions_ (index s) ++ l1 ++ l2)
      by solve_Permutation.
    rewrite <- !app_assoc in Hp. rewrite Hp in Hndo. apply NoDup_cons in Hndo as [Hn _]. apply Hn.
    rewrite !elem_of_app in Hx. rewrite !elem_of_app. tauto. }
  set (s2 := upd_index (fun _ => reclaim_version (index s) id (l1 ++ l2)) s1) in *.
  destruct (recycle_all dn.*2 s2 pend Hc2 Hnd1) as [Hc3 Hs3].
  - apply Forall_forall. intros P HP. destruct (Hb P) as (? & Hnc & ? & ?); [rewrite Hperm; apply elem_of_app; by left|].
    split; [done|]. split; [|done]. intros (v & i & Hv). apply Hnc. exists v, i. by apply Hl.
  - intros P HP. cbn. rewrite Hl2. by apply Hdis.
  - change (upd_index (fun vi => reclaim_version vi id (l1 ++ l2)) (set_batches left s)) with s2.
    assert (Hcur : forall l (d : db), items (vertex_index (foldl recycle_page d l)) = items (vertex_index d) /\
      versions (vertex_index (foldl recycle_page d l)) = versions (vertex_index d)) by (intros l d; by rewrite recycle_index).
    split; [constructor; [split; [exact Hc3|]|exact Hmv|]|].
    + intros P HP (v & i & Hv). apply (Ht P HP). exists v, i. apply Hl. revert Hv. unfold located, known.
      unfold location_of, get_vertex_location, protect_vertex_version. cbn.
      destruct (Hcur dn.*2 (database s2)) as [E1 E2]. cbn in E1, E2. by rewrite E1, E2.
    + unfold tracked. cbn. rewrite recycle_index. cbn. unfold left. apply Forall_fmap, Forall_forall. intros b Hb'.
      apply list_elem_of_filter in Hb' as [Hnf Hb']. unfold tracked in Htr. rewrite Forall_forall in Htr. destruct (Htr b Hb') as [Hne Hin].
      cbn. split.
      * unfold finished in Hnf. apply negb_True, Is_true_false, andb_false_iff in Hnf as [Hnf|Hnf]; apply bool_decide_eq_false in Hnf; [|done].
        intros He. apply Hne. set_solver.
      * intros x [Hx Hxi]%elem_of_difference. apply Hin in Hx. rewrite Hid in Hx. set_solver.
    + by eapply same_sets_trans; [|exact Hs2|exact Hs3].
Qed.

(** What the garbage collection leaves alone; a page that waited in a batch
    goes when it leaves the batch. *)
Record collected (s s' : smo_st) : Prop := {
  cl_sets : same_sets (database s) (database s');
  cl_count : vertex_count (database s') = vertex_count (database s);
  cl_map : pmap s' = pmap s;
  cl_pending : pending_version_switches_ s' = pending_version_switches_ s;
  cl_pages : forall P, P ∈ (reclaim_batches s).*2 \/ P ∉ dom (csr_pages (database s)) ->
    P ∈ (reclaim_batches s').*2 \/ P ∉ dom (csr_pages (database s'))
}.

Lemma collected_refl s : collected s s.
Proof. constructor; try done. apply same_sets_refl. Qed.

Lemma collected_trans s1 s2 s3 : collected s1 s2 -> collected s2 s3 -> collected s1 s3.
Proof.
  intros [A1 A2 A3 A4 A5] [B1 B2 B3 B4 B5]. constructor; [by eapply same_sets_trans|congruence..|].
  intros P HP. by apply B5, A5.
Qed.

Lemma gc_pop_collected (s : smo_st) run vi' : consistent_with s run -> version_gc_pop (index s) = Some vi' ->
  collected s (upd_index (fun _ => vi') s).
Proof.
  intros Hc Hpop. destruct (gc_pop_run s run vi' Hc Hpop) as [_ Hs]. constructor; try done.
  unfold vertex_count. unfold version_gc_pop in Hpop. destruct (retired_versions_ (index s)); [done|]. by injection Hpop as <-.
Qed.

Lemma reclaim_collected (s : smo_st) run id l1 l2 : consistent_with s run -> hazptr_retired (index s) = l1 ++ id :: l2 ->
  collected s (reclaim s id (l1 ++ l2)).
Proof.
  intros Hc Hid. destruct (reclaim_run s run id l1 l2 Hc Hid) as [_ Hs]. constructor; [done|..].
  - unfold vertex_count, reclaim. cbn. by rewrite recycle_index.
  - unfold reclaim. cbn. by rewrite recycle_map.
  - done.
  - intros P HP. unfold reclaim. cbn. rewrite recycle_pages. cbn. destruct HP as [HP|HP]; [|right; set_solver].
    apply list_elem_of_fmap in HP as (b & -> & Hb). destruct (finished id b) eqn:Ef.
    + right. rewrite elem_of_difference, elem_of_list_to_set, list_elem_of_fmap. intros [_ Hn]. apply Hn. exists b. split; [done|].
      apply list_elem_of_filter. by rewrite Ef.
    + left. rewrite <- list_fmap_compose. apply list_elem_of_fmap. exists b. split; [done|]. apply list_elem_of_filter. by rewrite Ef.
Qed.

(** *** Waiting for the reclamation *)

Definition gc_left (s : smo_st) : nat := 2 * length (retired_versions_ (index s)) + length (hazptr_retired (index s)).

Lemma gc_work_run pick (s : smo_st) run : consistent_with s run -> (0 < gc_left s)%nat ->
  exists s', gc_work pick s = Some s' /\ consistent_with s' run /\ collected s s' /\ (gc_left s' < gc_left s)%nat.
Proof.
  intros Hc Hleft. assert (Hrec : forall l1 id l2, hazptr_retired (index s) = l1 ++ id :: l2 ->
    consistent_with (reclaim s id (l1 ++ l2)) run /\ collected s (reclaim s id (l1 ++ l2)) /\ (gc_left (reclaim s id (l1 ++ l2)) < gc_left s)%nat).
  { intros l1 id l2 E. split; [by apply reclaim_run|]. split; [by eapply reclaim_collected|].
    unfold gc_left, reclaim. cbn. rewrite recycle_index. cbn. rewrite E, !length_app. cbn. lia. }
  unfold gc_work. destruct (hazptr_retired (index s) !! pick) as [id|] eqn:Ep.
  - eexists. split; [done|]. change (list_delete pick (hazptr_retired (index s))) with (delete pick (hazptr_retired (index s))).
    rewrite delete_take_drop. apply Hrec. symmetry. by apply take_drop_middle.
  - destruct (version_gc_pop (index s)) as [vi'|] eqn:Epop.
    + eexists. split; [done|]. split; [by eapply gc_pop_run|]. split; [by eapply gc_pop_collected|].
      unfold gc_left in *. cbn. unfold version_gc_pop in Epop. destruct (retired_versions_ (index s)); [done|]. injection Epop as <-. cbn. lia.
    + destruct (hazptr_retired (index s)) as [|id rest] eqn:Eh.
      * exfalso. unfold gc_left in Hleft. unfold version_gc_pop in Epop. rewrite Eh in Hleft. destruct (retired_versions_ (index s)); [cbn in Hleft; lia|done].
      * eexists. split; [done|]. by apply (Hrec []).
Qed.

Lemma gc_count (s : smo_st) run : consistent_with s run -> pending_version_count_ (index s) = 0 <-> gc_left s = 0%nat.
Proof. intros Hc. pose proof (inv_pending _ (sc_gc _ _ (proj1 (cw_inv _ _ Hc)))) as Hp. cbn in Hp. rewrite Hp. unfold gc_left. lia. Qed.

Lemma wait_run fuel pick : forall (s : smo_st) run, consistent_with s run -> (gc_left s < fuel)%nat ->
  exists s', wait_for_version_gc fuel pick s = Some s' /\ consistent_with s' run /\ collected s s' /\ gc_left s' = 0%nat.
Proof.
  induction fuel as [|fuel IH]; intros s run Hc Hf; [lia|]. cbn [wait_for_version_gc]. pose proof (gc_count s run Hc) as Hz.
  destruct (Z.eqb_spec (pending_version_count_ (index s)) 0) as [E|E].
  - exists s. split; [done|]. split; [done|]. split; [apply collected_refl|]. by apply Hz.
  - destruct (gc_work_run (pick fuel) s run Hc) as (s1 & -> & Hc1 & Hk1 & Hl1); [destruct (gc_left s); [tauto|lia]|].
    destruct (IH s1 run Hc1) as (s2 & E2 & Hc2 & Hk2 & Hl2); [lia|]. exists s2. split; [exact E2|]. split; [done|].
    split; [by eapply collected_trans|done].
Qed.

(** When nothing is left to reclaim, no batch waits. *)
Lemma gc_done_batches (s : smo_st) : tracked s -> gc_left s = 0%nat -> reclaim_batches s = [].
Proof.
  unfold tracked, gc_left. intros Ht Hz. destruct (reclaim_batches s) as [|b bs]; [done|]. apply Forall_cons in Ht as [[Hne Hin] _].
  destruct (retired_versions_ (index s)), (hazptr_retired (index s)); cbn in Hz; try lia. exfalso. apply Hne. apply set_eq. intros x.
  split; [|set_solver]. intros Hx%Hin. by apply elem_of_nil in Hx.
Qed.

(** ** Publishing *)

Lemma publish_pending_run salt pick (s : smo_st) : consistent s ->
  exists s', publish_pending_versions salt pick s = (Ok tt, s') /\ consistent s' /\ pending_version_switches_ s' = [] /\
    same_sets (database s) (database s') /\ vertex_count (database s') = vertex_count (database s) /\
    (pending_version_switches_ s <> [] -> gc_left s' = 0%nat /\ reclaim_batches s' = []) /\
    (forall q, q ∈ pending_version_switches_ s -> old_page_no q ∉ dom (csr_pages (database s'))) /\
    forall w h rs, (forall q, q ∈ pending_version_switches_ s -> new_locations q !! w = None) -> Forall (fun r => first r = w) rs ->
      chain_at (pages (pmap s)) h rs -> chain_at (pages (pmap s')) h rs.
Proof.
  intros [[Hc Ht] Hmv Htr]. rewrite app_nil_r in Hc, Ht, Hmv. set (s1 := set_pending [] s).
  assert (Hi1 : smo_inv s1 (pending_version_switches_ s ++ [])) by (rewrite app_nil_r; split; [by apply (rest_core s)|exact Ht]).
  destruct (publish_all_spec Hcompress salt _ s1 [] Hi1) as (s2 & E2 & Hi2 & Hs2 & Hn2 & Hb2 & (d2 & b2 & Hd2 & _) & _ & Ht2 & Hch2).
  assert (Hp2 : pending_version_switches_ s2 = []) by by rewrite Hd2.
  assert (Hc2 : consistent_with s2 []) by (constructor; [by rewrite Hp2|rewrite Hp2; constructor|by apply Ht2]).
  unfold publish_pending_versions. rewrite stm_get, stm_modify. fold s1. rewrite (stm_bind_Ok _ _ _ _ _ E2).
  case_bool_decide as Hnil.
  - exists s2. split; [done|]. split; [exact Hc2|]. split; [done|]. split; [done|]. split; [done|]. split; [done|].
    split; [|exact Hch2]. intros q Hq. rewrite Hnil in Hq. by apply elem_of_nil in Hq.
  - destruct (wait_run (gc_fuel (index s2)) pick s2 [] Hc2) as (s3 & E3 & Hc3 & Hk3 & Hl3); [unfold gc_fuel, gc_left; lia|].
    assert (Hb3 : reclaim_batches s3 = []) by (apply gc_done_batches; [apply Hc3|done]).
    exists s3. rewrite get_db_bind, stm_get, E3. split; [done|]. split; [exact Hc3|]. split; [by rewrite (cl_pending _ _ Hk3)|].
    split; [eapply same_sets_trans; [|exact Hs2|apply Hk3]; done|]. split; [by rewrite (cl_count _ _ Hk3)|]. split; [done|].
    split; [|rewrite (cl_map _ _ Hk3); exact Hch2].
    intros q Hq. destruct (cl_pages _ _ Hk3 (old_page_no q)) as [Hin|Hin]; [|rewrite Hb3 in Hin; by apply elem_of_nil in Hin|done].
    left. rewrite Hb2. apply elem_of_app. right. by apply (list_elem_of_fmap_2 old_page_no).
Qed.

(** ** Reads *)

Record read_only (d d' : db) : Prop := {
  ro_index : vertex_index d' = vertex_index d;
  ro_map : page_map_table d' = page_map_table d;
  ro_pages : csr_pages d' = csr_pages d;
  ro_disk : csr_disk d' = csr_disk d;
  ro_queue : smo_queue d' = smo_queue d;
  ro_sketch : is_Some (vertex_update_sketch_ d) -> is_Some (vertex_update_sketch_ d');
  ro_giants : forall v, g_stored (giant_db d') v = g_stored (giant_db d) v
}.

Lemma read_only_view d d' : read_only d d' -> same_view d d'.
Proof. intros [E1 E2 E3 E4 E5 E6 E7]. constructor; [by rewrite E1|by rewrite E1|done|done]. Qed.

Lemma read_core (s : smo_st) pend d' : read_only (database s) d' -> smo_core s pend -> smo_core (with_db s d') pend.
Proof.
  intros Hr Hc. pose proof (read_only_view _ _ Hr) as Hvw. destruct Hr as [E1 E2 E3 E4 E5 E6 E7].
  pose proof Hc as [C1 C2 C3 C4 C5 C6 C7 C8 C9 C10 C11 C12 C13 C14 C15 C16 C17].
  set (s' := with_db s d').
  assert (Hk : forall v, known s' v <-> known s v) by (intros v; unfold known; cbn; by rewrite E1).
  assert (Hloc : forall v, location_of (database s') v = location_of (database s) v)
    by (intros v; unfold location_of; cbn; by rewrite E1).
  assert (Hl : forall v P i, located s' v P i <-> located s v P i) by (intros v P i; unfold located; by rewrite Hk, Hloc).
  assert (Hcu : forall P, current s' P <-> current s P) by (intros P; unfold current; by setoid_rewrite Hl).
  assert (Hsl : forall N n v ns, slot s' N n v ns <-> slot s N n v ns).
  { intros N n v ns. unfold slot, page_shows. cbn. by rewrite E3. }
  assert (Hhm : forall v, home (database s') v = home (database s) v) by (intros v; unfold home; cbn; by rewrite Hloc, E2).
  constructor.
  - apply (quiet_step (database s) d'); [done|by rewrite E1|by rewrite E2|rewrite E2; apply C1|apply E6, C1|done].
  - unfold vertex_count; cbn. by rewrite E1.
  - cbn. by rewrite E1.
  - intros v b. rewrite Hk. cbn. rewrite E1, E7. apply C4.
  - cbn. by rewrite E1.
  - cbn. by rewrite E3, E4.
  - intros v P i. rewrite Hl. intros Hv. destruct (C7 v P i Hv) as (n & ns & ? & ?). exists n, ns. by rewrite Hsl.
  - intros P n v ns. rewrite Hcu, Hsl, Hl, Hk. apply C8.
  - intros k recs Hr. cbn in Hr. rewrite E2 in Hr. eapply Forall_impl; [by apply (C9 k)|]. cbn. intros r (? & ? & ?).
    split; [by apply Hk|]. split; [|done]. etrans; [apply Hhm|done].
  - intros v. rewrite Hk. intros Hv Hm. destruct (C10 v Hv Hm) as (P & i & rs & recs & ? & (h & ? & ?) & ? & ?).
    exists P, i, rs, recs. rewrite Hl. split; [done|]. split; [|cbn; by rewrite E2].
    exists h. unfold head_of; cbn. by rewrite E1, E2.
  - intros q Hq. apply (in_flight_mono s); auto; cbn; rewrite ?E1, ?E2; try done.
    + intros v. unfold head_of. by rewrite E1.
    + intros N j v ns _. apply Hsl.
    + intros v _. by apply same_view_base.
  - cbn. by rewrite E2.
  - done.
  - done.
  - destruct C15 as [B1 B2]. split; [done|]. intros P HP. rewrite Hcu. cbn. rewrite E3. by apply B2.
  - destruct C16 as [Q1 Q2]. cbn. rewrite E5. split; [done|]. intros P HP. rewrite Hcu, E2. by apply Q2.
  - cbn. by rewrite E3.
Qed.

Lemma clone_read_only (d : db) v base h d' : clone_base d v = Some (base, h, d') -> read_only d d'.
Proof.
  intros E. unfold clone_base in E. destruct (item_of d v) as [item|]; [|done]. cbn in E. destruct (is_giant item) eqn:Eg.
  - destruct (delta_heads_ (vertex_index d) !! Z.to_nat v); [|done]. cbn in E.
    pose proof (g_clone_keeps (giant_db d) v) as Hk. destruct (g_read_neighbor_clone (giant_db d) v) as [[ns|] g]; [|done].
    injection E as _ _ <-. by constructor.
  - unfold read_neighbor_with_delta in E. destruct (vertex_update_sketch_ d) as [sk|] eqn:Es; [|done]. cbn in E.
    destruct (item_of d v) as [item'|]; [|done]. cbn in E. destruct (get_vertex_location _ _); [|done]. cbn in E.
    destruct (csr_pages d !! _); [|done]. cbn in E. destruct (delta_heads_ (vertex_index d) !! Z.to_nat v); [|done]. cbn in E.
    destruct (is_giant item').
    + pose proof (g_read_keeps (giant_db d) v) as Hk. destruct (g_read_neighbor (giant_db d) v) as [[ns|] g]; [|done].
      injection E as _ _ <-. constructor; cbn; try done. by rewrite Es.
    + injection E as _ _ <-. constructor; cbn; try done. by rewrite Es.
Qed.

Lemma read_with (s : smo_st) run d' : read_only (database s) d' -> consistent_with s run -> consistent_with (with_db s d') run.
Proof.
  intros Hr [[Hc Ht] Hmv Htr]. pose proof (ro_index _ _ Hr) as Ei. constructor.
  - split; [by apply read_core|]. intros P HP (w & i & Hw). apply (Ht P HP). exists w, i. revert Hw. unfold located, known, location_of. cbn. by rewrite Ei.
  - done.
  - unfold tracked in *. cbn. by rewrite Ei.
Qed.

(** *** The walk of the chain, record by record *)

(** A read under way: the base list taken when it began, the record it goes to
    next and what it has met. *)
Record reader_t := Reader {
  r_vertex : Z;
  r_base : list Z;
  r_cur : delta_head_t;
  r_ins : list Z;
  r_dels : gset Z;
  r_seen : gset Z
}.

Definition start_read (v : Z) (base : list Z) (head : delta_head_t) : reader_t := Reader v base head [] ∅ ∅.

(** One record, read under the latch of its page. *)
Definition walk_step (ps : gmap Z delta_page_t) (r : reader_t) : option reader_t :=
  p ← ps !! dh_page_no (r_cur r);
  rec ← (get_record p (dh_record_idx (r_cur r))).1;
  let next := DeltaHead (next_page_no rec) (next_record_idx rec) in
  Some (if bool_decide (target rec = EDGE) && negb (bool_decide (second rec ∈ r_seen r)) then
          match type rec with
          | INSERT => Reader (r_vertex r) (r_base r) next (r_ins r ++ [second rec]) (r_dels r) ({[second rec]} ∪ r_seen r)
          | DELETE => Reader (r_vertex r) (r_base r) next (r_ins r) ({[second rec]} ∪ r_dels r) ({[second rec]} ∪ r_seen r)
          end
        else Reader (r_vertex r) (r_base r) next (r_ins r) (r_dels r) (r_seen r)).

Definition read_result (r : reader_t) : list Z := filter (fun x => x ∉ r_dels r) (r_base r) ++ filter (fun x => x ∉ r_dels r) (r_ins r).

(** [read_neighbor_clone] is the beginning of a read and its steps. *)
Inductive walks (ps : gmap Z delta_page_t) : reader_t -> reader_t -> Prop :=
  | walks_end r : ptr_is_valid (r_cur r) = false -> walks ps r r
  | walks_step r r1 r2 : ptr_is_valid (r_cur r) = true -> walk_step ps r = Some r1 -> walks ps r1 r2 -> walks ps r r2.

Lemma walk_chain_steps fuel ps : forall r ins dels, walk_chain fuel ps (r_cur r) (r_ins r) (r_dels r) (r_seen r) = Some (ins, dels) ->
  exists r', walks ps r r' /\ r_base r' = r_base r /\ r_ins r' = ins /\ r_dels r' = dels.
Proof.
  induction fuel as [|fuel IH]; intros r ins dels; cbn [walk_chain]; destruct (ptr_is_valid (r_cur r)) eqn:Ev; try done;
    try (intros [= <- <-]; exists r; split; [by constructor|done]).
  intros E. assert (Hs : exists r1, walk_step ps r = Some r1 /\ r_base r1 = r_base r /\
    walk_chain fuel ps (r_cur r1) (r_ins r1) (r_dels r1) (r_seen r1) = Some (ins, dels)).
  { unfold walk_step. destruct (ps !! _) as [p|]; [|done]. cbn [mbind option_bind] in *. destruct (get_record _ _).1 as [rec|]; [|done].
    cbn [mbind option_bind] in *. eexists. split; [done|]. destruct (_ && _); [destruct (type rec)|]; done. }
  destruct Hs as (r1 & E1 & Eb & E2). destruct (IH r1 ins dels E2) as (r' & Hw & Hb & ? & ?). exists r'.
  split; [by eapply walks_step|]. by rewrite Hb.
Qed.

Lemma read_neighbor_clone_steps fuel (d : db) v l d' : read_neighbor_clone fuel d v = Some (l, d') ->
  exists base head r, clone_base d v = Some (base, head, d') /\ walks (pages (page_map_table d')) (start_read v base head) r /\ l = read_result r.
Proof.
  unfold read_neighbor_clone. destruct (clone_base d v) as [[[base head] d1]|]; [|done]. cbn [mbind option_bind].
  destruct (walk_chain _ _ _ _ _ _) as [[ins dels]|] eqn:E; [|done]. cbn [mbind option_bind]. intros [= <- <-].
  destruct (walk_chain_steps fuel _ (start_read v base head) ins dels E) as (r & Hw & Hb & <- & <-).
  exists base, head, r. split; [done|]. split; [done|]. unfold read_result. by rewrite Hb.
Qed.

(** A reader will return the set [X]. *)
Definition reader_ok (s : smo_st) (r : reader_t) (X : gset Z) : Prop :=
  exists rs, chain_at (pages (pmap s)) (r_cur r) rs /\ Forall (fun rec => first rec = r_vertex r) rs /\
    forall x, x ∈ X <->
      (x ∈ r_base r \/ x ∈ r_ins r \/ (x ∉ r_seen r /\ newest_op rs x = Some INSERT)) /\
      ~ (x ∈ r_dels r \/ (x ∉ r_seen r /\ newest_op rs x = Some DELETE)).

Lemma reader_begin (s : smo_st) run v X base head d' : consistent_with s run -> known s v -> neighbors (database s) v X ->
  clone_base (database s) v = Some (base, head, d') -> reader_ok (with_db s d') (start_read v base head) X.
Proof.
  intros Hc Hk HX E. pose proof (clone_read_only _ _ _ _ _ E) as Hr. destruct Hc as [[Hc _] _ _]. pose proof (sc_db _ _ Hc) as Hi.
  destruct (i_vertex _ Hi v Hk) as (b & h & rs & Hb & Hh & _ & Hch & Hf).
  destruct (clone_base_spec (database s) v b h Hi Hb Hh) as (d1 & E1 & _). rewrite E in E1. injection E1 as -> -> ->.
  destruct HX as (b' & h' & rs' & Hb' & Hh' & Hch' & ->). rewrite Hb in Hb'. injection Hb' as <-. rewrite Hh in Hh'. injection Hh' as <-.
  rewrite (chain_at_det _ _ _ _ Hch' Hch). exists rs. cbn. rewrite (ro_map _ _ Hr). split; [done|]. split; [done|].
  intros x. rewrite elem_of_ops_set. destruct (newest_op rs x) as [[]|]; set_solver.
Qed.

Lemma reader_walk (s : smo_st) run r X r' : consistent_with s run -> ptr_is_valid (r_cur r) = true -> reader_ok s r X ->
  walk_step (pages (pmap s)) r = Some r' -> reader_ok s r' X.
Proof.
  intros Hc Hv (rs & Hch & Hf & HX) E. pose proof (w_pages _ (i_pm _ (sc_db _ _ (proj1 (cw_inv _ _ Hc))))) as Hwf.
  inversion Hch as [h Hn|h rec rs1 _ (Hi & p & Hp & Hr) Hch1]; subst; [congruence|].
  unfold walk_step in E. rewrite Hp in E. cbn [mbind option_bind] in E.
  destruct (get_record_wf p (dh_record_idx (r_cur r)) (Hwf _ _ Hp) Hi) as (Eg & _ & _). rewrite Eg, Hr in E. cbn [mbind option_bind] in E.
  injection E as <-. apply Forall_cons in Hf as [Hf1 Hf]. exists rs1. cbn [newest_op] in HX. fold (link_of rec).
  destruct (bool_decide_reflect (target rec = EDGE)) as [Ht|Ht]; cbn [andb] in *; [|done].
  destruct (bool_decide_reflect (second rec ∈ r_seen r)) as [Hs|Hs]; cbn [negb].
  - split; [done|]. split; [done|]. intros x. rewrite HX. cbn. case_bool_decide; subst; naive_solver.
  - destruct (type rec) eqn:Ety; (split; [done|]; split; [done|]); intros x; rewrite HX; cbn;
      rewrite ?elem_of_app, ?list_elem_of_singleton, ?elem_of_union, ?elem_of_singleton; case_bool_decide; subst; naive_solver.
Qed.

Lemma reader_end (s : smo_st) r X : ptr_is_valid (r_cur r) = false -> reader_ok s r X -> (list_to_set (read_result r) : gset Z) = X.
Proof.
  intros Hv (rs & Hch & _ & HX). inversion Hch; subst; [|congruence]. apply set_eq. intros x. rewrite HX. cbn [newest_op].
  unfold read_result. rewrite elem_of_list_to_set, elem_of_app, !list_elem_of_filter. naive_solver.
Qed.

Definition kept_chain (s s' : smo_st) (w : Z) : Prop := forall h rs, Forall (fun r => first r = w) rs ->
  chain_at (pages (pmap s)) h rs -> chain_at (pages (pmap s')) h rs.

Lemma reader_kept (s s' : smo_st) r X : kept_chain s s' (r_vertex r) -> reader_ok s r X -> reader_ok s' r X.
Proof. intros Hk (rs & Hch & Hf & HX). exists rs. split; [by apply Hk|done]. Qed.

Lemma calm_kept (s s' : smo_st) w : calm s s' -> kept_chain s s' w.
Proof. intros Hc h rs _ Hch. eapply chain_at_ext; [apply Hc|done]. Qed.

(** ** Steps and traces *)

(** The state, the switches of the tasks under way and the reads under way. *)
Record run_t := Running { store : smo_st; tasks : list pending_version_switch_t; readers : list reader_t }.

Inductive op_t :=
  | OpInsert (src dst : Z)
  | OpDelete (src dst : Z)
  | OpReadBegin (v : Z)
  | OpReadEnd (i : nat) (result : list Z)
  | OpBackground.

(** No read of a vertex of the switch is under way. *)
Definition unread (rd : list reader_t) (q : pending_version_switch_t) : Prop :=
  forall r, r ∈ rd -> new_locations q !! r_vertex r = None.

Inductive smo_step : run_t -> op_t -> run_t -> Prop :=
  | step_insert s run rd now src dst d' : live (database s) src -> live (database s) dst -> in_width 64 now ->
      delta_room (allocator (pmap s)) 2 -> insert_edge (database s) now src dst = Some (true, d') ->
      smo_step (Running s run rd) (OpInsert src dst) (Running (with_db s d') run rd)
  | step_delete s run rd now src dst d' : known s src -> known s dst -> in_width 64 now ->
      delta_room (allocator (pmap s)) 2 -> delete_edge (database s) now src dst = Some (true, d') ->
      smo_step (Running s run rd) (OpDelete src dst) (Running (with_db s d') run rd)
  | step_read_begin s run rd v base head d' : known s v -> clone_base (database s) v = Some (base, head, d') ->
      smo_step (Running s run rd) (OpReadBegin v) (Running (with_db s d') run (rd ++ [start_read v base head]))
  | step_read_walk s run rd i r r' : rd !! i = Some r -> ptr_is_valid (r_cur r) = true -> walk_step (pages (pmap s)) r = Some r' ->
      smo_step (Running s run rd) OpBackground (Running s run (<[i := r']> rd))
  | step_read_end s run rd i r : rd !! i = Some r -> ptr_is_valid (r_cur r) = false ->
      smo_step (Running s run rd) (OpReadEnd i (read_result r)) (Running s run (delete i rd))
  | step_task_begin s run rd salt n P thr o s' : smo_queue (database s) !! n = Some (P, thr) -> room_for s P ->
      begin_task salt n s = (Ok o, s') -> smo_step (Running s run rd) OpBackground (Running s' (run ++ option_list o) rd)
  | step_task_end s l1 q l2 rd salt s' : manual_version_switch_ s = true \/ unread rd q ->
      end_task salt q s = (Ok tt, s') -> smo_step (Running s (l1 ++ q :: l2) rd) OpBackground (Running s' (l1 ++ l2) rd)
  | step_publish s rd salt pick s' : Forall (unread rd) (pending_version_switches_ s) ->
      publish_pending_versions salt pick s = (Ok tt, s') -> smo_step (Running s [] rd) OpBackground (Running s' [] rd)
  | step_gc_pop s run rd vi' : version_gc_pop (index s) = Some vi' ->
      smo_step (Running s run rd) OpBackground (Running (upd_index (fun _ => vi') s) run rd)
  | step_reclaim s run rd id l1 l2 : hazptr_retired (index s) = l1 ++ id :: l2 ->
      smo_step (Running s run rd) OpBackground (Running (reclaim s id (l1 ++ l2)) run rd).

Inductive smo_steps : run_t -> list op_t -> run_t -> Prop :=
  | steps_nil s : smo_steps s [] s
  | steps_cons s o s1 os s2 : smo_step s o s1 -> smo_steps s1 os s2 -> smo_steps s (o :: os) s2.

(** The specification: a map from vertices to sets, and the answers due to the
    reads under way. *)
Definition spec_t : Type := (Z -> gset Z) * list (gset Z).

Definition effect (o : op_t) (m : spec_t) : spec_t :=
  match o with
  | OpInsert src dst => (fun v => if decide (v = src) then {[dst]} ∪ m.1 v else m.1 v, m.2)
  | OpDelete src dst => (fun v => if decide (v = src) then m.1 v ∖ {[dst]} else m.1 v, m.2)
  | OpReadBegin v => (m.1, m.2 ++ [m.1 v])
  | OpReadEnd i _ => (m.1, delete i m.2)
  | OpBackground => m
  end.

Definition answers (o : op_t) (m : spec_t) : Prop :=
  match o with OpReadEnd i l => m.2 !! i = Some (list_to_set l : gset Z) | _ => True end.

Fixpoint allowed (os : list op_t) (m : spec_t) : Prop :=
  match os with [] => True | o :: os => answers o m /\ allowed os (effect o m) end.

Fixpoint effects (os : list op_t) (m : spec_t) : spec_t :=
  match os with [] => m | o :: os => effects os (effect o m) end.

Definition represents (s : smo_st) (m : Z -> gset Z) : Prop := forall v, known s v -> neighbors (database s) v (m v).

(** A run follows the specification. *)
Record follows (r : run_t) (m : spec_t) : Prop := {
  fo_inv : consistent_with (store r) (tasks r);
  fo_sets : represents (store r) m.1;
  fo_reads : Forall2 (reader_ok (store r)) (readers r) m.2
}.

Lemma represents_same (s s' : smo_st) m : same_sets (database s) (database s') ->
  vertex_count (database s') = vertex_count (database s) -> represents s m -> represents s' m.
Proof.
  intros Hs Hn Hm v Hv. assert (Hk : known s v) by (unfold known, vertex_count in *; lia). apply Hs; [exact Hk|]. by apply Hm.
Qed.

Lemma represents_edge (s : smo_st) d' src f m m' :
  edge_step (database s) d' src f -> known s src -> represents s m -> m' src = f (m src) ->
  (forall v, v <> src -> m' v = m v) -> represents (with_db s d') m'.
Proof.
  intros [Ei Ev Es Eo] Hk Hm H1 H2 v Hv.
  assert (Hv' : known s v).
  { pose proof (same_view_count _ _ Ev) as E. unfold known in Hv |- *. unfold vertex_count in E. cbn in Hv. lia. }
  destruct (decide (v = src)) as [->|Hne]; [rewrite H1; by apply Es, Hm|rewrite H2 by done].
  apply Eo; [done|apply Hv'|by apply Hm].
Qed.

Lemma readers_kept (s s' : smo_st) rd Xs : (forall r, r ∈ rd -> kept_chain s s' (r_vertex r)) ->
  Forall2 (reader_ok s) rd Xs -> Forall2 (reader_ok s') rd Xs.
Proof.
  intros Hk. induction 1 as [|r X rd Xs Hr _ IH]; [constructor|]. constructor.
  - apply (reader_kept s); [apply Hk; left|done].
  - apply IH. intros r' Hr'. apply Hk. by right.
Qed.

(** Edge updates and background steps. *)
Lemma follows_edge (s : smo_st) run rd d' m m' : smo_inv (with_db s d') (pending_version_switches_ s ++ run) -> calm s (with_db s d') ->
  represents (with_db s d') m' -> follows (Running s run rd) m -> follows (Running (with_db s d') run rd) (m', m.2).
Proof.
  intros Hi Hk Hm [[_ Hmv Htr] _ Hrd]. constructor; [constructor; [done|done|by apply (calm_tracked s)]|done|].
  apply (readers_kept s); [|done]. intros r _. by apply calm_kept.
Qed.

Lemma follows_background (s s' : smo_st) run run' rd m : consistent_with s' run' -> same_sets (database s) (database s') ->
  vertex_count (database s') = vertex_count (database s) -> (forall r, r ∈ rd -> kept_chain s s' (r_vertex r)) ->
  follows (Running s run rd) m -> follows (Running s' run' rd) m.
Proof.
  intros Hc Hs Hn Hk [_ Hm Hrd]. constructor; [done|by eapply represents_same|]. by apply (readers_kept s).
Qed.

Lemma collected_kept (s s' : smo_st) w : collected s s' -> kept_chain s s' w.
Proof. intros Hc h rs _. by rewrite (cl_map _ _ Hc). Qed.

Lemma step_follows r o r' m : smo_step r o r' -> follows r m -> answers o m /\ follows r' (effect o m).
Proof.
  intros Hstep Hfo. destruct Hstep; cbn [answers effect]; pose proof Hfo as [Hc Hm Hrd]; cbn [store tasks readers] in Hc, Hm, Hrd.
  - destruct (insert_edge_smo Hsize s _ now src dst 0 (cw_inv _ _ Hc)) as (d2 & E & Hi2 & He & _ & Hk); try done.
    assert (d' = d2) as -> by congruence. split; [done|]. apply (follows_edge s); [done|done| |done].
    eapply (represents_edge s d2 src); [exact He|by destruct H1|done|by rewrite decide_True|]. intros v Hv. by rewrite decide_False.
  - destruct (delete_edge_smo Hsize s _ now src dst 0 (cw_inv _ _ Hc)) as (d2 & E & Hi2 & He & _ & Hk); try done.
    assert (d' = d2) as -> by congruence. split; [done|]. apply (follows_edge s); [done|done| |done].
    eapply (represents_edge s d2 src); [exact He|done|done|by rewrite decide_True|]. intros v Hv. by rewrite decide_False.
  - split; [done|]. match goal with Hr : clone_base _ _ = _ |- _ => rename Hr into Hcb end.
    pose proof (clone_read_only _ _ _ _ _ Hcb) as Hro. pose proof (read_only_view _ _ Hro) as Hvw.
    assert (Hdb : db_inv (database s)) by apply (proj1 (cw_inv _ _ Hc)).
    assert (Hn : forall w X, neighbors (database s) w X -> neighbors d' w X).
    { intros w X. apply (quiet_step (database s)); [done|by rewrite (ro_index _ _ Hro)|by rewrite (ro_map _ _ Hro)| | |done].
      - rewrite (ro_map _ _ Hro). apply Hdb.
      - apply Hro, Hdb. }
    constructor; cbn [store tasks readers fst snd].
    + by apply read_with.
    + intros w Hw. apply Hn, Hm. revert Hw. unfold known. cbn. by rewrite (ro_index _ _ Hro).
    + apply Forall2_app.
      * apply (readers_kept s); [|done]. intros x _ h rs _. cbn. by rewrite (ro_map _ _ Hro).
      * constructor; [|constructor]. eapply reader_begin; [exact Hc|done|by apply Hm|done].
  - split; [done|]. constructor; [done|done|]. cbn. match goal with Hr : rd !! i = Some r |- _ => rename Hr into Hi end.
    destruct (Forall2_lookup_l _ _ _ _ _ Hrd Hi) as (X & HX & Hok). rewrite <- (list_insert_id m.2 i X HX).
    apply Forall2_insert; [done|]. by eapply reader_walk.
  - match goal with Hr : rd !! i = Some r |- _ => rename Hr into Hi end.
    destruct (Forall2_lookup_l _ _ _ _ _ Hrd Hi) as (X & HX & Hok). split; [by rewrite (reader_end s r X)|].
    constructor; [done|done|]. cbn. by apply Forall2_delete.
  - split; [done|]. match goal with Hq : smo_queue _ !! n = _ |- _ => destruct (begin_task_run salt n P thr s run Hc Hq) as (o2 & s2 & E & Hc2 & Hs2 & Hn2 & Hk2 & _) end; [done|].
    assert (o = o2 /\ s' = s2) as [-> ->] by (split; congruence). apply (follows_background s _ run); try done. intros r _. by apply calm_kept.
  - split; [done|]. destruct (end_task_run salt q s l1 l2 Hc) as (s2 & E & Hc2 & Hs2 & Hn2 & _ & _ & Hk2).
    assert (s' = s2) as -> by congruence. apply (follows_background s _ (l1 ++ q :: l2)); try done.
    intros r Hr h rs. apply Hk2. match goal with Hu : _ \/ unread rd q |- _ => rename Hu into Hun end.
    destruct Hun as [?|Hun]; [by left|right; by apply Hun].
  - split; [done|]. destruct (publish_pending_run salt pick s Hc) as (s2 & E & Hc2 & _ & Hs2 & Hn2 & _ & _ & Hk2).
    assert (s' = s2) as -> by congruence. apply (follows_background s _ []); try done. intros r Hr h rs. apply Hk2.
    intros q Hq. match goal with Hu : Forall (unread rd) _ |- _ => rename Hu into Hun end. rewrite Forall_forall in Hun. by apply (Hun q Hq).
  - split; [done|]. match goal with Hp : version_gc_pop _ = _ |- _ => destruct (gc_pop_run s run vi' Hc Hp); pose proof (gc_pop_collected s run vi' Hc Hp) as Hk end.
    apply (follows_background s _ run); try done; [apply Hk|]. intros r _. by apply collected_kept.
  - split; [done|]. match goal with Hp : hazptr_retired _ = _ |- _ => destruct (reclaim_run s run id l1 l2 Hc Hp); pose proof (reclaim_collected s run id l1 l2 Hc Hp) as Hk end.
    apply (follows_background s _ run); try done; [apply Hk|]. intros r _. by apply collected_kept.
Qed.

(** C1: edge updates, reads, consolidation tasks, publications of pending
    switches and reclamations in any order, where a consolidation task is two
    steps (it prepares the switch, then publishes it or leaves it pending) and
    a read is one step that takes the base list and the head of the chain, one
    for every record it walks over and one that returns.  Every read returns
    the set its vertex had when it began, every vertex always has exactly the
    set the updates so far give it, and the state stays consistent (the
    invariant of [SmoInv] holds for the switches in flight).

    Edge updates, the two halves of a task and publications do not overlap each
    other.  Updates are of vertices that exist, with room for two more delta
    pages; a task's merged lists fit on pages and the disk has room for them;
    a publication waits for the tasks under way; and no vertex is switched
    while a read of it is under way: [read_loses_records] shows that such a
    read can lose edges. *)
Theorem steps_refine (s : smo_st) os r m :
  smo_steps (Running s [] []) os r -> consistent s -> represents s m ->
  allowed os (m, []) /\ consistent_with (store r) (tasks r) /\ represents (store r) (effects os (m, [])).1.
Proof.
  intros Hsteps Hc Hm. assert (Hfo : follows (Running s [] []) (m, [])) by (constructor; [done|done|constructor]).
  revert Hfo. clear Hc Hm. generalize (m, @nil (gset Z)) as sp. clear m. induction Hsteps as [r|r o r1 os r2 H1 H2 IH]; intros sp Hfo.
  - split; [done|]. split; apply Hfo.
  - destruct (step_follows r o r1 sp H1 Hfo) as [Ha Hf1]. destruct (IH (effect o sp) Hf1) as (? & ? & ?). done.
Qed.

(** C2: a queued consolidation task whose merged lists fit on pages, with room
    for them on the disk, returns normally and leaves a consistent state with
    the same neighbour sets and the page's claim released.  Unless consolidation
    is disabled, the chain is below the task's threshold or has no records, the
    automatic mode has then moved every vertex off the page, which waits in a
    batch to be recycled. *)
Theorem run_task_completes salt n P thr (s : smo_st) :
  consistent s -> smo_queue (database s) !! n = Some (P, thr) -> room_for s P ->
  exists s', run_task salt n s = (Ok tt, s') /\ consistent s' /\
    same_sets (database s) (database s') /\ claimed (pmap s') P = false /\
    (manual_version_switch_ s = false -> ~ idle s P thr -> ~ current s' P /\ P ∈ (reclaim_batches s').*2).
Proof.
  intros Hi Hn Hfit. destruct (run_task_run salt n P thr s Hi Hn Hfit) as (s' & E & Hc & Hs & Hcl & Hb).
  exists s'. split; [done|]. split; [done|]. split; [done|]. split; [done|]. intros Hm Hid.
  pose proof (Hb Hm Hid) as Hin. split; [|done]. by apply (sc_batches _ _ (proj1 (cw_inv _ _ Hc))).
Qed.

(** C3: publishing the pending switches, with no task under way, returns
    normally and leaves none pending: every vertex is settled on the page its
    records go to, no page has a forwarding table, and no neighbour set has
    changed.  When something was published the call has waited for the garbage
    collection: no replaced version is left to be reclaimed, no batch waits, and
    the old pages have been recycled, in whatever order the versions were
    reclaimed. *)
Theorem publish_settles salt pick (s : smo_st) : consistent s ->
  exists s', publish_pending_versions salt pick s = (Ok tt, s') /\ consistent s' /\
    same_sets (database s) (database s') /\ pending_version_switches_ s' = [] /\ (forall v, known s' v -> settled s' v) /\
    (forall P, acquire_forwarder_for (pmap s') P = None) /\
    (pending_version_switches_ s <> [] -> retired_versions_ (index s') = [] /\ hazptr_retired (index s') = [] /\
       pending_version_count_ (index s') = 0 /\ reclaim_batches s' = []) /\
    forall q, q ∈ pending_version_switches_ s -> old_page_no q ∉ dom (csr_pages (database s')) /\ ~ current s' (old_page_no q).
Proof.
  intros Hi. destruct (publish_pending_run salt pick s Hi) as (s' & E & Hc & Hp & Hs & Hn & Hg & Hd & _). exists s'.
  split; [done|]. split; [done|]. split; [done|]. split; [done|]. pose proof (cw_inv _ _ Hc) as [Hi' Ht]. rewrite Hp in *. cbn in Hi'.
  split; [|split; [|split]].
  - intros v Hv. apply (sc_settled _ _ Hi' v Hv). intros (q & Hq & _). by apply elem_of_nil in Hq.
  - intros P. destruct (acquire_forwarder_for (pmap s') P) as [fid|] eqn:Ef; [|done].
    destruct (sc_forwarders _ _ Hi' _ _ Ef) as (q & Hq & _). by apply elem_of_nil in Hq.
  - intros Hne. destruct (Hg Hne) as [Hz Hb]. pose proof (proj2 (gc_count s' [] Hc) Hz) as Hz2. unfold gc_left in Hz.
    destruct (retired_versions_ (index s')), (hazptr_retired (index s')); cbn in Hz; try lia. done.
  - intros q Hq. pose proof (Hd q Hq) as Hin. split; [done|]. intros (v & i & Hl). apply Hin.
    destruct (sc_slot _ _ Hi' v _ i Hl) as (n & ns & _ & adj & (_ & p & Hpg & _) & _). apply elem_of_dom. by exists p.
Qed.

End Steps.
End Steps.

(** * Consistent states to start from

    A database that has just been loaded (its pages written by the builder, no
    deltas yet) is consistent; whether a page's merged lists fit can be decided
    by running the merge. *)

Module LoadState.
Import Delta VIndex PMap Csr DB EdgeOps Chains Builder Smo Merge Build Inv Consolidate Run Steps.

Section Load.
Context {A G SK : Type} `{cfg : Config} `{!PageAllocator A (Z.of_nat DELTA_PAGE_SIZE)}
  `{!PageAllocator A (Z.of_nat PAGE_SIZE)} `{!GiantStore G} `{!UpdateSketch SK} `{!SetOrder} `{!MapOrder}.

Abbreviation smo_st := (smo_t (A := A) (G := G) (SK := SK)).
Abbreviation index s := (vertex_index (database s)).
Abbreviation pmap s := (page_map_table (database s)).
Abbreviation csr_alloc_ok := (alloc_ok (page_bytes := Z.of_nat PAGE_SIZE)).

Record loaded (s : smo_st) : Prop := {
  ld_db : db_inv (database s);
  ld_count : vertex_count (database s) < 2 ^ 32;
  ld_live : Forall (fun i => is_delete i = false) (items (index s));
  ld_giants : forall v b, known s v -> is_giant_vertex (index s) (Z.to_nat v) = true ->
    g_stored (giant_db (database s)) v = Some b -> Forall (in_width 32) b;
  ld_gc : gc_inv (GC (index s) [] []);
  ld_alloc : csr_alloc_ok (csr_disk (database s)) (dom (csr_pages (database s)));
  ld_slot : forall v P i, located s v P i -> exists n ns, i = Z.of_nat n /\ slot s P n v ns;
  ld_owner : forall P n v ns, current s P -> slot s P n v ns -> located s v P (Z.of_nat n);
  ld_map : inner (pmap s) = ∅;
  ld_heads : Forall (fun h => ptr_is_valid h = false) (delta_heads_ (index s));
  ld_pending : pending_version_switches_ s = [];
  ld_batches : reclaim_batches s = [];
  ld_queue : smo_queue (database s) = []
}.

Lemma loaded_consistent (s : smo_st) : loaded s -> consistent s.
Proof.
  intros [L1 L2 L3 L4 L5 L6 L7 L8 L9 L10 L11 L12 L13]. constructor; [|by rewrite L11|unfold tracked; by rewrite L12].
  rewrite L11. cbn [app].
  assert (Hnil : forall (q : pending_version_switch_t), ~ q ∈ []) by (intros q Hq; by apply elem_of_nil in Hq).
  assert (Hno : forall P, ~ target_page [] P) by (intros P (q & Hq & _); by apply (Hnil q)).
  assert (Hrec : forall k recs, entry_recs (pmap s) k recs <-> recs = []).
  { intros k recs. unfold entry_recs. by rewrite L9, lookup_empty. }
  split; [|intros P HP; by apply Hno in HP]. constructor; try done.
  - intros P n v ns [HP|HP] _ Hs; [left; by apply (L8 P n v ns)|by apply Hno in HP].
  - intros k recs Hr. apply Hrec in Hr as ->. constructor.
  - intros v Hk _. destruct (i_vertex _ L1 v Hk) as (b & h & rs & Hb & Hh & _ & Hc & _).
    unfold base_of in Hb. destruct (item_of _ v); [|done]. cbn in Hb.
    destruct (location_of (database s) v) as [[P i]|] eqn:El; [|done].
    exists P, i, [], []. split; [by split|]. split; [|split; [by apply Hrec|done]]. exists h. split; [done|].
    constructor. apply (Forall_lookup_1 _ _ _ _ L10 Hh).
  - intros q Hq. by apply Hnil in Hq.
  - intros k fid. unfold acquire_forwarder_for. by rewrite L9, lookup_empty.
  - split; [constructor|]. split; constructor.
  - rewrite L12. split; [constructor|]. intros P HP. by apply elem_of_nil in HP.
  - rewrite L13. split; [constructor|]. intros P HP. by apply elem_of_nil in HP.
  - intros P [HP|HP]; [by apply Hno in HP|by apply elem_of_nil in HP].
Qed.

(** ** The merged lists are determined *)

Lemma sorted_set_unique (l l' : list Z) : StronglySorted Z.lt l -> StronglySorted Z.lt l' ->
  (list_to_set l : gset Z) = list_to_set l' -> l = l'.
Proof.
  intros Hl Hl' E. assert (Hw : forall k, StronglySorted Z.lt k -> StronglySorted Z.le k).
  { intros k. induction 1; constructor; [done|]. eapply Forall_impl; [done|]. cbn. lia. }
  apply (StronglySorted_unique Z.le); [by apply Hw|by apply Hw|].
  apply NoDup_Permutation; [by apply sorted_nodup|by apply sorted_nodup|]. intros x.
  by rewrite <- !(elem_of_list_to_set (C := gset Z)), E.
Qed.

Lemma merges_unique (s : smo_st) P m m' : db_inv (database s) -> merges s P m -> merges s P m' -> m = m'.
Proof.
  intros Hi [D1 M1] [D2 M2]. apply map_eq. intros v.
  destruct (m !! v) as [ns|] eqn:E, (m' !! v) as [ns'|] eqn:E'; [|..|done].
  - f_equal. destruct (proj1 (D1 v)) as [i [Hk _]]; [eauto|]. destruct (inv_neighbors _ v Hi Hk) as [X HX].
    destruct (M1 v ns E) as [S1 X1], (M2 v ns' E') as [S2 X2]. apply sorted_set_unique; [done|done|].
    by rewrite (X1 X HX), (X2 X HX).
  - assert (is_Some (m' !! v)) as [? ?] by (apply D2, D1; eauto). congruence.
  - assert (is_Some (m !! v)) as [? ?] by (apply D1, D2; eauto). congruence.
Qed.

Hypothesis Hcompress : NEIGHBOR_COMPRESS = false.

(** Running the merge decides whether there is room. *)
Lemma room_for_run (s : smo_st) P salt p deltas merged gs :
  consistent s -> current s P -> P ∉ old_page_no <$> pending_version_switches_ s ->
  csr_pages (database s) !! P = Some p -> entry_recs (pmap s) P deltas ->
  build_merged_graph salt p deltas (index s) (giant_db (database s)) = Some (merged, gs) ->
  fits (database s) 0 merged -> room_for s P.
Proof.
  intros [[Hc Ht] _ _] Hcur Hold Hp Hr Hb Hf m Hm. rewrite app_nil_r in Hc, Ht.
  destruct (merge_run Hcompress s _ P Hc Hcur Hold ltac:(intros HP; by apply (Ht P HP)) salt deltas Hr)
    as (p' & merged' & gs' & Hp' & Hb' & _ & Hm' & _).
  rewrite Hp in Hp'. injection Hp' as <-. rewrite Hb in Hb'. injection Hb' as <- <-.
  by rewrite (merges_unique s P m merged (sc_db _ _ Hc) Hm Hm').
Qed.

(** The conditions on every list, as a check of the finite map. *)
Lemma fits_intro (d : bw_graph_db_t) k (merged : gmap Z (list Z)) :
  Forall (fun q => g_storable q.2 /\ Z.of_nat (length q.2) < 2 ^ 31) (map_to_list merged) ->
  room (page_bytes := Z.of_nat PAGE_SIZE) (csr_disk d) (size merged + S k) ->
  (if Z.of_nat PAGE_SIZE <? estimate_page_bytes merged
   then Forall (fun q => fits_alone q.2 (slots_for d q.1)) (map_to_list merged)
   else Z.of_nat (vertices_off + size merged * VERTEX_SIZE) +
         lists_bytes (slots_of d merged) (map_to_list merged) <= Z.of_nat PAGE_SIZE) ->
  fits (A := A) (G := G) (SK := SK) d k merged.
Proof.
  intros H1 H2 H3. rewrite Forall_forall in H1. split; [|split; [done|]].
  - intros v ns Hv. by apply (H1 (v, ns)), elem_of_map_to_list.
  - destruct (_ <? _); [|done]. rewrite Forall_forall in H3. intros v ns Hv.
    by apply (H3 (v, ns)), elem_of_map_to_list.
Qed.

End Load.
End LoadState.
