(* ===== verification/Bitmap.v ===== *)
(** * Bitmaps (common/bitmap.h)

    One bit per vertex, in 64-bit words. *)

From S2P Require Import Prelude.

Local Open Scope Z_scope.

Module Bitmap.

Definition WORD_OFFSET (i : Z) : Z := Z.shiftr i 6.
Definition BIT_OFFSET (i : Z) : Z := Z.land i 63.

Record bit_map_t := BitMap { size : Z; data : list Z }.

(** [new unsigned long[]] leaves the words as they were in memory ([raw]). *)
Definition init (raw : list Z) (size : Z) : bit_map_t :=
  BitMap size (resize (Z.to_nat (WORD_OFFSET size) + 1) 0 raw).

(** The words up to and including the last one. *)
Definition clear (b : bit_map_t) : bit_map_t :=
  let bm_size := Z.to_nat (WORD_OFFSET (size b)) in
  BitMap (size b) (replicate (S bm_size) 0 ++ drop (S bm_size) (data b)).

(** The bits of the last word. *)
Definition last_word (size : Z) : Z :=
  let first := Z.shiftl (WORD_OFFSET size) 6 in
  foldl (fun w i => Z.lor w (Z.shiftl 1 (BIT_OFFSET i))) 0 (seqZ first (size - first)).

Definition fill (b : bit_map_t) : bit_map_t :=
  let bm_size := Z.to_nat (WORD_OFFSET (size b)) in
  BitMap (size b) (replicate bm_size 18446744073709551615 ++ last_word (size b) :: drop (S bm_size) (data b)).

(** [None]: the word is not the bitmap's. *)
Definition get_bit (b : bit_map_t) (i : Z) : option Z :=
  w ← data b !! Z.to_nat (WORD_OFFSET i);
  Some (Z.land w (Z.shiftl 1 (BIT_OFFSET i))).

Definition set_bit (b : bit_map_t) (i : Z) : option bit_map_t :=
  w ← data b !! Z.to_nat (WORD_OFFSET i);
  Some (BitMap (size b) (<[Z.to_nat (WORD_OFFSET i) := Z.lor w (Z.shiftl 1 (BIT_OFFSET i))]> (data b))).

(** ** Bits *)

(** Bit [i] is in the bitmap and set. *)
Definition has (b : bit_map_t) (i : Z) : Prop :=
  0 <= i /\ exists w, data b !! Z.to_nat (WORD_OFFSET i) = Some w /\ Z.testbit w (BIT_OFFSET i) = true.

#[export] Instance has_dec b i : Decision (has b i).
Proof.
  unfold has. destruct (decide (0 <= i)) as [H0|]; [|right; tauto].
  destruct (data b !! Z.to_nat (WORD_OFFSET i)) as [w|] eqn:E; [|right; intros (_ & w & ? & _); done].
  destruct (Z.testbit w (BIT_OFFSET i)) eqn:Et; [left; split; [done|]; by exists w|right; intros (_ & w' & [= <-] & ?); congruence].
Defined.

(** The words the bitmap was made with. *)
Definition wf (b : bit_map_t) : Prop := 0 <= size b /\ length (data b) = S (Z.to_nat (WORD_OFFSET (size b))).

Lemma bit_offset_range i : 0 <= BIT_OFFSET i < 64.
Proof. unfold BIT_OFFSET. rewrite (land_ones_mod i 63 6) by done. apply Z.mod_pos_bound. lia. Qed.

Lemma word_offset i : WORD_OFFSET i = i / 64.
Proof. unfold WORD_OFFSET. by rewrite Z.shiftr_div_pow2 by lia. Qed.

Lemma bit_offset i : BIT_OFFSET i = i `mod` 64.
Proof. unfold BIT_OFFSET. by rewrite (land_ones_mod i 63 6) by done. Qed.

Lemma offsets_inj i j : WORD_OFFSET i = WORD_OFFSET j -> BIT_OFFSET i = BIT_OFFSET j -> i = j.
Proof. rewrite !word_offset, !bit_offset. intros. Z.div_mod_to_equations. lia. Qed.

Lemma word_in b i : wf b -> 0 <= i <= size b -> is_Some (data b !! Z.to_nat (WORD_OFFSET i)).
Proof.
  intros [Hs Hl] Hi. apply lookup_lt_is_Some_2. rewrite Hl, !word_offset.
  assert (i / 64 <= size b / 64) by (apply Z.div_le_mono; lia). assert (0 <= i / 64) by (apply Z.div_pos; lia). lia.
Qed.

Lemma get_bit_spec b i : wf b -> 0 <= i <= size b -> exists m, get_bit b i = Some m /\ (m <> 0 <-> has b i).
Proof.
  intros Hw Hi. destruct (word_in b i Hw Hi) as [w E]. unfold get_bit, has. rewrite E. cbn.
  eexists. split; [done|]. pose proof (bit_offset_range i) as Hr. rewrite Z.shiftl_1_l. split.
  - intros Hne. split; [lia|]. exists w. split; [done|]. destruct (Z.testbit w (BIT_OFFSET i)) eqn:Et; [done|].
    exfalso. apply Hne. apply Z.bits_inj'. intros n Hn. rewrite Z.land_spec, Z.bits_0.
    destruct (decide (n = BIT_OFFSET i)) as [->|]; [by rewrite Et|]. rewrite Z.pow2_bits_false by lia. apply andb_false_r.
  - intros (_ & w' & [= <-] & Et) Hz. apply (f_equal (fun z => Z.testbit z (BIT_OFFSET i))) in Hz.
    by rewrite Z.land_spec, Z.bits_0, Et, Z.pow2_bits_true in Hz by lia.
Qed.

Lemma set_bit_spec b i : wf b -> 0 <= i <= size b -> exists b', set_bit b i = Some b' /\ wf b' /\ size b' = size b /\
  forall j, has b' j <-> has b j \/ j = i.
Proof.
  intros Hw Hi. destruct (word_in b i Hw Hi) as [w E]. unfold set_bit. rewrite E. cbn. eexists. split; [done|].
  split; [by unfold wf; cbn; rewrite length_insert|]. split; [done|]. intros j. unfold has. cbn.
  pose proof (bit_offset_range i) as Hr. assert (Hlt := lookup_lt_Some _ _ _ E).
  destruct (decide (0 <= j)) as [Hj|Hj]; [|split; [naive_solver|intros [?|?]; [naive_solver|lia]]].
  assert (Hoff : forall k, 0 <= k -> 0 <= WORD_OFFSET k) by (intros k Hk; rewrite word_offset; apply Z.div_pos; lia).
  destruct (decide (WORD_OFFSET j = WORD_OFFSET i)) as [Ew|Ew].
  - rewrite Ew, list_lookup_insert_eq by done. rewrite E. split.
    + intros (_ & w' & [= <-] & Et). rewrite Z.lor_spec, Z.shiftl_1_l in Et.
      destruct (decide (BIT_OFFSET j = BIT_OFFSET i)) as [Eb|Eb]; [right; by apply offsets_inj|].
      rewrite Z.pow2_bits_false, orb_false_r in Et by congruence. left. split; [done|]. by exists w.
    + intros [(_ & w' & [= <-] & Et)| ->].
      * split; [done|]. eexists. split; [done|]. by rewrite Z.lor_spec, Et.
      * split; [done|]. eexists. split; [done|]. rewrite Z.lor_spec, Z.shiftl_1_l, Z.pow2_bits_true by lia. apply orb_true_r.
  - assert (Hne : Z.to_nat (WORD_OFFSET i) <> Z.to_nat (WORD_OFFSET j)).
    { intros Hx. apply Ew. specialize (Hoff j Hj) as H1. specialize (Hoff i ltac:(lia)) as H2. lia. }
    rewrite list_lookup_insert_ne by done. split; [tauto|]. intros [?| ->]; [done|congruence].
Qed.

Lemma wf_init raw n : 0 <= n -> wf (init raw n).
Proof. intros Hn. split; [done|]. cbn. rewrite length_resize. lia. Qed.

Lemma clear_spec b : wf b -> wf (clear b) /\ size (clear b) = size b /\ forall j, ~ has (clear b) j.
Proof.
  intros [Hs Hl]. unfold clear. rewrite drop_ge by lia. rewrite app_nil_r. split; [split; [done|]; cbn; by rewrite length_replicate|].
  split; [done|]. intros j (_ & w & E & Et). apply lookup_replicate in E as [-> _]. by rewrite Z.bits_0 in Et.
Qed.

Lemma last_word_bits n k : 0 <= n -> 0 <= k -> 
  Z.testbit (last_word n) k = bool_decide (k < n - 64 * (n / 64)).
Proof.
  intros Hn Hk. unfold last_word. set (first := Z.shiftl (WORD_OFFSET n) 6).
  assert (Hf : first = 64 * (n / 64)) by (unfold first; rewrite Z.shiftl_mul_pow2, word_offset; lia).
  assert (Hr : 0 <= n - first < 64) by (rewrite Hf; Z.div_mod_to_equations; lia).
  rewrite <- Hf. replace (n - first) with (Z.of_nat (Z.to_nat (n - first))) at 2 by lia.
  rewrite <- (Z2Nat.id (n - first)) by lia. assert (Hm : (Z.to_nat (n - first) < 64)%nat) by lia.
  induction (Z.to_nat (n - first)) as [|m IH]; [by rewrite seqZ_nil, Z.bits_0, bool_decide_false by lia|].
  rewrite seqZ_S, foldl_snoc, Z.lor_spec, IH, Z.shiftl_1_l by lia.
  assert (Hb : BIT_OFFSET (first + Z.of_nat m) = Z.of_nat m).
  { rewrite bit_offset, Hf, Z.add_comm, Z.mul_comm, Z.mod_add by lia. apply Z.mod_small. lia. }
  rewrite Hb. destruct (decide (k = Z.of_nat m)) as [->|Hne].
  - rewrite Z.pow2_bits_true by lia. rewrite orb_true_r. symmetry. apply bool_decide_true. lia.
  - rewrite Z.pow2_bits_false, orb_false_r by lia. apply bool_decide_ext. lia.
Qed.

Lemma fill_spec b : wf b -> wf (fill b) /\ size (fill b) = size b /\ forall j, has (fill b) j <-> 0 <= j < size b.
Proof.
  intros [Hs Hl]. unfold fill. set (k := Z.to_nat (WORD_OFFSET (size b))). fold k in Hl.
  rewrite drop_ge by lia. assert (Hk : Z.of_nat k = size b / 64).
  { unfold k. rewrite word_offset, Z2Nat.id; [done|]. apply Z.div_pos; lia. }
  split; [split; [done|]; cbn; rewrite length_app, length_replicate; cbn; fold k; lia|]. split; [done|].
  intros j. unfold has. cbn. pose proof (bit_offset_range j) as Hr.
  destruct (decide (0 <= j)) as [Hj|]; [|split; [tauto|lia]].
  assert (Hjw : 0 <= j / 64) by (apply Z.div_pos; lia). rewrite word_offset, bit_offset in *.
  destruct (decide (j / 64 < size b / 64)) as [Hlt|Hge].
  - rewrite lookup_app_l by (rewrite length_replicate; lia). split; [intros _; Z.div_mod_to_equations; lia|].
    intros _. split; [done|]. eexists. split; [apply lookup_replicate; split; [done|lia]|].
    change 18446744073709551615 with (Z.ones 64). apply Z.ones_spec_low. lia.
  - rewrite lookup_app_r by (rewrite length_replicate; lia). rewrite length_replicate. split.
    + intros (_ & w & E & Et). destruct (Z.to_nat (j / 64) - k)%nat as [|m] eqn:Ek; [|by destruct m].
      injection E as <-. rewrite last_word_bits in Et by lia. apply bool_decide_eq_true in Et.
      Z.div_mod_to_equations. lia.
    + intros [_ Hlt]. assert (Hx : j / 64 = size b / 64) by (Z.div_mod_to_equations; lia).
      replace (Z.to_nat (j / 64) - k)%nat with 0%nat by lia. split; [done|]. eexists. split; [done|].
      rewrite last_word_bits by lia. apply bool_decide_true. Z.div_mod_to_equations. lia.
Qed.

(** ** Words are 64 bits wide *)

Definition words_ok (b : bit_map_t) : Prop := Forall (fun w => 0 <= w < 2 ^ 64) (data b).

Lemma lor_word a c : 0 <= a < 2 ^ 64 -> 0 <= c < 2 ^ 64 -> 0 <= Z.lor a c < 2 ^ 64.
Proof.
  intros Ha Hc. assert (0 <= Z.lor a c) by (apply Z.lor_nonneg; lia). split; [done|].
  destruct (decide (Z.lor a c = 0)) as [->|]; [lia|]. apply Z.log2_lt_pow2; [lia|]. rewrite Z.log2_lor by lia.
  assert (Hlog : forall z, 0 <= z < 2 ^ 64 -> Z.log2 z < 64); [|apply Z.max_lub_lt; auto].
  intros z Hz. destruct (decide (z = 0)) as [->|]; [done|]. apply Z.log2_lt_pow2; lia.
Qed.

Lemma bit_word i : 0 <= Z.shiftl 1 (BIT_OFFSET i) < 2 ^ 64.
Proof.
  pose proof (bit_offset_range i). rewrite Z.shiftl_1_l. split; [apply Z.pow_nonneg; lia|]. apply Z.pow_lt_mono_r; lia.
Qed.

Lemma words_ok_set b i b' : words_ok b -> set_bit b i = Some b' -> words_ok b'.
Proof.
  unfold words_ok, set_bit. intros Hb. destruct (data b !! _) as [w|] eqn:E; [|done]. intros [= <-]. cbn.
  apply Forall_insert; [done|]. apply lor_word; [|apply bit_word]. by eapply (Forall_lookup_1 _ _ _ _ Hb E).
Qed.

Lemma words_ok_clear b : words_ok b -> words_ok (clear b).
Proof. intros Hb. apply Forall_app. split; [apply Forall_replicate; lia|by apply Forall_drop]. Qed.

Lemma last_word_range l : forall w, 0 <= w < 2 ^ 64 -> 0 <= foldl (fun w i => Z.lor w (Z.shiftl 1 (BIT_OFFSET i))) w l < 2 ^ 64.
Proof. induction l as [|i l IH]; intros w Hw; [done|]. apply IH, lor_word; [done|apply bit_word]. Qed.

Lemma words_ok_fill b : words_ok b -> words_ok (fill b).
Proof.
  intros Hb. apply Forall_app. split; [apply Forall_replicate; lia|]. constructor; [|by apply Forall_drop].
  apply last_word_range; lia.
Qed.

Lemma words_ok_init raw n : Forall (fun w => 0 <= w < 2 ^ 64) raw -> words_ok (init raw n).
Proof. intros Hr. apply Forall_resize; [lia|done]. Qed.

End Bitmap.
