(* ===== verification/Sequence.v ===== *)
(** * Blocked reductions, scans and packs (common/sequence.h)

    Each primitive has a sequential form, used for one block, and a blocked
    form: reduce every block, combine the block results, finish every block
    with its offset.  The blocked forms compute what the sequential ones do.
    An index map is the list of its values. *)

From S2P Require Import Prelude.

Local Open Scope Z_scope.

Module Sequence.

Definition _block_size : nat := 4096.

(** [1 + (n - 1) / block_size] on 64 bits: [n = 0] wraps around. *)
Definition num_blocks (n block_size : nat) : Z := u64 (1 + u64 (Z.of_nat n - 1) / Z.of_nat block_size).

(** [A.cut(s, e)]. *)
Definition cut {A} (s e : nat) (l : list A) : list A := take (e - s) (drop s l).

(** The slices [sliced_for] visits: block, begin, end. *)
Definition slices (n block_size : nat) : list (nat * nat * nat) :=
  (fun i => (i, i * block_size, Nat.min (i * block_size + block_size) n)%nat) <$> seq 0 (Z.to_nat (num_blocks n block_size)).

(** [sliced_for] filling one entry per block. *)
Definition sliced_map {A B} (f : list A -> B) (block_size : nat) (l : list A) : list B :=
  (fun '(i, s, e) => f (cut s e l)) <$> slices (length l) block_size.

Section Reduce.
Context {T : Type}.
Variable f : T -> T -> T.

(** [None]: [A[0]] of an empty map. *)
Definition reduce_serial (A : list T) : option T :=
  match A with [] => None | r :: A => Some (foldl f r A) end.

Definition reduce (sequential : bool) (A : list T) : option T :=
  if (num_blocks (length A) _block_size <=? 1) || sequential then reduce_serial A
  else Sums ← mapM id (sliced_map reduce_serial _block_size A); reduce_serial Sums.

(** Returns the total; the output is the second component. *)
Fixpoint scan_serial (inclusive : bool) (In : list T) (r : T) : T * list T :=
  match In with
  | [] => (r, [])
  | t :: In =>
    let '(total, Out) := scan_serial inclusive In (f r t) in
    (total, (if inclusive then f r t else r) :: Out)
  end.

(** The offsets of the blocks are the exclusive scan of their sums. *)
Definition scan (inclusive sequential : bool) (In : list T) (zero : T) : option (T * list T) :=
  if (num_blocks (length In) _block_size <=? 2) || sequential then Some (scan_serial inclusive In zero)
  else
    Sums ← mapM id (sliced_map reduce_serial _block_size In);
    let '(total, offsets) := scan_serial false Sums zero in
    let blocks := (fun '((i, s, e), z) => (scan_serial inclusive (cut s e In) z).2)
                    <$> zip (slices (length In) _block_size) offsets in
    Some (total, mjoin blocks).

End Reduce.

Definition reduce_add (I : list Z) : option Z := reduce (fun x y => u64 (x + y)) false I.
Definition scan_add (In : list Z) : option (Z * list Z) := scan (fun x y => u64 (x + y)) false false In 0.

Fixpoint sum_flags_serial (Fl : list bool) : nat :=
  match Fl with [] => 0 | b :: Fl => Nat.b2n b + sum_flags_serial Fl end.

Section Pack.
Context {T : Type}.

(** [Out[k++] = In[i]] for the flagged positions, from the start of [Out]. *)
Fixpoint pack_serial_at (In : list T) (Fl : list bool) (Out : list T) : list T :=
  match In, Fl with
  | x :: In, true :: Fl => match Out with _ :: Out => x :: pack_serial_at In Fl Out | [] => [] end
  | _ :: In, false :: Fl => pack_serial_at In Fl Out
  | _, _ => Out
  end.

(** [raw]: what the fresh array holds. *)
Definition pack_serial (raw : nat -> list T) (In : list T) (Fl : list bool) : list T :=
  pack_serial_at In Fl (raw (sum_flags_serial Fl)).

(** The block loop: each block is written from its offset on. *)
Fixpoint pack_blocks (bs : list (nat * nat * nat)) (offsets : list Z) (In : list T) (Fl : list bool) (Out : list T) : list T :=
  match bs, offsets with
  | (i, s, e) :: bs, o :: offsets =>
    pack_blocks bs offsets In Fl (take (Z.to_nat o) Out ++ pack_serial_at (cut s e In) (cut s e Fl) (drop (Z.to_nat o) Out))
  | _, _ => Out
  end.

Definition pack (sequential : bool) (raw : nat -> list T) (In : list T) (Fl : list bool) : option (list T) :=
  if (num_blocks (length In) _block_size <=? 1) || sequential then Some (pack_serial raw In Fl)
  else
    let Sums := sliced_map (fun b => Z.of_nat (sum_flags_serial b)) _block_size Fl in
    '(m, offsets) ← scan_add Sums;
    Some (pack_blocks (slices (length In) _block_size) offsets In Fl (raw (Z.to_nat m))).

End Pack.

(** The indices whose flag is set. *)
Definition pack_index (raw : nat -> list Z) (Fl : list bool) : option (list Z) :=
  pack false raw (u32 <$> seqZ 0 (Z.of_nat (length Fl))) Fl.

(** ** Blocks *)

Lemma num_blocks_pos n b : (0 < n)%nat -> (0 < b)%nat -> Z.of_nat n < 2 ^ 64 -> num_blocks n b = 1 + (Z.of_nat n - 1) / Z.of_nat b.
Proof.
  intros Hn Hb Hmax. unfold num_blocks. rewrite (wrap_small 64 (Z.of_nat n - 1)) by (split; lia). apply wrap_small.
  assert (0 <= (Z.of_nat n - 1) / Z.of_nat b) by (apply Z.div_pos; lia).
  assert ((Z.of_nat n - 1) / Z.of_nat b <= Z.of_nat n - 1) by (apply Z.div_le_upper_bound; nia). split; lia.
Qed.

(** The blocks of a list, by recursion on their number. *)
Fixpoint chunks {A} (k b : nat) (l : list A) : list (list A) :=
  match k with O => [] | S k => take b l :: chunks k b (drop b l) end.

Lemma cut_chunks {A} (b : nat) (l : list A) k : forall i, 
  (fun j => cut (j * b)%nat (Nat.min (j * b + b) (length l)) l) <$> seq i k = chunks k b (drop (i * b) l).
Proof.
  induction k as [|k IH]; intros i; [done|]. cbn [seq fmap list_fmap chunks]. f_equal.
  - unfold cut. destruct (decide (i * b + b <= length l)%nat).
    + f_equal. lia.
    + rewrite (take_ge (drop (i * b) l) b), take_ge by (rewrite length_drop; lia). done.
  - change (list_fmap _ _ ?g ?x) with (g <$> x). rewrite drop_drop. replace (i * b + b)%nat with (S i * b)%nat by lia. apply IH.
Qed.

Lemma sliced_map_chunks {A B} (f : list A -> B) b (l : list A) :
  sliced_map f b l = f <$> chunks (Z.to_nat (num_blocks (length l) b)) b l.
Proof.
  unfold sliced_map, slices. rewrite <- list_fmap_compose.
  pose proof (cut_chunks b l (Z.to_nat (num_blocks (length l) b)) 0) as Hc. cbn [Nat.mul] in Hc. rewrite drop_0 in Hc.
  by rewrite <- Hc, <- list_fmap_compose.
Qed.

Lemma chunks_join {A} b k : forall l : list A, (length l <= k * b)%nat -> mjoin (chunks k b l) = l.
Proof.
  induction k as [|k IH]; intros l Hl; [destruct l; [done|cbn in Hl; lia]|]. cbn [chunks]. 
  change (mjoin (take b l :: ?x)) with (take b l ++ mjoin x). rewrite IH by (rewrite length_drop; lia). apply take_drop.
Qed.

Lemma num_blocks_cover n b : (0 < n)%nat -> (0 < b)%nat -> Z.of_nat n < 2 ^ 64 ->
  (n <= Z.to_nat (num_blocks n b) * b)%nat /\ ((Z.to_nat (num_blocks n b) - 1) * b < n)%nat.
Proof.
  intros Hn Hb Hmax. rewrite num_blocks_pos by done. set (q := (Z.of_nat n - 1) / Z.of_nat b).
  assert (0 <= q) by (apply Z.div_pos; lia). assert (Hq : q * Z.of_nat b <= Z.of_nat n - 1 < q * Z.of_nat b + Z.of_nat b).
  { unfold q. pose proof (Z.div_mod (Z.of_nat n - 1) (Z.of_nat b)). pose proof (Z.mod_pos_bound (Z.of_nat n - 1) (Z.of_nat b)). lia. }
  replace (Z.to_nat (1 + q)) with (S (Z.to_nat q)) by lia. split; nia.
Qed.

Lemma num_blocks_le n b : (0 < n)%nat -> (0 < b)%nat -> Z.of_nat n < 2 ^ 64 -> (Z.to_nat (num_blocks n b) <= n)%nat.
Proof.
  intros Hn Hb Hmax. rewrite num_blocks_pos by done. assert (0 <= (Z.of_nat n - 1) / Z.of_nat b) by (apply Z.div_pos; lia).
  assert ((Z.of_nat n - 1) / Z.of_nat b <= Z.of_nat n - 1) by (apply Z.div_le_upper_bound; nia). lia.
Qed.

(** No block is empty. *)
Lemma chunks_nonempty {A} b k : (0 < b)%nat -> forall l : list A, ((k - 1) * b < length l)%nat -> Forall (fun c => c <> []) (chunks k b l).
Proof.
  intros Hb. induction k as [|k IH]; intros l Hl; [constructor|]. cbn [chunks]. constructor.
  - destruct l as [|x l]; [cbn in Hl; lia|]. destruct b; [lia|done].
  - destruct k as [|k]; [constructor|]. apply IH. rewrite length_drop. nia.
Qed.

(** ** Reduce and scan *)

Section Laws.
Context {T : Type}.
Variables (f : T -> T -> T).
Hypothesis f_assoc : forall x y z, f x (f y z) = f (f x y) z.

Lemma foldl_assoc l : forall x y, foldl f (f x y) l = f x (foldl f y l).
Proof. induction l as [|z l IH]; intros x y; [done|]. cbn. rewrite <- f_assoc. apply IH. Qed.

(** Reducing non-empty blocks and then their sums reduces the whole. *)
Lemma reduce_serial_app r l1 l2 : reduce_serial f l1 = Some r -> l2 <> [] ->
  reduce_serial f (l1 ++ l2) = f r <$> reduce_serial f l2.
Proof.
  destruct l1 as [|x l1], l2 as [|y l2]; try done. intros [= <-] _. cbn. rewrite foldl_app. cbn. f_equal. apply foldl_assoc.
Qed.

Lemma reduce_chunks cs : Forall (fun c => c <> []) cs -> exists sums, mapM id (reduce_serial f <$> cs) = Some sums /\
  Forall2 (fun c x => reduce_serial f c = Some x) cs sums /\ reduce_serial f sums = reduce_serial f (mjoin cs).
Proof.
  induction 1 as [|c cs Hc Hcs (sums & E & HF & IH)]; [by exists []|].
  destruct (reduce_serial f c) as [r|] eqn:Er; [|by destruct c]. exists (r :: sums). cbn [fmap list_fmap]. rewrite Er.
  change (mapM id (Some r :: ?x)) with (r ← Some r; k ← mapM id x; mret (r :: k)). rewrite E.
  split; [done|]. split; [by constructor|]. change (mjoin (c :: cs)) with (c ++ mjoin cs).
  destruct cs as [|c' cs]; [inversion HF; subst; cbn; by rewrite app_nil_r|].
  assert (Hne : mjoin (c' :: cs) <> []) by (inversion Hcs; subst; by destruct c').
  rewrite (reduce_serial_app _ _ _ Er Hne), <- IH. destruct sums as [|x sums]; [by inversion HF|]. cbn. f_equal. apply foldl_assoc.
Qed.

(** The blocked reduction is the sequential one; of an empty map neither
    exists. *)
Lemma reduce_run sequential A : A <> [] -> Z.of_nat (length A) < 2 ^ 64 -> reduce f sequential A = reduce_serial f A.
Proof.
  intros Hne Hmax. unfold reduce. destruct (_ || _); [done|]. rewrite sliced_map_chunks.
  assert (Hlen : (0 < length A)%nat) by (destruct A; [done|cbn; lia]).
  destruct (num_blocks_cover (length A) _block_size Hlen) as [H1 H2]; [unfold _block_size; lia|done|].
  destruct (reduce_chunks (chunks (Z.to_nat (num_blocks (length A) _block_size)) _block_size A)) as (sums & E & _ & Hr).
  { apply chunks_nonempty; [unfold _block_size; lia|done]. }
  rewrite E. cbn [mbind option_bind]. by rewrite Hr, chunks_join.
Qed.

Lemma scan_serial_total inclusive In : forall r, (scan_serial f inclusive In r).1 = foldl f r In.
Proof.
  induction In as [|t In IH]; intros r; [done|]. cbn. specialize (IH (f r t)). by destruct (scan_serial f inclusive In (f r t)).
Qed.

Lemma scan_serial_app inclusive l1 l2 r :
  (scan_serial f inclusive (l1 ++ l2) r).2 = (scan_serial f inclusive l1 r).2 ++ (scan_serial f inclusive l2 (foldl f r l1)).2.
Proof.
  revert r. induction l1 as [|t l1 IH]; intros r; [done|]. cbn. specialize (IH (f r t)).
  destruct (scan_serial f inclusive (l1 ++ l2) (f r t)), (scan_serial f inclusive l1 (f r t)). cbn in *. by rewrite IH.
Qed.

Lemma foldl_reduce c x r : reduce_serial f c = Some x -> foldl f r c = f r x.
Proof. destruct c as [|t c]; [done|]. intros [= <-]. cbn. apply foldl_assoc. Qed.

(** Scanning each block from the scan of the block sums scans the whole. *)
Lemma scan_chunks inclusive cs sums : Forall2 (fun c x => reduce_serial f c = Some x) cs sums -> forall r,
  mjoin ((fun '(c, z) => (scan_serial f inclusive c z).2) <$> zip cs (scan_serial f false sums r).2) =
    (scan_serial f inclusive (mjoin cs) r).2 /\ foldl f r sums = foldl f r (mjoin cs).
Proof.
  induction 1 as [|c x cs sums Hc HF IH]; intros r; [done|]. change (mjoin (c :: cs)) with (c ++ mjoin cs).
  cbn [scan_serial]. destruct (IH (f r x)) as [IH1 IH2]. destruct (scan_serial f false sums (f r x)) as [t o] eqn:Eo. cbn [snd zip].
  rewrite scan_serial_app, (foldl_reduce c x r Hc), foldl_app. cbn [fmap list_fmap]. split.
  - change (mjoin (?a :: ?b)) with (a ++ mjoin b). f_equal. exact IH1.
  - cbn [foldl]. by rewrite (foldl_reduce c x r Hc).
Qed.

Lemma zip_slices {X} (l : list T) b (os : list X) (g : list T -> X -> list T) :
  (fun '((i, s, e), z) => g (cut s e l) z) <$> zip (slices (length l) b) os =
  (fun '(c, z) => g c z) <$> zip (chunks (Z.to_nat (num_blocks (length l) b)) b l) os.
Proof.
  pose proof (sliced_map_chunks (fun c : list T => c) b l) as Hc. rewrite list_fmap_id in Hc. rewrite <- Hc. unfold sliced_map.
  generalize (slices (length l) b). intros sl. revert os. induction sl as [|[[i s] e] sl IH]; intros os; [done|].
  destruct os as [|o os]; [done|]. cbn. f_equal. apply IH.
Qed.

(** The blocked scan is the sequential one. *)
Lemma scan_run inclusive sequential In zero : Z.of_nat (length In) < 2 ^ 64 -> In <> [] ->
  scan f inclusive sequential In zero = Some (scan_serial f inclusive In zero).
Proof.
  intros Hmax Hne. unfold scan. destruct (_ || _); [done|]. rewrite sliced_map_chunks.
  assert (Hlen : (0 < length In)%nat) by (destruct In; [done|cbn; lia]).
  destruct (num_blocks_cover (length In) _block_size Hlen) as [H1 H2]; [unfold _block_size; lia|done|].
  destruct (reduce_chunks (chunks (Z.to_nat (num_blocks (length In) _block_size)) _block_size In)) as (sums & E & HF & Hr).
  { apply chunks_nonempty; [unfold _block_size; lia|done]. }
  rewrite E. cbn [mbind option_bind]. destruct (scan_chunks inclusive _ _ HF zero) as [S1 S2].
  pose proof (scan_serial_total false sums zero) as Ht. destruct (scan_serial f false sums zero) as [total offsets].
  rewrite (zip_slices In _block_size offsets (fun c z => (scan_serial f inclusive c z).2)).
  cbn [snd] in S1. cbn [fst] in Ht. rewrite S1, Ht, S2, chunks_join by done.
  pose proof (scan_serial_total inclusive In zero) as Hi. destruct (scan_serial f inclusive In zero). cbn in Hi |- *. by rewrite Hi.
Qed.

End Laws.

(** ** Pack *)

(** The flagged values, in order. *)
Definition selected {T} (In : list T) (Fl : list bool) : list T := fst <$> filter (fun x => x.2 = true) (zip In Fl).

Lemma selected_cons {T} (x : T) In b Fl : selected (x :: In) (b :: Fl) = (if b then [x] else []) ++ selected In Fl.
Proof. unfold selected. cbn [zip]. rewrite filter_cons. destruct b; cbn; by destruct (decide _). Qed.

Lemma selected_app {T} (l1 l2 : list T) f1 f2 : length l1 = length f1 -> selected (l1 ++ l2) (f1 ++ f2) = selected l1 f1 ++ selected l2 f2.
Proof. intros H. unfold selected. by rewrite zip_with_app, filter_app, fmap_app. Qed.

Lemma length_selected {T} (In : list T) : forall Fl, length In = length Fl -> length (selected In Fl) = sum_flags_serial Fl.
Proof.
  induction In as [|x In IH]; intros [|b Fl] H; try done. rewrite selected_cons, length_app. cbn [sum_flags_serial].
  rewrite IH by (cbn in H; lia). by destruct b.
Qed.

(** A pack overwrites the start of the output. *)
Lemma pack_serial_at_run {T} (In : list T) : forall Fl Out, length In = length Fl -> (sum_flags_serial Fl <= length Out)%nat ->
  pack_serial_at In Fl Out = selected In Fl ++ drop (sum_flags_serial Fl) Out.
Proof.
  induction In as [|x In IH]; intros [|b Fl] Out H Hl; try done. rewrite selected_cons. cbn [sum_flags_serial] in *.
  cbn in H. destruct b; cbn in Hl |- *.
  - destruct Out as [|o Out]; [cbn in Hl; lia|]. cbn in Hl |- *. rewrite IH by lia. done.
  - apply IH; [lia|lia].
Qed.

Lemma sum_flags_app f1 f2 : sum_flags_serial (f1 ++ f2) = (sum_flags_serial f1 + sum_flags_serial f2)%nat.
Proof. induction f1 as [|b f1 IH]; cbn; [done|lia]. Qed.

(** The blocks as pairs of value and flag lists. *)
Fixpoint pack_pairs {T} (cs : list (list T * list bool)) (offsets : list Z) (Out : list T) : list T :=
  match cs, offsets with
  | (c, g) :: cs, o :: offsets =>
    pack_pairs cs offsets (take (Z.to_nat o) Out ++ pack_serial_at c g (drop (Z.to_nat o) Out))
  | _, _ => Out
  end.

Lemma pack_blocks_pairs {T} (In : list T) Fl b offsets Out : length In = length Fl ->
  pack_blocks (slices (length In) b) offsets In Fl Out =
  pack_pairs (zip (chunks (Z.to_nat (num_blocks (length In) b)) b In) (chunks (Z.to_nat (num_blocks (length In) b)) b Fl)) offsets Out.
Proof.
  intros Hlen. pose proof (sliced_map_chunks (fun c : list T => c) b In) as H1. pose proof (sliced_map_chunks (fun c : list bool => c) b Fl) as H2.
  rewrite list_fmap_id in H1. rewrite list_fmap_id in H2.
  rewrite <- Hlen in H2. rewrite <- H1, <- H2. unfold sliced_map. rewrite <- Hlen.
  generalize (slices (length In) b). intros sl. revert offsets Out.
  induction sl as [|[[i s] e] sl IH]; intros os Out; [done|]. destruct os as [|o os]; [done|]. cbn. apply IH.
Qed.

(** Writing the blocks from the scan of their counts writes the selection. *)
Lemma pack_pairs_run {T} (cs : list (list T * list bool)) : Forall (fun q => length q.1 = length q.2) cs ->
  forall pre Out, (length pre + sum_list (sum_flags_serial <$> cs.*2) = length (pre ++ Out))%nat -> Z.of_nat (length (pre ++ Out)) < 2 ^ 64 ->
  pack_pairs cs (scan_serial (fun x y => u64 (x + y)) false ((fun g => Z.of_nat (sum_flags_serial g)) <$> cs.*2) (Z.of_nat (length pre))).2 (pre ++ Out) =
  pre ++ mjoin ((fun q => selected q.1 q.2) <$> cs).
Proof.
  induction 1 as [|[c g] cs Hc HF IH]; intros pre Out Hl Hmax.
  { cbn in *. rewrite length_app in Hl. assert (Out = []) as -> by (apply nil_length_inv; lia). done. }
  cbn [fmap list_fmap fst snd scan_serial] in *. cbn in Hc. rewrite length_app in Hl, Hmax.
  change (sum_list (?a :: ?b)) with (a + sum_list b)%nat in Hl. set (k := sum_flags_serial g) in *.
  destruct (scan_serial _ false _ (u64 (Z.of_nat (length pre) + Z.of_nat k))) as [t os] eqn:Es. cbn [snd pack_pairs].
  rewrite Nat2Z.id, take_app_length, drop_app_length, pack_serial_at_run by (done || lia). fold k.
  rewrite wrap_small in Es by (split; lia).
  assert (Hlen : length (pre ++ selected c g) = (length pre + k)%nat) by (by rewrite length_app, length_selected).
  specialize (IH (pre ++ selected c g) (drop k Out)). rewrite Hlen, Nat2Z.inj_add in IH.
  change (list_fmap _ _ ?h ?x) with (h <$> x) in *. rewrite Es in IH. cbn [snd] in IH.
  rewrite app_assoc, IH.
  - by rewrite <- app_assoc.
  - rewrite !length_app, length_drop, length_selected by done. fold k. change (list_fmap _ _ ?h ?x) with (h <$> x) in Hl. lia.
  - rewrite !length_app, length_drop, length_selected by done. fold k. lia.
Qed.

Lemma chunks_pairs {T} b k : forall (In : list T) Fl, length In = length Fl -> (length In <= k * b)%nat ->
  Forall (fun q => length q.1 = length q.2) (zip (chunks k b In) (chunks k b Fl)) /\
  (zip (chunks k b In) (chunks k b Fl)).*2 = chunks k b Fl /\
  mjoin ((fun q => selected q.1 q.2) <$> zip (chunks k b In) (chunks k b Fl)) = selected In Fl /\
  sum_list (sum_flags_serial <$> chunks k b Fl) = sum_flags_serial Fl.
Proof.
  induction k as [|k IH]; intros In Fl H Hk.
  { assert (In = []) as -> by (apply nil_length_inv; lia). destruct Fl; [|done]. done. }
  destruct (IH (drop b In) (drop b Fl)) as (H1 & H2 & H3 & H4); [by rewrite !length_drop, H|rewrite length_drop; lia|].
  cbn [chunks zip zip_with fmap list_fmap fst snd]. change (list_fmap _ _ ?h ?x) with (h <$> x). rewrite H2.
  split; [constructor; [cbn; by rewrite !length_take, H|done]|]. split; [done|]. split.
  - change (mjoin (?x :: ?y)) with (x ++ mjoin y). change (zip_with pair ?x ?y) with (zip x y). rewrite H3.
    rewrite <- selected_app by (by rewrite !length_take, H). by rewrite !take_drop.
  - change (sum_list (?x :: ?y)) with (x + sum_list y)%nat. rewrite H4, <- sum_flags_app. by rewrite take_drop.
Qed.

Lemma sum_flags_bound Fl : (sum_flags_serial Fl <= length Fl)%nat.
Proof. induction Fl as [|[] Fl IH]; cbn; lia. Qed.

Lemma u64_add_assoc x y z : u64 (x + u64 (y + z)) = u64 (u64 (x + y) + z).
Proof. unfold wrap. by rewrite Zplus_mod_idemp_r, Zplus_mod_idemp_l, Z.add_assoc. Qed.

Lemma u64_sum l : forall a : Z, 0 <= a -> a + Z.of_nat (sum_list (sum_flags_serial <$> l)) < 2 ^ 64 ->
  foldl (fun x y => u64 (x + y)) a ((fun b => Z.of_nat (sum_flags_serial b)) <$> l) = a + Z.of_nat (sum_list (sum_flags_serial <$> l)).
Proof.
  induction l as [|b l IH]; intros a Ha Hmax; [cbn; lia|]. cbn [fmap list_fmap foldl] in *.
  change (list_fmap _ _ ?h ?x) with (h <$> x) in *. change (sum_list (?x :: ?y)) with (x + sum_list y)%nat in *.
  rewrite wrap_small by (split; lia). rewrite IH by lia. lia.
Qed.

Lemma length_chunks {A} k b : forall l : list A, length (chunks k b l) = k.
Proof. induction k as [|k IH]; intros l; cbn; [done|by rewrite IH]. Qed.

(** The blocked pack is the selection. *)
Lemma pack_run {T} sequential (raw : nat -> list T) (In : list T) Fl : (forall n, length (raw n) = n) -> length In = length Fl ->
  In <> [] -> Z.of_nat (length In) < 2 ^ 64 -> pack sequential raw In Fl = Some (selected In Fl).
Proof.
  intros Hraw Hlen Hne Hmax. unfold pack. destruct (_ || _).
  { unfold pack_serial. rewrite pack_serial_at_run by (rewrite ?Hraw; lia). rewrite drop_ge by (rewrite Hraw; lia). by rewrite app_nil_r. }
  assert (Hpos : (0 < length In)%nat) by (destruct In; [done|cbn; lia]).
  destruct (num_blocks_cover (length In) _block_size Hpos) as [H1 _]; [unfold _block_size; lia|done|].
  rewrite sliced_map_chunks, <- Hlen. set (k := Z.to_nat (num_blocks (length In) _block_size)) in *.
  destruct (chunks_pairs _block_size k In Fl Hlen H1) as (C1 & C2 & C3 & C4).
  assert (Hk : (0 < k)%nat) by (destruct k; lia).
  set (Sums := (fun b => Z.of_nat (sum_flags_serial b)) <$> chunks k _block_size Fl).
  assert (Hs : length Sums = k) by (unfold Sums; by rewrite length_fmap, length_chunks).
  unfold scan_add. rewrite scan_run; [|exact u64_add_assoc|rewrite Hs; pose proof (num_blocks_le (length In) _block_size Hpos ltac:(unfold _block_size; lia) Hmax); unfold k; lia|by intros E; rewrite E in Hs; cbn in Hs; lia].
  cbn [mbind option_bind]. pose proof (scan_serial_total (fun x y => u64 (x + y)) false Sums 0) as Ht.
  assert (Htot : foldl (fun x y => u64 (x + y)) 0 Sums = Z.of_nat (sum_flags_serial Fl)).
  { rewrite <- C4. unfold Sums. rewrite u64_sum; [f_equal; lia|lia|]. rewrite C4. pose proof (sum_flags_bound Fl). lia. }
  rewrite Htot in Ht. pose proof (pack_pairs_run (zip (chunks k _block_size In) (chunks k _block_size Fl)) C1 [] (raw (sum_flags_serial Fl))) as Hp.
  rewrite C2, C3, C4 in Hp. cbn [app length] in Hp. rewrite Hraw in Hp. fold Sums in Hp. pose proof (sum_flags_bound Fl).
  specialize (Hp ltac:(lia) ltac:(lia)). change (Z.of_nat 0) with 0 in Hp.
  destruct (scan_serial _ false Sums 0) as [m offsets]. cbn [fst snd] in Ht, Hp. subst m. rewrite Nat2Z.id. f_equal.
  rewrite pack_blocks_pairs by done. exact Hp.
Qed.

Lemma NoDup_selected {T} (In : list T) : NoDup In -> forall Fl, NoDup (selected In Fl).
Proof.
  induction 1 as [|x In Hx Hnd IH]; intros [|b Fl]; try constructor. rewrite selected_cons. destruct b; [|apply IH].
  constructor; [|apply IH]. intros Hin. apply Hx. unfold selected in Hin. apply list_elem_of_fmap in Hin as ([y c] & -> & Hin).
  apply list_elem_of_filter in Hin as [_ Hin]. by apply elem_of_zip_l in Hin.
Qed.

(** The indices of the set flags, ascending. *)
Lemma pack_index_run raw Fl : (forall n, length (raw n) = n) -> Fl <> [] -> Z.of_nat (length Fl) <= 2 ^ 32 ->
  exists l, pack_index raw Fl = Some l /\ NoDup l /\ forall i, i ∈ l <-> 0 <= i /\ Fl !! Z.to_nat i = Some true.
Proof.
  intros Hraw Hne Hmax. unfold pack_index.
  assert (Hid : u32 <$> seqZ 0 (Z.of_nat (length Fl)) = seqZ 0 (Z.of_nat (length Fl))).
  { trans ((fun x => x) <$> seqZ 0 (Z.of_nat (length Fl))); [|apply list_fmap_id]. apply list_fmap_ext.
    intros j x Hx. apply lookup_seqZ in Hx as [-> Hx]. apply wrap_small. split; lia. }
  rewrite Hid. assert (Hlen : length (seqZ 0 (Z.of_nat (length Fl))) = length Fl) by (rewrite length_seqZ; lia).
  rewrite pack_run; [|done|done| |rewrite Hlen; lia].
  2: { intros E. rewrite E in Hlen. destruct Fl; [done|cbn in Hlen; lia]. }
  eexists. split; [done|]. split.
  - apply NoDup_selected. apply NoDup_seqZ.
  - intros i. unfold selected. rewrite list_elem_of_fmap. split.
    + intros ([x b] & -> & Hx). apply list_elem_of_filter in Hx as [Hb Hx]. cbn in Hb. subst b. cbn [fst].
      apply list_elem_of_lookup in Hx as [j Hj]. apply lookup_zip_with_Some in Hj as (x' & b' & [= <- <-] & E1 & E2).
      apply lookup_seqZ in E1 as [-> _]. rewrite Z.add_0_l, Nat2Z.id. split; [lia|done].
    + intros [Hi E]. exists (i, true). split; [done|]. apply list_elem_of_filter. split; [done|].
      apply list_elem_of_lookup. exists (Z.to_nat i). apply lookup_zip_with_Some. exists i, true. split; [done|]. split; [|done].
      apply lookup_lt_Some in E. apply lookup_seqZ. lia.
Qed.

(** On an empty map the block count wraps around to more than the machine
    can allocate. *)
Lemma num_blocks_0 : num_blocks 0 _block_size = 2 ^ 52.
Proof. reflexivity. Qed.


(** The blocked parallel pack and its serial variant both return the flagged
    entries in order, whatever the fresh array holds, and packing indices
    returns the positions of the set flags. *)
Theorem pack_selects {T : Type} (raw : nat -> list T) (raw_ids : nat -> list Z) (In : list T) (Fl : list bool) :
  (forall n, length (raw n) = n) -> (forall n, length (raw_ids n) = n) -> length In = length Fl -> In <> [] -> Z.of_nat (length In) <= 2 ^ 32 ->
  pack false raw In Fl = Some (selected In Fl) /\ pack true raw In Fl = Some (selected In Fl) /\
  exists l, pack_index raw_ids Fl = Some l /\ NoDup l /\ forall i, i ∈ l <-> 0 <= i /\ Fl !! Z.to_nat i = Some true.
Proof.
  intros Hraw Hids Hlen Hne Hmax. split; [|split]; [apply pack_run; [done..|lia]|apply pack_run; [done..|lia]|].
  apply pack_index_run; [done| |by rewrite <- Hlen]. destruct Fl; [|done]. by destruct In.
Qed.

End Sequence.
