(* ===== verification/VertexSet.v ===== *)
(** * Vertex subsets (mem/vertex_set.h)

    A frontier is kept as a list of vertices (sparse), as a flag per vertex
    (dense), or both; the conversions build the missing form.  This is the
    specialisation without data, [vertex_subset_t]. *)

From S2P Require Import Prelude Sequence.

Local Open Scope Z_scope.

Module VertexSet.
Import Sequence.

(** [s] and [d]: the arrays, or null. *)
Record vertex_subset_t := VertexSubset { s : option (list Z); d : option (list bool); n : Z; m : Z; is_dense : bool }.

(** ** Constructors *)

Definition empty_subset (n : Z) : vertex_subset_t := VertexSubset None None n 0 false.
Definition single_subset (n v : Z) : vertex_subset_t := VertexSubset (Some [v]) None n 1 false.
Definition sparse_subset (n m : Z) (indices : list Z) : vertex_subset_t := VertexSubset (Some indices) None n m false.
Definition dense_subset (n m : Z) (flags : list bool) : vertex_subset_t := VertexSubset None (Some flags) n m true.

(** The active vertices are counted by the blocked reduction. *)
Definition counted_subset (n : Z) (flags : list bool) : option vertex_subset_t :=
  m ← reduce (fun i j => u64 (i + j)) false (Z.b2z <$> take (Z.to_nat n) flags);
  Some (VertexSubset None (Some flags) n m true).

(** ** Access *)

Definition vtx (vs : vertex_subset_t) (i : Z) : option Z := l ← s vs; l !! Z.to_nat i.
Definition is_in (vs : vertex_subset_t) (v : Z) : option bool := f ← d vs; f !! Z.to_nat v.
Definition num_vertices (vs : vertex_subset_t) : Z := n vs.
Definition num_non_zeros (vs : vertex_subset_t) : Z := m vs.
Definition is_empty (vs : vertex_subset_t) : bool := m vs =? 0.
Definition dense (vs : vertex_subset_t) : bool := is_dense vs.

(** ** Conversions *)

(** [None]: the stored count is wrong ([abort]), or both arrays are null. *)
Definition to_sparse (raw : nat -> list Z) (vs : vertex_subset_t) : option vertex_subset_t :=
  match s vs with
  | None =>
    if 0 <? m vs then
      f ← d vs;
      out ← pack_index raw (take (Z.to_nat (n vs)) f);
      if Z.of_nat (length out) =? m vs then Some (VertexSubset (Some out) (d vs) (n vs) (m vs) false) else None
    else Some (VertexSubset None (d vs) (n vs) (m vs) false)
  | Some l => Some (VertexSubset (Some l) (d vs) (n vs) (m vs) false)
  end.

(** [d[s[i]] = 1] for the first [k] entries. *)
Fixpoint set_flags (k : nat) (l : list Z) (f : list bool) : option (list bool) :=
  match k with
  | O => Some f
  | S k =>
    match l with
    | v :: l => if (0 <=? v) && (v <? Z.of_nat (length f)) then set_flags k l (<[Z.to_nat v := true]> f) else None
    | [] => None
    end
  end.

Definition to_dense (vs : vertex_subset_t) : option vertex_subset_t :=
  match d vs with
  | None =>
    f ← set_flags (Z.to_nat (m vs)) (default [] (s vs)) (replicate (Z.to_nat (n vs)) false);
    Some (VertexSubset (s vs) (Some f) (n vs) (m vs) true)
  | Some f => Some (VertexSubset (s vs) (Some f) (n vs) (m vs) true)
  end.

(** ** The set represented *)

(** [vs] represents [X]: both arrays, where present, list it. *)
Record shows (vs : vertex_subset_t) (X : gset Z) : Prop := {
  sh_count : m vs = Z.of_nat (size X);
  sh_range : forall v, v ∈ X -> 0 <= v < n vs;
  sh_sparse : forall l, s vs = Some l -> NoDup l /\ forall v, v ∈ l <-> v ∈ X;
  sh_dense : forall f, d vs = Some f -> Z.of_nat (length f) = n vs /\ forall v, 0 <= v < n vs -> f !! Z.to_nat v = Some (bool_decide (v ∈ X));
  sh_some : 0 < m vs -> is_Some (s vs) \/ is_Some (d vs);
  sh_flag : is_dense vs = true -> is_Some (d vs);
  sh_form : is_dense vs = false -> 0 < m vs -> is_Some (s vs);
  sh_size : 0 <= n vs <= 2 ^ 32
}.

Lemma set_of_list (l : list Z) (X : gset Z) : NoDup l -> (forall v, v ∈ l <-> v ∈ X) -> length l = size X.
Proof.
  intros Hnd Hl. rewrite <- (size_list_to_set (C := gset Z) l Hnd). f_equal. apply set_eq. intros v. rewrite elem_of_list_to_set. apply Hl.
Qed.

Lemma set_flags_run l : forall f, (forall v, v ∈ l -> 0 <= v < Z.of_nat (length f)) ->
  exists f', set_flags (length l) l f = Some f' /\ length f' = length f /\
    forall v, 0 <= v < Z.of_nat (length f) -> f' !! Z.to_nat v = (if bool_decide (v ∈ l) then Some true else f !! Z.to_nat v).
Proof.
  induction l as [|w l IH]; intros f Hl.
  { exists f. split; [done|]. split; [done|]. intros v Hv. by rewrite bool_decide_false by apply not_elem_of_nil. }
  cbn [set_flags length]. destruct (Hl w) as [H0 H1]; [left|]. rewrite (proj2 (Z.leb_le _ _)), (proj2 (Z.ltb_lt _ _)) by lia. cbn [andb].
  destruct (IH (<[Z.to_nat w := true]> f)) as (f' & E & Hlen & Hf').
  { intros v Hv. rewrite length_insert. apply Hl. by right. }
  exists f'. rewrite length_insert in Hlen, Hf'. split; [done|]. split; [done|]. intros v Hv. rewrite Hf' by done.
  destruct (decide (v = w)) as [->|Hne].
  - rewrite (bool_decide_true (w ∈ w :: l)) by left. destruct (bool_decide (w ∈ l)); [done|]. apply list_lookup_insert_eq. lia.
  - rewrite list_lookup_insert_ne by lia. assert (Hx : bool_decide (v ∈ w :: l) = bool_decide (v ∈ l)).
    { apply bool_decide_ext. rewrite elem_of_cons. tauto. }
    by rewrite Hx.
Qed.

(** The dense form can always be built. *)
Lemma to_dense_run vs X : shows vs X -> exists vs', to_dense vs = Some vs' /\ shows vs' X /\ is_dense vs' = true /\
  n vs' = n vs /\ m vs' = m vs.
Proof.
  intros Hs. unfold to_dense. destruct (d vs) as [f|] eqn:Ed.
  { eexists. split; [done|]. split; [|done]. destruct Hs as [H1 H2 H3 H4 H5 H6 H6' H7]. rewrite Ed in *. split; cbn; eauto; done. }
  pose proof (sh_size _ _ Hs) as Hn. pose proof (sh_count _ _ Hs) as Hm.
  set (l := default [] (s vs)).
  assert (Hl : NoDup l /\ (forall v, v ∈ l <-> v ∈ X)).
  { unfold l. destruct (s vs) as [l'|] eqn:Es; [by apply (sh_sparse _ _ Hs)|]. cbn. split; [constructor|].
    intros v. split; [intros Hv; by apply elem_of_nil in Hv|]. intros Hv. exfalso.
    assert (Hpos : 0 < m vs). { rewrite Hm. assert (size X <> 0%nat); [|lia]. intros Hz. apply size_empty_inv in Hz. set_solver. }
    destruct (sh_some _ _ Hs Hpos) as [[? ?]|[? ?]]; congruence. }
  destruct Hl as [Hnd Hl]. pose proof (set_of_list l X Hnd Hl) as Hlen.
  assert (Hk : Z.to_nat (m vs) = length l) by lia. rewrite Hk.
  destruct (set_flags_run l (replicate (Z.to_nat (n vs)) false)) as (f & E & Hfl & Hf).
  { intros v Hv. rewrite length_replicate. apply Hl, (sh_range _ _ Hs) in Hv. lia. }
  rewrite E. cbn [mbind option_bind]. eexists. split; [done|]. split; [|done].
  rewrite length_replicate in Hfl, Hf. destruct Hs as [H1 H2 H3 H4 H5 H6 H6' H7]. split; cbn; [done..| |by eauto|by eauto|done|done].
  intros f0 [= <-]. split; [lia|]. intros v Hv. rewrite Hf by lia.
  rewrite lookup_replicate_2 by lia. rewrite (bool_decide_ext (v ∈ l) (v ∈ X)) by apply Hl. by destruct (bool_decide (v ∈ X)).
Qed.

(** The sparse form can always be built: the count is never found wrong. *)
Lemma to_sparse_run raw vs X : (forall k, length (raw k) = k) -> shows vs X ->
  exists vs', to_sparse raw vs = Some vs' /\ shows vs' X /\ is_dense vs' = false /\
    (0 < m vs -> exists l, s vs' = Some l) /\ n vs' = n vs /\ m vs' = m vs.
Proof.
  intros Hraw Hs. unfold to_sparse. destruct (s vs) as [l|] eqn:Es.
  { eexists. split; [done|]. destruct Hs as [H1 H2 H3 H4 H5 H6 H6' H7]. rewrite Es in *. split; [split; cbn; eauto; done|]. split; [done|].
    split; [|done]. intros _. by exists l. }
  destruct (Z.ltb_spec 0 (m vs)) as [Hpos|Hz].
  2: { eexists. split; [done|]. destruct Hs as [H1 H2 H3 H4 H5 H6 H6' H7]. split; [split; cbn; eauto; [done|lia|done|lia]|]. split; [done|].
    split; [lia|done]. }
  destruct (sh_some _ _ Hs Hpos) as [[? ?]|[f Ef]]; [congruence|]. rewrite Ef. cbn [mbind option_bind].
  destruct (sh_dense _ _ Hs f Ef) as [Hlen Hf]. pose proof (sh_size _ _ Hs) as Hn. pose proof (sh_count _ _ Hs) as Hm.
  rewrite take_ge by lia. destruct (pack_index_run raw f Hraw) as (out & -> & Hnd & Hout).
  { intros ->. cbn in Hlen. assert (X = ∅) as ->; [|rewrite size_empty in Hm; lia].
    apply elem_of_equiv_empty_L. intros v Hv. apply (sh_range _ _ Hs) in Hv. lia. }
  { lia. }
  assert (Hmem : forall v, v ∈ out <-> v ∈ X).
  { intros v. rewrite Hout. split.
    - intros [H0 E]. assert (v < n vs) by (apply lookup_lt_Some in E; lia). rewrite Hf in E by lia.
      injection E as E. by apply bool_decide_eq_true in E.
    - intros Hv. pose proof (sh_range _ _ Hs v Hv). split; [lia|]. rewrite Hf by lia. by rewrite bool_decide_true. }
  cbn [mbind option_bind]. pose proof (set_of_list out X Hnd Hmem). rewrite (proj2 (Z.eqb_eq _ _)) by lia.
  eexists. split; [done|]. split; [|split; [done|split; [intros _; by exists out|done]]].
  destruct Hs as [H1 H2 H3 H4 H5 H6 H6' H7]. split; cbn; [done..| | |by eauto|done|by eauto|done].
  - intros l [= <-]. done.
  - intros f0 [= <-]. by apply H4.
Qed.

(** ** Constructors show what they are given *)

Lemma shows_empty k : 0 <= k <= 2 ^ 32 -> shows (empty_subset k) ∅.
Proof. intros Hk. split; cbn; [done|set_solver|done|done|lia|done|lia|done]. Qed.

Lemma shows_single k v : 0 <= v < k -> k <= 2 ^ 32 -> shows (single_subset k v) {[v]}.
Proof.
  intros Hv Hk. split; cbn; [by rewrite size_singleton|set_solver by lia| |done|eauto|done|eauto|lia].
  intros l [= <-]. split; [apply NoDup_singleton|]. set_solver.
Qed.

Lemma shows_sparse k l : NoDup l -> (forall v, v ∈ l -> 0 <= v < k) -> 0 <= k <= 2 ^ 32 ->
  shows (sparse_subset k (Z.of_nat (length l)) l) (list_to_set l).
Proof.
  intros Hnd Hl Hk. split; cbn; [by rewrite size_list_to_set| | |done|eauto|done|eauto|done].
  - intros v Hv. rewrite elem_of_list_to_set in Hv. by apply Hl.
  - intros l' [= <-]. split; [done|]. intros v. by rewrite elem_of_list_to_set.
Qed.

(** The set of the flags that are up. *)
Definition flagged (f : list bool) : gset Z := filter (fun v => f !! Z.to_nat v = Some true) (list_to_set (seqZ 0 (Z.of_nat (length f)))).

Lemma elem_of_flagged f v : v ∈ flagged f <-> 0 <= v /\ f !! Z.to_nat v = Some true.
Proof.
  unfold flagged. rewrite elem_of_filter, elem_of_list_to_set, elem_of_seqZ. split; [intros [? ?]; split; [lia|done]|].
  intros [Hv E]. split; [done|]. apply lookup_lt_Some in E. lia.
Qed.

Lemma flagged_snoc f b : flagged (f ++ [b]) = flagged f ∪ (if b then {[Z.of_nat (length f)]} else ∅).
Proof.
  apply set_eq. intros v. rewrite elem_of_union, !elem_of_flagged. split.
  - intros [Hv E]. apply lookup_app_Some in E as [E|[Hl E]]; [left; done|right].
    apply list_lookup_singleton_Some in E as [E ->]. set_solver by lia.
  - intros [[Hv E]|Hv]; [split; [done|]; by apply lookup_app_l_Some|]. destruct b; [|set_solver].
    apply elem_of_singleton in Hv as ->. split; [lia|]. rewrite Nat2Z.id. by apply list_lookup_middle.
Qed.

Lemma size_flagged f : Z.of_nat (size (flagged f)) = foldl Z.add 0 (Z.b2z <$> f).
Proof.
  induction f as [|b f IH] using rev_ind; [done|]. rewrite flagged_snoc, fmap_app, foldl_app, <- IH. cbn.
  rewrite size_union.
  - destruct b; [rewrite size_singleton|rewrite size_empty]; cbn; lia.
  - apply elem_of_disjoint. intros v Hv Hb. apply elem_of_flagged in Hv as [Hv E]. apply lookup_lt_Some in E. destruct b; [|set_solver].
    apply elem_of_singleton in Hb. lia.
Qed.

Lemma shows_dense k f : Z.of_nat (length f) = k -> k <= 2 ^ 32 -> shows (dense_subset k (Z.of_nat (size (flagged f))) f) (flagged f).
Proof.
  intros Hl Hk. split; cbn; [done| |done| |eauto|eauto|done|lia].
  - intros v Hv. apply elem_of_flagged in Hv as [? E]. apply lookup_lt_Some in E. lia.
  - intros f' [= <-]. split; [done|]. intros v Hv. destruct (lookup_lt_is_Some_2 f (Z.to_nat v)) as [b E]; [lia|]. rewrite E. f_equal.
    destruct b; symmetry; [apply bool_decide_true|apply bool_decide_false]; rewrite elem_of_flagged; [split; [lia|done]|].
    intros [_ E']. congruence.
Qed.

(** The blocked count is the number of flags that are up. *)
Lemma shows_counted k f : Z.of_nat (length f) = k -> 0 < k <= 2 ^ 32 ->
  exists vs, counted_subset k f = Some vs /\ shows vs (flagged f) /\ is_dense vs = true /\ n vs = k.
Proof.
  intros Hl Hk. unfold counted_subset. rewrite take_ge by lia. assert (Hne : Z.b2z <$> f <> []) by (destruct f; [cbn in Hl; lia|done]).
  rewrite reduce_run; [|exact u64_add_assoc|done|rewrite length_fmap; lia].
  assert (Hsum : reduce_serial (fun i j => u64 (i + j)) (Z.b2z <$> f) = Some (Z.of_nat (size (flagged f)))).
  { rewrite size_flagged. destruct f as [|b f]; [done|]. cbn [fmap list_fmap reduce_serial foldl]. f_equal.
    change (list_fmap _ _ ?h ?x) with (h <$> x). replace (0 + Z.b2z b) with (Z.b2z b) by lia.
    assert (Hb : 0 <= Z.b2z b <= 1) by (destruct b; cbn; lia). assert (Hm : Z.b2z b + Z.of_nat (length f) < 2 ^ 64) by (cbn in Hl; lia).
    clear -Hb Hm. revert Hb Hm. generalize (Z.b2z b) as a. intros a Ha. assert (H0 : 0 <= a) by lia. clear Ha. revert a H0.
    induction f as [|c f IH]; intros a Ha Hm; [done|]. cbn [fmap list_fmap foldl]. change (list_fmap _ _ ?h ?x) with (h <$> x).
    assert (Hc : 0 <= Z.b2z c <= 1) by (destruct c; cbn; lia). cbn [length] in Hm. rewrite wrap_small by (split; lia). apply IH; lia. }
  rewrite Hsum. cbn [mbind option_bind]. eexists. split; [done|]. split; [|done]. apply shows_dense; lia.
Qed.


(** A vertex subset keeps denoting the same set through every sequence of
    conversions between its sparse and its dense form: no conversion aborts,
    whatever uninitialised memory holds, and membership, the count and the list
    of active vertices afterwards are those of the set. *)
Theorem conversions_keep_set (raw : nat -> list Z) (vs : vertex_subset_t) (X : gset Z) (to_dense_form : list bool) :
  (forall k, length (raw k) = k) -> shows vs X ->
  exists vs', foldl (fun acc b => vs ← acc; if b : bool then to_dense vs else to_sparse raw vs) (Some vs) to_dense_form = Some vs' /\
    shows vs' X /\ n vs' = n vs /\ num_non_zeros vs' = Z.of_nat (size X) /\
    (is_dense vs' = true -> forall v, 0 <= v < n vs' -> is_in vs' v = Some (bool_decide (v ∈ X))) /\
    (is_dense vs' = false -> X <> ∅ -> exists l, mapM (vtx vs') (seqZ 0 (num_non_zeros vs')) = Some l /\ NoDup l /\ forall v, v ∈ l <-> v ∈ X).
Proof.
  intros Hraw. revert vs. induction to_dense_form as [|b bs IH]; intros vs Hs.
  - exists vs. split; [done|]. split; [done|]. split; [done|]. split; [apply (sh_count _ _ Hs)|]. split.
    + intros Hd v Hv. destruct (sh_flag _ _ Hs Hd) as [f E]. unfold is_in. rewrite E. cbn. by apply (sh_dense _ _ Hs f E).
    + intros Hd Hne. assert (Hm : 0 < m vs).
      { rewrite (sh_count _ _ Hs). assert (size X <> 0%nat); [|lia]. intros Hz. by apply size_empty_inv, leibniz_equiv in Hz. }
      destruct (sh_form _ _ Hs Hd Hm) as [l El]. destruct (sh_sparse _ _ Hs l El) as [Hnd Hx]. exists l. split; [|done].
      apply mapM_Some_2, Forall2_same_length_lookup_2.
      * rewrite length_seqZ. unfold num_non_zeros. rewrite (sh_count _ _ Hs), <- (set_of_list l X Hnd Hx). lia.
      * intros i x y E1 E2. apply lookup_seqZ in E1 as [-> _]. unfold vtx. rewrite El. cbn. by rewrite Z.add_0_l, Nat2Z.id.
  - cbn [foldl mbind option_bind]. assert (Hstep : exists vs1, (if b then to_dense vs else to_sparse raw vs) = Some vs1 /\ shows vs1 X /\ n vs1 = n vs).
    { destruct b.
      - destruct (to_dense_run vs X Hs) as (vs1 & E & Hs1 & _ & Hn & _). by exists vs1.
      - destruct (to_sparse_run raw vs X Hraw Hs) as (vs1 & E & Hs1 & _ & _ & Hn & _). by exists vs1. }
    destruct Hstep as (vs1 & -> & Hs1 & Hn). destruct (IH vs1 Hs1) as (vs' & E & H1 & H2 & H3). exists vs'. split; [done|]. split; [done|]. split; [congruence|done].
Qed.

End VertexSet.
