(* ===== verification/GraphRead.v ===== *)
(** * What the graph algorithms read

    The algorithms see the graph through neighbour reads that may update caches
    and counters on the way.  The class [NeighborReader] is the promise they
    rely on: a read returns the vertex's list and disturbs no list.  The
    database keeps it (its reads return the lists of the CSR pages and of the
    giant store; delta records are not consulted).  Walks, distances and
    components of the graph read are defined here once. *)

From S2P Require Import Prelude Config DeltaPage VertexIndex PageMap CsrPage Db.

Local Open Scope Z_scope.

(** [adj d v]: the list a read of [v] returns; [None]: the read throws. *)
Class NeighborReader (D : Type) := {
  vertices : D -> nat;
  read : D -> Z -> option (list Z * D);
  adj : D -> Z -> option (list Z);
  read_adj : forall d v, fst <$> read d v = adj d v;
  read_keeps : forall d v l d', read d v = Some (l, d') -> vertices d' = vertices d /\ forall w, adj d' w = adj d w
}.

Module GraphRead.

Section Graph.
Context {D : Type} `{!NeighborReader D}.

(** Every vertex can be read. *)
Definition readable (d : D) : Prop := forall v, 0 <= v < Z.of_nat (vertices d) -> is_Some (adj d v).

(** States with the same graph. *)
Definition same_graph (d d' : D) : Prop := vertices d' = vertices d /\ forall v, adj d' v = adj d v.

#[export] Instance same_graph_preorder : PreOrder same_graph.
Proof.
  split; [done|]. intros a b c [H1 H2] [H3 H4]. split; [congruence|]. intros v. by rewrite H4.
Qed.

Lemma read_run d v l : adj d v = Some l -> exists d', read d v = Some (l, d') /\ same_graph d d'.
Proof.
  intros Ha. rewrite <- read_adj in Ha. destruct (read d v) as [[l' d']|] eqn:E; [|done]. injection Ha as ->.
  exists d'. split; [done|]. by apply (read_keeps d v l).
Qed.

Lemma read_inv d v l d' : read d v = Some (l, d') -> adj d v = Some l /\ same_graph d d'.
Proof. intros E. split; [by rewrite <- read_adj, E|by apply (read_keeps d v l)]. Qed.

Definition vertex (d : D) (v : Z) : Prop := 0 <= v < Z.of_nat (vertices d).

(** Edges to vertices that exist; identifiers past the end are skipped. *)
Definition edge (d : D) (u v : Z) : Prop := vertex d u /\ vertex d v /\ exists l, adj d u = Some l /\ v ∈ l.

Inductive walk (d : D) (s : Z) : nat -> Z -> Prop :=
  | walk_here : vertex d s -> walk d s 0 s
  | walk_step k u v : walk d s k u -> edge d u v -> walk d s (S k) v.

Definition reaches (d : D) (u v : Z) : Prop := exists k, walk d u k v.

(** [k] is the distance of [v] from [s]. *)
Definition distance (d : D) (s v : Z) (k : nat) : Prop := walk d s k v /\ forall j, walk d s j v -> (k <= j)%nat.

Lemma walk_vertex d s k v : walk d s k v -> vertex d s /\ vertex d v.
Proof. induction 1 as [|k u v _ [IH _] (_ & Hv & _)]; auto. Qed.

(** A list of distinct vertices is no longer than the graph. *)
Lemma vertices_bound d l : NoDup l -> (forall v, v ∈ l -> vertex d v) -> (length l <= vertices d)%nat.
Proof.
  intros Hnd Hv. trans (length (seqZ 0 (Z.of_nat (vertices d)))); [|by rewrite length_seqZ, Nat2Z.id].
  apply submseteq_length, NoDup_submseteq; [done|]. intros v Hin. apply elem_of_seqZ. specialize (Hv v Hin).
  unfold vertex in Hv. lia.
Qed.

Lemma walk_trans d s u v j k : walk d s j u -> walk d u k v -> walk d s (j + k) v.
Proof.
  intros H1. induction 1 as [|k w v _ IH He]; [by rewrite Nat.add_0_r|]. rewrite Nat.add_succ_r. by econstructor.
Qed.

Lemma reaches_refl d v : vertex d v -> reaches d v v.
Proof. exists 0%nat. by constructor. Qed.

Lemma reaches_trans d u v w : reaches d u v -> reaches d v w -> reaches d u w.
Proof. intros [j Hj] [k Hk]. exists (j + k)%nat. by eapply walk_trans. Qed.

Lemma reaches_edge d u v : edge d u v -> reaches d u v.
Proof. intros He. exists 1%nat. econstructor; [|done]. constructor. apply He. Qed.

Lemma distance_fun d s v k j : distance d s v k -> distance d s v j -> k = j.
Proof. intros [W1 M1] [W2 M2]. specialize (M1 _ W2). specialize (M2 _ W1). lia. Qed.

(** The vertex before the last of a shortest walk. *)
Lemma distance_pred d s v k : distance d s v (S k) -> exists u, distance d s u k /\ edge d u v.
Proof.
  intros [Hw Hm]. inversion Hw as [|k' u v' Hu He]; subst. exists u. split; [|done]. split; [done|].
  intros j Hj. assert (S k <= S j)%nat by (apply Hm; by econstructor). lia.
Qed.

(** A shortest walk visits each vertex at most once. *)
Lemma distance_bound d s v k : distance d s v k -> (k < vertices d)%nat.
Proof.
  intros Hd. assert (exists l, length l = S k /\ NoDup l /\ forall x, x ∈ l -> vertex d x) as (l & Hl & Hnd & Hv).
  { assert (exists l, length l = S k /\ NoDup l /\ forall x, x ∈ l -> exists j, (j <= k)%nat /\ distance d s x j) as (l & H1 & H2 & H3).
    { revert v Hd. induction k as [|k IH]; intros v Hd.
      - exists [v]. split; [done|]. split; [apply NoDup_singleton|]. intros x ->%list_elem_of_singleton. by exists 0%nat.
      - destruct (distance_pred _ _ _ _ Hd) as (u & Hu & _). destruct (IH u Hu) as (l & Hl & Hnd & Hx).
        exists (v :: l). split; [cbn; lia|]. split.
        + constructor; [|done]. intros Hin. destruct (Hx v Hin) as (j & Hj & Hvj). pose proof (distance_fun _ _ _ _ _ Hd Hvj). lia.
        + intros x Hin. apply elem_of_cons in Hin as [->|Hin]; [by exists (S k)|]. destruct (Hx x Hin) as (j & ? & ?). exists j. split; [lia|done]. }
    exists l. split; [done|]. split; [done|]. intros x Hx. destruct (H3 x Hx) as (j & _ & [Hw _]). by apply walk_vertex in Hw as [_ ?]. }
  pose proof (vertices_bound d l Hnd Hv). lia.
Qed.

(** The graph does not depend on caches. *)
Lemma same_graph_edge d d' u v : same_graph d d' -> edge d' u v <-> edge d u v.
Proof. intros [H1 H2]. unfold edge, vertex. by rewrite H1, H2. Qed.

Lemma same_graph_walk d d' s k v : same_graph d d' -> walk d s k v -> walk d' s k v.
Proof.
  intros Hg. induction 1 as [Hs|k u v _ IH He].
  - constructor. unfold vertex in *. by rewrite (proj1 Hg).
  - econstructor; [done|]. by apply (same_graph_edge d d').
Qed.

Lemma same_graph_readable d d' : same_graph d d' -> readable d -> readable d'.
Proof. intros [H1 H2] Hr v. rewrite H1, H2. apply Hr. Qed.

(** ** Symmetric graphs *)

Definition symmetric (d : D) : Prop := forall u v, edge d u v -> edge d v u.

Lemma walk_sym d u k v : symmetric d -> walk d u k v -> walk d v k u.
Proof.
  intros Hs. induction 1 as [|k w v _ IH He]; [by constructor|].
  change (S k) with (1 + k)%nat. eapply walk_trans; [|exact IH]. econstructor; [|by apply Hs].
  constructor. apply He.
Qed.

Lemma reaches_sym d u v : symmetric d -> reaches d u v -> reaches d v u.
Proof. intros Hs [k Hk]. exists k. by apply walk_sym. Qed.

End Graph.

(** ** The database *)

Section Database.
Context {A G SK : Type} `{cfg : Config} `{!PageMap.PageAllocator A (Z.of_nat DELTA_PAGE_SIZE)}
  `{!GiantStore G} `{!UpdateSketch SK}.
Import DB VIndex.

Abbreviation db := (bw_graph_db_t (A := A) (G := G) (SK := SK)).

(** A neighbour read of the database, and the list it returns. *)
Definition db_adj (s : db) (v : Z) : option (list Z) := fst <$> read_neighbor s v.

Lemma read_neighbor_keeps (s : db) v l s' : read_neighbor s v = Some (l, s') ->
  length (items (vertex_index s')) = length (items (vertex_index s)) /\ forall w, db_adj s' w = db_adj s w.
Proof.
  unfold db_adj, read_neighbor. destruct (vertex_update_sketch_ s) as [sk|] eqn:Es; [|done]. cbn [mbind option_bind].
  destruct (item_of s v) as [item|]; [|done]. cbn [mbind option_bind].
  destruct (get_vertex_location _ _) as [loc|]; [|done]. cbn [mbind option_bind].
  destruct (csr_pages s !! loc.1) as [p|]; [|done]. cbn [mbind option_bind].
  destruct (is_giant item).
  - pose proof (fun w => g_read_stable (giant_db s) v w) as Hst. cbn [giant_db record_read set_sketch].
    destruct (g_read_neighbor (giant_db s) v) as [[ns|] g]; [|done]. cbn [mbind option_bind]. intros [= <- <-]. cbn.
    split; [done|]. intros w. rewrite Es. cbn. unfold item_of; cbn.
    destruct (items (vertex_index s) !! Z.to_nat w) as [i|]; [|done]. cbn.
    destruct (get_vertex_location _ _) as [lw|]; [|done]. cbn. destruct (csr_pages s !! lw.1); [|done]. cbn.
    destruct (is_giant i); [|done]. cbn in Hst. specialize (Hst w).
    destruct (g_read_neighbor g w) as [[]], (g_read_neighbor (giant_db s) w) as [[]]; cbn in Hst |- *; congruence.
  - intros [= <- <-]. cbn. split; [done|]. intros w. rewrite Es. cbn. unfold item_of; cbn.
    destruct (items (vertex_index s) !! Z.to_nat w) as [i|]; [|done]. cbn.
    destruct (get_vertex_location _ _) as [lw|]; [|done]. cbn. destruct (csr_pages s !! lw.1); [|done]. cbn.
    destruct (is_giant i); [|done]. by destruct (g_read_neighbor (giant_db s) w) as [[]].
Qed.

#[export] Instance db_reader : NeighborReader db := {|
  vertices := fun s => length (items (vertex_index s));
  read := read_neighbor;
  adj := db_adj;
  read_adj := fun _ _ => eq_refl;
  read_keeps := read_neighbor_keeps
|}.

End Database.
End GraphRead.
