(* ===== verification/EdgeScan.v ===== *)
(** * Scanning the edges of active vertices (algo/edge_scan.h)

    [bw_edge_scan] hands every edge that leaves a vertex marked in a bitmap to a
    callback.  When the pages outnumber what the buffer holds, the page-local
    scan first groups the active vertices by page with a counting sort, so that
    each page is fetched once; it hands over the same edges. *)

From S2P Require Import Prelude Config VertexIndex DeltaPage PageMap CsrPage Db GraphRead Bitmap.

Local Open Scope Z_scope.

(** The promise of an edge scan: the edges of the marked vertices, as calls of
    the callback, in some order. *)
Class EdgeScanner (D : Type) `{!NeighborReader D} := {
  edge_scan : D -> Bitmap.bit_map_t -> option (list (Z * Z) * D);
  scannable : D -> Prop;
  edge_scan_spec : forall d b, scannable d -> Bitmap.wf b -> Bitmap.words_ok b -> Bitmap.size b = Z.of_nat (vertices d) ->
    exists calls d', edge_scan d b = Some (calls, d') /\ scannable d' /\ GraphRead.same_graph d d' /\
      forall u v, (u, v) ∈ calls <-> Bitmap.has b u /\ exists l, adj d u = Some l /\ v ∈ l
}.

Module EdgeScan.
Import Bitmap GraphRead.

(** ** The active vertices *)

(** [v_id_t] arithmetic: 32 bits. *)
Definition num_words (vertex_count : Z) : nat := Z.to_nat (u32 (vertex_count + 63) / 64).

(** The loop over the bits of a word, left at the first identifier past the end. *)
Fixpoint scan_bits (vertex_count base_vid word : Z) (bits : list Z) : list Z :=
  match bits with
  | [] => []
  | bit :: bits =>
    if Z.land word (Z.shiftl 1 bit) =? 0 then scan_bits vertex_count base_vid word bits
    else let src := u32 (base_vid + bit) in
      if vertex_count <=? src then [] else src :: scan_bits vertex_count base_vid word bits
  end.

Definition scan_word (vertex_count : Z) (word_idx word : Z) : list Z :=
  if word =? 0 then [] else scan_bits vertex_count (u32 (word_idx * 64)) word (seqZ 0 64).

(** The sources the scan of the bitmap reads; [None]: a word past its end. *)
Definition active_sources (b : bit_map_t) (vertex_count : Z) : option (list Z) :=
  ls ← mapM (fun i => scan_word vertex_count (Z.of_nat i) <$> data b !! i) (seq 0 (num_words vertex_count));
  Some (mjoin ls).

(** [__builtin_ctzll]. *)
Fixpoint ctz_pos (p : positive) : Z :=
  match p with xO p => 1 + ctz_pos p | _ => 0 end.

Definition ctz (w : Z) : Z := match w with Zpos p => ctz_pos p | _ => 0 end.

(** The page-local scan's loop: the lowest bit, then [word &= word - 1]. *)
Fixpoint pop_bits (fuel : nat) (vertex_count word_idx word : Z) : list Z :=
  match fuel with
  | O => []
  | S fuel =>
    if word =? 0 then []
    else let src := u32 (word_idx * 64 + ctz word) in
      if vertex_count <=? src then [] else src :: pop_bits fuel vertex_count word_idx (Z.land word (word - 1))
  end.

Definition popped_sources (b : bit_map_t) (vertex_count : Z) : option (list Z) :=
  ls ← mapM (fun i => pop_bits 64 vertex_count (Z.of_nat i) <$> data b !! i) (seq 0 (num_words vertex_count));
  Some (mjoin ls).

(** ** Both loops find the same bits *)

Lemma ctz_spec w : 0 < w -> 0 <= ctz w /\ Z.testbit w (ctz w) = true /\
  (forall k, 0 <= k < ctz w -> Z.testbit w k = false) /\ Z.land w (w - 1) = w - 2 ^ ctz w.
Proof.
  destruct w as [|p|p]; [lia| |lia]. intros _. cbn [ctz]. induction p as [p IH|p IH|]; cbn [ctz_pos].
  - split; [lia|]. split; [done|]. split; [lia|]. rewrite Z.pow_0_r. apply Z.bits_inj'. intros n Hn. rewrite Z.land_spec.
    replace (Z.pos p~1 - 1) with (2 * Z.pos p) by lia. replace (Z.pos p~1) with (2 * Z.pos p + 1) by lia.
    destruct (decide (n = 0)) as [->|]; [by rewrite Z.testbit_even_0, andb_false_r|].
    replace n with (Z.succ (n - 1)) by lia. rewrite Z.testbit_odd_succ, Z.testbit_even_succ by lia. by rewrite andb_diag.
  - destruct IH as (H0 & H1 & H2 & H3). split; [lia|]. replace (Z.pos p~0) with (2 * Z.pos p) by lia.
    replace (1 + ctz_pos p) with (Z.succ (ctz_pos p)) by lia. split; [by rewrite Z.testbit_even_succ by lia|]. split.
    + intros k Hk. destruct (decide (k = 0)) as [->|]; [apply Z.testbit_even_0|]. replace k with (Z.succ (k - 1)) by lia.
      rewrite Z.testbit_even_succ by lia. apply H2. lia.
    + rewrite Z.pow_succ_r by lia. replace (2 * Z.pos p - 2 * 2 ^ ctz_pos p) with (2 * (Z.pos p - 2 ^ ctz_pos p)) by lia.
      rewrite <- H3. apply Z.bits_inj'. intros n Hn. rewrite Z.land_spec.
      replace (2 * Z.pos p - 1) with (2 * (Z.pos p - 1) + 1) by lia.
      destruct (decide (n = 0)) as [->|]; [by rewrite !Z.testbit_even_0|]. replace n with (Z.succ (n - 1)) by lia.
      by rewrite Z.testbit_odd_succ, !Z.testbit_even_succ, Z.land_spec by lia.
  - split; [lia|]. split; [done|]. split; [lia|]. done.
Qed.

(** [word] with its bits below [k] cleared, [m] positions left. *)
Lemma pop_scan n idx : 0 <= idx -> forall m k w w0, (m <= 64)%nat -> k = 64 - Z.of_nat m -> 0 <= w < 2 ^ 64 ->
  (forall i, 0 <= i < k -> Z.testbit w i = false) -> (forall i, k <= i -> Z.testbit w i = Z.testbit w0 i) ->
  forall fuel, (m <= fuel)%nat ->
  pop_bits fuel n idx w = scan_bits n (u32 (idx * 64)) w0 (seqZ k (Z.of_nat m)).
Proof.
  intros Hidx m. induction m as [|m IH]; intros k w w0 Hm Hk Hw Hlow Hhigh fuel Hf.
  - assert (w = 0) as ->; [|by destruct fuel].
    apply Z.bits_inj'. intros i Hi. rewrite Z.bits_0. destruct (decide (i < k)) as [|Hge]; [by apply Hlow|].
    destruct (decide (w = 0)) as [->|]; [by rewrite Z.bits_0|].
    apply Z.bits_above_log2; [lia|]. apply Z.lt_le_trans with 64; [apply Z.log2_lt_pow2; lia|lia].
  - rewrite seqZ_cons by lia. replace (Z.pred (Z.of_nat (S m))) with (Z.of_nat m) by lia. change (Z.succ k) with (k + 1).
    cbn [scan_bits]. assert (Hbit : Z.testbit w0 k = negb (Z.land w0 (Z.shiftl 1 k) =? 0)).
    { rewrite Z.shiftl_1_l. destruct (Z.testbit w0 k) eqn:E; symmetry.
      - apply negb_true_iff, Z.eqb_neq. intros Hz. apply (f_equal (fun z => Z.testbit z k)) in Hz.
        by rewrite Z.land_spec, Z.bits_0, E, Z.pow2_bits_true in Hz by lia.
      - apply negb_false_iff, Z.eqb_eq. apply Z.bits_inj'. intros i Hi. rewrite Z.land_spec, Z.bits_0.
        destruct (decide (i = k)) as [->|]; [by rewrite E|]. rewrite Z.pow2_bits_false by lia. apply andb_false_r. }
    destruct (Z.testbit w0 k) eqn:E.
    + apply symmetry, negb_true_iff in Hbit. rewrite Hbit.
      assert (Hwk : Z.testbit w k = true) by (rewrite Hhigh; [done|lia]).
      assert (Hpos : 0 < w) by (destruct (decide (w = 0)) as [->|]; [by rewrite Z.bits_0 in Hwk|lia]).
      destruct (ctz_spec w Hpos) as (Hc0 & Hc1 & Hc2 & Hc3).
      assert (Hc : ctz w = k).
      { destruct (Z.lt_trichotomy (ctz w) k) as [Hl|[?|Hl]]; [|done|].
        - rewrite Hlow in Hc1 by lia. done.
        - rewrite Hc2 in Hwk by lia. done. }
      destruct fuel as [|fuel]; [lia|]. cbn [pop_bits]. rewrite (proj2 (Z.eqb_neq w 0)) by lia. rewrite Hc.
      assert (Hu : u32 (idx * 64 + k) = u32 (u32 (idx * 64) + k)) by (unfold wrap; by rewrite Zplus_mod_idemp_l).
      rewrite Hu. destruct (n <=? _); [done|]. f_equal.
      assert (Hclear : forall i, 0 <= i -> Z.testbit (Z.land w (w - 1)) i = Z.testbit w i && negb (i =? k)).
      { intros i Hi. rewrite Hc3, Hc. replace (w - 2 ^ k) with (Z.ldiff w (2 ^ k)).
        - rewrite Z.ldiff_spec, (Z.pow2_bits_eqb k) by lia. by rewrite Z.eqb_sym.
        - rewrite Z.sub_nocarry_ldiff; [done|]. apply Z.bits_inj'. intros j Hj. rewrite Z.ldiff_spec, Z.bits_0.
          destruct (decide (j = k)) as [->|]; [by rewrite Hwk, andb_false_r|]. by rewrite Z.pow2_bits_false by lia. }
      apply IH; [lia|lia| | | |lia].
      * rewrite Hc3. assert (2 ^ ctz w <= w); [|lia]. rewrite Hc. apply Z.nlt_ge. intros Hlt.
        rewrite Z.bits_above_log2 in Hwk; [done|lia|]. by apply Z.log2_lt_pow2.
      * intros i Hi. rewrite Hclear by lia. destruct (decide (i = k)) as [->|]; [by rewrite Z.eqb_refl, andb_false_r|].
        by rewrite Hlow by lia.
      * intros i Hi. rewrite Hclear by lia. rewrite (proj2 (Z.eqb_neq i k)) by lia. rewrite andb_true_r. apply Hhigh. lia.
    + apply symmetry, negb_false_iff in Hbit. rewrite Hbit. apply IH; [lia|lia|done| | |lia].
      * intros i Hi. destruct (decide (i = k)) as [->|]; [rewrite Hhigh by lia; done|]. apply Hlow. lia.
      * intros i Hi. apply Hhigh. lia.
Qed.

Lemma pop_scan_word n i w : 0 <= i -> 0 <= w < 2 ^ 64 -> pop_bits 64 n i w = scan_word n i w.
Proof.
  intros Hi Hw. unfold scan_word. destruct (w =? 0) eqn:E; [by apply Z.eqb_eq in E as ->|].
  apply (pop_scan n i Hi 64 0 w w); [lia|lia|exact Hw|lia|reflexivity|lia].
Qed.

Lemma popped_active b n : words_ok b -> popped_sources b n = active_sources b n.
Proof.
  intros Hok. unfold popped_sources, active_sources. f_equal. apply mapM_ext. intros i.
  destruct (data b !! i) as [w|] eqn:E; [|done].
  change (Some (pop_bits 64 n (Z.of_nat i) w) = Some (scan_word n (Z.of_nat i) w)). f_equal. apply pop_scan_word; [lia|].
  unfold words_ok in Hok. rewrite Forall_forall in Hok. apply Hok. by eapply list_elem_of_lookup_2.
Qed.

(** ** What the active sources are *)

Lemma scan_bits_spec n base w : (forall k, 0 <= k < 64 -> u32 (base + k) = base + k) ->
  forall m k, 0 <= k -> k + Z.of_nat m <= 64 ->
  NoDup (scan_bits n base w (seqZ k (Z.of_nat m))) /\
  forall v, v ∈ scan_bits n base w (seqZ k (Z.of_nat m)) <->
    base + k <= v < base + k + Z.of_nat m /\ v < n /\ Z.testbit w (v - base) = true.
Proof.
  intros Hb m. induction m as [|m IH]; intros k Hk Hm.
  { rewrite seqZ_nil by lia. cbn. split; [constructor|]. intros v. rewrite elem_of_nil. lia. }
  rewrite seqZ_cons by lia. replace (Z.pred (Z.of_nat (S m))) with (Z.of_nat m) by lia. change (Z.succ k) with (k + 1).
  cbn [scan_bits]. destruct (IH (k + 1)) as [IHn IHs]; [lia|lia|]. rewrite Hb by lia.
  destruct (Z.land w (Z.shiftl 1 k) =? 0) eqn:E.
  - split; [done|]. intros v. rewrite IHs. assert (Hf : Z.testbit w k = false).
    { apply Z.eqb_eq in E. apply (f_equal (fun z => Z.testbit z k)) in E.
      rewrite Z.land_spec, Z.bits_0, Z.shiftl_1_l, Z.pow2_bits_true in E by lia. by rewrite andb_true_r in E. }
    split; [intros (? & ? & ?); split; [lia|done]|]. intros (Hr & ? & Ht). split; [|done].
    assert (v - base <> k) by congruence. lia.
  - assert (Ht : Z.testbit w k = true).
    { destruct (Z.testbit w k) eqn:Et; [done|]. apply Z.eqb_neq in E. destruct E. apply Z.bits_inj'. intros i Hi.
      rewrite Z.land_spec, Z.bits_0, Z.shiftl_1_l. destruct (decide (i = k)) as [->|]; [by rewrite Et|].
      rewrite Z.pow2_bits_false by lia. apply andb_false_r. }
    destruct (n <=? base + k) eqn:En; [apply Z.leb_le in En|apply Z.leb_gt in En].
    + split; [constructor|]. intros v. rewrite elem_of_nil. lia.
    + split.
      * constructor; [|done]. rewrite IHs. lia.
      * intros v. rewrite elem_of_cons, IHs. split.
        -- intros [->|(? & ? & ?)]; [|split; [lia|done]]. replace (base + k - base) with k by lia. split; [lia|done].
        -- intros (Hr & ? & ?). destruct (decide (v = base + k)) as [->|]; [by left|right]. split; [lia|done].
Qed.

Lemma scan_word_spec n i w : 0 <= i -> i * 64 + 64 <= 2 ^ 32 ->
  NoDup (scan_word n i w) /\
  forall v, v ∈ scan_word n i w <-> i * 64 <= v < i * 64 + 64 /\ v < n /\ Z.testbit w (v - i * 64) = true.
Proof.
  intros Hi Hmax. unfold scan_word. assert (Hu : u32 (i * 64) = i * 64) by (apply wrap_small; solve_width).
  rewrite Hu. destruct (w =? 0) eqn:E.
  - apply Z.eqb_eq in E as ->. split; [constructor|]. intros v. rewrite elem_of_nil, Z.bits_0. naive_solver.
  - destruct (scan_bits_spec n (i * 64) w) with (m := 64%nat) (k := 0) as [H1 H2]; [|lia|lia|].
    { intros k Hk. apply wrap_small. solve_width. }
    split; [done|]. intros v. rewrite H2. replace (i * 64 + 0) with (i * 64) by lia. done.
Qed.

(** Each marked vertex once. *)
Lemma active_sources_spec b n : wf b -> size b = n -> 0 <= n <= 2 ^ 32 - 64 ->
  exists l, active_sources b n = Some l /\ NoDup l /\ forall v, v ∈ l <-> 0 <= v < n /\ has b v.
Proof.
  intros [Hs Hlen] Hn Hmax. unfold active_sources.
  assert (Hw : num_words n = Z.to_nat ((n + 63) / 64)).
  { unfold num_words. rewrite wrap_small; [done|]. change (2 ^ 32) with 4294967296 in Hmax. solve_width. }
  assert (Hk : (num_words n <= length (data b))%nat).
  { rewrite Hw, Hlen, word_offset, Hn. assert ((n + 63) / 64 <= n / 64 + 1) by (Z.div_mod_to_equations; lia).
    assert (0 <= n / 64) by (apply Z.div_pos; lia). lia. }
  assert (Hgen : forall m, (m <= num_words n)%nat ->
    exists ls, Forall2 (fun i l => scan_word n (Z.of_nat i) <$> data b !! i = Some l) (seq 0 m) ls /\
      NoDup (mjoin ls) /\ forall v, v ∈ mjoin ls <-> 0 <= v < Z.of_nat m * 64 /\ v < n /\ has b v).
  { intros m. induction m as [|m IH]; intros Hm.
    { exists []. split; [constructor|]. split; [constructor|]. intros v. cbn. rewrite elem_of_nil. lia. }
    destruct IH as (ls & E & Hnd & Hspec); [lia|]. rewrite seq_S, Nat.add_0_l.
    destruct (lookup_lt_is_Some_2 (data b) m) as [w Ew]; [lia|].
    exists (ls ++ [scan_word n (Z.of_nat m) w]). split; [apply Forall2_app; [done|]; constructor; [by rewrite Ew|constructor]|].
    assert (Hmz : Z.of_nat m * 64 + 64 <= 2 ^ 32).
    { rewrite Hw in Hm. change (2 ^ 32) with 4294967296 in *. Z.div_mod_to_equations. lia. }
    destruct (scan_word_spec n (Z.of_nat m) w) as [Hn1 Hs1]; [lia|done|].
    rewrite join_app. replace (mjoin [scan_word n (Z.of_nat m) w]) with (scan_word n (Z.of_nat m) w)
      by (symmetry; apply app_nil_r). split.
    - apply NoDup_app. split; [done|]. split; [|done]. intros v Hv. apply Hspec in Hv. rewrite Hs1. lia.
    - intros v. rewrite elem_of_app, Hspec, Hs1. unfold has. rewrite word_offset, bit_offset. split.
      + intros [(? & ? & ?)|(Hr & ? & Ht)]; [split; [lia|done]|]. split; [lia|]. split; [done|]. split; [lia|].
        exists w. replace (v / 64) with (Z.of_nat m) by (Z.div_mod_to_equations; lia). rewrite Nat2Z.id. split; [done|].
        replace (v `mod` 64) with (v - Z.of_nat m * 64) by (Z.div_mod_to_equations; lia). done.
      + intros (Hr & Hv & _ & w' & Ew' & Ht). destruct (decide (v < Z.of_nat m * 64)) as [|Hge]; [left|right].
        * split; [lia|]. split; [done|]. split; [lia|]. by exists w'.
        * replace (v / 64) with (Z.of_nat m) in Ew' by (Z.div_mod_to_equations; lia). rewrite Nat2Z.id in Ew'.
          replace w' with w in Ht by congruence. split; [lia|]. split; [done|].
          replace (v `mod` 64) with (v - Z.of_nat m * 64) in Ht by (Z.div_mod_to_equations; lia). done. }
  destruct (Hgen (num_words n)) as (ls & E & Hnd & Hspec); [done|]. apply mapM_Some_2 in E. rewrite E. exists (mjoin ls). split; [done|].
  split; [done|]. intros v. rewrite Hspec. assert (n <= Z.of_nat (num_words n) * 64) by (rewrite Hw; Z.div_mod_to_equations; lia).
  split; [intros (? & ? & ?); split; [lia|done]|intros [? ?]; split; [lia|]; split; [lia|done]].
Qed.

End EdgeScan.
