(* ===== verification/PageScan.v ===== *)
(** * The page-local edge scan (algo/edge_scan.h)

    The active vertices are placed by page with a counting sort; a page is then
    fetched once for all of them.  The edges handed over are those of the plain
    scan, in another order. *)

From S2P Require Import Prelude Config VertexIndex DeltaPage PageMap CsrPage Db GraphRead Bitmap EdgeScan.

Local Open Scope Z_scope.

(** ** Reading a list of sources *)

Module SourceScan.
Import GraphRead.

Section Sources.
Context {D : Type} `{!NeighborReader D}.

(** The calls of the callback. *)
Fixpoint scan_sources (d : D) (srcs : list Z) : option (list (Z * Z) * D) :=
  match srcs with
  | [] => Some ([], d)
  | src :: srcs =>
    '(neighbors, d) ← read d src;
    '(calls, d) ← scan_sources d srcs;
    Some ((pair src <$> neighbors) ++ calls, d)
  end.

Definition calls_of (d : D) (src : Z) : list (Z * Z) := pair src <$> default [] (adj d src).

Lemma calls_of_same d d' src : same_graph d d' -> calls_of d' src = calls_of d src.
Proof. intros [_ H]. unfold calls_of. by rewrite H. Qed.

Lemma bind_calls_same d d' srcs : same_graph d d' -> srcs ≫= calls_of d' = srcs ≫= calls_of d.
Proof. intros Hg. apply list_bind_ext; [|done]. intros v. by apply calls_of_same. Qed.

Lemma scan_sources_run d srcs : (forall v, v ∈ srcs -> is_Some (adj d v)) ->
  exists d', scan_sources d srcs = Some (srcs ≫= calls_of d, d') /\ same_graph d d'.
Proof.
  revert d. induction srcs as [|v srcs IH]; intros d Hr; [by exists d|]. cbn [scan_sources].
  destruct (Hr v) as [ns Hns]; [left|]. destruct (read_run d v ns Hns) as (d1 & -> & Hg). cbn [mbind option_bind].
  destruct (IH d1) as (d2 & E & Hg2).
  { intros w Hw. rewrite (proj2 Hg). apply Hr. by right. }
  rewrite E. cbn [mbind option_bind]. exists d2. split; [|by trans d1]. cbn [mbind list_bind]. unfold calls_of at 2.
  rewrite Hns. cbn. do 2 f_equal. f_equal. by apply bind_calls_same.
Qed.

Lemma elem_of_calls d srcs u v : (u, v) ∈ srcs ≫= calls_of d <-> u ∈ srcs /\ exists l, adj d u = Some l /\ v ∈ l.
Proof.
  rewrite list_elem_of_bind. unfold calls_of. split.
  - intros (w & Hin & Hw). apply list_elem_of_fmap in Hin as (x & [= -> ->] & Hx). split; [done|].
    destruct (adj d w) as [l|]; [by exists l|by apply elem_of_nil in Hx].
  - intros (Hu & l & E & Hv). exists u. split; [|done]. rewrite E. cbn. apply list_elem_of_fmap. by exists v.
Qed.

End Sources.
End SourceScan.

(** ** Counting sort *)

Module Grouping.

Section Grouping.
Context {T : Type}.
Variable key : T -> nat.

(** [++page_counts[page_no]]. *)
Definition page_counts (page_count : nat) (l : list T) : list nat :=
  foldl (fun c x => alter S (key x) c) (replicate page_count 0%nat) l.

Fixpoint prefix_sums (acc : nat) (counts : list nat) : list nat :=
  acc :: match counts with [] => [] | c :: counts => prefix_sums (acc + c) counts end.

(** [grouped_vertices[page_cursors[item.page_no]++] = item]. *)
Fixpoint place (l : list T) (grouped : list T) (page_cursors : list nat) : option (list T) :=
  match l with
  | [] => Some grouped
  | item :: l =>
    c ← page_cursors !! key item;
    place l (<[c := item]> grouped) (<[key item := S c]> page_cursors)
  end.

Definition grouped_by (dummy : T) (page_count : nat) (l : list T) : option (list T * list nat) :=
  let page_offsets := prefix_sums 0 (page_counts page_count l) in
  grouped ← place l (replicate (length l) dummy) page_offsets;
  Some (grouped, page_offsets).

(** The range of one page. *)
Definition slice (grouped : list T) (offsets : list nat) (p : nat) : option (list T) :=
  b ← offsets !! p; e ← offsets !! S p; Some (take (e - b) (drop b grouped)).

(** How many elements have key [p], and key below [p]. *)
Definition count (p : nat) (l : list T) : nat := length (filter (fun x => key x = p) l).
Definition below (p : nat) (l : list T) : nat := length (filter (fun x => key x < p)%nat l).

Lemma below_S p l : below (S p) l = (below p l + count p l)%nat.
Proof.
  unfold below, count. induction l as [|x l IH]; [done|]. rewrite !filter_cons.
  repeat case_decide; cbn; lia.
Qed.

Lemma count_snoc p l x : count p (l ++ [x]) = (count p l + if decide (key x = p) then 1 else 0)%nat.
Proof. unfold count. rewrite filter_app, length_app, filter_cons, filter_nil. by destruct (decide _). Qed.

Lemma below_mono p q l : (p <= q)%nat -> (below p l <= below q l)%nat.
Proof. induction 1 as [|q _ IH]; [done|]. rewrite below_S. lia. Qed.

Lemma below_all p l : (forall x, x ∈ l -> (key x < p)%nat) -> below p l = length l.
Proof.
  intros H. unfold below. induction l as [|x l IH]; [done|]. rewrite filter_cons_True by (apply H; left). cbn. rewrite IH; [done|].
  intros y Hy. apply H. by right.
Qed.

Lemma page_counts_lookup n l p : (p < n)%nat -> page_counts n l !! p = Some (count p l).
Proof.
  intros Hp. unfold page_counts, count. rewrite <- (reverse_involutive l). set (r := reverse l). clearbody r. clear l.
  induction r as [|x r IH]; [by apply lookup_replicate|]. rewrite reverse_cons, foldl_snoc, filter_app, length_app.
  rewrite filter_cons, filter_nil. case_decide as E.
  - rewrite <- E in IH |- *. rewrite list_lookup_alter_eq, IH. cbn. f_equal. lia.
  - rewrite list_lookup_alter_ne by done. rewrite IH. cbn. f_equal. lia.
Qed.

Lemma length_page_counts n l : length (page_counts n l) = n.
Proof.
  unfold page_counts. rewrite <- (reverse_involutive l). induction (reverse l) as [|x r IH]; [by apply length_replicate|].
  by rewrite reverse_cons, foldl_snoc, length_alter.
Qed.

Lemma prefix_sums_lookup cs : forall acc p, (p <= length cs)%nat -> prefix_sums acc cs !! p = Some (acc + sum_list (take p cs))%nat.
Proof.
  induction cs as [|c cs IH]; intros acc p Hp; destruct p as [|p]; cbn [prefix_sums lookup list_lookup take sum_list]; cbn in Hp.
  - cbn. f_equal. lia.
  - lia.
  - f_equal. cbn. lia.
  - cbn. rewrite IH by lia. f_equal. cbn. lia.
Qed.

Lemma sum_counts n l p : (p <= n)%nat -> sum_list (take p (page_counts n l)) = below p l.
Proof.
  induction p as [|p IH]; intros Hp.
  - rewrite take_0. unfold below. induction l as [|x l IHl]; [done|]. rewrite filter_cons_False by lia. done.
  - erewrite take_S_r by (apply page_counts_lookup; lia). rewrite sum_list_with_app, IH, below_S by lia. cbn. unfold id. lia.
Qed.

Lemma offsets_lookup n l p : (p <= n)%nat -> prefix_sums 0 (page_counts n l) !! p = Some (below p l).
Proof. intros Hp. rewrite prefix_sums_lookup by (by rewrite length_page_counts). by rewrite sum_counts. Qed.

Section Placing.
Variables (dummy : T) (n : nat) (all : list T).
Hypothesis keys_ok : forall x, x ∈ all -> (key x < n)%nat.

(** [dn] has been placed: every page holds its elements so far, in order. *)
Record placing (dn grouped : list T) (cursors : list nat) : Prop := {
  pl_length : length grouped = length all;
  pl_cursor : forall p, (p < n)%nat -> cursors !! p = Some (below p all + count p dn)%nat;
  pl_placed : forall p i x, (p < n)%nat -> filter (fun x => key x = p) dn !! i = Some x ->
    grouped !! (below p all + i)%nat = Some x
}.

Lemma count_prefix p dn l : all = dn ++ l -> (count p dn <= count p all)%nat.
Proof. intros ->. unfold count. rewrite filter_app, length_app. lia. Qed.

Lemma place_run l : forall dn grouped cursors, all = dn ++ l -> placing dn grouped cursors ->
  exists grouped' cursors', place l grouped cursors = Some grouped' /\ placing all grouped' cursors'.
Proof.
  induction l as [|x l IH]; intros dn grouped cursors Hall Hp.
  { exists grouped, cursors. rewrite app_nil_r in Hall. by subst dn. }
  assert (Hx : (key x < n)%nat) by (apply keys_ok; rewrite Hall; apply elem_of_app; right; left).
  cbn [place]. rewrite (pl_cursor _ _ _ Hp) by done. cbn [mbind option_bind].
  assert (Hc : (S (count (key x) dn) <= count (key x) all)%nat).
  { rewrite Hall. unfold count. rewrite filter_app, filter_cons_True, length_app by done. cbn. lia. }
  apply (IH (dn ++ [x])); [by rewrite <- app_assoc|].
  pose proof (below_S (key x) all) as HS.
  assert (Hle : (below (S (key x)) all <= length all)%nat) by (unfold below; apply length_filter).
  split.
  - rewrite length_insert. by eapply pl_length.
  - intros p Hpn. rewrite count_snoc.
    destruct (decide (key x = p)) as [<-|Hne].
    + rewrite list_lookup_insert_eq; [f_equal; lia|]. eapply lookup_lt_Some, (pl_cursor _ _ _ Hp). done.
    + rewrite list_lookup_insert_ne by done. rewrite (pl_cursor _ _ _ Hp) by done. f_equal. lia.
  - intros p i y Hpn E. rewrite filter_app, filter_cons, filter_nil in E.
    destruct (decide (key x = p)) as [<-|Hne].
    + apply lookup_app_Some in E as [E|[Hi E]].
      * apply (pl_placed _ _ _ Hp) in E as E'; [|done]. rewrite list_lookup_insert_ne; [done|].
        apply lookup_lt_Some in E. fold (count (key x) dn) in E. lia.
      * fold (count (key x) dn) in Hi, E. apply list_lookup_singleton_Some in E as [Hi' <-].
        replace i with (count (key x) dn) by lia. apply list_lookup_insert_eq. rewrite (pl_length _ _ _ Hp). lia.
    + rewrite app_nil_r in E. rewrite list_lookup_insert_ne; [by apply (pl_placed _ _ _ Hp)|].
      apply lookup_lt_Some in E. fold (count p dn) in E. pose proof (count_prefix p dn _ Hall).
      pose proof (below_S p all). destruct (Nat.lt_ge_cases (key x) p) as [Hlt|Hge].
      * pose proof (below_mono (S (key x)) p all ltac:(lia)). lia.
      * pose proof (below_mono (S p) (key x) all ltac:(lia)). lia.
Qed.

(** The slice of a page is what the list has for it, in the list's order. *)
Lemma grouped_slice : exists grouped offsets, grouped_by dummy n all = Some (grouped, offsets) /\
  forall p, (p < n)%nat -> slice grouped offsets p = Some (filter (fun x => key x = p) all).
Proof.
  unfold grouped_by. destruct (place_run all [] (replicate (length all) dummy) (prefix_sums 0 (page_counts n all))) as
    (grouped & cursors & E & Hp); [done| |].
  { split; [by rewrite length_replicate| |].
    - intros p Hpn. rewrite offsets_lookup by lia. by rewrite Nat.add_0_r.
    - intros p i x _ Ex. by rewrite filter_nil in Ex. }
  rewrite E. cbn. eexists _, _. split; [done|]. intros p Hpn. unfold slice. rewrite !offsets_lookup by lia. cbn. f_equal.
  rewrite below_S. replace (below p all + count p all - below p all)%nat with (count p all) by lia.
  apply list_eq. intros i. destruct (decide (i < count p all)%nat) as [Hi|Hi].
  - rewrite lookup_take_lt, lookup_drop by done. destruct (lookup_lt_is_Some_2 _ _ Hi) as [x Ex]. rewrite Ex.
    by apply (pl_placed _ _ _ Hp).
  - rewrite lookup_take_ge by lia. symmetry. apply lookup_ge_None. fold (count p all). lia.
Qed.

End Placing.

Lemma filter_split (P : T -> Prop) `{forall x, Decision (P x)} l : filter P l ++ filter (fun x => ~ P x) l ≡ₚ l.
Proof.
  induction l as [|x l IH]; [done|]. rewrite !filter_cons. destruct (decide (P x)); destruct (decide (~ P x)); try tauto.
  - cbn. by rewrite IH.
  - by rewrite <- Permutation_middle, IH.
Qed.

(** Going through all keys once goes through the list once. *)
Lemma group_permutation ps : NoDup ps -> forall l, (forall x, x ∈ l -> key x ∈ ps) ->
  (ps ≫= fun p => filter (fun x => key x = p) l) ≡ₚ l.
Proof.
  induction 1 as [|p ps Hp Hnd IH]; intros l Hl.
  - destruct l as [|x l]; [done|]. exfalso. specialize (Hl x ltac:(left)). by apply elem_of_nil in Hl.
  - cbn. trans (filter (fun x => key x = p) l ++ filter (fun x => key x <> p) l); [|apply filter_split].
    apply Permutation_app; [done|]. rewrite <- (IH (filter (fun x => key x <> p) l)).
    + apply reflexive_eq. clear -Hp. induction ps as [|q ps IH]; [done|]. cbn. f_equal.
      * rewrite list_filter_filter. apply list_filter_iff. intros x. split; [|tauto]. intros <-. split; [done|].
        intros E. apply Hp. rewrite E. left.
      * apply IH. intros Hin. apply Hp. by right.
    + intros x Hx. apply list_elem_of_filter in Hx as [Hne Hx]. specialize (Hl x Hx). apply elem_of_cons in Hl as [?|?]; [done|done].
Qed.

End Grouping.
End Grouping.

(** ** The scan over the database *)

Module LocalScan.
Import DB VIndex Csr Bitmap EdgeScan GraphRead SourceScan Grouping.

Section Local.
Context {A G SK : Type} `{cfg : Config} `{!PageMap.PageAllocator A (Z.of_nat DELTA_PAGE_SIZE)}
  `{!GiantStore G} `{!UpdateSketch SK}.

Abbreviation db := (bw_graph_db_t (A := A) (G := G) (SK := SK)).

Record active_vertex_t := ActiveVertex { av_page_no : Z; av_offset : Z; av_src : Z; av_type : vertex_type_t }.

Definition get_vertex_count (s : db) : Z := Z.of_nat (length (items (vertex_index s))).

(** The plain scan: all sources without a bitmap, else the marked ones. *)
Definition plain_edge_scan (s : db) (active_bitmap : option bit_map_t) : option (list (Z * Z) * db) :=
  srcs ← match active_bitmap with
         | None => Some (seqZ 0 (get_vertex_count s))
         | Some b => active_sources b (get_vertex_count s)
         end;
  scan_sources s srcs.

(** Vertices whose page is past the end of the file are left out. *)
Fixpoint collect (page_count : Z) (s : db) (srcs : list Z) : option (list active_vertex_t) :=
  match srcs with
  | [] => Some []
  | src :: srcs =>
    item ← item_of s src;
    version ← protect_vertex_version (vertex_index s) (Z.to_nat src);
    rest ← collect page_count s srcs;
    Some (if v_page_no version <? page_count
          then ActiveVertex (v_page_no version) (v_offset version) src (vertex_type item) :: rest else rest)
  end.

(** [page_seen], [push_back], [std::sort]: the pages in use, ascending. *)
Fixpoint pages_seen (seen : list Z) (l : list active_vertex_t) : list Z :=
  match l with
  | [] => seen
  | a :: l => pages_seen (if decide (av_page_no a ∈ seen) then seen else seen ++ [av_page_no a]) l
  end.

Definition active_pages (l : list active_vertex_t) : list Z := merge_sort Z.le (pages_seen [] l).

(** A vertex of the page that was read; a giant comes from the giant store. *)
Definition read_item (s : db) (page : csr_page_t) (a : active_vertex_t) : option (list Z * db) :=
  if decide (av_type a = GIANT)
  then let '(ns, g) := g_read_neighbor (giant_db s) (av_src a) in ns ← ns; Some (ns, set_giants s g)
  else Some (page_neighbors page (av_offset a), s).

Fixpoint scan_group (s : db) (page : csr_page_t) (l : list active_vertex_t) : option (list (Z * Z) * db) :=
  match l with
  | [] => Some ([], s)
  | a :: l =>
    '(neighbors, s) ← read_item s page a;
    '(calls, s) ← scan_group s page l;
    Some ((pair (av_src a) <$> neighbors) ++ calls, s)
  end.

Fixpoint scan_pages (s : db) (grouped : list active_vertex_t) (page_offsets : list nat) (pages : list Z) :
    option (list (Z * Z) * db) :=
  match pages with
  | [] => Some ([], s)
  | page_no :: pages =>
    group ← slice grouped page_offsets (Z.to_nat page_no);
    page ← csr_pages s !! page_no;
    '(calls, s) ← scan_group s page group;
    '(rest, s) ← scan_pages s grouped page_offsets pages;
    Some (calls ++ rest, s)
  end.

Definition av_dummy : active_vertex_t := ActiveVertex 0 0 0 NORMAL.

Definition bw_page_local_edge_scan (s : db) (active_bitmap : option bit_map_t) (page_count : Z) :
    option (list (Z * Z) * db) :=
  match active_bitmap with
  | None => plain_edge_scan s None
  | Some b =>
    srcs ← popped_sources b (get_vertex_count s);
    active_vertices ← collect page_count s srcs;
    '(grouped, page_offsets) ← grouped_by (fun a => Z.to_nat (av_page_no a)) av_dummy (Z.to_nat page_count) active_vertices;
    scan_pages s grouped page_offsets (active_pages active_vertices)
  end.

Definition bw_should_use_page_local_edge_scan (page_count resident_page_capacity : Z) : bool :=
  resident_page_capacity <? page_count.

(** Without a bitmap the scan is always the plain one. *)
Definition bw_edge_scan (s : db) (active_bitmap : option bit_map_t) (page_count resident_page_capacity : Z) :
    option (list (Z * Z) * db) :=
  match active_bitmap with
  | None => plain_edge_scan s None
  | Some b =>
    if bw_should_use_page_local_edge_scan page_count resident_page_capacity
    then bw_page_local_edge_scan s (Some b) page_count
    else plain_edge_scan s (Some b)
  end.

(** ** Both scans hand over the same edges *)

(** A cached giant read changes no list. *)
Lemma set_giants_same (s : db) v : same_graph s (set_giants s (g_read_neighbor (giant_db s) v).2).
Proof.
  split; [done|]. intros w. cbn [adj db_reader]. unfold db_adj, read_neighbor. cbn [vertex_update_sketch_ set_giants].
  destruct (vertex_update_sketch_ s) as [sk|]; [|done]. cbn [mbind option_bind].
  change (item_of (set_giants s _) w) with (item_of s w). destruct (item_of s w) as [item|]; [|done].
  cbn [mbind option_bind vertex_index set_giants csr_pages].
  destruct (get_vertex_location _ _) as [loc|]; [|done]. cbn [mbind option_bind].
  destruct (csr_pages s !! loc.1) as [p|]; [|done]. cbn [mbind option_bind]. destruct (is_giant item); [|done].
  cbn [giant_db record_read set_sketch set_giants]. pose proof (g_read_stable (giant_db s) v w) as Hst.
  destruct (g_read_neighbor (g_read_neighbor (giant_db s) v).2 w) as [[]], (g_read_neighbor (giant_db s) w) as [[]];
    cbn in Hst |- *; congruence.
Qed.

(** [a] describes a vertex of [s] whose list can be read. *)
Definition describes (s : db) (a : active_vertex_t) : Prop :=
  exists item version, item_of s (av_src a) = Some item /\ av_type a = vertex_type item /\
    protect_vertex_version (vertex_index s) (Z.to_nat (av_src a)) = Some version /\
    av_page_no a = v_page_no version /\ av_offset a = v_offset version /\ is_Some (adj s (av_src a)).

(** The parts of the state a scan reads. *)
Definition same_pages (s s' : db) : Prop := vertex_index s' = vertex_index s /\ csr_pages s' = csr_pages s /\ same_graph s s'.

Lemma same_pages_trans s1 s2 s3 : same_pages s1 s2 -> same_pages s2 s3 -> same_pages s1 s3.
Proof. intros (H1 & H2 & H3) (H4 & H5 & H6). split; [congruence|]. split; [congruence|]. by trans s2. Qed.

Lemma describes_same s s' a : same_pages s s' -> describes s a -> describes s' a.
Proof.
  intros (H1 & _ & H3) (item & ver & E1 & E2 & E3 & E4 & E5 & E6). exists item, ver. unfold item_of in *. rewrite H1.
  rewrite (proj2 H3). done.
Qed.

Lemma read_described s a : describes s a -> exists p s', csr_pages s !! av_page_no a = Some p /\ same_pages s s' /\
  read_item s p a = Some (default [] (adj s (av_src a)), s').
Proof.
  intros (item & ver & E1 & E2 & E3 & E4 & E5 & [l E6]). rewrite E6. cbn [default from_option].
  pose proof (set_giants_same s (av_src a)) as Hsg.
  cbn [adj db_reader] in E6. unfold db_adj, read_neighbor in E6. destruct (vertex_update_sketch_ s) as [sk|]; [|done].
  cbn [mbind option_bind] in E6. rewrite E1 in E6. cbn [mbind option_bind] in E6. unfold get_vertex_location in E6.
  rewrite E3 in E6. cbn [mbind option_bind fst snd] in E6. rewrite E4. unfold read_item. rewrite E5.
  destruct (csr_pages s !! v_page_no ver) as [p|]; [|done]. cbn [mbind option_bind] in E6. exists p. rewrite E2.
  unfold is_giant in E6. case_bool_decide as Hg.
  - cbn [giant_db record_read set_sketch] in E6. rewrite decide_True by done.
    destruct (g_read_neighbor (giant_db s) (av_src a)) as [[ns|] g]; [|done]. injection E6 as ->.
    exists (set_giants s g). done.
  - injection E6 as ->. rewrite decide_False by done. by exists s.
Qed.

Lemma scan_group_run p l : forall s, (forall a, a ∈ l -> describes s a /\ csr_pages s !! av_page_no a = Some p) ->
  exists s', scan_group s p l = Some ((av_src <$> l) ≫= calls_of s, s') /\ same_pages s s'.
Proof.
  induction l as [|a l IH]; intros s Hl; [by exists s|]. cbn [scan_group].
  destruct (Hl a) as [Ha Hpa]; [left|]. destruct (read_described s a Ha) as (p' & s1 & E1 & Hs & Er).
  replace p' with p in Er by congruence. rewrite Er. cbn [mbind option_bind].
  destruct (IH s1) as (s2 & E2 & Hs2).
  { intros b Hb. destruct (Hl b) as [Hd Hp]; [by right|]. split; [by eapply describes_same|]. by rewrite (proj1 (proj2 Hs)). }
  rewrite E2. cbn [mbind option_bind]. exists s2. split; [|by eapply same_pages_trans]. cbn [fmap list_fmap mbind list_bind].
  unfold calls_of at 2. do 2 f_equal. f_equal. by apply bind_calls_same, Hs.
Qed.

Lemma scan_pages_run (l : list active_vertex_t) grouped offsets ps : forall s,
  (forall a, a ∈ l -> describes s a) -> (forall p, p ∈ ps -> 0 <= p) ->
  (forall a, a ∈ l -> 0 <= av_page_no a) -> (forall p, p ∈ ps -> exists a, a ∈ l /\ av_page_no a = p) ->
  (forall p, p ∈ ps -> slice grouped offsets (Z.to_nat p) = Some (filter (fun a => Z.to_nat (av_page_no a) = Z.to_nat p) l)) ->
  exists s', scan_pages s grouped offsets ps =
    Some ((av_src <$> ((Z.to_nat <$> ps) ≫= fun k => filter (fun a => Z.to_nat (av_page_no a) = k) l)) ≫= calls_of s, s') /\
    same_pages s s'.
Proof.
  induction ps as [|p ps IH]; intros s Hd Hps Hl Hex Hsl; [by exists s|]. cbn [scan_pages].
  rewrite Hsl by left. cbn [mbind option_bind]. destruct (Hex p) as (a & Ha & Hap); [left|].
  destruct (read_described s a (Hd a Ha)) as (page & _ & Hpage & _ & _). rewrite Hap in Hpage. rewrite Hpage. cbn [mbind option_bind].
  destruct (scan_group_run page (filter (fun a => Z.to_nat (av_page_no a) = Z.to_nat p) l) s) as (s1 & E1 & Hs1).
  { intros b Hb. apply list_elem_of_filter in Hb as [Hbp Hb]. split; [by apply Hd|].
    specialize (Hl b Hb). specialize (Hps p ltac:(left)). by replace (av_page_no b) with p by lia. }
  rewrite E1. cbn [mbind option_bind]. destruct (IH s1) as (s2 & E2 & Hs2).
  { intros b Hb. eapply describes_same; [done|]. by apply Hd. }
  { intros q Hq. apply Hps. by right. }
  { done. }
  { intros q Hq. apply Hex. by right. }
  { intros q Hq. apply Hsl. by right. }
  rewrite E2. cbn [mbind option_bind]. exists s2. split; [|by eapply same_pages_trans]. cbn [fmap list_fmap mbind list_bind].
  rewrite fmap_app, bind_app. do 2 f_equal. f_equal. by apply bind_calls_same, Hs1.
Qed.

Lemma collect_run pc s srcs : (forall v, v ∈ srcs -> is_Some (adj s v)) ->
  (forall v loc, v ∈ srcs -> get_vertex_location (vertex_index s) (Z.to_nat v) = Some loc -> 0 <= loc.1 < pc) ->
  exists l, collect pc s srcs = Some l /\ av_src <$> l = srcs /\
    forall a, a ∈ l -> describes s a /\ 0 <= av_page_no a < pc.
Proof.
  induction srcs as [|v srcs IH]; intros Hr Hloc.
  { exists []. split; [done|]. split; [done|]. intros a Ha. by apply elem_of_nil in Ha. }
  destruct IH as (l & E & Hsrc & Hl); [intros w Hw; apply Hr; by right|intros w loc Hw; apply Hloc; by right|].
  cbn [collect]. destruct (Hr v) as [ns Hv]; [left|]. pose proof Hv as Hv'. cbn [adj db_reader] in Hv'. unfold db_adj, read_neighbor in Hv'.
  destruct (vertex_update_sketch_ s) as [sk|]; [|done]. cbn [mbind option_bind] in Hv'.
  destruct (item_of s v) as [item|] eqn:Ei; [|done]. cbn [mbind option_bind] in Hv' |- *.
  specialize (Hloc v). unfold get_vertex_location in Hv', Hloc.
  destruct (protect_vertex_version (vertex_index s) (Z.to_nat v)) as [ver|] eqn:Ev; [|done]. cbn [mbind option_bind].
  specialize (Hloc (v_page_no ver, v_offset ver) ltac:(left) eq_refl). cbn in Hloc. rewrite E. cbn [mbind option_bind].
  rewrite (proj2 (Z.ltb_lt _ _)) by lia. eexists. split; [done|]. split; [cbn; by rewrite Hsrc|].
  intros a Ha. apply elem_of_cons in Ha as [->|Ha]; [|by apply Hl]. cbn. split; [|lia]. exists item, ver. do 5 (split; [done|]). by exists ns.
Qed.

Lemma pages_seen_spec l : forall seen, NoDup seen ->
  NoDup (pages_seen seen l) /\ forall p, p ∈ pages_seen seen l <-> p ∈ seen \/ exists a, a ∈ l /\ av_page_no a = p.
Proof.
  induction l as [|a l IH]; intros seen Hnd; cbn [pages_seen].
  { split; [done|]. intros p. split; [by left|]. intros [?|(a & Ha & _)]; [done|by apply elem_of_nil in Ha]. }
  destruct (IH (if decide (av_page_no a ∈ seen) then seen else seen ++ [av_page_no a])) as [H1 H2].
  { destruct (decide _); [done|]. apply NoDup_app. split; [done|]. split; [|apply NoDup_singleton].
    intros p Hp ->%list_elem_of_singleton. done. }
  split; [done|]. intros p. rewrite H2. split.
  - intros [Hp|(b & Hb & <-)]; [|right; exists b; split; [by right|done]]. destruct (decide _) as [Ha|Ha]; [by left|].
    apply elem_of_app in Hp as [Hp| ->%list_elem_of_singleton]; [by left|]. right. exists a. split; [left|done].
  - intros [Hp|(b & Hb & <-)]; [left; destruct (decide _); [done|]; apply elem_of_app; by left|].
    apply elem_of_cons in Hb as [->|Hb]; [|right; by exists b]. left. destruct (decide _); [done|]. apply elem_of_app. right. left.
Qed.

Lemma active_pages_spec l : NoDup (active_pages l) /\ forall p, p ∈ active_pages l <-> exists a, a ∈ l /\ av_page_no a = p.
Proof.
  unfold active_pages. destruct (pages_seen_spec l []) as [H1 H2]; [constructor|].
  rewrite (merge_sort_Permutation Z.le (pages_seen [] l)). split; [done|]. intros p.
  rewrite (merge_sort_Permutation Z.le (pages_seen [] l)), H2, elem_of_nil. tauto.
Qed.

Lemma local_scan_run s b pc : wf b -> words_ok b -> size b = get_vertex_count s -> get_vertex_count s <= 2 ^ 32 - 64 ->
  readable s ->
  (forall v loc, vertex s v -> get_vertex_location (vertex_index s) (Z.to_nat v) = Some loc -> 0 <= loc.1 < pc) ->
  exists calls s1 calls' s2, plain_edge_scan s (Some b) = Some (calls, s1) /\
    bw_page_local_edge_scan s (Some b) pc = Some (calls', s2) /\ calls' ≡ₚ calls /\ same_graph s s1 /\ same_graph s s2 /\
    vertex_index s2 = vertex_index s /\ forall u v, (u, v) ∈ calls <-> has b u /\ exists l, adj s u = Some l /\ v ∈ l.
Proof.
  intros Hwf Hw Hsize Hmax Hr Hloc. unfold plain_edge_scan, bw_page_local_edge_scan. rewrite popped_active by done.
  destruct (active_sources_spec b (get_vertex_count s) Hwf Hsize) as (srcs & -> & Hnd & Hsrcs); [unfold get_vertex_count in *; lia|].
  cbn [mbind option_bind].
  assert (Hv : forall v, v ∈ srcs -> vertex s v) by (intros v Hv; apply Hsrcs in Hv as [? _]; done).
  destruct (scan_sources_run s srcs) as (s1 & E1 & Hs1); [intros v Hin; by apply Hr, Hv|]. rewrite E1.
  destruct (collect_run pc s srcs) as (l & E2 & Hsrc & Hl); [intros v Hin; by apply Hr, Hv|intros v loc Hin; by apply Hloc, Hv|].
  rewrite E2. cbn [mbind option_bind].
  destruct (grouped_slice (fun a => Z.to_nat (av_page_no a)) av_dummy (Z.to_nat pc) l) as (grouped & offsets & E3 & Hsl).
  { intros a Ha. apply Hl in Ha as [_ Ha]. lia. }
  rewrite E3. cbn [mbind option_bind]. destruct (active_pages_spec l) as [Hpn Hps].
  destruct (scan_pages_run l grouped offsets (active_pages l) s) as (s2 & E4 & Hs2).
  { intros a Ha. by apply Hl. }
  { intros p Hp. apply Hps in Hp as (a & Ha & <-). by apply Hl in Ha as [_ [? _]]. }
  { intros a Ha. by apply Hl in Ha as [_ [? _]]. }
  { intros p Hp. by apply Hps. }
  { intros p Hp. apply Hsl. apply Hps in Hp as (a & Ha & <-). apply Hl in Ha as [_ Ha]. lia. }
  rewrite E4. eexists _, s1, _, s2. split; [done|]. split; [done|]. split; [|split; [done|split; [apply Hs2|split; [apply Hs2|]]]].
  - rewrite <- Hsrc. apply bind_Permutation, fmap_Permutation. apply (group_permutation (fun a => Z.to_nat (av_page_no a))).
    + apply NoDup_fmap_2_strong; [|done]. intros p q Hp Hq Hpq. apply Hps in Hp as (a & Ha & <-). apply Hps in Hq as (b' & Hb & <-).
      apply Hl in Ha as [_ [? _]]. apply Hl in Hb as [_ [? _]]. lia.
    + intros a Ha. apply list_elem_of_fmap. exists (av_page_no a). split; [done|]. apply Hps. by exists a.
  - intros u v. rewrite elem_of_calls, Hsrcs. split; [intros [[_ ?] ?]; done|]. intros [Hu (m & Hm & Hin)]. split; [|by exists m].
    split; [|done]. assert (Hx : vertex s u); [|exact Hx]. unfold has in Hu.
    destruct Hu as [Hu0 (w & Ew & Et)]. split; [done|]. cbn [adj db_reader] in Hm. unfold db_adj, read_neighbor, item_of in Hm.
    destruct (vertex_update_sketch_ s); [|done]. cbn [mbind option_bind] in Hm.
    destruct (items (vertex_index s) !! Z.to_nat u) as [i|] eqn:Ei; [|done]. apply lookup_lt_Some in Ei. cbn. lia.
Qed.

(** ** The scan as an interface *)

Lemma read_neighbor_index (s : db) v l s' : read_neighbor s v = Some (l, s') -> vertex_index s' = vertex_index s.
Proof.
  unfold read_neighbor. destruct (vertex_update_sketch_ s) as [sk|]; [|done]. cbn [mbind option_bind].
  destruct (item_of s v) as [item|]; [|done]. cbn [mbind option_bind].
  destruct (get_vertex_location _ _) as [loc|]; [|done]. cbn [mbind option_bind].
  destruct (csr_pages s !! loc.1) as [p|]; [|done]. cbn [mbind option_bind]. destruct (is_giant item).
  - destruct (g_read_neighbor _ v) as [[ns|] g]; [|done]. by intros [= <- <-].
  - by intros [= <- <-].
Qed.

Lemma scan_sources_index srcs : forall (s : db) calls s', scan_sources s srcs = Some (calls, s') -> vertex_index s' = vertex_index s.
Proof.
  induction srcs as [|v srcs IH]; intros s calls s'; cbn [scan_sources]; [by intros [= <- <-]|].
  destruct (read s v) as [[ns s1]|] eqn:E1; [|done]. cbn [mbind option_bind].
  destruct (scan_sources s1 srcs) as [[cs s2]|] eqn:E2; [|done]. intros [= <- <-].
  rewrite (IH _ _ _ E2). by apply (read_neighbor_index _ _ _ _ E1).
Qed.

(** Every vertex is readable and its page is in the file. *)
Definition db_scannable (pc : Z) (s : db) : Prop :=
  readable s /\ get_vertex_count s <= 2 ^ 32 - 64 /\
  forall v loc, vertex s v -> get_vertex_location (vertex_index s) (Z.to_nat v) = Some loc -> 0 <= loc.1 < pc.

Lemma db_scannable_same pc s s' : vertex_index s' = vertex_index s -> same_graph s s' -> db_scannable pc s -> db_scannable pc s'.
Proof.
  intros Hx Hg (H1 & H2 & H3). split; [by eapply same_graph_readable|]. unfold get_vertex_count, vertex in *. cbn [vertices db_reader] in *.
  by rewrite Hx.
Qed.

Lemma edge_scan_run pc cap s b : db_scannable pc s -> wf b -> words_ok b -> size b = get_vertex_count s ->
  exists calls s', bw_edge_scan s (Some b) pc cap = Some (calls, s') /\ db_scannable pc s' /\ same_graph s s' /\
    forall u v, (u, v) ∈ calls <-> has b u /\ exists l, adj s u = Some l /\ v ∈ l.
Proof.
  intros Hok Hw Hwo Hs. destruct Hok as (H1 & H2 & H3).
  destruct (local_scan_run s b pc Hw Hwo Hs H2 H1 H3) as (c1 & s1 & c2 & s2 & E1 & E2 & Hp & Hg1 & Hg2 & Hx2 & Hc).
  unfold bw_edge_scan. destruct (bw_should_use_page_local_edge_scan pc cap).
  - exists c2, s2. split; [done|]. split; [by apply (db_scannable_same pc s)|]. split; [done|]. intros u v. rewrite Hp. apply Hc.
  - exists c1, s1. split; [done|]. split; [|done]. apply (db_scannable_same pc s); [|done..].
    unfold plain_edge_scan in E1. destruct (active_sources _ _) as [srcs|]; [|done]. by eapply scan_sources_index.
Qed.

(** [pc]: the pages of the file; [cap]: the pages the buffer holds. *)
#[export] Instance db_scanner (pc cap : Z) : EdgeScanner db := {|
  edge_scan := fun s b => bw_edge_scan s (Some b) pc cap;
  scannable := db_scannable pc;
  edge_scan_spec := edge_scan_run pc cap
|}.

End Local.

(** The page-local edge scan, which reads the words of the bitmap bit by bit,
    groups the active vertices by page with a counting sort and reads each page
    once, makes the callback's calls of the plain scan, up to order: the edges
    that leave the marked vertices. *)
Theorem local_scan_agrees {A G SK : Type} `{cfg : Config} `{!PageMap.PageAllocator A (Z.of_nat DELTA_PAGE_SIZE)}
    `{!GiantStore G} `{!UpdateSketch SK} (s : bw_graph_db_t (A := A) (G := G) (SK := SK)) (b : bit_map_t) (page_count : Z) :
  wf b -> words_ok b -> size b = get_vertex_count s -> db_scannable page_count s ->
  exists calls s1 calls' s2, plain_edge_scan s (Some b) = Some (calls, s1) /\
    bw_page_local_edge_scan s (Some b) page_count = Some (calls', s2) /\ calls' ≡ₚ calls /\ same_graph s s1 /\ same_graph s s2 /\
    forall u v, (u, v) ∈ calls <-> has b u /\ exists l, adj s u = Some l /\ v ∈ l.
Proof.
  intros Hw Hwo Hs (H1 & H2 & H3).
  destruct (local_scan_run s b page_count Hw Hwo Hs H2 H1 H3) as (c1 & s1 & c2 & s2 & E1 & E2 & Hp & Hg1 & Hg2 & _ & Hc).
  by exists c1, s1, c2, s2.
Qed.

End LocalScan.
