(* ===== verification/Interleave.v ===== *)
(** * Interleaved tasks

    Parallel loops run as tasks over a shared state; a task takes atomic steps.
    A schedule names, step by step, the task that moves next, and a loop ends
    when every task has: [run_all] follows a schedule and then lets each task
    finish.  Every interleaving is that of some schedule. *)

From S2P Require Import Prelude.

Module Interleave.

(** What the other tasks contribute to a list that each task adds to. *)
Lemma omap_split {T B} (g : T -> option B) (ts : list T) i t : ts !! i = Some t ->
  exists rest, omap g ts ≡ₚ option_list (g t) ++ rest /\ forall t', omap g (<[i := t']> ts) ≡ₚ option_list (g t') ++ rest.
Proof.
  intros E. exists (omap g (take i ts) ++ omap g (drop (S i) ts)). split.
  - rewrite <- (take_drop_middle ts i t E) at 1. rewrite omap_app. cbn [omap list_omap]. destruct (g t); cbn [option_list app]; [|done].
    by rewrite <- Permutation_middle.
  - intros t'. rewrite insert_take_drop by (by eapply lookup_lt_Some). rewrite omap_app. cbn [omap list_omap].
    destruct (g t'); cbn [option_list app]; [|done]. by rewrite <- Permutation_middle.
Qed.

Lemma omap_none {T B} (g : T -> option B) (ts : list T) : (forall t, t ∈ ts -> g t = None) -> omap g ts = [].
Proof.
  induction ts as [|t ts IH]; intros Hn; [done|]. cbn [omap list_omap]. rewrite (Hn t) by left. apply IH. intros u Hu. apply Hn. by right.
Qed.

Section Interleave.
Context {S T : Type}.
(** One step of the task at an index; [None]: undefined behaviour. *)
Variable step : S -> nat -> T -> option (S * T).
(** A bound of the steps a task still has to take. *)
Variable weight : T -> nat.

Fixpoint run (sched : list nat) (st : S) (ts : list T) : option (S * list T) :=
  match sched with
  | [] => Some (st, ts)
  | i :: sched =>
    match ts !! i with
    | Some t => '(st, t) ← step st i t; run sched st (<[i := t]> ts)
    | None => run sched st ts
    end
  end.

(** Each task in turn, for as long as it may need. *)
Definition completion (ts : list T) : list nat := seq 0 (length ts) ≫= fun i => replicate (from_option weight 0 (ts !! i)) i.

Definition run_all (sched : list nat) (st : S) (ts : list T) : option (S * list T) :=
  '(st, ts) ← run sched st ts;
  run (completion ts) st ts.

(** An invariant that lets every task step is kept by every schedule. *)
Lemma run_inv (Inv : S -> list T -> Prop) :
  (forall st ts i t, Inv st ts -> ts !! i = Some t -> exists st' t', step st i t = Some (st', t') /\ Inv st' (<[i := t']> ts)) ->
  forall sched st ts, Inv st ts -> exists st' ts', run sched st ts = Some (st', ts') /\ Inv st' ts'.
Proof.
  intros Hstep sched. induction sched as [|i sched IH]; intros st ts Hi; [by exists st, ts|]. cbn [run].
  destruct (ts !! i) as [t|] eqn:E; [|by apply IH]. destruct (Hstep st ts i t Hi E) as (st' & t' & -> & Hi').
  cbn [mbind option_bind]. by apply IH.
Qed.

(** How often a schedule names a task. *)
Definition turns (i : nat) (sched : list nat) : nat := length (filter (fun j => j = i) sched).

Lemma turns_cons i j sched : turns i (j :: sched) = if decide (j = i) then Datatypes.S (turns i sched) else turns i sched.
Proof. unfold turns. rewrite filter_cons. by destruct (decide (j = i)). Qed.

Lemma turns_app i s1 s2 : turns i (s1 ++ s2) = (turns i s1 + turns i s2)%nat.
Proof. unfold turns. by rewrite filter_app, length_app. Qed.

Lemma turns_replicate i k : turns i (replicate k i) = k.
Proof. induction k as [|k IH]; [done|]. cbn [replicate]. by rewrite turns_cons, decide_True, IH. Qed.

(** The completion gives every task its turns. *)
Lemma turns_completion ts i t : ts !! i = Some t -> (weight t <= turns i (completion ts))%nat.
Proof.
  intros Et. assert (Hlt := lookup_lt_Some _ _ _ Et). unfold completion.
  destruct (proj1 (list_elem_of_lookup (seq 0 (length ts)) i)) as [k Ek]; [apply elem_of_seq; lia|].
  rewrite <- (take_drop_middle _ _ _ Ek), bind_app. cbn [mbind list_bind]. rewrite !turns_app, Et. cbn [from_option].
  rewrite turns_replicate. lia.
Qed.

Hypothesis step_weight : forall st i t st' t', step st i t = Some (st', t') -> (weight t' <= weight t - 1)%nat.

Lemma run_weight sched : forall st ts st' ts' i t, run sched st ts = Some (st', ts') -> ts !! i = Some t ->
  exists t', ts' !! i = Some t' /\ (weight t' <= weight t - turns i sched)%nat.
Proof.
  induction sched as [|j sched IH]; intros st ts st' ts' i t E Et; cbn [run] in E.
  { injection E as <- <-. exists t. split; [done|]. cbn. lia. }
  rewrite turns_cons. destruct (ts !! j) as [u|] eqn:Eu.
  - destruct (step st j u) as [[st1 u']|] eqn:Es; [|done]. cbn [mbind option_bind] in E. apply step_weight in Es.
    destruct (decide (j = i)) as [->|Hne].
    + replace u with t in * by congruence. eapply (IH _ _ _ _ i u') in E as (t' & E' & Hle).
      * exists t'. split; [done|]. lia.
      * apply list_lookup_insert_eq. by eapply lookup_lt_Some.
    + eapply IH in E as (t' & E' & Hle); [|by rewrite list_lookup_insert_ne]. by exists t'.
  - destruct (decide (j = i)) as [->|]; [congruence|]. by eapply IH.
Qed.

Lemma run_length sched : forall st ts st' ts', run sched st ts = Some (st', ts') -> length ts' = length ts.
Proof.
  induction sched as [|j sched IH]; intros st ts st' ts' E; cbn [run] in E; [by injection E as <- <-|].
  destruct (ts !! j) as [u|]; [|by eapply IH]. destruct (step st j u) as [[st1 u']|]; [|done].
  cbn [mbind option_bind] in E. apply IH in E. by rewrite length_insert in E.
Qed.

(** The invariant holds at the end, and every task has finished. *)
Lemma run_all_inv (Inv : S -> list T -> Prop) :
  (forall st ts i t, Inv st ts -> ts !! i = Some t -> exists st' t', step st i t = Some (st', t') /\ Inv st' (<[i := t']> ts)) ->
  forall sched st ts, Inv st ts -> exists st' ts', run_all sched st ts = Some (st', ts') /\ Inv st' ts' /\
    length ts' = length ts /\ forall t, t ∈ ts' -> weight t = 0%nat.
Proof.
  intros Hstep sched st ts Hi. unfold run_all. destruct (run_inv Inv Hstep sched st ts Hi) as (st1 & ts1 & E1 & Hi1).
  rewrite E1. cbn [mbind option_bind]. destruct (run_inv Inv Hstep (completion ts1) st1 ts1 Hi1) as (st2 & ts2 & E2 & Hi2).
  exists st2, ts2. split; [done|]. split; [done|]. pose proof (run_length _ _ _ _ _ E1). pose proof (run_length _ _ _ _ _ E2).
  split; [congruence|]. intros t2 Ht. apply list_elem_of_lookup in Ht as [i Et2].
  assert (Hlt : (i < length ts1)%nat) by (apply lookup_lt_Some in Et2; lia).
  destruct (lookup_lt_is_Some_2 ts1 i Hlt) as [t1 Et1]. destruct (run_weight _ _ _ _ _ i t1 E2 Et1) as (t' & E' & Hle).
  replace t2 with t' by congruence. enough (weight t1 <= turns i (completion ts1))%nat by lia. by apply turns_completion.
Qed.

End Interleave.

(** The same when a task's bound depends on the shared state: a step makes
    progress in the states that satisfy the invariant. *)
Section Descent.
Context {S T : Type} (step : S -> nat -> T -> option (S * T)) (weight : T -> nat) (Inv : S -> list T -> Prop).
Hypothesis step_ok : forall st ts i t, Inv st ts -> ts !! i = Some t ->
  exists st' t', step st i t = Some (st', t') /\ Inv st' (<[i := t']> ts) /\ (weight t' <= weight t - 1)%nat.

Lemma run_descends sched : forall st ts, Inv st ts -> exists st' ts', run step sched st ts = Some (st', ts') /\ Inv st' ts' /\
  length ts' = length ts /\ forall i t, ts !! i = Some t -> exists t', ts' !! i = Some t' /\ (weight t' <= weight t - turns i sched)%nat.
Proof.
  induction sched as [|j sched IH]; intros st ts Hi; cbn [run].
  { exists st, ts. split; [done|]. split; [done|]. split; [done|]. intros i t E. exists t. split; [done|]. cbn. lia. }
  destruct (ts !! j) as [u|] eqn:Eu.
  - destruct (step_ok st ts j u Hi Eu) as (st1 & u' & -> & Hi1 & Hw). cbn [mbind option_bind].
    destruct (IH st1 _ Hi1) as (st' & ts' & -> & Hi' & Hl & Hd). exists st', ts'. rewrite length_insert in Hl.
    do 3 (split; [done|]). intros i t E. rewrite turns_cons. destruct (decide (j = i)) as [->|Hne].
    + destruct (Hd i u') as (t' & ? & ?); [by apply list_lookup_insert_eq; eapply lookup_lt_Some|]. exists t'.
      split; [done|]. replace t with u by congruence. lia.
    + apply Hd. by rewrite list_lookup_insert_ne.
  - destruct (IH st ts Hi) as (st' & ts' & -> & Hi' & Hl & Hd). exists st', ts'. do 3 (split; [done|]).
    intros i t E. rewrite turns_cons. destruct (decide (j = i)) as [->|]; [congruence|]. by apply Hd.
Qed.

Lemma run_all_descends sched st ts : Inv st ts -> exists st' ts', run_all step weight sched st ts = Some (st', ts') /\ Inv st' ts' /\
  length ts' = length ts /\ forall t, t ∈ ts' -> weight t = 0%nat.
Proof.
  intros Hi. unfold run_all. destruct (run_descends sched st ts Hi) as (st1 & ts1 & -> & Hi1 & Hl1 & _). cbn [mbind option_bind].
  destruct (run_descends (completion weight ts1) st1 ts1 Hi1) as (st2 & ts2 & -> & Hi2 & Hl2 & Hd). exists st2, ts2.
  split; [done|]. split; [done|]. split; [congruence|]. intros t2 Ht. apply list_elem_of_lookup in Ht as [i Et2].
  assert (Hlt : (i < length ts1)%nat) by (apply lookup_lt_Some in Et2; lia).
  destruct (lookup_lt_is_Some_2 ts1 i Hlt) as [t1 Et1]. destruct (Hd i t1 Et1) as (t' & E' & Hle).
  replace t2 with t' by congruence. enough (weight t1 <= turns i (completion weight ts1))%nat by lia.
  by apply turns_completion.
Qed.

End Descent.

(** Loops that retry when another task got ahead: a task may have to start
    again because of the others, but has [weight] steps at most to take alone.
    [left st t]: the steps [t] needs alone from [st]. *)
Section LockFree.
Context {S T : Type} (step : S -> nat -> T -> option (S * T)) (weight : T -> nat) (left : S -> T -> nat) (Inv : S -> list T -> Prop).
Hypothesis step_ok : forall st ts i t, Inv st ts -> ts !! i = Some t ->
  exists st' t', step st i t = Some (st', t') /\ Inv st' (<[i := t']> ts) /\ (left st' t' <= left st t - 1)%nat.
Hypothesis left_weight : forall st t, (left st t <= weight t)%nat.
(** A task that has ended has ended for good. *)
Hypothesis left_ended : forall st st' t, left st t = 0%nat -> left st' t = 0%nat.

Lemma run_block k i : forall st ts t, Inv st ts -> ts !! i = Some t -> (left st t <= k)%nat ->
  exists st' ts' t', run step (replicate k i) st ts = Some (st', ts') /\ Inv st' ts' /\ length ts' = length ts /\
    ts' !! i = Some t' /\ left st' t' = 0%nat /\ forall j, j <> i -> ts' !! j = ts !! j.
Proof.
  induction k as [|k IH]; intros st ts t Hi Et Hk; cbn [replicate run].
  { exists st, ts, t. do 4 (split; [done|]). split; [lia|done]. }
  rewrite Et. destruct (step_ok st ts i t Hi Et) as (st1 & t1 & -> & Hi1 & Hl). cbn [mbind option_bind].
  destruct (IH st1 (<[i := t1]> ts) t1 Hi1) as (st' & ts' & t' & -> & Hi' & Hlen & Et' & Hz & Hj); [|lia|].
  { apply list_lookup_insert_eq. by eapply lookup_lt_Some. }
  exists st', ts', t'. rewrite length_insert in Hlen. do 5 (split; [done|]). intros j Hne. rewrite Hj by done. by rewrite list_lookup_insert_ne.
Qed.

Lemma run_sched_app s1 s2 : forall st ts, run step (s1 ++ s2) st ts = '(st, ts) ← run step s1 st ts; run step s2 st ts.
Proof.
  induction s1 as [|j s1 IH]; intros st ts; [done|]. cbn [app run]. destruct (ts !! j) as [u|]; [|apply IH].
  destruct (step st j u) as [[]|]; [apply IH|done].
Qed.

Lemma run_blocks (w : nat -> nat) js : NoDup js -> forall st ts, Inv st ts ->
  (forall i t, i ∈ js -> ts !! i = Some t -> (weight t <= w i)%nat) -> (forall i, i ∈ js -> (i < length ts)%nat) ->
  exists st' ts', run step (js ≫= fun i => replicate (w i) i) st ts = Some (st', ts') /\ Inv st' ts' /\ length ts' = length ts /\
    (forall i t, i ∈ js -> ts' !! i = Some t -> left st' t = 0%nat) /\ (forall i, i ∉ js -> ts' !! i = ts !! i).
Proof.
  induction 1 as [|i js Hni _ IH]; intros st ts Hi Hw Hlt.
  { exists st, ts. do 3 (split; [done|]). split; [|done]. intros i t He. by apply elem_of_nil in He. }
  cbn [mbind list_bind]. rewrite run_sched_app. destruct (lookup_lt_is_Some_2 ts i (Hlt i (list_elem_of_here _ _))) as [t Et].
  destruct (run_block (w i) i st ts t Hi Et) as (st1 & ts1 & t1 & -> & Hi1 & Hl1 & Et1 & Hz1 & Hj1).
  { trans (weight t); [apply left_weight|]. apply (Hw i); [apply list_elem_of_here|done]. }
  cbn [mbind option_bind]. destruct (IH st1 ts1 Hi1) as (st2 & ts2 & -> & Hi2 & Hl2 & Hz2 & Hj2).
  { intros j u Hj Eu. apply (Hw j); [by right|]. by rewrite <- Hj1 by (intros ->; contradiction). }
  { intros j Hj. rewrite Hl1. apply Hlt. by right. }
  exists st2, ts2. split; [done|]. split; [done|]. split; [congruence|]. split.
  - intros j u Hj Eu. destruct (decide (j ∈ js)) as [Hin|Hn]; [by eapply Hz2|]. apply elem_of_cons in Hj as [->|Hj]; [|done].
    rewrite Hj2, Et1 in Eu by done. injection Eu as <-. by eapply left_ended.
  - intros j Hj. rewrite Hj2, Hj1; [done| |]; intros ?; apply Hj; [subst; apply list_elem_of_here|by apply list_elem_of_further].
Qed.

Lemma run_all_lock_free sched st ts : Inv st ts -> exists st' ts', run_all step weight sched st ts = Some (st', ts') /\ Inv st' ts' /\
  length ts' = length ts /\ forall t, t ∈ ts' -> left st' t = 0%nat.
Proof.
  intros Hi. unfold run_all. destruct (run_inv step Inv) with (sched := sched) (st := st) (ts := ts) as (st1 & ts1 & E1 & Hi1); [|done|].
  { intros st0 ts0 i t H0 Et. destruct (step_ok st0 ts0 i t H0 Et) as (st' & t' & ? & ? & _). eauto. }
  rewrite E1. cbn [mbind option_bind]. pose proof (run_length step sched _ _ _ _ E1) as Hl1.
  destruct (run_blocks (fun i => from_option weight 0%nat (ts1 !! i)) (seq 0 (length ts1)) (NoDup_seq 0 _) st1 ts1 Hi1) as (st2 & ts2 & E2 & Hi2 & Hl2 & Hz & _).
  { intros i t _ Et. by rewrite Et. }
  { intros i He. apply elem_of_seq in He. lia. }
  exists st2, ts2. split; [exact E2|]. split; [done|]. split; [congruence|]. intros t Ht. apply list_elem_of_lookup in Ht as [i Et].
  assert (Hin : i ∈ seq 0 (length ts1)) by (apply elem_of_seq; apply lookup_lt_Some in Et; lia). by apply (Hz i t).
Qed.

End LockFree.
End Interleave.
