(* ===== verification/Latch.v ===== *)
(** * The reader-writer latch (common/latch.h)

    [lock_state_] is a 32-bit word: the write flag above a count of readers.  The
    operations are functions of the word; threads that run them interleave at
    the atomic accesses, [try_r_lock] between its load and its compare-and-swap,
    and the checked conversion between its load and its store.  Spinning in
    [w_lock] and [r_lock] repeats the tries. *)

From S2P Require Import Prelude.

Local Open Scope Z_scope.

Module Latch.

Definition WRITE_LOCK_FLAG : Z := 2147483648.
Definition READ_COUNT_MASK : Z := 2147483647.

(** [compare_exchange]: whether it stored, and the word afterwards. *)
Definition compare_exchange (s expected desired : Z) : bool * Z := if s =? expected then (true, desired) else (false, s).

Definition try_w_lock (s : Z) : bool * Z := compare_exchange s 0 WRITE_LOCK_FLAG.
Definition w_unlock (s : Z) : Z := 0.
Definition r_unlock (s : Z) : Z := u32 (s - 1).

(** The test of [try_r_lock]: write locked, or no room for a reader. *)
Definition r_refused (expected : Z) : bool :=
  negb (Z.land expected WRITE_LOCK_FLAG =? 0) || (Z.land expected READ_COUNT_MASK =? READ_COUNT_MASK).

(** [try_r_lock] when nothing interferes. *)
Definition try_r_lock (s : Z) : bool * Z := if r_refused s then (false, s) else compare_exchange s s (u32 (s + 1)).

Definition get_reader_count (s : Z) : Z := Z.land s READ_COUNT_MASK.
Definition is_write_locked (s : Z) : bool := negb (Z.land s WRITE_LOCK_FLAG =? 0).

Definition w_to_r_convert (s : Z) : bool * Z := compare_exchange s WRITE_LOCK_FLAG 1.

(** The checks of [w_to_r_convert_safe]; then it stores 1. *)
Definition w_to_r_check (current_state : Z) : res unit :=
  if Z.land current_state WRITE_LOCK_FLAG =? 0 then Throw logic_error
  else if negb (Z.land current_state READ_COUNT_MASK =? 0) then Throw logic_error
  else Ok tt.

Definition w_to_r_convert_safe (s : Z) : res Z := _ ← w_to_r_check s; Ok 1.

(** The move operations: the new latch takes the word, the old one is free. *)
Definition move (other : Z) : Z * Z := (other, 0).

(** A scoped lock: [locked_] tells whether it still has to release. *)
Record scoped_lock_t := ScopedLock { writer : bool; locked_ : bool }.

Definition scoped_unlock (g : scoped_lock_t) (s : Z) : scoped_lock_t * Z :=
  if locked_ g then (ScopedLock (writer g) false, if writer g then w_unlock s else r_unlock s) else (g, s).
Definition scoped_destroy (g : scoped_lock_t) (s : Z) : Z := (scoped_unlock g s).2.
Definition scoped_move (other : scoped_lock_t) : scoped_lock_t * scoped_lock_t := (other, ScopedLock (writer other) false).

(** ** Threads *)

Inductive thread_t :=
  | Outside
  | Loaded (expected : Z)       (* in [try_r_lock], before the compare-and-swap *)
  | Reading
  | Writing
  | Checked.                    (* in [w_to_r_convert_safe], before the store *)

(** One atomic access.  A weak compare-and-swap may fail though the word is the
    expected one. *)
Inductive thread_step : Z -> thread_t -> Z -> thread_t -> Prop :=
  | step_w_lock s s' : try_w_lock s = (true, s') -> thread_step s Outside s' Writing
  | step_w_fail s s' : try_w_lock s = (false, s') -> thread_step s Outside s' Outside
  | step_r_load s : thread_step s Outside s (Loaded s)
  | step_r_refused s e : r_refused e = true -> thread_step s (Loaded e) s Outside
  | step_r_lock s e s' : r_refused e = false -> compare_exchange s e (u32 (e + 1)) = (true, s') -> thread_step s (Loaded e) s' Reading
  | step_r_retry s e : r_refused e = false -> thread_step s (Loaded e) s (Loaded s)
  | step_r_unlock s : thread_step s Reading (r_unlock s) Outside
  | step_w_unlock s : thread_step s Writing (w_unlock s) Outside
  | step_convert s b s' : w_to_r_convert s = (b, s') -> thread_step s Writing s' (if b then Reading else Writing)
  | step_check s : w_to_r_check s = Ok tt -> thread_step s Writing s Checked
  | step_store s : thread_step s Checked 1 Reading.

Inductive step : Z * list thread_t -> Z * list thread_t -> Prop :=
  | step_thread s s' i t t' ts : ts !! i = Some t -> thread_step s t s' t' -> step (s, ts) (s', <[i := t']> ts).

Definition is_reader (t : thread_t) : bool := match t with Reading => true | _ => false end.
Definition is_writer (t : thread_t) : bool := match t with Writing | Checked => true | _ => false end.
Definition holds (t : thread_t) : bool := is_reader t || is_writer t.

(** ** Counting threads *)

Lemma count_all_outside p n : p Outside = false -> count p (replicate n Outside) = 0.
Proof. intros Ho. apply count_none. intros i t E. by apply lookup_replicate in E as [-> _]. Qed.

Lemma count_holds ts : count holds ts = count is_reader ts + count is_writer ts.
Proof. induction ts as [|t ts IH]; [done|]. rewrite !count_cons, IH. destruct t; cbn; lia. Qed.

(** ** The word *)

Lemma reader_count_small s : 0 <= s <= READ_COUNT_MASK -> get_reader_count s = s /\ is_write_locked s = false.
Proof.
  intros Hs. unfold READ_COUNT_MASK in Hs. unfold get_reader_count, is_write_locked.
  rewrite (land_ones_mod s READ_COUNT_MASK 31), Z.mod_small by (done || lia). split; [done|]. apply negb_false_iff, Z.eqb_eq.
  apply Z.bits_inj'. intros i Hi. rewrite Z.land_spec, Z.bits_0. change WRITE_LOCK_FLAG with (2 ^ 31).
  destruct (decide (i = 31)) as [->|]; [|rewrite Z.pow2_bits_false by lia; apply andb_false_r].
  destruct (decide (s = 0)) as [->|]; [done|]. rewrite Z.bits_above_log2; [done|lia|]. apply Z.log2_lt_pow2; lia.
Qed.

Lemma r_refused_small s : 0 <= s <= READ_COUNT_MASK -> r_refused s = (s =? READ_COUNT_MASK).
Proof.
  intros Hs. destruct (reader_count_small s Hs) as [H1 H2]. unfold r_refused.
  change (negb (Z.land s WRITE_LOCK_FLAG =? 0)) with (is_write_locked s). change (Z.land s READ_COUNT_MASK) with (get_reader_count s).
  by rewrite H1, H2.
Qed.

(** ** The invariant *)

Definition latch_inv (c : Z * list thread_t) : Prop :=
  count is_writer c.2 = 0 /\ c.1 = count is_reader c.2 /\ count is_reader c.2 <= READ_COUNT_MASK \/
  count is_writer c.2 = 1 /\ c.1 = WRITE_LOCK_FLAG /\ count is_reader c.2 = 0.

Lemma latch_inv_init n : latch_inv (0, replicate n Outside).
Proof. left. cbn. rewrite !count_all_outside by done. by unfold READ_COUNT_MASK. Qed.

(** Each case moves one thread, so the counts change by its roles. *)
Lemma latch_inv_step c c' : latch_inv c -> step c c' -> latch_inv c'.
Proof.
  intros Hi Hs. destruct Hs as [s s' i t t' ts E Hs]. unfold latch_inv in *. cbn [fst snd] in *.
  pose proof (count_nonneg is_writer ts) as Hw. pose proof (count_nonneg is_reader ts) as Hr.
  pose proof (count_some is_writer ts i t E) as Hwt. pose proof (count_some is_reader ts i t E) as Hrt.
  rewrite !(count_insert _ ts i t t' E). unfold WRITE_LOCK_FLAG in *.
  destruct Hs as [s s' Hc|s s' Hc|s|s e Hc|s e s' Hf Hc|s e Hf|s|s|s b s' Hc|s Hc|s]; cbn [is_writer is_reader Z.b2z] in *.
  - unfold try_w_lock, compare_exchange in Hc. destruct (Z.eqb_spec s 0); [|done]. injection Hc as <-. unfold WRITE_LOCK_FLAG. lia.
  - unfold try_w_lock, compare_exchange in Hc. destruct (s =? 0); [done|]. injection Hc as <-. lia.
  - lia.
  - lia.
  - unfold compare_exchange in Hc. destruct (Z.eqb_spec s e) as [->|]; [|done]. injection Hc as <-.
    destruct Hi as [(H1 & H2 & H3)|(H1 & -> & H3)]; [left|by vm_compute in Hf].
    rewrite r_refused_small in Hf by lia. apply Z.eqb_neq in Hf. unfold READ_COUNT_MASK in *.
    rewrite wrap_small by solve_width. lia.
  - lia.
  - specialize (Hrt eq_refl). unfold r_unlock, READ_COUNT_MASK in *. rewrite wrap_small by solve_width. lia.
  - specialize (Hwt eq_refl). unfold w_unlock, READ_COUNT_MASK in *. lia.
  - specialize (Hwt eq_refl). destruct Hi as [?|(H1 & -> & H3)]; [lia|]. injection Hc as <- <-. cbn. unfold READ_COUNT_MASK. lia.
  - lia.
  - specialize (Hwt eq_refl). destruct Hi as [?|(H1 & -> & H3)]; [lia|]. unfold READ_COUNT_MASK. lia.
Qed.

Lemma latch_inv_reachable n c : rtc step (0, replicate n Outside) c -> latch_inv c.
Proof.
  intros Hr. assert (H0 : latch_inv (0, replicate n Outside)) by apply latch_inv_init.
  induction Hr as [c|c1 c2 c3 Hs _ IH]; [done|]. apply IH. by eapply latch_inv_step.
Qed.

(** C23: in every state that any number of threads can reach from a free latch, a
    writer excludes all other holders; the word says whether there is a writer
    and how many readers there are; a latch that nobody holds can be acquired
    for writing and for reading; and a writer's conversion to a reader succeeds,
    in its checked form without an exception. *)
Theorem latch_exclusive (n : nat) (s : Z) (ts : list thread_t) : rtc step (0, replicate n Outside) (s, ts) ->
  (forall i j t u, i <> j -> ts !! i = Some t -> ts !! j = Some u -> is_writer t = true -> holds u = false) /\
  (is_write_locked s = true <-> exists i t, ts !! i = Some t /\ is_writer t = true) /\
  get_reader_count s = count is_reader ts /\
  ((forall i t, ts !! i = Some t -> holds t = false) -> try_w_lock s = (true, WRITE_LOCK_FLAG) /\ try_r_lock s = (true, 1)) /\
  (forall i, ts !! i = Some Writing -> w_to_r_convert s = (true, 1) /\ w_to_r_convert_safe s = Ok 1).
Proof.
  intros Hr. apply latch_inv_reachable in Hr. unfold latch_inv in Hr. cbn [fst snd] in Hr.
  pose proof (count_holds ts) as Hh. pose proof (count_nonneg is_reader ts) as Hrn.
  split; [|split; [|split; [|split]]].
  - intros i j t u Hij Ei Ej Ht. destruct (holds u) eqn:Eu; [|done]. exfalso.
    pose proof (count_some is_writer ts i t Ei Ht).
    assert (2 <= count holds ts); [|lia]. apply (count_two holds ts i j t u); [done..| |done]. unfold holds. by rewrite Ht, orb_true_r.
  - split.
    + intros Hw. apply count_find. destruct Hr as [(H1 & -> & H3)|(H1 & _ & _)]; [|lia].
      by rewrite (proj2 (reader_count_small (count is_reader ts) ltac:(lia))) in Hw.
    + intros (i & t & Ei & Ht). pose proof (count_some is_writer ts i t Ei Ht). by destruct Hr as [?|(_ & -> & _)]; [lia|].
  - destruct Hr as [(H1 & -> & H3)|(H1 & -> & ->)]; [|done]. by apply reader_count_small.
  - intros Hnone. apply count_none in Hnone. pose proof (count_nonneg is_writer ts).
    destruct Hr as [(_ & -> & _)|?]; [|lia]. by replace (count is_reader ts) with 0 by lia.
  - intros i Ei. pose proof (count_some is_writer ts i Writing Ei eq_refl). by destruct Hr as [?|(_ & -> & _)]; [lia|].
Qed.

(** Two readers and then a writer. *)
Lemma latch_exclusive_witness : let ts := [Outside; Writing] in
  (forall i j t u, i <> j -> ts !! i = Some t -> ts !! j = Some u -> is_writer t = true -> holds u = false) /\
  (is_write_locked WRITE_LOCK_FLAG = true <-> exists i t, ts !! i = Some t /\ is_writer t = true) /\
  get_reader_count WRITE_LOCK_FLAG = count is_reader ts /\
  ((forall i t, ts !! i = Some t -> holds t = false) -> try_w_lock WRITE_LOCK_FLAG = (true, WRITE_LOCK_FLAG) /\ try_r_lock WRITE_LOCK_FLAG = (true, 1)) /\
  (forall i, ts !! i = Some Writing -> w_to_r_convert WRITE_LOCK_FLAG = (true, 1) /\ w_to_r_convert_safe WRITE_LOCK_FLAG = Ok 1).
Proof.
  apply (latch_exclusive 2 WRITE_LOCK_FLAG [Outside; Writing]).
  apply rtc_l with (0, [Loaded 0; Outside]); [apply (step_thread 0 0 0 Outside (Loaded 0) [Outside; Outside]); [done|constructor]|].
  apply rtc_l with (1, [Reading; Outside]); [apply (step_thread 0 1 0 (Loaded 0) Reading [Loaded 0; Outside]); [done|by constructor]|].
  apply rtc_l with (0, [Outside; Outside]); [apply (step_thread 1 0 0 Reading Outside [Reading; Outside]); [done|constructor]|].
  apply rtc_once, (step_thread 0 WRITE_LOCK_FLAG 1 Outside Writing [Outside; Outside]); [done|by constructor].
Defined.

End Latch.
