(* ===== verification/BufPool.v ===== *)
(** * The buffer pool (buf/buf_pool.h, buf_pool.cc, the latch part of storage/page.h)

    Frames hold pages of a file; [page_map] finds the frame of a cached page.  A
    frame is on the free list or on the LRU list, whose clock hand chooses the
    frame to evict; a dirty victim is written back.  Latches and pins are words
    and counts of the frame, so threads may hold many pages while others call
    the pool.  A call is one step here, and its parts are defined separately:
    calls that overlap can interfere between them ([pool_races] in [BufPoolRun]).
    [None] is a call that has to wait.  Errors of the file system are left out. *)

From S2P Require Import Prelude Latch.

Local Open Scope Z_scope.

(** The file behind the pool.  [file_holds f p bs]: page [p] has been written
    with contents [bs]. *)
Class PageFile (F : Type) := {
  file_read : F -> Z -> list Z;
  file_write : F -> Z -> list Z -> F;
  file_ok : F -> Prop;
  file_page_size : F -> nat;
  file_holds : F -> Z -> list Z -> Prop;
  file_read_holds : forall f p bs, file_ok f -> file_holds f p bs -> file_read f p = bs;
  file_read_length : forall f p, file_ok f -> length (file_read f p) = file_page_size f;
  file_write_ok : forall f p bs, file_ok f -> 0 <= p -> length bs = file_page_size f ->
    file_ok (file_write f p bs) /\ file_page_size (file_write f p bs) = file_page_size f /\ file_holds (file_write f p bs) p bs;
  file_write_other : forall f p bs q cs, file_ok f -> 0 <= p -> length bs = file_page_size f -> p <> q ->
    file_holds f q cs -> file_holds (file_write f p bs) q cs
}.

(** The pool is a template over the page type; [parses p bs]: its [self_parse]
    accepts the bytes of page [p], and throws otherwise. *)
Class PageParser := parses : Z -> list Z -> bool.

Module BufPool.
Import Latch.

Record frame_t := Frame {
  page_no : Z;
  data : list Z;
  is_dirty : bool;
  pin_count : Z;         (* far from its width *)
  latch : Z;             (* the word of [rw_latch_] *)
  referenced : bool;
  is_parse : bool
}.

(** [lru] and [free]: the frames on the lists, head first. *)
Record buf_pool_t := BufPool {
  frames : list frame_t;
  page_map : gmap Z nat;
  lru : list nat;
  free : list nat;
  clock_hand : option nat;
  cache_hits : Z;
  cache_misses : Z;
  evictions : Z;
  dirty_writebacks : Z
}.

Definition set_frames (b : buf_pool_t) (fs : list frame_t) : buf_pool_t :=
  BufPool fs (page_map b) (lru b) (free b) (clock_hand b) (cache_hits b) (cache_misses b) (evictions b) (dirty_writebacks b).
Definition set_frame (b : buf_pool_t) (i : nat) (fr : frame_t) : buf_pool_t := set_frames b (<[i := fr]> (frames b)).
Definition set_map (b : buf_pool_t) (m : gmap Z nat) : buf_pool_t :=
  BufPool (frames b) m (lru b) (free b) (clock_hand b) (cache_hits b) (cache_misses b) (evictions b) (dirty_writebacks b).
Definition set_lists (b : buf_pool_t) (l fl : list nat) (h : option nat) : buf_pool_t :=
  BufPool (frames b) (page_map b) l fl h (cache_hits b) (cache_misses b) (evictions b) (dirty_writebacks b).
Definition count_stats (b : buf_pool_t) (hits misses evicts writes : Z) : buf_pool_t :=
  BufPool (frames b) (page_map b) (lru b) (free b) (clock_hand b)
    (u64 (cache_hits b + hits)) (u64 (cache_misses b + misses)) (u64 (evictions b + evicts)) (u64 (dirty_writebacks b + writes)).

Definition reset_stats (b : buf_pool_t) : buf_pool_t :=
  BufPool (frames b) (page_map b) (lru b) (free b) (clock_hand b) 0 0 0 0.

(** ** Frames *)

Definition set_latch (fr : frame_t) (w : Z) : frame_t :=
  Frame (page_no fr) (data fr) (is_dirty fr) (pin_count fr) w (referenced fr) (is_parse fr).
Definition set_pins (fr : frame_t) (n : Z) : frame_t :=
  Frame (page_no fr) (data fr) (is_dirty fr) n (latch fr) (referenced fr) (is_parse fr).
Definition set_dirty (fr : frame_t) (d : bool) : frame_t :=
  Frame (page_no fr) (data fr) d (pin_count fr) (latch fr) (referenced fr) (is_parse fr).
Definition set_referenced (fr : frame_t) (r : bool) : frame_t :=
  Frame (page_no fr) (data fr) (is_dirty fr) (pin_count fr) (latch fr) r (is_parse fr).
Definition set_parse (fr : frame_t) (p : bool) : frame_t :=
  Frame (page_no fr) (data fr) (is_dirty fr) (pin_count fr) (latch fr) (referenced fr) p.
Definition set_data (fr : frame_t) (bs : list Z) : frame_t :=
  Frame (page_no fr) bs (is_dirty fr) (pin_count fr) (latch fr) (referenced fr) (is_parse fr).
(** What a frame becomes when a page is put in it. *)
Definition install (fr : frame_t) (p : Z) (bs : list Z) (parsed : bool) : frame_t :=
  Frame p bs (is_dirty fr) (pin_count fr) (latch fr) true parsed.

(** The latch operations of a page; [None]: it would block. *)
Definition w_latch (fr : frame_t) : option frame_t :=
  match try_w_lock (latch fr) with (true, w) => Some (set_latch fr w) | _ => None end.
Definition try_w_latch (fr : frame_t) : option frame_t := w_latch fr.
Definition r_latch (fr : frame_t) : option frame_t :=
  match try_r_lock (latch fr) with (true, w) => Some (set_latch (set_pins fr (pin_count fr + 1)) w) | _ => None end.
Definition r_unlatch (fr : frame_t) : frame_t := set_pins (set_latch fr (r_unlock (latch fr))) (pin_count fr - 1).
Definition w_unlatch (fr : frame_t) : frame_t := set_latch fr (w_unlock (latch fr)).
(** [w_to_r_latch]; [None]: the logic error. *)
Definition w_to_r_latch (fr : frame_t) : option frame_t :=
  match w_to_r_convert_safe (latch fr) with Ok w => Some (set_latch (set_pins fr (pin_count fr + 1)) w) | Throw _ => None end.

(** ** The lists *)

(** The node after [i]. *)
Fixpoint next_of (i : nat) (l : list nat) : option nat :=
  match l with
  | [] => None
  | j :: l => if decide (i = j) then head l else next_of i l
  end.

Definition remove (i : nat) (l : list nat) : list nat := filter (fun j => j <> i) l.

Definition add_to_lru_head (b : buf_pool_t) (i : nat) : buf_pool_t :=
  set_lists b (i :: lru b) (free b) (match lru b with [] => Some i | _ => clock_hand b end).

(** The hand moves off the node, past the tail to the head as it was. *)
Definition remove_from_lru_list (b : buf_pool_t) (i : nat) : buf_pool_t :=
  set_lists b (remove i (lru b)) (free b)
    (if decide (clock_hand b = Some i) then match next_of i (lru b) with Some j => Some j | None => head (lru b) end else clock_hand b).

Definition remove_from_free_list (b : buf_pool_t) (i : nat) : buf_pool_t := set_lists b (lru b) (remove i (free b)) (clock_hand b).
Definition add_to_free_list (b : buf_pool_t) (i : nat) : buf_pool_t := set_lists b (lru b) (free b ++ [i]) (clock_hand b).

Definition move_to_lru_head (b : buf_pool_t) (i : nat) : buf_pool_t :=
  if decide (head (lru b) = Some i) then b else add_to_lru_head (remove_from_lru_list b i) i.

(** [raw]: what the memory of each frame held. *)
Definition buf_pool_init (raw : list (list Z)) : buf_pool_t :=
  BufPool ((fun bs => Frame 0 bs false 0 0 false false) <$> raw) ∅ [] (seq 0 (length raw)) None 0 0 0 0.

(** ** The clock *)

Definition advance (l : list nat) (hand : nat) : option nat :=
  match next_of hand l with Some j => Some j | None => head l end.

(** The full scan: the first frame that is not pinned and can be latched. *)
Fixpoint full_scan (fs : list frame_t) (l : list nat) : option (option (nat * frame_t)) :=
  match l with
  | [] => Some None
  | i :: l =>
    fr ← fs !! i;
    if pin_count fr =? 0 then match try_w_latch fr with Some fr => Some (Some (i, fr)) | None => full_scan fs l end
    else full_scan fs l
  end.

(** The victim, latched, with the frames and the hand afterwards; [None]: out of
    fuel. *)
Fixpoint victim_loop (fuel : nat) (l : list nat) (start hand : nat) (fs : list frame_t) :
    option (option nat * list frame_t * nat) :=
  match fuel with
  | O => None
  | S fuel =>
    fr ← fs !! hand;
    hand' ← advance l hand;
    let skip fs :=
      if decide (hand' = start) then
        r ← full_scan fs l;
        Some (match r with Some (i, fr) => (Some i, <[i := fr]> fs, hand') | None => (None, fs, hand') end)
      else victim_loop fuel l start hand' fs in
    if 0 <? pin_count fr then skip fs
    else if referenced fr then skip (<[hand := set_referenced fr false]> fs)
    else match try_w_latch fr with
    | Some fr => Some (Some hand, <[hand := fr]> fs, hand')
    | None => skip fs
    end
  end.

Definition find_victim_page (b : buf_pool_t) : option (option nat * buf_pool_t) :=
  match (match clock_hand b with Some h => Some h | None => head (lru b) end) with
  | None => Some (None, b)
  | Some h =>
    '(v, fs, h) ← victim_loop (length (lru b)) (lru b) h h (frames b);
    Some (v, set_lists (set_frames b fs) (lru b) (free b) (Some h))
  end.

Section Pool.
Context {F : Type} `{!PageFile F} {parser : PageParser}.

(** ** Calls *)

(** The part of [claim_frame_for_reuse] under the list latches: the frame, write
    latched, at the head of the LRU list, and the page number to write back. *)
Definition claim_frame (b : buf_pool_t) : option (res (nat * option Z) * buf_pool_t) :=
  match free b with
  | [] =>
    '(v, b) ← find_victim_page b;
    match v with
    | None => Some (Throw runtime_error, b)
    | Some i =>
      fr ← frames b !! i;
      let victim_page_no := page_no fr in
      let b := count_stats b 0 0 1 (Z.b2z (is_dirty fr)) in
      let b := set_map (remove_from_lru_list b i) (delete victim_page_no (page_map b)) in
      let b := set_frame b i (set_parse fr false) in
      Some (Ok (i, if is_dirty fr then Some victim_page_no else None), add_to_lru_head b i)
    end
  | i :: _ =>
    let b := add_to_lru_head (remove_from_free_list b i) i in
    fr ← frames b !! i;
    fr ← w_latch fr;
    Some (Ok (i, None), set_frame b i fr)
  end.

(** The write-back after the list latches have been released. *)
Definition write_back (b : buf_pool_t) (f : F) (i : nat) (victim_page_no : option Z) : option (buf_pool_t * F) :=
  match victim_page_no with
  | Some p => fr ← frames b !! i; Some (set_frame b i (set_dirty fr false), file_write f p (data fr))
  | None => Some (b, f)
  end.

Definition claim_frame_for_reuse (b : buf_pool_t) (f : F) : option (res nat * buf_pool_t * F) :=
  '(r, b) ← claim_frame b;
  match r with
  | Throw e => Some (Throw e, b, f)
  | Ok (i, v) => '(b, f) ← write_back b f i v; Some (Ok i, b, f)
  end.

(** [insert] keeps a mapping that is there. *)
Definition map_insert (b : buf_pool_t) (p : Z) (i : nat) : buf_pool_t :=
  match page_map b !! p with Some _ => b | None => set_map b (<[p := i]> (page_map b)) end.

Definition try_latch_cached_page (b : buf_pool_t) (p : Z) (write_latch : bool) : option (option nat * buf_pool_t) :=
  match page_map b !! p with
  | None => Some (None, b)
  | Some i =>
    fr ← frames b !! i;
    fr ← (if write_latch then w_latch fr else r_latch fr);
    if page_no fr =? p then Some (Some i, set_frame b i (set_referenced fr true))
    else Some (None, set_frame b i (if write_latch then w_unlatch fr else r_unlatch fr))
  end.

(** The frame of a page that its type rejects: it has the number and the bytes
    of the page and stays on the LRU list, but the map does not have it. *)
Definition reject (fr : frame_t) (p : Z) (bs : list Z) : frame_t :=
  Frame p bs (is_dirty fr) (pin_count fr) (latch fr) (referenced fr) false.

(** The load of a page into a claimed frame. *)
Definition load_page (b : buf_pool_t) (f : F) (p : Z) (i : nat) (write_latch : bool) : option (res nat * buf_pool_t) :=
  fr ← frames b !! i;
  let bytes := file_read f p in
  if parses p bytes then
    let b := map_insert (set_frame b i (install fr p bytes true)) p i in
    if write_latch then Some (Ok i, b)
    else fr ← frames b !! i; fr ← w_to_r_latch fr; Some (Ok i, set_frame b i fr)
  else Some (Throw runtime_error, set_frame b i (w_unlatch (reject fr p bytes))).

(** [buf_page_read] and [buf_page_read_for_slot_write]. *)
Definition read_page_internal (b : buf_pool_t) (f : F) (p : Z) (write_latch : bool) : option (res nat * buf_pool_t * F) :=
  '(c, b) ← try_latch_cached_page b p write_latch;
  match c with
  | Some i => Some (Ok i, count_stats b 1 0 0 0, f)
  | None =>
    let b := count_stats b 0 1 0 0 in
    '(r, b, f) ← claim_frame_for_reuse b f;
    match r with
    | Throw e => Some (Throw e, b, f)
    | Ok i => '(r, b) ← load_page b f p i write_latch; Some (r, b, f)
    end
  end.

(** A null result: the page is cached.  Nothing releases the frame of a page
    that is rejected. *)
Definition buf_page_cp (b : buf_pool_t) (f : F) (p : Z) (page_data : list Z) : option (res (option nat) * buf_pool_t * F) :=
  match page_map b !! p with
  | Some _ => Some (Ok None, b, f)
  | None =>
    '(r, b, f) ← claim_frame_for_reuse b f;
    match r with
    | Throw e => Some (Throw e, b, f)
    | Ok i =>
      fr ← frames b !! i;
      if parses p page_data
      then Some (Ok (Some i), map_insert (set_frame b i (w_unlatch (install fr p page_data true))) p i, f)
      else Some (Throw runtime_error, set_frame b i (reject fr p page_data), f)
    end
  end.

(** [reinit]: what the page type makes of the frame's bytes. *)
Definition buf_page_new (reinit : list Z -> list Z) (b : buf_pool_t) (f : F) (p : Z) : option (res nat * buf_pool_t * F) :=
  '(c, b) ← try_latch_cached_page b p true;
  match c with
  | Some i => Some (Ok i, count_stats b 1 0 0 0, f)
  | None =>
    '(r, b, f) ← claim_frame_for_reuse b f;
    match r with
    | Throw e => Some (Throw e, b, f)
    | Ok i =>
      fr ← frames b !! i;
      let fr := install fr p (reinit (data fr)) false in
      Some (Ok i, map_insert (set_frame b i (set_pins fr (pin_count fr + 1))) p i, f)
    end
  end.

Definition retire_page (b : buf_pool_t) (p : Z) : option (bool * buf_pool_t) :=
  match page_map b !! p with
  | None => Some (true, b)
  | Some i =>
    fr ← frames b !! i;
    if 0 <? pin_count fr then Some (false, b)
    else match try_w_latch fr with
    | None => Some (false, b)
    | Some fr =>
      let b := remove_from_lru_list (set_map b (delete p (page_map b))) i in
      let b := set_frame b i (w_unlatch (set_referenced (set_dirty (set_parse fr false) false) false)) in
      Some (true, add_to_free_list b i)
    end
  end.

(** [flush_to_disk] of a cached page, as the flushers call it. *)
Definition flush_to_disk (b : buf_pool_t) (f : F) (i : nat) : option (bool * buf_pool_t * F) :=
  fr ← frames b !! i;
  match try_w_latch fr with
  | None => Some (false, b, f)
  | Some fr' => Some (true, set_frame b i (w_unlatch (set_dirty fr' false)), if is_dirty fr then file_write f (page_no fr) (data fr) else f)
  end.

Definition traverse_page_map (b : buf_pool_t) : list (Z * nat) := map_to_list (page_map b).

(** The pages a flush writes, one after the other. *)
Definition dirty_frames (b : buf_pool_t) : list nat :=
  filter (fun i => (is_dirty <$> frames b !! i) = Some true) (snd <$> traverse_page_map b).

Fixpoint flush_frames (l : list nat) (b : buf_pool_t) (f : F) : option (Z * buf_pool_t * F) :=
  match l with
  | [] => Some (0, b, f)
  | i :: l =>
    '(ok, b, f) ← flush_to_disk b f i;
    '(n, b, f) ← flush_frames l b f;
    Some (n + Z.b2z ok, b, f)
  end.

Definition flush_dirty_pages (b : buf_pool_t) (f : F) : option (Z * buf_pool_t * F) := flush_frames (dirty_frames b) b f.

(** The flush without a flusher: each page is looked at when its turn comes. *)
Fixpoint flush_traversed (l : list (Z * nat)) (b : buf_pool_t) (f : F) : option (Z * buf_pool_t * F) :=
  match l with
  | [] => Some (0, b, f)
  | (_, i) :: l =>
    fr ← frames b !! i;
    '(ok, b, f) ← (if is_dirty fr then flush_to_disk b f i else Some (false, b, f));
    '(n, b, f) ← flush_traversed l b f;
    Some (n + Z.b2z ok, b, f)
  end.

Definition flush_csr_pages (b : buf_pool_t) (f : F) : option (Z * buf_pool_t * F) := flush_traversed (traverse_page_map b) b f.

End Pool.
End BufPool.
