(* ===== verification/BufPoolInv.v ===== *)
(** * The buffer pool's invariant and contents

    The clock search finds a victim whenever there is a frame that may be
    evicted; the lists, the page map and the hand stay consistent; and whatever
    the order of reads, writes, copies, retirements, flushes and evictions, a
    page's contents are the last ones written: in its frame, or in the file. *)

From S2P Require Import Prelude Latch BufPool.

Local Open Scope Z_scope.

Module BufPoolInv.
Import Latch BufPool.

(** ** The lists *)

Lemma next_of_lookup l : NoDup l -> forall k i, l !! k = Some i -> next_of i l = l !! S k.
Proof.
  induction 1 as [|j l Hj Hl IH]; intros k i E; [done|]. cbn [next_of]. destruct k as [|k]; cbn in E.
  - injection E as ->. rewrite decide_True by done. by destruct l.
  - rewrite decide_False; [by apply IH|]. intros ->. by apply Hj, list_elem_of_lookup_2 with k.
Qed.

Lemma advance_lookup l k i : NoDup l -> l !! k = Some i -> advance l i = l !! (S k mod length l)%nat.
Proof.
  intros Hl E. unfold advance. rewrite (next_of_lookup l Hl k i E). pose proof (lookup_lt_Some _ _ _ E).
  destruct (decide (S k = length l)) as [Hk|].
  - rewrite Hk, Nat.Div0.mod_same, lookup_ge_None_2 by lia. by destruct l.
  - rewrite Nat.mod_small by lia. by destruct (lookup_lt_is_Some_2 l (S k)) as [j ->]; [lia|].
Qed.

Lemma advance_in l i : NoDup l -> i ∈ l -> exists j, advance l i = Some j /\ j ∈ l.
Proof.
  intros Hl [k E]%list_elem_of_lookup. rewrite (advance_lookup l k i Hl E). pose proof (lookup_lt_Some _ _ _ E).
  destruct (lookup_lt_is_Some_2 l (S k mod length l)) as [j Ej]; [apply Nat.mod_upper_bound; lia|].
  exists j. split; [done|]. by eapply list_elem_of_lookup_2.
Qed.

Lemma elem_of_remove i j l : j ∈ remove i l <-> j <> i /\ j ∈ l.
Proof. unfold remove. by rewrite list_elem_of_filter. Qed.

Lemma NoDup_remove i l : NoDup l -> NoDup (remove i l).
Proof. apply NoDup_filter. Qed.

(** ** The clock *)

(** The frames agree but for the reference bits. *)
Definition same_frames (fs fs' : list frame_t) : Prop :=
  length fs' = length fs /\ forall i fr, fs !! i = Some fr -> exists r, fs' !! i = Some (set_referenced fr r).

Lemma same_frames_refl fs : same_frames fs fs.
Proof. split; [done|]. intros i fr E. exists (referenced fr). by destruct fr. Qed.

Lemma same_frames_clear fs i fr fs' :
  fs !! i = Some fr -> same_frames (<[i := set_referenced fr false]> fs) fs' -> same_frames fs fs'.
Proof.
  intros E [Hl Hs]. rewrite length_insert in Hl. split; [done|]. intros j frj Ej.
  destruct (decide (j = i)) as [->|].
  - destruct (Hs i (set_referenced fr false)) as [r Er]; [rewrite list_lookup_insert; [by rewrite decide_True by (by apply lookup_lt_Some in E)|done..]|].
    exists r. rewrite E in Ej. injection Ej as <-. done.
  - apply Hs. by rewrite list_lookup_insert_ne.
Qed.

(** A frame that can be evicted. *)
Definition evictable (fr : frame_t) : Prop := pin_count fr = 0 /\ latch fr = 0.

Lemma try_w_latch_cases fr :
  latch fr = 0 /\ try_w_latch fr = Some (set_latch fr WRITE_LOCK_FLAG) \/ latch fr <> 0 /\ try_w_latch fr = None.
Proof. unfold try_w_latch, w_latch, try_w_lock, compare_exchange. destruct (Z.eqb_spec (latch fr) 0); auto. Qed.

(** What a search for a victim yields. *)
Definition victim_of (l : list nat) (fs : list frame_t) (v : option nat) (fs' : list frame_t) : Prop :=
  match v with
  | Some i => i ∈ l /\ exists fs1 fr, same_frames fs fs1 /\ fs1 !! i = Some fr /\ evictable fr /\ fs' = <[i := set_latch fr WRITE_LOCK_FLAG]> fs1
  | None => same_frames fs fs' /\ forall i fr, i ∈ l -> fs !! i = Some fr -> ~ evictable fr
  end.

Lemma full_scan_spec fs l : (forall i, i ∈ l -> is_Some (fs !! i)) ->
  exists r, full_scan fs l = Some r /\
  match r with
  | Some (i, fr) => i ∈ l /\ exists fr0, fs !! i = Some fr0 /\ evictable fr0 /\ fr = set_latch fr0 WRITE_LOCK_FLAG
  | None => forall i fr, i ∈ l -> fs !! i = Some fr -> ~ evictable fr
  end.
Proof.
  induction l as [|i l IH]; intros Hin; cbn [full_scan].
  { exists None. split; [done|]. set_solver. }
  destruct (Hin i) as [fr E]; [set_solver|]. rewrite E. cbn [mbind option_bind].
  destruct IH as (r & Hr & Hs); [set_solver|].
  assert (Hskip : ~ evictable fr -> exists r, full_scan fs l = Some r /\
    match r with
    | Some (j, frj) => j ∈ i :: l /\ exists fr0, fs !! j = Some fr0 /\ evictable fr0 /\ frj = set_latch fr0 WRITE_LOCK_FLAG
    | None => forall j frj, j ∈ i :: l -> fs !! j = Some frj -> ~ evictable frj
    end).
  { intros Hn. exists r. split; [done|]. destruct r as [[j frj]|].
    - destruct Hs as [? ?]. split; [set_solver|done].
    - intros j frj [->|Hj]%elem_of_cons Ej; [by rewrite E in Ej; injection Ej as <-|by eapply Hs]. }
  destruct (Z.eqb_spec (pin_count fr) 0) as [Hp|Hp]; [|apply Hskip; by intros [? ?]].
  destruct (try_w_latch_cases fr) as [[Hl ->]|[Hl ->]]; [|apply Hskip; by intros [? ?]].
  eexists. split; [done|]. cbn. split; [set_solver|]. by exists fr.
Qed.

Lemma same_frames_evictable fs fs' i fr : same_frames fs fs' -> fs !! i = Some fr -> evictable fr ->
  exists fr', fs' !! i = Some fr' /\ evictable fr'.
Proof. intros [_ Hs] E He. destruct (Hs i fr E) as [r Er]. by eexists. Qed.

Lemma same_frames_some fs fs' i : same_frames fs fs' -> is_Some (fs !! i) -> is_Some (fs' !! i).
Proof. intros [_ Hs] [fr E]. destruct (Hs i fr E) as [r ->]. by eexists. Qed.

Lemma victim_of_same l fs fs1 v fs' : same_frames fs fs1 ->
  (forall fs2, same_frames fs1 fs2 -> same_frames fs fs2) -> victim_of l fs1 v fs' -> victim_of l fs v fs'.
Proof.
  intros Hs Ht Hv. destruct v as [i|]; cbn in *.
  - destruct Hv as (Hi & fs2 & fr & H1 & H2). split; [done|]. exists fs2, fr. auto.
  - destruct Hv as (H1 & H2). split; [auto|]. intros i fr Hi E He.
    destruct (same_frames_evictable fs fs1 i fr Hs E He) as (fr' & E' & He'). by eapply H2.
Qed.

(** The hand, at place [k], reaches the place it started from in [n] steps. *)
Lemma victim_loop_spec l s start : NoDup l -> l !! s = Some start -> forall fuel k hand n fs,
  (forall i, i ∈ l -> is_Some (fs !! i)) -> (forall i fr, fs !! i = Some fr -> 0 <= pin_count fr) ->
  l !! k = Some hand -> (1 <= n <= fuel)%nat -> ((k + n) mod length l)%nat = s ->
  exists v fs' hand', victim_loop fuel l start hand fs = Some (v, fs', hand') /\ hand' ∈ l /\ victim_of l fs v fs'.
Proof.
  intros Hnd Es. induction fuel as [|fuel IH]; intros k hand n fs Hin Hpin Ek Hn Hkn; [lia|].
  cbn [victim_loop]. destruct (Hin hand) as [fr E]; [by eapply list_elem_of_lookup_2|]. rewrite E. cbn [mbind option_bind].
  pose proof (lookup_lt_Some _ _ _ Ek) as Hk. pose proof (advance_lookup l k hand Hnd Ek) as Ha.
  destruct (lookup_lt_is_Some_2 l (S k mod length l)) as [h' Eh']; [apply Nat.mod_upper_bound; lia|].
  rewrite Eh' in Ha. rewrite Ha. cbn [mbind option_bind].
  assert (Hh' : h' ∈ l) by by eapply list_elem_of_lookup_2.
  set (skip := fun fs1 : list frame_t => if decide (h' = start)
    then r ← full_scan fs1 l; Some (match r with Some (i, fr) => (Some i, <[i := fr]> fs1, h') | None => (None, fs1, h') end)
    else victim_loop fuel l start h' fs1).
  assert (Hskip : forall fs1, same_frames fs fs1 -> (forall fs2, same_frames fs1 fs2 -> same_frames fs fs2) ->
    exists v fs' hand', skip fs1 = Some (v, fs', hand') /\ hand' ∈ l /\ victim_of l fs v fs').
  { intros fs1 Hs Ht. unfold skip. assert (Hin1 : forall i, i ∈ l -> is_Some (fs1 !! i)) by (intros; eapply same_frames_some; eauto).
    destruct (decide (h' = start)) as [->|Hne].
    - destruct (full_scan_spec fs1 l Hin1) as (r & -> & Hr). cbn [mbind option_bind].
      destruct r as [[i fri]|]; do 3 eexists; (split; [done|split; [done|]]); apply (victim_of_same l fs fs1 _ _ Hs Ht); cbn.
      + destruct Hr as (Hi & fr0 & E0 & He & ->). split; [done|]. exists fs1, fr0. split; [apply same_frames_refl|done].
      + split; [apply same_frames_refl|done].
    - assert (Hmod : ((S k mod length l + (n - 1)) mod length l)%nat = s).
      { rewrite Nat.Div0.add_mod_idemp_l. replace (S k + (n - 1))%nat with (k + n)%nat by lia. done. }
      assert (n <> 1)%nat.
      { intros ->. apply Hne. replace (k + 1)%nat with (S k) in Hkn by lia. rewrite Hkn, Es in Eh'. by injection Eh'. }
      assert (Hpin1 : forall i fri, fs1 !! i = Some fri -> 0 <= pin_count fri).
      { intros i fri Ei. destruct Hs as [Hl Hs]. pose proof (lookup_lt_Some _ _ _ Ei).
        destruct (lookup_lt_is_Some_2 fs i) as [fr0 E0]; [lia|]. destruct (Hs i fr0 E0) as [r Er].
        rewrite Er in Ei. injection Ei as <-. exact (Hpin i fr0 E0). }
      destruct (IH (S k mod length l)%nat h' (n - 1)%nat fs1 Hin1 Hpin1 Eh') as (v & fs' & hand' & Hv & Hh & Hvo); [lia|done|].
      exists v, fs', hand'. split; [done|]. split; [done|]. by apply (victim_of_same l fs fs1). }
  destruct (Z.ltb_spec 0 (pin_count fr)) as [Hp|Hp]; [apply (Hskip fs); [apply same_frames_refl|done]|].
  destruct (referenced fr).
  { apply (Hskip (<[hand := set_referenced fr false]> fs)).
    - split; [apply length_insert|]. intros i fri Ei. destruct (decide (i = hand)) as [->|].
      + rewrite E in Ei. injection Ei as <-. exists false. apply list_lookup_insert_eq. by apply lookup_lt_Some in E.
      + rewrite list_lookup_insert_ne by done. exists (referenced fri). rewrite Ei. by destruct fri.
    - intros fs2. by apply same_frames_clear. }
  destruct (try_w_latch_cases fr) as [[Hl ->]|[Hl ->]]; [|apply Hskip; [apply same_frames_refl|done]].
  do 3 eexists. split; [done|]. split; [done|]. cbn. split; [by eapply list_elem_of_lookup_2|].
  exists fs, fr. split; [apply same_frames_refl|]. split; [done|]. split; [|done].
  split; [|done]. specialize (Hpin hand fr E). lia.
Qed.

Section Inv.
Context {F : Type} `{!PageFile F}.

(** ** The invariant *)

(** Every frame is on one list; the map has the pages of the frames on the LRU
    list, but for a claimed frame, the [hole], that is not filled yet. *)
Record pool_inv (ps : nat) (hole : option nat) (b : buf_pool_t) : Prop := {
  pi_lists : NoDup (lru b ++ free b);
  pi_all : forall i, i ∈ lru b ++ free b <-> (i < length (frames b))%nat;
  pi_hand : forall h, clock_hand b = Some h -> (h < length (frames b))%nat;
  pi_hand_lru : lru b <> [] -> exists h, clock_hand b = Some h /\ h ∈ lru b;
  pi_map : forall p i, page_map b !! p = Some i <-> Some i <> hole /\ i ∈ lru b /\ page_no <$> frames b !! i = Some p;
  pi_pages : forall p i, page_map b !! p = Some i -> 0 <= p;
  pi_pins : forall i fr, frames b !! i = Some fr -> 0 <= pin_count fr;
  pi_data : forall i fr, frames b !! i = Some fr -> length (data fr) = ps;
  pi_free : forall i fr, i ∈ free b -> frames b !! i = Some fr -> evictable fr
}.

(** [M]: the contents of the pages whose contents are known.  A cached page has
    them in its frame, and in the file too when it is clean. *)
Definition contents (b : buf_pool_t) (f : F) (M : gmap Z (list Z)) : Prop :=
  forall p bs, M !! p = Some bs ->
  match page_map b !! p with
  | Some i => exists fr, frames b !! i = Some fr /\ data fr = bs /\ (is_dirty fr = false -> file_holds f p bs)
  | None => file_holds f p bs
  end.

(** The pages that are pinned or latched stay in their frames. *)
Definition kept (b b' : buf_pool_t) : Prop :=
  forall p i fr, page_map b !! p = Some i -> frames b !! i = Some fr -> ~ evictable fr ->
  page_map b' !! p = Some i /\ exists r, frames b' !! i = Some (set_referenced fr r).

Lemma pi_frame ps hole b i : pool_inv ps hole b -> i ∈ lru b \/ i ∈ free b -> exists fr, frames b !! i = Some fr.
Proof. intros Hi Hin. apply lookup_lt_is_Some_2, (pi_all _ _ _ Hi), elem_of_app, Hin. Qed.

Lemma pi_disjoint ps hole b i : pool_inv ps hole b -> i ∈ lru b -> i ∈ free b -> False.
Proof. intros Hi. pose proof (pi_lists _ _ _ Hi) as Hn. apply NoDup_app in Hn as (_ & Hd & _). apply Hd. Qed.

Lemma pi_cached ps hole b p i : pool_inv ps hole b -> page_map b !! p = Some i ->
  i ∈ lru b /\ exists fr, frames b !! i = Some fr /\ page_no fr = p.
Proof.
  intros Hi E. apply (pi_map _ _ _ Hi) in E as (_ & Hl & E). split; [done|].
  apply fmap_Some in E as (fr & E & ->). by exists fr.
Qed.

(** Changing a frame and nothing else. *)
Lemma pool_inv_set_frame ps hole b i fr fr' :
  pool_inv ps hole b -> frames b !! i = Some fr -> page_no fr' = page_no fr -> length (data fr') = ps -> 0 <= pin_count fr' ->
  (i ∈ free b -> evictable fr') -> pool_inv ps hole (set_frame b i fr').
Proof.
  intros Hi E Hp Hd Hn Hf. pose proof (lookup_lt_Some _ _ _ E) as Hlt.
  destruct Hi as [H1 H2 H3 H4 H5 H6 H7 H8 H9].
  constructor; unfold set_frame, set_frames; cbn [lru free frames clock_hand page_map]; rewrite ?length_insert; try done.
  - intros p j. rewrite H5. destruct (decide (j = i)) as [->|]; [|by rewrite list_lookup_insert_ne].
    rewrite list_lookup_insert_eq, E by done. cbn. by rewrite Hp.
  - intros j frj Ej. apply list_lookup_insert_Some in Ej as [(_ & <- & _)|[_ Ej]]; [done|by apply H7 in Ej].
  - intros j frj Ej. apply list_lookup_insert_Some in Ej as [(_ & <- & _)|[_ Ej]]; [done|by apply H8 in Ej].
  - intros j frj Hj Ej. apply list_lookup_insert_Some in Ej as [(<- & <- & _)|[_ Ej]]; [auto|by eapply H9].
Qed.

Lemma pool_inv_stats ps hole b h m e w : pool_inv ps hole b -> pool_inv ps hole (count_stats b h m e w).
Proof. by intros []. Qed.

(** ** Claiming a frame *)

Lemma same_frames_inv ps b fs h : pool_inv ps None b -> same_frames (frames b) fs -> h ∈ lru b ->
  pool_inv ps None (set_lists (set_frames b fs) (lru b) (free b) (Some h)).
Proof.
  intros Hi [Hl Hs] Hh. assert (Hback : forall i fr, fs !! i = Some fr -> exists fr0 r, frames b !! i = Some fr0 /\ fr = set_referenced fr0 r).
  { intros i fr E. pose proof (lookup_lt_Some _ _ _ E) as Hlt. rewrite Hl in Hlt.
    apply lookup_lt_is_Some_2 in Hlt as [fr0 E0]. destruct (Hs i fr0 E0) as [r Er]. rewrite Er in E. injection E as <-. eauto. }
  destruct Hi as [H1 H2 H3 H4 H5 H6 H7 H8 H9].
  constructor; unfold set_lists, set_frames; cbn [lru free frames clock_hand page_map]; rewrite ?Hl; try done.
  - intros h' [= <-]. apply H2, elem_of_app. by left.
  - intros _. by exists h.
  - intros p j. rewrite H5. split; intros (Hn & Hj & E); (split; [done|split; [done|]]); apply fmap_Some in E as (fr & E & ->).
    + destruct (Hs j fr E) as [r ->]. done.
    + destruct (Hback j fr E) as (fr0 & r & -> & ->). done.
  - intros j fr E. destruct (Hback j fr E) as (fr0 & r & E0 & ->). exact (H7 j fr0 E0).
  - intros j fr E. destruct (Hback j fr E) as (fr0 & r & E0 & ->). exact (H8 j fr0 E0).
  - intros j fr Hj E. destruct (Hback j fr E) as (fr0 & r & E0 & ->). exact (H9 j fr0 Hj E0).
Qed.

(** The search returns: a frame that can be evicted when there is one. *)
Lemma find_victim_page_spec ps b : pool_inv ps None b -> free b = [] ->
  exists v fs h, find_victim_page b = Some (v, set_lists (set_frames b fs) (lru b) (free b) h) /\
    (h = clock_hand b \/ exists h', h = Some h' /\ h' ∈ lru b) /\ victim_of (lru b) (frames b) v fs /\
    (lru b = [] -> h = clock_hand b /\ fs = frames b).
Proof.
  intros Hi Hf. unfold find_victim_page. destruct (lru b) as [|i0 l0] eqn:El.
  - assert (Ec : clock_hand b = None).
    { destruct (clock_hand b) as [h|] eqn:Eh; [|done]. apply (pi_hand _ _ _ Hi), (pi_all _ _ _ Hi) in Eh.
      rewrite El, Hf in Eh. by apply elem_of_nil in Eh. }
    rewrite Ec. cbn. exists None, (frames b), None. split; [|split; [by left|split; [|done]]].
    + destruct b; cbn in *; by subst.
    + split; [apply same_frames_refl|]. intros i fr Hin. by apply elem_of_nil in Hin.
  - destruct (pi_hand_lru _ _ _ Hi) as (h & Eh & Hh); [by rewrite El|]. rewrite Eh. rewrite <- El. rewrite El in Hh. rewrite <- El in Hh.
    apply list_elem_of_lookup in Hh as [k Ek]. pose proof (lookup_lt_Some _ _ _ Ek) as Hk.
    destruct (victim_loop_spec (lru b) k h) with (fuel := length (lru b)) (k := k) (hand := h) (n := length (lru b)) (fs := frames b)
      as (v & fs' & h' & -> & Hh' & Hv); [|done|..|done|lia| |].
    + pose proof (pi_lists _ _ _ Hi) as Hn. by apply NoDup_app in Hn as [? _].
    + intros i Hin. destruct (pi_frame _ _ _ i Hi) as [fr ->]; [by left|done].
    + apply (pi_pins _ _ _ Hi).
    + rewrite <- Nat.Div0.add_mod_idemp_r, Nat.Div0.mod_same, Nat.add_0_r. by apply Nat.mod_small.
    + cbn [mbind option_bind]. exists v, fs', (Some h'). split; [done|]. split; [right; eauto|]. split; [done|]. by rewrite El.
Qed.

(** Frame [i] moves to the head of the LRU list, without a page. *)
Lemma claim_inv ps b b2 i fr' :
  pool_inv ps None b -> i ∈ lru b \/ i ∈ free b ->
  lru b2 = i :: remove i (lru b) -> free b2 = remove i (free b) -> frames b2 = <[i := fr']> (frames b) ->
  (exists h, clock_hand b2 = Some h /\ h ∈ lru b2) ->
  (forall p j, page_map b2 !! p = Some j <-> page_map b !! p = Some j /\ j <> i) ->
  length (data fr') = ps -> 0 <= pin_count fr' -> pool_inv ps (Some i) b2.
Proof.
  intros Hi Hin El Ef Efs (h & Eh & Hh) Hm Hd Hn. assert (Hlt : (i < length (frames b))%nat) by by apply (pi_all _ _ _ Hi), elem_of_app.
  destruct Hi as [H1 H2 H3 H4 H5 H6 H7 H8 H9].
  assert (Hall : forall j, j ∈ lru b2 ++ free b2 <-> (j < length (frames b))%nat).
  { intros j. rewrite <- H2, El, Ef, !elem_of_app, elem_of_cons, !elem_of_remove. destruct (decide (j = i)) as [->|]; [tauto|tauto]. }
  constructor; rewrite ?Efs, ?length_insert.
  - apply NoDup_app in H1 as (Hl & Hd' & Hf). rewrite El, Ef. apply NoDup_app. split; [|split; [|by apply NoDup_remove]].
    + constructor; [by rewrite elem_of_remove; intros [? _]|by apply NoDup_remove].
    + intros j. rewrite elem_of_cons, !elem_of_remove. intros [->|[Hj Hj']] [? Hjf]; [done|by eapply Hd'].
  - done.
  - intros h' Eh'. rewrite Eh in Eh'. injection Eh' as <-. apply Hall, elem_of_app. by left.
  - intros _. by exists h.
  - intros p j. rewrite Hm, H5, El, elem_of_cons, elem_of_remove. destruct (decide (j = i)) as [->|Hj].
    + split; [tauto|]. by intros [? _].
    + rewrite list_lookup_insert_ne by done. split.
      * intros ((_ & Hjl & Ej) & _). split; [congruence|]. auto.
      * intros (_ & [?|[_ Hjl]] & Ej); [done|]. auto.
  - intros p j E. apply Hm in E as [E _]. by apply H6 in E.
  - intros j frj Ej. apply list_lookup_insert_Some in Ej as [(_ & <- & _)|[_ Ej]]; [done|by apply H7 in Ej].
  - intros j frj Ej. apply list_lookup_insert_Some in Ej as [(_ & <- & _)|[_ Ej]]; [done|by apply H8 in Ej].
  - intros j frj Hj Ej. rewrite Ef in Hj. apply elem_of_remove in Hj as [Hji Hj].
    rewrite list_lookup_insert_ne in Ej by done. by eapply H9.
Qed.

Lemma next_of_in i l j : next_of i l = Some j -> j ∈ l.
Proof.
  induction l as [|k l IH]; cbn; [done|]. case_decide; [|intros ?; right; auto].
  destruct l; cbn; [done|]. intros [= ->]. set_solver.
Qed.

Lemma remove_id i l : i ∉ l -> remove i l = l.
Proof.
  intros Hi. unfold remove. induction l as [|j l IH]; [done|]. apply not_elem_of_cons in Hi as [Hj Hi].
  rewrite filter_cons_True by congruence. by rewrite IH.
Qed.

(** The hand after the two list operations. *)
Lemma claim_hand l i hand : (exists h, hand = Some h /\ h ∈ l) -> i ∈ l ->
  exists h, (match remove i l with [] => Some i | _ => if decide (hand = Some i) then match next_of i l with Some j => Some j | None => head l end else hand end) = Some h /\
    h ∈ i :: remove i l.
Proof.
  intros (h0 & -> & Hh0) Hi. assert (Hany : forall j, j ∈ l -> j ∈ i :: remove i l).
  { intros j Hj. rewrite elem_of_cons, elem_of_remove. destruct (decide (j = i)); auto. }
  destruct (remove i l) eqn:E.
  - exists i. set_solver.
  - case_decide; [|exists h0; auto]. destruct (next_of i l) as [j|] eqn:Ej; [exists j; split; [done|]; by eapply Hany, next_of_in|].
    destruct l as [|k l]; [by apply elem_of_nil in Hi|]. exists k. split; [done|]. apply Hany. set_solver.
Qed.

(** The outcome of a claim: a write-latched frame without a page, or the error
    when every cached page is pinned or latched. *)
Record claimed (ps : nat) (b : buf_pool_t) (i : nat) (b' : buf_pool_t) : Prop := {
  cl_inv : pool_inv ps (Some i) b';
  cl_lru : i ∈ lru b';
  cl_frame : exists fr, frames b' !! i = Some fr /\ latch fr = WRITE_LOCK_FLAG /\ pin_count fr = 0;
  cl_map : forall p j, page_map b' !! p = Some j -> page_map b !! p = Some j;
  cl_kept : kept b b'
}.

Definition blocked (b : buf_pool_t) : Prop := free b = [] /\ forall i fr, i ∈ lru b -> frames b !! i = Some fr -> ~ evictable fr.

Lemma claim_frame_free ps b i fl : pool_inv ps None b -> free b = i :: fl ->
  exists b', claim_frame b = Some (Ok (i, None), b') /\ claimed ps b i b' /\ page_map b' = page_map b /\
    (forall j, j <> i -> frames b' !! j = frames b !! j).
Proof.
  intros Hi Ef. unfold claim_frame. rewrite Ef. assert (Hin : i ∈ free b) by (rewrite Ef; set_solver).
  assert (Hnl : i ∉ lru b) by (intros Hl; by apply (pi_disjoint _ _ _ i Hi)).
  destruct (pi_frame _ _ _ i Hi) as [fr E]; [by right|]. destruct (pi_free _ _ _ Hi i fr Hin E) as [Hp Hl].
  assert (Hw : w_latch fr = Some (set_latch fr WRITE_LOCK_FLAG)) by (by destruct (try_w_latch_cases fr) as [[_ Hw]|[? _]]; [exact Hw|]).
  cbn -[remove w_latch set_frame]. rewrite E. cbn [mbind option_bind]. rewrite Hw.
  eexists. split; [done|]. split; [|split; [done|]].
  - constructor; [| | |done|].
    + apply (claim_inv ps b _ i (set_latch fr WRITE_LOCK_FLAG) Hi); [by right|cbn; by rewrite remove_id|done|done| | |exact (pi_data _ _ _ Hi i fr E)|cbn; lia].
      * cbn -[remove]. destruct (lru b) as [|j l] eqn:El; [exists i; set_solver|].
        destruct (pi_hand_lru _ _ _ Hi) as (h & Eh & Hh); [by rewrite El|]. exists h. split; [done|]. rewrite El in Hh. set_solver.
      * intros p j. cbn. split; [|tauto]. intros Ep. split; [done|]. intros ->. by apply (pi_cached _ _ _ _ _ Hi) in Ep as [? _].
    + cbn. set_solver.
    + eexists. split; [cbn; apply list_lookup_insert_eq; by apply lookup_lt_Some in E|]. done.
    + intros p j frj Ep Ej Hev. cbn. split; [done|]. exists (referenced frj). rewrite list_lookup_insert_ne.
      * rewrite Ej. by destruct frj.
      * intros ->. by apply (pi_cached _ _ _ _ _ Hi) in Ep as [? _].
  - intros j Hj. cbn. by rewrite list_lookup_insert_ne.
Qed.

(** An eviction: the victim has lost its place in the map, and its page has to
    be written back when it is dirty. *)
Lemma claim_frame_evict ps b : pool_inv ps None b -> free b = [] ->
  (exists b', claim_frame b = Some (Throw runtime_error, b') /\ pool_inv ps None b' /\ page_map b' = page_map b /\
    same_frames (frames b) (frames b') /\ blocked b) \/
  (exists i fr r b', claim_frame b = Some (Ok (i, if is_dirty fr then Some (page_no fr) else None), b') /\
    frames b !! i = Some fr /\ evictable fr /\ page_map b !! page_no fr = Some i /\ claimed ps b i b' /\ page_map b' = delete (page_no fr) (page_map b) /\
    frames b' !! i = Some (set_parse (set_latch (set_referenced fr r) WRITE_LOCK_FLAG) false) /\
    (forall j frj, j <> i -> frames b !! j = Some frj -> exists r, frames b' !! j = Some (set_referenced frj r))).
Proof.
  intros Hi Ef. destruct (find_victim_page_spec ps b Hi Ef) as (v & fs & h & Hfind & Hh & Hv & Hnil).
  unfold claim_frame. rewrite Ef, Hfind. cbn [mbind option_bind]. destruct v as [i|]; cbn [victim_of] in Hv.
  - right. destruct Hv as (Hin & fs1 & fr1 & Hs & E1 & He1 & ->).
    assert (Hex : exists fr r, frames b !! i = Some fr /\ fr1 = set_referenced fr r).
    { destruct (pi_frame _ _ _ i Hi) as [fr E]; [by left|]. destruct Hs as [_ Hs]. destruct (Hs i fr E) as [r Er].
      rewrite Er in E1. injection E1 as <-. eauto. }
    destruct Hex as (fr & r & E & ->). pose proof (lookup_lt_Some _ _ _ E1) as Hlt.
    assert (Em : page_map b !! page_no fr = Some i) by (apply (pi_map _ _ _ Hi); rewrite E; done).
    assert (Hh' : exists h', h = Some h' /\ h' ∈ lru b).
    { destruct Hh as [->|?]; [|done]. apply (pi_hand_lru _ _ _ Hi). intros En. rewrite En in Hin. by apply elem_of_nil in Hin. }
    cbn -[remove next_of]. rewrite list_lookup_insert_eq by done. cbn -[remove next_of].
    exists i, fr, r. eexists. split; [done|]. split; [done|]. split; [exact He1|]. split; [done|]. split; [|split; [done|split]].
    + set (fr' := set_parse _ _). constructor; cbn -[remove next_of]; rewrite ?list_insert_insert_eq.
      * apply (claim_inv ps (set_lists (set_frames b fs1) (lru b) (free b) (Some i)) _ i fr').
        -- by apply same_frames_inv.
        -- by left.
        -- done.
        -- cbn. by rewrite Ef.
        -- cbn. by rewrite list_insert_insert_eq.
        -- cbn -[remove next_of]. by apply claim_hand.
        -- intros p j. cbn. rewrite lookup_delete_Some. split; intros [Ha Hb].
           ++ split; [done|]. intros ->. apply (pi_cached _ _ _ _ _ Hi) in Hb as (_ & fr0 & E0 & <-).
              rewrite E in E0. by injection E0 as <-.
           ++ split; [|done]. intros <-. rewrite Em in Ha. by injection Ha.
        -- exact (pi_data _ _ _ Hi i fr E).
        -- exact (pi_pins _ _ _ Hi i fr E).
      * set_solver.
      * exists fr'. rewrite list_lookup_insert_eq by done. split; [done|]. split; [done|]. apply He1.
      * intros p j. rewrite lookup_delete_Some. tauto.
      * intros p j frj Ep Ej Hev. cbn. assert (j <> i).
        { intros ->. rewrite E in Ej. injection Ej as <-. by apply Hev. }
        rewrite lookup_delete_Some. split.
        -- split; [|done]. intros <-. rewrite Em in Ep. by injection Ep as ->.
        -- rewrite !list_lookup_insert_ne by done. destruct Hs as [_ Hs]. apply (Hs j frj Ej).
    + cbn. by rewrite list_insert_insert_eq, list_lookup_insert_eq.
    + intros j frj Hj Ej. cbn. rewrite list_insert_insert_eq, list_lookup_insert_ne by done. destruct Hs as [_ Hs]. apply (Hs j frj Ej).
  - left. destruct Hv as (Hs & Hev). eexists. split; [done|]. split; [|split; [done|split; [done|by split]]].
    destruct (decide (lru b = [])) as [En|Hne].
    + destruct (Hnil En) as [-> ->]. by destruct b.
    + destruct Hh as [->|(h' & -> & Hh')]; [|by apply same_frames_inv].
      destruct (pi_hand_lru _ _ _ Hi Hne) as (h' & -> & Hh'). by apply same_frames_inv.
Qed.

Definition pool_ok (b : buf_pool_t) (f : F) (M : gmap Z (list Z)) : Prop :=
  file_ok f /\ pool_inv (file_page_size f) None b /\ contents b f M.

Lemma contents_same b b' f M : contents b f M -> page_map b' = page_map b -> same_frames (frames b) (frames b') -> contents b' f M.
Proof.
  intros Hc Em [_ Hs] p bs E. specialize (Hc p bs E). rewrite Em. destruct (page_map b !! p) as [i|]; [|done].
  destruct Hc as (fr & Ei & Hd & Hf). destruct (Hs i fr Ei) as [r Er]. by eexists.
Qed.

Lemma same_frames_kept b b' : page_map b' = page_map b -> same_frames (frames b) (frames b') -> kept b b'.
Proof. intros Em [_ Hs] p i fr Ep Ei _. rewrite Em. split; [done|]. by apply Hs. Qed.

(** The contents after a frame other than the page's own has been changed. *)
Lemma contents_frame b f M i fr' : contents b f M -> (forall p, page_map b !! p <> Some i) -> contents (set_frame b i fr') f M.
Proof.
  intros Hc Hn p bs E. specialize (Hc p bs E). cbn. specialize (Hn p). destruct (page_map b !! p) as [j|]; [|done].
  destruct Hc as (fr & Ej & H). exists fr. rewrite list_lookup_insert_ne; [done|congruence].
Qed.

Lemma hole_unmapped ps i b p : pool_inv ps (Some i) b -> page_map b !! p <> Some i.
Proof. intros Hi E. by apply (pi_map _ _ _ Hi) in E as [? _]. Qed.

Lemma claimed_clean ps b i b' fr : claimed ps b i b' -> frames b' !! i = Some fr -> claimed ps b i (set_frame b' i (set_dirty fr false)).
Proof.
  intros [H1 H2 (fr0 & E0 & Hl & Hp) H4 H5] E. rewrite E in E0. injection E0 as <-. pose proof (lookup_lt_Some _ _ _ E) as Hlt.
  constructor; [|done| |done|].
  - apply (pool_inv_set_frame _ _ _ _ fr); [done|done|done|exact (pi_data _ _ _ H1 i fr E)|exact (pi_pins _ _ _ H1 i fr E)|].
    intros Hf. by destruct (pi_disjoint _ _ _ i H1).
  - eexists. cbn. rewrite list_lookup_insert_eq by done. done.
  - intros p j frj Ep Ej Hev. destruct (H5 p j frj Ep Ej Hev) as [Em Er]. split; [done|]. cbn.
    rewrite list_lookup_insert_ne; [done|]. intros ->. by apply (hole_unmapped _ _ _ p H1).
Qed.

(** A claimed frame and where the contents are then: every known page that was
    in the frame is in the file. *)
Lemma claim_frame_for_reuse_spec b f M : pool_ok b f M ->
  (exists b', claim_frame_for_reuse b f = Some (Throw runtime_error, b', f) /\ pool_ok b' f M /\ page_map b' = page_map b /\
    same_frames (frames b) (frames b') /\ blocked b) \/
  (exists i b' f', claim_frame_for_reuse b f = Some (Ok i, b', f') /\ file_ok f' /\ file_page_size f' = file_page_size f /\
    claimed (file_page_size f) b i b' /\ contents b' f' M /\ ~ blocked b).
Proof.
  intros (Hfo & Hi & Hc). unfold claim_frame_for_reuse. destruct (free b) as [|i fl] eqn:Ef.
  - destruct (claim_frame_evict _ b Hi Ef) as [(b' & -> & Hi' & Em & Hs & Hb)|(i & fr & r & b' & -> & E & Hev & Ep & Hcl & Em & E' & Hoth)];
      cbn [mbind option_bind].
    { left. exists b'. do 2 (split; [done || by (split; [|split; [|eapply contents_same]])|]). done. }
    right. assert (Hnb : ~ blocked b).
    { intros [_ Hb]. apply (Hb i fr); [by apply (pi_cached _ _ _ _ _ Hi) in Ep as [? _]|done|done]. }
    destruct (is_dirty fr) eqn:Edirty; cbn [write_back]; rewrite ?E'; cbn [mbind option_bind].
    + destruct (file_write_ok f (page_no fr) (data fr) Hfo) as (Hfo' & Hps & Hh);
        [by apply (pi_pages _ _ _ Hi) in Ep|exact (pi_data _ _ _ Hi i fr E)|].
      do 3 eexists. split; [done|]. split; [done|]. split; [done|]. split; [by apply claimed_clean|]. split; [|done].
      apply contents_frame; [|intros p; by apply (hole_unmapped _ _ _ p (cl_inv _ _ _ _ Hcl))].
      intros q bs Eq. specialize (Hc q bs Eq). rewrite Em. destruct (decide (q = page_no fr)) as [->|Hq].
      * rewrite lookup_delete_eq. rewrite Ep in Hc. destruct Hc as (fr0 & E0 & <- & _). rewrite E in E0. by injection E0 as <-.
      * rewrite lookup_delete_ne by done. destruct (page_map b !! q) as [j|] eqn:Ej.
        -- destruct Hc as (frj & Efj & Hd & Hf). destruct (Hoth j frj) as [r' Er']; [|done|].
           { intros ->. apply (pi_cached _ _ _ _ _ Hi) in Ej as (_ & fr0 & E0 & <-). rewrite E in E0. by injection E0 as <-. }
           eexists. split; [done|]. split; [done|]. intros Hcl'. apply file_write_other; [done|by apply (pi_pages _ _ _ Hi) in Ep|exact (pi_data _ _ _ Hi i fr E)|done|by apply Hf].
        -- apply file_write_other; [done|by apply (pi_pages _ _ _ Hi) in Ep|exact (pi_data _ _ _ Hi i fr E)|done|done].
    + do 3 eexists. split; [done|]. split; [done|]. split; [done|]. split; [done|]. split; [|done].
      intros q bs Eq. specialize (Hc q bs Eq). rewrite Em. destruct (decide (q = page_no fr)) as [->|Hq].
      * rewrite lookup_delete_eq. rewrite Ep in Hc. destruct Hc as (fr0 & E0 & <- & Hf). rewrite E in E0. injection E0 as <-. auto.
      * rewrite lookup_delete_ne by done. destruct (page_map b !! q) as [j|] eqn:Ej; [|done].
        destruct Hc as (frj & Efj & Hd & Hf). destruct (Hoth j frj) as [r' Er']; [|done|by eexists].
        intros ->. apply (pi_cached _ _ _ _ _ Hi) in Ej as (_ & fr0 & E0 & <-). rewrite E in E0. by injection E0 as <-.
  - right. destruct (claim_frame_free _ b i fl Hi Ef) as (b' & -> & Hcl & Em & Hoth). cbn [mbind option_bind write_back].
    do 3 eexists. split; [done|]. split; [done|]. split; [done|]. split; [done|]. split; [|intros [Hb _]; congruence].
    intros q bs Eq. specialize (Hc q bs Eq). rewrite Em. destruct (page_map b !! q) as [j|] eqn:Ej; [|done].
    destruct Hc as (frj & Efj & H). exists frj. rewrite Hoth; [done|]. intros ->.
    apply (pi_cached _ _ _ _ _ Hi) in Ej as [Hl _]. apply (pi_disjoint _ _ _ i Hi); [done|]. rewrite Ef. set_solver.
Qed.

(** A page is put in the claimed frame. *)
Lemma fill_frame b b0 f M i p fr' : file_ok f -> claimed (file_page_size f) b0 i b -> contents b f M ->
  0 <= p -> page_map b0 !! p = None -> page_no fr' = p -> length (data fr') = file_page_size f -> 0 <= pin_count fr' ->
  (forall bs, M !! p = Some bs -> data fr' = bs /\ (is_dirty fr' = false -> file_holds f p bs)) ->
  let b' := map_insert (set_frame b i fr') p i in
  pool_ok b' f M /\ page_map b' !! p = Some i /\ frames b' !! i = Some fr' /\ kept b0 b'.
Proof.
  intros Hfo Hcl Hc Hp Hn0 Hpn Hd Hpins HM. pose proof (cl_inv _ _ _ _ Hcl) as Hi.
  assert (Hn : page_map b !! p = None).
  { destruct (page_map b !! p) as [j|] eqn:E; [|done]. apply (cl_map _ _ _ _ Hcl) in E. by rewrite Hn0 in E. }
  destruct (cl_frame _ _ _ _ Hcl) as (fr & E & _ & _). pose proof (lookup_lt_Some _ _ _ E) as Hlt.
  unfold map_insert. cbn [set_frame set_frames page_map]. rewrite Hn. cbn zeta. split; [|split; [|split]].
  - split; [done|]. split.
    + pose proof (cl_lru _ _ _ _ Hcl) as Hil. assert (Hnf : i ∉ free b) by (intros ?; by apply (pi_disjoint _ _ _ i Hi)).
      destruct Hi as [H1 H2 H3 H4 H5 H6 H7 H8 H9]. constructor; cbn; rewrite ?length_insert; try done.
      * intros q j. destruct (decide (q = p)) as [->|Hq].
        -- rewrite lookup_insert_eq. destruct (decide (j = i)) as [->|Hj].
           ++ rewrite list_lookup_insert_eq by done. cbn. by rewrite Hpn.
           ++ rewrite list_lookup_insert_ne by done. split; [by intros [= ->]|]. intros (_ & Hjl & Ej).
              assert (page_map b !! p = Some j) by (apply H5; split; [congruence|done]). congruence.
        -- rewrite lookup_insert_ne by done. rewrite H5. destruct (decide (j = i)) as [->|Hj].
           ++ rewrite list_lookup_insert_eq by done. cbn. rewrite Hpn. split; [by intros [? _]|]. intros (_ & _ & [= ?]). done.
           ++ rewrite list_lookup_insert_ne by done. split; intros (_ & ? & ?); (split; [congruence|done]).
      * intros q j. destruct (decide (q = p)) as [->|Hq]; [done|]. rewrite lookup_insert_ne by done. apply H6.
      * intros j frj Ej. apply list_lookup_insert_Some in Ej as [(_ & <- & _)|[_ Ej]]; [done|by apply H7 in Ej].
      * intros j frj Ej. apply list_lookup_insert_Some in Ej as [(_ & <- & _)|[_ Ej]]; [done|by apply H8 in Ej].
      * intros j frj Hj Ej. rewrite list_lookup_insert_ne in Ej by (intros ->; done). by eapply H9.
    + intros q bs Eq. cbn. destruct (decide (q = p)) as [->|Hq].
      * rewrite lookup_insert_eq. exists fr'. rewrite list_lookup_insert_eq by done. split; [done|auto].
      * rewrite lookup_insert_ne by done. exact (contents_frame b f M i fr' Hc (fun p' => hole_unmapped _ _ _ p' Hi) q bs Eq).
  - cbn. apply lookup_insert_eq.
  - cbn. by apply list_lookup_insert_eq.
  - intros q j frj Eq Ej Hev. destruct (cl_kept _ _ _ _ Hcl q j frj Eq Ej Hev) as [Em Er]. cbn.
    rewrite lookup_insert_ne by congruence. split; [done|]. rewrite list_lookup_insert_ne; [done|].
    intros ->. by apply (hole_unmapped _ _ _ q Hi).
Qed.

End Inv.
End BufPoolInv.
