(* ===== verification/BufPoolRun.v ===== *)
(** * Traces of the buffer pool

    The threads' calls in the order in which they take effect, against the
    contents of the pages: a read returns what was written last, a flush makes
    it durable, and a read fails only when every frame is in use or the page is
    not well formed.  The calls follow one another; two overlapping calls that go
    wrong, and what a malformed page leaves behind, are at the end. *)

From S2P Require Import Prelude Config DiskManager Latch BufPool BufPoolInv.

Local Open Scope Z_scope.

Module BufPoolRun.
Import Latch BufPool BufPoolInv.

Section Run.
Context {F : Type} `{!PageFile F} {parser : PageParser}.

(** A call of the pool, or the use of a page by the thread that holds it. *)
Inductive op :=
  | OpRead (p : Z) (write_latch : bool)
  | OpWrite (p : Z) (bs : list Z)     (* under the write latch: the bytes, then [mark_dirty] *)
  | OpCp (p : Z) (bs : list Z)        (* [buf_page_cp], then the caller's [mark_dirty] *)
  | OpNew (p : Z)
  | OpRetire (p : Z)
  | OpFlush (p : Z)
  | OpRUnlatch (p : Z)
  | OpWUnlatch (p : Z)
  | OpUnpin (p : Z).                  (* [dec_pin_count] *)

Definition op_page (o : op) : Z :=
  match o with OpRead p _ | OpWrite p _ | OpCp p _ | OpNew p | OpRetire p | OpFlush p | OpRUnlatch p | OpWUnlatch p | OpUnpin p => p end.

Definition op_ok (ps : nat) (o : op) : Prop :=
  0 <= op_page o /\ match o with OpWrite _ bs | OpCp _ bs => length bs = ps | _ => True end.

(** The holder of a page acts on its frame. *)
Definition on_frame (b : buf_pool_t) (p : Z) (g : frame_t -> option frame_t) : option buf_pool_t :=
  i ← page_map b !! p; fr ← frames b !! i; fr ← g fr; Some (set_frame b i fr).

Definition write_held (bs : list Z) (fr : frame_t) : option frame_t :=
  if latch fr =? WRITE_LOCK_FLAG then Some (set_dirty (set_data fr bs) true) else None.
Definition r_release (fr : frame_t) : option frame_t :=
  if negb (is_write_locked (latch fr)) && (0 <? latch fr) && (0 <? pin_count fr) then Some (r_unlatch fr) else None.
Definition w_release (fr : frame_t) : option frame_t := if latch fr =? WRITE_LOCK_FLAG then Some (w_unlatch fr) else None.
Definition unpin (fr : frame_t) : option frame_t := if 0 <? pin_count fr then Some (set_pins fr (pin_count fr - 1)) else None.

Definition frame_data (b : buf_pool_t) (i : nat) : option (list Z) := data <$> frames b !! i.

(** The bytes seen through the returned page; no bytes: an error, a busy or a
    cached page. *)
Definition run_op (reinit : list Z -> list Z) (o : op) (b : buf_pool_t) (f : F) : option (option (list Z) * buf_pool_t * F) :=
  match o with
  | OpRead p w =>
    '(r, b, f) ← read_page_internal b f p w;
    Some (match r with Ok i => frame_data b i | Throw _ => None end, b, f)
  | OpWrite p bs => b ← on_frame b p (write_held bs); Some (Some bs, b, f)
  | OpCp p bs =>
    '(r, b, f) ← buf_page_cp b f p bs;
    match r with
    | Ok (Some i) => fr ← frames b !! i; Some (Some bs, set_frame b i (set_dirty fr true), f)
    | _ => Some (None, b, f)
    end
  | OpNew p =>
    '(r, b, f) ← buf_page_new reinit b f p;
    Some (match r with Ok i => frame_data b i | Throw _ => None end, b, f)
  | OpRetire p => '(ok, b) ← retire_page b p; Some (if (ok : bool) then Some [] else None, b, f)
  | OpFlush p =>
    match page_map b !! p with
    | Some i => '(ok, b, f) ← flush_to_disk b f i; Some (if (ok : bool) then Some [] else None, b, f)
    | None => Some (None, b, f)
    end
  | OpRUnlatch p => b ← on_frame b p r_release; Some (None, b, f)
  | OpWUnlatch p => b ← on_frame b p w_release; Some (None, b, f)
  | OpUnpin p => b ← on_frame b p unpin; Some (None, b, f)
  end.

(** The page type accepts the bytes that the call brings in. *)
Definition accepts (o : op) (b : buf_pool_t) (f : F) : Prop :=
  match o with
  | OpRead p _ => page_map b !! p = None -> forall i b' f', claim_frame_for_reuse (count_stats b 0 1 0 0) f = Some (Ok i, b', f') -> parses p (file_read f' p) = true
  | OpCp p bs => parses p bs = true
  | _ => True
  end.

(** ** The abstract pool: a map from pages to contents *)

(** A new page's bytes, and a retired page's, are unknown. *)
Definition spec_op (o : op) (out : option (list Z)) (M : gmap Z (list Z)) : gmap Z (list Z) :=
  match o, out with
  | OpWrite p bs, _ => <[p := bs]> M
  | OpCp p bs, Some _ => <[p := bs]> M
  | OpNew p, Some _ | OpRetire p, Some _ => delete p M
  | _, _ => M
  end.

Definition spec_out (o : op) (out : option (list Z)) (M : gmap Z (list Z)) : Prop :=
  match o with OpRead p _ => forall bs d, out = Some d -> M !! p = Some bs -> d = bs | _ => True end.

Fixpoint run (reinit : list Z -> list Z) (ops : list op) (b : buf_pool_t) (f : F) : option (list (option (list Z)) * buf_pool_t * F) :=
  match ops with
  | [] => Some ([], b, f)
  | o :: ops => '(out, b, f) ← run_op reinit o b f; '(outs, b, f) ← run reinit ops b f; Some (out :: outs, b, f)
  end.

Fixpoint all_accepted (reinit : list Z -> list Z) (ops : list op) (b : buf_pool_t) (f : F) : Prop :=
  match ops with
  | [] => True
  | o :: ops => accepts o b f /\ match run_op reinit o b f with Some (_, b, f) => all_accepted reinit ops b f | None => True end
  end.

Fixpoint spec (ops : list op) (outs : list (option (list Z))) (M : gmap Z (list Z)) : gmap Z (list Z) :=
  match ops, outs with o :: ops, out :: outs => spec ops outs (spec_op o out M) | _, _ => M end.

Fixpoint agrees (ops : list op) (outs : list (option (list Z))) (M : gmap Z (list Z)) : Prop :=
  match ops, outs with
  | o :: ops, out :: outs => spec_out o out M /\ agrees ops outs (spec_op o out M)
  | _, _ => True
  end.

(** ** Steps on one frame *)

Lemma pool_ok_frame b f M M' i fr fr' : pool_ok b f M -> frames b !! i = Some fr ->
  page_no fr' = page_no fr -> length (data fr') = length (data fr) -> 0 <= pin_count fr' -> (i ∈ free b -> evictable fr') ->
  (forall p bs, M' !! p = Some bs -> page_map b !! p <> Some i -> M !! p = Some bs) ->
  (forall p bs, M' !! p = Some bs -> page_map b !! p = Some i -> data fr' = bs /\ (is_dirty fr' = false -> file_holds f p bs)) ->
  pool_ok (set_frame b i fr') f M'.
Proof.
  intros (Hfo & Hi & Hc) E Hp Hd Hn Hf Hoth Hsame. pose proof (lookup_lt_Some _ _ _ E) as Hlt.
  split; [done|]. split.
  - apply (pool_inv_set_frame _ _ _ _ fr); try done. rewrite Hd. exact (pi_data _ _ _ Hi i fr E).
  - intros p bs Ep. cbn. destruct (decide (page_map b !! p = Some i)) as [Em|Em].
    + rewrite Em. exists fr'. rewrite list_lookup_insert_eq by done. auto.
    + specialize (Hc p bs (Hoth p bs Ep Em)). destruct (page_map b !! p) as [j|]; [|done].
      destruct Hc as (frj & Ej & H). exists frj. rewrite list_lookup_insert_ne by congruence. done.
Qed.

(** A change of latches, pins and the reference bit; the page may become dirty. *)
Lemma pool_ok_touch b f M i fr fr' : pool_ok b f M -> frames b !! i = Some fr ->
  page_no fr' = page_no fr -> data fr' = data fr -> (is_dirty fr' = false -> is_dirty fr = false) -> 0 <= pin_count fr' -> (i ∈ free b -> evictable fr') ->
  pool_ok (set_frame b i fr') f M.
Proof.
  intros Hok E Hp Hd Hdi Hn Hf. apply (pool_ok_frame b f M M i fr); try done; [by rewrite Hd|].
  intros p bs Ep Em. destruct Hok as (_ & _ & Hc). specialize (Hc p bs Ep). rewrite Em in Hc.
  destruct Hc as (fr0 & E0 & Hd0 & Hf0). rewrite E in E0. injection E0 as <-. split; [congruence|auto].
Qed.

Lemma cached_not_free b f M p i : pool_ok b f M -> page_map b !! p = Some i -> i ∉ free b.
Proof. intros (_ & Hi & _) E Hf. apply (pi_cached _ _ _ _ _ Hi) in E as [Hl _]. by apply (pi_disjoint _ _ _ i Hi). Qed.

Lemma pool_ok_pins b f M i fr : pool_ok b f M -> frames b !! i = Some fr -> 0 <= pin_count fr.
Proof. intros (_ & Hi & _). apply (pi_pins _ _ _ Hi). Qed.

Lemma pool_ok_data b f M p i fr bs : pool_ok b f M -> page_map b !! p = Some i -> frames b !! i = Some fr -> M !! p = Some bs -> data fr = bs.
Proof.
  intros (_ & _ & Hc) E Ei Ep. specialize (Hc p bs Ep). rewrite E in Hc. destruct Hc as (fr0 & E0 & <- & _). congruence.
Qed.

Lemma pool_ok_stats b f M h m e w : pool_ok b f M -> pool_ok (count_stats b h m e w) f M.
Proof. intros (Hfo & Hi & Hc). split; [done|]. split; [by apply pool_inv_stats|done]. Qed.

(** The latch taken by a call on a cached page. *)
Definition take_latch (w : bool) (fr : frame_t) : option frame_t := if w then w_latch fr else r_latch fr.

Lemma take_latch_spec w fr fr' : take_latch w fr = Some fr' ->
  page_no fr' = page_no fr /\ data fr' = data fr /\ is_dirty fr' = is_dirty fr /\ pin_count fr <= pin_count fr'.
Proof.
  unfold take_latch, w_latch, r_latch. destruct w; case_match; case_match; intros [= <-]; cbn; repeat split; lia.
Qed.

(** A call on a cached page waits for its latch, or takes it. *)
Lemma try_latch_hit b f M p w i : pool_ok b f M -> page_map b !! p = Some i ->
  exists fr, frames b !! i = Some fr /\
  match take_latch w fr with
  | None => try_latch_cached_page b p w = None
  | Some fr' => let b' := set_frame b i (set_referenced fr' true) in
    try_latch_cached_page b p w = Some (Some i, b') /\ pool_ok b' f M /\ page_map b' !! p = Some i /\
    frames b' !! i = Some (set_referenced fr' true) /\ data fr' = data fr
  end.
Proof.
  intros Hok E. pose proof Hok as (_ & Hi & _). destruct (pi_cached _ _ _ _ _ Hi E) as (_ & fr & Efr & Hp).
  exists fr. split; [done|]. unfold try_latch_cached_page. rewrite E, Efr. cbn [mbind option_bind].
  change (if w then w_latch fr else r_latch fr) with (take_latch w fr). destruct (take_latch w fr) as [fr'|] eqn:El; [|done].
  destruct (take_latch_spec w fr fr' El) as (H1 & H2 & H3 & H4). cbn [mbind option_bind]. rewrite H1, Hp, Z.eqb_refl.
  split; [done|]. split; [|split; [done|split; [|done]]].
  - apply (pool_ok_touch b f M i fr); [done..|cbn; congruence| |].
    + cbn. pose proof (pool_ok_pins _ _ _ _ _ Hok Efr). lia.
    + intros Hf. by destruct (cached_not_free _ _ _ _ _ Hok E).
  - cbn. apply list_lookup_insert_eq. by apply lookup_lt_Some in Efr.
Qed.

Lemma try_latch_miss b p w : page_map b !! p = None -> try_latch_cached_page b p w = Some (None, b).
Proof. intros E. unfold try_latch_cached_page. by rewrite E. Qed.

(** ** The calls *)

(** The page number and length that a read page brings. *)
Definition read_frame (fr : frame_t) (p : Z) (bs : list Z) (w : bool) : frame_t :=
  let fr := install fr p bs true in
  if w then fr else set_latch (set_pins fr (pin_count fr + 1)) 1.

Lemma load_page_eq b f p i w fr : frames b !! i = Some fr -> latch fr = WRITE_LOCK_FLAG -> parses p (file_read f p) = true ->
  load_page b f p i w = Some (Ok i, map_insert (set_frame b i (read_frame fr p (file_read f p) w)) p i).
Proof.
  intros E Hl Hpa. pose proof (lookup_lt_Some _ _ _ E) as Hlt. unfold load_page. rewrite E. cbn [mbind option_bind]. rewrite Hpa. destruct w; [done|].
  assert (El : forall x, frames (map_insert (set_frame b i x) p i) !! i = Some x).
  { intros x. unfold map_insert. cbn. destruct (page_map b !! p); cbn; by apply list_lookup_insert_eq. }
  rewrite El. cbn [mbind option_bind]. unfold w_to_r_latch. cbn [latch install]. rewrite Hl.
  replace (w_to_r_convert_safe WRITE_LOCK_FLAG) with (Ok 1) by done. cbn [mbind option_bind].
  unfold map_insert. cbn. destruct (page_map b !! p); unfold set_frame, set_frames, set_map; cbn; by rewrite list_insert_insert_eq.
Qed.

(** A read of a page that is not cached fails when every frame is in use or the
    page is rejected, and loads it otherwise; pages in use stay where they are.
    The frame of a rejected page is on the LRU list and in no map. *)
Lemma read_miss b f M p w : pool_ok b f M -> page_map b !! p = None -> 0 <= p ->
  exists b' f' r, read_page_internal b f p w = Some (r, b', f') /\ file_page_size f' = file_page_size f /\ kept b b' /\
  match r with
  | Ok i => ~ blocked b /\ pool_ok b' f' M /\ parses p (file_read f' p) = true /\ page_map b' !! p = Some i /\
      exists fr, frames b' !! i = Some fr /\ data fr = file_read f' p /\
      latch fr = (if w then WRITE_LOCK_FLAG else 1) /\ pin_count fr = (if w then 0 else 1)
  | Throw e => e = runtime_error /\ (blocked b /\ pool_ok b' f' M /\ f' = f /\ page_map b' = page_map b \/
      ~ blocked b /\ (exists i b1, claim_frame_for_reuse (count_stats b 0 1 0 0) f = Some (Ok i, b1, f')) /\
      parses p (file_read f' p) = false /\ page_map b' !! p = None /\
      exists i fr, i ∈ lru b' /\ frames b' !! i = Some fr /\ page_no fr = p /\ evictable fr)
  end.
Proof.
  intros Hok En Hp. unfold read_page_internal. rewrite (try_latch_miss _ _ _ En). cbn [mbind option_bind].
  destruct (claim_frame_for_reuse_spec _ f M (pool_ok_stats b f M 0 1 0 0 Hok))
    as [(b' & -> & Hok' & Em & Hs & Hb)|(i & b' & f' & Ecl & Hfo & Hps & Hcl & Hc & Hnb)]; [|rewrite Ecl]; cbn [mbind option_bind].
  { exists b', f, (Throw runtime_error). split; [done|]. split; [done|]. split; [by apply same_frames_kept|].
    split; [done|]. left. done. }
  destruct (cl_frame _ _ _ _ Hcl) as (fr & E & Hl & Hpin).
  assert (Hn : page_map b' !! p = None).
  { destruct (page_map b' !! p) as [j|] eqn:Ej; [|done]. apply (cl_map _ _ _ _ Hcl) in Ej. cbn in Ej. congruence. }
  destruct (parses p (file_read f' p)) eqn:Epa.
  - rewrite (load_page_eq _ _ _ _ _ fr E Hl Epa). cbn [mbind option_bind].
    rewrite <- Hps in Hcl. set (fr' := read_frame fr p (file_read f' p) w).
    destruct (fill_frame b' (count_stats b 0 1 0 0) f' M i p fr') as (H1 & H2 & H3 & H4); [done..| | | | |].
    + by destruct w.
    + replace (data fr') with (file_read f' p) by by destruct w. by apply file_read_length.
    + unfold fr', read_frame. destruct w; cbn; lia.
    + intros bs Eb. specialize (Hc p bs Eb). rewrite Hn in Hc. split; [|done].
      replace (data fr') with (file_read f' p) by by destruct w. by apply file_read_holds.
    + eexists _, f', (Ok i). split; [done|]. split; [done|]. split; [done|]. split; [done|]. split; [done|]. split; [done|]. split; [done|].
      exists fr'. split; [done|]. unfold fr', read_frame. destruct w; cbn; (split; [done|split; [done|lia]]).
  - unfold load_page. rewrite E. cbn [mbind option_bind]. rewrite Epa.
    eexists _, f', (Throw runtime_error). split; [done|]. split; [done|]. split.
    + intros q j frj Eq Ej Hev. destruct (cl_kept _ _ _ _ Hcl q j frj Eq Ej Hev) as [Em Er]. split; [done|]. cbn.
      rewrite list_lookup_insert_ne; [done|]. intros ->. by apply (hole_unmapped _ _ _ q (cl_inv _ _ _ _ Hcl)).
    + split; [done|]. right. split; [done|]. split; [eauto|]. split; [done|]. split; [done|]. exists i. eexists.
      split; [apply (cl_lru _ _ _ _ Hcl)|]. split; [cbn; apply list_lookup_insert_eq; by apply lookup_lt_Some in E|].
      split; [done|]. split; cbn; [exact Hpin|]. by rewrite Hl.
Qed.

Definition op_outcome (o : op) (f : F) (M : gmap Z (list Z)) (r : option (option (list Z) * buf_pool_t * F)) : Prop :=
  match r with
  | Some (out, b', f') => pool_ok b' f' (spec_op o out M) /\ spec_out o out M /\ file_page_size f' = file_page_size f
  | None => True
  end.

Lemma read_ok reinit b f M p w : pool_ok b f M -> 0 <= p -> accepts (OpRead p w) b f -> op_outcome (OpRead p w) f M (run_op reinit (OpRead p w) b f).
Proof.
  intros Hok Hp Hacc. cbn [run_op]. destruct (page_map b !! p) as [i|] eqn:E.
  - destruct (try_latch_hit b f M p w i Hok E) as (fr & Efr & H). unfold read_page_internal.
    destruct (take_latch w fr) as [fr'|]; [|by rewrite H]. destruct H as (-> & Hok' & Em & Ei & Hd). cbn [mbind option_bind].
    unfold frame_data. cbn [count_stats frames]. rewrite Ei. cbn. split; [by apply pool_ok_stats|]. split; [|done].
    intros bs d [= <-] Eb. rewrite Hd. exact (pool_ok_data b f M p i fr bs Hok E Efr Eb).
  - destruct (read_miss b f M p w Hok E Hp) as (b' & f' & r & -> & Hps & _ & Hr). cbn [mbind option_bind].
    destruct r as [i|e]; cbn.
    2:{ destruct Hr as (_ & [(_ & Hok' & _)|(_ & (i & b1 & Ecl) & Epa & _)]); [done|]. by rewrite (Hacc E _ _ _ Ecl) in Epa. }
    destruct Hr as (_ & Hok' & _ & Em & fr & Ei & Hd & _). split; [done|]. split; [|done].
    intros bs d Hfd Eb. unfold frame_data in Hfd. rewrite Ei in Hfd. injection Hfd as <-.
    exact (pool_ok_data b' f' M p i fr bs Hok' Em Ei Eb).
Qed.

(** An operation of a page's holder. *)
Lemma on_frame_ok b f M M' p g : pool_ok b f M ->
  (forall q, q <> p -> M' !! q = M !! q) ->
  (forall fr fr', g fr = Some fr' -> 0 <= pin_count fr -> length (data fr) = file_page_size f -> page_no fr' = page_no fr /\ length (data fr') = length (data fr) /\ 0 <= pin_count fr') ->
  (forall i fr fr', page_map b !! p = Some i -> frames b !! i = Some fr -> g fr = Some fr' ->
    forall bs, M' !! p = Some bs -> data fr' = bs /\ (is_dirty fr' = false -> file_holds f p bs)) ->
  match on_frame b p g with Some b' => pool_ok b' f M' | None => True end.
Proof.
  intros Hok HM Hg Hd. unfold on_frame. destruct (page_map b !! p) as [i|] eqn:E; [|done]. cbn [mbind option_bind].
  destruct (frames b !! i) as [fr|] eqn:Efr; [|done]. cbn [mbind option_bind]. destruct (g fr) as [fr'|] eqn:Eg; [|done]. cbn [mbind option_bind].
  destruct (Hg fr fr' Eg (pool_ok_pins _ _ _ _ _ Hok Efr) (pi_data _ _ _ (proj1 (proj2 Hok)) i fr Efr)) as (H1 & H2 & H3).
  assert (Hinj : forall q, page_map b !! q = Some i -> q = p).
  { intros q Eq. destruct Hok as (_ & Hi & _). apply (pi_cached _ _ _ _ _ Hi) in Eq as (_ & fr1 & E1 & <-).
    apply (pi_cached _ _ _ _ _ Hi) in E as (_ & fr2 & E2 & <-). congruence. }
  apply (pool_ok_frame b f M M' i fr); try done.
  - intros Hf. by destruct (cached_not_free _ _ _ _ _ Hok E).
  - intros q bs Eq Hne. rewrite <- HM; [done|congruence].
  - intros q bs Eq Em. apply Hinj in Em as ->. exact (Hd i fr fr' eq_refl Efr Eg bs Eq).
Qed.

Lemma on_frame_same b f M p g : pool_ok b f M ->
  (forall fr fr', g fr = Some fr' -> page_no fr' = page_no fr /\ data fr' = data fr /\ is_dirty fr' = is_dirty fr /\ (0 <= pin_count fr -> 0 <= pin_count fr')) ->
  match on_frame b p g with Some b' => pool_ok b' f M | None => True end.
Proof.
  intros Hok Hg. apply (on_frame_ok b f M M p g); [done|done|..].
  - intros fr fr' Eg Hn _. destruct (Hg fr fr' Eg) as (H1 & H2 & H3 & H4). rewrite H2. auto.
  - intros i fr fr' E Efr Eg bs Eb. destruct (Hg fr fr' Eg) as (H1 & H2 & H3 & H4). rewrite H2, H3.
    destruct Hok as (_ & _ & Hc). specialize (Hc p bs Eb). rewrite E in Hc. destruct Hc as (fr0 & E0 & H). congruence.
Qed.

Lemma pool_ok_weaken b f M M' : pool_ok b f M -> M' ⊆ M -> pool_ok b f M'.
Proof. intros (Hfo & Hi & Hc) Hs. split; [done|]. split; [done|]. intros p bs E. apply Hc. by eapply lookup_weaken. Qed.

Lemma contents_weaken b f M M' : contents b f M -> M' ⊆ M -> contents b f M'.
Proof. intros Hc Hs p bs E. apply Hc. by eapply lookup_weaken. Qed.

Lemma pool_ok_map_some b f M p i : pool_ok b f M -> page_map b !! p = Some i -> exists fr, frames b !! i = Some fr /\ page_no fr = p.
Proof. intros (_ & Hi & _) E. by apply (pi_cached _ _ _ _ _ Hi) in E as [_ ?]. Qed.

(** A frame filled with a page whose former contents are dropped. *)
Lemma fill_new b b0 f M i p fr' : file_ok f -> claimed (file_page_size f) b0 i b -> contents b f M ->
  0 <= p -> page_map b0 !! p = None -> page_no fr' = p -> length (data fr') = file_page_size f -> 0 <= pin_count fr' ->
  let b' := map_insert (set_frame b i fr') p i in
  pool_ok b' f (delete p M) /\ page_map b' !! p = Some i /\ frames b' !! i = Some fr' /\ kept b0 b'.
Proof.
  intros. apply fill_frame; try done; [eapply contents_weaken; [done|apply delete_subseteq]|].
  intros bs E. by rewrite lookup_delete_eq in E.
Qed.

Lemma cp_ok reinit b f M p bs : pool_ok b f M -> op_ok (file_page_size f) (OpCp p bs) -> parses p bs = true ->
  op_outcome (OpCp p bs) f M (run_op reinit (OpCp p bs) b f).
Proof.
  intros Hok [Hp Hl] Hpa. cbn [op_page] in Hp. cbn [run_op]. unfold buf_page_cp. destruct (page_map b !! p) as [i|] eqn:E; [done|].
  destruct (claim_frame_for_reuse_spec b f M Hok) as [(b' & -> & Hok' & _)|(i & b' & f' & -> & Hfo & Hps & Hcl & Hc & Hnb)];
    cbn [mbind option_bind]; [done|].
  destruct (cl_frame _ _ _ _ Hcl) as (fr & Efr & _ & Hpin). rewrite Efr. cbn [mbind option_bind]. rewrite Hpa. cbn [mbind option_bind]. rewrite <- Hps in Hcl, Hl.
  set (fr' := w_unlatch (install fr p bs true)).
  destruct (fill_new b' b f' M i p fr') as (H1 & H2 & H3 & _); [done..|cbn; lia|]. rewrite H3. cbn [mbind option_bind op_outcome spec_op].
  split; [|done]. apply (pool_ok_frame _ f' (delete p M) _ i fr'); [done..|cbn; lia| | |].
  - intros Hf. by destruct (cached_not_free _ _ _ _ _ H1 H2).
  - intros q cs Eq Hne. destruct (decide (q = p)) as [->|]; [done|]. rewrite lookup_delete_ne by done. by rewrite lookup_insert_ne in Eq.
  - intros q cs Eq Em. assert (q = p) as ->.
    { destruct (pool_ok_map_some _ _ _ _ _ H1 Em) as (fr2 & E2 & <-). rewrite H3 in E2. by injection E2 as <-. }
    rewrite lookup_insert_eq in Eq. by injection Eq as <-.
Qed.

Lemma new_ok reinit b f M p : pool_ok b f M -> 0 <= p -> (forall bs, length (reinit bs) = length bs) ->
  op_outcome (OpNew p) f M (run_op reinit (OpNew p) b f).
Proof.
  intros Hok Hp Hre. cbn [run_op]. unfold buf_page_new. destruct (page_map b !! p) as [i|] eqn:E.
  - destruct (try_latch_hit b f M p true i Hok E) as (fr & Efr & H). destruct (take_latch true fr) as [fr'|]; [|by rewrite H].
    destruct H as (-> & Hok' & Em & Ei & Hd). cbn [mbind option_bind op_outcome]. split; [|done].
    unfold frame_data. cbn [count_stats frames]. rewrite Ei. cbn.
    eapply pool_ok_weaken; [by apply pool_ok_stats|apply delete_subseteq].
  - rewrite (try_latch_miss _ _ _ E). cbn [mbind option_bind].
    destruct (claim_frame_for_reuse_spec b f M Hok) as [(b' & -> & Hok' & _)|(i & b' & f' & -> & Hfo & Hps & Hcl & Hc & Hnb)];
      cbn [mbind option_bind]; [done|].
    destruct (cl_frame _ _ _ _ Hcl) as (fr & Efr & _ & Hpin). rewrite Efr. cbn [mbind option_bind]. rewrite <- Hps in Hcl.
    set (fr' := set_pins _ _).
    assert (length (data fr) = file_page_size f') by exact (pi_data _ _ _ (cl_inv _ _ _ _ Hcl) i fr Efr).
    destruct (fill_new b' b f' M i p fr') as (H1 & H2 & H3 & _); [done..|cbn; by rewrite Hre|cbn; lia|].
    unfold frame_data. by rewrite H3.
Qed.

(** The frame of a retired page moves to the free list. *)
Lemma retire_inv ps b p i fr fr' : pool_inv ps None b -> page_map b !! p = Some i -> frames b !! i = Some fr ->
  data fr' = data fr -> evictable fr' ->
  pool_inv ps None (add_to_free_list (set_frame (remove_from_lru_list (set_map b (delete p (page_map b))) i) i fr') i).
Proof.
  intros Hi Em E Hd [Hp Hl]. destruct (pi_cached _ _ _ _ _ Hi Em) as (Hil & fr0 & E0 & Hpn). rewrite E in E0. injection E0 as <-.
  assert (Hif : i ∉ free b) by (intros Hf; by apply (pi_disjoint _ _ _ i Hi)).
  pose proof (lookup_lt_Some _ _ _ E) as Hlt. pose proof (pi_data _ _ _ Hi i fr E) as Hlen.
  assert (Hinj : forall q, page_map b !! q = Some i -> q = p).
  { intros q Eq. apply (pi_cached _ _ _ _ _ Hi) in Eq as (_ & fr1 & E1 & <-). congruence. }
  pose proof Hi as [H1 H2 H3 H4 H5 H6 H7 H8 H9].
  constructor; cbn -[remove next_of]; rewrite ?length_insert.
  - apply NoDup_app in H1 as (Hnl & Hd' & Hnf). apply NoDup_app. split; [by apply NoDup_remove|]. split.
    + intros j. rewrite elem_of_remove, elem_of_app, list_elem_of_singleton. intros [Hj Hj'] [Hf| ->]; [by eapply Hd'|done].
    + apply NoDup_app. split; [done|]. split; [|apply NoDup_singleton]. intros j Hj ->%list_elem_of_singleton. done.
  - intros j. rewrite <- H2, !elem_of_app, elem_of_remove, list_elem_of_singleton. destruct (decide (j = i)) as [->|]; tauto.
  - intros h. case_decide as Eh; [|apply H3]. intros Hn. apply H2, elem_of_app. left.
    destruct (next_of i (lru b)) as [j|] eqn:Ej; [injection Hn as <-; by eapply next_of_in|].
    destruct (lru b); [done|]. injection Hn as <-. set_solver.
  - intros Hne. destruct (H4 (fun E => ltac:(rewrite E in Hil; by apply elem_of_nil in Hil))) as (h & Eh & Hh). rewrite Eh.
    apply NoDup_app in H1 as (Hnl & _). case_decide as Ehi.
    + injection Ehi as ->. destruct (advance_in (lru b) i Hnl Hil) as (j & Ej & Hj). unfold advance in Ej.
      exists j. split; [done|]. apply elem_of_remove. split; [|done]. intros ->.
      apply list_elem_of_lookup in Hil as [k Ek]. pose proof (advance_lookup _ _ _ Hnl Ek) as Ha. unfold advance in Ha.
      rewrite Ej in Ha. symmetry in Ha. pose proof (NoDup_lookup _ _ _ _ Hnl Ek Ha) as Hk. pose proof (lookup_lt_Some _ _ _ Ek).
      destruct (decide (S k = length (lru b))) as [Hs|]; [|rewrite Nat.mod_small in Hk; lia].
      rewrite Hs, Nat.Div0.mod_same in Hk. subst k. destruct (lru b) as [|a [|]]; cbn in Hs; try lia.
      cbn in Ek. injection Ek as ->. apply Hne. unfold remove. rewrite filter_cons_False by (by intros ?). done.
    + exists h. split; [done|]. apply elem_of_remove. split; [congruence|done].
  - intros q j. rewrite lookup_delete_Some, H5, elem_of_remove. destruct (decide (j = i)) as [->|Hj].
    + split; [|tauto]. intros [Hq Hx]. destruct Hq. symmetry. by apply Hinj, H5.
    + rewrite list_lookup_insert_ne by done. split; [tauto|]. intros (_ & [_ Hjl] & Ej). split; [|done].
      intros <-. assert (page_map b !! p = Some j) by (apply H5; done). congruence.
  - intros q j [_ Eq]%lookup_delete_Some. by apply H6 in Eq.
  - intros j frj Ej. apply list_lookup_insert_Some in Ej as [(_ & <- & _)|[_ Ej]]; [lia|by apply H7 in Ej].
  - intros j frj Ej. apply list_lookup_insert_Some in Ej as [(_ & <- & _)|[_ Ej]]; [by rewrite Hd|by apply H8 in Ej].
  - intros j frj Hj Ej. apply list_lookup_insert_Some in Ej as [(_ & <- & _)|[Hji Ej]]; [done|].
    apply elem_of_app in Hj as [Hj| ->%list_elem_of_singleton]; [by eapply H9|done].
Qed.

Lemma retire_ok reinit b f M p : pool_ok b f M -> op_outcome (OpRetire p) f M (run_op reinit (OpRetire p) b f).
Proof.
  intros Hok. pose proof Hok as (Hfo & Hi & Hc). cbn [run_op]. unfold retire_page. destruct (page_map b !! p) as [i|] eqn:Em; cbn [mbind option_bind].
  2:{ split; [|done]. eapply pool_ok_weaken; [done|apply delete_subseteq]. }
  destruct (pi_cached _ _ _ _ _ Hi Em) as (Hil & fr & E & Hpn). rewrite E. cbn [mbind option_bind].
  destruct (Z.ltb_spec 0 (pin_count fr)); [done|]. destruct (try_w_latch_cases fr) as [[Hl ->]|[Hl ->]]; cbn [mbind option_bind]; [|done].
  split; [|done]. split; [done|]. split; [apply (retire_inv _ _ _ _ fr); try done|].
  - pose proof (pi_pins _ _ _ Hi i fr E). split; [cbn; lia|done].
  - intros q bs Eq. cbn [spec_op] in Eq. apply lookup_delete_Some in Eq as [Hq Eq]. specialize (Hc q bs Eq). cbn -[remove next_of]. rewrite lookup_delete_ne by done.
    destruct (page_map b !! q) as [j|] eqn:Ej; [|done]. destruct Hc as (frj & Efj & H1). exists frj.
    rewrite list_lookup_insert_ne; [done|]. intros <-.
    apply (pi_cached _ _ _ _ _ Hi) in Ej as (_ & fr1 & E1 & <-). congruence.
Qed.

(** A flushed page is clean, and the file has it. *)
Lemma flush_frame b f M p i fr : pool_ok b f M -> page_map b !! p = Some i -> frames b !! i = Some fr ->
  match flush_to_disk b f i with
  | Some (ok, b', f') => pool_ok b' f' M /\ file_page_size f' = file_page_size f /\
      (latch fr = 0 -> ok = true /\ b' = set_frame b i (set_latch (set_dirty fr false) 0)) /\ (latch fr <> 0 -> ok = false /\ b' = b)
  | None => False
  end.
Proof.
  intros Hok Em E. pose proof Hok as (Hfo & Hi & Hc). destruct (pool_ok_map_some _ _ _ _ _ Hok Em) as (fr0 & E0 & Hpn).
  rewrite E in E0. injection E0 as <-. unfold flush_to_disk. rewrite E. cbn [mbind option_bind].
  destruct (try_w_latch_cases fr) as [[Hl ->]|[Hl ->]]; [|done]. change (w_unlatch (set_dirty (set_latch fr WRITE_LOCK_FLAG) false)) with (set_latch (set_dirty fr false) 0).
  assert (Hw : exists f', f' = (if is_dirty fr then file_write f (page_no fr) (data fr) else f) /\ pool_ok b f' M /\ file_page_size f' = file_page_size f /\
    (forall bs, M !! p = Some bs -> file_holds f' p bs)).
  { eexists. split; [done|]. destruct (is_dirty fr) eqn:Edi.
    - pose proof (pi_data _ _ _ Hi i fr E) as Hlen. pose proof (pi_pages _ _ _ Hi p i Em) as Hp. rewrite Hpn.
      destruct (file_write_ok f p (data fr) Hfo Hp Hlen) as (H1 & H2 & H3). split; [|split; [done|]].
      + split; [done|]. split; [by rewrite H2|]. intros q bs Eq. specialize (Hc q bs Eq). destruct (decide (q = p)) as [->|Hq].
        * rewrite Em in *. destruct Hc as (fr0 & E0 & <- & Hf). exists fr0. rewrite E in E0. injection E0 as <-. done.
        * destruct (page_map b !! q) as [j|]; [|by apply file_write_other].
          destruct Hc as (frj & Ej & Hd & Hf). exists frj. split; [done|]. split; [done|]. intros Hcl. apply file_write_other; auto.
      + intros bs Eq. by rewrite <- (pool_ok_data b f M p i fr bs Hok Em E Eq).
    - split; [done|]. split; [done|]. intros bs Eq. specialize (Hc p bs Eq). rewrite Em in Hc. destruct Hc as (fr0 & E0 & _ & Hf).
      rewrite E in E0. injection E0 as <-. auto. }
  destruct Hw as (f' & <- & Hok' & Hps & Hh). split; [|done]. apply (pool_ok_frame b f' M M i fr); try done.
  - exact (pool_ok_pins _ _ _ _ _ Hok E).
  - intros Hf. by destruct (cached_not_free _ _ _ _ _ Hok Em).
  - intros q bs Eq Emq. assert (q = p) as ->.
    { destruct (pool_ok_map_some _ _ _ _ _ Hok Emq) as (fr2 & E2 & <-). congruence. }
    split; [exact (pool_ok_data b f M p i fr bs Hok Em E Eq)|auto].
Qed.

Lemma run_op_ok reinit b f M o : pool_ok b f M -> op_ok (file_page_size f) o -> accepts o b f -> (forall bs, length (reinit bs) = length bs) ->
  op_outcome o f M (run_op reinit o b f).
Proof.
  intros Hok [Hp Hl] Hacc Hre. destruct o as [p w|p bs|p bs|p|p|p|p|p|p]; cbn [op_page] in Hp.
  - by apply read_ok.
  - pose proof (on_frame_ok b f M (<[p := bs]> M) p (write_held bs) Hok) as H. cbn [run_op op_outcome spec_op].
    destruct (on_frame b p (write_held bs)) as [b'|] eqn:E; cbn [mbind option_bind]; [|done]. split; [|done]. apply H.
    + intros q Hq. by rewrite lookup_insert_ne.
    + intros fr fr' Eg Hn Hd. unfold write_held in Eg. case_match; [|done]. injection Eg as <-. cbn. cbn in Hl. by rewrite Hl, Hd.
    + intros i fr fr' Em Ei Eg cs Ecs. rewrite lookup_insert_eq in Ecs. injection Ecs as <-. unfold write_held in Eg. case_match; [|done].
      by injection Eg as <-.
  - by apply cp_ok.
  - by apply new_ok.
  - by apply retire_ok.
  - cbn [run_op]. destruct (page_map b !! p) as [i|] eqn:Em; [|done]. destruct (pool_ok_map_some _ _ _ _ _ Hok Em) as (fr & E & _).
    pose proof (flush_frame b f M p i fr Hok Em E) as H. destruct (flush_to_disk b f i) as [[[ok b'] f']|]; [|done].
    cbn [mbind option_bind op_outcome spec_op]. tauto.
  - pose proof (on_frame_same b f M p r_release Hok) as H. cbn [run_op]. destruct (on_frame b p r_release); cbn; [|done]. split; [|done].
    apply H. intros fr fr' Eg. unfold r_release in Eg. case_match eqn:Eb; [|done]. injection Eg as <-. cbn.
    apply andb_prop in Eb as [_ Hpin%Z.ltb_lt]. repeat split. lia.
  - pose proof (on_frame_same b f M p w_release Hok) as H. cbn [run_op]. destruct (on_frame b p w_release); cbn; [|done]. split; [|done].
    apply H. intros fr fr' Eg. unfold w_release in Eg. case_match; [|done]. by injection Eg as <-.
  - pose proof (on_frame_same b f M p unpin Hok) as H. cbn [run_op]. destruct (on_frame b p unpin); cbn; [|done]. split; [|done].
    apply H. intros fr fr' Eg. unfold unpin in Eg. case_match eqn:Eb; [|done]. injection Eg as <-. apply Z.ltb_lt in Eb. cbn. repeat split. lia.
Qed.

Lemma run_ok reinit ops : (forall bs, length (reinit bs) = length bs) -> forall b f M outs b' f',
  pool_ok b f M -> Forall (op_ok (file_page_size f)) ops -> all_accepted reinit ops b f -> run reinit ops b f = Some (outs, b', f') ->
  agrees ops outs M /\ pool_ok b' f' (spec ops outs M) /\ file_page_size f' = file_page_size f.
Proof.
  intros Hre. induction ops as [|o ops IH]; intros b f M outs b' f' Hok Hops Hacc Hrun; cbn [run] in Hrun.
  { by injection Hrun as <- <- <-. }
  cbn [all_accepted] in Hacc. destruct Hacc as [Ha Hacc].
  apply Forall_cons in Hops as [Ho Hops]. pose proof (run_op_ok reinit b f M o Hok Ho Ha Hre) as H.
  destruct (run_op reinit o b f) as [[[out b1] f1]|]; [|done]. cbn [mbind option_bind op_outcome] in *. destruct H as (H1 & H2 & H3).
  destruct (run reinit ops b1 f1) as [[[outs1 b2] f2]|] eqn:Er; [|done]. cbn in Hrun. injection Hrun as <- <- <-.
  rewrite <- H3 in Hops. destruct (IH b1 f1 (spec_op o out M) outs1 b2 f2 H1 Hops Hacc Er) as (H4 & H5 & H6).
  cbn [agrees spec]. split; [done|]. split; [done|]. congruence.
Qed.

(** A fresh pool over a file whose known pages hold [M]. *)
Lemma init_ok raw f M : file_ok f -> Forall (fun bs => length bs = file_page_size f) raw ->
  (forall p bs, M !! p = Some bs -> file_holds f p bs) -> pool_ok (buf_pool_init raw) f M.
Proof.
  intros Hfo Hraw HM. split; [done|]. split; [|intros p bs E; cbn; rewrite lookup_empty; auto].
  assert (Hfr : forall i fr, frames (buf_pool_init raw) !! i = Some fr -> exists bs, raw !! i = Some bs /\ fr = Frame 0 bs false 0 0 false false).
  { intros i fr E. cbn in E. rewrite list_lookup_fmap in E. apply fmap_Some in E as (bs & E & ->). eauto. }
  constructor; cbn; rewrite ?length_fmap; try done.
  - apply NoDup_seq.
  - intros i. rewrite elem_of_seq. lia.
  - intros p i. rewrite lookup_empty. split; [done|]. intros (_ & Hi & _). by apply elem_of_nil in Hi.
  - intros i fr E. destruct (Hfr i fr E) as (bs & _ & ->). done.
  - intros i fr E. destruct (Hfr i fr E) as (bs & Eb & ->). rewrite Forall_lookup in Hraw. by eapply Hraw.
  - intros i fr _ E. destruct (Hfr i fr E) as (bs & _ & ->). done.
Qed.

(** A pool in use: what a trace of calls that do not overlap leads to from an
    empty pool over a file that holds [M0], when no page brought in so far was
    rejected by its type. *)
Definition in_use (reinit : list Z -> list Z) (raw : list (list Z)) (f0 : F) (M0 : gmap Z (list Z)) (ops : list op)
    (outs : list (option (list Z))) (b : buf_pool_t) (f : F) : Prop :=
  file_ok f0 /\ Forall (fun bs => length bs = file_page_size f0) raw /\ (forall p bs, M0 !! p = Some bs -> file_holds f0 p bs) /\
  (forall bs, length (reinit bs) = length bs) /\ Forall (op_ok (file_page_size f0)) ops /\
  all_accepted reinit ops (buf_pool_init raw) f0 /\ run reinit ops (buf_pool_init raw) f0 = Some (outs, b, f).

Lemma in_use_ok reinit raw f0 M0 ops outs b f : in_use reinit raw f0 M0 ops outs b f -> agrees ops outs M0 /\ pool_ok b f (spec ops outs M0).
Proof.
  intros (H1 & H2 & H3 & H4 & H5 & H6 & H7). destruct (run_ok reinit ops H4 _ f0 M0 outs b f (init_ok raw f0 M0 H1 H2 H3) H5 H6 H7) as (? & ? & _). done.
Qed.

(** C25: whatever calls are made one after the other, and whatever is evicted,
    as long as the page type has accepted every page brought in, a read returns
    the contents that were written to the page last; and at any moment the
    contents of each page are in its frame, or in the file when it is not cached
    or is clean.  Calls that overlap, and a page that was rejected, can break
    this: [pool_races], [rejected_page_erases]. *)
Theorem buffer_contents reinit raw f0 M0 ops outs b f : in_use reinit raw f0 M0 ops outs b f ->
  agrees ops outs M0 /\ contents b f (spec ops outs M0).
Proof. intros H. by apply in_use_ok in H as [? (_ & _ & ?)]. Qed.

(** ** Reading *)

(** C26: what becomes of one read, in a pool in use.  A read of a cached page
    waits while its latch is not free for it and returns the page's frame
    otherwise.  A read of any other page throws, and changes no mapping and no
    file, when all frames hold pinned or latched pages; otherwise it takes a
    frame, writes a dirty victim back, and loads the page into the frame,
    latched, if the page type accepts the bytes of the file; if not, it throws
    too and leaves the frame on the LRU list, free to be evicted, with the number
    of a page that is in no map.  In every case the other pages that are pinned
    or latched are still in their frames, with the same bytes, latch and pins. *)
Theorem read_page_outcomes reinit raw f0 M0 ops outs b f p w : in_use reinit raw f0 M0 ops outs b f -> 0 <= p ->
  match page_map b !! p with
  | Some i => exists fr, frames b !! i = Some fr /\ page_no fr = p /\
      match take_latch w fr with
      | None => read_page_internal b f p w = None
      | Some fr' => exists b', read_page_internal b f p w = Some (Ok i, b', f) /\ frames b' = <[i := set_referenced fr' true]> (frames b) /\ page_map b' = page_map b
      end
  | None => exists r b' f', read_page_internal b f p w = Some (r, b', f') /\ kept b b' /\
      (blocked b -> r = Throw runtime_error /\ f' = f /\ page_map b' = page_map b) /\
      (~ blocked b -> exists i fr, i ∈ lru b' /\ frames b' !! i = Some fr /\ page_no fr = p /\
        if parses p (file_read f' p)
        then r = Ok i /\ page_map b' !! p = Some i /\ data fr = file_read f' p /\
          latch fr = (if w then WRITE_LOCK_FLAG else 1) /\ pin_count fr = (if w then 0 else 1)
        else r = Throw runtime_error /\ page_map b' !! p = None /\ evictable fr)
  end.
Proof.
  intros Hu Hp. apply in_use_ok in Hu as [_ Hok]. destruct (page_map b !! p) as [i|] eqn:E.
  - destruct (try_latch_hit b f _ p w i Hok E) as (fr & Efr & H). exists fr. split; [done|].
    destruct (pool_ok_map_some _ _ _ _ _ Hok E) as (fr0 & E0 & Hpn). split; [congruence|]. unfold read_page_internal.
    destruct (take_latch w fr) as [fr'|]; [|by rewrite H]. destruct H as (-> & _). cbn [mbind option_bind].
    eexists. split; [done|]. done.
  - destruct (read_miss b f _ p w Hok E Hp) as (b' & f' & r & Er & _ & Hk & Hr). exists r, b', f'. split; [done|]. split; [done|].
    destruct r as [i|e].
    + destruct Hr as (Hnb & Hok' & Epa & Em & fr & Ei & Hd & Hl & Hpin). split; [done|]. intros _. exists i, fr. rewrite Epa.
      destruct (pi_cached _ _ _ _ _ (proj1 (proj2 Hok')) Em) as (Hil & fr2 & E2 & Hpn). rewrite Ei in E2. injection E2 as <-. done.
    + destruct Hr as (-> & [(Hb & _ & -> & Em)|(Hnb & _ & Epa & Em & i & fr & Hil & Ei & Hpn & Hev)]); [done|].
      split; [done|]. intros _. exists i, fr. by rewrite Epa.
Qed.

(** ** Flushing *)

(** Each flushed frame gets clean; the others stay. *)
Lemma flush_frames_spec l : forall b f M, pool_ok b f M ->
  (forall i, i ∈ l -> exists p, page_map b !! p = Some i) ->
  (forall p i fr, page_map b !! p = Some i -> frames b !! i = Some fr -> latch fr = 0 /\ (is_dirty fr = true -> i ∈ l)) ->
  exists b' f', flush_frames l b f = Some (Z.of_nat (length l), b', f') /\ page_map b' = page_map b /\ pool_ok b' f' M /\
    (forall p i fr, page_map b' !! p = Some i -> frames b' !! i = Some fr -> is_dirty fr = false).
Proof.
  induction l as [|i l IH]; intros b f M Hok Hc Hl; cbn [flush_frames].
  { exists b, f. split; [done|]. split; [done|]. split; [done|]. intros p i fr Em E. destruct (Hl p i fr Em E) as [_ Hd].
    destruct (is_dirty fr); [|done]. by apply elem_of_nil in Hd. }
  destruct (Hc i) as [p Em]; [left|]. destruct (pool_ok_map_some _ _ _ _ _ Hok Em) as (fr & E & Hpn).
  pose proof (lookup_lt_Some _ _ _ E) as Hlt. pose proof (flush_frame b f M p i fr Hok Em E) as H.
  destruct (flush_to_disk b f i) as [[[ok b1] f1]|]; [|done]. destruct H as (Hok1 & _ & H & _).
  destruct (H (proj1 (Hl p i fr Em E))) as [-> ->]. cbn [mbind option_bind].
  destruct (IH _ f1 M Hok1) as (b' & f' & -> & Hm & Hok' & Hcl).
  - intros j Hj. apply Hc. by right.
  - intros q j frj Eq Ej. cbn in Eq, Ej. apply list_lookup_insert_Some in Ej as [(_ & <- & _)|[Hji Ej]]; [done|].
    destruct (Hl q j frj Eq Ej) as [H1 H2]. split; [done|]. intros Hd. by apply H2, elem_of_cons in Hd as [->|].
  - cbn [mbind option_bind]. exists b', f'. split; [|split; [done|done]]. f_equal. f_equal. f_equal. cbn [length Z.b2z]. lia.
Qed.

Lemma filter_agree {A} (P Q : A -> Prop) `{!forall x, Decision (P x), !forall x, Decision (Q x)} (l : list A) :
  (forall x, x ∈ l -> P x <-> Q x) -> filter P l = filter Q l.
Proof.
  induction l as [|x l IH]; intros Hx; [done|]. assert (IHl : filter P l = filter Q l) by (apply IH; intros y Hy; apply Hx; by right).
  destruct (decide (P x)) as [Hp|Hp].
  - rewrite !filter_cons_True; [by rewrite IHl| |done]. apply Hx; [left|done].
  - rewrite !filter_cons_False; [done| |done]. intros Hq. apply Hp, Hx; [left|done].
Qed.

(** Both ways to flush do the same when no frame is mapped twice. *)
Lemma flush_traversed_eq l : forall b f, NoDup (snd <$> l) -> (forall p i, (p, i) ∈ l -> is_Some (frames b !! i)) ->
  flush_traversed l b f = flush_frames (filter (fun i => (is_dirty <$> frames b !! i) = Some true) (snd <$> l)) b f.
Proof.
  induction l as [|[p i] l IH]; intros b f Hnd Hin; [done|]. cbn [flush_traversed fmap list_fmap snd].
  apply NoDup_cons in Hnd as [Hi Hnd]. destruct (Hin p i) as [fr E]; [left|]. rewrite E. cbn [mbind option_bind].
  destruct (is_dirty fr) eqn:Ed.
  - rewrite filter_cons_True by (by rewrite E; cbn; rewrite Ed). cbn [flush_frames].
    destruct (flush_to_disk b f i) as [[[ok b1] f1]|] eqn:Ef; [|done]. cbn [mbind option_bind].
    assert (Hs : forall j, j <> i -> frames b1 !! j = frames b !! j).
    { intros j Hj. unfold flush_to_disk in Ef. rewrite E in Ef. cbn in Ef. destruct (try_w_latch fr); injection Ef as <- <- <-; [|done].
      cbn. by rewrite list_lookup_insert_ne. }
    assert (Hin1 : forall q j, (q, j) ∈ l -> j <> i /\ is_Some (frames b !! j)).
    { intros q j Hj. split; [|by apply (Hin q); right]. intros ->. apply Hi, list_elem_of_fmap. by exists (q, i). }
    rewrite IH; [|done|intros q j Hj; destruct (Hin1 q j Hj); by rewrite Hs].
    rewrite (filter_agree _ (fun j => (is_dirty <$> frames b !! j) = Some true)); [done|].
    intros j Hj. apply list_elem_of_fmap in Hj as ([q j'] & -> & Hj). destruct (Hin1 q j' Hj). cbn [snd]. by rewrite Hs.
  - rewrite filter_cons_False by (by rewrite E; cbn; rewrite Ed). cbn [mbind option_bind].
    rewrite IH; [|done|intros q j Hj; apply (Hin q); by right].
    destruct (flush_frames _ b f) as [[[n b'] f']|]; [|done]. cbn. do 3 f_equal. lia.
Qed.

Lemma flush_csr_pages_eq b f M : pool_ok b f M -> flush_csr_pages b f = flush_dirty_pages b f.
Proof.
  intros (_ & Hi & _). apply flush_traversed_eq.
  - unfold traverse_page_map. apply NoDup_fmap_2_strong; [|apply NoDup_map_to_list].
    intros [p i] [q j] Hp Hq [= <-]. apply elem_of_map_to_list in Hp, Hq. f_equal.
    apply (pi_cached _ _ _ _ _ Hi) in Hp as (_ & fr1 & E1 & <-). apply (pi_cached _ _ _ _ _ Hi) in Hq as (_ & fr2 & E2 & <-). congruence.
  - intros p i Hp. apply elem_of_map_to_list, (pi_cached _ _ _ _ _ Hi) in Hp as (_ & fr & -> & _). done.
Qed.

(** A flush while no page is latched writes every dirty page, with flusher
    threads or inline, so that the file alone holds the contents of all pages. *)
Theorem flush_makes_durable reinit raw f0 M0 ops outs b f : in_use reinit raw f0 M0 ops outs b f ->
  (forall p i fr, page_map b !! p = Some i -> frames b !! i = Some fr -> latch fr = 0) ->
  exists b' f', flush_dirty_pages b f = Some (Z.of_nat (length (dirty_frames b)), b', f') /\ flush_csr_pages b f = flush_dirty_pages b f /\
    dirty_frames b' = [] /\ forall p bs, spec ops outs M0 !! p = Some bs -> file_holds f' p bs /\ file_read f' p = bs.
Proof.
  intros Hu Hl. apply in_use_ok in Hu as [_ Hok]. rewrite (flush_csr_pages_eq b f _ Hok). unfold flush_dirty_pages.
  destruct (flush_frames_spec (dirty_frames b) b f (spec ops outs M0) Hok) as (b' & f' & -> & Hm & Hok' & Hcl).
  - intros i [_ Hi]%list_elem_of_filter. apply list_elem_of_fmap in Hi as ([p j] & -> & Hj). apply elem_of_map_to_list in Hj. by exists p.
  - intros p i fr Em E. split; [by apply (Hl p i fr)|]. intros Hd. apply list_elem_of_filter. rewrite E. split; [by cbn; rewrite Hd|].
    apply list_elem_of_fmap. exists (p, i). split; [done|]. by apply elem_of_map_to_list.
  - exists b', f'. split; [done|]. split; [done|]. split.
    + apply elem_of_nil_inv. intros i [Hd Hi]%list_elem_of_filter. apply list_elem_of_fmap in Hi as ([p j] & -> & Hj). apply elem_of_map_to_list in Hj.
      cbn in Hd. apply fmap_Some in Hd as (fr & E & Hd). by rewrite (Hcl p j fr Hj E) in Hd.
    + intros p bs Ep. destruct Hok' as (Hfo & _ & Hc). specialize (Hc p bs Ep).
      assert (Hh : file_holds f' p bs).
      { destruct (page_map b' !! p) as [i|] eqn:Em; [|done]. destruct Hc as (fr & E & _ & Hf). apply Hf. by eapply Hcl. }
      split; [done|]. by apply file_read_holds.
Qed.

End Run.
(** ** The pool over the disk manager *)

Lemma read_page_length (d : Disk.disk_manager_t) p : length (Disk.read_page d p) = Disk.page_size_ d.
Proof.
  unfold Disk.read_page. destruct (_ <? _); [apply length_replicate|]. rewrite length_app, length_replicate.
  unfold Disk.pread. rewrite length_take. lia.
Qed.

#[export] Instance disk_file : PageFile Disk.disk_manager_t.
Proof.
  refine {| file_read := Disk.read_page; file_write := fun d p bs => Disk.write_page d p bs true;
            file_ok := Disk.disk_inv; file_page_size := Disk.page_size_; file_holds := Disk.holds |}.
  - intros f p bs. apply Disk.holds_read.
  - intros f p _. apply read_page_length.
  - intros f p bs Hf Hp Hl. destruct (Disk.run_op_inv f (Disk.OpWrite p bs true) Hf) as [H1 H2]; [done|].
    split; [done|]. split; [done|]. by apply Disk.write_holds.
  - intros f p bs q cs Hf Hp Hl Hq. apply (Disk.run_op_holds f (Disk.OpWrite p bs true)); [done|done|]. cbn. by apply bool_decide_eq_false.
Defined.

(** A page type that rejects pages whose first byte is 255. *)
#[export] Instance first_byte_parser : PageParser := fun _ bs => negb (default 0 (head bs) =? 255).

Definition small_disk : Disk.disk_manager_t := Disk.open_disk (H := small_config) [] 2.
Definition two_frames : list (list Z) := [[0; 0]; [0; 0]].

(** Two pages are copied in; reads, a new page and evictions follow. *)
Definition sample_ops : list op :=
  [OpCp 1 [1; 2]; OpCp 3 [3; 4]; OpRead 1 false; OpNew 5; OpWrite 5 [5; 6]; OpWUnlatch 5; OpUnpin 5; OpRUnlatch 1;
   OpRead 3 true; OpWrite 3 [7; 8]; OpWUnlatch 3; OpRead 3 false; OpRUnlatch 3; OpRead 5 false; OpRUnlatch 5; OpRead 1 false; OpRUnlatch 1].

Lemma small_disk_ok : Disk.disk_inv small_disk.
Proof. apply Disk.open_inv; cbn; lia. Qed.

Lemma sample_in_use ops outs b f : Forall (op_ok 2) ops -> all_accepted id ops (buf_pool_init two_frames) small_disk ->
  run id ops (buf_pool_init two_frames) small_disk = Some (outs, b, f) -> in_use id two_frames small_disk ∅ ops outs b f.
Proof. intros Ho Ha Hr. split; [apply small_disk_ok|]. split; [by repeat constructor|]. split; [done|]. done. Qed.

(** A claim has one outcome. *)
Lemma accepts_read (p : Z) w (b : buf_pool_t) (d : Disk.disk_manager_t) :
  match claim_frame_for_reuse (count_stats b 0 1 0 0) d with Some (Ok _, _, f') => parses p (file_read f' p) = true | _ => True end ->
  accepts (OpRead p w) b d.
Proof. intros H _ i b' f' E. by rewrite E in H. Qed.

Ltac accept := repeat (lazymatch goal with
  | |- True => exact I
  | |- all_accepted _ _ _ _ => cbn [all_accepted]
  | |- accepts _ _ _ /\ _ => split; [first [apply accepts_read; vm_compute; exact eq_refl | vm_compute; exact I | vm_compute; exact eq_refl]|]
  | |- match ?x with _ => _ end => let y := eval vm_compute in x in change x with y; cbv iota beta
  end).

Lemma sample_ops_ok : Forall (op_ok 2) sample_ops.
Proof. repeat constructor; done. Qed.

Lemma buffer_contents_witness : exists outs b f, run id sample_ops (buf_pool_init two_frames) small_disk = Some (outs, b, f) /\
  outs !! 15%nat = Some (Some [1; 2]) /\ agrees sample_ops outs ∅ /\ contents b f (spec sample_ops outs ∅).
Proof.
  do 3 eexists. split; [vm_compute; reflexivity|]. split; [reflexivity|].
  eapply (buffer_contents id two_frames small_disk ∅ sample_ops), sample_in_use;
    [apply sample_ops_ok|unfold sample_ops; accept|vm_compute; reflexivity].
Defined.

(** The pool of two frames, both read latched: page 7 cannot be read. *)
Definition busy_ops : list op := [OpRead 1 false; OpRead 3 false].

Lemma read_page_outcomes_witness : exists outs b f, run id busy_ops (buf_pool_init two_frames) small_disk = Some (outs, b, f) /\
  exists b' f', read_page_internal b f 7 false = Some (Throw runtime_error, b', f') /\ kept b b' /\ f' = f /\ page_map b' = page_map b.
Proof.
  do 3 eexists. split; [vm_compute; reflexivity|].
  match goal with |- context [read_page_internal ?b ?f] =>
    assert (Hu : in_use id two_frames small_disk ∅ busy_ops _ b f) by (apply sample_in_use; [by repeat constructor|unfold busy_ops; accept|vm_compute; reflexivity])
  end.
  destruct (read_page_outcomes id two_frames small_disk ∅ busy_ops _ _ _ 7 false Hu ltac:(done)) as (r & b' & f' & E & Hk & Hb & _).
  destruct Hb as (-> & Hf & Hm); [|by exists b', f'].
  split; [done|]. intros i fr _. destruct i as [|[|i]]; [intros [= <-] [He _]; discriminate He..|by intros ?].
Defined.

Definition dirty_ops : list op := [OpCp 1 [1; 2]; OpCp 3 [3; 4]].

Lemma flush_makes_durable_witness : exists outs b f, run id dirty_ops (buf_pool_init two_frames) small_disk = Some (outs, b, f) /\
  length (dirty_frames b) = 2%nat /\
  exists b' f', flush_dirty_pages b f = Some (Z.of_nat (length (dirty_frames b)), b', f') /\ flush_csr_pages b f = flush_dirty_pages b f /\ dirty_frames b' = [] /\
    forall p bs, spec dirty_ops outs ∅ !! p = Some bs -> Disk.holds f' p bs /\ Disk.read_page f' p = bs.
Proof.
  do 3 eexists. split; [vm_compute; reflexivity|]. split; [vm_compute; reflexivity|].
  match goal with |- context [flush_dirty_pages ?b ?f] =>
    assert (Hu : in_use id two_frames small_disk ∅ dirty_ops _ b f) by (apply sample_in_use; [by repeat constructor|unfold dirty_ops; accept|vm_compute; reflexivity])
  end.
  refine (flush_makes_durable id two_frames small_disk ∅ dirty_ops _ _ _ Hu _).
  intros p i fr _. destruct i as [|[|i]]; [by intros [= <-]..|by intros ?].
Defined.

(** ** What the calls leave to races *)

(** Two races that the latches leave open.  A claimed frame loses its page in
    the map before the page is written back: a read of the page by another thread
    in between loads the old bytes, and they stay cached.  [buf_page_cp] releases
    the latch before the caller marks the page dirty: an eviction in between
    drops the page, and the caller marks another page. *)
Theorem pool_races :
  (exists b f b1 i b2 f2 j b3 f3,
    run id [OpRead 3 false; OpRUnlatch 3; OpCp 1 [1; 2]] (buf_pool_init two_frames) small_disk = Some ([Some [0; 0]; None; Some [1; 2]], b, f) /\
    claim_frame b = Some (Ok (i, Some 1), b1) /\
    read_page_internal b1 f 1 false = Some (Ok j, b2, f2) /\
    write_back b2 f2 i (Some 1) = Some (b3, f3) /\
    Disk.read_page f3 1 = [1; 2] /\ page_map b3 !! 1 = Some j /\ frame_data b3 j = Some [0; 0]) /\
  (exists i b1 f1 b2 f2 fr j b3 f3,
    buf_page_cp (buf_pool_init two_frames) small_disk 1 [1; 2] = Some (Ok (Some i), b1, f1) /\
    run id [OpRead 3 false; OpRUnlatch 3; OpRead 4 false; OpRUnlatch 4; OpRead 5 false; OpRUnlatch 5] b1 f1 =
      Some ([Some [0; 0]; None; Some [0; 0]; None; Some [0; 0]; None], b2, f2) /\
    frames b2 !! i = Some fr /\ page_no fr = 5 /\
    read_page_internal (set_frame b2 i (set_dirty fr true)) f2 1 false = Some (Ok j, b3, f3) /\ frame_data b3 j = Some [0; 0]).
Proof.
  split.
  - do 9 eexists. do 5 (split; [vm_compute; reflexivity|]). by vm_compute.
  - do 9 eexists. do 5 (split; [vm_compute; reflexivity|]). by vm_compute.
Qed.

(** What a rejected page leaves behind: the frame of page 1, whose bytes in the
    file are malformed, is on the LRU list and in no map.  When good bytes are
    copied in for the page, they go to another frame; the eviction of the first
    frame then erases the mapping of the second, and the copied page is lost to
    its readers. *)
Theorem rejected_page_erases : exists b f,
  run id [OpRead 1 false; OpCp 1 [1; 2]; OpRead 1 false; OpRUnlatch 1; OpCp 3 [3; 4]; OpRead 1 false]
    (buf_pool_init two_frames) (Disk.write_page small_disk 1 [255; 0] true) =
    Some ([None; Some [1; 2]; Some [1; 2]; None; Some [3; 4]; None], b, f) /\
  page_map b !! 1 = None.
Proof. do 2 eexists. split; vm_compute; reflexivity. Qed.

(** [alloc_delta_page] of the page map: a new page, whose latch and pin are
    released at once.  Its frame can be evicted while a chain of delta pages
    points to it: in a pool of two frames the third allocation takes a frame of
    the first two. *)
Definition alloc_delta_ops (p : Z) : list op := [OpNew p; OpWUnlatch p; OpUnpin p].

Theorem delta_frame_reused : exists outs b f i fr outs' b' f' fr',
  run id (alloc_delta_ops 1 ++ alloc_delta_ops 2) (buf_pool_init two_frames) small_disk = Some (outs, b, f) /\
  page_map b !! 2 = Some i /\ frames b !! i = Some fr /\ page_no fr = 2 /\ pin_count fr = 0 /\
  run id (alloc_delta_ops 3) b f = Some (outs', b', f') /\
  frames b' !! i = Some fr' /\ page_no fr' = 3.
Proof. do 9 eexists. repeat (split; [vm_compute; reflexivity|]). vm_compute. reflexivity. Qed.

End BufPoolRun.
