(* ===== verification/Txn.v ===== *)
(** * Transactions (db/txn.h, txn.cc, [bw_graph_db_t::begin_txn])

    The transaction manager keeps the commit clock, the timestamps of the active
    readers and the write sets of the committed serializable transactions; a
    transaction buffers its writes and applies them when it commits.  [Txn] has
    the operations of the manager and of a transaction; [TxnRun] lets clients
    interleave, a commit moving from one critical section to the next. *)

From S2P Require Import Prelude.

Local Open Scope Z_scope.

(** What a transaction calls on the database: the timestamped edge updates, the
    vertex updates, and the snapshot read ([None]: out of range). *)
Class TxnStore (S : Type) := {
  insert_edge_txn : S -> Z -> Z -> Z -> Z -> bool * S;
  delete_edge_txn : S -> Z -> Z -> Z -> Z -> bool * S;
  insert_single_vertex : S -> Z -> bool * S;
  delete_vertex : S -> Z -> bool * S;
  read_neighbor_clone_txn : S -> Z -> Z -> option (list Z)
}.

Module Txn.

(** ** Keys *)

Fixpoint fnv_loop (bytes : list Z) (hash : Z) : Z :=
  match bytes with [] => hash | b :: bytes => fnv_loop bytes (u32 (Z.lxor hash b * 16777619)) end.

Definition fnv1a_hash (data : list Z) : Z := fnv_loop data 2166136261.

(** A vertex key is 4 bytes, an edge key 8. *)
Definition compute_key_hash (src dst : Z) : Z :=
  if dst =? 0 then fnv1a_hash (le_bytes 4 src) else fnv1a_hash (le_bytes 4 src ++ le_bytes 4 dst).

(** ** The manager *)

(** Readers per timestamp; a count of live objects does not overflow. *)
Definition add_reader (readers : gmap Z Z) (ts : Z) : gmap Z Z := <[ts := default 0 (readers !! ts) + 1]> readers.

Definition remove_reader (readers : gmap Z Z) (ts : Z) : gmap Z Z :=
  match readers !! ts with
  | Some n => if n - 1 =? 0 then delete ts readers else <[ts := n - 1]> readers
  | None => readers
  end.

(** The least key. *)
Definition watermark (readers : gmap Z Z) : option Z :=
  foldr (fun q acc => Some (match acc with Some w => Z.min q.1 w | None => q.1 end)) None (map_to_list readers).

Definition num_retained_snapshots (readers : gmap Z Z) : nat := size readers.

Record committed_txn_data_t := TxnData { key_hashes : gset Z; d_read_ts : Z; d_commit_ts : Z }.

Record txn_manager_t := TxnManager {
  current_ts : Z;
  readers : gmap Z Z;
  committed_txns : gmap Z committed_txn_data_t;
  commit_lock : option nat       (* the client that holds it *)
}.

Definition new_manager (initial_ts : Z) : txn_manager_t := TxnManager initial_ts ∅ ∅ None.

Definition latest_commit_ts (m : txn_manager_t) : Z := current_ts m.
Definition alloc_commit_ts (m : txn_manager_t) : Z * txn_manager_t :=
  (u64 (current_ts m + 1), TxnManager (u64 (current_ts m + 1)) (readers m) (committed_txns m) (commit_lock m)).
Definition get_watermark (m : txn_manager_t) : Z := default (current_ts m) (watermark (readers m)).
Definition register_reader (m : txn_manager_t) (ts : Z) : txn_manager_t :=
  TxnManager (current_ts m) (add_reader (readers m) ts) (committed_txns m) (commit_lock m).
Definition unregister_reader (m : txn_manager_t) (ts : Z) : txn_manager_t :=
  TxnManager (current_ts m) (remove_reader (readers m) ts) (committed_txns m) (commit_lock m).
Definition set_lock (m : txn_manager_t) (l : option nat) : txn_manager_t :=
  TxnManager (current_ts m) (readers m) (committed_txns m) l.

(** [emplace] keeps an entry that is there. *)
Definition add_committed_txn (m : txn_manager_t) (commit_ts : Z) (data : committed_txn_data_t) : txn_manager_t :=
  TxnManager (current_ts m) (readers m)
    (match committed_txns m !! commit_ts with Some _ => committed_txns m | None => <[commit_ts := data]> (committed_txns m) end)
    (commit_lock m).

Definition check_serializable_conflict (m : txn_manager_t) (read_ts : Z) (read_set : gset Z) : bool :=
  existsb (fun q => (read_ts <? q.1) && bool_decide (read_set ∩ key_hashes q.2 ≠ ∅)) (map_to_list (committed_txns m)).

(** The erasure of [cleanup_old_txns], below the watermark it has read. *)
Definition erase_old_txns (m : txn_manager_t) (watermark : Z) : txn_manager_t :=
  TxnManager (current_ts m) (readers m) (filter (fun q => watermark <= q.1) (committed_txns m)) (commit_lock m).

(** ** A transaction *)

Inductive write_ops_type_t := INSERT_EDGE | DELETE_EDGE | INSERT_VERTEX | DELETE_VERTEX.
Record write_opt_t := WriteOp { type : write_ops_type_t; op_src : Z; op_dst : Z }.

Record txn_t := MkTxn {
  read_ts : Z;
  serializable : bool;
  write_ops : list write_opt_t;
  committed : bool;
  write_set : gset Z;
  read_set : gset Z
}.

Definition new_txn (read_ts : Z) (serializable : bool) : txn_t := MkTxn read_ts serializable [] false ∅ ∅.

(** One of [insert_edge], [delete_edge], [insert_vertex], [delete_vertex]; the
    vertex operations have destination 0. *)
Definition buffer_write (t : txn_t) (op : write_opt_t) : res txn_t :=
  if committed t then Throw runtime_error
  else Ok (MkTxn (read_ts t) (serializable t) (write_ops t ++ [op]) (committed t)
             (if serializable t then {[compute_key_hash (op_src op) (op_dst op)]} ∪ write_set t else write_set t) (read_set t)).

Section Store.
Context {S : Type} `{!TxnStore S}.

(** The read set is extended before the read. *)
Definition get_neighbors (s : S) (t : txn_t) (vertex_id : Z) : option (res (list Z) * txn_t) :=
  if committed t then Some (Throw runtime_error, t)
  else
    let t := if serializable t
      then MkTxn (read_ts t) (serializable t) (write_ops t) (committed t) (write_set t) ({[compute_key_hash vertex_id 0]} ∪ read_set t)
      else t in
    ns ← read_neighbor_clone_txn s vertex_id (read_ts t);
    Some (Ok ns, t).

(** One write of [apply_writes]; a failure is only reported. *)
Definition apply_write (s : S) (begin_ts commit_ts : Z) (op : write_opt_t) : S :=
  match type op with
  | INSERT_EDGE => (insert_edge_txn s (op_src op) (op_dst op) begin_ts commit_ts).2
  | DELETE_EDGE => (delete_edge_txn s (op_src op) (op_dst op) begin_ts commit_ts).2
  | INSERT_VERTEX => (insert_single_vertex s (op_src op)).2
  | DELETE_VERTEX => (delete_vertex s (op_src op)).2
  end.

End Store.

(** The compare-and-swap that starts a commit: only the first call passes. *)
Definition start_commit (t : txn_t) : res txn_t :=
  if committed t then Throw runtime_error
  else Ok (MkTxn (read_ts t) (serializable t) (write_ops t) true (write_set t) (read_set t)).

Definition abort (t : txn_t) : txn_t :=
  if committed t then t else MkTxn (read_ts t) (serializable t) [] true (write_set t) (read_set t).

(** Whether [commit] finds a conflict; the check is made for writers only. *)
Definition conflicts (m : txn_manager_t) (t : txn_t) : bool :=
  serializable t && negb (bool_decide (write_set t = ∅)) && check_serializable_conflict m (read_ts t) (read_set t).

End Txn.

Module TxnRun.
Import Txn.

Section Run.
Context {S : Type} `{!TxnStore S}.

(** Where a client is; the later places are inside [commit], between one access
    to the shared state and the next. *)
Inductive pc_t :=
  | Unregistered                     (* in [begin_txn], the clock read *)
  | Active
  | Waiting                          (* for the commit lock *)
  | Locked
  | Allowed                          (* no conflict *)
  | Applying (commit_ts : Z) (rest : list write_opt_t)
  | Recording (commit_ts : Z)
  | Cleaning (commit_ts : Z)
  | Erasing (commit_ts watermark : Z)
  | Returned (commit_ts : option Z) (ok : bool)
  | Aborted.

(** [prompt]: whether the clock still read [read_ts] at the registration (not
    state of the program, a record of the past). *)
Record client_t := Client { txn : txn_t; pc : pc_t; registered : bool; prompt : bool }.

Record system_t := System { manager : txn_manager_t; store : S; clients : list client_t }.

Definition set_client (s : system_t) (m : txn_manager_t) (i : nat) (c : client_t) : system_t :=
  System m (store s) (<[i := c]> (clients s)).

Inductive action_t :=
  | Begin (serializable : bool)
  | Register
  | Read (v : Z)
  | Write (op : write_opt_t)
  | Commit
  | Abort
  | Next                             (* of a commit under way *)
  | Destroy.

(** Between two calls. *)
Definition idle (p : pc_t) : bool :=
  match p with Active | Returned _ _ | Aborted => true | _ => false end.

(** The next part of [commit]; [None]: the lock is taken, or no commit is under way. *)
Definition next (s : system_t) (i : nat) (c : client_t) : option system_t :=
  let m := manager s in
  let at_ p := Client (txn c) p (registered c) (prompt c) in
  match pc c with
  | Waiting => if commit_lock m then None else Some (set_client s (set_lock m (Some i)) i (at_ Locked))
  | Locked =>
    if conflicts m (txn c) then Some (set_client s (set_lock m None) i (at_ (Returned None false)))
    else Some (set_client s m i (at_ Allowed))
  | Allowed =>
    let '(commit_ts, m) := alloc_commit_ts m in
    Some (set_client s m i (at_ (Applying commit_ts (write_ops (txn c)))))
  | Applying commit_ts (op :: rest) =>
    Some (System m (apply_write (store s) (read_ts (txn c)) commit_ts op) (<[i := at_ (Applying commit_ts rest)]> (clients s)))
  | Applying commit_ts [] =>
    if serializable (txn c) then Some (set_client s m i (at_ (Recording commit_ts)))
    else Some (set_client s (set_lock m None) i (at_ (Returned (Some commit_ts) true)))
  | Recording commit_ts =>
    Some (set_client s (add_committed_txn m commit_ts (TxnData (write_set (txn c)) (read_ts (txn c)) commit_ts)) i (at_ (Cleaning commit_ts)))
  | Cleaning commit_ts => Some (set_client s m i (at_ (Erasing commit_ts (get_watermark m))))
  | Erasing commit_ts wm => Some (set_client s (set_lock (erase_old_txns m wm) None) i (at_ (Returned (Some commit_ts) true)))
  | _ => None
  end.

(** An action of client [i]; [Begin] makes a new one.  A call that throws
    changes nothing. *)
Definition step (s : system_t) (i : nat) (a : action_t) : option system_t :=
  let m := manager s in
  match a with
  | Begin ser => Some (System m (store s) (clients s ++ [Client (new_txn (latest_commit_ts m) ser) Unregistered false false]))
  | Register =>
    c ← clients s !! i;
    match pc c with
    | Unregistered =>
      Some (set_client s (register_reader m (read_ts (txn c))) i (Client (txn c) Active true (current_ts m =? read_ts (txn c))))
    | _ => None
    end
  | Next => c ← clients s !! i; next s i c
  | _ =>
    c ← clients s !! i;
    if idle (pc c) && registered c then
      match a with
      | Read v =>
        '(_, t) ← get_neighbors (store s) (txn c) v;
        Some (set_client s m i (Client t (pc c) (registered c) (prompt c)))
      | Write op =>
        Some (match buffer_write (txn c) op with
              | Ok t => set_client s m i (Client t (pc c) (registered c) (prompt c))
              | Throw _ => s
              end)
      | Commit =>
        Some (match start_commit (txn c) with
              | Ok t => set_client s m i (Client t (match write_ops t with [] => Returned None true | _ => Waiting end) (registered c) (prompt c))
              | Throw _ => s
              end)
      | Abort => Some (set_client s m i (Client (abort (txn c)) (if committed (txn c) then pc c else Aborted) (registered c) (prompt c)))
      | Destroy => Some (set_client s (unregister_reader m (read_ts (txn c))) i (Client (txn c) (pc c) false (prompt c)))
      | _ => None
      end
    else None
  end.

Fixpoint run (s : system_t) (trace : list (nat * action_t)) : option system_t :=
  match trace with [] => Some s | (i, a) :: trace => s ← step s i a; run s trace end.

Definition start (initial_ts : Z) (st : S) : system_t := System (new_manager initial_ts) st [].

End Run.
End TxnRun.
