(* ===== verification/TxnSafe.v ===== *)
(** * Serializable transactions

    What the bookkeeping of committed write sets guarantees: a serializable
    transaction that commits has read no key that another serializable
    transaction wrote and committed in between.  The guarantee is for
    transactions registered while the clock still showed their read timestamp:
    [begin_txn] reads the clock and registers in two steps, and a cleanup
    between them may erase what the conflict check needs. *)

From S2P Require Import Prelude Txn.

Local Open Scope Z_scope.

Module TxnSafe.
Import Txn TxnRun.

(** ** The watermark and the map of committed transactions *)

Lemma watermark_least readers ts : is_Some (readers !! ts) -> exists w, watermark readers = Some w /\ w <= ts.
Proof.
  intros [n E]. unfold watermark. apply elem_of_map_to_list in E.
  induction (map_to_list readers) as [|q l IH]; [by apply elem_of_nil in E|]. cbn [foldr].
  apply elem_of_cons in E as [<-|E].
  - destruct (foldr _ None l); eexists; (split; [done|]); cbn; lia.
  - destruct (IH E) as (w & -> & Hw). exists (Z.min q.1 w). split; [done|]. lia.
Qed.

Lemma watermark_in readers w : watermark readers = Some w -> is_Some (readers !! w).
Proof.
  intros E. assert (Hin : exists n, (w, n) ∈ map_to_list readers).
  { revert E. unfold watermark. generalize (map_to_list readers) as l. intros l. revert w.
    induction l as [|q l IH]; intros w; [done|]. cbn [foldr]. intros [= <-]. destruct (foldr _ None l) as [w|] eqn:El.
    - destruct (IH w eq_refl) as [n Hn]. destruct (Z.min_spec q.1 w) as [[_ ->]|[_ ->]]; [exists q.2; rewrite <- surjective_pairing; left|exists n; by right].
    - exists q.2. rewrite <- surjective_pairing. left. }
  destruct Hin as [n Hn]. exists n. by apply elem_of_map_to_list.
Qed.

Lemma check_false m rts rs : check_serializable_conflict m rts rs = false -> forall k d, committed_txns m !! k = Some d -> rts < k -> rs ## key_hashes d.
Proof.
  unfold check_serializable_conflict. intros Hc k d E Hk. apply elem_of_map_to_list in E.
  rewrite <- not_true_iff_false, existsb_exists in Hc. destruct (decide (rs ∩ key_hashes d = ∅)) as [Hd|Hd]; [set_solver|].
  destruct Hc. exists (k, d). split; [by apply list_elem_of_In|]. cbn. by rewrite (proj2 (Z.ltb_lt _ _)), bool_decide_eq_true_2.
Qed.

Section Safe.
Context {S : Type} `{!TxnStore S}.

Abbreviation system := (system_t (S := S)).

(** ** Places in a commit *)

Definition cts (p : pc_t) : option Z :=
  match p with
  | Applying k _ | Recording k | Cleaning k | Erasing k _ => Some k
  | Returned k _ => k
  | _ => None
  end.

Definition passed (p : pc_t) : bool :=
  match p with Allowed | Applying _ _ | Recording _ | Cleaning _ | Erasing _ _ | Returned (Some _) _ => true | _ => false end.

Definition recorded (p : pc_t) : bool :=
  match p with Cleaning _ | Erasing _ _ | Returned (Some _) _ => true | _ => false end.

Definition inside (p : pc_t) : bool :=
  match p with Locked | Allowed | Applying _ _ | Recording _ | Cleaning _ | Erasing _ _ => true | _ => false end.

Definition erasing (p : pc_t) : option Z := match p with Erasing _ wm => Some wm | _ => None end.

Definition fresh (p : pc_t) : bool := match p with Unregistered | Active => true | _ => false end.

Definition live (c : client_t) : Prop := registered c = true /\ prompt c = true.
Definition reads_at (ts : Z) (c : client_t) : bool := registered c && (read_ts (txn c) =? ts).

(** ** The invariant: of each client, of each pair, and of the maps *)

Record client_inv (m : txn_manager_t) (i : nat) (c : client_t) : Prop := {
  cl_read : read_ts (txn c) <= current_ts m;
  cl_cts : forall k, cts (pc c) = Some k -> read_ts (txn c) < k <= current_ts m;
  cl_lock : inside (pc c) = true -> commit_lock m = Some i;
  cl_committed : committed (txn c) = negb (fresh (pc c));
  cl_writes : serializable (txn c) = true -> write_ops (txn c) <> [] -> write_set (txn c) <> ∅;
  cl_some : pc c = Waiting \/ pc c = Locked -> write_ops (txn c) <> [];
  cl_erasing : forall wm, erasing (pc c) = Some wm -> wm <= current_ts m;
  cl_registered : registered c = true \/ pc c = Unregistered \/ idle (pc c) = true;
  cl_unregistered : pc c = Unregistered -> registered c = false
}.

Record pair_inv (m : txn_manager_t) (i : nat) (c : client_t) (j : nat) (d : client_t) : Prop := {
  pr_cts : i <> j -> forall k, cts (pc c) = Some k -> cts (pc d) <> Some k;
  pr_kept : forall k, live c -> recorded (pc d) = true -> serializable (txn d) = true -> cts (pc d) = Some k ->
    read_ts (txn c) < k -> exists e, committed_txns m !! k = Some e /\ key_hashes e = write_set (txn d);
  pr_erasing : forall wm, live c -> erasing (pc d) = Some wm -> wm <= read_ts (txn c);
  pr_disjoint : forall k, i <> j -> passed (pc c) = true -> serializable (txn c) = true -> prompt c = true ->
    serializable (txn d) = true -> cts (pc d) = Some k -> read_ts (txn c) < k -> (forall k', cts (pc c) = Some k' -> k < k') ->
    read_set (txn c) ## write_set (txn d)
}.

Record sys_inv (s : system) : Prop := {
  si_client : forall i c, clients s !! i = Some c -> client_inv (manager s) i c;
  si_pair : forall i c j d, clients s !! i = Some c -> clients s !! j = Some d -> pair_inv (manager s) i c j d;
  si_readers : forall ts, let n := count (reads_at ts) (clients s) in
    readers (manager s) !! ts = if n =? 0 then None else Some n;
  si_committed : forall k e, committed_txns (manager s) !! k = Some e ->
    exists j d, clients s !! j = Some d /\ cts (pc d) = Some k /\ recorded (pc d) = true
}.

(** A step of client [i] to [c'], with what it does to the manager: the
    conditions that keep the invariant. *)
Lemma inv_update (s : system) m st i c c' : sys_inv s -> clients s !! i = Some c -> current_ts (manager s) <= current_ts m ->
  (forall j, j <> i -> commit_lock (manager s) = Some j -> commit_lock m = Some j) ->
  client_inv m i c' ->
  (forall j d, j <> i -> clients s !! j = Some d -> pair_inv m i c' j d /\ pair_inv m j d i c') -> pair_inv m i c' i c' ->
  (forall j d k e, clients s !! j = Some d -> live d -> read_ts (txn d) < k -> committed_txns (manager s) !! k = Some e ->
     committed_txns m !! k = Some e) ->
  (forall ts, let n := count (reads_at ts) (clients s) - Z.b2z (reads_at ts c) + Z.b2z (reads_at ts c') in
     readers m !! ts = if n =? 0 then None else Some n) ->
  (forall k e, committed_txns m !! k = Some e -> committed_txns (manager s) !! k = Some e \/ cts (pc c') = Some k /\ recorded (pc c') = true) ->
  (forall k, cts (pc c) = Some k -> recorded (pc c) = true -> cts (pc c') = Some k /\ recorded (pc c') = true) ->
  sys_inv (System m st (<[i := c']> (clients s))).
Proof.
  intros Hi E Hts Hl Hc Hp Hii Hk Hr Hcm Hrec. assert (Hlt : (i < length (clients s))%nat) by by eapply lookup_lt_Some.
  assert (Hlook : forall j d, <[i := c']> (clients s) !! j = Some d -> j = i /\ d = c' \/ j <> i /\ clients s !! j = Some d).
  { intros j d Ej. destruct (decide (j = i)) as [->|Hj]; [left; rewrite list_lookup_insert_eq in Ej by done; by injection Ej|].
    right. by rewrite list_lookup_insert_ne in Ej. }
  constructor; cbn [manager clients].
  - intros j d Ej. destruct (Hlook j d Ej) as [[-> ->]|[Hj Ed]]; [done|]. destruct (si_client _ Hi j d Ed). constructor; auto; [lia|..].
    + intros k Ek. specialize (cl_cts0 k Ek). lia.
    + intros wm Ew. specialize (cl_erasing0 wm Ew). lia.
  - intros a ca b cb Ea Eb. destruct (Hlook a ca Ea) as [[-> ->]|[Ha Eca]], (Hlook b cb Eb) as [[-> ->]|[Hb Ecb]]; [done|exact (proj1 (Hp b cb Hb Ecb))|exact (proj2 (Hp a ca Ha Eca))|].
    destruct (si_pair _ Hi a ca b cb Eca Ecb) as [H1 H2 H3 H4]. constructor; auto. intros k Hlive Hrd Hs Ek Hlt'.
    destruct (H2 k Hlive Hrd Hs Ek Hlt') as (e & Ee & He). exists e. split; [|done]. exact (Hk a ca k e Eca Hlive Hlt' Ee).
  - intros ts. rewrite (count_insert _ _ i c c' E). apply Hr.
  - intros k e Ee. destruct (Hcm k e Ee) as [Eo|[H1 H2]].
    + destruct (si_committed _ Hi k e Eo) as (j & d & Ej & H1 & H2). destruct (decide (j = i)) as [->|Hj].
      * replace d with c in * by congruence. destruct (Hrec k H1 H2). exists i, c'. by rewrite list_lookup_insert_eq.
      * exists j, d. by rewrite list_lookup_insert_ne.
    + exists i, c'. by rewrite list_lookup_insert_eq.
Qed.

(** A client that changes nothing the pairs look at. *)
Record same_core (c c' : client_t) : Prop := {
  co_read : read_ts (txn c') = read_ts (txn c);
  co_serializable : serializable (txn c') = serializable (txn c);
  co_cts : cts (pc c') = cts (pc c);
  co_passed : passed (pc c') = passed (pc c);
  co_prompt : prompt c' = prompt c;
  co_recorded : recorded (pc c) = true -> recorded (pc c') = true;
  co_unrecorded : recorded (pc c') = true -> recorded (pc c) = true \/ serializable (txn c) = false;
  co_erasing : erasing (pc c') = erasing (pc c) \/ erasing (pc c') = None;
  co_registered : registered c' = true -> registered c = true;
  co_reads : passed (pc c) = true -> read_set (txn c') = read_set (txn c);
  co_writes : cts (pc c) <> None -> write_set (txn c') = write_set (txn c)
}.

(** What a live client may still conflict with stays. *)
Definition keeps (m m' : txn_manager_t) (c : client_t) : Prop := forall k e, live c -> read_ts (txn c) < k ->
  committed_txns m !! k = Some e -> committed_txns m' !! k = Some e.

Lemma keeps_same m m' c : committed_txns m' = committed_txns m -> keeps m m' c.
Proof. intros E k e _ _. by rewrite E. Qed.

Lemma live_core c c' : same_core c c' -> live c' -> live c.
Proof. intros Hc [Hr Hp]. split; [by apply (co_registered _ _ Hc)|by rewrite <- (co_prompt _ _ Hc)]. Qed.

Lemma pair_inv_core m m' i c c' j d : keeps m m' c -> same_core c c' -> pair_inv m i c j d -> pair_inv m' i c' j d.
Proof.
  intros Hk Hc [P1 P2 P3 P4]. constructor; rewrite ?(co_read _ _ Hc), ?(co_serializable _ _ Hc), ?(co_cts _ _ Hc), ?(co_passed _ _ Hc), ?(co_prompt _ _ Hc).
  - done.
  - intros k Hl Hr Hs Ek Hlt. apply (live_core c) in Hl; [|done]. destruct (P2 k Hl Hr Hs Ek Hlt) as (e & Ee & He). exists e. split; [|done]. by apply Hk.
  - intros wm Hl. apply P3. by eapply live_core.
  - intros k Hij Hps. rewrite (co_reads _ _ Hc Hps). by apply P4.
Qed.

Lemma pair_inv_core_r m m' i c j d d' : keeps m m' c -> same_core d d' -> pair_inv m i c j d -> pair_inv m' i c j d'.
Proof.
  intros Hk Hc [P1 P2 P3 P4]. constructor; rewrite ?(co_serializable _ _ Hc), ?(co_cts _ _ Hc).
  - done.
  - intros k Hl Hr Hs Ek Hlt. rewrite (co_writes _ _ Hc) by congruence.
    destruct (co_unrecorded _ _ Hc Hr) as [Hrd|?]; [|congruence].
    destruct (P2 k Hl Hrd Hs Ek Hlt) as (e & Ee & He). exists e. split; [|done]. by apply Hk.
  - intros wm Hl Ew. destruct (co_erasing _ _ Hc) as [He|He]; [|congruence]. apply P3; congruence.
  - intros k Hij Hps Hs Hp Hsd Ek. rewrite (co_writes _ _ Hc) by congruence. by apply P4.
Qed.

(** A step that leaves the core alone; its conditions on the manager. *)
Lemma inv_core (s : system) m st i c c' : sys_inv s -> clients s !! i = Some c -> same_core c c' ->
  current_ts m = current_ts (manager s) ->
  (forall j, j <> i -> commit_lock (manager s) = Some j -> commit_lock m = Some j) ->
  (forall j d, clients s !! j = Some d -> keeps (manager s) m d) ->
  (forall k e, committed_txns m !! k = Some e -> committed_txns (manager s) !! k = Some e) ->
  (forall ts, let n := count (reads_at ts) (clients s) - Z.b2z (reads_at ts c) + Z.b2z (reads_at ts c') in
     readers m !! ts = if n =? 0 then None else Some n) ->
  client_inv m i c' -> sys_inv (System m st (<[i := c']> (clients s))).
Proof.
  intros Hi E Hcore Hts Hl Hk Hcm Hr Hc. eapply (inv_update s m st i c c'); [done|done|lia|done|done|..].
  - intros j d _ Ed. split; [eapply pair_inv_core|eapply pair_inv_core_r]; try (by apply (si_pair _ Hi)); eauto.
  - eapply pair_inv_core; [by eapply Hk|done|]. eapply pair_inv_core_r; [by apply keeps_same|done|]. by apply (si_pair _ Hi).
  - intros j d k e Ed Hlive Hlt. by apply (Hk j d Ed).
  - done.
  - intros k e Ee. left. by apply Hcm.
  - intros k. rewrite (co_cts _ _ Hcore). intros Ek Hr'. split; [done|]. by apply (co_recorded _ _ Hcore).
Qed.

(** The manager's maps and clock stay as well. *)
Lemma inv_quiet (s : system) l st i c c' : sys_inv s -> clients s !! i = Some c -> same_core c c' -> registered c' = registered c ->
  (forall j, j <> i -> commit_lock (manager s) = Some j -> l = Some j) ->
  client_inv (set_lock (manager s) l) i c' -> sys_inv (System (set_lock (manager s) l) st (<[i := c']> (clients s))).
Proof.
  intros Hi E Hcore Hreg Hl Hc. eapply (inv_core s _ st i c c'); [done|done|done|done|done| |done| |done].
  - intros j d _. by apply keeps_same.
  - intros ts. replace (reads_at ts c') with (reads_at ts c) by (unfold reads_at; by rewrite Hreg, (co_read _ _ Hcore)).
    rewrite Z.sub_add. apply (si_readers _ Hi).
Qed.

Lemma set_lock_same m : set_lock m (commit_lock m) = m.
Proof. by destruct m. Qed.

(** ** Beginning and ending *)

Lemma begin_inv (s s' : system) i ser : sys_inv s -> step s i (Begin ser) = Some s' -> sys_inv s'.
Proof.
  intros Hi [= <-]. set (c := Client (new_txn (latest_commit_ts (manager s)) ser) Unregistered false false).
  assert (Hlook : forall j d, (clients s ++ [c]) !! j = Some d -> clients s !! j = Some d \/ d = c).
  { intros j d Ej. apply lookup_app_Some in Ej as [?|[_ Ej]]; [by left|right]. by apply list_lookup_singleton_Some in Ej as [_ <-]. }
  constructor; cbn [manager clients].
  - intros j d Ej. destruct (Hlook j d Ej) as [Ed| ->]; [by apply (si_client _ Hi)|]. constructor; try done; [by intros [?|?]|by right; left].
  - intros a ca b cb Ea Eb. destruct (Hlook a ca Ea) as [Ea'| ->], (Hlook b cb Eb) as [Eb'| ->]; [by apply (si_pair _ Hi)|..];
      (constructor; [done|by intros k [? ?]|by intros wm [? ?]|done]).
  - intros ts. rewrite count_app, count_cons. cbn. rewrite !Z.add_0_r. apply (si_readers _ Hi).
  - intros k e Ee. destruct (si_committed _ Hi k e Ee) as (j & d & Ej & ?). exists j, d. split; [|done]. by apply lookup_app_l_Some.
Qed.

Lemma register_inv (s s' : system) i : sys_inv s -> step s i Register = Some s' -> sys_inv s'.
Proof.
  intros Hi. cbn [step]. destruct (clients s !! i) as [c|] eqn:E; [|done]. cbn [mbind option_bind].
  destruct (pc c) eqn:Ep; try done. intros [= <-]. destruct (si_client _ Hi i c E) as [U1 _ _ U4 U5 _ _ _ U8].
  rewrite Ep in *. specialize (U8 eq_refl). set (c' := Client _ _ _ _). eapply (inv_update s _ _ i c c'); [done|done|cbn; lia|done|..].
  - constructor; try done; [by intros [?|?]|by left].
  - intros j d Hj Ed. pose proof (si_client _ Hi j d Ed) as [V1 V2 _ _ _ _ V7 _ _]. split; constructor; try done.
    + intros k [_ Hp] _ _ Ek Hlt. cbn in Hp, Hlt. apply Z.eqb_eq in Hp. specialize (V2 k Ek). lia.
    + intros wm [_ Hp] Ew. cbn in *. apply Z.eqb_eq in Hp. specialize (V7 wm Ew). lia.
  - constructor; done.
  - done.
  - intros ts. cbn zeta. replace (reads_at ts c) with false by (unfold reads_at; by rewrite U8).
    replace (reads_at ts c') with (read_ts (txn c) =? ts) by done. cbn [Z.b2z register_reader readers]. rewrite Z.sub_0_r. pose proof (si_readers _ Hi (read_ts (txn c))) as Hr0. pose proof (si_readers _ Hi ts) as Hr. cbn zeta in Hr, Hr0.
    pose proof (count_nonneg (reads_at ts) (clients s)). unfold add_reader. destruct (Z.eqb_spec (read_ts (txn c)) ts) as [<-|Hne].
    + rewrite lookup_insert_eq, Hr0. cbn. destruct (Z.eqb_spec (count (reads_at (read_ts (txn c))) (clients s)) 0) as [->|Hz]; [done|].
      cbn. rewrite (proj2 (Z.eqb_neq _ 0)) by lia. done.
    + rewrite lookup_insert_ne by done. cbn. by rewrite Z.add_0_r.
  - intros k e. by left.
  - rewrite Ep. done.
Qed.

Lemma destroy_inv (s : system) i c : sys_inv s -> clients s !! i = Some c -> idle (pc c) = true -> registered c = true ->
  sys_inv (set_client s (unregister_reader (manager s) (read_ts (txn c))) i (Client (txn c) (pc c) false (prompt c))).
Proof.
  intros Hi E Hidle Hreg. destruct (si_client _ Hi i c E) as [U1 U2 U3 U4 U5 U6 U7 U8 U9].
  eapply (inv_core s _ _ i c); [done|done|constructor; auto; done|done|done| |done| |].
  - intros j d _. by apply keeps_same.
  - intros ts. cbn zeta. replace (reads_at ts c) with (read_ts (txn c) =? ts) by (unfold reads_at; by rewrite Hreg).
    replace (reads_at ts (Client _ _ _ _)) with false by done. cbn [Z.b2z unregister_reader readers]. rewrite Z.add_0_r.
    pose proof (si_readers _ Hi (read_ts (txn c))) as Hr0. pose proof (si_readers _ Hi ts) as Hr. cbn zeta in Hr, Hr0.
    assert (Hpos : 1 <= count (reads_at (read_ts (txn c))) (clients s)).
    { apply (count_some _ _ i c E). unfold reads_at. by rewrite Hreg, Z.eqb_refl. }
    unfold remove_reader. rewrite Hr0, (proj2 (Z.eqb_neq _ 0)) by lia.
    destruct (Z.eqb_spec (read_ts (txn c)) ts) as [<-|Hne].
    + cbn [Z.b2z]. destruct (Z.eqb_spec (count (reads_at (read_ts (txn c))) (clients s) - 1) 0); [apply lookup_delete_eq|apply lookup_insert_eq].
    + cbn [Z.b2z]. rewrite Z.sub_0_r, <- Hr. destruct (count (reads_at (read_ts (txn c))) (clients s) - 1 =? 0); [by apply lookup_delete_ne|by apply lookup_insert_ne].
  - constructor; try done. by right; right.
Qed.

(** ** Calls between commits *)

Lemma same_core_refl c : same_core c c.
Proof. constructor; auto. Qed.

(** An active client that only extends its sets. *)
Lemma same_core_active c t : pc c = Active -> read_ts t = read_ts (txn c) -> serializable t = serializable (txn c) ->
  same_core c (Client t (pc c) (registered c) (prompt c)).
Proof. intros Ep H1 H2. constructor; cbn; rewrite ?Ep; auto; done. Qed.

Lemma inv_quiet_same (s : system) i c c' : sys_inv s -> clients s !! i = Some c -> same_core c c' -> registered c' = registered c ->
  client_inv (manager s) i c' -> sys_inv (set_client s (manager s) i c').
Proof.
  intros Hi E Hcore Hreg Hc. unfold set_client. rewrite <- (set_lock_same (manager s)). eapply inv_quiet; [done..| |by rewrite set_lock_same]. auto.
Qed.

Lemma inv_back (s : system) i c : sys_inv s -> clients s !! i = Some c -> sys_inv (set_client s (manager s) i (Client (txn c) (pc c) (registered c) (prompt c))).
Proof.
  intros Hi E. replace (Client _ _ _ _) with c by by destruct c. apply (inv_quiet_same s i c c); [done|done|apply same_core_refl|done|by apply (si_client _ Hi)].
Qed.

Lemma txn_read_inv (s : system) i c v r t : sys_inv s -> clients s !! i = Some c -> idle (pc c) = true ->
  get_neighbors (store s) (txn c) v = Some (r, t) -> sys_inv (set_client s (manager s) i (Client t (pc c) (registered c) (prompt c))).
Proof.
  intros Hi E Hidle. unfold get_neighbors. pose proof (si_client _ Hi i c E) as Hc. destruct (committed (txn c)) eqn:Ec.
  { intros [= _ <-]. by apply inv_back. }
  destruct (read_neighbor_clone_txn _ _ _) as [ns|]; [|done]. cbn [mbind option_bind]. intros [= _ <-].
  destruct Hc as [U1 U2 U3 U4 U5 U6 U7 U8 U9]. assert (Ep : pc c = Active) by (rewrite Ec in U4; destruct (pc c); done).
  destruct (serializable (txn c)) eqn:Es; [|by apply inv_back].
  apply (inv_quiet_same s i c); [done|done|by apply same_core_active|done|]. constructor; cbn; auto. by rewrite Ep.
Qed.

Lemma write_inv (s : system) i c op t : sys_inv s -> clients s !! i = Some c -> idle (pc c) = true ->
  buffer_write (txn c) op = Ok t -> sys_inv (set_client s (manager s) i (Client t (pc c) (registered c) (prompt c))).
Proof.
  intros Hi E Hidle. unfold buffer_write. destruct (si_client _ Hi i c E) as [U1 U2 U3 U4 U5 U6 U7 U8 U9].
  destruct (committed (txn c)) eqn:Ec; [done|]. intros [= <-]. assert (Ep : pc c = Active) by (destruct (pc c); done).
  apply (inv_quiet_same s i c); [done|done|by apply same_core_active|done|]. constructor; cbn; auto; [|].
  - intros -> _. set_solver.
  - rewrite Ep. by intros [?|?].
Qed.

Lemma commit_inv (s : system) i c t : sys_inv s -> clients s !! i = Some c -> idle (pc c) = true -> registered c = true ->
  start_commit (txn c) = Ok t ->
  sys_inv (set_client s (manager s) i (Client t (match write_ops t with [] => Returned None true | _ => Waiting end) (registered c) (prompt c))).
Proof.
  intros Hi E Hidle Hreg. unfold start_commit. destruct (si_client _ Hi i c E) as [U1 U2 U3 U4 U5 U6 U7 U8 U9].
  destruct (committed (txn c)) eqn:Ec; [done|]. intros [= <-]. assert (Ep : pc c = Active) by (destruct (pc c); done).
  cbn [write_ops]. apply (inv_quiet_same s i c); [done|done| |done|].
  - constructor; cbn; rewrite ?Ep; destruct (write_ops (txn c)); auto; done.
  - constructor; cbn; destruct (write_ops (txn c)) eqn:Eo; auto; try done; by intros [?|?].
Qed.

Lemma abort_inv (s : system) i c : sys_inv s -> clients s !! i = Some c -> idle (pc c) = true -> registered c = true ->
  sys_inv (set_client s (manager s) i (Client (abort (txn c)) (if committed (txn c) then pc c else Aborted) (registered c) (prompt c))).
Proof.
  intros Hi E Hidle Hreg. unfold abort. destruct (si_client _ Hi i c E) as [U1 U2 U3 U4 U5 U6 U7 U8 U9].
  destruct (committed (txn c)) eqn:Ec; [by apply inv_back|]. assert (Ep : pc c = Active) by (destruct (pc c); done).
  apply (inv_quiet_same s i c); [done|done| |done|].
  - constructor; cbn; rewrite ?Ep; auto; done.
  - constructor; cbn; auto; try done. by intros [?|?].
Qed.

(** ** The parts of a commit *)

Lemma other_not_inside (s : system) i j d : sys_inv s -> commit_lock (manager s) = Some i -> j <> i -> clients s !! j = Some d -> inside (pc d) = false.
Proof.
  intros Hi Hl Hj Ed. destruct (inside (pc d)) eqn:Ei; [|done]. pose proof (cl_lock _ _ _ (si_client _ Hi j d Ed) Ei). congruence.
Qed.

(** Outside the lock a commit timestamp means a finished commit. *)
Lemma cts_outside p k : inside p = false -> cts p = Some k -> recorded p = true.
Proof. destruct p; cbn; try done. by intros _ ->. Qed.

(** A client that moves on; only the lock may change hands. *)
Lemma inv_move (s : system) st l i c p : sys_inv s -> clients s !! i = Some c -> idle (pc c) = false -> pc c <> Unregistered ->
  cts p = cts (pc c) -> passed p = passed (pc c) -> (recorded (pc c) = true -> recorded p = true) ->
  (recorded p = true -> recorded (pc c) = true \/ serializable (txn c) = false) -> erasing p = None -> fresh p = false ->
  (inside p = true -> l = Some i) -> (p = Waiting \/ p = Locked -> write_ops (txn c) <> []) ->
  (forall j, j <> i -> commit_lock (manager s) = Some j -> l = Some j) ->
  sys_inv (System (set_lock (manager s) l) st (<[i := Client (txn c) p (registered c) (prompt c)]> (clients s))).
Proof.
  intros Hi E Hidle Hun H1 H2 H3 H4 H5 H6 H7 H8 Hl. destruct (si_client _ Hi i c E) as [U1 U2 U3 U4 U5 U6 U7 U8 U9].
  eapply inv_quiet; [done|done| |done|done|].
  - constructor; cbn; auto.
  - constructor; cbn; auto.
    + intros k. rewrite H1; apply U2.
    + rewrite U4, H6. by destruct (pc c).
    + intros wm. by rewrite H5.
    + destruct U8 as [?|[?|?]]; [by left|done|congruence].
    + intros ->. done.
Qed.

Lemma lock_free (s : system) i c l : sys_inv s -> clients s !! i = Some c -> inside (pc c) = true ->
  forall j, j <> i -> commit_lock (manager s) = Some j -> l = Some j.
Proof. intros Hi E Hin j Hj Hl. pose proof (cl_lock _ _ _ (si_client _ Hi i c E) Hin). congruence. Qed.

(** The check: the entries of all finished writers are there. *)
Lemma allowed_inv (s : system) i c : sys_inv s -> clients s !! i = Some c -> pc c = Locked -> conflicts (manager s) (txn c) = false ->
  sys_inv (set_client s (manager s) i (Client (txn c) Allowed (registered c) (prompt c))).
Proof.
  intros Hi E Ep Hcf. destruct (si_client _ Hi i c E) as [U1 U2 U3 U4 U5 U6 U7 U8 U9]. rewrite Ep in U3, U4, U6, U8.
  specialize (U3 eq_refl). specialize (U6 (or_intror eq_refl)). destruct U8 as [Hreg|[?|?]]; [|done|done].
  assert (Hcore : forall j d, clients s !! j = Some d -> pair_inv (manager s) i c j d /\ pair_inv (manager s) j d i c) by (intros; split; by apply (si_pair _ Hi)).
  eapply (inv_update s (manager s) _ i c); [done|done|lia|done|..].
  - constructor; cbn; auto; try done; by intros [?|?].
  - intros j d Hj Ed. destruct (Hcore j d Ed) as [[P1 P2 P3 P4] [Q1 Q2 Q3 Q4]]. rewrite Ep in *. split; constructor; cbn; auto; try done.
    intros k _ _ Hs Hp Hsd Ek Hlt _. unfold conflicts in Hcf. rewrite Hs, bool_decide_eq_false_2 in Hcf by by apply U5. cbn in Hcf.
    destruct (P2 k) as (e & Ee & <-); [done| |done|done|done|].
    + apply (cts_outside _ k); [|done]. by apply (other_not_inside s i j).
    + by eapply check_false.
  - destruct (Hcore i c E) as [[P1 P2 P3 P4] _]. rewrite Ep in *. constructor; cbn; auto; done.
  - auto.
  - intros ts. replace (reads_at ts (Client _ _ _ _)) with (reads_at ts c) by done. rewrite Z.sub_add. apply (si_readers _ Hi).
  - auto.
  - by rewrite Ep.
Qed.

(** A new commit timestamp is larger than all before. *)
Lemma txn_alloc_inv (s : system) i c : sys_inv s -> 0 <= current_ts (manager s) < 2 ^ 64 - 1 -> clients s !! i = Some c -> pc c = Allowed ->
  sys_inv (set_client s (alloc_commit_ts (manager s)).2 i
    (Client (txn c) (Applying (alloc_commit_ts (manager s)).1 (write_ops (txn c))) (registered c) (prompt c))).
Proof.
  intros Hi Hmax E Ep. destruct (si_client _ Hi i c E) as [U1 U2 U3 U4 U5 U6 U7 U8 U9]. rewrite Ep in U3, U4, U8.
  specialize (U3 eq_refl). destruct U8 as [Hreg|[?|?]]; [|done|done].
  unfold alloc_commit_ts. rewrite wrap_small by (unfold in_width; lia). cbn [fst snd].
  eapply (inv_update s _ _ i c); [done|done|cbn; lia|done|..].
  - constructor; cbn; auto; try done; [lia|intros k [= <-]; lia|by intros [?|?]].
  - intros j d Hj Ed. pose proof (si_client _ Hi j d Ed) as [_ V2 _ _ _ _ _ _ _].
    pose proof (other_not_inside s i j d Hi U3 Hj Ed) as Hout.
    destruct (si_pair _ Hi i c j d E Ed) as [P1 P2 P3 P4]. destruct (si_pair _ Hi j d i c Ed E) as [Q1 Q2 Q3 Q4]. rewrite Ep in *.
    split; constructor; cbn; auto; try done.
    + intros _ k [= <-] Ek. specialize (V2 _ Ek). lia.
    + intros k Hij _ Hs Hp Hsd Ek Hlt Hk. by eapply P4.
    + intros _ k Ek [= <-]. specialize (V2 _ Ek). lia.
    + intros k Hij Hps Hs Hp Hsd [= <-] Hlt Hk. exfalso. destruct (cts (pc d)) as [k'|] eqn:Ek; [specialize (V2 k' eq_refl); specialize (Hk k' eq_refl); lia|].
      destruct (pc d); try done. cbn in Hps, Ek. by rewrite Ek in Hps.
  - constructor; cbn; auto; done.
  - auto.
  - intros ts. replace (reads_at ts (Client _ _ _ _)) with (reads_at ts c) by done. rewrite Z.sub_add. apply (si_readers _ Hi).
  - auto.
  - by rewrite Ep.
Qed.

(** The entry is new. *)
Lemma record_inv (s : system) i c k : sys_inv s -> clients s !! i = Some c -> pc c = Recording k ->
  sys_inv (set_client s (add_committed_txn (manager s) k (TxnData (write_set (txn c)) (read_ts (txn c)) k)) i
    (Client (txn c) (Cleaning k) (registered c) (prompt c))).
Proof.
  intros Hi E Ep. destruct (si_client _ Hi i c E) as [U1 U2 U3 U4 U5 U6 U7 U8 U9]. rewrite Ep in U2, U3, U4, U8.
  destruct U8 as [Hreg|[?|?]]; [|done|done]. set (e := TxnData _ _ _).
  assert (Hnew : committed_txns (manager s) !! k = None).
  { destruct (committed_txns (manager s) !! k) as [e'|] eqn:Ee; [|done]. destruct (si_committed _ Hi k e' Ee) as (j & d & Ej & Ek & Hr).
    destruct (decide (j = i)) as [->|Hj]; [replace d with c in Hr by congruence; by rewrite Ep in Hr|].
    exfalso. apply (pr_cts _ _ _ _ _ (si_pair _ Hi i c j d E Ej) (not_eq_sym Hj) k); [by rewrite Ep|done]. }
  assert (Hother : forall k' e', committed_txns (manager s) !! k' = Some e' -> <[k := e]> (committed_txns (manager s)) !! k' = Some e').
  { intros k' e' Ee. rewrite lookup_insert_ne; [done|]. intros ->. congruence. }
  unfold add_committed_txn. rewrite Hnew. set (m := TxnManager _ _ _ _).
  assert (Hkeep : forall d, keeps (manager s) m d) by (intros d k' e' _ _ Ee; by apply Hother).
  assert (Hpair : forall j d, clients s !! j = Some d -> pair_inv m i c j d /\ pair_inv m j d i c).
  { intros j d Ed. split; (eapply pair_inv_core; [apply Hkeep|apply same_core_refl|]); by apply (si_pair _ Hi). }
  eapply (inv_update s m _ i c); [done|done|cbn; lia|done|..].
  - constructor; cbn; auto; try done; by intros [?|?].
  - intros j d Hj Ed. destruct (Hpair j d Ed) as [[P1 P2 P3 P4] [Q1 Q2 Q3 Q4]]. rewrite Ep in *. split; constructor; cbn; auto; try done.
    intros k' _ _ _ [= <-] _. exists e. split; [apply lookup_insert_eq|done].
  - destruct (Hpair i c E) as [[P1 P2 P3 P4] _]. rewrite Ep in *. constructor; cbn; auto; try done.
    intros k' _ _ _ [= <-] _. exists e. split; [apply lookup_insert_eq|done].
  - intros j d k' e' _ _ _. apply Hother.
  - intros ts. replace (reads_at ts (Client _ _ _ _)) with (reads_at ts c) by done. rewrite Z.sub_add. apply (si_readers _ Hi).
  - intros k' e' Ee. cbn in Ee. apply lookup_insert_Some in Ee as [[<- _]|[_ Ee]]; [by right|by left].
  - by rewrite Ep.
Qed.

(** The watermark is below every reader. *)
Lemma clean_inv (s : system) i c k : sys_inv s -> clients s !! i = Some c -> pc c = Cleaning k ->
  sys_inv (set_client s (manager s) i (Client (txn c) (Erasing k (get_watermark (manager s))) (registered c) (prompt c))).
Proof.
  intros Hi E Ep. destruct (si_client _ Hi i c E) as [U1 U2 U3 U4 U5 U6 U7 U8 U9]. rewrite Ep in U2, U3, U4, U8.
  destruct U8 as [Hreg|[?|?]]; [|done|done].
  assert (Hbelow : forall j d, clients s !! j = Some d -> live d -> get_watermark (manager s) <= read_ts (txn d)).
  { intros j d Ed [Hr _]. assert (Hpos : 1 <= count (reads_at (read_ts (txn d))) (clients s)).
    { apply (count_some _ _ j d Ed). unfold reads_at. by rewrite Hr, Z.eqb_refl. }
    destruct (watermark_least (readers (manager s)) (read_ts (txn d))) as (w & Ew & Hw).
    { rewrite (si_readers _ Hi). rewrite (proj2 (Z.eqb_neq _ 0)) by lia. by eexists. }
    unfold get_watermark. by rewrite Ew. }
  assert (Hcur : get_watermark (manager s) <= current_ts (manager s)).
  { unfold get_watermark. destruct (watermark _) as [w|] eqn:Ew; [|done]. apply watermark_in in Ew. rewrite (si_readers _ Hi) in Ew.
    destruct (Z.eqb_spec (count (reads_at w) (clients s)) 0) as [Hz|Hz]; [by destruct Ew|]. pose proof (count_nonneg (reads_at w) (clients s)).
    destruct (count_find (reads_at w) (clients s)) as (j & d & Ed & Hd); [lia|]. apply andb_prop in Hd as [_ Hd]. apply Z.eqb_eq in Hd.
    cbn. rewrite <- Hd. apply (si_client _ Hi j d Ed). }
  eapply (inv_update s (manager s) _ i c); [done|done|lia|done|..].
  - constructor; cbn; auto; try done; [by intros [?|?]|by intros wm [= <-]].
  - intros j d Hj Ed. destruct (si_pair _ Hi i c j d E Ed) as [P1 P2 P3 P4]. destruct (si_pair _ Hi j d i c Ed E) as [Q1 Q2 Q3 Q4]. rewrite Ep in *.
    split; constructor; cbn; auto; try done. intros wm Hl [= <-]. by apply (Hbelow j d).
  - destruct (si_pair _ Hi i c i c E E) as [P1 P2 P3 P4]. rewrite Ep in *. constructor; cbn; auto. intros wm Hl [= <-]. by apply (Hbelow i c).
  - auto.
  - intros ts. replace (reads_at ts (Client _ _ _ _)) with (reads_at ts c) by done. rewrite Z.sub_add. apply (si_readers _ Hi).
  - auto.
  - rewrite Ep. auto.
Qed.

(** What is erased is older than every reader. *)
Lemma erase_inv (s : system) i c k wm : sys_inv s -> clients s !! i = Some c -> pc c = Erasing k wm ->
  sys_inv (set_client s (set_lock (erase_old_txns (manager s) wm) None) i (Client (txn c) (Returned (Some k) true) (registered c) (prompt c))).
Proof.
  intros Hi E Ep. destruct (si_client _ Hi i c E) as [U1 U2 U3 U4 U5 U6 U7 U8 U9]. rewrite Ep in U2, U3, U4, U8.
  specialize (U3 eq_refl). destruct U8 as [Hreg|[?|?]]; [|done|done].
  eapply (inv_core s _ _ i c); [done|done| |done| | | | |].
  - constructor; rewrite ?Ep; auto.
  - apply (lock_free s i c); [done|done|by rewrite Ep].
  - intros j d Ed k' e Hl Hlt Ee. apply map_lookup_filter_Some. split; [done|]. cbn.
    assert (wm <= read_ts (txn d)); [|lia]. by apply (pr_erasing _ _ _ _ _ (si_pair _ Hi j d i c Ed E) wm); [|rewrite Ep].
  - intros k' e Ee. by apply map_lookup_filter_Some in Ee as [? _].
  - intros ts. replace (reads_at ts (Client _ _ _ _)) with (reads_at ts c) by done. rewrite Z.sub_add. apply (si_readers _ Hi).
  - constructor; cbn; auto; try done; by intros [?|?].
Qed.

Lemma next_inv (s s' : system) i c : sys_inv s -> 0 <= current_ts (manager s) < 2 ^ 64 - 1 ->
  clients s !! i = Some c -> next s i c = Some s' -> sys_inv s'.
Proof.
  intros Hi Hmax E. unfold next, set_client. pose proof (si_client _ Hi i c E) as [U1 U2 U3 U4 U5 U6 U7 U8 U9].
  destruct (pc c) as [| | | | |k [|op rest]|k|k|k wm|k b|] eqn:Ep; try done.
  - destruct (commit_lock (manager s)) eqn:El; [done|]. intros [= <-].
    apply inv_move; rewrite ?Ep, ?El; auto; done.
  - destruct (conflicts _ _) eqn:Ec; intros [= <-]; [|by apply allowed_inv].
    apply inv_move; rewrite ?Ep; auto; try done; try (by intros [?|?]). apply (lock_free s i c); [done|done|by rewrite Ep].
  - intros [= <-]. by apply (txn_alloc_inv s i c).
  - destruct (serializable (txn c)) eqn:Es; intros [= <-].
    + rewrite <- (set_lock_same (manager s)). apply inv_move; rewrite ?Ep; auto; try done; by intros [?|?].
    + apply inv_move; rewrite ?Ep; auto; try done; try (by intros [?|?]). apply (lock_free s i c); [done|done|by rewrite Ep].
  - intros [= <-]. rewrite <- (set_lock_same (manager s)). apply inv_move; rewrite ?Ep; auto; try done; by intros [?|?].
  - intros [= <-]. by apply record_inv.
  - intros [= <-]. by apply clean_inv.
  - intros [= <-]. by apply erase_inv.
Qed.

(** ** Runs *)

Lemma txn_step_inv (s s' : system) i a : sys_inv s -> 0 <= current_ts (manager s) < 2 ^ 64 - 1 -> step s i a = Some s' -> sys_inv s'.
Proof.
  intros Hi Hmax. destruct a as [ser| |v|op| | | |]; try (by apply begin_inv); try (by apply register_inv); cbn [step];
    (destruct (clients s !! i) as [c|] eqn:E; [|done]); cbn [mbind option_bind]; try (by apply next_inv);
    (destruct (idle (pc c) && registered c) eqn:Hb; [|done]); apply andb_prop in Hb as [Hidle Hreg].
  - destruct (get_neighbors _ _ _) as [[r t]|] eqn:Er; [|done]. cbn [mbind option_bind]. intros [= <-]. by eapply txn_read_inv.
  - destruct (buffer_write _ _) as [t|] eqn:Et; intros [= <-]; [|done]. by eapply write_inv.
  - destruct (start_commit _) as [t|] eqn:Et; intros [= <-]; [|done]. by apply commit_inv.
  - intros [= <-]. by apply abort_inv.
  - intros [= <-]. by apply destroy_inv.
Qed.

(** The clock moves by at most one per step. *)
Lemma step_clock (s s' : system) i a : 0 <= current_ts (manager s) < 2 ^ 64 - 1 -> step s i a = Some s' ->
  current_ts (manager s) <= current_ts (manager s') <= current_ts (manager s) + 1.
Proof.
  intros Hmax. unfold step, next, set_client, alloc_commit_ts, register_reader, add_committed_txn, erase_old_txns, unregister_reader.
  rewrite wrap_small by (unfold in_width; lia).
  intros Hs. repeat (case_match || simplify_option_eq); cbn; lia.
Qed.

Lemma txn_run_inv trace : forall s s' : system, sys_inv s -> 0 <= current_ts (manager s) ->
  current_ts (manager s) + Z.of_nat (length trace) < 2 ^ 64 - 1 -> run s trace = Some s' -> sys_inv s'.
Proof.
  induction trace as [|[i a] trace IH]; intros s s' Hi Hpos Hmax; cbn [run]; [by intros [= <-]|].
  destruct (step s i a) as [s1|] eqn:E; [|done]. cbn [mbind option_bind]. cbn [length] in Hmax.
  assert (Hb : 0 <= current_ts (manager s) < 2 ^ 64 - 1) by lia. pose proof (step_clock s s1 i a Hb E).
  apply IH; [by eapply txn_step_inv|lia|lia].
Qed.

Lemma start_inv initial_ts st : sys_inv (start initial_ts st).
Proof. constructor; cbn; done. Qed.

End Safe.

(** C24: under every interleaving of any number of clients, a serializable
    transaction that was registered while the clock still showed its read
    timestamp and whose commit returns true has read no key that another
    serializable transaction wrote with a commit timestamp between its read
    timestamp and its own; commit timestamps are distinct and larger than the
    read timestamps. *)
Theorem serializable_commits {S : Type} `{!TxnStore S} (initial_ts : Z) (st : S) (trace : list (nat * action_t)) (s : system_t (S := S))
    (i j : nat) (c d : client_t) (ki kj : Z) :
  0 <= initial_ts -> initial_ts + Z.of_nat (length trace) < 2 ^ 64 - 1 -> run (start initial_ts st) trace = Some s ->
  clients s !! i = Some c -> clients s !! j = Some d -> i <> j ->
  pc c = Returned (Some ki) true -> pc d = Returned (Some kj) true -> serializable (txn c) = true -> serializable (txn d) = true ->
  ki <> kj /\ read_ts (txn c) < ki /\ read_ts (txn d) < kj /\
  (prompt c = true -> read_ts (txn c) < kj < ki -> read_set (txn c) ## write_set (txn d)).
Proof.
  intros Hpos Hmax Hrun Ei Ej Hij Pi Pj Hsi Hsj. pose proof (txn_run_inv trace _ s (start_inv initial_ts st) Hpos Hmax Hrun) as Hi.
  destruct (si_pair _ Hi i c j d Ei Ej) as [P1 _ _ P4]. rewrite Pi, Pj in *. split; [|split; [|split]].
  - intros ->. by apply (P1 Hij kj).
  - apply (cl_cts _ _ _ (si_client _ Hi i c Ei) ki). by rewrite Pi.
  - apply (cl_cts _ _ _ (si_client _ Hi j d Ej) kj). by rewrite Pj.
  - intros Hp [H1 H2]. apply (P4 kj); [done..|]. by intros k' [= <-].
Qed.

End TxnSafe.
