(* ===== verification/TxnChain.v ===== *)
(** * Timestamped edges ([insert_edge_txn], [delete_edge_txn], [read_neighbor_clone_txn])

    The store a transaction works on, over each vertex's neighbours in the CSR
    pages (or the giant store) with their commit timestamps and its chain of
    delta records, newest first.  The pages that hold them and the routing of
    new records are those of the plain operations ([EdgeOps]).  Left out is the
    consolidation that an insertion may start: it rewrites base lists and chains,
    so what is said here of stores holds between consolidations. *)

From S2P Require Import Prelude Txn TxnSafe.

Local Open Scope Z_scope.

Module TxnChain.
Import Txn TxnRun TxnSafe.

Definition INVALID_TS : Z := 0.

(** A delta record of an edge: inserted or deleted, its other end, its logical
    timestamps. *)
Record edge_delta_t := EdgeDelta { inserted : bool; second : Z; begin_ts : Z; commit_ts : Z }.

Record vertex_t := Vertex { is_delete : bool; base : list (Z * Z); chain : list edge_delta_t }.

(** [page0]: what the CSR page 0 has at slot 0, where a new vertex is located. *)
Record store_t := Store { vertices : list vertex_t; page0 : list (Z * Z) }.

Definition vertex_at (s : store_t) (v : Z) : option vertex_t := if v <? 0 then None else vertices s !! Z.to_nat v.
Definition set_vertex (s : store_t) (v : Z) (x : vertex_t) : store_t := Store (<[Z.to_nat v := x]> (vertices s)) (page0 s).

Definition prepend (s : store_t) (src : Z) (r : edge_delta_t) : store_t :=
  match vertex_at s src with Some x => set_vertex s src (Vertex (is_delete x) (base x) (r :: chain x)) | None => s end.

Definition insert_edge_txn (s : store_t) (src dst begin_ts commit_ts : Z) : bool * store_t :=
  match vertex_at s src, vertex_at s dst with
  | Some x, Some y =>
    if is_delete x || is_delete y then (false, s) else (true, prepend s src (EdgeDelta true dst begin_ts commit_ts))
  | _, _ => (false, s)
  end.

(** Deletion marks are not consulted. *)
Definition delete_edge_txn (s : store_t) (src dst begin_ts commit_ts : Z) : bool * store_t :=
  match vertex_at s src, vertex_at s dst with
  | Some _, Some _ => (true, prepend s src (EdgeDelta false dst begin_ts commit_ts))
  | _, _ => (false, s)
  end.

Definition insert_single_vertex (s : store_t) (v : Z) : bool * store_t :=
  match vertex_at s v with
  | Some x => if is_delete x then (true, set_vertex s v (Vertex false (base x) (chain x))) else (false, s)
  | None => (true, Store (vertices s ++ [Vertex false (page0 s) []]) (page0 s))
  end.

Definition delete_vertex (s : store_t) (v : Z) : bool * store_t :=
  match vertex_at s v with
  | Some x => if is_delete x then (false, s) else (true, set_vertex s v (Vertex true (base x) (chain x)))
  | None => (false, s)
  end.

(** [rec.commit_ts != INVALID_TS && rec.commit_ts <= read_ts]. *)
Definition visible (read_ts : Z) (r : edge_delta_t) : bool := negb (commit_ts r =? INVALID_TS) && (commit_ts r <=? read_ts).

Definition visible_records (read_ts : Z) (x : vertex_t) : list edge_delta_t := filter (fun r => visible read_ts r = true) (chain x).
Definition delta_inserts (read_ts : Z) (x : vertex_t) : list Z := second <$> filter (fun r => inserted r = true) (visible_records read_ts x).
Definition delta_deletes (read_ts : Z) (x : vertex_t) : list Z := second <$> filter (fun r => inserted r = false) (visible_records read_ts x).

(** The base edges of the snapshot, then the inserted ones, newest first, both
    without the destinations of visible deletions. *)
Definition snapshot (read_ts : Z) (x : vertex_t) : list Z :=
  let alive := filter (fun n => n ∉ delta_deletes read_ts x) in
  alive (fst <$> filter (fun e => e.2 = INVALID_TS \/ e.2 <= read_ts) (base x)) ++ alive (delta_inserts read_ts x).

Definition read_neighbor_clone_txn (s : store_t) (vertex_id read_ts : Z) : option (list Z) :=
  snapshot read_ts <$> vertex_at s vertex_id.

(** ** Reads see no later write *)

Lemma vertex_at_set s v x w : is_Some (vertex_at s v) -> vertex_at (set_vertex s v x) w = if decide (w = v) then Some x else vertex_at s w.
Proof.
  unfold vertex_at. destruct (Z.ltb_spec v 0) as [|Hv]; [by intros [? ?]|]. intros [y E]. cbn. destruct (Z.ltb_spec w 0) as [Hw|Hw].
  - by rewrite decide_False by lia.
  - destruct (decide (w = v)) as [->|Hne]; [apply list_lookup_insert_eq; by eapply lookup_lt_Some|]. apply list_lookup_insert_ne. lia.
Qed.

Lemma read_set_vertex s v x y w r l : vertex_at s v = Some x -> snapshot r y = snapshot r x -> read_neighbor_clone_txn s w r = Some l ->
  read_neighbor_clone_txn (set_vertex s v y) w r = Some l.
Proof.
  intros E Hs. unfold read_neighbor_clone_txn. rewrite vertex_at_set by eauto. destruct (decide (w = v)) as [->|]; [|done].
  rewrite E. cbn. by rewrite Hs.
Qed.

Lemma snapshot_later r x d : r < commit_ts d -> snapshot r (Vertex (is_delete x) (base x) (d :: chain x)) = snapshot r x.
Proof.
  intros Hr. assert (Hv : visible_records r (Vertex (is_delete x) (base x) (d :: chain x)) = visible_records r x).
  { unfold visible_records. cbn [chain]. rewrite filter_cons_False; [done|]. unfold visible.
    rewrite (proj2 (Z.leb_gt _ _)) by lia. by rewrite andb_false_r. }
  unfold snapshot, delta_inserts, delta_deletes. rewrite Hv. done.
Qed.

Lemma read_prepend s src d w r l : r < commit_ts d -> read_neighbor_clone_txn s w r = Some l -> read_neighbor_clone_txn (prepend s src d) w r = Some l.
Proof.
  intros Hr Hl. unfold prepend. destruct (vertex_at s src) as [x|] eqn:E; [|done]. by eapply read_set_vertex; [|apply snapshot_later|].
Qed.

#[export] Instance chain_store : TxnStore store_t := {|
  Txn.insert_edge_txn := insert_edge_txn;
  Txn.delete_edge_txn := delete_edge_txn;
  Txn.insert_single_vertex := insert_single_vertex;
  Txn.delete_vertex := delete_vertex;
  Txn.read_neighbor_clone_txn := read_neighbor_clone_txn
|}.

(** Stores whose reads see neither what commits after their timestamp nor marks
    of deletion. *)
Class SnapshotStore (S : Type) `{!TxnStore S} := {
  insert_edge_later : forall (s : S) src dst b c v r l, r < c -> Txn.read_neighbor_clone_txn s v r = Some l ->
    Txn.read_neighbor_clone_txn (Txn.insert_edge_txn s src dst b c).2 v r = Some l;
  delete_edge_later : forall (s : S) src dst b c v r l, r < c -> Txn.read_neighbor_clone_txn s v r = Some l ->
    Txn.read_neighbor_clone_txn (Txn.delete_edge_txn s src dst b c).2 v r = Some l;
  insert_vertex_later : forall (s : S) x v r l, Txn.read_neighbor_clone_txn s v r = Some l ->
    Txn.read_neighbor_clone_txn (Txn.insert_single_vertex s x).2 v r = Some l;
  delete_vertex_later : forall (s : S) x v r l, Txn.read_neighbor_clone_txn s v r = Some l ->
    Txn.read_neighbor_clone_txn (Txn.delete_vertex s x).2 v r = Some l
}.

#[export] Instance chain_snapshot_store : SnapshotStore store_t.
Proof.
  constructor; cbn.
  - intros s src dst b c v r l Hr Hl. unfold insert_edge_txn. destruct (vertex_at s src), (vertex_at s dst); try done.
    destruct (_ || _); [done|]. by apply read_prepend.
  - intros s src dst b c v r l Hr Hl. unfold delete_edge_txn. destruct (vertex_at s src), (vertex_at s dst); try done. by apply read_prepend.
  - intros s x v r l Hl. unfold insert_single_vertex. destruct (vertex_at s x) as [y|] eqn:E.
    + destruct (is_delete y); [|done]. by eapply read_set_vertex.
    + unfold read_neighbor_clone_txn, vertex_at in *. cbn. destruct (v <? 0); [done|]. destruct (vertices s !! Z.to_nat v) as [z|] eqn:Ez; [|done].
      by rewrite (lookup_app_l_Some _ _ _ _ Ez).
  - intros s x v r l Hl. unfold delete_vertex. destruct (vertex_at s x) as [y|] eqn:E; [|done]. destruct (is_delete y); [done|]. by eapply read_set_vertex.
Qed.

(** ** Snapshots repeat *)

Section Snapshot.
Context {S : Type} `{!TxnStore S} `{!SnapshotStore S}.
Variable r : Z.

(** Every commit at or before [r] has been applied. *)
Definition settled (s : system_t (S := S)) : Prop := r <= current_ts (manager s) /\
  forall i c k rest, clients s !! i = Some c -> pc c = Applying k rest -> r < k.

Lemma read_apply_write st b k op v l : r < k -> Txn.read_neighbor_clone_txn st v r = Some l ->
  Txn.read_neighbor_clone_txn (apply_write st b k op) v r = Some l.
Proof.
  intros Hk Hl. unfold apply_write. destruct (type op);
    [by apply insert_edge_later|by apply delete_edge_later|by apply insert_vertex_later|by apply delete_vertex_later].
Qed.

Lemma settled_set m st i c (s : system_t (S := S)) : settled s -> current_ts (manager s) <= current_ts m ->
  (forall k rest, pc c = Applying k rest -> r < k) -> settled (System m st (<[i := c]> (clients s))).
Proof.
  intros [Hr Hs] Hm Hc. split; [cbn; lia|]. intros j d k rest Ej. cbn in Ej.
  apply list_lookup_insert_Some in Ej as [(-> & <- & _)|[_ Ej]]; [apply Hc|by eapply Hs].
Qed.

Lemma next_settled (s s' : system_t (S := S)) i c v l : settled s -> 0 <= current_ts (manager s) < 2 ^ 64 - 1 -> clients s !! i = Some c ->
  next s i c = Some s' -> Txn.read_neighbor_clone_txn (store s) v r = Some l ->
  settled s' /\ Txn.read_neighbor_clone_txn (store s') v r = Some l.
Proof.
  intros Hs Hmax E Hn Hl. pose proof Hs as [Hr Hap]. unfold next, set_client in Hn.
  destruct (pc c) as [| | | | |k [|op rest]|k|k|k wm|k b|] eqn:Ep; try done.
  - destruct (commit_lock _); [done|]. injection Hn as <-. split; [by apply settled_set|done].
  - destruct (conflicts _ _); injection Hn as <-; (split; [by apply settled_set|done]).
  - unfold alloc_commit_ts in Hn. rewrite wrap_small in Hn by (unfold in_width; lia). injection Hn as <-.
    split; [|done]. apply settled_set; [done|cbn; lia|]. cbn. intros k rest [= <- _]. lia.
  - destruct (serializable _); injection Hn as <-; (split; [by apply settled_set|done]).
  - injection Hn as <-. assert (Hk : r < k) by by eapply Hap. split; [|by apply read_apply_write].
    apply settled_set; [done|done|]. by intros k' rest' [= <- _].
  - injection Hn as <-. split; [by apply settled_set|done].
  - injection Hn as <-. split; [by apply settled_set|done].
  - injection Hn as <-. split; [by apply settled_set|done].
Qed.

Lemma step_settled (s s' : system_t (S := S)) i a v l : settled s -> 0 <= current_ts (manager s) < 2 ^ 64 - 1 -> step s i a = Some s' ->
  Txn.read_neighbor_clone_txn (store s) v r = Some l -> settled s' /\ Txn.read_neighbor_clone_txn (store s') v r = Some l.
Proof.
  intros Hs Hmax Hst Hl. destruct a as [ser| |w|op| | | |]; cbn [step] in Hst.
  { injection Hst as <-. split; [|done]. destruct Hs as [Hr Hap]. split; [done|]. intros j d k rest Ej Ep. cbn in Ej.
    apply lookup_app_Some in Ej as [Ej|[_ Ej]]; [by eapply Hap|]. by apply list_lookup_singleton_Some in Ej as [_ <-]. }
  all: destruct (clients s !! i) as [c|] eqn:E; [|done]; cbn [mbind option_bind] in Hst; try (by eapply next_settled).
  { destruct (pc c); try done. injection Hst as <-. split; [by apply settled_set|done]. }
  all: destruct (idle (pc c) && registered c) eqn:Hb; [|done]; apply andb_prop in Hb as [Hidle Hreg].
  all: assert (Hno : forall p k rest, p = pc c -> p = Applying k rest -> r < k) by (intros p k rest -> Ep; by rewrite Ep in Hidle).
  - destruct (get_neighbors _ _ _) as [[x t]|]; [|done]. injection Hst as <-. split; [apply settled_set; [done|done|intros k rest; by apply Hno]|done].
  - destruct (buffer_write _ _); injection Hst as <-; [|done]. split; [apply settled_set; [done|done|intros k rest; by apply Hno]|done].
  - destruct (start_commit _) as [t|]; injection Hst as <-; [|done]. split; [|done]. apply settled_set; [done|done|]. cbn. by destruct (write_ops t).
  - injection Hst as <-. split; [|done]. apply settled_set; [done|done|]. cbn. intros k rest. destruct (committed _); [by apply Hno|done].
  - injection Hst as <-. split; [apply settled_set; [done|done|intros k rest; by apply Hno]|done].
Qed.

Lemma run_settled trace v l : forall s s' : system_t (S := S), settled s -> 0 <= current_ts (manager s) ->
  current_ts (manager s) + Z.of_nat (length trace) < 2 ^ 64 - 1 -> run s trace = Some s' ->
  Txn.read_neighbor_clone_txn (store s) v r = Some l -> Txn.read_neighbor_clone_txn (store s') v r = Some l.
Proof.
  induction trace as [|[i a] trace IH]; intros s s' Hs Hpos Hmax; cbn [run]; [by intros [= <-]|].
  destruct (step s i a) as [s1|] eqn:E; [|done]. cbn [mbind option_bind length] in *. intros Hrun Hl.
  assert (Hb : 0 <= current_ts (manager s) < 2 ^ 64 - 1) by lia. pose proof (step_clock s s1 i a Hb E).
  destruct (step_settled s s1 i a v l Hs Hb E Hl) as [Hs1 Hl1]. apply (IH s1 s'); [done|lia|lia|done|done].
Qed.

End Snapshot.

(** A snapshot read repeats: once every commit with a timestamp up to [r] has
    been applied, a read at [r] returns the same list whatever any client does
    afterwards, as long as no consolidation runs. *)
Theorem snapshot_repeats {S : Type} `{!TxnStore S} `{!SnapshotStore S} (r v : Z) (l : list Z) (s s' : system_t (S := S)) (trace : list (nat * action_t)) :
  settled r s -> 0 <= current_ts (manager s) -> current_ts (manager s) + Z.of_nat (length trace) < 2 ^ 64 - 1 ->
  Txn.read_neighbor_clone_txn (store s) v r = Some l -> run s trace = Some s' -> Txn.read_neighbor_clone_txn (store s') v r = Some l.
Proof. intros Hs Hpos Hmax Hl Hrun. by eapply run_settled. Qed.

(** ** Concrete runs *)

(** Vertices 0 to 3 with no edges. *)
Definition store4 : store_t := Store (replicate 4 (Vertex false [] [])) [].

Definition edge_op (src dst : Z) : write_opt_t := WriteOp INSERT_EDGE src dst.

(** All of a commit of one write. *)
Definition commit1 (i : nat) : list (nat * action_t) := (i, Commit) :: replicate 8 (i, Next).

(** Two serializable transactions; each inserts an edge, the second has read its
    source before. *)
Definition two_commits : list (nat * action_t) :=
  [(0%nat, Begin true); (0%nat, Register); (0%nat, Begin true); (1%nat, Register); (0%nat, Read 1); (0%nat, Write (edge_op 2 1));
   (1%nat, Write (edge_op 1 2))] ++ commit1 1 ++ commit1 0.

Definition after (trace : list (nat * action_t)) : option (system_t (S := store_t)) := run (start 0 store4) trace.

Definition state_after (trace : list (nat * action_t)) : system_t (S := store_t) := default (start 0 store4) (after trace).

Lemma serializable_commits_witness : exists c d, clients (state_after two_commits) !! 0%nat = Some c /\ clients (state_after two_commits) !! 1%nat = Some d /\
  2 <> 1 /\ read_ts (txn c) < 2 /\ read_ts (txn d) < 1 /\
  (prompt c = true -> read_ts (txn c) < 1 < 2 -> read_set (txn c) ## write_set (txn d)).
Proof.
  eexists _, _. split; [vm_compute; reflexivity|]. split; [vm_compute; reflexivity|].
  apply (serializable_commits 0 store4 two_commits (state_after two_commits) 0 1); vm_compute; (reflexivity || congruence).
Defined.

Lemma snapshot_repeats_witness : Txn.read_neighbor_clone_txn (store (state_after two_commits)) 1 0 = Some [].
Proof.
  apply (snapshot_repeats 0 1 [] (start 0 store4) (state_after two_commits) two_commits); try (vm_compute; (reflexivity || congruence)).
  split; [vm_compute; congruence|]. intros i c k rest E. destruct i; discriminate E.
Defined.

(** Three ways in which commits are not serializable or snapshots not stable.
    Reads are recorded under vertex keys and edge writes under edge keys, so a
    serializable transaction commits although the neighbours it read have
    changed since; a transaction registered after the clock has moved on commits
    although a vertex it read was written since; and a transaction that begins
    while a commit is being applied reads two different lists. *)
Theorem transactions_not_isolated :
  (exists s c d, after two_commits = Some s /\ clients s !! 0%nat = Some c /\ clients s !! 1%nat = Some d /\
     prompt c = true /\ serializable (txn c) = true /\ serializable (txn d) = true /\
     pc c = Returned (Some 2) true /\ pc d = Returned (Some 1) true /\
     read_neighbor_clone_txn (store s) 1 (read_ts (txn c)) = Some [] /\ read_neighbor_clone_txn (store s) 1 1 = Some [2]) /\
  (exists trace s c d, after trace = Some s /\ clients s !! 0%nat = Some c /\ clients s !! 1%nat = Some d /\
     serializable (txn c) = true /\ serializable (txn d) = true /\ read_ts (txn c) = 0 /\
     pc c = Returned (Some 4) true /\ pc d = Returned (Some 1) true /\
     compute_key_hash 1 0 ∈ read_set (txn c) /\ compute_key_hash 1 0 ∈ write_set (txn d)) /\
  (exists trace1 trace2 s1 s2 c, after trace1 = Some s1 /\ run s1 trace2 = Some s2 /\ clients s1 !! 1%nat = Some c /\ pc c = Active /\
     read_neighbor_clone_txn (store s1) 1 (read_ts (txn c)) = Some [] /\ read_neighbor_clone_txn (store s2) 1 (read_ts (txn c)) = Some [2]).
Proof.
  split; [|split].
  - eexists _, _, _. split; [vm_compute; reflexivity|]. split; [reflexivity|]. split; [reflexivity|]. vm_compute. repeat split; reflexivity.
  - set (writer i := [(0%nat, Begin true); (i, Register); (i, Write (WriteOp DELETE_VERTEX (Z.of_nat i) 0))] ++ commit1 i ++ [(i, Destroy)]).
    exists ([(0%nat, Begin true)] ++ writer 1%nat ++ writer 2%nat ++ writer 3%nat ++ [(0%nat, Register); (0%nat, Read 1); (0%nat, Write (edge_op 0 1))] ++ commit1 0).
    eexists _, _, _. split; [vm_compute; reflexivity|]. split; [reflexivity|]. split; [reflexivity|].
    repeat (split; [vm_compute; reflexivity|]). split; apply elem_of_union_l, elem_of_singleton; reflexivity.
  - exists ([(0%nat, Begin false); (0%nat, Register); (0%nat, Write (edge_op 1 2)); (0%nat, Commit); (0%nat, Next); (0%nat, Next); (0%nat, Next);
            (0%nat, Begin false); (1%nat, Register)]), [(0%nat, Next)].
    eexists _, _, _. split; [vm_compute; reflexivity|]. split; [vm_compute; reflexivity|]. split; [reflexivity|]. vm_compute. repeat split; reflexivity.
Qed.

End TxnChain.
