(* ===== verification/PropStore.v ===== *)
(** * The property store (db/property_store.h, property_store.cc)

    Properties of vertices and edges, in RocksDB under binary keys: a tag, the
    ids and the length of the name in big-endian order, and the name.  RocksDB
    is the class [OrderedStore], whose laws are its documented behaviour: keys in
    bytewise order, atomic batches, a failed write changes nothing.  A string is
    the list of its bytes. *)

From S2P Require Import Prelude.

Local Open Scope Z_scope.

(** Bytewise order. *)
Fixpoint bytes_le (a b : list Z) : bool :=
  match a, b with
  | [], _ => true
  | _ :: _, [] => false
  | x :: a, y :: b => (x <? y) || ((x =? y) && bytes_le a b)
  end.

Fixpoint starts_with (p k : list Z) : bool :=
  match p, k with
  | [], _ => true
  | _ :: _, [] => false
  | x :: p, y :: k => (x =? y) && starts_with p k
  end.

Inductive status := StatusOk | NotFound | StatusError.

#[export] Instance status_eq_dec : EqDecision status.
Proof. solve_decision. Defined.

(** [s_from]: the entries an iterator passes from [Seek] on, and whether it
    stops at the end rather than at a read error. *)
Class OrderedStore (R : Type) := {
  s_view : R -> gmap (list Z) (list Z);
  s_get : R -> list Z -> status * list Z;
  s_write : R -> list (list Z * option (list Z)) -> status * R;
  s_from : R -> list Z -> list (list Z * list Z) * bool;
  s_get_view : forall r k, match s_get r k with
    | (StatusOk, v) => s_view r !! k = Some v
    | (NotFound, _) => s_view r !! k = None
    | (StatusError, _) => True
    end;
  s_write_view : forall r b, s_view (s_write r b).2 = (if decide ((s_write r b).1 = StatusError) then s_view r
    else foldl (fun m q => match q.2 with Some v => <[q.1 := v]> m | None => delete q.1 m end) (s_view r) b);
  s_write_status : forall r b, (s_write r b).1 <> NotFound;
  s_from_view : forall r k, (s_from r k).2 = true ->
    Sorted (fun p q => bytes_le p.1 q.1 = true) (s_from r k).1 /\
    (s_from r k).1 ≡ₚ filter (fun q => bytes_le k q.1 = true) (map_to_list (s_view r))
}.

Module PropStore.

Definition VERTEX_PROP_TAG : Z := 1.
Definition EDGE_PROP_TAG : Z := 2.

(** ** Keys *)

Definition be32 (v : Z) : list Z :=
  [Z.land (Z.shiftr v 24) 0xFF; Z.land (Z.shiftr v 16) 0xFF; Z.land (Z.shiftr v 8) 0xFF; Z.land v 0xFF].
Definition be16 (v : Z) : list Z := [Z.land (Z.shiftr v 8) 0xFF; Z.land v 0xFF].

Definition make_vertex_prefix (vertex_id : Z) : list Z := VERTEX_PROP_TAG :: be32 vertex_id.
Definition make_edge_prefix (src_id dst_id : Z) : list Z := EDGE_PROP_TAG :: be32 src_id ++ be32 dst_id.

Definition make_vertex_prop_key (vertex_id : Z) (prop_key : list Z) : list Z :=
  VERTEX_PROP_TAG :: be32 vertex_id ++ be16 (u16 (Z.of_nat (length prop_key))) ++ prop_key.
Definition make_edge_prop_key (src_id dst_id : Z) (prop_key : list Z) : list Z :=
  EDGE_PROP_TAG :: be32 src_id ++ be32 dst_id ++ be16 (u16 (Z.of_nat (length prop_key))) ++ prop_key.

Definition extract_prop_name (raw_key : list Z) (prefix_len : nat) : list Z :=
  let fixed_len := (prefix_len + 2)%nat in
  if (length raw_key <=? fixed_len)%nat then []
  else
    let key_len := Z.lor (Z.shiftl (nth prefix_len raw_key 0) 8) (nth (S prefix_len) raw_key 0) in
    if (length raw_key <? fixed_len + Z.to_nat key_len)%nat then []
    else take (Z.to_nat key_len) (drop fixed_len raw_key).

Section Store.
Context {R : Type} `{!OrderedStore R}.

(** ** Operations *)

(** [Put], and a write that reports failure by [false]. *)
Definition put (r : R) (key v : list Z) : bool * R :=
  let '(s, r) := s_write r [(key, Some v)] in (bool_decide (s = StatusOk), r).

Definition get (r : R) (key : list Z) : option (list Z) :=
  match s_get r key with (StatusOk, v) => Some v | _ => None end.

Definition del (r : R) (key : list Z) : bool * R :=
  let '(s, r) := s_write r [(key, None)] in (negb (bool_decide (s = StatusError)), r).

Fixpoint take_prefix (p : list Z) (l : list (list Z * list Z)) : list (list Z * list Z) :=
  match l with
  | q :: l => if starts_with p q.1 then q :: take_prefix p l else []
  | [] => []
  end.

(** The iterator loop, which does not ask for the iterator's status. *)
Definition scan (r : R) (prefix : list Z) : list (list Z * list Z) := take_prefix prefix (s_from r prefix).1.

(** [emplace] keeps the first entry of a name. *)
Definition collect (prefix_len : nat) (l : list (list Z * list Z)) : gmap (list Z) (list Z) :=
  foldl (fun result q =>
    let name := extract_prop_name q.1 prefix_len in
    if decide (name = []) then result
    else match result !! name with Some _ => result | None => <[name := q.2]> result end) ∅ l.

Definition del_all (r : R) (prefix : list Z) : bool * R :=
  let batch := (fun q => (q.1, None)) <$> scan r prefix in
  match batch with
  | [] => (true, r)
  | _ => let '(s, r) := s_write r batch in (bool_decide (s = StatusOk), r)
  end.

Definition put_all (r : R) (key : list Z -> list Z) (properties : gmap (list Z) (list Z)) : bool * R :=
  let '(s, r) := s_write r ((fun q => (key q.1, Some q.2)) <$> map_to_list properties) in (bool_decide (s = StatusOk), r).

Definition set_vertex_property (r : R) (vertex_id : Z) (prop_key prop_value : list Z) : bool * R :=
  put r (make_vertex_prop_key vertex_id prop_key) prop_value.
Definition get_vertex_property (r : R) (vertex_id : Z) (prop_key : list Z) : option (list Z) :=
  get r (make_vertex_prop_key vertex_id prop_key).
Definition delete_vertex_property (r : R) (vertex_id : Z) (prop_key : list Z) : bool * R :=
  del r (make_vertex_prop_key vertex_id prop_key).
Definition get_all_vertex_properties (r : R) (vertex_id : Z) : gmap (list Z) (list Z) :=
  collect 5 (scan r (make_vertex_prefix vertex_id)).
Definition delete_all_vertex_properties (r : R) (vertex_id : Z) : bool * R := del_all r (make_vertex_prefix vertex_id).
Definition set_vertex_properties (r : R) (vertex_id : Z) (properties : gmap (list Z) (list Z)) : bool * R :=
  put_all r (make_vertex_prop_key vertex_id) properties.

Definition set_edge_property (r : R) (src_id dst_id : Z) (prop_key prop_value : list Z) : bool * R :=
  put r (make_edge_prop_key src_id dst_id prop_key) prop_value.
Definition get_edge_property (r : R) (src_id dst_id : Z) (prop_key : list Z) : option (list Z) :=
  get r (make_edge_prop_key src_id dst_id prop_key).
Definition delete_edge_property (r : R) (src_id dst_id : Z) (prop_key : list Z) : bool * R :=
  del r (make_edge_prop_key src_id dst_id prop_key).
Definition get_all_edge_properties (r : R) (src_id dst_id : Z) : gmap (list Z) (list Z) :=
  collect 9 (scan r (make_edge_prefix src_id dst_id)).
Definition delete_all_edge_properties (r : R) (src_id dst_id : Z) : bool * R := del_all r (make_edge_prefix src_id dst_id).
Definition set_edge_properties (r : R) (src_id dst_id : Z) (properties : gmap (list Z) (list Z)) : bool * R :=
  put_all r (make_edge_prop_key src_id dst_id) properties.

End Store.

(** ** Vertices and edges alike *)

Inductive entity := Vertex (vertex_id : Z) | Edge (src_id dst_id : Z).

#[export] Instance entity_eq_dec : EqDecision entity.
Proof. solve_decision. Defined.

#[export] Instance entity_countable : Countable entity.
Proof.
  refine (inj_countable' (fun e => match e with Vertex v => inl v | Edge s d => inr (s, d) end)
    (fun x => match x with inl v => Vertex v | inr (s, d) => Edge s d end) _).
  by intros [].
Defined.

Definition entity_ok (e : entity) : Prop :=
  match e with Vertex v => in_width 32 v | Edge s d => in_width 32 s /\ in_width 32 d end.
Definition prefix (e : entity) : list Z := match e with Vertex v => make_vertex_prefix v | Edge s d => make_edge_prefix s d end.
Definition prefix_len (e : entity) : nat := match e with Vertex _ => 5 | Edge _ _ => 9 end.
Definition key (e : entity) (n : list Z) : list Z :=
  match e with Vertex v => make_vertex_prop_key v n | Edge s d => make_edge_prop_key s d n end.

(** ** The key layout *)

Lemma be32_inj a b : in_width 32 a -> in_width 32 b -> be32 a = be32 b -> a = b.
Proof.
  intros Ha Hb E. unfold be32 in E. rewrite !(land_ones_mod _ 255 8), !Z.shiftr_div_pow2 in E by (done || lia).
  injection E as E1 E2 E3 E4. unfold in_width in *.
  change (2 ^ 8) with 256 in *. change (2 ^ 16) with 65536 in *. change (2 ^ 24) with 16777216 in *. change (2 ^ 32) with 4294967296 in *.
  Z.div_mod_to_equations. lia.
Qed.

Lemma key_eq e n : key e n = prefix e ++ be16 (u16 (Z.of_nat (length n))) ++ n.
Proof. by destruct e. Qed.

Lemma prefix_length e : length (prefix e) = prefix_len e.
Proof. by destruct e. Qed.

Lemma prefix_inj e e' a b : entity_ok e -> entity_ok e' -> prefix e ++ a = prefix e' ++ b -> e = e' /\ a = b.
Proof.
  intros He He' E. destruct e as [v|s d], e' as [v'|s' d']; cbn [prefix make_vertex_prefix make_edge_prefix] in E; [| | |].
  - unfold be32 in E. cbn [app] in E. injection E as E1 E2 E3 E4 ->. rewrite (be32_inj v v' He He'); [done|]. unfold be32. congruence.
  - by injection E.
  - by injection E.
  - destruct He as [Hs Hd], He' as [Hs' Hd'].
    unfold be32 in E. cbn [app] in E. injection E as E1 E2 E3 E4 E5 E6 E7 E8 ->.
    rewrite (be32_inj s s' Hs Hs'), (be32_inj d d' Hd Hd'); [done|unfold be32; congruence..].
Qed.

Lemma key_inj e n e' n' : entity_ok e -> entity_ok e' -> key e n = key e' n' -> e = e' /\ n = n'.
Proof.
  intros He He' E. rewrite !key_eq in E. destruct (prefix_inj _ _ _ _ He He' E) as [-> E']. split; [done|]. by injection E' as _ _ ->.
Qed.

Lemma be16_decode n : 0 <= n < 65536 -> Z.lor (Z.shiftl (Z.land (Z.shiftr n 8) 255) 8) (Z.land n 255) = n.
Proof.
  intros Hn. rewrite !(land_ones_mod _ 255 8), !Z.shiftr_div_pow2 by (done || lia).
  assert (0 <= n `mod` 2 ^ 8 < 2 ^ 8) by (apply Z.mod_pos_bound; lia). rewrite lor_shiftl_add by lia.
  change (2 ^ 8) with 256 in *. Z.div_mod_to_equations. lia.
Qed.

(** A stored name comes back while its length fits 16 bits. *)
Lemma extract_key e n : Z.of_nat (length n) < 65536 -> extract_prop_name (key e n) (prefix_len e) = n.
Proof.
  intros Hn. rewrite key_eq, wrap_small by (unfold in_width; change (2 ^ 16) with 65536; lia).
  unfold extract_prop_name. rewrite <- prefix_length. generalize (prefix e) as p. intros p.
  assert (E1 : nth (length p) (p ++ be16 (Z.of_nat (length n)) ++ n) 0 = Z.land (Z.shiftr (Z.of_nat (length n)) 8) 255).
  { rewrite app_nth2, Nat.sub_diag; [done|lia]. }
  assert (E2 : nth (S (length p)) (p ++ be16 (Z.of_nat (length n)) ++ n) 0 = Z.land (Z.of_nat (length n)) 255).
  { rewrite app_nth2 by lia. by replace (S (length p) - length p)%nat with 1%nat by lia. }
  rewrite E1, E2, be16_decode, Nat2Z.id, !length_app by lia. change (length (be16 (Z.of_nat (length n)))) with 2%nat.
  destruct (Nat.leb_spec (length p + (2 + length n)) (length p + 2)); [by destruct n; [|cbn in *; lia]|].
  destruct (Nat.ltb_spec (length p + (2 + length n)) (length p + 2 + length n)); [lia|].
  rewrite app_assoc, drop_app_length' by (rewrite length_app; cbn; lia). by apply firstn_all.
Qed.

(** ** Prefix scans *)

Lemma starts_with_app p k : starts_with p k = true <-> exists rest, k = p ++ rest.
Proof.
  revert k. induction p as [|a p IH]; intros k; [by split; [exists k|]|]. destruct k as [|b k]; cbn.
  - split; [done|by intros [rest [=]]].
  - rewrite andb_true_iff, Z.eqb_eq, IH. split; [intros [-> [rest ->]]; by exists rest|]. intros [rest [= -> ->]]. split; [done|by exists rest].
Qed.

Lemma bytes_le_trans : Transitive (fun a b => bytes_le a b = true).
Proof.
  intros a. induction a as [|x a IH]; intros b c Hab Hbc; [done|]. destruct b as [|y b]; [done|]. destruct c as [|z c]; [done|]. cbn in *.
  apply orb_true_iff in Hab, Hbc. rewrite !andb_true_iff, Z.ltb_lt, Z.eqb_eq in Hab, Hbc. apply orb_true_iff. rewrite andb_true_iff, Z.ltb_lt, Z.eqb_eq.
  destruct Hab as [?|[-> ?]], Hbc as [?|[-> ?]]; [left; lia|left; lia|left; lia|right]. split; [done|]. by apply (IH b).
Qed.

Lemma starts_with_le p k : starts_with p k = true -> bytes_le p k = true.
Proof.
  revert k. induction p as [|a p IH]; intros [|b k]; cbn; try done. rewrite andb_true_iff, Z.eqb_eq. intros [-> H].
  apply orb_true_iff. right. rewrite Z.eqb_refl. by apply IH.
Qed.

(** Past the keys with a prefix come no more of them. *)
Lemma prefix_convex p : forall k k', bytes_le p k = true -> starts_with p k = false -> bytes_le k k' = true -> starts_with p k' = false.
Proof.
  induction p as [|a p IH]; intros [|b k] [|c k'] Hp Hs Hk; try done. cbn in *.
  apply orb_true_iff in Hp, Hk. rewrite andb_true_iff, Z.ltb_lt, Z.eqb_eq in Hp, Hk.
  destruct (Z.eqb_spec a c) as [->|]; [|done]. cbn. destruct Hp as [?|[-> Hp]], Hk as [?|[? Hk]]; try lia.
  rewrite Z.eqb_refl in Hs. by eapply IH.
Qed.

Lemma take_prefix_filter p l : Sorted (fun x y => bytes_le x.1 y.1 = true) l -> Forall (fun x => bytes_le p x.1 = true) l ->
  take_prefix p l = filter (fun x => starts_with p x.1 = true) l.
Proof.
  intros Hs. apply Sorted_StronglySorted in Hs; [|intros x y z; apply bytes_le_trans].
  induction Hs as [|x l Hs IH Hx]; intros Hp; [done|]. apply Forall_cons in Hp as [Hpx Hp]. cbn [take_prefix].
  destruct (starts_with p x.1) eqn:E; [rewrite filter_cons_True by done; by rewrite IH|].
  rewrite filter_cons_False by (by rewrite E). symmetry. apply elem_of_nil_inv. intros y [Hy Hyl]%list_elem_of_filter.
  rewrite Forall_forall in Hx. by rewrite (prefix_convex p x.1 y.1 Hpx E (Hx y Hyl)) in Hy.
Qed.

(** ** The abstract store *)

(** The entries are the properties: [A] maps an entity and a name to a value. *)
Abbreviation props := (gmap (entity * list Z) (list Z)).

Definition name_ok (n : list Z) : Prop := Z.of_nat (length n) < 65536.

Section Refine.
Context {R : Type} `{!OrderedStore R}.

Definition shows (r : R) (A : props) : Prop :=
  (forall e n v, A !! (e, n) = Some v -> entity_ok e /\ name_ok n) /\
  forall k v, s_view r !! k = Some v <-> exists e n, k = key e n /\ A !! (e, n) = Some v.

Lemma shows_key r A e n : shows r A -> entity_ok e -> s_view r !! key e n = A !! (e, n).
Proof.
  intros [Hok Hv] He. apply option_eq. intros v. rewrite Hv. split; [|by intros H; exists e, n].
  intros (e' & n' & E & H). destruct (Hok _ _ _ H) as [He' _]. by destruct (key_inj _ _ _ _ He He' E) as [-> ->].
Qed.

(** A batch with distinct keys. *)
Definition apply_batch (m : gmap (list Z) (list Z)) (b : list (list Z * option (list Z))) : gmap (list Z) (list Z) :=
  foldl (fun m q => match q.2 with Some v => <[q.1 := v]> m | None => delete q.1 m end) m b.

Lemma apply_batch_lookup b : NoDup b.*1 -> forall m k,
  apply_batch m b !! k = (match list_find (fun q => q.1 = k) b with Some (_, q) => q.2 | None => m !! k end).
Proof.
  induction b as [|[k0 v0] b IH]; intros Hnd m k; [done|]. cbn [fmap list_fmap fst] in Hnd. apply NoDup_cons in Hnd as [Hk0 Hnd].
  cbn [apply_batch foldl]. fold (apply_batch (match v0 with Some v => <[k0 := v]> m | None => delete k0 m end) b).
  cbn [list_find fst snd]. rewrite (IH Hnd). case_decide as E.
  - subst k0. assert (Hf : list_find (fun q : list Z * option (list Z) => q.1 = k) b = None).
    { apply list_find_None, Forall_forall. intros [k1 v1] Hin. cbn. intros ->. apply Hk0, list_elem_of_fmap. by exists (k, v1). }
    rewrite Hf. destruct v0; [apply lookup_insert_eq|apply lookup_delete_eq].
  - destruct (list_find (fun q : list Z * option (list Z) => q.1 = k) b) as [[i q]|]; cbn; [done|].
    destruct v0; [by rewrite lookup_insert_ne|by rewrite lookup_delete_ne].
Qed.

(** What a batch makes of the properties. *)
Lemma shows_batch r A A' b : shows r A -> (s_write r b).1 <> StatusError -> NoDup b.*1 ->
  (forall e n, entity_ok e -> A' !! (e, n) = match list_find (fun q => q.1 = key e n) b with Some (_, q) => q.2 | None => A !! (e, n) end) ->
  (forall k v, (k, Some v) ∈ b -> exists e n, k = key e n /\ entity_ok e) ->
  (forall e n v, A' !! (e, n) = Some v -> entity_ok e /\ name_ok n) ->
  shows (s_write r b).2 A'.
Proof.
  intros Hs Hst Hnd HA Hb Hok. split; [done|]. intros k v. rewrite s_write_view, decide_False by done.
  change (foldl _ (s_view r) b) with (apply_batch (s_view r) b). rewrite apply_batch_lookup by done. split.
  - intros E. assert (Hk : exists e n, k = key e n /\ entity_ok e).
    { destruct (list_find _ b) as [[i [k0 v0]]|] eqn:Ef.
      - apply list_find_Some in Ef as (Ei & Ek & _). cbn in Ek, E. subst. apply (Hb k v). by eapply list_elem_of_lookup_2.
      - apply Hs in E as (e & n & -> & E). exists e, n. split; [done|]. by apply (proj1 Hs) in E as [? _]. }
    destruct Hk as (e & n & -> & He). exists e, n. split; [done|]. rewrite HA by done.
    destruct (list_find _ b) as [[i q]|]; [done|]. by rewrite <- (shows_key r A).
  - intros (e & n & -> & E). destruct (Hok _ _ _ E) as [He _]. rewrite HA in E by done.
    destruct (list_find _ b) as [[i q]|]; [done|]. by rewrite (shows_key r A).
Qed.

Lemma shows_failed r A b : shows r A -> (s_write r b).1 = StatusError -> shows (s_write r b).2 A.
Proof. intros Hs E. unfold shows. by rewrite s_write_view, decide_True. Qed.

Lemma find_one (k0 k : list Z) (v0 : option (list Z)) :
  list_find (fun q => q.1 = k) [(k0, v0)] = if decide (k0 = k) then Some (0%nat, (k0, v0)) else None.
Proof. cbn. by case_decide. Qed.

(** [Put] and [Delete] of one property. *)
Lemma shows_one r A e n v : shows r A -> entity_ok e -> (v <> None -> name_ok n) -> (s_write r [(key e n, v)]).1 <> StatusError ->
  shows (s_write r [(key e n, v)]).2 (match v with Some v => <[(e, n) := v]> A | None => delete (e, n) A end).
Proof.
  intros Hs He Hn Hst. apply (shows_batch r A); [done|done|apply NoDup_singleton|..].
  - intros e' n' He'. rewrite find_one. destruct (decide (key e n = key e' n')) as [E|E].
    + destruct (key_inj _ _ _ _ He He' E) as [-> ->]. destruct v; [apply lookup_insert_eq|apply lookup_delete_eq].
    + assert ((e, n) <> (e', n')) by congruence. destruct v; [by rewrite lookup_insert_ne|by rewrite lookup_delete_ne].
  - intros k v' [= -> _]%list_elem_of_singleton. by exists e, n.
  - intros e' n' v'. destruct (decide ((e, n) = (e', n'))) as [[= <- <-]|E].
    + destruct v; [|by rewrite lookup_delete_eq]. intros _. split; [done|]. by apply Hn.
    + destruct v; [rewrite lookup_insert_ne by done|rewrite lookup_delete_ne by done]; apply (proj1 Hs).
Qed.

(** ** Scanning *)

Definition reads_ok (r : R) : Prop := (forall k, (s_get r k).1 <> StatusError) /\ forall k, (s_from r k).2 = true.

Lemma starts_with_key e e' n : entity_ok e -> entity_ok e' -> starts_with (prefix e) (key e' n) = true <-> e = e'.
Proof.
  intros He He'. rewrite starts_with_app. split.
  - intros [rest E]. rewrite key_eq in E. symmetry in E. by apply (prefix_inj _ _ _ _ He He') in E as [-> _].
  - intros ->. rewrite key_eq. by eexists.
Qed.

Lemma scan_perm r A e : shows r A -> reads_ok r -> entity_ok e ->
  scan r (prefix e) ≡ₚ filter (fun q => starts_with (prefix e) q.1 = true) (map_to_list (s_view r)).
Proof.
  intros Hs [_ Hr] He. destruct (s_from_view r (prefix e) (Hr _)) as [Hsort Hp]. unfold scan. rewrite take_prefix_filter; [|done|].
  - rewrite Hp, list_filter_filter. apply reflexive_eq, list_filter_iff. intros [k v]. cbn. split; [by intros [? _]|].
    intros H. split; [done|]. by apply starts_with_le.
  - apply Forall_forall. intros q. rewrite Hp, list_elem_of_filter. by intros [? _].
Qed.

Lemma scan_spec r A e : shows r A -> reads_ok r -> entity_ok e ->
  NoDup (scan r (prefix e)).*1 /\ forall k v, (k, v) ∈ scan r (prefix e) <-> exists n, k = key e n /\ A !! (e, n) = Some v.
Proof.
  intros Hs Hr He. pose proof (scan_perm r A e Hs Hr He) as Hp. split.
  - assert (Hnd : NoDup (filter (fun q : list Z * list Z => starts_with (prefix e) q.1 = true) (map_to_list (s_view r))).*1).
    { apply NoDup_fmap_fst; [|apply NoDup_filter, NoDup_map_to_list].
      intros k v1 v2 [_ H1]%list_elem_of_filter [_ H2]%list_elem_of_filter. apply elem_of_map_to_list in H1, H2. congruence. }
    by rewrite Hp.
  - intros k v. rewrite Hp, list_elem_of_filter, elem_of_map_to_list, (proj2 Hs). cbn. split.
    + intros (Hst & e' & n & -> & E). destruct (proj1 Hs _ _ _ E) as [He' _]. apply starts_with_key in Hst as <-; [|done..]. by exists n.
    + intros (n & -> & E). split; [by apply starts_with_key|]. by exists e, n.
Qed.

(** What [emplace] collects from entries of one entity with distinct keys. *)
Lemma collect_spec e l : entity_ok e -> NoDup l.*1 -> (forall k v, (k, v) ∈ l -> exists n, k = key e n /\ name_ok n) ->
  forall n v, collect (prefix_len e) l !! n = Some v <-> n <> [] /\ name_ok n /\ (key e n, v) ∈ l.
Proof.
  intros He Hnd Hl n v. unfold collect.
  assert (Hacc : forall m : gmap (list Z) (list Z), foldl (fun result q =>
      let name := extract_prop_name q.1 (prefix_len e) in
      if decide (name = []) then result else match result !! name with Some _ => result | None => <[name := q.2]> result end) m l !! n = Some v <->
    m !! n = Some v \/ m !! n = None /\ n <> [] /\ name_ok n /\ (key e n, v) ∈ l).
  2:{ rewrite Hacc, lookup_empty. split; [by intros [?|(_ & ?)]|intros H; by right]. }
  induction l as [|[k0 v0] l IH]; intros m; cbn [foldl fst snd]; cbn zeta.
  { split; [by left|]. intros [?|(_ & _ & _ & Hn)]; [done|by apply elem_of_nil in Hn]. }
  destruct (Hl k0 v0) as (n0 & -> & Hn0); [left|]. cbn [fmap list_fmap fst] in Hnd. apply NoDup_cons in Hnd as [Hk0 Hnd].
  rewrite extract_key by done. rewrite IH; [|done|intros k v' Hk; apply (Hl k v'); by right].
  assert (Hcons : (key e n, v) ∈ (key e n0, v0) :: l <-> n = n0 /\ v = v0 \/ n <> n0 /\ (key e n, v) ∈ l).
  { rewrite elem_of_cons. destruct (decide (n = n0)) as [->|Hne].
    - split; [|intros [[_ ->]|[? _]]; [by left|done]]. intros [[= ->]|Hin]; [by left|]. exfalso. apply Hk0, list_elem_of_fmap. by exists (key e n0, v).
    - split; [|intros [[? _]|[_ ?]]; [done|by right]]. intros [[= E _]|Hin]; [|by right]. by apply (key_inj _ _ _ _ He He) in E as [_ ?]. }
  rewrite Hcons. destruct (decide (n0 = [])) as [->|Hn0e]; [|destruct (m !! n0) as [w|] eqn:Em0].
  - destruct (decide (n = [])) as [->|]; [tauto|]. split; intros [?|(? & ? & ? & ?)]; [by left|right; tauto|by left|right; tauto].
  - split; (intros [?|(Hmn & ? & ? & Hx)]; [by left|right]); [|].
    + assert (n <> n0) by congruence. tauto.
    + assert (n <> n0) by congruence. tauto.
  - destruct (decide (n = n0)) as [->|Hne].
    + rewrite lookup_insert_eq. split; [intros [[= ->]|(? & _)]; [right; tauto|done]|]. intros [?|(_ & _ & _ & [[_ ->]|[? _]])]; [congruence|by left|done].
    + rewrite lookup_insert_ne by done. tauto.
Qed.

(** ** Sequences of calls *)

Inductive op :=
  | OpSet (e : entity) (n v : list Z)
  | OpGet (e : entity) (n : list Z)
  | OpDelete (e : entity) (n : list Z)
  | OpGetAll (e : entity)
  | OpDeleteAll (e : entity)
  | OpSetAll (e : entity) (ps : gmap (list Z) (list Z)).

Inductive result := Done (ok : bool) | Value (v : option (list Z)) | All (m : gmap (list Z) (list Z)).

Definition run_op (o : op) (r : R) : result * R :=
  match o with
  | OpSet (Vertex x) n v => let '(ok, r) := set_vertex_property r x n v in (Done ok, r)
  | OpSet (Edge s d) n v => let '(ok, r) := set_edge_property r s d n v in (Done ok, r)
  | OpGet (Vertex x) n => (Value (get_vertex_property r x n), r)
  | OpGet (Edge s d) n => (Value (get_edge_property r s d n), r)
  | OpDelete (Vertex x) n => let '(ok, r) := delete_vertex_property r x n in (Done ok, r)
  | OpDelete (Edge s d) n => let '(ok, r) := delete_edge_property r s d n in (Done ok, r)
  | OpGetAll (Vertex x) => (All (get_all_vertex_properties r x), r)
  | OpGetAll (Edge s d) => (All (get_all_edge_properties r s d), r)
  | OpDeleteAll (Vertex x) => let '(ok, r) := delete_all_vertex_properties r x in (Done ok, r)
  | OpDeleteAll (Edge s d) => let '(ok, r) := delete_all_edge_properties r s d in (Done ok, r)
  | OpSetAll (Vertex x) ps => let '(ok, r) := set_vertex_properties r x ps in (Done ok, r)
  | OpSetAll (Edge s d) ps => let '(ok, r) := set_edge_properties r s d ps in (Done ok, r)
  end.

Definition op_entity (o : op) : entity :=
  match o with OpSet e _ _ | OpGet e _ | OpDelete e _ | OpGetAll e | OpDeleteAll e | OpSetAll e _ => e end.
Definition op_ok (o : op) : Prop := entity_ok (op_entity o) /\
  match o with OpSet _ n _ => name_ok n | OpSetAll _ ps => forall n v, ps !! n = Some v -> name_ok n | _ => True end.

(** The maps before and after a call with a result: a failed call changes
    nothing. *)
Definition spec_op (o : op) (res : result) (A A' : props) : Prop :=
  match o, res with
  | OpSet e n v, Done ok => A' = if ok then <[(e, n) := v]> A else A
  | OpGet e n, Value v => A' = A /\ v = A !! (e, n)
  | OpDelete e n, Done ok => A' = if ok then delete (e, n) A else A
  | OpGetAll e, All m => A' = A /\ forall n v, m !! n = Some v <-> n <> [] /\ A !! (e, n) = Some v
  | OpDeleteAll e, Done ok => if ok then forall e' n, A' !! (e', n) = (if decide (e' = e) then None else A !! (e', n)) else A' = A
  | OpSetAll e ps, Done ok => if ok then forall e' n, A' !! (e', n) = (if decide (e' = e) then union_with (fun v _ => Some v) (ps !! n) (A !! (e, n)) else A !! (e', n)) else A' = A
  | _, _ => False
  end.

Fixpoint run (ops : list op) (r : R) : list result * R :=
  match ops with
  | [] => ([], r)
  | o :: ops => let '(x, r) := run_op o r in let '(xs, r) := run ops r in (x :: xs, r)
  end.

Inductive spec : list op -> list result -> props -> props -> Prop :=
  | spec_nil A : spec [] [] A A
  | spec_cons o ops x xs A A' A'' : spec_op o x A A' -> spec ops xs A' A'' -> spec (o :: ops) (x :: xs) A A''.

Lemma put_spec r A e n v : shows r A -> entity_ok e -> name_ok n ->
  exists ok r', put r (key e n) v = (ok, r') /\ shows r' (if (ok : bool) then <[(e, n) := v]> A else A).
Proof.
  intros Hs He Hn. unfold put. pose proof (s_write_status r [(key e n, Some v)]) as Hst.
  pose proof (shows_one r A e n (Some v) Hs He (fun _ => Hn)) as H1. pose proof (shows_failed r A [(key e n, Some v)] Hs) as H2.
  destruct (s_write r [(key e n, Some v)]) as [st r']. cbn [fst snd] in *. do 2 eexists. split; [done|].
  destruct st; [by apply H1|done|by apply H2].
Qed.

Lemma del_spec r A e n : shows r A -> entity_ok e ->
  exists ok r', del r (key e n) = (ok, r') /\ shows r' (if (ok : bool) then delete (e, n) A else A).
Proof.
  intros Hs He. unfold del. pose proof (shows_one r A e n None Hs He (fun H => False_ind _ (H eq_refl))) as H1. pose proof (shows_failed r A [(key e n, None)] Hs) as H2.
  destruct (s_write r [(key e n, None)]) as [st r']. cbn [fst snd] in *. do 2 eexists. split; [done|].
  destruct st; [by apply H1|by apply H1|by apply H2].
Qed.

Lemma get_spec r A e n : shows r A -> entity_ok e -> reads_ok r -> get r (key e n) = A !! (e, n).
Proof.
  intros Hs He [Hr _]. unfold get. rewrite <- (shows_key r A) by done. pose proof (s_get_view r (key e n)) as H.
  specialize (Hr (key e n)). destruct (s_get r (key e n)) as [[] v]; cbn in *; done.
Qed.

Lemma get_all_spec r A e : shows r A -> entity_ok e -> reads_ok r ->
  forall n v, collect (prefix_len e) (scan r (prefix e)) !! n = Some v <-> n <> [] /\ A !! (e, n) = Some v.
Proof.
  intros Hs He Hr n v. destruct (scan_spec r A e Hs Hr He) as [Hnd Hin]. rewrite collect_spec; [|done|done|].
  - rewrite Hin. split.
    + intros (H1 & H2 & n' & E & H). by apply (key_inj _ _ _ _ He He) in E as [_ ->].
    + intros [H1 H]. split; [done|]. split; [by apply (proj1 Hs) in H as [_ ?]|]. by exists n.
  - intros k v' Hk. apply Hin in Hk as (n' & -> & H). exists n'. split; [done|]. by apply (proj1 Hs) in H as [_ ?].
Qed.

Lemma find_batch (b : list (list Z * option (list Z))) k :
  match list_find (fun q => q.1 = k) b with
  | Some (_, q) => q.1 = k /\ q ∈ b
  | None => forall v, (k, v) ∉ b
  end.
Proof.
  destruct (list_find _ b) as [[i q]|] eqn:E.
  - apply list_find_Some in E as (Ei & Ek & _). split; [done|]. by eapply list_elem_of_lookup_2.
  - apply list_find_None in E. rewrite Forall_forall in E. intros v Hin. by apply (E (k, v) Hin).
Qed.

Lemma del_all_spec r A e : shows r A -> entity_ok e -> reads_ok r ->
  exists ok r', del_all r (prefix e) = (ok, r') /\ shows r' (if (ok : bool) then filter (fun q => q.1.1 <> e) A else A).
Proof.
  intros Hs He Hr. destruct (scan_spec r A e Hs Hr He) as [Hnd Hin]. unfold del_all. set (b := _ <$> scan r (prefix e)).
  assert (Hnone : b = [] -> shows r (filter (fun q => q.1.1 <> e) A)).
  { intros Hb. apply fmap_nil_inv in Hb. replace (filter _ A) with A; [done|]. symmetry. apply map_filter_id. intros [e' n] v E. cbn. intros ->.
    assert (Hx : (key e n, v) ∈ scan r (prefix e)) by (apply Hin; by exists n). rewrite Hb in Hx. by apply elem_of_nil in Hx. }
  assert (Hsome : (s_write r b).1 <> StatusError -> shows (s_write r b).2 (filter (fun q => q.1.1 <> e) A)).
  { intros Hst. apply (shows_batch r A); [done|done|..].
    - unfold b. rewrite <- list_fmap_compose. exact Hnd.
    - intros e' n He'. pose proof (find_batch b (key e' n)) as Hf. destruct (list_find _ b) as [[i [k v]]|].
      + destruct Hf as [Hk Hq]. cbn in Hk. subst k. unfold b in Hq. apply list_elem_of_fmap in Hq as ([k' v'] & [= <- ->] & Hq). cbn [snd].
        apply Hin in Hq as (n' & Ek & HA). destruct (key_inj _ _ _ _ He' He Ek) as [-> ->]. apply map_lookup_filter_None. right. intros w _. cbn. tauto.
      + destruct (A !! (e', n)) as [w|] eqn:EA; [|apply map_lookup_filter_None; by left]. apply map_lookup_filter_Some. split; [done|]. cbn. intros ->.
        apply (Hf None). unfold b. apply list_elem_of_fmap. exists (key e n, w). split; [done|]. apply Hin. by exists n.
    - intros k v Hq. unfold b in Hq. by apply list_elem_of_fmap in Hq as ([] & [=] & _).
    - intros e' n v [E _]%map_lookup_filter_Some. by apply (proj1 Hs) in E. }
  pose proof (s_write_status r b) as Hst. pose proof (shows_failed r A b Hs) as Hfail.
  destruct b as [|q b']; [exists true, r; split; [done|]; by apply Hnone|].
  destruct (s_write r (q :: b')) as [st r']. cbn [fst snd] in *. do 2 eexists. split; [done|].
  destruct st; [by apply Hsome|done|by apply Hfail].
Qed.

Lemma put_all_spec r A e ps : shows r A -> entity_ok e -> (forall n v, ps !! n = Some v -> name_ok n) ->
  exists ok r', put_all r (key e) ps = (ok, r') /\ shows r' (if (ok : bool) then kmap (pair e) ps ∪ A else A).
Proof.
  intros Hs He Hn. unfold put_all. set (b := _ <$> map_to_list ps).
  assert (Hinj : Inj (=) (=) (pair e : list Z -> entity * list Z)) by by intros ? ? [= ->].
  assert (Hl : forall e' n, (kmap (pair e) ps : props) !! (e', n) = if decide (e' = e) then ps !! n else None).
  { intros e' n. case_decide as E; [subst e'; exact (lookup_kmap (pair e) ps n)|].
    apply (lookup_kmap_None (pair e)). intros n' [= ->]. done. }
  assert (Hsome : (s_write r b).1 <> StatusError -> shows (s_write r b).2 (kmap (pair e) ps ∪ A)).
  { intros Hst. apply (shows_batch r A); [done|done|..].
    - replace (b.*1) with (key e <$> (map_to_list ps).*1) by (unfold b; by rewrite <- !list_fmap_compose).
      assert (Inj (=) (=) (key e)) by (intros n n' E; by apply (key_inj _ _ _ _ He He) in E as [_ ?]).
      apply NoDup_fmap_2; [done|]. apply NoDup_fst_map_to_list.
    - intros e' n He'. rewrite lookup_union, Hl. pose proof (find_batch b (key e' n)) as Hf. destruct (list_find _ b) as [[i [k v]]|].
      + destruct Hf as [Hk Hq]. cbn in Hk. subst k. unfold b in Hq. apply list_elem_of_fmap in Hq as ([n' v'] & [= Ek ->] & Hq). cbn [snd].
        destruct (key_inj _ _ _ _ He' He Ek) as [-> ->]. apply elem_of_map_to_list in Hq. rewrite decide_True, Hq by done. by destruct (A !! _).
      + case_decide as E; [subst e'|by rewrite (left_id_L None _)]. destruct (ps !! n) as [v|] eqn:En; [|by rewrite (left_id_L None _)].
        exfalso. apply (Hf (Some v)). unfold b. apply list_elem_of_fmap. exists (n, v). split; [done|]. by apply elem_of_map_to_list.
    - intros k v Hq. unfold b in Hq. apply list_elem_of_fmap in Hq as ([n w] & [= -> _] & _). by exists e, n.
    - intros e' n v. rewrite lookup_union, Hl. case_decide as E; [subst e'|rewrite (left_id_L None _); apply (proj1 Hs)].
      destruct (ps !! n) as [w|] eqn:En; [|rewrite (left_id_L None _); apply (proj1 Hs)]. intros _. split; [done|]. by eapply Hn. }
  pose proof (s_write_status r b) as Hst. pose proof (shows_failed r A b Hs) as Hfail.
  destruct (s_write r b) as [st r']. cbn [fst snd] in *. do 2 eexists. split; [done|].
  destruct st; [by apply Hsome|done|by apply Hfail].
Qed.

(** One call.  The vertex and the edge functions are the same up to the key. *)
Lemma run_op_eq o r : run_op o r = match o with
  | OpSet e n v => let '(ok, r) := put r (key e n) v in (Done ok, r)
  | OpGet e n => (Value (get r (key e n)), r)
  | OpDelete e n => let '(ok, r) := del r (key e n) in (Done ok, r)
  | OpGetAll e => (All (collect (prefix_len e) (scan r (prefix e))), r)
  | OpDeleteAll e => let '(ok, r) := del_all r (prefix e) in (Done ok, r)
  | OpSetAll e ps => let '(ok, r) := put_all r (key e) ps in (Done ok, r)
  end.
Proof. by destruct o as [[] ? ?|[] ?|[] ?|[]|[]|[] ?]. Qed.

Lemma run_op_spec o r A : shows r A -> op_ok o -> reads_ok r ->
  exists x r' A', run_op o r = (x, r') /\ spec_op o x A A' /\ shows r' A'.
Proof.
  intros Hs [He Ho] Hr. rewrite run_op_eq. destruct o as [e n v|e n|e n|e|e|e ps]; cbn [op_entity] in He.
  - destruct (put_spec r A e n v Hs He Ho) as (ok & r' & -> & H). by eexists _, _, _.
  - eexists _, r, A. split; [done|]. split; [|done]. split; [done|]. by apply get_spec.
  - destruct (del_spec r A e n Hs He) as (ok & r' & -> & H). by eexists _, _, _.
  - eexists _, r, A. split; [done|]. split; [|done]. split; [done|]. by apply get_all_spec.
  - destruct (del_all_spec r A e Hs He Hr) as (ok & r' & -> & H). eexists _, _, _. split; [done|]. split; [|exact H]. destruct ok; [|done].
    intros e' n. case_decide as E; [apply map_lookup_filter_None; right; intros w _; cbn; tauto|].
    destruct (A !! (e', n)) as [w|] eqn:EA; [|apply map_lookup_filter_None; by left]. by apply map_lookup_filter_Some.
  - destruct (put_all_spec r A e ps Hs He Ho) as (ok & r' & -> & H). eexists _, _, _. split; [done|]. split; [|exact H]. destruct ok; [|done].
    intros e' n. rewrite lookup_union. case_decide as E.
    + subst e'. rewrite (lookup_kmap (pair e) ps n : (kmap (pair e) ps : props) !! (e, n) = _). by destruct (ps !! n), (A !! _).
    + replace ((kmap (pair e) ps : props) !! (e', n)) with (@None (list Z)); [by rewrite (left_id_L None _)|].
      symmetry. apply (lookup_kmap_None (pair e)). intros n' [= ->]. done.
Qed.

Lemma run_spec ops : Forall op_ok ops -> (forall r, reads_ok r) -> forall r A, shows r A ->
  exists A', spec ops (run ops r).1 A A' /\ shows (run ops r).2 A'.
Proof.
  intros Hops Hr. induction Hops as [|o ops Ho _ IH]; intros r A Hs; [exists A; by split; [constructor|]|]. cbn [run].
  destruct (run_op_spec o r A Hs Ho (Hr r)) as (x & r' & A' & -> & Hop & Hs'). destruct (IH r' A' Hs') as (A'' & H1 & H2).
  destruct (run ops r') as [xs r'']. exists A''. split; [by econstructor|done].
Qed.

(** C27: the store keeps the properties of every vertex and every edge apart: over
    a RocksDB whose reads succeed and whose writes may fail, any sequence of
    calls gives the results of a map from entities and names to values, in which
    a failed call changes nothing, a deletion of all properties touches only its
    entity, and a listing has all properties of the entity but one without a
    name. *)
Theorem property_store_refines (ops : list op) (r : R) : Forall op_ok ops -> (forall r, reads_ok r) -> s_view r = ∅ ->
  exists A, spec ops (run ops r).1 ∅ A /\ shows (run ops r).2 A.
Proof.
  intros Hops Hr Hv. apply run_spec; [done|done|]. split; [done|]. intros k v. rewrite Hv, lookup_empty.
  split; [done|]. by intros (e & n & _ & [=]).
Qed.

End Refine.

(** ** A store in memory *)

Definition key_le (p q : list Z * list Z) : Prop := bytes_le p.1 q.1 = true.

#[export] Instance key_le_dec : RelDecision key_le.
Proof. intros p q. unfold key_le. apply _. Defined.

Lemma bytes_le_total a b : bytes_le a b = true \/ bytes_le b a = true.
Proof.
  revert b. induction a as [|x a IH]; intros [|y b]; cbn; [by left..|by right|]. destruct (Z.compare_spec x y) as [->|?|?].
  - rewrite Z.eqb_refl, Z.ltb_irrefl. cbn. apply IH.
  - left. by apply orb_true_iff; left; apply Z.ltb_lt.
  - right. by apply orb_true_iff; left; apply Z.ltb_lt.
Qed.

#[export] Instance key_le_total : Total key_le.
Proof. intros p q. apply bytes_le_total. Qed.

(** Batches with an empty value are refused. *)
#[export] Instance memory_store : OrderedStore (gmap (list Z) (list Z)).
Proof.
  refine {| s_view := id;
    s_get m k := match m !! k with Some v => (StatusOk, v) | None => (NotFound, []) end;
    s_write m b := if decide (Exists (fun q => q.2 = Some []) b) then (StatusError, m)
      else (StatusOk, foldl (fun m q => match q.2 with Some v => <[q.1 := v]> m | None => delete q.1 m end) m b);
    s_from m k := (merge_sort key_le (filter (fun q => bytes_le k q.1 = true) (map_to_list m)), true) |}.
  - intros m k. cbn. by destruct (m !! k).
  - intros m b. cbn. destruct (decide (Exists _ b)); [by rewrite decide_True|by rewrite decide_False].
  - intros m b. by destruct (decide (Exists _ b)).
  - intros m k _. cbn. split; [apply (Sorted_merge_sort key_le)|apply merge_sort_Permutation].
Defined.

(** Vertex 1, vertex 256 and the edge from 1 to 256; one write is refused. *)
Definition sample_ops : list op :=
  [OpSet (Vertex 1) [7] [42]; OpSet (Vertex 256) [7] [43]; OpSet (Edge 1 256) [8; 9] [44]; OpSet (Vertex 1) [5] [];
   OpSetAll (Vertex 1) {[ [6] := [1]; [] := [2] ]}; OpGetAll (Vertex 1); OpDeleteAll (Vertex 256); OpGet (Edge 1 256) [8; 9]; OpGet (Vertex 256) [7]].

Lemma property_store_refines_witness :
  (run sample_ops (∅ : gmap (list Z) (list Z))).1 =
    [Done true; Done true; Done true; Done false; Done true; All {[ [6] := [1]; [7] := [42] ]}; Done true; Value (Some [44]); Value None] /\
  exists A, spec sample_ops (run sample_ops (∅ : gmap (list Z) (list Z))).1 ∅ A /\ shows (run sample_ops (∅ : gmap (list Z) (list Z))).2 A.
Proof.
  split; [vm_compute; reflexivity|]. apply (property_store_refines (R := gmap (list Z) (list Z)) sample_ops ∅).
  - repeat apply Forall_cons_2; try apply Forall_nil_2; (split; [unfold entity_ok, in_width; cbn; lia|]); try (unfold name_ok; cbn; lia); try done.
    intros n v E. apply lookup_insert_Some in E as [[<- _]|[_ E]]; [by unfold name_ok; cbn|].
    apply lookup_singleton_Some in E as [<- _]. by unfold name_ok; cbn.
  - intros m. split; [|done]. intros k. cbn. by destruct (m !! k).
  - reflexivity.
Defined.

End PropStore.
