(* ===== verification/MemGraph.v ===== *)
(** * Graphs in memory: the common interface

    [mem_graph_i] (src/include/bw_graph/mem/graph.h) is implemented by the
    mutable map graph (MapGraph.v), by the compressed graph over arbitrary
    identifiers (CsrGraph.v) and by the compressed graph over the identifiers
    below a bound (ComGraph.v).  The class [mem_graph_i] holds the interface's
    operations, [MemGraphSpec] what its callers rely on: every query is
    determined by [to_map].  The theorems of a client are proved from the class.

    The containers' iteration order, which the code leaves to the hash map, is
    that of [map_to_list]; lists of vertices are only compared up to order.
    The file also holds the searches of the C++ library the graphs use. *)

From S2P Require Import Prelude.

Local Open Scope Z_scope.

Module MemGraph.

Abbreviation adj_map_t := (gmap Z (list Z)).

(** ** [std::lower_bound] and [std::binary_search]

    The bisection of the library over the range of [len] elements that starts
    at [first]; the result is a position. *)
Fixpoint lower_bound_loop (fuel : nat) (l : list Z) (v : Z) (first len : nat) : nat :=
  match fuel with
  | O => first
  | S fuel =>
    match len with
    | O => first
    | _ =>
      let half := Nat.div2 len in
      let middle := (first + half)%nat in
      if default 0 (l !! middle) <? v then lower_bound_loop fuel l v (S middle) (len - half - 1)
      else lower_bound_loop fuel l v first half
    end
  end.

Definition lower_bound (l : list Z) (v : Z) : nat := lower_bound_loop (S (length l)) l v 0 (length l).

Definition binary_search (l : list Z) (v : Z) : bool :=
  match l !! lower_bound l v with
  | Some x => negb (v <? x)
  | None => false
  end.

Definition sorted (l : list Z) : Prop := StronglySorted Z.le l.

Definition sort (l : list Z) : list Z := merge_sort Z.le l.

(** The positions before [i] hold smaller values, those from [i] on do not. *)
Definition splits (l : list Z) (v : Z) (i : nat) : Prop :=
  forall j x, l !! j = Some x -> if decide (j < i)%nat then x < v else v <= x.

Lemma sorted_lookup l i j x y : sorted l -> (i <= j)%nat -> l !! i = Some x -> l !! j = Some y -> x <= y.
Proof.
  intros Hs. revert i j. induction Hs as [|a l Hs IH Ha]; intros i j Hij Hi Hj; [done|].
  destruct i as [|i], j as [|j]; cbn in Hi, Hj; try lia.
  - injection Hi as ->. injection Hj as ->. lia.
  - injection Hi as ->. rewrite Forall_lookup in Ha. by eapply Ha.
  - apply (IH i j); [lia|done..].
Qed.

Lemma sort_sorted l : sorted (sort l).
Proof. apply StronglySorted_merge_sort; [intros x y z; lia|apply _]. Qed.

Lemma sort_perm l : sort l ≡ₚ l.
Proof. apply merge_sort_Permutation. Qed.

Lemma sort_elem l x : x ∈ sort l <-> x ∈ l.
Proof. by rewrite sort_perm. Qed.

Lemma length_sort l : length (sort l) = length l.
Proof. by rewrite sort_perm. Qed.

(** Sorted lists with the same elements are equal. *)
Lemma sorted_perm_eq l k : sorted l -> sorted k -> l ≡ₚ k -> l = k.
Proof. apply StronglySorted_unique. intros x y; lia. Qed.

Lemma sort_id l : sorted l -> sort l = l.
Proof. intros. apply sorted_perm_eq; [apply sort_sorted|done|apply sort_perm]. Qed.

Lemma sort_NoDup l : NoDup l -> NoDup (sort l).
Proof. by rewrite sort_perm. Qed.

Lemma sorted_filter (P : Z -> Prop) `{!forall x, Decision (P x)} l : sorted l -> sorted (filter P l).
Proof.
  induction 1 as [|a l Hs IH Ha]; [constructor|]. rewrite filter_cons. case_decide; [|done].
  constructor; [done|]. rewrite Forall_forall in *. intros x [_ Hx]%list_elem_of_filter. by apply Ha.
Qed.

Lemma lower_bound_loop_splits l v : sorted l -> forall fuel first len, (len < fuel)%nat -> (first + len <= length l)%nat ->
  (forall j x, l !! j = Some x -> (j < first)%nat -> x < v) ->
  (forall j x, l !! j = Some x -> (first + len <= j)%nat -> v <= x) ->
  splits l v (lower_bound_loop fuel l v first len) /\ (lower_bound_loop fuel l v first len <= length l)%nat.
Proof.
  intros Hs fuel. induction fuel as [|fuel IH]; intros first len Hf Hl Hlo Hhi; [lia|]. cbn [lower_bound_loop].
  destruct len as [|len].
  { split; [|lia]. intros j x Hj. destruct (decide (j < first)%nat); [by eapply Hlo|]. eapply Hhi; [done|lia]. }
  pose proof (Nat.lt_div2 (S len) ltac:(lia)) as Hh. set (half := Nat.div2 (S len)) in *.
  destruct (lookup_lt_is_Some_2 l (first + half)) as [y Hy]; [lia|]. rewrite Hy. cbn [default from_option id].
  destruct (Z.ltb_spec y v).
  - apply IH; [lia|lia|..]; intros j x Hj Hx.
    + assert (x <= y) by (eapply (sorted_lookup l j); [done| |done..]; lia). lia.
    + eapply Hhi; [done|lia].
  - apply IH; [lia|lia|done|]. intros j x Hj Hx.
    assert (y <= x) by (eapply (sorted_lookup l (first + half) j); [done| |done..]; lia). lia.
Qed.

Lemma lower_bound_splits l v : sorted l -> splits l v (lower_bound l v).
Proof.
  intros Hs. apply lower_bound_loop_splits; [done|lia|lia|lia|]. intros j x Hj Hx. apply lookup_lt_Some in Hj. lia.
Qed.

(** On a sorted range the search decides membership. *)
Lemma binary_search_spec l v : sorted l -> binary_search l v = bool_decide (v ∈ l).
Proof.
  intros Hs. pose proof (lower_bound_splits l v Hs) as Hsp. unfold binary_search. symmetry.
  destruct (l !! lower_bound l v) as [x|] eqn:E.
  - pose proof (Hsp _ _ E) as Hx. rewrite decide_False in Hx by lia. destruct (Z.ltb_spec v x); cbn [negb].
    + apply bool_decide_eq_false. intros [j Hj]%list_elem_of_lookup. pose proof (Hsp _ _ Hj) as Hv.
      case_decide; [lia|]. assert (x <= v) by (eapply (sorted_lookup l (lower_bound l v) j); [done| |done..]; lia). lia.
    + apply bool_decide_eq_true. replace v with x by lia. by eapply list_elem_of_lookup_2.
  - apply bool_decide_eq_false. intros [j Hj]%list_elem_of_lookup. pose proof (Hsp _ _ Hj) as Hv.
    apply lookup_ge_None in E. apply lookup_lt_Some in Hj. rewrite decide_True in Hv by lia. lia.
Qed.

(** ** Slices of an array given by its offsets *)

Definition slice {A} (l : list A) (start stop : nat) : list A := take (stop - start) (drop start l).

(** Lists stored one after the other are found between their offsets. *)
Lemma slice_mjoin {A} (ls : list (list A)) i l : ls !! i = Some l ->
  slice (mjoin ls) (sum_list (length <$> take i ls)) (sum_list (length <$> take (S i) ls)) = l.
Proof.
  revert i. induction ls as [|k ls IH]; intros i Hi; [done|]. change (mjoin (k :: ls)) with (k ++ mjoin ls).
  destruct i as [|i]; cbn in Hi.
  - injection Hi as ->. change (slice (l ++ mjoin ls) 0 (length l + 0) = l). unfold slice.
    by rewrite Nat.sub_0_r, Nat.add_0_r, drop_0, take_app_length.
  - specialize (IH i Hi). rename l into x. set (start := sum_list (length <$> take i ls)) in *.
    set (stop := sum_list (length <$> take (S i) ls)) in *.
    change (slice (k ++ mjoin ls) (length k + start) (length k + stop) = x). unfold slice in *.
    rewrite drop_app_ge by lia. rewrite <- IH. f_equal; [lia|f_equal; lia].
Qed.

(** ** Edges counted by an adjacency map *)

Definition edge_total (m : adj_map_t) : nat := map_fold (fun _ ns n => (length ns + n)%nat) 0%nat m.

Lemma edge_total_empty : edge_total ∅ = 0%nat.
Proof. apply map_fold_empty. Qed.

Lemma edge_total_insert m v ns : m !! v = None -> edge_total (<[v := ns]> m) = (length ns + edge_total m)%nat.
Proof. intros Hv. unfold edge_total. rewrite map_fold_insert_L; [done|intros; lia|done]. Qed.

Lemma edge_total_delete m v ns : m !! v = Some ns -> edge_total m = (length ns + edge_total (delete v m))%nat.
Proof. intros Hv. rewrite <- (insert_delete_id m v ns Hv) at 1. by rewrite edge_total_insert by apply lookup_delete_eq. Qed.

Lemma edge_total_list m : edge_total m = sum_list (length <$> (map_to_list m).*2).
Proof.
  induction m as [|v ns m Hv IH] using map_ind; [done|].
  rewrite edge_total_insert, IH by done. rewrite (map_to_list_insert m v ns Hv). done.
Qed.

(** The edges as pairs. *)
Definition edge_list (m : adj_map_t) : list (Z * Z) := map_to_list m ≫= fun q => pair q.1 <$> q.2.

Lemma edge_list_elem m u v : (u, v) ∈ edge_list m <-> v ∈ default [] (m !! u).
Proof.
  unfold edge_list. rewrite list_elem_of_bind. split.
  - intros ([w ns] & (x & [= -> ->] & Hx)%list_elem_of_fmap & Hw%elem_of_map_to_list). cbn in Hx, Hw. by rewrite Hw.
  - destruct (m !! u) as [ns|] eqn:E; cbn; [|by intros ?%not_elem_of_nil]. intros Hv. exists (u, ns).
    split; [by apply list_elem_of_fmap_2|by apply elem_of_map_to_list].
Qed.

Lemma edge_list_NoDup m : map_Forall (fun _ ns => NoDup ns) m -> NoDup (edge_list m).
Proof.
  intros Hm. apply NoDup_bind; [|intros [u ns] Hu%elem_of_map_to_list|apply NoDup_map_to_list].
  - intros [u ns] [u' ns'] [x y] H1%elem_of_map_to_list H2%elem_of_map_to_list (? & [= -> ->] & _)%list_elem_of_fmap (? & [= -> _] & _)%list_elem_of_fmap.
    by simplify_eq.
  - apply NoDup_fmap_2; [apply _|]. by apply (Hm u).
Qed.

Lemma length_edge_list m : length (edge_list m) = edge_total m.
Proof.
  rewrite edge_total_list. unfold edge_list. induction (map_to_list m) as [|q l IH]; [done|].
  cbn. rewrite length_app, length_fmap. f_equal. exact IH.
Qed.

(** ** The distribution of degrees

    [compute_degree_distribution] of the map graph and of the contiguous graph
    run the same code over the degrees of their vertices; [percentage] is the
    double computed from a bucket's count and the number of vertices. *)
Section Distribution.
Context {Q : Type} (percentage : Z -> Z -> Q).

Definition degree_counts (step : Z) (degrees : list Z) : list Z :=
  let max_degree := foldl Z.max 0 degrees in
  let num_buckets := max_degree `div` step + 1 in
  foldl (fun counts degree => alter Z.succ (Z.to_nat (degree `div` step)) counts)
    (replicate (Z.to_nat num_buckets) 0) degrees.

Definition degree_distribution (step : Z) (degrees : list Z) : list (Z * Q) :=
  if (Z.of_nat (length degrees) =? 0) || (step =? 0) then []
  else
    let counts := degree_counts step degrees in
    omap (fun q => if 0 <? q.2 then Some (Z.of_nat q.1 * step, percentage q.2 (Z.of_nat (length degrees))) else None)
      (imap pair counts).

Lemma count_degrees step degrees counts b : 0 < step -> Forall (fun d => 0 <= d /\ (Z.to_nat (d `div` step) < length counts)%nat) degrees ->
  foldl (fun counts degree => alter Z.succ (Z.to_nat (degree `div` step)) counts) counts degrees !! b =
  (fun c => c + count (fun d => bool_decide (Z.to_nat (d `div` step) = b)) degrees) <$> counts !! b.
Proof.
  intros Hstep. revert counts. induction degrees as [|d ds IH]; intros counts Hd; cbn [foldl].
  - destruct (counts !! b); [|done]. cbn. f_equal. unfold count. cbn. lia.
  - apply Forall_cons in Hd as [[Hd0 Hd] Hds]. rewrite IH.
    + rewrite count_cons. case_bool_decide as Hb.
      * subst b. rewrite list_lookup_alter_eq. destruct (counts !! _); [|done]. cbn. f_equal. lia.
      * rewrite list_lookup_alter_ne by done. destruct (counts !! b); [|done]. cbn. f_equal.
    + by rewrite length_alter.
Qed.

(** The bucket of a degree holds the number of vertices with a degree in the
    bucket's range. *)
Lemma degree_counts_spec step degrees b : 0 < step -> Forall (Z.le 0) degrees ->
  (b < length (degree_counts step degrees))%nat ->
  degree_counts step degrees !! b = Some (count (fun d => bool_decide (Z.to_nat (d `div` step) = b)) degrees).
Proof.
  intros Hstep Hpos. unfold degree_counts. set (n := Z.to_nat (_ + 1)).
  assert (Hmax : forall a, 0 <= a -> a <= foldl Z.max a degrees /\ Forall (fun d => d <= foldl Z.max a degrees) degrees).
  { induction Hpos as [|d ds Hd Hds IH]; intros a Ha; cbn [foldl]; [split; [lia|constructor]|].
    destruct (IH (Z.max a d)) as [H1 H2]; [lia|]. split; [lia|]. constructor; [lia|done]. }
  destruct (Hmax 0) as [Hm0 Hm]; [lia|].
  assert (Hb : Forall (fun d => 0 <= d /\ (Z.to_nat (d `div` step) < length (replicate n 0%Z))%nat) degrees).
  { rewrite Forall_forall in *. intros d Hd. split; [by apply Hpos|]. rewrite length_replicate. unfold n.
    specialize (Hm d Hd). specialize (Hpos d Hd). pose proof (Z.div_le_mono d _ step Hstep Hm).
    pose proof (Z.div_pos d step Hpos Hstep). lia. }
  pose proof (count_degrees step degrees (replicate n 0) b Hstep Hb) as Hc. intros Hlen.
  rewrite Hc. apply lookup_lt_is_Some_2 in Hlen. rewrite Hc in Hlen. destruct (replicate n 0 !! b) as [x|] eqn:E; [|by destruct Hlen].
  apply lookup_replicate in E as [-> _]. done.
Qed.

End Distribution.

End MemGraph.

(** ** The interface *)

Import MemGraph.

Class mem_graph_i (G : Type) := {
  get_neighbors : G -> Z -> list Z;
  has_vertex : G -> Z -> bool;
  has_edge : G -> Z -> Z -> bool;
  vertex_list : G -> list Z;
  to_map : G -> adj_map_t;
  vertex_count : G -> Z;
  (** Counting may update a cache of the graph. *)
  edge_count : G -> Z * G
}.

(** What callers rely on, for a graph in the states [wf] describes. *)
Class MemGraphSpec (G : Type) `{!mem_graph_i G} := {
  wf : G -> Prop;
  get_neighbors_spec : forall g v, wf g -> get_neighbors g v = default [] (to_map g !! v);
  has_vertex_spec : forall g v, wf g -> has_vertex g v = bool_decide (is_Some (to_map g !! v));
  has_edge_spec : forall g u v, wf g -> has_edge g u v = bool_decide (v ∈ default [] (to_map g !! u));
  vertex_list_spec : forall g, wf g -> vertex_list g ≡ₚ (map_to_list (to_map g)).*1;
  vertex_count_spec : forall g, wf g -> vertex_count g = Z.of_nat (size (to_map g));
  edge_count_spec : forall g, wf g -> (edge_count g).1 = Z.of_nat (edge_total (to_map g));
  edge_count_keeps : forall g, wf g -> wf (edge_count g).2 /\ to_map (edge_count g).2 = to_map g
}.

Module SameAnswers.

(** Two graphs give a caller the same answers. *)
Record same_answers {G1 G2} `{!mem_graph_i G1, !mem_graph_i G2} (g1 : G1) (g2 : G2) : Prop := {
  sa_neighbors : forall v, get_neighbors g1 v = get_neighbors g2 v;
  sa_vertex : forall v, has_vertex g1 v = has_vertex g2 v;
  sa_edge : forall u v, has_edge g1 u v = has_edge g2 u v;
  sa_vertices : vertex_list g1 ≡ₚ vertex_list g2;
  sa_map : to_map g1 = to_map g2;
  sa_vertex_count : vertex_count g1 = vertex_count g2;
  sa_edge_count : (edge_count g1).1 = (edge_count g2).1
}.

Section Same.
Context {G1 G2 : Type} `{!mem_graph_i G1, !MemGraphSpec G1, !mem_graph_i G2, !MemGraphSpec G2}.

(** The map of a graph determines every answer, whatever the implementation. *)
Lemma same_map_answers (g1 : G1) (g2 : G2) : wf g1 -> wf g2 -> to_map g1 = to_map g2 -> same_answers g1 g2.
Proof.
  intros H1 H2 Hm. split; intros.
  - by rewrite !get_neighbors_spec, Hm.
  - by rewrite !has_vertex_spec, Hm.
  - by rewrite !has_edge_spec, Hm.
  - by rewrite !vertex_list_spec, Hm.
  - done.
  - by rewrite !vertex_count_spec, Hm.
  - by rewrite !edge_count_spec, Hm.
Qed.

End Same.

End SameAnswers.
