(* ===== verification/MapGraph.v ===== *)
(** * The mutable graph in memory

    [mem_sub_map_t] (src/include/bw_graph/mem/mem_g0map.h, src/src/mem_g0map.cc):
    a hash map from vertices to neighbour vectors with a cached number of
    edges.  The abstract specification is a finite directed graph, a set of
    vertices and a set of edges between them; every operation is shown to
    implement the specification's.  The hash map's values are vectors changed
    in place by position; their sums of lengths stay below [2^64] since the
    vectors are in memory. *)

From S2P Require Import Prelude Config CsrPage MemGraph.

Local Open Scope Z_scope.

Module MapGraph.
Import MemGraph.

Record mem_sub_map_t := SubMap {
  adjacency_map : adj_map_t;
  total_edges : Z;
  edge_count_valid : bool
}.

Definition new_sub_map : mem_sub_map_t := SubMap ∅ 0 true.

(** ** Helpers on neighbour vectors *)

Definition has_neighbor (neighbors : list Z) (target_id : Z) : bool := bool_decide (target_id ∈ neighbors).

(** Erases the first occurrence; [false] when there is none. *)
Fixpoint remove_neighbor (neighbors : list Z) (target_id : Z) : bool * list Z :=
  match neighbors with
  | [] => (false, [])
  | n :: ns => if n =? target_id then (true, ns) else let '(b, ns') := remove_neighbor ns target_id in (b, n :: ns')
  end.

(** ** Construction *)

Definition update_edge_count (g : mem_sub_map_t) : mem_sub_map_t :=
  SubMap (adjacency_map g) (Z.of_nat (edge_total (adjacency_map g))) true.

Definition of_adj_map (adj_map : adj_map_t) : mem_sub_map_t := update_edge_count (SubMap adj_map 0 false).

(** The graph of a page; the vertex array holds byte offsets and
    [get_neighbors] expects a position of the vertex array. *)
Definition from_csr_page `{Config} (page : Csr.csr_page_t) : mem_sub_map_t :=
  let lists := (fun v => (Csr.vertex_id v, Csr.get_neighbors page (u16 (Csr.offset v)))) <$> Csr.get_vertices page in
  SubMap (foldl (fun m q => <[q.1 := q.2]> m) ∅ lists)
         (Z.of_nat (sum_list (length <$> lists.*2))) true.

(** ** Queries *)

Definition map_get_neighbors (g : mem_sub_map_t) (vertex_id : Z) : list Z :=
  match adjacency_map g !! vertex_id with Some ns => ns | None => [] end.

Definition get_neighbors_ref (g : mem_sub_map_t) (vertex_id : Z) : list Z :=
  match adjacency_map g !! vertex_id with Some ns => ns | None => [] end.

Definition map_has_vertex (g : mem_sub_map_t) (vertex_id : Z) : bool := bool_decide (is_Some (adjacency_map g !! vertex_id)).

Definition map_has_edge (g : mem_sub_map_t) (src_id dst_id : Z) : bool :=
  match adjacency_map g !! src_id with Some ns => has_neighbor ns dst_id | None => false end.

Definition map_vertex_list (g : mem_sub_map_t) : list Z := (map_to_list (adjacency_map g)).*1.

Definition map_vertex_count (g : mem_sub_map_t) : Z := Z.of_nat (size (adjacency_map g)).

Definition map_edge_count (g : mem_sub_map_t) : Z * mem_sub_map_t :=
  let g := if edge_count_valid g then g else update_edge_count g in (total_edges g, g).

#[export] Instance map_graph : mem_graph_i mem_sub_map_t := {
  get_neighbors := map_get_neighbors;
  has_vertex := map_has_vertex;
  has_edge := map_has_edge;
  vertex_list := map_vertex_list;
  to_map := adjacency_map;
  vertex_count := map_vertex_count;
  edge_count := map_edge_count
}.

(** ** Changes *)

Definition add_vertex (g : mem_sub_map_t) (vertex_id : Z) : bool * mem_sub_map_t :=
  if map_has_vertex g vertex_id then (false, g)
  else (true, SubMap (<[vertex_id := []]> (adjacency_map g)) (total_edges g) (edge_count_valid g)).

Definition add_edge (g : mem_sub_map_t) (src_id dst_id : Z) : bool * mem_sub_map_t :=
  let g := if map_has_vertex g src_id then g else (add_vertex g src_id).2 in
  let g := if map_has_vertex g dst_id then g else (add_vertex g dst_id).2 in
  let neighbors := default [] (adjacency_map g !! src_id) in
  if has_neighbor neighbors dst_id then (false, g)
  else (true, SubMap (<[src_id := neighbors ++ [dst_id]]> (adjacency_map g)) (total_edges g) false).

Definition remove_vertex (g : mem_sub_map_t) (vertex_id : Z) : bool * mem_sub_map_t :=
  match adjacency_map g !! vertex_id with
  | None => (false, g)
  | Some _ =>
    let others := map_imap (fun v ns => Some (if v =? vertex_id then ns else (remove_neighbor ns vertex_id).2)) (adjacency_map g) in
    (true, SubMap (delete vertex_id others) (total_edges g) false)
  end.

Definition remove_edge (g : mem_sub_map_t) (src_id dst_id : Z) : bool * mem_sub_map_t :=
  match adjacency_map g !! src_id with
  | None => (false, g)
  | Some ns =>
    let '(found, ns') := remove_neighbor ns dst_id in
    if found then (true, SubMap (<[src_id := ns']> (adjacency_map g)) (total_edges g) false) else (false, g)
  end.

Definition clear (g : mem_sub_map_t) : mem_sub_map_t := SubMap ∅ 0 true.

Definition compute_degree_distribution {Q} (percentage : Z -> Z -> Q) (step : Z) (g : mem_sub_map_t) : list (Z * Q) :=
  degree_distribution percentage step (Z.of_nat ∘ length <$> (map_to_list (adjacency_map g)).*2).

(** ** A caller's sequence of operations *)

Inductive op :=
  | AddVertex (v : Z) | AddEdge (u v : Z) | RemoveVertex (v : Z) | RemoveEdge (u v : Z) | Clear
  | HasVertex (v : Z) | HasEdge (u v : Z) | GetNeighbors (v : Z) | VertexList | VertexCount | EdgeCount.

Inductive out := OUnit | OBool (b : bool) | ONum (n : Z) | OList (l : list Z).

Definition run_op (o : op) (g : mem_sub_map_t) : out * mem_sub_map_t :=
  match o with
  | AddVertex v => let '(b, g) := add_vertex g v in (OBool b, g)
  | AddEdge u v => let '(b, g) := add_edge g u v in (OBool b, g)
  | RemoveVertex v => let '(b, g) := remove_vertex g v in (OBool b, g)
  | RemoveEdge u v => let '(b, g) := remove_edge g u v in (OBool b, g)
  | Clear => (OUnit, clear g)
  | HasVertex v => (OBool (map_has_vertex g v), g)
  | HasEdge u v => (OBool (map_has_edge g u v), g)
  | GetNeighbors v => (OList (map_get_neighbors g v), g)
  | VertexList => (OList (map_vertex_list g), g)
  | VertexCount => (ONum (map_vertex_count g), g)
  | EdgeCount => let '(n, g) := map_edge_count g in (ONum n, g)
  end.

Fixpoint run_ops (ops : list op) (g : mem_sub_map_t) : list out * mem_sub_map_t :=
  match ops with
  | [] => ([], g)
  | o :: ops => let '(x, g) := run_op o g in let '(xs, g) := run_ops ops g in (x :: xs, g)
  end.

(** ** The specification: a finite directed graph *)

Record digraph := Digraph { verts : gset Z; edges : gset (Z * Z) }.

Definition touches (v : Z) (e : Z * Z) : bool := (e.1 =? v) || (e.2 =? v).

Definition targets (d : digraph) (u : Z) : gset Z := set_map snd (filter (fun e => e.1 = u) (edges d)).

Definition spec_op (d : digraph) (o : op) : digraph :=
  match o with
  | AddVertex v => Digraph ({[v]} ∪ verts d) (edges d)
  | AddEdge u v => Digraph ({[u; v]} ∪ verts d) ({[(u, v)]} ∪ edges d)
  | RemoveVertex v => Digraph (verts d ∖ {[v]}) (filter (fun e => touches v e = false) (edges d))
  | RemoveEdge u v => Digraph (verts d) (edges d ∖ {[(u, v)]})
  | Clear => Digraph ∅ ∅
  | _ => d
  end.

(** A list enumerates a set: every element once. *)
Definition enumerates (l : list Z) (s : gset Z) : Prop := NoDup l /\ forall x, x ∈ l <-> x ∈ s.

Definition spec_out (d : digraph) (o : op) (x : out) : Prop :=
  match o, x with
  | AddVertex v, OBool b => b = bool_decide (v ∉ verts d)
  | AddEdge u v, OBool b => b = bool_decide ((u, v) ∉ edges d)
  | RemoveVertex v, OBool b => b = bool_decide (v ∈ verts d)
  | RemoveEdge u v, OBool b => b = bool_decide ((u, v) ∈ edges d)
  | Clear, OUnit => True
  | HasVertex v, OBool b => b = bool_decide (v ∈ verts d)
  | HasEdge u v, OBool b => b = bool_decide ((u, v) ∈ edges d)
  | GetNeighbors v, OList l => enumerates l (targets d v)
  | VertexList, OList l => enumerates l (verts d)
  | VertexCount, ONum n => n = Z.of_nat (size (verts d))
  | EdgeCount, ONum n => n = Z.of_nat (size (edges d))
  | _, _ => False
  end.

Fixpoint spec_run (d : digraph) (ops : list op) : digraph :=
  match ops with [] => d | o :: ops => spec_run (spec_op d o) ops end.

Fixpoint spec_outs (d : digraph) (ops : list op) (xs : list out) : Prop :=
  match ops, xs with
  | [], [] => True
  | o :: ops, x :: xs => spec_out d o x /\ spec_outs (spec_op d o) ops xs
  | _, _ => False
  end.

(** ** The refinement *)

Definition cache_ok (g : mem_sub_map_t) : Prop :=
  edge_count_valid g = true -> total_edges g = Z.of_nat (edge_total (adjacency_map g)).

Record refines (g : mem_sub_map_t) (d : digraph) : Prop := {
  rf_verts : forall v, v ∈ verts d <-> is_Some (adjacency_map g !! v);
  rf_nodup : map_Forall (fun _ ns => NoDup ns) (adjacency_map g);
  rf_edges : forall u v, (u, v) ∈ edges d <-> v ∈ default [] (adjacency_map g !! u);
  rf_closed : forall u v, (u, v) ∈ edges d -> v ∈ verts d;
  rf_cache : cache_ok g
}.

#[export] Program Instance map_graph_spec : MemGraphSpec mem_sub_map_t := {| wf := cache_ok |}.
Next Obligation. intros g v _. cbn. unfold map_get_neighbors. by destruct (_ !! v). Qed.
Next Obligation. done. Qed.
Next Obligation.
  intros g u v _. cbn. unfold map_has_edge, has_neighbor. destruct (_ !! u); [done|]. symmetry. apply bool_decide_eq_false, not_elem_of_nil.
Qed.
Next Obligation. done. Qed.
Next Obligation. done. Qed.
Next Obligation.
  intros g Hg. cbn. unfold map_edge_count. destruct (edge_count_valid g) eqn:E; [by apply Hg|done].
Qed.
Next Obligation.
  intros g Hg. cbn. unfold map_edge_count. destruct (edge_count_valid g) eqn:E; [done|]. split; [by intros _|done].
Qed.

Lemma of_adj_map_wf m : wf (of_adj_map m) /\ to_map (of_adj_map m) = m.
Proof. split; [by intros _|done]. Qed.

Lemma remove_neighbor_spec ns v : NoDup ns ->
  (remove_neighbor ns v).1 = bool_decide (v ∈ ns) /\ NoDup (remove_neighbor ns v).2 /\
  (forall x, x ∈ (remove_neighbor ns v).2 <-> x ∈ ns /\ x <> v).
Proof.
  induction 1 as [|n ns Hn Hnd IH]; cbn [remove_neighbor].
  - split; [done|]. split; [constructor|]. intros x. cbn. set_solver.
  - destruct (Z.eqb_spec n v) as [->|Hne].
    + split; [symmetry; apply bool_decide_eq_true; set_solver|]. split; [done|]. intros x. cbn. set_solver.
    + destruct (remove_neighbor ns v) as [b ns']. destruct IH as (H1 & H2 & H3). cbn in *. split; [|split].
      * rewrite H1. apply bool_decide_ext. set_solver.
      * constructor; [|done]. rewrite H3. tauto.
      * intros x. rewrite !elem_of_cons, H3. set_solver.
Qed.

Section Refine.
Variables (g : mem_sub_map_t) (d : digraph).
Hypothesis Hr : refines g d.

Lemma rf_has v : map_has_vertex g v = bool_decide (v ∈ verts d).
Proof. apply bool_decide_ext. by rewrite (rf_verts _ _ Hr). Qed.

Lemma rf_count : edge_total (adjacency_map g) = size (edges d).
Proof.
  rewrite <- length_edge_list. assert (edges d = list_to_set (edge_list (adjacency_map g))) as ->.
  { apply set_eq. intros [u v]. by rewrite elem_of_list_to_set, edge_list_elem, (rf_edges _ _ Hr). }
  by rewrite size_list_to_set by apply edge_list_NoDup, (rf_nodup _ _ Hr).
Qed.

Lemma rf_source u v : (u, v) ∈ edges d -> u ∈ verts d.
Proof. rewrite (rf_edges _ _ Hr), (rf_verts _ _ Hr). destruct (_ !! u); [done|]. by intros ?%not_elem_of_nil. Qed.

Lemma rf_targets u : enumerates (map_get_neighbors g u) (targets d u).
Proof.
  unfold map_get_neighbors. split.
  - destruct (_ !! u) eqn:E; [by eapply (rf_nodup _ _ Hr)|constructor].
  - intros x. trans ((u, x) ∈ edges d).
    2:{ unfold targets. rewrite elem_of_map. split; [intros; exists (u, x); set_solver|intros ([a b] & -> & [? ?]%elem_of_filter); cbn in *; by subst]. }
    rewrite (rf_edges _ _ Hr). by destruct (_ !! u).
Qed.

Lemma rf_add_vertex v : (add_vertex g v).1 = bool_decide (v ∉ verts d) /\ refines (add_vertex g v).2 (spec_op d (AddVertex v)).
Proof.
  unfold add_vertex. rewrite rf_has. destruct (decide (v ∈ verts d)) as [Hv|Hv].
  - rewrite (bool_decide_true (v ∈ _)), (bool_decide_false (v ∉ _)) by auto. split; [done|]. replace (spec_op d _) with d; [done|]. destruct d. cbn in *. f_equal. set_solver.
  - rewrite (bool_decide_false (v ∈ _)), (bool_decide_true (v ∉ _)) by auto. split; [done|]. assert (Hn : adjacency_map g !! v = None).
    { apply eq_None_not_Some. by rewrite <- (rf_verts _ _ Hr). }
    split; cbn.
    + intros w. rewrite lookup_insert_is_Some', elem_of_union, elem_of_singleton, (rf_verts _ _ Hr). naive_solver.
    + apply map_Forall_insert_2; [constructor|apply Hr].
    + intros u w. rewrite (rf_edges _ _ Hr). destruct (decide (u = v)) as [->|]; [by rewrite lookup_insert_eq, Hn|by rewrite lookup_insert_ne].
    + intros u w ?%(rf_closed _ _ Hr). set_solver.
    + intros Hc. cbn. rewrite edge_total_insert by done. by apply (rf_cache _ _ Hr).
Qed.

End Refine.

(** Replacing the list of one vertex. *)
Lemma rf_set g d v old ns es c : refines g d -> adjacency_map g !! v = Some old -> NoDup ns ->
  (forall x, x ∈ ns -> x ∈ verts d) -> (forall u x, (u, x) ∈ es <-> if decide (u = v) then x ∈ ns else (u, x) ∈ edges d) ->
  refines (SubMap (<[v := ns]> (adjacency_map g)) c false) (Digraph (verts d) es).
Proof.
  intros Hr Hv Hnd Hcl Hes. split; cbn.
  - intros w. rewrite lookup_insert_is_Some', (rf_verts _ _ Hr). naive_solver.
  - apply map_Forall_insert_2; [done|apply Hr].
  - intros u x. rewrite Hes. case_decide; [subst; by rewrite lookup_insert_eq|by rewrite lookup_insert_ne, (rf_edges _ _ Hr)].
  - intros u x. rewrite Hes. case_decide; [apply Hcl|apply (rf_closed _ _ Hr)].
  - done.
Qed.

Lemma rf_ensure g d v : refines g d ->
  refines (if map_has_vertex g v then g else (add_vertex g v).2) (Digraph ({[v]} ∪ verts d) (edges d)).
Proof.
  intros Hr. pose proof (rf_add_vertex g d Hr v) as [_ Ha]. unfold add_vertex in Ha at 1. destruct (map_has_vertex g v) eqn:E; [done|].
  by unfold add_vertex; rewrite E; unfold add_vertex in Ha.
Qed.

Lemma rf_add_edge g d u v : refines g d ->
  (add_edge g u v).1 = bool_decide ((u, v) ∉ edges d) /\ refines (add_edge g u v).2 (spec_op d (AddEdge u v)).
Proof.
  intros Hr. unfold add_edge. pose proof (rf_ensure g d u Hr) as H1. set (g1 := if map_has_vertex g u then _ else _) in *.
  pose proof (rf_ensure g1 _ v H1) as H2. set (g2 := if map_has_vertex g1 v then _ else _) in *. cbn in H2.
  destruct (proj1 (rf_verts _ _ H2 u)) as [ns Hns]; [cbn; set_solver|]. rewrite Hns. cbn [default from_option id].
  pose proof (rf_edges _ _ H2 u v) as He. rewrite Hns in He. cbn in He. unfold has_neighbor.
  assert (Hvs : {[v]} ∪ ({[u]} ∪ verts d) = {[u; v]} ∪ verts d) by set_solver. rewrite Hvs in H2.
  destruct (decide (v ∈ ns)) as [Hin|Hin].
  - rewrite (bool_decide_true (v ∈ ns)), (bool_decide_false (_ ∉ _)) by tauto. split; [done|]. cbn.
    replace ({[(u, v)]} ∪ edges d) with (edges d) by set_solver. done.
  - rewrite (bool_decide_false (v ∈ ns)), (bool_decide_true (_ ∉ _)) by tauto. split; [done|].
    apply (rf_set g2 _ u ns (ns ++ [v]) ({[(u, v)]} ∪ edges d) _ H2 Hns).
    + apply NoDup_app. split; [by eapply (rf_nodup _ _ H2)|]. split; [set_solver|apply NoDup_singleton].
    + intros x [Hx| ->%list_elem_of_singleton]%elem_of_app; [|cbn; set_solver]. apply (rf_closed _ _ H2 u).
      apply (rf_edges _ _ H2). by rewrite Hns.
    + intros w x. cbn. rewrite elem_of_union, elem_of_singleton. case_decide as Hw.
      * subst w. pose proof (rf_edges _ _ H2 u x) as Hx. rewrite Hns in Hx. cbn in Hx. rewrite Hx, elem_of_app, list_elem_of_singleton. naive_solver.
      * naive_solver.
Qed.

Lemma rf_remove_edge g d u v : refines g d ->
  (remove_edge g u v).1 = bool_decide ((u, v) ∈ edges d) /\ refines (remove_edge g u v).2 (spec_op d (RemoveEdge u v)).
Proof.
  intros Hr. unfold remove_edge. pose proof (rf_edges _ _ Hr u) as He. destruct (adjacency_map g !! u) as [ns|] eqn:Hns; cbn in He.
  - pose proof (rf_nodup _ _ Hr u ns Hns) as Hnd. pose proof (remove_neighbor_spec ns v Hnd) as (H1 & H2 & H3).
    destruct (remove_neighbor ns v) as [b ns']. cbn in H1, H2, H3. subst b. rewrite (bool_decide_ext _ _ (iff_sym (He v))).
    case_bool_decide as Hin; (split; [done|]); cbn.
    + apply (rf_set g d u ns ns' _ _ Hr Hns H2).
      * intros x [Hx _]%H3. apply (rf_closed _ _ Hr u). by apply He.
      * intros w x. case_decide; [subst w; rewrite H3, <- He; set_solver|set_solver].
    + replace (edges d ∖ {[(u, v)]}) with (edges d) by set_solver. by destruct d.
  - cbn. rewrite bool_decide_false by (rewrite He; apply not_elem_of_nil). split; [done|].
    replace (edges d ∖ {[(u, v)]}) with (edges d); [by destruct d|]. apply set_eq. intros [a b].
    rewrite elem_of_difference, elem_of_singleton. split; [|tauto]. intros Hab. split; [done|]. intros [= -> ->].
    apply He in Hab. by apply not_elem_of_nil in Hab.
Qed.

Lemma rf_remove_vertex g d v : refines g d ->
  (remove_vertex g v).1 = bool_decide (v ∈ verts d) /\ refines (remove_vertex g v).2 (spec_op d (RemoveVertex v)).
Proof.
  intros Hr. unfold remove_vertex. pose proof (rf_verts _ _ Hr v) as Hv. destruct (adjacency_map g !! v) as [old|] eqn:Hold.
  - rewrite bool_decide_true by (apply Hv; eauto). split; [done|]. cbn [snd].
    assert (Hl : forall w, delete v (map_imap (fun w ns => Some (if w =? v then ns else (remove_neighbor ns v).2)) (adjacency_map g)) !! w =
      if decide (w = v) then None else (fun ns => (remove_neighbor ns v).2) <$> adjacency_map g !! w).
    { intros w. case_decide as Hw; [subst; apply lookup_delete_eq|]. rewrite lookup_delete_ne, map_lookup_imap by done.
      destruct (adjacency_map g !! w); [|done]. cbn. by rewrite (proj2 (Z.eqb_neq w v) Hw). }
    split; cbn.
    + intros w. rewrite Hl, elem_of_difference, elem_of_singleton, (rf_verts _ _ Hr). case_decide; [|by rewrite fmap_is_Some; naive_solver].
      split; [tauto|]. by intros [? ?].
    + intros w ns Hw. rewrite Hl in Hw. case_decide; [done|]. apply fmap_Some in Hw as (ns0 & Hns0 & ->).
      by apply remove_neighbor_spec, (rf_nodup _ _ Hr w).
    + intros u x. rewrite Hl, elem_of_filter. unfold touches. cbn. rewrite orb_false_iff, !Z.eqb_neq.
      pose proof (rf_edges _ _ Hr u x) as He. case_decide as Hu; [subst; split; [tauto|by intros ?%not_elem_of_nil]|].
      destruct (adjacency_map g !! u) as [ns|] eqn:Hns; cbn in He |- *; [|split; [tauto|by intros ?%not_elem_of_nil]].
      destruct (remove_neighbor_spec ns v) as (_ & _ & H3); [by eapply (rf_nodup _ _ Hr)|]. rewrite H3, He. tauto.
    + intros u x. unfold touches. rewrite elem_of_filter, elem_of_difference, elem_of_singleton. cbn. rewrite orb_false_iff, !Z.eqb_neq.
      intros [[_ ?] ?%(rf_closed _ _ Hr)]. done.
    + done.
  - rewrite bool_decide_false by (rewrite Hv; apply is_Some_None). split; [done|]. cbn.
    assert (Hn : v ∉ verts d) by (rewrite Hv; apply is_Some_None).
    replace (verts d ∖ {[v]}) with (verts d) by set_solver.
    replace (filter (fun e => touches v e = false) (edges d)) with (edges d); [by destruct d|]. apply set_eq. intros [a b].
    rewrite elem_of_filter. unfold touches. cbn. rewrite orb_false_iff, !Z.eqb_neq. split; [|tauto]. intros Hab. split; [|done].
    pose proof (rf_closed _ _ Hr _ _ Hab). pose proof (rf_source _ _ Hr _ _ Hab). split; congruence.
Qed.

Lemma rf_edge_count g d : refines g d ->
  (map_edge_count g).1 = Z.of_nat (size (edges d)) /\ refines (map_edge_count g).2 d.
Proof.
  intros Hr. assert (wf g) as Hg by exact (rf_cache _ _ Hr). destruct (edge_count_keeps g Hg) as [Hw Hm]. split.
  - rewrite <- (rf_count _ _ Hr). exact (edge_count_spec g Hg).
  - change (adjacency_map (map_edge_count g).2 = adjacency_map g) in Hm. destruct Hr. split; [..|exact Hw]; by rewrite ?Hm.
Qed.

Lemma rf_new : refines new_sub_map (Digraph ∅ ∅).
Proof. split; cbn; [|apply map_Forall_empty|..|done]; intros; rewrite ?lookup_empty; cbn; rewrite ?elem_of_nil, ?is_Some_alt; set_solver. Qed.

Lemma rf_vertex_list g d : refines g d -> enumerates (map_vertex_list g) (verts d).
Proof.
  intros Hr. split; [apply NoDup_fst_map_to_list|]. intros v. rewrite (rf_verts _ _ Hr). unfold map_vertex_list.
  rewrite list_elem_of_fmap. split.
  - intros ([w ns] & -> & Hw%elem_of_map_to_list). by exists ns.
  - intros [ns Hns]. exists (v, ns). split; [done|by apply elem_of_map_to_list].
Qed.

Lemma rf_vertex_count g d : refines g d -> map_vertex_count g = Z.of_nat (size (verts d)).
Proof.
  intros Hr. unfold map_vertex_count. rewrite <- size_dom. do 2 f_equal. apply set_eq. intros v.
  by rewrite elem_of_dom, (rf_verts _ _ Hr).
Qed.

(** One operation. *)
Lemma run_op_refines o g d : refines g d -> spec_out d o (run_op o g).1 /\ refines (run_op o g).2 (spec_op d o).
Proof.
  intros Hr. destruct o; cbn [run_op spec_op].
  - destruct (rf_add_vertex g d Hr v) as [H1 H2]. by destruct (add_vertex g v).
  - destruct (rf_add_edge g d u v Hr) as [H1 H2]. by destruct (add_edge g u v).
  - destruct (rf_remove_vertex g d v Hr) as [H1 H2]. by destruct (remove_vertex g v).
  - destruct (rf_remove_edge g d u v Hr) as [H1 H2]. by destruct (remove_edge g u v).
  - split; [done|]. apply rf_new.
  - split; [|done]. by apply rf_has.
  - split; [|done]. unfold spec_out. cbn. unfold map_has_edge, has_neighbor. pose proof (rf_edges _ _ Hr u v) as He.
    destruct (_ !! u); cbn in He; [by apply bool_decide_ext|]. symmetry. apply bool_decide_eq_false. rewrite He. apply not_elem_of_nil.
  - split; [|done]. by apply rf_targets.
  - split; [|done]. by apply rf_vertex_list.
  - split; [|done]. by apply rf_vertex_count.
  - destruct (rf_edge_count g d Hr) as [H1 H2]. by destruct (map_edge_count g).
Qed.

(** C28: a mutable graph behaves, over any sequence of its operations, like a
    finite directed graph: additions and removals report whether they changed
    it, a removed vertex takes its incoming and outgoing edges with it,
    neighbours and vertices are listed exactly once and the cached number of
    edges is never stale when it is read. *)
Theorem map_graph_refines (ops : list op) :
  let '(xs, g) := run_ops ops new_sub_map in
  let d := spec_run (Digraph ∅ ∅) ops in
  spec_outs (Digraph ∅ ∅) ops xs /\ refines g d /\ (edge_count g).1 = Z.of_nat (size (edges d)).
Proof.
  assert (H : forall g d, refines g d ->
    spec_outs d ops (run_ops ops g).1 /\ refines (run_ops ops g).2 (spec_run d ops)).
  { induction ops as [|o ops IH]; intros g d Hr; [done|]. cbn [run_ops spec_run].
    destruct (run_op_refines o g d Hr) as [H1 H2]. destruct (run_op o g) as [x g']. cbn in H1, H2.
    destruct (IH _ _ H2) as [H3 H4]. destruct (run_ops ops g') as [xs g'']. done. }
  destruct (H _ _ rf_new) as [H1 H2]. destruct (run_ops ops new_sub_map) as [xs g]. split; [done|]. split; [done|].
  by apply rf_edge_count.
Qed.

(** The lists of a page are looked up by byte offset instead of position: on
    the sample page the first vertex keeps its list, the second, whose region
    is further on, gets none, and the giant vertex, with offset 0, gets the
    first one's. *)
Lemma from_csr_page_offsets :
  map_get_neighbors (from_csr_page (H:=small_config) Csr.sample_page.1) <$> Csr.sample_adj.*1 = [[1; 2; 9]; []; [1; 2; 9]].
Proof. vm_compute. reflexivity. Qed.

End MapGraph.
