(* ===== verification/CsrGraph.v ===== *)
(** * The compressed graph over arbitrary identifiers

    [mem_sub_csr_t] (src/include/bw_graph/mem/mem_g0csr.h,
    src/src/mem_g0csr.cc): an index from vertices to positions, an offset array
    and one array with every neighbour list.  A graph built from an adjacency
    map gives the map back; with sorted neighbour lists it answers every query
    like the other representations. *)

From S2P Require Import Prelude Config CsrPage MemGraph MapGraph.

Local Open Scope Z_scope.

Module CsrGraph.
Import MemGraph SameAnswers.

Record mem_sub_csr_t := SubCsr {
  vertex_index : gmap Z nat;
  offsets : list nat;
  neighbor_list : list Z
}.

Definition new_sub_csr : mem_sub_csr_t := SubCsr ∅ [] [].

Definition sorted_vertices (adj_map : adj_map_t) : list Z := sort (map_to_list adj_map).*1.

(** The loop over the sorted vertices: offset and neighbours of each. *)
Definition append_vertex (adj_map : adj_map_t) (st : list nat * list Z * nat) (vertex_id : Z) : list nat * list Z * nat :=
  let '(offs, nl, current_offset) := st in
  let neighbors := default [] (adj_map !! vertex_id) in
  (offs ++ [current_offset], nl ++ neighbors, (current_offset + length neighbors)%nat).

Definition csr_of_adj_map (adj_map : adj_map_t) : mem_sub_csr_t :=
  if decide (adj_map = ∅) then new_sub_csr
  else
    let vs := sorted_vertices adj_map in
    let '(offs, nl, current_offset) := foldl (append_vertex adj_map) ([], [], 0%nat) vs in
    SubCsr (list_to_map (imap (fun i v => (v, i)) vs)) (offs ++ [current_offset]) nl.

Definition csr_range (g : mem_sub_csr_t) (pos : nat) : list Z :=
  slice (neighbor_list g) (default 0%nat (offsets g !! pos)) (default 0%nat (offsets g !! S pos)).

Definition csr_get_neighbors (g : mem_sub_csr_t) (vertex_id : Z) : list Z :=
  match vertex_index g !! vertex_id with Some pos => csr_range g pos | None => [] end.

Definition csr_has_vertex (g : mem_sub_csr_t) (vertex_id : Z) : bool := bool_decide (is_Some (vertex_index g !! vertex_id)).

Definition csr_has_edge (g : mem_sub_csr_t) (src_id dst_id : Z) : bool :=
  match vertex_index g !! src_id with Some pos => binary_search (csr_range g pos) dst_id | None => false end.

Definition csr_vertex_list (g : mem_sub_csr_t) : list Z := (map_to_list (vertex_index g)).*1.

Definition csr_to_map (g : mem_sub_csr_t) : adj_map_t := csr_range g <$> vertex_index g.

Definition csr_vertex_count (g : mem_sub_csr_t) : Z := Z.of_nat (size (vertex_index g)).

Definition csr_edge_count (g : mem_sub_csr_t) : Z := Z.of_nat (length (neighbor_list g)).

#[export] Instance csr_graph : mem_graph_i mem_sub_csr_t := {
  get_neighbors := csr_get_neighbors;
  has_vertex := csr_has_vertex;
  has_edge := csr_has_edge;
  vertex_list := csr_vertex_list;
  to_map := csr_to_map;
  vertex_count := csr_vertex_count;
  edge_count := fun g => (csr_edge_count g, g)
}.

(** ** The layout *)

Section Layout.
Variable adj_map : adj_map_t.

Definition list_of (v : Z) : list Z := default [] (adj_map !! v).

Definition starts (vs : list Z) (i : nat) : nat := sum_list (length <$> take i (list_of <$> vs)).

Lemma append_all vs offs nl cur :
  exists offs', foldl (append_vertex adj_map) (offs, nl, cur) vs =
    (offs ++ offs', nl ++ mjoin (list_of <$> vs), (cur + sum_list (length <$> (list_of <$> vs)))%nat) /\
  offs' = (fun i => (cur + starts vs i)%nat) <$> seq 0 (length vs).
Proof.
  revert offs nl cur. induction vs as [|v vs IH]; intros offs nl cur.
  - exists []. cbn. by rewrite !app_nil_r, Nat.add_0_r.
  - cbn [foldl append_vertex]. destruct (IH (offs ++ [cur]) (nl ++ list_of v) (cur + length (list_of v))%nat) as (offs' & E & Ho).
    exists (cur :: offs'). split.
    + fold (list_of v). rewrite E. rewrite <- !app_assoc. f_equal. cbn. unfold sum_list. lia.
    + cbn [length seq fmap list_fmap]. f_equal; [unfold starts; cbn; lia|]. rewrite Ho, <- fmap_S_seq, <- list_fmap_compose.
      apply list_fmap_ext. intros i x _. cbn. unfold starts. cbn. lia.
Qed.

Lemma sorted_vertices_NoDup : NoDup (sorted_vertices adj_map).
Proof. apply sort_NoDup, NoDup_fst_map_to_list. Qed.

Lemma sorted_vertices_elem v : v ∈ sorted_vertices adj_map <-> is_Some (adj_map !! v).
Proof.
  unfold sorted_vertices. rewrite sort_elem, list_elem_of_fmap. split.
  - intros ([w ns] & -> & ?%elem_of_map_to_list). by exists ns.
  - intros [ns ?]. exists (v, ns). split; [done|by apply elem_of_map_to_list].
Qed.

Let vs := sorted_vertices adj_map.
Let g := csr_of_adj_map adj_map.

Lemma csr_fields : vertex_index g = list_to_map (imap (fun i v => (v, i)) vs) /\ neighbor_list g = mjoin (list_of <$> vs) /\
  (adj_map <> ∅ -> forall i, (i <= length vs)%nat -> offsets g !! i = Some (starts vs i)).
Proof.
  unfold g, csr_of_adj_map. case_decide as He.
  - subst vs. unfold sorted_vertices. rewrite He, map_to_list_empty. done.
  - fold vs. destruct (append_all vs [] [] 0) as (offs & -> & ->). split; [done|]. split; [done|]. intros _ i Hi. cbn [offsets].
    rewrite app_nil_l. destruct (decide (i = length vs)) as [->|].
    + rewrite lookup_app_r by (by rewrite length_fmap, length_seq). rewrite length_fmap, length_seq, Nat.sub_diag. cbn.
      unfold starts. by rewrite take_ge by (by rewrite length_fmap).
    + rewrite lookup_app_l by (rewrite length_fmap, length_seq; lia). rewrite list_lookup_fmap, lookup_seq_lt by lia. done.
Qed.

Lemma csr_index v pos : vertex_index g !! v = Some pos <-> vs !! pos = Some v.
Proof.
  destruct csr_fields as (-> & _). rewrite <- elem_of_list_to_map.
  - rewrite list_elem_of_lookup. split.
    + intros [i Hi]. rewrite list_lookup_imap in Hi. apply fmap_Some in Hi as (w & Hw & [= -> ->]). done.
    + intros Hv. exists pos. by rewrite list_lookup_imap, Hv.
  - rewrite fmap_imap. replace (imap _ vs) with vs; [apply sorted_vertices_NoDup|].
    apply list_eq. intros i. rewrite list_lookup_imap. by destruct (vs !! i).
Qed.

Lemma csr_range_at pos v : vs !! pos = Some v -> csr_range g pos = list_of v.
Proof.
  intros Hv. destruct csr_fields as (_ & Hn & Ho). pose proof (lookup_lt_Some _ _ _ Hv).
  assert (adj_map <> ∅).
  { intros He. apply list_elem_of_lookup_2, sorted_vertices_elem in Hv. rewrite He, lookup_empty in Hv. by destruct Hv. }
  unfold csr_range. rewrite Hn, !Ho by (done || lia). cbn [default from_option id]. unfold starts. apply slice_mjoin.
  by rewrite list_lookup_fmap, Hv.
Qed.

(** Nothing is lost: the graph gives the map back. *)
Lemma csr_to_map_id : csr_to_map g = adj_map.
Proof.
  apply map_eq. intros v. unfold csr_to_map. rewrite lookup_fmap. destruct (vertex_index g !! v) as [pos|] eqn:E; cbn.
  - apply csr_index in E as Hv. rewrite (csr_range_at pos v Hv). unfold list_of.
    apply list_elem_of_lookup_2, sorted_vertices_elem in Hv as [ns ->]. done.
  - symmetry. apply eq_None_not_Some. rewrite <- sorted_vertices_elem. intros [pos Hp]%list_elem_of_lookup.
    apply csr_index in Hp. congruence.
Qed.

Lemma csr_edges : length (neighbor_list g) = edge_total adj_map.
Proof.
  destruct csr_fields as (_ & -> & _). rewrite edge_total_list. rewrite length_join.
  assert (Hp : (list_of <$> vs) ≡ₚ (map_to_list adj_map).*2).
  { unfold vs, sorted_vertices. rewrite sort_perm, <- list_fmap_compose. apply Permutation_refl'.
    apply list_fmap_ext. intros i [v ns] Hi. cbn. unfold list_of. apply list_elem_of_lookup_2, elem_of_map_to_list in Hi. by rewrite Hi. }
  by rewrite Hp.
Qed.

End Layout.

(** A graph built from a map whose lists are sorted. *)
Definition csr_wf (g : mem_sub_csr_t) : Prop := exists m, map_Forall (fun _ => sorted) m /\ g = csr_of_adj_map m.

#[export] Program Instance csr_graph_spec : MemGraphSpec mem_sub_csr_t := {| wf := csr_wf |}.
Next Obligation.
  intros g v _. cbn. unfold csr_to_map, csr_get_neighbors. rewrite lookup_fmap. by destruct (_ !! v).
Qed.
Next Obligation.
  intros g v _. cbn. unfold csr_to_map, csr_has_vertex. apply bool_decide_ext. by rewrite lookup_fmap, fmap_is_Some.
Qed.
Next Obligation.
  intros g u v (m & Hm & ->). cbn. rewrite csr_to_map_id. unfold csr_has_edge.
  assert (Hu := lookup_fmap (csr_range (csr_of_adj_map m)) (vertex_index (csr_of_adj_map m)) u).
  change (csr_to_map (csr_of_adj_map m) !! u = csr_range (csr_of_adj_map m) <$> vertex_index (csr_of_adj_map m) !! u) in Hu.
  rewrite csr_to_map_id in Hu. destruct (vertex_index _ !! u) as [pos|]; cbn in Hu; rewrite Hu; cbn.
  - apply binary_search_spec. by apply (Hm u).
  - symmetry. apply bool_decide_eq_false, not_elem_of_nil.
Qed.
Next Obligation.
  intros g _. cbn. unfold csr_to_map, csr_vertex_list. rewrite map_to_list_fmap, <- list_fmap_compose. apply Permutation_refl'.
  by apply list_fmap_ext.
Qed.
Next Obligation. intros g _. cbn. unfold csr_to_map, csr_vertex_count. by rewrite map_size_fmap. Qed.
Next Obligation. intros g (m & Hm & ->). cbn. unfold csr_edge_count. by rewrite csr_edges, csr_to_map_id. Qed.
Next Obligation. done. Qed.

Lemma csr_of_adj_map_wf m : map_Forall (fun _ => sorted) m -> wf (csr_of_adj_map m) /\ to_map (csr_of_adj_map m) = m.
Proof. intros Hm. split; [by exists m|apply csr_to_map_id]. Qed.

(** An unsorted list hides an edge from the binary search. *)
Lemma unsorted_edge_hidden :
  let g := csr_of_adj_map {[1 := [9; 2; 3]]} in csr_has_edge g 1 9 = false /\ csr_get_neighbors g 1 = [9; 2; 3].
Proof. vm_compute. done. Qed.

End CsrGraph.
