(* ===== verification/ComGraph.v ===== *)
(** * The compressed graph over contiguous identifiers

    [mem_sub_com_t] (src/include/bw_graph/mem/mem_g0com.h,
    src/src/mem_g0com.cc): vertices [0 .. n - 1], an offset array indexed by
    vertex, one neighbour array, the community of each vertex.  The file holds
    the representation, its construction from an adjacency map and from arrays,
    and the queries; MemGraphSub.v holds the subgraphs, MemBfs.v the searches and
    GraphLoad.v the text loader.  Identifiers are unsigned: the model's checks
    [0 <= v] only say so. *)

From S2P Require Import Prelude Config CsrPage MemGraph MapGraph CsrGraph.

Local Open Scope Z_scope.

Module ComGraph.
Import MemGraph SameAnswers.

Record mem_sub_com_t := SubCom {
  offsets : list nat;
  neighbor_list : list Z;
  communities : list Z;
  community_structure : list (list Z);
  num_vertices : nat
}.

Definition new_sub_com : mem_sub_com_t := SubCom [] [] [] [] 0.

(** ** Construction *)

Definition max_vertex (adj_map : adj_map_t) : Z :=
  foldl (fun m q => foldl Z.max (Z.max m q.1) q.2) 0 (map_to_list adj_map).

(** The counts summed up in place. *)
Fixpoint accumulate (acc : nat) (counts : list nat) : list nat :=
  match counts with [] => [] | c :: cs => (acc + c)%nat :: accumulate (acc + c) cs end.

(** [std::sort] of the range between two positions. *)
Definition sort_range (l : list Z) (start stop : nat) : list Z := take start l ++ sort (slice l start stop) ++ drop stop l.

Definition fill_vertex (offs : list nat) (nl : list Z) (q : Z * list Z) : list Z :=
  let start := default 0%nat (offs !! Z.to_nat q.1) in
  let stop := default 0%nat (offs !! Z.to_nat (u32 (q.1 + 1))) in
  sort_range (list_inserts start q.2 nl) start stop.

Definition com_of_adj_map (adj_map : adj_map_t) (community_map : gmap Z Z) : mem_sub_com_t :=
  if decide (adj_map = ∅) then new_sub_com
  else
    let n := Z.to_nat (u32 (max_vertex adj_map + 1)) in
    let comms := (fun i => default i (community_map !! i)) <$> seqZ 0 (Z.of_nat n) in
    let counts := foldl (fun c q => <[Z.to_nat (u32 (q.1 + 1)) := length q.2]> c) (replicate (S n) 0%nat) (map_to_list adj_map) in
    let offs := accumulate 0 counts in
    let nl := replicate (default 0%nat (offs !! n)) 0 in
    SubCom offs (foldl (fill_vertex offs) nl (map_to_list adj_map)) comms [] n.

Definition com_of_arrays (offsets_vec : list nat) (neighbor_list_vec communities_vec : list Z) : mem_sub_com_t :=
  SubCom offsets_vec neighbor_list_vec communities_vec [] (length offsets_vec - 1).

(** ** Queries *)

Definition is_valid_vertex (g : mem_sub_com_t) (vertex_id : Z) : bool := (0 <=? vertex_id) && (vertex_id <? Z.of_nat (num_vertices g)).

Definition com_range (g : mem_sub_com_t) (v : Z) : list Z :=
  slice (neighbor_list g) (default 0%nat (offsets g !! Z.to_nat v)) (default 0%nat (offsets g !! S (Z.to_nat v))).

Definition com_get_neighbors (g : mem_sub_com_t) (vertex_id : Z) : list Z :=
  if negb (is_valid_vertex g vertex_id) then [] else com_range g vertex_id.

(** The span, as the list it denotes. *)
Definition get_neighbors_span (g : mem_sub_com_t) (vertex_id : Z) : list Z :=
  if negb (is_valid_vertex g vertex_id) then [] else com_range g vertex_id.

Definition com_has_vertex (g : mem_sub_com_t) (vertex_id : Z) : bool := is_valid_vertex g vertex_id.

Definition com_has_edge (g : mem_sub_com_t) (src_id dst_id : Z) : bool :=
  if negb (is_valid_vertex g src_id) then false else binary_search (com_range g src_id) dst_id.

Definition com_vertex_list (g : mem_sub_com_t) : list Z := seqZ 0 (Z.of_nat (num_vertices g)).

Definition com_to_map (g : mem_sub_com_t) : adj_map_t :=
  foldl (fun m v => <[v := com_get_neighbors g v]> m) ∅ (seqZ 0 (Z.of_nat (num_vertices g))).

Definition com_vertex_count (g : mem_sub_com_t) : Z := Z.of_nat (num_vertices g).

Definition com_edge_count (g : mem_sub_com_t) : Z := Z.of_nat (length (neighbor_list g)).

#[export] Instance com_graph : mem_graph_i mem_sub_com_t := {
  get_neighbors := com_get_neighbors;
  has_vertex := com_has_vertex;
  has_edge := com_has_edge;
  vertex_list := com_vertex_list;
  to_map := com_to_map;
  vertex_count := com_vertex_count;
  edge_count := fun g => (com_edge_count g, g)
}.

Definition get_community_id (g : mem_sub_com_t) (vertex_id : Z) : res Z :=
  if negb (is_valid_vertex g vertex_id) then Throw invalid_argument
  else Ok (default 0 (communities g !! Z.to_nat vertex_id)).

Definition get_vertices_in_community (g : mem_sub_com_t) (community_id : Z) : res (list Z) :=
  if Z.of_nat (length (community_structure g)) <=? community_id then Throw invalid_argument
  else Ok (default [] (community_structure g !! Z.to_nat community_id)).

Definition get_communities (g : mem_sub_com_t) : list Z := communities g.

Definition compute_degree_distribution {Q} (percentage : Z -> Z -> Q) (step : Z) (g : mem_sub_com_t) : list (Z * Q) :=
  degree_distribution percentage step
    ((fun i => Z.of_nat (default 0%nat (offsets g !! S i) - default 0%nat (offsets g !! i))) <$> seq 0 (num_vertices g)).

(** ** The layout

    [lays_out g ls]: the graph stores the lists [ls] one after the other (the
    default constructor leaves the offsets empty). *)
Definition prefixes (ls : list (list Z)) : list nat := (fun i => sum_list (length <$> take i ls)) <$> seq 0 (S (length ls)).

Record lays_out (g : mem_sub_com_t) (ls : list (list Z)) : Prop := {
  lo_offsets : ls <> [] -> offsets g = prefixes ls;
  lo_neighbors : neighbor_list g = mjoin ls;
  lo_count : num_vertices g = length ls
}.

Lemma prefixes_lookup ls i : (i <= length ls)%nat -> prefixes ls !! i = Some (sum_list (length <$> take i ls)).
Proof. intros. unfold prefixes. rewrite list_lookup_fmap, lookup_seq_lt by lia. done. Qed.

Section Layout.
Variables (g : mem_sub_com_t) (ls : list (list Z)).
Hypothesis Hg : lays_out g ls.

Lemma valid_lookup v : is_valid_vertex g v = bool_decide (0 <= v /\ is_Some (ls !! Z.to_nat v)).
Proof.
  pose proof (lo_count _ _ Hg) as Hn. unfold is_valid_vertex. symmetry.
  destruct (Z.leb_spec 0 v), (Z.ltb_spec v (Z.of_nat (num_vertices g))); cbn [andb];
    (apply bool_decide_eq_true || apply bool_decide_eq_false); rewrite lookup_lt_is_Some; lia.
Qed.

Lemma com_range_at v l : ls !! Z.to_nat v = Some l -> com_range g v = l.
Proof.
  intros Hl. pose proof (lookup_lt_Some _ _ _ Hl). unfold com_range.
  rewrite (lo_neighbors _ _ Hg), (lo_offsets _ _ Hg), !prefixes_lookup by (by intros -> || lia). by apply slice_mjoin.
Qed.

Lemma com_neighbors_at v : com_get_neighbors g v = if decide (0 <= v) then default [] (ls !! Z.to_nat v) else [].
Proof.
  unfold com_get_neighbors. rewrite valid_lookup. case_bool_decide as Hv; cbn [negb].
  - destruct Hv as [Hv [l Hl]]. rewrite decide_True by done. rewrite Hl. by apply com_range_at.
  - case_decide; [|done]. destruct (ls !! Z.to_nat v) eqn:E; [|done]. destruct Hv. eauto.
Qed.

Lemma com_to_map_lookup v : com_to_map g !! v = if decide (0 <= v) then ls !! Z.to_nat v else None.
Proof.
  unfold com_to_map. rewrite (lo_count _ _ Hg).
  assert (H : forall vs (m : adj_map_t), foldl (fun m v => <[v := com_get_neighbors g v]> m) m vs !! v = if decide (v ∈ vs) then Some (com_get_neighbors g v) else m !! v).
  { intros vs. induction vs as [|w vs IH]; intros m; cbn [foldl]; [done|]. rewrite IH.
    destruct (decide (v ∈ vs)); [by rewrite decide_True by set_solver|]. destruct (decide (v = w)) as [->|].
    - rewrite decide_True by set_solver. apply lookup_insert_eq.
    - rewrite decide_False by set_solver. by apply lookup_insert_ne. }
  rewrite H, lookup_empty, com_neighbors_at. destruct (decide (0 <= v)); [|by rewrite decide_False by (rewrite elem_of_seqZ; lia)].
  case_decide as Hv; rewrite elem_of_seqZ in Hv.
  - destruct (lookup_lt_is_Some_2 ls (Z.to_nat v)) as [k ->]; [lia|done].
  - symmetry. apply lookup_ge_None. lia.
Qed.

Lemma com_to_map_list : map_to_list (com_to_map g) ≡ₚ imap (fun i l => (Z.of_nat i, l)) ls.
Proof.
  assert (Hnd : NoDup (imap (fun i l => (Z.of_nat i, l)) ls).*1).
  { rewrite fmap_imap. rewrite (imap_ext _ (fun i _ => Z.of_nat i)) by done.
    rewrite NoDup_alt. intros i j x Hi Hj. rewrite list_lookup_imap in Hi, Hj.
    destruct (ls !! i), (ls !! j); cbn in *; simplify_eq; lia. }
  rewrite <- (map_to_list_to_map (imap (fun i l => (Z.of_nat i, l)) ls)) by done.
  apply Permutation_refl'. f_equal. apply map_eq. intros v. rewrite com_to_map_lookup. symmetry.
  case_decide as Hv.
  - destruct (ls !! Z.to_nat v) as [l|] eqn:E.
    + apply elem_of_list_to_map_1; [done|]. apply list_elem_of_lookup. exists (Z.to_nat v).
      rewrite list_lookup_imap, E. cbn. do 2 f_equal. lia.
    + apply not_elem_of_list_to_map_1. intros ([w l] & -> & [i Hi]%list_elem_of_lookup)%list_elem_of_fmap.
      rewrite list_lookup_imap in Hi. apply fmap_Some in Hi as (k & Hk & [= -> ->]). cbn in E. rewrite Nat2Z.id in E. congruence.
  - apply not_elem_of_list_to_map_1. intros ([w l] & -> & [i Hi]%list_elem_of_lookup)%list_elem_of_fmap.
    rewrite list_lookup_imap in Hi. apply fmap_Some in Hi as (k & Hk & [= -> ->]). cbn in Hv. lia.
Qed.

End Layout.

(** A graph that lays out sorted lists. *)
Definition com_wf (g : mem_sub_com_t) : Prop := exists ls, lays_out g ls /\ Forall sorted ls.

#[export] Program Instance com_graph_spec : MemGraphSpec mem_sub_com_t := {| wf := com_wf |}.
Next Obligation.
  intros g v (ls & Hg & _). cbn. rewrite (com_neighbors_at g ls Hg), (com_to_map_lookup g ls Hg). by case_decide.
Qed.
Next Obligation.
  intros g v (ls & Hg & _). cbn. unfold com_has_vertex. rewrite (valid_lookup g ls Hg). apply bool_decide_ext.
  rewrite (com_to_map_lookup g ls Hg). case_decide; [tauto|]. split; [tauto|]. by intros [? ?].
Qed.
Next Obligation.
  intros g u v (ls & Hg & Hs). cbn. unfold com_has_edge. rewrite (valid_lookup g ls Hg), (com_to_map_lookup g ls Hg).
  case_bool_decide as Hu; cbn [negb].
  - destruct Hu as [Hu [l Hl]]. rewrite decide_True by done. rewrite Hl, (com_range_at g ls Hg u l Hl). cbn.
    apply binary_search_spec. rewrite Forall_lookup in Hs. by eapply Hs.
  - symmetry. apply bool_decide_eq_false. case_decide; [|apply not_elem_of_nil].
    destruct (ls !! Z.to_nat u) eqn:E; [destruct Hu; eauto|apply not_elem_of_nil].
Qed.
Next Obligation.
  intros g (ls & Hg & _). cbn. rewrite (com_to_map_list g ls Hg), fmap_imap. apply Permutation_refl'.
  unfold com_vertex_list. rewrite (lo_count _ _ Hg). apply list_eq. intros i. rewrite list_lookup_imap.
  destruct (ls !! i) eqn:E; cbn.
  - apply lookup_seqZ. apply lookup_lt_Some in E. lia.
  - apply lookup_ge_None in E. apply lookup_seqZ_ge. lia.
Qed.
Next Obligation.
  intros g (ls & Hg & _). cbn. unfold com_vertex_count. rewrite <- length_map_to_list, (com_to_map_list g ls Hg), length_imap.
  by rewrite (lo_count _ _ Hg).
Qed.
Next Obligation.
  intros g (ls & Hg & _). cbn. unfold com_edge_count. rewrite edge_total_list, (com_to_map_list g ls Hg), fmap_imap, (lo_neighbors _ _ Hg).
  rewrite length_join. do 3 f_equal. apply list_eq. intros i. rewrite list_lookup_imap. by destruct (ls !! i).
Qed.
Next Obligation. done. Qed.

(** ** The graph of an adjacency map *)

Lemma accumulate_lookup counts acc i : (i < length counts)%nat -> accumulate acc counts !! i = Some (acc + sum_list (take (S i) counts))%nat.
Proof.
  revert acc i. induction counts as [|c cs IH]; intros acc [|i] Hi; cbn in Hi; [lia|lia|..]; cbn [accumulate lookup list_lookup].
  - f_equal. unfold sum_list. cbn. rewrite take_0. cbn. lia.
  - rewrite IH by lia. f_equal. unfold sum_list. cbn [take sum_list_with id]. lia.
Qed.

Lemma write_block (bs : list (list Z)) i old l : bs !! i = Some old -> length l = length old ->
  let start := sum_list (length <$> take i bs) in
  let stop := sum_list (length <$> take (S i) bs) in
  sort_range (list_inserts start l (mjoin bs)) start stop = mjoin (<[i := sort l]> bs).
Proof.
  intros Hi Hl start stop. pose proof (lookup_lt_Some _ _ _ Hi) as Hlt.
  set (pre := mjoin (take i bs)). set (post := mjoin (drop (S i) bs)).
  assert (Hpre : length pre = start) by (unfold pre; by rewrite length_join).
  assert (Hstop : stop = (start + length l)%nat).
  { unfold stop. rewrite (take_S_r _ _ _ Hi), fmap_app, sum_list_with_app. unfold start. cbn. lia. }
  assert (Hj : mjoin bs = pre ++ old ++ post).
  { rewrite <- (take_drop_middle bs i old Hi) at 1. by rewrite join_app. }
  rewrite Hj, <- Hpre, <- (Nat.add_0_r (length pre)), list_inserts_app_r, list_inserts_0_r by done.
  rewrite Nat.add_0_r. unfold sort_range, slice. rewrite take_app_length, drop_app_length.
  rewrite Hstop, <- Hpre. replace (length pre + length l - length pre)%nat with (length l) by lia. rewrite take_app_length.
  rewrite drop_app_ge by lia. replace (length pre + length l - length pre)%nat with (length l) by lia. rewrite drop_app_length.
  rewrite insert_take_drop by done. by rewrite join_app.
Qed.

(** Identifiers are 32-bit and the largest is not the invalid one. *)
Definition ids_ok (m : adj_map_t) : Prop :=
  forall v ns, m !! v = Some ns -> 0 <= v < 2 ^ 32 - 1 /\ Forall (fun w => 0 <= w < 2 ^ 32 - 1) ns.

Section OfMap.
Variables (m : adj_map_t) (comms : gmap Z Z).
Hypothesis Hids : ids_ok m.

Definition padded (n : nat) : list (list Z) := (fun i => sort (default [] (m !! i))) <$> seqZ 0 (Z.of_nat n).

Let n := Z.to_nat (u32 (max_vertex m + 1)).

Lemma foldl_max a l : 0 <= a < 2 ^ 32 - 1 -> Forall (fun w => 0 <= w < 2 ^ 32 - 1) l ->
  a <= foldl Z.max a l < 2 ^ 32 - 1 /\ Forall (fun w => w <= foldl Z.max a l) l.
Proof.
  intros Ha Hl. revert a Ha. induction Hl as [|w l Hw Hl IH]; intros a Ha; cbn [foldl]; [split; [lia|constructor]|].
  destruct (IH (Z.max a w)) as [H1 H2]; [lia|]. split; [lia|]. constructor; [lia|done].
Qed.

Lemma max_vertex_spec : 0 <= max_vertex m < 2 ^ 32 - 1 /\
  forall v ns, m !! v = Some ns -> v <= max_vertex m /\ Forall (fun w => w <= max_vertex m) ns.
Proof.
  unfold max_vertex.
  assert (H : forall l a, 0 <= a < 2 ^ 32 - 1 -> (forall q, q ∈ l -> 0 <= q.1 < 2 ^ 32 - 1 /\ Forall (fun w => 0 <= w < 2 ^ 32 - 1) q.2) ->
    a <= foldl (fun m q => foldl Z.max (Z.max m q.1) q.2) a l < 2 ^ 32 - 1 /\
    forall q, q ∈ l -> q.1 <= foldl (fun m q => foldl Z.max (Z.max m q.1) q.2) a l /\
      Forall (fun w => w <= foldl (fun m q => foldl Z.max (Z.max m q.1) q.2) a l) q.2).
  { intros l. induction l as [|q l IH]; intros a Ha Hl; cbn [foldl]; [split; [lia|by intros q ?%not_elem_of_nil]|].
    destruct (Hl q) as [Hq1 Hq2]; [set_solver|]. destruct (foldl_max (Z.max a q.1) q.2) as [H1 H2]; [lia|done|].
    destruct (IH (foldl Z.max (Z.max a q.1) q.2)) as [H3 H4]; [lia|intros; apply Hl; set_solver|].
    split; [lia|]. intros q' [-> | Hq']%elem_of_cons; [|by apply H4]. split; [lia|].
    eapply Forall_impl; [exact H2|]. cbn. lia. }
  destruct (H (map_to_list m) 0) as [H1 H2]; [lia|intros [v ns] Hq%elem_of_map_to_list; by apply Hids|]. split; [lia|].
  intros v ns Hv. by apply (H2 (v, ns)), elem_of_map_to_list.
Qed.

Lemma size_n : Z.of_nat n = max_vertex m + 1.
Proof. destruct max_vertex_spec as [H _]. unfold n. rewrite wrap_small; [lia|]. unfold in_width. lia. Qed.

Lemma padded_lookup i : (i < n)%nat -> padded n !! i = Some (sort (default [] (m !! Z.of_nat i))).
Proof. intros Hi. unfold padded. rewrite list_lookup_fmap, lookup_seqZ_lt by lia. cbn. do 4 f_equal. Qed.

Lemma length_padded : length (padded n) = n.
Proof. unfold padded. rewrite length_fmap, length_seqZ. lia. Qed.

(** First pass: the number of neighbours of [i] at position [i + 1]. *)
Lemma counts_spec : foldl (fun c q => <[Z.to_nat (u32 (q.1 + 1)) := length q.2]> c) (replicate (S n) 0%nat) (map_to_list m) =
  0%nat :: (length <$> padded n).
Proof.
  assert (H : forall l c, NoDup l.*1 -> (forall q, q ∈ l -> 0 <= q.1 < 2 ^ 32 - 1 /\ (Z.to_nat q.1 < n)%nat) -> length c = S n ->
    let c' := foldl (fun c q => <[Z.to_nat (u32 (q.1 + 1)) := length q.2]> c) c l in
    length c' = S n /\ c' !! 0%nat = c !! 0%nat /\
    forall i, (i < n)%nat -> c' !! S i = match (list_to_map l : adj_map_t) !! Z.of_nat i with Some ns => Some (length ns) | None => c !! S i end).
  { intros l. induction l as [|[v ns] l IH]; intros c Hnd Hl Hc; cbn [foldl]; [done|]. cbn in Hnd. apply NoDup_cons in Hnd as [Hv Hnd].
    destruct (Hl (v, ns)) as [Hb Hvn]; [set_solver|]. cbn [fst snd] in *.
    assert (Ew : Z.to_nat (u32 (v + 1)) = S (Z.to_nat v)) by (rewrite wrap_small by (unfold in_width; lia); lia). rewrite Ew.
    destruct (IH (<[S (Z.to_nat v) := length ns]> c)) as (H1 & H2 & H3); [done|intros; apply Hl; set_solver|by rewrite length_insert|].
    split; [done|]. split; [by rewrite H2, list_lookup_insert_ne|]. intros i Hi. rewrite H3 by done. cbn.
    destruct (decide (v = Z.of_nat i)) as [->|Hne].
    - rewrite lookup_insert_eq, not_elem_of_list_to_map_1 by done. rewrite Nat2Z.id. apply list_lookup_insert_eq. lia.
    - rewrite lookup_insert_ne by done. destruct (list_to_map l !! _); [done|]. apply list_lookup_insert_ne. lia. }
  destruct (H (map_to_list m) (replicate (S n) 0%nat)) as (H1 & H2 & H3).
  - apply NoDup_fst_map_to_list.
  - intros [v ns] Hq%elem_of_map_to_list. split; [by apply (Hids v ns)|]. cbn. destruct max_vertex_spec as [_ Hm].
    destruct (Hm v ns Hq) as [? _]. destruct (Hids v ns Hq) as [? _]. pose proof size_n. lia.
  - apply length_replicate.
  - apply list_eq. intros [|i]; [by rewrite H2|].
    change ((0%nat :: (length <$> padded n)) !! S i) with ((length <$> padded n) !! i). destruct (decide (i < n)%nat) as [Hi|Hi].
    + rewrite H3 by done. rewrite list_to_map_to_list, list_lookup_fmap, padded_lookup by done.
      change (match m !! Z.of_nat i with Some ns => Some (length ns) | None => replicate (S n) 0%nat !! S i end =
        Some (length (sort (default [] (m !! Z.of_nat i))))). rewrite length_sort.
      destruct (m !! Z.of_nat i); [done|]. by rewrite lookup_replicate_2 by lia.
    + rewrite !lookup_ge_None_2; [done|rewrite length_fmap, length_padded; lia|lia].
Qed.

Lemma offsets_spec : accumulate 0 (0%nat :: (length <$> padded n)) = prefixes (padded n).
Proof.
  apply list_eq. intros i. destruct (decide (i < S n)%nat) as [Hi|Hi].
  - rewrite accumulate_lookup by (cbn; rewrite length_fmap, length_padded; lia). rewrite prefixes_lookup by (rewrite length_padded; lia).
    cbn. by rewrite fmap_take.
  - rewrite !lookup_ge_None_2; [done|unfold prefixes; rewrite length_fmap, length_seq, length_padded; lia|].
    assert (Hlen : forall cs a, length (accumulate a cs) = length cs) by (induction cs; cbn; auto). rewrite Hlen. cbn. rewrite length_fmap, length_padded. lia.
Qed.

(** Second pass: every list is copied to its place and sorted there. *)
Lemma fill_lists_spec l : forall bs, NoDup l.*1 -> (forall v ns, (v, ns) ∈ l -> m !! v = Some ns) ->
  length <$> bs = length <$> padded n ->
  exists bs', foldl (fill_vertex (prefixes (padded n))) (mjoin bs) l = mjoin bs' /\ length <$> bs' = length <$> padded n /\
  forall i, (i < n)%nat -> bs' !! i = match (list_to_map l : adj_map_t) !! Z.of_nat i with Some ns => Some (sort ns) | None => bs !! i end.
Proof.
  induction l as [|[v ns] l IH]; intros bs Hnd Hl Hbs; [by exists bs|]. cbn in Hnd. apply NoDup_cons in Hnd as [Hv Hnd].
  assert (Hm : m !! v = Some ns) by (apply Hl; set_solver). destruct (Hids v ns Hm) as [Hb _].
  destruct max_vertex_spec as [_ Hmx]. destruct (Hmx v ns Hm) as [Hvx _]. pose proof size_n as Hn.
  assert (Hvn : (Z.to_nat v < n)%nat) by lia. cbn [foldl]. unfold fill_vertex at 2. cbn [fst snd].
  rewrite wrap_small by (unfold in_width; lia). replace (Z.to_nat (v + 1)) with (S (Z.to_nat v)) by lia.
  rewrite !prefixes_lookup by (rewrite length_padded; lia). cbn [default from_option id].
  rewrite !fmap_take, <- !Hbs, <- !fmap_take.
  assert (Hold : exists old, bs !! Z.to_nat v = Some old /\ length ns = length old).
  { pose proof (padded_lookup (Z.to_nat v) Hvn) as Hp. apply (f_equal (fmap length)) in Hp. rewrite <- list_lookup_fmap, <- Hbs, list_lookup_fmap in Hp.
    destruct (bs !! Z.to_nat v) as [old|]; [|done]. exists old. split; [done|]. cbn in Hp. injection Hp as ->.
    rewrite Z2Nat.id by lia. rewrite Hm. cbn. by rewrite length_sort. }
  destruct Hold as (old & Hold & Hlen). rewrite (write_block bs (Z.to_nat v) old ns Hold Hlen).
  assert (Hbs1 : length <$> <[Z.to_nat v := sort ns]> bs = length <$> padded n).
  { rewrite list_fmap_insert, length_sort, Hlen, <- Hbs. apply list_insert_id. by rewrite list_lookup_fmap, Hold. }
  destruct (IH (<[Z.to_nat v := sort ns]> bs) Hnd) as (bs' & H1 & H2 & H3); [intros; apply Hl; set_solver|done|].
  exists bs'. split; [done|]. split; [by rewrite H2, Hbs|]. intros i Hi. rewrite H3 by done. cbn. destruct (decide (v = Z.of_nat i)) as [->|Hne].
  - rewrite lookup_insert_eq, not_elem_of_list_to_map_1 by done. rewrite Nat2Z.id. apply list_lookup_insert_eq.
    apply lookup_lt_Some in Hold. by rewrite Nat2Z.id in Hold.
  - rewrite lookup_insert_ne by done. destruct (list_to_map l !! _); [done|]. apply list_lookup_insert_ne. lia.
Qed.

(** The lists are stored sorted, every identifier up to the largest has one. *)
Lemma com_of_adj_map_lays_out : m <> ∅ -> lays_out (com_of_adj_map m comms) (padded n).
Proof.
  intros Hne. unfold com_of_adj_map. rewrite decide_False by done. fold n. rewrite counts_spec, offsets_spec.
  split; cbn [offsets neighbor_list num_vertices]; [done| |by rewrite length_padded].
  rewrite prefixes_lookup by (rewrite length_padded; lia). cbn [default from_option id].
  rewrite take_ge by (rewrite length_padded; lia).
  destruct (fill_lists_spec (map_to_list m) ((fun l => replicate (length l) 0) <$> padded n)) as (bs' & H1 & H2 & H3).
  - apply NoDup_fst_map_to_list.
  - by intros v ns ?%elem_of_map_to_list.
  - rewrite <- list_fmap_compose. apply list_fmap_ext. intros i x _. cbn. apply length_replicate.
  - assert (Hz : forall ls : list (list Z), replicate (sum_list (length <$> ls)) 0 = mjoin ((fun l => replicate (length l) 0) <$> ls)).
    { intros ls. induction ls as [|k ls IHl]; [done|].
      change (replicate (length k + sum_list (length <$> ls)) 0 = replicate (length k) 0 ++ mjoin ((fun l => replicate (length l) 0) <$> ls)).
      by rewrite replicate_add, IHl. }
    rewrite Hz, H1. f_equal. apply list_eq. intros i. destruct (decide (i < n)%nat) as [Hi|Hi].
    + rewrite H3, padded_lookup, list_to_map_to_list by done. destruct (m !! Z.of_nat i) eqn:E; cbn; [done|].
      rewrite list_lookup_fmap, padded_lookup, E by done. done.
    + apply (f_equal length) in H2. rewrite !length_fmap, length_padded in H2.
      rewrite !lookup_ge_None_2; [done|rewrite length_padded; lia|lia].
Qed.

Lemma com_of_adj_map_wf : wf (com_of_adj_map m comms) /\
  (forall v, com_to_map (com_of_adj_map m comms) !! v =
    if decide (0 <= v < Z.of_nat (num_vertices (com_of_adj_map m comms))) then Some (sort (default [] (m !! v))) else None).
Proof.
  destruct (decide (m = ∅)) as [He|Hne].
  - unfold com_of_adj_map. rewrite decide_True by done. split; [exists []; split; [|constructor]; split; done|].
    intros v. change (Z.of_nat (num_vertices new_sub_com)) with 0. by case_decide; [lia|].
  - pose proof (com_of_adj_map_lays_out Hne) as Hl. split.
    + exists (padded n). split; [done|]. apply Forall_fmap, Forall_true. intros. apply sort_sorted.
    + intros v. rewrite (com_to_map_lookup _ _ Hl), (lo_count _ _ Hl), length_padded. destruct (decide (0 <= v)) as [Hv|].
      * destruct (decide (v < Z.of_nat n)) as [Hvn|Hvn].
        -- rewrite decide_True, padded_lookup by lia. by rewrite Z2Nat.id.
        -- rewrite decide_False by lia. apply lookup_ge_None. rewrite length_padded. lia.
      * by rewrite decide_False by lia.
Qed.

End OfMap.

End ComGraph.
