(* ===== verification/MemGraphSub.v ===== *)
(** * Subgraphs of the contiguous graph

    The induced subgraphs of [mem_sub_com_t] (src/src/mem_g0com.cc): as spans,
    as filtered lists, as a map with or without pruning, as a compressed graph,
    of a community and of the whole graph.  Their specification is [induced],
    the restriction of an adjacency map to a set of vertices. *)

From S2P Require Import Prelude Config CsrPage MemGraph MapGraph CsrGraph ComGraph.

Local Open Scope Z_scope.

Module MemGraphSub.
Import MemGraph SameAnswers MapGraph ComGraph CsrGraph.

Definition induce_subgraph_iter (g : mem_sub_com_t) (induced_vertex : list Z) : adj_map_t :=
  foldl (fun r v => match r !! v with Some _ => r | None => <[v := get_neighbors_span g v]> r end) ∅ induced_vertex.

(** The hash set is iterated twice in its own order. *)
Definition induce_subgraph_filter (g : mem_sub_com_t) (vertex_set : gset Z) : adj_map_t :=
  let r := foldl (fun (r : adj_map_t) v => <[v := []]> r) ∅ (elements vertex_set) in
  foldl (fun r v =>
    match get_neighbors_span g v with
    | [] => r
    | ns => <[v := default [] (r !! v) ++ filter (fun n => n ∈ vertex_set) ns]> r
    end) r (elements vertex_set).

(** The loop shared by the subgraph computations: the neighbours that [keep]
    accepts, sorted. *)
Definition filtered_neighbors (g : mem_sub_com_t) (keep : Z -> bool) (vertex : Z) : list Z :=
  sort (filter (fun n => keep n = true) (com_range g vertex)).

Definition subgraph_of (g : mem_sub_com_t) (keep : Z -> bool) (vs : list Z) : adj_map_t :=
  foldl (fun r v => <[v := filtered_neighbors g keep v]> r) ∅ vs.

Definition compute_induced_subgraph_map (g : mem_sub_com_t) (vertex_subset : list Z) (is_pruning : bool) : res adj_map_t :=
  if forallb (is_valid_vertex g) vertex_subset then
    let vertex_set : gset Z := list_to_set vertex_subset in
    Ok (subgraph_of g (fun n => negb is_pruning || bool_decide (n ∈ vertex_set)) vertex_subset)
  else Throw invalid_argument.

Definition compute_induced_graph_map (g : mem_sub_com_t) : adj_map_t := subgraph_of g (fun _ => true) (com_vertex_list g).

Definition compute_induced_subgraph (g : mem_sub_com_t) (vertex_subset : list Z) : res mem_sub_csr_t :=
  if forallb (is_valid_vertex g) vertex_subset then
    let vertex_set : gset Z := list_to_set vertex_subset in
    Ok (csr_of_adj_map (subgraph_of g (fun n => bool_decide (n ∈ vertex_set)) vertex_subset))
  else Throw invalid_argument.

Definition compute_community_subgraph (g : mem_sub_com_t) (community_id : Z) : res mem_sub_csr_t :=
  community_vertices ← get_vertices_in_community g community_id; compute_induced_subgraph g community_vertices.

(** ** The specification *)

Definition restrict (s : gset Z) (ns : list Z) : list Z := filter (fun n => n ∈ s) ns.

Definition induced (m : adj_map_t) (s : gset Z) : adj_map_t := restrict s <$> filter (fun q => q.1 ∈ s) m.

Lemma induced_lookup m s v : induced m s !! v = if decide (v ∈ s) then restrict s <$> m !! v else None.
Proof.
  unfold induced. rewrite lookup_fmap, map_lookup_filter. destruct (m !! v); cbn; case_decide; try done; by case_guard.
Qed.

Lemma foldl_insert_lookup (f : Z -> list Z) vs : forall (r : adj_map_t) v,
  foldl (fun r v => <[v := f v]> r) r vs !! v = if decide (v ∈ vs) then Some (f v) else r !! v.
Proof.
  induction vs as [|w vs IH]; intros r v; cbn [foldl]; [done|]. rewrite IH.
  destruct (decide (v ∈ vs)); [by rewrite decide_True by set_solver|]. destruct (decide (v = w)) as [->|].
  - rewrite decide_True by set_solver. apply lookup_insert_eq.
  - rewrite decide_False by set_solver. by apply lookup_insert_ne.
Qed.

Lemma filter_all (l : list Z) : filter (fun n => true = true) l = l.
Proof. induction l as [|x l IH]; [done|]. rewrite filter_cons. case_decide; [by rewrite IH|done]. Qed.

Section Graph.
Variables (g : mem_sub_com_t) (ls : list (list Z)).
Hypothesis Hg : lays_out g ls.
Hypothesis Hs : Forall sorted ls.

Lemma valid_to_map v : is_valid_vertex g v = true <-> is_Some (com_to_map g !! v).
Proof.
  rewrite (valid_lookup g ls Hg), bool_decide_eq_true, (com_to_map_lookup g ls Hg). case_decide; [tauto|]. split; [tauto|]. by intros [? ?].
Qed.

Lemma valid_range v : is_valid_vertex g v = true -> com_to_map g !! v = Some (com_range g v) /\ sorted (com_range g v).
Proof.
  intros Hv. apply valid_to_map in Hv as [l Hl]. rewrite Hl. rewrite (com_to_map_lookup g ls Hg) in Hl. case_decide; [|done].
  rewrite (com_range_at g ls Hg v l Hl). split; [done|]. rewrite Forall_lookup in Hs. by eapply Hs.
Qed.

Lemma filtered_sorted keep v : is_valid_vertex g v = true ->
  filtered_neighbors g keep v = filter (fun n => keep n = true) (com_range g v).
Proof. intros Hv. apply sort_id, sorted_filter. by apply valid_range. Qed.

Lemma span_eq v : get_neighbors_span g v = default [] (com_to_map g !! v).
Proof.
  unfold get_neighbors_span. destruct (is_valid_vertex g v) eqn:E; cbn [negb]; [by apply valid_range in E as [-> _]|].
  destruct (com_to_map g !! v) eqn:F; [|done]. assert (is_valid_vertex g v = true) by (apply valid_to_map; eauto). congruence.
Qed.

Lemma forallb_valid vs : forallb (is_valid_vertex g) vs = true <-> forall v, v ∈ vs -> is_Some (com_to_map g !! v).
Proof.
  rewrite forallb_forall. split; intros H v Hv; [apply valid_to_map, H; by apply list_elem_of_In|].
  apply valid_to_map, H. by apply list_elem_of_In.
Qed.

Lemma subgraph_induced vs : forallb (is_valid_vertex g) vs = true ->
  subgraph_of g (fun n => bool_decide (n ∈ (list_to_set vs : gset Z))) vs = induced (com_to_map g) (list_to_set vs).
Proof.
  intros Hv. rewrite forallb_forall in Hv. apply map_eq. intros v. unfold subgraph_of. rewrite foldl_insert_lookup, induced_lookup, lookup_empty.
  destruct (decide (v ∈ vs)) as [Hin|]; [rewrite decide_True by set_solver|by rewrite decide_False by set_solver].
  assert (is_valid_vertex g v = true) as Hvv by (apply Hv; by apply list_elem_of_In).
  rewrite filtered_sorted by done. apply valid_range in Hvv as [-> _]. cbn. f_equal. unfold restrict.
  apply list_filter_iff. intros n. apply bool_decide_eq_true.
Qed.

Lemma induced_sorted s : map_Forall (fun _ => sorted) (induced (com_to_map g) s).
Proof.
  intros v ns Hv. rewrite induced_lookup in Hv. case_decide; [|done]. apply fmap_Some in Hv as (l & Hl & ->). apply sorted_filter.
  rewrite (com_to_map_lookup g ls Hg) in Hl. case_decide; [|done]. rewrite Forall_lookup in Hs. by eapply Hs.
Qed.

Lemma filter_induced s : (forall v, v ∈ s -> is_Some (com_to_map g !! v)) -> induce_subgraph_filter g s = induced (com_to_map g) s.
Proof.
  intros Hv. apply map_eq. intros v. rewrite induced_lookup. unfold induce_subgraph_filter.
  assert (H0 : forall w, foldl (fun (r : adj_map_t) v => <[v := []]> r) ∅ (elements s) !! w = if decide (w ∈ s) then Some [] else None).
  { intros w. rewrite (foldl_insert_lookup (fun _ => [])), lookup_empty. by rewrite (decide_ext _ _ _ _ (elem_of_elements s w)). }
  set (r0 := foldl _ ∅ _) in *.
  assert (H1 : forall vs (r : adj_map_t), NoDup vs -> (forall w, w ∈ vs -> r !! w = Some []) ->
    foldl (fun r v => match get_neighbors_span g v with [] => r | ns => <[v := default [] (r !! v) ++ filter (fun n => n ∈ s) ns]> r end) r vs !! v =
    if decide (v ∈ vs) then Some (restrict s (get_neighbors_span g v)) else r !! v).
  { intros vs. induction vs as [|w vs IH]; intros r Hnd Hr; cbn [foldl]; [done|]. apply NoDup_cons in Hnd as [Hw Hnd].
    set (r' := match get_neighbors_span g w with [] => r | _ => _ end).
    assert (Hr' : forall x, r' !! x = if decide (x = w) then Some (restrict s (get_neighbors_span g w)) else r !! x).
    { intros x. subst r'. destruct (get_neighbors_span g w) as [|n ns]; [destruct (decide (x = w)); [subst; apply Hr; set_solver|done]|].
      rewrite (Hr w) by set_solver. destruct (decide (x = w)); [subst; apply lookup_insert_eq|by apply lookup_insert_ne]. }
    rewrite IH; [|done|intros x Hx; rewrite Hr', decide_False by set_solver; apply Hr; set_solver]. rewrite Hr'.
    destruct (decide (v = w)) as [->|]; [rewrite (decide_False (P := w ∈ vs)), decide_True by set_solver; done|].
    destruct (decide (v ∈ vs)); [by rewrite decide_True by set_solver|by rewrite decide_False by set_solver]. }
  rewrite H1; [|apply NoDup_elements|intros w Hw%elem_of_elements; rewrite H0; by rewrite decide_True].
  rewrite H0. rewrite (decide_ext _ _ _ _ (elem_of_elements s v)). case_decide as Hin; [|done].
  rewrite span_eq. by destruct (Hv v Hin) as [l ->].
Qed.

Lemma iter_lookup vs v : induce_subgraph_iter g vs !! v = if decide (v ∈ vs) then Some (default [] (com_to_map g !! v)) else None.
Proof.
  unfold induce_subgraph_iter.
  assert (H : forall (r : adj_map_t), (forall w ns, r !! w = Some ns -> ns = get_neighbors_span g w) ->
    foldl (fun r v => match r !! v with Some _ => r | None => <[v := get_neighbors_span g v]> r end) r vs !! v =
    if decide (v ∈ vs) then Some (get_neighbors_span g v) else r !! v).
  { induction vs as [|w vs IH]; intros r Hr; cbn [foldl]; [done|].
    set (r' := match r !! w with Some _ => r | None => _ end).
    assert (Hr' : forall x, r' !! x = if decide (x = w) then Some (get_neighbors_span g w) else r !! x).
    { intros x. subst r'. destruct (r !! w) as [ns|] eqn:E; destruct (decide (x = w)); subst; try done.
      - rewrite E. f_equal. by apply Hr.
      - apply lookup_insert_eq.
      - by apply lookup_insert_ne. }
    rewrite IH; [|intros x ns; rewrite Hr'; destruct (decide (x = w)); [by intros [= <-]; subst|apply Hr]]. rewrite Hr'.
    destruct (decide (v ∈ vs)); [by rewrite decide_True by set_solver|].
    destruct (decide (v = w)) as [->|]; [by rewrite decide_True by set_solver|by rewrite decide_False by set_solver]. }
  rewrite H by (intros w ns; by rewrite lookup_empty). by rewrite span_eq, lookup_empty.
Qed.

Lemma graph_map : compute_induced_graph_map g = com_to_map g.
Proof.
  apply map_eq. intros v. unfold compute_induced_graph_map, subgraph_of. rewrite foldl_insert_lookup, lookup_empty.
  assert (Hv : v ∈ com_vertex_list g <-> is_valid_vertex g v = true).
  { unfold com_vertex_list, is_valid_vertex. rewrite elem_of_seqZ, andb_true_iff, Z.leb_le, Z.ltb_lt. lia. }
  case_decide as Hin; rewrite Hv in Hin.
  - rewrite filtered_sorted by done. apply valid_range in Hin as [-> _]. f_equal. by apply filter_all.
  - rewrite valid_to_map in Hin. symmetry. by apply eq_None_not_Some.
Qed.

End Graph.

(** The set of a list of vertices. *)
Abbreviation set_of vs := (list_to_set vs : gset Z).

(** On a well-formed contiguous graph the computations of an induced
    subgraph agree: for existing vertices the pruned map, the filtered map and
    the compressed graph are the restriction of the graph to the vertices (a
    query of an edge finds it exactly when both ends were selected), the
    unpruned map keeps whole lists, and a missing vertex makes them throw. *)
Theorem induced_subgraphs (g : mem_sub_com_t) (vs : list Z) :
  wf g ->
  let sub := induced (to_map g) (set_of vs) in
  if decide (Forall (fun v => is_Some (to_map g !! v)) vs) then
    compute_induced_subgraph_map g vs true = Ok sub /\
    compute_induced_subgraph_map g vs false = Ok (induce_subgraph_iter g vs) /\
    induce_subgraph_filter g (set_of vs) = sub /\
    exists h, compute_induced_subgraph g vs = Ok h /\ wf h /\ to_map h = sub /\
      forall u v, has_edge h u v = bool_decide (u ∈ vs /\ v ∈ vs) && has_edge g u v
  else
    compute_induced_subgraph g vs = Throw invalid_argument /\
    forall is_pruning, compute_induced_subgraph_map g vs is_pruning = Throw invalid_argument.
Proof.
  intros Hw sub. pose proof Hw as (ls & Hg & Hs). pose proof (forallb_valid g ls Hg vs) as Hv.
  case_decide as Hall; rewrite Forall_forall in Hall.
  - assert (Hf : forallb (is_valid_vertex g) vs = true) by by apply Hv.
    unfold compute_induced_subgraph_map, compute_induced_subgraph. rewrite Hf. cbn [negb orb].
    pose proof (subgraph_induced g ls Hg Hs vs Hf) as Hsub.
    change (subgraph_of g (fun n => bool_decide (n ∈ set_of vs)) vs = sub) in Hsub. rewrite Hsub.
    split; [done|]. split.
    { f_equal. apply map_eq. intros v. unfold subgraph_of. rewrite foldl_insert_lookup, (iter_lookup g ls Hg Hs), lookup_empty.
      case_decide as Hin; [|done]. rewrite forallb_forall in Hf. assert (is_valid_vertex g v = true) as Hvv by (apply Hf; by apply list_elem_of_In).
      rewrite (filtered_sorted g ls Hg Hs) by done. apply (valid_range g ls Hg Hs) in Hvv as [-> _]. cbn. f_equal. by apply filter_all. }
    split; [apply (filter_induced g ls Hg Hs); intros v; rewrite elem_of_list_to_set; apply Hall|].
    destruct (csr_of_adj_map_wf sub (induced_sorted g ls Hg Hs (set_of vs))) as [Hh Hm].
    exists (csr_of_adj_map sub). split; [done|]. split; [done|]. split; [done|]. intros u v.
    rewrite has_edge_spec, Hm, has_edge_spec by done. unfold sub. rewrite induced_lookup, <- bool_decide_and. apply bool_decide_ext.
    case_decide as Hu; rewrite elem_of_list_to_set in Hu; [|cbn; rewrite elem_of_nil; tauto].
    destruct (to_map g !! u); cbn; [unfold restrict; rewrite list_elem_of_filter, elem_of_list_to_set; tauto|rewrite elem_of_nil; tauto].
  - assert (Hf : forallb (is_valid_vertex g) vs = false) by (apply not_true_is_false; by rewrite Hv).
    unfold compute_induced_subgraph_map, compute_induced_subgraph. by rewrite Hf.
Qed.

(** ** The representations *)

(** Identifiers without gaps; every neighbour is a vertex. *)
Record contiguous (m : adj_map_t) : Prop := {
  co_neighbors : forall v ns, m !! v = Some ns -> Forall (fun w => is_Some (m !! w)) ns;
  co_down : forall v w, is_Some (m !! v) -> 0 <= w <= v -> is_Some (m !! w)
}.

Lemma foldl_max_in l a : foldl Z.max a l = a \/ foldl Z.max a l ∈ l.
Proof.
  revert a. induction l as [|x l IH]; intros a; cbn [foldl]; [by left|]. destruct (IH (Z.max a x)) as [->|]; [|set_solver].
  destruct (Z.max_spec a x) as [[_ ->]|[_ ->]]; set_solver.
Qed.

Lemma max_vertex_in m : m <> ∅ -> ids_ok m -> exists v ns, m !! v = Some ns /\ (max_vertex m = v \/ max_vertex m ∈ ns).
Proof.
  intros Hne Hok.
  assert (H : forall l a, foldl (fun m q => foldl Z.max (Z.max m q.1) q.2) a l = a \/
    exists q, q ∈ l /\ (foldl (fun m q => foldl Z.max (Z.max m q.1) q.2) a l = q.1 \/
      foldl (fun m q => foldl Z.max (Z.max m q.1) q.2) a l ∈ q.2)).
  { intros l. induction l as [|q l IH]; intros a; cbn [foldl]; [by left|].
    destruct (IH (foldl Z.max (Z.max a q.1) q.2)) as [->|(q' & ? & ?)]; [|right; exists q'; set_solver].
    destruct (foldl_max_in q.2 (Z.max a q.1)) as [->|]; [|right; exists q; set_solver].
    destruct (Z.max_spec a q.1) as [[_ ->]|[_ ->]]; [right; exists q; set_solver|by left]. }
  unfold max_vertex. destruct (H (map_to_list m) 0) as [E|([v ns] & Hq%elem_of_map_to_list & Hm)]; [|by exists v, ns].
  apply map_choose in Hne as (v & ns & Hv). destruct (max_vertex_spec m Hok) as [_ Hmx]. destruct (Hmx v ns Hv) as [Hle _].
  destruct (Hok v ns Hv) as [Hb _]. unfold max_vertex in Hle. rewrite E in Hle |- *. exists v, ns. split; [done|]. left. lia.
Qed.

Lemma com_to_map_id m comms : ids_ok m -> map_Forall (fun _ => sorted) m -> contiguous m ->
  com_to_map (com_of_adj_map m comms) = m.
Proof.
  intros Hok Hs Hc. apply map_eq. intros v. rewrite (proj2 (com_of_adj_map_wf m comms Hok)).
  destruct (decide (m = ∅)) as [He|Hne].
  { unfold com_of_adj_map. rewrite !(decide_True (P := m = ∅)) by done. rewrite He, lookup_empty.
    change (Z.of_nat (num_vertices new_sub_com)) with 0. by case_decide; [lia|]. }
  rewrite (lo_count _ _ (com_of_adj_map_lays_out m comms Hok Hne)), (length_padded m).
  pose proof (size_n m Hok) as Hn. rewrite Hn. destruct (max_vertex_spec m Hok) as [_ Hmx].
  assert (Hmax : is_Some (m !! max_vertex m)).
  { destruct (max_vertex_in m Hne Hok) as (w & ns & Hw & [->|Hin]); [eauto|].
    apply co_neighbors in Hw; [|done]. rewrite Forall_forall in Hw. by apply Hw. }
  case_decide as Hv.
  - destruct (co_down m Hc (max_vertex m) v Hmax) as [ns Hns]; [lia|]. rewrite Hns. cbn. f_equal. apply sort_id. by apply (Hs v).
  - destruct (m !! v) as [ns|] eqn:E; [|done]. destruct (Hmx v ns E) as [? _]. destruct (Hok v ns E) as [? _]. lia.
Qed.

(** C29: the three representations of one adjacency map with sorted lists give a
    caller the same answers to every query of the interface, and converting
    back returns the map; the contiguous one under the condition its use
    supposes, that no identifier is missing. *)
Theorem representations_agree (m : adj_map_t) (community_map : gmap Z Z) :
  map_Forall (fun _ => sorted) m -> ids_ok m ->
  same_answers (of_adj_map m) (csr_of_adj_map m) /\
  (contiguous m -> same_answers (of_adj_map m) (com_of_adj_map m community_map) /\
    same_answers (csr_of_adj_map m) (com_of_adj_map m community_map)) /\
  to_map (of_adj_map m) = m /\ to_map (csr_of_adj_map m) = m.
Proof.
  intros Hs Hok. destruct (of_adj_map_wf m) as [H1 E1]. destruct (csr_of_adj_map_wf m Hs) as [H2 E2].
  pose proof (proj1 (com_of_adj_map_wf m community_map Hok)) as H3. split; [apply same_map_answers; by rewrite ?E1, ?E2|].
  split; [|done]. intros Hc. pose proof (com_to_map_id m community_map Hok Hs Hc) as E3.
  split; apply same_map_answers; [exact H1|exact H3|by rewrite E1; symmetry|exact H2|exact H3|by rewrite E2; symmetry].
Qed.

(** ** A sample *)

Definition sample_map : adj_map_t := {[0 := [1; 2]; 1 := [0]; 2 := [0; 3]; 3 := [2]]}.

Lemma sample_map_ok : map_Forall (fun _ => sorted) sample_map /\ ids_ok sample_map /\ contiguous sample_map.
Proof.
  assert (H : forall v ns, sample_map !! v = Some ns -> (v, ns) ∈ [(0, [1; 2]); (1, [0]); (2, [0; 3]); (3, [2])]).
  { intros v ns. unfold sample_map. rewrite !lookup_insert_Some, lookup_singleton_Some. set_solver. }
  split; [|split; [|split]].
  - intros v ns Hv%H. rewrite !elem_of_cons, elem_of_nil in Hv. destruct Hv as [Hv|[Hv|[Hv|[Hv|[]]]]]; injection Hv as -> ->; repeat constructor; lia.
  - intros v ns Hv%H. rewrite !elem_of_cons, elem_of_nil in Hv. destruct Hv as [Hv|[Hv|[Hv|[Hv|[]]]]]; injection Hv as -> ->; split; repeat constructor; lia.
  - intros v ns Hv%H. rewrite !elem_of_cons, elem_of_nil in Hv. destruct Hv as [Hv|[Hv|[Hv|[Hv|[]]]]]; injection Hv as -> ->; repeat constructor; vm_compute; eauto.
  - intros v w [ns Hv%H] Hw. assert (Hr : w = 0 \/ w = 1 \/ w = 2 \/ w = 3).
    { rewrite !elem_of_cons, elem_of_nil in Hv. destruct Hv as [Hv|[Hv|[Hv|[Hv|[]]]]]; injection Hv as -> ->; lia. }
    destruct Hr as [-> | [-> | [-> | ->]]]; vm_compute; eauto.
Qed.

Lemma representations_agree_witness :
  let m := sample_map in
  same_answers (of_adj_map m) (csr_of_adj_map m) /\ has_edge (com_of_adj_map m ∅) 2 3 = true /\
  same_answers (csr_of_adj_map m) (com_of_adj_map m ∅).
Proof.
  destruct sample_map_ok as (Hs & Hi & Hc). destruct (representations_agree sample_map ∅ Hs Hi) as (H1 & H2 & _).
  destruct (H2 Hc) as [_ H3]. split; [exact H1|]. split; [vm_compute; reflexivity|exact H3].
Defined.

Lemma induced_subgraphs_witness :
  let g := com_of_adj_map sample_map ∅ in
  compute_induced_subgraph_map g [2; 0; 3] true = Ok (induced (to_map g) (set_of [2; 0; 3])) /\
  induce_subgraph_filter g (set_of [2; 0; 3]) = {[0 := [2]; 2 := [0; 3]; 3 := [2]]} /\
  compute_induced_subgraph g [2; 7] = Throw invalid_argument.
Proof.
  destruct sample_map_ok as (_ & Hi & _). pose proof (proj1 (com_of_adj_map_wf sample_map ∅ Hi)) as Hw.
  pose proof (induced_subgraphs (com_of_adj_map sample_map ∅) [2; 0; 3] Hw) as H. cbv zeta in H.
  rewrite decide_True in H by (repeat constructor; vm_compute; eauto). destruct H as (H & _).
  split; [exact H|]. split; [vm_compute; reflexivity|]. vm_compute. reflexivity.
Defined.

End MemGraphSub.
