(* ===== verification/MemBfs.v ===== *)
(** * Searches of the contiguous graph

    [bfs], [bfs_parallel] and [graph_sample_bfs] of [mem_sub_com_t]
    (src/src/mem_g0com.cc).  The parallel search splits a large frontier among
    tasks that test a vertex, test it again under a lock, and append what they
    found; a schedule interleaves their steps and the split is arbitrary.  Both
    searches return every reachable vertex once, with its distance. *)

From S2P Require Import Prelude Config DeltaPage VertexIndex PageMap CsrPage Db GraphRead Interleave.
From S2P Require Import MemGraph MapGraph CsrGraph ComGraph MemGraphSub.

Local Open Scope Z_scope.

(** The searches see the graph as the database's algorithms do. *)
Definition com_adj (g : ComGraph.mem_sub_com_t) (v : Z) : option (list Z) :=
  if ComGraph.is_valid_vertex g v then Some (ComGraph.com_range g v) else None.

#[export] Program Instance com_reader : NeighborReader ComGraph.mem_sub_com_t := {|
  vertices := ComGraph.num_vertices;
  read := fun g v => (fun l => (l, g)) <$> com_adj g v;
  adj := com_adj
|}.
Next Obligation. intros g v. cbn. by destruct (com_adj g v). Qed.
Next Obligation. intros g v l g' E. cbn in *. destruct (com_adj g v); [|done]. by injection E as _ <-. Qed.

Module MemBfs.
Import MemGraph MapGraph ComGraph GraphRead Interleave.

(** ** The sequential search *)

Record bfs_state := BfsState {
  visited : list bool;
  next_level : list Z;
  result : list (Z * Z)
}.

(** [None]: an access out of range. *)
Definition visit (current_distance : Z) (st : bfs_state) (neighbor : Z) : option bfs_state :=
  seen ← visited st !! Z.to_nat neighbor;
  Some (if (seen : bool) then st
        else BfsState (<[Z.to_nat neighbor := true]> (visited st)) (next_level st ++ [neighbor])
               (result st ++ [(neighbor, current_distance)])).

Fixpoint visit_all (current_distance : Z) (ns : list Z) (st : bfs_state) : option bfs_state :=
  match ns with
  | [] => Some st
  | n :: ns => st ← visit current_distance st n; visit_all current_distance ns st
  end.

Fixpoint visit_level (g : mem_sub_com_t) (current_distance : Z) (vs : list Z) (st : bfs_state) : option bfs_state :=
  match vs with
  | [] => Some st
  | v :: vs => st ← visit_all current_distance (com_range g v) st; visit_level g current_distance vs st
  end.

Fixpoint bfs_loop (fuel : nat) (g : mem_sub_com_t) (current_level : list Z) (current_distance : Z)
    (visited : list bool) (result : list (Z * Z)) : option (list (Z * Z)) :=
  match current_level with
  | [] => Some result
  | _ =>
    match fuel with
    | O => None
    | S fuel =>
      let current_distance := current_distance + 1 in
      st ← visit_level g current_distance current_level (BfsState visited [] result);
      bfs_loop fuel g (next_level st) current_distance (MemBfs.visited st) (MemBfs.result st)
    end
  end.

Definition bfs (fuel : nat) (g : mem_sub_com_t) (start_vertex : Z) : option (list (Z * Z)) :=
  if negb (is_valid_vertex g start_vertex) then Some []
  else bfs_loop fuel g [start_vertex] 0 (<[Z.to_nat start_vertex := true]> (replicate (num_vertices g) false)) [(start_vertex, 0)].

(** ** The parallel search *)

Record shared_t := Shared {
  seen : list bool;
  distances : list Z;
  next_frontier : list Z
}.

(** Where a task is: before the test without the lock, before the locked
    section of the vertex it found free; [remaining] are the neighbours of its
    part of the frontier still to be looked at. *)
Inductive task_pc := T_test | T_locked (neighbor : Z) | T_done.

Record task_t := Task { pc : task_pc; remaining : list Z; local_next : list Z }.

Definition claim (current_distance : Z) (st : shared_t) (n : Z) : shared_t :=
  Shared (<[Z.to_nat n := true]> (seen st)) (<[Z.to_nat n := current_distance]> (distances st)) (next_frontier st).

Definition step_task (current_distance : Z) (st : shared_t) (_ : nat) (t : task_t) : option (shared_t * task_t) :=
  match pc t with
  | T_test =>
    match remaining t with
    | [] => Some (Shared (seen st) (distances st) (next_frontier st ++ local_next t), Task T_done [] [])
    | n :: ns =>
      b ← seen st !! Z.to_nat n;
      Some (st, Task (if (b : bool) then T_test else T_locked n) ns (local_next t))
    end
  | T_locked n =>
    b ← seen st !! Z.to_nat n;
    Some (if (b : bool) then (st, Task T_test (remaining t) (local_next t))
          else (claim current_distance st n, Task T_test (remaining t) (local_next t ++ [n])))
  | T_done => Some (st, t)
  end.

Definition task_weight (t : task_t) : nat :=
  match pc t with
  | T_test => 2 * length (remaining t) + 1
  | T_locked _ => 2 * length (remaining t) + 2
  | T_done => 0
  end.

(** A small frontier is processed by the calling thread, without the lock. *)
Fixpoint visit_alone (current_distance : Z) (ns : list Z) (st : shared_t) : option shared_t :=
  match ns with
  | [] => Some st
  | n :: ns =>
    b ← seen st !! Z.to_nat n;
    visit_alone current_distance ns
      (if (b : bool) then st
       else let st := claim current_distance st n in Shared (seen st) (distances st) (next_frontier st ++ [n]))
  end.

Definition UINT32_MAX : Z := 4294967295.

(** [split]: how the scheduler cuts the frontier into ranges. *)
Definition parallel_round (split : list Z -> list (list Z)) (sched : list nat) (g : mem_sub_com_t)
    (current_distance : Z) (frontier : list Z) (st : shared_t) : option shared_t :=
  if 400 <? Z.of_nat (length frontier) then
    let tasks := (fun part => Task T_test (part ≫= com_range g) []) <$> split frontier in
    '(st, _) ← run_all (step_task current_distance) task_weight sched st tasks;
    Some st
  else visit_alone current_distance (frontier ≫= com_range g) st.

Fixpoint parallel_loop (fuel round : nat) (split : nat -> list Z -> list (list Z)) (sched : nat -> list nat)
    (g : mem_sub_com_t) (current_frontier : list Z) (current_distance : Z) (seen : list bool) (distances : list Z) : option (list Z) :=
  match current_frontier with
  | [] => Some distances
  | _ =>
    match fuel with
    | O => None
    | S fuel =>
      let current_distance := current_distance + 1 in
      st ← parallel_round (split round) (sched round) g current_distance current_frontier (Shared seen distances []);
      parallel_loop fuel (S round) split sched g (next_frontier st) current_distance (MemBfs.seen st) (MemBfs.distances st)
    end
  end.

Definition distance_le (p q : Z * Z) : Prop := p.2 <= q.2.
#[export] Instance distance_le_dec p q : Decision (distance_le p q).
Proof. unfold distance_le. apply _. Defined.

(** [std::sort] by distance leaves the order of equal distances open; the
    stable sort is one of its results. *)
Definition bfs_parallel (fuel : nat) (split : nat -> list Z -> list (list Z)) (sched : nat -> list nat)
    (g : mem_sub_com_t) (start_vertex : Z) : option (list (Z * Z)) :=
  if negb (is_valid_vertex g start_vertex) then Some []
  else if Z.of_nat (num_vertices g) <? 100000 then bfs fuel g start_vertex
  else
    distances ← parallel_loop fuel 0 split sched g [start_vertex] 0
      (<[Z.to_nat start_vertex := true]> (replicate (num_vertices g) false))
      (<[Z.to_nat start_vertex := 0]> (replicate (num_vertices g) UINT32_MAX));
    Some (merge_sort distance_le
      (omap (fun i => d ← distances !! Z.to_nat i; if d =? UINT32_MAX then None else Some (i, d)) (seqZ 0 (Z.of_nat (num_vertices g))))).

(** ** Sampling by breadth-first search *)

(** The inner loop over the neighbours of a vertex taken from the queue. *)
Fixpoint sample_neighbors (vertex_count : Z) (ns : list Z) (queue sampled : list Z) (visited_set : gset Z) : list Z * list Z * gset Z :=
  match ns with
  | [] => (queue, sampled, visited_set)
  | n :: ns =>
    if vertex_count <=? Z.of_nat (length sampled) then (queue, sampled, visited_set)
    else if bool_decide (n ∈ visited_set) then sample_neighbors vertex_count ns queue sampled visited_set
    else sample_neighbors vertex_count ns (queue ++ [n]) (sampled ++ [n]) ({[n]} ∪ visited_set)
  end.

Fixpoint sample_loop (fuel : nat) (g : mem_sub_com_t) (vertex_count : Z) (queue sampled : list Z) (visited_set : gset Z) : option (list Z * gset Z) :=
  match queue with
  | [] => Some (sampled, visited_set)
  | current_vertex :: queue =>
    if vertex_count <=? Z.of_nat (length sampled) then Some (sampled, visited_set)
    else match fuel with
    | O => None
    | S fuel =>
      let '(queue, sampled, visited_set) :=
        sample_neighbors vertex_count (get_neighbors_span g current_vertex) queue sampled visited_set in
      sample_loop fuel g vertex_count queue sampled visited_set
    end
  end.

Definition graph_sample_bfs (fuel : nat) (g : mem_sub_com_t) (start_vertex vertex_count : Z) : option MapGraph.mem_sub_map_t :=
  if negb (com_has_vertex g start_vertex) then Some (MapGraph.of_adj_map ∅)
  else
    '(sampled, visited_set) ← sample_loop fuel g vertex_count [start_vertex] [start_vertex] {[start_vertex]};
    Some (MapGraph.of_adj_map (foldl (fun (m : adj_map_t) v =>
      <[v := sort (filter (fun n => n ∈ visited_set) (get_neighbors_span g v))]> m) ∅ sampled)).


(** ** Sampling by a random walk

    [draw i k b] is the [k]-th integer of iteration [i], between 0 and [b];
    [restarts i] says whether its last draw is below 0.15. *)
Record walk_state := WalkState {
  current_vertex : Z;
  sampled_vertices : list Z;
  walk_visited : gset Z;
  walked_edges : adj_map_t
}.

Inductive walk_outcome := Continue (st : walk_state) | Break (st : walk_state).

Section Walk.
Variables (draw : nat -> nat -> nat -> nat) (restarts : nat -> bool).

(** A dead end: go on from a vertex sampled before, if there is another. *)
Definition restart_from (i k : nat) (st : walk_state) : walk_state :=
  let n := length (sampled_vertices st) in
  WalkState (default 0 (sampled_vertices st !! draw i k (n - 1))) (sampled_vertices st) (walk_visited st) (walked_edges st).

Definition dead_end (i : nat) (st : walk_state) : walk_outcome :=
  if (1 <? length (sampled_vertices st))%nat then Continue (restart_from i 0 st) else Break st.

Definition take_edge (next_vertex : Z) (st : walk_state) : walk_state :=
  let c := current_vertex st in
  let walked := <[c := default [] (walked_edges st !! c) ++ [next_vertex]]> (walked_edges st) in
  if bool_decide (next_vertex ∈ walk_visited st) then WalkState next_vertex (sampled_vertices st) (walk_visited st) walked
  else WalkState next_vertex (sampled_vertices st ++ [next_vertex]) ({[next_vertex]} ∪ walk_visited st) walked.

Definition walk_step (g : mem_sub_com_t) (i : nat) (st : walk_state) : walk_outcome :=
  let neighbors_span := get_neighbors_span g (current_vertex st) in
  match neighbors_span with
  | [] => dead_end i st
  | _ =>
    let valid := filter (fun n => is_valid_vertex g n = true) neighbors_span in
    match valid with
    | [] => dead_end i st
    | _ =>
      let next_vertex := default 0 (valid !! draw i 1 (length valid - 1)) in
      let st := take_edge next_vertex st in
      Continue (if restarts i && (1 <? length (sampled_vertices st))%nat then restart_from i 2 st else st)
    end
  end.

Fixpoint walk_loop (fuel i : nat) (g : mem_sub_com_t) (max_vertices : Z) (st : walk_state) : option walk_state :=
  if max_vertices <=? Z.of_nat (length (sampled_vertices st)) then Some st
  else match fuel with
  | O => None
  | S fuel =>
    match walk_step g i st with
    | Break st => Some st
    | Continue st => walk_loop fuel (S i) g max_vertices st
    end
  end.

Definition graph_sample_random_walk (fuel : nat) (g : mem_sub_com_t) (start_vertex max_vertices : Z) : option mem_sub_map_t :=
  if negb (is_valid_vertex g start_vertex) then Some (of_adj_map ∅)
  else st ← walk_loop fuel 0 g max_vertices (WalkState start_vertex [start_vertex] {[start_vertex]} ∅); Some (of_adj_map (walked_edges st)).

End Walk.

(** ** Levels *)

Section Levels.
Context {D : Type} `{!NeighborReader D}.
Variables (d : D) (s : Z).

(** After level [k]: [seen_ v] for the vertices no further than [k], [cur v] for
    those at distance [k]. *)
Definition level_ok (k : nat) (seen_ cur : Z -> Prop) : Prop :=
  (forall v, seen_ v <-> exists j, (j <= k)%nat /\ walk d s j v) /\ (forall v, cur v <-> distance d s v k).

Lemma level_ok_0 : vertex d s -> level_ok 0 (eq s) (eq s).
Proof.
  intros Hs. split; intros v; split.
  - intros <-. exists 0%nat. split; [done|]. by constructor.
  - intros (j & Hj & Hw). assert (j = 0%nat) as -> by lia. by inversion Hw.
  - intros <-. split; [by constructor|lia].
  - intros [Hw _]. by inversion Hw.
Qed.

Lemma level_ok_step k (seen_ cur seen' cur' : Z -> Prop) : level_ok k seen_ cur -> (forall v, Decision (seen_ v)) ->
  (forall v, cur' v <-> ~ seen_ v /\ exists u, cur u /\ edge d u v) ->
  (forall v, seen' v <-> seen_ v \/ cur' v) -> level_ok (S k) seen' cur'.
Proof.
  intros [Hv Hc] Hdec Hc' Hv'.
  assert (Hcur : forall v, cur' v <-> distance d s v (S k)).
  { intros v. rewrite Hc'. split.
    - intros [Hn (u & Hu & He)]. apply Hc in Hu as [Hw _]. split; [by econstructor|]. intros j Hj.
      destruct (decide (j <= k)%nat); [|lia]. destruct Hn. apply Hv. by exists j.
    - intros Hd. destruct (distance_pred _ _ _ _ Hd) as (u & Hu & He). split; [|exists u; split; [by apply Hc|done]].
      rewrite Hv. intros (j & Hj & Hw). destruct Hd as [_ Hm]. specialize (Hm j Hw). lia. }
  split; [|done]. intros v. rewrite Hv', Hcur, Hv. split.
  - intros [(j & ? & ?)|[? _]]; [exists j; split; [lia|done]|by exists (S k)].
  - intros (j & Hj & Hw). destruct (decide (j <= k)%nat); [left; by exists j|]. replace j with (S k) in Hw by lia.
    destruct (Hdec v) as [Hs|Hs]; rewrite Hv in Hs; [by left|]. right. split; [done|]. intros i Hi.
    destruct (decide (i <= k)%nat); [|lia]. destruct Hs. by exists i.
Qed.

Lemma level_ok_end k (seen_ cur : Z -> Prop) : level_ok k seen_ cur -> (forall v, ~ cur v) -> forall v j, distance d s v j -> (j < k)%nat.
Proof.
  intros [_ Hc] Hn v j Hd. destruct (decide (j < k)%nat); [done|]. exfalso.
  revert v Hd. induction j as [|j IH]; intros v Hd.
  - apply (Hn v), Hc. by replace k with 0%nat by lia.
  - destruct (decide (k = S j)) as [->|]; [by apply (Hn v), Hc|]. destruct (distance_pred _ _ _ _ Hd) as (u & Hu & _).
    apply (IH ltac:(lia) u Hu).
Qed.

End Levels.

(** ** One level of the sequential search *)

Definition marked (visited : list bool) (v : Z) : Prop := 0 <= v /\ visited !! Z.to_nat v = Some true.

#[export] Instance marked_dec visited v : Decision (marked visited v).
Proof. unfold marked. apply _. Defined.

Definition in_range (n : nat) (v : Z) : Prop := 0 <= v < Z.of_nat n.

Lemma marked_set l v w : in_range (length l) v -> marked (<[Z.to_nat v := true]> l) w <-> marked l w \/ w = v.
Proof.
  intros [H0 Hl]. unfold marked. destruct (decide (w = v)) as [->|Hne].
  - rewrite list_lookup_insert_eq by lia. tauto.
  - destruct (decide (0 <= w)); [|naive_solver]. rewrite list_lookup_insert_ne by lia. tauto.
Qed.

(** What processing [ns] adds: the unmarked ones, once each. *)
Record adds (visited : list bool) (ns new : list Z) : Prop := {
  ad_nodup : NoDup new;
  ad_new : forall v, v ∈ new <-> v ∈ ns /\ ~ marked visited v
}.

Lemma lookup_marked l v : in_range (length l) v -> exists b, l !! Z.to_nat v = Some b /\ (b = true <-> marked l v).
Proof.
  intros [H0 Hl]. destruct (lookup_lt_is_Some_2 l (Z.to_nat v)) as [b Hb]; [lia|]. exists b. split; [done|]. unfold marked. rewrite Hb. naive_solver.
Qed.

Lemma visit_all_spec dist ns : forall st, Forall (in_range (length (visited st))) ns ->
  exists new vis', visit_all dist ns st = Some (BfsState vis' (next_level st ++ new) (result st ++ ((fun v => (v, dist)) <$> new))) /\
    adds (visited st) ns new /\ length vis' = length (visited st) /\ forall v, marked vis' v <-> marked (visited st) v \/ v ∈ new.
Proof.
  induction ns as [|n ns IH]; intros st Hns.
  - exists [], (visited st). cbn. rewrite !app_nil_r. destruct st. split; [done|]. split; [split; [constructor|set_solver]|]. split; [done|]. set_solver.
  - apply Forall_cons in Hns as [Hn Hns]. cbn [visit_all]. unfold visit. destruct (lookup_marked _ _ Hn) as (b & -> & Hb).
    cbn [mbind option_bind]. destruct b.
    + destruct (IH st Hns) as (new & vis' & E & [Ha1 Ha2] & Hl & Hm). exists new, vis'. split; [done|]. split; [|done]. split; [done|].
      intros v. rewrite Ha2. destruct (proj1 Hb eq_refl). set_solver.
    + assert (Hnm : ~ marked (visited st) n) by (rewrite <- Hb; done).
      set (st1 := BfsState _ _ _). destruct (IH st1) as (new & vis' & E & [Ha1 Ha2] & Hl & Hm).
      { subst st1. cbn [visited]. by rewrite length_insert. }
      subst st1. cbn [visited next_level result] in *. rewrite length_insert in Hl.
      exists (n :: new), vis'. split; [rewrite E; cbn [fmap list_fmap]; by rewrite <- !app_assoc|].
      assert (Hms : forall v, marked (<[Z.to_nat n := true]> (visited st)) v <-> marked (visited st) v \/ v = n) by (intros; by apply marked_set).
      split; [split|split; [done|]].
      * constructor; [|done]. rewrite Ha2, Hms. tauto.
      * intros v. rewrite !elem_of_cons, Ha2, Hms. destruct (decide (v = n)) as [->|]; tauto.
      * intros v. rewrite Hm, Hms, elem_of_cons. tauto.
Qed.

Lemma visit_level_flat g dist vs : forall st, visit_level g dist vs st = visit_all dist (vs ≫= com_range g) st.
Proof.
  assert (H : forall a b st, visit_all dist (a ++ b) st = visit_all dist a st ≫= visit_all dist b).
  { intros a. induction a as [|n a IH]; intros b st; [done|]. cbn. destruct (visit dist st n); [apply IH|done]. }
  induction vs as [|v vs IH]; intros st; [done|]. cbn [visit_level mbind list_bind]. rewrite H.
  destruct (visit_all dist (com_range g v) st); [apply IH|done].
Qed.

(** ** The sequential search is right *)

(** Every stored neighbour is a vertex. *)
Definition closed (g : mem_sub_com_t) : Prop := forall v l, com_adj g v = Some l -> Forall (in_range (num_vertices g)) l.

(** Each reachable vertex once, with its distance, the near ones first. *)
Record search_ok (g : mem_sub_com_t) (s : Z) (r : list (Z * Z)) : Prop := {
  so_once : NoDup r.*1;
  so_sorted : StronglySorted distance_le r;
  so_all : forall v d, (v, d) ∈ r <-> exists j, d = Z.of_nat j /\ distance g s v j
}.

Section Search.
Variables (g : mem_sub_com_t) (s : Z).
Hypothesis g_closed : closed g.

Lemma valid_vertex v : is_valid_vertex g v = true <-> vertex g v.
Proof. unfold is_valid_vertex, vertex. rewrite andb_true_iff, Z.leb_le, Z.ltb_lt. done. Qed.

Lemma edge_range u v : edge g u v <-> vertex g u /\ v ∈ com_range g u.
Proof.
  unfold edge. cbn. unfold com_adj. split.
  - intros (Hu & _ & l & Hl & Hv). rewrite (proj2 (valid_vertex u) Hu) in Hl. by injection Hl as <-.
  - intros [Hu Hv]. assert (Ha : com_adj g u = Some (com_range g u)) by (unfold com_adj; by rewrite (proj2 (valid_vertex u) Hu)).
    split; [done|]. split; [|by exists (com_range g u); rewrite (proj2 (valid_vertex u) Hu)].
    pose proof (g_closed u _ Ha) as Hc. rewrite Forall_forall in Hc. by apply Hc.
Qed.

(** The neighbours of a frontier: the targets of the edges out of it. *)
Lemma frontier_targets vs v : (forall u, u ∈ vs -> vertex g u) ->
  v ∈ (vs ≫= com_range g) <-> exists u, u ∈ vs /\ edge g u v.
Proof.
  intros Hv. rewrite list_elem_of_bind. split.
  - intros (u & Hu & Hin). exists u. split; [done|]. apply edge_range. by split; [apply Hv|].
  - intros (u & Hin & [_ Hu]%edge_range). by exists u.
Qed.

Lemma frontier_in_range vs : (forall u, u ∈ vs -> vertex g u) -> Forall (in_range (num_vertices g)) (vs ≫= com_range g).
Proof. intros Hv. rewrite Forall_forall. intros v (u & _ & (_ & Hr & _))%frontier_targets; [exact Hr|done]. Qed.

(** A step of either search raises the level. *)
Lemma adds_level k visited visited' frontier new :
  level_ok g s k (marked visited) (fun v => v ∈ frontier) -> (forall u, u ∈ frontier -> vertex g u) ->
  adds visited (frontier ≫= com_range g) new -> (forall v, marked visited' v <-> marked visited v \/ v ∈ new) ->
  level_ok g s (S k) (marked visited') (fun v => v ∈ new).
Proof.
  intros Hl Hf [_ Ha] Hm. eapply level_ok_step; [exact Hl|apply _| |done]. intros v. rewrite Ha, frontier_targets by done. tauto.
Qed.

Record loop_inv (k : nat) (current : list Z) (visited : list bool) (result : list (Z * Z)) : Prop := {
  lv_length : length visited = num_vertices g;
  lv_level : level_ok g s k (marked visited) (fun v => v ∈ current);
  lv_once : NoDup result.*1;
  lv_sorted : StronglySorted distance_le result;
  lv_result : forall v d, (v, d) ∈ result <-> exists j, (j <= k)%nat /\ d = Z.of_nat j /\ distance g s v j
}.

Lemma level_vertex k visited (current : list Z) : level_ok g s k visited (fun v => v ∈ current) -> forall v, v ∈ current -> vertex g v.
Proof. intros [_ Hc] v Hv. apply Hc in Hv as [Hw _]. by apply walk_vertex in Hw as [_ ?]. Qed.

Lemma loop_inv_step k current visited result new visited' : loop_inv k current visited result ->
  adds visited (current ≫= com_range g) new -> length visited' = length visited ->
  (forall v, marked visited' v <-> marked visited v \/ v ∈ new) ->
  loop_inv (S k) new visited' (result ++ ((fun v => (v, Z.of_nat (S k))) <$> new)).
Proof.
  intros Hi Ha Hl Hm. pose proof (adds_level k visited visited' current new (lv_level _ _ _ _ Hi)
    (level_vertex _ _ _ (lv_level _ _ _ _ Hi)) Ha Hm) as Hlev.
  pose proof (proj2 Hlev) as Hcur. cbn beta in Hcur.
  split; [by rewrite Hl, (lv_length _ _ _ _ Hi)|done|..].
  - rewrite fmap_app, <- list_fmap_compose. change ((fst ∘ (fun v : Z => (v, Z.of_nat (S k)))) <$> new) with (id <$> new). rewrite list_fmap_id.
    apply NoDup_app. split; [by eapply lv_once|]. split; [|by eapply ad_nodup].
    intros v ([v' d] & -> & Hin)%list_elem_of_fmap Hv. cbn in Hv. apply (lv_result _ _ _ _ Hi) in Hin as (j & Hj & _ & Hd).
    apply Hcur in Hv. pose proof (distance_fun _ _ _ _ _ Hd Hv). lia.
  - apply StronglySorted_app. split; [|split; [by eapply lv_sorted|]].
    + intros [v d] [v' d'] (j & Hj & -> & _)%(lv_result _ _ _ _ Hi) (w & [= -> ->] & _)%list_elem_of_fmap. unfold distance_le. cbn. lia.
    + clear. induction new as [|v new IH]; cbn; constructor; [done|]. rewrite Forall_fmap. apply Forall_true. intros. unfold distance_le. cbn. lia.
  - intros v d. rewrite elem_of_app, (lv_result _ _ _ _ Hi), list_elem_of_fmap. split.
    + intros [(j & ? & ? & ?)|(w & [= -> ->] & Hw)]; [exists j; split; [lia|done]|]. exists (S k). split; [done|]. split; [done|]. by apply Hcur.
    + intros (j & Hj & -> & Hd). destruct (decide (j <= k)%nat); [left; by exists j|]. right. replace j with (S k) in * by lia.
      exists v. split; [done|]. by apply Hcur.
Qed.

Lemma bfs_loop_ok fuel : forall k current visited result, loop_inv k current visited result -> (num_vertices g <= fuel + k)%nat ->
  exists r, bfs_loop fuel g current (Z.of_nat k) visited result = Some r /\ search_ok g s r.
Proof.
  induction fuel as [|fuel IH]; intros k current visited result Hi Hf; destruct current as [|c cs]; cbn [bfs_loop].
  1, 3: exists result; split; [done|]; split; [by eapply lv_once|by eapply lv_sorted|]; intros v d; rewrite (lv_result _ _ _ _ Hi);
    split; [intros (j & _ & H); by exists j|]; intros (j & -> & Hd); exists j; split; [|done];
    pose proof (level_ok_end g s k _ _ (lv_level _ _ _ _ Hi) (fun v => not_elem_of_nil v) v j Hd); lia.
  { assert (Hd : distance g s c k) by (apply (proj2 (lv_level _ _ _ _ Hi)); set_solver). apply distance_bound in Hd. cbn in Hd. lia. }
  rewrite visit_level_flat. assert (Hr := frontier_in_range (c :: cs) (level_vertex _ _ _ (lv_level _ _ _ _ Hi))).
  destruct (visit_all_spec (Z.of_nat k + 1) ((c :: cs) ≫= com_range g) (BfsState visited [] result)) as (new & vis' & -> & Ha & Hl & Hm).
  { cbn [MemBfs.visited]. by rewrite (lv_length _ _ _ _ Hi). }
  cbn [mbind option_bind next_level MemBfs.visited MemBfs.result app] in *.
  replace (Z.of_nat k + 1) with (Z.of_nat (S k)) by lia. apply IH; [|lia]. by apply (loop_inv_step k (c :: cs) visited).
Qed.

Lemma loop_inv_0 : vertex g s -> loop_inv 0 [s] (<[Z.to_nat s := true]> (replicate (num_vertices g) false)) [(s, 0)].
Proof.
  intros Hs. pose proof Hs as [Hs0 Hsn]. cbn in Hsn. destruct (level_ok_0 g s Hs) as [H1 H2].
  assert (Hno : forall v, ~ marked (replicate (num_vertices g) false) v).
  { intros v [_ Hv]. by apply lookup_replicate in Hv as [? _]. }
  split.
  - by rewrite length_insert, length_replicate.
  - split; intros v; [|by rewrite list_elem_of_singleton, <- H2; split; intros <-].
    rewrite marked_set by (rewrite length_replicate; done). rewrite <- H1. specialize (Hno v). naive_solver.
  - apply NoDup_singleton.
  - repeat constructor.
  - intros v d. rewrite list_elem_of_singleton. split.
    + intros [= -> ->]. exists 0%nat. split; [done|]. split; [done|]. by apply H2.
    + intros (j & Hj & -> & Hd). assert (j = 0%nat) as -> by lia. apply H2 in Hd as ->. done.
Qed.

Lemma bfs_ok fuel : (num_vertices g <= fuel)%nat -> exists r, bfs fuel g s = Some r /\ search_ok g s r.
Proof.
  intros Hf. unfold bfs. destruct (is_valid_vertex g s) eqn:E; cbn [negb].
  - apply valid_vertex in E. apply (bfs_loop_ok fuel 0); [by apply loop_inv_0|lia].
  - exists []. split; [done|]. split; [constructor|constructor|]. intros v d. split; [by intros ?%not_elem_of_nil|].
    intros (j & _ & [Hw _]). apply walk_vertex in Hw as [Hs _]. apply valid_vertex in Hs. congruence.
Qed.

End Search.

(** ** One round of the parallel search, under any schedule *)

Section Round.
Variables (n : nat) (dist : Z) (ns : list Z) (seen0 : list bool) (ds0 : list Z).
Hypothesis ns_range : Forall (in_range n) ns.
Hypothesis seen0_length : length seen0 = n.
Hypothesis ds0_length : length ds0 = n.

Definition outstanding (t : task_t) : list Z := match pc t with T_locked v => v :: remaining t | _ => remaining t end.

(** The vertices claimed so far: appended ones and those the tasks hold. *)
Definition claimed (st : shared_t) (ts : list task_t) : list Z := next_frontier st ++ (ts ≫= local_next).

Record round_inv (st : shared_t) (ts : list task_t) : Prop := {
  ri_seen : length (seen st) = n;
  ri_dist : length (distances st) = n;
  ri_once : NoDup (claimed st ts);
  ri_marked : forall v, marked (seen st) v <-> marked seen0 v \/ v ∈ claimed st ts;
  ri_new : forall v, v ∈ claimed st ts -> v ∈ ns /\ ~ marked seen0 v;
  ri_left : forall v, v ∈ ns -> marked (seen st) v \/ exists t, t ∈ ts /\ v ∈ outstanding t;
  ri_in : forall t v, t ∈ ts -> v ∈ outstanding t -> v ∈ ns;
  ri_done : forall t, t ∈ ts -> pc t = T_done -> t = Task T_done [] [];
  ri_set : forall v, in_range n v -> distances st !! Z.to_nat v = if decide (v ∈ claimed st ts) then Some dist else ds0 !! Z.to_nat v
}.

Lemma claimed_perm st ts ts' : ts ≡ₚ ts' -> claimed st ts ≡ₚ claimed st ts'.
Proof. intros Hp. unfold claimed. by rewrite Hp. Qed.

Lemma round_inv_perm st ts ts' : ts ≡ₚ ts' -> round_inv st ts -> round_inv st ts'.
Proof.
  intros Hp [H1 H2 H3 H4 H5 H6 H7 H8 H9]. pose proof (claimed_perm st _ _ Hp) as Hc. split; [done|done|by rewrite <- Hc|..].
  - intros v. by rewrite <- Hc.
  - intros v. rewrite <- Hc. apply H5.
  - intros v Hv. destruct (H6 v Hv) as [|(t & Ht & ?)]; [by left|right; exists t]. by rewrite <- Hp.
  - intros t v. rewrite <- Hp. apply H7.
  - intros t. rewrite <- Hp. apply H8.
  - intros v Hv. rewrite H9 by done. by rewrite (decide_ext _ _ _ _ (Permutation_in' _ _ eq_refl Hc)) || apply decide_ext; by rewrite Hc.
Qed.

(** Only the bookkeeping of one task changes. *)
Lemma round_inv_local st t t' rest : round_inv st (t :: rest) -> local_next t' = local_next t ->
  (forall v, v ∈ outstanding t -> v ∈ outstanding t' \/ marked (seen st) v) -> (forall v, v ∈ outstanding t' -> v ∈ outstanding t) ->
  pc t' <> T_done -> round_inv st (t' :: rest).
Proof.
  intros [H1 H2 H3 H4 H5 H6 H7 H8 H9] Hl Ho Ho' Hp.
  assert (Hc : claimed st (t' :: rest) = claimed st (t :: rest)) by (unfold claimed; cbn [mbind list_bind]; by rewrite Hl).
  split; rewrite ?Hc; try done.
  - intros v Hv. destruct (H6 v Hv) as [|(u & [->|Hu]%elem_of_cons & Hvu)]; [by left| |right; exists u; set_solver].
    destruct (Ho v Hvu); [right; exists t'; set_solver|by left].
  - intros u v [->|Hu]%elem_of_cons Hv; [apply (H7 t); [set_solver|by apply Ho']|apply (H7 u); set_solver].
  - intros u [->|Hu]%elem_of_cons Hu'; [done|apply H8; [set_solver|done]].
Qed.

Lemma round_step st t rest : round_inv st (t :: rest) ->
  exists st' t', step_task dist st 0 t = Some (st', t') /\ round_inv st' (t' :: rest).
Proof.
  intros Hi. pose proof (ri_in _ _ Hi t) as Hin. pose proof ns_range as Hr. rewrite Forall_forall in Hr.
  destruct t as [[| v|] rem loc]; unfold step_task; cbn [pc remaining local_next] in *.
  - destruct rem as [|v rem].
    + (* append *)
      eexists _, _. split; [done|]. pose proof Hi as [H1 H2 H3 H4 H5 H6 H7 H8 H9].
      assert (Hc : claimed (Shared (seen st) (distances st) (next_frontier st ++ loc)) (Task T_done [] [] :: rest) = claimed st (Task T_test [] loc :: rest)).
      { unfold claimed. cbn [next_frontier mbind list_bind local_next]. by rewrite app_nil_l, <- app_assoc. }
      split; rewrite ?Hc; cbn [seen distances]; try done.
      * intros v Hv. destruct (H6 v Hv) as [|(u & [->|Hu]%elem_of_cons & Hvu)]; [by left|by apply not_elem_of_nil in Hvu|right; exists u; set_solver].
      * intros u v [->|Hu]%elem_of_cons Hv; [by apply not_elem_of_nil in Hv|apply (H7 u); set_solver].
      * intros u [->|Hu]%elem_of_cons Hu'; [done|apply H8; [set_solver|done]].
    + assert (Hv : in_range (length (seen st)) v) by (rewrite (ri_seen _ _ Hi); apply Hr, Hin; [set_solver|cbn; set_solver]).
      destruct (lookup_marked _ _ Hv) as (b & -> & Hb). cbn [mbind option_bind]. eexists _, _. split; [done|].
      destruct b; (eapply round_inv_local; [exact Hi|done|..]); cbn; try done; set_solver.
  - assert (Hv : in_range (length (seen st)) v) by (rewrite (ri_seen _ _ Hi); apply Hr, Hin; [set_solver|cbn; set_solver]).
    destruct (lookup_marked _ _ Hv) as (b & -> & Hb). cbn [mbind option_bind]. destruct b; (eexists _, _; split; [done|]).
    { eapply round_inv_local; [exact Hi|done|..]; cbn; try done; [|set_solver]. intros w [->|Hw]%elem_of_cons; [right; by apply Hb|by left]. }
    (* claim *)
    assert (Hvm : ~ marked (seen st) v) by (rewrite <- Hb; done). pose proof Hi as [H1 H2 H3 H4 H5 H6 H7 H8 H9].
    set (st' := claim dist st v). set (t' := Task T_test rem (loc ++ [v])).
    assert (Hc : claimed st' (t' :: rest) ≡ₚ v :: claimed st (Task (T_locked v) rem loc :: rest)).
    { unfold claimed, st', claim. cbn [next_frontier mbind list_bind local_next t']. solve_Permutation. }
    assert (Hvc : v ∉ claimed st (Task (T_locked v) rem loc :: rest)) by (intros Hvc; apply Hvm, H4; by right).
    assert (Hms : forall w, marked (seen st') w <-> marked (seen st) w \/ w = v) by (intros; by apply marked_set).
    split; cbn [seen distances st' claim]; rewrite ?length_insert; try done.
    + rewrite Hc. by constructor.
    + intros w. change (<[Z.to_nat v := true]> (seen st)) with (seen st'). rewrite Hms, H4, Hc, elem_of_cons. tauto.
    + intros w. rewrite Hc, elem_of_cons. intros [->|Hw]; [|by apply H5]. split; [apply Hin; [set_solver|cbn; set_solver]|].
      intros Hm. apply Hvm, H4. by left.
    + intros w Hw. change (<[Z.to_nat v := true]> (seen st)) with (seen st'). rewrite Hms.
      destruct (H6 w Hw) as [|(u & [->|Hu]%elem_of_cons & Hwu)]; [by left; left| |right; exists u; set_solver].
      cbn in Hwu. apply elem_of_cons in Hwu as [->|Hwu]; [by left; right|]. right. exists t'. split; [set_solver|done].
    + intros u w [->|Hu]%elem_of_cons Hw; [apply Hin; [set_solver|cbn in Hw |- *; set_solver]|apply (H7 u); set_solver].
    + intros u [->|Hu]%elem_of_cons Hu'; [done|apply H8; [set_solver|done]].
    + intros w Hw. destruct (decide (w = v)) as [->|Hne].
      * rewrite decide_True by (rewrite Hc; set_solver). apply list_lookup_insert_eq. rewrite H2. unfold in_range in Hw. lia.
      * unfold in_range in Hw, Hv. rewrite list_lookup_insert_ne by lia. rewrite H9 by done.
        apply decide_ext. rewrite Hc. set_solver.
  - eexists _, _. by split.
Qed.

Lemma insert_perm {A} (l : list A) i x y : l !! i = Some x -> exists rest, l ≡ₚ x :: rest /\ <[i := y]> l ≡ₚ y :: rest.
Proof.
  intros Hi. exists (delete i l). split; [by apply delete_Permutation|]. rewrite insert_take_drop by (by eapply lookup_lt_Some).
  rewrite delete_take_drop. solve_Permutation.
Qed.

(** The initial tasks hold all the work. *)
Lemma round_init parts : mjoin parts ≡ₚ ns -> round_inv (Shared seen0 ds0 []) ((fun part => Task T_test part []) <$> parts).
Proof.
  intros Hp. assert (Hc : claimed (Shared seen0 ds0 []) ((fun part => Task T_test part []) <$> parts) = []).
  { unfold claimed. cbn [next_frontier app]. clear. by induction parts. }
  split; cbn [seen distances]; rewrite ?Hc; try done.
  - constructor.
  - intros v. rewrite elem_of_nil. tauto.
  - by intros v ?%not_elem_of_nil.
  - intros v Hv. right. rewrite <- Hp, list_elem_of_join in Hv. destruct Hv as (part & Hv & Hpart). exists (Task T_test part []).
    split; [apply list_elem_of_fmap; by exists part|done].
  - intros t v (part & -> & Hpart)%list_elem_of_fmap Hv. rewrite <- Hp, list_elem_of_join. by exists part.
  - by intros t (part & -> & Hpart)%list_elem_of_fmap.
Qed.

(** When every task has returned, all of [ns] has been looked at. *)
Lemma round_end st ts : round_inv st ts -> (forall t, t ∈ ts -> task_weight t = 0%nat) ->
  adds seen0 ns (next_frontier st) /\ (forall v, marked (seen st) v <-> marked seen0 v \/ v ∈ next_frontier st) /\
  forall v, in_range n v -> distances st !! Z.to_nat v = if decide (v ∈ next_frontier st) then Some dist else ds0 !! Z.to_nat v.
Proof.
  intros Hi Hw. assert (Hd : forall t, t ∈ ts -> t = Task T_done [] []).
  { intros t Ht. apply (ri_done _ _ Hi t Ht). specialize (Hw t Ht). unfold task_weight in Hw. destruct (pc t); [lia|lia|done]. }
  assert (Hc : claimed st ts = next_frontier st).
  { unfold claimed. assert (ts ≫= local_next = []) as ->; [|apply app_nil_r]. clear - Hd. induction ts as [|t ts IH]; [done|].
    cbn. rewrite (Hd t) by set_solver. cbn. apply IH. intros. apply Hd. set_solver. }
  pose proof Hi as [H1 H2 H3 H4 H5 H6 H7 H8 H9]. setoid_rewrite Hc in H4. setoid_rewrite Hc in H5. rewrite Hc in H3. split; [|split].
  - split; [done|]. intros v. split; [apply H5|]. intros [Hv Hn]. destruct (H6 v Hv) as [Hm|(t & Ht & Hvt)].
    + apply H4 in Hm as [?|?]; [done|done].
    + rewrite (Hd t Ht) in Hvt. by apply not_elem_of_nil in Hvt.
  - done.
  - intros v Hv. rewrite H9 by done. by rewrite Hc.
Qed.

Lemma run_round sched parts : mjoin parts ≡ₚ ns ->
  exists st ts, run_all (step_task dist) task_weight sched (Shared seen0 ds0 []) ((fun part => Task T_test part []) <$> parts) = Some (st, ts) /\
    round_inv st ts /\ forall t, t ∈ ts -> task_weight t = 0%nat.
Proof.
  intros Hp. destruct (run_all_inv (step_task dist) task_weight) with (Inv := round_inv) (sched := sched)
    (st := Shared seen0 ds0 []) (ts := (fun part => Task T_test part []) <$> parts) as (st & ts & E & Hi & _ & Hw).
  - intros st i t st' t' E. unfold step_task in E. destruct t as [[|v|] rem loc]; cbn in E.
    + destruct rem as [|w rem]; [injection E as <- <-; cbn; lia|]. destruct (seen st !! _) as [b|]; [|done]. injection E as <- <-. destruct b; cbn; lia.
    + destruct (seen st !! _) as [b|]; [|done]. destruct b; injection E as <- <-; cbn; lia.
    + injection E as <- <-. cbn. lia.
  - intros st ts i t Hi Ht.
    destruct (insert_perm ts i t t Ht) as (rest & Hp1 & _). destruct (round_step st t rest (round_inv_perm _ _ _ Hp1 Hi)) as (st' & t' & E & Hi').
    exists st', t'. split; [exact E|]. destruct (insert_perm ts i t t' Ht) as (rest' & Hp1' & Hp2).
    eapply round_inv_perm; [symmetry; exact Hp2|]. eapply round_inv_perm; [|exact Hi'].
    apply perm_skip, (Permutation_cons_inv (a := t)). by rewrite <- Hp1.
  - by apply round_init.
  - by exists st, ts.
Qed.

(** The calling thread alone. *)
Lemma visit_alone_spec : exists st, visit_alone dist ns (Shared seen0 ds0 []) = Some st /\ length (seen st) = n /\ length (distances st) = n /\
  adds seen0 ns (next_frontier st) /\ (forall v, marked (seen st) v <-> marked seen0 v \/ v ∈ next_frontier st) /\
  forall v, in_range n v -> distances st !! Z.to_nat v = if decide (v ∈ next_frontier st) then Some dist else ds0 !! Z.to_nat v.
Proof.
  assert (H : forall todo st loc, round_inv st [Task T_test todo loc] ->
    exists st', visit_alone dist todo (Shared (seen st) (distances st) (next_frontier st ++ loc)) = Some st' /\ round_inv st' [Task T_done [] []]).
  { intros todo. induction todo as [|v todo IH]; intros st loc Hi.
    - eexists. split; [done|]. destruct (round_step st (Task T_test [] loc) [] Hi) as (st' & t' & E & Hi'). cbn in E. by injection E as <- <-.
    - cbn [visit_alone]. destruct (round_step st _ [] Hi) as (st1 & t1 & E & Hi1). cbn in E. cbn [seen].
      destruct (seen st !! Z.to_nat v) as [b|] eqn:Eb; [|done]. injection E as <- <-. cbn [mbind option_bind]. destruct b; [by apply IH|].
      destruct (round_step _ _ [] Hi1) as (st2 & t2 & E & Hi2). cbn in E. rewrite Eb in E. injection E as <- <-.
      destruct (IH _ _ Hi2) as (st' & E & Hi'). exists st'. split; [|done]. rewrite <- E. cbn. by rewrite app_assoc. }
  destruct (H ns (Shared seen0 ds0 []) []) as (st & E & Hi).
  { apply (round_init [ns]). cbn. by rewrite app_nil_r. }
  exists st. split; [exact E|]. split; [apply Hi|]. split; [apply Hi|]. apply (round_end st _ Hi). by intros t ->%list_elem_of_singleton.
Qed.

End Round.

(** ** The parallel search is right *)

Section Parallel.
Variables (g : mem_sub_com_t) (s : Z).
Hypothesis g_closed : closed g.
Hypothesis count_ok : Z.of_nat (num_vertices g) < 2 ^ 32.
Variables (split : nat -> list Z -> list (list Z)) (sched : nat -> list nat).
Hypothesis split_ok : forall round frontier, mjoin (split round frontier) ≡ₚ frontier.

Lemma parallel_round_spec round dist frontier seen0 ds0 : (forall u, u ∈ frontier -> vertex g u) ->
  length seen0 = num_vertices g -> length ds0 = num_vertices g ->
  exists st, parallel_round (split round) (sched round) g dist frontier (Shared seen0 ds0 []) = Some st /\
    length (seen st) = num_vertices g /\ length (distances st) = num_vertices g /\
    adds seen0 (frontier ≫= com_range g) (next_frontier st) /\
    (forall v, marked (seen st) v <-> marked seen0 v \/ v ∈ next_frontier st) /\
    forall v, in_range (num_vertices g) v ->
      distances st !! Z.to_nat v = if decide (v ∈ next_frontier st) then Some dist else ds0 !! Z.to_nat v.
Proof.
  intros Hf Hs Hd. pose proof (frontier_in_range g g_closed frontier Hf) as Hr. unfold parallel_round. destruct (_ <? _).
  - destruct (run_round (num_vertices g) dist (frontier ≫= com_range g) seen0 ds0 Hr Hs Hd (sched round)
      ((fun part => part ≫= com_range g) <$> split round frontier)) as (st & ts & E & Hi & Hw).
    { assert (Hb : forall ls : list (list Z), mjoin ((fun part => part ≫= com_range g) <$> ls) = mjoin ls ≫= com_range g).
      { intros ls. induction ls as [|l ls IH]; [done|]. change (mjoin (l :: ls)) with (l ++ mjoin ls). rewrite bind_app, <- IH. done. }
      by rewrite Hb, split_ok. }
    rewrite <- list_fmap_compose in E. exists st.
    replace ((fun part => Task T_test (part ≫= com_range g) []) <$> split round frontier) with
      ((fun part => Task T_test part []) ∘ (fun part => part ≫= com_range g) <$> split round frontier) by done.
    rewrite E. split; [done|]. split; [apply Hi|]. split; [apply Hi|]. eapply round_end; [..|exact Hi|exact Hw]; done.
  - by apply visit_alone_spec.
Qed.

Lemma distance_max v j : distance g s v j -> Z.of_nat j < UINT32_MAX.
Proof. intros Hd. apply distance_bound in Hd. cbn in Hd. unfold UINT32_MAX. lia. Qed.

(** The distances after level [k]. *)
Record levels_inv (k : nat) (frontier : list Z) (seen_ : list bool) (ds : list Z) : Prop := {
  pl_seen : length seen_ = num_vertices g;
  pl_length : length ds = num_vertices g;
  pl_level : level_ok g s k (marked seen_) (fun v => v ∈ frontier);
  pl_dist : forall v d, vertex g v -> (ds !! Z.to_nat v = Some d /\ d <> UINT32_MAX) <-> exists j, (j <= k)%nat /\ d = Z.of_nat j /\ distance g s v j
}.

Lemma parallel_loop_ok fuel : forall k round frontier seen_ ds, levels_inv k frontier seen_ ds -> (num_vertices g <= fuel + k)%nat ->
  exists ds', parallel_loop fuel round split sched g frontier (Z.of_nat k) seen_ ds = Some ds' /\ length ds' = num_vertices g /\
    forall v d, vertex g v -> (ds' !! Z.to_nat v = Some d /\ d <> UINT32_MAX) <-> exists j, d = Z.of_nat j /\ distance g s v j.
Proof.
  induction fuel as [|fuel IH]; intros k round frontier seen_ ds Hi Hf; destruct frontier as [|c cs]; cbn [parallel_loop].
  1, 3: exists ds; split; [done|]; split; [by eapply pl_length|]; intros v d Hv; rewrite (pl_dist _ _ _ _ Hi) by done;
    split; [intros (j & _ & H); by exists j|]; intros (j & -> & Hd); exists j; split; [|done];
    pose proof (level_ok_end g s k _ _ (pl_level _ _ _ _ Hi) (fun v => not_elem_of_nil v) v j Hd); lia.
  { assert (Hd : distance g s c k) by (apply (proj2 (pl_level _ _ _ _ Hi)); set_solver). apply distance_bound in Hd. cbn in Hd. lia. }
  pose proof (level_vertex g s _ _ _ (pl_level _ _ _ _ Hi)) as Hfv.
  destruct (parallel_round_spec round (Z.of_nat k + 1) (c :: cs) seen_ ds Hfv (pl_seen _ _ _ _ Hi) (pl_length _ _ _ _ Hi))
    as (st & -> & Hs & Hl & Ha & Hm & Hd). cbn [mbind option_bind].
  replace (Z.of_nat k + 1) with (Z.of_nat (S k)) in * by lia. apply IH; [|lia].
  pose proof (adds_level g s g_closed k _ _ _ _ (pl_level _ _ _ _ Hi) Hfv Ha Hm) as Hlev. pose proof (proj2 Hlev) as Hcur. cbn beta in Hcur.
  split; [done|done|done|]. intros v d Hv. rewrite Hd by exact Hv. case_decide as Hin; rewrite Hcur in Hin.
  - split.
    + intros [[= <-] _]. by exists (S k).
    + intros (j & _ & -> & Hj). rewrite (distance_fun _ _ _ _ _ Hj Hin). split; [done|]. pose proof (distance_max v _ Hin). lia.
  - rewrite (pl_dist _ _ _ _ Hi) by done. split; intros (j & Hj & -> & Hjd); exists j; (split; [|done]); [lia|].
    destruct (decide (j = S k)) as [->|]; [done|lia].
Qed.

Lemma levels_inv_0 : vertex g s -> levels_inv 0 [s] (<[Z.to_nat s := true]> (replicate (num_vertices g) false))
  (<[Z.to_nat s := 0]> (replicate (num_vertices g) UINT32_MAX)).
Proof.
  intros Hs. pose proof (loop_inv_0 g s Hs) as Hi. pose proof Hs as [Hs0 Hsn]. cbn in Hsn. split.
  - by eapply lv_length.
  - by rewrite length_insert, length_replicate.
  - by eapply lv_level.
  - intros v d [Hv0 Hvn]. cbn in Hvn. pose proof (lv_result _ _ _ _ _ _ Hi v d) as Hr. rewrite <- Hr, list_elem_of_singleton.
    destruct (decide (v = s)) as [->|Hne].
    + rewrite list_lookup_insert_eq by (rewrite length_replicate; lia). split; [by intros [[= <-] _]|by intros [= ->]].
    + rewrite list_lookup_insert_ne by lia. rewrite lookup_replicate_2 by lia. naive_solver.
Qed.

Lemma bfs_parallel_ok fuel : (num_vertices g <= fuel)%nat -> exists r, bfs_parallel fuel split sched g s = Some r /\ search_ok g s r.
Proof.
  intros Hf. destruct (bfs_ok g s g_closed fuel Hf) as (r & Er & Hr). unfold bfs_parallel. pose proof Er as Eb. unfold bfs in Eb.
  destruct (is_valid_vertex g s) eqn:E; cbn [negb] in *; [|exists r; split; [exact Eb|done]].
  destruct (_ <? 100000); [by exists r|]. apply valid_vertex in E.
  destruct (parallel_loop_ok fuel 0 0 [s] _ _ (levels_inv_0 E)) as (ds & E' & Hl & Hd); [lia|]. change (Z.of_nat 0) with 0 in E'. rewrite E'. cbn [mbind option_bind].
  set (l := omap _ _). exists (merge_sort distance_le l). split; [done|].
  assert (Hin : forall v d, (v, d) ∈ l <-> exists j, d = Z.of_nat j /\ distance g s v j).
  { intros v d. unfold l. rewrite list_elem_of_omap. split.
    - intros (i & Hi%elem_of_seqZ & Ei). apply bind_Some in Ei as (d' & Hd' & Ei). destruct (Z.eqb_spec d' UINT32_MAX); [done|]. injection Ei as <- <-.
      apply Hd; [split; cbn; lia|done].
    - intros (j & -> & Hj). assert (Hv : vertex g v) by (destruct Hj as [Hw _]; by apply walk_vertex in Hw as [_ ?]).
      exists v. split; [apply elem_of_seqZ; destruct Hv; cbn in *; lia|]. destruct (proj2 (Hd v (Z.of_nat j) Hv)) as [-> Hne]; [by exists j|].
      cbn [mbind option_bind]. by destruct (Z.eqb_spec (Z.of_nat j) UINT32_MAX). }
  split.
  - rewrite (merge_sort_Permutation distance_le l). unfold l. clear. induction (NoDup_seqZ 0 (Z.of_nat (num_vertices g))) as [|i vs Hi _ IH]; [constructor|].
    cbn. destruct (ds !! Z.to_nat i) as [d|]; cbn; [|done]. destruct (d =? UINT32_MAX); cbn; [done|]. constructor; [|done].
    intros ([v d'] & Hv & (j & Hj & Ej)%list_elem_of_omap)%list_elem_of_fmap. cbn in Hv. subst v. apply bind_Some in Ej as (d'' & _ & Ej).
    destruct (d'' =? UINT32_MAX); [done|]. injection Ej as -> _. done.
  - apply StronglySorted_merge_sort; [intros x y z; unfold distance_le; lia|intros x y; unfold distance_le; lia].
  - intros v d. by rewrite (merge_sort_Permutation distance_le l).
Qed.

End Parallel.

(** On a graph whose neighbours are vertices both searches terminate and
    return every reachable vertex exactly once, with its distance, near ones
    first; the parallel one for any split of its frontiers and any interleaving
    of its tasks, so that it returns a permutation of the sequential result. *)
Theorem mem_bfs_parallel_agrees (g : mem_sub_com_t) (s : Z) (split : nat -> list Z -> list (list Z)) (sched : nat -> list nat) (fuel : nat) :
  closed g -> Z.of_nat (num_vertices g) < 2 ^ 32 -> (forall round frontier, mjoin (split round frontier) ≡ₚ frontier) ->
  (num_vertices g <= fuel)%nat ->
  exists r r', bfs fuel g s = Some r /\ bfs_parallel fuel split sched g s = Some r' /\ search_ok g s r /\ search_ok g s r' /\ r' ≡ₚ r.
Proof.
  intros Hc Hn Hs Hf. destruct (bfs_ok g s Hc fuel Hf) as (r & E & Hr). destruct (bfs_parallel_ok g s Hc Hn split sched Hs fuel Hf) as (r' & E' & Hr').
  exists r, r'. do 4 (split; [done|]). apply NoDup_Permutation; [by eapply NoDup_fmap_1, so_once|by eapply NoDup_fmap_1, so_once|].
  intros [v d]. by rewrite (so_all _ _ _ Hr), (so_all _ _ _ Hr').
Qed.

(** ** The sample by breadth-first search *)

Section Sample.
Variables (g : mem_sub_com_t) (s vertex_count : Z).
Hypothesis g_closed : closed g.

Record sample_inv (popped queue sampled : list Z) (visited_set : gset Z) : Prop := {
  sp_split : sampled = popped ++ queue;
  sp_once : NoDup sampled;
  sp_set : visited_set = list_to_set sampled;
  sp_start : s ∈ sampled;
  sp_reach : forall v, v ∈ sampled -> reaches g s v;
  sp_size : Z.of_nat (length sampled) <= Z.max 1 vertex_count;
  sp_popped : forall u v, u ∈ popped -> v ∈ get_neighbors_span g u -> v ∈ sampled \/ vertex_count <= Z.of_nat (length sampled)
}.

Lemma span_range v : vertex g v -> get_neighbors_span g v = com_range g v.
Proof. intros Hv. unfold get_neighbors_span. by rewrite (proj2 (valid_vertex g v) Hv). Qed.

Lemma sample_neighbors_spec ns : forall queue sampled,
  NoDup sampled -> Z.of_nat (length sampled) <= Z.max 1 vertex_count ->
  exists new, sample_neighbors vertex_count ns queue sampled (list_to_set sampled) = (queue ++ new, sampled ++ new, list_to_set (sampled ++ new)) /\
    NoDup (sampled ++ new) /\ (forall v, v ∈ new -> v ∈ ns) /\ Z.of_nat (length (sampled ++ new)) <= Z.max 1 vertex_count /\
    ((forall v, v ∈ ns -> v ∈ sampled ++ new) \/ vertex_count <= Z.of_nat (length (sampled ++ new))).
Proof.
  induction ns as [|n ns IH]; intros queue sampled Hnd Hlen; cbn [sample_neighbors].
  - exists []. rewrite !app_nil_r. split; [done|]. split; [done|]. split; [done|]. split; [done|]. left. by intros v ?%not_elem_of_nil.
  - destruct (Z.leb_spec vertex_count (Z.of_nat (length sampled))) as [Hc|Hc].
    { exists []. rewrite !app_nil_r. split; [done|]. split; [done|]. split; [by intros v ?%not_elem_of_nil|]. split; [done|]. by right. }
    case_bool_decide as Hn; rewrite elem_of_list_to_set in Hn.
    + destruct (IH queue sampled Hnd Hlen) as (new & E & H1 & H2 & H3 & H4). exists new. split; [done|]. split; [done|]. split; [set_solver|].
      split; [done|]. destruct H4 as [H4|H4]; [left|by right]. intros v [->|Hv]%elem_of_cons; [set_solver|by apply H4].
    + destruct (IH (queue ++ [n]) (sampled ++ [n])) as (new & E & H1 & H2 & H3 & H4).
      { apply NoDup_app. split; [done|]. split; [set_solver|apply NoDup_singleton]. }
      { rewrite length_app. cbn. lia. }
      exists (n :: new). replace ({[n]} ∪ list_to_set sampled : gset Z) with (list_to_set (sampled ++ [n]) : gset Z) by set_solver.
      rewrite E, <- !app_assoc in *. cbn [app] in *. split; [done|]. split; [done|]. split; [set_solver|]. split; [done|].
      destruct H4 as [H4|H4]; [left|by right]. intros v [->|Hv]%elem_of_cons; [set_solver|by apply H4].
Qed.

Lemma sampled_bound sampled : NoDup sampled -> (forall v, v ∈ sampled -> reaches g s v) -> (length sampled <= num_vertices g)%nat.
Proof. intros Hnd Hr. change (num_vertices g) with (vertices g). apply vertices_bound; [done|]. intros v (k & Hw)%Hr. by apply walk_vertex in Hw as [_ ?]. Qed.

Lemma sample_loop_spec fuel : forall popped queue sampled visited_set, sample_inv popped queue sampled visited_set ->
  (num_vertices g <= fuel + length popped)%nat ->
  exists popped' queue' sampled' visited', sample_loop fuel g vertex_count queue sampled visited_set = Some (sampled', visited') /\
    sample_inv popped' queue' sampled' visited' /\ (queue' = [] \/ vertex_count <= Z.of_nat (length sampled')).
Proof.
  induction fuel as [|fuel IH]; intros popped queue sampled visited_set Hi Hf; destruct queue as [|c queue]; cbn [sample_loop].
  1, 3: exists popped, [], sampled, visited_set; split; [done|]; split; [done|by left].
  all: destruct (Z.leb_spec vertex_count (Z.of_nat (length sampled))) as [Hc|Hc];
    [exists popped, (c :: queue), sampled, visited_set; split; [done|]; split; [done|by right]|].
  - pose proof (sampled_bound sampled (sp_once _ _ _ _ Hi) (sp_reach _ _ _ _ Hi)) as Hb. rewrite (sp_split _ _ _ _ Hi), length_app in Hb. cbn in Hb. lia.
  - pose proof Hi as [H1 H2 -> H4 H5 H6 H7]. destruct (sample_neighbors_spec (get_neighbors_span g c) queue sampled H2 H6) as (new & -> & N1 & N2 & N3 & N4).
    apply (IH (popped ++ [c])); [|rewrite length_app; cbn; lia]. assert (Hcr : reaches g s c) by (apply H5; rewrite H1; set_solver).
    split.
    + by rewrite H1, <- !app_assoc.
    + done.
    + done.
    + set_solver.
    + intros v [Hv|Hv]%elem_of_app; [by apply H5|]. apply N2 in Hv. eapply reaches_trans; [exact Hcr|]. apply reaches_edge, edge_range; [done|].
      assert (Hcv : vertex g c) by (destruct Hcr as [k Hw]; by apply walk_vertex in Hw as [_ ?]). by rewrite span_range in Hv.
    + done.
    + intros u v [Hu|Hu]%elem_of_app Hv.
      * destruct (H7 u v Hu Hv) as [?|?]; [left; set_solver|right]. rewrite length_app. lia.
      * apply list_elem_of_singleton in Hu as ->. destruct N4 as [N4|N4]; [left; by apply N4|by right].
Qed.

End Sample.

(** Sampling [vertex_count] vertices from a vertex returns the subgraph
    induced by a set that contains the start, only vertices reachable from it
    and no more than asked for (the start alone at least), and all reachable
    ones when these are fewer; a missing start gives the empty graph. *)
Theorem graph_sample_bfs_induced (g : mem_sub_com_t) (s vertex_count : Z) (fuel : nat) :
  MemGraph.wf g -> closed g -> (num_vertices g <= fuel)%nat ->
  exists m, graph_sample_bfs fuel g s vertex_count = Some m /\ MemGraph.wf m /\
  if com_has_vertex g s then
    exists vs : gset Z, to_map m = MemGraphSub.induced (to_map g) vs /\ s ∈ vs /\ (forall v, v ∈ vs -> reaches g s v) /\
      Z.of_nat (size vs) <= Z.max 1 vertex_count /\ (Z.of_nat (size vs) < vertex_count -> forall v, reaches g s v -> v ∈ vs)
  else to_map m = ∅.
Proof.
  intros (ls & Hl & Hsort) Hc Hf. unfold graph_sample_bfs. destruct (com_has_vertex g s) eqn:E; cbn [negb].
  2:{ exists (MapGraph.of_adj_map ∅). split; [done|]. split; [by intros _|done]. }
  apply valid_vertex in E. destruct (sample_loop_spec g s vertex_count Hc fuel [] [s] [s] {[s]}) as (popped & queue & sampled & vis & -> & Hi & Hend).
  { split; try done; [apply NoDup_singleton|set_solver|set_solver|intros v ->%list_elem_of_singleton; by apply reaches_refl|cbn; lia|by intros u v ?%not_elem_of_nil]. }
  { cbn. lia. }
  cbn [mbind option_bind]. eexists. split; [done|]. split; [by intros _|]. exists (list_to_set sampled).
  pose proof Hi as [H1 H2 -> H4 H5 H6 H7].
  assert (Hv : forall v, v ∈ sampled -> vertex g v) by (intros v [k Hw]%H5; by apply walk_vertex in Hw as [_ ?]).
  split; [|split; [set_solver|split; [set_solver|split]]].
  - cbn [to_map MapGraph.map_graph MapGraph.of_adj_map MapGraph.update_edge_count MapGraph.adjacency_map]. apply map_eq. intros v.
    rewrite MemGraphSub.foldl_insert_lookup, MemGraphSub.induced_lookup, lookup_empty.
    destruct (decide (v ∈ sampled)) as [Hin|]; [rewrite decide_True by set_solver|by rewrite decide_False by set_solver].
    destruct (MemGraphSub.valid_range g ls Hl Hsort v) as [Hm Hs]; [by apply valid_vertex, Hv|]. cbn [to_map com_graph]. rewrite Hm. cbn.
    f_equal. rewrite span_range by by apply Hv. by apply sort_id, sorted_filter.
  - rewrite size_list_to_set by done. done.
  - rewrite size_list_to_set by done. intros Hlt. destruct Hend as [->|?]; [|lia]. rewrite app_nil_r in H1. subst popped.
    intros v [k Hw]. induction Hw as [_|k u v _ IH He]; [set_solver|]. rewrite elem_of_list_to_set in IH |- *.
    destruct (H7 u v IH) as [?|?]; [|done|lia]. rewrite span_range by by apply Hv. by apply edge_range in He as [_ ?].
Qed.

(** ** The random walk *)

Section RandomWalk.
Variables (g : mem_sub_com_t) (s : Z) (draw : nat -> nat -> nat -> nat) (restarts : nat -> bool).
Hypothesis g_closed : closed g.
Hypothesis draw_range : forall i k b, (draw i k b <= b)%nat.

Record walk_inv (st : walk_state) : Prop := {
  wk_current : current_vertex st ∈ sampled_vertices st;
  wk_once : NoDup (sampled_vertices st);
  wk_set : walk_visited st = list_to_set (sampled_vertices st);
  wk_start : s ∈ sampled_vertices st;
  wk_reach : forall v, v ∈ sampled_vertices st -> reaches g s v;
  wk_edges : forall u v, v ∈ default [] (walked_edges st !! u) -> edge g u v
}.

Lemma walk_current_vertex st : walk_inv st -> vertex g (current_vertex st).
Proof. intros Hi. destruct (wk_reach _ Hi _ (wk_current _ Hi)) as [k Hw]. by apply walk_vertex in Hw as [_ ?]. Qed.

Lemma restart_inv i k st : walk_inv st -> walk_inv (restart_from draw i k st).
Proof.
  intros Hi. destruct Hi. split; try done. cbn.
  pose proof (draw_range i k (length (sampled_vertices st) - 1)) as Hd.
  assert (0 < length (sampled_vertices st))%nat by (destruct (sampled_vertices st); [by apply not_elem_of_nil in wk_start0|cbn; lia]).
  destruct (lookup_lt_is_Some_2 (sampled_vertices st) (draw i k (length (sampled_vertices st) - 1))) as [v Hv]; [lia|].
  rewrite Hv. cbn. by eapply list_elem_of_lookup_2.
Qed.

Lemma valid_neighbors v : vertex g v -> filter (fun n => is_valid_vertex g n = true) (get_neighbors_span g v) = com_range g v.
Proof.
  intros Hv. rewrite span_range by done. pose proof (g_closed v (com_range g v)) as Hc. unfold com_adj in Hc.
  rewrite (proj2 (valid_vertex g v) Hv) in Hc. specialize (Hc eq_refl). induction Hc as [|n ns Hn _ IH]; [done|].
  rewrite filter_cons, decide_True by by apply valid_vertex. by rewrite IH.
Qed.

Lemma take_edge_inv n st : walk_inv st -> edge g (current_vertex st) n -> walk_inv (take_edge n st).
Proof.
  intros Hi He. pose proof Hi as [H1 H2 H3 H4 H5 H6]. unfold take_edge.
  assert (Hn : reaches g s n) by (apply (reaches_trans g s (current_vertex st) n); [by apply H5|by apply reaches_edge]).
  assert (Hw : forall u v, v ∈ default [] (<[current_vertex st := default [] (walked_edges st !! current_vertex st) ++ [n]]> (walked_edges st) !! u) -> edge g u v).
  { intros u v. destruct (decide (u = current_vertex st)) as [->|]; [|rewrite lookup_insert_ne by done; apply H6]. rewrite lookup_insert_eq. cbn.
    intros [Hv| ->%list_elem_of_singleton]%elem_of_app; [by apply H6|done]. }
  rewrite H3. destruct (decide (n ∈ sampled_vertices st)) as [Hin|Hin].
  - rewrite bool_decide_true by by apply elem_of_list_to_set. by split.
  - rewrite bool_decide_false by by rewrite elem_of_list_to_set. split; cbn; [..|done].
    + apply elem_of_app. right. by apply list_elem_of_singleton.
    + apply NoDup_app. split; [done|]. split; [by intros v Hv ->%list_elem_of_singleton|apply NoDup_singleton].
    + rewrite list_to_set_app_L. cbn. by rewrite (right_id_L ∅ (∪)), (comm_L (∪)).
    + apply elem_of_app. by left.
    + intros v [Hv| ->%list_elem_of_singleton]%elem_of_app; [by apply H5|done].
Qed.

Lemma walk_step_inv i st : walk_inv st ->
  match walk_step draw restarts g i st with Continue st' | Break st' => walk_inv st' end.
Proof.
  intros Hi. pose proof (walk_current_vertex st Hi) as Hc. unfold walk_step. rewrite (valid_neighbors _ Hc). rewrite (span_range _ _ Hc).
  assert (Hdead : match dead_end draw i st with Continue st' | Break st' => walk_inv st' end).
  { unfold dead_end. destruct (_ <? _)%nat; [by apply restart_inv|done]. }
  destruct (com_range g (current_vertex st)) as [|n ns] eqn:E; [done|].
  set (next := default 0 _). assert (He : edge g (current_vertex st) next).
  { apply edge_range; [done|]. split; [done|]. rewrite E. unfold next. pose proof (draw_range i 1 (length (n :: ns) - 1)).
    destruct (lookup_lt_is_Some_2 (n :: ns) (draw i 1 (length (n :: ns) - 1))) as [v Hv]; [cbn in *; lia|]. rewrite Hv. by eapply list_elem_of_lookup_2. }
  pose proof (take_edge_inv next st Hi He). destruct (_ && _); [by apply restart_inv|done].
Qed.

Lemma walk_inv_0 : vertex g s -> walk_inv (WalkState s [s] {[s]} ∅).
Proof.
  intros Hs. split; cbn; [set_solver|apply NoDup_singleton|set_solver|set_solver|by intros v ->%list_elem_of_singleton; apply reaches_refl|].
  intros u v. rewrite lookup_empty. by intros ?%not_elem_of_nil.
Qed.

(** When it returns, the sample has only edges of the graph. *)
Lemma random_walk_edges fuel max_vertices m : graph_sample_random_walk draw restarts fuel g s max_vertices = Some m ->
  forall u v, has_edge m u v = true -> edge g u v.
Proof.
  unfold graph_sample_random_walk. destruct (is_valid_vertex g s) eqn:E; cbn [negb].
  2:{ intros [= <-] u v. cbn. unfold map_has_edge. cbn. by rewrite lookup_empty. }
  apply valid_vertex in E. intros H u v.
  assert (Hl : forall fuel i st st', walk_inv st -> walk_loop draw restarts fuel i g max_vertices st = Some st' -> walk_inv st').
  { clear -g_closed draw_range. induction fuel as [|fuel IH]; intros i st st' Hi; cbn [walk_loop]; (destruct (_ <=? _); [by intros [= <-]|]); [done|].
    pose proof (walk_step_inv i st Hi). destruct (walk_step _ _ _ _ _); [by apply IH|by intros [= <-]]. }
  destruct (walk_loop _ _ _ _ _ _ _) as [st|] eqn:Ew; [|done]. injection H as <-. apply Hl in Ew; [|by apply walk_inv_0].
  cbn. unfold map_has_edge, has_neighbor. cbn. intros Hv. apply (wk_edges _ Ew). destruct (walked_edges st !! u); [|done].
  by apply bool_decide_eq_true in Hv.
Qed.

(** A start with a neighbour in a component smaller than [max_vertices]: the
    walk goes on for ever. *)
Lemma random_walk_diverges max_vertices :
  vertex g s -> com_range g s <> [] ->
  (forall l, NoDup l -> (forall v, v ∈ l -> reaches g s v) -> Z.of_nat (length l) < max_vertices) ->
  forall fuel, graph_sample_random_walk draw restarts fuel g s max_vertices = None.
Proof.
  intros Hs Hne Hsmall fuel. unfold graph_sample_random_walk. rewrite (proj2 (valid_vertex g s) Hs). cbn [negb].
  assert (Hl : forall fuel i st, walk_inv st -> walk_loop draw restarts fuel i g max_vertices st = None).
  { clear fuel. induction fuel as [|fuel IH]; intros i st Hi; cbn [walk_loop];
      (destruct (Z.leb_spec max_vertices (Z.of_nat (length (sampled_vertices st)))) as [Hlen|];
       [specialize (Hsmall _ (wk_once _ Hi) (wk_reach _ Hi)); lia|]); [done|].
    pose proof (walk_step_inv i st Hi) as Hst. destruct (walk_step draw restarts g i st) as [st'|st'] eqn:Es; [by apply IH|exfalso].
    pose proof (walk_current_vertex st Hi) as Hc. unfold walk_step in Es. rewrite (valid_neighbors _ Hc), (span_range _ _ Hc) in Es.
    destruct (com_range g (current_vertex st)) as [|n ns] eqn:E; [|done]. unfold dead_end in Es.
    destruct (Nat.ltb_spec 1 (length (sampled_vertices st))) as [|Hle]; [done|]. apply Hne. rewrite <- E. f_equal.
    pose proof (wk_start _ Hi) as H1. pose proof (wk_current _ Hi) as H2. destruct (sampled_vertices st) as [|a [|]]; cbn in Hle; [|set_solver|lia].
    by apply not_elem_of_nil in H1. }
  by rewrite Hl by by apply walk_inv_0.
Qed.

End RandomWalk.

(** ** A sample *)

Definition sample_graph : mem_sub_com_t := com_of_adj_map (<[5 := [4]]> (<[4 := [5]]> MemGraphSub.sample_map)) ∅.

Definition id_okb (v : Z) : bool := (0 <=? v) && (v <? 2 ^ 32 - 1).

Lemma ids_ok_check m : forallb (fun q => id_okb q.1 && forallb id_okb q.2) (map_to_list m) = true -> ids_ok m.
Proof.
  assert (Hok : forall v, id_okb v = true -> 0 <= v < 2 ^ 32 - 1) by (intros v; unfold id_okb; lia).
  rewrite forallb_forall. intros H v ns Hv. apply elem_of_map_to_list, list_elem_of_In, H, andb_true_iff in Hv as [H1 H2]. split; [by apply Hok|].
  rewrite forallb_forall in H2. apply Forall_forall. intros w Hw. by apply Hok, H2, list_elem_of_In.
Qed.

Lemma sample_graph_ok : MemGraph.wf sample_graph /\ closed sample_graph.
Proof.
  split.
  - apply com_of_adj_map_wf, ids_ok_check. vm_compute. reflexivity.
  - intros v l Hl. unfold com_adj in Hl. destruct (is_valid_vertex sample_graph v) eqn:E; [|done]. injection Hl as <-.
    apply valid_vertex in E as [H0 H1]. change (Z.of_nat (vertices sample_graph)) with 6 in H1.
    assert (v = 0 \/ v = 1 \/ v = 2 \/ v = 3 \/ v = 4 \/ v = 5) as Hv by lia.
    repeat destruct Hv as [->|Hv]; try subst v; vm_compute; repeat constructor; congruence.
Qed.

Lemma mem_bfs_parallel_agrees_witness :
  exists r, bfs 6 sample_graph 0 = Some r /\ r = [(0, 0); (1, 1); (2, 1); (3, 2)] /\ search_ok sample_graph 0 r.
Proof.
  destruct (mem_bfs_parallel_agrees sample_graph 0 (fun _ f => [f]) (fun _ => []) 6) as (r & r' & E & _ & Hr & _).
  - apply sample_graph_ok.
  - vm_compute. reflexivity.
  - intros _ f. cbn. by rewrite app_nil_r.
  - vm_compute. repeat constructor.
  - exists r. split; [exact E|]. split; [|exact Hr]. vm_compute in E. by injection E as <-.
Defined.

Lemma graph_sample_bfs_induced_witness :
  exists m, graph_sample_bfs 6 sample_graph 0 3 = Some m /\ to_map m = {[0 := [1; 2]; 1 := [0]; 2 := [0]]}.
Proof.
  destruct (graph_sample_bfs_induced sample_graph 0 3 6) as (m & E & _).
  - apply sample_graph_ok.
  - apply sample_graph_ok.
  - vm_compute. repeat constructor.
  - exists m. split; [exact E|]. vm_compute in E. by injection E as <-.
Defined.

End MemBfs.
