(* ===== verification/GraphLoad.v ===== *)
(** * Loading a graph from text

    The constructor of [mem_sub_com_t] that reads a file
    (src/src/mem_g0com.cc): lines [t n m], [v id label community] and
    [e src dst], comments and empty lines; every edge is stored in both
    directions, loops are dropped, lists are sorted and made duplicate free,
    then laid out.  The text is a list of character codes; reading ahead, the
    progress bars and the messages are left out.  Deduplication runs one
    independent task per vertex, so its schedule does not matter. *)

From S2P Require Import Prelude Config CsrPage Smo SmoMerge MemGraph MapGraph CsrGraph ComGraph.

Local Open Scope Z_scope.

Module GraphLoad.
Import MemGraph ComGraph.

(** ** Characters and numbers *)

Definition is_digit (c : Z) : bool := (48 <=? c) && (c <=? 57).
Definition is_blank (c : Z) : bool := (c =? 32) || (c =? 9).

(** [while (digit) x = x * 10 + digit] on an integer of [w] bits; the number
    and the rest of the line. *)
Fixpoint parse_digits (w acc : Z) (s : list Z) : Z * list Z :=
  match s with
  | [] => (acc, [])
  | c :: s' => if is_digit c then parse_digits w (wrap w (acc * 10 + (c - 48))) s' else (acc, s)
  end.

Fixpoint skip_blanks (s : list Z) : list Z :=
  match s with
  | [] => []
  | c :: s' => if is_blank c then skip_blanks s' else s
  end.

Fixpoint skip_digits (s : list Z) : list Z :=
  match s with
  | [] => []
  | c :: s' => if is_digit c then skip_digits s' else s
  end.

(** [std::getline] until the end of the file. *)
Fixpoint lines_from (cur s : list Z) : list (list Z) :=
  match s with
  | [] => match cur with [] => [] | _ => [cur] end
  | c :: s => if c =? 10 then cur :: lines_from [] s else lines_from (cur ++ [c]) s
  end.

Definition lines (s : list Z) : list (list Z) := lines_from [] s.

(** ** The lines *)

Definition MAX_VERTICES : Z := 1000000000.
Definition GROWTH : Z := 1000000.

Record load_state := LoadState {
  adj_list : list (list Z);
  temp_communities : list Z;
  max_vertex_id : Z;
  max_community_id : Z;
  num_v_from_header : Z;
  header_parsed : bool;
  graph_allocated : bool
}.

Definition load_start : load_state := LoadState [] [] 0 0 0 false false.

Definition grow (estimated_size : Z) (st : load_state) : load_state :=
  let n := Z.to_nat (Z.min estimated_size MAX_VERTICES) in
  LoadState (resize n [] (adj_list st)) (resize n 0 (temp_communities st)) (max_vertex_id st) (max_community_id st)
    (num_v_from_header st) (header_parsed st) (graph_allocated st).

Definition with_max_vertex (v : Z) (st : load_state) : load_state :=
  if graph_allocated st then st
  else LoadState (adj_list st) (temp_communities st) (Z.max (max_vertex_id st) v) (max_community_id st)
         (num_v_from_header st) (header_parsed st) (graph_allocated st).

Definition parse_header (s : list Z) (st : load_state) : res load_state :=
  let '(num_v, s) := parse_digits 64 0 s in
  let '(num_e, s) := parse_digits 64 0 (skip_blanks s) in
  if MAX_VERTICES <? num_v then Throw runtime_error
  else Ok (LoadState (resize (Z.to_nat num_v) [] (adj_list st)) (resize (Z.to_nat num_v) 0 (temp_communities st))
             (max_vertex_id st) (max_community_id st) num_v true true).

Definition parse_vertex (has_communities : bool) (s : list Z) (st : load_state) : res load_state :=
  let '(vertex_id, s) := parse_digits 32 0 s in
  let s := skip_digits (skip_blanks s) in
  let '(community_id, s) := parse_digits 32 0 (skip_blanks s) in
  if MAX_VERTICES <? vertex_id then Throw runtime_error
  else
    let st := with_max_vertex vertex_id st in
    let st := LoadState (adj_list st) (temp_communities st) (max_vertex_id st) (Z.max (max_community_id st) community_id)
                (num_v_from_header st) (header_parsed st) (graph_allocated st) in
    let st := if negb (graph_allocated st) && (Z.of_nat (length (adj_list st)) <=? vertex_id) then grow (vertex_id + GROWTH) st else st in
    Ok (if has_communities && (vertex_id <? Z.of_nat (length (adj_list st)))
        then LoadState (adj_list st) (<[Z.to_nat vertex_id := community_id]> (temp_communities st)) (max_vertex_id st) (max_community_id st)
               (num_v_from_header st) (header_parsed st) (graph_allocated st)
        else st).

Definition push_back (v n : Z) (adj : list (list Z)) : list (list Z) := alter (fun l => l ++ [n]) (Z.to_nat v) adj.

Definition parse_edge (s : list Z) (st : load_state) : res load_state :=
  let '(src, s) := parse_digits 32 0 s in
  let '(dst, s) := parse_digits 32 0 (skip_blanks s) in
  if (MAX_VERTICES <? src) || (MAX_VERTICES <? dst) then Throw runtime_error
  else
    let st := with_max_vertex (Z.max src dst) st in
    let required_size := Z.max src dst + 1 in
    let st := if negb (graph_allocated st) && (Z.of_nat (length (adj_list st)) <? required_size) then grow (required_size + GROWTH) st else st in
    let n := Z.of_nat (length (adj_list st)) in
    Ok (if (src <? n) && (dst <? n) && negb (src =? dst)
        then LoadState (push_back dst src (push_back src dst (adj_list st))) (temp_communities st) (max_vertex_id st) (max_community_id st)
               (num_v_from_header st) (header_parsed st) (graph_allocated st)
        else st).

Definition parse_line (has_communities : bool) (line : list Z) (st : load_state) : res load_state :=
  match line with
  | [] => Ok st
  | type :: s =>
    if type =? 35 (* # *) then Ok st
    else
      let s := skip_blanks s in
      if type =? 116 (* t *) then parse_header s st
      else if type =? 118 (* v *) then parse_vertex has_communities s st
      else if type =? 101 (* e *) then parse_edge s st
      else Ok st
  end.

Fixpoint parse_lines (has_communities : bool) (ls : list (list Z)) (st : load_state) : res load_state :=
  match ls with
  | [] => Ok st
  | l :: ls => st ← parse_line has_communities l st; parse_lines has_communities ls st
  end.

(** ** The graph *)

Definition dedup (l : list Z) : list Z := match l with [] => [] | _ => Smo.unique (sort l) end.

(** [community_structure_tmp[communities[i]].push_back(i)]; [None]: past its end. *)
Fixpoint group_communities (i : Z) (comms : list Z) (structure : list (list Z)) : option (list (list Z)) :=
  match comms with
  | [] => Some structure
  | c :: comms =>
    if decide (is_Some (structure !! Z.to_nat c)) then group_communities (i + 1) comms (push_back c i structure) else None
  end.

Fixpoint csr_offsets (total : nat) (ls : list (list Z)) : list nat :=
  match ls with [] => [total] | l :: ls => total :: csr_offsets (total + length l) ls end.

Definition build_csr (deduplication_handle : bool) (st : load_state) : option mem_sub_com_t :=
  let n := Z.to_nat (if header_parsed st then num_v_from_header st else u32 (max_vertex_id st + 1)) in
  let adj := resize n [] (adj_list st) in
  let comms := resize n 0 (temp_communities st) in
  let adj := if deduplication_handle then dedup <$> adj else adj in
  structure ← group_communities 0 comms (replicate (Z.to_nat (u32 (max_community_id st + 1))) []);
  Some (SubCom (csr_offsets 0 adj) (mjoin adj) comms structure n).

(** [None] for the file: it cannot be opened.  The outer [option]: undefined
    behaviour. *)
Definition load_graph (file : option (list Z)) (has_communities deduplication_handle : bool) : option (res mem_sub_com_t) :=
  match file with
  | None => Some (Throw runtime_error)
  | Some text =>
    match parse_lines has_communities (lines text) load_start with
    | Throw e => Some (Throw e)
    | Ok st => g ← build_csr deduplication_handle st; Some (Ok g)
    end
  end.

(** ** Writing a graph *)

Inductive stmt :=
  | Blank
  | Comment (text : list Z)
  | Vertex (v label community : Z)
  | Edge (u v : Z).

Fixpoint decimal (fuel : nat) (n : Z) : list Z :=
  match fuel with
  | O => []
  | S fuel => if n <? 10 then [48 + n] else decimal fuel (n `div` 10) ++ [48 + n `mod` 10]
  end.

Definition print_num (n : Z) : list Z := decimal 20 n.

Definition print_stmt (s : stmt) : list Z :=
  match s with
  | Blank => []
  | Comment text => 35 :: text
  | Vertex v label c => 118 :: 32 :: print_num v ++ 32 :: print_num label ++ 32 :: print_num c
  | Edge u v => 101 :: 32 :: print_num u ++ 32 :: print_num v
  end.

Definition print_header (n e : Z) : list Z := 116 :: 32 :: print_num n ++ 32 :: print_num e.

Definition print_lines (ls : list (list Z)) : list Z := mjoin ((fun l => l ++ [10]) <$> ls).

Definition print_graph (n e : Z) (stmts : list stmt) : list Z := print_lines (print_header n e :: (print_stmt <$> stmts)).

Definition printable (n : Z) : Prop := 0 <= n < 10 ^ 20.

(** Identifiers below the header's count; communities of 32 bits. *)
Definition stmt_ok (n : Z) (s : stmt) : Prop :=
  match s with
  | Blank => True
  | Comment text => 10 ∉ text
  | Vertex v label c => 0 <= v < n /\ printable label /\ 0 <= c < 2 ^ 32 - 1
  | Edge u v => 0 <= u < n /\ 0 <= v < n
  end.

(** ** Reading numbers back *)

Lemma decimal_digits fuel n : 0 <= n -> Forall (fun c => is_digit c = true) (decimal fuel n).
Proof.
  revert n. induction fuel as [|fuel IH]; intros n Hn; cbn [decimal]; [constructor|]. unfold is_digit.
  destruct (Z.ltb_spec n 10); [repeat constructor; lia|]. apply Forall_app. split; [apply IH, Z.div_pos; lia|].
  pose proof (Z.mod_pos_bound n 10). repeat constructor. lia.
Qed.

Lemma decimal_not_nil n : 0 <= n -> print_num n <> [].
Proof. intros Hn. unfold print_num. change 20%nat with (S 19). cbn [decimal]. destruct (n <? 10); [done|]. intros [_ ?]%app_eq_nil. done. Qed.

Lemma parse_digits_app w l rest acc : Forall (fun c => is_digit c = true) l ->
  parse_digits w acc (l ++ rest) = parse_digits w (foldl (fun a c => wrap w (a * 10 + (c - 48))) acc l) rest.
Proof. intros Hl. revert acc. induction Hl as [|c l Hc _ IH]; intros acc; [done|]. cbn. rewrite Hc. apply IH. Qed.

Lemma decimal_value w fuel n : 0 <= w -> 0 <= n < 10 ^ Z.of_nat fuel ->
  foldl (fun a c => wrap w (a * 10 + (c - 48))) 0 (decimal fuel n) = wrap w n.
Proof.
  intros Hw. revert n. induction fuel as [|fuel IH]; intros n Hn; cbn [decimal].
  - change (10 ^ Z.of_nat 0) with 1 in Hn. replace n with 0 by lia. cbn. unfold wrap. symmetry. apply Z.mod_0_l.
    assert (0 < 2 ^ w) by (apply Z.pow_pos_nonneg; lia). lia.
  - rewrite Nat2Z.inj_succ, Z.pow_succ_r in Hn by lia. destruct (Z.ltb_spec n 10).
    + cbn. f_equal. lia.
    + rewrite foldl_app, IH by (split; [apply Z.div_pos|apply Z.div_lt_upper_bound]; lia). cbn. unfold wrap. assert (0 < 2 ^ w) by (apply Z.pow_pos_nonneg; lia).
      rewrite Z.add_mod, Z.mul_mod_idemp_l, <- Z.add_mod by lia. f_equal. pose proof (Z.div_mod n 10). lia.
Qed.

(** What follows a number. *)
Definition number_end (s : list Z) : Prop := match s with [] => True | c :: _ => is_digit c = false end.

Lemma parse_number w n rest : 0 <= w -> printable n -> in_width w n -> number_end rest ->
  parse_digits w 0 (print_num n ++ rest) = (n, rest).
Proof.
  intros Hw Hp Hn Hr. unfold print_num. rewrite parse_digits_app by (apply decimal_digits; apply Hp).
  rewrite decimal_value, wrap_small by (done || exact Hp). destruct rest as [|c rest]; [done|]. cbn in Hr |- *. by rewrite Hr.
Qed.

Lemma skip_blanks_number n rest : 0 <= n -> skip_blanks (32 :: print_num n ++ rest) = print_num n ++ rest.
Proof.
  intros Hn. pose proof (decimal_digits 20 n Hn) as Hd. pose proof (decimal_not_nil n Hn) as Hne. fold (print_num n) in Hd.
  destruct (print_num n) as [|c l]; [done|]. apply Forall_cons in Hd as [Hc _]. cbn. unfold is_digit, is_blank in *.
  destruct (Z.eqb_spec c 32); [lia|]. destruct (Z.eqb_spec c 9); [lia|done].
Qed.

Lemma skip_number n rest : 0 <= n -> number_end rest -> skip_digits (print_num n ++ rest) = rest.
Proof.
  intros Hn Hr. unfold print_num. induction (decimal_digits 20 n Hn) as [|c l Hc _ IH]; [|cbn; by rewrite Hc].
  destruct rest as [|c rest]; [done|]. cbn in Hr |- *. by rewrite Hr.
Qed.

Lemma printable_small n : 0 <= n < 2 ^ 64 -> printable n.
Proof. unfold printable. intros. assert (2 ^ 64 < 10 ^ 20) by (vm_compute; done). lia. Qed.

(** ** Reading lines back *)

Lemma lines_print ls : Forall (fun l => 10 ∉ l) ls -> lines (print_lines ls) = ls.
Proof.
  unfold lines. intros Hls. induction Hls as [|l ls Hl _ IH]; [done|].
  assert (H : forall cur, lines_from cur ((l ++ [10]) ++ print_lines ls) = (cur ++ l) :: lines_from [] (print_lines ls)).
  { induction l as [|c l IHl]; intros cur; cbn; [by rewrite app_nil_r|]. apply not_elem_of_cons in Hl as [Hc Hl].
    rewrite (proj2 (Z.eqb_neq c 10)) by congruence. rewrite IHl by done. by rewrite <- app_assoc. }
  change (print_lines (l :: ls)) with ((l ++ [10]) ++ print_lines ls). by rewrite H, IH.
Qed.

Lemma number_no_newline n : 0 <= n -> 10 ∉ print_num n.
Proof. intros Hn Hin. pose proof (decimal_digits 20 n Hn) as Hd. rewrite Forall_forall in Hd. by specialize (Hd 10 Hin). Qed.

Lemma stmt_no_newline n s : stmt_ok n s -> 10 ∉ print_stmt s.
Proof.
  destruct s as [|text|v label c|u v]; cbn [stmt_ok print_stmt].
  - intros _. apply not_elem_of_nil.
  - intros Ht. by apply not_elem_of_cons.
  - intros ([? _] & [? _] & ? & _). rewrite !elem_of_cons, !elem_of_app, !elem_of_cons, !elem_of_app, !elem_of_cons.
    pose proof (number_no_newline v). pose proof (number_no_newline label). pose proof (number_no_newline c). intuition congruence.
  - intros ([? _] & [? _]). rewrite !elem_of_cons, !elem_of_app, !elem_of_cons.
    pose proof (number_no_newline u). pose proof (number_no_newline v). intuition congruence.
Qed.

(** ** What the lines mean *)

(** The neighbours a statement adds to [v]. *)
Definition pushed (v : Z) (s : stmt) : list Z :=
  match s with
  | Edge a b => if a =? b then [] else (if v =? a then [b] else []) ++ (if v =? b then [a] else [])
  | _ => []
  end.

Definition community_step (v : Z) (c : Z) (s : stmt) : Z :=
  match s with Vertex w _ c' => if v =? w then c' else c | _ => c end.

(** The community of the last line of a vertex. *)
Definition community_of (stmts : list stmt) (v : Z) : Z := foldl (community_step v) 0 stmts.

Definition largest_community (c : Z) (s : stmt) : Z := match s with Vertex _ _ c' => Z.max c c' | _ => c end.

Section Lines.
Variable n : Z.
Hypothesis n_range : 0 <= n <= MAX_VERTICES.

(** A state after the header. *)
Record loading (st : load_state) : Prop := {
  ld_adj : length (adj_list st) = Z.to_nat n;
  ld_comm : length (temp_communities st) = Z.to_nat n;
  ld_count : num_v_from_header st = n;
  ld_parsed : header_parsed st = true;
  ld_alloc : graph_allocated st = true
}.

(** The effect of one statement. *)
Record stmt_done (s : stmt) (st st' : load_state) : Prop := {
  sd_loading : loading st';
  sd_adj : forall v l, 0 <= v -> adj_list st !! Z.to_nat v = Some l -> adj_list st' !! Z.to_nat v = Some (l ++ pushed v s);
  sd_comm : forall v c, 0 <= v -> temp_communities st !! Z.to_nat v = Some c -> temp_communities st' !! Z.to_nat v = Some (community_step v c s);
  sd_max : max_community_id st' = largest_community (max_community_id st) s
}.

Lemma length_push v w adj : length (push_back v w adj) = length adj.
Proof. apply length_alter. Qed.

Lemma push_lookup u w v adj : 0 <= u -> 0 <= v -> push_back u w adj !! Z.to_nat v = (fun l => l ++ (if v =? u then [w] else [])) <$> adj !! Z.to_nat v.
Proof.
  intros Hu Hv. unfold push_back. destruct (Z.eqb_spec v u) as [->|Hne]; [by rewrite list_lookup_alter_eq|].
  rewrite list_lookup_alter_ne by lia. destruct (adj !! Z.to_nat v); [|done]. cbn. by rewrite app_nil_r.
Qed.

Lemma parse_stmt s st : loading st -> stmt_ok n s -> exists st', parse_line true (print_stmt s) st = Ok st' /\ stmt_done s st st'.
Proof.
  intros Hst Hok. assert (Hnm : n < 2 ^ 32) by (unfold MAX_VERTICES in n_range; lia).
  destruct s as [|text|v label c|u v]; cbn [print_stmt stmt_ok] in *.
  1, 2: exists st; split; [done|]; split; [done| |done|done]; intros v l _ Hl; cbn; by rewrite app_nil_r.
  - destruct Hok as (Hv & Hlabel & Hc). unfold parse_line. cbn [Z.eqb Pos.eqb]. rewrite skip_blanks_number by lia. unfold parse_vertex.
    rewrite parse_number; [|lia|apply printable_small; lia|unfold in_width; lia|done].
    rewrite skip_blanks_number by apply Hlabel. rewrite skip_number by (done || apply Hlabel).
    rewrite <- (app_nil_r (print_num c)), skip_blanks_number by lia.
    rewrite parse_number; [|lia|apply printable_small; lia|unfold in_width; lia|done].
    rewrite (proj2 (Z.ltb_ge MAX_VERTICES v)) by lia. destruct Hst as [H1 H2 H3 H4 H5], st as [adj comms mx mc nv hp ga]. cbn in H1, H2, H3, H4, H5. subst.
    cbn. rewrite H1, (proj2 (Z.ltb_lt v (Z.of_nat (Z.to_nat n)))) by lia. eexists. split; [done|].
    split; [split; cbn; rewrite ?length_insert; done|..]; cbn.
    + intros w l _ Hl. by rewrite app_nil_r.
    + intros w c' Hw Hc'. destruct (Z.eqb_spec w v) as [->|Hne]; [apply list_lookup_insert_eq; lia|by rewrite list_lookup_insert_ne by lia].
    + done.
  - destruct Hok as (Hu & Hv). unfold parse_line. cbn [Z.eqb Pos.eqb]. rewrite skip_blanks_number by lia. unfold parse_edge.
    rewrite parse_number; [|lia|apply printable_small; lia|unfold in_width; lia|done].
    rewrite <- (app_nil_r (print_num v)), skip_blanks_number by lia.
    rewrite parse_number; [|lia|apply printable_small; lia|unfold in_width; lia|done].
    rewrite (proj2 (Z.ltb_ge MAX_VERTICES u)), (proj2 (Z.ltb_ge MAX_VERTICES v)) by lia.
    destruct Hst as [H1 H2 H3 H4 H5], st as [adj comms mx mc nv hp ga]. cbn in H1, H2, H3, H4, H5. subst. cbn [orb].
    cbn. rewrite H1, (proj2 (Z.ltb_lt u (Z.of_nat (Z.to_nat n)))), (proj2 (Z.ltb_lt v (Z.of_nat (Z.to_nat n)))) by lia. cbn [andb].
    destruct (Z.eqb_spec u v) as [->|Hne]; cbn [negb].
    + eexists. split; [done|]. split; [done| |done|done]. intros w l _ Hl. cbn. by rewrite Z.eqb_refl, app_nil_r.
    + eexists. split; [done|]. split; [split; cbn; rewrite ?length_push; done| |done|done].
      intros w l Hw Hl. cbn in Hl |- *. rewrite !push_lookup, Hl by lia. cbn. rewrite (proj2 (Z.eqb_neq u v)) by done. by rewrite <- app_assoc.
Qed.

Lemma parse_stmts stmts : forall st, loading st -> Forall (stmt_ok n) stmts ->
  exists st', parse_lines true (print_stmt <$> stmts) st = Ok st' /\ loading st' /\
    (forall v l, 0 <= v -> adj_list st !! Z.to_nat v = Some l -> adj_list st' !! Z.to_nat v = Some (l ++ (stmts ≫= pushed v))) /\
    (forall v c, 0 <= v -> temp_communities st !! Z.to_nat v = Some c -> temp_communities st' !! Z.to_nat v = Some (foldl (community_step v) c stmts)) /\
    max_community_id st' = foldl largest_community (max_community_id st) stmts.
Proof.
  induction stmts as [|s stmts IH]; intros st Hst Hok.
  - exists st. split; [done|]. split; [done|]. split; [|done]. intros v l _ Hl. cbn. by rewrite app_nil_r.
  - apply Forall_cons in Hok as [Hs Hok]. destruct (parse_stmt s st Hst Hs) as (st1 & E1 & [H1 H2 H3 H4]).
    destruct (IH st1 H1 Hok) as (st' & E & Hst' & H5 & H6 & H7). exists st'. cbn [fmap list_fmap parse_lines]. rewrite E1. split; [exact E|].
    split; [done|]. cbn [mbind list_bind foldl]. split; [|split; [|by rewrite H7, H4]].
    + intros v l Hv Hl. rewrite app_assoc. by apply H5, H2.
    + intros v c Hv Hc. by apply H6, H3.
Qed.

Lemma parse_header_line e : printable e -> exists st, parse_line true (print_header n e) load_start = Ok st /\ loading st /\
  adj_list st = replicate (Z.to_nat n) [] /\ temp_communities st = replicate (Z.to_nat n) 0 /\ max_community_id st = 0.
Proof.
  intros He. unfold parse_line, print_header. cbn [Z.eqb Pos.eqb]. rewrite skip_blanks_number by lia. unfold parse_header.
  unfold MAX_VERTICES in *. rewrite parse_number; [|lia|apply printable_small; lia|unfold in_width; lia|done].
  rewrite <- (app_nil_r (print_num e)), skip_blanks_number by apply He.
  destruct (parse_digits 64 0 _) as [num_e rest]. rewrite (proj2 (Z.ltb_ge 1000000000 n)) by lia. eexists. split; [done|].
  cbn [adj_list temp_communities load_start]. rewrite !resize_nil. split; [|done]. split; cbn; rewrite ?length_replicate; done.
Qed.

End Lines.

(** ** The arrays *)

Lemma csr_offsets_prefixes ls : csr_offsets 0 ls = prefixes ls.
Proof.
  assert (H : forall ls a, csr_offsets a ls = (fun i => (a + sum_list (length <$> take i ls))%nat) <$> seq 0 (S (length ls))).
  { clear. intros ls. induction ls as [|l ls IH]; intros a; [cbn; by rewrite Nat.add_0_r|]. cbn [csr_offsets]. rewrite IH.
    cbn [length]. rewrite <- (cons_seq (S (length ls)) 0), <- fmap_S_seq. cbn [fmap list_fmap]. f_equal; [cbn; lia|]. rewrite <- list_fmap_compose.
    apply list_fmap_ext. intros i x _. cbn. lia. }
  rewrite H. done.
Qed.

Lemma dedup_spec l : dedup l = Smo.sort_unique l.
Proof. by destruct l. Qed.

Lemma sorted_lt_le l : StronglySorted Z.lt l -> sorted l.
Proof. induction 1 as [|x l _ IH Hx]; constructor; [done|]. eapply Forall_impl; [exact Hx|]. intros; lia. Qed.

(** The positions of a community, counted from [i]. *)
Fixpoint members (i c : Z) (comms : list Z) : list Z :=
  match comms with [] => [] | d :: comms => (if c =? d then [i] else []) ++ members (i + 1) c comms end.

Lemma members_spec c comms : forall i, StronglySorted Z.lt (members i c comms) /\
  forall v, v ∈ members i c comms <-> i <= v /\ comms !! Z.to_nat (v - i) = Some c.
Proof.
  induction comms as [|d comms IH]; intros i; cbn [members].
  - split; [constructor|]. intros v. rewrite elem_of_nil, lookup_nil. naive_solver.
  - destruct (IH (i + 1)) as [Hs Hm].
    assert (Hrest : forall v, i + 1 <= v -> (d :: comms) !! Z.to_nat (v - i) = comms !! Z.to_nat (v - (i + 1))).
    { intros v Hv. replace (Z.to_nat (v - i)) with (S (Z.to_nat (v - (i + 1)))) by lia. done. }
    assert (Hhere : (d :: comms) !! Z.to_nat (i - i) = Some d) by by rewrite Z.sub_diag.
    split.
    + destruct (c =? d); [|done]. constructor; [done|]. apply Forall_forall. intros v [Hv _]%Hm. lia.
    + intros v. rewrite elem_of_app, Hm. destruct (decide (v = i)) as [->|Hne].
      * rewrite Hhere. destruct (Z.eqb_spec c d) as [->|Hcd]; [set_solver by lia|]. rewrite elem_of_nil. split; [lia|]. by intros [_ [= ->]].
      * assert (Hno : v ∉ (if c =? d then [i] else [])) by (destruct (c =? d); set_solver). split.
        -- intros [?|[Hv ?]]; [done|]. split; [lia|]. by rewrite Hrest.
        -- intros [Hv Hl]. right. split; [lia|]. rewrite <- Hrest by lia. done.
Qed.

Lemma group_spec comms : forall i structure, Forall (fun c => 0 <= c < Z.of_nat (length structure)) comms ->
  exists structure', group_communities i comms structure = Some structure' /\ length structure' = length structure /\
    forall c l, 0 <= c -> structure !! Z.to_nat c = Some l -> structure' !! Z.to_nat c = Some (l ++ members i c comms).
Proof.
  induction comms as [|c comms IH]; intros i structure Hc; cbn [group_communities].
  - exists structure. split; [done|]. split; [done|]. intros c l _ Hl. cbn. by rewrite app_nil_r.
  - apply Forall_cons in Hc as [Hc Hcs]. rewrite decide_True by (apply lookup_lt_is_Some; lia).
    destruct (IH (i + 1) (push_back c i structure)) as (st' & E & Hl & H); [by rewrite length_push|]. exists st'. split; [done|].
    rewrite length_push in Hl. split; [done|]. intros d l Hd Hld. cbn [members]. rewrite app_assoc. apply H; [done|].
    by rewrite push_lookup, Hld by lia.
Qed.

(** ** The loaded graph *)

Definition linked (stmts : list stmt) (v w : Z) : Prop := v <> w /\ (Edge v w ∈ stmts \/ Edge w v ∈ stmts).

Lemma pushed_linked stmts v w : w ∈ (stmts ≫= pushed v) <-> linked stmts v w.
Proof.
  unfold linked. rewrite list_elem_of_bind. split.
  - intros (s & Hw & Hs). destruct s as [| | |a b]; cbn [pushed] in Hw; try by apply not_elem_of_nil in Hw.
    destruct (Z.eqb_spec a b); [by apply not_elem_of_nil in Hw|].
    destruct (Z.eqb_spec v a), (Z.eqb_spec v b); subst; cbn in Hw; rewrite ?elem_of_cons, ?elem_of_nil in Hw; naive_solver.
  - intros [Hne [Hs|Hs]]; (eexists; split; [|exact Hs]); cbn [pushed].
    + rewrite (proj2 (Z.eqb_neq v w)), Z.eqb_refl by done. set_solver.
    + rewrite (proj2 (Z.eqb_neq w v)), Z.eqb_refl by done. set_solver.
Qed.

Lemma largest_ge stmts c0 v c : 0 <= c0 -> 0 <= c <= c0 -> (forall w l d, Vertex w l d ∈ stmts -> 0 <= d < 2 ^ 32 - 1) -> c0 < 2 ^ 32 - 1 ->
  0 <= foldl (community_step v) c stmts <= foldl largest_community c0 stmts /\ foldl largest_community c0 stmts < 2 ^ 32 - 1.
Proof.
  revert c0 c. induction stmts as [|s stmts IH]; intros c0 c H0 Hc Hs Hlt; cbn [foldl]; [lia|].
  assert (Hs' : forall w l d, Vertex w l d ∈ stmts -> 0 <= d < 2 ^ 32 - 1) by (intros; eapply Hs; by apply elem_of_cons; right).
  destruct s as [| |w l d|]; try by apply IH. cbn. assert (0 <= d < 2 ^ 32 - 1) by (eapply Hs; by apply elem_of_cons; left).
  apply IH; [lia| |done|lia]. destruct (v =? w); lia.
Qed.

(** C30: loading a written graph gives the graph back: whatever the order and
    repetition of the edge lines and wherever comments and empty lines stand,
    the loader builds a well-formed graph with the header's vertices, whose
    neighbour lists are the ascending lists of the other ends of a vertex's
    edge lines, with the community of each vertex's last line (0 without one)
    and each community's vertices in ascending order. *)
Theorem load_printed_graph (n e : Z) (stmts : list stmt) :
  0 <= n <= MAX_VERTICES -> printable e -> Forall (stmt_ok n) stmts ->
  exists g, load_graph (Some (print_graph n e stmts)) true true = Some (Ok g) /\ MemGraph.wf g /\
    (forall v, com_has_vertex g v = true <-> 0 <= v < n) /\
    (forall v, 0 <= v < n -> StronglySorted Z.lt (com_get_neighbors g v) /\ forall w, w ∈ com_get_neighbors g v <-> linked stmts v w) /\
    (forall v, 0 <= v < n -> get_community_id g v = Ok (community_of stmts v)) /\
    (forall c vs, 0 <= c -> get_vertices_in_community g c = Ok vs ->
      StronglySorted Z.lt vs /\ forall v, v ∈ vs <-> 0 <= v < n /\ community_of stmts v = c).
Proof.
  intros Hn He Hok. unfold load_graph, print_graph. rewrite lines_print.
  2:{ constructor; [|rewrite Forall_fmap; eapply Forall_impl; [exact Hok|]; apply stmt_no_newline].
      unfold print_header. rewrite !elem_of_cons, !elem_of_app, !elem_of_cons. pose proof (number_no_newline n). pose proof (number_no_newline e).
      destruct He. intuition congruence. }
  cbn [parse_lines]. destruct (parse_header_line n Hn e He) as (st0 & -> & Hld & Ha0 & Hc0 & Hm0). cbn [mbind res_bind].
  destruct (parse_stmts n Hn stmts st0 Hld Hok) as (st & -> & Hst & Ha & Hc & Hm). rewrite Ha0 in Ha. rewrite Hc0 in Hc. rewrite Hm0 in Hm.
  destruct Hst as [L1 L2 L3 L4 L5]. unfold build_csr. rewrite L4, L3, !resize_all_alt by done.
  assert (Hadj : forall v, 0 <= v < n -> adj_list st !! Z.to_nat v = Some (stmts ≫= pushed v)).
  { intros v Hv. apply (Ha v []); [lia|]. apply lookup_replicate_2. lia. }
  assert (Hcom : forall v, 0 <= v < n -> temp_communities st !! Z.to_nat v = Some (community_of stmts v)).
  { intros v Hv. apply (Hc v 0); [lia|]. apply lookup_replicate_2. lia. }
  assert (Hvs : forall w l d, Vertex w l d ∈ stmts -> 0 <= d < 2 ^ 32 - 1) by (rewrite Forall_forall in Hok; intros w l d H%Hok; apply H).
  set (mx := foldl largest_community 0 stmts) in *.
  assert (Hmax : forall v, 0 <= community_of stmts v <= mx /\ mx < 2 ^ 32 - 1) by (intros; apply largest_ge; [lia|lia|done|lia]).
  rewrite Hm, wrap_small by (unfold in_width; specialize (Hmax 0); lia).
  destruct (group_spec (temp_communities st) 0 (replicate (Z.to_nat (mx + 1)) [])) as (structure & -> & Hsl & Hstr).
  { rewrite length_replicate. apply Forall_lookup. intros i c Hi. pose proof (lookup_lt_Some _ _ _ Hi).
    rewrite <- (Nat2Z.id i), Hcom in Hi by lia. injection Hi as <-. specialize (Hmax (Z.of_nat i)). lia. }
  cbn [mbind option_bind]. set (g := SubCom _ _ _ _ _). exists g. split; [done|].
  assert (Hl : lays_out g (dedup <$> adj_list st)).
  { split; cbn; [intros _; apply csr_offsets_prefixes|done|by rewrite length_fmap]. }
  assert (Hnb : forall v, 0 <= v < n -> com_get_neighbors g v = Smo.sort_unique (stmts ≫= pushed v)).
  { intros v Hv. rewrite (com_neighbors_at g _ Hl), decide_True by lia. rewrite list_lookup_fmap, Hadj by done. cbn. apply dedup_spec. }
  assert (Hval : forall v, is_valid_vertex g v = true <-> 0 <= v < n).
  { intros v. unfold is_valid_vertex. change (num_vertices g) with (Z.to_nat n). rewrite andb_true_iff, Z.leb_le, Z.ltb_lt. lia. }
  split; [|split; [|split; [|split]]].
  - exists (dedup <$> adj_list st). split; [done|]. apply Forall_fmap, Forall_true. intros l. cbn. rewrite dedup_spec.
    apply sorted_lt_le, Merge.sort_unique_sorted.
  - exact Hval.
  - intros v Hv. rewrite Hnb by done. split; [apply Merge.sort_unique_sorted|]. intros w. by rewrite Merge.elem_of_sort_unique, pushed_linked.
  - intros v Hv. unfold get_community_id. rewrite (proj2 (Hval v) Hv). cbn.
    by rewrite Hcom.
  - intros c vs Hc'. unfold get_vertices_in_community. destruct (Z.leb_spec (Z.of_nat (length (community_structure g))) c) as [|Hlt]; [done|]. intros [= <-].
    cbn in Hlt |- *. rewrite Hsl, length_replicate in Hlt. rewrite (Hstr c []) by (lia || apply lookup_replicate_2; lia). cbn.
    destruct (members_spec c (temp_communities st) 0) as [Hs Hmem]. split; [done|]. intros v. rewrite Hmem, Z.sub_0_r. split.
    + intros [Hv Hl']. pose proof (lookup_lt_Some _ _ _ Hl'). assert (Hvn : 0 <= v < n) by lia. rewrite Hcom in Hl' by done. by injection Hl' as <-.
    + intros [Hv <-]. split; [lia|]. by apply Hcom.
Qed.

Definition sample_text : list stmt := [Vertex 0 7 1; Comment [99; 32]; Edge 2 0; Blank; Edge 0 1; Edge 1 0; Edge 3 3; Vertex 2 0 1; Edge 0 2].

Lemma load_printed_graph_witness :
  exists g, load_graph (Some (print_graph 4 6 sample_text)) true true = Some (Ok g) /\
    com_get_neighbors g <$> [0; 1; 2; 3] = [[1; 2]; [0]; [0]; []] /\ get_vertices_in_community g 1 = Ok [0; 2].
Proof.
  destruct (load_printed_graph 4 6 sample_text) as (g & E & _).
  - vm_compute. split; congruence.
  - vm_compute. split; congruence.
  - repeat constructor; try lia; vm_compute; try congruence. intros H. repeat (apply elem_of_cons in H as [H|H]; [done|]). by apply not_elem_of_nil in H.
  - exists g. split; [exact E|]. vm_compute in E. injection E as <-. vm_compute. done.
Defined.

End GraphLoad.
