(* ===== verification/SmallGraph.v ===== *)
(** * The temporary small graph

    [tmp_small_graph_t] (src/include/bw_graph/mem/small_graph.h,
    src/src/small_graph.cc): a vector of vertices with a deletion mark and a
    hash set of neighbours, and three counters.  Every operation holds the
    graph's lock, so a run is a sequence of whole operations.  The loop over all
    vertices in [delete_vertex] counts in 32 bits: graphs stay below [2^32]
    vertices.  The size of a vertex record depends on the compiler and the hash
    set library and is a parameter. *)

From S2P Require Import Prelude MemGraph.

Local Open Scope Z_scope.

Module SmallGraph.
Import MemGraph.

Record small_vertex_t := SmallVertex { deleted : bool; neighbors : gset Z }.

Record tmp_small_graph_t := SmallGraph {
  vertices_ : list small_vertex_t;
  live_vertex_count_ : Z;
  edge_count_ : Z;
  memory_usage_ : Z
}.

Definition new_small_graph : tmp_small_graph_t := SmallGraph [] 0 0 0.

(** The bytes of an identifier and of a pointer. *)
Definition edge_logical_bytes : Z := 12.

Definition sorted_neighbors_from_set (s : gset Z) : list Z := sort (elements s).

(** [static_cast] of an identifier to a position of the vector. *)
Definition vertex_at (g : tmp_small_graph_t) (v : Z) : option small_vertex_t :=
  if 0 <=? v then vertices_ g !! Z.to_nat v else None.

(** [vertices_[src].neighbors.erase(vertex_id)] for every other live vertex. *)
Fixpoint drop_incoming (vertex_id src : Z) (vs : list small_vertex_t) (edge_count memory_usage : Z) : list small_vertex_t * Z * Z :=
  match vs with
  | [] => ([], edge_count, memory_usage)
  | x :: vs =>
    let '(x', edge_count, memory_usage) :=
      if (src =? vertex_id) || deleted x then (x, edge_count, memory_usage)
      else if bool_decide (vertex_id ∈ neighbors x)
      then (SmallVertex (deleted x) (neighbors x ∖ {[vertex_id]}), u64 (edge_count - 1), u64 (memory_usage - edge_logical_bytes))
      else (x, edge_count, memory_usage) in
    let '(vs', edge_count, memory_usage) := drop_incoming vertex_id (src + 1) vs edge_count memory_usage in
    (x' :: vs', edge_count, memory_usage)
  end.

Section Ops.
Variable vertex_logical_bytes : Z.

Definition insert_vertex (g : tmp_small_graph_t) : Z * tmp_small_graph_t :=
  let vertex_id := u32 (Z.of_nat (length (vertices_ g))) in
  (vertex_id, SmallGraph (vertices_ g ++ [SmallVertex false ∅]) (u64 (live_vertex_count_ g + 1)) (edge_count_ g)
    (u64 (memory_usage_ g + vertex_logical_bytes))).

Definition delete_vertex (g : tmp_small_graph_t) (vertex_id : Z) : bool * tmp_small_graph_t :=
  match vertex_at g vertex_id with
  | None => (false, g)
  | Some vertex =>
    if deleted vertex then (false, g)
    else
      let outgoing := Z.of_nat (size (neighbors vertex)) in
      let vs := <[Z.to_nat vertex_id := SmallVertex true ∅]> (vertices_ g) in
      let '(vs, edge_count, memory_usage) :=
        drop_incoming vertex_id 0 vs (u64 (edge_count_ g - outgoing)) (u64 (memory_usage_ g - u64 (outgoing * edge_logical_bytes))) in
      (true, SmallGraph vs (u64 (live_vertex_count_ g - 1)) edge_count memory_usage)
  end.

(** The end points an edge operation accepts. *)
Definition live_pair (g : tmp_small_graph_t) (src dst : Z) : option small_vertex_t :=
  match vertex_at g src, vertex_at g dst with
  | Some s, Some d => if deleted s || deleted d then None else Some s
  | _, _ => None
  end.

Definition insert_edge (g : tmp_small_graph_t) (src dst : Z) : bool * tmp_small_graph_t :=
  match live_pair g src dst with
  | None => (false, g)
  | Some vertex =>
    if bool_decide (dst ∈ neighbors vertex) then (false, g)
    else (true, SmallGraph (<[Z.to_nat src := SmallVertex (deleted vertex) ({[dst]} ∪ neighbors vertex)]> (vertices_ g))
                  (live_vertex_count_ g) (u64 (edge_count_ g + 1)) (u64 (memory_usage_ g + edge_logical_bytes)))
  end.

Definition delete_edge (g : tmp_small_graph_t) (src dst : Z) : bool * tmp_small_graph_t :=
  match live_pair g src dst with
  | None => (false, g)
  | Some vertex =>
    if bool_decide (dst ∈ neighbors vertex)
    then (true, SmallGraph (<[Z.to_nat src := SmallVertex (deleted vertex) (neighbors vertex ∖ {[dst]})]> (vertices_ g))
                  (live_vertex_count_ g) (u64 (edge_count_ g - 1)) (u64 (memory_usage_ g - edge_logical_bytes)))
    else (false, g)
  end.

Definition small_has_vertex (g : tmp_small_graph_t) (vertex_id : Z) : bool :=
  match vertex_at g vertex_id with Some x => negb (deleted x) | None => false end.

Definition small_has_edge (g : tmp_small_graph_t) (src dst : Z) : bool :=
  match live_pair g src dst with Some vertex => bool_decide (dst ∈ neighbors vertex) | None => false end.

Definition small_get_neighbors (g : tmp_small_graph_t) (vertex_id : Z) : list Z :=
  match vertex_at g vertex_id with
  | Some x => if deleted x then [] else sorted_neighbors_from_set (neighbors x)
  | None => []
  end.

Definition vertex_id_upper_bound (g : tmp_small_graph_t) : Z := Z.of_nat (length (vertices_ g)).

(** The marks and sorted lists of all vertices, and two counters. *)
Definition snapshot (g : tmp_small_graph_t) : list (bool * list Z) * Z * Z :=
  ((fun x => (deleted x, sorted_neighbors_from_set (neighbors x))) <$> vertices_ g, edge_count_ g, memory_usage_ g).

(** ** A sequence of operations *)

Inductive op := InsertVertex | DeleteVertex (v : Z) | InsertEdge (u v : Z) | DeleteEdge (u v : Z) | HasVertex (v : Z) | HasEdge (u v : Z) | GetNeighbors (v : Z).

Inductive out := OBool (b : bool) | OId (v : Z) | OList (l : list Z).

Definition run_op (o : op) (g : tmp_small_graph_t) : out * tmp_small_graph_t :=
  match o with
  | InsertVertex => let '(v, g) := insert_vertex g in (OId v, g)
  | DeleteVertex v => let '(b, g) := delete_vertex g v in (OBool b, g)
  | InsertEdge u v => let '(b, g) := insert_edge g u v in (OBool b, g)
  | DeleteEdge u v => let '(b, g) := delete_edge g u v in (OBool b, g)
  | HasVertex v => (OBool (small_has_vertex g v), g)
  | HasEdge u v => (OBool (small_has_edge g u v), g)
  | GetNeighbors v => (OList (small_get_neighbors g v), g)
  end.

Fixpoint run_ops (ops : list op) (g : tmp_small_graph_t) : list out * tmp_small_graph_t :=
  match ops with
  | [] => ([], g)
  | o :: ops => let '(x, g) := run_op o g in let '(xs, g) := run_ops ops g in (x :: xs, g)
  end.

(** ** The specification: identifiers handed out, live vertices, edges *)

Record spec_t := Spec { issued : Z; live : gset Z; edges : gset (Z * Z) }.

Definition targets (d : spec_t) (u : Z) : gset Z := set_map snd (filter (fun e => e.1 = u) (edges d)).

Definition both_live (d : spec_t) (u v : Z) : Prop := u ∈ live d /\ v ∈ live d.

Definition spec_op (o : op) (d : spec_t) : spec_t :=
  match o with
  | InsertVertex => Spec (issued d + 1) ({[issued d]} ∪ live d) (edges d)
  | DeleteVertex v => Spec (issued d) (live d ∖ {[v]}) (filter (fun e => e.1 <> v /\ e.2 <> v) (edges d))
  | InsertEdge u v => if decide (u ∈ live d /\ v ∈ live d) then Spec (issued d) (live d) ({[(u, v)]} ∪ edges d) else d
  | DeleteEdge u v => Spec (issued d) (live d) (edges d ∖ {[(u, v)]})
  | _ => d
  end.

Definition spec_out (o : op) (d : spec_t) : out :=
  match o with
  | InsertVertex => OId (issued d)
  | DeleteVertex v => OBool (bool_decide (v ∈ live d))
  | InsertEdge u v => OBool (bool_decide (u ∈ live d /\ v ∈ live d /\ (u, v) ∉ edges d))
  | DeleteEdge u v | HasEdge u v => OBool (bool_decide ((u, v) ∈ edges d))
  | HasVertex v => OBool (bool_decide (v ∈ live d))
  | GetNeighbors v => OList (sort (elements (targets d v)))
  end.

Fixpoint spec_run (ops : list op) (d : spec_t) : list out * spec_t :=
  match ops with
  | [] => ([], d)
  | o :: ops => let '(xs, d') := spec_run ops (spec_op o d) in (spec_out o d :: xs, d')
  end.

End Ops.

(** ** Counting edges *)

Definition edge_sum (vs : list small_vertex_t) : Z := Z.of_nat (sum_list ((fun x => size (neighbors x)) <$> vs)).

Fixpoint pairs (i : Z) (vs : list small_vertex_t) : list (Z * Z) :=
  match vs with [] => [] | x :: vs => (pair i <$> elements (neighbors x)) ++ pairs (i + 1) vs end.

Definition live_count (vs : list small_vertex_t) : Z := count (fun x => negb (deleted x)) vs.

Lemma pairs_elem vs : forall i u v, (u, v) ∈ pairs i vs <-> i <= u /\ exists x, vs !! Z.to_nat (u - i) = Some x /\ v ∈ neighbors x.
Proof.
  induction vs as [|x vs IH]; intros i u v; cbn [pairs].
  - rewrite elem_of_nil. split; [done|]. intros (_ & x & Hx & _). by rewrite lookup_nil in Hx.
  - rewrite elem_of_app, IH, list_elem_of_fmap. split.
    + intros [(w & [= -> ->] & Hw%elem_of_elements)|(Hu & y & Hy & Hv)].
      * split; [lia|]. exists x. by rewrite Z.sub_diag.
      * split; [lia|]. exists y. replace (Z.to_nat (u - i)) with (S (Z.to_nat (u - (i + 1)))) by lia. done.
    + intros (Hu & y & Hy & Hv). destruct (decide (u = i)) as [->|].
      * rewrite Z.sub_diag in Hy. injection Hy as ->. left. exists v. by rewrite elem_of_elements.
      * right. split; [lia|]. exists y. split; [|done]. by replace (Z.to_nat (u - i)) with (S (Z.to_nat (u - (i + 1)))) in Hy by lia.
Qed.

Lemma pairs_NoDup vs : forall i, NoDup (pairs i vs).
Proof.
  induction vs as [|x vs IH]; intros i; cbn [pairs]; [constructor|]. apply NoDup_app. split; [|split; [|done]].
  - apply NoDup_fmap_2; [apply _|apply NoDup_elements].
  - intros [u v] (w & [= -> ->] & _)%list_elem_of_fmap [Hu _]%pairs_elem. lia.
Qed.

Lemma edge_sum_cons x vs : edge_sum (x :: vs) = Z.of_nat (size (neighbors x)) + edge_sum vs.
Proof.
  unfold edge_sum. change (sum_list ((fun x => size (neighbors x)) <$> x :: vs)) with
    (size (neighbors x) + sum_list ((fun x => size (neighbors x)) <$> vs))%nat. lia.
Qed.

Lemma length_pairs vs : forall i, Z.of_nat (length (pairs i vs)) = edge_sum vs.
Proof.
  induction vs as [|x vs IH]; intros i; [done|]. cbn [pairs]. rewrite length_app, length_fmap, edge_sum_cons, <- (IH (i + 1)).
  change (length (elements (neighbors x))) with (size (neighbors x)). lia.
Qed.

Lemma edge_sum_insert vs : forall i x y, vs !! i = Some x ->
  edge_sum (<[i := y]> vs) = edge_sum vs - Z.of_nat (size (neighbors x)) + Z.of_nat (size (neighbors y)).
Proof.
  induction vs as [|a vs IH]; intros [|i] x y Hx; [done|done|..]; cbn in Hx.
  - injection Hx as ->. change (<[0%nat := y]> (x :: vs)) with (y :: vs). rewrite !edge_sum_cons. lia.
  - change (<[S i := y]> (a :: vs)) with (a :: <[i := y]> vs). rewrite !edge_sum_cons, (IH i x y Hx). lia.
Qed.

Fixpoint live_ids (i : Z) (vs : list small_vertex_t) : list Z :=
  match vs with [] => [] | x :: vs => (if deleted x then [] else [i]) ++ live_ids (i + 1) vs end.

Lemma live_ids_elem vs : forall i v, v ∈ live_ids i vs <-> i <= v /\ exists x, vs !! Z.to_nat (v - i) = Some x /\ deleted x = false.
Proof.
  induction vs as [|x vs IH]; intros i v; cbn [live_ids].
  - rewrite elem_of_nil. split; [done|]. intros (_ & x & Hx & _). by rewrite lookup_nil in Hx.
  - rewrite elem_of_app, IH. destruct (decide (v = i)) as [->|Hne].
    + rewrite Z.sub_diag. change (Z.to_nat 0) with 0%nat. destruct (deleted x) eqn:Ed.
      * rewrite elem_of_nil. split; [lia|]. intros (_ & y & [= ->] & ?). congruence.
      * split; [|set_solver]. intros _. split; [lia|]. by exists x.
    + assert (Hno : v ∉ (if deleted x then [] else [i])) by (destruct (deleted x); set_solver).
      assert (Hn : i + 1 <= v -> Z.to_nat (v - i) = S (Z.to_nat (v - (i + 1)))) by lia. split.
      * intros [?|(Hv & y & Hy)]; [done|]. split; [lia|]. exists y. by rewrite Hn.
      * intros (Hv & y & Hy). right. split; [lia|]. exists y. by rewrite Hn in Hy by lia.
Qed.

Lemma live_ids_NoDup vs : forall i, NoDup (live_ids i vs).
Proof.
  induction vs as [|x vs IH]; intros i; cbn [live_ids]; [constructor|]. destruct (deleted x); [apply IH|].
  constructor; [|apply IH]. intros [? _]%live_ids_elem. lia.
Qed.

Lemma length_live_ids vs : forall i, Z.of_nat (length (live_ids i vs)) = live_count vs.
Proof.
  unfold live_count. induction vs as [|x vs IH]; intros i; [done|]. cbn [live_ids]. rewrite count_cons, length_app, <- (IH (i + 1)).
  destruct (deleted x); cbn [length negb Z.b2z]; lia.
Qed.

(** ** The refinement *)

Section Refine.
Variable vertex_logical_bytes : Z.

Record refines (g : tmp_small_graph_t) (d : spec_t) : Prop := {
  rf_issued : issued d = Z.of_nat (length (vertices_ g));
  rf_live : forall v, v ∈ live d <-> exists x, vertex_at g v = Some x /\ deleted x = false;
  rf_edges : forall u v, (u, v) ∈ edges d <-> exists x, vertex_at g u = Some x /\ v ∈ neighbors x;
  rf_closed : forall u v, (u, v) ∈ edges d -> u ∈ live d /\ v ∈ live d;
  rf_live_count : live_vertex_count_ g = u64 (live_count (vertices_ g));
  rf_edge_count : edge_count_ g = u64 (edge_sum (vertices_ g));
  rf_memory : memory_usage_ g = u64 (vertex_logical_bytes * Z.of_nat (length (vertices_ g)) + edge_logical_bytes * edge_sum (vertices_ g))
}.

(** The counters count. *)
Lemma edges_counted g d : refines g d -> edge_sum (vertices_ g) = Z.of_nat (size (edges d)).
Proof.
  intros Hr. rewrite <- (length_pairs _ 0). f_equal. rewrite <- (size_list_to_set (C := gset (Z * Z))) by apply pairs_NoDup. f_equal.
  apply set_eq. intros [u v]. rewrite elem_of_list_to_set, pairs_elem, (rf_edges _ _ Hr). unfold vertex_at. rewrite Z.sub_0_r.
  destruct (Z.leb_spec 0 u); naive_solver lia.
Qed.

Lemma live_counted g d : refines g d -> live_count (vertices_ g) = Z.of_nat (size (live d)).
Proof.
  intros Hr. rewrite <- (length_live_ids _ 0). f_equal. rewrite <- (size_list_to_set (C := gset Z)) by apply live_ids_NoDup. f_equal.
  apply set_eq. intros v. rewrite elem_of_list_to_set, live_ids_elem, (rf_live _ _ Hr). unfold vertex_at. rewrite Z.sub_0_r.
  destruct (Z.leb_spec 0 v); naive_solver lia.
Qed.

Lemma u64_add a b : u64 (u64 a + b) = u64 (a + b).
Proof. unfold wrap. by rewrite Z.add_mod_idemp_l. Qed.

Lemma u64_sub a b : u64 (u64 a - b) = u64 (a - b).
Proof. unfold wrap. by rewrite Zminus_mod_idemp_l. Qed.

Lemma u64_sub_r a b : u64 (a - u64 b) = u64 (a - b).
Proof. unfold wrap. by rewrite Zminus_mod_idemp_r. Qed.

Lemma drop_incoming_spec v vs : forall src ec mem E M, ec = u64 E -> mem = u64 M ->
  let '(vs', ec', mem') := drop_incoming v src vs ec mem in
  length vs' = length vs /\
  (forall i x, vs !! i = Some x -> vs' !! i = Some (if decide (src + Z.of_nat i = v \/ deleted x = true) then x else SmallVertex (deleted x) (neighbors x ∖ {[v]}))) /\
  ec' = u64 (E - (edge_sum vs - edge_sum vs')) /\ mem' = u64 (M - edge_logical_bytes * (edge_sum vs - edge_sum vs')) /\
  live_count vs' = live_count vs.
Proof.
  induction vs as [|x vs IH]; intros src ec mem E M -> ->; cbn [drop_incoming].
  - split; [done|]. split; [done|]. split; [f_equal; lia|]. split; [f_equal; lia|done].
  - set (hit := negb ((src =? v) || deleted x) && bool_decide (v ∈ neighbors x)).
    set (x' := if (src =? v) || deleted x then x else SmallVertex (deleted x) (neighbors x ∖ {[v]})).
    assert (Hx' : Z.of_nat (size (neighbors x')) = Z.of_nat (size (neighbors x)) - Z.b2z hit /\ deleted x' = deleted x /\
      (if (src =? v) || deleted x then (x, u64 E, u64 M)
       else if bool_decide (v ∈ neighbors x) then (SmallVertex (deleted x) (neighbors x ∖ {[v]}), u64 (u64 E - 1), u64 (u64 M - edge_logical_bytes))
       else (x, u64 E, u64 M)) = (x', u64 (E - Z.b2z hit), u64 (M - edge_logical_bytes * Z.b2z hit))).
    { subst x' hit. destruct ((src =? v) || deleted x); cbn [negb andb Z.b2z]; [rewrite Z.mul_0_r, !Z.sub_0_r; auto|].
      case_bool_decide as Hv; cbn [Z.b2z neighbors deleted].
      - rewrite size_difference, size_singleton by set_solver. assert (size (neighbors x) <> 0%nat) by (intros ?%size_empty_inv; set_solver).
        rewrite !u64_sub, Z.mul_1_r. split; [lia|done].
      - replace (neighbors x ∖ {[v]}) with (neighbors x) by set_solver. rewrite Z.mul_0_r, !Z.sub_0_r. by destruct x. }
    destruct Hx' as (Hs & Hd & ->). specialize (IH (src + 1) _ _ (E - Z.b2z hit) (M - edge_logical_bytes * Z.b2z hit) eq_refl eq_refl).
    destruct (drop_incoming v (src + 1) vs _ _) as [[vs' ec'] mem']. destruct IH as (H1 & H2 & -> & -> & H5).
    split; [cbn; lia|]. rewrite !edge_sum_cons, Hs. split; [|split; [f_equal; lia|split; [f_equal; lia|]]].
    + intros [|i] y Hy; [|change (vs !! i = Some y) in Hy; change ((x' :: vs') !! S i) with (vs' !! i)].
      * injection Hy as <-. change ((x' :: vs') !! 0%nat) with (Some x'). change (Z.of_nat 0) with 0. f_equal. subst x'. rewrite Z.add_0_r. destruct (Z.eqb_spec src v), (deleted x) eqn:Ed; cbn [orb];
          repeat case_decide; try done; naive_solver.
      * rewrite (H2 i y Hy). f_equal. rewrite (decide_ext _ (src + Z.of_nat (S i) = v \/ deleted y = true)); [done|].
        replace (src + 1 + Z.of_nat i) with (src + Z.of_nat (S i)) by lia. done.
    + unfold live_count in *. rewrite !count_cons, Hd, H5. done.
Qed.

Lemma vertex_at_insert vs a b c u x y v : vertex_at (SmallGraph vs a b c) u = Some x ->
  vertex_at (SmallGraph (<[Z.to_nat u := y]> vs) a b c) v = if decide (v = u) then Some y else vertex_at (SmallGraph vs a b c) v.
Proof.
  unfold vertex_at. cbn. destruct (Z.leb_spec 0 u); [|done]. intros Hx. case_decide as Hv.
  - subst v. rewrite (proj2 (Z.leb_le 0 u)) by lia. apply list_lookup_insert_eq. by eapply lookup_lt_Some.
  - destruct (Z.leb_spec 0 v); [|done]. apply list_lookup_insert_ne. lia.
Qed.

Lemma live_pair_spec g d u v : refines g d ->
  match live_pair g u v with
  | Some x => vertex_at g u = Some x /\ deleted x = false /\ u ∈ live d /\ v ∈ live d
  | None => ~ (u ∈ live d /\ v ∈ live d)
  end.
Proof.
  intros Hr. unfold live_pair. pose proof (rf_live _ _ Hr u) as Hu. pose proof (rf_live _ _ Hr v) as Hv.
  destruct (vertex_at g u) as [x|]; [|intros [Hu' _]; apply Hu in Hu' as (? & ? & _); done].
  destruct (vertex_at g v) as [y|]; [|intros [_ Hv']; apply Hv in Hv' as (? & ? & _); done].
  destruct (deleted x) eqn:Ex; cbn [orb]; [intros [Hu' _]; apply Hu in Hu' as (? & [= <-] & ?); congruence|].
  destruct (deleted y) eqn:Ey; [intros [_ Hv']; apply Hv in Hv' as (? & [= <-] & ?); congruence|]. rewrite Hu, Hv. eauto 10.
Qed.

Lemma at_lookup g u x : vertex_at g u = Some x -> 0 <= u /\ vertices_ g !! Z.to_nat u = Some x.
Proof. unfold vertex_at. by destruct (Z.leb_spec 0 u). Qed.

(** Changing the neighbours of a live vertex. *)
Lemma rf_set_neighbors g d u x ns es k : refines g d -> vertex_at g u = Some x -> deleted x = false ->
  Z.of_nat (size ns) = Z.of_nat (size (neighbors x)) + k ->
  (forall v, v ∈ ns -> v ∈ live d) -> u ∈ live d -> (forall w v, (w, v) ∈ es <-> if decide (w = u) then v ∈ ns else (w, v) ∈ edges d) ->
  refines (SmallGraph (<[Z.to_nat u := SmallVertex (deleted x) ns]> (vertices_ g)) (live_vertex_count_ g)
             (u64 (edge_count_ g + k)) (u64 (memory_usage_ g + edge_logical_bytes * k))) (Spec (issued d) (live d) es).
Proof.
  intros Hr Hx Hd Hk Hcl Hu Hes. destruct (at_lookup g u x Hx) as [Hu0 Hl].
  assert (Ha : forall v, vertex_at (SmallGraph (<[Z.to_nat u := SmallVertex (deleted x) ns]> (vertices_ g)) (live_vertex_count_ g)
             (u64 (edge_count_ g + k)) (u64 (memory_usage_ g + edge_logical_bytes * k))) v =
             if decide (v = u) then Some (SmallVertex (deleted x) ns) else vertex_at g v).
  { intros v. rewrite (vertex_at_insert _ _ _ _ u x); [done|]. exact Hx. }
  split; cbn [issued live edges vertices_ live_vertex_count_ edge_count_ memory_usage_].
  - by rewrite length_insert, (rf_issued _ _ Hr).
  - intros v. rewrite (rf_live _ _ Hr), Ha. case_decide; [subst|done]. rewrite Hx. naive_solver.
  - intros w v. rewrite Hes, Ha. case_decide; [subst|by rewrite (rf_edges _ _ Hr)]. naive_solver.
  - intros w v. rewrite Hes. case_decide; [subst; split; auto|apply (rf_closed _ _ Hr)].
  - rewrite (rf_live_count _ _ Hr). unfold live_count. rewrite (count_insert _ _ _ x) by done. cbn [deleted]. f_equal. lia.
  - rewrite (rf_edge_count _ _ Hr), u64_add, (edge_sum_insert _ _ x) by done. cbn [neighbors]. f_equal. lia.
  - rewrite (rf_memory _ _ Hr), u64_add, (edge_sum_insert _ _ x), length_insert by done. cbn [neighbors]. f_equal. lia.
Qed.

Lemma edge_here g d u v x : refines g d -> vertex_at g u = Some x -> (u, v) ∈ edges d <-> v ∈ neighbors x.
Proof. intros Hr Hx. rewrite (rf_edges _ _ Hr), Hx. naive_solver. Qed.

Lemma rf_insert_edge g d u v : refines g d ->
  OBool (insert_edge g u v).1 = spec_out (InsertEdge u v) d /\ refines (insert_edge g u v).2 (spec_op (InsertEdge u v) d).
Proof.
  intros Hr. unfold insert_edge. pose proof (live_pair_spec g d u v Hr) as Hp. cbn [spec_op spec_out]. destruct (live_pair g u v) as [x|].
  - destruct Hp as (Hx & Hd & Hu & Hv). rewrite decide_True by done. pose proof (edge_here g d u v x Hr Hx) as He.
    destruct (decide (v ∈ neighbors x)) as [Hin|Hin].
    + rewrite (bool_decide_true (v ∈ _)), bool_decide_false by tauto. split; [done|]. replace ({[(u, v)]} ∪ edges d) with (edges d) by set_solver. by destruct d.
    + rewrite (bool_decide_false (v ∈ _)), bool_decide_true by tauto. split; [done|].
      replace (memory_usage_ g + edge_logical_bytes) with (memory_usage_ g + edge_logical_bytes * 1) by lia.
      apply (rf_set_neighbors g d u x); try done.
      * rewrite size_union, size_singleton by set_solver. lia.
      * intros w Hw. apply elem_of_union in Hw as [->%elem_of_singleton|Hw]; [done|]. apply (rf_closed _ _ Hr u). by rewrite (edge_here g d u w x).
      * intros w y. rewrite elem_of_union, elem_of_singleton. case_decide as Hw.
        -- subst w. rewrite (edge_here g d u y x), elem_of_union, elem_of_singleton by done. naive_solver.
        -- naive_solver.
  - rewrite decide_False, bool_decide_false by tauto. done.
Qed.

Lemma rf_delete_edge g d u v : refines g d ->
  OBool (delete_edge g u v).1 = spec_out (DeleteEdge u v) d /\ refines (delete_edge g u v).2 (spec_op (DeleteEdge u v) d).
Proof.
  intros Hr. unfold delete_edge. pose proof (live_pair_spec g d u v Hr) as Hp. cbn [spec_op spec_out].
  assert (Hno : (u, v) ∉ edges d -> refines g (Spec (issued d) (live d) (edges d ∖ {[(u, v)]}))).
  { intros Hn. replace (edges d ∖ {[(u, v)]}) with (edges d) by set_solver. by destruct d. }
  destruct (live_pair g u v) as [x|].
  - destruct Hp as (Hx & Hd & Hu & Hv). pose proof (edge_here g d u v x Hr Hx) as He.
    destruct (decide (v ∈ neighbors x)) as [Hin|Hin].
    + rewrite (bool_decide_true (v ∈ _)), bool_decide_true by tauto. split; [done|]. cbn [snd].
      replace (edge_count_ g - 1) with (edge_count_ g + -1) by lia.
      replace (memory_usage_ g - edge_logical_bytes) with (memory_usage_ g + edge_logical_bytes * -1) by lia.
      apply (rf_set_neighbors g d u x); try done.
      * rewrite size_difference, size_singleton by set_solver. assert (size (neighbors x) <> 0%nat) by (intros ?%size_empty_inv; set_solver). lia.
      * intros w [Hw _]%elem_of_difference. apply (rf_closed _ _ Hr u). by rewrite (edge_here g d u w x).
      * intros w y. rewrite elem_of_difference, elem_of_singleton. case_decide as Hw.
        -- subst w. rewrite (edge_here g d u y x), elem_of_difference, elem_of_singleton by done. naive_solver.
        -- naive_solver.
    + rewrite (bool_decide_false (v ∈ _)), bool_decide_false by tauto. split; [done|]. apply Hno. tauto.
  - assert (Hn : (u, v) ∉ edges d) by (intros ?%(rf_closed _ _ Hr); tauto). rewrite bool_decide_false by done. split; [done|]. by apply Hno.
Qed.

Lemma rf_insert_vertex g d : refines g d -> Z.of_nat (length (vertices_ g)) < 2 ^ 32 ->
  OId (insert_vertex vertex_logical_bytes g).1 = spec_out InsertVertex d /\
  refines (insert_vertex vertex_logical_bytes g).2 (spec_op InsertVertex d).
Proof.
  intros Hr Hlen. cbn. split; [rewrite (rf_issued _ _ Hr), wrap_small by (unfold in_width; lia); done|].
  set (n := length (vertices_ g)) in *. rewrite (rf_issued _ _ Hr). fold n.
  assert (Ha : forall v, vertex_at (snd (insert_vertex vertex_logical_bytes g)) v = if decide (v = Z.of_nat n) then Some (SmallVertex false ∅) else vertex_at g v).
  { intros v. unfold vertex_at. cbn. case_decide as Hv.
    - subst v. rewrite (proj2 (Z.leb_le 0 (Z.of_nat n))), Nat2Z.id by lia. by rewrite list_lookup_middle.
    - destruct (Z.leb_spec 0 v); [|done]. destruct (decide (v < Z.of_nat n)); [by rewrite lookup_app_l by lia|].
      rewrite lookup_app_r by lia. rewrite !lookup_ge_None_2; [done|lia|cbn; lia]. }
  cbn [snd insert_vertex] in Ha.
  assert (Hnew : vertex_at g (Z.of_nat n) = None) by (unfold vertex_at; rewrite (proj2 (Z.leb_le 0 (Z.of_nat n))), Nat2Z.id by lia; by apply lookup_ge_None_2).
  assert (Hfresh : forall u v, (u, v) ∈ edges d -> u <> Z.of_nat n).
  { intros u v (x & Hx & _)%(rf_edges _ _ Hr) ->. congruence. }
  assert (He : edge_sum (vertices_ g ++ [SmallVertex false ∅]) = edge_sum (vertices_ g)).
  { unfold edge_sum. rewrite fmap_app, sum_list_with_app. change (sum_list_with id _) with 0%nat at 2. f_equal. lia. }
  split; cbn [issued live edges vertices_ live_vertex_count_ edge_count_ memory_usage_].
  - rewrite length_app. cbn. lia.
  - intros v. rewrite elem_of_union, elem_of_singleton, Ha, (rf_live _ _ Hr). case_decide as Hv; [subst v; naive_solver|]. naive_solver.
  - intros u v. rewrite Ha. case_decide as Hu; [subst u|apply (rf_edges _ _ Hr)]. split; [intros H%Hfresh; done|]. intros (x & [= <-] & ?). set_solver.
  - intros u v [? ?]%(rf_closed _ _ Hr). set_solver.
  - rewrite (rf_live_count _ _ Hr), u64_add. unfold live_count. rewrite count_app. f_equal.
  - by rewrite (rf_edge_count _ _ Hr), He.
  - rewrite (rf_memory _ _ Hr), u64_add, He, length_app. cbn [length]. f_equal. lia.
Qed.

Lemma rf_delete_vertex g d v : refines g d ->
  OBool (delete_vertex g v).1 = spec_out (DeleteVertex v) d /\ refines (delete_vertex g v).2 (spec_op (DeleteVertex v) d).
Proof.
  intros Hr. unfold delete_vertex. cbn [spec_out spec_op].
  assert (Hno : v ∉ live d -> refines g (Spec (issued d) (live d ∖ {[v]}) (filter (fun e => e.1 <> v /\ e.2 <> v) (edges d)))).
  { intros Hn. replace (live d ∖ {[v]}) with (live d) by set_solver.
    replace (filter (fun e => e.1 <> v /\ e.2 <> v) (edges d)) with (edges d); [by destruct d|]. apply set_eq. intros [a b].
    rewrite elem_of_filter. cbn. split; [|tauto]. intros He. destruct (rf_closed _ _ Hr _ _ He). split; [|done]. split; congruence. }
  pose proof (rf_live _ _ Hr v) as Hv. destruct (vertex_at g v) as [x|] eqn:Hx.
  2:{ assert (v ∉ live d) by (intros (? & ? & _)%Hv; done). rewrite bool_decide_false by done. split; [done|]. by apply Hno. }
  destruct (deleted x) eqn:Hd.
  { assert (v ∉ live d) by (intros (? & [= <-] & ?)%Hv; congruence). rewrite bool_decide_false by done. split; [done|]. by apply Hno. }
  rewrite bool_decide_true by (apply Hv; eauto). destruct (at_lookup g v x Hx) as [Hv0 Hl].
  set (vs1 := <[Z.to_nat v := SmallVertex true ∅]> (vertices_ g)).
  assert (He1 : edge_sum vs1 = edge_sum (vertices_ g) - Z.of_nat (size (neighbors x))).
  { unfold vs1. rewrite (edge_sum_insert _ _ x) by done. cbn [neighbors]. rewrite size_empty. lia. }
  pose proof (drop_incoming_spec v vs1 0 (u64 (edge_count_ g - Z.of_nat (size (neighbors x))))
    (u64 (memory_usage_ g - u64 (Z.of_nat (size (neighbors x)) * edge_logical_bytes)))
    (edge_sum vs1) (vertex_logical_bytes * Z.of_nat (length (vertices_ g)) + edge_logical_bytes * edge_sum vs1)) as Hdrop.
  destruct (drop_incoming v 0 vs1 _ _) as [[vs' ec'] mem']. destruct Hdrop as (H1 & H2 & -> & -> & H5).
  { by rewrite (rf_edge_count _ _ Hr), u64_sub, He1. }
  { rewrite (rf_memory _ _ Hr), u64_sub, u64_sub_r, He1. f_equal. lia. }
  split; [done|]. cbn [snd].
  assert (Ha : forall a b c w, vertex_at (SmallGraph vs' a b c) w = if decide (w = v) then Some (SmallVertex true ∅)
    else (fun y => if deleted y then y else SmallVertex (deleted y) (neighbors y ∖ {[v]})) <$> vertex_at g w).
  { intros a b c w. unfold vertex_at. cbn. destruct (decide (w = v)) as [->|Hne].
    - rewrite (proj2 (Z.leb_le 0 v)) by done. rewrite (H2 _ (SmallVertex true ∅)) by (apply list_lookup_insert_eq; by eapply lookup_lt_Some).
      by rewrite decide_True by tauto.
    - destruct (Z.leb_spec 0 w) as [Hw|]; [|done]. destruct (vertices_ g !! Z.to_nat w) as [y|] eqn:Hy.
      + rewrite (H2 _ y) by (unfold vs1; rewrite list_lookup_insert_ne by lia; done). cbn. f_equal.
        destruct (deleted y); [by rewrite decide_True by tauto|]. rewrite decide_False by (intros [?|?]; [lia|done]). done.
      + cbn. apply lookup_ge_None in Hy. apply lookup_ge_None. rewrite H1. unfold vs1. by rewrite length_insert. }
  assert (Hlen : length vs' = length (vertices_ g)) by (rewrite H1; unfold vs1; by rewrite length_insert).
  split; cbn [issued live edges vertices_ live_vertex_count_ edge_count_ memory_usage_].
  - by rewrite Hlen, (rf_issued _ _ Hr).
  - intros w. rewrite elem_of_difference, elem_of_singleton, Ha, (rf_live _ _ Hr). case_decide as Hw; [naive_solver|].
    destruct (vertex_at g w) as [y|]; cbn; [|split; [intros [(? & ? & _) _]; done|intros (? & ? & _); done]].
    destruct (deleted y) eqn:Ey.
    + split; [intros [(? & [= <-] & ?) _]; congruence|intros (? & [= <-] & ?); congruence].
    + split; [intros _; by eexists|]. intros _. split; [by eexists|done].
  - intros u w. rewrite elem_of_filter, Ha. cbn. pose proof (rf_edges _ _ Hr u w) as He. pose proof (rf_closed _ _ Hr u w) as Hc.
    pose proof (rf_live _ _ Hr u) as Hu. case_decide as Huv.
    { split; [tauto|]. intros (? & [= <-] & Hin). cbn in Hin. by apply not_elem_of_empty in Hin. }
    destruct (vertex_at g u) as [y|]; cbn; [|split; [intros [_ (? & ? & _)%He]; done|intros (? & ? & _); done]].
    destruct (deleted y) eqn:Ey.
    + assert ((u, w) ∉ edges d) as Hn by (intros Hin; destruct (Hc Hin) as [Hlu _]; apply Hu in Hlu as (? & [= <-] & ?); congruence).
      split; [tauto|]. intros (? & [= <-] & Hin). destruct Hn. apply He. eauto.
    + split; [intros [[_ ?] (? & [= <-] & ?)%He]; eexists; split; [done|]; cbn; set_solver|].
      intros (? & [= <-] & Hin). cbn in Hin. apply elem_of_difference in Hin as [? ?]. split; [set_solver|]. apply He. eauto.
  - intros u w. rewrite elem_of_filter. cbn. intros [[? ?] [? ?]%(rf_closed _ _ Hr)]. set_solver.
  - rewrite (rf_live_count _ _ Hr), u64_sub, H5. unfold vs1, live_count. rewrite (count_insert _ _ _ x) by done. cbn [deleted negb]. rewrite Hd. cbn [negb Z.b2z]. f_equal. lia.
  - f_equal. lia.
  - rewrite Hlen. f_equal. lia.
Qed.

Lemma rf_get_neighbors g d v : refines g d -> small_get_neighbors g v = sort (elements (targets d v)).
Proof.
  intros Hr. unfold small_get_neighbors, sorted_neighbors_from_set. pose proof (rf_live _ _ Hr v) as Hl.
  assert (Ht : forall ns : gset Z, (forall w, w ∈ ns <-> (v, w) ∈ edges d) -> targets d v = ns).
  { intros ns Hns. apply set_eq. intros w. rewrite Hns. unfold targets. rewrite elem_of_map. split.
    - intros ([a b] & -> & [? ?]%elem_of_filter). cbn in *. by subst.
    - intros He. exists (v, w). split; [done|]. by apply elem_of_filter. }
  assert (Hempty : v ∉ live d -> [] = sort (elements (targets d v))).
  { intros Hn. rewrite (Ht ∅); [by rewrite elements_empty|]. intros w. split; [set_solver|]. intros [? _]%(rf_closed _ _ Hr). done. }
  destruct (vertex_at g v) as [x|] eqn:Hx; [|apply Hempty; intros (? & ? & _)%Hl; done].
  destruct (deleted x) eqn:Ed; [apply Hempty; intros (? & [= <-] & ?)%Hl; congruence|]. rewrite (Ht (neighbors x)); [done|].
  intros w. by rewrite (edge_here g d v w x).
Qed.

Lemma small_op_refines o g d : refines g d -> Z.of_nat (length (vertices_ g)) < 2 ^ 32 ->
  (run_op vertex_logical_bytes o g).1 = spec_out o d /\ refines (run_op vertex_logical_bytes o g).2 (spec_op o d).
Proof.
  intros Hr Hlen. destruct o; cbn [run_op].
  - pose proof (rf_insert_vertex g d Hr Hlen) as [H1 H2]. by destruct (insert_vertex _ g).
  - pose proof (rf_delete_vertex g d v Hr) as [H1 H2]. by destruct (delete_vertex g v).
  - pose proof (rf_insert_edge g d u v Hr) as [H1 H2]. by destruct (insert_edge g u v).
  - pose proof (rf_delete_edge g d u v Hr) as [H1 H2]. by destruct (delete_edge g u v).
  - split; [|done]. cbn. f_equal. unfold small_has_vertex. pose proof (rf_live _ _ Hr v) as Hl. symmetry.
    destruct (vertex_at g v) as [x|]; [|apply bool_decide_eq_false; intros (? & ? & _)%Hl; done].
    destruct (deleted x) eqn:E; [apply bool_decide_eq_false; intros (? & [= <-] & ?)%Hl; congruence|apply bool_decide_eq_true; rewrite Hl; eauto].
  - split; [|done]. cbn. f_equal. unfold small_has_edge. pose proof (live_pair_spec g d u v Hr) as Hp. destruct (live_pair g u v) as [x|].
    + apply bool_decide_ext. symmetry. exact (edge_here g d u v x Hr (proj1 Hp)).
    + symmetry. apply bool_decide_eq_false. intros ?%(rf_closed _ _ Hr). done.
  - split; [|done]. cbn. f_equal. by apply rf_get_neighbors.
Qed.

Lemma refines_new : refines new_small_graph (Spec 0 ∅ ∅).
Proof.
  assert (Hn : forall v, vertex_at new_small_graph v = None) by (intros v; unfold vertex_at; by destruct (_ <=? _)).
  split; cbn [issued live edges vertices_ new_small_graph].
  - done.
  - intros v. rewrite Hn. split; [by intros ?%not_elem_of_empty|by intros (? & ? & _)].
  - intros u v. rewrite Hn. split; [by intros ?%not_elem_of_empty|by intros (? & ? & _)].
  - by intros u v ?%not_elem_of_empty.
  - done.
  - done.
  - change (0 = u64 (vertex_logical_bytes * 0 + 0)). by rewrite Z.mul_0_r.
Qed.

(** A small graph behaves, over fewer than [2^32] operations, like its
    specification: identifiers are issued in order and never reused, edges
    join live vertices, a deleted vertex takes its edges with it, neighbours
    come ascending; and its three counters are the number of live vertices,
    the number of edges and the memory they are charged for, to which a deleted
    vertex still counts. *)
Theorem small_graph_refines (ops : list op) :
  Z.of_nat (length ops) < 2 ^ 32 ->
  let '(xs, g) := run_ops vertex_logical_bytes ops new_small_graph in
  let '(ys, d) := spec_run ops (Spec 0 ∅ ∅) in
  xs = ys /\ live_vertex_count_ g = u64 (Z.of_nat (size (live d))) /\ edge_count_ g = u64 (Z.of_nat (size (edges d))) /\
  memory_usage_ g = u64 (vertex_logical_bytes * issued d + edge_logical_bytes * Z.of_nat (size (edges d))).
Proof.
  intros Hlen.
  assert (H : forall g d, refines g d -> Z.of_nat (length (vertices_ g)) + Z.of_nat (length ops) < 2 ^ 32 ->
    (run_ops vertex_logical_bytes ops g).1 = (spec_run ops d).1 /\ refines (run_ops vertex_logical_bytes ops g).2 (spec_run ops d).2).
  { clear Hlen. induction ops as [|o ops IH]; intros g d Hr Hb; [done|]. cbn [run_ops spec_run length] in *.
    destruct (small_op_refines o g d Hr) as [H1 H2]; [lia|].
    assert (Hg : Z.of_nat (length (vertices_ (run_op vertex_logical_bytes o g).2)) <= Z.of_nat (length (vertices_ g)) + 1).
    { rewrite <- (rf_issued _ _ H2), <- (rf_issued _ _ Hr). destruct o; cbn; try case_decide; cbn; lia. }
    destruct (run_op vertex_logical_bytes o g) as [x g']. cbn [fst snd] in *. subst x. destruct (IH g' _ H2) as [H3 H4]; [lia|].
    destruct (run_ops vertex_logical_bytes ops g') as [xs g'']. destruct (spec_run ops (spec_op o d)) as [ys d']. cbn in *. by subst. }
  destruct (H _ _ refines_new) as [H1 H2]; [cbn; lia|].
  destruct (run_ops vertex_logical_bytes ops new_small_graph) as [xs g]. destruct (spec_run ops (Spec 0 ∅ ∅)) as [ys d]. cbn [fst snd] in *.
  split; [done|]. rewrite <- (live_counted g d H2), <- (edges_counted g d H2), (rf_issued _ _ H2).
  split; [apply H2|]. split; apply H2.
Qed.

End Refine.

Lemma small_graph_refines_witness :
  let '(xs, g) := run_ops 64 [InsertVertex; InsertVertex; InsertVertex; InsertEdge 0 2; InsertEdge 0 1; InsertEdge 1 0; InsertEdge 0 7; DeleteVertex 1; GetNeighbors 0; HasEdge 1 0; InsertVertex] new_small_graph in
  xs = [OId 0; OId 1; OId 2; OBool true; OBool true; OBool true; OBool false; OBool true; OList [2]; OBool false; OId 3] /\
  (live_vertex_count_ g, edge_count_ g, memory_usage_ g) = (3, 1, 268).
Proof.
  pose proof (small_graph_refines 64 [InsertVertex; InsertVertex; InsertVertex; InsertEdge 0 2; InsertEdge 0 1; InsertEdge 1 0; InsertEdge 0 7; DeleteVertex 1; GetNeighbors 0; HasEdge 1 0; InsertVertex]) as H.
  destruct (run_ops _ _ _) as [xs g] eqn:E. vm_compute in E. injection E as <- <-. split; [|reflexivity].
  destruct (spec_run _ _) as [ys d] eqn:E. destruct H as (H & _); [vm_compute; reflexivity|]. vm_compute in E. injection E as <- <-. exact H.
Defined.

End SmallGraph.
