(* ===== verification/MemEdges.v ===== *)
(** * Edge lists and workloads ([mem/mem_edges.h], [mem_edges.cc])

    A list of edges, loaded from text or generated, that is handed edge by edge
    to an operation: sorted, shuffled, as it is, by one thread or by several.
    [to_zipfian] redistributes the edges over their sources with Zipfian
    weights and a bound per source.  Random numbers, [std::pow] and the way
    tbb splits a range are parameters; doubles are the binary64 numbers of
    Sketch.v; an operation is a function of the state it changes, one call one
    step.  Messages, file read-ahead and the sleeping between the calls of
    [apply_at_rate] are left out. *)

From Stdlib Require Import SpecFloat.
From stdpp Require Import strings.
From S2P Require Import Prelude Sketch Reorder Interleave GraphLoad.

Local Open Scope Z_scope.

(** Pseudo-random numbers: a generator state, [std::shuffle] and
    [std::uniform_int_distribution], as the standard library documents them. *)
Class RandomSource := {
  gen : Type;
  seed_gen : Z -> gen;
  shuffle : forall {A : Type}, gen -> list A -> list A * gen;
  shuffle_perm : forall {A : Type} (g : gen) (l : list A), (shuffle g l).1 ≡ₚ l;
  uniform : gen -> Z -> Z -> Z * gen;
  uniform_range : forall g lo hi, lo <= hi -> lo <= (uniform g lo hi).1 <= hi
}.

(** [tbb::blocked_range] with a grain size, split into subranges. *)
Class RangeSplit := {
  split_range : forall {A : Type}, nat -> list A -> list (list A);
  split_range_join : forall {A : Type} grain (l : list A), mjoin (split_range grain l) = l
}.

Module MemEdges.

Inductive insert_mode_t := SEQUENTIAL | RANDOM | DEFAULT.

Record mem_edge_list_t := EdgeList {
  graph_name : string;
  file_path : string;
  edges : list (Z * Z);
  buffer_size : Z
}.

Definition mem_edge_list : mem_edge_list_t := EdgeList "" "" [] (64 * 1024).
Definition mem_edge_list_named (name : string) (buffer_size : Z) : mem_edge_list_t :=
  EdgeList name ("data/" +:+ name +:+ ".delta") [] buffer_size.
Definition mem_edge_list_at (name path : string) (buffer_size : Z) : mem_edge_list_t := EdgeList name path [] buffer_size.

Definition with_edges (el : mem_edge_list_t) (es : list (Z * Z)) : mem_edge_list_t :=
  EdgeList (graph_name el) (file_path el) es (buffer_size el).

Definition edge_count (el : mem_edge_list_t) : Z := Z.of_nat (length (edges el)).
Definition clear (el : mem_edge_list_t) : mem_edge_list_t := with_edges el [].
Definition add_edge (el : mem_edge_list_t) (src dst : Z) : mem_edge_list_t := with_edges el (edges el ++ [(src, dst)]).

(** ** Loading *)

(** One line: two numbers, anything else is skipped or read as zero. *)
Definition parse_edge_line (line : list Z) : option (Z * Z) :=
  match line with
  | [] => None
  | c :: _ =>
    if c =? 35 (* # *) then None
    else
      let '(src, s) := GraphLoad.parse_digits 32 0 (GraphLoad.skip_blanks line) in
      let '(dst, _) := GraphLoad.parse_digits 32 0 (GraphLoad.skip_blanks s) in
      Some (src, dst)
  end.

(** The file's text; [None]: it cannot be opened. *)
Definition load_from_file (file : option (list Z)) (el : mem_edge_list_t) : bool * mem_edge_list_t :=
  match file with
  | None => (false, el)
  | Some text => (true, with_edges el (omap parse_edge_line (GraphLoad.lines text)))
  end.

(** ** Applying an operation *)

Definition edge_le (e f : Z * Z) : Prop := e.1 < f.1 \/ e.1 = f.1 /\ e.2 <= f.2.

#[export] Instance edge_le_dec e f : Decision (edge_le e f).
Proof. unfold edge_le. apply _. Defined.

(** [std::sort] with the comparator by source, then destination. *)
Definition sort_edges (es : list (Z * Z)) : list (Z * Z) := merge_sort edge_le es.

Section Apply.
Context {S : Type} (operation : S -> Z * Z -> S) `{!RandomSource, !RangeSplit}.

Definition apply_sequential (seed : Z) (el : mem_edge_list_t) (mode : insert_mode_t) (is_shuffle : bool) (s : S) : S :=
  match mode with
  | SEQUENTIAL => foldl operation s (sort_edges (edges el))
  | _ => foldl operation s (if is_shuffle then (shuffle (seed_gen seed) (edges el)).1 else edges el)
  end.

(** A thread's next call. *)
Definition task_step (s : S) (i : nat) (t : list (Z * Z)) : option (S * list (Z * Z)) :=
  match t with
  | [] => Some (s, [])
  | e :: t => Some (operation s e, t)
  end.

(** The edges of one [thread_id]: a chunk of the sorted list. *)
Definition chunk (chunk_size : nat) (es : list (Z * Z)) (thread_id : nat) : list (Z * Z) :=
  let start_idx := (thread_id * chunk_size)%nat in
  let end_idx := ((start_idx + chunk_size) `min` length es)%nat in
  take (end_idx - start_idx)%nat (drop start_idx es).

Definition grain_size (es : list (Z * Z)) (num_threads : nat) : nat := (1000 `max` (length es / (num_threads * 4)))%nat.

(** The tasks of a mode: what each subrange of the parallel loop goes through. *)
Definition tasks (seed : Z) (es : list (Z * Z)) (num_threads : nat) (mode : insert_mode_t) : list (list (Z * Z)) :=
  match mode with
  | SEQUENTIAL =>
    let sorted_edges := sort_edges es in
    let chunk_size := ((length sorted_edges + num_threads - 1) / num_threads)%nat in
    map mjoin (split_range 1 (map (chunk chunk_size sorted_edges) (seq 0 num_threads)))
  | RANDOM =>
    let shuffled_edges := (shuffle (seed_gen seed) es).1 in
    split_range (grain_size shuffled_edges num_threads) shuffled_edges
  | DEFAULT => split_range (grain_size es num_threads) es
  end.

Definition apply_parallel (default_concurrency : Z) (seed : Z) (el : mem_edge_list_t) (num_threads : Z) (mode : insert_mode_t)
    (sched : list nat) (s : S) : option S :=
  match edges el with
  | [] => Some s
  | _ =>
    let num_threads := if num_threads <=? 0 then default_concurrency else num_threads in
    fst <$> Interleave.run_all task_step length sched s (tasks seed (edges el) (Z.to_nat num_threads) mode)
  end.

Definition apply_range (el : mem_edge_list_t) (start_idx end_idx : nat) (s : S) : res S :=
  if (length (edges el) <=? start_idx)%nat || (length (edges el) <? end_idx)%nat || (end_idx <=? start_idx)%nat
  then Throw invalid_argument
  else Ok (foldl operation s (take (end_idx - start_idx)%nat (drop start_idx (edges el)))).

Definition apply_at_rate (el : mem_edge_list_t) (edges_per_second : Z) (s : S) : S :=
  if bool_decide (edges el = []) || (edges_per_second =? 0) then s else foldl operation s (edges el).

End Apply.

(** ** Generating *)

Section Generate.
Context `{!RandomSource, !SetOrder}.

(** The loop that draws one vertex's neighbours; [None]: out of fuel. *)
Fixpoint draw_neighbors (fuel : nat) (num_vertices edges_per_vertex src : Z) (g : gen) (neighbors : gset Z) : option (gset Z * gen) :=
  match fuel with
  | O => None
  | Datatypes.S fuel =>
    if Z.of_nat (size neighbors) <? edges_per_vertex then
      let '(dst, g) := uniform g 0 (u32 (num_vertices - 1)) in
      draw_neighbors fuel num_vertices edges_per_vertex src g (if dst =? src then neighbors else {[dst]} ∪ neighbors)
    else Some (neighbors, g)
  end.

Fixpoint generate_vertices (fuel : nat) (num_vertices edges_per_vertex : Z) (srcs : list Z) (g : gen) (es : list (Z * Z)) : option (list (Z * Z)) :=
  match srcs with
  | [] => Some es
  | src :: srcs =>
    '(neighbors, g) ← draw_neighbors fuel num_vertices edges_per_vertex src g ∅;
    generate_vertices fuel num_vertices edges_per_vertex srcs g (es ++ (pair src <$> set_order (Z.to_nat src) neighbors))
  end.

(** [rd] is what the random device gives when the seed is zero. *)
Definition generate_workload_for_smo (fuel : nat) (rd : Z) (name : string) (num_vertices edges_per_vertex seed : Z) : option mem_edge_list_t :=
  let g := seed_gen (if seed =? 0 then rd else seed) in
  es ← generate_vertices fuel num_vertices edges_per_vertex (seqZ 0 num_vertices) g [];
  Some (EdgeList name "" es (64 * 1024)).

End Generate.

(** ** The Zipfian redistribution *)

Definition dadd : spec_float -> spec_float -> spec_float := SFadd 53 1024.

Definition is_finite (f : spec_float) : bool :=
  match f with S754_zero _ | S754_finite _ _ _ => true | _ => false end.

Section Zipf.
(** [std::pow]; a [static_cast] of a double that is not in the range of
    [size_t] is undefined, [out_of_range] is what it gives. *)
Variables (pow : spec_float -> spec_float -> spec_float) (out_of_range : spec_float -> Z).

Definition to_size_t (f : spec_float) : Z :=
  match f with
  | S754_zero _ => 0
  | S754_finite false m e => let z := Z.shiftl (Zpos m) e in if z <? 2 ^ 64 then z else u64 (out_of_range f)
  | _ => u64 (out_of_range f)
  end.

Definition weight (alpha : spec_float) (i : nat) : spec_float :=
  Sketch.ddiv (Sketch.to_double 1) (pow (Sketch.to_double (Z.of_nat i + 1)) alpha).

(** The weight of the active sources that are below the bound. *)
Definition active_weight_sum (weights : list spec_float) (counts : list Z) (cap : Z) (active : list nat) : spec_float :=
  foldl (fun acc idx => if default 0 (counts !! idx) <? cap then dadd acc (default (Sketch.to_double 0) (weights !! idx)) else acc)
    (Sketch.to_double 0) active.

Record round_state := RoundState {
  edge_counts : list Z;
  assigned_this_round : Z;
  next_active_sources : list nat
}.

(** The loop over the active sources of one round. *)
Fixpoint assign_round (weights : list spec_float) (cap round_remaining : Z) (sum : spec_float) (active : list nat) (st : round_state) : round_state :=
  match active with
  | [] => st
  | idx :: active =>
    let count := default 0 (edge_counts st !! idx) in
    let capacity := cap - count in
    if capacity =? 0 then assign_round weights cap round_remaining sum active st
    else
      let expected := Sketch.dmul (Sketch.ddiv (default (Sketch.to_double 0) (weights !! idx)) sum) (Sketch.to_double round_remaining) in
      let add_edges := Z.min capacity (to_size_t expected) in
      let add_edges := Z.min add_edges (round_remaining - assigned_this_round st) in
      let st := RoundState (<[idx := count + add_edges]> (edge_counts st)) (assigned_this_round st + add_edges)
                  (if count + add_edges <? cap then next_active_sources st ++ [idx] else next_active_sources st) in
      if assigned_this_round st =? round_remaining then st
      else assign_round weights cap round_remaining sum active st
  end.

(** One edge for each active source while edges remain. *)
Fixpoint assign_residue (active : list nat) (counts : list Z) (remaining : Z) : list Z * Z :=
  match active with
  | [] => (counts, remaining)
  | idx :: active =>
    if remaining =? 0 then (counts, remaining)
    else assign_residue active (alter (Z.add 1) idx counts) (remaining - 1)
  end.

(** The water-fill; [None]: out of fuel. *)
Fixpoint fill (fuel : nat) (weights : list spec_float) (cap : Z) (counts : list Z) (active : list nat) (remaining : Z) : option (res (list Z)) :=
  match fuel with
  | O => None
  | Datatypes.S fuel =>
    if remaining <=? 0 then Some (Ok counts)
    else
      let sum := active_weight_sum weights counts cap active in
      if SFleb sum (Sketch.to_double 0) then Some (Throw runtime_error)
      else
        let st := assign_round weights cap remaining sum active (RoundState counts 0 []) in
        let remaining := remaining - assigned_this_round st in
        let active := next_active_sources st in
        if remaining =? 0 then Some (Ok (edge_counts st))
        else match active with
        | [] => Some (Throw runtime_error)
        | _ =>
          let '(counts, remaining) :=
            if assigned_this_round st =? 0 then assign_residue active (edge_counts st) remaining else (edge_counts st, remaining) in
          fill fuel weights cap counts active remaining
        end
  end.

Context `{!RandomSource, !SetOrder}.

(** The edges of one source: destinations drawn from the old ones. *)
Fixpoint draw_edges (n : nat) (dst_vector : list Z) (src : Z) (g : gen) : option (list (Z * Z) * gen) :=
  match n with
  | O => Some ([], g)
  | Datatypes.S n =>
    let '(i, g) := uniform g 0 (Z.of_nat (length dst_vector) - 1) in
    dst ← dst_vector !! Z.to_nat i;
    '(es, g) ← draw_edges n dst_vector src g;
    Some ((src, dst) :: es, g)
  end.

Fixpoint draw_all (sources : list Z) (counts : list Z) (dst_vector : list Z) (g : gen) : option (list (Z * Z) * gen) :=
  match sources, counts with
  | src :: sources, n :: counts =>
    '(es, g) ← draw_edges (Z.to_nat n) dst_vector src g;
    '(rest, g) ← draw_all sources counts dst_vector g;
    Some (es ++ rest, g)
  | _, _ => Some ([], g)
  end.

Definition SIZE_MAX : Z := 2 ^ 64 - 1.

(** [overflow_error] is a [runtime_error]. *)
Definition capacity_check (num_sources max_edges_per_source total_edges : Z) : res unit :=
  if max_edges_per_source =? 0 then Ok tt
  else if SIZE_MAX / max_edges_per_source <? num_sources then Throw runtime_error
  else if num_sources * max_edges_per_source <? total_edges then Throw invalid_argument
  else Ok tt.

(** [None]: out of fuel, or undefined behaviour. *)
Definition to_zipfian (fuel : nat) (rd : Z) (el : mem_edge_list_t) (alpha : spec_float) (seed max_edges_per_source : Z) : option (res mem_edge_list_t) :=
  if bool_decide (edges el = []) then Some (Ok el)
  else if negb (is_finite alpha) || SFltb alpha (Sketch.to_double 0) then Some (Throw invalid_argument)
  else
    let g := seed_gen (if seed =? 0 then rd else seed) in
    let all_dsts : gset Z := list_to_set (edges el).*2 in
    let srcs : gset Z := list_to_set (edges el).*1 in
    let '(unique_sources, g) := shuffle g (merge_sort Z.le (elements srcs)) in
    let num_sources := Z.of_nat (length unique_sources) in
    let total_edges := Z.of_nat (length (edges el)) in
    let effective_source_cap := if max_edges_per_source =? 0 then total_edges else max_edges_per_source in
    match capacity_check num_sources max_edges_per_source total_edges with
    | Throw e => Some (Throw e)
    | Ok _ =>
      let weights := weight alpha <$> seq 0 (length unique_sources) in
      filled ← fill fuel weights effective_source_cap (replicate (length unique_sources) 0) (seq 0 (length unique_sources)) total_edges;
      match filled with
      | Throw e => Some (Throw e)
      | Ok counts =>
        '(new_edges, g) ← draw_all unique_sources counts (set_order 0 all_dsts) g;
        Some (Ok (with_edges el (shuffle g new_edges).1))
      end
    end.

End Zipf.

(** ** The water-fill keeps the number of edges *)

Fixpoint zsum (l : list Z) : Z := match l with [] => 0 | x :: l => x + zsum l end.

Lemma zsum_insert l : forall i x y, l !! i = Some x -> zsum (<[i := y]> l) = zsum l - x + y.
Proof.
  induction l as [|a l IH]; intros [|i] x y E; [done|done|..].
  - injection E as ->. change (<[0%nat := y]> (x :: l)) with (y :: l). cbn [zsum]. lia.
  - change (<[S i := y]> (a :: l)) with (a :: <[i := y]> l). cbn [zsum]. rewrite (IH i x y E). lia.
Qed.

Lemma zsum_full c l : (forall i x, l !! i = Some x -> x = c) -> zsum l = Z.of_nat (length l) * c.
Proof.
  induction l as [|a l IH]; intros Hl; [done|]. cbn [zsum length].
  rewrite (Hl 0%nat a eq_refl), IH; [lia|]. intros i x E. by apply (Hl (S i)).
Qed.

Section ZipfProofs.
Variable out_of_range : spec_float -> Z.
Variables (weights : list spec_float) (n : nat) (cap : Z).
Hypothesis cap_pos : 0 < cap.

Lemma to_size_t_nonneg f : 0 <= to_size_t out_of_range f.
Proof.
  unfold to_size_t, wrap. destruct f as [s|s| |[] m e]; [lia|by apply Z.mod_pos_bound..|]. case_match; [|by apply Z.mod_pos_bound].
  by apply Z.shiftl_nonneg.
Qed.

(** Counts within the bound; the sources of [active] may still grow, all others
    have reached it. *)
Record counts_ok (counts : list Z) : Prop := {
  co_length : length counts = n;
  co_range : Forall (fun c => 0 <= c <= cap) counts
}.

Record sources_ok (counts : list Z) (active : list nat) : Prop := {
  so_nodup : NoDup active;
  so_range : Forall (fun i => (i < n)%nat) active;
  so_full : forall i, (i < n)%nat -> i ∉ active -> counts !! i = Some cap
}.

Definition below (counts : list Z) (i : nat) : Prop := exists c, counts !! i = Some c /\ c < cap.

Lemma counts_insert counts i c : counts_ok counts -> 0 <= c <= cap -> counts_ok (<[i := c]> counts).
Proof. intros [Hl Hr] Hc. split; [by rewrite length_insert|]. by apply Forall_insert. Qed.

Lemma below_insert_ne counts i j c : i <> j -> below counts i -> below (<[j := c]> counts) i.
Proof. intros Hne (x & E & Hx). exists x. by rewrite list_lookup_insert_ne. Qed.

Lemma assign_round_spec rr sum s0 active : forall st,
  counts_ok (edge_counts st) -> 0 <= assigned_this_round st <= rr -> zsum (edge_counts st) = s0 + assigned_this_round st ->
  sources_ok (edge_counts st) (next_active_sources st ++ active) -> Forall (below (edge_counts st)) (next_active_sources st) ->
  let st' := assign_round out_of_range weights cap rr sum active st in
  counts_ok (edge_counts st') /\ 0 <= assigned_this_round st' <= rr /\ zsum (edge_counts st') = s0 + assigned_this_round st' /\
  (assigned_this_round st' = rr \/
   sources_ok (edge_counts st') (next_active_sources st') /\ Forall (below (edge_counts st')) (next_active_sources st')).
Proof.
  induction active as [|idx active IH]; intros [counts assigned next]; cbn [edge_counts assigned_this_round next_active_sources];
    intros Hc Ha Hs Hso Hb.
  { cbn. rewrite app_nil_r in Hso. tauto. }
  cbn [assign_round edge_counts assigned_this_round next_active_sources].
  destruct Hso as [Hnd Hr Hf].
  assert (Hidx : (idx < n)%nat) by (rewrite Forall_forall in Hr; apply Hr; set_solver).
  assert (Hnn : idx ∉ next) by (apply NoDup_app in Hnd as (_ & Hd & _); set_solver).
  assert (Hna : idx ∉ active) by (apply NoDup_app in Hnd as (_ & _ & Hd); by apply NoDup_cons in Hd as [? _]).
  assert (Hnd' : NoDup (next ++ active)) by (apply NoDup_app in Hnd as (? & Hd & [? ?]%NoDup_cons); apply NoDup_app; set_solver).
  assert (Hr' : Forall (fun i => (i < n)%nat) (next ++ active)) by (rewrite Forall_forall in *; intros i Hi; apply Hr; set_solver).
  destruct (lookup_lt_is_Some_2 counts idx) as [count Ec]; [by rewrite (co_length _ Hc)|]. rewrite Ec. cbn [default from_option id].
  assert (Hcount : 0 <= count <= cap) by (destruct Hc as [_ Hcr]; rewrite Forall_lookup in Hcr; by apply (Hcr idx)).
  destruct (Z.eqb_spec (cap - count) 0) as [Hz|Hz].
  { apply IH; cbn [edge_counts assigned_this_round next_active_sources]; try done. split; [done..|].
    intros i Hi Hni. destruct (decide (i = idx)) as [->|]; [rewrite Ec; f_equal; lia|]. apply Hf; set_solver. }
  set (add := Z.min (Z.min (cap - count) _) (rr - assigned)).
  assert (Hadd : 0 <= add /\ count + add <= cap /\ assigned + add <= rr).
  { pose proof (to_size_t_nonneg (Sketch.dmul (Sketch.ddiv (default (Sketch.to_double 0) (weights !! idx)) sum) (Sketch.to_double rr))).
    unfold add. cbn [default from_option id]. lia. }
  clearbody add. assert (Hc' : counts_ok (<[idx := count + add]> counts)) by (apply counts_insert; [done|lia]).
  assert (Hs' : zsum (<[idx := count + add]> counts) = s0 + (assigned + add)) by (rewrite (zsum_insert _ _ _ _ Ec); lia).
  assert (Hlt : (idx < length counts)%nat) by (by rewrite (co_length _ Hc)).
  assert (Hb' : Forall (below (<[idx := count + add]> counts)) next).
  { rewrite Forall_forall in *. intros i Hi. apply below_insert_ne; [congruence|by apply Hb]. }
  destruct (Z.eqb_spec (assigned + add) rr) as [Hrr|Hrr].
  { cbn [edge_counts assigned_this_round]. split; [done|]. split; [lia|]. split; [done|]. by left. }
  apply IH; cbn [edge_counts assigned_this_round next_active_sources]; try done; [lia|..].
  - destruct (Z.ltb_spec (count + add) cap) as [Hlt2|Hge].
    + split; [|..].
      * rewrite <- app_assoc. exact Hnd.
      * rewrite <- app_assoc. exact Hr.
      * intros i Hi Hni. rewrite <- app_assoc in Hni. rewrite list_lookup_insert_ne by set_solver. by apply Hf.
    + split; [done..|]. intros i Hi Hni. destruct (decide (i = idx)) as [->|Hne].
      * rewrite list_lookup_insert_eq by done. f_equal. lia.
      * rewrite list_lookup_insert_ne by congruence. apply Hf; set_solver.
  - destruct (Z.ltb_spec (count + add) cap) as [Hlt2|Hge]; [|done]. apply Forall_app. split; [done|]. constructor; [|constructor].
    exists (count + add). split; [by rewrite list_lookup_insert_eq|done].
Qed.

Lemma counts_alter counts i : counts_ok counts -> below counts i -> 
  exists c, counts !! i = Some c /\ alter (Z.add 1) i counts = <[i := c + 1]> counts /\ counts_ok (<[i := c + 1]> counts).
Proof.
  intros Hc (c & E & Hlt). exists c. split; [done|]. split.
  - apply list_eq. intros j. destruct (decide (i = j)) as [<-|Hne].
    + rewrite list_lookup_alter_eq, list_lookup_insert_eq, E by (by eapply lookup_lt_Some). cbn. f_equal. lia.
    + by rewrite list_lookup_alter_ne, list_lookup_insert_ne.
  - apply counts_insert; [done|]. destruct Hc as [_ Hr]. rewrite Forall_lookup in Hr. specialize (Hr _ _ E). cbn in Hr. lia.
Qed.

Lemma assign_residue_spec active : forall counts remaining, counts_ok counts -> NoDup active -> Forall (below counts) active -> 0 <= remaining ->
  let '(counts', remaining') := assign_residue active counts remaining in
  counts_ok counts' /\ 0 <= remaining' <= remaining /\ zsum counts' + remaining' = zsum counts + remaining /\
  (forall j, j ∉ active -> counts' !! j = counts !! j) /\ (active <> [] -> 0 < remaining -> remaining' < remaining).
Proof.
  induction active as [|idx active IH]; intros counts remaining Hc Hnd Hb Hrem; cbn [assign_residue].
  { split; [done|]. split; [lia|]. done. }
  apply NoDup_cons in Hnd as [Hni Hnd]. apply Forall_cons in Hb as [Hb1 Hb].
  destruct (Z.eqb_spec remaining 0) as [->|Hne]; [repeat split; try done; try lia; apply Hc|].
  destruct (counts_alter counts idx Hc Hb1) as (c & E & -> & Hc').
  specialize (IH (<[idx := c + 1]> counts) (remaining - 1) Hc' Hnd). destruct (assign_residue active _ _) as [counts' remaining'].
  destruct IH as (? & ? & Hs & Hj & _); [|lia|].
  { rewrite Forall_forall in *. intros j Hjj. apply below_insert_ne; [congruence|by apply Hb]. }
  rewrite (zsum_insert _ _ _ _ E) in Hs. split; [done|]. split; [lia|]. split; [lia|]. split; [|lia].
  intros j Hjn. rewrite Hj, list_lookup_insert_ne by set_solver. done.
Qed.

(** The only exception: all other sources have reached the bound, and the
    weights of those that may still grow add up to nothing. *)
Definition underflows (counts : list Z) (active : list nat) : Prop :=
  counts_ok counts /\ sources_ok counts active /\ SFleb (active_weight_sum weights counts cap active) (Sketch.to_double 0) = true.

Lemma fill_sources_spec total : total <= Z.of_nat n * cap -> forall fuel counts active remaining,
  remaining < Z.of_nat fuel -> counts_ok counts -> sources_ok counts active -> 0 <= remaining -> zsum counts + remaining = total ->
  (exists counts', fill out_of_range fuel weights cap counts active remaining = Some (Ok counts') /\ counts_ok counts' /\ zsum counts' = total) \/
  fill out_of_range fuel weights cap counts active remaining = Some (Throw runtime_error) /\
    exists counts' active', underflows counts' active' /\ zsum counts' < total.
Proof.
  intros Htot. induction fuel as [|fuel IH]; intros counts active remaining Hf Hc Hso Hr Hs; [lia|]. cbn [fill].
  destruct (Z.leb_spec remaining 0) as [Hz|Hz]; [left; exists counts; split; [done|]; split; [done|lia]|].
  destruct (SFleb _ _) eqn:Eu; [right; split; [done|]; exists counts, active; split; [done|lia]|].
  pose proof (assign_round_spec remaining (active_weight_sum weights counts cap active) (zsum counts) active (RoundState counts 0 [])) as Ha.
  cbn [edge_counts assigned_this_round next_active_sources app] in Ha. specialize (Ha Hc ltac:(lia) ltac:(lia) Hso (Forall_nil_2 _)).
  destruct (assign_round _ _ _ _ _ _ _) as [counts' assigned next]. cbn [edge_counts assigned_this_round next_active_sources] in *.
  destruct Ha as (Hc' & Has & Hs' & Hor).
  destruct (Z.eqb_spec (remaining - assigned) 0) as [He|He]; [left; exists counts'; split; [done|]; split; [done|lia]|].
  destruct Hor as [|[Hso' Hb']]; [lia|]. destruct next as [|i next].
  { exfalso. pose proof (zsum_full cap counts') as Hfull. rewrite (co_length _ Hc') in Hfull. rewrite Hfull in Hs'; [lia|].
    intros i x E. assert (Hi : (i < n)%nat) by (rewrite <- (co_length _ Hc'); by eapply lookup_lt_Some).
    pose proof (so_full _ _ Hso' i Hi ltac:(set_solver)). congruence. }
  destruct (Z.eqb_spec assigned 0) as [Hz0|Hz0].
  - pose proof (assign_residue_spec (i :: next) counts' (remaining - assigned) Hc' (so_nodup _ _ Hso') Hb' ltac:(lia)) as Hres.
    destruct (assign_residue (i :: next) counts' _) as [counts2 remaining2]. destruct Hres as (Hc2 & Hr2 & Hs2 & Hj & Hlt).
    specialize (Hlt ltac:(done) ltac:(lia)). apply IH; [lia|done|..|lia|lia].
    destruct Hso' as [? ? Hfull]. split; [done..|]. intros j Hjn Hni. rewrite Hj by done. by apply Hfull.
  - apply IH; [lia|done|done|lia|lia].
Qed.
End ZipfProofs.

(** ** Drawing the new edges *)

Section Draw.
Context `{!RandomSource}.

Lemma draw_edges_spec n dv src g : dv <> [] ->
  exists es g', draw_edges n dv src g = Some (es, g') /\ length es = n /\ Forall (fun e => e.1 = src /\ e.2 ∈ dv) es.
Proof.
  intros Hdv. revert g. induction n as [|n IH]; intros g; cbn [draw_edges]; [by exists [], g|].
  assert (Hlen : (0 < length dv)%nat) by (destruct dv; [done|cbn; lia]).
  pose proof (uniform_range g 0 (Z.of_nat (length dv) - 1) ltac:(lia)) as Hi. destruct (uniform g _ _) as [i g1]. cbn [fst] in Hi.
  destruct (lookup_lt_is_Some_2 dv (Z.to_nat i)) as [dst Ed]; [lia|]. rewrite Ed. cbn [mbind option_bind].
  destruct (IH g1) as (es & g' & -> & Hl & Hes). cbn [mbind option_bind]. exists ((src, dst) :: es), g'. split; [done|].
  split; [cbn; lia|]. constructor; [|done]. split; [done|]. by eapply list_elem_of_lookup_2.
Qed.

Definition degree (es : list (Z * Z)) (src : Z) : Z := Z.of_nat (length (filter (fun e => e.1 = src) es)).

Lemma degree_app es fs src : degree (es ++ fs) src = degree es src + degree fs src.
Proof. unfold degree. rewrite filter_app, length_app. lia. Qed.

Lemma degree_all es src : Forall (fun e => e.1 = src) es -> degree es src = Z.of_nat (length es).
Proof. unfold degree. induction 1 as [|e es He _ IH]; [done|]. rewrite filter_cons_True by done. cbn [length]. lia. Qed.

Lemma degree_none es src : Forall (fun e => e.1 <> src) es -> degree es src = 0.
Proof. unfold degree. induction 1 as [|e es He _ IH]; [done|]. by rewrite filter_cons_False. Qed.

Lemma draw_all_spec dv sources : dv <> [] -> NoDup sources -> forall counts g, length counts = length sources -> Forall (Z.le 0) counts ->
  exists es g', draw_all sources counts dv g = Some (es, g') /\ Z.of_nat (length es) = zsum counts /\
    Forall (fun e => e.1 ∈ sources /\ e.2 ∈ dv) es /\
    (forall i src c, sources !! i = Some src -> counts !! i = Some c -> degree es src = c).
Proof.
  intros Hdv. induction sources as [|src sources IH]; intros Hnd [|c counts] g Hl Hc; cbn [draw_all]; try done.
  { by exists [], g. }
  apply NoDup_cons in Hnd as [Hni Hnd]. apply Forall_cons in Hc as [Hc0 Hc].
  destruct (draw_edges_spec (Z.to_nat c) dv src g Hdv) as (es & g1 & -> & Hle & Hes). cbn [mbind option_bind].
  destruct (IH Hnd counts g1) as (rest & g2 & -> & Hlr & Hrest & Hd); [by injection Hl|done|]. cbn [mbind option_bind].
  exists (es ++ rest), g2. split; [done|]. split; [rewrite length_app; cbn [zsum]; lia|]. split.
  - apply Forall_app. split; [eapply Forall_impl; [exact Hes|]|eapply Forall_impl; [exact Hrest|]]; cbn; intros e [He ?]; (split; [|done]); set_solver.
  - intros [|i] s x Es Ex; cbn in Es, Ex; rewrite degree_app.
    + injection Es as ->. injection Ex as ->. rewrite degree_all, degree_none; [lia|..].
      * eapply Forall_impl; [exact Hrest|]. cbn. intros e [He _] Heq. by rewrite Heq in He.
      * eapply Forall_impl; [exact Hes|]. by intros e [? _].
    + rewrite (Hd i s x) by done. rewrite degree_none; [lia|]. eapply Forall_impl; [exact Hes|]. cbn. intros e [-> _] Heq.
      apply Hni. rewrite Heq. by eapply list_elem_of_lookup_2.
Qed.
End Draw.

(** ** The redistribution *)

Section Zipfian.
Context `{!RandomSource, !SetOrder}.
Variables (pow : spec_float -> spec_float -> spec_float) (out_of_range : spec_float -> Z).

Lemma degree_perm es fs src : es ≡ₚ fs -> degree es src = degree fs src.
Proof. intros E. unfold degree. by rewrite E. Qed.

(** The bound that [to_zipfian] applies, and the sources of a list. *)
Definition source_cap (el : mem_edge_list_t) (max_edges_per_source : Z) : Z :=
  if max_edges_per_source =? 0 then edge_count el else max_edges_per_source.

Definition sources (el : mem_edge_list_t) : gset Z := list_to_set (edges el).*1.
Definition destinations (el : mem_edge_list_t) : gset Z := list_to_set (edges el).*2.

(** Redistributing a non-empty edge list, with a bound that leaves room for
    all its edges, ends; it keeps the number of edges, gives no source more
    than the bound, and makes up no vertex.  The one exception is an underflow
    of the weights: those of the sources that may still take edges add up to
    zero. *)
Theorem to_zipfian_redistributes (rd : Z) (el : mem_edge_list_t) (alpha : spec_float) (seed maxs : Z) :
  edges el <> [] -> is_finite alpha = true -> SFltb alpha (Sketch.to_double 0) = false -> 0 <= maxs ->
  capacity_check (Z.of_nat (size (sources el))) maxs (edge_count el) = Ok tt ->
  (exists el', to_zipfian pow out_of_range (S (length (edges el))) rd el alpha seed maxs = Some (Ok el') /\
    edge_count el' = edge_count el /\
    (forall src, degree (edges el') src <= source_cap el maxs) /\
    Forall (fun e => e.1 ∈ sources el /\ e.2 ∈ destinations el) (edges el')) \/
  (to_zipfian pow out_of_range (S (length (edges el))) rd el alpha seed maxs = Some (Throw runtime_error) /\
    exists counts active, underflows (weight pow alpha <$> seq 0 (size (sources el))) (size (sources el)) (source_cap el maxs) counts active /\
      zsum counts < edge_count el).
Proof.
  intros Hne Hfin Hneg Hm Hcap. unfold to_zipfian. rewrite bool_decide_eq_false_2, Hfin, Hneg by done. cbn [negb orb]. fold (sources el) (destinations el).
  set (g := seed_gen _). pose proof (shuffle_perm g (merge_sort Z.le (elements (sources el)))) as Hp.
  destruct (shuffle g _) as [us g1]. cbn [fst] in Hp. rewrite (merge_sort_Permutation Z.le) in Hp.
  assert (Hlen : length us = size (sources el)) by (by rewrite Hp). rewrite Hlen. fold (edge_count el). rewrite Hcap. fold (source_cap el maxs).
  assert (Hpos : 0 < edge_count el) by (unfold edge_count; destruct (edges el); [done|cbn; lia]).
  assert (Hn : (1 <= size (sources el))%nat).
  { apply Nat.le_succ_l. apply Nat.neq_0_lt_0. intros Hz. apply size_empty_inv in Hz. destruct (edges el) as [|e es] eqn:Ee; [done|].
    assert (e.1 ∈ sources el) by (unfold sources; rewrite Ee; set_solver). set_solver. }
  assert (Hc : 0 < source_cap el maxs) by (unfold source_cap; destruct (Z.eqb_spec maxs 0); lia).
  assert (Htot : edge_count el <= Z.of_nat (size (sources el)) * source_cap el maxs).
  { revert Hcap. unfold capacity_check, source_cap. destruct (Z.eqb_spec maxs 0); [nia|]. destruct (_ <? _); [done|].
    destruct (Z.ltb_spec (Z.of_nat (size (sources el)) * maxs) (edge_count el)); [done|lia]. }
  destruct (fill_sources_spec out_of_range (weight pow alpha <$> seq 0 (size (sources el))) (size (sources el)) (source_cap el maxs) Hc (edge_count el) Htot
    (S (length (edges el))) (replicate (size (sources el)) 0) (seq 0 (size (sources el))) (edge_count el)) as [(counts & -> & [Hcl Hcr] & Hs)|[-> ?]].
  - unfold edge_count. lia.
  - split; [by rewrite length_replicate|]. apply Forall_replicate. lia.
  - split; [apply NoDup_seq|apply Forall_seq; lia|]. intros i Hi Hni. destruct Hni. apply elem_of_seq. lia.
  - lia.
  - rewrite zsum_full with (c := 0); [lia|]. intros i x E. by apply lookup_replicate in E as [-> _].
  - cbn [mbind option_bind]. left. destruct (draw_all_spec (set_order 0 (destinations el)) us) with (counts := counts) (g := g1) as (es & g2 & -> & Hle & Hes & Hd).
    + intros Hz. pose proof (set_order_elements 0 (destinations el)) as Ho. rewrite Hz in Ho. apply Permutation_nil_l in Ho. symmetry in Ho.
      apply elements_empty_inv in Ho. destruct (edges el) as [|e fs] eqn:Ee; [done|].
      assert (e.2 ∈ destinations el) by (unfold destinations; rewrite Ee; set_solver). set_solver.
    + rewrite Hp. apply NoDup_elements.
    + by rewrite Hcl.
    + eapply Forall_impl; [exact Hcr|]. cbn. lia.
    + cbn [mbind option_bind]. eexists. split; [done|]. unfold edge_count in *. cbn [edges with_edges].
      pose proof (shuffle_perm g2 es) as Hsh. split; [rewrite Hsh; lia|].
      assert (Hes' : Forall (fun e => e.1 ∈ sources el /\ e.2 ∈ destinations el) es).
      { eapply Forall_impl; [exact Hes|]. cbn. intros e [He1 He2]. rewrite Hp in He1. rewrite set_order_elements in He2. set_solver. }
      split; [|by rewrite Hsh]. intros src. rewrite (degree_perm _ _ src Hsh). destruct (decide (src ∈ us)) as [Hin|Hnin].
      * apply list_elem_of_lookup_1 in Hin as [i Ei]. destruct (lookup_lt_is_Some_2 counts i) as [c Ec].
        { rewrite Hcl, <- Hlen. by eapply lookup_lt_Some. }
        rewrite (Hd i src c) by done. rewrite Forall_lookup in Hcr. apply (Hcr i c Ec).
      * rewrite degree_none; [lia|]. eapply Forall_impl; [exact Hes|]. cbn. intros e [He _] Heq. by rewrite Heq in He.
  - right. split; [done|]. done.
Qed.
End Zipfian.

(** ** Parallel application *)

Lemma edge_le_total (e f : Z * Z) : edge_le e f \/ edge_le f e.
Proof. unfold edge_le. lia. Qed.

#[export] Instance edge_le_Total : Total edge_le.
Proof. intros e f. apply edge_le_total. Qed.

#[export] Instance edge_le_Transitive : Transitive edge_le.
Proof. intros e f g. unfold edge_le. lia. Qed.

Lemma sort_edges_perm es : sort_edges es ≡ₚ es.
Proof. apply merge_sort_Permutation. Qed.

Lemma sort_edges_sorted es : StronglySorted edge_le (sort_edges es).
Proof. apply StronglySorted_merge_sort; apply _. Qed.

Section Parallel.
Context {St : Type} (operation : St -> Z * Z -> St).

(** A run makes calls in some order that respects each task's own. *)
Lemma run_calls sched : forall s ts s' ts', Interleave.run (task_step operation) sched s ts = Some (s', ts') ->
  exists calls done, s' = foldl operation s calls /\ ts = zip_with app done ts' /\ length done = length ts' /\
    calls ≡ₚ mjoin done /\ Forall (fun d => sublist d calls) done.
Proof.
  induction sched as [|i sched IH]; intros s ts s' ts' E; cbn [Interleave.run] in E.
  { injection E as <- <-. exists [], (replicate (length ts) []). split; [done|].
    split; [induction ts as [|t ts IHt]; [done|]; cbn; by f_equal|]. split; [by rewrite length_replicate|].
    split; [|by apply Forall_replicate]. induction ts as [|t ts IHt]; done. }
  destruct (ts !! i) as [t|] eqn:Et; [|by apply IH].
  assert (Hskip : forall t', t = t' -> Interleave.run (task_step operation) sched s (<[i := t']> ts) = Some (s', ts') ->
    exists calls done, s' = foldl operation s calls /\ ts = zip_with app done ts' /\ length done = length ts' /\
      calls ≡ₚ mjoin done /\ Forall (fun d => sublist d calls) done).
  { intros t' <- Er. rewrite list_insert_id in Er by done. by apply IH. }
  destruct t as [|e t]; cbn [task_step mbind option_bind] in E; [by apply (Hskip [])|]. clear Hskip.
  destruct (IH _ _ _ _ E) as (calls & done & -> & Hts & Hl & Hp & Hsub).
  assert (Hi : (i < length done)%nat).
  { assert (Hlt := lookup_lt_Some _ _ _ Et). apply (f_equal length) in Hts. rewrite length_insert, length_zip_with in Hts. lia. }
  destruct (lookup_lt_is_Some_2 done i Hi) as [d Ed]. exists (e :: calls), (<[i := e :: d]> done).
  split; [done|]. split; [|split; [by rewrite length_insert|split]].
  - rewrite <- (list_insert_id ts i (e :: t)) by done. rewrite <- (list_insert_insert_eq ts i (e :: t) t), Hts.
    assert (Ht' : exists t', ts' !! i = Some t' /\ t = d ++ t').
    { assert (Hx : zip_with app done ts' !! i = Some t) by (rewrite <- Hts; apply list_lookup_insert_eq; by eapply lookup_lt_Some).
      apply lookup_zip_with_Some in Hx as (d' & t' & -> & Ed' & Et'). exists t'. split; [done|]. congruence. }
    destruct Ht' as (t' & Et' & ->). change (e :: d ++ t') with ((e :: d) ++ t').
    rewrite insert_zip_with. f_equal. by rewrite list_insert_id.
  - rewrite Hp. rewrite <- (take_drop_middle done i d Ed) at 1. rewrite insert_take_drop by done.
    rewrite !join_app. cbn. by rewrite <- Permutation_middle.
  - apply Forall_insert; [|apply sublist_skip; rewrite Forall_lookup in Hsub; by apply (Hsub i)].
    eapply Forall_impl; [exact Hsub|]. intros d' ?. by apply sublist_cons.
Qed.

Lemma run_app s1 s2 : forall s ts,
  Interleave.run (task_step operation) (s1 ++ s2) s ts = '(s, ts) ← Interleave.run (task_step operation) s1 s ts; Interleave.run (task_step operation) s2 s ts.
Proof.
  induction s1 as [|i s1 IH]; intros s ts; [done|]. cbn [app Interleave.run].
  destruct (ts !! i) as [t|]; [|apply IH]. by destruct (task_step operation s i t) as [[s' t']|]; [apply IH|].
Qed.

(** Every task ends, and the calls are those of all the tasks. *)
Lemma run_all_calls sched s ts : exists calls,
  fst <$> Interleave.run_all (task_step operation) length sched s ts = Some (foldl operation s calls) /\
  calls ≡ₚ mjoin ts /\ Forall (fun t => sublist t calls) ts.
Proof.
  destruct (Interleave.run_all_inv (task_step operation) length) with (Inv := fun (_ : St) (_ : list (list (Z * Z))) => True) (sched := sched) (st := s) (ts := ts)
    as (s' & ts' & E & _ & Hl & Hw); [|intros; destruct t as [|e t]; by eexists _, _|done|].
  { intros st i t st' t' E. destruct t as [|e t]; cbn in E; injection E as <- <-; cbn; lia. }
  rewrite E. unfold Interleave.run_all in E. destruct (Interleave.run (task_step operation) sched s ts) as [[s1 ts1]|] eqn:E1; [|done].
  cbn [mbind option_bind] in E. assert (E2 := run_app sched (Interleave.completion length ts1) s ts).
  rewrite E1 in E2. cbn [mbind option_bind] in E2. rewrite E in E2. apply run_calls in E2 as (calls & dn & -> & -> & Hdl & Hp & Hsub).
  exists calls. split; [done|].
  assert (Hz : zip_with app dn ts' = dn).
  { apply list_eq. intros j. rewrite lookup_zip_with. destruct (dn !! j) as [d|] eqn:Ed; [|done]. cbn.
    destruct (lookup_lt_is_Some_2 ts' j) as [t' Et']; [rewrite <- Hdl; by eapply lookup_lt_Some|]. rewrite Et'. cbn.
    assert (Ht : length t' = 0%nat) by (apply Hw; by eapply list_elem_of_lookup_2). destruct t'; [by rewrite app_nil_r|done]. }
  by rewrite Hz.
Qed.

Context `{!RandomSource, !RangeSplit}.

Lemma chunks_cover (chunk_size : nat) (es : list (Z * Z)) : forall k i, (length es <= (i + k) * chunk_size)%nat ->
  mjoin (map (chunk chunk_size es) (seq i k)) = drop (i * chunk_size) es.
Proof.
  induction k as [|k IH]; intros i Hk.
  { cbn. rewrite drop_ge; [done|lia]. }
  cbn [seq map]. change (mjoin (?x :: ?l)) with (x ++ mjoin l). rewrite IH by lia. unfold chunk.
  rewrite <- (take_drop chunk_size (drop (i * chunk_size) es)) at 2. rewrite drop_drop. f_equal; [|f_equal; lia].
  destruct (Nat.le_gt_cases (i * chunk_size + chunk_size) (length es)).
  - f_equal. lia.
  - rewrite !take_ge; [done|rewrite length_drop; lia..].
Qed.

Lemma tasks_edges seed es num_threads mode : (1 <= num_threads)%nat -> mjoin (tasks seed es num_threads mode) ≡ₚ es.
Proof.
  intros Hn. destruct mode; cbn [tasks].
  - assert (Hm : forall l : list (list (list (Z * Z))), mjoin (map mjoin l) = mjoin (mjoin l)).
    { induction l as [|x l IH]; [done|]. cbn [map]. change (mjoin (?x :: ?l)) with (x ++ mjoin l). by rewrite join_app, IH. }
    rewrite Hm, split_range_join, chunks_cover; [rewrite drop_0; apply sort_edges_perm|].
    set (m := length (sort_edges es)). pose proof (Nat.div_mod (m + num_threads - 1) num_threads ltac:(lia)).
    pose proof (Nat.mod_upper_bound (m + num_threads - 1) num_threads ltac:(lia)). lia.
  - rewrite split_range_join. apply shuffle_perm.
  - by rewrite split_range_join.
Qed.

(** In every mode, with any number of threads and any interleaving of their
    calls, [apply_parallel] ends, and has made exactly one call per edge, each
    thread its edges in their order; so it is a sequential application to a
    permutation of the edges. *)
Theorem apply_parallel_calls (default_concurrency seed num_threads : Z) (el : mem_edge_list_t) (mode : insert_mode_t) (sched : list nat) (s : St) :
  0 < default_concurrency ->
  exists calls, apply_parallel operation default_concurrency seed el num_threads mode sched s = Some (foldl operation s calls) /\
    calls ≡ₚ edges el /\
    forall t, edges el <> [] ->
      t ∈ tasks seed (edges el) (Z.to_nat (if num_threads <=? 0 then default_concurrency else num_threads)) mode -> sublist t calls.
Proof.
  intros Hd. unfold apply_parallel. destruct (edges el) as [|e es] eqn:Ee; [by exists []|]. rewrite <- Ee.
  set (n := Z.to_nat _). assert (Hn : (1 <= n)%nat) by (unfold n; destruct (Z.leb_spec num_threads 0); lia).
  destruct (run_all_calls sched s (tasks seed (edges el) n mode)) as (calls & Er & Hp & Hsub).
  exists calls. split; [done|]. split; [rewrite Hp; by apply tasks_edges|]. intros t _. rewrite Forall_forall in Hsub. apply Hsub.
Qed.

(** [apply_range] refuses empty and out-of-range intervals and otherwise goes
    through the interval in order. *)
Lemma apply_range_spec el start_idx end_idx s :
  (apply_range operation el start_idx end_idx s = Throw invalid_argument /\ ~ (start_idx < end_idx <= length (edges el))%nat) \/
  (start_idx < end_idx <= length (edges el))%nat /\
  exists es, apply_range operation el start_idx end_idx s = Ok (foldl operation s es) /\
    length es = (end_idx - start_idx)%nat /\ forall i, (i < end_idx - start_idx)%nat -> es !! i = edges el !! (start_idx + i)%nat.
Proof.
  unfold apply_range. destruct (Nat.leb_spec (length (edges el)) start_idx), (Nat.ltb_spec (length (edges el)) end_idx),
    (Nat.leb_spec end_idx start_idx); cbn [orb]; try (left; split; [done|lia]).
  right. split; [lia|]. eexists. split; [done|]. split; [rewrite length_take, length_drop; lia|].
  intros i Hi. by rewrite lookup_take_lt, lookup_drop.
Qed.

End Parallel.

(** ** Text *)

Definition print_edge (e : Z * Z) : list Z := GraphLoad.print_num e.1 ++ 32 :: GraphLoad.print_num e.2.

Lemma parse_print_edge e : in_width 32 e.1 -> in_width 32 e.2 -> parse_edge_line (print_edge e) = Some e.
Proof.
  intros H1 H2. assert (Hp : forall n, in_width 32 n -> GraphLoad.printable n) by (intros n Hn; apply GraphLoad.printable_small; unfold in_width in *; lia).
  assert (H0 : 0 <= e.1) by apply H1. assert (H0' : 0 <= e.2) by apply H2.
  unfold parse_edge_line, print_edge. pose proof (GraphLoad.decimal_digits 20 e.1 H0) as Hd. pose proof (GraphLoad.decimal_not_nil e.1 H0) as Hne.
  fold (GraphLoad.print_num e.1) in Hd. destruct (GraphLoad.print_num e.1 ++ 32 :: GraphLoad.print_num e.2) as [|c l] eqn:El.
  { by apply app_eq_nil in El as [? _]. }
  destruct (Z.eqb_spec c 35) as [->|_].
  { destruct (GraphLoad.print_num e.1) as [|c' l']; [done|]. injection El as -> _. apply Forall_cons in Hd as [Hd _]. done. }
  rewrite <- El. change (GraphLoad.skip_blanks (GraphLoad.print_num e.1 ++ 32 :: GraphLoad.print_num e.2))
    with (GraphLoad.skip_blanks (32 :: GraphLoad.print_num e.1 ++ 32 :: GraphLoad.print_num e.2)).
  rewrite GraphLoad.skip_blanks_number, GraphLoad.parse_number by (done || by apply Hp).
  pose proof (GraphLoad.skip_blanks_number e.2 [] H0') as Hs. rewrite app_nil_r in Hs. rewrite Hs.
  pose proof (GraphLoad.parse_number 32 e.2 [] ltac:(lia) (Hp _ H2) H2 I) as Hn. rewrite app_nil_r in Hn. rewrite Hn. by destruct e.
Qed.

(** Printing a list of edges and loading the text gives the list back. *)
Lemma load_printed_edges el es : Forall (fun e => in_width 32 e.1 /\ in_width 32 e.2) es ->
  load_from_file (Some (GraphLoad.print_lines (print_edge <$> es))) el = (true, with_edges el es).
Proof.
  intros Hes. unfold load_from_file. do 2 f_equal. rewrite GraphLoad.lines_print.
  - induction Hes as [|e es [H1 H2] _ IH]; [done|]. rewrite fmap_cons. cbn [omap list_omap]. rewrite parse_print_edge by done. by f_equal.
  - apply Forall_fmap. eapply Forall_impl; [exact Hes|]. intros e [H1 H2]. cbn. unfold print_edge.
    rewrite not_elem_of_app, not_elem_of_cons. split; [apply GraphLoad.number_no_newline; apply H1|].
    split; [done|apply GraphLoad.number_no_newline; apply H2].
Qed.

(** ** Generated workloads *)

Section Generated.
Context `{!RandomSource, !SetOrder}.

Definition neighbors_ok (num_vertices src : Z) (neighbors : gset Z) : Prop :=
  forall d, d ∈ neighbors -> 0 <= d < num_vertices /\ d <> src.

Lemma draw_neighbors_spec fuel num_vertices k src : 1 <= num_vertices <= 2 ^ 32 -> forall g neighbors neighbors' g',
  neighbors_ok num_vertices src neighbors -> Z.of_nat (size neighbors) <= k ->
  draw_neighbors fuel num_vertices k src g neighbors = Some (neighbors', g') ->
  Z.of_nat (size neighbors') = k /\ neighbors_ok num_vertices src neighbors'.
Proof.
  intros Hn. induction fuel as [|fuel IH]; intros g neighbors neighbors' g' Hok Hk E; cbn [draw_neighbors] in E; [done|].
  destruct (Z.ltb_spec (Z.of_nat (size neighbors)) k); [|injection E as <- <-; split; [lia|done]].
  assert (Hu : u32 (num_vertices - 1) = num_vertices - 1) by (apply wrap_small; unfold in_width; lia).
  rewrite Hu in E. pose proof (uniform_range g 0 (num_vertices - 1) ltac:(lia)) as Hr. destruct (uniform g _ _) as [dst g1]. cbn [fst] in Hr.
  destruct (Z.eqb_spec dst src) as [->|Hne]; [by eapply IH in E|].
  eapply IH in E; [done| |].
  - intros d Hd. apply elem_of_union in Hd as [->%elem_of_singleton|Hd]; [split; [lia|done]|by apply Hok].
  - destruct (decide (dst ∈ neighbors)); [replace ({[dst]} ∪ neighbors) with neighbors by set_solver; lia|].
    rewrite size_union, size_singleton by set_solver. lia.
Qed.

Lemma neighbors_bound num_vertices src neighbors : 0 <= src < num_vertices -> neighbors_ok num_vertices src neighbors ->
  Z.of_nat (size neighbors) <= num_vertices - 1.
Proof.
  intros Hs Hok. assert (Hsub : {[src]} ∪ neighbors ⊆ list_to_set (seqZ 0 num_vertices)).
  { intros d Hd. apply elem_of_list_to_set, elem_of_seqZ. apply elem_of_union in Hd as [->%elem_of_singleton|Hd]; [lia|].
    apply Hok in Hd. lia. }
  apply subseteq_size in Hsub. rewrite size_union, size_singleton, size_list_to_set, length_seqZ in Hsub; [lia|apply NoDup_seqZ|].
  intros d ->%elem_of_singleton Hd. by apply Hok in Hd as [_ ?].
Qed.

(** More neighbours than there are other vertices: the loop never ends. *)
Lemma workload_diverges fuel rd name num_vertices edges_per_vertex seed :
  1 <= num_vertices <= 2 ^ 32 -> num_vertices <= edges_per_vertex ->
  generate_workload_for_smo fuel rd name num_vertices edges_per_vertex seed = None.
Proof.
  intros Hn Hk. unfold generate_workload_for_smo. rewrite seqZ_cons by lia. cbn [generate_vertices].
  destruct (draw_neighbors _ _ _ _ _ _) as [[ns g]|] eqn:E; [|done]. exfalso.
  apply draw_neighbors_spec in E as [Hs Hok]; [|done|intros d Hd; set_solver|rewrite size_empty; lia].
  apply neighbors_bound in Hok; lia.
Qed.

(** What a generated workload holds: for every vertex, in ascending order, the
    number of edges asked for, to distinct other vertices. *)
Lemma generate_vertices_spec fuel num_vertices k : 1 <= num_vertices <= 2 ^ 32 -> 0 <= k -> forall srcs g es es',
  generate_vertices fuel num_vertices k srcs g es = Some es' ->
  exists rows, es' = es ++ mjoin rows /\
    Forall2 (fun src row => exists ds, row = pair src <$> ds /\ NoDup ds /\ Z.of_nat (length ds) = k /\
                            Forall (fun d => 0 <= d < num_vertices /\ d <> src) ds) srcs rows.
Proof.
  intros Hn Hk. induction srcs as [|src srcs IH]; intros g es es' E; cbn [generate_vertices] in E.
  { injection E as <-. exists []. split; [by rewrite app_nil_r|constructor]. }
  destruct (draw_neighbors _ _ _ _ _ _) as [[ns g1]|] eqn:Ed; [|done]. cbn [mbind option_bind] in E.
  apply draw_neighbors_spec in Ed as [Hs Hok]; [|done|intros d Hd; set_solver|rewrite size_empty; lia].
  apply IH in E as (rows & -> & Hrows). set (ds := set_order (Z.to_nat src) ns).
  pose proof (set_order_elements (Z.to_nat src) ns) as Ho. fold ds in Ho.
  exists ((pair src <$> ds) :: rows). split; [by rewrite <- app_assoc|]. constructor; [|done]. exists ds. split; [done|].
  split; [rewrite Ho; apply NoDup_elements|]. split; [rewrite Ho; exact Hs|]. apply Forall_forall. intros d Hd.
  rewrite Ho in Hd. apply Hok. by apply elem_of_elements in Hd.
Qed.
End Generated.

(** ** A small list *)

#[local] Existing Instance Reorder.elements_order.

#[local] Instance counter_random : RandomSource.
Proof.
  refine {| gen := Z; seed_gen := fun s => s; shuffle := fun A g l => (rev l, g + 1);
            uniform := fun g lo hi => (if lo <=? hi then lo + g `mod` (hi - lo + 1) else lo, g + 1) |}.
  - intros A g l. cbn. symmetry. apply Permutation_rev.
  - intros g lo hi Hlo. cbn. destruct (Z.leb_spec lo hi); [|lia]. pose proof (Z.mod_pos_bound g (hi - lo + 1)). lia.
Defined.

#[local] Instance halves : RangeSplit.
Proof.
  refine {| split_range := fun A grain l => [take (length l / 2) l; drop (length l / 2) l] |}.
  intros A grain l. cbn. by rewrite app_nil_r, take_drop.
Defined.

Definition sample : mem_edge_list_t := with_edges mem_edge_list [(0, 1); (0, 2); (1, 2); (0, 3); (2, 0); (1, 0)].

(** [alpha = 1]: the weight of rank [i] is [1 / i]. *)
Lemma to_zipfian_redistributes_witness :
  (exists el', to_zipfian (fun x _ => x) (fun _ => 0) 7 11 sample (Sketch.to_double 1) 0 3 = Some (Ok el') /\
     degree (edges el') 0 = 1 /\ degree (edges el') 1 = 2 /\ degree (edges el') 2 = 3) /\
  ((exists el', to_zipfian (fun x _ => x) (fun _ => 0) 7 11 sample (Sketch.to_double 1) 0 3 = Some (Ok el') /\
     edge_count el' = edge_count sample /\
     (forall src, degree (edges el') src <= source_cap sample 3) /\
     Forall (fun e => e.1 ∈ sources sample /\ e.2 ∈ destinations sample) (edges el')) \/
   (to_zipfian (fun x _ => x) (fun _ => 0) 7 11 sample (Sketch.to_double 1) 0 3 = Some (Throw runtime_error) /\
     exists counts active, underflows (weight (fun x _ => x) (Sketch.to_double 1) <$> seq 0 (size (sources sample)))
       (size (sources sample)) (source_cap sample 3) counts active /\ zsum counts < edge_count sample)).
Proof.
  split; [eexists; split; [vm_compute; reflexivity|]; vm_compute; auto|].
  apply (to_zipfian_redistributes (fun x _ => x) (fun _ => 0) 11 sample (Sketch.to_double 1) 0 3); [done|vm_compute; reflexivity..|lia|vm_compute; reflexivity].
Defined.

Lemma apply_parallel_calls_witness : 0 < 8 /\
  exists calls, apply_parallel (fun s e => s ++ [e]) 8 1 sample 2 SEQUENTIAL [1; 0; 1]%nat [] = Some (foldl (fun s e => s ++ [e]) [] calls) /\
    calls ≡ₚ edges sample /\
    forall t, edges sample <> [] ->
      t ∈ tasks 1 (edges sample) (Z.to_nat (if 2 <=? 0 then 8 else 2)) SEQUENTIAL -> sublist t calls.
Proof. split; [lia|]. apply (apply_parallel_calls (fun s e => s ++ [e]) 8 1 2 sample SEQUENTIAL [1; 0; 1]%nat []). lia. Defined.
End MemEdges.
