(* ===== verification/BuildDb.v ===== *)
(** * Building a database from a graph ([db_build.cc], [build_seq_db])

    The graph's vertices are split into one range of identifiers per hardware
    thread.  Each thread packs the vertices of its range onto pages of its
    own, numbered from zero; the pages of all threads are then numbered
    through, the vertex index is filled, the giant vertices go to their store
    and the pages to the database file.  The last definitions are the
    database as it is then used: its pages are read back from the file. *)

From S2P Require Import Prelude Config DeltaPage VertexIndex PageMap DiskManager CsrPage Db EdgeOps Builder.
From S2P Require Import MemGraph ComGraph.

Local Open Scope Z_scope.

Module BuildDb.
Import Delta VIndex PMap Csr DB EdgeOps Builder Disk MemGraph ComGraph.

Section Build.
Context `{cfg : Config}.

(** ** One segment *)

(** [normal_vertices]: identifier, local page number and offset. *)
Record segment_result_t := SegmentResult {
  pages : list csr_page_t;
  giant_vertices : list Z;
  normal_vertices : list (Z * Z * Z)
}.

(** The variables of a thread's task. *)
Record segment_state := SegmentState {
  paged_csr_builder : csr_page_builder_t;
  local_page_no : Z;
  result : segment_result_t
}.

Definition set_page_no (p : csr_page_t) (n : Z) : csr_page_t :=
  CsrPage n (data p) (dirty p) (num_vertices_ p) (num_edges_ p) (used_bytes_ p)
    (parent_page_no_ p) (neighbor_page_count_ p) (neighbor_page_span_ p) (vertex_span_ p)
    (neighbor_ptr_ p) (is_parse_ p).

Definition segment_start : segment_state :=
  SegmentState (new_builder PAGE_SIZE EDGE_SLOT_COUNT) 0 (SegmentResult [] [] []).

(** Build the page and note where its vertices went. *)
Definition emit_page (st : segment_state) : res segment_state :=
  let r := result st in
  '(page, v_offset_map, b) ← build (paged_csr_builder st);
  Ok (SegmentState b (local_page_no st)
    (SegmentResult (pages r ++ [set_page_no page (local_page_no st)]) (giant_vertices r)
       (normal_vertices r ++ ((fun q => (q.1, local_page_no st, q.2)) <$> v_offset_map)))).

Definition next_page (st : segment_state) : segment_state :=
  SegmentState (paged_csr_builder st) (u32 (local_page_no st + 1)) (result st).

Definition with_builder (st : segment_state) (b : csr_page_builder_t) : segment_state :=
  SegmentState b (local_page_no st) (result st).

Definition push_giant (st : segment_state) (v : Z) : segment_state :=
  let r := result st in
  SegmentState (paged_csr_builder st) (local_page_no st)
    (SegmentResult (pages r) (giant_vertices r ++ [v]) (normal_vertices r)).

(** One turn of the loop over the vertices.  The failing assertion is the
    [logic_error]. *)
Definition add_to_segment (g : mem_sub_com_t) (st : segment_state) (vertex_id : Z) : res segment_state :=
  let neighbors := get_neighbors_span g vertex_id in
  if GIANT_DEGREE_BOUND <=? Z.of_nat (length neighbors) then Ok (push_giant st vertex_id)
  else
    '(added, b) ← add_vertex_default (paged_csr_builder st) vertex_id neighbors;
    if (added : bool) then Ok (with_builder st b)
    else
      st ← emit_page st;
      let st := next_page st in
      '(must_success, b) ← add_vertex_default (paged_csr_builder st) vertex_id neighbors;
      if (must_success : bool) then Ok (with_builder st b) else Throw logic_error.

Fixpoint fill_segment (g : mem_sub_com_t) (st : segment_state) (vs : list Z) : res segment_state :=
  match vs with
  | [] => Ok st
  | v :: vs => st ← add_to_segment g st v; fill_segment g st vs
  end.

(** The vertices of segment [thread_idx]: the bounds are [v_id_t]s, the sum of
    the start and the length is 64-bit. *)
Definition segment_range (total vertices_per_segment thread_idx : Z) : list Z :=
  let start_vertex := u32 (u64 (thread_idx * vertices_per_segment)) in
  let end_vertex := u32 (Z.min (u64 (start_vertex + vertices_per_segment)) total) in
  seqZ start_vertex (end_vertex - start_vertex).

Definition build_segment (g : mem_sub_com_t) (vs : list Z) : res segment_result_t :=
  st ← fill_segment g segment_start vs;
  if is_empty (paged_csr_builder st) then Ok (result st)
  else st ← emit_page st; Ok (result st).

(** ** All segments *)

(** [hardware_concurrency] is [hw]; the tasks share nothing they write, and
    an exception of any of them ends the build. *)
Definition num_threads (hw : Z) : Z := if hw =? 0 then 4 else hw.

Definition vertices_per_segment (total threads : Z) : Z := (u64 (total + threads - 1)) `div` threads.

Fixpoint build_segments (g : mem_sub_com_t) (ranges : list (list Z)) : res (list segment_result_t) :=
  match ranges with
  | [] => Ok []
  | vs :: ranges => r ← build_segment g vs; rs ← build_segments g ranges; Ok (r :: rs)
  end.

Definition segment_results (g : mem_sub_com_t) (hw : Z) : res (list segment_result_t) :=
  let threads := num_threads hw in
  let total := com_vertex_count g in
  build_segments g (segment_range total (vertices_per_segment total threads) <$> seqZ 0 threads).

(** [segment_start_page_no] beside each result. *)
Fixpoint with_start_page_no (current_global_page_no : Z) (rs : list segment_result_t) :
    list (Z * segment_result_t) :=
  match rs with
  | [] => []
  | r :: rs =>
    (current_global_page_no, r) ::
      with_start_page_no (u32 (current_global_page_no + Z.of_nat (length (pages r)))) rs
  end.

Definition number_page (base : Z) (p : csr_page_t) : csr_page_t := set_page_no p (u32 (base + page_no p)).

Definition all_pages (rs : list segment_result_t) : list csr_page_t :=
  mjoin ((fun q => number_page q.1 <$> pages q.2) <$> with_start_page_no 0 rs).

(** Identifier, global page number and offset. *)
Definition global_normals (rs : list segment_result_t) : list (Z * Z * Z) :=
  mjoin ((fun q => (fun x => (x.1.1, u32 (q.1 + x.1.2), x.2)) <$> normal_vertices q.2) <$> with_start_page_no 0 rs).

Definition all_giants (rs : list segment_result_t) : list Z := mjoin (giant_vertices <$> rs).

(** ** The vertex index *)

(** [vertex_index_t(vertex_count)]: default items and heads. *)
Definition construct_index (vertex_count : Z) : vertex_index_t :=
  Nat.iter (Z.to_nat vertex_count) (fun s => (allocate_new_vertex s).2) empty_index.

(** [items[v] = v_item_t(page_no, offset, type, 0)]: the item takes the new
    version and deletes the one it had.  Out of range is undefined. *)
Definition assign_item (s : vertex_index_t) (v page_no offset : Z) (t : vertex_type_t) : option vertex_index_t :=
  let '(id, s) := new_version s (VertexVersion page_no (u16 offset) None) in
  old ← items s !! Z.to_nat v;
  let s := set_items (<[Z.to_nat v := VItem (Some id) t false]> (items s)) s in
  Some match cur old with Some ver => free_version s ver | None => s end.

Fixpoint assign_items (s : vertex_index_t) (l : list (Z * Z * Z * vertex_type_t)) : option vertex_index_t :=
  match l with
  | [] => Some s
  | (v, page_no, offset, t) :: l => s ← assign_item s v page_no offset t; assign_items s l
  end.

Definition assignments (rs : list segment_result_t) : list (Z * Z * Z * vertex_type_t) :=
  ((fun q => (q, NORMAL)) <$> global_normals rs) ++ ((fun v => (v, 0, 0, GIANT)) <$> all_giants rs).

(** ** Storage *)

Definition write_pages (d : disk_manager_t) (ps : list csr_page_t) : disk_manager_t :=
  foldl (fun d p => write_page d (page_no p) (data p) true) d ps.

(** A page as the buffer pool hands it out: the bytes of the file, parsed. *)
Definition load_page (d : disk_manager_t) (n : Z) : res csr_page_t :=
  self_parse (CsrPage n (read_page d n) false 0 0 0 0 0 (0%nat, 0) (0%nat, 0) None false).

Definition loaded_pages (d : disk_manager_t) (count : Z) : gmap Z csr_page_t :=
  list_to_map (omap (fun n => match load_page d n with Ok p => Some (n, p) | Throw _ => None end) (seqZ 0 count)).

Section Giants.
Context {G SK : Type} `{!GiantStore G} `{!UpdateSketch SK}.

(** The flags [insert_vertex] returns are ignored. *)
Definition insert_giants (gd : G) (l : list (Z * list Z)) : G :=
  foldl (fun gd q => (g_insert_vertex gd q.1 q.2).2) gd l.

(** ** The build

    [order]: the order in which the parallel loop writes the pages.  [None]:
    an item outside the index. *)
Definition build_seq_db (g : mem_sub_com_t) (hw : Z) (order : list csr_page_t -> list csr_page_t)
    (gd : G) (d : disk_manager_t) :
    res (option (vertex_index_t * G * disk_manager_t * list csr_page_t)) :=
  rs ← segment_results g hw;
  let index := assign_items (construct_index (com_vertex_count g)) (assignments rs) in
  let gd := insert_giants gd ((fun v => (v, com_get_neighbors g v)) <$> all_giants rs) in
  let d := write_pages d (order (all_pages rs)) in
  Ok ((fun vi => (vi, gd, d, all_pages rs)) <$> index).

(** The database over the result, with an empty page map over its delta file
    and the new sketch. *)
Definition opened (delta_file : disk_manager_t) (sketch : SK)
    (r : vertex_index_t * G * disk_manager_t * list csr_page_t) :
    bw_graph_db_t (A := disk_manager_t) (G := G) (SK := SK) :=
  let '(vi, gd, d, ps) := r in
  BwGraphDb vi (empty_map cfg delta_file) (loaded_pages d (Z.of_nat (length ps))) d gd (Some sketch) true [].

End Giants.

(** ** A segment's pages hold its vertices *)

(** The bytes of a page from which every frame shows [blk]. *)
Definition stored_page (p : csr_page_t) (blk : list (Z * list Z)) : Prop :=
  length (data p) = PAGE_SIZE /\ Z.of_nat (length blk) < 2 ^ 16 /\
  forall q, data q = data p -> is_parse_ q = false -> exists q', self_parse q = Ok q' /\ shows q' blk.

Definition block_entries (i : Z) (blk : list (Z * list Z)) : list (Z * Z * Z) :=
  imap (fun j q => (q.1, i, Z.of_nat j)) blk.

(** The entries of consecutive pages from number [base] on. *)
Fixpoint entries_from (base : Z) (blocks : list (list (Z * list Z))) : list (Z * Z * Z) :=
  match blocks with [] => [] | blk :: blocks => block_entries base blk ++ entries_from (base + 1) blocks end.

Lemma entries_from_app base b1 b2 :
  entries_from base (b1 ++ b2) = entries_from base b1 ++ entries_from (base + Z.of_nat (length b1)) b2.
Proof.
  revert base. induction b1 as [|b b1 IH]; intros base; cbn [entries_from app length]; [f_equal; lia|].
  rewrite IH, <- app_assoc. do 3 f_equal. lia.
Qed.

Lemma entries_from_shift k base blocks :
  (fun x => (x.1.1, k + x.1.2, x.2)) <$> entries_from base blocks = entries_from (k + base) blocks.
Proof.
  revert base. induction blocks as [|b blocks IH]; intros base; [done|]. cbn [entries_from].
  rewrite fmap_app, IH. f_equal; [|f_equal; lia]. unfold block_entries. apply list_eq. intros i.
  rewrite list_lookup_fmap, !list_lookup_imap. by destruct (b !! i).
Qed.

Lemma elem_of_entries x base blocks :
  x ∈ entries_from base blocks <->
  exists i j blk q, blocks !! i = Some blk /\ blk !! j = Some q /\ x = (q.1, base + Z.of_nat i, Z.of_nat j).
Proof.
  revert base. induction blocks as [|b blocks IH]; intros base; cbn [entries_from].
  - rewrite elem_of_nil. split; [done|]. intros (i & j & blk & q & H & _). by destruct i.
  - rewrite elem_of_app, IH. unfold block_entries. rewrite elem_of_lookup_imap. split.
    + intros [(j & q & -> & Hj)|(i & j & blk & q & Hi & Hj & ->)].
      * exists 0%nat, j, b, q. split; [done|]. split; [done|]. do 2 f_equal. lia.
      * exists (S i), j, blk, q. split; [done|]. split; [done|]. do 2 f_equal. lia.
    + intros (i & j & blk & q & Hi & Hj & ->). destruct i as [|i].
      * left. injection Hi as ->. exists j, q. split; [|done]. do 2 f_equal. lia.
      * right. exists i, j, blk, q. split; [done|]. split; [done|]. do 2 f_equal. lia.
Qed.

Lemma entries_ids base blocks : (fun x => x.1.1) <$> entries_from base blocks = (mjoin blocks).*1.
Proof.
  revert base. induction blocks as [|b blocks IH]; intros base; [done|]. cbn [entries_from].
  change (mjoin (b :: blocks)) with (b ++ mjoin blocks). rewrite !fmap_app, IH. f_equal.
  unfold block_entries. apply list_eq. intros i. rewrite !list_lookup_fmap, list_lookup_imap. by destruct (b !! i).
Qed.

Lemma mjoin_cons {X} (x : list X) l : mjoin (x :: l) = x ++ mjoin l.
Proof. done. Qed.

Section Segments.
Hypothesis Hcompress : NEIGHBOR_COMPRESS = false.
Hypothesis Hpage : Z.of_nat PAGE_SIZE <= 2 ^ 16.
Hypothesis Hbound : 0 <= GIANT_DEGREE_BOUND.
Hypothesis Hslots : 0 <= EDGE_SLOT_COUNT < 2 ^ 16.
Variable g : mem_sub_com_t.

Abbreviation span := (get_neighbors_span g).
Abbreviation giant v := (is_giant_list (span v)).

Definition adj_of (vs : list Z) : list (Z * list Z) := (fun v => (v, span v)) <$> filter (fun v => giant v = false) vs.

Definition giants_of (vs : list Z) : list Z := filter (fun v => giant v = true) vs.

(** What the page of a vertex can hold. *)
Definition packable (v : Z) : Prop :=
  in_width 32 v /\ Forall (in_width 32) (span v) /\ Z.of_nat (length (span v)) < 2 ^ 31 /\
  (giant v = false -> fits_alone (span v) EDGE_SLOT_COUNT).

Lemma add_keeps_slots b v ns k ok b' : add_vertex b v ns k = Ok (ok, b') -> edge_slot_count_ b' = edge_slot_count_ b.
Proof. unfold add_vertex. repeat (case_match; try done); intros [= <- <-]; done. Qed.

Lemma self_parse_data q q' : self_parse q = Ok q' -> data q' = data q.
Proof. unfold self_parse, parse_from_page_data. repeat (case_match; try done); by intros [= <-]. Qed.

Lemma build_length b page vmap b' : build b = Ok (page, vmap, b') -> length (data page) = PAGE_SIZE.
Proof.
  unfold build. intros H. destruct (is_empty b); [done|]. destruct (_ <? _); [done|]. destruct (_ <? _); [done|].
  destruct (_ <? _)%nat; [done|]. apply res_bind_Ok in H as (q & Hq & [= <- <- <-]).
  rewrite (self_parse_data _ _ Hq). cbn [data]. by rewrite length_build_write.
Qed.

(** A thread's result: the pages [blocks], whose numbers and entries count
    from zero. *)
Record result_ok (r : segment_result_t) (seen : list Z) (blocks : list (list (Z * list Z))) : Prop := {
  ro_pages : Forall2 stored_page (pages r) blocks;
  ro_numbers : page_no <$> pages r = seqZ 0 (Z.of_nat (length blocks));
  ro_normals : normal_vertices r = entries_from 0 blocks;
  ro_giants : giant_vertices r = giants_of seen;
  ro_nonempty : Forall (fun blk => blk <> []) blocks
}.

Record segment_inv (st : segment_state) (seen : list Z) (blocks : list (list (Z * list Z))) (cur : list (Z * list Z)) : Prop := {
  gi_builder : builder_inv (paged_csr_builder st) cur;
  gi_slots : edge_slot_count_ (paged_csr_builder st) = EDGE_SLOT_COUNT;
  gi_local : local_page_no st = Z.of_nat (length blocks);
  gi_result : result_ok (result st) seen blocks;
  gi_all : mjoin blocks ++ cur = adj_of seen
}.

Lemma adj_of_snoc seen v : adj_of (seen ++ [v]) = adj_of seen ++ (if giant v then [] else [(v, span v)]).
Proof.
  unfold adj_of. rewrite filter_app, fmap_app. f_equal. rewrite filter_cons. destruct (giant v); case_decide; done.
Qed.

Lemma giants_of_snoc seen v : giants_of (seen ++ [v]) = giants_of seen ++ (if giant v then [v] else []).
Proof. unfold giants_of. rewrite filter_app. f_equal. rewrite filter_cons. destruct (giant v); case_decide; done. Qed.

Lemma adj_of_ok seen l1 cur : Forall packable seen -> l1 ++ cur = adj_of seen -> adj_ok cur.
Proof.
  intros Hp E. unfold adj_ok. rewrite Hcompress. apply Forall_forall. intros q Hq.
  assert (Hin : q ∈ adj_of seen) by (rewrite <- E; set_solver).
  unfold adj_of in Hin. apply list_elem_of_fmap in Hin as (v & -> & Hv).
  apply list_elem_of_filter in Hv as [_ Hv]. rewrite Forall_forall in Hp. destruct (Hp v Hv) as (H1 & H2 & _). by split.
Qed.

(** Building the page under construction. *)
Lemma emit_page_spec st seen blocks cur :
  segment_inv st seen blocks cur -> Forall packable seen -> cur <> [] ->
  exists st', emit_page st = Ok st' /\ result_ok (result st') seen (blocks ++ [cur]) /\
    builder_inv (paged_csr_builder st') [] /\ edge_slot_count_ (paged_csr_builder st') = EDGE_SLOT_COUNT /\
    local_page_no st' = local_page_no st.
Proof.
  intros [Hb Hs Hl [R1 R2 R3 R4 R5] Ha] Hp Hne.
  destruct (build_spec Hpage Hbound _ cur Hb Hne) as (page & E & _ & Hq); [by eapply adj_of_ok|].
  assert (Hlen : Z.of_nat (length cur) < 2 ^ 16).
  { pose proof (bi_fits _ _ Hb Hne) as Hf. unfold estimated_size, VERTEX_SIZE in Hf.
    rewrite (bi_vertices _ _ Hb), length_fmap in Hf. lia. }
  unfold emit_page. rewrite E. cbn [mbind res_bind]. eexists. split; [done|].
  cbn [result paged_csr_builder local_page_no]. split; [|split; [by eapply clear_all_inv|by split]].
  constructor; cbn [pages normal_vertices giant_vertices].
  - apply Forall2_app; [done|]. constructor; [|constructor]. split; [exact (build_length _ _ _ _ E)|]. split; [done|].
    intros q Hd Hpq. destruct (Hq q Hd Hpq) as (q' & ? & ? & _). eauto.
  - rewrite fmap_app, R2, length_app. cbn. rewrite Nat2Z.inj_add, seqZ_app, Hl by lia. done.
  - rewrite R3, entries_from_app, Hl. f_equal. cbn [entries_from]. rewrite app_nil_r. unfold block_entries.
    apply list_eq. intros i. rewrite list_lookup_fmap, !list_lookup_imap. by destruct (cur !! i).
  - done.
  - apply Forall_app. by split; [|constructor].
Qed.

Lemma add_to_segment_spec st seen blocks cur v :
  segment_inv st seen blocks cur -> Forall packable seen -> packable v -> Z.of_nat (length seen) < 2 ^ 32 - 1 ->
  exists st' blocks' cur', add_to_segment g st v = Ok st' /\ segment_inv st' (seen ++ [v]) blocks' cur'.
Proof.
  intros Hi Hp Hv Hn. destruct (Hv) as (Hw & Hws & Hlen & Hfit).
  destruct (Hi) as [Hb Hs Hl [R1 R2 R3 R4 R5] Ha]. unfold add_to_segment.
  change (GIANT_DEGREE_BOUND <=? Z.of_nat (length (span v))) with (giant v).
  pose proof (adj_of_snoc seen v) as Hsn. pose proof (giants_of_snoc seen v) as Hgn.
  destruct (giant v) eqn:Eg.
  { eexists _, blocks, cur. split; [done|]. constructor; cbn; try done.
    - constructor; cbn; try done. by rewrite R4, Hgn.
    - by rewrite Ha, Hsn, app_nil_r. }
  unfold add_vertex_default. rewrite Hs. rewrite app_nil_r in Hgn.
  destruct (add_vertex_spec Hcompress Hpage Hbound _ cur v (span v) EDGE_SLOT_COUNT Hb Hlen Hslots (Hfit eq_refl))
    as [(b' & E & Hb')|[E Hne]]; rewrite E; cbn [mbind res_bind].
  { eexists _, blocks, (cur ++ [(v, span v)]). split; [done|].
    constructor; cbn [with_builder paged_csr_builder local_page_no result]; try done.
    - by rewrite (add_keeps_slots _ _ _ _ _ _ E).
    - constructor; try done. by rewrite R4, Hgn.
    - by rewrite app_assoc, Ha, Hsn. }
  destruct (emit_page_spec st seen blocks cur Hi Hp Hne) as (st' & -> & [S1 S2 S3 S4 S5] & Hb' & Hs' & Hl').
  cbn [mbind res_bind next_page paged_csr_builder]. rewrite Hs'.
  destruct (add_vertex_spec Hcompress Hpage Hbound _ [] v (span v) EDGE_SLOT_COUNT Hb' Hlen Hslots (Hfit eq_refl))
    as [(b'' & E' & Hb'')|[_ ?]]; [|done]. rewrite E'. cbn [mbind res_bind].
  eexists _, (blocks ++ [cur]), [(v, span v)]. split; [done|].
  assert (Hbl : Z.of_nat (length (mjoin blocks)) < 2 ^ 32 - 1).
  { apply (f_equal length) in Ha. rewrite length_app in Ha. unfold adj_of in Ha. rewrite length_fmap in Ha.
    pose proof (length_filter (fun v => giant v = false) seen). lia. }
  assert (Hbb : (length blocks <= length (mjoin blocks))%nat).
  { clear -R5. induction R5 as [|b bs Hb _ IH]; [done|]. change (mjoin (b :: bs)) with (b ++ mjoin bs).
    rewrite length_app. destruct b; [done|]. cbn [length]. lia. }
  constructor; cbn [with_builder paged_csr_builder local_page_no result next_page]; try done.
  - by rewrite (add_keeps_slots _ _ _ _ _ _ E').
  - rewrite Hl', Hl, length_app, wrap_small by (unfold in_width; lia). cbn [length]. lia.
  - constructor; try done. by rewrite S4, Hgn.
  - rewrite join_app. change (mjoin [cur]) with (cur ++ []). by rewrite app_nil_r, Ha, Hsn.
Qed.

Lemma fill_segment_spec vs : forall st seen blocks cur,
  segment_inv st seen blocks cur -> Forall packable (seen ++ vs) -> Z.of_nat (length (seen ++ vs)) < 2 ^ 32 ->
  exists st' blocks' cur', fill_segment g st vs = Ok st' /\ segment_inv st' (seen ++ vs) blocks' cur'.
Proof.
  induction vs as [|v vs IH]; intros st seen blocks cur Hi Hp Hn.
  { rewrite app_nil_r. eauto 6. }
  rewrite length_app in Hn. cbn [length] in Hn. pose proof (proj1 (Forall_app _ _ _) Hp) as [Hp1 Hp2].
  apply Forall_cons in Hp2 as [Hv _].
  destruct (add_to_segment_spec st seen blocks cur v Hi Hp1 Hv ltac:(lia)) as (st' & b' & c' & E & Hi').
  cbn [fill_segment]. rewrite E. cbn [mbind res_bind].
  replace (seen ++ v :: vs) with ((seen ++ [v]) ++ vs) in Hp |- * by by rewrite <- app_assoc.
  apply (IH _ _ _ _ Hi' Hp). rewrite !length_app. cbn [length]. lia.
Qed.

Definition segment_ok (r : segment_result_t) (vs : list Z) (blocks : list (list (Z * list Z))) : Prop :=
  result_ok r vs blocks /\ mjoin blocks = adj_of vs.

Lemma build_segment_spec vs : Forall packable vs -> Z.of_nat (length vs) < 2 ^ 32 ->
  exists r blocks, build_segment g vs = Ok r /\ segment_ok r vs blocks.
Proof.
  intros Hp Hn. unfold build_segment.
  destruct (fill_segment_spec vs segment_start [] [] []) as (st & blocks & cur & -> & Hi); [|done|done|].
  { by constructor; try apply new_builder_inv. }
  cbn [mbind res_bind app] in *. assert (Hemp : is_empty (paged_csr_builder st) = bool_decide (cur = [])).
  { unfold is_empty. rewrite (bi_vertices _ _ (gi_builder _ _ _ _ Hi)). by destruct cur. }
  rewrite Hemp. case_bool_decide as Hc.
  - exists (result st), blocks. split; [done|]. split; [apply Hi|]. rewrite <- (gi_all _ _ _ _ Hi), Hc. by rewrite app_nil_r.
  - destruct (emit_page_spec _ _ _ _ Hi Hp Hc) as (st' & -> & Hr & _). exists (result st'), (blocks ++ [cur]).
    split; [done|]. split; [done|]. rewrite <- (gi_all _ _ _ _ Hi), join_app.
    change (mjoin [cur]) with (cur ++ []). by rewrite app_nil_r.
Qed.

(** ** All segments *)

Lemma build_segments_spec ranges : Forall packable (mjoin ranges) -> Z.of_nat (length (mjoin ranges)) < 2 ^ 32 ->
  exists rs, build_segments g ranges = Ok rs /\ Forall2 (fun vs r => exists blocks, segment_ok r vs blocks) ranges rs.
Proof.
  induction ranges as [|vs ranges IH]; intros Hp Hn; [by exists []|].
  change (mjoin (vs :: ranges)) with (vs ++ mjoin ranges) in *. apply Forall_app in Hp as [Hp1 Hp2].
  rewrite length_app in Hn. cbn [build_segments].
  destruct (build_segment_spec vs Hp1 ltac:(lia)) as (r & blocks & -> & Hr).
  destruct (IH Hp2 ltac:(lia)) as (rs & -> & Hrs). cbn [mbind res_bind]. exists (r :: rs). split; [done|]. constructor; eauto.
Qed.

Lemma adj_of_app l1 l2 : adj_of (l1 ++ l2) = adj_of l1 ++ adj_of l2.
Proof. unfold adj_of. by rewrite filter_app, fmap_app. Qed.

Lemma length_adj_of vs : (length (adj_of vs) <= length vs)%nat.
Proof. unfold adj_of. rewrite length_fmap. apply length_filter. Qed.

Lemma blocks_bound (blocks : list (list (Z * list Z))) : Forall (fun b => b <> []) blocks ->
  (length blocks <= length (mjoin blocks))%nat.
Proof.
  induction 1 as [|b bs Hb _ IH]; [done|]. change (mjoin (b :: bs)) with (b ++ mjoin bs).
  rewrite length_app. destruct b; [done|]. cbn [length]. lia.
Qed.

(** Numbered through, the results describe one sequence of pages. *)
Lemma numbered_spec ranges rs : Forall2 (fun vs r => exists blocks, segment_ok r vs blocks) ranges rs ->
  forall base, 0 <= base -> base + Z.of_nat (length (mjoin ranges)) < 2 ^ 32 ->
  exists blocks, mjoin blocks = adj_of (mjoin ranges) /\ Forall (fun blk => blk <> []) blocks /\
    let ps := mjoin ((fun q => number_page q.1 <$> pages q.2) <$> with_start_page_no base rs) in
    Forall2 stored_page ps blocks /\ page_no <$> ps = seqZ base (Z.of_nat (length blocks)) /\
    mjoin ((fun q => (fun x => (x.1.1, u32 (q.1 + x.1.2), x.2)) <$> normal_vertices q.2) <$> with_start_page_no base rs)
      = entries_from base blocks /\
    mjoin (giant_vertices <$> rs) = giants_of (mjoin ranges).
Proof.
  induction 1 as [|vs r ranges rs (blocks & [R1 R2 R3 R4 R5] & Ha) _ IH]; intros base Hb Hn.
  { exists []. cbn. rewrite seqZ_nil by lia. repeat split; constructor. }
  change (mjoin (vs :: ranges)) with (vs ++ mjoin ranges) in *. rewrite length_app in Hn.
  assert (Hbl : (length blocks <= length vs)%nat).
  { pose proof (blocks_bound blocks R5). rewrite Ha in H. pose proof (length_adj_of vs). lia. }
  assert (Hlen : length (pages r) = length blocks) by by apply Forall2_length in R1.
  cbn [with_start_page_no]. rewrite Hlen, wrap_small by (unfold in_width; lia).
  destruct (IH (base + Z.of_nat (length blocks)) ltac:(lia) ltac:(lia)) as (bs & E1 & E2 & E3 & E4 & E5 & E6).
  cbn zeta in *. rewrite !fmap_cons, !mjoin_cons. cbn [fst snd].
  exists (blocks ++ bs). split; [by rewrite join_app, Ha, E1, adj_of_app|]. split; [by apply Forall_app|].
  split; [|split; [|split]].
  - apply Forall2_app; [|done]. apply Forall2_fmap_l. eapply Forall2_impl; [done|]. done.
  - rewrite fmap_app, E4, length_app, Nat2Z.inj_add, seqZ_app by lia. f_equal.
    rewrite <- list_fmap_compose. apply list_eq. intros i. rewrite list_lookup_fmap.
    destruct (decide (i < length blocks)%nat) as [Hi|Hi].
    + assert (Hr : (page_no <$> pages r) !! i = Some (Z.of_nat i)) by (rewrite R2; apply lookup_seqZ; lia).
      rewrite list_lookup_fmap in Hr. destruct (pages r !! i) as [p|]; [|done]. cbn in Hr |- *.
      injection Hr as ->. rewrite wrap_small by (unfold in_width; lia). symmetry. apply lookup_seqZ. lia.
    + rewrite lookup_ge_None_2 by lia. symmetry. apply lookup_ge_None_2. rewrite length_seqZ. lia.
  - rewrite E5, entries_from_app. f_equal. rewrite R3, <- (Z.add_0_r base) at 1.
    rewrite <- entries_from_shift. apply list_fmap_ext. intros i x Hx. apply list_elem_of_lookup_2 in Hx.
    apply elem_of_entries in Hx as (k & j & blk & q & Hk & _ & ->). apply lookup_lt_Some in Hk. cbn.
    rewrite wrap_small by (unfold in_width; lia). done.
  - rewrite E6, R4. unfold giants_of. by rewrite filter_app.
Qed.

End Segments.

(** ** The ranges are the vertices in order *)

Lemma segment_ranges n T : 0 < T -> 0 <= n -> n + T < 2 ^ 32 ->
  mjoin (segment_range n (vertices_per_segment n T) <$> seqZ 0 T) = seqZ 0 n.
Proof.
  intros HT Hn Hs. unfold vertices_per_segment. rewrite wrap_small by (unfold in_width; lia).
  set (per := (n + T - 1) `div` T). assert (Hper : n <= T * per <= n + T - 1).
  { unfold per. pose proof (Z.div_mod (n + T - 1) T ltac:(lia)). pose proof (Z.mod_pos_bound (n + T - 1) T HT). lia. }
  assert (Hp0 : 0 <= per) by (apply Z.div_pos; lia).
  assert (Hk : forall k : nat, Z.of_nat k <= T ->
    mjoin (segment_range n per <$> seqZ 0 (Z.of_nat k)) = seqZ 0 (Z.min (Z.of_nat k * per) n)).
  { induction k as [|k IH]; intros Hk; [by rewrite !seqZ_nil by lia|].
    rewrite Nat2Z.inj_succ, <- Z.add_1_r, seqZ_app, fmap_app, join_app, IH by lia.
    change (seqZ (0 + Z.of_nat k) 1) with [0 + (0 + Z.of_nat k)]. rewrite !Z.add_0_l.
    rewrite fmap_cons, mjoin_cons, fmap_nil. cbn [mjoin list_join]. rewrite app_nil_r.
    assert (Hkp : 0 <= Z.of_nat k * per /\ Z.of_nat k * per + per <= T * per) by nia.
    unfold segment_range. rewrite (wrap_small 64 (Z.of_nat k * per)) by (unfold in_width; lia).
    rewrite (wrap_small 32 (Z.of_nat k * per)) by (unfold in_width; lia).
    rewrite (wrap_small 64 (Z.of_nat k * per + per)) by (unfold in_width; lia).
    rewrite (wrap_small 32 (Z.min _ _)) by (unfold in_width; lia).
    destruct (decide (Z.of_nat k * per <= n)) as [Hle|Hgt].
    - rewrite (Z.min_l (Z.of_nat k * per)) by lia.
      replace (Z.min ((Z.of_nat k + 1) * per) n)
        with (Z.of_nat k * per + (Z.min (Z.of_nat k * per + per) n - Z.of_nat k * per)) by nia.
      rewrite seqZ_app by nia. done.
    - rewrite (seqZ_nil (Z.of_nat k * per)) by nia. rewrite app_nil_r. f_equal. nia. }
  specialize (Hk (Z.to_nat T)). rewrite Z2Nat.id in Hk by lia. rewrite Hk by lia. f_equal. lia.
Qed.

(** ** The vertex index *)

(** What the index says of a vertex. *)
Definition vertex_view (s : vertex_index_t) (v : nat) : option (vertex_type_t * bool * (Z * Z)) :=
  item ← items s !! v; loc ← get_vertex_location s v; Some (vertex_type item, is_delete item, loc).

Abbreviation index_ok s := (gc_inv (GC s [] [])).

Lemma cur_inj s v w i j id : index_ok s -> items s !! v = Some i -> items s !! w = Some j ->
  cur i = Some id -> cur j = Some id -> v = w.
Proof.
  intros Hs Hi Hj Hci Hcj. pose proof (inv_nodup _ Hs) as Hnd. unfold owned, reachable_ids in Hnd. cbn [idx prepared] in Hnd.
  rewrite <- !app_assoc in Hnd. apply NoDup_app in Hnd as (Hnd & _ & _). unfold curs in Hnd.
  revert v w Hi Hj. induction (items s) as [|k l IH]; intros v w Hi Hj; [done|].
  assert (Hin : forall u x, l !! u = Some x -> cur x = Some id -> id ∈ omap cur l).
  { intros u x Hu Hx. apply list_elem_of_omap. exists x. split; [by eapply list_elem_of_lookup_2|done]. }
  cbn [omap list_omap] in Hnd. destruct v as [|v], w as [|w]; cbn in Hi, Hj; [done|..].
  - injection Hi as ->. rewrite Hci in Hnd. apply NoDup_cons in Hnd as [Hn _]. destruct Hn. by eapply Hin.
  - injection Hj as ->. rewrite Hcj in Hnd. apply NoDup_cons in Hnd as [Hn _]. destruct Hn. by eapply Hin.
  - f_equal. apply IH; [|done|done]. destruct (cur k); [by apply NoDup_cons in Hnd as [_ ?]|done].
Qed.

Lemma assign_item_spec s v P o t : index_ok s -> 0 <= v -> is_Some (items s !! Z.to_nat v) -> in_width 16 o ->
  exists s', assign_item s v P o t = Some s' /\ index_ok s' /\ length (items s') = length (items s) /\
    delta_heads_ s' = delta_heads_ s /\ vertex_view s' (Z.to_nat v) = Some (t, false, (P, o)) /\
    forall w, w <> Z.to_nat v -> vertex_view s' w = vertex_view s w.
Proof.
  intros Hs Hv [old Ho] Hw. destruct (Hs) as [Hsome Hnd Hlive Hhaz Hpend]. cbn [idx prepared hazards] in *.
  assert (exists c, cur old = Some c) as [c Hc] by by apply (Forall_lookup_1 _ _ _ _ Hsome Ho).
  assert (Hown : owned (GC s [] []) = reachable_ids s) by (unfold owned; cbn; by rewrite app_nil_r).
  rewrite Hown in Hnd, Hlive.
  unfold assign_item, new_version. cbn [items set_items]. rewrite Ho. cbn [mbind option_bind]. rewrite Hc, wrap_small by done.
  eexists. split; [done|]. set (s' := free_version _ _).
  destruct (items_split s _ _ Ho) as (l1 & l2 & E & Hl).
  assert (Hcurs : curs s = omap cur l1 ++ c :: omap cur l2) by (unfold curs; rewrite E, omap_app; cbn; by rewrite Hc).
  assert (Hits : items s' = l1 ++ VItem (Some (next_version s)) t false :: l2) by apply Hl.
  assert (Hcurs' : curs s' = omap cur l1 ++ next_version s :: omap cur l2) by (unfold curs; rewrite Hits, omap_app; done).
  assert (Hfresh : next_version s ∉ reachable_ids s) by by eapply fresh_not_in.
  assert (Hcn : c <> next_version s).
  { intros ->. apply Hfresh. unfold reachable_ids. rewrite Hcurs. set_solver. }
  set (rest := omap cur l1 ++ omap cur l2 ++ retired_versions_ s ++ hazptr_retired s).
  assert (Hp : reachable_ids s ≡ₚ c :: rest) by (unfold reachable_ids, rest; rewrite Hcurs; solve_Permutation).
  assert (Hp' : reachable_ids s' ≡ₚ next_version s :: rest).
  { unfold reachable_ids, rest. rewrite Hcurs'. cbn. solve_Permutation. }
  rewrite Hp in Hnd, Hlive, Hfresh. apply NoDup_cons in Hnd as [Hcr Hnd]. apply Forall_cons in Hlive as [_ Hlive].
  assert (Hver : forall id, id <> c -> id <> next_version s -> versions s' !! id = versions s !! id).
  { intros id H1 H2. unfold s'. cbn. by rewrite lookup_delete_ne, lookup_insert_ne by done. }
  assert (Hnew : versions s' !! next_version s = Some (VertexVersion P o None)).
  { unfold s'. cbn. by rewrite lookup_delete_ne, lookup_insert_eq by done. }
  assert (Hown' : owned (GC s' [] []) = reachable_ids s') by apply app_nil_r.
  split; [|split; [|split; [done|split]]].
  - constructor; cbn [idx prepared hazards].
    + rewrite Hits. rewrite E in Hsome. apply Forall_app in Hsome as [? Hsome]. apply Forall_cons in Hsome as [_ ?].
      apply Forall_app. split; [done|]. constructor; [eauto|done].
    + rewrite Hown', Hp'. constructor; [set_solver|done].
    + rewrite Hown', Hp'. constructor.
      * rewrite Hnew. unfold s'. cbn. split; [eauto|lia].
      * apply Forall_forall. intros id Hid. rewrite Forall_forall in Hlive. destruct (Hlive id Hid) as [? ?].
        rewrite Hver; [unfold s'; cbn; split; [done|lia]|set_solver|set_solver].
    + constructor.
    + done.
  - rewrite Hits, E, !length_app. done.
  - unfold vertex_view, get_vertex_location, protect_vertex_version.
    rewrite <- (Hl (VItem (Some (next_version s)) t false)) in Hits. rewrite Hits, list_lookup_insert_eq by by eapply lookup_lt_Some.
    cbn [mbind option_bind cur]. by rewrite Hnew.
  - intros w Hwv. unfold vertex_view, get_vertex_location, protect_vertex_version.
    rewrite <- (Hl (VItem (Some (next_version s)) t false)) in Hits. rewrite Hits, list_lookup_insert_ne by done.
    destruct (items s !! w) as [i|] eqn:Ei; [|done]. cbn [mbind option_bind].
    destruct (cur i) as [id|] eqn:Eci; [|done]. cbn [mbind option_bind].
    rewrite Hver; [done|..].
    + intros ->. apply Hwv. by eapply (cur_inj s).
    + intros ->. apply Hfresh. rewrite <- Hp. unfold reachable_ids, curs. apply elem_of_app. left.
      apply list_elem_of_omap. exists i. split; [by eapply list_elem_of_lookup_2|done].
Qed.

Abbreviation id_of x := (x.1.1.1).

Lemma assign_items_spec l : forall s, index_ok s -> NoDup ((fun x => id_of x) <$> l) ->
  Forall (fun x : Z * Z * Z * vertex_type_t => 0 <= id_of x < Z.of_nat (length (items s)) /\ in_width 16 x.1.2) l ->
  exists s', assign_items s l = Some s' /\ index_ok s' /\ length (items s') = length (items s) /\
    delta_heads_ s' = delta_heads_ s /\
    (forall v P o t, (v, P, o, t) ∈ l -> vertex_view s' (Z.to_nat v) = Some (t, false, (P, o))) /\
    forall w, w ∉ (fun x => id_of x) <$> l -> 0 <= w -> vertex_view s' (Z.to_nat w) = vertex_view s (Z.to_nat w).
Proof.
  induction l as [|[[[v P] o] t] l IH]; intros s Hs Hnd Hl.
  { exists s. split; [done|]. split; [done|]. split; [done|]. split; [done|]. split; [|done]. intros v P o t Hx. by apply elem_of_nil in Hx. }
  apply NoDup_cons in Hnd as [Hv Hnd]. apply Forall_cons in Hl as [[Hr Ho] Hl]. cbn [fst snd] in *.
  destruct (assign_item_spec s v P o t Hs) as (s1 & E & Hs1 & Hl1 & Hh1 & Hv1 & Ho1); [lia|apply lookup_lt_is_Some; lia|done|].
  destruct (IH s1 Hs1 Hnd) as (s' & E' & Hs' & Hl' & Hh' & Hin & Hout); [by rewrite Hl1|].
  exists s'. cbn [assign_items]. rewrite E. cbn [mbind option_bind].
  split; [done|]. split; [done|]. split; [congruence|]. split; [congruence|]. split.
  - intros w Q k u [[= -> -> -> ->]|Hx]%elem_of_cons; [|by apply Hin]. by rewrite Hout by (done || lia).
  - intros w Hw H0. rewrite fmap_cons, not_elem_of_cons in Hw. destruct Hw as [Hne Hw]. cbn [fst] in Hne.
    rewrite Hout by done. apply Ho1. lia.
Qed.

Lemma construct_index_spec n : index_ok (construct_index (Z.of_nat n)) /\
  length (items (construct_index (Z.of_nat n))) = n /\ delta_heads_ (construct_index (Z.of_nat n)) = replicate n dh_invalid.
Proof.
  unfold construct_index. rewrite Nat2Z.id. induction n as [|n (IH1 & IH2 & IH3)].
  { split; [|done]. apply (gc_steps_inv (GC empty_index [] [])). constructor. }
  rewrite Nat.iter_succ. split; [exact (alloc_inv _ _ IH1 eq_refl)|].
  revert IH2 IH3. clear IH1. generalize (Nat.iter n (fun s => (allocate_new_vertex s).2) empty_index). intros s IH2 IH3.
  cbn. rewrite IH3, length_app, IH2. cbn [length]. split; [lia|]. symmetry. apply (replicate_S_end n).
Qed.

(** ** The file *)

Lemma write_pages_spec ps : forall d, disk_inv d -> page_size_ d = PAGE_SIZE -> NoDup (page_no <$> ps) ->
  Forall (fun p => 0 <= page_no p /\ length (data p) = PAGE_SIZE) ps ->
  disk_inv (write_pages d ps) /\ (forall p, p ∈ ps -> holds (write_pages d ps) (page_no p) (data p)) /\
  forall n bs, n ∉ page_no <$> ps -> holds d n bs -> holds (write_pages d ps) n bs.
Proof.
  induction ps as [|p ps IH]; intros d Hd Hps Hnd Hl.
  { split; [done|]. split; [|done]. intros p Hp. by apply elem_of_nil in Hp. }
  apply NoDup_cons in Hnd as [Hp Hnd]. apply Forall_cons in Hl as [[Hn Hlen] Hl].
  assert (Hop : op_ok (page_size_ d) (OpWrite (page_no p) (data p) true)) by (cbn; rewrite Hps; auto).
  destruct (run_op_inv d _ Hd Hop) as [Hd' Hps']. cbn [run_op] in *. rewrite Hps in Hps'.
  destruct (IH _ Hd' Hps' Hnd Hl) as (H1 & H2 & H3). cbn [write_pages foldl].
  split; [done|]. split.
  - intros q [->|Hq]%elem_of_cons; [|by apply H2]. apply H3; [done|]. apply write_holds; [done|done|congruence].
  - intros n bs Hn' Hh. rewrite fmap_cons, not_elem_of_cons in Hn'. destruct Hn' as [Hne Hn'].
    apply H3; [done|]. apply (run_op_holds d (OpWrite (page_no p) (data p) true)); [done|done| |done].
    cbn. apply bool_decide_eq_false. congruence.
Qed.

Lemma loaded_lookup d count n p : 0 <= n < count -> load_page d n = Ok p -> loaded_pages d count !! n = Some p.
Proof.
  intros Hn Hp. unfold loaded_pages. apply elem_of_list_to_map_1'.
  - intros q Hq. apply list_elem_of_omap in Hq as (m & _ & Hm). destruct (load_page d m) eqn:E; [|done].
    injection Hm as -> ->. congruence.
  - apply list_elem_of_omap. exists n. split; [by apply elem_of_seqZ|]. by rewrite Hp.
Qed.

Lemma load_stored d p blk : disk_inv d -> stored_page p blk -> holds d (page_no p) (data p) ->
  exists q, load_page d (page_no p) = Ok q /\ shows q blk.
Proof.
  intros Hd (_ & _ & Hs) Hh. unfold load_page. rewrite (holds_read _ _ _ Hd Hh). by apply Hs.
Qed.

Section Whole.
Context {G SK : Type} `{!GiantStore G} `{!UpdateSketch SK}.

(** Every insertion of a giant vertex succeeds. *)
Fixpoint giants_inserted (gd : G) (l : list (Z * list Z)) : Prop :=
  match l with
  | [] => True
  | q :: l => (g_insert_vertex gd q.1 q.2).1 = true /\ giants_inserted (g_insert_vertex gd q.1 q.2).2 l
  end.

Lemma insert_giants_spec l : forall gd : G, NoDup l.*1 -> Forall (fun q => 0 <= q.1 /\ g_storable q.2) l ->
  giants_inserted gd l ->
  (forall v ns, (v, ns) ∈ l -> exists ns', g_stored (insert_giants gd l) v = Some ns' /\ ns' ≡ₚ ns) /\
  forall w, w ∉ l.*1 -> 0 <= w -> g_stored (insert_giants gd l) w = g_stored gd w.
Proof.
  induction l as [|[v ns] l IH]; intros gd Hnd Hl Hg.
  { split; [|done]. intros v ns Hx. by apply elem_of_nil in Hx. }
  apply NoDup_cons in Hnd as [Hv Hnd]. apply Forall_cons in Hl as [[H0 Hs] Hl]. destruct Hg as [Hok Hg]. cbn [fst snd] in *.
  destruct (IH _ Hnd Hl Hg) as [H1 H2]. split.
  - intros w ms [[= -> ->]|Hx]%elem_of_cons; [|by apply H1]. unfold insert_giants in *. cbn [foldl fst snd].
    rewrite H2 by done. by apply g_insert_stored.
  - intros w Hw Hw0. rewrite fmap_cons, not_elem_of_cons in Hw. destruct Hw as [Hne Hw]. cbn [fst] in Hne.
    unfold insert_giants in *. cbn [foldl fst snd]. rewrite H2 by done. apply g_insert_other; [done|done|congruence].
Qed.

(** ** The database that was built *)

(** A graph of lists [ls] that pages and the giant store can hold: a vertex
    that is not giant fits a page alone, with its slots, and at least one is
    not (the location of a giant vertex is on page 0). *)
Record buildable (g : mem_sub_com_t) (ls : list (list Z)) (hw : Z) : Prop := {
  bd_layout : lays_out g ls;
  bd_ids : 0 <= hw /\ Z.of_nat (length ls) + num_threads hw < 2 ^ 32;
  bd_lists : Forall (fun ns => Forall (in_width 32) ns /\ Z.of_nat (length ns) < 2 ^ 31 /\
    if is_giant_list ns then g_storable ns else fits_alone ns EDGE_SLOT_COUNT) ls;
  bd_normal : Exists (fun ns => is_giant_list ns = false) ls
}.

Hypothesis Hcompress : NEIGHBOR_COMPRESS = false.
Hypothesis Hpage : Z.of_nat PAGE_SIZE <= 2 ^ 16.
Hypothesis Hbound : 0 <= GIANT_DEGREE_BOUND.
Hypothesis Hslots : 0 <= EDGE_SLOT_COUNT < 2 ^ 16.

Section Built.
Variables (g : mem_sub_com_t) (ls : list (list Z)) (hw : Z).
Hypothesis Hg : buildable g ls hw.

Abbreviation n := (Z.of_nat (length ls)).
Abbreviation ids := (seqZ 0 n).

Lemma span_at v ns : 0 <= v -> ls !! Z.to_nat v = Some ns -> get_neighbors_span g v = ns.
Proof.
  intros Hv E. change (com_get_neighbors g v = ns). rewrite (com_neighbors_at g ls (bd_layout _ _ _ Hg)).
  by rewrite decide_True, E by done.
Qed.

Lemma id_lookup v : v ∈ ids -> exists ns, ls !! Z.to_nat v = Some ns /\ get_neighbors_span g v = ns /\ 0 <= v < n.
Proof.
  rewrite elem_of_seqZ. intros Hv. destruct (lookup_lt_is_Some_2 ls (Z.to_nat v)) as [ns E]; [lia|].
  exists ns. split; [done|]. split; [|lia]. apply span_at; [lia|done].
Qed.

Lemma ids_packable : Forall (packable g) ids.
Proof.
  apply Forall_forall. intros v Hv. destruct (id_lookup v Hv) as (ns & E & Es & Hr).
  destruct (Forall_lookup_1 _ _ _ _ (bd_lists _ _ _ Hg) E) as (H1 & H2 & H3). destruct (bd_ids _ _ _ Hg) as [? Hn].
  unfold packable. rewrite Es. assert (0 < num_threads hw) by (unfold num_threads; destruct (Z.eqb_spec hw 0); lia).
  split; [unfold in_width; lia|]. split; [done|]. split; [done|]. intros Hgi. by rewrite Hgi in H3.
Qed.

Lemma results_spec : exists rs blocks, segment_results g hw = Ok rs /\
  mjoin blocks = adj_of g ids /\ Forall (fun blk => blk <> []) blocks /\
  Forall2 stored_page (all_pages rs) blocks /\ page_no <$> all_pages rs = seqZ 0 (Z.of_nat (length blocks)) /\
  global_normals rs = entries_from 0 blocks /\ all_giants rs = giants_of g ids.
Proof.
  destruct (bd_ids _ _ _ Hg) as [Hh Hn].
  assert (HT : 0 < num_threads hw) by (unfold num_threads; destruct (Z.eqb_spec hw 0); lia).
  assert (Hc : com_vertex_count g = n) by (unfold com_vertex_count; by rewrite (lo_count _ _ (bd_layout _ _ _ Hg))).
  pose proof (segment_ranges n (num_threads hw) HT ltac:(lia) Hn) as Hr.
  destruct (build_segments_spec Hcompress Hpage Hbound Hslots g
    (segment_range n (vertices_per_segment n (num_threads hw)) <$> seqZ 0 (num_threads hw))) as (rs & E & Hrs).
  { rewrite Hr. apply ids_packable. }
  { rewrite Hr, length_seqZ. lia. }
  destruct (numbered_spec g _ rs Hrs 0) as (blocks & B1 & B2 & B3 & B4 & B5 & B6); [lia|rewrite Hr, length_seqZ; lia|].
  exists rs, blocks. unfold segment_results. cbn zeta. rewrite Hc, Hr in *. done.
Qed.

Lemma elem_of_adj v ns : (v, ns) ∈ adj_of g ids <-> 0 <= v /\ ls !! Z.to_nat v = Some ns /\ is_giant_list ns = false.
Proof.
  unfold adj_of. rewrite list_elem_of_fmap. split.
  - intros (w & [= -> ->] & Hw). apply list_elem_of_filter in Hw as [Hgi Hw].
    destruct (id_lookup w Hw) as (ns & E & Es & Hr). rewrite Es in Hgi |- *. split; [lia|done].
  - intros (Hv & E & Hgi). exists v. pose proof (span_at v ns Hv E) as Es. rewrite Es. split; [done|].
    apply list_elem_of_filter. rewrite Es. split; [done|]. apply elem_of_seqZ. apply lookup_lt_Some in E. lia.
Qed.

Lemma elem_of_giants v : v ∈ giants_of g ids <-> exists ns, 0 <= v /\ ls !! Z.to_nat v = Some ns /\ is_giant_list ns = true.
Proof.
  unfold giants_of. rewrite list_elem_of_filter. split.
  - intros [Hgi Hv]. destruct (id_lookup v Hv) as (ns & E & Es & Hr). rewrite Es in Hgi. exists ns. split; [lia|done].
  - intros (ns & Hv & E & Hgi). rewrite (span_at v ns Hv E). split; [done|]. apply elem_of_seqZ. apply lookup_lt_Some in E. lia.
Qed.

(** The index locates every vertex on the page that holds it. *)
Lemma index_spec rs blocks :
  mjoin blocks = adj_of g ids -> Forall2 stored_page (all_pages rs) blocks ->
  global_normals rs = entries_from 0 blocks -> all_giants rs = giants_of g ids ->
  exists vi, assign_items (construct_index n) (assignments rs) = Some vi /\ index_ok vi /\
    length (items vi) = length ls /\ delta_heads_ vi = replicate (length ls) dh_invalid /\
    (forall i j blk q, blocks !! i = Some blk -> blk !! j = Some q ->
      vertex_view vi (Z.to_nat q.1) = Some (NORMAL, false, (Z.of_nat i, Z.of_nat j))) /\
    forall v, v ∈ giants_of g ids -> vertex_view vi (Z.to_nat v) = Some (GIANT, false, (0, 0)).
Proof.
  intros B1 B3 B5 B6. destruct (construct_index_spec (length ls)) as (I1 & I2 & I3).
  assert (Hids : (fun x => id_of x) <$> assignments rs = filter (fun v => is_giant_list (get_neighbors_span g v) = false) ids ++ giants_of g ids).
  { unfold assignments. rewrite B5, B6, fmap_app, <- !list_fmap_compose. f_equal.
    - transitivity ((fun x : Z * Z * Z => x.1.1) <$> entries_from 0 blocks); [done|]. rewrite entries_ids, B1.
      unfold adj_of. rewrite <- list_fmap_compose. exact (list_fmap_id _).
    - exact (list_fmap_id _). }
  destruct (assign_items_spec (assignments rs) (construct_index n) I1) as (vi & E & H1 & H2 & H3 & H4 & _).
  - rewrite Hids. apply NoDup_app. split; [apply NoDup_filter, NoDup_seqZ|]. split; [|apply NoDup_filter, NoDup_seqZ].
    intros v Hv Hv'. apply list_elem_of_filter in Hv as [Hf _]. apply list_elem_of_filter in Hv' as [Hf' _]. congruence.
  - rewrite I2. apply Forall_forall. intros x Hx.
    assert (Hid : id_of x ∈ ids).
    { assert (Hx' : id_of x ∈ (fun x => id_of x) <$> assignments rs) by (apply list_elem_of_fmap; eauto).
      rewrite Hids in Hx'. apply elem_of_app in Hx' as [Hx'|Hx']; by apply list_elem_of_filter in Hx' as [_ ?]. }
    apply elem_of_seqZ in Hid. split; [lia|]. unfold assignments in Hx. rewrite B5 in Hx.
    apply elem_of_app in Hx as [Hx|Hx]; apply list_elem_of_fmap in Hx as (y & -> & Hy); cbn; [|unfold in_width; lia].
    apply elem_of_entries in Hy as (i & j & blk & q & Hi & Hj & ->). cbn.
    destruct (Forall2_lookup_r _ _ _ _ _ B3 Hi) as (p & _ & _ & Hlen & _). apply lookup_lt_Some in Hj. unfold in_width. lia.
  - exists vi. split; [done|]. split; [done|]. split; [congruence|]. split; [congruence|]. split.
    + intros i j blk q Hi Hj. apply H4. unfold assignments. rewrite B5. apply elem_of_app. left.
      apply list_elem_of_fmap. exists (q.1, Z.of_nat i, Z.of_nat j). split; [done|]. apply elem_of_entries. exists i, j, blk, q. done.
    + intros v Hv. apply H4. unfold assignments. rewrite B6. apply elem_of_app. right. apply list_elem_of_fmap. eauto.
Qed.

(** Reading the written pages back. *)
Lemma disk_spec d (order : list csr_page_t -> list csr_page_t) rs blocks :
  disk_inv d -> page_size_ d = PAGE_SIZE -> (forall l, order l ≡ₚ l) ->
  Forall2 stored_page (all_pages rs) blocks -> page_no <$> all_pages rs = seqZ 0 (Z.of_nat (length blocks)) ->
  forall i blk, blocks !! i = Some blk -> exists p,
    loaded_pages (write_pages d (order (all_pages rs))) (Z.of_nat (length (all_pages rs))) !! Z.of_nat i = Some p /\ shows p blk.
Proof.
  intros Hd Hps Ho B3 B4 i blk Hi. destruct (Forall2_lookup_r _ _ _ _ _ B3 Hi) as (p & Hp & Hst).
  destruct (write_pages_spec (order (all_pages rs)) d Hd Hps) as (Hd' & Hh & _).
  - rewrite (Ho (all_pages rs)), B4. apply NoDup_seqZ.
  - rewrite (Ho (all_pages rs)). apply Forall_lookup. intros k q Hk.
    destruct (Forall2_lookup_l _ _ _ _ _ B3 Hk) as (b & _ & Hl & _). split; [|done].
    assert (Hn : (page_no <$> all_pages rs) !! k = Some (page_no q)) by (by rewrite list_lookup_fmap, Hk).
    rewrite B4 in Hn. apply lookup_seqZ in Hn. lia.
  - destruct (load_stored _ p blk Hd' Hst) as (q & Hq & Hs).
    { apply Hh. rewrite (Ho (all_pages rs)). by eapply list_elem_of_lookup_2. }
    assert (Hn : (page_no <$> all_pages rs) !! i = Some (page_no p)) by (by rewrite list_lookup_fmap, Hp).
    rewrite B4 in Hn. apply lookup_seqZ in Hn as [Hn Hlt]. rewrite Z.add_0_l in Hn. rewrite Hn in Hq.
    exists q. split; [|done]. apply loaded_lookup; [|done]. rewrite (Forall2_length _ _ _ B3). lia.
Qed.

Lemma view_base (s : bw_graph_db_t (A := disk_manager_t) (G := G) (SK := SK)) v t P o p :
  vertex_view (vertex_index s) (Z.to_nat v) = Some (t, false, (P, o)) -> csr_pages s !! P = Some p ->
  vertex_live s v = true /\ base_of s v = match t with GIANT => g_stored (giant_db s) v | NORMAL => Some (page_neighbors p o) end.
Proof.
  unfold vertex_view, vertex_live, base_of, item_of, location_of. intros Hv Hp.
  destruct (items (vertex_index s) !! Z.to_nat v) as [item|]; [|done]. cbn [mbind option_bind] in *.
  destruct (get_vertex_location _ _) as [loc|]; [|done]. cbn [mbind option_bind] in *.
  injection Hv as Ht -> ->. cbn [fst snd]. rewrite Hp. split; [done|]. cbn [mbind option_bind].
  unfold is_giant. rewrite Ht. by destruct t.
Qed.

(** The base list of every vertex. *)
Lemma built_bases rs blocks (gd : G) d (order : list csr_page_t -> list csr_page_t) delta_file (sk : SK) vi :
  disk_inv d -> page_size_ d = PAGE_SIZE -> (forall l, order l ≡ₚ l) ->
  giants_inserted gd ((fun v => (v, com_get_neighbors g v)) <$> giants_of g ids) ->
  mjoin blocks = adj_of g ids -> Forall (fun blk => blk <> []) blocks -> Forall2 stored_page (all_pages rs) blocks ->
  page_no <$> all_pages rs = seqZ 0 (Z.of_nat (length blocks)) ->
  (forall i j blk q, blocks !! i = Some blk -> blk !! j = Some q ->
      vertex_view vi (Z.to_nat q.1) = Some (NORMAL, false, (Z.of_nat i, Z.of_nat j))) ->
  (forall v, v ∈ giants_of g ids -> vertex_view vi (Z.to_nat v) = Some (GIANT, false, (0, 0))) ->
  let s := opened delta_file sk (vi, insert_giants gd ((fun v => (v, com_get_neighbors g v)) <$> giants_of g ids),
                                 write_pages d (order (all_pages rs)), all_pages rs) in
  forall v ns, 0 <= v -> ls !! Z.to_nat v = Some ns -> vertex_live s v = true /\
    exists b, base_of s v = Some b /\ b ≡ₚ ns /\ (is_giant_list ns = false -> b = ns).
Proof.
  intros Hd Hps Ho Hgi B1 B2 B3 B4 I5 I6 s v ns Hv E.
  pose proof (disk_spec d order rs blocks Hd Hps Ho B3 B4) as Hpages.
  assert (Hblk : forall w ms, (w, ms) ∈ adj_of g ids -> exists i j blk, blocks !! i = Some blk /\ blk !! j = Some (w, ms)).
  { intros w ms Hw. rewrite <- B1 in Hw. apply list_elem_of_join in Hw as (blk & Hw & Hb).
    apply list_elem_of_lookup in Hw as [j ?]. apply list_elem_of_lookup in Hb as [i ?]. eauto. }
  destruct (is_giant_list ns) eqn:Egi.
  - assert (Hin : v ∈ giants_of g ids) by (apply elem_of_giants; eauto).
    pose proof (bd_normal _ _ _ Hg) as Hex. apply Exists_exists in Hex as (ms & Hms & Hmg).
    apply list_elem_of_lookup in Hms as [k Hk].
    destruct (Hblk (Z.of_nat k) ms) as (i & j & blk & Hi & Hj). { apply elem_of_adj. rewrite Nat2Z.id. split; [lia|done]. }
    destruct (Hpages 0%nat (default [] (blocks !! 0%nat))) as (p & Hp & _). { destruct blocks; done. }
    destruct (view_base s v GIANT 0 0 p (I6 v Hin) Hp) as [Hl Hb]. split; [done|]. rewrite Hb.
    destruct (insert_giants_spec ((fun v => (v, com_get_neighbors g v)) <$> giants_of g ids) gd) as [Hgs _]; [..|done|].
    + rewrite <- list_fmap_compose. rewrite (list_fmap_id _ : (fst ∘ (fun v => (v, com_get_neighbors g v))) <$> giants_of g ids = _).
      apply NoDup_filter, NoDup_seqZ.
    + apply Forall_fmap, Forall_forall. intros w Hw. cbn. apply elem_of_giants in Hw as (ms' & Hw & E' & Hg').
      split; [done|]. change (com_get_neighbors g w) with (get_neighbors_span g w). rewrite (span_at w ms' Hw E').
      pose proof (Forall_lookup_1 _ _ _ _ (bd_lists _ _ _ Hg) E') as (_ & _ & Hs). by rewrite Hg' in Hs.
    + destruct (Hgs v ns) as (b & Hb' & Hperm).
      { apply list_elem_of_fmap. exists v. split; [|done]. f_equal. symmetry. by apply span_at. }
      exists b. done.
  - destruct (Hblk v ns) as (i & j & blk & Hi & Hj); [by apply elem_of_adj|].
    destruct (Hpages i blk Hi) as (p & Hp & Hsh).
    destruct (view_base s v NORMAL (Z.of_nat i) (Z.of_nat j) p (I5 i j blk (v, ns) Hi Hj) Hp) as [Hl Hb].
    split; [done|]. rewrite Hb. destruct Hsh as (_ & _ & Hsh). destruct (Hsh j (v, ns) Hj) as [_ Hn]. cbn [snd] in Hn.
    rewrite Hn, Egi. exists ns. done.
Qed.

End Built.

(** C31: the build turns a graph into a database that holds it: whatever the
    number of threads and the order in which the pages are written, every
    vertex of the graph is a live vertex of the database, a vertex that is not
    giant reads its list, in order, from the page and slot the index gives,
    after the pages went through the file, a giant vertex's list is in the
    giant store up to order, and the database satisfies the invariant from
    which edge operations start. *)
Theorem build_seq_db_holds g ls hw (order : list csr_page_t -> list csr_page_t) (gd : G) d delta_file (sk : SK) :
  buildable g ls hw -> (forall l, order l ≡ₚ l) -> disk_inv d -> page_size_ d = PAGE_SIZE ->
  pm_wf (empty_map cfg delta_file) ->
  giants_inserted gd ((fun v => (v, com_get_neighbors g v)) <$> giants_of g (seqZ 0 (Z.of_nat (length ls)))) ->
  exists r, build_seq_db g hw order gd d = Ok (Some r) /\
    let s := opened delta_file sk r in
    db_inv s /\ vertex_count s = Z.of_nat (length ls) /\
    forall v ns, 0 <= v -> ls !! Z.to_nat v = Some ns ->
      vertex_live s v = true /\ neighbors s v (list_to_set ns) /\ (is_giant_list ns = false -> base_of s v = Some ns).
Proof.
  intros Hg Ho Hd Hps Hpm Hgi.
  destruct (results_spec g ls hw Hg) as (rs & blocks & E & B1 & B2 & B3 & B4 & B5 & B6).
  destruct (index_spec g ls rs blocks B1 B3 B5 B6) as (vi & Evi & I1 & I2 & I3 & I4 & I5).
  assert (Hc : com_vertex_count g = Z.of_nat (length ls)) by (unfold com_vertex_count; by rewrite (lo_count _ _ (bd_layout _ _ _ Hg))).
  unfold build_seq_db. rewrite E. cbn [mbind res_bind]. rewrite Hc, Evi, B6. cbn [fmap option_fmap option_map].
  eexists. split; [done|]. set (s := opened _ _ _).
  pose proof (built_bases g ls hw Hg rs blocks gd d order delta_file sk vi Hd Hps Ho Hgi B1 B2 B3 B4 I4 I5) as Hb.
  fold s in Hb. cbn zeta in Hb. assert (Hcount : vertex_count s = Z.of_nat (length ls)) by (unfold vertex_count; cbn; by rewrite I2).
  assert (Hhead : forall v, 0 <= v < Z.of_nat (length ls) -> head_of s v = Some dh_invalid).
  { intros v Hv. unfold head_of. cbn. rewrite I3. apply lookup_replicate_2. lia. }
  assert (Hend : forall m, chain_at m dh_invalid []) by (intros; by constructor).
  split; [|split; [done|]].
  - constructor; [done|by eexists|rewrite Hcount; destruct (bd_ids _ _ _ Hg) as [? ?]; unfold num_threads in *; destruct (hw =? 0); lia|].
    intros v. rewrite Hcount. intros Hv. destruct (lookup_lt_is_Some_2 ls (Z.to_nat v)) as [ns En]; [lia|].
    destruct (Hb v ns ltac:(lia) En) as (_ & b & Eb & _). exists b, dh_invalid, []. split; [done|]. split; [by apply Hhead|].
    split; [split; vm_compute; split; congruence|]. split; [apply Hend|constructor].
  - intros v ns Hv En. destruct (Hb v ns Hv En) as (Hl & b & Eb & Hp & Hn). split; [done|]. split.
    + exists b, dh_invalid, []. split; [done|]. split; [apply Hhead; apply lookup_lt_Some in En; lia|]. split; [apply Hend|].
      cbn [ops_set]. apply set_eq. intros x. by rewrite !elem_of_list_to_set, Hp.
    + intros Hgn. by rewrite Eb, (Hn Hgn).
Qed.

End Whole.

End Build.
End BuildDb.
