(* ===== verification/BuildPages.v ===== *)
(** * What the builds of [db_build.cc] share

    The builds that go through the vertex index's own operations relocate
    each vertex of a page when the page is written.  This file has that loop,
    the database over what a build leaves (index, giant store and file), and
    the conditions on the three under which the database holds a graph. *)

From S2P Require Import Prelude Config DeltaPage VertexIndex PageMap DiskManager CsrPage Db EdgeOps Smo BuildDb.

Local Open Scope Z_scope.

Module BuildPages.
Import Delta VIndex PMap Csr DB EdgeOps Disk BuildDb.

(** ** Relocating vertices *)

(** The loop over a page's vertex map.  The compare-and-swap of a build,
    which runs alone, fails only for a vertex outside the index. *)
Fixpoint update_locs (s : vertex_index_t) (page_no : Z) (vertex_map : list (Z * Z)) : res vertex_index_t :=
  match vertex_map with
  | [] => Ok s
  | (v, offset) :: vertex_map =>
    match update_vertex_loc s (Z.to_nat v) page_no offset with
    | None => Throw runtime_error
    | Some s => update_locs s page_no vertex_map
    end
  end.

Abbreviation index_ok s := (gc_inv (GC s [] [])).

(** What the index says of a vertex, at another place. *)
Definition moved (x : option (vertex_type_t * bool * (Z * Z))) (loc : Z * Z) : option (vertex_type_t * bool * (Z * Z)) :=
  (fun y => (y.1, loc)) <$> x.

Lemma update_loc_spec s v P o : index_ok s -> is_Some (items s !! v) -> in_width 16 o ->
  exists s', update_vertex_loc s v P o = Some s' /\ index_ok s' /\ length (items s') = length (items s) /\
    delta_heads_ s' = delta_heads_ s /\ vertex_view s' v = moved (vertex_view s v) (P, o) /\
    forall w, w <> v -> vertex_view s' w = vertex_view s w.
Proof.
  intros Hs [item Hi] Ho. assert (Hlt := lookup_lt_Some _ _ _ Hi).
  destruct (Forall_lookup_1 _ _ _ _ (inv_some _ Hs) Hi) as [e He].
  pose proof (inv_live _ Hs) as Hlive. pose proof (fresh_not_in _ _ _ Hlive) as Hfresh.
  assert (Hown : forall w i id, items s !! w = Some i -> cur i = Some id -> id ∈ owned (GC s [] [])).
  { intros w i id Hw Hc. unfold owned, reachable_ids, curs. rewrite !elem_of_app. left; left.
    apply list_elem_of_omap. exists i. split; [by eapply list_elem_of_lookup_2|done]. }
  assert (Hver : is_Some (versions s !! e)).
  { rewrite Forall_forall in Hlive. by destruct (Hlive e (Hown v item e Hi He)). }
  destruct (prepare_vertex_version s v P (u16 o)) as [[p s1]|] eqn:Ep;
    [|unfold prepare_vertex_version in Ep; by rewrite Hi in Ep].
  pose proof (prepare_inv _ _ _ _ _ _ _ _ Hs Ep) as H1. unfold update_vertex_loc. rewrite Ep. cbn [mbind option_bind].
  destruct (publish_prepared_version s1 v p) as [[ok p'] s'] eqn:Eq.
  unfold prepare_vertex_version in Ep. rewrite Hi in Ep. cbn [mbind option_bind new_version] in Ep. injection Ep as <- <-.
  pose proof Eq as Eq'. unfold publish_prepared_version in Eq'.
  cbn [expected desired items] in Eq'. rewrite He, Hi, decide_True in Eq' by done. injection Eq' as <- _ <-.
  eexists. split; [done|]. split; [exact (publish_inv _ [] [] [] _ _ _ _ H1 Eq)|].
  split; [cbn; apply length_insert|]. split; [done|]. rewrite wrap_small by done. split.
  - unfold vertex_view, get_vertex_location, protect_vertex_version. cbn [items set_items clear_previous retire_version].
    rewrite list_lookup_insert_eq, Hi by done. cbn [mbind option_bind cur vertex_type is_delete]. rewrite He.
    cbn [versions clear_previous retire_version set_items mbind option_bind].
    destruct Hver as [x ->]. rewrite lookup_alter_eq, lookup_insert_eq. done.
  - intros w Hw. unfold vertex_view, get_vertex_location, protect_vertex_version. cbn [items set_items clear_previous retire_version].
    rewrite list_lookup_insert_ne by done. destruct (items s !! w) as [i|] eqn:Ei; [|done]. cbn [mbind option_bind].
    destruct (cur i) as [id|] eqn:Ec; [|done]. cbn [mbind option_bind versions clear_previous retire_version set_items].
    assert (id <> next_version s) by (intros ->; by apply Hfresh, (Hown w i)).
    by rewrite lookup_alter_ne, lookup_insert_ne by done.
Qed.

Lemma update_locs_spec P l : forall s, index_ok s -> NoDup l.*1 ->
  Forall (fun q => 0 <= q.1 < Z.of_nat (length (items s)) /\ in_width 16 q.2) l ->
  exists s', update_locs s P l = Ok s' /\ index_ok s' /\ length (items s') = length (items s) /\
    delta_heads_ s' = delta_heads_ s /\
    (forall v o, (v, o) ∈ l -> vertex_view s' (Z.to_nat v) = moved (vertex_view s (Z.to_nat v)) (P, o)) /\
    forall w, w ∉ l.*1 -> 0 <= w -> vertex_view s' (Z.to_nat w) = vertex_view s (Z.to_nat w).
Proof.
  induction l as [|[v o] l IH]; intros s Hs Hnd Hl.
  { exists s. repeat (split; [done|]). split; [|done]. intros v o Hx. by apply elem_of_nil in Hx. }
  apply NoDup_cons in Hnd as [Hv Hnd]. apply Forall_cons in Hl as [[Hr Ho] Hl]. cbn [fst snd] in *.
  destruct (update_loc_spec s (Z.to_nat v) P o Hs) as (s1 & E & Hs1 & Hl1 & Hh1 & Hv1 & Ho1); [apply lookup_lt_is_Some; lia|done|].
  destruct (IH s1 Hs1 Hnd) as (s' & E' & Hs' & Hl' & Hh' & Hin & Hout); [by rewrite Hl1|].
  exists s'. cbn [update_locs]. rewrite E. split; [done|]. split; [done|]. split; [congruence|]. split; [congruence|]. split.
  - intros w k [[= -> ->]|Hx]%elem_of_cons; [by rewrite Hout by (done || lia)|]. rewrite (Hin w k Hx). f_equal. apply Ho1.
    intros E2. apply Hv. apply list_elem_of_fmap. exists (w, k). split; [|done].
    assert (0 <= w) by (rewrite Forall_forall in Hl; destruct (Hl _ Hx) as [[? ?] _]; done). cbn. lia.
  - intros w Hw H0. rewrite fmap_cons, not_elem_of_cons in Hw. destruct Hw as [Hne Hw]. cbn [fst] in Hne.
    rewrite Hout by done. apply Ho1. lia.
Qed.

(** [items[v].vertex_type = t]. *)
Lemma update_type_spec s v t : index_ok s ->
  index_ok (update_vertex_type s v t) /\ length (items (update_vertex_type s v t)) = length (items s) /\
  delta_heads_ (update_vertex_type s v t) = delta_heads_ s /\
  vertex_view (update_vertex_type s v t) v = (fun y => (t, y.1.2, y.2)) <$> vertex_view s v /\
  forall w, w <> v -> vertex_view (update_vertex_type s v t) w = vertex_view s w.
Proof.
  intros Hs. split; [|split; [by cbn; rewrite length_alter|split; [done|split]]].
  - apply (gc_inv_same_curs s); try done; [by cbn; apply omap_alter_cur|].
    cbn. apply Forall_alter; [apply Hs|]. done.
  - unfold vertex_view, get_vertex_location, protect_vertex_version. cbn [items update_vertex_type set_items versions].
    rewrite list_lookup_alter, decide_True by done. destruct (items s !! v) as [i|]; [|done]. cbn.
    destruct (cur i) as [id|]; [|done]. cbn. by destruct (versions s !! id).
  - intros w Hw. unfold vertex_view, get_vertex_location, protect_vertex_version. cbn [items update_vertex_type set_items versions].
    by rewrite list_lookup_alter_ne.
Qed.

(** Before anything is placed. *)
Lemma construct_index_view n v : (v < n)%nat -> vertex_view (construct_index (Z.of_nat n)) v = Some (NORMAL, false, (0, 0)).
Proof.
  intros Hv. destruct (construct_index_spec n) as (Hs & Hl & _). revert Hv. unfold construct_index in *. rewrite Nat2Z.id in *.
  clear Hs Hl. induction n as [|n IH]; [lia|]. intros Hv. rewrite Nat.iter_succ.
  destruct (construct_index_spec n) as (Hs & Hl & _). unfold construct_index in *. rewrite Nat2Z.id in *.
  revert IH Hs Hl. generalize (Nat.iter n (fun s => (allocate_new_vertex s).2) empty_index). intros s IH Hs Hl.
  unfold vertex_view, get_vertex_location, protect_vertex_version in *. cbn [allocate_new_vertex new_version snd items set_heads set_items versions].
  destruct (decide (v < n)%nat) as [Hlt|Hge].
  - rewrite lookup_app_l by lia. specialize (IH Hlt). destruct (items s !! v) as [i|] eqn:Ei; [|done]. cbn [mbind option_bind] in *.
    destruct (cur i) as [id|] eqn:Ec; [|done]. cbn [mbind option_bind] in *. rewrite lookup_insert_ne; [done|].
    intros <-. apply (fresh_not_in _ _ _ (inv_live _ Hs)). unfold owned, reachable_ids, curs. rewrite !elem_of_app. left; left.
    apply list_elem_of_omap. exists i. split; [by eapply list_elem_of_lookup_2|done].
  - replace v with (length (items s)) by lia. rewrite list_lookup_middle by done. cbn [mbind option_bind cur].
    by rewrite lookup_insert_eq.
Qed.

(** ** The database over a build *)

Section Opened.
Context {G SK : Type} `{cfg : Config} `{!GiantStore G} `{!UpdateSketch SK}.

Definition database_of (delta_file : disk_manager_t) (sketch : SK) (vi : vertex_index_t) (gd : G)
    (d : disk_manager_t) (count : Z) : bw_graph_db_t (A := disk_manager_t) (G := G) (SK := SK) :=
  BwGraphDb vi (empty_map cfg delta_file) (loaded_pages d count) d gd (Some sketch) true [].

(** The index, the giant store and the pages describe the lists [ls]: a vertex
    is on a page with its list or in the store, up to order. *)
Record describes (vi : vertex_index_t) (gd : G) (pages : gmap Z csr_page_t) (ls : list (list Z)) : Prop := {
  de_items : length (items vi) = length ls;
  de_heads : delta_heads_ vi = replicate (length ls) dh_invalid;
  de_vertex : forall v ns, 0 <= v -> ls !! Z.to_nat v = Some ns ->
    exists t P o p b, vertex_view vi (Z.to_nat v) = Some (t, false, (P, o)) /\ pages !! P = Some p /\ b ≡ₚ ns /\
      match t with GIANT => g_stored gd v = Some b | NORMAL => page_neighbors p o = b end
}.

Lemma describes_base delta_file (sk : SK) vi (gd : G) d count ls v ns :
  describes vi gd (loaded_pages d count) ls -> 0 <= v -> ls !! Z.to_nat v = Some ns ->
  let s := database_of delta_file sk vi gd d count in
  vertex_live s v = true /\ exists b, base_of s v = Some b /\ b ≡ₚ ns.
Proof.
  intros Hd Hv E s. destruct (de_vertex _ _ _ _ Hd v ns Hv E) as (t & P & o & p & b & Hview & Hp & Hb & Ht).
  destruct (view_base s v t P o p Hview Hp) as [Hl Hbase]. split; [done|]. exists b. rewrite Hbase.
  split; [|done]. destruct t; [by rewrite Ht|done].
Qed.

Lemma described_db delta_file (sk : SK) vi (gd : G) d count ls :
  describes vi gd (loaded_pages d count) ls -> Z.of_nat (length ls) <= 2 ^ 32 -> pm_wf (empty_map cfg delta_file) ->
  let s := database_of delta_file sk vi gd d count in
  db_inv s /\ vertex_count s = Z.of_nat (length ls) /\
  forall v ns, 0 <= v -> ls !! Z.to_nat v = Some ns -> vertex_live s v = true /\ neighbors s v (list_to_set ns).
Proof.
  intros Hd Hlen Hpm s. assert (Hcount : vertex_count s = Z.of_nat (length ls)) by (unfold vertex_count; cbn; by rewrite (de_items _ _ _ _ Hd)).
  assert (Hhead : forall v, 0 <= v < Z.of_nat (length ls) -> head_of s v = Some dh_invalid).
  { intros v Hv. unfold head_of. cbn. rewrite (de_heads _ _ _ _ Hd). apply lookup_replicate_2. lia. }
  assert (Hend : forall m, chain_at m dh_invalid []) by (intros; by constructor).
  split; [|split; [done|]].
  - constructor; [done|by eexists|lia|]. intros v. rewrite Hcount. intros Hv.
    destruct (lookup_lt_is_Some_2 ls (Z.to_nat v)) as [ns En]; [lia|].
    destruct (describes_base delta_file sk vi gd d count ls v ns Hd ltac:(lia) En) as (_ & b & Eb & _).
    exists b, dh_invalid, []. split; [done|]. split; [by apply Hhead|].
    split; [split; vm_compute; split; congruence|]. split; [apply Hend|constructor].
  - intros v ns Hv En. destruct (describes_base delta_file sk vi gd d count ls v ns Hd Hv En) as (Hl & b & Eb & Hb).
    split; [done|]. exists b, dh_invalid, []. split; [done|].
    split; [apply Hhead; apply lookup_lt_Some in En; lia|]. split; [apply Hend|].
    cbn [ops_set]. apply set_eq. intros x. by rewrite !elem_of_list_to_set, Hb.
Qed.

(** A file that holds pages [0], [1], ..., each showing its block. *)
Definition file_holds (d : disk_manager_t) (blocks : list (list (Z * list Z))) : Prop :=
  disk_inv d /\ page_size_ d = PAGE_SIZE /\
  forall i blk, blocks !! i = Some blk -> exists bs, holds d (Z.of_nat i) bs /\
    forall q, data q = bs -> is_parse_ q = false -> exists q', self_parse q = Ok q' /\ shows q' blk.

Lemma file_write d blocks bs blk :
  file_holds d blocks -> length bs = PAGE_SIZE ->
  (forall q, data q = bs -> is_parse_ q = false -> exists q', self_parse q = Ok q' /\ shows q' blk) ->
  file_holds (write_page d (Z.of_nat (length blocks)) bs true) (blocks ++ [blk]).
Proof.
  intros (Hd & Hps & Hp) Hl Hs.
  assert (Hop : op_ok (page_size_ d) (OpWrite (Z.of_nat (length blocks)) bs true)) by (cbn; rewrite Hps; split; [lia|done]).
  destruct (run_op_inv d _ Hd Hop) as [Hd' Hps']. cbn [run_op] in *. split; [done|]. split; [congruence|].
  intros i b. rewrite lookup_app_Some. intros [Hi|[Hge Hi]].
  - destruct (Hp i b Hi) as (bs' & Hh & Hsh). exists bs'. split; [|done].
    apply (run_op_holds d (OpWrite (Z.of_nat (length blocks)) bs true)); [done|done| |done].
    cbn. apply bool_decide_eq_false. apply lookup_lt_Some in Hi. lia.
  - apply list_lookup_singleton_Some in Hi as [Hz <-]. replace i with (length blocks) by lia.
    exists bs. split; [|done]. apply write_holds; [done|lia|congruence].
Qed.

Lemma file_loaded d blocks count i blk :
  file_holds d blocks -> blocks !! i = Some blk -> Z.of_nat i < count ->
  exists p, loaded_pages d count !! Z.of_nat i = Some p /\ shows p blk.
Proof.
  intros (Hd & Hps & Hp) Hi Hc. destruct (Hp i blk Hi) as (bs & Hh & Hs).
  destruct (Hs (CsrPage (Z.of_nat i) (read_page d (Z.of_nat i)) false 0 0 0 0 0 (0%nat, 0) (0%nat, 0) None false)) as (q & Hq & Hsh);
    [by apply holds_read|done|].
  exists q. split; [|done]. apply loaded_lookup; [lia|done].
Qed.

End Opened.
End BuildPages.
