(* ===== verification/BuildCompressed.v ===== *)
(** * The compressed build ([db_build.cc], [build_compressed_db])

    The vertices are taken in the order of their identifiers and gathered in a
    batch, with an upper bound of the bytes a page needs for it; when the next
    vertex might not fit, the batch becomes a page, which the CSR page
    constructor lays out (and encodes, when the build compresses).  Giant
    vertices go to their store. *)

From S2P Require Import Prelude Config DeltaPage VertexIndex PageMap DiskManager CsrPage Db EdgeOps Smo BuildDb BuildPages.
From S2P Require Import MemGraph ComGraph.

Local Open Scope Z_scope.

Module BuildCompressed.
Import Delta VIndex PMap Csr DB EdgeOps Disk MemGraph ComGraph BuildDb BuildPages.

Section Build.
Context {G SK : Type} `{cfg : Config} `{!GiantStore G} `{!UpdateSketch SK} `{!MapOrder}.

(** The fixed part of a page: metadata and neighbour block. *)
Definition kFixed : Z := (2 * 2 + 4 * 3) + Z.of_nat MAX_BLOCK_NEIGHBOR * 4.

(** The components the build fills and the variables of its loop. *)
Record build_state := BuildState {
  vertex_index : vertex_index_t;
  giant_db : G;
  disk_manager : disk_manager_t;
  current_batch : gmap Z (list Z);
  current_batch_bytes : Z;
  current_page_no : Z
}.

(** [flush_page]: the batch in the order of the map's view, no edge slots. *)
Definition flush_page (st : build_state) : res build_state :=
  if bool_decide (current_batch st = ∅) then Ok st
  else
    let view := map_order (Z.to_nat (current_page_no st)) (current_batch st) in
    '(page, vertex_map) ← build_uniform (new_page (current_page_no st)) view 0;
    vi ← update_locs (vertex_index st) (current_page_no st) vertex_map;
    Ok (BuildState vi (giant_db st) (write_page (disk_manager st) (current_page_no st) (data page) true)
          ∅ kFixed (u32 (current_page_no st + 1))).

(** A giant vertex: the flag of the insertion is ignored. *)
Definition store_giant (st : build_state) (v : Z) (ns : list Z) : build_state :=
  BuildState (update_vertex_type (vertex_index st) (Z.to_nat v) GIANT) (g_insert_vertex (giant_db st) v ns).2
    (disk_manager st) (current_batch st) (current_batch_bytes st) (current_page_no st).

Definition vertex_bytes (ns : list Z) : Z := Z.of_nat VERTEX_SIZE + u64 (Z.of_nat (length ns) * 4).

Definition add_to_batch (st : build_state) (v : Z) (ns : list Z) : build_state :=
  BuildState (vertex_index st) (giant_db st) (disk_manager st) (<[v := ns]> (current_batch st))
    (u64 (current_batch_bytes st + vertex_bytes ns)) (current_page_no st).

(** One turn of the loop over the vertices. *)
Definition build_vertex (g : mem_sub_com_t) (st : build_state) (vertex_id : Z) : res build_state :=
  let neighbors := com_get_neighbors g vertex_id in
  if GIANT_DEGREE_BOUND <=? Z.of_nat (length neighbors) then Ok (store_giant st vertex_id neighbors)
  else
    let neighbors := merge_sort Z.le neighbors in
    st ← (if negb (bool_decide (current_batch st = ∅)) &&
             (Z.of_nat PAGE_SIZE <? u64 (current_batch_bytes st + vertex_bytes neighbors))
          then flush_page st else Ok st);
    Ok (add_to_batch st vertex_id neighbors).

Fixpoint build_vertices (g : mem_sub_com_t) (st : build_state) (vs : list Z) : res build_state :=
  match vs with
  | [] => Ok st
  | v :: vs => st ← build_vertex g st v; build_vertices g st vs
  end.

Definition build_start (g : mem_sub_com_t) (gd : G) (d : disk_manager_t) : build_state :=
  BuildState (construct_index (com_vertex_count g)) gd d ∅ kFixed 0.

Definition build_compressed_db (g : mem_sub_com_t) (gd : G) (d : disk_manager_t) : res build_state :=
  st ← build_vertices g (build_start g gd d) (seqZ 0 (com_vertex_count g));
  flush_page st.

(** ** What a graph has to satisfy *)

(** Identifiers the pages can hold; every vertex that is not giant fits a
    page alone, and one is not giant (the location of giant vertices is on
    page 0). *)
Record compressible (g : mem_sub_com_t) (ls : list (list Z)) : Prop := {
  co_layout : lays_out g ls;
  co_ids : Z.of_nat (length ls) < 2 ^ 32;
  co_lists : Forall (fun ns => Z.of_nat (length ns) < 2 ^ 31 /\
    if is_giant_list ns then g_storable ns
    else Forall (fun x => 0 <= x < if NEIGHBOR_COMPRESS then 2 ^ 30 else 2 ^ 32) ns /\
         kFixed + vertex_bytes ns <= Z.of_nat PAGE_SIZE) ls;
  co_normal : Exists (fun ns => is_giant_list ns = false) ls
}.

(** ** The invariant of the loop *)

Section Loop.
Hypothesis Hpage : Z.of_nat PAGE_SIZE <= 2 ^ 16.
Hypothesis Hbound : 0 <= GIANT_DEGREE_BOUND.
Variables (g : mem_sub_com_t) (ls : list (list Z)) (gd : G).
Hypothesis Hg : compressible g ls.

Abbreviation n := (Z.of_nat (length ls)).
Abbreviation sorted_list ns := (merge_sort Z.le ns).
Abbreviation giant v := (is_giant_list (com_get_neighbors g v)).
Abbreviation giants_before k := ((fun v => (v, com_get_neighbors g v)) <$> giants_of g (seqZ 0 k)).

(** Where vertex [v] is, of those already taken. *)
Definition taken (st : build_state) (blocks : list (list (Z * list Z))) (v : Z) (ns : list Z) : Prop :=
  let view := vertex_view (vertex_index st) (Z.to_nat v) in
  if is_giant_list ns then view = Some (GIANT, false, (0, 0))
  else match current_batch st !! v with
       | Some b => b = sorted_list ns /\ view = Some (NORMAL, false, (0, 0))
       | None => exists i j blk, blocks !! i = Some blk /\ blk !! j = Some (v, sorted_list ns) /\
           view = Some (NORMAL, false, (Z.of_nat i, Z.of_nat j))
       end.

Definition batch_bytes (m : gmap Z (list Z)) : Z :=
  Z.of_nat (vertices_off + size m * VERTEX_SIZE) + lists_bytes ∅ (map_to_list m).

Record batch_inv (st : build_state) (blocks : list (list (Z * list Z))) (k : Z) : Prop := {
  ba_index : index_ok (vertex_index st);
  ba_items : length (items (vertex_index st)) = length ls;
  ba_heads : delta_heads_ (vertex_index st) = replicate (length ls) dh_invalid;
  ba_file : file_holds (disk_manager st) blocks;
  ba_page : current_page_no st = Z.of_nat (length blocks);
  ba_count : Z.of_nat (length blocks + size (current_batch st)) <= k;
  ba_bytes : current_batch_bytes st = batch_bytes (current_batch st) /\ current_batch_bytes st <= Z.of_nat PAGE_SIZE;
  ba_batch : map_Forall (fun v ns => 0 <= v < k /\ exists l, ls !! Z.to_nat v = Some l /\ ns = sorted_list l /\
    is_giant_list l = false) (current_batch st);
  ba_taken : forall v ns, 0 <= v < k -> ls !! Z.to_nat v = Some ns -> taken st blocks v ns;
  ba_ahead : forall v, k <= v < n -> vertex_view (vertex_index st) (Z.to_nat v) = Some (NORMAL, false, (0, 0));
  ba_giants : giant_db st = insert_giants gd (giants_before k)
}.

Lemma batch_bytes_insert m v ns : m !! v = None -> is_giant_list ns = false -> Z.of_nat (length ns) < 2 ^ 31 ->
  batch_bytes (<[v := ns]> m) = batch_bytes m + vertex_bytes ns.
Proof.
  intros Hm Hns Hl. unfold batch_bytes. rewrite map_size_insert_None by done.
  rewrite (lists_bytes_perm _ _ _ (map_to_list_insert m v ns Hm)).
  unfold lists_bytes at 1. cbn [foldr]. fold (lists_bytes ∅ (map_to_list m)). unfold list_bytes. cbn [fst snd].
  rewrite Hns, lookup_empty. unfold vertex_bytes, VERTEX_SIZE. cbn [default].
  rewrite wrap_small by (unfold in_width; lia). lia.
Qed.

Lemma batch_bytes_empty : batch_bytes ∅ = kFixed.
Proof.
  unfold batch_bytes, kFixed, vertices_off, neighbor_block_data_size, METADATA_SIZE.
  rewrite map_size_empty, map_to_list_empty. cbn. lia.
Qed.

Lemma batch_bytes_fixed m : kFixed <= batch_bytes m.
Proof.
  unfold batch_bytes, kFixed, vertices_off, neighbor_block_data_size, METADATA_SIZE.
  assert (0 <= lists_bytes ∅ (map_to_list m)); [|lia].
  apply lists_bytes_nonneg. intros v x Hx. by rewrite lookup_empty in Hx.
Qed.

Lemma vertex_bytes_nonneg ns : 0 <= vertex_bytes ns.
Proof.
  unfold vertex_bytes. pose proof (wrap_range 64 (Z.of_nat (length ns) * 4) ltac:(lia)) as Hw. unfold in_width in Hw. lia.
Qed.

Lemma vertex_bytes_sorted ns : vertex_bytes (sorted_list ns) = vertex_bytes ns.
Proof. unfold vertex_bytes. by rewrite (Permutation_length (merge_sort_Permutation Z.le ns)). Qed.

Lemma list_at v ns : 0 <= v -> ls !! Z.to_nat v = Some ns -> com_get_neighbors g v = ns.
Proof. intros Hv E. rewrite (com_neighbors_at g ls (co_layout _ _ Hg)). by rewrite decide_True, E by done. Qed.

(** The lists of a batch. *)
Lemma batch_lists st blocks k v ns : batch_inv st blocks k -> k <= n -> current_batch st !! v = Some ns ->
  0 <= v < n /\ is_giant_list ns = false /\ Z.of_nat (length ns) < 2 ^ 31 /\
  Forall (fun x => 0 <= x < if NEIGHBOR_COMPRESS then 2 ^ 30 else 2 ^ 32) ns.
Proof.
  intros Hi Hk Hv. destruct (ba_batch _ _ _ Hi v ns Hv) as (Hr & l & El & -> & Hgi).
  pose proof (merge_sort_Permutation Z.le l) as Hp.
  destruct (Forall_lookup_1 _ _ _ _ (co_lists _ _ Hg) El) as [H1 H2]. rewrite Hgi in H2. destruct H2 as [H2 _].
  split; [lia|]. unfold is_giant_list in *. rewrite (Permutation_length Hp). split; [done|]. split; [done|]. by rewrite Hp.
Qed.

(** The page of a batch. *)
Lemma batch_page st blocks k :
  batch_inv st blocks k -> k <= n -> current_batch st <> ∅ ->
  let adj := map_order (Z.to_nat (current_page_no st)) (current_batch st) in
  exists page, build_uniform (new_page (current_page_no st)) adj 0 = Ok (page, imap (fun i q => (q.1, Z.of_nat i)) adj) /\
    length (data page) = PAGE_SIZE /\ Z.of_nat (length adj) < 2 ^ 16 /\
    forall q, data q = data page -> is_parse_ q = false -> exists q', self_parse q = Ok q' /\ shows q' adj.
Proof.
  intros Hi Hk Hne adj. pose proof (map_order_list _ (Z.to_nat (current_page_no st)) (current_batch st)) as Hperm. fold adj in Hperm.
  assert (Hlen : length adj = size (current_batch st)) by (by rewrite Hperm, length_map_to_list).
  assert (Hadj : adj <> []).
  { intros E. rewrite E in Hlen. symmetry in Hlen. by apply map_size_empty_iff in Hlen. }
  destruct (ba_bytes _ _ _ Hi) as [Hb Hfit]. rewrite Hb in Hfit. unfold batch_bytes in Hfit.
  assert (Hall : Forall (fun q : Z * list Z => (in_width 32 q.1 /\
      Forall (fun x => 0 <= x < if NEIGHBOR_COMPRESS then 2 ^ 30 else 2 ^ 32) q.2) /\ Z.of_nat (length q.2) < 2 ^ 31) adj).
  { rewrite Hperm. apply Forall_forall. intros [v ns] Hq. apply elem_of_map_to_list in Hq. cbn.
    destruct (batch_lists _ _ _ _ _ Hi Hk Hq) as (Hr & _ & Hl & Hw). pose proof (co_ids _ _ Hg). unfold in_width. split; [split; [lia|done]|done]. }
  assert (Hsl : forall (v x : Z), (∅ : gmap Z Z) !! v = Some x -> 0 <= x) by (intros v x Hx; by rewrite lookup_empty in Hx).
  pose proof (build_ok Hpage (new_page (current_page_no st)) adj ∅ Hadj Hsl (Forall_impl _ _ _ Hall (fun q H => proj2 H))) as Hok.
  rewrite Hlen, (lists_bytes_perm _ _ _ Hperm) in Hok. specialize (Hok Hfit).
  unfold build_uniform. cbn [Z.eqb].
  destruct (build_from_adjacency_map (new_page (current_page_no st)) adj ∅) as [[page vmap]|] eqn:E; [|done].
  destruct (build_shows (new_page (current_page_no st)) adj ∅ page vmap) as (_ & -> & _ & _ & _ & Hq); [split; lia| | |done|done|].
  { repeat split; cbn; unfold in_width; lia. }
  { exact (Forall_impl _ _ _ Hall (fun q H => proj1 H)). }
  exists page. split; [done|]. split; [|split].
  - by eapply length_built.
  - pose proof (lists_bytes_nonneg ∅ (map_to_list (current_batch st)) Hsl). unfold vertices_off, METADATA_SIZE, VERTEX_SIZE in Hfit. lia.
  - intros q Hd Hp. destruct (Hq q Hd Hp) as (q' & ? & ? & _). eauto.
Qed.

Lemma batch_key_lookup st blocks k v ns : batch_inv st blocks k -> 0 <= v -> ls !! Z.to_nat v = Some ns ->
  current_batch st !! v = Some (sorted_list ns) \/ current_batch st !! v = None.
Proof.
  intros Hi Hv E. destruct (current_batch st !! v) as [b|] eqn:Eb; [left|by right].
  destruct (ba_batch _ _ _ Hi v b Eb) as (_ & l & El & -> & _). by simplify_eq.
Qed.

Lemma flush_batch_spec st blocks k : batch_inv st blocks k -> 0 <= k <= n ->
  exists st' blocks', flush_page st = Ok st' /\ batch_inv st' blocks' k /\ current_batch st' = ∅.
Proof.
  intros Hi Hk. unfold flush_page. case_bool_decide as Hne; [by exists st, blocks|].
  destruct (batch_page st blocks k Hi ltac:(lia) Hne) as (page & E & Hlen & Hadj & Hq).
  set (adj := map_order (Z.to_nat (current_page_no st)) (current_batch st)) in *.
  assert (Hperm : adj ≡ₚ map_to_list (current_batch st)) by apply map_order_list.
  rewrite E. cbn [mbind res_bind]. set (vmap := imap (fun i q => (q.1, Z.of_nat i)) adj).
  assert (Hids : vmap.*1 = adj.*1).
  { apply list_eq. intros i. unfold vmap. rewrite !list_lookup_fmap, list_lookup_imap. by destruct (adj !! i). }
  assert (Hin : forall v, v ∈ adj.*1 <-> is_Some (current_batch st !! v)).
  { intros v. rewrite Hperm, list_elem_of_fmap. split.
    - intros ([w ns] & -> & Hw). apply elem_of_map_to_list in Hw. eauto.
    - intros [ns Hns]. exists (v, ns). split; [done|]. by apply elem_of_map_to_list. }
  assert (Hview : forall v, is_Some (current_batch st !! v) -> vertex_view (vertex_index st) (Z.to_nat v) = Some (NORMAL, false, (0, 0))).
  { intros v [b Hb]. destruct (ba_batch _ _ _ Hi v b Hb) as (Hr & l & El & -> & Hgi).
    pose proof (ba_taken _ _ _ Hi v l Hr El) as Ht. unfold taken in Ht. rewrite Hgi, Hb in Ht. apply Ht. }
  destruct (update_locs_spec (current_page_no st) vmap (vertex_index st) (ba_index _ _ _ Hi)) as (vi & Evi & H1 & H2 & H3 & H4 & H5).
  { rewrite Hids, Hperm. apply NoDup_fst_map_to_list. }
  { apply Forall_forall. intros q Hqv. apply elem_of_lookup_imap in Hqv as (i & [v ns] & -> & Hix). cbn.
    assert (Hv : is_Some (current_batch st !! v)) by (apply Hin, list_elem_of_fmap; exists (v, ns); split; [done|by eapply list_elem_of_lookup_2]).
    destruct Hv as [b Hb]. destruct (ba_batch _ _ _ Hi v b Hb) as (Hr & _). rewrite (ba_items _ _ _ Hi).
    apply lookup_lt_Some in Hix. unfold in_width. lia. }
  rewrite Evi. cbn [mbind res_bind]. eexists _, (blocks ++ [adj]). split; [done|]. split; [|done].
  pose proof (ba_count _ _ _ Hi) as Hc. pose proof (co_ids _ _ Hg).
  assert (Hsz : size (current_batch st) <> 0%nat) by by apply map_size_non_empty_iff.
  destruct (Hi) as [I1 I2 I3 I4 I5 I6 I7 I8 I9 I10 I11].
  constructor; cbn [vertex_index disk_manager current_batch current_batch_bytes current_page_no giant_db].
  - done.
  - congruence.
  - congruence.
  - rewrite I5. apply file_write; [done|done|done].
  - rewrite I5, length_app, wrap_small by (unfold in_width; lia). cbn [length]. lia.
  - rewrite length_app, map_size_empty. cbn [length]. lia.
  - rewrite batch_bytes_empty. split; [done|]. destruct I7 as [E7 I7]. pose proof (batch_bytes_fixed (current_batch st)). lia.
  - apply map_Forall_empty.
  - intros v ns Hv En. pose proof (I9 v ns Hv En) as Ht. unfold taken in *. cbn [vertex_index current_batch]. rewrite lookup_empty.
    destruct (batch_key_lookup st blocks k v ns Hi ltac:(lia) En) as [Eb|Eb].
    + assert (Hgi : is_giant_list ns = false).
      { destruct (I8 v _ Eb) as (_ & l & El & _ & Hgi). by simplify_eq. }
      rewrite Hgi in *. assert (Hv' : (v, sorted_list ns) ∈ adj) by (rewrite Hperm; by apply elem_of_map_to_list).
      apply list_elem_of_lookup in Hv' as [j Hj]. exists (length blocks), j, adj.
      split; [by apply list_lookup_middle|]. split; [done|].
      rewrite (H4 v (Z.of_nat j)), Hview, I5 by (eauto || (apply elem_of_lookup_imap; by exists j, (v, sorted_list ns))). done.
    + rewrite Eb in Ht. assert (Hnin : v ∉ vmap.*1) by (rewrite Hids, Hin, Eb; by intros [? ?]).
      rewrite (H5 v Hnin ltac:(lia)). destruct (is_giant_list ns); [done|].
      destruct Ht as (i & j & blk & Hbi & ? & ?). exists i, j, blk. split; [by apply lookup_app_l_Some|done].
  - intros v Hv. rewrite H5; [by apply I10| |lia]. rewrite Hids, Hin. intros [b Hb].
    destruct (I8 v b Hb) as (? & _). lia.
  - done.
Qed.

Lemma giants_before_succ k : 0 <= k ->
  giants_before (k + 1) = giants_before k ++ (if giant k then [(k, com_get_neighbors g k)] else []).
Proof.
  intros Hk. rewrite seqZ_app by lia. change (seqZ (0 + k) 1) with [0 + (0 + k)]. rewrite Z.add_0_l, Z.add_0_l.
  rewrite giants_of_snoc, fmap_app. f_equal. change (get_neighbors_span g k) with (com_get_neighbors g k).
  by destruct (giant k).
Qed.

Lemma taken_mono st blocks k v ns st' : vertex_view (vertex_index st') (Z.to_nat v) = vertex_view (vertex_index st) (Z.to_nat v) ->
  current_batch st' !! v = current_batch st !! v ->
  batch_inv st blocks k -> 0 <= v < k -> ls !! Z.to_nat v = Some ns -> taken st' blocks v ns.
Proof. intros E1 E2 Hi Hv En. unfold taken. rewrite E1, E2. by apply (ba_taken _ _ _ Hi). Qed.

Lemma store_giant_inv st blocks k ns : batch_inv st blocks k -> 0 <= k < n -> ls !! Z.to_nat k = Some ns ->
  is_giant_list ns = true -> batch_inv (store_giant st k ns) blocks (k + 1).
Proof.
  intros Hi Hk En Hgi. destruct (Hi) as [I1 I2 I3 I4 I5 I6 I7 I8 I9 I10 I11].
  destruct (update_type_spec (vertex_index st) (Z.to_nat k) GIANT I1) as (H1 & H2 & H3 & H4 & H5).
  pose proof (list_at k ns ltac:(lia) En) as Hns.
  constructor; cbn [store_giant vertex_index disk_manager current_batch current_batch_bytes current_page_no giant_db]; try done.
  - congruence.
  - lia.
  - eapply map_Forall_impl; [exact I8|]. intros v b (Hr & Hx). split; [lia|done].
  - intros v ns' Hv En'. destruct (decide (v = k)) as [->|Hne].
    + simplify_eq. unfold taken. cbn [vertex_index store_giant]. rewrite Hgi, H4, I10 by lia. done.
    + apply (taken_mono st blocks k v ns'); [|done|done|lia|done]. apply H5. lia.
  - intros v Hv. rewrite H5 by lia. apply I10. lia.
  - rewrite giants_before_succ, Hns, Hgi by lia. unfold insert_giants. by rewrite foldl_app, I11.
Qed.

Lemma add_to_batch_inv st blocks k ns : batch_inv st blocks k -> 0 <= k < n -> ls !! Z.to_nat k = Some ns ->
  is_giant_list ns = false -> current_batch_bytes st + vertex_bytes ns <= Z.of_nat PAGE_SIZE ->
  batch_inv (add_to_batch st k (sorted_list ns)) blocks (k + 1).
Proof.
  intros Hi Hk En Hgi Hfit. destruct (Hi) as [I1 I2 I3 I4 I5 I6 I7 I8 I9 I10 I11].
  pose proof (list_at k ns ltac:(lia) En) as Hns.
  assert (Hnew : current_batch st !! k = None).
  { destruct (current_batch st !! k) as [b|] eqn:Eb; [|done]. destruct (I8 k b Eb) as (? & _). lia. }
  pose proof (merge_sort_Permutation Z.le ns) as Hp. pose proof (Permutation_length Hp) as Hl.
  destruct (Forall_lookup_1 _ _ _ _ (co_lists _ _ Hg) En) as [Hlen _].
  pose proof (batch_bytes_fixed (current_batch st)) as Hb. assert (0 <= kFixed) by (unfold kFixed; lia).
  pose proof (vertex_bytes_nonneg ns). pose proof (vertex_bytes_sorted ns) as Hvb.
  destruct I7 as [E7 I7].
  constructor; cbn [add_to_batch vertex_index disk_manager current_batch current_batch_bytes current_page_no giant_db]; try done.
  - rewrite map_size_insert_None by done. lia.
  - rewrite Hvb, wrap_small by (unfold in_width; lia). split; [|done]. rewrite batch_bytes_insert; [by rewrite Hvb, E7|done| |lia].
    unfold is_giant_list in *. by rewrite Hl.
  - apply map_Forall_insert_2; [split; [lia|]; by exists ns|]. eapply map_Forall_impl; [exact I8|]. intros v b (Hr & Hx). split; [lia|done].
  - intros v ns' Hv En'. destruct (decide (v = k)) as [->|Hne].
    + simplify_eq. unfold taken. cbn [vertex_index current_batch add_to_batch]. rewrite Hgi, lookup_insert_eq, I10 by lia. done.
    + apply (taken_mono st blocks k v ns'); [done| |done|lia|done]. cbn. by rewrite lookup_insert_ne.
  - intros v Hv. apply I10. lia.
  - rewrite giants_before_succ, Hns, Hgi, app_nil_r by lia. done.
Qed.

Lemma turn_spec st blocks k : batch_inv st blocks k -> 0 <= k < n ->
  exists st' blocks', build_vertex g st k = Ok st' /\ batch_inv st' blocks' (k + 1).
Proof.
  intros Hi Hk. destruct (lookup_lt_is_Some_2 ls (Z.to_nat k)) as [ns En]; [lia|].
  pose proof (list_at k ns ltac:(lia) En) as Hns. unfold build_vertex. rewrite Hns. fold (is_giant_list ns).
  destruct (is_giant_list ns) eqn:Hgi.
  { exists (store_giant st k ns), blocks. split; [done|]. by apply store_giant_inv. }
  destruct (Forall_lookup_1 _ _ _ _ (co_lists _ _ Hg) En) as [Hlen Hal]. rewrite Hgi in Hal. destruct Hal as [_ Hal].
  pose proof (vertex_bytes_sorted ns) as Hvb. pose proof (vertex_bytes_nonneg ns).
  pose proof (batch_bytes_fixed (current_batch st)). assert (0 <= kFixed) by (unfold kFixed; lia).
  destruct (ba_bytes _ _ _ Hi) as [Hb1 Hb2]. rewrite Hvb, wrap_small by (unfold in_width; lia).
  destruct (negb (bool_decide (current_batch st = ∅)) && (Z.of_nat PAGE_SIZE <? current_batch_bytes st + vertex_bytes ns)) eqn:Ec.
  - destruct (flush_batch_spec st blocks k Hi ltac:(lia)) as (st1 & blocks1 & -> & Hi1 & He). cbn [mbind res_bind].
    exists (add_to_batch st1 k (sorted_list ns)), blocks1. split; [done|]. apply add_to_batch_inv; [done|done|done|done|].
    destruct (ba_bytes _ _ _ Hi1) as [-> _]. by rewrite He, batch_bytes_empty.
  - cbn [mbind res_bind]. exists (add_to_batch st k (sorted_list ns)), blocks. split; [done|]. apply add_to_batch_inv; [done|done|done|done|].
    case_bool_decide as He; cbn [negb andb] in Ec; [|lia]. by rewrite Hb1, He, batch_bytes_empty.
Qed.

Lemma build_vertices_spec (m : nat) : forall st blocks k, batch_inv st blocks k -> 0 <= k -> k + Z.of_nat m <= n ->
  exists st' blocks', build_vertices g st (seqZ k (Z.of_nat m)) = Ok st' /\ batch_inv st' blocks' (k + Z.of_nat m).
Proof.
  induction m as [|m IH]; intros st blocks k Hi Hk Hm.
  { exists st, blocks. by rewrite Z.add_0_r. }
  rewrite seqZ_cons by lia. cbn [build_vertices]. destruct (turn_spec st blocks k Hi ltac:(lia)) as (st1 & b1 & -> & Hi1).
  cbn [mbind res_bind]. destruct (IH st1 b1 (k + 1) Hi1 ltac:(lia) ltac:(lia)) as (st' & b' & E & Hi').
  exists st', b'. replace (Z.succ k) with (k + 1) by lia. replace (Z.pred (Z.of_nat (S m))) with (Z.of_nat m) by lia.
  split; [done|]. by replace (k + Z.of_nat (S m)) with (k + 1 + Z.of_nat m) by lia.
Qed.

Lemma build_start_inv d : disk_inv d -> page_size_ d = PAGE_SIZE -> batch_inv (build_start g gd d) [] 0.
Proof.
  intros Hd Hps. assert (Hc : com_vertex_count g = n) by (unfold com_vertex_count; by rewrite (lo_count _ _ (co_layout _ _ Hg))).
  destruct (construct_index_spec (length ls)) as (I1 & I2 & I3).
  constructor; cbn [build_start vertex_index disk_manager current_batch current_batch_bytes current_page_no giant_db]; rewrite ?Hc; try done.
  - split; [by rewrite batch_bytes_empty|]. pose proof (co_normal _ _ Hg) as Hex. apply Exists_exists in Hex as (ms & Hms & Hmg).
    pose proof (co_lists _ _ Hg) as Hl. rewrite Forall_forall in Hl. destruct (Hl ms Hms) as [H1 H2]. rewrite Hmg in H2.
    pose proof (vertex_bytes_nonneg ms). lia.
  - lia.
  - intros v Hv. apply construct_index_view. lia.
Qed.

(** After the last flush every list is on a page or in the store. *)
Lemma finished_describes st blocks : batch_inv st blocks n -> current_batch st = ∅ ->
  giants_inserted gd (giants_before n) ->
  describes (vertex_index st) (giant_db st) (loaded_pages (disk_manager st) (current_page_no st)) ls /\
  forall v ns, 0 <= v -> ls !! Z.to_nat v = Some ns -> is_giant_list ns = false ->
    exists P o p, vertex_view (vertex_index st) (Z.to_nat v) = Some (NORMAL, false, (P, o)) /\
      loaded_pages (disk_manager st) (current_page_no st) !! P = Some p /\ page_neighbors p o = sorted_list ns.
Proof.
  intros Hi He Hins. destruct (Hi) as [I1 I2 I3 I4 I5 _ _ _ I9 _ I11].
  assert (Hn : forall v ns, 0 <= v -> ls !! Z.to_nat v = Some ns -> is_giant_list ns = false ->
    exists P o p, vertex_view (vertex_index st) (Z.to_nat v) = Some (NORMAL, false, (P, o)) /\
      loaded_pages (disk_manager st) (current_page_no st) !! P = Some p /\ page_neighbors p o = sorted_list ns).
  { intros v ns Hv En Hgi. pose proof (lookup_lt_Some _ _ _ En) as Hlt. pose proof (I9 v ns ltac:(lia) En) as Ht. unfold taken in Ht.
    rewrite Hgi, He, lookup_empty in Ht. destruct Ht as (i & j & blk & Hb & Hj & Hv').
    destruct (file_loaded _ blocks (current_page_no st) i blk I4 Hb) as (p & Hp & _ & _ & Hsh); [apply lookup_lt_Some in Hb; lia|].
    destruct (Hsh j _ Hj) as [_ Hpn]. exists (Z.of_nat i), (Z.of_nat j), p. split; [done|]. split; [done|]. rewrite Hpn. cbn [snd].
    unfold is_giant_list in *. by rewrite (Permutation_length (merge_sort_Permutation Z.le ns)), Hgi. }
  split; [|done]. constructor; [done|done|]. intros v ns Hv En. destruct (is_giant_list ns) eqn:Hgi.
  - pose proof (lookup_lt_Some _ _ _ En) as Hlt. pose proof (I9 v ns ltac:(lia) En) as Ht. unfold taken in Ht. rewrite Hgi in Ht.
    assert (exists p, loaded_pages (disk_manager st) (current_page_no st) !! 0 = Some p) as [p Hp].
    { pose proof (co_normal _ _ Hg) as Hex. apply Exists_exists in Hex as (ms & Hms & Hmg).
      apply list_elem_of_lookup in Hms as [m Hm]. pose proof (lookup_lt_Some _ _ _ Hm) as Hmlt.
      pose proof (I9 (Z.of_nat m) ms ltac:(lia)) as Ht'. rewrite Nat2Z.id in Ht'. specialize (Ht' Hm). unfold taken in Ht'.
      rewrite Hmg, He, lookup_empty in Ht'. destruct Ht' as (i & j & blk & Hb & _).
      destruct (lookup_lt_is_Some_2 blocks 0) as [b0 Hb0]; [apply lookup_lt_Some in Hb; lia|].
      destruct (file_loaded _ blocks (current_page_no st) 0 b0 I4 Hb0) as (p & Hp & _); [apply lookup_lt_Some in Hb; lia|]. eauto. }
    destruct (insert_giants_spec (giants_before n) gd) as [Hgs _]; [..|done|].
    + rewrite <- list_fmap_compose. rewrite (list_fmap_id _ : (fst ∘ (fun v => (v, com_get_neighbors g v))) <$> giants_of g (seqZ 0 n) = _).
      apply NoDup_filter, NoDup_seqZ.
    + apply Forall_fmap, Forall_forall. intros w Hw. apply list_elem_of_filter in Hw as [Hwg Hw]. apply elem_of_seqZ in Hw.
      destruct (lookup_lt_is_Some_2 ls (Z.to_nat w)) as [ns' E']; [lia|]. change (get_neighbors_span g w) with (com_get_neighbors g w) in Hwg.
      cbn. rewrite (list_at w ns' ltac:(lia) E') in Hwg |- *. split; [lia|].
      pose proof (Forall_lookup_1 _ _ _ _ (co_lists _ _ Hg) E') as (_ & Hs). by rewrite Hwg in Hs.
    + destruct (Hgs v ns) as (b & Hb & Hperm).
      { apply list_elem_of_fmap. exists v. rewrite (list_at v ns Hv En). split; [done|]. apply list_elem_of_filter.
        change (get_neighbors_span g v) with (com_get_neighbors g v). rewrite (list_at v ns Hv En). split; [done|]. apply elem_of_seqZ. lia. }
      exists GIANT, 0, 0, p, b. by rewrite I11.
  - destruct (Hn v ns Hv En Hgi) as (P & o & p & H1 & H2 & H3). exists NORMAL, P, o, p, (sorted_list ns).
    split; [done|]. split; [done|]. split; [apply merge_sort_Permutation|done].
Qed.

End Loop.

(** C32: the compressed build turns a graph into a database that holds it, for
    either neighbour encoding and whatever order the hash map hands the
    batches to the page constructor in: the build succeeds, every vertex is
    live and has exactly its neighbours, a vertex that is not giant reads its
    list, sorted, from its page after the page went through the file, and the
    database satisfies the invariant from which edge operations start. *)
Theorem build_compressed_db_holds g ls (gd : G) d delta_file (sk : SK) :
  Z.of_nat PAGE_SIZE <= 2 ^ 16 -> 0 <= GIANT_DEGREE_BOUND ->
  compressible g ls -> disk_inv d -> page_size_ d = PAGE_SIZE -> pm_wf (empty_map cfg delta_file) ->
  giants_inserted gd ((fun v => (v, com_get_neighbors g v)) <$> giants_of g (seqZ 0 (Z.of_nat (length ls)))) ->
  exists st, build_compressed_db g gd d = Ok st /\
    let s := database_of delta_file sk (vertex_index st) (giant_db st) (disk_manager st) (current_page_no st) in
    db_inv s /\ vertex_count s = Z.of_nat (length ls) /\
    forall v ns, 0 <= v -> ls !! Z.to_nat v = Some ns ->
      vertex_live s v = true /\ neighbors s v (list_to_set ns) /\
      (is_giant_list ns = false -> base_of s v = Some (merge_sort Z.le ns)).
Proof.
  intros Hpage Hbound Hg Hd Hps Hpm Hins. unfold build_compressed_db.
  assert (Hc : com_vertex_count g = Z.of_nat (length ls)) by (unfold com_vertex_count; by rewrite (lo_count _ _ (co_layout _ _ Hg))).
  destruct (build_vertices_spec Hpage Hbound g ls gd Hg (length ls) (build_start g gd d) [] 0) as (st1 & b1 & E1 & Hi1);
    [by apply build_start_inv|done|lia|]. rewrite Hc, E1. cbn [mbind res_bind].
  destruct (flush_batch_spec Hpage Hbound g ls gd Hg st1 b1 _ Hi1 ltac:(lia)) as (st & blocks & -> & Hi & He).
  destruct (finished_describes g ls gd Hg st blocks Hi He Hins) as [Hdesc Hn].
  exists st. split; [done|]. cbn zeta. pose proof (co_ids _ _ Hg).
  destruct (described_db delta_file sk _ _ _ _ ls Hdesc ltac:(lia) Hpm) as (H1 & H2 & H3).
  split; [exact H1|]. split; [exact H2|]. intros v ns Hv En. destruct (H3 v ns Hv En) as [Hl Hx]. split; [done|]. split; [done|].
  intros Hgi. destruct (Hn v ns Hv En Hgi) as (P & o & p & Hview & Hp & Hb).
  match goal with |- base_of ?s v = _ => destruct (view_base s v NORMAL P o p Hview Hp) as [_ ->] end. by rewrite Hb.
Qed.

End Build.
End BuildCompressed.
