(* ===== verification/Partition.v ===== *)
(** * Graph partitioning ([part/partition.h])

    The partitions come from KaMinPar, which is not part of the repository: it
    is the class below.  Modelled is what the code does around it: the input
    it builds, the refinement that splits every block whose weight exceeds the
    bound until none does, the renumbering of the blocks, and the conversions
    between graphs over any identifiers and the contiguous graph it works on.
    [NodeWeight] is KaMinPar's; weights and their sums are taken to fit it. *)

From S2P Require Import Prelude Config CsrPage Reorder Smo MemGraph MapGraph CsrGraph ComGraph MemGraphSub.

Local Open Scope Z_scope.

(** ** The partitioner *)

Record partition_input := PartitionInput {
  num_threads : Z;
  xadj : list Z;
  adjncy : list Z;
  node_weights : list Z;
  block_count : Z;                       (* [set_k] *)
  max_block_weights : option (list Z)    (* [set_absolute_max_block_weights] *)
}.

(** [compute_partition]: a block of [0 .. k - 1] for every node.  The library
    is parallel; the calls of a run are told apart by the round of the
    refinement and the block they split. *)
Class KaMinPar := {
  compute_partition : nat * Z -> partition_input -> list Z;
  compute_partition_length : forall run i, length (compute_partition run i) = length (node_weights i);
  compute_partition_range : forall run i, 0 < block_count i -> Forall (fun b => 0 <= b < block_count i) (compute_partition run i)
}.

Module Partition.
Import MemGraph SameAnswers MapGraph CsrGraph ComGraph MemGraphSub.

(** Vertex (or page) to block. *)
Abbreviation block_map := (gmap Z Z).

Definition SIZE_MAX : Z := 2 ^ 64 - 1.

(** ** Renumbering the blocks *)

Section Blocks.
Context {MO : MapOrder}.

Definition max_block (salt : nat) (block_of : block_map) : Z :=
  foldl (fun m q => if m <? q.2 then q.2 else m) 0 (map_order salt block_of).

(** The vertices of each block, and the largest identifier. *)
Definition collect_blocks (salt : nat) (block_of : block_map) : list (list Z) * Z :=
  let max_block_id := max_block salt block_of in
  (foldl (fun buckets q => alter (fun l => l ++ [q.1]) (Z.to_nat q.2) buckets)
     (replicate (Z.to_nat (max_block_id + 1)) []) (map_order salt block_of), max_block_id).

Definition remap_step (st : list Z * Z) (q : Z * Z) : list Z * Z :=
  let '(remap, next_id) := st in
  if decide (remap !! Z.to_nat q.2 = Some SIZE_MAX) then (<[Z.to_nat q.2 := next_id]> remap, next_id + 1)
  else (remap, next_id).

(** The three loops iterate over the same map. *)
Definition compress_block_ids (salt : nat) (block_of : block_map) : block_map :=
  if bool_decide (block_of = ∅) then block_of
  else
    let remap := replicate (Z.to_nat (max_block salt block_of + 1)) SIZE_MAX in
    let '(remap, _) := foldl remap_step (remap, 0) (map_order salt block_of) in
    (fun bid => default 0 (remap !! Z.to_nat bid)) <$> block_of.

(** ** The blocks of a map *)

Definition ids_ok (block_of : block_map) : Prop := map_Forall (fun _ b => 0 <= b) block_of.

Lemma order_elem salt (block_of : block_map) v b : (v, b) ∈ map_order salt block_of <-> block_of !! v = Some b.
Proof. by rewrite map_order_list, elem_of_map_to_list. Qed.

Lemma fold_max_spec (l : list (Z * Z)) : forall a,
  let m := foldl (fun m q => if m <? q.2 then q.2 else m) a l in
  a <= m /\ (forall q, q ∈ l -> q.2 <= m) /\ (m = a \/ exists q, q ∈ l /\ q.2 = m).
Proof.
  induction l as [|q l IH]; intros a; cbn [foldl]; cbn zeta.
  - split; [lia|]. split; [intros q Hq; by apply elem_of_nil in Hq|by left].
  - destruct (IH (if a <? q.2 then q.2 else a)) as (H1 & H2 & H3).
    assert (Ha : a <= (if a <? q.2 then q.2 else a) /\ q.2 <= (if a <? q.2 then q.2 else a)) by (destruct (Z.ltb_spec a q.2); lia).
    split; [lia|]. split; [intros r [->|Hr]%elem_of_cons; [lia|by apply H2]|].
    destruct H3 as [H3|(r & Hr & E)]; [|right; exists r; split; [by right|done]].
    rewrite H3. destruct (Z.ltb_spec a q.2); [right; exists q; split; [by left|done]|by left].
Qed.

Lemma max_block_spec salt block_of : ids_ok block_of ->
  0 <= max_block salt block_of /\ forall v b, block_of !! v = Some b -> 0 <= b <= max_block salt block_of.
Proof.
  intros Hok. destruct (fold_max_spec (map_order salt block_of) 0) as (H1 & H2 & _). split; [done|]. intros v b Hb.
  split; [by apply (Hok v b)|]. apply (H2 (v, b)). by apply order_elem.
Qed.

Lemma max_block_attained salt block_of : block_of <> ∅ -> ids_ok block_of -> exists v, block_of !! v = Some (max_block salt block_of).
Proof.
  intros Hne Hok. destruct (fold_max_spec (map_order salt block_of) 0) as (_ & H2 & H3).
  destruct H3 as [H3|([v b] & Hq & E)]; [|exists v; apply (order_elem salt); unfold max_block; by rewrite <- E].
  apply map_choose in Hne as (v & b & Hb). exists v. rewrite Hb. f_equal. change (max_block salt block_of = 0) in H3. rewrite H3.
  pose proof (Hok v b Hb : 0 <= b). pose proof (H2 (v, b) (proj2 (order_elem salt block_of v b) Hb)) as Hle.
  change (b <= max_block salt block_of) in Hle. lia.
Qed.

(** The renumbering table after the blocks [seen]. *)
Record remap_ok (N : nat) (seen : list Z) (remap : list Z) (next_id : Z) : Prop := {
  ro_length : length remap = N;
  ro_next : 0 <= next_id <= Z.of_nat (length seen);
  ro_seen : forall b, b ∈ seen -> exists i, remap !! Z.to_nat b = Some i /\ 0 <= i < next_id;
  ro_unseen : forall k, (k < N)%nat -> Z.of_nat k ∉ seen -> remap !! k = Some SIZE_MAX;
  ro_inj : forall a b i, a ∈ seen -> b ∈ seen -> remap !! Z.to_nat a = Some i -> remap !! Z.to_nat b = Some i -> a = b;
  ro_onto : forall i, 0 <= i < next_id -> exists b, b ∈ seen /\ remap !! Z.to_nat b = Some i
}.

Lemma remap_step_ok N seen remap next_id q :
  remap_ok N seen remap next_id -> 0 <= q.2 < Z.of_nat N -> Forall (fun b => 0 <= b) seen ->
  Z.of_nat (length seen) < SIZE_MAX ->
  let '(remap', next_id') := remap_step (remap, next_id) q in remap_ok N (seen ++ [q.2]) remap' next_id'.
Proof.
  intros [R1 R2 R3 R4 R5 R6] Hq Hpos Hlen. unfold remap_step. set (b := q.2) in *. rewrite Forall_forall in Hpos.
  destruct (decide (remap !! Z.to_nat b = Some SIZE_MAX)) as [Hb|Hb].
  - assert (Hn : b ∉ seen) by (intros Hin; destruct (R3 b Hin) as (i & E & Hi); rewrite Hb in E; injection E as <-; lia).
    assert (Hoth : forall a, a ∈ seen -> <[Z.to_nat b := next_id]> remap !! Z.to_nat a = remap !! Z.to_nat a).
    { intros a Ha. apply list_lookup_insert_ne. intros E. apply Hn. specialize (Hpos a Ha). by replace b with a by lia. }
    assert (Hnew : <[Z.to_nat b := next_id]> remap !! Z.to_nat b = Some next_id) by (apply list_lookup_insert_eq; lia).
    constructor.
    + by rewrite length_insert.
    + rewrite length_app. cbn [length]. lia.
    + intros a [Ha| ->%list_elem_of_singleton]%elem_of_app.
      * destruct (R3 a Ha) as (i & E & Hi). exists i. rewrite Hoth by done. split; [done|lia].
      * exists next_id. split; [done|lia].
    + intros k Hk Hks. rewrite not_elem_of_app, list_elem_of_singleton in Hks. destruct Hks as [Hks Hkb].
      rewrite list_lookup_insert_ne by lia. by apply R4.
    + intros a c i Ha Hc Ea Ec. apply elem_of_app in Ha, Hc. rewrite list_elem_of_singleton in Ha, Hc.
      assert (Hold : forall x, x ∈ seen -> remap !! Z.to_nat x <> Some next_id).
      { intros x Hx E. destruct (R3 x Hx) as (j & Ej & Hj). rewrite E in Ej. injection Ej as <-. lia. }
      destruct Ha as [Ha| ->], Hc as [Hc| ->]; [|..|done].
      * rewrite Hoth in Ea, Ec by done. by apply (R5 a c i).
      * rewrite Hoth in Ea by done. rewrite Hnew in Ec. injection Ec as <-. by destruct (Hold a Ha).
      * rewrite Hoth in Ec by done. rewrite Hnew in Ea. injection Ea as <-. by destruct (Hold c Hc).
    + intros i Hi. destruct (decide (i = next_id)) as [->|Hne]; [exists b; split; [set_solver|done]|].
      destruct (R6 i) as (a & Ha & E); [lia|]. exists a. split; [set_solver|]. by rewrite Hoth.
  - assert (Hin : b ∈ seen).
    { destruct (decide (b ∈ seen)) as [|Hn]; [done|]. destruct Hb. apply R4; [lia|]. by rewrite Z2Nat.id by lia. }
    assert (Heq : forall a, a ∈ seen ++ [b] <-> a ∈ seen) by set_solver.
    constructor; try done.
    + rewrite length_app. lia.
    + intros a Ha. by apply R3, Heq.
    + intros k Hk Hks. apply R4; [done|]. by rewrite <- Heq.
    + intros a c i Ha%Heq Hc%Heq. by apply R5.
    + intros i Hi. destruct (R6 i Hi) as (a & Ha & E). exists a. by rewrite Heq.
Qed.

Lemma remap_fold_ok N l : forall seen remap next_id,
  remap_ok N seen remap next_id -> Forall (fun q : Z * Z => 0 <= q.2 < Z.of_nat N) l -> Forall (fun b => 0 <= b) seen ->
  Z.of_nat (length seen + length l) < SIZE_MAX ->
  let '(remap', next_id') := foldl remap_step (remap, next_id) l in remap_ok N (seen ++ l.*2) remap' next_id'.
Proof.
  induction l as [|q l IH]; intros seen remap next_id Hr Hl Hpos Hlen; cbn [foldl]; [by rewrite app_nil_r|].
  apply Forall_cons in Hl as [Hq Hl]. cbn [length] in Hlen.
  pose proof (remap_step_ok N seen remap next_id q Hr Hq Hpos ltac:(lia)) as H1.
  destruct (remap_step (remap, next_id) q) as [remap1 next1].
  specialize (IH (seen ++ [q.2]) remap1 next1 H1 Hl). rewrite <- app_assoc in IH. apply IH.
  - apply Forall_app. split; [done|]. constructor; [lia|done].
  - rewrite length_app. cbn [length]. lia.
Qed.

(** The renumbering keeps the classes and uses exactly the numbers [0 .. B - 1]. *)
Lemma compress_spec salt block_of :
  ids_ok block_of -> Z.of_nat (size block_of) < SIZE_MAX ->
  exists rank B, compress_block_ids salt block_of = rank <$> block_of /\
    (forall v w a b, block_of !! v = Some a -> block_of !! w = Some b -> rank a = rank b -> a = b) /\
    forall i, 0 <= i < B <-> exists v b, block_of !! v = Some b /\ rank b = i.
Proof.
  intros Hok Hsize. unfold compress_block_ids. case_bool_decide as Hne.
  { subst. exists (fun x => x), 0. split; [by rewrite fmap_empty|]. split; [intros v w a b Hv; by rewrite lookup_empty in Hv|].
    intros i. split; [lia|]. intros (v & b & Hv & _). by rewrite lookup_empty in Hv. }
  destruct (max_block_spec salt block_of Hok) as [Hm Hle].
  set (N := Z.to_nat (max_block salt block_of + 1)).
  pose proof (remap_fold_ok N (map_order salt block_of) [] (replicate N SIZE_MAX) 0) as Hfold.
  destruct (foldl remap_step (replicate N SIZE_MAX, 0) (map_order salt block_of)) as [remap next_id].
  destruct Hfold as [R1 R2 R3 R4 R5 R6].
  - constructor.
    + apply length_replicate.
    + done.
    + intros b Hb. by apply elem_of_nil in Hb.
    + intros k Hk _. by apply lookup_replicate_2.
    + intros a b i Ha. by apply elem_of_nil in Ha.
    + intros i Hi. lia.
  - apply Forall_forall. intros [v b] Hq. apply order_elem in Hq. cbn. destruct (Hle v b Hq). unfold N. lia.
  - done.
  - cbn [length]. rewrite (Permutation_length (map_order_list _ salt block_of)), length_map_to_list. lia.
  - cbn [app] in *.
    assert (Hin : forall b, b ∈ (map_order salt block_of).*2 <-> exists v, block_of !! v = Some b).
    { intros b. rewrite list_elem_of_fmap. split.
      - intros ([v b'] & -> & Hq). apply order_elem in Hq. by exists v.
      - intros [v Hv]. exists (v, b). split; [done|]. by apply order_elem. }
    exists (fun bid => default 0 (remap !! Z.to_nat bid)), next_id. split; [done|]. split.
    + intros v w a b Ha Hb Hr. assert (a ∈ (map_order salt block_of).*2 /\ b ∈ (map_order salt block_of).*2) as [Ha' Hb'] by (rewrite !Hin; eauto).
      destruct (R3 a Ha') as (i & Ei & _), (R3 b Hb') as (j & Ej & _). rewrite Ei, Ej in Hr. cbn in Hr. subst j.
      by apply (R5 a b i).
    + intros i. split.
      * intros Hi. destruct (R6 i Hi) as (b & Hb & E). apply Hin in Hb as [v Hv]. exists v, b. by rewrite E.
      * intros (v & b & Hv & <-). destruct (R3 b) as (j & E & Hj); [by apply Hin; eauto|]. by rewrite E.
Qed.

(** The buckets hold the classes. *)
Definition block_vertices (salt : nat) (block_of : block_map) (b : Z) : list Z :=
  (filter (fun q => q.2 = b) (map_order salt block_of)).*1.

Lemma bucket_fold (l : list (Z * Z)) : forall buckets k, (k < length buckets)%nat -> Forall (fun q : Z * Z => 0 <= q.2) l ->
  foldl (fun buckets q => alter (fun l => l ++ [q.1]) (Z.to_nat q.2) buckets) buckets l !! k =
    (fun x => x ++ (filter (fun q => q.2 = Z.of_nat k) l).*1) <$> (buckets !! k).
Proof.
  induction l as [|[v b] l IH]; intros buckets k Hk Hl; cbn [foldl].
  { destruct (lookup_lt_is_Some_2 buckets k Hk) as [x ->]. cbn. by rewrite app_nil_r. }
  apply Forall_cons in Hl as [Hb Hl]. cbn [fst snd] in *. rewrite IH by (rewrite ?length_alter; done).
  destruct (lookup_lt_is_Some_2 buckets k Hk) as [x Hx]. rewrite filter_cons. cbn [snd].
  destruct (decide (b = Z.of_nat k)) as [->|Hne].
  - rewrite Nat2Z.id, list_lookup_alter, decide_True by done. rewrite Hx. cbn. by rewrite <- app_assoc.
  - rewrite list_lookup_alter_ne by lia. done.
Qed.

Lemma length_bucket_fold (l : list (Z * Z)) : forall buckets,
  length (foldl (fun buckets q => alter (fun l => l ++ [q.1]) (Z.to_nat q.2) buckets) buckets l) = length buckets.
Proof. induction l as [|q l IH]; intros buckets; cbn [foldl]; [done|]. by rewrite IH, length_alter. Qed.

Lemma collect_blocks_spec salt block_of : ids_ok block_of ->
  collect_blocks salt block_of =
    (block_vertices salt block_of <$> seqZ 0 (max_block salt block_of + 1), max_block salt block_of).
Proof.
  intros Hok. unfold collect_blocks. f_equal. destruct (max_block_spec salt block_of Hok) as [Hm _].
  assert (Hl : Forall (fun q : Z * Z => 0 <= q.2) (map_order salt block_of)).
  { apply Forall_forall. intros [v b] Hq. apply order_elem in Hq. by apply (Hok v b). }
  apply list_eq. intros k. destruct (decide (k < Z.to_nat (max_block salt block_of + 1))%nat) as [Hk|Hk].
  - rewrite bucket_fold by (rewrite ?length_replicate; done). rewrite lookup_replicate_2 by done. cbn [fmap option_fmap option_map app].
    rewrite list_lookup_fmap, (proj2 (lookup_seqZ _ _ _ _)) by (split; [reflexivity|lia]). done.
  - rewrite !lookup_ge_None_2; [done|rewrite length_fmap, length_seqZ; lia|rewrite length_bucket_fold, length_replicate; lia].
Qed.

Lemma elem_of_block salt block_of b v : v ∈ block_vertices salt block_of b <-> block_of !! v = Some b.
Proof.
  unfold block_vertices. rewrite list_elem_of_fmap. split.
  - intros ([w c] & -> & Hq). apply list_elem_of_filter in Hq as [E Hq]. cbn in E. subst. by apply order_elem in Hq.
  - intros Hv. exists (v, b). split; [done|]. apply list_elem_of_filter. split; [done|]. by apply order_elem.
Qed.

Lemma block_nodup salt block_of b : NoDup (block_vertices salt block_of b).
Proof.
  unfold block_vertices. assert (Hn : NoDup (map_order salt block_of).*1) by (rewrite map_order_list; apply NoDup_fst_map_to_list).
  revert Hn. induction (map_order salt block_of) as [|[v c] l IH]; intros Hn; [constructor|].
  apply NoDup_cons in Hn as [Hv Hn]. rewrite filter_cons. case_decide; [|by apply IH]. apply NoDup_cons. split; [|by apply IH].
  intros Hin. apply Hv. apply list_elem_of_fmap in Hin as (q & E & Hq). apply list_elem_of_filter in Hq as [_ Hq].
  apply list_elem_of_fmap. by exists q.
Qed.

End Blocks.

Section Partitioning.
Context {cfg : Config} {KM : KaMinPar} {MO : MapOrder}.

(** ** Splitting a subgraph *)

(** One node of the subgraph: neighbours inside it, weight [1 + degree], 1 for
    giant degrees. *)
Definition add_node (subgraph : mem_sub_csr_t) (id2idx : gmap Z Z) (st : list Z * list Z * list Z) (u : Z) :
    list Z * list Z * list Z :=
  let '(xadj, adjncy, weights) := st in
  let inside := omap (fun v => id2idx !! v) (csr_get_neighbors subgraph u) in
  let deg := Z.of_nat (length inside) in
  (xadj ++ [Z.of_nat (length adjncy)], adjncy ++ inside,
   weights ++ [if GIANT_DEGREE_BOUND <=? deg then 1 else 1 + deg]).

Definition kway_graph_partition (run : nat * Z) (subgraph : mem_sub_csr_t) (k : Z) : res block_map :=
  if k =? 0 then Throw invalid_argument
  else
    let n := csr_vertex_count subgraph in
    if n =? 0 then Ok ∅
    else
      let k := if n <? k then n else k in
      let nodes := csr_vertex_list subgraph in
      let id2idx : gmap Z Z := list_to_map (imap (fun i v => (v, Z.of_nat i)) nodes) in
      let '(xadj, adjncy, weights) := foldl (add_node subgraph id2idx) ([], [], []) nodes in
      let part := compute_partition run
        (PartitionInput 10 (xadj ++ [Z.of_nat (length adjncy)]) adjncy weights k None) in
      Ok (list_to_map (zip nodes part)).

(** ** Weights *)

Definition node_weight_original (g : mem_sub_com_t) (v : Z) : Z :=
  let deg := Z.of_nat (length (com_get_neighbors g v)) in
  if GIANT_DEGREE_BOUND <=? deg then 1 else 1 + deg.

Definition block_weight_original (g : mem_sub_com_t) (nodes : list Z) : Z :=
  foldl (fun sum v => sum + node_weight_original g v) 0 nodes.

(** ** Refinement *)

(** The blocks over the bound, in ascending order. *)
Definition overweight_blocks (g : mem_sub_com_t) (max_block_weight : Z) (buckets : list (list Z)) : list (Z * list Z) :=
  filter (fun q => q.2 <> [] /\ max_block_weight < block_weight_original g q.2)
    (imap (fun b verts => (Z.of_nat b, verts)) buckets).

(** Splitting one of them: the first part keeps the identifier, the others get
    the next free ones. *)
Definition split_block (g : mem_sub_com_t) (max_block_weight : Z) (salt : nat) (st : block_map * Z) (q : Z * list Z) :
    res (block_map * Z) :=
  let '(block_of, max_bid) := st in
  let '(b, verts) := q in
  let bw := block_weight_original g verts in
  sub ← compute_induced_subgraph g verts;
  if csr_vertex_count sub =? 0 then Ok st
  else
    let k2 := Z.max 2 ((bw + max_block_weight - 1) `div` max_block_weight) in
    local_map ← kway_graph_partition (salt, b) sub k2;
    let new_ids := b :: seqZ (max_bid + 1) (k2 - 1) in
    Ok (foldl (fun m v => match local_map !! v with
                          | Some lb => <[v := default 0 (new_ids !! Z.to_nat lb)]> m
                          | None => m
                          end) block_of verts, max_bid + (k2 - 1)).

Fixpoint split_blocks (g : mem_sub_com_t) (max_block_weight : Z) (salt : nat) (st : block_map * Z) (l : list (Z * list Z)) :
    res (block_map * Z) :=
  match l with
  | [] => Ok st
  | q :: l => st ← split_block g max_block_weight salt st q; split_blocks g max_block_weight salt st l
  end.

(** [while (true)]; [None]: not finished within [fuel] rounds. *)
Fixpoint refine_blocks (fuel : nat) (g : mem_sub_com_t) (max_block_weight : Z) (salt : nat) (block_of : block_map) :
    option (res block_map) :=
  match fuel with
  | O => None
  | S fuel =>
    let '(buckets, max_bid) := collect_blocks salt block_of in
    match overweight_blocks g max_block_weight buckets with
    | [] => Some (Ok block_of)
    | over =>
      match split_blocks g max_block_weight salt (block_of, max_bid) over with
      | Ok (block_of, _) => refine_blocks fuel g max_block_weight (S salt) block_of
      | Throw e => Some (Throw e)
      end
    end
  end.

(** ** The partition of a graph *)

Definition degree_at (g : mem_sub_com_t) (i : nat) : Z :=
  Z.of_nat (default 0%nat (offsets g !! S i)) - Z.of_nat (default 0%nat (offsets g !! i)).

(** The weights handed to KaMinPar: with [unit_giants] giant vertices weigh 1;
    without edge weights every vertex does. *)
Definition input_weights (unit_giants enable_edge_weight : bool) (g : mem_sub_com_t) : list Z :=
  (fun i => if enable_edge_weight then
              if unit_giants && (GIANT_DEGREE_BOUND <=? degree_at g i) then 1 else 1 + degree_at g i
            else 1) <$> seq 0 (num_vertices g).

Definition partition_graph (unit_giants : bool) (fuel : nat) (salt : nat) (g : mem_sub_com_t) (max_block_weight : Z)
    (enable_edge_weight refine : bool) (threads : Z) : option (res block_map) :=
  if max_block_weight =? 0 then Some (Throw invalid_argument)
  else if bool_decide (com_vertex_list g = []) then Some (Ok ∅)
  else
    let weights := input_weights unit_giants enable_edge_weight g in
    let num_partitions := u32 ((foldl Z.add 0 weights + max_block_weight - 1) `div` max_block_weight) in
    let init := compute_partition (0%nat, 0)
      (PartitionInput threads (Z.of_nat <$> offsets g) (neighbor_list g) weights num_partitions
         (Some (replicate (Z.to_nat num_partitions) max_block_weight))) in
    let block_of := list_to_map (zip (com_vertex_list g) init) in
    match (if refine then refine_blocks fuel g max_block_weight salt block_of else Some (Ok block_of)) with
    | Some (Ok block_of) => Some (Ok (compress_block_ids salt block_of))
    | r => r
    end.

Definition absolute_weight_graph_partition := partition_graph true.
Definition absolute_weight_graph_partition_non_giant := partition_graph false.

(** ** As a list of parts *)

Definition group_parts (salt : nat) (vertex_count : Z) (partition_result : block_map) : list (list Z) :=
  foldl (fun g_part i => alter (fun l => l ++ [i]) (Z.to_nat (default 0 (partition_result !! i))) g_part)
    (replicate (Z.to_nat (max_block salt partition_result + 1)) []) (seqZ 0 vertex_count).

Definition compute_absolute_weight_graph_partition (fuel salt : nat) (g : mem_sub_com_t) (max_block_weight threads : Z) :
    option (res (list (list Z))) :=
  r ← absolute_weight_graph_partition fuel salt g max_block_weight true true threads;
  Some (partition_result ← r; Ok (group_parts salt (com_vertex_count g) partition_result)).

(** No refinement. *)
Definition compute_absolute_weight_graph_partition_non_giant (fuel salt : nat) (g : mem_sub_com_t) (max_block_weight threads : Z) :
    option (res (list (list Z))) :=
  r ← absolute_weight_graph_partition_non_giant fuel salt g max_block_weight true false threads;
  Some (partition_result ← r; Ok (group_parts salt (com_vertex_count g) partition_result)).

(** ** One split *)

(** What is asked of the partitioner for the refinement to make progress: two
    blocks or more of two nodes or more are not all one block. *)
Definition splits : Prop := forall run i, 2 <= block_count i -> (2 <= length (node_weights i))%nat ->
  exists j l a b, compute_partition run i !! j = Some a /\ compute_partition run i !! l = Some b /\ a <> b.

Variable g : mem_sub_com_t.

Definition valid_vertices (vs : list Z) : Prop := Forall (fun v => is_valid_vertex g v = true) vs.

Lemma sub_spec verts : valid_vertices verts -> NoDup verts ->
  exists sub, compute_induced_subgraph g verts = Ok sub /\ csr_vertex_list sub ≡ₚ verts /\
    csr_vertex_count sub = Z.of_nat (length (csr_vertex_list sub)) /\ NoDup (csr_vertex_list sub).
Proof.
  intros Hv Hnd. unfold compute_induced_subgraph. assert (forallb (is_valid_vertex g) verts = true) as ->.
  { apply forallb_forall. intros v Hin. apply list_elem_of_In in Hin. unfold valid_vertices in Hv. rewrite Forall_forall in Hv. by apply Hv. }
  set (m := subgraph_of g _ verts). exists (csr_of_adj_map m). split; [done|].
  assert (Hn : NoDup (csr_vertex_list (csr_of_adj_map m))) by apply NoDup_fst_map_to_list.
  split; [|split; [|done]].
  - apply NoDup_Permutation; [done|done|]. intros v. unfold csr_vertex_list. rewrite list_elem_of_fmap.
    transitivity (is_Some (m !! v)).
    + replace (is_Some (m !! v)) with (is_Some (csr_to_map (csr_of_adj_map m) !! v)) by by rewrite csr_to_map_id.
      unfold csr_to_map. rewrite lookup_fmap, fmap_is_Some. split.
      * intros ([w pos] & -> & Hw). apply elem_of_map_to_list in Hw. by exists pos.
      * intros [pos Hp]. exists (v, pos). split; [done|]. by apply elem_of_map_to_list.
    + unfold m, subgraph_of. rewrite foldl_insert_lookup, lookup_empty. case_decide; [by split; eauto|].
      split; [by intros [? ?]|done].
  - unfold csr_vertex_count, csr_vertex_list. by rewrite length_fmap, length_map_to_list.
Qed.

Lemma add_nodes_weights sub id2idx nodes : forall xa ad ws xa' ad' ws',
  foldl (add_node sub id2idx) (xa, ad, ws) nodes = (xa', ad', ws') -> length ws' = (length ws + length nodes)%nat.
Proof.
  induction nodes as [|u nodes IH]; intros xa ad ws xa' ad' ws' E; cbn [foldl] in E.
  { injection E as _ _ <-. cbn. lia. }
  apply IH in E. rewrite E, length_app. cbn [length]. lia.
Qed.

Lemma kway_spec run sub k : 2 <= k -> csr_vertex_list sub <> [] -> NoDup (csr_vertex_list sub) ->
  csr_vertex_count sub = Z.of_nat (length (csr_vertex_list sub)) ->
  exists local, kway_graph_partition run sub k = Ok local /\
    (forall v, is_Some (local !! v) <-> v ∈ csr_vertex_list sub) /\
    (forall v lb, local !! v = Some lb -> 0 <= lb < k) /\
    (splits -> (2 <= length (csr_vertex_list sub))%nat ->
      exists v w a b, local !! v = Some a /\ local !! w = Some b /\ a <> b).
Proof.
  intros Hk Hne Hnd Hc. unfold kway_graph_partition. rewrite Hc. destruct (Z.eqb_spec k 0); [lia|].
  set (nodes := csr_vertex_list sub) in *. assert (0 < Z.of_nat (length nodes)) by (destruct nodes; [done|cbn; lia]).
  destruct (Z.eqb_spec (Z.of_nat (length nodes)) 0); [lia|].
  set (k' := if Z.of_nat (length nodes) <? k then Z.of_nat (length nodes) else k).
  assert (Hk' : 0 < k' <= k) by (unfold k'; destruct (Z.ltb_spec (Z.of_nat (length nodes)) k); lia).
  destruct (foldl (add_node sub _) ([], [], []) nodes) as [[xa ad] ws] eqn:E. apply add_nodes_weights in E. cbn [length] in E.
  set (i := PartitionInput 10 _ ad ws k' None). set (part := compute_partition run i).
  assert (Hlen : length part = length nodes) by (unfold part; rewrite compute_partition_length; exact E).
  pose proof (compute_partition_range run i ltac:(cbn; lia)) as Hr. fold part in Hr. cbn [block_count i] in Hr.
  assert (Hl : forall v lb, list_to_map (M := gmap Z Z) (zip nodes part) !! v = Some lb <-> exists j, nodes !! j = Some v /\ part !! j = Some lb).
  { intros v lb. rewrite <- elem_of_list_to_map by (by rewrite fst_zip by lia). rewrite list_elem_of_lookup.
    setoid_rewrite lookup_zip_Some. done. }
  eexists. split; [done|]. split; [|split].
  - intros v. split.
    + intros [lb Hlb]. apply Hl in Hlb as (j & Hj & _). by eapply list_elem_of_lookup_2.
    + intros Hv. apply list_elem_of_lookup in Hv as [j Hj]. destruct (lookup_lt_is_Some_2 part j) as [lb Hlb]; [rewrite Hlen; by eapply lookup_lt_Some|].
      exists lb. apply Hl. eauto.
  - intros v lb Hlb. apply Hl in Hlb as (j & _ & Hj). pose proof (Forall_lookup_1 _ _ _ _ Hr Hj) as H1. cbn beta in H1. lia.
  - intros Hs H2. destruct (Hs run i) as (j & l & a & b & Ha & Hb & Hab); [cbn; unfold k'; destruct (Z.ltb_spec (Z.of_nat (length nodes)) k); lia|cbn; lia|].
    fold part in Ha, Hb. destruct (lookup_lt_is_Some_2 nodes j) as [v Hv]; [rewrite <- Hlen; by eapply lookup_lt_Some|].
    destruct (lookup_lt_is_Some_2 nodes l) as [w Hw]; [rewrite <- Hlen; by eapply lookup_lt_Some|].
    exists v, w, a, b. split; [apply Hl; eauto|]. split; [apply Hl; eauto|done].
Qed.

Lemma assign_fold (local m0 : block_map) (f : Z -> Z) verts : forall m : block_map, NoDup verts ->
  (forall v, v ∈ verts -> is_Some (local !! v)) ->
  forall v, foldl (fun m v => match local !! v with Some lb => <[v := f lb]> m | None => m end) m verts !! v =
    if decide (v ∈ verts) then f <$> local !! v else m !! v.
Proof.
  induction verts as [|w verts IH]; intros m Hnd Hl v; cbn [foldl].
  { by rewrite decide_False by (by intros ?%elem_of_nil). }
  apply NoDup_cons in Hnd as [Hw Hnd]. rewrite IH by (done || intros; apply Hl; by right).
  destruct (Hl w) as [lb Elb]; [by left|]. rewrite Elb.
  destruct (decide (v ∈ verts)) as [Hv|Hv]; [by rewrite decide_True by by right|].
  destruct (decide (v = w)) as [->|Hne].
  - rewrite decide_True by by left. by rewrite lookup_insert_eq, Elb.
  - rewrite decide_False by (rewrite elem_of_cons; tauto). by rewrite lookup_insert_ne.
Qed.

Lemma split_block_spec W salt m mx b verts :
  valid_vertices verts -> NoDup verts -> verts <> [] -> 0 <= b <= mx ->
  exists m' mx', split_block g W salt (m, mx) (b, verts) = Ok (m', mx') /\ mx <= mx' /\
    (forall v, v ∉ verts -> m' !! v = m !! v) /\
    (forall v, v ∈ verts -> exists c, m' !! v = Some c /\ (c = b \/ mx < c <= mx')) /\
    (splits -> (2 <= length verts)%nat -> exists v w, v ∈ verts /\ w ∈ verts /\ m' !! v <> m' !! w).
Proof.
  intros Hv Hnd Hne Hb. destruct (sub_spec verts Hv Hnd) as (sub & E & Hp & Hc & Hn). unfold split_block. rewrite E. cbn [mbind res_bind].
  pose proof (Permutation_length Hp) as Hlen. assert (length verts <> 0%nat) by by destruct verts.
  rewrite Hc, Hlen. destruct (Z.eqb_spec (Z.of_nat (length verts)) 0); [lia|].
  set (k2 := Z.max 2 _). assert (2 <= k2) by (unfold k2; lia).
  destruct (kway_spec (salt, b) sub k2) as (local & -> & Hdom & Hrange & Hsplit); [done| |done|done|].
  { intros E0. rewrite E0 in Hlen. cbn in Hlen. lia. }
  cbn [mbind res_bind]. set (f := fun lb => default 0 ((b :: seqZ (mx + 1) (k2 - 1)) !! Z.to_nat lb)).
  assert (Hf : forall lb, 0 <= lb < k2 -> f lb = if decide (lb = 0) then b else mx + lb).
  { intros lb Hlb. unfold f. destruct (decide (lb = 0)) as [->|Hz]; [done|].
    replace (Z.to_nat lb) with (S (Z.to_nat (lb - 1))) by lia. cbn [lookup list_lookup].
    change (default 0 (seqZ (mx + 1) (k2 - 1) !! Z.to_nat (lb - 1)) = mx + lb).
    rewrite (proj2 (lookup_seqZ _ _ _ _)) by (split; [reflexivity|lia]). cbn. lia. }
  eexists _, _. split; [done|]. split; [lia|].
  assert (Hin : forall v, v ∈ verts -> is_Some (local !! v)) by (intros v Hvin; apply Hdom; by rewrite Hp).
  split; [|split].
  - intros v Hnin. by rewrite (assign_fold local m f verts m Hnd Hin), decide_False.
  - intros v Hvin. rewrite (assign_fold local m f verts m Hnd Hin), decide_True by done. destruct (Hin v Hvin) as [lb Hlb].
    rewrite Hlb. cbn. pose proof (Hrange v lb Hlb) as Hlr. exists (f lb). split; [done|]. rewrite Hf by done. case_decide; [by left|right; lia].
  - intros Hs H2. destruct (Hsplit Hs ltac:(lia)) as (v & w & a & c & Ha & Hc' & Hac).
    assert (Hv' : v ∈ verts) by (rewrite <- Hp; apply Hdom; eauto). assert (Hw' : w ∈ verts) by (rewrite <- Hp; apply Hdom; eauto).
    exists v, w. split; [done|]. split; [done|]. rewrite !(assign_fold local m f verts m Hnd Hin), !decide_True by done.
    rewrite Ha, Hc'. cbn. intros [= Ef]. pose proof (Hrange v a Ha). pose proof (Hrange w c Hc'). rewrite !Hf in Ef by done.
    apply Hac. repeat case_decide; lia.
Qed.

(** ** One round *)

(** After the blocks [seen] of [m0] have been split. *)
Record round_ok (m0 m : block_map) (mx0 mx : Z) (seen : list Z) : Prop := {
  rd_max : mx0 <= mx;
  rd_dom : forall v, is_Some (m !! v) <-> is_Some (m0 !! v);
  rd_kept : forall v a c, m0 !! v = Some a -> m !! v = Some c -> c = a \/ (a ∈ seen /\ mx0 < c <= mx);
  rd_fine : forall v w a c x, m0 !! v = Some a -> m0 !! w = Some c -> m !! v = Some x -> m !! w = Some x -> a = c;
  rd_split : splits -> forall b, b ∈ seen ->
    (exists v w, v <> w /\ m0 !! v = Some b /\ m0 !! w = Some b) ->
    exists v w, m0 !! v = Some b /\ m0 !! w = Some b /\ m !! v <> m !! w
}.

Lemma split_round_step W salt m0 m mx0 mx seen b verts :
  (forall v a, m0 !! v = Some a -> 0 <= a <= mx0) -> round_ok m0 m mx0 mx seen -> b ∉ seen -> 0 <= b <= mx0 ->
  valid_vertices verts -> NoDup verts -> verts <> [] -> (forall v, v ∈ verts <-> m0 !! v = Some b) ->
  exists m' mx', split_block g W salt (m, mx) (b, verts) = Ok (m', mx') /\ round_ok m0 m' mx0 mx' (seen ++ [b]).
Proof.
  intros Hm0 [D1 D2 D3 D4 D5] Hbs Hb Hv Hnd Hne Hin.
  destruct (split_block_spec W salt m mx b verts Hv Hnd Hne) as (m' & mx' & E & Hmx & Hout & Hnew & Hsplit); [lia|].
  exists m', mx'. split; [done|].
  assert (Hcase : forall v a c, m0 !! v = Some a -> m' !! v = Some c ->
    (a = b /\ (c = b \/ mx < c <= mx')) \/ (a <> b /\ m !! v = Some c)).
  { intros v a c Ha Hc. destruct (decide (a = b)) as [->|Hab].
    - left. split; [done|]. destruct (Hnew v) as (c' & Hc' & H1); [by apply Hin|]. rewrite Hc in Hc'. injection Hc' as <-. done.
    - right. split; [done|]. rewrite <- Hout; [done|]. rewrite Hin, Ha. congruence. }
  constructor.
  - lia.
  - intros v. rewrite <- D2. destruct (decide (v ∈ verts)) as [Hv'|Hv'].
    + destruct (Hnew v Hv') as (c & -> & _). rewrite D2. rewrite (proj1 (Hin v) Hv'). done.
    + by rewrite Hout.
  - intros v a c Ha Hc. destruct (Hcase v a c Ha Hc) as [[-> [->|H1]]|[Hab Hc']].
    + by left.
    + right. split; [set_solver|lia].
    + destruct (D3 v a c Ha Hc') as [->|[Hs H1]]; [by left|right; split; [set_solver|lia]].
  - intros v w a c x Ha Hc Hx Hy.
    destruct (Hcase v a x Ha Hx) as [[-> H1]|[Hab H1]], (Hcase w c x Hc Hy) as [[-> H2]|[Hcb H2]]; [done|..|].
    + destruct (D3 w c x Hc H2) as [->|[_ H3]]; [pose proof (Hm0 w c Hc)|]; lia.
    + destruct (D3 v a x Ha H1) as [->|[_ H3]]; [pose proof (Hm0 v a Ha)|]; lia.
    + by apply (D4 v w a c x).
  - intros Hs b' [Hb'| ->%list_elem_of_singleton]%elem_of_app Htwo.
    + destruct (D5 Hs b' Hb' Htwo) as (v & w & Ev & Ew & Hvw). exists v, w. split; [done|]. split; [done|].
      assert (b' <> b) by (by intros ->). rewrite !Hout; [done|rewrite Hin, Ew; congruence|rewrite Hin, Ev; congruence].
    + destruct Htwo as (v & w & Hvw & Ev & Ew). destruct (Hsplit Hs) as (x & y & Hx & Hy & Hxy).
      { destruct verts as [|x [|y verts]]; [done| |cbn; lia]. apply Hin in Ev, Ew.
        apply list_elem_of_singleton in Ev, Ew. congruence. }
      exists x, y. split; [by apply Hin|]. split; [by apply Hin|done].
Qed.

Lemma round_spec W salt m0 mx0 l : (forall v a, m0 !! v = Some a -> 0 <= a <= mx0) ->
  forall m mx seen, round_ok m0 m mx0 mx seen -> NoDup (seen ++ l.*1) ->
  Forall (fun q : Z * list Z => 0 <= q.1 <= mx0 /\ valid_vertices q.2 /\ NoDup q.2 /\ q.2 <> [] /\
    forall v, v ∈ q.2 <-> m0 !! v = Some q.1) l ->
  exists m' mx', split_blocks g W salt (m, mx) l = Ok (m', mx') /\ round_ok m0 m' mx0 mx' (seen ++ l.*1).
Proof.
  intros Hm0. induction l as [|[b verts] l IH]; intros m mx seen Hr Hnd Hl.
  { exists m, mx. by rewrite app_nil_r. }
  apply Forall_cons in Hl as [(H1 & H2 & H3 & H4 & H5) Hl]. cbn [fst snd fmap list_fmap] in *.
  assert (Hbs : b ∉ seen) by (intros Hb; apply NoDup_app in Hnd as (_ & Hd & _); apply (Hd b Hb); by left).
  destruct (split_round_step W salt m0 m mx0 mx seen b verts Hm0 Hr Hbs H1 H2 H3 H4 H5) as (m1 & mx1 & E & Hr1).
  cbn [split_blocks]. rewrite E. cbn [mbind res_bind].
  replace (seen ++ b :: l.*1) with ((seen ++ [b]) ++ l.*1) in Hnd |- * by by rewrite <- app_assoc. by apply IH.
Qed.

(** ** The refinement *)

(** A map of all vertices of the graph. *)
Record covers (m : block_map) : Prop := {
  cv_ids : ids_ok m;
  cv_dom : forall v, is_Some (m !! v) <-> is_valid_vertex g v = true
}.

Definition refines (m m0 : block_map) : Prop :=
  forall v w, is_Some (m !! v) -> m !! v = m !! w -> m0 !! v = m0 !! w.

Lemma overweight_spec W salt m q : ids_ok m ->
  q ∈ overweight_blocks g W (collect_blocks salt m).1 <->
    0 <= q.1 <= max_block salt m /\ q.2 = block_vertices salt m q.1 /\ q.2 <> [] /\ W < block_weight_original g q.2.
Proof.
  intros Hok. unfold overweight_blocks. rewrite list_elem_of_filter, collect_blocks_spec by done. cbn [fst].
  rewrite elem_of_lookup_imap. split.
  - intros [[H1 H2] (i & verts & -> & Hi)]. rewrite list_lookup_fmap in Hi. apply fmap_Some in Hi as (b & Hb & ->).
    apply lookup_seqZ in Hb as [-> Hi]. cbn in *. split; [lia|]. split; [by rewrite Z.add_0_l|done].
  - intros (H1 & H2 & H3 & H4). split; [done|]. exists (Z.to_nat q.1), q.2. rewrite Z2Nat.id by lia.
    split; [by destruct q|]. rewrite list_lookup_fmap, (proj2 (lookup_seqZ _ _ _ _)) by (split; [reflexivity|lia]).
    cbn. by rewrite Z2Nat.id, Z.add_0_l, <- H2 by lia.
Qed.

Lemma overweight_nodup W buckets : NoDup (overweight_blocks g W buckets).*1.
Proof.
  unfold overweight_blocks. assert (Hn : NoDup (imap (fun b (verts : list Z) => (Z.of_nat b, verts)) buckets).*1).
  { rewrite fmap_imap. apply NoDup_alt. intros i j x Hi Hj. rewrite !list_lookup_imap in *.
    destruct (buckets !! i); [|done]. destruct (buckets !! j); [|done]. cbn in *. injection Hi as <-. injection Hj as E. lia. }
  revert Hn. generalize (imap (fun b (verts : list Z) => (Z.of_nat b, verts)) buckets). intros l. induction l as [|q l IH]; intros Hn; [constructor|].
  apply NoDup_cons in Hn as [Hq Hn]. rewrite filter_cons. case_decide; [|by apply IH]. apply NoDup_cons. split; [|by apply IH].
  intros Hin. apply Hq. apply list_elem_of_fmap in Hin as (r & E & Hr). apply list_elem_of_filter in Hr as [_ Hr].
  apply list_elem_of_fmap. by exists r.
Qed.

(** A round with overweight blocks. *)
Lemma split_round W salt m over : covers m -> over = overweight_blocks g W (collect_blocks salt m).1 ->
  exists m' mx', split_blocks g W salt (m, max_block salt m) over = Ok (m', mx') /\ covers m' /\ refines m' m /\
    round_ok m m' (max_block salt m) mx' over.*1.
Proof.
  intros [Hok Hdom] ->. destruct (max_block_spec salt m Hok) as [_ Hmax].
  destruct (round_spec W salt m (max_block salt m) (overweight_blocks g W (collect_blocks salt m).1) Hmax m (max_block salt m) []) as (m' & mx' & E & Hr).
  - constructor; [lia|done|..].
    + intros v a c Ha Hc. left. congruence.
    + intros v w a c x Ha Hc Hx Hy. congruence.
    + intros _ b Hb. by apply elem_of_nil in Hb.
  - apply overweight_nodup.
  - apply Forall_forall. intros q Hq. apply overweight_spec in Hq as (H1 & H2 & H3 & H4); [|done].
    split; [done|]. split; [|split; [rewrite H2; apply block_nodup|split; [done|intros v; rewrite H2; apply elem_of_block]]].
    apply Forall_forall. intros v Hv. apply Hdom. rewrite H2, elem_of_block in Hv. by rewrite Hv.
  - exists m', mx'. split; [done|]. cbn [app] in Hr. split; [|split; [|done]].
    + constructor; [|by intros v; rewrite (rd_dom _ _ _ _ _ Hr)]. intros v c Hc.
      destruct (proj1 (rd_dom _ _ _ _ _ Hr v) (mk_is_Some _ _ Hc)) as [a Ha]. destruct (Hmax v a Ha).
      destruct (rd_kept _ _ _ _ _ Hr v a c Ha Hc) as [->|[_ ?]]; lia.
    + intros v w [x Hx] E'. assert (Hy : m' !! w = Some x) by congruence.
      destruct (proj1 (rd_dom _ _ _ _ _ Hr v) (mk_is_Some _ _ Hx)) as [a Ha].
      destruct (proj1 (rd_dom _ _ _ _ _ Hr w) (mk_is_Some _ _ Hy)) as [c Hc].
      rewrite Ha, Hc. f_equal. by apply (rd_fine _ _ _ _ _ Hr v w a c x).
Qed.

Lemma block_weight_sum vs : block_weight_original g vs = foldr (fun v s => node_weight_original g v + s) 0 vs.
Proof.
  unfold block_weight_original. assert (H : forall a, foldl (fun sum v => sum + node_weight_original g v) a vs =
    a + foldr (fun v s => node_weight_original g v + s) 0 vs); [|by rewrite H].
  induction vs as [|v vs IH]; intros a; cbn; [lia|]. rewrite IH. lia.
Qed.

Lemma block_weight_perm vs ws : vs ≡ₚ ws -> block_weight_original g vs = block_weight_original g ws.
Proof. rewrite !block_weight_sum. induction 1; cbn; lia. Qed.

Lemma node_weight_pos v : 1 <= node_weight_original g v.
Proof. unfold node_weight_original. destruct (_ <=? _); lia. Qed.

Lemma block_weight_ge v vs : v ∈ vs -> node_weight_original g v <= block_weight_original g vs.
Proof.
  rewrite block_weight_sum. induction vs as [|w vs IH]; [by intros ?%elem_of_nil|]. cbn [foldr]. pose proof (node_weight_pos w).
  assert (0 <= foldr (fun v s => node_weight_original g v + s) 0 vs).
  { clear. induction vs as [|u vs IH]; cbn; [lia|]. pose proof (node_weight_pos u). lia. }
  intros [->|Hv]%elem_of_cons; [lia|]. specialize (IH Hv). lia.
Qed.

(** Every block within the bound. *)
Definition within (W : Z) (m : block_map) : Prop :=
  forall vs b, NoDup vs -> (forall v, v ∈ vs -> m !! v = Some b) -> block_weight_original g vs <= W.

Lemma not_overweight_within W salt m : 0 <= W -> ids_ok m -> overweight_blocks g W (collect_blocks salt m).1 = [] -> within W m.
Proof.
  intros HW Hok E vs b Hnd Hvs. destruct vs as [|u vs'] eqn:Evs; [done|]. rewrite <- Evs in *.
  assert (Hu : m !! u = Some b) by (apply Hvs; rewrite Evs; by left).
  assert (Hsub : block_weight_original g vs <= block_weight_original g (block_vertices salt m b)).
  { assert (vs ⊆+ block_vertices salt m b) as Hsub.
    { apply NoDup_submseteq; [done|]. intros v Hv. apply elem_of_block. by apply Hvs. }
    apply submseteq_Permutation in Hsub as [k Hk]. rewrite (block_weight_perm _ _ Hk), !block_weight_sum, foldr_app.
    assert (Hk0 : 0 <= foldr (fun v s => node_weight_original g v + s) 0 k).
    { clear. induction k as [|x k IH]; cbn; [lia|]. pose proof (node_weight_pos x). lia. }
    revert Hk0. generalize (foldr (fun v s => node_weight_original g v + s) 0 k). clear. intros z Hz.
    induction vs as [|x vs IH]; cbn; lia. }
  destruct (decide (block_weight_original g (block_vertices salt m b) <= W)); [lia|].
  assert (Hin : (b, block_vertices salt m b) ∈ overweight_blocks g W (collect_blocks salt m).1).
  { apply overweight_spec; [done|]. cbn [fst snd]. split; [by apply (max_block_spec salt m Hok) in Hu|]. split; [done|]. split; [|lia].
    intros E0. apply elem_of_block with (salt := salt) in Hu. rewrite E0 in Hu. by apply elem_of_nil in Hu. }
  rewrite E in Hin. by apply elem_of_nil in Hin.
Qed.

Lemma refine_step fuel W salt m :
  refine_blocks (S fuel) g W salt m =
    match overweight_blocks g W (collect_blocks salt m).1 with
    | [] => Some (Ok m)
    | over => match split_blocks g W salt (m, (collect_blocks salt m).2) over with
              | Ok (m, _) => refine_blocks fuel g W (S salt) m
              | Throw e => Some (Throw e)
              end
    end.
Proof. cbn [refine_blocks]. by destruct (collect_blocks salt m) as [buckets max_bid]. Qed.

Lemma collect_max salt m : ids_ok m -> (collect_blocks salt m).2 = max_block salt m.
Proof. intros Hok. by rewrite collect_blocks_spec. Qed.

(** When the refinement ends, no block is over the bound. *)
Lemma refine_sound W fuel : 0 <= W -> forall salt m r, covers m -> refine_blocks fuel g W salt m = Some r ->
  exists m', r = Ok m' /\ covers m' /\ refines m' m /\ within W m'.
Proof.
  intros HW. induction fuel as [|fuel IH]; intros salt m r Hm E; [done|]. rewrite refine_step, collect_max in E by apply Hm.
  destruct (overweight_blocks g W (collect_blocks salt m).1) as [|q over] eqn:Eo.
  - injection E as <-. exists m. split; [done|]. split; [done|]. split; [by intros v w _ Evw|]. apply (not_overweight_within W salt); [done|apply Hm|done].
  - destruct (split_round W salt m (q :: over) Hm) as (m1 & mx1 & E1 & Hm1 & Hr1 & _); [done|]. rewrite E1 in E.
    destruct (IH _ _ _ Hm1 E) as (m' & -> & Hm' & Hr' & Hw). exists m'. split; [done|]. split; [done|]. split; [|exact Hw].
    intros v w Hv Evw. apply Hr1; [|by apply Hr'].
    apply (cv_dom _ Hm1), (cv_dom _ Hm'), Hv.
Qed.

(** A vertex that outweighs a block is never placed: the loop does not end. *)
Lemma refine_stuck W v fuel : is_valid_vertex g v = true -> W < node_weight_original g v ->
  forall salt m, covers m -> refine_blocks fuel g W salt m = None.
Proof.
  intros Hv HW. induction fuel as [|fuel IH]; intros salt m Hm; [done|]. rewrite refine_step, collect_max by apply Hm.
  destruct (proj2 (cv_dom _ Hm v) Hv) as [b Hb].
  assert (Hin : (b, block_vertices salt m b) ∈ overweight_blocks g W (collect_blocks salt m).1).
  { apply overweight_spec; [apply Hm|]. cbn [fst snd]. assert (Hvb : v ∈ block_vertices salt m b) by by apply elem_of_block.
    split; [by apply (max_block_spec salt m (cv_ids _ Hm)) in Hb|]. split; [done|]. split.
    - intros E0. rewrite E0 in Hvb. by apply elem_of_nil in Hvb.
    - pose proof (block_weight_ge v _ Hvb). lia. }
  destruct (overweight_blocks g W (collect_blocks salt m).1) as [|q over] eqn:Eo; [by apply elem_of_nil in Hin|].
  destruct (split_round W salt m (q :: over) Hm) as (m1 & mx1 & -> & Hm1 & _); [done|]. by apply IH.
Qed.

(** ** Progress *)

(** The pairs of vertices in one block. *)
Definition same_block (m : block_map) : gset (Z * Z) :=
  list_to_set (filter (fun p => m !! p.1 = m !! p.2) (list_prod (com_vertex_list g) (com_vertex_list g))).

Lemma elem_of_same_block m v w : covers m -> (v, w) ∈ same_block m <-> is_Some (m !! v) /\ m !! v = m !! w.
Proof.
  intros Hm. unfold same_block. rewrite elem_of_list_to_set, list_elem_of_filter. cbn [fst snd].
  rewrite list_elem_of_In, in_prod_iff, <- !list_elem_of_In.
  assert (Hl : forall x, x ∈ com_vertex_list g <-> is_Some (m !! x)).
  { intros x. rewrite (cv_dom _ Hm). unfold com_vertex_list, is_valid_vertex. rewrite elem_of_seqZ, andb_true_iff, Z.leb_le, Z.ltb_lt. lia. }
  rewrite !Hl. split; [tauto|]. intros [Hv E]. split; [done|]. split; [done|]. by rewrite <- E.
Qed.

Lemma list_to_set_size (l : list (Z * Z)) : (size (list_to_set l : gset (Z * Z)) <= length l)%nat.
Proof.
  induction l as [|p l IH]; [done|]. rewrite list_to_set_cons. cbn [length].
  rewrite size_union_alt, size_singleton. assert (size ((list_to_set l : gset (Z * Z)) ∖ {[p]}) <= size (list_to_set l : gset (Z * Z)))%nat
    by (apply subseteq_size; set_solver). lia.
Qed.

Lemma same_block_size m : (size (same_block m) <= num_vertices g * num_vertices g)%nat.
Proof.
  unfold same_block. etransitivity; [apply list_to_set_size|]. etransitivity; [apply length_filter|].
  rewrite length_prod. unfold com_vertex_list. rewrite length_seqZ, Nat2Z.id. done.
Qed.

Lemma round_progress W salt m m' mx' q over : splits -> 0 <= W ->
  (forall v, is_valid_vertex g v = true -> node_weight_original g v <= W) ->
  covers m -> covers m' -> q :: over = overweight_blocks g W (collect_blocks salt m).1 -> refines m' m ->
  round_ok m m' (max_block salt m) mx' (q :: over).*1 -> (size (same_block m') < size (same_block m))%nat.
Proof.
  intros Hs HW Hw Hm Hm' Eo Hr Hrd. apply subset_size.
  assert (Hq : q ∈ overweight_blocks g W (collect_blocks salt m).1) by (rewrite <- Eo; by left).
  apply overweight_spec in Hq as (H1 & H2 & H3 & H4); [|apply Hm].
  assert (Htwo : exists v w, v <> w /\ m !! v = Some q.1 /\ m !! w = Some q.1).
  { pose proof (block_nodup salt m q.1) as Hnd. rewrite <- H2 in Hnd. destruct q.2 as [|v [|w vs]] eqn:Eq; [done| |].
    - assert (Hv : m !! v = Some q.1) by (apply (elem_of_block salt); rewrite <- H2; by left).
      specialize (Hw v (proj1 (cv_dom _ Hm v) (mk_is_Some _ _ Hv))). rewrite block_weight_sum in H4. cbn in H4. lia.
    - exists v, w. apply NoDup_cons in Hnd as [Hv _]. split; [intros ->; apply Hv; by left|].
      split; apply (elem_of_block salt); rewrite <- H2; [by left|right; by left]. }
  destruct (rd_split _ _ _ _ _ Hrd Hs q.1) as (v & w & Ev & Ew & Hne); [by left|done|].
  split.
  - intros [x y] Hxy. apply (elem_of_same_block m') in Hxy as [Hx E]; [|done]. apply elem_of_same_block; [done|].
    split; [by apply (cv_dom _ Hm), (cv_dom _ Hm')|by apply Hr].
  - intros Hsub. apply Hne. assert (Hin : (v, w) ∈ same_block m) by (apply elem_of_same_block; [done|]; rewrite Ev, Ew; eauto).
    apply Hsub in Hin. by apply elem_of_same_block in Hin as [_ ?].
Qed.

(** If every vertex fits a block and the partitioner splits, it ends. *)
Lemma refine_ends W fuel : splits -> 0 <= W -> (forall v, is_valid_vertex g v = true -> node_weight_original g v <= W) ->
  forall salt m, covers m -> (size (same_block m) < fuel)%nat -> is_Some (refine_blocks fuel g W salt m).
Proof.
  intros Hs HW Hw. induction fuel as [|fuel IH]; intros salt m Hm Hf; [lia|]. rewrite refine_step, collect_max by apply Hm.
  destruct (overweight_blocks g W (collect_blocks salt m).1) as [|q over] eqn:Eo; [by eexists|].
  destruct (split_round W salt m (q :: over) Hm) as (m1 & mx1 & -> & Hm1 & Hr1 & Hrd); [done|]. apply IH; [done|].
  pose proof (round_progress W salt m m1 mx1 q over Hs HW Hw Hm Hm1 (eq_sym Eo) Hr1 Hrd). lia.
Qed.

(** ** The parts *)

Definition part_of (m : block_map) (v : Z) : Z := default 0 (m !! v).

Lemma filter_bands {X} (f : X -> Z) (l : list X) (B : nat) : (forall x, x ∈ l -> 0 <= f x < Z.of_nat B) ->
  mjoin ((fun k => filter (fun x => f x = k) l) <$> seqZ 0 (Z.of_nat B)) ≡ₚ l.
Proof.
  assert (H : forall B, mjoin ((fun k => filter (fun x => f x = k) l) <$> seqZ 0 (Z.of_nat B)) ≡ₚ filter (fun x => 0 <= f x < Z.of_nat B) l).
  { clear B. intros B. induction B as [|B IH].
    - assert (E0 : filter (fun x => 0 <= f x < Z.of_nat 0) l = []); [|by rewrite E0].
      induction l as [|x l IH]; [done|]. rewrite filter_cons, decide_False by lia. exact IH.
    - rewrite Nat2Z.inj_succ, <- Z.add_1_r, seqZ_app, fmap_app, join_app, IH by lia.
      change (seqZ (0 + Z.of_nat B) 1) with [0 + (0 + Z.of_nat B)]. cbn [fmap list_fmap mjoin list_join]. rewrite app_nil_r, !Z.add_0_l. clear IH.
      induction l as [|x l IH]; [done|]. rewrite !filter_cons. destruct (decide (f x = Z.of_nat B)) as [E|E].
      + rewrite decide_False by lia. rewrite decide_True by lia. rewrite <- Permutation_middle. by constructor.
      + destruct (decide (0 <= f x < Z.of_nat B)) as [Hr|Hr].
        * rewrite decide_True by lia. by constructor.
        * by rewrite decide_False by lia. }
  intros Hl. rewrite H. clear H.
  assert (E0 : filter (fun x => 0 <= f x < Z.of_nat B) l = l); [|by rewrite E0].
  induction l as [|x l IH]; [done|]. rewrite filter_cons, decide_True by (apply Hl; by left).
  f_equal. apply IH. intros y Hy. apply Hl. by right.
Qed.

Lemma group_parts_spec salt n m : ids_ok m ->
  group_parts salt n m = (fun k => filter (fun v => part_of m v = k) (seqZ 0 n)) <$> seqZ 0 (max_block salt m + 1).
Proof.
  intros Hok. unfold group_parts. destruct (max_block_spec salt m Hok) as [Hm Hle].
  assert (E : forall l (b : list (list Z)), foldl (fun g_part i => alter (fun l => l ++ [i]) (Z.to_nat (default 0 (m !! i))) g_part) b l =
    foldl (fun b q => alter (fun l => l ++ [q.1]) (Z.to_nat q.2) b) b ((fun i => (i, part_of m i)) <$> l)).
  { intros l. induction l as [|i l IH]; intros b; cbn [foldl fmap list_fmap]; [done|]. by rewrite IH. }
  rewrite E. apply list_eq. intros k. destruct (decide (k < Z.to_nat (max_block salt m + 1))%nat) as [Hk|Hk].
  - rewrite bucket_fold; [|by rewrite length_replicate|].
    + rewrite lookup_replicate_2 by done. cbn [fmap option_fmap option_map app].
      rewrite list_lookup_fmap, (proj2 (lookup_seqZ _ _ _ _)) by (split; [reflexivity|lia]). cbn [fmap option_fmap option_map]. f_equal.
      generalize (seqZ 0 n). intros l. induction l as [|i l IH]; [done|]. cbn [fmap list_fmap]. rewrite !filter_cons. cbn [snd].
      rewrite Z.add_0_l in *. case_decide; [cbn [fmap list_fmap]; by f_equal|done].
    + apply Forall_fmap, Forall_forall. intros i _. cbn. unfold part_of. destruct (m !! i) as [b|] eqn:Eb; cbn; [|lia].
      by apply (Hle i b).
  - rewrite !lookup_ge_None_2; [done|rewrite length_fmap, length_seqZ; lia|rewrite length_bucket_fold, length_replicate; lia].
Qed.

(** A partition of the vertices: every vertex in exactly one part, no part
    empty unless the graph is, the vertices of a part in ascending order. *)
Definition is_partition (parts : list (list Z)) : Prop :=
  mjoin parts ≡ₚ com_vertex_list g /\ (num_vertices g <> 0%nat -> Forall (fun p => p <> []) parts) /\
  Forall (StronglySorted Z.lt) parts.

Lemma seqZ_ascending n : StronglySorted Z.lt (seqZ 0 n).
Proof.
  assert (H : forall a (k : nat), StronglySorted Z.lt (seqZ a (Z.of_nat k))).
  { intros a k. revert a. induction k as [|k IH]; intros a; [constructor|]. rewrite seqZ_cons by lia.
    replace (Z.pred (Z.of_nat (S k))) with (Z.of_nat k) by lia. constructor; [apply IH|].
    apply Forall_forall. intros x Hx. apply elem_of_seqZ in Hx. lia. }
  destruct (Z.leb_spec 0 n) as [Hn|Hn]; [rewrite <- (Z2Nat.id n) by lia; apply H|]. rewrite seqZ_nil by lia. constructor.
Qed.

Lemma filter_ascending (P : Z -> Prop) `{!forall x, Decision (P x)} l : StronglySorted Z.lt l -> StronglySorted Z.lt (filter P l).
Proof.
  induction 1 as [|x l Hl IH Hx]; [constructor|]. rewrite filter_cons. case_decide; [|done]. constructor; [done|].
  apply Forall_forall. intros y Hy. apply list_elem_of_filter in Hy as [_ Hy]. rewrite Forall_forall in Hx. by apply Hx.
Qed.

(** The renumbered map covers the graph with the same classes and no gap. *)
Lemma compress_covers salt m : covers m -> Z.of_nat (num_vertices g) < SIZE_MAX ->
  let m' := compress_block_ids salt m in
  covers m' /\ refines m' m /\
  (num_vertices g <> 0%nat -> forall k, 0 <= k <= max_block salt m' -> exists v, m' !! v = Some k).
Proof.
  intros Hm Hn m'.
  assert (Hdom : forall v, is_valid_vertex g v = true <-> v ∈ com_vertex_list g).
  { intros v. unfold com_vertex_list, is_valid_vertex. rewrite elem_of_seqZ, andb_true_iff, Z.leb_le, Z.ltb_lt. lia. }
  assert (Hsize : size m = num_vertices g).
  { rewrite <- (size_dom (D := gset Z)). transitivity (size (list_to_set (com_vertex_list g) : gset Z)).
    - f_equal. apply set_eq. intros v. by rewrite elem_of_dom, (cv_dom _ Hm), elem_of_list_to_set, Hdom.
    - rewrite size_list_to_set by apply NoDup_seqZ. unfold com_vertex_list. by rewrite length_seqZ, Nat2Z.id. }
  destruct (compress_spec salt m (cv_ids _ Hm)) as (rank & B & Ec & Hinj & Honto); [lia|]. fold m' in Ec.
  assert (Hl : forall v, m' !! v = rank <$> (m !! v)) by (intros v; by rewrite Ec, lookup_fmap).
  assert (Hok : ids_ok m').
  { intros v b Hb. rewrite Hl in Hb. apply fmap_Some in Hb as (a & Ha & ->). assert (0 <= rank a < B) by (apply Honto; eauto). lia. }
  split; [|split].
  - constructor; [done|]. intros v. by rewrite Hl, fmap_is_Some, (cv_dom _ Hm).
  - intros v w [x Hx] E. pose proof Hx as Hy. rewrite E in Hy. rewrite Hl in Hx, Hy.
    apply fmap_Some in Hx as (a & Ha & ->), Hy as (b & Hb & Eb). rewrite Ha, Hb. f_equal. by apply (Hinj v w).
  - intros Hne k Hk. assert (Hme : m' <> ∅).
    { intros E0. assert (H0 : is_Some (m' !! 0)).
      { rewrite Hl, fmap_is_Some, (cv_dom _ Hm), Hdom. apply elem_of_seqZ. lia. }
      rewrite E0, lookup_empty in H0. by destruct H0. }
    destruct (max_block_attained salt _ Hme Hok) as (u & Hu). rewrite Hl in Hu. apply fmap_Some in Hu as (a & Ha & Eu).
    assert (Hb : 0 <= rank a < B) by (apply Honto; eauto). rewrite <- Eu in Hb.
    destruct (proj1 (Honto k) ltac:(lia)) as (v & b & Hb' & <-). exists v. by rewrite Hl, Hb'.
Qed.

Lemma compressed_parts salt m : covers m -> Z.of_nat (num_vertices g) < SIZE_MAX ->
  let parts := group_parts salt (com_vertex_count g) (compress_block_ids salt m) in
  is_partition parts /\ forall W, 0 <= W -> within W m -> Forall (fun p => block_weight_original g p <= W) parts.
Proof.
  intros Hm Hn parts. destruct (compress_covers salt m Hm Hn) as ([Hok Hdom] & Href & Honto).
  destruct (max_block_spec salt _ Hok) as [Hmx Hle].
  assert (Hv : forall v, v ∈ com_vertex_list g -> is_Some (compress_block_ids salt m !! v)).
  { intros v Hv. apply Hdom. unfold com_vertex_list in Hv. apply elem_of_seqZ in Hv.
    unfold is_valid_vertex. rewrite andb_true_iff, Z.leb_le, Z.ltb_lt. lia. }
  assert (Eparts : parts = (fun k => filter (fun v => part_of (compress_block_ids salt m) v = k) (com_vertex_list g)) <$>
      seqZ 0 (Z.of_nat (Z.to_nat (max_block salt (compress_block_ids salt m) + 1)))).
  { unfold parts. rewrite group_parts_spec by done. rewrite Z2Nat.id by lia. done. }
  split.
  - split; [|split].
    + rewrite Eparts. apply filter_bands. intros v Hin. destruct (Hv v Hin) as [r Hr]. unfold part_of. rewrite Hr. cbn.
      pose proof (Hle v _ Hr). lia.
    + intros Hne. rewrite Eparts. apply Forall_fmap, Forall_forall. intros k Hk. apply elem_of_seqZ in Hk. cbn.
      destruct (Honto Hne k ltac:(lia)) as [v Hk'].
      assert (Hin : v ∈ filter (fun v => part_of (compress_block_ids salt m) v = k) (com_vertex_list g)).
      { apply list_elem_of_filter. split; [unfold part_of; by rewrite Hk'|].
        pose proof (proj1 (Hdom v) (mk_is_Some _ _ Hk')) as Hvv.
        unfold is_valid_vertex in Hvv. rewrite andb_true_iff, Z.leb_le, Z.ltb_lt in Hvv. apply elem_of_seqZ. lia. }
      intros E0. rewrite E0 in Hin. by apply elem_of_nil in Hin.
    + rewrite Eparts. apply Forall_fmap, Forall_forall. intros k _. apply filter_ascending, seqZ_ascending.
  - intros W HW Hw. rewrite Eparts. apply Forall_fmap, Forall_forall. intros k _. cbn.
    set (p := filter _ _). destruct p as [|u p'] eqn:Ep; [done|]. rewrite <- Ep.
    assert (Hu : u ∈ p) by (rewrite Ep; by left). unfold p in Hu. apply list_elem_of_filter in Hu as [Eu Hu].
    destruct (Hv u Hu) as [x Hx].
    assert (Hmu : is_Some (m !! u)) by (apply (cv_dom _ Hm), Hdom; by rewrite Hx). destruct Hmu as [a Ha].
    apply (Hw p a); [apply NoDup_filter, NoDup_seqZ|]. intros v Hin. unfold p in Hin. apply list_elem_of_filter in Hin as [Evk Hin].
    destruct (Hv v Hin) as [y Hy]. rewrite <- Ha. apply Href; [by rewrite Hy|]. unfold part_of in *. rewrite Hx in Eu. rewrite Hy in Evk.
    cbn in *. congruence.
Qed.

(** ** The whole computation *)

Definition partitions_asked (unit_giants edge_weight : bool) (W : Z) : Z :=
  (foldl Z.add 0 (input_weights unit_giants edge_weight g) + W - 1) `div` W.

Definition first_blocks (unit_giants edge_weight : bool) (W threads : Z) : block_map :=
  let weights := input_weights unit_giants edge_weight g in
  let num_partitions := u32 (partitions_asked unit_giants edge_weight W) in
  list_to_map (zip (com_vertex_list g) (compute_partition (0%nat, 0)
    (PartitionInput threads (Z.of_nat <$> offsets g) (neighbor_list g) weights num_partitions
       (Some (replicate (Z.to_nat num_partitions) W))))).

(** The asked number of blocks fits KaMinPar's identifiers. *)
Definition askable (unit_giants edge_weight : bool) (W : Z) : Prop := 0 < partitions_asked unit_giants edge_weight W < 2 ^ 32.

Lemma first_covers unit_giants edge_weight W threads :
  askable unit_giants edge_weight W -> covers (first_blocks unit_giants edge_weight W threads).
Proof.
  intros Hask. unfold first_blocks. rewrite wrap_small by (unfold askable, in_width in *; lia).
  set (i := PartitionInput _ _ _ _ _ _). set (part := compute_partition _ i).
  assert (Hlen : length part = length (com_vertex_list g)).
  { unfold part. rewrite compute_partition_length. cbn. unfold input_weights, com_vertex_list. by rewrite length_fmap, length_seq, length_seqZ, Nat2Z.id. }
  pose proof (compute_partition_range (0%nat, 0) i ltac:(cbn; unfold askable in Hask; lia)) as Hr. fold part in Hr.
  assert (Hl : forall v b, list_to_map (M := gmap Z Z) (zip (com_vertex_list g) part) !! v = Some b <-> exists j, com_vertex_list g !! j = Some v /\ part !! j = Some b).
  { intros v b. rewrite <- elem_of_list_to_map by (rewrite fst_zip by lia; apply NoDup_seqZ). rewrite list_elem_of_lookup.
    setoid_rewrite lookup_zip_Some. done. }
  constructor.
  - intros v b Hb. apply Hl in Hb as (j & _ & Hj). pose proof (Forall_lookup_1 _ _ _ _ Hr Hj) as H1. cbn beta in H1. lia.
  - intros v. assert (Hv : is_valid_vertex g v = true <-> v ∈ com_vertex_list g).
    { unfold com_vertex_list, is_valid_vertex. rewrite elem_of_seqZ, andb_true_iff, Z.leb_le, Z.ltb_lt. lia. }
    rewrite Hv. split.
    + intros [b Hb]. apply Hl in Hb as (j & Hj & _). by eapply list_elem_of_lookup_2.
    + intros Hin. apply list_elem_of_lookup in Hin as [j Hj]. destruct (lookup_lt_is_Some_2 part j) as [b Hb]; [rewrite Hlen; by eapply lookup_lt_Some|].
      exists b. apply Hl. eauto.
Qed.

Lemma partition_graph_eq unit_giants fuel salt W edge_weight refine threads : 0 < W -> num_vertices g <> 0%nat ->
  partition_graph unit_giants fuel salt g W edge_weight refine threads =
    match (if refine then refine_blocks fuel g W salt (first_blocks unit_giants edge_weight W threads)
           else Some (Ok (first_blocks unit_giants edge_weight W threads))) with
    | Some (Ok m) => Some (Ok (compress_block_ids salt m))
    | r => r
    end.
Proof.
  intros HW Hn. unfold partition_graph. destruct (Z.eqb_spec W 0); [lia|]. rewrite bool_decide_eq_false_2; [done|].
  intros E. apply (f_equal length) in E. unfold com_vertex_list in E. rewrite length_seqZ, Nat2Z.id in E. done.
Qed.

(** C33: the refined partition.  If every vertex fits a block by its weight
    (one more than its degree, one for a giant vertex) and the partitioner
    splits what it is asked to split, the refinement ends, within as many
    rounds as there are pairs of vertices plus one, and returns a partition of
    the vertices, in ascending parts none of which is empty, whose weights
    are all within the bound, whatever blocks the partitioner chooses and
    in whatever order the hash maps are iterated. *)
Theorem partition_within_bound W threads fuel salt :
  0 < W -> (0 < num_vertices g)%nat -> Z.of_nat (num_vertices g) < SIZE_MAX -> askable true true W -> splits ->
  (forall v, is_valid_vertex g v = true -> node_weight_original g v <= W) ->
  (num_vertices g * num_vertices g < fuel)%nat ->
  exists parts, compute_absolute_weight_graph_partition fuel salt g W threads = Some (Ok parts) /\
    is_partition parts /\ Forall (fun p => block_weight_original g p <= W) parts.
Proof.
  intros HW Hn Hmax Hask Hs Hw Hf. pose proof (first_covers true true W threads Hask) as Hc.
  destruct (refine_ends W fuel Hs ltac:(lia) Hw salt _ Hc) as [r Hr]; [pose proof (same_block_size (first_blocks true true W threads)); lia|].
  destruct (refine_sound W fuel ltac:(lia) salt _ r Hc Hr) as (m & -> & Hm & _ & Hin).
  unfold compute_absolute_weight_graph_partition, absolute_weight_graph_partition. rewrite partition_graph_eq, Hr by lia.
  cbn [mbind option_bind res_bind]. eexists. split; [done|]. destruct (compressed_parts salt m Hm Hmax) as [H1 H2].
  split; [done|]. apply H2; [lia|done].
Qed.

(** C34: a vertex that outweighs a block keeps the refinement from ending:
    whatever the partitioner does, the loop splits its block again and again,
    and no number of rounds is enough. *)
Theorem oversized_vertex_never_ends W threads fuel salt v :
  0 < W -> askable true true W -> is_valid_vertex g v = true -> W < node_weight_original g v ->
  compute_absolute_weight_graph_partition fuel salt g W threads = None.
Proof.
  intros HW Hask Hv Hvw. unfold compute_absolute_weight_graph_partition, absolute_weight_graph_partition.
  rewrite partition_graph_eq, (refine_stuck W v fuel Hv Hvw _ _ (first_covers true true W threads Hask)); [done|done|].
  unfold is_valid_vertex in Hv. rewrite andb_true_iff, Z.leb_le, Z.ltb_lt in Hv. lia.
Qed.

(** Without the refinement: a partition, whatever the weights of its parts. *)
Theorem partition_non_giant W threads fuel salt :
  0 < W -> (0 < num_vertices g)%nat -> Z.of_nat (num_vertices g) < SIZE_MAX -> askable false true W ->
  exists parts, compute_absolute_weight_graph_partition_non_giant fuel salt g W threads = Some (Ok parts) /\ is_partition parts.
Proof.
  intros HW Hn Hmax Hask. pose proof (first_covers false true W threads Hask) as Hc.
  unfold compute_absolute_weight_graph_partition_non_giant, absolute_weight_graph_partition_non_giant.
  rewrite partition_graph_eq by lia. cbn [mbind option_bind res_bind]. eexists. split; [done|].
  by apply (compressed_parts salt (first_blocks false true W threads) Hc Hmax).
Qed.

End Partitioning.
End Partition.
