(* ===== verification/PartitionMap.v ===== *)
(** * Partitioning graphs over any identifiers ([part/partition.h])

    Graphs given as maps (of vertices or of pages) are renumbered to the
    contiguous graph, partitioned there, and the blocks mapped back.  The
    file also has the induced subgraphs of a part and the undirected graph
    [pre_partition_handle] makes of a directed one. *)

From S2P Require Import Prelude Config CsrPage Reorder Smo MemGraph MapGraph ComGraph Partition.

Local Open Scope Z_scope.

Module PartitionMap.
Import MemGraph MapGraph ComGraph Partition.

(** ** Renumbering *)

Definition orig2csr (nodes : list Z) : gmap Z Z := list_to_map (imap (fun i v => (v, Z.of_nat i)) nodes).

(** The neighbours that are nodes, by their new numbers. *)
Definition inside (nodes : list Z) (neighs : Z -> list Z) (v : Z) : list Z := omap (fun nb => orig2csr nodes !! nb) (neighs v).

Definition append_node (nodes : list Z) (neighs : Z -> list Z) (st : list nat * list Z) (v : Z) : list nat * list Z :=
  let '(offsets, neighbor_list) := st in
  (offsets ++ [length neighbor_list], neighbor_list ++ inside nodes neighs v).

Definition contiguous (nodes : list Z) (neighs : Z -> list Z) : mem_sub_com_t :=
  let '(offsets, neighbor_list) := foldl (append_node nodes neighs) ([], []) nodes in
  com_of_arrays (offsets ++ [length neighbor_list]) neighbor_list [].

Definition get_neighbor_pages (graph : gmap Z (list Z)) (page : Z) : list Z := default [] (graph !! page).

Definition get_neighbor (graph : gmap Z (list Z)) (page : Z) : list Z := default [] (graph !! page).

Section Maps.
Context {cfg : Config} {KM : KaMinPar} {MO : MapOrder}.

(** The overload for [mem_sub_map_t]; [at] throws when there is no entry. *)
Fixpoint blocks_at (csr_partition : gmap Z Z) (i : Z) (nodes : list Z) : res (list (Z * Z)) :=
  match nodes with
  | [] => Ok []
  | v :: nodes =>
    match csr_partition !! i with
    | None => Throw logic_error
    | Some b => l ← blocks_at csr_partition (i + 1) nodes; Ok ((v, b) :: l)
    end
  end.

Definition absolute_weight_graph_partition_map (fuel salt : nat) (g : mem_sub_map_t) (max_block_weight : Z) :
    option (res (gmap Z Z)) :=
  if max_block_weight =? 0 then Some (Throw invalid_argument)
  else
    let all_nodes := map_vertex_list g in
    if bool_decide (all_nodes = []) then Some (Ok ∅)
    else
      csr_partition ← absolute_weight_graph_partition fuel salt (contiguous all_nodes (map_get_neighbors g)) max_block_weight true true 10;
      Some (csr_partition ← csr_partition; l ← blocks_at csr_partition 0 all_nodes; Ok (list_to_map l)).

(** Both directions of the result, in the order the hash map is iterated in. *)
Definition original (csr2orig : list Z) (csr_id : Z) : Z := default 0 (csr2orig !! Z.to_nat csr_id).

Definition block_of_map (salt : nat) (csr2orig : list Z) (csr_partition : gmap Z Z) : gmap Z Z :=
  foldl (fun m q => <[original csr2orig q.1 := q.2]> m) ∅ (map_order salt csr_partition).

Definition block_of_vec (salt : nat) (csr2orig : list Z) (csr_partition : gmap Z Z) : list (list Z) :=
  foldl (fun buckets q => alter (fun l => l ++ [original csr2orig q.1]) (Z.to_nat q.2) buckets)
    (replicate (Z.to_nat (max_block salt csr_partition + 1)) []) (map_order salt csr_partition).

Definition absolute_weight_block_partition (salt : nat) (graph : gmap Z (list Z)) (max_block_weight : Z) :
    option (res (list (list Z) * gmap Z Z)) :=
  if max_block_weight =? 0 then Some (Throw invalid_argument)
  else if bool_decide (graph = ∅) then Some (Ok ([], ∅))
  else
    let nodes := (map_order salt graph).*1 in
    csr_partition ← absolute_weight_graph_partition 0 salt (contiguous nodes (get_neighbor_pages graph)) max_block_weight false false 10;
    Some (csr_partition ← csr_partition;
          Ok (block_of_vec salt nodes csr_partition, block_of_map salt nodes csr_partition)).

Definition absolute_weight_partition (fuel salt : nat) (graph : gmap Z (list Z)) (max_block_weight : Z)
    (enable_edge_weight refine : bool) (threads : Z) : option (res (list (list Z))) :=
  if max_block_weight =? 0 then Some (Throw invalid_argument)
  else if bool_decide (graph = ∅) then Some (Ok [])
  else
    let nodes := (map_order salt graph).*1 in
    csr_partition ← absolute_weight_graph_partition fuel salt (contiguous nodes (get_neighbor graph)) max_block_weight
                      enable_edge_weight refine threads;
    Some (csr_partition ← csr_partition; Ok (block_of_vec salt nodes csr_partition)).

(** ** Induced subgraphs *)

Definition induced_subgraph (graph : gmap Z (list Z)) (vertices : list Z) (filtered : bool) : gmap Z (list Z) :=
  let subgraph : gmap Z (list Z) := foldl (fun s v => match s !! v with Some _ => s | None => <[v := []]> s end) ∅ vertices in
  foldl (fun s v =>
    foldl (fun s nb => if negb filtered || bool_decide (is_Some (s !! nb)) then alter (fun l => l ++ [nb]) v s else s)
      s (get_neighbor graph v)) subgraph vertices.

Definition induced_block_subgraph (block_graph : gmap Z (list Z)) (block : list Z) : gmap Z (list Z) :=
  let subgraph : gmap Z (list Z) := foldl (fun s v => match s !! v with Some _ => s | None => <[v := []]> s end) ∅ block in
  foldl (fun s v =>
    foldl (fun s nb => if bool_decide (is_Some (s !! nb)) then alter (fun l => l ++ [nb]) v s else s)
      s (get_neighbor_pages block_graph v)) subgraph block.

(** ** Made undirected *)

Definition symmetric_edge (vertex : Z) (temp_graph : gmap Z (gset Z)) (neighbor : Z) : gmap Z (gset Z) :=
  if decide (neighbor = vertex) then temp_graph
  else
    let temp_graph := <[vertex := {[neighbor]} ∪ default ∅ (temp_graph !! vertex)]> temp_graph in
    let temp_graph := match temp_graph !! neighbor with Some _ => temp_graph | None => <[neighbor := ∅]> temp_graph end in
    <[neighbor := {[vertex]} ∪ default ∅ (temp_graph !! neighbor)]> temp_graph.

(** The sets become lists in the order of the hash set. *)
Definition pre_partition_handle `{!SetOrder} (salt : nat) (old_graph : gmap Z (list Z)) : gmap Z (list Z) :=
  let temp_graph : gmap Z (gset Z) := foldl (fun t q => match t !! q.1 with Some _ => t | None => <[q.1 := ∅]> t end) ∅ (map_order salt old_graph) in
  let temp_graph := foldl (fun t q => foldl (symmetric_edge q.1) t q.2) temp_graph (map_order salt old_graph) in
  set_order salt <$> temp_graph.

(** ** The blocks of a graph of pages *)

Lemma contiguous_count nodes neighs : num_vertices (contiguous nodes neighs) = length nodes.
Proof.
  unfold contiguous. destruct (foldl (append_node nodes neighs) ([], []) nodes) as [offs nl] eqn:E.
  cbn [com_of_arrays num_vertices]. rewrite length_app. cbn [length].
  assert (H : forall l offs0 nl0, length (foldl (append_node nodes neighs) (offs0, nl0) l).1 = (length offs0 + length l)%nat).
  { intros l. induction l as [|v l IH]; intros offs0 nl0; cbn [foldl append_node]; [cbn; lia|].
    rewrite IH, length_app. cbn [length]. lia. }
  specialize (H nodes [] []). rewrite E in H. cbn in H. lia.
Qed.

Lemma unit_weights g unit_giants : foldl Z.add 0 (input_weights unit_giants false g) = Z.of_nat (num_vertices g).
Proof.
  unfold input_weights. assert (H : forall l a, foldl Z.add a ((fun _ : nat => 1) <$> l) = a + Z.of_nat (length l)).
  { intros l. induction l as [|i l IH]; intros a; cbn [foldl fmap list_fmap length]; [lia|]. rewrite IH. lia. }
  rewrite H, length_seq. lia.
Qed.

Lemma unit_askable g unit_giants W : 0 < W -> (0 < num_vertices g)%nat -> Z.of_nat (num_vertices g) < 2 ^ 32 -> askable g unit_giants false W.
Proof.
  intros HW Hn Hm. unfold askable, partitions_asked. rewrite unit_weights. set (n := Z.of_nat (num_vertices g)) in *.
  assert (n <> 0) by lia. split.
  - apply Z.div_str_pos. lia.
  - apply Z.div_lt_upper_bound; nia.
Qed.

(** Pushing pairs into the buckets of their second components. *)
Lemma pushed_vec salt csr2orig m : ids_ok m ->
  let l := (fun q => (original csr2orig q.1, q.2)) <$> map_order salt m in
  block_of_vec salt csr2orig m = (fun k => (filter (fun q : Z * Z => q.2 = k) l).*1) <$> seqZ 0 (Z.of_nat (Z.to_nat (max_block salt m + 1))).
Proof.
  intros Hok l. unfold block_of_vec. destruct (max_block_spec salt m Hok) as [Hm Hle].
  assert (E : forall o (b : list (list Z)), foldl (fun b q => alter (fun l => l ++ [original csr2orig q.1]) (Z.to_nat q.2) b) b o =
    foldl (fun b q => alter (fun l => l ++ [q.1]) (Z.to_nat q.2) b) b ((fun q : Z * Z => (original csr2orig q.1, q.2)) <$> o)).
  { intros o. induction o as [|q o IH]; intros b; cbn [foldl fmap list_fmap]; [done|]. by rewrite IH. }
  rewrite E. fold l. apply list_eq. intros k. destruct (decide (k < Z.to_nat (max_block salt m + 1))%nat) as [Hk|Hk].
  - rewrite bucket_fold; [|by rewrite length_replicate|].
    + rewrite lookup_replicate_2 by done. cbn [fmap option_fmap option_map app].
      rewrite list_lookup_fmap, (proj2 (lookup_seqZ _ _ _ _)) by (split; [reflexivity|lia]). done.
    + apply Forall_fmap, Forall_forall. intros [v b] Hq. apply order_elem in Hq. cbn. by apply (Hle v b).
  - rewrite !lookup_ge_None_2; [done|rewrite length_fmap, length_seqZ; lia|rewrite length_bucket_fold, length_replicate; lia].
Qed.

Lemma assigned_map (l : list (Z * Z)) : NoDup l.*1 -> forall (m : gmap Z Z) p k,
  (forall q, q ∈ l -> m !! q.1 = None) ->
  foldl (fun m q => <[q.1 := q.2]> m) m l !! p = Some k <-> (p, k) ∈ l \/ m !! p = Some k.
Proof.
  induction l as [|[v b] l IH]; intros Hnd m p k Hm; cbn [foldl]; [split; [by right|by intros [H%elem_of_nil|H]]|].
  apply NoDup_cons in Hnd as [Hv Hnd]. cbn [fst snd] in *.
  assert (Hne : forall q, q ∈ l -> q.1 <> v) by (intros q Hq E; apply Hv; apply list_elem_of_fmap; exists q; split; [done|done]).
  rewrite IH; [|done|].
  - rewrite elem_of_cons. destruct (decide (p = v)) as [->|Hpv].
    + assert (m !! v = None) as -> by (apply (Hm (v, b)); by left). rewrite lookup_insert_eq. split.
      * intros [Hl|[= ->]]; [by left; right|by left; left].
      * intros [[[= ->]|Hl]|?]; [by right|by left|done].
    + rewrite lookup_insert_ne by done. split; [intros [?|?]; [left; by right|by right]|]. intros [[[= -> ->]|?]|?]; [done|by left|by right].
  - intros q Hq. rewrite lookup_insert_ne by (intros E; by apply (Hne q Hq)). apply Hm. by right.
Qed.

(** The blocks of a graph of pages: they are a partition of its pages, none
    of them empty, and the map sends every page to the block that lists it,
    whatever the partitioner answers and in whatever order the hash maps are
    iterated. *)
Theorem block_partition_covers salt graph W :
  0 < W -> graph <> ∅ -> Z.of_nat (size graph) < 2 ^ 32 ->
  exists vec block_of, absolute_weight_block_partition salt graph W = Some (Ok (vec, block_of)) /\
    mjoin vec ≡ₚ (map_to_list graph).*1 /\ Forall (fun p => p <> []) vec /\
    forall p k, block_of !! p = Some k <-> 0 <= k /\ exists part, vec !! Z.to_nat k = Some part /\ p ∈ part.
Proof.
  intros HW Hne Hsize. unfold absolute_weight_block_partition. destruct (Z.eqb_spec W 0); [lia|].
  rewrite bool_decide_eq_false_2 by done. set (nodes := (map_order salt graph).*1).
  assert (Hnodes : nodes ≡ₚ (map_to_list graph).*1) by (unfold nodes; by rewrite map_order_list).
  assert (Hnd : NoDup nodes) by (rewrite Hnodes; apply NoDup_fst_map_to_list).
  assert (Hlen : length nodes = size graph) by (by rewrite (Permutation_length Hnodes), length_fmap, length_map_to_list).
  assert (Hpos : (0 < size graph)%nat) by (destruct (size graph) eqn:E; [by apply map_size_empty_iff in E|lia]).
  set (g := contiguous nodes (get_neighbor_pages graph)).
  assert (Hg : num_vertices g = length nodes) by apply contiguous_count.
  pose proof (unit_askable g true W HW ltac:(lia) ltac:(lia)) as Hask.
  pose proof (first_covers g true false W 10 Hask) as Hc. unfold absolute_weight_graph_partition.
  rewrite partition_graph_eq by lia. cbn [mbind option_bind res_bind].
  destruct (compress_covers g salt _ Hc) as ([Hok Hdom] & _ & Honto); [unfold SIZE_MAX; lia|].
  set (m := compress_block_ids salt _) in *. destruct (max_block_spec salt m Hok) as [Hmx Hle].
  eexists _, _. split; [done|]. rewrite pushed_vec by done. set (l := (fun q => (original nodes q.1, q.2)) <$> map_order salt m).
  assert (Hkeys : (map_order salt m).*1 ≡ₚ seqZ 0 (Z.of_nat (length nodes))).
  { apply NoDup_Permutation; [rewrite map_order_list; apply NoDup_fst_map_to_list|apply NoDup_seqZ|]. intros v.
    transitivity (is_Some (m !! v)).
    - rewrite list_elem_of_fmap. split; [intros ([w b] & -> & Hq); apply order_elem in Hq; eauto|].
      intros [b Hb]. exists (v, b). split; [done|]. by apply order_elem.
    - rewrite Hdom. unfold is_valid_vertex. rewrite Hg, elem_of_seqZ, andb_true_iff, Z.leb_le, Z.ltb_lt. lia. }
  assert (Horig : original nodes <$> seqZ 0 (Z.of_nat (length nodes)) = nodes).
  { apply list_eq. intros i. rewrite list_lookup_fmap. destruct (decide (i < length nodes)%nat) as [Hi|Hi].
    - rewrite (proj2 (lookup_seqZ _ _ _ _)) by (split; [reflexivity|lia]). cbn. destruct (lookup_lt_is_Some_2 nodes i Hi) as [x Hx].
      unfold original. replace (Z.to_nat (0 + Z.of_nat i)) with i by lia. by rewrite Hx.
    - rewrite !lookup_ge_None_2; [done|lia|rewrite length_seqZ; lia]. }
  assert (Hl1 : l.*1 ≡ₚ nodes).
  { unfold l. rewrite <- list_fmap_compose. change (fst ∘ (fun q : Z * Z => (original nodes q.1, q.2))) with (original nodes ∘ fst (A := Z) (B := Z)).
    rewrite list_fmap_compose, Hkeys, Horig. done. }
  assert (Hl2 : forall q, q ∈ l -> 0 <= q.2 <= max_block salt m).
  { intros q Hq. unfold l in Hq. apply list_elem_of_fmap in Hq as ([v b] & -> & Hq). apply order_elem in Hq. by apply (Hle v b). }
  split; [|split].
  - pose proof (filter_bands (fun q : Z * Z => q.2) l (Z.to_nat (max_block salt m + 1))) as Hb.
    transitivity ((mjoin ((fun k => filter (fun q : Z * Z => q.2 = k) l) <$> seqZ 0 (Z.of_nat (Z.to_nat (max_block salt m + 1))))).*1).
    + apply Permutation_refl'. set (F := fun k => filter (fun q : Z * Z => q.2 = k) l).
      change (mjoin ((fun k => (F k).*1) <$> seqZ 0 (Z.of_nat (Z.to_nat (max_block salt m + 1)))) =
        (mjoin (F <$> seqZ 0 (Z.of_nat (Z.to_nat (max_block salt m + 1))))).*1).
      generalize (seqZ 0 (Z.of_nat (Z.to_nat (max_block salt m + 1)))). intros ks. induction ks as [|k ks IH]; [done|].
      change ((F k).*1 ++ mjoin ((fun k => (F k).*1) <$> ks) = (F k ++ mjoin (F <$> ks)).*1). by rewrite fmap_app, IH.
    + rewrite Hb; [by rewrite Hl1|]. intros q Hq. pose proof (Hl2 q Hq). lia.
  - apply Forall_fmap, Forall_forall. intros k Hk. apply elem_of_seqZ in Hk. cbn.
    destruct (Honto ltac:(lia) k ltac:(lia)) as [v Hv].
    assert (Hin : original nodes v ∈ (filter (fun q : Z * Z => q.2 = k) l).*1).
    { apply list_elem_of_fmap. exists (original nodes v, k). split; [done|]. apply list_elem_of_filter. split; [done|].
      unfold l. apply list_elem_of_fmap. exists (v, k). split; [done|]. by apply order_elem. }
    intros E0. rewrite E0 in Hin. by apply elem_of_nil in Hin.
  - intros p k. unfold block_of_map.
    assert (E : forall o (b : gmap Z Z), foldl (fun m q => <[original nodes q.1 := q.2]> m) b o =
      foldl (fun m q => <[q.1 := q.2]> m) b ((fun q : Z * Z => (original nodes q.1, q.2)) <$> o)).
    { intros o. induction o as [|q o IH]; intros b; cbn [foldl fmap list_fmap]; [done|]. by rewrite IH. }
    rewrite E. fold l. rewrite assigned_map; [|rewrite Hl1; done|intros q _; apply lookup_empty]. rewrite lookup_empty. split.
    + intros [Hin|?]; [|done]. pose proof (Hl2 _ Hin) as Hr. cbn in Hr. split; [lia|]. eexists. split.
      * rewrite list_lookup_fmap, (proj2 (lookup_seqZ _ _ _ _)) by (split; [reflexivity|lia]). done.
      * apply list_elem_of_fmap. exists (p, k). split; [done|]. apply list_elem_of_filter. cbn. split; [lia|done].
    + intros (Hk & part & Hpart & Hin). left. rewrite list_lookup_fmap in Hpart. apply fmap_Some in Hpart as (k' & Hk' & ->).
      apply lookup_seqZ in Hk' as [-> _]. apply list_elem_of_fmap in Hin as ([p' k''] & -> & Hin).
      apply list_elem_of_filter in Hin as [E'' Hin]. cbn in *. by replace k with k'' by lia.
Qed.

(** KaMinPar keeps to the block weights of nodes of weight one when there is
    room for all nodes. *)
Class Balanced := balanced : forall run i W b,
  Forall (eq 1) (node_weights i) -> 0 < block_count i -> max_block_weights i = Some (replicate (Z.to_nat (block_count i)) W) ->
  Z.of_nat (length (node_weights i)) <= block_count i * W ->
  Z.of_nat (length (filter (fun j => compute_partition run i !! j = Some b) (seq 0 (length (node_weights i))))) <= W.

Lemma submseteq_length_le {A} (l k : list A) : NoDup l -> (forall x, x ∈ l -> x ∈ k) -> (length l <= length k)%nat.
Proof. intros Hn Hs. by apply submseteq_length, NoDup_submseteq. Qed.

(** No more blocks than asked for, and none over the bound. *)
Lemma block_partition_bounds salt graph W vec block_of :
  0 < W -> graph <> ∅ -> Z.of_nat (size graph) < 2 ^ 32 ->
  absolute_weight_block_partition salt graph W = Some (Ok (vec, block_of)) ->
  Z.of_nat (length vec) <= (Z.of_nat (size graph) + W - 1) `div` W /\
  (Balanced -> Forall (fun p => Z.of_nat (length p) <= W) vec).
Proof.
  intros HW Hne Hsize. unfold absolute_weight_block_partition. destruct (Z.eqb_spec W 0); [lia|].
  rewrite bool_decide_eq_false_2 by done. set (nodes := (map_order salt graph).*1).
  assert (Hnodes : nodes ≡ₚ (map_to_list graph).*1) by (unfold nodes; by rewrite map_order_list).
  assert (Hnd : NoDup nodes) by (rewrite Hnodes; apply NoDup_fst_map_to_list).
  assert (Hlen : length nodes = size graph) by (by rewrite (Permutation_length Hnodes), length_fmap, length_map_to_list).
  assert (Hpos : (0 < size graph)%nat) by (destruct (size graph) eqn:E; [by apply map_size_empty_iff in E|lia]).
  set (g := contiguous nodes (get_neighbor_pages graph)). assert (Hg : num_vertices g = length nodes) by apply contiguous_count.
  pose proof (unit_askable g true W HW ltac:(lia) ltac:(lia)) as Hask.
  pose proof (first_covers g true false W 10 Hask) as Hc. unfold absolute_weight_graph_partition.
  rewrite partition_graph_eq by lia. cbn [mbind option_bind res_bind]. intros [= <- <-].
  set (first := first_blocks g true false W 10) in *.
  assert (Hasked : partitions_asked g true false W = (Z.of_nat (size graph) + W - 1) `div` W).
  { unfold partitions_asked. by rewrite unit_weights, Hg, Hlen. }
  set (N := (Z.of_nat (size graph) + W - 1) `div` W) in *. unfold askable in Hask. rewrite Hasked in Hask.
  set (i := PartitionInput 10 (Z.of_nat <$> offsets g) (neighbor_list g) (input_weights true false g) N (Some (replicate (Z.to_nat N) W))).
  set (part := compute_partition (0%nat, 0) i).
  assert (Ef : first = list_to_map (zip (com_vertex_list g) part)).
  { unfold first, first_blocks, part, i. rewrite Hasked, wrap_small by (unfold in_width; lia). done. }
  assert (Hwl : length (node_weights i) = length nodes) by (cbn; unfold input_weights; by rewrite length_fmap, length_seq).
  assert (Hfirst : forall v b, first !! v = Some b -> 0 <= b < N /\ exists j, v = Z.of_nat j /\ (j < length nodes)%nat /\ part !! j = Some b).
  { intros v b Hb. rewrite Ef in Hb. apply elem_of_list_to_map_2, list_elem_of_lookup in Hb as [j Hj].
    apply lookup_zip_Some in Hj as [Hv Hj]. unfold com_vertex_list in Hv. apply lookup_seqZ in Hv as [-> Hv].
    pose proof (compute_partition_range (0%nat, 0) i ltac:(cbn; lia)) as Hr.
    split; [by apply (Forall_lookup_1 _ _ _ _ Hr Hj)|]. exists j. split; [lia|]. split; [lia|done]. }
  destruct (compress_spec salt first (cv_ids _ _ Hc)) as (rank & B & Ec & Hinj & Honto).
  { enough (size first <= length nodes)%nat by (unfold SIZE_MAX; lia). rewrite Ef, <- Hwl. etransitivity; [|apply Nat.eq_le_incl, (compute_partition_length (0%nat, 0) i)].
    rewrite <- (length_map_to_list (list_to_map _)). rewrite <- (length_fmap fst). apply (Nat.le_trans _ (length (zip (com_vertex_list g) part).*1)).
    - apply submseteq_length_le; [apply NoDup_fst_map_to_list|]. intros x Hx. apply list_elem_of_fmap in Hx as ([y b] & -> & Hy).
      apply elem_of_map_to_list, elem_of_list_to_map_2 in Hy. apply list_elem_of_fmap. by exists (y, b).
    - rewrite length_fmap, length_zip. apply Nat.le_min_r. }
  destruct (compress_covers g salt first Hc) as ([Hok Hdom] & _ & Hall); [unfold SIZE_MAX; lia|].
  set (m := compress_block_ids salt first) in *. destruct (max_block_spec salt m Hok) as [Hmx Hle].
  assert (Hm : forall v k, m !! v = Some k -> exists b, first !! v = Some b /\ rank b = k).
  { intros v k Hk. rewrite Ec, lookup_fmap in Hk. apply fmap_Some in Hk as (b & Hb & ->). by exists b. }
  rewrite pushed_vec by done. split.
  - rewrite length_fmap. rewrite <- (Z2Nat.id N) by lia. apply inj_le. rewrite <- (length_seqZ 0 N), <- (length_fmap rank (seqZ 0 N)).
    apply submseteq_length_le; [apply NoDup_seqZ|]. intros k Hk. apply elem_of_seqZ in Hk.
    destruct (Hall ltac:(lia) k ltac:(lia)) as [v Hv]. destruct (Hm v k Hv) as (b & Hb & <-). apply list_elem_of_fmap_2, elem_of_seqZ.
    destruct (Hfirst v b Hb). lia.
  - intros Hbal. apply Forall_fmap, Forall_forall. intros k Hk. apply elem_of_seqZ in Hk. cbn.
    destruct (Hall ltac:(lia) k ltac:(lia)) as [v0 Hv0]. destruct (Hm v0 k Hv0) as (b & Hb & Eb).
    etransitivity; [|apply (Hbal (0%nat, 0) i W b); cbn; [| |done|]].
    + apply inj_le. set (S := filter _ (seq 0 _)). rewrite <- (length_fmap (fun j => original nodes (Z.of_nat j)) S). apply submseteq_length_le.
      * assert (Hq : NoDup (map_order salt m).*1) by (rewrite map_order_list; apply NoDup_fst_map_to_list).
        assert (Hin : forall q, q ∈ map_order salt m -> 0 <= q.1 < Z.of_nat (length nodes)).
        { intros [v k'] Hq'. apply order_elem in Hq'. destruct (Hm v k' Hq') as (b' & Hb' & _). destruct (Hfirst v b' Hb') as (_ & j & -> & Hj & _). cbn. lia. }
        clear -Hq Hin Hnd. induction (map_order salt m) as [|[v k'] l IH]; [constructor|]. apply NoDup_cons in Hq as [Hv Hq].
        cbn [fmap list_fmap]. rewrite filter_cons. cbn [fst snd].
        assert (IH' := IH Hq (fun q Hq' => Hin q (list_elem_of_further _ _ _ Hq'))). case_decide; [|done].
        cbn [fmap list_fmap fst]. apply NoDup_cons. split; [|done]. intros Hx. apply Hv. apply list_elem_of_fmap in Hx as (q & E & Hq').
        apply list_elem_of_filter in Hq' as [_ Hq']. apply list_elem_of_fmap in Hq' as ([w c] & -> & Hw). cbn in E.
        apply list_elem_of_fmap. exists (w, c). split; [|done]. cbn. pose proof (Hin (v, k') (list_elem_of_here _ _)) as H1. pose proof (Hin _ (list_elem_of_further _ _ _ Hw)) as H2. cbn in H1, H2.
        unfold original in E. destruct (lookup_lt_is_Some_2 nodes (Z.to_nat v)) as [x Hx]; [lia|]. destruct (lookup_lt_is_Some_2 nodes (Z.to_nat w)) as [y Hy]; [lia|].
        rewrite Hx, Hy in E. cbn in E. subst. pose proof (NoDup_lookup _ _ _ _ Hnd Hx Hy). lia.
      * intros p Hp. apply list_elem_of_fmap in Hp as ([p' k'] & -> & Hp). apply list_elem_of_filter in Hp as [E Hp]. cbn in E. subst k'.
        apply list_elem_of_fmap in Hp as ([v k'] & [= -> ->] & Hv). apply order_elem in Hv. destruct (Hm v k' Hv) as (b' & Hb' & Eb').
        assert (b' = b) as -> by (apply (Hinj v v0); [done..|congruence]).
        destruct (Hfirst v b Hb') as (_ & j & -> & Hj & Hp). cbn. apply list_elem_of_fmap. exists j. split; [done|].
        apply list_elem_of_filter. split; [done|]. apply elem_of_seq. cbn in Hwl. lia.
    + unfold input_weights. apply Forall_fmap, Forall_forall. done.
    + lia.
    + cbn in Hwl. rewrite Hwl, Hlen. unfold N. pose proof (Z.div_mod (Z.of_nat (size graph) + W - 1) W ltac:(lia)).
      pose proof (Z.mod_pos_bound (Z.of_nat (size graph) + W - 1) W HW). lia.
Qed.

(** ** The undirected graph *)

Abbreviation adjacent t u := (default ∅ (t !! u) : gset Z).

Lemma symmetric_edge_spec u t n x :
  (forall v, v ∈ adjacent (symmetric_edge u t n) x <-> v ∈ adjacent t x \/ (u <> n /\ ((x = u /\ v = n) \/ (x = n /\ v = u)))) /\
  (is_Some (symmetric_edge u t n !! x) <-> is_Some (t !! x) \/ (u <> n /\ (x = u \/ x = n))).
Proof.
  unfold symmetric_edge. destruct (decide (n = u)) as [->|Hne]; [split; [intros v|]; tauto|].
  set (t1 := <[u := {[n]} ∪ adjacent t u]> t).
  set (t2 := match t1 !! n with Some _ => t1 | None => <[n := ∅]> t1 end).
  assert (H2 : forall y, y <> n -> t2 !! y = t1 !! y).
  { intros y Hy. unfold t2. destruct (t1 !! n); [done|]. by rewrite lookup_insert_ne. }
  assert (Hn : adjacent t2 n = adjacent t n).
  { unfold t2. destruct (t1 !! n) as [s|] eqn:E.
    - unfold t1 in E |- *. rewrite lookup_insert_ne in E by congruence. by rewrite lookup_insert_ne by congruence.
    - unfold t1 in E. rewrite lookup_insert_ne in E by congruence. by rewrite lookup_insert_eq, E. }
  destruct (decide (x = n)) as [->|Hxn].
  - rewrite lookup_insert_eq. split; [intros v; cbn [default from_option id]; rewrite Hn|].
    + rewrite elem_of_union, elem_of_singleton. split; [intros [->|?]; [right|by left]|intros [?|[_ [[-> _]|[_ ->]]]]; [by right|done|by left]].
      split; [congruence|by right].
    + split; [right; split; [congruence|by right]|by eexists].
  - rewrite lookup_insert_ne, H2 by done. unfold t1. destruct (decide (x = u)) as [->|Hxu].
    + rewrite lookup_insert_eq. split; [intros v; cbn [default from_option id]|].
      * rewrite elem_of_union, elem_of_singleton. split; [intros [->|?]; [right|by left]|intros [?|[_ [[_ ->]|[-> _]]]]; [by right|by left|done]].
        split; [congruence|by left].
      * split; [right; split; [congruence|by left]|by eexists].
    + rewrite lookup_insert_ne by done. split; [intros v|]; split; [by left|intros [?|[_ [[-> _]|[-> _]]]]; done|by left|intros [?|[_ [-> | ->]]]; done].
Qed.

Lemma symmetric_edges_spec ps : forall t x,
  (forall v, v ∈ adjacent (foldl (fun t q => symmetric_edge q.1 t q.2) t ps) x <->
     v ∈ adjacent t x \/ (x <> v /\ ((x, v) ∈ ps \/ (v, x) ∈ ps))) /\
  (is_Some (foldl (fun t q => symmetric_edge q.1 t q.2) t ps !! x) <->
     is_Some (t !! x) \/ exists y, x <> y /\ ((x, y) ∈ ps \/ (y, x) ∈ ps)).
Proof.
  induction ps as [|[u n] ps IH]; intros t x; cbn [foldl].
  { split; [intros v; split; [by left|]|split; [by left|]].
    - by intros [?|[_ [?%elem_of_nil|?%elem_of_nil]]].
    - by intros [?|(y & _ & [?%elem_of_nil|?%elem_of_nil])]. }
  destruct (IH (symmetric_edge u t n) x) as [H1 H2]. destruct (symmetric_edge_spec u t n x) as [H3 H4]. cbn [fst snd]. split.
  - intros v. rewrite H1, H3, !elem_of_cons. split.
    + intros [[?|(Hne & [[-> ->]|[-> ->]])]|[Hne [?|?]]]; [by left|right|right|right|right]; (split; [congruence|tauto]).
    + intros [?|(Hne & [[[= -> ->]|?]|[[= -> ->]|?]])]; [by left; left|left; right|right|left; right|right]; (split; [congruence|tauto]).
  - rewrite H2, H4. split.
    + intros [[?|(Hne & [-> | ->])]|(y & Hne & Hy)]; [by left|right; exists n|right; exists u|right; exists y];
        (split; [congruence|rewrite !elem_of_cons; tauto]).
    + intros [?|(y & Hne & Hy)]; [by left; left|]. rewrite !elem_of_cons in Hy.
      destruct Hy as [[[= -> ->]|Hy]|[[= -> ->]|Hy]]; [left; right|right; exists y|left; right|right; exists y]; (split; [congruence|tauto]).
Qed.

Definition pairs_of (q : Z * list Z) : list (Z * Z) := (fun n => (q.1, n)) <$> q.2.

Lemma fold_pairs (l : list (Z * list Z)) : forall t,
  foldl (fun t q => foldl (symmetric_edge q.1) t q.2) t l = foldl (fun t q => symmetric_edge q.1 t q.2) t (mjoin (pairs_of <$> l)).
Proof.
  induction l as [|[u ns] l IH]; intros t; [done|]. cbn [foldl fst snd]. change (mjoin (pairs_of <$> (u, ns) :: l)) with (pairs_of (u, ns) ++ mjoin (pairs_of <$> l)).
  rewrite foldl_app, IH. f_equal. unfold pairs_of. cbn [fst snd]. revert t.
  induction ns as [|n ns IHn]; intros t; [done|]. cbn [foldl fmap list_fmap fst snd]. apply IHn.
Qed.

(** The graph handed to the partitioner is the undirected graph of the given
    one, whatever the iteration orders: its vertices are those of the map and
    the ends of its edges, two different vertices are neighbours of each
    other exactly when one lists the other, and no list has a repetition or
    its own vertex. *)
Theorem pre_partition_undirected `{SO : SetOrder} salt graph :
  let listed u v := v ∈ get_neighbor graph u in
  let r := pre_partition_handle salt graph in
  (forall u, is_Some (r !! u) <-> is_Some (graph !! u) \/ exists v, u <> v /\ (listed u v \/ listed v u)) /\
  (forall u, NoDup (get_neighbor r u)) /\
  (forall u v, v ∈ get_neighbor r u <-> u <> v /\ (listed u v \/ listed v u)).
Proof.
  intros listed r. unfold r, pre_partition_handle. set (t0 := foldl (fun t q => match t !! q.1 with Some _ => t | None => <[q.1 := ∅]> t end) ∅ (map_order salt graph)).
  assert (H0 : forall u, adjacent t0 u = ∅ /\ (is_Some (t0 !! u) <-> is_Some (graph !! u))).
  { assert (Hf : forall (l : list (Z * list Z)) (t : gmap Z (gset Z)) u,
      let t' := foldl (fun t q => match t !! q.1 with Some _ => t | None => <[q.1 := ∅]> t end) t l in
      adjacent t' u = adjacent t u /\ (is_Some (t' !! u) <-> is_Some (t !! u) \/ u ∈ l.*1)).
    { intros l. induction l as [|[w ns] l IH]; intros t u; cbn [foldl fst]; cbn zeta.
      - split; [done|]. split; [by left|by intros [?|?%elem_of_nil]].
      - destruct (IH (match t !! w with Some _ => t | None => <[w := ∅]> t end) u) as [-> ->]. cbn [fmap list_fmap fst]. rewrite elem_of_cons.
        destruct (t !! w) as [s|] eqn:E; [split; [done|]; split; [tauto|intros [?|[->|?]]; [by left|left; by rewrite E|by right]]|].
        destruct (decide (u = w)) as [->|Hne]; [rewrite lookup_insert_eq, E; split; [done|]; split; [by right; left|by left; eexists]|].
        rewrite lookup_insert_ne by done. split; [done|]. tauto. }
    intros u. destruct (Hf (map_order salt graph) ∅ u) as [H1 H2]. fold t0 in H1, H2. rewrite lookup_empty in H1, H2. split; [done|].
    rewrite H2, list_elem_of_fmap. split.
    - intros [[? ?]|([w ns] & -> & Hq)]; [done|]. rewrite map_order_list, elem_of_map_to_list in Hq. by exists ns.
    - intros [ns Hns]. right. exists (u, ns). split; [done|]. by rewrite map_order_list, elem_of_map_to_list. }
  rewrite fold_pairs. set (ps := mjoin (pairs_of <$> map_order salt graph)).
  assert (Hps : forall u v, (u, v) ∈ ps <-> listed u v).
  { intros u v. unfold ps, listed, get_neighbor. rewrite list_elem_of_join. split.
    - intros (l & Hl & Hin). apply list_elem_of_fmap in Hin as ([w ns] & -> & Hq). unfold pairs_of in Hl.
      apply list_elem_of_fmap in Hl as (x & [= -> ->] & Hx). rewrite map_order_list, elem_of_map_to_list in Hq. by rewrite Hq.
    - intros Hv. destruct (graph !! u) as [ns|] eqn:E; [|by apply elem_of_nil in Hv]. exists (pairs_of (u, ns)). split.
      + unfold pairs_of. apply list_elem_of_fmap. by exists v.
      + apply list_elem_of_fmap. exists (u, ns). split; [done|]. by rewrite map_order_list, elem_of_map_to_list. }
  assert (Hn : forall u, get_neighbor (set_order salt <$> foldl (fun t q => symmetric_edge q.1 t q.2) t0 ps) u ≡ₚ
      elements (adjacent (foldl (fun t q => symmetric_edge q.1 t q.2) t0 ps) u)).
  { intros u. unfold get_neighbor. rewrite lookup_fmap. destruct (foldl _ t0 ps !! u) as [s|]; cbn; [apply set_order_elements|].
    by rewrite elements_empty. }
  split; [|split].
  - intros u. rewrite lookup_fmap, fmap_is_Some. destruct (symmetric_edges_spec ps t0 u) as [_ ->]. destruct (H0 u) as [_ ->].
    by setoid_rewrite Hps.
  - intros u. rewrite Hn. apply NoDup_elements.
  - intros u v. rewrite Hn, elem_of_elements. destruct (symmetric_edges_spec ps t0 u) as [-> _]. destruct (H0 u) as [-> _].
    rewrite !Hps. split; [intros [?%elem_of_empty|?]; done|by right].
Qed.

End Maps.
End PartitionMap.
