(* ===== verification/Sparsify.v ===== *)
(** * Bounding the degrees of a block graph ([part/partition.h],
    [graph_sparsification])

    An index page has room for a bounded number of neighbour blocks, so the
    graph of blocks is thinned: edges in descending order of the sum of their
    ends' degrees, first those that join two trees (a union-find forest with
    union by rank and path compression says which), then any other, each only
    while both ends have room. *)

From S2P Require Import Prelude Config Smo.

Local Open Scope Z_scope.

Module Sparsify.

Abbreviation block_adj_map_t := (gmap Z (list Z)).

(** Score and ends. *)
Abbreviation scored_edge := (Z * Z * Z)%type.

Section Code.
Context {MO : MapOrder}.

(** [std::sort] by descending score; it is not stable. *)
Variable std_sort : list scored_edge -> list scored_edge.

(** ** The edges *)

Definition degree_in (graph : block_adj_map_t) (u : Z) : Z :=
  match graph !! u with Some ns => Z.of_nat (length ns) | None => 0 end.

Definition calculate_edge_importance (graph : block_adj_map_t) (u v : Z) : Z := u64 (degree_in graph u + degree_in graph v).

Definition collect_edge (graph : block_adj_map_t) (u : Z) (st : list scored_edge * gset (Z * Z)) (v : Z) :
    list scored_edge * gset (Z * Z) :=
  let '(edges_with_scores, processed_edges) := st in
  let edge_pair := (Z.min u v, Z.max u v) in
  if decide (edge_pair ∈ processed_edges) then st
  else (edges_with_scores ++ [(calculate_edge_importance graph u v, u, v)], {[edge_pair]} ∪ processed_edges).

Definition collect_edges (salt : nat) (graph : block_adj_map_t) : list scored_edge :=
  (foldl (fun st q => foldl (collect_edge graph q.1) st q.2) ([], ∅) (map_order salt graph)).1.

(** ** State *)

Record sparse_state := SparseState {
  result : block_adj_map_t;
  current_degrees : gmap Z Z;
  parent : gmap Z Z;
  rank : gmap Z Z;
  tree_edges : Z
}.

Definition degree_of (st : sparse_state) (u : Z) : Z := default 0 (current_degrees st !! u).

Definition has_room (max_degree : Z) (st : sparse_state) (u v : Z) : bool :=
  (degree_of st u <? max_degree) && (degree_of st v <? max_degree).

Definition push (r : block_adj_map_t) (u v : Z) : block_adj_map_t := <[u := default [] (r !! u) ++ [v]]> r.

Definition bump (d : gmap Z Z) (u : Z) : gmap Z Z := <[u := default 0 (d !! u) + 1]> d.

Definition try_add_edge (max_degree : Z) (st : sparse_state) (u v : Z) : bool * sparse_state :=
  if has_room max_degree st u v then
    (true, SparseState (push (push (result st) u v) v u) (bump (bump (current_degrees st) u) v) (parent st) (rank st) (tree_edges st))
  else (false, st).

(** ** Union-find *)

(** The path to the root, without it.  [None]: not reached within [fuel]. *)
Fixpoint find_path (fuel : nat) (parent : gmap Z Z) (x : Z) : option (list Z * Z) :=
  match fuel with
  | O => None
  | S fuel =>
    let p := default 0 (parent !! x) in
    if p =? x then Some ([], x)
    else '(path, r) ← find_path fuel parent p; Some (x :: path, r)
  end.

Definition find_root (st : sparse_state) (x : Z) : option (Z * sparse_state) :=
  '(path, r) ← find_path (S (size (parent st))) (parent st) x;
  Some (r, SparseState (result st) (current_degrees st) (foldl (fun p node => <[node := r]> p) (parent st) path)
             (rank st) (tree_edges st)).

Definition link (st : sparse_state) (child root : Z) (grow : bool) : sparse_state :=
  SparseState (result st) (current_degrees st) (<[child := root]> (parent st))
    (if grow then <[root := default 0 (rank st !! root) + 1]> (rank st) else rank st) (tree_edges st).

Definition union_sets (st : sparse_state) (x y : Z) : option (bool * sparse_state) :=
  '(root_x, st) ← find_root st x;
  '(root_y, st) ← find_root st y;
  if root_x =? root_y then Some (false, st)
  else
    let rx := default 0 (rank st !! root_x) in
    let ry := default 0 (rank st !! root_y) in
    Some (true, if rx <? ry then link st root_x root_y false
                else if ry <? rx then link st root_y root_x false
                else link st root_y root_x true).

(** ** The two phases *)

Definition count_tree_edge (st : sparse_state) : sparse_state :=
  SparseState (result st) (current_degrees st) (parent st) (rank st) (tree_edges st + 1).

Definition tree_edge (max_degree : Z) (st : sparse_state) (u v : Z) : option sparse_state :=
  '(root_u, st) ← find_root st u;
  '(root_v, st) ← find_root st v;
  if negb (root_u =? root_v) && has_room max_degree st u v then
    '(joined, st) ← union_sets st u v;
    Some (if joined : bool then count_tree_edge (try_add_edge max_degree st u v).2 else st)
  else Some st.

Fixpoint spanning_tree (max_degree target_tree_edges : Z) (st : sparse_state) (edges : list scored_edge) : option sparse_state :=
  match edges with
  | [] => Some st
  | (_, u, v) :: edges =>
    if target_tree_edges <=? tree_edges st then Some st
    else st ← tree_edge max_degree st u v; spanning_tree max_degree target_tree_edges st edges
  end.

Definition extra_edge (max_degree : Z) (st : sparse_state) (e : scored_edge) : sparse_state :=
  let '(_, u, v) := e in
  if has_room max_degree st u v then
    if bool_decide (v ∈ default [] (result st !! u)) then st else (try_add_edge max_degree st u v).2
  else st.

Definition sparse_start (graph : block_adj_map_t) : sparse_state :=
  SparseState ((fun _ => []) <$> graph) ((fun _ => 0) <$> graph) (map_imap (fun node _ => Some node) graph) ((fun _ => 0) <$> graph) 0.

Definition graph_sparsification (salt : nat) (graph : block_adj_map_t) (max_degree : Z) : option block_adj_map_t :=
  if (max_degree =? 0) || bool_decide (graph = ∅) then Some ∅
  else
    let edges := std_sort (collect_edges salt graph) in
    st ← spanning_tree max_degree (Z.of_nat (size graph) - 1) (sparse_start graph) edges;
    Some (result (foldl (extra_edge max_degree) st edges)).

End Code.
(** ** The forest *)

Inductive leads (p : gmap Z Z) : Z -> Z -> Prop :=
  | leads_root x : p !! x = Some x -> leads p x x
  | leads_up x y r : p !! x = Some y -> y <> x -> leads p y r -> leads p x r.

Lemma leads_det p x r s : leads p x r -> leads p x s -> r = s.
Proof.
  intros Hr. revert s. induction Hr as [x E|x y r E Hne Hr IH]; intros s Hs; inversion Hs as [x' E'|x' y' r' E' Hne' Hs']; subst; try congruence.
  apply IH. by replace y with y' by congruence.
Qed.

Lemma leads_end p x r : leads p x r -> p !! r = Some r.
Proof. by induction 1. Qed.

Lemma leads_start p x r : leads p x r -> is_Some (p !! x).
Proof. destruct 1; eauto. Qed.

Definition rank_of (rk : gmap Z Z) (x : Z) : Z := default 0 (rk !! x).

Section Forest.
Variable N : gset Z.

(** Parents stay among the nodes and have a higher rank. *)
Record ranked (p rk : gmap Z Z) : Prop := {
  rk_dom : forall x, x ∈ N <-> is_Some (p !! x);
  rk_closed : forall x y, p !! x = Some y -> y ∈ N;
  rk_up : forall x y, p !! x = Some y -> y <> x -> rank_of rk x < rank_of rk y
}.

Lemma leads_rank p rk x r : ranked p rk -> leads p x r -> x <> r -> rank_of rk x < rank_of rk r.
Proof.
  intros Hp. induction 1 as [x E|x y r E Hne Hr IH]; [done|]. intros _. pose proof (rk_up _ _ Hp x y E Hne).
  destruct (decide (y = r)) as [->|Hyr]; [done|]. specialize (IH Hyr). lia.
Qed.

Definition above (rk : gmap Z Z) (x : Z) : gset Z := filter (fun y => rank_of rk x < rank_of rk y) N.

Lemma find_path_spec p rk fuel : ranked p rk -> forall x, x ∈ N -> (size (above rk x) < fuel)%nat ->
  exists path r, find_path fuel p x = Some (path, r) /\ leads p x r /\ Forall (fun n => leads p n r /\ n <> r) path.
Proof.
  intros Hp. induction fuel as [|fuel IH]; intros x Hx Hf; [lia|]. cbn [find_path].
  destruct (proj1 (rk_dom _ _ Hp x) Hx) as [y E]. rewrite E. cbn [default from_option id]. destruct (Z.eqb_spec y x) as [->|Hne].
  { exists [], x. split; [done|]. split; [by apply leads_root|constructor]. }
  pose proof (rk_closed _ _ Hp x y E) as Hy. pose proof (rk_up _ _ Hp x y E Hne) as Hr.
  assert (Hsub : above rk y ⊂ above rk x).
  { split.
    - intros z. unfold above. rewrite !elem_of_filter. intros [? ?]. split; [lia|done].
    - intros Hs. specialize (Hs y). unfold above in Hs. rewrite !elem_of_filter in Hs. destruct Hs as [? _]; [done|lia]. }
  apply subset_size in Hsub. destruct (IH y Hy ltac:(lia)) as (path & r & -> & Hl & Hpath). cbn [mbind option_bind].
  assert (Hxr : leads p x r) by by eapply leads_up.
  exists (x :: path), r. split; [done|]. split; [done|]. constructor; [|done]. split; [done|]. intros ->.
  pose proof (leads_end _ _ _ Hl). congruence.
Qed.

Lemma leads_total p rk x : ranked p rk -> x ∈ N -> exists r, leads p x r.
Proof. intros Hp Hx. destruct (find_path_spec p rk (S (size (above rk x))) Hp x Hx) as (path & r & _ & H & _); [lia|]. eauto. Qed.

Definition same_roots (p p' : gmap Z Z) : Prop := forall y s, leads p y s <-> leads p' y s.

(** Hanging a node under its root. *)
Lemma compress_one p rk n r : ranked p rk -> leads p n r -> n <> r ->
  ranked (<[n := r]> p) rk /\ same_roots p (<[n := r]> p).
Proof.
  intros Hp Hn Hne. pose proof (leads_end _ _ _ Hn) as Hr.
  assert (Hp' : ranked (<[n := r]> p) rk).
  { constructor.
    - intros x. rewrite (rk_dom _ _ Hp). destruct (decide (x = n)) as [->|Hx]; [|by rewrite lookup_insert_ne].
      rewrite lookup_insert_eq. split; [by eexists|]. intros _. by eapply leads_start.
    - intros x y E. destruct (decide (x = n)) as [->|Hx].
      + rewrite lookup_insert_eq in E. injection E as <-. by apply (rk_closed _ _ Hp r r).
      + rewrite lookup_insert_ne in E by done. by apply (rk_closed _ _ Hp x y).
    - intros x y E Hxy. destruct (decide (x = n)) as [->|Hx].
      + rewrite lookup_insert_eq in E. injection E as <-. by apply (leads_rank p).
      + rewrite lookup_insert_ne in E by done. by apply (rk_up _ _ Hp x y). }
  assert (Hf : forall y s, leads p y s -> leads (<[n := r]> p) y s).
  { intros y s. induction 1 as [x E|x y s E Hxy Hs IH].
    - destruct (decide (x = n)) as [->|Hx]; [by pose proof (leads_det _ _ _ _ Hn (leads_root p n E))|].
      apply leads_root. by rewrite lookup_insert_ne.
    - destruct (decide (x = n)) as [->|Hx].
      + assert (s = r) as -> by (apply (leads_det p n); [by eapply leads_up|done]).
        eapply leads_up; [apply lookup_insert_eq|congruence|]. apply leads_root. by rewrite lookup_insert_ne.
      + eapply leads_up; [by rewrite lookup_insert_ne|done|done]. }
  split; [done|]. intros y s. split; [apply Hf|]. intros Hs.
  assert (Hy : y ∈ N) by (apply (rk_dom _ _ Hp'); by eapply leads_start).
  destruct (leads_total p rk y Hp Hy) as [s' Hs']. by rewrite (leads_det _ _ _ _ Hs (Hf _ _ Hs')).
Qed.

Lemma compress_path rk r path : forall p, ranked p rk -> Forall (fun n => leads p n r /\ n <> r) path ->
  ranked (foldl (fun p n => <[n := r]> p) p path) rk /\ same_roots p (foldl (fun p n => <[n := r]> p) p path).
Proof.
  induction path as [|n path IH]; intros p Hp Hl; cbn [foldl]; [by split|]. apply Forall_cons in Hl as [[Hn Hne] Hl].
  destruct (compress_one p rk n r Hp Hn Hne) as [Hp1 Hs1]. destruct (IH (<[n := r]> p) Hp1) as [Hp2 Hs2].
  - eapply Forall_impl; [exact Hl|]. intros m [Hm ?]. split; [by apply Hs1|done].
  - split; [done|]. intros y s. rewrite (Hs1 y s). apply Hs2.
Qed.

(** States that differ in the parents only. *)
Record reparented (st st' : sparse_state) : Prop := {
  rp_result : result st' = result st;
  rp_degrees : current_degrees st' = current_degrees st;
  rp_rank : rank st' = rank st;
  rp_tree : tree_edges st' = tree_edges st;
  rp_ranked : ranked (parent st') (rank st');
  rp_roots : same_roots (parent st) (parent st')
}.

Lemma find_root_spec st x : ranked (parent st) (rank st) -> x ∈ N ->
  exists r st', find_root st x = Some (r, st') /\ leads (parent st) x r /\ reparented st st'.
Proof.
  intros Hp Hx. unfold find_root.
  destruct (find_path_spec (parent st) (rank st) (S (size (parent st))) Hp x Hx) as (path & r & -> & Hl & Hpath).
  { assert (Hd : dom (parent st) = N) by (apply set_eq; intros y; by rewrite elem_of_dom, (rk_dom _ _ Hp)).
    rewrite <- (size_dom (D := gset Z)), Hd. assert (size (above (rank st) x) <= size N)%nat; [|lia].
    apply subseteq_size. unfold above. set_solver. }
  cbn [mbind option_bind]. eexists _, _. split; [done|]. split; [done|].
  destruct (compress_path (rank st) r path (parent st) Hp Hpath) as [H1 H2]. by constructor.
Qed.

(** Joining two trees at their roots. *)
Lemma link_ranked p rk child root (grow : bool) : ranked p rk -> p !! child = Some child -> p !! root = Some root -> child <> root ->
  (if grow then rank_of rk child <= rank_of rk root else rank_of rk child < rank_of rk root) ->
  ranked (<[child := root]> p) (if grow then <[root := rank_of rk root + 1]> rk else rk) /\
  forall y s, leads p y s -> leads (<[child := root]> p) y (if decide (s = child) then root else s).
Proof.
  intros Hp Hc Hr Hne Hrk. set (rk' := if grow then _ else rk).
  assert (Hge : forall x, rank_of rk x <= rank_of rk' x).
  { intros x. unfold rk', rank_of. destruct grow; [|lia]. destruct (decide (x = root)) as [->|Hx]; [rewrite lookup_insert_eq; cbn; lia|].
    rewrite lookup_insert_ne by done. lia. }
  assert (Hkeep : forall x, x <> root -> rank_of rk' x = rank_of rk x).
  { intros x Hx. unfold rk', rank_of. destruct grow; [|done]. by rewrite lookup_insert_ne. }
  assert (Hroot : rank_of rk child < rank_of rk' root).
  { unfold rk'. destruct grow; [|done]. unfold rank_of at 2. rewrite lookup_insert_eq. cbn. lia. }
  split.
  - constructor.
    + intros x. rewrite (rk_dom _ _ Hp). destruct (decide (x = child)) as [->|Hx]; [|by rewrite lookup_insert_ne].
      rewrite lookup_insert_eq, Hc. by split; eexists.
    + intros x y E. destruct (decide (x = child)) as [->|Hx].
      * rewrite lookup_insert_eq in E. injection E as <-. by apply (rk_closed _ _ Hp root root).
      * rewrite lookup_insert_ne in E by done. by apply (rk_closed _ _ Hp x y).
    + intros x y E Hxy. destruct (decide (x = child)) as [->|Hx].
      * rewrite lookup_insert_eq in E. injection E as <-. by rewrite Hkeep.
      * rewrite lookup_insert_ne in E by done. pose proof (rk_up _ _ Hp x y E Hxy). pose proof (Hge y).
        rewrite Hkeep; [lia|]. intros ->. congruence.
  - assert (Hlr : leads (<[child := root]> p) root root) by (apply leads_root; by rewrite lookup_insert_ne).
    intros y s. induction 1 as [x E|x y s E Hxy Hs IH].
    + case_decide as Hx; [subst x|apply leads_root; by rewrite lookup_insert_ne].
      eapply leads_up; [apply lookup_insert_eq|congruence|done].
    + destruct (decide (x = child)) as [->|Hx]; [congruence|]. eapply leads_up; [by rewrite lookup_insert_ne|done|done].
Qed.

(** ** Trees and connectivity *)

Definition joins (T : list (Z * Z)) (a b : Z) : Prop := (a, b) ∈ T.

Definition within_nodes (T : list (Z * Z)) : Prop := Forall (fun e => e.1 ∈ N /\ e.2 ∈ N) T.

Definition same_tree (p : gmap Z Z) (x y : Z) : Prop := exists r, leads p x r /\ leads p y r.

Definition tree_of (T : list (Z * Z)) (p : gmap Z Z) : Prop :=
  forall x y, x ∈ N -> y ∈ N -> same_tree p x y <-> rtsc (joins T) x y.

Lemma rtsc_mono T T' x y : (forall e, e ∈ T -> e ∈ T') -> rtsc (joins T) x y -> rtsc (joins T') x y.
Proof.
  intros HT. apply rtc_subrel. intros a b. unfold sc, joins. intros [Hab|Hab]; [left|right]; by apply HT.
Qed.

Lemma same_tree_roots p p' : same_roots p p' -> forall x y, same_tree p x y <-> same_tree p' x y.
Proof. intros Hs x y. unfold same_tree. by setoid_rewrite (Hs _ _). Qed.

Lemma link_tree_of p rk T u v ru rv child root (grow : bool) :
  ranked p rk -> tree_of T p -> within_nodes T -> u ∈ N -> v ∈ N -> leads p u ru -> leads p v rv -> ru <> rv ->
  (child = ru /\ root = rv) \/ (child = rv /\ root = ru) ->
  (if grow then rank_of rk child <= rank_of rk root else rank_of rk child < rank_of rk root) ->
  ranked (<[child := root]> p) (if grow then <[root := rank_of rk root + 1]> rk else rk) /\
  tree_of (T ++ [(u, v)]) (<[child := root]> p).
Proof.
  intros Hp Ht HT Hu Hv Hru Hrv Hne Hcr Hrk.
  assert (Hcd : child <> root /\ p !! child = Some child /\ p !! root = Some root).
  { pose proof (leads_end _ _ _ Hru). pose proof (leads_end _ _ _ Hrv). destruct Hcr as [[-> ->]|[-> ->]]; auto. }
  destruct Hcd as (Hcne & Hc & Hr). destruct (link_ranked p rk child root grow Hp Hc Hr Hcne Hrk) as [Hp' Hl].
  split; [done|]. set (p' := <[child := root]> p) in *. set (f := fun s => if decide (s = child) then root else s).
  assert (Huv : same_tree p' u v).
  { exists root. split.
    - pose proof (Hl _ _ Hru) as H1. destruct Hcr as [[E1 E2]|[E1 E2]]; [by rewrite decide_True in H1 by done|].
      rewrite decide_False in H1 by congruence. by rewrite E2.
    - pose proof (Hl _ _ Hrv) as H1. destruct Hcr as [[E1 E2]|[E1 E2]]; [|by rewrite decide_True in H1 by done].
      rewrite decide_False in H1 by congruence. by rewrite E2. }
  assert (Hmono : forall x y, same_tree p x y -> same_tree p' x y) by (intros x y (s & H1 & H2); eexists; split; by apply Hl).
  assert (Htrans : forall x y z, same_tree p' x y -> same_tree p' y z -> same_tree p' x z).
  { intros x y z (r1 & H1 & H2) (r2 & H3 & H4). exists r2. by rewrite <- (leads_det _ _ _ _ H2 H3) in H4 |- *. }
  assert (Hsym : forall x y, same_tree p' x y -> same_tree p' y x) by (intros x y (r1 & H1 & H2); by exists r1).
  intros x y Hx Hy. split.
  - intros (s & Hxs & Hys). destruct (leads_total p rk x Hp Hx) as [a Ha]. destruct (leads_total p rk y Hp Hy) as [b Hb].
    pose proof (leads_det _ _ _ _ Hxs (Hl _ _ Ha)) as Ea. pose proof (leads_det _ _ _ _ Hys (Hl _ _ Hb)) as Eb.
    assert (HT' : forall x y, rtsc (joins T) x y -> rtsc (joins (T ++ [(u, v)])) x y) by (intros ? ?; apply rtsc_mono; set_solver).
    destruct (decide (a = b)) as [->|Hab]; [apply HT', Ht; [done|done|]; by exists b|].
    assert (Hone : rtsc (joins (T ++ [(u, v)])) u v) by (apply rtc_once; left; unfold joins; set_solver).
    assert (Hback : rtsc (joins (T ++ [(u, v)])) v u) by (apply rtc_once; right; unfold joins; set_solver).
    assert (Hab' : (a = ru /\ b = rv) \/ (a = rv /\ b = ru)).
    { rewrite Ea in Eb. destruct Hcr as [[-> ->]|[-> ->]]; repeat case_decide; subst; auto; congruence. }
    destruct Hab' as [[-> ->]|[-> ->]].
    + transitivity u; [apply HT', Ht; [done|done|]; by exists ru|]. transitivity v; [done|]. apply HT', Ht; [done|done|]. by exists rv.
    + transitivity v; [apply HT', Ht; [done|done|]; by exists rv|]. transitivity u; [done|]. apply HT', Ht; [done|done|]. by exists ru.
  - intros Hxy. induction Hxy as [x|x y z Hxy Hyz IH].
    + destruct (leads_total p rk x Hp Hx) as [a Ha]. apply Hmono. by exists a.
    + unfold within_nodes in HT. rewrite Forall_forall in HT.
      assert (Hstep : y ∈ N /\ same_tree p' x y).
      { destruct Hxy as [Hin|Hin]; unfold joins in Hin; apply elem_of_app in Hin as [Hin|Hin%list_elem_of_singleton].
        - destruct (HT _ Hin) as [? ?]. split; [done|]. apply Hmono, Ht; [done|done|]. by apply rtc_once; left.
        - injection Hin as -> ->. done.
        - destruct (HT _ Hin) as [? ?]. split; [done|]. apply Hmono, Ht; [done|done|]. by apply rtc_once; right.
        - injection Hin as -> ->. split; [done|]. by apply Hsym. }
      destruct Hstep as [Hyn Hst]. eapply Htrans; [done|]. by apply IH.
Qed.

(** The roots, to count the trees. *)
Definition roots (p : gmap Z Z) : gset Z := filter (fun x => p !! x = Some x) N.

Lemma roots_same p p' : same_roots p p' -> roots p' = roots p.
Proof.
  intros Hs. apply set_eq. intros x. unfold roots. rewrite !elem_of_filter. split; intros [E Hx]; (split; [|done]).
  - exact (leads_end _ _ _ (proj2 (Hs x x) (leads_root _ _ E))).
  - exact (leads_end _ _ _ (proj1 (Hs x x) (leads_root _ _ E))).
Qed.

Lemma roots_link p child root : p !! child = Some child -> child ∈ N -> child <> root ->
  S (size (roots (<[child := root]> p))) = size (roots p).
Proof.
  intros Hc Hin Hne. assert (Hr : roots (<[child := root]> p) = roots p ∖ {[child]}).
  { apply set_eq. intros x. unfold roots. rewrite elem_of_difference, !elem_of_filter, elem_of_singleton.
    destruct (decide (x = child)) as [->|Hx]; [rewrite lookup_insert_eq; split; [intros [? ?]; congruence|tauto]|].
    rewrite lookup_insert_ne by done. tauto. }
  rewrite Hr, size_difference.
  - rewrite size_singleton. assert (size (roots p) <> 0%nat); [|lia]. intros E. apply size_empty_inv in E.
    assert (Hch : child ∈ roots p) by (unfold roots; by apply elem_of_filter). set_solver.
  - intros x Hx%elem_of_singleton. subst. unfold roots. by apply elem_of_filter.
Qed.

(** ** The state describes a list of added edges *)

Definition others (F : list (Z * Z)) (u : Z) : list Z :=
  omap (fun e => if decide (e.1 = u) then Some e.2 else if decide (e.2 = u) then Some e.1 else None) F.

Lemma others_app F G u : others (F ++ G) u = others F u ++ others G u.
Proof. apply omap_app. Qed.

Lemma others_one a b u : a <> b -> others [(a, b)] u = if decide (u = a) then [b] else if decide (u = b) then [a] else [].
Proof.
  intros Hab. unfold others. cbn [omap list_omap fst snd]. destruct (decide (u = a)) as [->|Ha].
  - by rewrite decide_True.
  - rewrite decide_False by congruence. destruct (decide (u = b)) as [->|Hb]; [by rewrite decide_True|by rewrite decide_False by congruence].
Qed.

Lemma elem_of_others F u v : Forall (fun e => e.1 <> e.2) F -> v ∈ others F u <-> (u, v) ∈ F \/ (v, u) ∈ F.
Proof.
  intros HF. unfold others. rewrite list_elem_of_omap. split.
  - intros ([a b] & Hin & E). cbn [fst snd] in E. repeat case_decide; simplify_eq; auto.
  - rewrite Forall_forall in HF. intros [Hin|Hin].
    + exists (u, v). split; [done|]. cbn. by rewrite decide_True.
    + exists (v, u). split; [done|]. cbn. pose proof (HF _ Hin) as Hne. cbn in Hne. rewrite decide_False, decide_True by congruence. done.
Qed.

Variables (max_degree : Z) (linked : Z -> Z -> Prop).

Record edges_inv (st : sparse_state) (F : list (Z * Z)) : Prop := {
  ei_result : forall u, result st !! u = if decide (u ∈ N) then Some (others F u) else None;
  ei_degree : forall u, u ∈ N -> current_degrees st !! u = Some (Z.of_nat (length (others F u)));
  ei_room : forall u, Z.of_nat (length (others F u)) <= max_degree;
  ei_edges : Forall (fun e => e.1 ∈ N /\ e.2 ∈ N /\ e.1 <> e.2 /\ linked e.1 e.2) F;
  ei_nodup : forall u, NoDup (others F u)
}.

Definition saturated (F : list (Z * Z)) (u : Z) : Prop := Z.of_nat (length (others F u)) = max_degree.

Lemma ei_loopfree st F : edges_inv st F -> Forall (fun e => e.1 <> e.2) F.
Proof. intros Hi. eapply Forall_impl; [exact (ei_edges _ _ Hi)|]. by intros e (? & ? & ? & ?). Qed.

Lemma ei_nodes st F : edges_inv st F -> within_nodes F.
Proof. intros Hi. eapply Forall_impl; [exact (ei_edges _ _ Hi)|]. by intros e (? & ? & ? & ?). Qed.

Lemma no_room st F u v : edges_inv st F -> u ∈ N -> v ∈ N -> has_room max_degree st u v = false -> saturated F u \/ saturated F v.
Proof.
  intros Hi Hu Hv. unfold has_room, degree_of. rewrite (ei_degree _ _ Hi u Hu), (ei_degree _ _ Hi v Hv). cbn [default from_option id].
  pose proof (ei_room _ _ Hi u). pose proof (ei_room _ _ Hi v). unfold saturated. rewrite andb_false_iff, !Z.ltb_ge. lia.
Qed.

Lemma saturated_mono F G u : saturated F u -> (forall w, Z.of_nat (length (others (F ++ G) w)) <= max_degree) -> saturated (F ++ G) u.
Proof. unfold saturated. intros Hs Hm. specialize (Hm u). rewrite others_app, length_app in *. lia. Qed.

Lemma add_edge_inv st F u v : edges_inv st F -> u ∈ N -> v ∈ N -> u <> v -> linked u v -> v ∉ others F u ->
  has_room max_degree st u v = true ->
  let st' := (try_add_edge max_degree st u v).2 in
  edges_inv st' (F ++ [(u, v)]) /\ parent st' = parent st /\ rank st' = rank st /\ tree_edges st' = tree_edges st.
Proof.
  intros Hi Hu Hv Hne Hl Hnew Hroom. unfold try_add_edge. rewrite Hroom. cbn [snd parent rank tree_edges].
  split; [|done]. pose proof (ei_loopfree _ _ Hi) as Hlf.
  assert (Hnew' : u ∉ others F v) by (rewrite elem_of_others in Hnew |- * by done; tauto).
  assert (Hlt : Z.of_nat (length (others F u)) < max_degree /\ Z.of_nat (length (others F v)) < max_degree).
  { unfold has_room, degree_of in Hroom. rewrite (ei_degree _ _ Hi u Hu), (ei_degree _ _ Hi v Hv), andb_true_iff, !Z.ltb_lt in Hroom. done. }
  assert (Ho : forall w, others (F ++ [(u, v)]) w = others F w ++ if decide (w = u) then [v] else if decide (w = v) then [u] else []).
  { intros w. by rewrite others_app, others_one. }
  constructor; cbn [result current_degrees].
  - intros w. unfold push. rewrite Ho. destruct (decide (w = v)) as [->|Hwv].
    + rewrite lookup_insert_eq, lookup_insert_ne, (ei_result _ _ Hi) by done. rewrite (decide_True (P := v ∈ N)), (decide_True (P := v ∈ N)) by done.
      by rewrite decide_False by congruence.
    + rewrite lookup_insert_ne by done. destruct (decide (w = u)) as [->|Hwu].
      * rewrite lookup_insert_eq, (ei_result _ _ Hi). by rewrite (decide_True (P := u ∈ N)), (decide_True (P := u ∈ N)) by done.
      * rewrite lookup_insert_ne, app_nil_r by done. apply (ei_result _ _ Hi).
  - intros w Hw. unfold bump. rewrite Ho, length_app. destruct (decide (w = v)) as [->|Hwv].
    + rewrite lookup_insert_eq, lookup_insert_ne, (ei_degree _ _ Hi v Hv) by done. rewrite decide_False by congruence. cbn. f_equal. lia.
    + rewrite lookup_insert_ne by done. destruct (decide (w = u)) as [->|Hwu].
      * rewrite lookup_insert_eq, (ei_degree _ _ Hi u Hu). cbn. f_equal. lia.
      * rewrite lookup_insert_ne, (ei_degree _ _ Hi w Hw) by done. cbn. f_equal. lia.
  - intros w. rewrite Ho, length_app. pose proof (ei_room _ _ Hi w). repeat case_decide; subst; cbn [length]; lia.
  - apply Forall_app. split; [apply Hi|]. constructor; [done|constructor].
  - intros w. rewrite Ho. apply NoDup_app. split; [apply Hi|]. repeat case_decide; subst; (split; [|try apply NoDup_singleton; try constructor]);
      intros x Hx Hin; (apply list_elem_of_singleton in Hin || apply elem_of_nil in Hin); subst; done.
Qed.

(** ** The spanning forest *)

Definition forest (T : list (Z * Z)) : Prop :=
  forall T1 e T2, T = T1 ++ e :: T2 -> ~ rtsc (joins T1) e.1 e.2.

Lemma forest_snoc T e : forest T -> ~ rtsc (joins T) e.1 e.2 -> forest (T ++ [e]).
Proof.
  intros HT He T1 e' T2 E. destruct (decide (T2 = [])) as [->|Hne].
  - apply app_inj_tail in E as [-> ->]. done.
  - destruct (exists_last Hne) as (T2' & x & ->). rewrite app_comm_cons, app_assoc in E. apply app_inj_tail in E as [E _]. by eapply HT.
Qed.

Record tree_inv (st : sparse_state) (T : list (Z * Z)) : Prop := {
  ti_edges : edges_inv st T;
  ti_ranked : ranked (parent st) (rank st);
  ti_tree : tree_of T (parent st);
  ti_forest : forest T;
  ti_count : tree_edges st = Z.of_nat (length T) /\ (size (roots (parent st)) + length T = size N)%nat
}.

Lemma reparented_inv st st' T : tree_inv st T -> reparented st st' -> tree_inv st' T.
Proof.
  intros [[E1 E2 E3 E4 E5] Hr Ht Hf [Hc1 Hc2]] [R1 R2 R3 R4 R5 R6]. constructor.
  - by constructor; rewrite ?R1, ?R2.
  - done.
  - intros x y Hx Hy. rewrite <- (same_tree_roots _ _ R6). by apply Ht.
  - done.
  - rewrite R4, (roots_same _ _ R6). done.
Qed.

(** The union of two different trees. *)
Lemma union_sets_spec st T u v : tree_inv st T -> u ∈ N -> v ∈ N -> ~ same_tree (parent st) u v ->
  exists st', union_sets st u v = Some (true, st') /\ result st' = result st /\ current_degrees st' = current_degrees st /\
    tree_edges st' = tree_edges st /\ ranked (parent st') (rank st') /\ tree_of (T ++ [(u, v)]) (parent st') /\
    S (size (roots (parent st'))) = size (roots (parent st)).
Proof.
  intros Hi Hu Hv Hns. unfold union_sets.
  destruct (find_root_spec st u (ti_ranked _ _ Hi) Hu) as (ru & st1 & -> & Hru & Hp1). cbn [mbind option_bind].
  pose proof (reparented_inv _ _ _ Hi Hp1) as Hi1.
  destruct (find_root_spec st1 v (ti_ranked _ _ Hi1) Hv) as (rv & st2 & -> & Hrv & Hp2). cbn [mbind option_bind].
  pose proof (reparented_inv _ _ _ Hi1 Hp2) as Hi2.
  assert (Hru2 : leads (parent st2) u ru) by (apply (rp_roots _ _ Hp2), (rp_roots _ _ Hp1); done).
  assert (Hrv2 : leads (parent st2) v rv) by (apply (rp_roots _ _ Hp2); done).
  assert (Hne : ru <> rv).
  { intros ->. apply Hns. exists rv. split; [done|]. by apply (rp_roots _ _ Hp1). }
  destruct (Z.eqb_spec ru rv); [done|].
  assert (Hsize : size (roots (parent st2)) = size (roots (parent st))).
  { by rewrite (roots_same _ _ (rp_roots _ _ Hp2)), (roots_same _ _ (rp_roots _ _ Hp1)). }
  assert (Hfr : result st2 = result st /\ current_degrees st2 = current_degrees st /\ tree_edges st2 = tree_edges st).
  { rewrite (rp_result _ _ Hp2), (rp_result _ _ Hp1), (rp_degrees _ _ Hp2), (rp_degrees _ _ Hp1), (rp_tree _ _ Hp2), (rp_tree _ _ Hp1). done. }
  destruct Hfr as (F1 & F2 & F3).
  assert (Hlink : forall child root (grow : bool), (child = ru /\ root = rv) \/ (child = rv /\ root = ru) ->
    (if grow then rank_of (rank st2) child <= rank_of (rank st2) root else rank_of (rank st2) child < rank_of (rank st2) root) ->
    let st' := link st2 child root grow in
    result st' = result st /\ current_degrees st' = current_degrees st /\ tree_edges st' = tree_edges st /\
    ranked (parent st') (rank st') /\ tree_of (T ++ [(u, v)]) (parent st') /\ S (size (roots (parent st'))) = size (roots (parent st))).
  { intros child root grow Hcr Hrk. cbn [link result current_degrees tree_edges parent rank].
    destruct (link_tree_of (parent st2) (rank st2) T u v ru rv child root grow (ti_ranked _ _ Hi2) (ti_tree _ _ Hi2)
      (ei_nodes _ _ (ti_edges _ _ Hi2)) Hu Hv Hru2 Hrv2 Hne Hcr Hrk) as [L1 L2].
    split; [done|]. split; [done|]. split; [done|]. split; [exact L1|]. split; [done|].
    assert (Hc : parent st2 !! child = Some child /\ child <> root).
    { pose proof (leads_end _ _ _ Hru2). pose proof (leads_end _ _ _ Hrv2). destruct Hcr as [[-> ->]|[-> ->]]; auto. }
    destruct Hc as [Hc Hcne]. rewrite roots_link; [done|done| |done]. by apply (rk_closed _ _ (ti_ranked _ _ Hi2) child). }
  fold (rank_of (rank st2) ru) (rank_of (rank st2) rv).
  destruct (Z.ltb_spec (rank_of (rank st2) ru) (rank_of (rank st2) rv)).
  { eexists. split; [done|]. apply (Hlink ru rv false); [by left|done]. }
  destruct (Z.ltb_spec (rank_of (rank st2) rv) (rank_of (rank st2) ru)).
  { eexists. split; [done|]. apply (Hlink rv ru false); [by right|done]. }
  eexists. split; [done|]. apply (Hlink rv ru true); [by right|lia].
Qed.

Lemma tree_edge_spec st T u v : tree_inv st T -> u ∈ N -> v ∈ N -> (u <> v -> linked u v) ->
  exists st' G, tree_edge max_degree st u v = Some st' /\ tree_inv st' (T ++ G) /\
    (rtsc (joins (T ++ G)) u v \/ saturated (T ++ G) u \/ saturated (T ++ G) v).
Proof.
  intros Hi Hu Hv Hlk. unfold tree_edge.
  destruct (find_root_spec st u (ti_ranked _ _ Hi) Hu) as (ru & st1 & -> & Hru & Hp1). cbn [mbind option_bind].
  pose proof (reparented_inv _ _ _ Hi Hp1) as Hi1.
  destruct (find_root_spec st1 v (ti_ranked _ _ Hi1) Hv) as (rv & st2 & -> & Hrv & Hp2). cbn [mbind option_bind].
  pose proof (reparented_inv _ _ _ Hi1 Hp2) as Hi2.
  assert (Hru2 : leads (parent st2) u ru) by (apply (rp_roots _ _ Hp2), (rp_roots _ _ Hp1); done).
  assert (Hrv2 : leads (parent st2) v rv) by (apply (rp_roots _ _ Hp2); done).
  destruct (Z.eqb_spec ru rv) as [<-|Hne]; cbn [negb andb].
  { exists st2, []. rewrite app_nil_r. split; [done|]. split; [done|]. left. apply (ti_tree _ _ Hi2); [done|done|]. by exists ru. }
  destruct (has_room max_degree st2 u v) eqn:Eroom.
  2: { exists st2, []. rewrite app_nil_r. split; [done|]. split; [done|]. right. apply (no_room st2); [apply Hi2|done|done|done]. }
  assert (Hns : ~ same_tree (parent st2) u v).
  { intros (s & H1 & H2). apply Hne. by rewrite (leads_det _ _ _ _ Hru2 H1), (leads_det _ _ _ _ Hrv2 H2). }
  destruct (union_sets_spec st2 T u v Hi2 Hu Hv Hns) as (st3 & -> & U1 & U2 & U3 & U4 & U5 & U6). cbn [mbind option_bind].
  assert (Huv : u <> v) by (intros ->; apply Hne; by eapply leads_det).
  assert (Hconn : ~ rtsc (joins T) u v) by (intros Hc; apply Hns; by apply (ti_tree _ _ Hi2)).
  assert (E3 : edges_inv st3 T).
  { destruct (ti_edges _ _ Hi2) as [E1 E2 E3 E4 E5]. by constructor; rewrite ?U1, ?U2. }
  assert (Hnew : v ∉ others T u).
  { intros Hin. apply elem_of_others in Hin; [|by eapply ei_loopfree]. apply Hconn. destruct Hin; [by apply rtsc_lr|by apply rtsc_rl]. }
  assert (Hroom3 : has_room max_degree st3 u v = true) by (unfold has_room, degree_of in *; by rewrite U2).
  destruct (add_edge_inv st3 T u v E3 Hu Hv Huv (Hlk Huv) Hnew Hroom3) as (A1 & A2 & A3 & A4).
  exists (count_tree_edge (try_add_edge max_degree st3 u v).2), [(u, v)]. split; [done|]. split.
  - set (st4 := (try_add_edge max_degree st3 u v).2) in *. constructor; cbn [count_tree_edge parent rank tree_edges].
    + destruct A1 as [B1 B2 B3 B4 B5]. by constructor.
    + by rewrite A2, A3.
    + by rewrite A2.
    + by apply forest_snoc; [apply Hi2|].
    + rewrite A4, U3, A2, length_app. destruct (ti_count _ _ Hi2) as [-> Hc]. cbn [length]. lia.
  - left. apply rtc_once. left. unfold joins. set_solver.
Qed.

(** With as many edges as nodes but one, there is one tree. *)
Lemma one_tree st T u v : tree_inv st T -> Z.of_nat (size N) - 1 <= tree_edges st -> u ∈ N -> v ∈ N -> rtsc (joins T) u v.
Proof.
  intros Hi Hc Hu Hv. destruct (ti_count _ _ Hi) as [Hc1 Hc2]. apply (ti_tree _ _ Hi); [done|done|].
  destruct (leads_total _ _ u (ti_ranked _ _ Hi) Hu) as [ru Hru]. destruct (leads_total _ _ v (ti_ranked _ _ Hi) Hv) as [rv Hrv].
  assert (Hin : forall x r, leads (parent st) x r -> r ∈ roots (parent st)).
  { intros x r Hl. pose proof (leads_end _ _ _ Hl) as E. unfold roots. apply elem_of_filter. split; [done|].
    by apply (rk_closed _ _ (ti_ranked _ _ Hi) r). }
  exists ru. split; [done|]. replace ru with rv; [done|].
  apply (size_singleton_inv (roots (parent st))); [|by eapply Hin|by eapply Hin].
  assert (size (roots (parent st)) <> 0%nat); [|lia]. intros E. apply size_empty_inv in E. pose proof (Hin _ _ Hru). set_solver.
Qed.

Definition edge_ok (e : scored_edge) : Prop := e.1.2 ∈ N /\ e.2 ∈ N /\ e.1.2 <> e.2 /\ linked e.1.2 e.2.

Lemma rtsc_app T G x y : rtsc (joins T) x y -> rtsc (joins (T ++ G)) x y.
Proof. apply rtsc_mono. set_solver. Qed.

Lemma spanning_tree_spec es : forall st T, tree_inv st T -> Forall edge_ok es ->
  exists st' G, spanning_tree max_degree (Z.of_nat (size N) - 1) st es = Some st' /\ tree_inv st' (T ++ G) /\
    Forall (fun e => rtsc (joins (T ++ G)) e.1.2 e.2 \/ saturated (T ++ G) e.1.2 \/ saturated (T ++ G) e.2) es.
Proof.
  induction es as [|[[i u] v] es IH]; intros st T Hi Hes; cbn [spanning_tree].
  { exists st, []. rewrite app_nil_r. done. }
  pose proof Hes as Hall. apply Forall_cons in Hes as [(Hu & Hv & Hne & Hl) Hes]. cbn [fst snd] in *.
  destruct (Z.leb_spec (Z.of_nat (size N) - 1) (tree_edges st)) as [Hc|_].
  { exists st, []. rewrite app_nil_r. split; [done|]. split; [done|]. eapply Forall_impl; [exact Hall|].
    intros e (H1 & H2 & _). left. by apply (one_tree st). }
  destruct (tree_edge_spec st T u v Hi Hu Hv (fun _ => Hl)) as (st1 & G1 & -> & Hi1 & Hd). cbn [mbind option_bind].
  destruct (IH st1 (T ++ G1) Hi1 Hes) as (st' & G & E & Hi' & Hd'). exists st', (G1 ++ G). rewrite app_assoc. split; [done|]. split; [done|].
  constructor; [|done]. cbn [fst snd]. pose proof (ei_room _ _ (ti_edges _ _ Hi')) as Hroom.
  destruct Hd as [Hd|[Hd|Hd]]; [left; by apply rtsc_app|right; left|right; right]; by apply saturated_mono.
Qed.

Lemma extra_edges_spec es : forall st F, edges_inv st F -> Forall edge_ok es ->
  exists G, edges_inv (foldl (extra_edge max_degree) st es) (F ++ G) /\
    Forall (fun e => e.2 ∈ others (F ++ G) e.1.2 \/ saturated (F ++ G) e.1.2 \/ saturated (F ++ G) e.2) es.
Proof.
  induction es as [|[[i u] v] es IH]; intros st F Hi Hes; cbn [foldl].
  { exists []. by rewrite app_nil_r. }
  apply Forall_cons in Hes as [(Hu & Hv & Hne & Hl) Hes]. cbn [fst snd] in *.
  assert (Hstep : exists G1, edges_inv (extra_edge max_degree st (i, u, v)) (F ++ G1) /\
    (v ∈ others (F ++ G1) u \/ saturated (F ++ G1) u \/ saturated (F ++ G1) v)).
  { unfold extra_edge. destruct (has_room max_degree st u v) eqn:Eroom.
    2: { exists []. rewrite app_nil_r. split; [done|]. right. by apply (no_room st). }
    rewrite (ei_result _ _ Hi), decide_True by done. cbn [default from_option id]. case_bool_decide as Hin.
    - exists []. rewrite app_nil_r. split; [done|]. by left.
    - exists [(u, v)]. split; [by apply add_edge_inv|]. left. rewrite others_app, others_one, decide_True by done. set_solver. }
  destruct Hstep as (G1 & Hi1 & Hd). destruct (IH _ _ Hi1 Hes) as (G & Hi' & Hd'). exists (G1 ++ G). rewrite app_assoc. split; [done|].
  constructor; [|done]. cbn [fst snd]. pose proof (ei_room _ _ Hi') as Hroom.
  destruct Hd as [Hd|[Hd|Hd]]; [left; rewrite others_app; set_solver|right; left|right; right]; by apply saturated_mono.
Qed.

End Forest.

(** ** The whole function *)

Section Whole.
Context {MO : MapOrder}.

Abbreviation neighbours graph u := (default [] (graph !! u) : list Z).

(** The blocks named by an edge in either direction. *)
Definition linked_in (graph : block_adj_map_t) (u v : Z) : Prop := v ∈ neighbours graph u \/ u ∈ neighbours graph v.

Record collected (graph : block_adj_map_t) (seen : list (Z * Z)) (st : list scored_edge * gset (Z * Z)) : Prop := {
  co_from : Forall (fun e => (e.1.2, e.2) ∈ seen) st.1;
  co_pairs : forall u v, (Z.min u v, Z.max u v) ∈ st.2 -> exists i, (i, u, v) ∈ st.1 \/ (i, v, u) ∈ st.1;
  co_all : Forall (fun e => (Z.min e.1 e.2, Z.max e.1 e.2) ∈ st.2) seen
}.

Lemma collect_edge_ok graph seen st u v : collected graph seen st -> collected graph (seen ++ [(u, v)]) (collect_edge graph u st v).
Proof.
  intros [C1 C2 C3]. destruct st as [es ps]. cbn [fst snd] in *. unfold collect_edge. case_decide as Hin; constructor; cbn [fst snd].
  - eapply Forall_impl; [exact C1|]. intros e He. set_solver.
  - done.
  - apply Forall_app. split; [done|]. by constructor.
  - apply Forall_app. split; [eapply Forall_impl; [exact C1|]; intros e He; set_solver|]. constructor; [cbn; set_solver|constructor].
  - intros a b Hab. apply elem_of_union in Hab as [Hab%elem_of_singleton|Hab].
    + exists (calculate_edge_importance graph u v). injection Hab as H1 H2.
      assert ((a = u /\ b = v) \/ (a = v /\ b = u)) as [[-> ->]|[-> ->]] by lia; [left|right]; set_solver.
    + destruct (C2 a b Hab) as (i & Hi). exists i. set_solver.
  - apply Forall_app. split; [eapply Forall_impl; [exact C3|]; intros e He; set_solver|]. constructor; [cbn; set_solver|constructor].
Qed.

Lemma collect_edges_spec salt graph :
  Forall (fun e => e.2 ∈ neighbours graph e.1.2) (collect_edges salt graph) /\
  forall u v, v ∈ neighbours graph u -> exists i, (i, u, v) ∈ collect_edges salt graph \/ (i, v, u) ∈ collect_edges salt graph.
Proof.
  unfold collect_edges. set (l := map_order salt graph).
  assert (Hl : forall u ns, (u, ns) ∈ l <-> graph !! u = Some ns) by (intros u ns; unfold l; by rewrite map_order_list, elem_of_map_to_list).
  assert (Hrow : forall u ns st seen, collected graph seen st -> collected graph (seen ++ ((fun v => (u, v)) <$> ns)) (foldl (collect_edge graph u) st ns)).
  { intros u ns. induction ns as [|v ns IH]; intros st seen Hc; cbn [foldl fmap list_fmap]; [by rewrite app_nil_r|].
    replace (seen ++ (u, v) :: ((fun v => (u, v)) <$> ns)) with ((seen ++ [(u, v)]) ++ ((fun v => (u, v)) <$> ns)) by by rewrite <- app_assoc.
    apply IH. by apply collect_edge_ok. }
  assert (Hall : forall rows st seen, collected graph seen st ->
    collected graph (seen ++ mjoin ((fun q : Z * list Z => (fun v => (q.1, v)) <$> q.2) <$> rows)) (foldl (fun st q => foldl (collect_edge graph q.1) st q.2) st rows)).
  { intros rows. induction rows as [|[u ns] rows IH]; intros st seen Hc; cbn [foldl]; [by rewrite app_nil_r|].
    change (mjoin ((fun q : Z * list Z => (fun v => (q.1, v)) <$> q.2) <$> (u, ns) :: rows))
      with (((fun v => (u, v)) <$> ns) ++ mjoin ((fun q : Z * list Z => (fun v => (q.1, v)) <$> q.2) <$> rows)).
    rewrite app_assoc. apply IH. by apply Hrow. }
  destruct (Hall l ([], ∅) []) as [C1 C2 C3].
  { constructor; cbn; [constructor| |constructor]. intros u v Huv. set_solver. }
  cbn [app] in *. set (seen := mjoin _) in *.
  assert (Hseen : forall u v, (u, v) ∈ seen <-> v ∈ neighbours graph u).
  { intros u v. unfold seen. rewrite list_elem_of_join. split.
    - intros (row & Hin & Hrow'). apply list_elem_of_fmap in Hrow' as ([w ns] & -> & Hq). apply list_elem_of_fmap in Hin as (x & [= -> ->] & Hx).
      apply Hl in Hq. cbn in Hx. by rewrite Hq.
    - intros Hv. destruct (graph !! u) as [ns|] eqn:E; [|by apply elem_of_nil in Hv]. exists ((fun v => (u, v)) <$> ns). split.
      + apply list_elem_of_fmap. by exists v.
      + apply list_elem_of_fmap. exists (u, ns). split; [done|]. by apply Hl. }
  split.
  - eapply Forall_impl; [exact C1|]. intros e He. by apply Hseen in He.
  - intros u v Hv. apply C2. rewrite Forall_forall in C3. by apply (C3 (u, v)), Hseen.
Qed.

Lemma sparse_start_inv graph max_degree : 0 < max_degree ->
  tree_inv (dom graph) max_degree (linked_in graph) (sparse_start graph) [].
Proof.
  intros Hm. assert (Hp : forall x, parent (sparse_start graph) !! x = if decide (x ∈ dom graph) then Some x else None).
  { intros x. cbn. rewrite map_lookup_imap. destruct (graph !! x) eqn:E; cbn.
    - rewrite decide_True; [done|]. apply elem_of_dom. by rewrite E.
    - rewrite decide_False; [done|]. by apply not_elem_of_dom. }
  assert (Hlead : forall x r, leads (parent (sparse_start graph)) x r -> x = r).
  { intros x r Hl. destruct Hl as [x E|x y r E Hne _]; [done|]. rewrite Hp in E. case_decide; congruence. }
  constructor.
  - constructor; cbn [sparse_start result current_degrees others omap list_omap length].
    + intros u. rewrite lookup_fmap. destruct (graph !! u) eqn:E; cbn.
      * rewrite decide_True; [done|]. apply elem_of_dom. by rewrite E.
      * rewrite decide_False; [done|]. by apply not_elem_of_dom.
    + intros u Hu. rewrite lookup_fmap. apply elem_of_dom in Hu as [ns ->]. done.
    + intros u. lia.
    + constructor.
    + intros u. constructor.
  - constructor.
    + intros x. rewrite Hp. case_decide; split; try done; by intros [? ?].
    + intros x y E. rewrite Hp in E. case_decide; [congruence|done].
    + intros x y E Hne. rewrite Hp in E. case_decide; congruence.
  - intros x y Hx Hy. split.
    + intros (r & H1 & H2). apply Hlead in H1, H2. subst. apply rtc_refl.
    + intros Hxy. destruct Hxy as [x|x y z [Hxy|Hxy] _]; [|by apply elem_of_nil in Hxy..].
      exists x. split; apply leads_root; by rewrite Hp, decide_True.
  - intros T1 e T2 E. by destruct T1.
  - split; [done|]. cbn [length]. rewrite Nat.add_0_r. f_equal. apply set_eq. intros x. unfold roots. rewrite elem_of_filter, Hp.
    split; [tauto|]. intros Hx. by rewrite decide_True.
Qed.

Lemma sparsified std_sort salt graph max_degree :
  0 < max_degree -> (forall l, std_sort l ≡ₚ l) ->
  (forall u v, v ∈ neighbours graph u -> is_Some (graph !! v) /\ u <> v) ->
  exists r T, graph_sparsification std_sort salt graph max_degree = Some r /\
    (forall u, is_Some (r !! u) <-> is_Some (graph !! u)) /\
    (forall u, NoDup (neighbours r u) /\ Z.of_nat (length (neighbours r u)) <= max_degree) /\
    (forall u v, v ∈ neighbours r u <-> u ∈ neighbours r v) /\
    (forall u v, v ∈ neighbours r u -> linked_in graph u v) /\
    (forall u v, linked_in graph u v -> v ∈ neighbours r u \/
       Z.of_nat (length (neighbours r u)) = max_degree \/ Z.of_nat (length (neighbours r v)) = max_degree) /\
    forest T /\ Forall (fun e => e.2 ∈ neighbours r e.1) T /\
    forall u v, linked_in graph u v -> rtsc (joins T) u v \/ saturated max_degree T u \/ saturated max_degree T v.
Proof.
  intros Hm Hsort Hclosed. unfold graph_sparsification. destruct (Z.eqb_spec max_degree 0); [lia|]. cbn [orb].
  case_bool_decide as Hne.
  { subst. assert (Hno : forall u v, linked_in ∅ u v -> False).
    { intros u v [Hx|Hx]; rewrite lookup_empty in Hx; by apply elem_of_nil in Hx. }
    exists ∅, []. split; [done|]. split; [intros u; by rewrite !lookup_empty|].
    split; [intros u; rewrite !lookup_empty; split; [constructor|cbn; lia]|]. split; [intros u v; rewrite !lookup_empty; by split; intros Hx%elem_of_nil|].
    split; [intros u v Hx; rewrite lookup_empty in Hx; by apply elem_of_nil in Hx|].
    split; [intros u v Hx; by destruct (Hno u v)|]. split; [intros T1 e T2 E; by destruct T1|]. split; [constructor|].
    intros u v Hx. by destruct (Hno u v). }
  set (es := std_sort (collect_edges salt graph)). destruct (collect_edges_spec salt graph) as [Hfrom Hall].
  assert (Hok : Forall (edge_ok (dom graph) (linked_in graph)) es).
  { unfold es. rewrite Hsort. eapply Forall_impl; [exact Hfrom|]. intros [[i u] v] He. cbn [fst snd] in *.
    destruct (Hclosed u v He) as [Hv Huv]. split; [|split; [by apply elem_of_dom|split; [done|by left]]].
    cbn. apply elem_of_dom. destruct (graph !! u); [by eexists|]. by apply elem_of_nil in He. }
  assert (Hes : forall u v, linked_in graph u v -> exists i, (i, u, v) ∈ es \/ (i, v, u) ∈ es).
  { intros u v [Hv|Hv]; apply Hall in Hv as (i & Hi); exists i; unfold es; rewrite Hsort; tauto. }
  destruct (spanning_tree_spec (dom graph) max_degree (linked_in graph) es (sparse_start graph) [] (sparse_start_inv graph max_degree Hm) Hok) as (st & T & E & Hi & Hd).
  rewrite size_dom in E. rewrite E. cbn [mbind option_bind app] in *.
  destruct (extra_edges_spec (dom graph) max_degree (linked_in graph) es st T (ti_edges _ _ _ _ _ Hi) Hok) as (G & HiF & HdF).
  set (F := T ++ G) in *. set (st' := foldl (extra_edge max_degree) st es) in *.
  pose proof (ei_loopfree _ _ _ _ _ HiF) as Hlf. rewrite Forall_forall in Hd, HdF.
  assert (Hn : forall u, neighbours (result st') u = others F u).
  { intros u. rewrite (ei_result _ _ _ _ _ HiF). case_decide as Hu; [done|]. cbn. symmetry.
    destruct (others F u) as [|x l] eqn:Eo; [done|]. assert (Hx : x ∈ others F u) by (rewrite Eo; by left).
    apply elem_of_others in Hx; [|done]. pose proof (ei_nodes _ _ _ _ _ HiF) as Hnodes. unfold within_nodes in Hnodes. rewrite Forall_forall in Hnodes.
    destruct Hx as [Hx|Hx]; destruct (Hnodes _ Hx); done. }
  exists (result st'), T. split; [done|]. split; [|split; [|split; [|split; [|split; [|split; [apply Hi|split]]]]]].
  - intros u. rewrite (ei_result _ _ _ _ _ HiF), <- elem_of_dom. case_decide; by split.
  - intros u. rewrite Hn. split; [apply HiF|apply HiF].
  - intros u v. rewrite !Hn, !elem_of_others by done. tauto.
  - intros u v. rewrite Hn, elem_of_others by done. pose proof (ei_edges _ _ _ _ _ HiF) as He. rewrite Forall_forall in He.
    intros [Hin|Hin]; apply He in Hin as (_ & _ & _ & Hl); [done|]. destruct Hl; [by right|by left].
  - intros u v Hl. rewrite !Hn. destruct (Hes u v Hl) as (i & [Hin|Hin]); apply HdF in Hin; cbn [fst snd] in Hin; [done|].
    destruct Hin as [Hin|[?|?]]; [left|by right; right|by right; left]. rewrite elem_of_others in Hin |- * by done. tauto.
  - apply Forall_forall. intros e He. rewrite Hn. apply elem_of_others; [done|]. left. unfold F. destruct e; set_solver.
  - intros u v Hl. destruct (Hes u v Hl) as (i & [Hin|Hin]); apply Hd in Hin; cbn [fst snd] in Hin; [done|].
    destruct Hin as [Hin|[?|?]]; [left|by right; right|by right; left].
    by symmetry.
Qed.

(** C35: thinning a block graph.  On a graph whose neighbours are blocks of the
    graph other than the block itself, whatever the iteration order and
    whatever order the unstable sort gives edges of the same score, the
    function ends (every search for a root does) with a graph of the same
    blocks, in which lists are symmetric, have no repetitions and at most
    [max_degree] entries, all of them edges of the given graph; an edge of the
    given graph is missing only when one of its ends has all it can hold; and
    there is a forest of kept edges that connects the ends of every edge of
    the given graph, unless one of them has all it can hold in the forest. *)
Theorem sparsification_spec std_sort salt graph max_degree :
  0 < max_degree -> (forall l, std_sort l ≡ₚ l) ->
  (forall u v, v ∈ neighbours graph u -> is_Some (graph !! v) /\ u <> v) ->
  exists r T, graph_sparsification std_sort salt graph max_degree = Some r /\
    (forall u, is_Some (r !! u) <-> is_Some (graph !! u)) /\
    (forall u, NoDup (neighbours r u) /\ Z.of_nat (length (neighbours r u)) <= max_degree) /\
    (forall u v, v ∈ neighbours r u <-> u ∈ neighbours r v) /\
    (forall u v, v ∈ neighbours r u -> linked_in graph u v) /\
    (forall u v, linked_in graph u v -> v ∈ neighbours r u \/
       Z.of_nat (length (neighbours r u)) = max_degree \/ Z.of_nat (length (neighbours r v)) = max_degree) /\
    forest T /\ Forall (fun e => e.2 ∈ neighbours r e.1) T /\
    forall u v, linked_in graph u v -> rtsc (joins T) u v \/ saturated max_degree T u \/ saturated max_degree T v.
Proof. apply sparsified. Qed.

End Whole.
End Sparsify.
