(* ===== verification/Tat.v ===== *)
(** * The page hierarchy ([db_build.cc], [build_tat_from_csr_pages],
    [build_tat_from_index_pages])

    The topology-aware tree.  The base pages form a graph, two pages being
    adjacent when an edge of the stored graph joins them.  A level partitions
    the graph of the level below into blocks that fit an index page, one page
    for each, and contracts it; the root holds what fits a single page.  Every
    page records its parent and a thinned list of its neighbours. *)

From S2P Require Import Prelude Config VertexIndex CsrPage IndexPage Reorder Smo MemGraph ComGraph Partition PartitionMap Sparsify.

Local Open Scope Z_scope.

Module Tat.
Import VIndex Index ComGraph PartitionMap Sparsify.

(** Code that may throw ([Throw]), run past an array or not end ([None]). *)
Definition may (A : Type) : Type := option (res A).
#[export] Instance may_ret : MRet may := fun A a => Some (Ok a).
#[export] Instance may_bind : MBind may := fun A B f m =>
  match m with Some (Ok a) => f a | Some (Throw e) => Some (Throw e) | None => None end.
Definition defined {A} (o : option A) : may A := Ok <$> o.
Definition thrown {A} (r : res A) : may A := Some r.

Fixpoint fold_m {M : Type -> Type} `{!MRet M, !MBind M} {A B} (f : B -> A -> M B) (b : B) (l : list A) : M B :=
  match l with
  | [] => mret b
  | a :: l => b ← f b a; fold_m f b l
  end.

(** The members that later code reads. *)
Record tat_build_result_t := TatResult {
  index_pages : gmap Z index_page_t;
  root_page_no : Z;
  level_count : Z;
  next_index_page_no : Z
}.

Section Build.
Context {cfg : Config} {KM : KaMinPar} {MO : MapOrder} {SO : SetOrder}.
(** The sorting of edges by score, the bytes of a new index page before they
    are written, and what the hash orders depend on. *)
Variables (std_sort : list (Z * Z * Z) -> list (Z * Z * Z)) (uninit : Z -> Z) (salt : nat).

(** [at] throws when there is no entry. *)
Definition at_key {V} (m : gmap Z V) (k : Z) : res V :=
  match m !! k with Some v => Ok v | None => Throw logic_error end.

(** ** The graph of pages *)

Definition link_pages (a b : Z) (m : gmap Z (gset Z)) : gmap Z (gset Z) :=
  let m := <[a := {[b]} ∪ default ∅ (m !! a)]> m in
  <[b := {[a]} ∪ default ∅ (m !! b)]> m.

Definition adj_lists (m : gmap Z (gset Z)) : gmap Z (list Z) := set_order salt <$> m.

Definition reserve_pages (nos : list Z) : gmap Z (gset Z) :=
  foldl (fun m no => match m !! no with Some _ => m | None => <[no := ∅]> m end) ∅ nos.

Definition link_neighbor (vi : vertex_index_t) (page_no : Z) (m : gmap Z (gset Z)) (neighbor : Z) : option (gmap Z (gset Z)) :=
  '(loc, _) ← get_vertex_location vi (Z.to_nat neighbor);
  Some (if loc =? page_no then m else link_pages page_no loc m).

Definition page_graph (g : mem_sub_com_t) (vi : vertex_index_t) (pages : list Csr.csr_page_t) : option (gmap Z (gset Z)) :=
  fold_m (fun m p =>
      fold_m (fun m v => fold_m (link_neighbor vi (Csr.page_no p)) m (com_get_neighbors g (Csr.vertex_id v))) m (Csr.get_vertices p))
    (reserve_pages (Csr.page_no <$> pages)) pages.

(** The neighbours that the pages themselves record. *)
Definition index_page_graph (idx : gmap Z index_page_t) (roots : list Z) : gmap Z (gset Z) :=
  foldl (fun m no =>
      foldl (fun m n => match m !! n with Some _ => link_pages no n m | None => m end) m
        (default [] (read_neighbor_block_clone <$> idx !! no)))
    (reserve_pages roots) roots.

(** ** Parents and neighbours of a level *)

Definition adopt_csr (parent : Z) (ns : list Z) (p : Csr.csr_page_t) : Csr.csr_page_t :=
  foldl (fun p n => (Csr.add_neighbor_page_no p n).2) (Csr.set_parent_page_no p parent) (take MAX_BLOCK_NEIGHBOR ns).

Definition adopt_index (parent : Z) (ns : list Z) (p : index_page_t) : index_page_t :=
  foldl (fun p n => (add_neighbor_page_no p n).2) (set_parent_page_no p parent) (take MAX_BLOCK_NEIGHBOR ns).

Fixpoint adopt_csrs (parent_of : Z -> res Z) (sparse : gmap Z (list Z)) (pages : list Csr.csr_page_t) : res (list Csr.csr_page_t) :=
  match pages with
  | [] => Ok []
  | p :: pages =>
    parent ← parent_of (Csr.page_no p);
    ns ← at_key sparse (Csr.page_no p);
    pages ← adopt_csrs parent_of sparse pages;
    Ok (adopt_csr parent ns p :: pages)
  end.

(** [strict]: a missing list throws; otherwise it counts as empty. *)
Definition adopt_index_page (strict : bool) (parent_of : Z -> res Z) (sparse : gmap Z (list Z)) (idx : gmap Z index_page_t) (no : Z) :
    res (gmap Z index_page_t) :=
  p ← at_key idx no;
  parent ← parent_of no;
  ns ← (if strict then at_key sparse no else Ok (default [] (sparse !! no)));
  Ok (<[no := adopt_index parent ns p]> idx).

(** ** The index pages of a level *)

Record parts_t := Parts {
  built : gmap Z index_page_t;
  level_page_no_list : list Z;
  next_level_block_adj_map : gmap Z (gset Z);
  current_index_page_no : Z
}.

Definition link_block (level_start current : Z) (block_part_map : gmap Z Z) (m : gmap Z (gset Z)) (neighbor : Z) : res (gmap Z (gset Z)) :=
  neighbor_block_id ← at_key block_part_map neighbor;
  let global_block_id := u32 (level_start - neighbor_block_id) in
  Ok (if global_block_id =? current then m else link_pages current global_block_id m).

Definition build_part (graph : gmap Z (list Z)) (level_start : Z) (block_part_map : gmap Z Z) (st : parts_t) (sub_partition : list Z) :
    res parts_t :=
  let current := current_index_page_no st in
  page ← index_page (uninit current) current (map_order salt (induced_block_subgraph graph sub_partition));
  next ← fold_m (fun m b => fold_m (link_block level_start current block_part_map) m (get_neighbor_pages graph b))
           (next_level_block_adj_map st) sub_partition;
  Ok (Parts (<[current := page]> (built st)) (level_page_no_list st ++ [current]) next (u32 (current - 1))).

(** ** The levels

    The two functions have the same loop, above base pages ([csr]) and above
    given index pages. *)

Record level_t := LevelState {
  base : list Csr.csr_page_t;
  block_adj_map : gmap Z (list Z);
  sparse_block_adj_map : gmap Z (list Z);
  parts : parts_t;
  current_level : Z
}.

Definition adopt_level (csr strict : bool) (parent_of : Z -> res Z) (st : level_t) : res (list Csr.csr_page_t * gmap Z index_page_t) :=
  if csr && (current_level st =? 1) then
    pages ← adopt_csrs parent_of (sparse_block_adj_map st) (base st); Ok (pages, built (parts st))
  else
    idx ← fold_m (adopt_index_page strict parent_of (sparse_block_adj_map st)) (built (parts st)) (level_page_no_list (parts st));
    Ok (base st, idx).

Definition build_level (csr : bool) (st : level_t) : may level_t :=
  let level_start := current_index_page_no (parts st) in
  '(block_partition, block_part_map) ←
    (absolute_weight_block_partition salt (block_adj_map st) (u32 ((Z.of_nat INDEX_MAX_BLOCKS * 6) `div` 10)) : may _);
  '(pages, idx) ← thrown (adopt_level csr csr (fun no => k ← at_key block_part_map no; Ok (u32 (level_start - k))) st);
  ps ← thrown (fold_m (build_part (block_adj_map st) level_start block_part_map) (Parts idx [] ∅ level_start) block_partition);
  let graph := adj_lists (next_level_block_adj_map ps) in
  sparse ← defined (graph_sparsification std_sort salt graph (Z.of_nat MAX_BLOCK_NEIGHBOR));
  mret (LevelState pages graph sparse ps (current_level st + 1)).

(** [None]: more levels than [fuel]. *)
Fixpoint build_levels (fuel : nat) (csr : bool) (st : level_t) : may level_t :=
  if (size (block_adj_map st) <=? INDEX_MAX_BLOCKS)%nat then mret st
  else match fuel with
  | O => None
  | S fuel => st ← build_level csr st; build_levels fuel csr st
  end.

Definition build_root (csr : bool) (st : level_t) : may (list Csr.csr_page_t * tat_build_result_t) :=
  let root_single_page_no := current_index_page_no (parts st) in
  root ← thrown (index_page (uninit root_single_page_no) root_single_page_no (map_order salt (block_adj_map st)));
  let ps := Parts (<[root_single_page_no := root]> (built (parts st))) (level_page_no_list (parts st)) ∅ root_single_page_no in
  '(pages, idx) ← thrown (adopt_level csr false (fun _ => Ok root_single_page_no)
      (LevelState (base st) (block_adj_map st) (sparse_block_adj_map st) ps (current_level st)));
  mret (pages, TatResult idx root_single_page_no (current_level st + 1) (u32 (root_single_page_no - 1))).

Definition build_tat (csr : bool) (pages : list Csr.csr_page_t) (idx : gmap Z index_page_t) (roots : list Z) (graph : gmap Z (gset Z))
    (start_page_no : Z) : may (list Csr.csr_page_t * tat_build_result_t) :=
  let graph := adj_lists graph in
  sparse ← defined (graph_sparsification std_sort salt graph (Z.of_nat MAX_BLOCK_NEIGHBOR));
  st ← build_levels (size graph) csr (LevelState pages graph sparse (Parts idx roots ∅ start_page_no) 1);
  build_root csr st.

(** Returns the pages with their parents and neighbours, too. *)
Definition build_tat_from_csr_pages (pages : list Csr.csr_page_t) (start_page_no : Z) (vi : vertex_index_t) (g : mem_sub_com_t) :
    may (list Csr.csr_page_t * tat_build_result_t) :=
  graph ← defined (page_graph g vi pages);
  build_tat true pages ∅ [] graph start_page_no.

(** [idx] holds the root pages; the pages built are added to it. *)
Definition build_tat_from_index_pages (idx : gmap Z index_page_t) (root_pages : list Z) (start_page_no : Z) : may tat_build_result_t :=
  '(_, r) ← build_tat false [] idx root_pages (index_page_graph idx root_pages) start_page_no; mret r.

(** What the database keeps: the root, the number of levels and the map; the
    consolidation is given the next number. *)
Definition build_tat_hierarchy (page_list : list Csr.csr_page_t) (vi : vertex_index_t) (g : mem_sub_com_t) :
    may (list Csr.csr_page_t * tat_build_result_t) :=
  let max_page_no_l0 := foldl Z.max 0 (Csr.page_no <$> page_list) in
  build_tat_from_csr_pages page_list (u32 (max_page_no_l0 + 1)) vi g.

(** ** Neighbours in base pages *)

Lemma get_le_mem_read_whole n off len (d : buf) : (n <= len)%nat -> get_le n 0 (mem_read off len d) = get_le n off d.
Proof. intros Hn. unfold get_le, mem_read. rewrite drop_0, take_take, Nat.min_l by done. done. Qed.

(** The writer of a page's neighbours counts 48 bytes before them, the
    layout of the page 16: there is room for all neighbours but eight, and the
    next one is written over the identifier of the page's first vertex. *)
Theorem neighbor_overwrites_vertex p no :
  (8 <= MAX_BLOCK_NEIGHBOR)%nat -> Csr.neighbor_page_count_ p = Z.of_nat MAX_BLOCK_NEIGHBOR - 8 ->
  no ∉ Csr.read_neighbor_block p -> in_width 32 no ->
  (Csr.vertex_span_ p).1 = Csr.vertices_off -> 0 < (Csr.vertex_span_ p).2 -> (Csr.vertices_off + 4 <= length (Csr.data p))%nat ->
  exists p', Csr.add_neighbor_page_no p no = (true, p') /\ Csr.vertex_id <$> Csr.vertex_at p' 0 = Some no.
Proof.
  intros Hm Hc Hno Hw Hv1 Hv2 Hlen. unfold Csr.add_neighbor_page_no. rewrite Hc, existsb_eqb_elem, bool_decide_eq_false_2 by done.
  rewrite (proj2 (Z.leb_gt _ _)) by lia. eexists. split; [done|]. unfold Csr.vertex_at. cbn [Csr.vertex_span_ Csr.data].
  rewrite Hv1, (proj2 (Z.ltb_lt 0 _)) by done. cbn [Z.leb Z.compare andb fmap option_fmap option_map Csr.csr_vertex_of Csr.vertex_id]. f_equal.
  rewrite Nat.mul_0_l, Nat.add_0_r, get_le_mem_read_whole by (unfold Csr.VERTEX_SIZE; lia).
  unfold Csr.vertices_off, Csr.METADATA_SIZE, Csr.neighbor_block_data_size in *.
  rewrite get_put_le_other by lia. replace (48 + Z.to_nat (Z.of_nat MAX_BLOCK_NEIGHBOR - 8) * 4)%nat with (16 + MAX_BLOCK_NEIGHBOR * 4)%nat by lia.
  apply get_put_le; [unfold in_width in Hw; change (256 ^ Z.of_nat 4) with (2 ^ 32); lia|done].
Qed.

(** ** Graphs of pages *)

Abbreviation joined m u v := (v ∈ (default ∅ (m !! u) : gset Z)).

Lemma link_pages_joined a b m u v : joined (link_pages a b m) u v <-> joined m u v \/ (u = a /\ v = b) \/ (u = b /\ v = a).
Proof.
  unfold link_pages. rewrite !lookup_insert. repeat case_decide; subst; cbn; rewrite ?lookup_insert; repeat case_decide; subst; cbn; set_solver.
Qed.

Lemma link_pages_dom a b m u : is_Some (link_pages a b m !! u) <-> is_Some (m !! u) \/ u = a \/ u = b.
Proof. unfold link_pages. rewrite !lookup_insert_is_Some. destruct (decide (u = a)), (decide (u = b)); naive_solver. Qed.

(** [m'] is [m] with the pairs of [R] joined, either way. *)
Record joins_more (m : gmap Z (gset Z)) (R : Z -> Z -> Prop) (m' : gmap Z (gset Z)) : Prop := {
  jm_joined : forall u v, joined m' u v <-> joined m u v \/ R u v \/ R v u;
  jm_dom : forall u, is_Some (m' !! u) <-> is_Some (m !! u) \/ exists v, R u v \/ R v u
}.

Lemma joins_more_iff m R S m' : joins_more m R m' -> (forall u v, R u v <-> S u v) -> joins_more m S m'.
Proof.
  intros [H1 H2] E. constructor; [intros u v; by rewrite H1, !E|]. intros u. rewrite H2. by setoid_rewrite E.
Qed.

Lemma joins_more_none m : joins_more m (fun _ _ => False) m.
Proof. constructor; naive_solver. Qed.

Lemma joins_more_link m a b : joins_more m (fun u v => u = a /\ v = b) (link_pages a b m).
Proof.
  constructor; [intros u v; rewrite link_pages_joined; naive_solver|]. intros u. rewrite link_pages_dom. naive_solver.
Qed.

Lemma joins_more_trans m R m1 S m2 : joins_more m R m1 -> joins_more m1 S m2 -> joins_more m (fun u v => R u v \/ S u v) m2.
Proof.
  intros [A1 A2] [B1 B2]. constructor; [intros u v; rewrite B1, A1; naive_solver|]. intros u. rewrite B2, A2. naive_solver.
Qed.

(** A fold whose steps each join some pairs joins all of them. *)
Lemma fold_joins {A} (f : gmap Z (gset Z) -> A -> res (gmap Z (gset Z))) (R : A -> Z -> Z -> Prop) (l : list A) :
  (forall m a, a ∈ l -> exists m', f m a = Ok m' /\ joins_more m (R a) m') ->
  forall m, exists m', fold_m f m l = Ok m' /\ joins_more m (fun u v => exists a, a ∈ l /\ R a u v) m'.
Proof.
  intros Hf. induction l as [|a l IH]; intros m; cbn [fold_m].
  - exists m. split; [done|]. apply (joins_more_iff _ _ _ _ (joins_more_none m)). intros u v. split; [done|]. intros (a & Ha & _). by apply elem_of_nil in Ha.
  - destruct (Hf m a) as (m1 & -> & J1); [by left|]. cbn [mbind res_bind].
    destruct (IH (fun m b Hb => Hf m b (list_elem_of_further _ _ _ Hb)) m1) as (m2 & -> & J2). exists m2. split; [done|].
    apply (joins_more_iff _ _ _ _ (joins_more_trans _ _ _ _ _ J1 J2)). intros u v. setoid_rewrite elem_of_cons. naive_solver.
Qed.

(** The lists of a graph of pages: symmetric, without loops and repetitions,
    between its pages. *)
Record page_graph_ok (G : gmap Z (list Z)) : Prop := {
  pg_closed : forall u v, v ∈ get_neighbor_pages G u -> is_Some (G !! v);
  pg_sym : forall u v, v ∈ get_neighbor_pages G u -> u ∈ get_neighbor_pages G v;
  pg_loop : forall u v, v ∈ get_neighbor_pages G u -> u <> v
}.

Lemma adj_lists_elem m u v : v ∈ get_neighbor_pages (adj_lists m) u <-> joined m u v.
Proof.
  unfold get_neighbor_pages, adj_lists. rewrite lookup_fmap. destruct (m !! u); cbn; [by rewrite set_order_elements, elem_of_elements|].
  split; intros H; [by apply elem_of_nil in H|set_solver].
Qed.

Lemma adj_lists_dom m u : is_Some (adj_lists m !! u) <-> is_Some (m !! u).
Proof. unfold adj_lists. by rewrite lookup_fmap, fmap_is_Some. Qed.

(** ** Induced subgraphs *)

Lemma reserve_blocks_spec l : forall (s : gmap Z (list Z)) u,
  foldl (fun s v => match s !! v with Some _ => s | None => <[v := []]> s end) s l !! u =
    match s !! u with Some x => Some x | None => if bool_decide (u ∈ l) then Some [] else None end.
Proof.
  induction l as [|v l IH]; intros s u; cbn [foldl].
  - rewrite bool_decide_eq_false_2 by apply not_elem_of_nil. by destruct (s !! u).
  - rewrite IH. destruct (s !! v) as [x|] eqn:Ev.
    + destruct (s !! u) as [y|] eqn:Eu; [done|]. apply (f_equal (fun b : bool => if b then Some [] else None)), bool_decide_ext.
      rewrite elem_of_cons. split; [by right|]. intros [->|?]; [congruence|done].
    + rewrite lookup_insert. case_decide as Hvu; [subst; rewrite Ev, bool_decide_eq_true_2 by (by left); done|].
      destruct (s !! u) eqn:Eu; [done|]. apply (f_equal (fun b : bool => if b then Some [] else None)), bool_decide_ext.
      rewrite elem_of_cons. split; [by right|]. by intros [->|?].
Qed.

Definition keep_inside (v : Z) (s : gmap Z (list Z)) (nb : Z) : gmap Z (list Z) :=
  if bool_decide (is_Some (s !! nb)) then alter (fun l => l ++ [nb]) v s else s.

Lemma keep_inside_dom v ns : forall s u, is_Some (foldl (keep_inside v) s ns !! u) <-> is_Some (s !! u).
Proof.
  induction ns as [|n ns IH]; intros s u; cbn [foldl]; [done|]. rewrite IH. unfold keep_inside. case_bool_decide; [|done].
  apply lookup_alter_is_Some.
Qed.

Lemma keep_inside_spec v ns : forall s u x, x ∈ get_neighbor_pages (foldl (keep_inside v) s ns) u <->
  x ∈ get_neighbor_pages s u \/ (u = v /\ is_Some (s !! v) /\ x ∈ ns /\ is_Some (s !! x)).
Proof.
  induction ns as [|n ns IH]; intros s u x; cbn [foldl].
  - split; [by left|]. intros [?|(_ & _ & Hx & _)]; [done|by apply elem_of_nil in Hx].
  - rewrite IH. assert (Hd : forall y, is_Some (keep_inside v s n !! y) <-> is_Some (s !! y)) by (apply (keep_inside_dom v [n] s)).
    rewrite !Hd, elem_of_cons. unfold keep_inside, get_neighbor_pages. case_bool_decide as Hn; [|naive_solver].
    rewrite lookup_alter. case_decide as Huv; [|naive_solver]. subst v. destruct (s !! u) as [l|] eqn:Ev; cbn.
    + rewrite elem_of_app, list_elem_of_singleton. split; [|naive_solver]. intros [[?| ->]|?]; naive_solver.
    + split; [intros [?|(_ & [? ?] & _)]; [by left|done]|]. intros [?|(_ & [? ?] & _)]; [by left|done].
Qed.

Lemma induced_fold G block : forall s, (forall u, is_Some (foldl (fun s v => foldl (keep_inside v) s (get_neighbor_pages G v)) s block !! u) <-> is_Some (s !! u)) /\
  forall u x, x ∈ get_neighbor_pages (foldl (fun s v => foldl (keep_inside v) s (get_neighbor_pages G v)) s block) u <->
    x ∈ get_neighbor_pages s u \/ (u ∈ block /\ is_Some (s !! u) /\ x ∈ get_neighbor_pages G u /\ is_Some (s !! x)).
Proof.
  induction block as [|v block IH]; intros s; cbn [foldl].
  - split; [done|]. intros u x. split; [by left|]. intros [?|(Hu & _)]; [done|by apply elem_of_nil in Hu].
  - destruct (IH (foldl (keep_inside v) s (get_neighbor_pages G v))) as [I1 I2]. split.
    + intros u. by rewrite I1, keep_inside_dom.
    + intros u x. rewrite I2, keep_inside_spec, !keep_inside_dom, elem_of_cons. naive_solver.
Qed.

Lemma induced_spec G block :
  (forall u, is_Some (induced_block_subgraph G block !! u) <-> u ∈ block) /\
  forall u x, x ∈ get_neighbor_pages (induced_block_subgraph G block) u <-> u ∈ block /\ x ∈ block /\ x ∈ get_neighbor_pages G u.
Proof.
  unfold induced_block_subgraph. set (s := foldl _ ∅ block).
  assert (Hs : forall u, s !! u = if bool_decide (u ∈ block) then Some [] else None) by (intros u; unfold s; by rewrite reserve_blocks_spec, lookup_empty).
  assert (Hd : forall u, is_Some (s !! u) <-> u ∈ block).
  { intros u. rewrite Hs. case_bool_decide; split; [done|eauto|by intros [? ?]|done]. }
  destruct (induced_fold G block s) as [I1 I2]. fold (keep_inside). split.
  - intros u. rewrite <- Hd. apply I1.
  - intros u x. etransitivity; [apply I2|]. rewrite !Hd. unfold get_neighbor_pages at 1. rewrite Hs.
    split; [|naive_solver]. intros [Hx|?]; [|naive_solver]. case_bool_decide; cbn in Hx; by apply elem_of_nil in Hx.
Qed.

(** ** What an index page shows *)

Context `{!IndexLayout}.

(** The blocks, the edges of [G] between them, the page's neighbours and its
    parent. *)
Definition index_shows (p : index_page_t) (blocks : list Z) (G : gmap Z (list Z)) (ns : list Z) (parent : Z) : Prop :=
  exists bs es, rep p (IndexGraph bs es ns parent) /\ (forall c, c ∈ bs <-> c ∈ blocks) /\
    forall a b, (a, b) ∈ es <-> a ∈ blocks /\ b ∈ blocks /\ b ∈ get_neighbor_pages G a.

Lemma graph_of_edges adj a b : (a, b) ∈ ig_edges (graph_of adj) <-> exists l, (a, l) ∈ adj /\ b ∈ l /\ b ∈ adj.*1.
Proof.
  cbn. rewrite elem_of_list_to_set, list_elem_of_bind. split.
  - intros ([a' l] & Hin & Hq). apply list_elem_of_bind in Hin as (c & Hc & Hl). cbn in *.
    apply list_elem_of_singleton in Hc. injection Hc as <- <-. apply list_elem_of_filter in Hl as [H1 H2]. eauto.
  - intros (l & Hl & Hb & Hk). exists (a, l). split; [|done]. apply list_elem_of_bind. exists b. cbn. split; [by left|]. by apply list_elem_of_filter.
Qed.

Lemma index_page_graph_shows I G block init no :
  (forall u, is_Some (I !! u) <-> u ∈ block) ->
  (forall u x, u ∈ block -> x ∈ block -> x ∈ get_neighbor_pages I u <-> x ∈ get_neighbor_pages G u) ->
  Forall (in_width 32) block -> (length block <= INDEX_MAX_BLOCKS)%nat ->
  exists p, index_page init no (map_order salt I) = Ok p /\ index_shows p block G [] 0.
Proof.
  intros I1 I2 Hw Hl.
  assert (Hk : forall u, u ∈ (map_order salt I).*1 <-> u ∈ block).
  { intros u. rewrite <- I1, list_elem_of_fmap. split.
    - intros ([u' l] & -> & Hq). rewrite map_order_list in Hq. apply elem_of_map_to_list in Hq. eauto.
    - intros [l Hu]. exists (u, l). split; [done|]. rewrite map_order_list. by apply elem_of_map_to_list. }
  assert (Hnd : NoDup (map_order salt I).*1) by (rewrite map_order_list; apply NoDup_fst_map_to_list).
  destruct (build_rep init no (map_order salt I)) as (p & E & R).
  - done.
  - apply Forall_forall. intros u Hu. rewrite Forall_forall in Hw. by apply Hw, Hk.
  - rewrite <- (length_fmap fst). etransitivity; [|exact Hl]. apply submseteq_length_le; [done|]. intros u. apply Hk.
  - exists p. split; [done|]. unfold graph_of in R. eexists _, _. split; [exact R|]. split; [apply Hk|].
    intros a b. etransitivity; [apply (graph_of_edges (map_order salt I) a b)|]. split.
    + intros (l & Ha & Hb & Hbk). assert (Hak : a ∈ block) by (apply Hk, list_elem_of_fmap; by exists (a, l)).
      apply Hk in Hbk. split; [done|]. split; [done|]. apply I2; [done..|]. rewrite map_order_list in Ha. apply elem_of_map_to_list in Ha.
      unfold get_neighbor_pages. by rewrite Ha.
    + intros (Ha & Hb & Hab). apply I2 in Hab; [|done..]. unfold get_neighbor_pages in Hab. destruct (I !! a) as [l|] eqn:Ea; [|by apply elem_of_nil in Hab].
      exists l. split; [rewrite map_order_list; by apply elem_of_map_to_list|]. split; [done|]. by apply Hk.
Qed.

Lemma index_page_shows G block init no : Forall (in_width 32) block -> (length block <= INDEX_MAX_BLOCKS)%nat ->
  exists p, index_page init no (map_order salt (induced_block_subgraph G block)) = Ok p /\ index_shows p block G [] 0.
Proof.
  destruct (induced_spec G block) as [I1 I2]. apply index_page_graph_shows; [done|]. intros u x Hu Hx. rewrite I2. tauto.
Qed.

Lemma add_neighbors_rep bs es pa ns : forall p done, rep p (IndexGraph bs es done pa) -> NoDup (done ++ ns) ->
  Forall (in_width 32) ns -> (length (done ++ ns) <= MAX_BLOCK_NEIGHBOR)%nat ->
  rep (foldl (fun p n => (add_neighbor_page_no p n).2) p ns) (IndexGraph bs es (done ++ ns) pa).
Proof.
  induction ns as [|n ns IH]; intros p done R Hnd Hw Hl; cbn [foldl]; [by rewrite app_nil_r|].
  apply Forall_cons in Hw as [Hn Hw]. pose proof (add_neighbor_spec p bs es done pa n R Hn) as Ha.
  destruct (add_neighbor_page_no p n) as [r p']. rewrite length_app in Hl. cbn [length] in Hl.
  rewrite (proj2 (Nat.leb_gt _ _)), bool_decide_eq_false_2 in Ha; [|apply NoDup_app in Hnd as (_ & Hd & _); intros Hx; apply (Hd n Hx); by left|lia].
  destruct Ha as [_ R']. cbn. replace (done ++ n :: ns) with ((done ++ [n]) ++ ns) in * by (by rewrite <- app_assoc).
  apply IH; [done..|]. rewrite !length_app. cbn. lia.
Qed.

Lemma adopt_index_shows p blocks G parent0 parent ns : index_shows p blocks G [] parent0 ->
  in_width 64 parent -> NoDup ns -> Forall (in_width 32) ns -> (length ns <= MAX_BLOCK_NEIGHBOR)%nat ->
  index_shows (adopt_index parent ns p) blocks G ns parent.
Proof.
  intros (bs & es & R & Hb & He) Hp Hnd Hw Hl. exists bs, es. split; [|done]. unfold adopt_index. rewrite take_ge by done.
  apply (add_neighbors_rep bs es parent ns _ [] (set_parent_spec _ _ _ _ _ _ R Hp)); done.
Qed.

(** ** The index pages of a level *)

Section Level.
Variables (G : gmap Z (list Z)) (start : Z) (vec : list (list Z)) (block_of : gmap Z Z).
Hypotheses (HG : page_graph_ok G) (Hkeys : mjoin vec ≡ₚ (map_to_list G).*1)
  (Hblock : forall p k, block_of !! p = Some k <-> 0 <= k /\ exists part, vec !! Z.to_nat k = Some part /\ p ∈ part)
  (Hfit : Forall (fun p => (length p <= INDEX_MAX_BLOCKS)%nat) vec)
  (Hwidth : forall u, is_Some (G !! u) -> in_width 32 u)
  (Hstart : Z.of_nat (length vec) <= start < 2 ^ 32).

(** The index page of a block. *)
Definition up (p : Z) : Z := start - default 0 (block_of !! p).

Definition crossing (P : Z -> Prop) (u v : Z) : Prop :=
  exists a b, P a /\ b ∈ get_neighbor_pages G a /\ up a <> up b /\ u = up a /\ v = up b.

Lemma key_part u : is_Some (G !! u) <-> exists k part, vec !! k = Some part /\ u ∈ part.
Proof.
  transitivity (u ∈ mjoin vec).
  - rewrite Hkeys, list_elem_of_fmap. split; [intros [l Hl]; exists (u, l); split; [done|by apply elem_of_map_to_list]|].
    intros ([u' l] & -> & Hq). apply elem_of_map_to_list in Hq. eauto.
  - rewrite list_elem_of_join. split.
    + intros (part & Hu & Hp). apply list_elem_of_lookup in Hp as [k Hk]. eauto.
    + intros (k & part & Hk & Hu). exists part. split; [done|]. by eapply list_elem_of_lookup_2.
Qed.

Lemma part_block k part u : vec !! k = Some part -> u ∈ part -> block_of !! u = Some (Z.of_nat k).
Proof. intros Hk Hu. apply Hblock. split; [lia|]. rewrite Nat2Z.id. eauto. Qed.

Lemma part_up k part u : vec !! k = Some part -> u ∈ part -> up u = start - Z.of_nat k.
Proof. intros Hk Hu. unfold up. by rewrite (part_block k part u). Qed.

Lemma up_part k part u : vec !! k = Some part -> is_Some (G !! u) -> up u = start - Z.of_nat k -> u ∈ part.
Proof.
  intros Hk Hu E. apply key_part in Hu as (j & part' & Hj & Hu). rewrite (part_up j part' u) in E by done.
  assert (j = k) as -> by lia. by simplify_eq.
Qed.

Lemma neighbor_key a b : b ∈ get_neighbor_pages G a -> is_Some (G !! a) /\ is_Some (G !! b).
Proof. intros Hb. split; [|by apply (pg_closed G HG a b)]. by eapply (pg_closed G HG b), pg_sym. Qed.

Lemma build_part_ok st k part : vec !! k = Some part -> current_index_page_no st = start - Z.of_nat k ->
  exists page next, build_part G start block_of st part =
      Ok (Parts (<[start - Z.of_nat k := page]> (built st)) (level_page_no_list st ++ [start - Z.of_nat k]) next (start - Z.of_nat (S k))) /\
    index_shows page part G [] 0 /\ joins_more (next_level_block_adj_map st) (crossing (fun a => a ∈ part)) next.
Proof.
  intros Hk Hc. unfold build_part. rewrite Hc. pose proof (lookup_lt_Some _ _ _ Hk) as Hlt.
  destruct (index_page_shows G part (uninit (start - Z.of_nat k)) (start - Z.of_nat k)) as (page & -> & Hs).
  { apply Forall_forall. intros u Hu. apply Hwidth, key_part. eauto. }
  { by apply (Forall_lookup_1 _ _ _ _ Hfit Hk). }
  cbn [mbind res_bind].
  destruct (fold_joins (fun m b => fold_m (link_block start (start - Z.of_nat k) block_of) m (get_neighbor_pages G b))
    (fun a u v => crossing (eq a) u v) part) with (m := next_level_block_adj_map st) as (next & -> & J).
  - intros m a Ha. destruct (fold_joins (link_block start (start - Z.of_nat k) block_of)
      (fun b u v => up a <> up b /\ u = up a /\ v = up b) (get_neighbor_pages G a)) with (m := m) as (m' & E & J).
    + intros m1 b Hb. destruct (neighbor_key a b Hb) as [_ Kb]. apply key_part in Kb as (j & part' & Hj & Hpb).
      pose proof (lookup_lt_Some _ _ _ Hj) as Hjlt.
      pose proof (part_up _ _ _ Hj Hpb) as Eb. pose proof (part_up _ _ _ Hk Ha) as Ea. unfold link_block, at_key.
      rewrite (part_block _ _ _ Hj Hpb). cbn [mbind res_bind]. rewrite wrap_small by (unfold in_width; lia). eexists. split; [done|].
      rewrite Ea, Eb. destruct (Z.eqb_spec (start - Z.of_nat j) (start - Z.of_nat k)) as [Ejk|Ejk].
      * apply (joins_more_iff _ _ _ _ (joins_more_none m1)). intros u v. rewrite Ejk. naive_solver.
      * apply (joins_more_iff _ _ _ _ (joins_more_link m1 _ _)). intros u v. naive_solver.
    + exists m'. split; [done|]. apply (joins_more_iff _ _ _ _ J). intros u v. unfold crossing. naive_solver.
  - eexists _, _. split; [|split; [done|]].
    + cbn [mbind res_bind]. rewrite wrap_small by (unfold in_width; lia). by replace (start - Z.of_nat k - 1) with (start - Z.of_nat (S k)) by lia.
    + apply (joins_more_iff _ _ _ _ J). intros u v. unfold crossing. naive_solver.
Qed.

Lemma build_parts_ok n : forall k st, n = (length vec - k)%nat -> (k <= length vec)%nat -> current_index_page_no st = start - Z.of_nat k ->
  exists st', fold_m (build_part G start block_of) st (drop k vec) = Ok st' /\
    current_index_page_no st' = start - Z.of_nat (length vec) /\
    level_page_no_list st' = level_page_no_list st ++ ((fun j => start - Z.of_nat j) <$> seq k n) /\
    (forall j part, (k <= j)%nat -> vec !! j = Some part -> exists page, built st' !! (start - Z.of_nat j) = Some page /\ index_shows page part G [] 0) /\
    (forall x, start - Z.of_nat k < x -> built st' !! x = built st !! x) /\
    joins_more (next_level_block_adj_map st) (crossing (fun a => exists j part, (k <= j)%nat /\ vec !! j = Some part /\ a ∈ part)) (next_level_block_adj_map st').
Proof.
  induction n as [|n IH]; intros k st Hn Hk Hc.
  - rewrite drop_ge by lia. exists st. split; [done|]. split; [rewrite Hc; lia|]. split; [by rewrite app_nil_r|].
    split; [|split; [done|]].
    + intros j part Hj Hp. apply lookup_lt_Some in Hp. lia.
    + apply (joins_more_iff _ _ _ _ (joins_more_none _)). intros u v. split; [done|].
      intros (a & b & (j & part & Hj & Hp & _) & _). apply lookup_lt_Some in Hp. lia.
  - destruct (lookup_lt_is_Some_2 vec k) as [part Hp]; [lia|]. rewrite (drop_S vec part k Hp). cbn [fold_m].
    destruct (build_part_ok st k part Hp Hc) as (page & next & -> & Hs & J). cbn [mbind res_bind].
    destruct (IH (S k) (Parts (<[start - Z.of_nat k := page]> (built st)) (level_page_no_list st ++ [start - Z.of_nat k]) next (start - Z.of_nat (S k))))
      as (st' & -> & H1 & H2 & H3 & H4 & H5); [lia..|done|]. cbn in H2, H4, H5.
    exists st'. split; [done|]. split; [done|]. split; [by rewrite H2, <- app_assoc|]. split; [|split].
    + intros j part' Hj Hp'. destruct (decide (j = k)) as [->|Hne]; [|apply H3; [lia|done]].
      simplify_eq. exists page. split; [|done]. rewrite H4 by lia. apply lookup_insert_eq.
    + intros x Hx. rewrite H4 by lia. apply lookup_insert_ne. lia.
    + apply (joins_more_iff _ _ _ _ (joins_more_trans _ _ _ _ _ J H5)). intros u v. unfold crossing. split.
      * intros [(a & b & Ha & Hr)|(a & b & (j & part' & Hj & Hp' & Ha) & Hr)]; exists a, b; (split; [|done]); [by exists k, part|exists j, part'; split; [lia|done]].
      * intros (a & b & (j & part' & Hj & Hp' & Ha) & Hr). destruct (decide (j = k)) as [->|Hne].
        -- left. simplify_eq. by exists a, b.
        -- right. exists a, b. split; [|done]. exists j, part'. split; [lia|done].
Qed.

(** ** Contraction *)

Definition connected (g : gmap Z (list Z)) : Prop :=
  forall u v, is_Some (g !! u) -> is_Some (g !! v) -> rtc (fun a b => b ∈ get_neighbor_pages g a) u v.

(** [G'] has a page for every class of [f], joined when members are. *)
Record contracts (g : gmap Z (list Z)) (f : Z -> Z) (g' : gmap Z (list Z)) : Prop := {
  ct_pages : forall x, is_Some (g' !! x) <-> exists a, is_Some (g !! a) /\ f a = x;
  ct_edges : forall x y, y ∈ get_neighbor_pages g' x <-> x <> y /\ exists a b, f a = x /\ f b = y /\ b ∈ get_neighbor_pages g a
}.

Lemma crosses (f : Z -> Z) (R : Z -> Z -> Prop) u v : rtc R u v -> f u <> f v -> exists a b, R a b /\ f a = f u /\ f b <> f u.
Proof.
  induction 1 as [u|u w v Huw Hwv IH]; intros Hf; [done|]. destruct (decide (f w = f u)) as [E|Hne]; [|by exists u, w].
  destruct IH as (a & b & Hab & Ea & Eb); [congruence|]. exists a, b. split; [done|]. split; congruence.
Qed.

Lemma contracted next : connected G -> (2 <= length vec)%nat -> Forall (fun p => p <> []) vec ->
  joins_more ∅ (crossing (fun a => is_Some (G !! a))) next ->
  let g' := adj_lists next in
  page_graph_ok g' /\ connected g' /\ contracts G up g' /\
  (forall x, is_Some (g' !! x) <-> exists k, (k < length vec)%nat /\ x = start - Z.of_nat k).
Proof.
  intros Hconn Hlen Hne [J1 J2] g'.
  assert (He : forall x y, y ∈ get_neighbor_pages g' x <-> x <> y /\ exists a b, up a = x /\ up b = y /\ b ∈ get_neighbor_pages G a).
  { intros x y. unfold g'. rewrite adj_lists_elem, J1, lookup_empty. cbn [default from_option]. unfold crossing. split.
    - intros [Hx|[(a & b & _ & Hb & Hu & -> & ->)|(a & b & _ & Hb & Hu & -> & ->)]]; [set_solver| |].
      + split; [done|]. eauto.
      + split; [done|]. exists b, a. split; [done|]. split; [done|]. by apply pg_sym.
    - intros (Hxy & a & b & <- & <- & Hb). right. left. exists a, b. destruct (neighbor_key a b Hb). done. }
  assert (Hd : forall x, is_Some (g' !! x) <-> exists y, y ∈ get_neighbor_pages g' x).
  { intros x. unfold g'. rewrite adj_lists_dom, J2, lookup_empty. setoid_rewrite adj_lists_elem. setoid_rewrite J1. rewrite lookup_empty. cbn.
    split; [intros [[? ?]|[y Hy]]; [done|]; exists y; by right|]. intros [y [Hy|Hy]]; [set_solver|]. right. eauto. }
  assert (Hpages : forall k, (k < length vec)%nat -> exists a, is_Some (G !! a) /\ up a = start - Z.of_nat k).
  { intros k Hk. destruct (lookup_lt_is_Some_2 vec k Hk) as [part Hp].
    assert (exists a, a ∈ part) as [a Ha] by (destruct part as [|a part]; [by destruct (Forall_lookup_1 _ _ _ _ Hne Hp)|exists a; by left]).
    exists a. split; [apply key_part; by exists k, part|]. by apply (part_up k part). }
  assert (Hup : forall a, is_Some (G !! a) -> exists k, (k < length vec)%nat /\ up a = start - Z.of_nat k).
  { intros a Ha. apply key_part in Ha as (k & part & Hk & Ha). exists k. split; [by eapply lookup_lt_Some|]. by apply (part_up k part). }
  assert (Hex : forall a, is_Some (G !! a) -> is_Some (g' !! up a)).
  { intros a Ha. destruct (Hup a Ha) as (k & Hk & Ek).
    destruct (Hpages (if decide (k = 0%nat) then 1%nat else 0%nat)) as (c & Hc & Ec); [destruct (decide (k = 0%nat)); lia|].
    destruct (crosses up _ a c (Hconn a c Ha Hc)) as (x & y & Hxy & Ex & Ey); [destruct (decide (k = 0%nat)); lia|].
    apply Hd. exists (up y). apply He. split; [congruence|]. eauto. }
  assert (Hct : forall x, is_Some (g' !! x) <-> exists a, is_Some (G !! a) /\ up a = x).
  { intros x. split; [|intros (a & Ha & <-); by apply Hex]. intros [y Hy]%Hd. apply He in Hy as (_ & a & b & <- & _ & Hb).
    exists a. split; [by destruct (neighbor_key a b Hb)|done]. }
  split; [constructor|split; [|split; [by constructor|]]].
  - intros u v Hv. apply He in Hv as (_ & a & b & _ & <- & Hb). apply Hex. by destruct (neighbor_key a b Hb).
  - intros u v Hv. apply He in Hv as (Hne' & a & b & Ea & Eb & Hb). apply He. split; [done|]. exists b, a. split; [done|]. split; [done|]. by apply pg_sym.
  - intros u v Hv. by apply He in Hv as [? _].
  - intros x y (a & Ha & <-)%Hct (b & Hb & <-)%Hct. pose proof (Hconn a b Ha Hb) as Hab. clear Ha Hb.
    induction Hab as [a|a c b Hac _ IH]; [apply rtc_refl|]. destruct (decide (up a = up c)) as [->|Hne']; [done|].
    eapply rtc_l; [|done]. apply He. split; [done|]. eauto.
  - intros x. rewrite Hct. split; [intros (a & Ha & <-); by apply Hup|]. intros (k & Hk & ->). by apply Hpages.
Qed.

End Level.

(** ** A level *)

Context `{!Balanced}.
Hypotheses (Hcapacity : (5 <= INDEX_MAX_BLOCKS)%nat) (Hsort : forall l, std_sort l ≡ₚ l).

Lemma key_list G : exists keys, NoDup keys /\ length keys = size G /\ forall u : Z, u ∈ keys <-> is_Some ((G : gmap Z (list Z)) !! u).
Proof.
  exists (map_to_list G).*1. split; [apply NoDup_fst_map_to_list|]. split; [by rewrite length_fmap, length_map_to_list|].
  intros u. rewrite list_elem_of_fmap. split.
  - intros ([u' l] & -> & Hq). apply elem_of_map_to_list in Hq. eauto.
  - intros [l Hu]. exists (u, l). split; [done|]. by apply elem_of_map_to_list.
Qed.

Lemma same_size (G : gmap Z (list Z)) keys : NoDup keys -> (forall u : Z, u ∈ keys <-> is_Some (G !! u)) -> length keys = size G.
Proof.
  intros Hnd Hk. destruct (key_list G) as (keys' & Hnd' & <- & Hk'). apply Permutation_length, NoDup_Permutation; [done..|].
  intros u. by rewrite Hk, Hk'.
Qed.

Lemma join_length_le c (vec : list (list Z)) : Forall (fun p => (length p <= c)%nat) vec -> (length (mjoin vec) <= length vec * c)%nat.
Proof.
  induction 1 as [|p vec Hp _ IH]; [done|]. change (mjoin (p :: vec)) with (p ++ mjoin vec). rewrite length_app. cbn [length]. lia.
Qed.

Lemma fill_le : ((INDEX_MAX_BLOCKS * 6) `div` 10 <= INDEX_MAX_BLOCKS)%nat.
Proof. apply Nat.Div0.div_le_upper_bound. lia. Qed.

Lemma level_partition G : ((INDEX_MAX_BLOCKS * 6) `div` 10 < size G)%nat -> Z.of_nat (size G) < 2 ^ 32 ->
  exists vec block_of,
    absolute_weight_block_partition salt G (u32 ((Z.of_nat INDEX_MAX_BLOCKS * 6) `div` 10)) = Some (Ok (vec, block_of)) /\
    mjoin vec ≡ₚ (map_to_list G).*1 /\ Forall (fun p => p <> []) vec /\
    (forall p k, block_of !! p = Some k <-> 0 <= k /\ exists part, vec !! Z.to_nat k = Some part /\ p ∈ part) /\
    Forall (fun p => (length p <= INDEX_MAX_BLOCKS)%nat) vec /\ (2 <= length vec)%nat /\ 2 * Z.of_nat (length vec) <= Z.of_nat (size G).
Proof.
  intros Hn Hs. pose proof layout_blocks as Hb. unfold UINT32_MAX in Hb. set (M := Z.of_nat INDEX_MAX_BLOCKS) in *.
  pose proof (Z.div_mod (M * 6) 10 ltac:(lia)) as Hd. pose proof (Z.mod_pos_bound (M * 6) 10 ltac:(lia)) as Hm.
  rewrite wrap_small by (unfold in_width; lia). set (W := (M * 6) `div` 10) in *. assert (HW : 3 <= W <= M) by lia.
  assert (Hne : G <> ∅) by (intros ->; rewrite map_size_empty in Hn; lia).
  destruct (block_partition_covers salt G W ltac:(lia) Hne Hs) as (vec & block_of & E & H1 & H2 & H3).
  destruct (block_partition_bounds salt G W vec block_of ltac:(lia) Hne Hs E) as [H4 H5]. specialize (H5 _).
  assert (Hfit : Forall (fun p => (length p <= INDEX_MAX_BLOCKS)%nat) vec) by (eapply Forall_impl; [exact H5|]; cbn; intros; lia).
  assert (HWn : W = Z.of_nat ((INDEX_MAX_BLOCKS * 6) `div` 10)) by (unfold W, M; by rewrite Nat2Z.inj_div, Nat2Z.inj_mul).
  exists vec, block_of. repeat (split; [done|]). split.
  - assert (Hfit' : Forall (fun p => (length p <= Z.to_nat W)%nat) vec) by (eapply Forall_impl; [exact H5|]; cbn; intros; lia).
    pose proof (join_length_le _ vec Hfit') as Hj. rewrite HWn, Nat2Z.id, (Permutation_length H1), length_fmap, length_map_to_list in Hj.
    set (d := ((INDEX_MAX_BLOCKS * 6) `div` 10)%nat) in *. destruct (le_lt_dec (length vec) 1) as [Hle|]; [|lia].
    apply (Nat.mul_le_mono_r _ _ d) in Hle. lia.
  - set (n := Z.of_nat (size G)) in *. pose proof (Z.div_mod (n + W - 1) W ltac:(lia)) as Hq.
    pose proof (Z.mod_pos_bound (n + W - 1) W ltac:(lia)) as Hr. set (x := (n + W - 1) `div` W) in *. assert (W * (x - 1) <= n - 1) by lia.
    assert (W < n) by (rewrite HWn; unfold n; lia). clear HWn. nia.
Qed.

Lemma thinned G : page_graph_ok G ->
  exists sparse, graph_sparsification std_sort salt G (Z.of_nat MAX_BLOCK_NEIGHBOR) = Some sparse /\
    forall u, (is_Some (sparse !! u) <-> is_Some (G !! u)) /\ NoDup (get_neighbor_pages sparse u) /\
      (length (get_neighbor_pages sparse u) <= MAX_BLOCK_NEIGHBOR)%nat /\
      forall v, v ∈ get_neighbor_pages sparse u -> is_Some (G !! v).
Proof.
  intros HG. pose proof layout_neighbors.
  destruct (sparsified std_sort salt G (Z.of_nat MAX_BLOCK_NEIGHBOR)) as (r & _ & E & Hd & Hl & _ & Hin & _); [lia|done| |].
  - intros u v Hv. split; [by apply (pg_closed G HG u)|by apply (pg_loop G HG)].
  - exists r. split; [done|]. intros u. split; [apply Hd|]. destruct (Hl u) as [? ?]. split; [done|]. split; [unfold get_neighbor_pages; lia|].
    intros v Hv. destruct (Hin u v Hv) as [Hx|Hx]; [by apply (pg_closed G HG u)|]. by destruct (neighbor_key G HG v u Hx).
Qed.

(** ** The hierarchy *)

(** A page answers as the graph between the pages that [blocks] selects. *)
Definition page_shows (p : index_page_t) (G : gmap Z (list Z)) (blocks : Z -> Prop) : Prop :=
  NoDup (get_blocks p) /\ (forall c, c ∈ get_blocks p <-> is_Some (G !! c) /\ blocks c) /\
  forall a b, a ∈ get_blocks p -> b ∈ (get_neighbor_blocks p a).1 <-> b ∈ get_blocks p /\ b ∈ get_neighbor_pages G a.

(** [n] levels of index pages over the pages of [G]: [f] gives the index page
    of a page.  Every index page lists the pages below it with their edges;
    the index pages of a level are the pages of the contracted graph, and have
    recorded their parent and their thinned neighbours; the last level is the
    root alone. *)
Inductive tower (idx : gmap Z index_page_t) : nat -> gmap Z (list Z) -> (Z -> Z) -> Z -> Prop :=
  | tower_root G root page :
      idx !! root = Some page -> page_shows page G (fun _ => True) -> tower idx 1 G (fun _ => root) root
  | tower_level n G f G' f' root sparse :
      (forall b, is_Some (G !! b) -> exists page, idx !! f b = Some page /\ page_shows page G (fun c => f c = f b)) ->
      contracts G f G' ->
      graph_sparsification std_sort salt G' (Z.of_nat MAX_BLOCK_NEIGHBOR) = Some sparse ->
      (forall b, is_Some (G' !! b) -> exists page, idx !! b = Some page /\
         parent_page_no_ page = f' b /\ read_neighbor_block_clone page = get_neighbor_pages sparse b) ->
      tower idx n G' f' root -> tower idx (S n) G f root.

Lemma index_shows_page p blocks G ns parent (P : Z -> Prop) : index_shows p blocks G ns parent ->
  (forall c, c ∈ blocks <-> is_Some (G !! c) /\ P c) -> page_shows p G P.
Proof.
  intros (bs & es & R & Hb & He) HP. pose proof (rep_get_blocks _ _ R) as E. cbn in E.
  split; [rewrite E; apply (rep_nodup _ _ R)|]. split; [intros c; by rewrite E, Hb, HP|].
  intros a b Ha. rewrite (neighbor_blocks_spec _ _ a R). cbn. unfold ig_adjacent. cbn. rewrite list_elem_of_filter, He, E, <- !Hb.
  rewrite E in Ha. naive_solver.
Qed.

Lemma adopt_indexes strict (f : Z -> Z) (sparse : gmap Z (list Z)) list : NoDup list -> forall idx,
  (forall b, b ∈ list -> is_Some (idx !! b)) -> (strict = true -> forall b, b ∈ list -> is_Some (sparse !! b)) ->
  forall parent_of, (forall b, b ∈ list -> parent_of b = Ok (f b)) ->
  exists idx', fold_m (adopt_index_page strict parent_of sparse) idx list = Ok idx' /\
    forall b, idx' !! b = if bool_decide (b ∈ list) then adopt_index (f b) (get_neighbor_pages sparse b) <$> idx !! b else idx !! b.
Proof.
  induction 1 as [|a list Ha Hnd IH]; intros idx Hidx Hsp parent_of Hp; cbn [fold_m].
  - exists idx. split; [done|]. intros b. by rewrite bool_decide_eq_false_2 by apply not_elem_of_nil.
  - destruct (Hidx a) as [p Ep]; [by left|].
    assert (adopt_index_page strict parent_of sparse idx a = Ok (<[a := adopt_index (f a) (get_neighbor_pages sparse a) p]> idx)) as ->.
    { unfold adopt_index_page, at_key, get_neighbor_pages. rewrite Ep, (Hp a) by (by left). destruct strict; [|done].
      destruct (Hsp eq_refl a) as [ns Es]; [by left|]. by rewrite Es. }
    cbn [mbind res_bind].
    destruct (IH (<[a := adopt_index (f a) (get_neighbor_pages sparse a) p]> idx)) with (parent_of := parent_of) as (idx' & -> & Hi).
    + intros b Hb. apply lookup_insert_is_Some'. right. apply Hidx. by right.
    + intros Hst b Hb. apply Hsp; [done|]. by right.
    + intros b Hb. apply Hp. by right.
    + exists idx'. split; [done|]. intros b. rewrite Hi. destruct (decide (b = a)) as [->|Hne].
      * rewrite bool_decide_eq_false_2, bool_decide_eq_true_2 by (done || by left). by rewrite lookup_insert_eq, Ep.
      * rewrite lookup_insert_ne by done. rewrite (bool_decide_ext (b ∈ a :: list) (b ∈ list)); [done|]. rewrite elem_of_cons. naive_solver.
Qed.

(** A state above base pages from the second level on. *)
Record ready (st : level_t) : Prop := {
  rd_ok : page_graph_ok (block_adj_map st);
  rd_connected : connected (block_adj_map st);
  rd_pos : (0 < size (block_adj_map st))%nat;
  rd_sparse : graph_sparsification std_sort salt (block_adj_map st) (Z.of_nat MAX_BLOCK_NEIGHBOR) = Some (sparse_block_adj_map st);
  rd_room : Z.of_nat (size (block_adj_map st)) <= current_index_page_no (parts st) < 2 ^ 32;
  rd_nodup : NoDup (level_page_no_list (parts st));
  rd_list : forall b, b ∈ level_page_no_list (parts st) <-> is_Some (block_adj_map st !! b);
  rd_keys : forall b, is_Some (block_adj_map st !! b) -> current_index_page_no (parts st) < b < 2 ^ 32;
  rd_built : forall b, is_Some (block_adj_map st !! b) ->
    exists page blocks g, built (parts st) !! b = Some page /\ index_shows page blocks g [] 0;
  rd_level : 1 < current_level st
}.

(** The pages of a level and the state above them. *)
Lemma next_ready G start idx vec block_of :
  page_graph_ok G -> connected G -> (INDEX_MAX_BLOCKS < size G)%nat -> Z.of_nat (size G) <= start < 2 ^ 32 ->
  (forall u, is_Some (G !! u) -> in_width 32 u) ->
  mjoin vec ≡ₚ (map_to_list G).*1 -> Forall (fun p => p <> []) vec ->
  (forall p k, block_of !! p = Some k <-> 0 <= k /\ exists part, vec !! Z.to_nat k = Some part /\ p ∈ part) ->
  Forall (fun p => (length p <= INDEX_MAX_BLOCKS)%nat) vec -> (2 <= length vec)%nat -> 2 * Z.of_nat (length vec) <= Z.of_nat (size G) ->
  exists ps sparse, fold_m (build_part G start block_of) (Parts idx [] ∅ start) vec = Ok ps /\
    graph_sparsification std_sort salt (adj_lists (next_level_block_adj_map ps)) (Z.of_nat MAX_BLOCK_NEIGHBOR) = Some sparse /\
    (forall pages level, 1 < level -> ready (LevelState pages (adj_lists (next_level_block_adj_map ps)) sparse ps level)) /\
    contracts G (up start block_of) (adj_lists (next_level_block_adj_map ps)) /\
    (size (adj_lists (next_level_block_adj_map ps)) < size G)%nat /\
    (forall u, is_Some (adj_lists (next_level_block_adj_map ps) !! u) <-> current_index_page_no ps < u <= start) /\
    (forall b, is_Some (G !! b) -> exists page part, built ps !! up start block_of b = Some page /\ index_shows page part G [] 0 /\
       forall c, c ∈ part <-> is_Some (G !! c) /\ up start block_of c = up start block_of b) /\
    (forall x, start < x -> built ps !! x = idx !! x).
Proof.
  intros HG Hconn Hn Hs Hw H1 H2 H3 H4 H5 H6.
  assert (Hst : Z.of_nat (length vec) <= start < 2 ^ 32) by lia.
  destruct (build_parts_ok G start vec block_of HG H1 H3 H4 Hw Hst _ 0%nat (Parts idx [] ∅ start) eq_refl ltac:(lia) ltac:(cbn; lia))
    as (ps & E & Eno & Elist & Hpages & Hframe & J). rewrite drop_0 in E. cbn [built level_page_no_list next_level_block_adj_map] in *.
  assert (J' : joins_more ∅ (crossing G start block_of (fun a => is_Some (G !! a))) (next_level_block_adj_map ps)).
  { apply (joins_more_iff _ _ _ _ J). intros u v. unfold crossing. split; intros (a & b & Ha & Hr); exists a, b; (split; [|done]).
    - destruct Ha as (j & part & _ & Hp & Ha). apply (key_part G vec H1). eauto.
    - apply (key_part G vec H1) in Ha as (j & part & Hp & Ha). exists j, part. split; [lia|done]. }
  destruct (contracted G start vec block_of HG H1 H3 H4 Hw Hst _ Hconn H5 H2 J') as (HG' & Hconn' & Hct & Hkeys).
  set (G' := adj_lists (next_level_block_adj_map ps)) in *.
  destruct (thinned G' HG') as (sparse & Esp & _).
  assert (Hnd : NoDup (level_page_no_list ps)).
  { rewrite Elist. cbn [app]. apply NoDup_fmap_2_strong; [|apply NoDup_seq]. intros x y _ _ Exy. lia. }
  assert (Hlist : forall b, b ∈ level_page_no_list ps <-> is_Some (G' !! b)).
  { intros b. rewrite Elist, Hkeys. cbn [app]. rewrite list_elem_of_fmap. split.
    - intros (k & -> & Hk). apply elem_of_seq in Hk. exists k. split; [lia|done].
    - intros (k & Hk & ->). exists k. split; [done|]. apply elem_of_seq. lia. }
  assert (Hsize : size G' = length vec).
  { rewrite <- (same_size G' _ Hnd Hlist), Elist. cbn [app]. by rewrite length_fmap, length_seq, Nat.sub_0_r. }
  exists ps, sparse. fold G'. split; [done|]. split; [done|]. split; [|split; [done|split; [lia|split; [|split]]]].
  - intros pages level Hl. constructor; cbn [block_adj_map sparse_block_adj_map parts current_level]; fold G'; try done; [lia|rewrite Hsize, Eno; lia| |].
    + intros b Hb. apply Hkeys in Hb as (k & Hk & ->). rewrite Eno. lia.
    + intros b Hb. apply Hkeys in Hb as (k & Hk & ->). destruct (lookup_lt_is_Some_2 vec k Hk) as [part Hp].
      destruct (Hpages k part ltac:(lia) Hp) as (page & Ep & Hsh). eauto.
  - intros u. rewrite Hkeys, Eno. split; [intros (k & Hk & ->); lia|]. intros Hu. exists (Z.to_nat (start - u)). lia.
  - intros b Hb. apply (key_part G vec H1) in Hb as (k & part & Hp & Hb).
    destruct (Hpages k part ltac:(lia) Hp) as (page & Ep & Hsh). exists page, part.
    pose proof (part_up start vec block_of H3 k part b Hp Hb) as Eup. rewrite Eup. split; [done|]. split; [done|].
    intros c. split.
    + intros Hc. split; [apply (key_part G vec H1); eauto|]. by apply (part_up start vec block_of H3 k part).
    + intros [Kc Ec]. by apply (up_part G start vec block_of H1 H3 k part).
  - intros x Hx. apply Hframe. lia.
Qed.

(** The levels above a state and the root. *)
Record finishes (st : level_t) (r : tat_build_result_t) (n : nat) (f : Z -> Z) : Prop := {
  fn_tower : tower (index_pages r) n (block_adj_map st) f (root_page_no r);
  fn_count : level_count r = current_level st + Z.of_nat n;
  fn_adopted : forall b, is_Some (block_adj_map st !! b) -> index_pages r !! b =
    adopt_index (f b) (get_neighbor_pages (sparse_block_adj_map st) b) <$> built (parts st) !! b;
  fn_width : forall b, is_Some (block_adj_map st !! b) -> in_width 64 (f b);
  fn_frame : forall x, current_index_page_no (parts st) < x -> block_adj_map st !! x = None -> index_pages r !! x = built (parts st) !! x;
  fn_root : next_index_page_no r = root_page_no r - 1 /\ 0 < root_page_no r <= current_index_page_no (parts st)
}.

Lemma sparse_ok st : ready st -> forall u,
  (is_Some (sparse_block_adj_map st !! u) <-> is_Some (block_adj_map st !! u)) /\ NoDup (get_neighbor_pages (sparse_block_adj_map st) u) /\
  (length (get_neighbor_pages (sparse_block_adj_map st) u) <= MAX_BLOCK_NEIGHBOR)%nat /\
  Forall (in_width 32) (get_neighbor_pages (sparse_block_adj_map st) u).
Proof.
  intros R u. destruct (thinned _ (rd_ok _ R)) as (sparse & E & Hs). rewrite (rd_sparse _ R) in E. injection E as <-.
  destruct (Hs u) as (H1 & H2 & H3 & H4). split; [done|]. split; [done|]. split; [done|]. apply Forall_forall. intros v Hv.
  pose proof (rd_keys _ R v (H4 v Hv)). pose proof (rd_room _ R). unfold in_width. lia.
Qed.

Lemma adopt_ready st strict f parent_of : ready st -> (forall b, is_Some (block_adj_map st !! b) -> parent_of b = Ok (f b)) ->
  exists idx, adopt_level true strict parent_of st = Ok (base st, idx) /\
    forall b, idx !! b = if bool_decide (is_Some (block_adj_map st !! b))
      then adopt_index (f b) (get_neighbor_pages (sparse_block_adj_map st) b) <$> built (parts st) !! b else built (parts st) !! b.
Proof.
  intros R Hp. unfold adopt_level. rewrite (proj2 (Z.eqb_neq _ _)) by (pose proof (rd_level _ R); lia). cbn [andb].
  destruct (adopt_indexes strict f (sparse_block_adj_map st) _ (rd_nodup _ R) (built (parts st))) with (parent_of := parent_of) as (idx & -> & Hi).
  - intros b Hb. apply (rd_list _ R), (rd_built _ R) in Hb as (page & ? & ? & E & _). eauto.
  - intros _ b Hb. by apply (sparse_ok st R), (rd_list _ R).
  - intros b Hb. by apply Hp, (rd_list _ R).
  - exists idx. split; [done|]. intros b. rewrite Hi.
    by rewrite (bool_decide_ext (b ∈ level_page_no_list (parts st)) (is_Some (block_adj_map st !! b))) by apply (rd_list _ R).
Qed.

Lemma root_page_ok G no : page_graph_ok G -> (size G <= INDEX_MAX_BLOCKS)%nat -> (forall u, is_Some (G !! u) -> in_width 32 u) ->
  exists page, index_page (uninit no) no (map_order salt G) = Ok page /\ page_shows page G (fun _ => True).
Proof.
  intros HG Hsz Hw. destruct (key_list G) as (keys & Hnd & Hlen & Hk).
  destruct (index_page_graph_shows G G keys (uninit no) no) as (page & E & Hsh).
  - intros u. by rewrite Hk.
  - done.
  - apply Forall_forall. intros u Hu. by apply Hw, Hk.
  - lia.
  - exists page. split; [done|]. apply (index_shows_page page keys G [] 0); [done|]. intros c. rewrite Hk. tauto.
Qed.

Lemma root_tower st : ready st -> (size (block_adj_map st) <= INDEX_MAX_BLOCKS)%nat ->
  exists r f, build_root true st = Some (Ok (base st, r)) /\ finishes st r 1 f.
Proof.
  intros R Hsz. unfold build_root. set (G := block_adj_map st) in *. set (no := current_index_page_no (parts st)).
  pose proof (rd_room _ R) as Hroom. pose proof (rd_pos _ R) as Hpos. fold G no in Hroom, Hpos.
  destruct (root_page_ok G no (rd_ok _ R) Hsz) as (page & E & Hshows).
  { intros u Hu. apply (rd_keys _ R) in Hu. fold no in Hu. unfold in_width. lia. }
  rewrite E. cbn [thrown mbind may_bind].
  set (st' := LevelState (base st) G (sparse_block_adj_map st) (Parts (<[no := page]> (built (parts st))) (level_page_no_list (parts st)) ∅ no) (current_level st)).
  assert (R' : ready st').
  { destruct R. constructor; cbn; try done. intros b Hb. destruct (rd_built0 b Hb) as (pg & blocks & g & Eb & Hs). exists pg, blocks, g.
    split; [|done]. rewrite lookup_insert_ne; [done|]. specialize (rd_keys0 b Hb). fold no in rd_keys0. lia. }
  destruct (adopt_ready st' false (fun _ => no) (fun _ => Ok no) R' (fun _ _ => eq_refl)) as (idx & Ea & Hidx).
  match goal with |- context [adopt_level true false ?p ?s] => change (adopt_level true false p s) with (adopt_level true false (fun _ : Z => Ok no) st') end.
  rewrite Ea. cbn [mbind may_bind]. eexists _, (fun _ => no). split; [done|].
  assert (Hno : forall b, is_Some (G !! b) -> no < b) by (intros b Hb; apply (rd_keys _ R b Hb)).
  assert (Eno : idx !! no = Some page).
  { rewrite Hidx, bool_decide_eq_false_2; [apply lookup_insert_eq|]. intros Hb. specialize (Hno _ Hb). lia. }
  constructor; cbn [index_pages root_page_no level_count next_index_page_no].
  - by apply tower_root with page.
  - lia.
  - intros b Hb. rewrite Hidx, bool_decide_eq_true_2 by done. cbn. rewrite lookup_insert_ne; [done|]. specialize (Hno b Hb). lia.
  - intros b _. unfold in_width. lia.
  - intros x Hx Hxn. rewrite Hidx, bool_decide_eq_false_2; [apply lookup_insert_ne; fold no in Hx; lia|]. fold G in Hxn. cbn. rewrite Hxn. by intros [? ?].
  - rewrite wrap_small by (unfold in_width; lia). fold no. lia.
Qed.

(** A level, once the pages below have been adopted. *)
Lemma build_level_ok st (pages : (Z -> Z) -> list Csr.csr_page_t) (idx : (Z -> Z) -> gmap Z index_page_t) :
  let G := block_adj_map st in let start := current_index_page_no (parts st) in
  page_graph_ok G -> connected G -> (INDEX_MAX_BLOCKS < size G)%nat -> Z.of_nat (size G) <= start < 2 ^ 32 ->
  (forall u, is_Some (G !! u) -> in_width 32 u) -> 0 < current_level st ->
  (forall up parent_of, (forall b, is_Some (G !! b) -> 0 <= up b <= start /\ parent_of b = Ok (up b)) ->
     adopt_level true true parent_of st = Ok (pages up, idx up)) ->
  exists st' up, build_level true st = Some (Ok st') /\ ready st' /\ base st' = pages up /\
    current_level st' = current_level st + 1 /\ (size (block_adj_map st') < size G)%nat /\ contracts G up (block_adj_map st') /\
    (forall u, is_Some (block_adj_map st' !! u) <-> current_index_page_no (parts st') < u <= start) /\
    (forall b, is_Some (G !! b) -> 0 <= up b <= start) /\
    (forall b, is_Some (G !! b) -> exists page part, built (parts st') !! up b = Some page /\ index_shows page part G [] 0 /\
       forall c, c ∈ part <-> is_Some (G !! c) /\ up c = up b) /\
    (forall x, start < x -> built (parts st') !! x = idx up !! x) /\ current_index_page_no (parts st') <= start.
Proof.
  intros G start HG Hconn Hn Hs Hw Hlv Hadopt.
  destruct (level_partition G ltac:(pose proof fill_le; lia) ltac:(lia)) as (vec & block_of & E & H1 & H2 & H3 & H4 & H5 & H6).
  assert (Hup : forall b, is_Some (G !! b) -> exists k, block_of !! b = Some k /\ up start block_of b = start - k /\ 0 <= k < Z.of_nat (length vec)).
  { intros b Hb. apply (key_part G vec H1) in Hb as (k & part & Hk & Hb). exists (Z.of_nat k).
    split; [by apply (part_block vec block_of H3 k part)|]. split; [by apply (part_up start vec block_of H3 k part)|]. apply lookup_lt_Some in Hk. lia. }
  assert (Hrange : forall b, is_Some (G !! b) -> 0 <= up start block_of b <= start) by (intros b Hb; destruct (Hup b Hb) as (k & _ & -> & Hk); lia).
  assert (Ha : adopt_level true true (fun no => k ← at_key block_of no; Ok (u32 (start - k))) st = Ok (pages (up start block_of), idx (up start block_of))).
  { apply Hadopt. intros b Hb. split; [by apply Hrange|]. destruct (Hup b Hb) as (k & Ek & Eu & Hk). unfold at_key. rewrite Ek. cbn.
    rewrite wrap_small by (unfold in_width; lia). by rewrite Eu. }
  destruct (next_ready G start (idx (up start block_of)) vec block_of HG Hconn Hn Hs Hw H1 H2 H3 H4 H5 H6)
    as (ps & sparse & Eps & Esp & Hr & Hct & Hsz & Hkeys & Hb & Hf).
  exists (LevelState (pages (up start block_of)) (adj_lists (next_level_block_adj_map ps)) sparse ps (current_level st + 1)), (up start block_of).
  split.
  - unfold build_level. fold G start. change (@mbind may may_bind) with (fun A B (f : A -> may B) (m : may A) => may_bind A B f m). cbv beta.
    rewrite E. cbn [may_bind]. rewrite Ha. cbn [thrown may_bind]. rewrite Eps. cbn [may_bind]. rewrite Esp. done.
  - split; [apply Hr; lia|]. repeat (split; [done|]). cbn. destruct (build_parts_ok G start vec block_of HG H1 H3 H4 Hw ltac:(lia) _ 0%nat
      (Parts (idx (up start block_of)) [] ∅ start) eq_refl ltac:(lia) ltac:(cbn; lia)) as (ps' & E' & Eno & _).
    rewrite drop_0, Eps in E'. injection E' as <-. lia.
Qed.

(** A level below a finished tower. *)
Lemma tower_up st' r n f G up0 : ready st' -> finishes st' r n f -> contracts G up0 (block_adj_map st') ->
  (forall b, is_Some (G !! b) -> exists page part, built (parts st') !! up0 b = Some page /\ index_shows page part G [] 0 /\
     forall c, c ∈ part <-> is_Some (G !! c) /\ up0 c = up0 b) ->
  tower (index_pages r) (S n) G up0 (root_page_no r).
Proof.
  intros R F Hct Hb.
  assert (Hfinal : forall a, is_Some (G !! a) -> exists page part, index_pages r !! up0 a = Some page /\
    index_shows page part G (get_neighbor_pages (sparse_block_adj_map st') (up0 a)) (f (up0 a)) /\
    forall c, c ∈ part <-> is_Some (G !! c) /\ up0 c = up0 a).
  { intros a Ha. destruct (Hb a Ha) as (page & part & Ep & Hs & Hpart).
    assert (Hk : is_Some (block_adj_map st' !! up0 a)) by (apply (ct_pages _ _ _ Hct); eauto).
    exists (adopt_index (f (up0 a)) (get_neighbor_pages (sparse_block_adj_map st') (up0 a)) page), part.
    split; [by rewrite (fn_adopted _ _ _ _ F), Ep|]. split; [|done]. destruct (sparse_ok st' R (up0 a)) as (_ & S1 & S2 & S3).
    by apply (adopt_index_shows _ _ _ 0); [|apply (fn_width _ _ _ _ F)|..]. }
  apply tower_level with (block_adj_map st') f (sparse_block_adj_map st'); [|done|apply (rd_sparse _ R)| |apply F].
  - intros b Hb'. destruct (Hfinal b Hb') as (page & part & Ep & Hs & Hpart). exists page. split; [done|]. by eapply index_shows_page.
  - intros b Hb'. apply (ct_pages _ _ _ Hct) in Hb' as (a & Ha & <-). destruct (Hfinal a Ha) as (page & part & Ep & (bs & es & Rp & _) & _).
    exists page. split; [done|]. split; [apply (rep_parent _ _ Rp)|apply (rep_neighbors _ _ Rp)].
Qed.

Lemma levels_tower fuel : forall st, ready st -> (size (block_adj_map st) <= fuel)%nat ->
  exists r n f, (st' ← build_levels fuel true st; build_root true st') = Some (Ok (base st, r)) /\ finishes st r n f.
Proof.
  induction fuel as [|fuel IH]; intros st R Hf; [pose proof (rd_pos _ R); lia|]. cbn [build_levels].
  destruct (Nat.leb_spec (size (block_adj_map st)) INDEX_MAX_BLOCKS) as [Hle|Hgt].
  { destruct (root_tower st R Hle) as (r & f & E & F). by exists r, 1%nat, f. }
  set (idx0 := fun up0 : Z -> Z => map_imap (fun b page => Some (if bool_decide (is_Some (block_adj_map st !! b))
    then adopt_index (up0 b) (get_neighbor_pages (sparse_block_adj_map st) b) page else page)) (built (parts st))).
  assert (Hidx : forall up0 x, idx0 up0 !! x = if bool_decide (is_Some (block_adj_map st !! x))
      then adopt_index (up0 x) (get_neighbor_pages (sparse_block_adj_map st) x) <$> built (parts st) !! x else built (parts st) !! x).
  { intros up0 x. unfold idx0. rewrite map_lookup_imap. destruct (built (parts st) !! x); cbn; by case_bool_decide. }
  destruct (build_level_ok st (fun _ => base st) idx0) as (st1 & up0 & E & R1 & Ebase & Elv & Hsz & Hct & Hkeys & Hrange & Hb & Hframe & Hno).
  - apply (rd_ok _ R).
  - apply (rd_connected _ R).
  - done.
  - apply (rd_room _ R).
  - intros u Hu. pose proof (rd_keys _ R u Hu). pose proof (rd_room _ R). unfold in_width. lia.
  - pose proof (rd_level _ R). lia.
  - intros up0 parent_of Hp. destruct (adopt_ready st true up0 parent_of R) as (idx & Ea & Hi); [intros b Hb; by apply Hp|].
    rewrite Ea. repeat f_equal. apply map_eq. intros x. by rewrite Hi, Hidx.
  - rewrite E. change (@mbind may may_bind) with (fun A B (f : A -> may B) (m : may A) => may_bind A B f m). cbv beta. cbn [may_bind].
    destruct (IH st1 R1 ltac:(lia)) as (r & n & f & Er & F).
    change (@mbind may may_bind) with (fun A B (f : A -> may B) (m : may A) => may_bind A B f m) in Er. cbv beta in Er.
    exists r, (S n), up0. rewrite Er, Ebase. split; [done|]. pose proof (rd_room _ R) as Hroom. constructor.
    + by apply (tower_up st1 r n f).
    + rewrite (fn_count _ _ _ _ F), Elv. lia.
    + intros b Kb. pose proof (rd_keys _ R b Kb) as Hbk. rewrite (fn_frame _ _ _ _ F), Hframe, Hidx, bool_decide_eq_true_2; [done|done|lia|lia|].
      apply eq_None_not_Some. intros Hs%Hkeys. lia.
    + intros b Kb. specialize (Hrange b Kb). unfold in_width. lia.
    + intros x Hx Hnone. rewrite (fn_frame _ _ _ _ F), Hframe, Hidx, bool_decide_eq_false_2; [done|rewrite Hnone; by intros [? ?]|lia|lia|].
      apply eq_None_not_Some. intros Hs%Hkeys. lia.
    + destruct (fn_root _ _ _ _ F) as [? ?]. split; [done|]. lia.
Qed.

(** ** Above base pages *)

Lemma adopt_csrs_ok (up0 : Z -> Z) parent_of sparse pages :
  (forall p, p ∈ pages -> parent_of (Csr.page_no p) = Ok (up0 (Csr.page_no p)) /\ is_Some (sparse !! Csr.page_no p)) ->
  adopt_csrs parent_of sparse pages =
    Ok ((fun p => adopt_csr (up0 (Csr.page_no p)) (get_neighbor_pages sparse (Csr.page_no p)) p) <$> pages).
Proof.
  induction pages as [|p pages IH]; intros Hp; [done|]. cbn [adopt_csrs]. destruct (Hp p) as [-> [ns E]]; [by left|].
  rewrite IH by (intros q Hq; apply Hp; by right). unfold at_key, get_neighbor_pages. rewrite E. cbn. by rewrite E.
Qed.

Lemma adopt_csr_fields parent ns p : Csr.page_no (adopt_csr parent ns p) = Csr.page_no p /\ Csr.parent_page_no_ (adopt_csr parent ns p) = parent.
Proof.
  unfold adopt_csr. assert (Hfold : forall l q, Csr.page_no (foldl (fun p n => (Csr.add_neighbor_page_no p n).2) q l) = Csr.page_no q /\
    Csr.parent_page_no_ (foldl (fun p n => (Csr.add_neighbor_page_no p n).2) q l) = Csr.parent_page_no_ q).
  { induction l as [|n l IH]; intros q; cbn [foldl]; [done|]. destruct (IH (Csr.add_neighbor_page_no q n).2) as [-> ->].
    unfold Csr.add_neighbor_page_no. by repeat case_match. }
  destruct (Hfold (take MAX_BLOCK_NEIGHBOR ns) (Csr.set_parent_page_no p parent)) as [-> ->]. done.
Qed.

Lemma fold_m_inv {A B} (f : B -> A -> option B) (P : B -> Prop) l :
  (forall b a b', P b -> f b a = Some b' -> P b') -> forall b b', P b -> fold_m f b l = Some b' -> P b'.
Proof.
  intros Hf. induction l as [|a l IH]; intros b b' Hb E; cbn [fold_m] in E; [by injection E as <-|].
  apply bind_Some in E as (b1 & E1 & E). apply (IH b1); [|done]. by apply (Hf b a).
Qed.

(** What [page_graph] keeps while it joins pages. *)
Record joining (nos : list Z) (m : gmap Z (gset Z)) : Prop := {
  jn_edge : forall u v, joined m u v -> u <> v /\ joined m v u /\ is_Some (m !! v);
  jn_nos : forall no, no ∈ nos -> is_Some (m !! no)
}.

Lemma reserve_pages_lookup nos : forall (m : gmap Z (gset Z)) u,
  foldl (fun m no => match m !! no with Some _ => m | None => <[no := ∅]> m end) m nos !! u =
    match m !! u with Some x => Some x | None => if bool_decide (u ∈ nos) then Some ∅ else None end.
Proof.
  induction nos as [|n nos IH]; intros m u; cbn [foldl].
  - rewrite bool_decide_eq_false_2 by apply not_elem_of_nil. by destruct (m !! u).
  - rewrite IH. assert (E : bool_decide (u ∈ n :: nos) = bool_decide (u = n) || bool_decide (u ∈ nos)).
    { rewrite <- bool_decide_or. apply bool_decide_ext, elem_of_cons. }
    rewrite E. destruct (m !! n) as [x|] eqn:En.
    + destruct (m !! u) eqn:Eu; [done|]. rewrite (bool_decide_eq_false_2 (u = n)); [done|]. intros ->. congruence.
    + rewrite lookup_insert. destruct (decide (n = u)) as [<-|Hn]; [by rewrite En, (bool_decide_eq_true_2 (n = n)) by done|].
      by rewrite (bool_decide_eq_false_2 (u = n)) by congruence.
Qed.

Lemma page_graph_joining g vi pages m : page_graph g vi pages = Some m -> joining (Csr.page_no <$> pages) m.
Proof.
  unfold page_graph. set (nos := Csr.page_no <$> pages). apply (fold_m_inv _ (joining nos)).
  - intros m1 p m2 H1. apply (fold_m_inv _ (joining nos)); [|done]. intros m3 v m4 H3.
    apply (fold_m_inv _ (joining nos)); [|done]. intros m5 nb m6 [J1 J2] E. unfold link_neighbor in E.
    apply bind_Some in E as ([loc off] & _ & [= <-]). destruct (Z.eqb_spec loc (Csr.page_no p)) as [|Hne]; [done|]. constructor.
    + intros u v'. rewrite !link_pages_joined, link_pages_dom. intros [Hj|[[-> ->]|[-> ->]]]; [destruct (J1 _ _ Hj) as (? & ? & ?); tauto|naive_solver..].
    + intros no Hno. apply link_pages_dom. left. by apply J2.
  - unfold reserve_pages. constructor.
    + intros u v. rewrite reserve_pages_lookup, lookup_empty. case_bool_decide; cbn; set_solver.
    + intros no Hno. rewrite reserve_pages_lookup, lookup_empty, bool_decide_eq_true_2 by done. eauto.
Qed.

Lemma joining_ok nos m : joining nos m -> page_graph_ok (adj_lists m).
Proof.
  intros [J1 _]. constructor; intros u v Hv%adj_lists_elem; destruct (J1 u v Hv) as (? & ? & ?); [by apply adj_lists_dom|by apply adj_lists_elem|done].
Qed.

(** The loop and the root above base pages, given what adopting them does. *)
Lemma base_tower pages adopted G sparse start :
  page_graph_ok G -> connected G -> (0 < size G)%nat -> Z.of_nat (size G) <= start < 2 ^ 32 -> (forall u, is_Some (G !! u) -> in_width 32 u) ->
  let st := LevelState pages G sparse (Parts ∅ [] ∅ start) 1 in
  (forall ps strict up0 parent_of, (forall b, is_Some (G !! b) -> parent_of b = Ok (up0 b)) ->
    adopt_level true strict parent_of (LevelState pages G sparse ps 1) = Ok (adopted up0, built ps)) ->
  exists r n up0, (st' ← build_levels (size G) true st; build_root true st') = Some (Ok (adopted up0, r)) /\
    tower (index_pages r) n G up0 (root_page_no r) /\ level_count r = Z.of_nat n + 1 /\
    next_index_page_no r = root_page_no r - 1 /\ 0 < root_page_no r <= start.
Proof.
  intros HG Hconn Hpos Hs Hw st Hadopt.
  change (@mbind may may_bind) with (fun A B (f : A -> may B) (m : may A) => may_bind A B f m). cbv beta.
  destruct (size G) as [|fuel] eqn:Esz; [lia|]. cbn [build_levels]. cbn [st block_adj_map]. rewrite Esz.
  destruct (Nat.leb_spec (S fuel) INDEX_MAX_BLOCKS) as [Hle|Hgt].
  - destruct (root_page_ok G start HG ltac:(lia) Hw) as (page & E & Hshows). cbn [mret may_ret may_bind].
    unfold build_root. cbn [st base block_adj_map sparse_block_adj_map parts current_index_page_no current_level built level_page_no_list].
    rewrite E. cbn [thrown mbind may_bind]. rewrite (Hadopt _ false (fun _ => start)) by done. cbn [thrown mbind may_bind built].
    eexists _, 1%nat, (fun _ => start). split; [done|]. cbn. split; [apply tower_root with page; [apply lookup_insert_eq|done]|]. rewrite wrap_small by (unfold in_width; lia). lia.
  - destruct (build_level_ok st adopted (fun _ => ∅)) as (st1 & up0 & E & R1 & Ebase & Elv & Hsz & Hct & Hkeys & Hrange & Hb & Hframe & Hno);
      cbn [st block_adj_map parts current_index_page_no current_level]; try done; [lia|lia| |].
    { intros up0 parent_of Hp. apply Hadopt. intros b Hb. by apply Hp. }
    cbn [st block_adj_map parts current_index_page_no] in *.
    change (@mbind may may_bind) with (fun A B (f : A -> may B) (m : may A) => may_bind A B f m). cbv beta. rewrite E. cbn [may_bind].
    destruct (levels_tower fuel st1 R1 ltac:(lia)) as (r & n & f & Er & F).
    exists r, (S n), up0. rewrite <- Ebase. split; [exact Er|]. destruct (fn_root _ _ _ _ F) as [? ?].
    split; [by apply (tower_up st1 r n f)|]. rewrite (fn_count _ _ _ _ F), Elv. cbn. lia.
Qed.

(** C36: the hierarchy over base pages.  When the pages are connected, fit the
    numbers below the first index page, and the partitioner keeps to the block
    weights, building ends, whatever the hash and sorting orders.  Every base
    page has recorded the index page that lists it.  Above it the index pages
    form a tower: each shows the pages below it with the edges between them,
    each but the root has recorded its parent, which lists it in turn, and its
    thinned neighbours, and the last level is the root.  Numbers go down from
    the first one to the root and stay positive. *)
Theorem tat_from_csr_pages pages start vi g m :
  page_graph g vi pages = Some m -> connected (adj_lists m) -> pages <> [] ->
  (forall u, is_Some (m !! u) -> in_width 32 u) -> Z.of_nat (size m) <= start < 2 ^ 32 ->
  exists pages' r n up0, build_tat_from_csr_pages pages start vi g = Some (Ok (pages', r)) /\
    Csr.page_no <$> pages' = Csr.page_no <$> pages /\
    (forall p, p ∈ pages' -> Csr.parent_page_no_ p = up0 (Csr.page_no p)) /\
    (forall p, p ∈ pages -> is_Some (adj_lists m !! Csr.page_no p)) /\
    tower (index_pages r) n (adj_lists m) up0 (root_page_no r) /\
    level_count r = Z.of_nat n + 1 /\ next_index_page_no r = root_page_no r - 1 /\ 0 < root_page_no r <= start.
Proof.
  intros Em Hconn Hne Hw Hs. set (G := adj_lists m) in *.
  pose proof (page_graph_joining g vi pages m Em) as Hj. pose proof (joining_ok _ _ Hj) as HG. fold G in HG.
  assert (Hkeys : forall p, p ∈ pages -> is_Some (G !! Csr.page_no p)).
  { intros p Hp. apply adj_lists_dom, (jn_nos _ _ Hj). apply list_elem_of_fmap. by exists p. }
  assert (Hsize : size G = size m) by apply map_size_fmap.
  destruct (thinned G HG) as (sparse & Esp & Hsp).
  set (adopted := fun up0 : Z -> Z => (fun p => adopt_csr (up0 (Csr.page_no p)) (get_neighbor_pages sparse (Csr.page_no p)) p) <$> pages).
  assert (Hnos : forall up0, Csr.page_no <$> adopted up0 = Csr.page_no <$> pages).
  { intros up0. unfold adopted. rewrite <- list_fmap_compose. apply list_fmap_ext. intros i p _. apply adopt_csr_fields. }
  assert (Hpar : forall up0 p, p ∈ adopted up0 -> Csr.parent_page_no_ p = up0 (Csr.page_no p)).
  { intros up0 p Hp. apply list_elem_of_fmap in Hp as (q & -> & _). by destruct (adopt_csr_fields (up0 (Csr.page_no q)) (get_neighbor_pages sparse (Csr.page_no q)) q) as [-> ->]. }
  destruct (base_tower pages adopted G sparse start HG Hconn) as (r & n & up0 & E & Ht & Hr).
  - destruct pages as [|p pages]; [done|]. destruct (Hkeys p ltac:(by left)) as [l Hl]. apply Nat.neq_0_lt_0. intros E0.
    apply map_size_empty_iff in E0. rewrite E0, lookup_empty in Hl. done.
  - lia.
  - intros u Hu. by apply Hw, adj_lists_dom.
  - intros ps strict up0 parent_of Hp. unfold adopt_level. cbn [andb current_level Z.eqb Pos.eqb base sparse_block_adj_map parts].
    rewrite (adopt_csrs_ok up0); [done|]. intros p Hp'. split; [apply Hp, Hkeys, Hp'|]. apply Hsp, Hkeys, Hp'.
  - exists (adopted up0), r, n, up0. split; [|split; [apply Hnos|split; [apply Hpar|done]]].
    unfold build_tat_from_csr_pages, build_tat. rewrite Em. cbn [defined fmap option_fmap option_map mbind may_bind].
    fold G. rewrite Esp. cbn [fmap option_fmap option_map]. exact E.
Qed.

(** ** Above the roots of partitions *)

Lemma unlinked_roots idx roots : (forall no, no ∈ roots -> exists p, idx !! no = Some p /\ read_neighbor_block_clone p = []) ->
  index_page_graph idx roots = reserve_pages roots.
Proof.
  intros Hr. unfold index_page_graph. generalize (reserve_pages roots). induction roots as [|no roots IH]; intros m; cbn [foldl]; [done|].
  destruct (Hr no) as (p & -> & E); [by left|]. cbn. rewrite E. apply IH. intros no' Hno. apply Hr. by right.
Qed.

Lemma joins_none R m : joins_more ∅ R m -> (forall u v, ~ R u v) -> m = ∅.
Proof.
  intros [_ J] Hn. apply map_eq. intros u. rewrite lookup_empty. apply eq_None_not_Some. intros [[? ?]|[v [H1|H1]]]%J; [done|by apply (Hn u v)|by apply (Hn v u)].
Qed.

(** The hierarchy over the roots of the partitions' hierarchies.  A root
    has no neighbours of its own, so the graph between roots has no edges; when
    the roots do not fit one page, the contracted graph, which gets its pages
    from its edges, is empty: the index pages built above the roots have the
    new root as their parent, but it lists none of them. *)
Theorem global_root_lists_nothing idx roots start :
  NoDup roots -> (forall no, no ∈ roots -> start < no < 2 ^ 32 /\ exists p, idx !! no = Some p /\ read_neighbor_block_clone p = []) ->
  (INDEX_MAX_BLOCKS < length roots)%nat -> Z.of_nat (length roots) <= start ->
  exists r root, build_tat_from_index_pages idx roots start = Some (Ok r) /\ index_pages r !! root_page_no r = Some root /\
    get_blocks root = [] /\ level_count r = 3 /\
    forall no, root_page_no r < no <= start -> exists p, index_pages r !! no = Some p /\ parent_page_no_ p = root_page_no r.
Proof.
  intros Hnd Hroots Hlen Hstart.
  assert (Eg : index_page_graph idx roots = reserve_pages roots) by (apply unlinked_roots; intros no Hno; by apply Hroots).
  set (G := adj_lists (reserve_pages roots)).
  assert (HGk : forall u, u ∈ roots <-> is_Some (G !! u)).
  { intros u. unfold G. rewrite adj_lists_dom. unfold reserve_pages. rewrite reserve_pages_lookup, lookup_empty. case_bool_decide; split; [eauto|done|done|by intros [? ?]]. }
  assert (HGn : forall u, get_neighbor_pages G u = []).
  { intros u. destruct (get_neighbor_pages G u) as [|v l] eqn:E; [done|]. assert (Hv : v ∈ get_neighbor_pages G u) by (rewrite E; by left).
    unfold G in Hv. rewrite adj_lists_elem in Hv. unfold reserve_pages in Hv. rewrite reserve_pages_lookup, lookup_empty in Hv. case_bool_decide; set_solver. }
  assert (HG : page_graph_ok G) by (constructor; intros u v; rewrite HGn; by intros Hv%elem_of_nil).
  pose proof (same_size G roots Hnd HGk) as Hsz.
  assert (Hw : forall u, is_Some (G !! u) -> in_width 32 u) by (intros u Hu; apply HGk, Hroots in Hu as [? _]; unfold in_width; lia).
  destruct (thinned G HG) as (sparse & Esp & Hsp).
  destruct (level_partition G ltac:(pose proof fill_le; lia)) as (vec & block_of & E & H1 & H2 & H3 & H4 & H5 & H6).
  { destruct roots as [|no roots]; [cbn in Hlen; lia|]. destruct (Hroots no ltac:(by left)) as [? _]. lia. }
  assert (Hs : start < 2 ^ 32) by (destruct roots as [|no roots]; [cbn in Hlen; lia|]; destruct (Hroots no ltac:(by left)) as [? _]; lia).
  set (up0 := up start block_of).
  destruct (adopt_indexes false up0 sparse roots Hnd idx) with (parent_of := fun no => k ← at_key block_of no; Ok (u32 (start - k))) as (idx1 & Ea & Hi).
  { intros no Hno. destruct (Hroots no Hno) as (_ & p & Ep & _). eauto. }
  { done. }
  { intros no Hno. apply HGk, (key_part G vec H1) in Hno as (k & part & Hk & Hno). unfold at_key. rewrite (part_block vec block_of H3 k part no) by done.
    cbn. unfold up0. rewrite (part_up start vec block_of H3 k part no) by done. apply lookup_lt_Some in Hk. by rewrite wrap_small by (unfold in_width; lia). }
  destruct (build_parts_ok G start vec block_of HG H1 H3 H4 Hw ltac:(lia) _ 0%nat (Parts idx1 [] ∅ start) eq_refl ltac:(lia) ltac:(cbn; lia))
    as (ps & Eps & Eno & Elist & Hpages & Hframe & J). rewrite drop_0 in Eps.
  assert (Enext : next_level_block_adj_map ps = ∅).
  { apply (joins_none _ _ J). intros u v (a & b & _ & Hb & _). rewrite HGn in Hb. by apply elem_of_nil in Hb. }
  cbn [level_page_no_list app] in Elist.
  set (root := current_index_page_no ps).
  destruct (root_page_ok ∅ root) as (page & Epage & _ & Hb & _); [constructor; intros u v Hv; by apply elem_of_nil in Hv|rewrite map_size_empty; lia|intros u [? ?]; done|].
  assert (Hroot : get_blocks page = []).
  { destruct (get_blocks page) as [|c l] eqn:Eb; [done|]. assert (Hc : is_Some ((∅ : gmap Z (list Z)) !! c)) by (apply Hb; by left).
    rewrite lookup_empty in Hc. by destruct Hc. }
  assert (Hnos : forall no, no ∈ level_page_no_list ps <-> root < no <= start).
  { intros no. rewrite Elist, list_elem_of_fmap. unfold root. rewrite Eno. split.
    - intros (k & -> & Hk). apply elem_of_seq in Hk. lia.
    - intros Hno. exists (Z.to_nat (start - no)). split; [lia|]. apply elem_of_seq. lia. }
  destruct (adopt_indexes false (fun _ => root) ∅ (level_page_no_list ps)) with (idx := <[root := page]> (built ps)) (parent_of := fun _ : Z => Ok root) as (idx2 & Ea2 & Hi2).
  { rewrite Elist. apply NoDup_fmap_2_strong; [|apply NoDup_seq]. intros x y _ _ Exy. lia. }
  { intros no Hno. apply Hnos in Hno. rewrite lookup_insert_ne by lia. destruct (lookup_lt_is_Some_2 vec (Z.to_nat (start - no))) as [part Hp]; [unfold root in Hno; lia|].
    destruct (Hpages _ part ltac:(lia) Hp) as (pg & Epg & _). replace (start - Z.of_nat (Z.to_nat (start - no))) with no in Epg by lia. eauto. }
  { done. }
  { done. }
  exists (TatResult idx2 root 3 (u32 (root - 1))), page. split; [|split; [|split; [done|split; [done|]]]]; cbn [index_pages root_page_no].
  - unfold build_tat_from_index_pages, build_tat. rewrite Eg. fold G.
    change (@mbind may may_bind) with (fun A B (f : A -> may B) (m : may A) => may_bind A B f m). cbv beta.
    rewrite Esp. cbn [defined fmap option_fmap option_map may_bind]. rewrite Hsz in Hlen.
    destruct (size G) as [|fuel] eqn:Esz; [lia|]. cbn [build_levels block_adj_map]. rewrite Esz.
    rewrite (proj2 (Nat.leb_gt _ _)) by lia. unfold build_level, adopt_level. cbn [parts current_index_page_no block_adj_map andb sparse_block_adj_map built level_page_no_list base current_level].
    change (@mbind may may_bind) with (fun A B (f : A -> may B) (m : may A) => may_bind A B f m). cbv beta.
    rewrite E. cbn [may_bind]. rewrite Ea. cbn [mbind res_bind thrown may_bind]. rewrite Eps. cbn [may_bind]. rewrite Enext.
    assert (Egs : graph_sparsification std_sort salt (adj_lists ∅) (Z.of_nat MAX_BLOCK_NEIGHBOR) = Some ∅).
    { unfold graph_sparsification, adj_lists. rewrite fmap_empty, (bool_decide_eq_true_2 (∅ = ∅)) by done. by rewrite orb_true_r. }
    rewrite Egs. cbn [defined fmap option_fmap option_map may_bind mret may_ret].
    assert (Elv : forall st, block_adj_map st = ∅ -> build_levels fuel false st = Some (Ok st)).
    { intros st Est. destruct fuel; cbn [build_levels]; by rewrite Est, map_size_empty. }
    rewrite Elv by (cbn [block_adj_map]; unfold adj_lists; by rewrite fmap_empty). cbn [may_bind].
    unfold build_root, adopt_level. cbn [parts current_index_page_no block_adj_map andb sparse_block_adj_map built level_page_no_list base current_level].
    fold root. unfold adj_lists. rewrite fmap_empty, Epage. cbn [thrown mbind may_bind]. rewrite Ea2. done.
  - rewrite Hi2, bool_decide_eq_false_2; [apply lookup_insert_eq|]. rewrite Hnos. lia.
  - intros no Hno. rewrite Hi2, bool_decide_eq_true_2 by (by apply Hnos). rewrite lookup_insert_ne by lia.
    destruct (lookup_lt_is_Some_2 vec (Z.to_nat (start - no))) as [part Hp]; [unfold root in Hno; lia|].
    destruct (Hpages _ part ltac:(lia) Hp) as (pg & Epg & Hshow). replace (start - Z.of_nat (Z.to_nat (start - no))) with no in Epg by lia.
    rewrite Epg. cbn. eexists. split; [done|].
    destruct (adopt_index_shows pg part G 0 root [] Hshow) as (bs & es & Rp & _); [unfold in_width, root; lia|constructor|constructor|cbn; lia|].
    apply (rep_parent _ _ Rp).
Qed.

End Build.
End Tat.
