(* ===== verification/TatSmo.v ===== *)
(** * The page hierarchy under consolidation ([smo.cc],
    [update_index_no_split], [update_index_split], [do_index_split])

    When a consolidation replaces a base page, its index page is rebuilt with
    the new pages in place of the old one; an index page that grows too large
    is split, and its parent rebuilt.  A rebuilt index page is a new object
    under the old number, and the old object is deleted.  The map of index
    pages and the pointer to the root refer to objects, so the model has a
    heap. *)

From S2P Require Import Prelude Config VertexIndex IndexPage Reorder Smo Partition PartitionMap Tat.

Local Open Scope Z_scope.

Module TatSmo.
Import VIndex Index PartitionMap Tat.

(** The members of [smo_ctl_t] and the objects they refer to.  [index_heap]:
    the live objects; addresses are not used again. *)
Record index_state := IndexState {
  index_heap : gmap Z index_page_t;
  next_address : Z;
  index_page_map_ : gmap Z Z;
  root_index_page_ : Z;
  next_index_page_no_ : Z
}.

Section Ops.
Context {cfg : Config} {KM : KaMinPar} {MO : MapOrder}.
Variables (uninit : Z -> Z) (salt : nat).

(** [None]: the object has been deleted. *)
Definition deref (st : index_state) (a : Z) : may index_page_t := defined (index_heap st !! a).

(** [new], then an entry of the map. *)
Definition install (st : index_state) (no : Z) (p : index_page_t) : index_state :=
  IndexState (<[next_address st := p]> (index_heap st)) (next_address st + 1) (<[no := next_address st]> (index_page_map_ st))
    (root_index_page_ st) (next_index_page_no_ st).

Definition free_page (st : index_state) (a : Z) : index_state :=
  IndexState (delete a (index_heap st)) (next_address st) (index_page_map_ st) (root_index_page_ st) (next_index_page_no_ st).

(** A page with new content under the number of [old_idx], whose parent and
    neighbours it takes; the old object goes. *)
Definition replace_page (st : index_state) (no a : Z) (old_idx : index_page_t) (adj : gmap Z (list Z)) : may index_state :=
  new_idx ← thrown (index_page (uninit no) no (map_order salt adj));
  let new_idx := set_parent_page_no new_idx (parent_page_no_ old_idx) in
  let new_idx := foldl (fun p np => (add_neighbor_page_no p np).2) new_idx (read_neighbor_block_clone old_idx) in
  mret (free_page (install st no new_idx) a).

(** ** Without a split *)

Definition rename_page (old new : Z) (adj : gmap Z (list Z)) : gmap Z (list Z) :=
  let adj := match adj !! old with Some edges => <[new := edges]> (delete old adj) | None => adj end in
  (fun nbrs : list Z => (fun n => if n =? old then new else n) <$> nbrs) <$> adj.

Definition update_index_no_split (st : index_state) (old_csr_page_no new_csr_page_no old_parent_no : Z) : may index_state :=
  match index_page_map_ st !! old_parent_no with
  | None => mret st
  | Some a =>
    old_idx ← deref st a;
    let '(adj, old_idx) := get_block_adj_map old_idx in
    replace_page st old_parent_no a old_idx (rename_page old_csr_page_no new_csr_page_no adj)
  end.

(** ** With a split *)

Definition remove_page (old : Z) (adj : gmap Z (list Z)) : gmap Z (list Z) :=
  (fun nbrs : list Z => filter (fun n => n <> old) nbrs) <$> delete old adj.

Definition add_pages (pages : list Z) (adj : gmap Z (list Z)) : gmap Z (list Z) :=
  foldl (fun adj p => <[p := []]> adj) adj pages.

(** One direction, when the page is there and does not list the other yet. *)
Definition add_page_edge (adj : gmap Z (list Z)) (from to : Z) : gmap Z (list Z) :=
  alter (fun edges => if bool_decide (to ∈ edges) then edges else edges ++ [to]) from adj.

Definition add_crossing (vi : vertex_index_t) (v_page : Z) (adj : gmap Z (list Z)) (u : Z) : option (gmap Z (list Z)) :=
  '(u_page, _) ← get_vertex_location vi (Z.to_nat u);
  Some (if u_page =? v_page then adj else add_page_edge (add_page_edge adj v_page u_page) u_page v_page).

Definition add_crossings (vi : vertex_index_t) (adj : gmap Z (list Z)) (q : Z * list Z) : option (gmap Z (list Z)) :=
  '(v_page, _) ← get_vertex_location vi (Z.to_nat q.1);
  fold_m (add_crossing vi v_page) adj q.2.

(** The new pages of an index split below their parent: every pair is joined. *)
Definition join_pair (adj : gmap Z (list Z)) (a b : Z) : gmap Z (list Z) :=
  alter (fun l => l ++ [a]) b (alter (fun l => l ++ [b]) a adj).

Fixpoint join_all (nos : list Z) (adj : gmap Z (list Z)) : gmap Z (list Z) :=
  match nos with
  | [] => adj
  | a :: nos => join_all nos (foldl (fun adj b => join_pair adj a b) adj nos)
  end.

Definition set_parents (st : index_state) (parent : Z) (nos : list Z) : index_state :=
  foldl (fun st no => match index_page_map_ st !! no with
    | Some a => IndexState (alter (fun p => set_parent_page_no p parent) a (index_heap st)) (next_address st) (index_page_map_ st)
                  (root_index_page_ st) (next_index_page_no_ st)
    | None => st
    end) st nos.

(** An index page for a block of the partition. *)
Definition split_off (new_adj : gmap Z (list Z)) (grandparent_no : Z) (s : index_state * list Z) (sub_partition : list Z) :
    res (index_state * list Z) :=
  let '(st, nos) := s in
  match sub_partition with
  | [] => Ok (st, nos)
  | _ =>
    let no := next_index_page_no_ st in
    let st := IndexState (index_heap st) (next_address st) (index_page_map_ st) (root_index_page_ st) (u32 (no - 1)) in
    page ← index_page (uninit no) no (map_order salt (induced_block_subgraph new_adj sub_partition));
    Ok (install st no (set_parent_page_no page grandparent_no), nos ++ [no])
  end.

Definition set_root (st : index_state) (a : Z) : index_state :=
  IndexState (index_heap st) (next_address st) (index_page_map_ st) a (next_index_page_no_ st).

(** The parent of the pages that took the place of an index page. *)
Definition reattach (st : index_state) (old_no grandparent_no : Z) (nos : list Z) : may index_state :=
  if negb (grandparent_no =? 0) then
    match index_page_map_ st !! grandparent_no with
    | None => mret st
    | Some a =>
      gp ← deref st a;
      let '(gp_adj, gp) := get_block_adj_map gp in
      let gp_adj := join_all nos (add_pages nos (remove_page old_no gp_adj)) in
      st ← replace_page st grandparent_no a gp gp_adj;
      mret (set_parents st grandparent_no nos)
    end
  else match nos with
  | [no] => match index_page_map_ st !! no with Some a => mret (set_root st a) | None => mret st end
  | _ =>
    let new_root_no := next_index_page_no_ st in
    let st := IndexState (index_heap st) (next_address st) (index_page_map_ st) (root_index_page_ st) (u32 (new_root_no - 1)) in
    new_root ← thrown (index_page (uninit new_root_no) new_root_no (map_order salt (join_all nos (add_pages nos ∅))));
    let st := set_root (install st new_root_no new_root) (next_address st) in
    mret (set_parents st new_root_no nos)
  end.

Definition do_index_split (st : index_state) (old_idx_page_no : Z) (new_adj : gmap Z (list Z)) : may index_state :=
  '(grandparent_no, st) ←
    match index_page_map_ st !! old_idx_page_no with
    | Some a => old_idx ← deref st a;
                let st := IndexState (index_heap st) (next_address st) (delete old_idx_page_no (index_page_map_ st)) (root_index_page_ st) (next_index_page_no_ st) in
                mret (parent_page_no_ old_idx, free_page st a)
    | None => mret (0, st)
    end;
  let target_size := if (0 <? INDEX_MAX_BLOCKS)%nat then (Z.of_nat INDEX_MAX_BLOCKS * 6) `div` 10 else 1 in
  '(block_partition, _) ← (absolute_weight_block_partition salt new_adj (u32 target_size) : may _);
  '(st, nos) ← thrown (fold_m (split_off new_adj grandparent_no) (st, []) block_partition);
  match nos with [] => mret st | _ => reattach st old_idx_page_no grandparent_no nos end.

Definition update_index_split (st : index_state) (old_csr_page_no old_parent_no : Z) (new_csr_page_nos : list Z)
    (merged_graph : gmap Z (list Z)) (vi : vertex_index_t) : may index_state :=
  match index_page_map_ st !! old_parent_no with
  | None => mret st
  | Some a =>
    old_idx ← deref st a;
    let '(adj, old_idx) := get_block_adj_map old_idx in
    let adj := add_pages new_csr_page_nos (remove_page old_csr_page_no adj) in
    adj ← defined (fold_m (add_crossings vi) adj (map_order salt merged_graph));
    let threshold := ((INDEX_MAX_BLOCKS * 6) `div` 10)%nat in
    if (threshold =? 0)%nat || (size adj <=? threshold)%nat then replace_page st old_parent_no a old_idx adj
    else do_index_split st old_parent_no adj
  end.

(** ** Replacing an index page *)

Context `{!IndexLayout}.

(** The page under a number. *)
Definition page_at (st : index_state) (no : Z) : option index_page_t := a ← index_page_map_ st !! no; index_heap st !! a.

Record index_ok (st : index_state) : Prop := {
  io_live : forall no a, index_page_map_ st !! no = Some a -> is_Some (index_heap st !! a);
  io_inj : forall no no' a, index_page_map_ st !! no = Some a -> index_page_map_ st !! no' = Some a -> no = no';
  io_fresh : forall a, is_Some (index_heap st !! a) -> a < next_address st
}.

(** Entries of a graph of pages that an index page can show. *)
Record shows_graph (p : index_page_t) (adj : gmap Z (list Z)) (ns : list Z) (parent : Z) : Prop := ShowsGraph {
  sg_graph : index_graph;
  sg_rep : rep p sg_graph;
  sg_blocks : forall c, c ∈ ig_blocks sg_graph <-> is_Some (adj !! c);
  sg_edges : forall a b, (a, b) ∈ ig_edges sg_graph <-> b ∈ get_neighbor_pages adj a /\ is_Some (adj !! b);
  sg_neighbors : ig_neighbors sg_graph = ns;
  sg_parent : ig_parent sg_graph = parent
}.

Lemma replace_page_ok st no a old_idx adj ns parent :
  index_ok st -> index_page_map_ st !! no = Some a ->
  read_neighbor_block_clone old_idx = ns -> NoDup ns -> Forall (in_width 32) ns -> (length ns <= MAX_BLOCK_NEIGHBOR)%nat ->
  parent_page_no_ old_idx = parent -> in_width 64 parent ->
  (forall u, is_Some (adj !! u) -> in_width 32 u) -> (size adj <= INDEX_MAX_BLOCKS)%nat ->
  exists st' p', replace_page st no a old_idx adj = Some (Ok st') /\ index_ok st' /\ page_at st' no = Some p' /\ shows_graph p' adj ns parent /\
    (forall no', no' <> no -> page_at st' no' = page_at st no') /\
    index_heap st' !! a = None /\ root_index_page_ st' = root_index_page_ st /\ next_index_page_no_ st' = next_index_page_no_ st.
Proof.
  intros Hok Ha Hns Hnd Hw Hl Hpar Hpw Hkeys Hsz. unfold replace_page. destruct (key_list adj) as (keys & Hkn & Hkl & Hk).
  destruct (index_page_graph_shows salt adj adj keys (uninit no) no) as (p & E & bs & es & R & Hb & He); [intros u; by rewrite Hk|done| |lia|].
  { apply Forall_forall. intros u Hu. by apply Hkeys, Hk. }
  rewrite E, Hns, Hpar. cbn [thrown mbind may_bind].
  pose proof (add_neighbors_rep bs es parent ns _ [] (set_parent_spec _ _ _ _ _ _ R Hpw) Hnd Hw Hl) as R'. cbn [app] in R'.
  set (p' := foldl _ _ ns) in *. eexists _, p'. split; [done|].
  assert (Hfresh : index_heap st !! next_address st = None).
  { apply eq_None_not_Some. intros Hs%(io_fresh _ Hok). lia. }
  assert (Hold : is_Some (index_heap st !! a)) by by apply (io_live _ Hok no).
  assert (Hne : a <> next_address st) by (intros ->; rewrite Hfresh in Hold; by destruct Hold).
  split; [|split; [|split; [|split; [|split; [|done]]]]].
  - destruct Hok as [O1 O2 O3]. constructor; cbn.
    + intros no' a' H'. apply lookup_insert_Some in H' as [[<- <-]|[Hno H']].
      * rewrite lookup_delete_ne, lookup_insert_eq by done. eauto.
      * pose proof (O1 no' a' H'). rewrite lookup_delete_ne by (intros ->; apply Hno; by apply (O2 no no' a')).
        apply lookup_insert_is_Some'. by right.
    + intros n1 n2 a' H1 H2. apply lookup_insert_Some in H1 as [[<- <-]|[Hn1 H1]], H2 as [[E2 E2']|[Hn2 H2]]; [done|..].
      * apply O1 in H2. rewrite Hfresh in H2. by destruct H2.
      * subst. apply O1 in H1. rewrite Hfresh in H1. by destruct H1.
      * by apply (O2 n1 n2 a').
    + intros a' [q Hq]. apply lookup_delete_Some in Hq as [_ Hq]. apply lookup_insert_Some in Hq as [[<- _]|[_ Hq]]; [lia|].
      pose proof (O3 a' (mk_is_Some _ _ Hq)). lia.
  - unfold page_at. cbn. rewrite lookup_insert_eq. cbn. by rewrite lookup_delete_ne, lookup_insert_eq.
  - exists (IndexGraph bs es ns parent); try done; cbn.
    + intros c. by rewrite Hb, Hk.
    + intros x y. rewrite He, !Hk. split; [naive_solver|]. intros [Hy Hs]. split; [|done].
      unfold get_neighbor_pages in Hy. destruct (adj !! x); [eauto|by apply elem_of_nil in Hy].
  - intros no' Hno. unfold page_at. cbn. rewrite lookup_insert_ne by done. destruct (index_page_map_ st !! no') as [a'|] eqn:Ea'; [|done]. cbn.
    rewrite lookup_delete_ne by (intros ->; by apply Hno, (io_inj _ Hok no' no a')).
    apply lookup_insert_ne. intros <-. apply (io_live _ Hok) in Ea'. rewrite Hfresh in Ea'. by destruct Ea'.
  - cbn. apply lookup_delete_eq.
Qed.

(** The map of adjacencies of a page. *)
Lemma adj_map_lookup (g : index_graph) b : NoDup (ig_blocks g) ->
  (list_to_map ((fun b => (b, ig_adjacent g b)) <$> ig_blocks g) : gmap Z (list Z)) !! b =
    if bool_decide (b ∈ ig_blocks g) then Some (ig_adjacent g b) else None.
Proof.
  intros Hnd. assert (Hf : ((fun b => (b, ig_adjacent g b)) <$> ig_blocks g).*1 = ig_blocks g) by (rewrite <- list_fmap_compose; apply list_fmap_id).
  case_bool_decide as Hb.
  - apply elem_of_list_to_map_1; [by rewrite Hf|]. apply list_elem_of_fmap. by exists b.
  - apply not_elem_of_list_to_map_1. by rewrite Hf.
Qed.

Lemma size_covered (adj : gmap Z (list Z)) l : (forall u, is_Some (adj !! u) -> u ∈ l) -> (size adj <= length l)%nat.
Proof.
  intros Hl. destruct (key_list adj) as (keys & Hnd & <- & Hk). apply submseteq_length_le; [done|]. intros u Hu. by apply Hl, Hk.
Qed.

Lemma elem_of_adjacent g a b : (forall a b, (a, b) ∈ ig_edges g -> a ∈ ig_blocks g /\ b ∈ ig_blocks g) -> b ∈ ig_adjacent g a <-> (a, b) ∈ ig_edges g.
Proof. intros He. unfold ig_adjacent. rewrite list_elem_of_filter. split; [tauto|]. intros H'. split; [done|]. by apply (He a b). Qed.

(** *** A renamed page *)

Definition renamed (old new b : Z) : Z := if b =? old then new else b.

Lemma renamed_inj old new b c (bs : list Z) : new ∉ bs -> b ∈ bs -> c ∈ bs -> renamed old new b = renamed old new c -> b = c.
Proof. intros Hn Hb Hc. unfold renamed. destruct (Z.eqb_spec b old), (Z.eqb_spec c old); subst; [done|intros ->|intros <-|done]; done. Qed.

Lemma rename_page_spec old new (bs : list Z) (adj : gmap Z (list Z)) : (forall b, is_Some (adj !! b) <-> b ∈ bs) -> new ∉ bs ->
  (forall x, is_Some (rename_page old new adj !! x) <-> exists b, b ∈ bs /\ renamed old new b = x) /\
  forall b, b ∈ bs -> get_neighbor_pages (rename_page old new adj) (renamed old new b) = renamed old new <$> get_neighbor_pages adj b.
Proof.
  intros Hk Hn. unfold rename_page, get_neighbor_pages. change (fun n => if n =? old then new else n) with (renamed old new).
  assert (Hadj1 : forall b, b ∈ bs -> match adj !! old with Some edges => <[new := edges]> (delete old adj) | None => adj end !! renamed old new b = adj !! b).
  { intros b Hb. unfold renamed. destruct (adj !! old) as [edges|] eqn:Eo; destruct (Z.eqb_spec b old) as [->|Hne].
    - by rewrite lookup_insert_eq.
    - rewrite lookup_insert_ne by (intros ->; done). by rewrite lookup_delete_ne.
    - apply Hk in Hb. rewrite Eo in Hb. by destruct Hb.
    - done. }
  split.
  - intros x. rewrite lookup_fmap, fmap_is_Some. split.
    + intros Hx. destruct (adj !! old) as [edges|] eqn:Eo.
      * apply lookup_insert_is_Some in Hx as [<-|[Hne Hx]].
        -- exists old. split; [by apply Hk; rewrite Eo|]. unfold renamed. by rewrite Z.eqb_refl.
        -- apply lookup_delete_is_Some in Hx as [Hxo Hx]. exists x. split; [by apply Hk|]. unfold renamed. by destruct (Z.eqb_spec x old).
      * exists x. split; [by apply Hk|]. unfold renamed. destruct (Z.eqb_spec x old) as [->|]; [|done]. rewrite Eo in Hx. by destruct Hx.
    + intros (b & Hb & <-). rewrite Hadj1 by done. by apply Hk.
  - intros b Hb. rewrite lookup_fmap, Hadj1 by done. by destruct (adj !! b).
Qed.

(** C37: a consolidation that replaces a page by one.  In the index page of the
    old page the new page takes its place: same edges, neighbours and parent,
    other index pages as before.  The index page is a new object; a root
    pointer to the old one is not moved, and refers to nothing any more. *)
Theorem no_split_renames st old new parent_no a p g :
  index_ok st -> index_page_map_ st !! parent_no = Some a -> index_heap st !! a = Some p ->
  rep p g -> NoDup (ig_neighbors g) -> in_width 64 (ig_parent g) -> new ∉ ig_blocks g -> in_width 32 new ->
  exists st' p' g', update_index_no_split st old new parent_no = Some (Ok st') /\ index_ok st' /\ page_at st' parent_no = Some p' /\ rep p' g' /\
    (forall x, x ∈ ig_blocks g' <-> exists b, b ∈ ig_blocks g /\ renamed old new b = x) /\
    (forall b c, b ∈ ig_blocks g -> c ∈ ig_blocks g -> (renamed old new b, renamed old new c) ∈ ig_edges g' <-> (b, c) ∈ ig_edges g) /\
    ig_neighbors g' = ig_neighbors g /\ ig_parent g' = ig_parent g /\
    (forall no, no <> parent_no -> page_at st' no = page_at st no) /\
    (root_index_page_ st = a -> index_heap st' !! root_index_page_ st' = None).
Proof.
  intros Hok Ha Hp R Hnd Hpw Hnew Hw. unfold update_index_no_split, deref. rewrite Ha, Hp. cbn [defined fmap option_fmap option_map mbind may_bind].
  rewrite (adj_map_spec p g R). set (adj := list_to_map _).
  assert (Hadj : forall b, adj !! b = if bool_decide (b ∈ ig_blocks g) then Some (ig_adjacent g b) else None) by (intros b; apply adj_map_lookup, R).
  assert (Hk : forall b, is_Some (adj !! b) <-> b ∈ ig_blocks g) by (intros b; rewrite Hadj; case_bool_decide; split; [done|eauto|by intros [? ?]|done]).
  destruct (rename_page_spec old new (ig_blocks g) adj Hk Hnew) as [Hrk Hrn].
  destruct (replace_page_ok st parent_no a p (rename_page old new adj) (ig_neighbors g) (ig_parent g)) as (st' & p' & -> & Hok' & Hp' & Hsh & Hoth & Hdel & Hroot & _); try done.
  - apply (rep_neighbors _ _ R).
  - apply (rep_nwidth _ _ R).
  - apply (rep_ncap _ _ R).
  - apply (rep_parent _ _ R).
  - intros u Hu. apply Hrk in Hu as (b & Hb & <-). unfold renamed. destruct (b =? old); [done|]. pose proof (rep_width _ _ R) as HW. rewrite Forall_forall in HW. by apply HW.
  - etransitivity; [apply (size_covered _ (renamed old new <$> ig_blocks g))|rewrite length_fmap; apply (rep_cap _ _ R)].
    intros u Hu. apply Hrk in Hu as (b & Hb & <-). by apply list_elem_of_fmap_2.
  - destruct Hsh as [g' R' Hb' He' Hn' Hpar']. exists st', p', g'. do 4 (split; [done|]). split; [intros x; by rewrite Hb'|].
    split; [|split; [done|split; [done|split; [done|]]]].
    + intros b c Hb Hc. rewrite He', Hrn by done. unfold get_neighbor_pages. rewrite Hadj, bool_decide_eq_true_2 by done. cbn [default from_option].
      rewrite list_elem_of_fmap. split.
      * intros [(c' & E & Hc') _]. pose proof Hc' as Hc2. unfold ig_adjacent in Hc2. apply list_elem_of_filter in Hc2 as [Hc2 Hc3].
        by rewrite (renamed_inj old new c c' (ig_blocks g) Hnew Hc Hc3 E).
      * intros Hbc. split; [exists c; split; [done|]; apply elem_of_adjacent; [apply (rep_edges _ _ R)|done]|]. apply Hrk. eauto.
    + intros Hra. by rewrite Hroot, Hra.
Qed.

(** *** Pages that take the place of one *)

(** [adj'] has the pages of [adj], and their lists extended by [R]. *)
Record lists_more (adj : gmap Z (list Z)) (R : Z -> Z -> Prop) (adj' : gmap Z (list Z)) : Prop := {
  lm_dom : forall x, is_Some (adj' !! x) <-> is_Some (adj !! x);
  lm_lists : forall x y, y ∈ get_neighbor_pages adj' x <-> y ∈ get_neighbor_pages adj x \/ (is_Some (adj !! x) /\ R x y)
}.

Lemma lists_more_iff adj R S adj' : lists_more adj R adj' -> (forall x y, R x y <-> S x y) -> lists_more adj S adj'.
Proof. intros [H1 H2] E. constructor; [done|]. intros x y. by rewrite H2, E. Qed.

Lemma lists_more_none adj : lists_more adj (fun _ _ => False) adj.
Proof. constructor; naive_solver. Qed.

Lemma lists_more_trans adj R adj1 S adj2 : lists_more adj R adj1 -> lists_more adj1 S adj2 -> lists_more adj (fun x y => R x y \/ S x y) adj2.
Proof.
  intros [A1 A2] [B1 B2]. constructor; [intros x; by rewrite B1, A1|]. intros x y. rewrite B2, A2, A1. naive_solver.
Qed.

Lemma fold_lists {A} (f : gmap Z (list Z) -> A -> option (gmap Z (list Z))) (R : A -> Z -> Z -> Prop) (l : list A) :
  (forall adj a, a ∈ l -> exists adj', f adj a = Some adj' /\ lists_more adj (R a) adj') ->
  forall adj, exists adj', fold_m f adj l = Some adj' /\ lists_more adj (fun x y => exists a, a ∈ l /\ R a x y) adj'.
Proof.
  intros Hf. induction l as [|a l IH]; intros adj; cbn [fold_m].
  - exists adj. split; [done|]. apply (lists_more_iff _ _ _ _ (lists_more_none adj)). intros x y. split; [done|]. intros (a & Ha & _). by apply elem_of_nil in Ha.
  - destruct (Hf adj a) as (adj1 & -> & J1); [by left|]. cbn [mbind option_bind].
    destruct (IH (fun adj b Hb => Hf adj b (list_elem_of_further _ _ _ Hb)) adj1) as (adj2 & -> & J2). exists adj2. split; [done|].
    apply (lists_more_iff _ _ _ _ (lists_more_trans _ _ _ _ _ J1 J2)). intros x y. setoid_rewrite elem_of_cons. naive_solver.
Qed.

Lemma add_page_edge_more adj from to : lists_more adj (fun x y => x = from /\ y = to) (add_page_edge adj from to).
Proof.
  unfold add_page_edge, get_neighbor_pages. constructor; [intros x; apply lookup_alter_is_Some|]. intros x y. unfold get_neighbor_pages. rewrite lookup_alter.
  case_decide as E; [subst|naive_solver]. destruct (adj !! x) as [l|]; cbn.
  - case_bool_decide as Hin; [split; [by left|]; intros [?|(_ & _ & ->)]; done|].
    rewrite elem_of_app, list_elem_of_singleton. split; [|naive_solver]. intros [?| ->]; [by left|right; eauto].
  - split; [by left|]. intros [?|([? ?] & _)]; done.
Qed.

Lemma add_pages_lookup nos : forall (adj : gmap Z (list Z)) x, add_pages nos adj !! x = if bool_decide (x ∈ nos) then Some [] else adj !! x.
Proof.
  induction nos as [|no nos IH]; intros adj x; cbn [add_pages foldl]; [by rewrite bool_decide_eq_false_2 by apply not_elem_of_nil|].
  change (foldl (fun adj p => <[p := []]> adj) (<[no := []]> adj) nos) with (add_pages nos (<[no := []]> adj)). rewrite IH.
  destruct (decide (x ∈ nos)) as [Hx|Hx].
  - rewrite !bool_decide_eq_true_2; [done|by right|done].
  - rewrite bool_decide_eq_false_2 by done. destruct (decide (x = no)) as [->|Hne].
    + rewrite bool_decide_eq_true_2 by (by left). apply lookup_insert_eq.
    + rewrite bool_decide_eq_false_2 by (rewrite elem_of_cons; tauto). by rewrite lookup_insert_ne.
Qed.

Lemma remove_page_lookup old (adj : gmap Z (list Z)) x :
  remove_page old adj !! x = if decide (x = old) then None else filter (fun n => n <> old) <$> adj !! x.
Proof. unfold remove_page. rewrite lookup_fmap. case_decide; subst; [by rewrite lookup_delete_eq|by rewrite lookup_delete_ne]. Qed.

(** An edge of the merged graph from a vertex on page [x] to one on page [y]. *)
Definition crosses_pages (loc : Z -> Z) (merged : gmap Z (list Z)) (x y : Z) : Prop :=
  exists v nbrs u, merged !! v = Some nbrs /\ u ∈ nbrs /\ loc v = x /\ loc u = y /\ x <> y.

Lemma add_crossings_more vi (loc : Z -> Z) merged adj :
  (forall v nbrs u, merged !! v = Some nbrs -> u = v \/ u ∈ nbrs -> exists off, get_vertex_location vi (Z.to_nat u) = Some (loc u, off)) ->
  exists adj', fold_m (add_crossings vi) adj (map_order salt merged) = Some adj' /\
    lists_more adj (fun x y => crosses_pages loc merged x y \/ crosses_pages loc merged y x) adj'.
Proof.
  intros Hloc. destruct (fold_lists (add_crossings vi)
    (fun q x y => exists u, u ∈ q.2 /\ x <> y /\ ((x = loc q.1 /\ y = loc u) \/ (x = loc u /\ y = loc q.1))) (map_order salt merged)) with (adj := adj) as (adj' & E & J).
  - intros adj0 [v nbrs] Hq. rewrite map_order_list in Hq. apply elem_of_map_to_list in Hq. unfold add_crossings. cbn [fst snd].
    destruct (Hloc v nbrs v Hq) as [off ->]; [by left|]. cbn [mbind option_bind].
    destruct (fold_lists (add_crossing vi (loc v)) (fun u x y => x <> y /\ ((x = loc v /\ y = loc u) \/ (x = loc u /\ y = loc v))) nbrs) with (adj := adj0) as (adj1 & E1 & J1).
    + intros adj2 u Hu. unfold add_crossing. destruct (Hloc v nbrs u Hq) as [off' ->]; [by right|]. cbn [mbind option_bind]. eexists. split; [done|].
      destruct (Z.eqb_spec (loc u) (loc v)) as [El|Hne].
      * apply (lists_more_iff _ _ _ _ (lists_more_none adj2)). intros x y. rewrite El. naive_solver.
      * apply (lists_more_iff _ _ _ _ (lists_more_trans _ _ _ _ _ (add_page_edge_more adj2 (loc v) (loc u)) (add_page_edge_more _ (loc u) (loc v)))). naive_solver.
    + exists adj1. split; [done|]. apply (lists_more_iff _ _ _ _ J1). naive_solver.
  - exists adj'. split; [done|]. apply (lists_more_iff _ _ _ _ J). intros x y. unfold crosses_pages. split.
    + intros ([v nbrs] & Hq & u & Hu & Hne & Hr). rewrite map_order_list in Hq. apply elem_of_map_to_list in Hq. cbn [fst snd] in *.
      destruct Hr as [[-> ->]|[-> ->]]; [left|right]; exists v, nbrs, u; naive_solver.
    + intros [(v & nbrs & u & Hq & Hu & Hx & Hy & Hne)|(v & nbrs & u & Hq & Hu & Hx & Hy & Hne)]; exists (v, nbrs); rewrite map_order_list, elem_of_map_to_list;
        (split; [done|]); exists u; cbn [fst snd]; naive_solver.
Qed.

(** The page's graph with the old page removed and the new ones added. *)
Definition split_graph (old : Z) (new : list Z) (g : index_graph) : gmap Z (list Z) :=
  add_pages new (remove_page old (list_to_map ((fun b => (b, ig_adjacent g b)) <$> ig_blocks g))).

Lemma split_graph_spec old new g : NoDup (ig_blocks g) ->
  (forall a b, (a, b) ∈ ig_edges g -> a ∈ ig_blocks g /\ b ∈ ig_blocks g) -> (forall x, x ∈ new -> x ∉ ig_blocks g) ->
  (forall x, is_Some (split_graph old new g !! x) <-> (x ∈ ig_blocks g /\ x <> old) \/ x ∈ new) /\
  forall x y, y ∈ get_neighbor_pages (split_graph old new g) x <-> (x, y) ∈ ig_edges g /\ x <> old /\ y <> old.
Proof.
  intros Hnd He Hnew. unfold split_graph. set (adj := list_to_map _).
  assert (Hadj : forall b, adj !! b = if bool_decide (b ∈ ig_blocks g) then Some (ig_adjacent g b) else None) by (intros b; by apply adj_map_lookup).
  assert (Hl : forall x, add_pages new (remove_page old adj) !! x = if bool_decide (x ∈ new) then Some [] else
      if decide (x = old) then None else if bool_decide (x ∈ ig_blocks g) then Some (filter (fun n => n <> old) (ig_adjacent g x)) else None).
  { intros x. rewrite add_pages_lookup, remove_page_lookup, Hadj. case_bool_decide; [done|]. case_decide; [done|]. by case_bool_decide. }
  split.
  - intros x. rewrite Hl. case_bool_decide as Hx; [naive_solver|]. case_decide as Ho; [split; [by intros [? ?]|naive_solver]|].
    case_bool_decide as Hb; [naive_solver|]. split; [by intros [? ?]|naive_solver].
  - intros x y. unfold get_neighbor_pages. rewrite Hl. case_bool_decide as Hx.
    { cbn. split; [by intros ?%elem_of_nil|]. intros [Hxy _]. by destruct (Hnew x Hx), (He x y Hxy). }
    case_decide as Ho; [cbn; split; [by intros ?%elem_of_nil|naive_solver]|]. case_bool_decide as Hb; cbn.
    + rewrite list_elem_of_filter, (elem_of_adjacent g x y He). naive_solver.
    + split; [by intros ?%elem_of_nil|]. intros [Hxy _]. by destruct Hb, (He x y Hxy).
Qed.

Lemma split_graph_size old new g : old ∈ ig_blocks g -> NoDup (ig_blocks g) ->
  (forall a b, (a, b) ∈ ig_edges g -> a ∈ ig_blocks g /\ b ∈ ig_blocks g) -> (forall x, x ∈ new -> x ∉ ig_blocks g) ->
  (S (size (split_graph old new g)) <= length (ig_blocks g) + length new)%nat.
Proof.
  intros Hold Hnd He Hnew. destruct (key_list (split_graph old new g)) as (keys & Hk & <- & Hin).
  change (length (old :: keys) <= length (ig_blocks g) + length new)%nat. rewrite <- length_app.
  destruct (split_graph_spec old new g Hnd He Hnew) as [Hs _]. apply submseteq_length_le.
  - apply NoDup_cons. split; [|done]. rewrite Hin, Hs. intros [[_ ?]|Hn]; [done|by apply (Hnew old)].
  - intros x [->|Hx]%elem_of_cons; apply elem_of_app; [by left|]. apply Hin, Hs in Hx. tauto.
Qed.

(** A consolidation that replaces a page by several, while the index page
    has room: the new pages are listed in place of the old one, and joined
    with the pages that edges of the merged graph lead to, either way; edges
    between other pages stay, neighbours and parent too, and other index
    pages. *)
Theorem split_lists_new_pages st old new parent_no a p g merged vi (loc : Z -> Z) :
  index_ok st -> index_page_map_ st !! parent_no = Some a -> index_heap st !! a = Some p ->
  rep p g -> NoDup (ig_neighbors g) -> in_width 64 (ig_parent g) -> old ∈ ig_blocks g -> (forall x, x ∈ new -> x ∉ ig_blocks g /\ in_width 32 x) ->
  (forall v nbrs u, merged !! v = Some nbrs -> u = v \/ u ∈ nbrs -> exists off, get_vertex_location vi (Z.to_nat u) = Some (loc u, off)) ->
  (length (ig_blocks g) + length new <= (INDEX_MAX_BLOCKS * 6) `div` 10 + 1)%nat ->
  exists st' p' g', update_index_split st old parent_no new merged vi = Some (Ok st') /\ index_ok st' /\ page_at st' parent_no = Some p' /\ rep p' g' /\
    (forall x, x ∈ ig_blocks g' <-> (x ∈ ig_blocks g /\ x <> old) \/ x ∈ new) /\
    (forall x y, x ∈ ig_blocks g' -> y ∈ ig_blocks g' ->
       (x, y) ∈ ig_edges g' <-> (x, y) ∈ ig_edges g \/ crosses_pages loc merged x y \/ crosses_pages loc merged y x) /\
    ig_neighbors g' = ig_neighbors g /\ ig_parent g' = ig_parent g /\
    (forall no, no <> parent_no -> page_at st' no = page_at st no) /\
    (root_index_page_ st = a -> index_heap st' !! root_index_page_ st' = None).
Proof.
  intros Hok Ha Hp R Hnd Hpw Hold Hnew Hloc Hroom. unfold update_index_split, deref. rewrite Ha, Hp. cbn [defined fmap option_fmap option_map mbind may_bind].
  rewrite (adj_map_spec p g R). fold (split_graph old new g). set (adj := split_graph old new g).
  pose proof (rep_nodup _ _ R) as Hbn. pose proof (rep_edges _ _ R) as Hbe.
  assert (Hfresh : forall x, x ∈ new -> x ∉ ig_blocks g) by (intros x Hx; by apply Hnew).
  destruct (split_graph_spec old new g Hbn Hbe Hfresh) as [Hk He]. pose proof (split_graph_size old new g Hold Hbn Hbe Hfresh) as Hsz. fold adj in Hk, He, Hsz.
  destruct (add_crossings_more vi loc merged adj Hloc) as (adj' & -> & [Jd Jl]). cbn [defined fmap option_fmap option_map mbind may_bind].
  assert (Hsize : size adj' = size adj).
  { destruct (key_list adj) as (keys & Hkn & <- & Hkk). symmetry. apply same_size; [done|]. intros u. by rewrite Jd, Hkk. }
  rewrite Hsize, (proj2 (Nat.leb_le _ _)) by lia. rewrite orb_true_r.
  destruct (replace_page_ok st parent_no a p adj' (ig_neighbors g) (ig_parent g)) as (st' & p' & -> & Hok' & Hp' & Hsh & Hoth & Hdel & Hroot & _); try done.
  - apply (rep_neighbors _ _ R).
  - apply (rep_nwidth _ _ R).
  - apply (rep_ncap _ _ R).
  - apply (rep_parent _ _ R).
  - intros u Hu. apply Jd, Hk in Hu as [[Hu _]|Hu]; [|by apply Hnew]. pose proof (rep_width _ _ R) as HW. rewrite Forall_forall in HW. by apply HW.
  - rewrite Hsize. assert ((INDEX_MAX_BLOCKS * 6) `div` 10 <= INDEX_MAX_BLOCKS)%nat by (apply Nat.Div0.div_le_upper_bound; lia). lia.
  - destruct Hsh as [g' R' Hb' He' Hn' Hpar']. exists st', p', g'. do 4 (split; [done|]). split; [intros x; by rewrite Hb', Jd, Hk|].
    split; [|split; [done|split; [done|split; [done|]]]].
    + intros x y Hx Hy. apply Hb' in Hx as Hxs, Hy as Hys. rewrite He', Jl, He. apply Jd in Hxs. split.
      * intros [[(Hxy & _ & _)|[_ Hc]] _]; [by left|by right].
      * intros Hxy. split; [|done]. destruct Hxy as [Hxy|Hc]; [left|right; done]. destruct (Hbe x y Hxy) as [Hx1 Hy1].
        split; [done|]. apply Hk in Hxs. apply Jd, Hk in Hys. split; intros ->; naive_solver.
    + intros Hra. by rewrite Hroot, Hra.
Qed.

(** *** An index page that is split *)

Lemma page_at_fresh st no p : index_ok st -> index_page_map_ st !! no = None ->
  index_ok (install st no p) /\ page_at (install st no p) no = Some p /\
  (forall no', no' <> no -> page_at (install st no p) no' = page_at st no').
Proof.
  intros [O1 O2 O3] Hno.
  assert (Hfresh : index_heap st !! next_address st = None) by (apply eq_None_not_Some; intros Hs%O3; lia).
  split; [constructor; cbn|split].
  - intros no' a H'. apply lookup_insert_Some in H' as [[<- <-]|[Hne H']]; [rewrite lookup_insert_eq; eauto|].
    apply lookup_insert_is_Some'. right. by apply (O1 no').
  - intros n1 n2 a H1 H2. apply lookup_insert_Some in H1 as [[<- <-]|[Hn1 H1]], H2 as [[E2 E2']|[Hn2 H2]]; [done|..].
    + apply O1 in H2. rewrite Hfresh in H2. by destruct H2.
    + subst. apply O1 in H1. rewrite Hfresh in H1. by destruct H1.
    + by apply (O2 n1 n2 a).
  - intros a [q Hq]. apply lookup_insert_Some in Hq as [[<- _]|[_ Hq]]; [lia|]. pose proof (O3 a (mk_is_Some _ _ Hq)). lia.
  - unfold page_at. cbn. rewrite lookup_insert_eq. cbn. apply lookup_insert_eq.
  - intros no' Hne. unfold page_at. cbn. rewrite lookup_insert_ne by done. destruct (index_page_map_ st !! no') as [a|] eqn:Ea; [|done]. cbn.
    apply lookup_insert_ne. intros <-. apply O1 in Ea. rewrite Hfresh in Ea. by destruct Ea.
Qed.

Lemma set_parents_spec parent nos : NoDup nos -> forall st, index_ok st ->
  let st' := set_parents st parent nos in
  index_ok st' /\ index_page_map_ st' = index_page_map_ st /\ root_index_page_ st' = root_index_page_ st /\
  (forall a, is_Some (index_heap st' !! a) <-> is_Some (index_heap st !! a)) /\
  forall no, page_at st' no = if bool_decide (no ∈ nos) then (fun p => set_parent_page_no p parent) <$> page_at st no else page_at st no.
Proof.
  induction 1 as [|n nos Hn Hnd IH]; intros st Hok; cbn [set_parents foldl].
  { split; [done|]. repeat (split; [done|]). intros no. by rewrite bool_decide_eq_false_2 by apply not_elem_of_nil. }
  set (st1 := match index_page_map_ st !! n with Some a => _ | None => st end).
  assert (H1 : index_ok st1 /\ index_page_map_ st1 = index_page_map_ st /\ root_index_page_ st1 = root_index_page_ st /\
    (forall a, is_Some (index_heap st1 !! a) <-> is_Some (index_heap st !! a)) /\
    forall no, page_at st1 no = if decide (no = n) then (fun p => set_parent_page_no p parent) <$> page_at st no else page_at st no).
  { unfold st1. destruct (index_page_map_ st !! n) as [a|] eqn:Ea.
    - assert (Hd : forall b, is_Some (alter (fun p => set_parent_page_no p parent) a (index_heap st) !! b) <-> is_Some (index_heap st !! b)) by (intros b; apply lookup_alter_is_Some).
      destruct Hok as [O1 O2 O3]. split; [constructor; cbn|split; [done|split; [done|split; [apply Hd|]]]].
      + intros no b Hb. apply Hd. by apply (O1 no).
      + done.
      + intros b Hb. by apply O3, Hd.
      + intros no. unfold page_at. cbn. case_decide as Hno.
        * subst. rewrite Ea. cbn. by rewrite lookup_alter_eq.
        * destruct (index_page_map_ st !! no) as [b|] eqn:Eb; [|done]. cbn. apply lookup_alter_ne. intros <-. by apply Hno, (O2 no n a).
    - split; [done|]. repeat (split; [done|]). intros no. case_decide; [subst|done]. unfold page_at. by rewrite Ea. }
  destruct H1 as (Hok1 & Em1 & Er1 & Eh1 & Ep1). destruct (IH st1 Hok1) as (Hok2 & Em2 & Er2 & Eh2 & Ep2).
  split; [done|]. split; [by etransitivity|]. split; [by etransitivity|]. split; [intros a; etransitivity; [apply Eh2|apply Eh1]|].
  intros no. etransitivity; [apply Ep2|]. rewrite Ep1. destruct (decide (no = n)) as [->|Hne].
  - by rewrite bool_decide_eq_false_2, bool_decide_eq_true_2 by (done || by left).
  - rewrite (bool_decide_ext (no ∈ n :: nos) (no ∈ nos)); [done|]. rewrite elem_of_cons. naive_solver.
Qed.

Lemma join_all_more nos : NoDup nos -> forall adj, lists_more adj (fun x y => x ∈ nos /\ y ∈ nos /\ x <> y) (join_all nos adj).
Proof.
  assert (Hpair : forall a b adj, lists_more adj (fun x y => (x = a /\ y = b) \/ (x = b /\ y = a)) (join_pair adj a b)).
  { assert (Halter : forall f t adj, lists_more adj (fun x y => x = f /\ y = t) (alter (fun l => l ++ [t]) f adj)).
    { intros f t adj. constructor; [intros x; apply lookup_alter_is_Some|]. intros x y. unfold get_neighbor_pages. rewrite lookup_alter.
      case_decide as E; [subst|naive_solver]. destruct (adj !! x) as [l|]; cbn.
      - rewrite elem_of_app, list_elem_of_singleton. split; [|naive_solver]. intros [?| ->]; [by left|right; eauto].
      - split; [by left|]. intros [?|([? ?] & _)]; done. }
    intros a b adj. apply (lists_more_trans _ _ _ _ _ (Halter a b adj) (Halter b a _)). }
  induction 1 as [|a nos Ha Hnd IH]; intros adj; cbn [join_all].
  - apply (lists_more_iff _ _ _ _ (lists_more_none adj)). intros x y. split; [done|]. by intros (Hx%elem_of_nil & _).
  - assert (Hrow : forall l adj, lists_more adj (fun x y => (x = a /\ y ∈ l) \/ (x ∈ l /\ y = a)) (foldl (fun adj b => join_pair adj a b) adj l)).
    { intros l. induction l as [|b l IHl]; intros adj0; cbn [foldl].
      - apply (lists_more_iff _ _ _ _ (lists_more_none adj0)). intros x y. split; [done|]. intros [[_ Hy]|[Hy _]]; by apply elem_of_nil in Hy.
      - apply (lists_more_iff _ _ _ _ (lists_more_trans _ _ _ _ _ (Hpair a b adj0) (IHl _))). intros x y. rewrite !elem_of_cons. naive_solver. }
    apply (lists_more_iff _ _ _ _ (lists_more_trans _ _ _ _ _ (Hrow nos adj) (IH _))). intros x y. rewrite !elem_of_cons. split.
    + intros [[[-> Hy]|[Hx ->]]|(Hx & Hy & Hne)]; [split; [by left|split; [by right|by intros ->]]|split; [by right|split; [by left|by intros ->]]|tauto].
    + naive_solver.
Qed.

(** Every number up to the next one is free. *)
Definition numbers_free (st : index_state) : Prop := forall no, no <= next_index_page_no_ st -> index_page_map_ st !! no = None.

Definition numbers (st : index_state) (k : nat) : list Z := (fun i => next_index_page_no_ st - Z.of_nat i) <$> seq 0 k.

Lemma numbers_elem st k no : no ∈ numbers st k <-> next_index_page_no_ st - Z.of_nat k < no <= next_index_page_no_ st.
Proof.
  unfold numbers. rewrite list_elem_of_fmap. split.
  - intros (i & -> & Hi). apply elem_of_seq in Hi. lia.
  - intros Hno. exists (Z.to_nat (next_index_page_no_ st - no)). split; [lia|]. apply elem_of_seq. lia.
Qed.

Lemma numbers_nodup st k : NoDup (numbers st k).
Proof. apply NoDup_fmap_2_strong; [|apply NoDup_seq]. intros x y _ _ Exy. lia. Qed.

Lemma numbers_S st k st' : next_index_page_no_ st' = next_index_page_no_ st - 1 -> numbers st (S k) = next_index_page_no_ st :: numbers st' k.
Proof.
  intros E. unfold numbers. cbn [seq fmap list_fmap]. f_equal; [lia|]. rewrite E, <- fmap_S_seq, <- list_fmap_compose. apply list_fmap_ext. intros i x _. cbn. lia.
Qed.

Lemma split_off_parts adj parent vec : Forall (fun part => part <> []) vec -> Forall (fun part => (length part <= INDEX_MAX_BLOCKS)%nat) vec ->
  Forall (Forall (in_width 32)) vec -> in_width 64 parent ->
  forall st nos, index_ok st -> numbers_free st -> Z.of_nat (length vec) <= next_index_page_no_ st < 2 ^ 32 ->
  exists st', fold_m (split_off adj parent) (st, nos) vec = Ok (st', nos ++ numbers st (length vec)) /\
    index_ok st' /\ numbers_free st' /\ next_index_page_no_ st' = next_index_page_no_ st - Z.of_nat (length vec) /\
    root_index_page_ st' = root_index_page_ st /\
    (forall no, next_index_page_no_ st < no -> index_page_map_ st' !! no = index_page_map_ st !! no /\ page_at st' no = page_at st no) /\
    (forall no, no ∈ numbers st (length vec) -> exists k part p, no = next_index_page_no_ st - Z.of_nat k /\ vec !! k = Some part /\
       page_at st' no = Some p /\ index_shows p part adj [] parent).
Proof.
  intros Hne Hfit Hw Hp. induction vec as [|part vec IH]; intros st nos Hok Hfree Hroom.
  - exists st. rewrite app_nil_r. split; [done|]. do 2 (split; [done|]). split; [cbn; lia|]. split; [done|]. split; [done|]. intros no Hno. apply numbers_elem in Hno. cbn in Hno. lia.
  - apply Forall_cons in Hne as [Hne1 Hne], Hfit as [Hfit1 Hfit], Hw as [Hw1 Hw]. cbn [length] in *. set (no := next_index_page_no_ st) in *.
    destruct (index_page_shows uninit salt adj part (uninit no) no Hw1 Hfit1) as (page & Epage & Hs).
    destruct Hs as (bs & es & R & Hb & He). pose proof (set_parent_spec _ _ _ _ _ parent R Hp) as R'.
    set (st0 := IndexState (index_heap st) (next_address st) (index_page_map_ st) (root_index_page_ st) (u32 (no - 1))).
    set (page' := set_parent_page_no page parent) in *. set (st1 := install st0 no page').
    assert (Hok0 : index_ok st0) by (destruct Hok; by constructor).
    destruct (page_at_fresh st0 no page' Hok0 (Hfree no ltac:(lia))) as (Hok1 & Hat & Hoth). fold st1 in Hok1, Hat, Hoth.
    assert (Enext : next_index_page_no_ st1 = no - 1) by (cbn; apply wrap_small; unfold in_width; lia).
    destruct (IH Hne Hfit Hw st1 (nos ++ [no]) Hok1) as (st' & E & Hok' & Hfree' & Hn' & Hr' & Hkeep & Hnew).
    { intros n Hn. rewrite Enext in Hn. cbn. rewrite lookup_insert_ne by lia. apply Hfree. lia. }
    { rewrite Enext. lia. }
    exists st'. rewrite (numbers_S st (length vec) st1) by (rewrite Enext; done). split; [|split; [done|split; [done|split; [rewrite Hn', Enext; fold no; lia|split; [by rewrite Hr'|split]]]]].
    + cbn [fold_m]. assert (split_off adj parent (st, nos) part = Ok (st1, nos ++ [no])) as ->.
      { unfold split_off. destruct part as [|x part]; [done|]. fold no. rewrite Epage. done. }
      cbn [mbind res_bind]. rewrite E. by rewrite <- app_assoc.
    + intros n Hn. destruct (Hkeep n) as [-> ->]; [rewrite Enext; lia|]. rewrite Hoth by lia. split; [|done]. cbn. apply lookup_insert_ne. lia.
    + intros n Hn. apply elem_of_cons in Hn as [->|Hn].
      * exists 0%nat, part, page'. split; [lia|]. split; [done|]. destruct (Hkeep no) as [_ Hk0]; [rewrite Enext; lia|]. fold no. rewrite Hk0.
        split; [done|]. by exists bs, es.
      * destruct (Hnew n Hn) as (k & part' & p & -> & Hk & Hp' & Hs'). exists (S k), part', p. split; [rewrite Enext; lia|done].
Qed.

Context `{!Balanced}.
Hypothesis Hcapacity : (5 <= INDEX_MAX_BLOCKS)%nat.

(** The pages [nos] share the pages of [adj]: each lists its own and shows the
    edges between them, and every page of [adj] is listed once. *)
Record divided (st : index_state) (adj : gmap Z (list Z)) (parent : Z) (nos : list Z) : Prop := {
  dv_nodup : NoDup nos;
  dv_page : forall no, no ∈ nos -> exists p (part : list Z), page_at st no = Some p /\ parent_page_no_ p = parent /\ page_shows p adj (fun c => c ∈ part);
  dv_once : forall c, is_Some (adj !! c) -> exists no, no ∈ nos /\
    forall no', no' ∈ nos -> no' = no <-> exists p, page_at st no' = Some p /\ c ∈ get_blocks p
}.

(** The index page goes, its blocks are divided among new pages. *)
Lemma split_divides st old a p adj : index_ok st -> numbers_free st -> index_page_map_ st !! old = Some a -> index_heap st !! a = Some p ->
  in_width 64 (parent_page_no_ p) -> ((INDEX_MAX_BLOCKS * 6) `div` 10 < size adj)%nat -> Z.of_nat (size adj) <= next_index_page_no_ st < 2 ^ 32 ->
  (forall u, is_Some (adj !! u) -> in_width 32 u) ->
  exists st1 nos, do_index_split st old adj = reattach st1 old (parent_page_no_ p) nos /\
    (2 <= length nos)%nat /\ (2 * length nos <= size adj)%nat /\ index_ok st1 /\ numbers_free st1 /\
    next_index_page_no_ st1 = next_index_page_no_ st - Z.of_nat (length nos) /\ root_index_page_ st1 = root_index_page_ st /\
    (forall no, no ∈ nos <-> next_index_page_no_ st1 < no <= next_index_page_no_ st) /\
    (forall no, next_index_page_no_ st < no -> index_page_map_ st1 !! no = (if decide (no = old) then None else index_page_map_ st !! no) /\
       page_at st1 no = if decide (no = old) then None else page_at st no) /\
    NoDup nos /\ (forall parent st2, index_ok st2 -> (forall no, no ∈ nos -> page_at st2 no = (fun p => set_parent_page_no p parent) <$> page_at st1 no) ->
       in_width 64 parent -> divided st2 adj parent nos).
Proof.
  intros Hok Hfree Ha Hp Hpw Hsz Hroom Hw. unfold do_index_split, deref. rewrite Ha, Hp. cbn [defined fmap option_fmap option_map mbind may_bind mret may_ret].
  rewrite (proj2 (Nat.ltb_lt _ _)) by lia. destruct (level_partition salt Hcapacity adj Hsz ltac:(lia)) as (vec & block_of & E & H1 & H2 & H3 & H4 & H5 & H6).
  rewrite E. set (st0 := free_page _ a). set (parent := parent_page_no_ p) in *.
  assert (Hlt : next_index_page_no_ st < old) by (destruct (Z.leb_spec old (next_index_page_no_ st)); [rewrite Hfree in Ha by done; done|lia]).
  assert (Hok0 : index_ok st0).
  { destruct Hok as [O1 O2 O3]. constructor; cbn.
    - intros no b Hb. apply lookup_delete_Some in Hb as [Hne Hb]. rewrite lookup_delete_ne; [by apply (O1 no)|]. intros ->. by apply Hne, (O2 old no b).
    - intros n1 n2 b Hb1 Hb2. apply lookup_delete_Some in Hb1 as [_ Hb1], Hb2 as [_ Hb2]. by apply (O2 n1 n2 b).
    - intros b [x Hx]. apply lookup_delete_Some in Hx as [_ Hx]. apply O3. eauto. }
  assert (Hfree0 : numbers_free st0) by (intros no Hno; cbn; rewrite lookup_delete_ne by (cbn in Hno; lia); by apply Hfree).
  assert (Hparts : Forall (Forall (in_width 32)) vec).
  { apply Forall_forall. intros part Hpart. apply Forall_forall. intros u Hu. apply Hw. apply list_elem_of_lookup in Hpart as [k Hk].
    apply (key_part adj vec H1). eauto. }
  destruct (split_off_parts adj parent vec H2 H4 Hparts Hpw st0 [] Hok0 Hfree0) as (st1 & E1 & Hok1 & Hfree1 & Hn1 & Hr1 & Hkeep & Hnew); [cbn; lia|].
  cbn [app] in E1. set (nos := numbers st0 (length vec)) in *.
  assert (Hlen : length nos = length vec) by (unfold nos, numbers; by rewrite length_fmap, length_seq).
  exists st1, nos. split.
  { change (@mbind may may_bind) with (fun A B (f : A -> may B) (m : may A) => may_bind A B f m). cbv beta. cbn [may_bind]. rewrite E1. cbn [thrown may_bind].
    destruct nos; [cbn in Hlen; lia|done]. }
  split; [lia|]. split; [lia|]. do 2 (split; [done|]). split; [rewrite Hn1, Hlen; done|]. split; [done|]. split; [|split; [|split]].
  - intros no. unfold nos. rewrite numbers_elem, Hn1. done.
  - intros no Hno. destruct (Hkeep no Hno) as [-> ->]. unfold page_at. cbn. case_decide as Ho; [subst; by rewrite lookup_delete_eq|].
    rewrite lookup_delete_ne by done. split; [done|]. destruct (index_page_map_ st !! no) as [b|] eqn:Eb; [|done]. cbn. apply lookup_delete_ne.
    intros ->. apply Ho. by apply (io_inj _ Hok no old b).
  - apply numbers_nodup.
  - intros parent' st2 Hok2 Hp2 Hw'. constructor; [apply numbers_nodup| |].
    + intros no Hno. destruct (Hnew no Hno) as (k & part & p1 & Eno & Hk & Hp1 & bs & es & R & Hb & He).
      pose proof (set_parent_spec _ _ _ _ _ parent' R Hw') as R'. exists (set_parent_page_no p1 parent'), part. split; [by rewrite Hp2, Hp1|]. split; [apply (rep_parent _ _ R')|].
      apply (index_shows_page uninit (set_parent_page_no p1 parent') part adj [] parent'); [by exists bs, es|]. intros c. split; [|tauto]. intros Hc. split; [|done]. apply (key_part adj vec H1). eauto.
    + intros c Hc. apply (key_part adj vec H1) in Hc as (k & part & Hk & Hc). exists (next_index_page_no_ st0 - Z.of_nat k).
      pose proof (lookup_lt_Some _ _ _ Hk) as Hkl. split; [unfold nos; apply numbers_elem; lia|]. intros no Hno.
      destruct (Hnew no Hno) as (j & part' & p1 & Eno & Hj & Hp1 & bs & es & R & Hb & He).
      pose proof (set_parent_spec _ _ _ _ _ parent' R Hw') as R'. assert (Hgb : get_blocks (set_parent_page_no p1 parent') = bs) by apply (rep_get_blocks _ _ R').
      rewrite Hp2, Hp1 by done. split.
      * intros En. assert (j = k) as -> by lia. assert (part' = part) as -> by congruence. eexists. split; [done|]. rewrite Hgb. by apply Hb.
      * intros (p2 & [= <-] & Hin). rewrite Hgb, Hb in Hin. pose proof (part_block vec block_of H3 k part c Hk Hc). pose proof (part_block vec block_of H3 j part' c Hj Hin).
        rewrite Eno. replace (Z.of_nat j) with (Z.of_nat k) by congruence. done.
Qed.



(** The root: a new root lists the new pages, joined pairwise, and the root
    pointer moves to it. *)
Theorem index_split_at_root st old adj a p :
  index_ok st -> numbers_free st -> index_page_map_ st !! old = Some a -> index_heap st !! a = Some p ->
  ((INDEX_MAX_BLOCKS * 6) `div` 10 < size adj)%nat -> Z.of_nat (size adj) <= next_index_page_no_ st < 2 ^ 32 ->
  (forall u, is_Some (adj !! u) -> in_width 32 u) -> parent_page_no_ p = 0 -> (size adj <= 2 * INDEX_MAX_BLOCKS)%nat ->
  exists st' nos root_no q' g', do_index_split st old adj = Some (Ok st') /\ index_ok st' /\ divided st' adj root_no nos /\ page_at st' old = None /\
    page_at st' root_no = Some q' /\ index_heap st' !! root_index_page_ st' = Some q' /\ rep q' g' /\ ig_parent g' = 0 /\
    (forall x, x ∈ ig_blocks g' <-> x ∈ nos) /\ (forall x y, x ∈ nos -> y ∈ nos -> (x, y) ∈ ig_edges g' <-> x <> y) /\
    (forall no, next_index_page_no_ st < no -> no <> old -> page_at st' no = page_at st no).
Proof.
  intros Hok Hfree Ha Hp Hsz Hroom Hw Hp0 Hcap.
  destruct (split_divides st old a p adj Hok Hfree Ha Hp ltac:(rewrite Hp0; unfold in_width; lia) Hsz Hroom Hw)
    as (st1 & nos & -> & L1 & L2 & Hok1 & Hfree1 & Hn1 & Hr1 & Hnos & Hkeep & Hndn & Hdiv).
  assert (Hlt : next_index_page_no_ st < old) by (destruct (Z.leb_spec old (next_index_page_no_ st)); [rewrite Hfree in Ha by done; done|lia]).
  set (root_no := next_index_page_no_ st1) in *.
  pose proof (join_all_more nos Hndn (add_pages nos ∅)) as [Jd Jl].
  assert (Hk : forall x, is_Some (join_all nos (add_pages nos ∅) !! x) <-> x ∈ nos).
  { intros x. rewrite Jd, add_pages_lookup, lookup_empty. case_bool_decide; split; [done|eauto|by intros [? ?]|done]. }
  assert (Hl : forall x y, y ∈ get_neighbor_pages (join_all nos (add_pages nos ∅)) x <-> x ∈ nos /\ y ∈ nos /\ x <> y).
  { intros x y. rewrite Jl, add_pages_lookup, lookup_empty. unfold get_neighbor_pages. rewrite add_pages_lookup, lookup_empty.
    case_bool_decide; cbn; rewrite elem_of_nil; split; [tauto|eauto 6|intros [[]|[[? ?] _]]; done|tauto]. }
  set (adj2 := join_all nos (add_pages nos ∅)) in *.
  assert (Hs2 : (length nos <= INDEX_MAX_BLOCKS)%nat) by lia.
  destruct (index_page_graph_shows salt adj2 adj2 nos (uninit root_no) root_no Hk) as (q & Eq & bs & es & R & Hb & He); [done| |done|].
  { apply Forall_forall. intros u Hu. apply Hnos in Hu. unfold in_width. lia. }
  unfold reattach. rewrite Hp0. cbn [Z.eqb negb].
  set (st2 := IndexState (index_heap st1) (next_address st1) (index_page_map_ st1) (root_index_page_ st1) (u32 (root_no - 1))).
  assert (Hok2 : index_ok st2) by (destruct Hok1; by constructor).
  destruct (page_at_fresh st2 root_no q Hok2) as (Hok3 & Hat3 & Hoth3); [apply Hfree1; unfold root_no; lia|].
  set (st3 := install st2 root_no q) in *. set (st4 := set_root st3 (next_address st2)).
  assert (Hok4 : index_ok st4) by (destruct Hok3; by constructor).
  destruct (set_parents_spec root_no nos Hndn st4 Hok4) as (Hok5 & Em5 & Er5 & Eh5 & Ep5).
  assert (Hrn : root_no ∉ nos) by (intros Hx; apply Hnos in Hx; lia).
  assert (Hon : old ∉ nos) by (intros Hx; apply Hnos in Hx; lia).
  assert (Hpage : page_at (set_parents st4 root_no nos) root_no = Some q) by (by rewrite Ep5, bool_decide_eq_false_2).
  exists (set_parents st4 root_no nos), nos, root_no, q, (IndexGraph bs es [] 0). split; [|split; [done|split; [|split; [|split; [done|split; [|split; [done|split; [done|split; [|split]]]]]]]]].
  - destruct nos as [|n1 [|n2 nos']]; [cbn in L1; lia|cbn in L1; lia|]. fold adj2 root_no. fold st2. rewrite Eq. done.
  - apply (Hdiv root_no); [done| |unfold in_width; lia]. intros no Hno. rewrite Ep5, bool_decide_eq_true_2 by done.
    change (page_at st4 no) with (page_at st3 no). rewrite Hoth3 by (intros ->; done). done.
  - rewrite Ep5, bool_decide_eq_false_2 by done. change (page_at st4 old) with (page_at st3 old). rewrite Hoth3 by lia.
    destruct (Hkeep old Hlt) as [_ E]. rewrite decide_True in E by done. done.
  - unfold page_at in Hpage. rewrite Em5 in Hpage. rewrite Er5. change (index_page_map_ st4) with (<[root_no := next_address st1]> (index_page_map_ st1)) in Hpage.
    rewrite lookup_insert_eq in Hpage. exact Hpage.
  - intros x. cbn. by rewrite Hb.
  - intros x y Hx Hy. cbn. rewrite He, Hl. naive_solver.
  - intros no Hno Hne. rewrite Ep5, bool_decide_eq_false_2 by (intros Hx; apply Hnos in Hx; lia). change (page_at st4 no) with (page_at st3 no).
    rewrite Hoth3 by lia. destruct (Hkeep no Hno) as [_ E]. rewrite decide_False in E by done. done.
Qed.

End Ops.
End TatSmo.
