(* ===== verification/EdgeMap.v ===== *)
(** * Edge maps and vertex maps (algo/edge_map.h, algo/vertex_map.h)

    An edge map applies a functor to the edges of a frontier.  The sparse mode
    follows the edges out of the active vertices; the dense mode goes through
    all vertices, takes the entries of a vertex's own list as sources, and stops
    at the first source whose update succeeds.  The calls of the functor made by
    different threads interleave.  A functor may be given with one step for each
    call, or with one step for each access to the shared memory
    ([call_functor_t]). *)

From S2P Require Import Prelude GraphRead VertexSet Interleave.

Local Open Scope Z_scope.

(** What the dense mode reads besides neighbours: the vertices of the pages
    with their lists, and the giants (which a page may show with an empty
    list). *)
Class EdgeLister (D : Type) `{!NeighborReader D} := {
  page_lists : D -> option (list (Z * list Z));
  giants : D -> list Z;
  giant_read : D -> Z -> option (list Z * D);
  total_edge_count : D -> Z;
  listable : D -> Prop;
  page_lists_spec : forall d, listable d -> exists ls, page_lists d = Some ls /\
    (forall v l, (v, l) ∈ ls -> GraphRead.vertex d v /\ exists l', adj d v = Some l' /\ forall u, u ∈ l -> u ∈ l') /\
    (forall v l, GraphRead.vertex d v -> v ∉ giants d -> adj d v = Some l -> (v, l) ∈ ls);
  giants_vertices : forall d v, listable d -> v ∈ giants d -> GraphRead.vertex d v;
  giant_read_spec : forall d v, listable d -> v ∈ giants d -> exists l d', giant_read d v = Some (l, d') /\
    adj d v = Some l /\ GraphRead.same_graph d d' /\ listable d' /\ giants d' = giants d;
  listable_readable : forall d, listable d -> GraphRead.readable d;
  listable_read : forall d v l d', listable d -> read d v = Some (l, d') -> listable d'
}.

Module EdgeMap.
Import GraphRead VertexSet Interleave.

Section Functor.
Context {F : Type}.

(** The functor: [cond] and [update_atomic]; [None]: out of range. *)
Record edge_functor_t := EdgeFunctor { cond : F -> Z -> option bool; update_atomic : F -> Z -> Z -> option (bool * F) }.

Variable f : edge_functor_t.

(** The functor's state and the output of either mode. *)
Record em_state_t := EmState { fs : F; next : list bool; output : list Z }.

(** What a thread still has to do for one vertex; [checked]: [cond] has been
    asked (dense: for the vertex, sparse: for the first target left). *)
Inductive task_t :=
  | DenseTask (dst : Z) (srcs : list Z) (checked : bool)
  | SparseTask (src : Z) (dsts : list Z) (checked : bool).

Definition step_task (frontier : vertex_subset_t) (em : em_state_t) (t : task_t) : option (em_state_t * task_t) :=
  match t with
  | DenseTask dst srcs checked =>
    if checked then
      match srcs with
      | [] => Some (em, t)
      | src :: srcs =>
        b ← is_in frontier src;
        if b : bool then
          '(b, st) ← update_atomic f (fs em) src dst;
          Some (if b : bool then (EmState st (<[Z.to_nat dst := true]> (next em)) (output em), DenseTask dst [] true)
                else (EmState st (next em) (output em), DenseTask dst srcs true))
        else Some (em, DenseTask dst srcs true)
      end
    else c ← cond f (fs em) dst; Some (em, DenseTask dst (if c : bool then srcs else []) true)
  | SparseTask src [] _ => Some (em, t)
  | SparseTask src (dst :: dsts) false =>
    c ← cond f (fs em) dst; Some (em, if c : bool then SparseTask src (dst :: dsts) true else SparseTask src dsts false)
  | SparseTask src (dst :: dsts) true =>
    '(b, st) ← update_atomic f (fs em) src dst;
    Some (EmState st (next em) (if b : bool then output em ++ [dst] else output em), SparseTask src dsts false)
  end.

Definition task_weight (t : task_t) : nat :=
  match t with
  | DenseTask _ srcs false => S (length srcs)
  | DenseTask _ srcs true => length srcs
  | SparseTask _ dsts c => 2 * length dsts - Nat.b2n c
  end.

Lemma step_task_weight frontier em t em' t' : step_task frontier em t = Some (em', t') -> (task_weight t' <= task_weight t - 1)%nat.
Proof.
  destruct t as [dst srcs [] | src dsts c]; cbn [step_task].
  - destruct srcs as [|src srcs]; [by intros [= <- <-]|]. destruct (is_in frontier src) as [[]|]; cbn; [|intros [= <- <-]; cbn; lia|done].
    destruct (update_atomic f (fs em) src dst) as [[[] st]|]; cbn; [| |done]; intros [= <- <-]; cbn; lia.
  - destruct (cond f (fs em) dst) as [[]|]; cbn; [| |done]; intros [= <- <-]; cbn; lia.
  - destruct dsts as [|dst dsts]; [destruct c; intros [= <- <-]; cbn; lia|]. destruct c.
    + destruct (update_atomic f (fs em) src dst) as [[[] st]|]; cbn; [| |done]; intros [= <- <-]; cbn; lia.
    + destruct (cond f (fs em) dst) as [[]|]; cbn; [| |done]; intros [= <- <-]; cbn; lia.
Qed.

Definition run_tasks (frontier : vertex_subset_t) (sched : list nat) (em : em_state_t) (ts : list task_t) :
    option (em_state_t * list task_t) :=
  run_all (fun em _ t => step_task frontier em t) task_weight sched em ts.

End Functor.

Arguments edge_functor_t : clear implicits.
Arguments em_state_t : clear implicits.

(** ** Calls in steps *)

Section Calls.
Context {F PC : Type}.

(** [cf_call] begins a call of [update_atomic]; [cf_step] takes one step of it,
    and ends it with its result. *)
Record call_functor_t := CallFunctor {
  cf_cond : F -> Z -> option bool;
  cf_call : Z -> Z -> PC;
  cf_step : F -> PC -> option (F * (PC + bool));
  cf_weight : PC -> nat
}.

Variable f : call_functor_t.

(** A thread's task and the call under way, with its source and target. *)
Record call_task_t := CallTask { ct_task : task_t; ct_call : option (Z * Z * PC) }.

(** What the thread does with the result of a call. *)
Definition finish_call (em : em_state_t F) (t : task_t) (src dst : Z) (b : bool) : em_state_t F * task_t :=
  match t with
  | DenseTask v srcs c => if b then (EmState (fs em) (<[Z.to_nat dst := true]> (next em)) (output em), DenseTask v [] true) else (em, t)
  | SparseTask _ _ _ => (EmState (fs em) (next em) (if b then output em ++ [dst] else output em), t)
  end.

Definition step_call_task (frontier : vertex_subset_t) (em : em_state_t F) (t : call_task_t) : option (em_state_t F * call_task_t) :=
  match ct_call t with
  | Some (src, dst, pc) =>
    '(st, r) ← cf_step f (fs em) pc;
    let em := EmState st (next em) (output em) in
    Some (match r with
          | inl pc => (em, CallTask (ct_task t) (Some (src, dst, pc)))
          | inr b => let '(em, t) := finish_call em (ct_task t) src dst b in (em, CallTask t None)
          end)
  | None =>
    match ct_task t with
    | DenseTask dst srcs checked =>
      if checked then
        match srcs with
        | [] => Some (em, t)
        | src :: srcs =>
          b ← is_in frontier src;
          Some (em, CallTask (DenseTask dst srcs true) (if b : bool then Some (src, dst, cf_call f src dst) else None))
        end
      else c ← cf_cond f (fs em) dst; Some (em, CallTask (DenseTask dst (if c : bool then srcs else []) true) None)
    | SparseTask src [] _ => Some (em, t)
    | SparseTask src (dst :: dsts) false =>
      c ← cf_cond f (fs em) dst;
      Some (em, CallTask (if c : bool then SparseTask src (dst :: dsts) true else SparseTask src dsts false) None)
    | SparseTask src (dst :: dsts) true =>
      Some (em, CallTask (SparseTask src dsts false) (Some (src, dst, cf_call f src dst)))
    end
  end.

(** The steps a thread has left, at most, when nothing makes a call longer. *)
Definition rest_weight (t : task_t) : nat :=
  match t with
  | DenseTask dst srcs c => sum_list ((fun src => 2 + cf_weight f (cf_call f src dst))%nat <$> srcs) + (if c then 0 else 1)
  | SparseTask src dsts c => sum_list ((fun dst => 3 + cf_weight f (cf_call f src dst))%nat <$> dsts) - Nat.b2n c
  end.

Definition call_task_weight (t : call_task_t) : nat :=
  rest_weight (ct_task t) + from_option (fun c => S (cf_weight f c.2)) 0%nat (ct_call t).

Definition run_calls (frontier : vertex_subset_t) (sched : list nat) (em : em_state_t F) (ts : list task_t) :
    option (em_state_t F * list call_task_t) :=
  run_all (fun em _ t => step_call_task frontier em t) call_task_weight sched em ((fun t => CallTask t None) <$> ts).

End Calls.

Arguments call_functor_t : clear implicits.
Arguments call_task_t : clear implicits.

(** ** The modes *)

Section Modes.
Context {F T : Type}.
(** [cond] of the functor, and the interleaved run of its calls. *)
Variables (cond : F -> Z -> option bool)
  (run : vertex_subset_t -> list nat -> em_state_t F -> list task_t -> option (em_state_t F * list T)).
Context {D : Type} `{!NeighborReader D} `{!EdgeLister D}.

(** The giants, one after the other. *)
Fixpoint map_giants (frontier : vertex_subset_t) (gs : list Z) (em : em_state_t F) (d : D) : option (em_state_t F * D) :=
  match gs with
  | [] => Some (em, d)
  | gv :: gs =>
    c ← cond (fs em) gv;
    if c : bool then
      '(neighbors, d) ← giant_read d gv;
      '(em, _) ← run frontier [] em [DenseTask gv neighbors true];
      map_giants frontier gs em d
    else map_giants frontier gs em d
  end.

Definition map_dense (sched : list nat) (d : D) (frontier : vertex_subset_t) (st : F) :
    option (vertex_subset_t * F * D) :=
  let vertex_count := Z.of_nat (vertices d) in
  ls ← page_lists d;
  '(em, _) ← run frontier sched (EmState st (replicate (vertices d) false) []) ((fun q => DenseTask q.1 q.2 false) <$> ls);
  '(em, d) ← map_giants frontier (giants d) em d;
  vs ← counted_subset vertex_count (next em);
  Some (vs, fs em, d).

(** The tasks of the active vertices, in the order of the frontier. *)
Fixpoint sparse_tasks (d : D) (srcs : list Z) : option (list task_t * D) :=
  match srcs with
  | [] => Some ([], d)
  | src :: srcs =>
    '(neighbors, d) ← read d src;
    '(ts, d) ← sparse_tasks d srcs;
    Some (SparseTask src neighbors false :: ts, d)
  end.

Definition map_sparse (sched : list nat) (d : D) (frontier : vertex_subset_t) (st : F) :
    option (vertex_subset_t * F * D) :=
  srcs ← mapM (vtx frontier) (seqZ 0 (num_non_zeros frontier));
  '(ts, d) ← sparse_tasks d srcs;
  '(em, _) ← run frontier sched (EmState st [] []) ts;
  Some (sparse_subset (Z.of_nat (vertices d)) (Z.of_nat (length (output em))) (output em), fs em, d).

(** The mode is chosen by the number of active vertices.  The frontier comes
    back in the form the mode converted it to. *)
Definition map_edges (raw : nat -> list Z) (sched : list nat) (d : D) (frontier : vertex_subset_t) (st : F)
    (threshold_divisor : Z) : option (vertex_subset_t * vertex_subset_t * F * D) :=
  if is_empty frontier then Some (empty_subset (Z.of_nat (vertices d)), frontier, st, d)
  else
    let active_count := num_non_zeros frontier in
    let total_edges := total_edge_count d in
    let threshold := if 0 <? total_edges then total_edges / threshold_divisor
                     else Z.of_nat (vertices d) / threshold_divisor in
    if threshold <? active_count then
      frontier ← to_dense frontier;
      '(out, st, d) ← map_dense sched d frontier st;
      Some (out, frontier, st, d)
    else
      frontier ← to_sparse raw frontier;
      '(out, st, d) ← map_sparse sched d frontier st;
      Some (out, frontier, st, d).

End Modes.

(** With one step for each call. *)
Definition dense_giants {F D} `{!NeighborReader D} `{!EdgeLister D} (f : edge_functor_t F) := map_giants (D := D) (cond f) (run_tasks f).
Definition bw_edge_map_dense {F D} `{!NeighborReader D} `{!EdgeLister D} (f : edge_functor_t F) := map_dense (D := D) (cond f) (run_tasks f).
Definition bw_edge_map_sparse {F D} `{!NeighborReader D} `{!EdgeLister D} (f : edge_functor_t F) := map_sparse (D := D) (run_tasks f).
Definition bw_edge_map {F D} `{!NeighborReader D} `{!EdgeLister D} (f : edge_functor_t F) := map_edges (D := D) (cond f) (run_tasks f).

(** With one step for each access to the shared memory. *)
Definition bw_edge_map_calls {F PC D} `{!NeighborReader D} `{!EdgeLister D} (f : call_functor_t F PC) :=
  map_edges (D := D) (cf_cond f) (run_calls f).

(** ** Vertex maps *)

Section VertexMap.
Context {V : Type}.
(** The functor on the shared state; [None]: out of range. *)
Variable f : V -> Z -> option V.

(** The vertices a vertex map visits. *)
Definition mapped (frontier : vertex_subset_t) : option (list Z) :=
  if dense frontier then
    l ← mapM (fun v => b ← is_in frontier v; Some (v, b)) (seqZ 0 (num_vertices frontier));
    Some (fst <$> filter (fun q => q.2 = true) l)
  else mapM (vtx frontier) (seqZ 0 (num_non_zeros frontier)).

(** The calls made, in the order [perm] puts them. *)
Definition bw_vertex_map (perm : list Z -> list Z) (frontier : vertex_subset_t) (st : V) : option V :=
  if is_empty frontier then Some st
  else vs ← mapped frontier; foldl (fun acc v => st ← acc; f st v) (Some st) (perm vs).

End VertexMap.

Section VertexCalls.
Context {V PC : Type}.
(** A call of the functor in steps: its beginning, a step, and a bound of the
    steps it takes. *)
Variables (vf_call : Z -> PC) (vf_step : V -> PC -> option (V * option PC)) (vf_weight : PC -> nat).

Definition step_vertex_call (st : V) (t : option PC) : option (V * option PC) :=
  match t with Some pc => vf_step st pc | None => Some (st, None) end.

(** The calls of a vertex map, interleaved. *)
Definition bw_vertex_map_calls (sched : list nat) (frontier : vertex_subset_t) (st : V) : option V :=
  if is_empty frontier then Some st
  else
    vs ← mapped frontier;
    '(st, _) ← run_all (fun st _ t => step_vertex_call st t) (from_option vf_weight 0%nat) sched st ((fun v => Some (vf_call v)) <$> vs);
    Some st.

End VertexCalls.

(** ** The frontier as the modes see it *)

Lemma is_in_shows vs X v : shows vs X -> is_dense vs = true -> 0 <= v < VertexSet.n vs -> is_in vs v = Some (bool_decide (v ∈ X)).
Proof.
  intros Hs Hd Hv. destruct (sh_flag _ _ Hs Hd) as [fl E]. unfold is_in. rewrite E. cbn. by apply (sh_dense _ _ Hs fl E).
Qed.

Lemma vtx_shows vs X l : shows vs X -> s vs = Some l -> mapM (vtx vs) (seqZ 0 (num_non_zeros vs)) = Some l.
Proof.
  intros Hs Hl. destruct (sh_sparse _ _ Hs l Hl) as [Hnd Hx]. apply mapM_Some_2. unfold num_non_zeros.
  rewrite (sh_count _ _ Hs), <- (set_of_list l X Hnd Hx). apply Forall2_same_length_lookup_2.
  - rewrite length_seqZ. lia.
  - intros i x y E1 E2. apply lookup_seqZ in E1 as [-> _]. unfold vtx. rewrite Hl. cbn. by rewrite Z.add_0_l, Nat2Z.id.
Qed.

Lemma sparse_tasks_run {D} `{!NeighborReader D} `{!EdgeLister D} (srcs : list Z) : forall d : D, listable d ->
  (forall v, v ∈ srcs -> vertex d v) ->
  exists d', sparse_tasks d srcs = Some ((fun v => SparseTask v (default [] (adj d v)) false) <$> srcs, d') /\
    same_graph d d' /\ listable d'.
Proof.
  induction srcs as [|v srcs IH]; intros d Hl Hv; [by exists d|]. cbn [sparse_tasks].
  destruct (listable_readable d Hl v) as [ns Hns]; [apply Hv; left|].
  destruct (read_run d v ns Hns) as (d1 & E1 & Hg1). rewrite E1. cbn [mbind option_bind].
  destruct (IH d1) as (d2 & E2 & Hg2 & Hl2); [by eapply listable_read| |].
  { intros w Hw. unfold vertex. rewrite (proj1 Hg1). apply Hv. by right. }
  rewrite E2. cbn [mbind option_bind]. exists d2. split; [|split; [by trans d1|done]]. cbn [fmap list_fmap]. rewrite Hns. cbn.
  do 3 f_equal. apply list_fmap_ext. intros i x _. by rewrite (proj2 Hg1).
Qed.

End EdgeMap.

(** * Edge maps whose functor accepts every target

    For a functor whose [cond] is constantly true and whose calls interleave in
    steps: an invariant of the functor's state and of the calls under way that
    every step keeps, and a fact that a call has established for its edge when it
    ends and that later steps keep.  After the map the fact holds for every edge
    of the frontier.  A call that returns true must establish the fact for all
    edges, since the dense mode then skips the rest of the list. *)

Module EdgeMapInv.
Import GraphRead VertexSet Interleave EdgeMap.

Section Generic.
Context {F PC D : Type} `{!NeighborReader D} `{!EdgeLister D}.
Variables (f : call_functor_t F PC) (d0 : D) (X : gset Z).
(** [inv st calls]: the calls under way; [pair_ok src dst]: the calls made;
    [handled]: the fact. *)
Variables (inv : F -> list (Z * Z * PC) -> Prop) (pair_ok : Z -> Z -> Prop) (handled : F -> Z -> Z -> Prop).

Record calls_ok : Prop := {
  co_cond : forall st v, cf_cond f st v = Some true;
  co_perm : forall st cs cs', cs ≡ₚ cs' -> inv st cs -> inv st cs';
  co_call : forall st cs u v, inv st cs -> pair_ok u v -> inv st ((u, v, cf_call f u v) :: cs);
  co_step : forall st cs u v pc, inv st ((u, v, pc) :: cs) -> exists st' r, cf_step f st pc = Some (st', r) /\
    (forall a c, handled st a c -> handled st' a c) /\
    match r with
    | inl pc' => inv st' ((u, v, pc') :: cs) /\ (cf_weight f pc' < cf_weight f pc)%nat
    | inr b => inv st' cs /\ handled st' u v /\ (b = true -> forall a c, handled st' a c)
    end
}.

Hypothesis Hcalls : calls_ok.
Variable vs : vertex_subset_t.

Definition calls_of (ts : list (call_task_t PC)) : list (Z * Z * PC) := omap ct_call ts.

(** What a task does for its vertex, of which [q] has the list: the entries that
    are left, that of the call under way, and those that have been handled. *)
Definition dense_task_ok (st : F) (q : Z * list Z) (t : call_task_t PC) : Prop :=
  exists rest c, ct_task t = DenseTask q.1 rest c /\ (forall u, u ∈ rest -> u ∈ q.2) /\
    (forall x, ct_call t = Some x -> x.1.2 = q.1) /\
    forall u, u ∈ q.2 -> u ∈ X -> u ∈ rest \/ (exists pc, ct_call t = Some (u, q.1, pc)) \/ handled st u q.1.

Definition sparse_task_ok (st : F) (q : Z * list Z) (t : call_task_t PC) : Prop :=
  exists rest c, ct_task t = SparseTask q.1 rest c /\ (forall v, v ∈ rest -> v ∈ q.2) /\ (c = true -> rest <> []) /\
    (forall x, ct_call t = Some x -> x.1.1 = q.1) /\
    forall v, v ∈ q.2 -> v ∈ rest \/ (exists pc, ct_call t = Some (q.1, v, pc)) \/ handled st q.1 v.

(** [task_ok]: either of the two. *)
Definition tasks_inv (task_ok : F -> Z * list Z -> call_task_t PC -> Prop) (st0 : F) (k : nat) (ls : list (Z * list Z))
    (em : em_state_t F) (ts : list (call_task_t PC)) : Prop :=
  inv (fs em) (calls_of ts) /\ (forall a c, handled st0 a c -> handled (fs em) a c) /\ length (next em) = k /\
  Forall2 (task_ok (fs em)) ls ts.

Definition keeps (task_ok : F -> Z * list Z -> call_task_t PC -> Prop) : Prop := forall st st' q t,
  (forall a c, handled st a c -> handled st' a c) -> task_ok st q t -> task_ok st' q t.

Lemma dense_keeps : keeps dense_task_ok.
Proof.
  intros st st' q t Hm (rest & c & Et & H1 & H2 & H3). exists rest, c. split; [done|]. split; [done|]. split; [done|].
  intros u Hu HX. destruct (H3 u Hu HX) as [?|[?|?]]; auto.
Qed.

Lemma sparse_keeps : keeps sparse_task_ok.
Proof.
  intros st st' q t Hm (rest & c & Et & H1 & H2 & H3 & H4). exists rest, c. do 4 (split; [done|]).
  intros u Hu. destruct (H4 u Hu) as [?|[?|?]]; auto.
Qed.

(** One task moves. *)
Lemma tasks_move task_ok st0 k ls em em' ts i q t t' : keeps task_ok -> tasks_inv task_ok st0 k ls em ts -> ts !! i = Some t -> ls !! i = Some q ->
  (forall a c, handled (fs em) a c -> handled (fs em') a c) -> length (next em') = length (next em) ->
  (forall rest, inv (fs em) (option_list (ct_call t) ++ rest) -> inv (fs em') (option_list (ct_call t') ++ rest)) ->
  task_ok (fs em') q t' -> tasks_inv task_ok st0 k ls em' (<[i := t']> ts).
Proof.
  intros Hk (Hi & H0 & Hn & HF) Et Eq Hm Hl Hinv Ht. destruct (omap_split ct_call ts i t Et) as (rest & P1 & P2).
  split; [|split; [auto|split; [congruence|]]].
  - eapply (co_perm Hcalls); [symmetry; apply P2|]. apply Hinv. eapply (co_perm Hcalls); [exact P1|done].
  - rewrite <- (list_insert_id ls i q Eq). apply Forall2_insert; [|done]. eapply Forall2_impl; [exact HF|]. intros x y. by apply Hk.
Qed.

(** A call takes a step. *)
Lemma call_step em u v pc cs : inv (fs em) ((u, v, pc) :: cs) -> exists st' r, cf_step f (fs em) pc = Some (st', r) /\
  (forall a c, handled (fs em) a c -> handled st' a c).
Proof. intros Hi. destruct (co_step Hcalls _ _ _ _ _ Hi) as (st' & r & E & Hm & _). by exists st', r. Qed.

Definition entries_ok (q : Z * list Z) : Prop := vertex d0 q.1 /\ forall u, u ∈ q.2 -> vertex d0 u /\ pair_ok u q.1.

Lemma inv_split ts i t em st0 k ls task_ok x : tasks_inv task_ok st0 k ls em ts -> ts !! i = Some t -> ct_call t = Some x ->
  exists rest, inv (fs em) (x :: rest).
Proof.
  intros (Hi & _) Et Ex. destruct (omap_split ct_call ts i t Et) as (rest & P1 & _). exists rest.
  eapply (co_perm Hcalls); [|exact Hi]. unfold calls_of. rewrite P1, Ex. done.
Qed.

(** What a step of a call leaves, whatever other calls are under way. *)
Lemma call_stepped st st' r u v pc : cf_step f st pc = Some (st', r) -> forall cs, inv st ((u, v, pc) :: cs) ->
  match r with
  | inl pc' => inv st' ((u, v, pc') :: cs) /\ (cf_weight f pc' < cf_weight f pc)%nat
  | inr b => inv st' cs /\ handled st' u v /\ (b = true -> forall a c, handled st' a c)
  end.
Proof.
  intros E cs Hi. destruct (co_step Hcalls _ _ _ _ _ Hi) as (st2 & r2 & E2 & _ & H). rewrite E in E2. injection E2 as <- <-. done.
Qed.

Section Dense.
Hypothesis vs_shows : shows vs X.
Hypothesis vs_dense : is_dense vs = true.
Hypothesis vs_count : VertexSet.n vs = Z.of_nat (vertices d0).

Lemma map_dense_step st0 k ls em ts i t : Forall entries_ok ls -> tasks_inv dense_task_ok st0 k ls em ts -> ts !! i = Some t ->
  exists em' t', step_call_task f vs em t = Some (em', t') /\ tasks_inv dense_task_ok st0 k ls em' (<[i := t']> ts) /\
    (call_task_weight f t' <= call_task_weight f t - 1)%nat.
Proof.
  intros Hls Hinv Et. pose proof Hinv as (_ & _ & _ & HF). destruct (Forall2_lookup_r _ _ _ _ _ HF Et) as (q & Eq & Hq).
  pose proof Hq as (rest & c & Ek & Hsub & Hrun & Hcov). destruct (proj1 (Forall_lookup _ _) Hls i q Eq) as [Hv Hl].
  destruct q as [v l], t as [k0 run]. cbn [fst snd ct_task ct_call] in *. subst k0. unfold step_call_task. cbn [ct_call ct_task].
  destruct run as [[[u w] pc]|].
  - assert (w = v) as -> by (by apply (Hrun (u, w, pc))). destruct (inv_split _ _ _ _ _ _ _ _ _ Hinv Et eq_refl) as [cs Hi].
    destruct (call_step em u v pc cs Hi) as (st' & r & E & Hm). pose proof (call_stepped _ _ _ u v _ E) as Hr. rewrite E. cbn [mbind option_bind].
    destruct r as [pc'|b]; cbn [finish_call].
    + eexists _, _. split; [done|]. split; [|destruct (Hr cs Hi); unfold call_task_weight; cbn; lia].
      apply (tasks_move dense_task_ok st0 k ls em _ ts i (v, l) _ _ dense_keeps Hinv Et Eq); [done|done|intros; by apply Hr|].
      exists rest, c. split; [done|]. split; [done|]. split; [intros x [= <-]; done|]. intros u' Hu HX. cbn.
      destruct (Hcov u' Hu HX) as [?|[[pc2 [= <- <-]]|?]]; [by left|right; left; by exists pc'|right; right; auto].
    + destruct (Hr cs Hi) as (_ & Hh & Hall). destruct b; (eexists _, _; split; [done|]; split; [|unfold call_task_weight; cbn; lia]);
        (apply (tasks_move dense_task_ok st0 k ls em _ ts i (v, l) _ _ dense_keeps Hinv Et Eq);
          [done|cbn; by rewrite ?length_insert|intros cs' Hi'; by apply (Hr cs')|]).
      * exists [], true. split; [done|]. split; [by intros u' Hu%elem_of_nil|]. split; [done|]. intros u' _ _. right. right. by apply Hall.
      * exists rest, c. split; [done|]. split; [done|]. split; [done|]. intros u' Hu HX. cbn.
        destruct (Hcov u' Hu HX) as [?|[[pc2 [= <- <-]]|?]]; [by left|by right; right|right; right; auto].
  - destruct c.
    + destruct rest as [|u rest].
      { exists em, (CallTask (DenseTask v [] true) None). split; [done|]. split; [by rewrite list_insert_id|]. cbn. lia. }
      destruct (Hl u) as [Hu Hp]; [apply Hsub; left|].
      rewrite (is_in_shows vs X u vs_shows vs_dense) by (rewrite vs_count; exact Hu). cbn [mbind option_bind].
      eexists _, _. split; [done|]. split; [|case_bool_decide; unfold call_task_weight; cbn; unfold id; lia].
      apply (tasks_move dense_task_ok st0 k ls em _ ts i (v, l) _ _ dense_keeps Hinv Et Eq); [done|done|..].
      * intros cs Hi. cbn [ct_call option_list app] in *. case_bool_decide; [|done]. by apply (co_call Hcalls).
      * exists rest, true. split; [done|]. split; [intros w Hw; apply Hsub; by right|]. cbn [ct_call fst snd]. split.
        { intros x. case_bool_decide; [by intros [= <-]|done]. }
        intros w Hw HX. destruct (Hcov w Hw HX) as [Hin|[[pc Hx]|?]]; [|done|by right; right].
        apply elem_of_cons in Hin as [->|?]; [|by left]. rewrite bool_decide_eq_true_2 by done. right. left. by eexists.
    + rewrite (co_cond Hcalls). cbn [mbind option_bind]. eexists _, _. split; [done|]. split; [|unfold call_task_weight; cbn; lia].
      apply (tasks_move dense_task_ok st0 k ls em _ ts i (v, l) _ _ dense_keeps Hinv Et Eq); [done..|]. by exists rest, true.
Qed.

Lemma calls_of_start ts : calls_of ((fun t => CallTask t None) <$> ts) = [].
Proof. apply omap_none. intros t Ht. by apply list_elem_of_fmap in Ht as (x & -> & _). Qed.

Lemma ended t : call_task_weight f t = 0%nat -> ct_call t = None /\
  match ct_task t with DenseTask _ srcs _ => srcs = [] | SparseTask _ dsts c => c = true \/ dsts = [] end.
Proof.
  unfold call_task_weight. destruct t as [k [x|]]; cbn [ct_call ct_task from_option]; [lia|]. intros H. split; [done|].
  destruct k as [v [|u srcs] c|v [|u dsts] []]; cbn in H; auto; try lia.
Qed.

Lemma map_dense_tasks_run sched ls em ts : Forall entries_ok ls -> inv (fs em) [] ->
  Forall2 (dense_task_ok (fs em)) ls ((fun t => CallTask t None) <$> ts) ->
  exists em' ts', run_calls f vs sched em ts = Some (em', ts') /\ inv (fs em') [] /\ length (next em') = length (next em) /\
    (forall a c, handled (fs em) a c -> handled (fs em') a c) /\
    forall v l u, (v, l) ∈ ls -> u ∈ l -> u ∈ X -> handled (fs em') u v.
Proof.
  intros Hls Hi HF0.
  destruct (run_all_descends (fun em _ t => step_call_task f vs em t) (call_task_weight f)
    (tasks_inv dense_task_ok (fs em) (length (next em)) ls) (fun em' ts i t => map_dense_step (fs em) _ ls em' ts i t Hls) sched em
    ((fun t => CallTask t None) <$> ts)) as (em' & ts' & E & (H1 & H2 & H3 & HF) & _ & Hw).
  { split; [by rewrite calls_of_start|]. done. }
  exists em', ts'. split; [exact E|].
  assert (Hno : calls_of ts' = []) by (apply omap_none; intros t Ht; by apply ended, Hw). rewrite Hno in H1.
  split; [done|]. split; [done|]. split; [done|]. intros v l u Hin Hu HX.
  apply list_elem_of_lookup in Hin as [i Ei]. destruct (Forall2_lookup_l _ _ _ _ _ HF Ei) as (t & Et & rest & c & Ek & _ & _ & Hcov).
  cbn [fst snd] in *. apply list_elem_of_lookup_2, Hw, ended in Et as [Ec Et]. rewrite Ek in Et. subst rest.
  destruct (Hcov u Hu HX) as [Hin|[[pc Hx]|?]]; [by apply elem_of_nil in Hin|congruence|done].
Qed.

End Dense.

(** *** The sparse mode *)

Lemma map_sparse_step st0 k ls em ts i t : (forall u l v, (u, l) ∈ ls -> v ∈ l -> pair_ok u v) ->
  tasks_inv sparse_task_ok st0 k ls em ts -> ts !! i = Some t ->
  exists em' t', step_call_task f vs em t = Some (em', t') /\ tasks_inv sparse_task_ok st0 k ls em' (<[i := t']> ts) /\
    (call_task_weight f t' <= call_task_weight f t - 1)%nat.
Proof.
  intros Hls Hinv Et. pose proof Hinv as (_ & _ & _ & HF). destruct (Forall2_lookup_r _ _ _ _ _ HF Et) as (q & Eq & Hq).
  pose proof Hq as (rest & c & Ek & Hsub & Hc & Hrun & Hcov). destruct q as [u l], t as [k0 run]. cbn [fst snd ct_task ct_call] in *. subst k0.
  assert (Hp : forall v, v ∈ l -> pair_ok u v) by (intros v; apply Hls; by eapply list_elem_of_lookup_2).
  unfold step_call_task. cbn [ct_call ct_task]. destruct run as [[[u' v] pc]|].
  - assert (u' = u) as -> by (by apply (Hrun (u', v, pc))). destruct (inv_split _ _ _ _ _ _ _ _ _ Hinv Et eq_refl) as [cs Hi].
    destruct (call_step em u v pc cs Hi) as (st' & r & E & Hm). pose proof (call_stepped _ _ _ u v _ E) as Hr. rewrite E. cbn [mbind option_bind].
    destruct r as [pc'|b]; cbn [finish_call].
    + eexists _, _. split; [done|]. split; [|destruct (Hr cs Hi); unfold call_task_weight; cbn; lia].
      apply (tasks_move sparse_task_ok st0 k ls em _ ts i (u, l) _ _ sparse_keeps Hinv Et Eq); [done|done|intros; by apply Hr|].
      exists rest, c. split; [done|]. split; [done|]. split; [done|]. split; [intros x [= <-]; done|]. intros w Hw. cbn.
      destruct (Hcov w Hw) as [?|[[pc2 [= <- <-]]|?]]; [by left|right; left; by exists pc'|right; right; auto].
    + destruct (Hr cs Hi) as (_ & Hh & _). eexists _, _. split; [done|]. split; [|unfold call_task_weight; cbn; lia].
      apply (tasks_move sparse_task_ok st0 k ls em _ ts i (u, l) _ _ sparse_keeps Hinv Et Eq);
        [done|done|intros cs' Hi'; by apply (Hr cs')|].
      exists rest, c. do 4 (split; [done|]). intros w Hw. cbn.
      destruct (Hcov w Hw) as [?|[[pc2 [= <- <-]]|?]]; [by left|by right; right|right; right; auto].
  - destruct rest as [|v rest].
    { exists em, (CallTask (SparseTask u [] c) None). split; [done|]. split; [by rewrite list_insert_id|]. destruct c; cbn; lia. }
    destruct c.
    + eexists _, _. split; [done|]. split; [|unfold call_task_weight; cbn; unfold id; lia].
      apply (tasks_move sparse_task_ok st0 k ls em _ ts i (u, l) _ _ sparse_keeps Hinv Et Eq); [done|done|..].
      * intros cs Hi. apply (co_call Hcalls); [exact Hi|]. apply Hp, Hsub. left.
      * exists rest, false. split; [done|]. split; [intros w Hw; apply Hsub; by right|]. split; [done|]. split; [by intros x [= <-]|].
        intros w Hw. destruct (Hcov w Hw) as [Hin|[[pc Hx]|?]]; [|done|by right; right].
        apply elem_of_cons in Hin as [->|?]; [|by left]. right. left. by eexists.
    + rewrite (co_cond Hcalls). cbn [mbind option_bind]. eexists _, _. split; [done|]. split; [|unfold call_task_weight; cbn; unfold id; lia].
      apply (tasks_move sparse_task_ok st0 k ls em _ ts i (u, l) _ _ sparse_keeps Hinv Et Eq); [done..|]. by exists (v :: rest), true.
Qed.

Lemma sparse_tasks_done sched ls em ts : (forall u l v, (u, l) ∈ ls -> v ∈ l -> pair_ok u v) -> inv (fs em) [] ->
  Forall2 (sparse_task_ok (fs em)) ls ((fun t => CallTask t None) <$> ts) ->
  exists em' ts', run_calls f vs sched em ts = Some (em', ts') /\ inv (fs em') [] /\
    forall u l v, (u, l) ∈ ls -> v ∈ l -> handled (fs em') u v.
Proof.
  intros Hls Hi HF0.
  destruct (run_all_descends (fun em _ t => step_call_task f vs em t) (call_task_weight f)
    (tasks_inv sparse_task_ok (fs em) (length (next em)) ls) (fun em' ts i t => map_sparse_step (fs em) _ ls em' ts i t Hls) sched em
    ((fun t => CallTask t None) <$> ts)) as (em' & ts' & E & (H1 & _ & _ & HF) & _ & Hw).
  { split; [by rewrite calls_of_start|]. done. }
  exists em', ts'. split; [exact E|].
  assert (Hno : calls_of ts' = []) by (apply omap_none; intros t Ht; by apply ended, Hw). rewrite Hno in H1.
  split; [done|]. intros u l v Hin Hv.
  apply list_elem_of_lookup in Hin as [i Ei]. destruct (Forall2_lookup_l _ _ _ _ _ HF Ei) as (t & Et & rest & c & Ek & _ & Hc & _ & Hcov).
  cbn [fst snd] in *. apply list_elem_of_lookup_2, Hw in Et. pose proof Et as Hz. apply ended in Et as [Ec _].
  destruct (Hcov v Hv) as [Hin|[[pc Hx]|?]]; [|congruence|done]. exfalso. unfold call_task_weight in Hz. rewrite Ek in Hz.
  destruct rest as [|w rest]; [by apply elem_of_nil in Hin|]. destruct c; cbn in Hz; unfold id in Hz; lia.
Qed.

(** *** The map *)

Hypothesis X_vertices : forall v, v ∈ X -> vertex d0 v.
(** Neighbours are vertices, and either end may be the source. *)
Hypothesis edges_ok : forall v l u, vertex d0 v -> adj d0 v = Some l -> u ∈ l -> vertex d0 u /\ pair_ok u v /\ pair_ok v u.

Lemma giants_run gs : shows vs X -> is_dense vs = true -> VertexSet.n vs = Z.of_nat (vertices d0) ->
  forall d em, same_graph d0 d -> listable d -> (forall v, v ∈ gs -> v ∈ giants d) -> inv (fs em) [] -> length (next em) = vertices d0 ->
  exists em' d', map_giants (cf_cond f) (run_calls f) vs gs em d = Some (em', d') /\ inv (fs em') [] /\ length (next em') = vertices d0 /\
    same_graph d0 d' /\ listable d' /\ (forall a c, handled (fs em) a c -> handled (fs em') a c) /\
    forall v l u, v ∈ gs -> adj d0 v = Some l -> u ∈ l -> u ∈ X -> handled (fs em') u v.
Proof.
  intros Hs Hd Hn. induction gs as [|g gs IH]; intros d em Hg Hl Hgs Hi Hlen.
  { exists em, d. do 6 (split; [done|]). intros v l u Hv. by apply elem_of_nil in Hv. }
  assert (Hgv : vertex d0 g). { unfold vertex. rewrite <- (proj1 Hg). apply giants_vertices; [done|]. apply Hgs. left. }
  destruct (giant_read_spec d g Hl) as (l & d1 & Er & Ha & Hg1 & Hl1 & Hgi); [apply Hgs; left|]. rewrite (proj2 Hg) in Ha.
  cbn [map_giants]. rewrite (co_cond Hcalls). cbn [mbind option_bind]. rewrite Er. cbn [mbind option_bind].
  destruct (map_dense_tasks_run Hs Hd Hn [] [(g, l)] em [DenseTask g l true]) as (em1 & ts & E1 & Hi1 & Hlen1 & Hm1 & Hh1); [|done| |].
  { constructor; [|constructor]. split; [done|]. intros u Hu. destruct (edges_ok g l u Hgv Ha Hu) as (? & ? & _). done. }
  { constructor; [|constructor]. exists l, true. do 3 (split; [done|]). intros u Hu _. by left. }
  rewrite E1. cbn [mbind option_bind].
  destruct (IH d1 em1) as (em2 & d2 & E2 & H1 & H2 & H3 & H4 & H5 & H6); [by trans d|done| |done|congruence|].
  { intros v Hv. rewrite Hgi. apply Hgs. by right. }
  exists em2, d2. split; [done|]. do 4 (split; [done|]). split; [auto|]. intros v m u Hv Hm Hu HX.
  apply elem_of_cons in Hv as [->|Hv]; [|by eapply H6]. apply H5. replace m with l in Hu by congruence. eapply Hh1; [left|done|done].
Qed.

(** After either mode the invariant holds, and every list entry that is an
    edge of the frontier has been handled, from one end. *)
Lemma edge_map_dense_inv sched d st : (0 < vertices d0)%nat -> same_graph d0 d -> listable d -> shows vs X -> is_dense vs = true ->
  VertexSet.n vs = Z.of_nat (vertices d0) -> inv st [] ->
  exists out st' d', map_dense (cf_cond f) (run_calls f) sched d vs st = Some (out, st', d') /\ inv st' [] /\ same_graph d0 d' /\ listable d' /\
    forall v l u, vertex d0 v -> adj d0 v = Some l -> u ∈ l -> u ∈ X -> handled st' u v.
Proof.
  intros Hpos Hg Hl Hs Hd Hn Hi. destruct (page_lists_spec d Hl) as (ls & Els & Hls & Hcov). unfold map_dense.
  rewrite Els. cbn [mbind option_bind]. rewrite (proj1 Hg).
  destruct (map_dense_tasks_run Hs Hd Hn sched ls (EmState st (replicate (vertices d0) false) []) ((fun q => DenseTask q.1 q.2 false) <$> ls))
    as (em1 & ts & E1 & Hi1 & Hlen1 & _ & Hh1); [|done| |].
  { apply Forall_forall. intros [v l] Hin. destruct (Hls v l Hin) as (Hv & l' & Ha & Hsub). unfold vertex in Hv. rewrite (proj1 Hg) in Hv.
    rewrite (proj2 Hg) in Ha. split; [exact Hv|]. intros u Hu. destruct (edges_ok v l' u Hv Ha (Hsub u Hu)) as (? & ? & _). done. }
  { rewrite <- list_fmap_compose. apply Forall2_fmap_r, Forall_Forall2_diag, Forall_forall. intros [v l] _. exists l, false.
    do 3 (split; [done|]). intros u Hu _. by left. }
  rewrite E1. cbn [mbind option_bind]. cbn in Hlen1. rewrite length_replicate in Hlen1.
  destruct (giants_run (giants d) Hs Hd Hn d em1 Hg Hl) as (em2 & d2 & E2 & Hi2 & Hlen2 & Hg2 & Hl2 & Hm2 & Hh2); [done..|].
  rewrite E2. cbn [mbind option_bind]. pose proof (sh_size _ _ Hs) as Hmax. rewrite Hn in Hmax.
  destruct (shows_counted (Z.of_nat (vertices d0)) (next em2)) as (vs' & E3 & _); [by rewrite Hlen2|lia|].
  rewrite E3. cbn [mbind option_bind]. eexists _, _, _. split; [done|]. split; [done|]. split; [done|]. split; [done|].
  intros v l u Hv Ha Hu HX. destruct (decide (v ∈ giants d)) as [Hgi|Hgi]; [by eapply Hh2|]. apply Hm2. eapply Hh1; [|done|done].
  apply Hcov; [unfold vertex; by rewrite (proj1 Hg)|done|by rewrite (proj2 Hg)].
Qed.

Lemma edge_map_sparse_inv sched d st l : same_graph d0 d -> listable d -> shows vs X -> s vs = Some l -> inv st [] ->
  exists out st' d', map_sparse (run_calls f) sched d vs st = Some (out, st', d') /\ inv st' [] /\ same_graph d0 d' /\ listable d' /\
    forall u m v, u ∈ X -> adj d0 u = Some m -> v ∈ m -> handled st' u v.
Proof.
  intros Hg Hl Hs El Hi. unfold map_sparse. rewrite (vtx_shows vs X l Hs El). cbn [mbind option_bind].
  destruct (sh_sparse _ _ Hs l El) as [_ HlX]. destruct (sparse_tasks_run l d Hl) as (d1 & E1 & Hg1 & Hl1).
  { intros v Hv. unfold vertex. rewrite (proj1 Hg). by apply X_vertices, HlX. }
  rewrite E1. cbn [mbind option_bind]. set (ls := (fun v => (v, default [] (adj d v))) <$> l).
  destruct (sparse_tasks_done sched ls (EmState st [] []) ((fun v => SparseTask v (default [] (adj d v)) false) <$> l))
    as (em' & ts' & E2 & Hi' & Hh).
  { intros u m v Hin Hv. apply list_elem_of_fmap in Hin as (w & [= -> ->] & Hw). destruct (adj d w) as [m|] eqn:Em; [|by apply elem_of_nil in Hv].
    rewrite (proj2 Hg) in Em. destruct (edges_ok w m v) as (_ & _ & ?); [by apply X_vertices, HlX|done|done|done]. }
  { done. }
  { rewrite <- list_fmap_compose. unfold ls. apply Forall2_fmap, Forall_Forall2_diag, Forall_forall. intros u _. exists (default [] (adj d u)), false.
    do 4 (split; [done|]). intros v Hv. by left. }
  rewrite E2. cbn [mbind option_bind]. eexists _, _, _. split; [done|]. split; [done|]. split; [by trans d|]. split; [done|].
  intros u m v Hu Hm Hv. apply (Hh u m v); [|done]. apply list_elem_of_fmap. exists u. rewrite (proj2 Hg), Hm. split; [done|]. by apply HlX.
Qed.

End Generic.

Section Map.
Context {F PC D : Type} `{!NeighborReader D} `{!EdgeLister D}.
Variables (f : call_functor_t F PC) (d0 : D) (X : gset Z) (inv : F -> list (Z * Z * PC) -> Prop) (pair_ok : Z -> Z -> Prop) (handled : F -> Z -> Z -> Prop).

(** The whole map, on a frontier of all kinds. *)
Lemma edge_map_inv raw sched d st vs div : calls_ok f inv pair_ok handled ->
  (forall v, v ∈ X -> vertex d0 v) ->
  (forall v l u, vertex d0 v -> adj d0 v = Some l -> u ∈ l -> vertex d0 u /\ pair_ok u v /\ pair_ok v u) ->
  (forall k, length (raw k) = k) -> (0 < vertices d0)%nat -> same_graph d0 d -> listable d -> shows vs X ->
  VertexSet.n vs = Z.of_nat (vertices d0) -> inv st [] ->
  exists out vs' st' d', bw_edge_map_calls f raw sched d vs st div = Some (out, vs', st', d') /\ inv st' [] /\ same_graph d0 d' /\
    listable d' /\ shows vs' X /\ VertexSet.n vs' = Z.of_nat (vertices d0) /\
    forall u l v, u ∈ X -> v ∈ X -> adj d0 u = Some l -> v ∈ l -> handled st' u v \/ handled st' v u.
Proof.
  intros Hc HX He Hraw Hpos Hg Hl Hs Hn Hi. unfold bw_edge_map_calls, map_edges, is_empty. rewrite (sh_count _ _ Hs).
  destruct (Z.eqb_spec (Z.of_nat (size X)) 0) as [Hz|Hz].
  { exists (empty_subset (Z.of_nat (vertices d))), vs, st, d. do 6 (split; [done|]). intros u l v Hu.
    assert (X ≡ ∅) by (apply size_empty_inv; lia). set_solver. }
  destruct (_ <? num_non_zeros vs).
  - destruct (to_dense_run vs X Hs) as (vs1 & E1 & Hs1 & Hd1 & Hn1 & _). rewrite E1. cbn [mbind option_bind].
    destruct (edge_map_dense_inv f d0 X inv pair_ok handled Hc vs1 He sched d st Hpos Hg Hl Hs1 Hd1)
      as (out & st' & d' & E2 & Hi' & Hg' & Hl' & Hh); [congruence|done|].
    rewrite E2. cbn [mbind option_bind]. exists out, vs1, st', d'. do 5 (split; [done|]). split; [congruence|].
    intros u l v Hu Hv Ha Hin. right. by eapply Hh; [apply HX|..].
  - destruct (to_sparse_run raw vs X Hraw Hs) as (vs1 & E1 & Hs1 & _ & Hsp & Hn1 & _). rewrite E1. cbn [mbind option_bind].
    destruct Hsp as [l1 El1]; [rewrite (sh_count _ _ Hs); lia|].
    destruct (edge_map_sparse_inv f d0 X inv pair_ok handled Hc vs1 HX He sched d st l1 Hg Hl Hs1 El1)
      as (out & st' & d' & E2 & Hi' & Hg' & Hl' & Hh); [done|].
    rewrite E2. cbn [mbind option_bind]. exists out, vs1, st', d'. do 5 (split; [done|]). split; [congruence|].
    intros u l v Hu Hv Ha Hin. left. by eapply Hh.
Qed.

End Map.
End EdgeMapInv.
