(* ===== verification/EdgeMapDb.v ===== *)
(** * Edge maps over the database (algo/edge_map.h on [bw_graph_db_t])

    The dense mode goes through the pages of the CSR file and the live vertices
    of each, then through the giants of the vertex index.  A page left behind by
    a consolidation still has its vertices, so the database keeps the promise of
    [EdgeLister] while every entry of every page is current ([db_listable]).
    The grouping by pages of the sparse mode is not modelled here. *)

From S2P Require Import Prelude Config DeltaPage VertexIndex PageMap CsrPage Db GraphRead VertexSet Interleave EdgeMap.

Local Open Scope Z_scope.

Module EdgeMapDb.
Import Csr VIndex DB GraphRead VertexSet Interleave EdgeMap.

Section Lister.
Context {A G SK : Type} `{cfg : Config} `{!PageMap.PageAllocator A (Z.of_nat DELTA_PAGE_SIZE)}
  `{!GiantStore G} `{!UpdateSketch SK}.

Abbreviation db := (bw_graph_db_t (A := A) (G := G) (SK := SK)).

(** The loop over the vertices of a page, deleted ones skipped. *)
Definition page_entries (page : csr_page_t) : option (list (Z * list Z)) :=
  let vertices := (vertex_span_ page).2 in
  l ← mapM (fun vi => vertex ← vertex_at page vi;
                      Some (if is_deleted vertex then [] else [(vertex_id vertex, page_neighbors page vi)]))
           (seqZ 0 vertices);
  Some (mjoin l).

Definition dense_lists (page_count : Z) (s : db) : option (list (Z * list Z)) :=
  l ← mapM (fun pno => page ← csr_pages s !! pno; page_entries page) (seqZ 0 page_count);
  Some (mjoin l).

Definition live_giant (s : db) (gv : Z) : bool :=
  match item_of s gv with Some item => negb (is_delete item) && is_giant item | None => false end.

Definition live_giants (s : db) : list Z := filter (fun gv => live_giant s gv = true) (seqZ 0 (Z.of_nat (vertices s))).

Definition read_giant (s : db) (gv : Z) : option (list Z * db) :=
  let '(ns, g) := g_read_neighbor (giant_db s) gv in ns ← ns; Some (ns, set_giants s g).

(** ** Reading a giant *)

Lemma page_entries_elem page l v ns : page_entries page = Some l -> (v, ns) ∈ l <->
  exists vi e, 0 <= vi < (vertex_span_ page).2 /\ vertex_at page vi = Some e /\ is_deleted e = false /\
    v = vertex_id e /\ ns = page_neighbors page vi.
Proof.
  unfold page_entries. destruct (mapM _ _) as [ls|] eqn:E; [|done]. intros [= <-]. apply mapM_Some_1 in E.
  rewrite list_elem_of_join. split.
  - intros (l & Hin & Hl). apply list_elem_of_lookup in Hl as [i Hi]. destruct (Forall2_lookup_r _ _ _ _ _ E Hi) as (vi & Evi & Ex).
    apply list_elem_of_lookup_2, elem_of_seqZ in Evi. destruct (vertex_at page vi) as [e|] eqn:Ee; [|done]. injection Ex as <-.
    destruct (is_deleted e) eqn:Ed; [by apply elem_of_nil in Hin|]. apply list_elem_of_singleton in Hin as [= -> ->].
    exists vi, e. split; [lia|done].
  - intros (vi & e & Hvi & Ee & Ed & -> & ->). assert (Hin : vi ∈ seqZ 0 (vertex_span_ page).2) by (apply elem_of_seqZ; lia).
    apply list_elem_of_lookup in Hin as [i Hi]. destruct (Forall2_lookup_l _ _ _ _ _ E Hi) as (x & Ex & Hx).
    rewrite Ee in Hx. cbn in Hx. rewrite Ed in Hx. injection Hx as <-. eexists. split; [apply list_elem_of_singleton; reflexivity|].
    by eapply list_elem_of_lookup_2.
Qed.

(** Every entry is current: it names a vertex and lists nothing that a read of
    it does not; every vertex is live, and entered on its page unless a giant. *)
Record db_listable (page_count : Z) (s : db) : Prop := {
  dl_readable : readable s;
  dl_pages : forall pno, 0 <= pno < page_count -> exists page l, csr_pages s !! pno = Some page /\ page_entries page = Some l /\
    forall v ns, (v, ns) ∈ l -> vertex s v /\ exists ns', db_adj s v = Some ns' /\ forall u, u ∈ ns -> u ∈ ns';
  dl_vertices : forall v, vertex s v -> exists item, item_of s v = Some item /\ is_delete item = false /\
    (is_giant item = false -> exists loc page l, get_vertex_location (vertex_index s) (Z.to_nat v) = Some loc /\
       0 <= loc.1 < page_count /\ csr_pages s !! loc.1 = Some page /\ page_entries page = Some l /\
       (v, page_neighbors page loc.2) ∈ l)
}.

Lemma read_giant_run (s : db) v : readable s -> v ∈ live_giants s -> exists l g, read_giant s v = Some (l, set_giants s g) /\
  db_adj s v = Some l /\ same_graph s (set_giants s g).
Proof.
  intros Hr Hv. apply list_elem_of_filter in Hv as [Hg Hv]. apply elem_of_seqZ in Hv.
  assert (Hvv : vertex s v) by (unfold vertex; lia). destruct (Hr v Hvv) as [l Ha].
  change (adj s v) with (db_adj s v) in Ha. pose proof Ha as Ha'. unfold db_adj, read_neighbor in Ha.
  unfold live_giant in Hg. destruct (vertex_update_sketch_ s) as [sk|] eqn:Es; [|done]. destruct (item_of s v) as [item|] eqn:Ei; [|done].
  apply andb_prop in Hg as [_ Hg]. cbn [mbind option_bind] in Ha. destruct (get_vertex_location _ _) as [loc|]; [|done]. cbn [mbind option_bind] in Ha.
  destruct (csr_pages s !! loc.1) as [p|]; [|done]. cbn [mbind option_bind] in Ha. rewrite Hg in Ha. cbn [giant_db record_read set_sketch] in Ha.
  unfold read_giant. pose proof (fun w => g_read_stable (giant_db s) v w) as Hst.
  destruct (g_read_neighbor (giant_db s) v) as [[ns|] g]; [|done]. injection Ha as ->. exists l, g. split; [done|]. split; [done|].
  split; [done|]. intros w. change (db_adj (set_giants s g) w = db_adj s w). unfold db_adj, read_neighbor. cbn [vertex_update_sketch_ set_giants].
  rewrite Es. cbn [mbind option_bind]. change (item_of (set_giants s g) w) with (item_of s w).
  destruct (item_of s w) as [iw|]; [|done]. cbn. destruct (get_vertex_location _ _) as [lw|]; [|done]. cbn.
  destruct (csr_pages s !! lw.1); [|done]. cbn. destruct (is_giant iw); [|done]. specialize (Hst w). cbn in Hst.
  destruct (g_read_neighbor g w) as [[]], (g_read_neighbor (giant_db s) w) as [[]]; cbn in Hst |- *; congruence.
Qed.

(** Reads leave everything the lister looks at alone. *)
Lemma db_listable_same pc (s s' : db) : vertex_index s' = vertex_index s -> csr_pages s' = csr_pages s -> same_graph s s' ->
  db_listable pc s -> db_listable pc s'.
Proof.
  intros Hi Hp Hg [H1 H2 H3]. pose proof Hg as [_ Ha]. change (forall v, db_adj s' v = db_adj s v) in Ha.
  constructor.
  - by eapply same_graph_readable.
  - intros pno Hpno. destruct (H2 pno Hpno) as (page & l & E1 & E2 & Hx). exists page, l. rewrite Hp. split; [done|]. split; [done|].
    intros v ns Hin. destruct (Hx v ns Hin) as [Hv Hl]. rewrite Ha. split; [|done]. unfold vertex in *. cbn in *. by rewrite Hi.
  - intros v Hv. unfold item_of. rewrite Hi, Hp. apply H3. unfold vertex in *. cbn in *. by rewrite Hi in Hv.
Qed.

Lemma read_neighbor_fixed (s : db) v l s' : read_neighbor s v = Some (l, s') -> vertex_index s' = vertex_index s /\ csr_pages s' = csr_pages s.
Proof.
  unfold read_neighbor. destruct (vertex_update_sketch_ s) as [sk|]; [|done]. cbn [mbind option_bind].
  destruct (item_of s v) as [item|]; [|done]. cbn [mbind option_bind].
  destruct (get_vertex_location _ _) as [loc|]; [|done]. cbn [mbind option_bind].
  destruct (csr_pages s !! loc.1) as [p|]; [|done]. cbn [mbind option_bind]. destruct (is_giant item); [|by intros [= _ <-]].
  destruct (g_read_neighbor _ v) as [[ns|] g]; [|done]. by intros [= _ <-].
Qed.

Lemma dense_lists_run pc (s : db) : db_listable pc s -> exists ls, dense_lists pc s = Some ls /\
  (forall v l, (v, l) ∈ ls -> vertex s v /\ exists l', db_adj s v = Some l' /\ forall u, u ∈ l -> u ∈ l') /\
  (forall v l, vertex s v -> v ∉ live_giants s -> db_adj s v = Some l -> (v, l) ∈ ls).
Proof.
  intros [H1 H2 H3]. unfold dense_lists.
  destruct (mapM_is_Some_2 (fun pno => page ← csr_pages s !! pno; page_entries page) (seqZ 0 pc)) as [ls Els].
  { apply Forall_forall. intros pno Hpno. apply elem_of_seqZ in Hpno. destruct (H2 pno ltac:(lia)) as (page & l & E1 & E2 & _).
    cbn. rewrite E1. cbn. rewrite E2. by eexists. }
  rewrite Els. cbn [mbind option_bind]. exists (mjoin ls). split; [done|]. apply mapM_Some_1 in Els. split.
  - intros v ns Hin. apply list_elem_of_join in Hin as (l & Hin & Hl). apply list_elem_of_lookup in Hl as [i Hi].
    destruct (Forall2_lookup_r _ _ _ _ _ Els Hi) as (pno & Epno & Ex). apply list_elem_of_lookup_2, elem_of_seqZ in Epno.
    destruct (H2 pno ltac:(lia)) as (page & l' & E1 & E2 & Hx). rewrite E1 in Ex. cbn in Ex. rewrite E2 in Ex. injection Ex as <-. by apply Hx.
  - intros v ns Hv Hng Ha. destruct (H3 v Hv) as (item & Ei & Ed & Hx).
    assert (Hgi : is_giant item = false).
    { destruct (is_giant item) eqn:Eg; [|done]. destruct Hng. apply list_elem_of_filter. split.
      - unfold live_giant. rewrite Ei, Ed, Eg. done.
      - apply elem_of_seqZ. unfold vertex in Hv. lia. }
    destruct (Hx Hgi) as (loc & page & l & El & Hr & Ep & Ee & Hin). assert (ns = page_neighbors page loc.2) as ->.
    { unfold db_adj, read_neighbor in Ha. destruct (vertex_update_sketch_ s); [|done]. cbn [mbind option_bind] in Ha.
      rewrite Ei, El in Ha. cbn [mbind option_bind] in Ha. rewrite Ep in Ha. cbn [mbind option_bind] in Ha. rewrite Hgi in Ha. by injection Ha. }
    apply list_elem_of_join. exists l. split; [done|]. assert (Hs : loc.1 ∈ seqZ 0 pc) by (apply elem_of_seqZ; lia).
    apply list_elem_of_lookup in Hs as [i Hi]. destruct (Forall2_lookup_l _ _ _ _ _ Els Hi) as (x & Ex & Hx').
    rewrite Ep in Hx'. cbn in Hx'. rewrite Ee in Hx'. injection Hx' as <-. by eapply list_elem_of_lookup_2.
Qed.

(** [pc]: the pages of the CSR file; [edges]: the edge counter. *)
#[export, refine] Instance db_lister (pc edges : Z) : EdgeLister db := {|
  page_lists := dense_lists pc;
  giants := live_giants;
  giant_read := read_giant;
  total_edge_count := fun _ => edges;
  listable := db_listable pc
|}.
Proof.
  - apply dense_lists_run.
  - intros d v _ Hv. apply list_elem_of_filter in Hv as [_ Hv]. apply elem_of_seqZ in Hv. unfold vertex. lia.
  - intros d v Hl Hv. destruct (read_giant_run d v (dl_readable _ _ Hl) Hv) as (l & g & E & Ha & Hg).
    exists l, (set_giants d g). split; [done|]. split; [done|]. split; [done|]. split; [by apply (db_listable_same pc d)|done].
  - intros d Hl. apply (dl_readable _ _ Hl).
  - intros d v l d' Hl E. destruct (read_neighbor_fixed d v l d' E) as [H1 H2]. apply (db_listable_same pc d); [done|done| |done].
    by apply (read_inv d v l).
Defined.

End Lister.
End EdgeMapDb.
