(* ===== verification/EdgePush.v ===== *)
(** * Edge maps without output ([bw_edge_map_no_output], algo/edge_map.h)

    The edges out of the frontier, each in the direction of its list: the
    dense mode goes through the pages and then the giants, the sparse mode
    through the active vertices.  A call of the functor is here a sequence of
    atomic steps, so calls of different threads interleave inside each other. *)

From S2P Require Import Prelude Config DeltaPage VertexIndex PageMap CsrPage Db GraphRead VertexSet Interleave EdgeMap EdgeMapDb.

Local Open Scope Z_scope.

(** The dense scan meets every edge out of a vertex that is not giant exactly
    once, and no other: no page is stale. *)
Class ExactLister (D : Type) `{!NeighborReader D} `{!EdgeLister D} := {
  exact : D -> Prop;
  exact_listable : forall d, exact d -> listable d;
  exact_lists : forall d, exact d -> exists ls, page_lists d = Some ls /\ Forall (fun q => GraphRead.vertex d q.1) ls /\
    (ls ≫= fun q => (fun dst => (q.1, dst)) <$> q.2) ≡ₚ
    (seqZ 0 (Z.of_nat (vertices d)) ≫= fun v => (fun dst => (v, dst)) <$> (if bool_decide (v ∈ giants d) then [] else default [] (adj d v)));
  exact_giants : forall d, exact d -> NoDup (giants d);
  exact_giant_read : forall d v l d', exact d -> v ∈ giants d -> giant_read d v = Some (l, d') -> exact d';
  exact_read : forall d v l d', exact d -> read d v = Some (l, d') -> exact d'
}.

Module EdgePush.
Import GraphRead VertexSet Interleave EdgeMap.

Section Push.
Context {F PC : Type}.

(** A functor as its atomic steps: [call] begins a call of [update_atomic],
    [step_call] takes one step of it and ends it with [None]. *)
Record stepped_functor_t := SteppedFunctor {
  sf_cond : F -> Z -> option bool;
  call : Z -> Z -> PC;
  step_call : F -> PC -> option (F * option PC);
  call_weight : PC -> nat
}.

Variable f : stepped_functor_t.

(** A thread: the edges left and the call under way. *)
Record push_task := PushTask { todo : list (Z * Z); running : option PC }.

Definition step_push (st : F) (t : push_task) : option (F * push_task) :=
  match running t with
  | Some pc => '(st, pc) ← step_call f st pc; Some (st, PushTask (todo t) pc)
  | None =>
    match todo t with
    | [] => Some (st, t)
    | (src, dst) :: todo =>
      c ← sf_cond f st dst;
      Some (st, PushTask todo (if c : bool then Some (call f src dst) else None))
    end
  end.

Definition push_weight (t : push_task) : nat :=
  sum_list ((fun e => 2 + call_weight f (call f e.1 e.2))%nat <$> todo t) + from_option (fun pc => S (call_weight f pc)) 0%nat (running t).

Definition run_pushes (sched : list nat) (st : F) (ts : list push_task) : option (F * list push_task) :=
  run_all (fun st _ t => step_push st t) push_weight sched st ts.

(** The calls a vertex makes. *)
Definition push_of (v : Z) (ns : list Z) : push_task := PushTask ((fun dst => (v, dst)) <$> ns) None.

Section Map.
Context {D : Type} `{!NeighborReader D} `{!EdgeLister D}.

Definition page_pushes (frontier : vertex_subset_t) (ls : list (Z * list Z)) : option (list push_task) :=
  mapM (fun q => b ← is_in frontier q.1; Some (push_of q.1 (if b : bool then q.2 else []))) ls.

(** The giants, one after the other. *)
Fixpoint push_giants (frontier : vertex_subset_t) (gs : list Z) (st : F) (d : D) : option (F * D) :=
  match gs with
  | [] => Some (st, d)
  | gv :: gs =>
    b ← is_in frontier gv;
    if b : bool then
      '(neighbors, d) ← giant_read d gv;
      '(st, _) ← run_pushes [] st [push_of gv neighbors];
      push_giants frontier gs st d
    else push_giants frontier gs st d
  end.

Fixpoint sparse_pushes (srcs : list Z) (d : D) : option (list push_task * D) :=
  match srcs with
  | [] => Some ([], d)
  | src :: srcs =>
    '(neighbors, d) ← read d src;
    '(ts, d) ← sparse_pushes srcs d;
    Some (push_of src neighbors :: ts, d)
  end.

Definition bw_edge_map_no_output (raw : nat -> list Z) (sched : list nat) (d : D) (frontier : vertex_subset_t) (st : F) :
    option (vertex_subset_t * F * D) :=
  if is_empty frontier then Some (frontier, st, d)
  else if dense frontier then
    ls ← page_lists d;
    ts ← page_pushes frontier ls;
    '(st, _) ← run_pushes sched st ts;
    '(st, d) ← push_giants frontier (giants d) st d;
    Some (frontier, st, d)
  else
    frontier ← to_sparse raw frontier;
    srcs ← mapM (vtx frontier) (seqZ 0 (num_non_zeros frontier));
    '(ts, d) ← sparse_pushes srcs d;
    '(st, _) ← run_pushes sched st ts;
    Some (frontier, st, d).

End Map.

(** ** The calls of a map are made exactly once

    [inv done st]: the state after the calls [done], with no call under way;
    [inside done st pcs]: the same with the calls [pcs] under way, which are
    not in [done]. *)

Section Accounting.
Variables (ok : Z * Z -> Prop) (inside : list (Z * Z) -> F -> list PC -> Prop).

(** Calls begin and step; which call ends is not told apart. *)
Hypothesis step_decreases : forall st pc st' pc', step_call f st pc = Some (st', Some pc') -> (call_weight f pc' < call_weight f pc)%nat.
Hypothesis inside_perm : forall es es' st pcs pcs', es ≡ₚ es' -> pcs ≡ₚ pcs' -> inside es st pcs -> inside es' st pcs'.
Hypothesis cond_true : forall st v, sf_cond f st v = Some true.
(** Beginning a call. *)
Hypothesis inside_call : forall es st pcs e, ok e -> inside es st pcs -> inside (e :: es) st (call f e.1 e.2 :: pcs).
Hypothesis inside_step : forall es st pcs pc, inside es st (pc :: pcs) ->
  exists st' pc', step_call f st pc = Some (st', pc') /\ inside es st' (from_option (fun pc => [pc]) [] pc' ++ pcs).

Definition pcs_of (ts : list push_task) : list PC := omap running ts.

Lemma step_push_weight st t st' t' : step_push st t = Some (st', t') -> (push_weight t' <= push_weight t - 1)%nat.
Proof.
  unfold step_push. destruct t as [td [pc|]]; cbn [running todo].
  - destruct (step_call f st pc) as [[st1 pc']|] eqn:E; [|done]. intros [= <- <-]. unfold push_weight. cbn [todo running from_option].
    destruct pc' as [pc'|]; cbn [from_option]; [apply step_decreases in E|]; lia.
  - destruct td as [|[src dst] td]; [intros [= <- <-]; unfold push_weight; cbn; lia|].
    destruct (sf_cond f st dst) as [[]|]; [| |done]; intros [= <- <-]; unfold push_weight; cbn; unfold id; lia.
Qed.

(** [all]: the calls to be made in this phase, [before] those made earlier. *)
Definition phase (before all : list (Z * Z)) (st : F) (ts : list push_task) : Prop :=
  exists begun, begun ++ mjoin (todo <$> ts) ≡ₚ all /\ inside (begun ++ before) st (pcs_of ts).

Lemma pcs_split ts i t : ts !! i = Some t -> exists rest, pcs_of ts ≡ₚ option_list (running t) ++ rest /\
  forall t', pcs_of (<[i := t']> ts) ≡ₚ option_list (running t') ++ rest.
Proof. apply omap_split. Qed.

Lemma todo_split ts i t : ts !! i = Some t -> exists rest, mjoin (todo <$> ts) ≡ₚ todo t ++ rest /\
  forall t', mjoin (todo <$> <[i := t']> ts) ≡ₚ todo t' ++ rest.
Proof.
  intros E. exists (mjoin (todo <$> take i ts) ++ mjoin (todo <$> drop (S i) ts)). split.
  - rewrite <- (take_drop_middle ts i t E) at 1. rewrite fmap_app, join_app. cbn [fmap list_fmap mjoin list_join].
    rewrite !app_assoc. apply Permutation_app_tail. apply Permutation_app_comm.
  - intros t'. rewrite insert_take_drop by (by eapply lookup_lt_Some). rewrite fmap_app, join_app. cbn [fmap list_fmap mjoin list_join].
    rewrite !app_assoc. apply Permutation_app_tail. apply Permutation_app_comm.
Qed.

Lemma phase_step before all st ts i t : Forall ok all -> phase before all st ts -> ts !! i = Some t ->
  exists st' t', step_push st t = Some (st', t') /\ phase before all st' (<[i := t']> ts).
Proof.
  intros Hok (begun & Hp & Hi) E. destruct (pcs_split ts i t E) as (rest & H1 & H2). destruct (todo_split ts i t E) as (more & T1 & T2).
  unfold step_push. destruct t as [td [pc|]]; cbn [running todo] in *.
  - destruct (inside_step (begun ++ before) st rest pc) as (st' & pc' & Es & Hi').
    { eapply inside_perm; [reflexivity|exact H1|done]. }
    rewrite Es. cbn [mbind option_bind]. eexists _, _. split; [done|]. exists begun. split.
    + by rewrite T2, <- T1.
    + eapply inside_perm; [reflexivity| |exact Hi']. rewrite H2. cbn [running]. by destruct pc'.
  - destruct td as [|[src dst] td].
    { exists st, (PushTask [] None). split; [done|]. rewrite list_insert_id by done. by exists begun. }
    rewrite cond_true. cbn [mbind option_bind]. eexists _, _. split; [done|]. exists (begun ++ [(src, dst)]). split.
    + rewrite T2, <- Hp, T1. cbn [todo]. by rewrite <- !app_assoc.
    + eapply inside_perm; [| |apply (inside_call (begun ++ before) st rest (src, dst))].
      * rewrite <- app_assoc. cbn [app]. by rewrite Permutation_middle.
      * rewrite H2. done.
      * rewrite Forall_forall in Hok. apply Hok. rewrite <- Hp, T1. set_solver.
      * eapply inside_perm; [reflexivity|exact H1|done].
Qed.

Lemma run_pushes_spec sched before st ts : Forall ok (mjoin (todo <$> ts)) -> (forall t, t ∈ ts -> running t = None) -> inside before st [] ->
  exists st' ts', run_pushes sched st ts = Some (st', ts') /\ inside (mjoin (todo <$> ts) ++ before) st' [].
Proof.
  intros Hok Hr Hi. set (all := mjoin (todo <$> ts)) in *.
  destruct (run_all_inv (fun st _ t => step_push st t) push_weight (fun st i t st' t' => step_push_weight st t st' t')
    (phase before all) (fun st ts i t => phase_step before all st ts i t Hok) sched st ts) as (st' & ts' & E & (begun & Hp & Hi') & _ & Hw).
  { exists []. split; [done|]. cbn [app]. unfold pcs_of. by rewrite omap_none. }
  exists st', ts'. split; [exact E|].
  assert (Hend : forall t, t ∈ ts' -> todo t = [] /\ running t = None).
  { intros t Ht. specialize (Hw t Ht). unfold push_weight in Hw. destruct t as [[|e td] [pc|]]; cbn in Hw |- *; lia || done. }
  assert (Htd : mjoin (todo <$> ts') = []).
  { clear -Hend. induction ts' as [|t ts' IH]; [done|]. cbn [fmap list_fmap mjoin list_join]. destruct (Hend t) as [-> _]; [left|]. cbn [app].
    apply IH. intros u Hu. apply Hend. by right. }
  assert (Hpc : pcs_of ts' = []).
  { apply omap_none. intros t Ht. by apply Hend. }
  rewrite Htd, app_nil_r in Hp. rewrite Hpc in Hi'. eapply inside_perm; [|reflexivity|exact Hi']. by rewrite Hp.
Qed.

(** ** The whole map over a full frontier *)

Context {D : Type} `{!NeighborReader D} `{!EdgeLister D} `{!ExactLister D}.
Variable d0 : D.

Definition all_edges : list (Z * Z) :=
  seqZ 0 (Z.of_nat (vertices d0)) ≫= fun v => (fun dst => (v, dst)) <$> default [] (adj d0 v).

Hypothesis edges_ok : Forall ok all_edges.

Definition listed (d : D) (v : Z) : list (Z * Z) := (fun dst => (v, dst)) <$> (if bool_decide (v ∈ giants d) then [] else default [] (adj d v)).

Definition giant_edges (gs : list Z) : list (Z * Z) := gs ≫= fun v => (fun dst => (v, dst)) <$> default [] (adj d0 v).

Lemma edge_ok v dst : vertex d0 v -> dst ∈ default [] (adj d0 v) -> ok (v, dst).
Proof.
  intros Hv Hd. rewrite Forall_forall in edges_ok. apply edges_ok. unfold all_edges. apply list_elem_of_bind. exists v.
  split; [|apply elem_of_seqZ; unfold vertex in Hv; lia]. apply list_elem_of_fmap. eauto.
Qed.

Lemma push_giants_spec vs gs : (forall v, vertex d0 v -> is_in vs v = Some true) -> forall st d es, same_graph d0 d -> exact d ->
  (forall v, v ∈ gs -> v ∈ giants d) -> inside es st [] ->
  exists st' d', push_giants vs gs st d = Some (st', d') /\ same_graph d0 d' /\ exact d' /\ inside (giant_edges gs ++ es) st' [].
Proof.
  intros Hfull. induction gs as [|g gs IH]; intros st d es Hg Hx Hgs Hi; [by exists st, d|]. cbn [push_giants].
  assert (Hgv : vertex d0 g). { unfold vertex. rewrite <- (proj1 Hg). apply giants_vertices; [by apply exact_listable|]. apply Hgs. left. }
  rewrite (Hfull g Hgv). cbn [mbind option_bind].
  destruct (giant_read_spec d g (exact_listable d Hx)) as (l & d1 & Er & Ha & Hg1 & Hl1 & Hgi); [apply Hgs; left|].
  rewrite (proj2 Hg) in Ha. rewrite Er. cbn [mbind option_bind].
  destruct (run_pushes_spec [] es st [push_of g l]) as (st1 & ts & E1 & Hi1).
  { cbn [fmap list_fmap mjoin list_join todo push_of]. rewrite app_nil_r. apply Forall_fmap, Forall_forall. intros dst Hd.
    apply edge_ok; [done|]. by rewrite Ha. }
  { by intros t ->%list_elem_of_singleton. }
  { done. }
  rewrite E1. cbn [mbind option_bind].
  destruct (IH st1 d1 (mjoin (todo <$> [push_of g l]) ++ es)) as (st2 & d2 & E2 & Hg2 & Hx2 & Hi2); [by trans d|eapply exact_giant_read; [done| |done]; apply Hgs; left| |done|].
  { intros v Hv. rewrite Hgi. apply Hgs. by right. }
  exists st2, d2. split; [done|]. split; [done|]. split; [done|]. eapply inside_perm; [|reflexivity|exact Hi2].
  cbn [giant_edges mbind list_bind fmap list_fmap mjoin list_join todo push_of]. rewrite Ha, app_nil_r. cbn [default from_option].
  rewrite !app_assoc. apply Permutation_app_tail, Permutation_app_comm.
Qed.

Lemma edges_split d : same_graph d0 d -> listable d -> NoDup (giants d) ->
  (seqZ 0 (Z.of_nat (vertices d0)) ≫= listed d) ++ giant_edges (giants d) ≡ₚ all_edges.
Proof.
  intros Hg Hl Hnd. set (ids := seqZ 0 (Z.of_nat (vertices d0))).
  assert (Hgs : giants d ≡ₚ filter (fun v => v ∈ giants d) ids).
  { apply NoDup_Permutation; [done|apply NoDup_filter, NoDup_seqZ|]. intros v. rewrite list_elem_of_filter. split; [|by intros [? _]].
    intros Hv. split; [done|]. apply elem_of_seqZ. pose proof (giants_vertices d v Hl Hv) as Hx. unfold vertex in Hx. rewrite (proj1 Hg) in Hx. lia. }
  transitivity ((ids ≫= listed d) ++ giant_edges (filter (fun v => v ∈ giants d) ids)).
  { apply Permutation_app_head. unfold giant_edges. by rewrite <- Hgs. }
  unfold all_edges. fold ids. clear Hgs. generalize ids. clear ids. intros ids. induction ids as [|v ids IH]; [done|].
  cbn [mbind list_bind]. rewrite filter_cons. unfold listed at 1. case_bool_decide as Hv.
  - rewrite decide_True by done. cbn [fmap list_fmap app]. unfold giant_edges in *. cbn [mbind list_bind].
    rewrite <- IH, !app_assoc. apply Permutation_app_tail, Permutation_app_comm.
  - rewrite decide_False by done. rewrite (proj2 Hg), <- app_assoc. by apply Permutation_app_head.
Qed.

(** Every edge of the graph is the call of one functor call, whatever the
    interleaving. *)
Lemma edge_map_no_output_spec raw sched vs st d es : same_graph d0 d -> exact d -> dense vs = true -> is_empty vs = false ->
  (forall v, vertex d0 v -> is_in vs v = Some true) -> inside es st [] ->
  exists st' d', bw_edge_map_no_output raw sched d vs st = Some (vs, st', d') /\ same_graph d0 d' /\ exact d' /\
    inside (all_edges ++ es) st' [].
Proof.
  intros Hg Hx Hd Hne Hfull Hi. unfold bw_edge_map_no_output. rewrite Hne, Hd.
  destruct (exact_lists d Hx) as (ls & -> & Hlv & Hls). cbn [mbind option_bind]. rewrite (proj1 Hg) in Hls.
  assert (Hpp : page_pushes vs ls = Some ((fun q => push_of q.1 q.2) <$> ls)).
  { apply mapM_Some_2. apply Forall2_fmap_r, Forall_Forall2_diag. eapply Forall_impl; [exact Hlv|]. intros q Hq. unfold vertex in Hq.
    rewrite (proj1 Hg) in Hq. unfold compose. by rewrite Hfull. }
  rewrite Hpp. cbn [mbind option_bind].
  assert (Htd : mjoin (todo <$> ((fun q => push_of q.1 q.2) <$> ls)) ≡ₚ seqZ 0 (Z.of_nat (vertices d0)) ≫= listed d).
  { rewrite <- list_fmap_compose. transitivity (ls ≫= fun q => (fun dst => (q.1, dst)) <$> q.2).
    - clear. induction ls as [|q ls IH]; [done|]. cbn [fmap list_fmap mjoin list_join mbind list_bind]. by apply Permutation_app_head.
    - exact Hls. }
  pose proof (edges_split d Hg (exact_listable d Hx) (exact_giants d Hx)) as Hsp.
  destruct (run_pushes_spec sched es st ((fun q => push_of q.1 q.2) <$> ls)) as (st1 & ts & E1 & Hi1).
  { apply Forall_forall. intros e He. rewrite Forall_forall in edges_ok. apply edges_ok. rewrite <- Hsp. apply elem_of_app. left. by rewrite <- Htd. }
  { intros t Ht. by apply list_elem_of_fmap in Ht as (q & -> & _). }
  { done. }
  rewrite E1. cbn [mbind option_bind].
  destruct (push_giants_spec vs (giants d) Hfull st1 d _ Hg Hx (fun v H => H) Hi1) as (st2 & d2 & E2 & Hg2 & Hx2 & Hi2).
  rewrite E2. cbn [mbind option_bind]. exists st2, d2. split; [done|]. split; [done|]. split; [done|].
  eapply inside_perm; [|reflexivity|exact Hi2]. rewrite Htd, app_assoc. apply Permutation_app_tail.
  rewrite <- Hsp. apply Permutation_app_comm.
Qed.

End Accounting.
End Push.

Arguments stepped_functor_t : clear implicits.
Arguments push_task : clear implicits.
End EdgePush.

(** ** Over the database *)

Module EdgePushDb.
Import VIndex DB GraphRead EdgeMapDb.

Section Lister.
Context {A G SK : Type} `{cfg : Config} `{!PageMap.PageAllocator A (Z.of_nat DELTA_PAGE_SIZE)}
  `{!GiantStore G} `{!UpdateSketch SK}.

Abbreviation db := (bw_graph_db_t (A := A) (G := G) (SK := SK)).

(** Every page is current: the entries of the pages are the edges out of the
    vertices that are not giant. *)
Definition db_exact (pc : Z) (s : db) : Prop := db_listable pc s /\
  exists ls, dense_lists pc s = Some ls /\ Forall (fun q => vertex s q.1) ls /\
    (ls ≫= fun q => (fun dst => (q.1, dst)) <$> q.2) ≡ₚ
    (seqZ 0 (Z.of_nat (vertices s)) ≫= fun v => (fun dst => (v, dst)) <$> (if bool_decide (v ∈ live_giants s) then [] else default [] (db_adj s v))).

#[export, refine] Instance db_exact_lister (pc edges : Z) : @ExactLister db _ (db_lister pc edges) := {| exact := db_exact pc |}.
Proof.
  - intros d [Hl _]. exact Hl.
  - intros d [_ He]. exact He.
  - intros d _. apply NoDup_filter, NoDup_seqZ.
  - intros d v l d' [Hl (ls & E & Hv & Hp)] Hg Hr. destruct (read_giant_run d v (dl_readable _ _ Hl) Hg) as (l' & g & E' & _ & Hsame).
    change (read_giant d v = Some (l, d')) in Hr. rewrite E' in Hr. injection Hr as <- <-. split; [by apply (db_listable_same pc d)|].
    exists ls. split; [exact E|]. split; [exact Hv|]. rewrite Hp. pose proof (proj2 Hsame) as Ha.
    change (forall w, db_adj (set_giants d g) w = db_adj d w) in Ha. change (vertices (set_giants d g)) with (vertices d).
    change (live_giants (set_giants d g)) with (live_giants d). apply Permutation_refl'. apply list_bind_ext; [|done]. intros w. by rewrite Ha.
  - intros d v l d' [Hl (ls & E & Hv & Hp)] Hr. destruct (read_neighbor_fixed d v l d' Hr) as [Hi Hc].
    assert (Hsame : same_graph d d') by (by apply (read_inv d v l)). split; [by apply (db_listable_same pc d)|].
    assert (Hgs : live_giants d' = live_giants d).
    { unfold live_giants, live_giant, item_of. rewrite (proj1 Hsame). apply list_filter_iff. intros w. by rewrite Hi. }
    exists ls. split; [|split].
    + rewrite <- E. unfold dense_lists. by rewrite Hc.
    + eapply Forall_impl; [exact Hv|]. intros q Hq. unfold vertex. by rewrite (proj1 Hsame).
    + rewrite Hp, (proj1 Hsame), Hgs. apply Permutation_refl'. apply list_bind_ext; [|done]. intros w.
      pose proof (proj2 Hsame w) as Ha. change (db_adj d' w = db_adj d w) in Ha. by rewrite Ha.
Defined.

End Lister.
End EdgePushDb.
