(* ===== verification/Bfs.v ===== *)
(** * Breadth-first search ([bw_graph_db_t::bfs])

    A queue, a bit per vertex and a level per vertex.  The result lists every
    reachable vertex once, with its distance from the start, nearest first. *)

From S2P Require Import Prelude GraphRead.

Local Open Scope Z_scope.

Module Bfs.
Import GraphRead.

Section Bfs.
Context {D : Type} `{!NeighborReader D}.

Record bfs_state_t := BfsState {
  b_db : D;
  visited : list bool;
  levels : list Z;
  to_visit : list Z;
  visited_order : list (Z * Z)
}.

(** Identifiers are unsigned. *)
Definition unvisited (visited : list bool) (n : Z) : bool :=
  (0 <=? n) && (n <? Z.of_nat (length visited)) && negb (default false (visited !! Z.to_nat n)).

(** The loop over the neighbours. *)
Fixpoint discover (next_level : Z) (ns : list Z) (visited : list bool) (levels : list Z) (to_visit : list Z) :
    list bool * list Z * list Z :=
  match ns with
  | [] => (visited, levels, to_visit)
  | n :: ns =>
    if unvisited visited n
    then discover next_level ns (<[Z.to_nat n := true]> visited) (<[Z.to_nat n := next_level]> levels) (to_visit ++ [n])
    else discover next_level ns visited levels to_visit
  end.

Fixpoint bfs_loop (fuel : nat) (st : bfs_state_t) : option (list (Z * Z) * D) :=
  match to_visit st with
  | [] => Some (visited_order st, b_db st)
  | current_vertex :: rest =>
    match fuel with
    | O => None
    | S fuel =>
      level ← levels st !! Z.to_nat current_vertex;
      '(neighbors, d) ← read (b_db st) current_vertex;
      let next_level := u64 (level + 1) in
      let '(vis, lv, q) := discover next_level neighbors (visited st) (levels st) rest in
      bfs_loop fuel (BfsState d vis lv q (visited_order st ++ [(current_vertex, level)]))
    end
  end.

(** A start past the end writes out of range: [None]. *)
Definition bfs (fuel : nat) (d : D) (start_vertex : Z) : option (list (Z * Z) * D) :=
  let vertex_count := vertices d in
  if (0 <=? start_vertex) && (start_vertex <? Z.of_nat vertex_count) then
    bfs_loop fuel (BfsState d (<[Z.to_nat start_vertex := true]> (replicate vertex_count false))
      (<[Z.to_nat start_vertex := 0]> (replicate vertex_count 0)) [start_vertex] [])
  else None.

(** ** One vertex's neighbours *)

Definition seen (vis : list bool) (v : Z) : Prop := 0 <= v /\ vis !! Z.to_nat v = Some true.

Lemma unvisited_spec vis v :
  unvisited vis v = true <-> 0 <= v < Z.of_nat (length vis) /\ ~ seen vis v.
Proof.
  unfold unvisited, seen. rewrite !andb_true_iff, negb_true_iff, Z.leb_le, Z.ltb_lt. split.
  - intros [[H1 H2] H3]. split; [done|]. intros [_ E]. by rewrite E in H3.
  - intros [[H1 H2] H3]. split; [done|]. destruct (vis !! Z.to_nat v) as [[]|]; [exfalso; auto|done|done].
Qed.

Lemma seen_insert vis v w : 0 <= v < Z.of_nat (length vis) ->
  seen (<[Z.to_nat v := true]> vis) w <-> w = v \/ seen vis w.
Proof.
  intros Hv. unfold seen. destruct (decide (w = v)) as [->|Hne].
  - rewrite list_lookup_insert_eq by lia. naive_solver lia.
  - split.
    + intros [Hw E]. rewrite list_lookup_insert_ne in E by lia. auto.
    + intros [?|[Hw E]]; [done|]. rewrite list_lookup_insert_ne by lia. auto.
Qed.

Lemma discover_spec level ns : forall vis lv q vis' lv' q',
  length lv = length vis -> discover level ns vis lv q = (vis', lv', q') ->
  exists new, q' = q ++ new /\ NoDup new /\ length vis' = length vis /\ length lv' = length lv /\
    (forall v, seen vis' v <-> seen vis v \/ v ∈ new) /\
    (forall v, v ∈ new -> v ∈ ns /\ 0 <= v < Z.of_nat (length vis) /\ ~ seen vis v) /\
    (forall v, v ∈ ns -> 0 <= v < Z.of_nat (length vis) -> seen vis' v) /\
    (forall v, 0 <= v -> lv' !! Z.to_nat v = if decide (v ∈ new) then Some level else lv !! Z.to_nat v).
Proof.
  induction ns as [|n ns IH]; intros vis lv q vis' lv' q' Hlen; cbn [discover].
  { intros [= <- <- <-]. exists []. rewrite app_nil_r. do 4 (split; [done || constructor|]).
    split; [intros v; rewrite elem_of_nil; tauto|]. split; [intros v Hv; by apply elem_of_nil in Hv|].
    split; [intros v Hv; by apply elem_of_nil in Hv|]. intros v _. by rewrite decide_False by apply not_elem_of_nil. }
  destruct (unvisited vis n) eqn:Eu.
  - apply unvisited_spec in Eu as [Hn Hns]. intros E.
    apply IH in E as (new & -> & Hnd & Hl1 & Hl2 & Hs & Hnew & Hall & Hlv); [|by rewrite !length_insert].
    rewrite length_insert in Hl1, Hnew, Hall. rewrite length_insert in Hl2.
    assert (Hnn : n ∉ new) by (intros Hin; destruct (Hnew n Hin) as (_ & _ & H'); apply H', seen_insert; auto).
    exists (n :: new). rewrite <- app_assoc. split; [done|]. split; [by constructor|]. do 2 (split; [done|]).
    split; [|split; [|split]].
    + intros v. rewrite Hs, seen_insert, elem_of_cons by done. tauto.
    + intros v Hv. apply elem_of_cons in Hv as [->|Hv]; [split; [left|done]|].
      destruct (Hnew v Hv) as (? & ? & Hsv). split; [by right|]. split; [done|]. intros Hs'. apply Hsv, seen_insert; auto.
    + intros v Hv Hr. apply elem_of_cons in Hv as [->|Hv]; [|auto]. apply Hs. left. apply seen_insert; auto.
    + intros v Hv. rewrite Hlv by done. destruct (decide (v = n)) as [->|Hne].
      * rewrite (decide_True (P := n ∈ n :: new)) by (left). rewrite decide_False by done.
        apply list_lookup_insert_eq. lia.
      * destruct (decide (v ∈ new)) as [Hin|Hin]; [by rewrite decide_True by by right|].
        rewrite decide_False by (rewrite elem_of_cons; tauto). apply list_lookup_insert_ne. lia.
  - intros E. apply IH in E as (new & -> & Hnd & Hl1 & Hl2 & Hs & Hnew & Hall & Hlv); [|done].
    exists new. do 4 (split; [done|]). split; [done|]. split; [|split].
    + intros v Hv. destruct (Hnew v Hv) as (? & ?). split; [by right|done].
    + intros v Hv Hr. apply elem_of_cons in Hv as [->|Hv]; [|auto]. apply Hs. left.
      destruct (decide (seen vis n)) as [|Hn]; [done|]. exfalso.
      assert (unvisited vis n = true) by by apply unvisited_spec. congruence.
    + done.
Qed.

(** ** The invariant *)

Section Search.
Variables (d : D) (s : Z).

(** [u] is no further from the start than [v]. *)
Definition nearer (u v : Z) : Prop := forall j k, distance d s u j -> distance d s v k -> (j <= k)%nat.

(** [dn]: the vertices already popped; [todo]: the queue. *)
Record search_inv (vis : list bool) (lv : list Z) (todo dn : list Z) : Prop := {
  si_length : length vis = vertices d /\ length lv = vertices d;
  si_start : s ∈ dn ++ todo;
  si_nodup : NoDup (dn ++ todo);
  si_seen : forall v, seen vis v <-> v ∈ dn ++ todo;
  si_level : forall v, v ∈ dn ++ todo -> exists k, lv !! Z.to_nat v = Some (Z.of_nat k) /\ distance d s v k /\
    (k <= length dn)%nat;
  si_closed : forall u v, u ∈ dn -> edge d u v -> v ∈ dn ++ todo;
  si_sorted : StronglySorted nearer (dn ++ todo);
  si_window : forall u v j k, head todo = Some u -> v ∈ todo -> distance d s u j -> distance d s v k -> (k <= S j)%nat
}.

Lemma search_vertex vis lv todo dn v : search_inv vis lv todo dn -> v ∈ dn ++ todo -> vertex d v.
Proof. intros Hi Hv. destruct (si_level _ _ _ _ Hi v Hv) as (k & _ & [Hw _] & _). by apply walk_vertex in Hw as [_ ?]. Qed.

Lemma search_bound vis lv todo dn : search_inv vis lv todo dn -> (length (dn ++ todo) <= vertices d)%nat.
Proof.
  intros Hi. apply vertices_bound; [by eapply si_nodup|]. intros v. by eapply search_vertex.
Qed.

Lemma search_init : vertex d s ->
  search_inv (<[Z.to_nat s := true]> (replicate (vertices d) false)) (<[Z.to_nat s := 0]> (replicate (vertices d) 0)) [s] [].
Proof.
  intros Hv. assert (Hd : distance d s s 0) by (split; [by constructor|lia]). unfold vertex in Hv. split; cbn [app].
  - by rewrite !length_insert, !length_replicate.
  - left.
  - apply NoDup_singleton.
  - intros v. rewrite seen_insert by (by rewrite length_replicate). rewrite list_elem_of_singleton.
    split; [|by left]. intros [?|[_ E]]; [done|]. by apply lookup_replicate in E as [? _].
  - intros v ->%list_elem_of_singleton. exists 0%nat. rewrite list_lookup_insert_eq by (rewrite length_replicate; lia). done.
  - intros u v Hu. by apply elem_of_nil in Hu.
  - repeat constructor.
  - intros u v j k [= <-] ->%list_elem_of_singleton H1 H2. rewrite (distance_fun _ _ _ _ _ H1 H2). lia.
Qed.

(** Everything nearer than the head of the queue, or as near, has been found. *)
Lemma found vis lv todo dn u k : search_inv vis lv (u :: todo) dn -> distance d s u k ->
  forall j v, walk d s j v -> (j <= k)%nat -> v ∈ dn ++ u :: todo.
Proof.
  intros Hi Hu j v Hw. induction Hw as [Hs|j y v Hw IH He]; intros Hj; [by eapply si_start|].
  specialize (IH ltac:(lia)). apply elem_of_app in IH as [Hy|Hy]; [by eapply si_closed|].
  exfalso. destruct (si_level _ _ _ _ Hi y) as (ky & _ & Hdy & _); [apply elem_of_app; by right|].
  assert (Hyj : (ky <= j)%nat) by by apply Hdy.
  assert (Hky : (k <= ky)%nat); [|lia]. apply elem_of_cons in Hy as [->|Hy].
  { by rewrite (distance_fun _ _ _ _ _ Hu Hdy). }
  pose proof (si_sorted _ _ _ _ Hi) as Hso. apply StronglySorted_app_1_r, StronglySorted_cons in Hso as [Hso _].
  rewrite Forall_forall in Hso. by apply (Hso y Hy).
Qed.

(** A vertex found while [u] is expanded is one step further than [u]. *)
Lemma next_distance vis lv todo dn u k v : search_inv vis lv (u :: todo) dn -> distance d s u k ->
  edge d u v -> ~ v ∈ dn ++ u :: todo -> distance d s v (S k).
Proof.
  intros Hi Hu He Hv. split; [econstructor; [apply Hu|done]|]. intros j Hj.
  destruct (decide (j <= k)%nat) as [Hjk|]; [|lia]. exfalso. by apply Hv, (found _ _ _ _ _ _ Hi Hu j v).
Qed.

(** One turn of the loop. *)
Lemma search_step vis lv u todo dn k ns vis' lv' q' : search_inv vis lv (u :: todo) dn -> distance d s u k ->
  adj d u = Some ns -> discover (Z.of_nat (S k)) ns vis lv todo = (vis', lv', q') ->
  search_inv vis' lv' q' (dn ++ [u]).
Proof.
  intros Hi Hu Ha E. destruct (si_length _ _ _ _ Hi) as [Hl1 Hl2].
  apply discover_spec in E as (new & -> & Hnd & Hv' & Hlv' & Hs & Hnew & Hall & Hlev); [|congruence].
  rewrite Hl1 in Hnew, Hall.
  assert (Hcat : (dn ++ [u]) ++ todo ++ new = (dn ++ u :: todo) ++ new) by (by rewrite <- !app_assoc).
  assert (Hfresh : forall v, v ∈ new -> v ∉ dn ++ u :: todo).
  { intros v Hv Hin. destruct (Hnew v Hv) as (_ & _ & Hx). by apply Hx, (si_seen _ _ _ _ Hi). }
  assert (Hvu : vertex d u) by (apply (search_vertex _ _ _ _ u Hi), elem_of_app; right; left).
  assert (Hdist : forall v, v ∈ new -> distance d s v (S k)).
  { intros v Hv. eapply (next_distance _ _ _ _ _ _ _ Hi Hu); [|by apply Hfresh]. destruct (Hnew v Hv) as (? & ? & _).
    split; [done|]. split; [done|]. by exists ns. }
  assert (Hlu : (k <= length dn)%nat).
  { destruct (si_level _ _ _ _ Hi u) as (j & _ & Hj & ?); [apply elem_of_app; right; left|].
    by rewrite (distance_fun _ _ _ _ _ Hu Hj). }
  assert (Hnear : forall v j, v ∈ dn ++ u :: todo -> distance d s v j -> (j <= S k)%nat).
  { intros v j Hv Hj. apply elem_of_app in Hv as [Hv|Hv].
    - pose proof (si_sorted _ _ _ _ Hi) as Hso. eapply (StronglySorted_app_1_elem_of _ _ _ v u) in Hso; [|done|left].
      pose proof (Hso _ _ Hj Hu). lia.
    - by eapply (si_window _ _ _ _ Hi u v). }
  split; rewrite ?Hcat.
  - lia.
  - apply elem_of_app. left. eapply si_start, Hi.
  - apply NoDup_app. split; [by eapply si_nodup|]. split; [|done]. intros v Hv Hn. by eapply Hfresh.
  - intros v. by rewrite Hs, (si_seen _ _ _ _ Hi), <- elem_of_app.
  - intros v Hv. rewrite length_app. cbn. rewrite elem_of_app in Hv. destruct (decide (v ∈ new)) as [Hn|Hn].
    + exists (S k). rewrite Hlev by (by destruct (Hnew v Hn) as (_ & [? _] & _)). rewrite decide_True by done.
      split; [done|]. split; [auto|lia].
    + destruct Hv as [Hv|]; [|done]. pose proof (search_vertex _ _ _ _ v Hi Hv) as [Hv0 _].
      destruct (si_level _ _ _ _ Hi v Hv) as (j & H1 & H2 & H3). exists j. rewrite Hlev by done.
      rewrite decide_False by done. split; [done|]. split; [done|lia].
  - intros a v Ha' He. apply elem_of_app in Ha' as [Ha'|Ha']; [apply elem_of_app; left; by eapply si_closed|].
    apply list_elem_of_singleton in Ha' as ->. rewrite elem_of_app, <- (si_seen _ _ _ _ Hi), <- Hs.
    destruct He as (_ & Hv & l & Hl & Hin). apply Hall; [congruence|exact Hv].
  - apply StronglySorted_app_2; [|by eapply si_sorted|].
    + intros a v Ha' Hv i j Hdi Hdj. rewrite (distance_fun _ _ _ _ _ Hdj (Hdist v Hv)). by eapply Hnear.
    + clear -Hdist. induction new as [|v new IH]; constructor; [apply IH; intros w Hw; apply Hdist; by right|].
      apply Forall_forall. intros w Hw i j Hi Hj.
      rewrite (distance_fun _ _ _ _ _ Hi (Hdist v ltac:(left))), (distance_fun _ _ _ _ _ Hj (Hdist w ltac:(by right))). done.
  - intros a v i j Hh Hv Hdi Hdj. assert (Hjk : (j <= S k)%nat).
    { apply elem_of_app in Hv as [Hv|Hv]; [|by rewrite (distance_fun _ _ _ _ _ Hdj (Hdist v Hv))].
      apply (Hnear v); [|done]. apply elem_of_app. right. by right. }
    assert (k <= i)%nat; [|lia]. destruct todo as [|b todo]; cbn in Hh.
    + assert (a ∈ new) by (destruct new; [done|injection Hh as ->; left]).
      rewrite (distance_fun _ _ _ _ _ Hdi (Hdist a ltac:(done))). lia.
    + injection Hh as ->. pose proof (si_sorted _ _ _ _ Hi) as Hso.
      apply StronglySorted_app_1_r, StronglySorted_cons in Hso as [Hso _]. rewrite Forall_forall in Hso.
      by apply (Hso a ltac:(left)).
Qed.

(** The result so far. *)
Definition recorded (dn : list Z) (order : list (Z * Z)) : Prop :=
  order.*1 = dn /\ forall v k, (v, k) ∈ order -> exists j, k = Z.of_nat j /\ distance d s v j.

Lemma bfs_loop_run : readable d -> Z.of_nat (vertices d) <= 2 ^ 32 ->
  forall fuel db vis lv todo dn order, search_inv vis lv todo dn -> same_graph d db -> recorded dn order ->
  (vertices d <= length dn + fuel)%nat ->
  exists order' db' dn' vis' lv', bfs_loop fuel (BfsState db vis lv todo order) = Some (order', db') /\
    search_inv vis' lv' [] dn' /\ same_graph d db' /\ recorded dn' order'.
Proof.
  intros Hr Hmax fuel. induction fuel as [|fuel IH]; intros db vis lv todo dn order Hi Hg Hrec Hf.
  all: pose proof (search_bound _ _ _ _ Hi) as Hb; rewrite length_app in Hb.
  all: destruct todo as [|u todo]; [by exists order, db, dn, vis, lv|].
  { cbn in Hb. lia. }
  destruct (si_level _ _ _ _ Hi u) as (k & Hk & Hdu & Hkl); [apply elem_of_app; right; left|].
  assert (Hvu : vertex d u) by (apply (search_vertex _ _ _ _ u Hi), elem_of_app; right; left).
  destruct (Hr u Hvu) as [ns Hns].
  destruct (read_run db u ns) as (db1 & Hread & Hg1); [by rewrite (proj2 Hg)|].
  cbn [bfs_loop to_visit levels b_db visited visited_order]. rewrite Hk. cbn [mbind option_bind]. rewrite Hread.
  cbn [mbind option_bind]. cbn in Hb.
  replace (u64 (Z.of_nat k + 1)) with (Z.of_nat (S k)); cycle 1.
  { rewrite wrap_small; [lia|]. split; [lia|]. change (2 ^ 64) with (2 ^ 32 * 2 ^ 32). lia. }
  destruct (discover _ ns vis lv todo) as [[vis' lv'] q'] eqn:E.
  apply (IH db1 vis' lv' q' (dn ++ [u])).
  - by eapply search_step.
  - by trans db.
  - destruct Hrec as [H1 H2]. split; [by rewrite fmap_app, H1|]. intros v j Hv. apply elem_of_app in Hv as [Hv|Hv]; [by apply H2|].
    apply list_elem_of_singleton in Hv as [= -> ->]. by exists k.
  - rewrite length_app. cbn. lia.
Qed.

(** Nothing left to visit: exactly the reachable vertices were visited. *)
Lemma search_done vis lv dn : search_inv vis lv [] dn -> forall v, v ∈ dn <-> reaches d s v.
Proof.
  intros Hi v. split.
  - intros Hv. destruct (si_level _ _ _ _ Hi v) as (k & _ & [Hw _] & _); [by rewrite app_nil_r|]. by exists k.
  - intros [k Hw]. induction Hw as [Hs|k u v Hw IH He].
    + pose proof (si_start _ _ _ _ Hi) as Hx. by rewrite app_nil_r in Hx.
    + pose proof (si_closed _ _ _ _ Hi u v IH He) as Hx. by rewrite app_nil_r in Hx.
Qed.

End Search.

(** Breadth-first search ends within one turn per vertex and lists every
    reachable vertex once, with its distance from the start, by
    non-decreasing distance. *)
Lemma bfs_run d s fuel : readable d -> vertex d s -> Z.of_nat (vertices d) <= 2 ^ 32 -> (vertices d <= fuel)%nat ->
  exists order d', bfs fuel d s = Some (order, d') /\ same_graph d d' /\ NoDup order.*1 /\
    (forall v k, (v, k) ∈ order <-> exists j, k = Z.of_nat j /\ distance d s v j) /\
    (forall v, v ∈ order.*1 <-> reaches d s v) /\ StronglySorted (nearer d s) order.*1.
Proof.
  intros Hr Hs Hmax Hf. unfold bfs. unfold vertex in Hs.
  destruct (bfs_loop_run d s Hr Hmax fuel d _ _ _ [] [] (search_init d s Hs)) as
    (order & d' & dn & vis & lv & E & Hi & Hg & Hrec & Hall); [done| |done|].
  { split; [done|]. intros v k Hv. by apply elem_of_nil in Hv. }
  exists order, d'. rewrite (proj2 (Z.leb_le _ _)), (proj2 (Z.ltb_lt _ _)) by lia. cbn [andb].
  split; [done|]. split; [done|]. rewrite Hrec. split; [|split; [|split]].
  - pose proof (si_nodup _ _ _ _ _ _ Hi) as Hx. by rewrite app_nil_r in Hx.
  - intros v k. split; [by apply Hall|]. intros (j & -> & Hd).
    assert (Hv : v ∈ order.*1) by (rewrite Hrec; apply (search_done _ _ _ _ _ Hi); exists j; apply Hd).
    apply list_elem_of_fmap in Hv as ([v' k'] & -> & Hv). destruct (Hall v' k' Hv) as (j' & -> & Hd').
    by rewrite (distance_fun _ _ _ _ _ Hd Hd').
  - intros v. by apply (search_done _ _ _ _ _ Hi).
  - pose proof (si_sorted _ _ _ _ _ _ Hi) as Hx. by rewrite app_nil_r in Hx.
Qed.

End Bfs.

(** C15: breadth-first search from a vertex returns; the result lists every
    reachable vertex once, each with its distance from the start, in an order of
    non-decreasing distance, and reads have left the graph unchanged. *)
Theorem bfs_distances {D : Type} `{!NeighborReader D} (d : D) (s : Z) (fuel : nat) :
  readable d -> vertex d s -> Z.of_nat (vertices d) <= 2 ^ 32 -> (vertices d <= fuel)%nat ->
  exists order d', bfs fuel d s = Some (order, d') /\ same_graph d d' /\ NoDup order.*1 /\
    (forall v k, (v, k) ∈ order <-> exists j, k = Z.of_nat j /\ distance d s v j) /\
    (forall v, v ∈ order.*1 <-> reaches d s v) /\ StronglySorted (nearer d s) order.*1.
Proof. apply bfs_run. Qed.

(** Two lists of distances of one search are permutations of each other. *)
Lemma distances_permutation {D : Type} `{!NeighborReader D} (d : D) (s : Z) (l m : list (Z * Z)) : NoDup l.*1 -> NoDup m.*1 ->
  (forall v k, (v, k) ∈ l <-> exists j, k = Z.of_nat j /\ distance d s v j) ->
  (forall v k, (v, k) ∈ m <-> exists j, k = Z.of_nat j /\ distance d s v j) -> l ≡ₚ m.
Proof.
  intros Hl Hm H1 H2. apply NoDup_Permutation; [by eapply NoDup_fmap_1|by eapply NoDup_fmap_1|]. intros [v k]. by rewrite H1, H2.
Qed.

End Bfs.

(** * Levels of a parent forest

    The breadth-first searches record a parent per vertex and compute the
    distances from the parents at the end.  This file holds that last step and
    the invariant shared by the searches: after level [k] exactly the vertices
    no further than [k] from the start have a parent, one step nearer the
    start. *)

Module BfsLevels.
Import GraphRead.

Definition INVALID_VID : Z := 4294967295.

(** Following the parents up to the start. *)
Fixpoint distance_loop (fuel : nat) (parent : list Z) (curr dist : Z) : option Z :=
  match fuel with
  | O => None
  | S fuel =>
    p ← parent !! Z.to_nat curr;
    if p =? curr then Some dist else distance_loop fuel parent p (u32 (dist + 1))
  end.

Fixpoint results (fuel : nat) (parent : list Z) (vs : list Z) : option (list (Z * Z)) :=
  match vs with
  | [] => Some []
  | v :: vs =>
    p ← parent !! Z.to_nat v;
    if p =? INVALID_VID then results fuel parent vs
    else d ← distance_loop fuel parent v 0; rest ← results fuel parent vs; Some ((v, d) :: rest)
  end.

Definition found (parent : list Z) (v : Z) : Prop := exists p, parent !! Z.to_nat v = Some p /\ p <> INVALID_VID.

#[export] Instance found_dec parent v : Decision (found parent v).
Proof.
  unfold found. destruct (parent !! Z.to_nat v) as [p|] eqn:E; [|right; intros (p & ? & _); congruence].
  destruct (decide (p = INVALID_VID)) as [->|]; [right; intros (q & ? & ?); congruence|left; by exists p].
Defined.

Section Levels.
Context {D : Type} `{!NeighborReader D}.
Variables (d0 : D) (s : Z).

(** Every neighbour is a vertex: the searches do not check. *)
Definition closed (d : D) : Prop := forall u l v, vertex d u -> adj d u = Some l -> v ∈ l -> vertex d v.

Hypothesis s_vertex : vertex d0 s.
Hypothesis count_ok : Z.of_nat (vertices d0) < INVALID_VID.

(** Level [k]: the vertices no further than [k] have a parent, one step nearer
    the start; those at distance [k] are active. *)
Record level_inv (k : nat) (parent : list Z) (active : Z -> Prop) : Prop := {
  li_length : length parent = vertices d0;
  li_found : forall v, vertex d0 v -> found parent v <-> exists j, (j <= k)%nat /\ walk d0 s j v;
  li_active : forall v, active v <-> distance d0 s v k;
  li_start : parent !! Z.to_nat s = Some s;
  li_parent : forall v p, vertex d0 v -> v <> s -> parent !! Z.to_nat v = Some p -> p <> INVALID_VID ->
    exists j, distance d0 s p j /\ distance d0 s v (S j)
}.

Lemma active_vertex k parent active v : level_inv k parent active -> active v -> vertex d0 v.
Proof. intros Hi Hv. apply (li_active _ _ _ Hi) in Hv as [Hw _]. by apply walk_vertex in Hw as [_ ?]. Qed.

Lemma not_found (parent : list Z) v : length parent = vertices d0 -> vertex d0 v -> ~ found parent v <-> parent !! Z.to_nat v = Some INVALID_VID.
Proof.
  intros Hl [H0 Hv]. destruct (lookup_lt_is_Some_2 parent (Z.to_nat v)) as [p Hp]; [lia|]. unfold found. rewrite Hp.
  split; [|naive_solver]. intros Hn. destruct (decide (p = INVALID_VID)) as [->|]; [done|]. destruct Hn. by exists p.
Qed.

(** A round that gives every free target of an active source's edge one of
    these sources as its parent raises the level. *)
Lemma level_step k parent (active : Z -> Prop) parent' (active' : Z -> Prop) :
  level_inv k parent active -> length parent' = vertices d0 -> (forall v, Decision (active' v)) ->
  (forall v, active' v <-> parent !! Z.to_nat v = Some INVALID_VID /\ exists u, active u /\ edge d0 u v) ->
  (forall v, vertex d0 v -> ~ active' v -> parent' !! Z.to_nat v = parent !! Z.to_nat v) ->
  (forall v, active' v -> exists u, active u /\ edge d0 u v /\ parent' !! Z.to_nat v = Some u) ->
  level_inv (S k) parent' active'.
Proof.
  intros Hi Hlen Hdec Hmark Hsame Hset.
  assert (Hm : forall v, active' v <-> distance d0 s v (S k)).
  { intros v. rewrite Hmark. split.
    - intros [Hp (u & Hu & He)]. apply (li_active _ _ _ Hi) in Hu. pose proof He as (_ & Hv & _).
      apply not_found in Hp; [|by eapply li_length|done]. rewrite (li_found _ _ _ Hi) in Hp by done.
      split; [econstructor; [apply Hu|done]|]. intros j Hj. destruct (decide (j <= k)%nat); [|lia]. destruct Hp. by exists j.
    - intros Hd. assert (Hv : vertex d0 v) by (destruct Hd as [Hw _]; by apply walk_vertex in Hw as [_ ?]).
      destruct (distance_pred _ _ _ _ Hd) as (u & Hu & He). split; [|exists u; split; [by apply (li_active _ _ _ Hi)|done]].
      apply not_found; [by eapply li_length|done|]. rewrite (li_found _ _ _ Hi) by done. intros (j & Hj & Hw).
      destruct Hd as [_ Hd]. specialize (Hd j Hw). lia. }
  assert (Hnew : forall v, vertex d0 v -> found parent' v <-> found parent v \/ active' v).
  { intros v Hv. destruct (decide (active' v)) as [Hh|Hh].
    - split; [by right|]. intros _. destruct (Hset v Hh) as (u & Hu & ([? ?] & _) & Hp). exists u. split; [done|]. lia.
    - unfold found. rewrite Hsame by done. tauto. }
  split.
  - done.
  - intros v Hv. rewrite Hnew, (li_found _ _ _ Hi), Hm by done. split.
    + intros [(j & ? & ?)|[Hw _]]; [exists j; split; [lia|done]|by exists (S k)].
    + intros (j & Hj & Hw). destruct (decide (found parent v)) as [Hf|Hf].
      { left. by apply (li_found _ _ _ Hi). }
      right. rewrite (li_found _ _ _ Hi) in Hf by done. destruct (decide (j <= k)%nat); [destruct Hf; by exists j|].
      replace j with (S k) in Hw by lia. split; [done|]. intros i Hiw. destruct (decide (i <= k)%nat); [|lia]. destruct Hf. by exists i.
  - done.
  - rewrite Hsame; [by eapply li_start|done|]. rewrite Hm. intros [_ Hd]. specialize (Hd 0%nat (walk_here d0 s s_vertex)). lia.
  - intros v p Hv Hne Hp Hpi. destruct (decide (active' v)) as [Hh|Hh].
    + destruct (Hset v Hh) as (u & Hu & _ & Hpu). replace p with u by congruence. exists k. split; [by apply (li_active _ _ _ Hi)|].
      by apply Hm.
    + rewrite Hsame in Hp by done. by eapply li_parent.
Qed.

Lemma level_init (active : Z -> Prop) : (forall v, active v <-> v = s) ->
  level_inv 0 (<[Z.to_nat s := s]> (replicate (vertices d0) INVALID_VID)) active.
Proof.
  intros H0. unfold vertex in s_vertex. assert (Hd0 : distance d0 s s 0) by (split; [by constructor|lia]). split.
  - by rewrite length_insert, length_replicate.
  - intros v [Hv0 Hv]. unfold found. destruct (decide (v = s)) as [->|Hne].
    + rewrite list_lookup_insert_eq by (rewrite length_replicate; lia). split; [intros _; exists 0%nat; split; [done|]; by constructor|].
      intros _. exists s. split; [done|]. lia.
    + rewrite list_lookup_insert_ne by lia. split; [intros (p & Hp & Hpi); by apply lookup_replicate in Hp as [? _]|].
      intros (j & Hj & Hwj). assert (j = 0%nat) as -> by lia. inversion Hwj. congruence.
  - intros v. rewrite H0. split; [by intros ->|]. intros [Hwv _]. by inversion Hwv.
  - apply list_lookup_insert_eq. rewrite length_replicate. lia.
  - intros v p [Hv0 Hv] Hne Hp Hpi. rewrite list_lookup_insert_ne in Hp by lia. by apply lookup_replicate in Hp as [? _].
Qed.

(** Without active vertices everything reachable has been found. *)
Lemma level_done k parent active : level_inv k parent active -> (forall v, ~ active v) -> forall v, vertex d0 v -> found parent v <-> reaches d0 s v.
Proof.
  intros Hi Hnone v Hv. rewrite (li_found _ _ _ Hi) by done. split; [intros (j & _ & Hw); by exists j|]. intros [j Hw].
  clear Hv.
  induction Hw as [_|j u v Hw IH He]; [exists 0%nat; split; [lia|by constructor]|]. pose proof He as (Hu & Hv & _).
  destruct IH as (i & Hik & Hiu).
  destruct (decide (found parent v)) as [Hf|Hf]; [by apply (li_found _ _ _ Hi)|exfalso].
  rewrite (li_found _ _ _ Hi) in Hf by done. assert (i = k) as ->.
  { destruct (decide (i = k)); [done|]. destruct Hf. exists (S i). split; [lia|]. by econstructor. }
  apply (Hnone u), (li_active _ _ _ Hi). split; [done|]. intros m Hm.
  destruct (decide (k <= m)%nat); [done|]. destruct Hf. exists (S m). split; [lia|]. by econstructor.
Qed.

(** ** The distances *)

Lemma distance_loop_run k parent active : level_inv k parent active ->
  forall j v fuel a, distance d0 s v j -> (j <= k)%nat -> (j < fuel)%nat -> 0 <= a -> a + Z.of_nat j < 2 ^ 32 ->
  distance_loop fuel parent v a = Some (a + Z.of_nat j).
Proof.
  intros Hi j. induction j as [|j IH]; intros v fuel a Hd Hj Hf Ha Hmax; (destruct fuel as [|fuel]; [lia|]); cbn [distance_loop].
  - destruct Hd as [Hw _]. inversion Hw; subst. rewrite (li_start _ _ _ Hi). cbn. rewrite Z.eqb_refl. f_equal. lia.
  - pose proof Hd as [Hw Hmin]. pose proof (walk_vertex _ _ _ _ Hw) as [_ Hv].
    assert (Hne : v <> s) by (intros ->; specialize (Hmin 0%nat (walk_here d0 s s_vertex)); lia).
    destruct (proj2 (li_found _ _ _ Hi v Hv)) as (p & Hp & Hpi); [by exists (S j)|].
    destruct (li_parent _ _ _ Hi v p Hv Hne Hp Hpi) as (i & Hpd & Hvd).
    assert (i = j) as -> by (pose proof (distance_fun _ _ _ _ _ Hd Hvd); lia). rewrite Hp. cbn.
    destruct (Z.eqb_spec p v) as [->|_]; [pose proof (distance_fun _ _ _ _ _ Hpd Hvd); lia|].
    rewrite wrap_small by (split; lia). rewrite (IH p); [f_equal; lia|done|lia..].
Qed.

Lemma found_distance k parent active : level_inv k parent active -> forall v, vertex d0 v -> found parent v ->
  exists j, (j <= k)%nat /\ distance d0 s v j.
Proof.
  intros Hi v Hv (p & Hp & Hpi). destruct (decide (v = s)) as [->|Hne].
  { exists 0%nat. split; [lia|]. split; [by constructor|lia]. }
  destruct (li_parent _ _ _ Hi v p Hv Hne Hp Hpi) as (j & _ & Hd). exists (S j). split; [|done].
  destruct (proj1 (li_found _ _ _ Hi v Hv)) as (i & Hik & Hw); [by exists p|]. destruct Hd as [_ Hd]. specialize (Hd i Hw). lia.
Qed.

Lemma results_run k parent active fuel : level_inv k parent active -> (forall v, ~ active v) -> (vertices d0 <= fuel)%nat ->
  forall vs, (forall v, v ∈ vs -> vertex d0 v) -> NoDup vs ->
  exists res, results fuel parent vs = Some res /\ NoDup res.*1 /\ (forall v, v ∈ res.*1 -> v ∈ vs) /\
    forall v x, (v, x) ∈ res <-> v ∈ vs /\ exists j, x = Z.of_nat j /\ distance d0 s v j.
Proof.
  intros Hi Hnone Hf vs. induction vs as [|v vs IH]; intros Hvs Hnd.
  { exists []. split; [done|]. split; [constructor|]. split; [done|]. intros v x. rewrite !elem_of_nil. tauto. }
  apply NoDup_cons in Hnd as [Hnv Hnd]. destruct IH as (res & E & Hr1 & Hr2 & Hr3); [intros w Hw; apply Hvs; by right|done|].
  assert (Hv : vertex d0 v) by (apply Hvs; left). cbn [results].
  destruct (lookup_lt_is_Some_2 parent (Z.to_nat v)) as [p Hp]; [destruct Hv; rewrite (li_length _ _ _ Hi); lia|].
  rewrite Hp. cbn [mbind option_bind]. destruct (Z.eqb_spec p INVALID_VID) as [->|Hne].
  - exists res. split; [done|]. split; [done|]. split; [intros w Hw; right; by apply Hr2|]. intros w x. rewrite Hr3, elem_of_cons. split; [tauto|].
    intros [[->|Hw] Hx]; [|done]. exfalso. destruct Hx as (j & _ & [Hw _]).
    destruct (proj2 (not_found parent v (li_length _ _ _ Hi) Hv) Hp). apply (level_done _ _ _ Hi Hnone v Hv). by exists j.
  - destruct (found_distance _ _ _ Hi v Hv) as (j & Hjk & Hd); [by exists p|].
    pose proof (distance_bound _ _ _ _ Hd) as Hb. unfold INVALID_VID in count_ok.
    rewrite (distance_loop_run _ _ _ Hi j v fuel 0 Hd) by lia. cbn [mbind option_bind]. rewrite E. cbn [mbind option_bind].
    exists ((v, Z.of_nat j) :: res). split; [done|]. split; [cbn; constructor; [|done]; intros Hin; by apply Hnv, Hr2|].
    split; [intros w Hw; apply elem_of_cons in Hw as [->|Hw]; [left|right; by apply Hr2]|].
    intros w x. rewrite !elem_of_cons, Hr3. split.
    + intros [[= -> ->]|[Hw Hx]]; [|tauto]. split; [by left|]. by exists j.
    + intros [[->|Hw] (i & -> & Hx)]; [left; by rewrite (distance_fun _ _ _ _ _ Hx Hd)|right]. split; [done|]. by exists i.
Qed.

End Levels.
End BfsLevels.
