(* ===== verification/BfsMap.v ===== *)
(** * Breadth-first search over edge maps ([bw_graph_db_t::parallel_bfs_map])

    Each round maps the edges of the frontier with a functor that claims
    targets by compare-and-swap; the edge map decides between its modes by the
    size of the frontier.  On a symmetric graph the modes find the same vertices,
    so the distances are right whatever the modes and the interleaving. *)

From S2P Require Import Prelude GraphRead VertexSet Interleave EdgeMap Bfs.

Local Open Scope Z_scope.

Module BfsMap.
Import GraphRead VertexSet Interleave EdgeMap BfsLevels.

(** [bfs_functor_t], on the array of parents. *)
Definition bfs_cond (parent : list Z) (v : Z) : option bool := p ← parent !! Z.to_nat v; Some (p =? INVALID_VID).

Definition bfs_update_atomic (parent : list Z) (src dst : Z) : option (bool * list Z) :=
  p ← parent !! Z.to_nat dst;
  Some (if p =? INVALID_VID then (true, <[Z.to_nat dst := src]> parent) else (false, parent)).

Definition bfs_functor : edge_functor_t (list Z) := EdgeFunctor bfs_cond bfs_update_atomic.

Section BfsMap.
Context {D : Type} `{!NeighborReader D} `{!EdgeLister D}.

Fixpoint bfs_map_loop (fuel round : nat) (raw : nat -> list Z) (sched : nat -> list nat) (threshold_divisor : Z)
    (frontier : vertex_subset_t) (parent : list Z) (d : D) : option (list Z * D) :=
  if is_empty frontier then Some (parent, d)
  else match fuel with
  | O => None
  | S fuel =>
    '(next, _, parent, d) ← bw_edge_map bfs_functor raw (sched round) d frontier parent threshold_divisor;
    bfs_map_loop fuel (S round) raw sched threshold_divisor next parent d
  end.

(** [page_count] and [resident]: the pages of the file and of the buffer. *)
Definition parallel_bfs_map (fuel : nat) (raw : nat -> list Z) (sched : nat -> list nat) (page_count resident : Z)
    (d : D) (start_vertex threshold_divisor : Z) : option (list (Z * Z) * D) :=
  let vertex_count := Z.of_nat (vertices d) in
  if (vertex_count =? 0) || (vertex_count <=? start_vertex) then Some ([], d)
  else
    let threshold_divisor := if resident <? page_count then Z.max threshold_divisor 40 else threshold_divisor in
    let parent := <[Z.to_nat start_vertex := start_vertex]> (replicate (vertices d) INVALID_VID) in
    '(parent, d) ← bfs_map_loop fuel 0 raw sched threshold_divisor (single_subset vertex_count start_vertex) parent d;
    res ← results fuel parent (seqZ 0 vertex_count);
    Some (res, d).

End BfsMap.

(** ** One round *)

Section Round.
Context {D : Type} `{!NeighborReader D} `{!EdgeLister D}.
Variables (d0 : D) (p0 : list Z) (X : gset Z).
Hypothesis count_ok : Z.of_nat (vertices d0) < INVALID_VID.
Hypothesis d0_closed : closed d0.
Hypothesis p0_length : length p0 = vertices d0.
Hypothesis X_vertices : forall v, v ∈ X -> vertex d0 v.

(** [u] is in [v]'s list. *)
Definition lists (v u : Z) : Prop := exists l, adj d0 v = Some l /\ u ∈ l.

(** [source v u]: [u] may become the parent of [v]. *)
Variable source : Z -> Z -> Prop.

Definition won (parent : list Z) (v : Z) : Prop :=
  p0 !! Z.to_nat v = Some INVALID_VID /\ exists u, u ∈ X /\ source v u /\ parent !! Z.to_nat v = Some u.

(** Every vertex is as before the round, or has been won ([up]: the output has
    it). *)
Definition vertex_ok (parent : list Z) (up : Z -> Prop) (v : Z) : Prop :=
  parent !! Z.to_nat v = p0 !! Z.to_nat v /\ ~ up v \/ won parent v /\ up v.

Lemma won_found parent v : won parent v -> exists p, parent !! Z.to_nat v = Some p /\ p <> INVALID_VID.
Proof.
  intros (_ & u & Hu & _ & Hp). exists u. split; [done|]. apply X_vertices in Hu. unfold vertex in Hu. lia.
Qed.

(** An update by a source in the frontier: it wins a free target and changes
    nothing else. *)
Lemma update_step parent (up : Z -> Prop) src dst : length parent = vertices d0 -> (forall v, vertex d0 v -> vertex_ok parent up v) ->
  vertex d0 dst -> src ∈ X -> source dst src ->
  exists b parent', bfs_update_atomic parent src dst = Some (b, parent') /\ length parent' = vertices d0 /\
    (b = false -> parent' = parent /\ (p0 !! Z.to_nat dst <> Some INVALID_VID \/ up dst)) /\
    (b = true -> ~ up dst /\ forall v, vertex d0 v -> vertex_ok parent' (fun w => up w \/ w = dst) v).
Proof.
  intros Hl Hok Hd Hsrc Hs. unfold bfs_update_atomic. pose proof Hd as [Hd0 Hd1].
  destruct (lookup_lt_is_Some_2 parent (Z.to_nat dst)) as [p Hp]; [lia|]. rewrite Hp. cbn.
  destruct (Z.eqb_spec p INVALID_VID) as [->|Hne].
  - eexists true, _. split; [done|]. rewrite length_insert. split; [done|]. split; [done|]. intros _.
    assert (Hfree : parent !! Z.to_nat dst = p0 !! Z.to_nat dst /\ ~ up dst).
    { destruct (Hok dst Hd) as [?|[Hw _]]; [done|]. apply won_found in Hw as (q & Hq & Hqi). congruence. }
    destruct Hfree as [Hf Hup]. split; [done|]. intros v Hv. destruct (decide (v = dst)) as [->|Hvd].
    + right. split; [|by right]. split; [congruence|]. exists src. split; [done|]. split; [done|]. apply list_lookup_insert_eq. lia.
    + destruct Hv as [Hv0 Hv1]. unfold vertex_ok, won. rewrite list_lookup_insert_ne by lia.
      destruct (Hok v) as [[? ?]|[? ?]]; [done|left|right]; [split; [done|]; naive_solver|]. split; [done|by left].
  - eexists false, _. split; [done|]. split; [done|]. split; [|done]. intros _. split; [done|].
    destruct (Hok dst Hd) as [[Hx _]|[_ ?]]; [left; congruence|by right].
Qed.

Lemma bfs_cond_run parent v : length parent = vertices d0 -> vertex d0 v -> exists b, bfs_cond parent v = Some b /\
  (b = false -> parent !! Z.to_nat v <> Some INVALID_VID).
Proof.
  intros Hl [Hv0 Hv1]. unfold bfs_cond. destruct (lookup_lt_is_Some_2 parent (Z.to_nat v)) as [p Hp]; [lia|]. rewrite Hp. cbn.
  eexists. split; [done|]. intros Hb. apply Z.eqb_neq in Hb. congruence.
Qed.

(** *** The dense mode *)

Section Dense.
Variable vs : vertex_subset_t.
Hypothesis vs_shows : shows vs X.
Hypothesis vs_dense : is_dense vs = true.
Hypothesis vs_count : VertexSet.n vs = Z.of_nat (vertices d0).
Hypothesis dense_source : forall v u, vertex d0 v -> lists v u -> source v u.

Definition up (em : em_state_t (list Z)) (v : Z) : Prop := next em !! Z.to_nat v = Some true.

Record em_ok (em : em_state_t (list Z)) : Prop := {
  em_parents : length (fs em) = vertices d0;
  em_flags : length (next em) = vertices d0;
  em_vertices : forall v, vertex d0 v -> vertex_ok (fs em) (up em) v
}.

(** Nothing is left to find for [v]. *)
Definition settled (em : em_state_t (list Z)) (v : Z) : Prop := p0 !! Z.to_nat v <> Some INVALID_VID \/ up em v.

Definition entry_ok (q : Z * list Z) : Prop := vertex d0 q.1 /\ forall u, u ∈ q.2 -> lists q.1 u.

Definition dense_task_ok (em : em_state_t (list Z)) (q : Z * list Z) (t : task_t) : Prop :=
  exists rest c, t = DenseTask q.1 rest c /\ (forall u, u ∈ rest -> u ∈ q.2) /\ (c = false -> rest = q.2) /\
    (c = true -> settled em q.1 \/ forall u, u ∈ q.2 -> u ∈ X -> u ∈ rest).

Definition dense_inv (em0 : em_state_t (list Z)) (ls : list (Z * list Z)) (em : em_state_t (list Z)) (ts : list task_t) : Prop :=
  em_ok em /\ (forall v, settled em0 v -> settled em v) /\ Forall2 (dense_task_ok em) ls ts.

Lemma dense_task_mono em em' q t : (forall v, settled em v -> settled em' v) -> dense_task_ok em q t -> dense_task_ok em' q t.
Proof.
  intros Hm (rest & c & -> & H1 & H2 & H3). exists rest, c. split; [done|]. split; [done|]. split; [done|].
  intros Hc. destruct (H3 Hc); [left; auto|by right].
Qed.

Lemma dense_tasks_mono em em' ls ts i q t : (forall v, settled em v -> settled em' v) -> Forall2 (dense_task_ok em) ls ts ->
  ls !! i = Some q -> dense_task_ok em' q t -> Forall2 (dense_task_ok em') ls (<[i := t]> ts).
Proof.
  intros Hm HF Hq Ht. assert (HF' : Forall2 (dense_task_ok em') ls ts) by (eapply Forall2_impl; [done|]; intros ? ?; by apply dense_task_mono).
  rewrite <- (list_insert_id ls i q Hq). by apply Forall2_insert.
Qed.

Lemma neighbor_vertex v u : vertex d0 v -> lists v u -> vertex d0 u.
Proof. intros Hv (l & El & Hu). by eapply d0_closed. Qed.

Lemma dense_step em0 ls em ts i t : Forall entry_ok ls -> dense_inv em0 ls em ts -> ts !! i = Some t ->
  exists em' t', step_task bfs_functor vs em t = Some (em', t') /\ dense_inv em0 ls em' (<[i := t']> ts).
Proof.
  intros Hls (Hok & Hset & HF) Et. destruct (Forall2_lookup_r _ _ _ _ _ HF Et) as (q & Eq & rest & c & -> & Hsub & Hc0 & Hc1).
  destruct (proj1 (Forall_lookup _ _) Hls i q Eq) as [Hv Hl]. destruct q as [v l]. cbn [fst snd] in *.
  destruct Hok as [Hp Hn Hvs]. destruct c.
  - destruct rest as [|u rest]; cbn [step_task].
    { exists em, (DenseTask v [] true). split; [done|]. rewrite list_insert_id by done. done. }
    assert (Hu : lists v u) by (apply Hl, Hsub; left). pose proof (neighbor_vertex v u Hv Hu) as Huv.
    rewrite (is_in_shows vs X u vs_shows vs_dense) by (rewrite vs_count; exact Huv). cbn [mbind option_bind].
    case_bool_decide as HX.
    + destruct (update_step (fs em) (up em) u v Hp Hvs Hv HX (dense_source v u Hv Hu)) as (b & p' & E & Hp' & Hf & Ht).
      change (update_atomic bfs_functor (fs em) u v) with (bfs_update_atomic (fs em) u v). rewrite E. cbn [mbind option_bind]. destruct b.
      * destruct (Ht eq_refl) as [Hup Hvs']. eexists _, _. split; [done|].
        assert (Hflag : forall w, vertex d0 w -> up (EmState p' (<[Z.to_nat v := true]> (next em)) (output em)) w <-> up em w \/ w = v).
        { intros w [Hw0 Hw1]. unfold up. cbn. destruct Hv as [Hv0 Hv1]. destruct (decide (w = v)) as [->|Hne].
          - rewrite list_lookup_insert_eq by lia. tauto.
          - rewrite list_lookup_insert_ne by lia. tauto. }
        assert (Hmono : forall w, settled em w -> settled (EmState p' (<[Z.to_nat v := true]> (next em)) (output em)) w).
        { intros w [?|Hw]; [by left|right]. unfold up in *. cbn. destruct (decide (Z.to_nat w = Z.to_nat v)) as [Hwv|Hne].
          - rewrite Hwv. apply list_lookup_insert_eq. destruct Hv. lia.
          - by rewrite list_lookup_insert_ne. }
        split; [split|split].
        -- done.
        -- cbn. by rewrite length_insert.
        -- intros w Hw. cbn [fs]. destruct (Hvs' w Hw) as [[? Hn']|[? Hn']]; [left|right]; (split; [done|]); rewrite Hflag by done; [tauto|done].
        -- auto.
        -- eapply dense_tasks_mono; [done..|]. exists [], true. split; [done|]. split; [intros w Hw; by apply elem_of_nil in Hw|].
           split; [done|]. intros _. left. right. apply Hflag; [done|by right].
      * destruct (Hf eq_refl) as [-> Hs]. eexists _, _. split; [done|]. split; [by split|]. split; [done|].
        eapply dense_tasks_mono; [by intros w Hw|done..|]. exists rest, true. split; [done|].
        split; [intros w Hw; apply Hsub; by right|]. split; [done|]. intros _. by left.
    + eexists _, _. split; [done|]. split; [by split|]. split; [done|]. eapply dense_tasks_mono; [by intros w Hw|done..|].
      exists rest, true. split; [done|]. split; [intros w Hw; apply Hsub; by right|]. split; [done|]. intros _.
      destruct (Hc1 eq_refl) as [?|Hr]; [by left|right]. intros w Hw HwX. specialize (Hr w Hw HwX).
      apply elem_of_cons in Hr as [->|?]; [done|done].
  - cbn [step_task]. destruct (bfs_cond_run (fs em) v Hp Hv) as (b & E & Hb). change (cond bfs_functor (fs em) v) with (bfs_cond (fs em) v). rewrite E. cbn [mbind option_bind].
    specialize (Hc0 eq_refl). subst rest. eexists _, _. split; [done|]. split; [by split|]. split; [done|].
    eapply dense_tasks_mono; [by intros w Hw|done..|]. exists (if b then l else []), true. split; [done|].
    destruct b; cbn.
    + split; [done|]. split; [done|]. intros _. right. auto.
    + split; [intros w Hw; by apply elem_of_nil in Hw|]. split; [done|]. intros _. left. specialize (Hb eq_refl).
      destruct (Hvs v Hv) as [[Hx _]|[_ ?]]; [left; congruence|by right].
Qed.

(** The tasks of the pages, or of one giant: all entries get settled. *)
Lemma dense_tasks_run sched em0 ls ts : Forall entry_ok ls -> em_ok em0 -> Forall2 (dense_task_ok em0) ls ts ->
  exists em' ts', run_tasks bfs_functor vs sched em0 ts = Some (em', ts') /\ em_ok em' /\
    (forall v, settled em0 v -> settled em' v) /\
    forall v l, (v, l) ∈ ls -> settled em' v \/ forall u, u ∈ l -> u ∉ X.
Proof.
  intros Hls Hok HF.
  destruct (run_all_inv (fun em _ t => step_task bfs_functor vs em t) task_weight
    (fun st i t st' t' => step_task_weight bfs_functor vs st t st' t') (dense_inv em0 ls)
    (fun em ts i t => dense_step em0 ls em ts i t Hls) sched em0 ts) as (em' & ts' & E & (Hok' & Hmono & HF') & _ & Hw).
  { split; [done|]. split; [done|done]. }
  exists em', ts'. split; [exact E|]. split; [done|]. split; [done|]. intros v l Hin.
  apply list_elem_of_lookup in Hin as [i Ei]. destruct (Forall2_lookup_l _ _ _ _ _ HF' Ei) as (t & Et & rest & c & -> & _ & Hc0 & Hc1).
  cbn [fst snd] in *. apply list_elem_of_lookup_2, Hw in Et. destruct c; cbn in Et; [|lia].
  apply nil_length_inv in Et. subst rest. destruct (Hc1 eq_refl) as [?|Hr]; [by left|right]. intros u Hu HuX.
  specialize (Hr u Hu HuX). by apply elem_of_nil in Hr.
Qed.

Lemma dense_giants_run gs : forall d em, same_graph d0 d -> listable d -> (forall v, v ∈ gs -> v ∈ giants d) -> em_ok em ->
  exists em' d', dense_giants bfs_functor vs gs em d = Some (em', d') /\ em_ok em' /\ same_graph d0 d' /\ listable d' /\
    (forall v, settled em v -> settled em' v) /\
    forall v l, v ∈ gs -> adj d0 v = Some l -> settled em' v \/ forall u, u ∈ l -> u ∉ X.
Proof.
  induction gs as [|g gs IH]; intros d em Hg Hl Hgs Hok.
  { exists em, d. split; [done|]. split; [done|]. split; [done|]. split; [done|]. split; [done|]. intros v l Hv. by apply elem_of_nil in Hv. }
  assert (Hgv : vertex d0 g). { unfold vertex. rewrite <- (proj1 Hg). apply giants_vertices; [done|]. apply Hgs. left. }
  destruct (giant_read_spec d g Hl) as (l & d1 & Er & Ha & Hg1 & Hl1 & Hgi); [apply Hgs; left|].
  rewrite (proj2 Hg) in Ha. unfold dense_giants. cbn [map_giants]. fold (dense_giants (D := D) bfs_functor).
  destruct (bfs_cond_run (fs em) g (em_parents _ Hok) Hgv) as (b & E & Hb). change (cond bfs_functor (fs em) g) with (bfs_cond (fs em) g). rewrite E.
  cbn [mbind option_bind]. destruct b.
  - rewrite Er. cbn [mbind option_bind]. destruct (dense_tasks_run [] em [(g, l)] [DenseTask g l true]) as (em1 & ts & E1 & Hok1 & Hm1 & Hs1).
    { constructor; [|constructor]. split; [done|]. intros u Hu. by exists l. }
    { done. }
    { constructor; [|constructor]. exists l, true. split; [done|]. split; [done|]. split; [done|]. intros _. right. auto. }
    rewrite E1. cbn [mbind option_bind]. destruct (IH d1 em1) as (em2 & d2 & E2 & H1 & H2 & H3 & H4 & H5); [by trans d|done| |done|].
    { intros v Hv. rewrite Hgi. apply Hgs. by right. }
    exists em2, d2. split; [done|]. split; [done|]. split; [done|]. split; [done|]. split; [auto|].
    intros v m Hv Hm. apply elem_of_cons in Hv as [->|Hv]; [|by apply H5]. replace m with l by congruence.
    destruct (Hs1 g l) as [?|?]; [left|left; auto|by right].
  - destruct (IH d em) as (em2 & d2 & E2 & H1 & H2 & H3 & H4 & H5); [done..|intros v Hv; apply Hgs; by right|done|].
    exists em2, d2. split; [done|]. split; [done|]. split; [done|]. split; [done|]. split; [auto|].
    intros v m Hv Hm. apply elem_of_cons in Hv as [->|Hv]; [|by apply H5]. left. apply H4. specialize (Hb eq_refl).
    destruct (em_vertices _ Hok g Hgv) as [[Hx _]|[_ ?]]; [left; congruence|by right].
Qed.

End Dense.

(** *** The sparse mode *)

Section Sparse.
Hypothesis sparse_source : forall v u, vertex d0 u -> lists u v -> source v u.
Variable vs : vertex_subset_t.

Definition pushed (em : em_state_t (list Z)) (v : Z) : Prop := v ∈ output em.

Definition sparse_settled (em : em_state_t (list Z)) (v : Z) : Prop := p0 !! Z.to_nat v <> Some INVALID_VID \/ pushed em v.

Definition sparse_task_ok (em : em_state_t (list Z)) (u : Z) (t : task_t) : Prop :=
  exists rest c, t = SparseTask u rest c /\ (forall v, v ∈ rest -> lists u v) /\ (c = true -> rest <> []) /\
    forall v, lists u v -> v ∈ rest \/ sparse_settled em v.

Record sparse_inv (us : list Z) (em : em_state_t (list Z)) (ts : list task_t) : Prop := {
  sp_parents : length (fs em) = vertices d0;
  sp_vertices : forall v, vertex d0 v -> vertex_ok (fs em) (pushed em) v;
  sp_nodup : NoDup (output em);
  sp_output : forall v, v ∈ output em -> vertex d0 v;
  sp_tasks : Forall2 (sparse_task_ok em) us ts
}.

Lemma sparse_tasks_mono em em' us ts i u t : (forall v, sparse_settled em v -> sparse_settled em' v) ->
  Forall2 (sparse_task_ok em) us ts -> us !! i = Some u -> sparse_task_ok em' u t ->
  Forall2 (sparse_task_ok em') us (<[i := t]> ts).
Proof.
  intros Hm HF Hu Ht. assert (HF' : Forall2 (sparse_task_ok em') us ts).
  { eapply Forall2_impl; [done|]. intros w q (rest & c & -> & H1 & H2 & H3). exists rest, c. split; [done|]. split; [done|].
    split; [done|]. intros v Hv. destruct (H3 v Hv); [by left|right; auto]. }
  rewrite <- (list_insert_id us i u Hu). by apply Forall2_insert.
Qed.

Lemma sparse_step us em ts i t : (forall u, u ∈ us -> u ∈ X) -> sparse_inv us em ts -> ts !! i = Some t ->
  exists em' t', step_task bfs_functor vs em t = Some (em', t') /\ sparse_inv us em' (<[i := t']> ts).
Proof.
  intros Hus [Hp Hvs Hnd Hout HF] Et. destruct (Forall2_lookup_r _ _ _ _ _ HF Et) as (u & Eu & rest & c & -> & Hsub & Hc & Hcov).
  assert (HuX : u ∈ X) by (apply Hus; by eapply list_elem_of_lookup_2). pose proof (X_vertices u HuX) as Huv.
  destruct rest as [|v rest]; cbn [step_task].
  { eexists _, _. split; [done|]. rewrite list_insert_id by done. by split. }
  assert (Hlv : lists u v) by (apply Hsub; left). pose proof (neighbor_vertex u v Huv Hlv) as Hv. destruct c.
  - destruct (update_step (fs em) (pushed em) u v Hp Hvs Hv HuX (sparse_source v u Huv Hlv)) as (b & p' & E & Hp' & Hf & Ht).
    change (update_atomic bfs_functor (fs em) u v) with (bfs_update_atomic (fs em) u v). rewrite E. cbn [mbind option_bind].
    destruct b.
    + destruct (Ht eq_refl) as [Hnp Hvs']. set (em' := EmState p' (next em) (output em ++ [v])).
      assert (Hpush : forall w, pushed em' w <-> pushed em w \/ w = v).
      { intros w. unfold pushed. cbn. by rewrite elem_of_app, list_elem_of_singleton. }
      eexists em', _. split; [done|]. split.
      * done.
      * intros w Hw. cbn [fs em']. destruct (Hvs' w Hw) as [[? Hn']|[? Hn']]; [left|right]; (split; [done|]); rewrite Hpush; [tauto|done].
      * cbn. apply NoDup_app. split; [done|]. split; [|apply NoDup_singleton]. intros w Hw ->%list_elem_of_singleton. by apply Hnp.
      * intros w Hw. apply Hpush in Hw as [Hw| ->]; [by apply Hout|done].
      * eapply sparse_tasks_mono; [|done..|].
        -- intros w [?|Hw]; [by left|right]. apply Hpush. by left.
        -- exists rest, false. split; [done|]. split; [intros w Hw; apply Hsub; by right|]. split; [done|]. intros w Hw.
           destruct (Hcov w Hw) as [Hin|[?|?]]; [|right; by left|right; right; apply Hpush; by left].
           apply elem_of_cons in Hin as [->|?]; [right; right; apply Hpush; by right|by left].
    + destruct (Hf eq_refl) as [-> Hs]. eexists _, _. split; [done|]. split; [done..|].
      eapply sparse_tasks_mono; [by intros w Hw|done..|]. exists rest, false. split; [done|].
      split; [intros w Hw; apply Hsub; by right|]. split; [done|]. intros w Hw.
      destruct (Hcov w Hw) as [Hin|?]; [|by right]. apply elem_of_cons in Hin as [->|?]; [by right|by left].
  - destruct (bfs_cond_run (fs em) v Hp Hv) as (b & E & Hb).
    change (cond bfs_functor (fs em) v) with (bfs_cond (fs em) v). rewrite E. cbn [mbind option_bind].
    eexists _, _. split; [done|]. split; [done..|]. eapply sparse_tasks_mono; [by intros w Hw|done..|]. destruct b.
    + by exists (v :: rest), true.
    + exists rest, false. split; [done|]. split; [intros w Hw; apply Hsub; by right|]. split; [done|]. intros w Hw.
      destruct (Hcov w Hw) as [Hin|?]; [|by right]. apply elem_of_cons in Hin as [->|?]; [right|by left]. specialize (Hb eq_refl).
      destruct (Hvs v Hv) as [[Hx _]|[_ ?]]; [left; congruence|by right].
Qed.

Lemma sparse_run sched us em ts : (forall u, u ∈ us -> u ∈ X) -> sparse_inv us em ts ->
  exists em' ts', run_tasks bfs_functor vs sched em ts = Some (em', ts') /\ sparse_inv us em' ts' /\
    forall u v, u ∈ us -> lists u v -> sparse_settled em' v.
Proof.
  intros Hus Hi.
  destruct (run_all_inv (fun em _ t => step_task bfs_functor vs em t) task_weight
    (fun st i t st' t' => step_task_weight bfs_functor vs st t st' t') (sparse_inv us)
    (fun em ts i t => sparse_step us em ts i t Hus) sched em ts Hi) as (em' & ts' & E & Hi' & _ & Hw).
  exists em', ts'. split; [exact E|]. split; [done|]. intros u v Hu Hl. apply list_elem_of_lookup in Hu as [i Ei].
  destruct (Forall2_lookup_l _ _ _ _ _ (sp_tasks _ _ _ Hi') Ei) as (t & Et & rest & c & -> & _ & Hc & Hcov).
  destruct (Hcov v Hl) as [Hin|?]; [|done]. exfalso. apply list_elem_of_lookup_2, Hw in Et.
  destruct rest as [|w rest]; [by apply elem_of_nil in Hin|]. destruct c; cbn in Et; lia.
Qed.

End Sparse.

(** *** Either mode *)

(** The round's result: the free vertices with a source in the frontier. *)
Definition round_result (lk : Z -> Z -> Prop) (p' : list Z) (X' : gset Z) : Prop :=
  length p' = vertices d0 /\
  (forall v, v ∈ X' <-> vertex d0 v /\ p0 !! Z.to_nat v = Some INVALID_VID /\ exists u, u ∈ X /\ lk v u) /\
  (forall v, vertex d0 v -> v ∉ X' -> p' !! Z.to_nat v = p0 !! Z.to_nat v) /\
  (forall v, v ∈ X' -> exists u, u ∈ X /\ lk v u /\ p' !! Z.to_nat v = Some u).

Lemma result_of_vertices (p' : list Z) (X' : gset Z) : length p' = vertices d0 -> (forall v, v ∈ X' -> vertex d0 v) ->
  (forall v, vertex d0 v -> vertex_ok p' (fun w => w ∈ X') v) ->
  (forall v u, vertex d0 v -> u ∈ X -> source v u -> p0 !! Z.to_nat v = Some INVALID_VID -> v ∈ X') ->
  round_result source p' X'.
Proof.
  intros Hl Hr Hok Hall. split; [done|]. split; [|split].
  - intros v. split.
    + intros Hv. split; [auto|]. destruct (Hok v (Hr v Hv)) as [[_ ?]|[[Hp (u & Hu & Hs & _)] _]]; [done|]. split; [done|]. by exists u.
    + intros (Hv & Hp & u & Hu & Hs). eauto.
  - intros v Hv Hn. destruct (Hok v Hv) as [[? _]|[_ ?]]; [done|done].
  - intros v Hv. destruct (Hok v (Hr v Hv)) as [[_ ?]|[[_ (u & Hu & Hs & Hp)] _]]; [done|]. by exists u.
Qed.

End Round.

Section Modes.
Context {D : Type} `{!NeighborReader D} `{!EdgeLister D}.
Variables (d0 : D) (p0 : list Z) (X : gset Z).
Hypothesis count_ok : Z.of_nat (vertices d0) < INVALID_VID.
Hypothesis d0_closed : closed d0.
Hypothesis p0_length : length p0 = vertices d0.
Hypothesis X_vertices : forall v, v ∈ X -> vertex d0 v.

Lemma dense_round sched d vs : (0 < vertices d0)%nat -> same_graph d0 d -> listable d -> shows vs X -> is_dense vs = true ->
  VertexSet.n vs = Z.of_nat (vertices d0) ->
  exists vs' p' d' X', bw_edge_map_dense bfs_functor sched d vs p0 = Some (vs', p', d') /\ shows vs' X' /\
    VertexSet.n vs' = Z.of_nat (vertices d0) /\ same_graph d0 d' /\ listable d' /\ round_result d0 p0 X (lists d0) p' X'.
Proof.
  intros Hpos Hg Hl Hs Hd Hn. destruct (page_lists_spec d Hl) as (ls & Els & Hls & Hcov). unfold bw_edge_map_dense, map_dense. fold (dense_giants (D := D) bfs_functor).
  rewrite Els. cbn [mbind option_bind]. rewrite (proj1 Hg).
  set (em0 := EmState p0 (replicate (vertices d0) false) []).
  assert (Hup0 : forall v, ~ up em0 v) by (intros v Hv; by apply lookup_replicate in Hv as [? _]).
  assert (Hok0 : em_ok d0 p0 X (lists d0) em0).
  { split; [done|cbn; by rewrite length_replicate|]. intros v _. left. by split. }
  assert (Hent : Forall (entry_ok d0) ls).
  { apply Forall_forall. intros [v l] Hin. destruct (Hls v l Hin) as (Hv & l' & Ha & Hsub). unfold vertex in Hv. rewrite (proj1 Hg) in Hv.
    split; [exact Hv|]. intros u Hu. exists l'. rewrite <- (proj2 Hg). auto. }
  destruct (dense_tasks_run d0 p0 X count_ok d0_closed p0_length X_vertices (lists d0) vs Hs Hd Hn (fun _ _ _ H => H) sched em0 ls
    ((fun q => DenseTask q.1 q.2 false) <$> ls) Hent Hok0) as (em1 & ts & E1 & Hok1 & _ & Hset1).
  { apply Forall2_fmap_r, Forall_Forall2_diag, Forall_forall. intros [v l] _. exists l, false. done. }
  rewrite E1. cbn [mbind option_bind].
  destruct (dense_giants_run d0 p0 X count_ok d0_closed p0_length X_vertices (lists d0) vs Hs Hd Hn (fun _ _ _ H => H) (giants d) d em1 Hg Hl)
    as (em2 & d2 & E2 & Hok2 & Hg2 & Hl2 & Hm2 & Hset2); [done|done|].
  rewrite E2. cbn [mbind option_bind]. destruct Hok2 as [Hp2 Hn2 Hv2].
  pose proof (sh_size _ _ Hs) as Hmax. rewrite Hn in Hmax.
  destruct (shows_counted (Z.of_nat (vertices d0)) (next em2)) as (vs' & E3 & Hs' & _ & Hn'); [by rewrite Hn2|lia|].
  rewrite E3. cbn [mbind option_bind]. exists vs', (fs em2), d2, (flagged (next em2)). split; [done|]. split; [done|]. split; [done|].
  split; [done|]. split; [done|].
  assert (Hfl : forall v, vertex d0 v -> v ∈ flagged (next em2) <-> up em2 v).
  { intros v [Hv _]. rewrite elem_of_flagged. unfold up. tauto. }
  apply result_of_vertices.
  - done.
  - intros v Hv. apply elem_of_flagged in Hv as [Hv E]. apply lookup_lt_Some in E. split; [done|]. lia.
  - intros v Hv. destruct (Hv2 v Hv) as [[? ?]|[? ?]]; [left|right]; (split; [done|]); by rewrite Hfl.
  - intros v u Hv Hu (l & Ha & Hul) Hp. apply Hfl; [done|].
    assert (Hx : settled p0 em2 v \/ forall u, u ∈ l -> u ∉ X).
    { destruct (decide (v ∈ giants d)) as [Hgi|Hgi]; [by apply Hset2|]. destruct (Hset1 v l) as [?|?]; [|left; auto|by right].
      apply Hcov; [unfold vertex; by rewrite (proj1 Hg)|done|by rewrite (proj2 Hg)]. }
    destruct Hx as [[?|?]|Hx]; [done|done|]. by destruct (Hx u Hul).
Qed.

Lemma sparse_round sched d vs : same_graph d0 d -> listable d -> shows vs X -> (exists l, s vs = Some l) ->
  VertexSet.n vs = Z.of_nat (vertices d0) ->
  exists vs' p' d' X', bw_edge_map_sparse bfs_functor sched d vs p0 = Some (vs', p', d') /\ shows vs' X' /\
    VertexSet.n vs' = Z.of_nat (vertices d0) /\ same_graph d0 d' /\ listable d' /\
    round_result d0 p0 X (fun v u => lists d0 u v) p' X'.
Proof.
  intros Hg Hl Hs [l El] Hn. unfold bw_edge_map_sparse, map_sparse. rewrite (vtx_shows vs X l Hs El). cbn [mbind option_bind].
  destruct (sh_sparse _ _ Hs l El) as [Hnd HlX].
  destruct (sparse_tasks_run l d Hl) as (d1 & E1 & Hg1 & Hl1).
  { intros v Hv. unfold vertex. rewrite (proj1 Hg). by apply X_vertices, HlX. }
  rewrite E1. cbn [mbind option_bind]. set (ts := (fun v => SparseTask v (default [] (adj d v)) false) <$> l).
  assert (Hi : sparse_inv d0 p0 X (fun v u => lists d0 u v) l (EmState p0 [] []) ts).
  { split; cbn.
    - done.
    - intros v _. left. split; [done|]. apply not_elem_of_nil.
    - constructor.
    - intros v Hv. by apply elem_of_nil in Hv.
    - apply Forall2_fmap_r, Forall_Forall2_diag, Forall_forall. intros u Hu. exists (default [] (adj d u)), false.
      split; [done|]. split; [|split; [done|]].
      + intros v Hv. destruct (adj d u) as [m|] eqn:Em; [|by apply elem_of_nil in Hv]. exists m. by rewrite <- (proj2 Hg).
      + intros v (m & Em & Hv). left. rewrite (proj2 Hg), Em. done. }
  destruct (sparse_run d0 p0 X count_ok d0_closed p0_length X_vertices (fun v u => lists d0 u v) (fun _ _ _ H => H) vs sched l
    (EmState p0 [] []) ts) as (em' & ts' & E2 & [Hp Hv Hndo Hout _] & Hset); [intros u Hu; by apply HlX|done|].
  rewrite E2. cbn [mbind option_bind]. rewrite (proj1 Hg1), (proj1 Hg).
  exists (sparse_subset (Z.of_nat (vertices d0)) (Z.of_nat (length (output em'))) (output em')), (fs em'), d1, (list_to_set (output em')).
  split; [done|]. pose proof (sh_size _ _ Hs) as Hmax. rewrite Hn in Hmax.
  split; [apply shows_sparse; [done| |done]; intros v Hv'; by apply Hout|]. split; [done|]. split; [by trans d|]. split; [done|].
  assert (Hmem : forall v : Z, v ∈ (list_to_set (output em') : gset Z) <-> v ∈ output em') by (intros v; apply elem_of_list_to_set).
  apply result_of_vertices.
  - done.
  - intros v Hv'. by apply Hout, Hmem.
  - intros v Hv'. destruct (Hv v Hv') as [[? ?]|[? ?]]; [left|right]; (split; [done|]); by rewrite Hmem.
  - intros v u Hv' Hu Hlk Hp0. apply Hmem. destruct (Hset u v) as [?|?]; [by apply HlX|done|done|done].
Qed.

(** On a symmetric graph the two modes agree. *)
Lemma edge_map_round raw sched d vs div : (forall k, length (raw k) = k) -> symmetric d0 -> (0 < vertices d0)%nat ->
  same_graph d0 d -> listable d -> shows vs X -> X ≠ ∅ -> VertexSet.n vs = Z.of_nat (vertices d0) ->
  exists vs' vs'' p' d' X', bw_edge_map bfs_functor raw sched d vs p0 div = Some (vs', vs'', p', d') /\ shows vs' X' /\
    VertexSet.n vs' = Z.of_nat (vertices d0) /\ same_graph d0 d' /\ listable d' /\
    round_result d0 p0 X (fun v u => edge d0 u v) p' X'.
Proof.
  intros Hraw Hsym Hpos Hg Hl Hs Hne Hn. assert (Hm : 0 < m vs).
  { rewrite (sh_count _ _ Hs). assert (size X <> 0%nat); [|lia]. intros Hz. by apply size_empty_inv, leibniz_equiv in Hz. }
  unfold bw_edge_map, map_edges, is_empty. fold (bw_edge_map_dense (D := D) bfs_functor) (bw_edge_map_sparse (D := D) bfs_functor). rewrite (proj2 (Z.eqb_neq _ _)) by lia.
  assert (Hconv : forall lk p' X', (forall v u, vertex d0 v -> u ∈ X -> lk v u <-> edge d0 u v) ->
    round_result d0 p0 X lk p' X' -> round_result d0 p0 X (fun v u => edge d0 u v) p' X').
  { intros lk p' X' Hlk (H1 & H2 & H3 & H4). split; [done|]. split; [|split; [done|]].
    - intros v. rewrite H2. split; intros (Hv & Hp & u & Hu & Hx); (split; [done|]); (split; [done|]); exists u; (split; [done|]); by apply Hlk.
    - intros v Hv. destruct (H4 v Hv) as (u & Hu & Hx & Hp). exists u. split; [done|]. split; [|done]. apply Hlk; [by apply H2|done|done]. }
  destruct (_ <? num_non_zeros vs).
  - destruct (to_dense_run vs X Hs) as (vs1 & E1 & Hs1 & Hd1 & Hn1 & _). rewrite E1. cbn [mbind option_bind].
    destruct (dense_round sched d vs1 Hpos Hg Hl Hs1 Hd1) as (vs' & p' & d' & X' & E2 & Hs' & Hn' & Hg' & Hl' & Hr); [congruence|].
    rewrite E2. cbn [mbind option_bind]. exists vs', vs1, p', d', X'. split; [done|]. split; [done|]. split; [done|]. split; [done|]. split; [done|]. eapply Hconv; [|done].
    intros v u Hv Hu. split.
    + intros Hlv. apply Hsym. split; [done|]. split; [by apply X_vertices|done].
    + intros He. by apply Hsym in He as (_ & _ & ?).
  - destruct (to_sparse_run raw vs X Hraw Hs) as (vs1 & E1 & Hs1 & _ & Hsp & Hn1 & _). rewrite E1. cbn [mbind option_bind].
    destruct (sparse_round sched d vs1 Hg Hl Hs1 (Hsp Hm)) as (vs' & p' & d' & X' & E2 & Hs' & Hn' & Hg' & Hl' & Hr); [congruence|].
    rewrite E2. cbn [mbind option_bind]. exists vs', vs1, p', d', X'. split; [done|]. split; [done|]. split; [done|]. split; [done|]. split; [done|]. eapply Hconv; [|done].
    intros v u Hv Hu. split; [|intros (_ & _ & ?); done]. intros Hlu. split; [by apply X_vertices|]. by split.
Qed.

End Modes.

(** ** The whole search *)

Section Search.
Context {D : Type} `{!NeighborReader D} `{!EdgeLister D}.
Variables (d0 : D) (st : Z) (raw : nat -> list Z).
Hypothesis raw_length : forall k, length (raw k) = k.
Hypothesis d0_closed : closed d0.
Hypothesis d0_symmetric : symmetric d0.
Hypothesis s_vertex : vertex d0 st.
Hypothesis count_ok : Z.of_nat (vertices d0) < INVALID_VID.

Lemma bfs_map_loop_run sched div fuel : forall round vs X parent d k,
  level_inv d0 st k parent (fun v => v ∈ X) -> shows vs X -> VertexSet.n vs = Z.of_nat (vertices d0) ->
  same_graph d0 d -> listable d -> (vertices d0 <= k + fuel)%nat ->
  exists parent' d' k' X', bfs_map_loop fuel round raw sched div vs parent d = Some (parent', d') /\
    same_graph d0 d' /\ level_inv d0 st k' parent' (fun v => v ∈ (X' : gset Z)) /\ forall v, v ∉ X'.
Proof.
  induction fuel as [|fuel IH]; intros round vs X parent d k Hi Hs Hn Hg Hl Hf; cbn [bfs_map_loop].
  all: unfold is_empty; rewrite (sh_count _ _ Hs).
  all: destruct (decide (X = ∅)) as [->|Hne]; [rewrite size_empty; exists parent, d, k, ∅; split; [done|]; split; [done|]; split; [done|]; set_solver|].
  all: assert (Hsz : size X <> 0%nat) by (intros Hz; by apply size_empty_inv, leibniz_equiv in Hz).
  { exfalso. destruct (set_choose_L X Hne) as [v Hv]. apply (li_active _ _ _ _ _ Hi), distance_bound in Hv. lia. }
  rewrite (proj2 (Z.eqb_neq _ _)) by lia.
  assert (Hpos : (0 < vertices d0)%nat) by (destruct s_vertex; lia).
  destruct (edge_map_round d0 parent X count_ok d0_closed (li_length _ _ _ _ _ Hi) (fun v => active_vertex _ _ _ _ _ v Hi)
    raw (sched round) d vs div raw_length d0_symmetric Hpos Hg Hl Hs Hne Hn)
    as (vs' & vs'' & p' & d' & X' & E & Hs' & Hn' & Hg' & Hl' & H1 & H2 & H3 & H4).
  rewrite E. cbn [mbind option_bind]. apply (IH (S round) vs' X' p' d' (S k)); [|done..|lia].
  eapply (level_step d0 st s_vertex count_ok k parent (fun v => v ∈ X)); [done|done|apply _| |done|done].
  intros v. rewrite H2. split; [tauto|]. intros [Hp (u & Hu & He)]. split; [apply He|]. split; [done|]. by exists u.
Qed.

(** The search returns the distances, whatever the thresholds and the
    interleavings. *)
Lemma parallel_bfs_map_run fuel sched page_count resident div : listable d0 -> (vertices d0 <= fuel)%nat ->
  exists res d', parallel_bfs_map fuel raw sched page_count resident d0 st div = Some (res, d') /\ same_graph d0 d' /\
    NoDup res.*1 /\ forall v x, (v, x) ∈ res <-> exists j, x = Z.of_nat j /\ distance d0 st v j.
Proof.
  intros Hl Hf. unfold parallel_bfs_map. pose proof s_vertex as Hsv. unfold vertex in Hsv.
  rewrite (proj2 (Z.eqb_neq _ _)), (proj2 (Z.leb_gt _ _)) by lia. cbn [orb].
  set (div' := if resident <? page_count then Z.max div 40 else div).
  destruct (bfs_map_loop_run sched div' fuel 0 (single_subset (Z.of_nat (vertices d0)) st) {[st]}
    (<[Z.to_nat st := st]> (replicate (vertices d0) INVALID_VID)) d0 0) as (parent' & d' & k & X' & E & Hg & Hi & Hnone).
  { apply level_init; [done|done|]. intros v. by rewrite elem_of_singleton. }
  { apply shows_single; [lia|]. unfold INVALID_VID in count_ok. lia. }
  { done. }
  { done. }
  { done. }
  { lia. }
  rewrite E. cbn [mbind option_bind].
  destruct (results_run d0 st s_vertex count_ok k parent' _ fuel Hi Hnone Hf (seqZ 0 (Z.of_nat (vertices d0)))) as (res & -> & H1 & _ & H3).
  { intros v Hv. apply elem_of_seqZ in Hv. unfold vertex. lia. }
  { apply NoDup_seqZ. }
  cbn [mbind option_bind]. exists res, d'. split; [done|]. split; [done|]. split; [done|]. intros v x. rewrite H3.
  split; [tauto|]. intros Hx. split; [|done]. destruct Hx as (j & _ & [Hw _]). apply walk_vertex in Hw as [_ [? ?]].
  apply elem_of_seqZ. lia.
Qed.

End Search.

(** On a symmetric graph whose lists name only vertices, the breadth-first
    search by edge maps returns the same vertices with the same levels as the
    plain search, up to order: whatever the threshold that chooses between the
    dense and the sparse mode, whatever the order in which the threads of each
    round apply the functor, and whatever uninitialised memory holds. *)
Theorem parallel_bfs_map_agrees {D : Type} `{!NeighborReader D} `{!EdgeLister D} (d : D) (s : Z) (raw : nat -> list Z)
    (fuel : nat) (sched : nat -> list nat) (page_count resident threshold_divisor : Z) :
  (forall k, length (raw k) = k) -> closed d -> symmetric d -> vertex d s -> Z.of_nat (vertices d) < INVALID_VID ->
  listable d -> (vertices d <= fuel)%nat ->
  exists order d1 res d2, Bfs.bfs fuel d s = Some (order, d1) /\
    parallel_bfs_map fuel raw sched page_count resident d s threshold_divisor = Some (res, d2) /\ res ≡ₚ order /\ same_graph d d2.
Proof.
  intros Hraw Hc Hs Hv Hn Hl Hf.
  destruct (Bfs.bfs_run d s fuel (listable_readable d Hl) Hv) as (order & d1 & E1 & _ & Hnd1 & Hd1 & _); [unfold INVALID_VID in Hn; lia|done|].
  destruct (parallel_bfs_map_run d s raw Hraw Hc Hs Hv Hn fuel sched page_count resident threshold_divisor Hl Hf) as (res & d2 & E2 & Hg & Hnd2 & Hd2).
  exists order, d1, res, d2. split; [done|]. split; [done|]. split; [by apply (Bfs.distances_permutation d s)|done].
Qed.

End BfsMap.
