(* ===== verification/ParallelBfs.v ===== *)
(** * Parallel breadth-first search ([bw_graph_db_t::parallel_bfs])

    Rounds of edge scans over two bitmaps.  In a round the threads hand the
    edges of the active vertices to a callback that reads the target's parent,
    claims it with a compare-and-swap and marks the target; the three steps of
    different calls interleave freely.  A schedule chooses the interleaving, and
    the result does not depend on it: every reachable vertex, with its distance. *)

From S2P Require Import Prelude GraphRead Bitmap EdgeScan Bfs Interleave.

Local Open Scope Z_scope.

Module ParallelBfs.
Import Bitmap GraphRead BfsLevels Interleave.

Record search_t := Search { parent : list Z; active_out : bit_map_t }.

(** Where a call of the callback is: before the test, between the test and the
    compare-and-swap, between that and [set_bit], returned. *)
Inductive call_pc := C_start | C_checked | C_won | C_done (result : Z).

#[export] Instance call_pc_eq_dec : EqDecision call_pc.
Proof. solve_decision. Defined.

(** One atomic step of the call for the edge [e]; [None]: out of range. *)
Definition step_call (st : search_t) (e : Z * Z) (pc : call_pc) : option (search_t * call_pc) :=
  let '(src, dst) := e in
  match pc with
  | C_start =>
    p ← parent st !! Z.to_nat dst;
    Some (st, if p =? INVALID_VID then C_checked else C_done 0)
  | C_checked =>
    p ← parent st !! Z.to_nat dst;
    Some (if p =? INVALID_VID
          then (Search (<[Z.to_nat dst := src]> (parent st)) (active_out st), C_won)
          else (st, C_done 0))
  | C_won => b ← set_bit (active_out st) dst; Some (Search (parent st) b, C_done 1)
  | C_done r => Some (st, C_done r)
  end.

(** Steps a call still has to take. *)
Definition steps_left (pc : call_pc) : nat :=
  match pc with C_start => 3 | C_checked => 2 | C_won => 1 | C_done _ => 0 end.

Definition step_at (calls : list (Z * Z)) (st : search_t) (i : nat) (pc : call_pc) : option (search_t * call_pc) :=
  e ← calls !! i; step_call st e pc.

Definition call_result (pc : call_pc) : Z := match pc with C_done r => r | _ => 0 end.

(** A scan returns when all its calls have; the results are added up in 32 bits. *)
Definition run_round (calls : list (Z * Z)) (sched : list nat) (st : search_t) : option (search_t * Z) :=
  '(st, pcs) ← run_all (step_at calls) steps_left sched st (replicate (length calls) C_start);
  Some (st, foldl (fun a pc => u32 (a + call_result pc)) 0 pcs).

Section ParallelBfs.
Context {D : Type} `{!NeighborReader D} `{!EdgeScanner D}.

Fixpoint rounds (fuel round : nat) (sched : nat -> list nat) (d : D) (active_in active_out : bit_map_t)
    (parent : list Z) (active_vertices : Z) : option (list Z * D) :=
  if active_vertices =? 0 then Some (parent, d)
  else match fuel with
  | O => None
  | S fuel =>
    let '(active_in, active_out) := (active_out, clear active_in) in
    '(calls, d) ← edge_scan d active_in;
    '(st, active_vertices) ← run_round calls (sched round) (Search parent active_out);
    rounds fuel (S round) sched d active_in (ParallelBfs.active_out st) (ParallelBfs.parent st) active_vertices
  end.

(** [raw_in] and [raw_out]: what the bitmaps' memory held before. *)
Definition parallel_bfs (raw_in raw_out : list Z) (sched : nat -> list nat) (fuel : nat) (d : D) (start_vertex : Z) :
    option (list (Z * Z) * D) :=
  let vertex_count := Z.of_nat (vertices d) in
  let active_in := init raw_in vertex_count in
  active_out ← set_bit (clear (init raw_out vertex_count)) start_vertex;
  if (0 <=? start_vertex) && (start_vertex <? vertex_count) then
    let parent := <[Z.to_nat start_vertex := start_vertex]> (replicate (vertices d) INVALID_VID) in
    '(parent, d) ← rounds fuel 0 sched d active_in active_out parent 1;
    res ← results fuel parent (seqZ 0 (Z.of_nat (vertices d)));
    Some (res, d)
  else None.

End ParallelBfs.

(** ** One round, under any schedule *)

Section Round.
Variables (n : nat) (calls : list (Z * Z)) (p0 : list Z).
Hypothesis n_ok : Z.of_nat n < INVALID_VID.
Hypothesis calls_ok : forall src dst, (src, dst) ∈ calls -> 0 <= src < Z.of_nat n /\ 0 <= dst < Z.of_nat n.
Hypothesis p0_length : length p0 = n.

(** A call that has claimed its target. *)
Definition claimed (pc : call_pc) : Prop := pc = C_won \/ pc = C_done 1.

(** Every claimed target was free before the round and has one claimant, whose
    source is its parent; nothing else has changed. *)
Record round_inv (st : search_t) (pcs : list call_pc) : Prop := {
  ri_length : length pcs = length calls;
  ri_parents : length (parent st) = n;
  ri_bits : wf (active_out st) /\ words_ok (active_out st) /\ size (active_out st) = Z.of_nat n;
  ri_parent : forall v, 0 <= v < Z.of_nat n -> parent st !! Z.to_nat v = p0 !! Z.to_nat v \/
    exists i src pc, calls !! i = Some (src, v) /\ pcs !! i = Some pc /\ claimed pc;
  ri_claimed : forall i src dst pc, calls !! i = Some (src, dst) -> pcs !! i = Some pc -> claimed pc ->
    parent st !! Z.to_nat dst = Some src /\ p0 !! Z.to_nat dst = Some INVALID_VID;
  ri_unique : forall i j si sj dst pi pj, calls !! i = Some (si, dst) -> calls !! j = Some (sj, dst) ->
    pcs !! i = Some pi -> pcs !! j = Some pj -> claimed pi -> claimed pj -> i = j;
  ri_marked : forall v, has (active_out st) v <-> exists i src, calls !! i = Some (src, v) /\ pcs !! i = Some (C_done 1);
  ri_lost : forall i src dst r, calls !! i = Some (src, dst) -> pcs !! i = Some (C_done r) ->
    r = 1 \/ r = 0 /\ parent st !! Z.to_nat dst <> Some INVALID_VID
}.

Lemma call_range i src dst : calls !! i = Some (src, dst) -> 0 <= src < Z.of_nat n /\ 0 <= dst < Z.of_nat n.
Proof. intros E. eapply calls_ok, list_elem_of_lookup_2, E. Qed.

Lemma round_start b : wf b -> words_ok b -> size b = Z.of_nat n -> (forall v, ~ has b v) ->
  round_inv (Search p0 b) (replicate (length calls) C_start).
Proof.
  intros Hw Hwo Hs Hb.
  assert (Hst : forall i pc, replicate (length calls) C_start !! i = Some pc -> pc = C_start)
    by (intros i pc E; by apply lookup_replicate in E as [? _]).
  assert (Hnc : forall i pc, replicate (length calls) C_start !! i = Some pc -> ~ claimed pc)
    by (intros i pc E [?|?]; apply Hst in E; congruence).
  split; cbn.
  - by rewrite length_replicate.
  - done.
  - done.
  - by left.
  - intros i src dst pc _ E Hc. by destruct (Hnc i pc E).
  - intros i j si sj dst pi pj _ _ E _ Hc. by destruct (Hnc i pi E).
  - intros v. split; [intros Hv; by destruct (Hb v)|]. intros (i & src & _ & E). by apply Hst in E.
  - intros i src dst r _ E. by apply Hst in E.
Qed.

(** A step that changes neither parents nor bits nor who has claimed what. *)
Lemma round_quiet st pcs i src dst pc pc' : round_inv st pcs -> calls !! i = Some (src, dst) -> pcs !! i = Some pc ->
  ~ claimed pc -> ~ claimed pc' ->
  (forall r, pc' = C_done r -> r = 0 /\ parent st !! Z.to_nat dst <> Some INVALID_VID) ->
  round_inv st (<[i := pc']> pcs).
Proof.
  intros Hi Ec Ep Hn Hn' Hr. assert (Hlt := lookup_lt_Some _ _ _ Ep).
  assert (Hsame : forall j qc, claimed qc -> <[i := pc']> pcs !! j = Some qc <-> pcs !! j = Some qc).
  { intros j qc Hq. destruct (decide (j = i)) as [->|]; [|by rewrite list_lookup_insert_ne].
    rewrite list_lookup_insert_eq by done. split; intros E; [injection E as ->; done|].
    rewrite Ep in E. injection E as ->. done. }
  split.
  - rewrite length_insert. by eapply ri_length.
  - by eapply ri_parents.
  - by eapply ri_bits.
  - intros v Hv. destruct (ri_parent _ _ Hi v Hv) as [?|(j & s & q & ? & ? & Hq)]; [by left|right].
    exists j, s, q. by rewrite Hsame.
  - intros j s d q E1 E2 Hq. apply Hsame in E2; [|done]. by eapply ri_claimed.
  - intros j k sj sk d pj pk E1 E2 E3 E4 Hj Hk. apply Hsame in E3, E4; [|done..]. eapply (ri_unique _ _ Hi j k); done.
  - intros v. rewrite (ri_marked _ _ Hi). f_equiv. intros j. f_equiv. intros s. rewrite Hsame by by right. done.
  - intros j s d r E1 E2. destruct (decide (j = i)) as [->|].
    + rewrite list_lookup_insert_eq in E2 by done. injection E2 as E2. right. replace d with dst by congruence. by apply Hr.
    + rewrite list_lookup_insert_ne in E2 by done. by eapply ri_lost.
Qed.

(** The compare-and-swap succeeds. *)
Lemma round_claim st pcs i src dst : round_inv st pcs -> calls !! i = Some (src, dst) -> pcs !! i = Some C_checked ->
  parent st !! Z.to_nat dst = Some INVALID_VID ->
  round_inv (Search (<[Z.to_nat dst := src]> (parent st)) (active_out st)) (<[i := C_won]> pcs).
Proof.
  intros Hi Ec Ep Hp. assert (Hlt := lookup_lt_Some _ _ _ Ep). destruct (call_range _ _ _ Ec) as [Hsrc Hdst].
  assert (Hfree : forall j s q, calls !! j = Some (s, dst) -> pcs !! j = Some q -> ~ claimed q).
  { intros j s q E1 E2 Hq. destruct (ri_claimed _ _ Hi _ _ _ _ E1 E2 Hq) as [E _].
    destruct (call_range _ _ _ E1) as [Hs _]. rewrite Hp in E. injection E as E. lia. }
  assert (Hold : forall j q, j <> i -> <[i := C_won]> pcs !! j = Some q <-> pcs !! j = Some q)
    by (intros j q Hj; by rewrite list_lookup_insert_ne).
  split; cbn [parent active_out].
  - rewrite length_insert. by eapply ri_length.
  - rewrite length_insert. by eapply ri_parents.
  - by eapply ri_bits.
  - intros v Hv. destruct (decide (v = dst)) as [->|Hne].
    + right. exists i, src, C_won. split; [done|]. rewrite list_lookup_insert_eq by done. split; [done|by left].
    + rewrite list_lookup_insert_ne by lia. destruct (ri_parent _ _ Hi v Hv) as [?|(j & s & q & E1 & E2 & Hq)]; [by left|right].
      exists j, s, q. split; [done|]. split; [|done]. apply Hold; [congruence|done].
  - intros j s d q E1 E2 Hq. destruct (decide (j = i)) as [->|Hj].
    + rewrite Ec in E1. injection E1 as <- <-. rewrite list_lookup_insert_eq by (rewrite (ri_parents _ _ Hi); lia).
      split; [done|]. destruct (ri_parent _ _ Hi dst Hdst) as [<-|(j & s & q' & E1 & E3 & Hq')]; [done|].
      by destruct (Hfree j s q').
    + apply Hold in E2; [|done]. destruct (call_range _ _ _ E1) as [_ Hd].
      assert (d <> dst) by (intros ->; by destruct (Hfree j s q)). rewrite list_lookup_insert_ne by lia.
      by eapply ri_claimed.
  - intros j k sj sk d pj pk E1 E2 E3 E4 Hj Hk. destruct (decide (j = i)) as [->|Hji], (decide (k = i)) as [->|Hki].
    + done.
    + rewrite Ec in E1. injection E1 as <- <-. apply Hold in E4; [|done]. by destruct (Hfree k sk pk).
    + rewrite Ec in E2. injection E2 as <- <-. apply Hold in E3; [|done]. by destruct (Hfree j sj pj).
    + apply Hold in E3, E4; [|done..]. eapply (ri_unique _ _ Hi j k); done.
  - intros v. rewrite (ri_marked _ _ Hi). split; intros (j & s & E1 & E2); exists j, s; (split; [done|]).
    + rewrite list_lookup_insert_ne; [done|]. intros ->. congruence.
    + destruct (decide (j = i)) as [->|]; [by rewrite list_lookup_insert_eq in E2|by rewrite list_lookup_insert_ne in E2].
  - intros j s d r E1 E2. destruct (decide (j = i)) as [->|Hj]; [by rewrite list_lookup_insert_eq in E2 by done|].
    apply Hold in E2; [|done]. destruct (ri_lost _ _ Hi _ _ _ _ E1 E2) as [?|[? Hne]]; [by left|right]. split; [done|].
    destruct (call_range _ _ _ E1) as [_ Hd].
    destruct (decide (d = dst)) as [->|]; [|by rewrite list_lookup_insert_ne by lia].
    rewrite list_lookup_insert_eq by (rewrite (ri_parents _ _ Hi); lia). intros [= E]. lia.
Qed.

(** The target is marked. *)
Lemma round_mark st pcs i src dst b : round_inv st pcs -> calls !! i = Some (src, dst) -> pcs !! i = Some C_won ->
  set_bit (active_out st) dst = Some b -> round_inv (Search (parent st) b) (<[i := C_done 1]> pcs).
Proof.
  intros Hi Ec Ep Hb. assert (Hlt := lookup_lt_Some _ _ _ Ep). destruct (call_range _ _ _ Ec) as [Hsrc Hdst].
  destruct (ri_bits _ _ Hi) as (Hw & Hwo & Hs).
  destruct (set_bit_spec (active_out st) dst Hw) as (b' & E & Hw' & Hs' & Hhas); [lia|]. rewrite Hb in E. injection E as <-.
  assert (Hcl : forall j q, <[i := C_done 1]> pcs !! j = Some q -> claimed q -> exists q', pcs !! j = Some q' /\ claimed q').
  { intros j q E Hq. destruct (decide (j = i)) as [->|]; [exists C_won; split; [done|by left]|].
    rewrite list_lookup_insert_ne in E by done. by exists q. }
  split; cbn [parent active_out].
  - rewrite length_insert. by eapply ri_length.
  - by eapply ri_parents.
  - split; [done|]. split; [by eapply words_ok_set|congruence].
  - intros v Hv. destruct (ri_parent _ _ Hi v Hv) as [?|(j & s & q & E1 & E2 & Hq)]; [by left|right].
    destruct (decide (j = i)) as [->|].
    + exists i, s, (C_done 1). rewrite list_lookup_insert_eq by done. split; [done|]. split; [done|by right].
    + exists j, s, q. by rewrite list_lookup_insert_ne.
  - intros j s d q E1 E2 Hq. destruct (Hcl _ _ E2 Hq) as (q' & ? & ?). by eapply ri_claimed.
  - intros j k sj sk d pj pk E1 E2 E3 E4 Hj Hk. destruct (Hcl _ _ E3 Hj) as (? & ? & ?), (Hcl _ _ E4 Hk) as (? & ? & ?).
    eapply (ri_unique _ _ Hi j k); done.
  - intros v. rewrite Hhas, (ri_marked _ _ Hi). split.
    + intros [(j & s & E1 & E2)| ->]; [|exists i, src; by rewrite list_lookup_insert_eq].
      exists j, s. split; [done|]. rewrite list_lookup_insert_ne; [done|]. intros ->. congruence.
    + intros (j & s & E1 & E2). destruct (decide (j = i)) as [->|]; [right; congruence|left].
      rewrite list_lookup_insert_ne in E2 by done. by exists j, s.
  - intros j s d r E1 E2. destruct (decide (j = i)) as [->|].
    + rewrite list_lookup_insert_eq in E2 by done. left. congruence.
    + rewrite list_lookup_insert_ne in E2 by done. by eapply ri_lost.
Qed.

(** No step gets stuck, and every step keeps the invariant. *)
Lemma step_call_inv st pcs i e pc : round_inv st pcs -> calls !! i = Some e -> pcs !! i = Some pc ->
  exists st' pc', step_call st e pc = Some (st', pc') /\ round_inv st' (<[i := pc']> pcs).
Proof.
  intros Hi Ec Ep. destruct e as [src dst]. destruct (call_range _ _ _ Ec) as [Hsrc Hdst].
  destruct (lookup_lt_is_Some_2 (parent st) (Z.to_nat dst)) as [p Hp]; [rewrite (ri_parents _ _ Hi); lia|].
  assert (Hlost : p <> INVALID_VID -> parent st !! Z.to_nat dst <> Some INVALID_VID) by congruence.
  destruct pc as [| | |r]; cbn [step_call].
  - rewrite Hp. cbn. eexists _, _. split; [done|]. eapply round_quiet; [done..| | |].
    + by intros [?|?].
    + destruct (p =? INVALID_VID); by intros [?|?].
    + intros r. destruct (Z.eqb_spec p INVALID_VID); [done|]. intros [= <-]. auto.
  - rewrite Hp. cbn. destruct (Z.eqb_spec p INVALID_VID) as [->|Hne].
    + eexists _, _. split; [done|]. by eapply round_claim.
    + eexists _, _. split; [done|]. eapply round_quiet; [done..| | |].
      * by intros [?|?].
      * by intros [?|?].
      * intros r [= <-]. auto.
  - destruct (ri_bits _ _ Hi) as (Hw & _ & Hs).
    destruct (set_bit_spec (active_out st) dst Hw) as (b & E & _); [lia|]. rewrite E. cbn.
    eexists _, _. split; [done|]. by eapply round_mark.
  - exists st, (C_done r). split; [done|]. by rewrite list_insert_id.
Qed.

Lemma step_at_inv st pcs i pc : round_inv st pcs -> pcs !! i = Some pc ->
  exists st' pc', step_at calls st i pc = Some (st', pc') /\ round_inv st' (<[i := pc']> pcs).
Proof.
  intros Hi Ep. destruct (lookup_lt_is_Some_2 calls i) as [e Ec]; [rewrite <- (ri_length _ _ Hi); by eapply lookup_lt_Some|].
  unfold step_at. rewrite Ec. cbn [mbind option_bind]. by eapply step_call_inv.
Qed.

Lemma step_at_left st i pc st' pc' : step_at calls st i pc = Some (st', pc') -> (steps_left pc' <= steps_left pc - 1)%nat.
Proof.
  unfold step_at. destruct (calls !! i) as [[src dst]|]; [|done]. cbn [mbind option_bind]. destruct pc as [| | |r]; cbn [step_call].
  - destruct (parent st !! _); [|done]. cbn. intros [= <- <-]. destruct (_ =? _); cbn; lia.
  - destruct (parent st !! _); [|done]. cbn. destruct (_ =? _); intros [= <- <-]; cbn; lia.
  - destruct (set_bit _ _); [|done]. intros [= <- <-]. cbn. lia.
  - intros [= <- <-]. cbn. lia.
Qed.

(** *** The number of claims *)

Lemma sum_results pcs : (forall pc, pc ∈ pcs -> pc = C_done 0 \/ pc = C_done 1) ->
  forall a, 0 <= a -> a + Z.of_nat (length (filter (fun pc => pc = C_done 1) pcs)) < 2 ^ 32 ->
  foldl (fun a pc => u32 (a + call_result pc)) a pcs = a + Z.of_nat (length (filter (fun pc => pc = C_done 1) pcs)).
Proof.
  induction pcs as [|pc pcs IH]; intros Hpc a Ha Hmax; [cbn; lia|]. cbn [foldl].
  assert (Hpc' : forall qc, qc ∈ pcs -> qc = C_done 0 \/ qc = C_done 1) by (intros qc Hqc; apply Hpc; by right).
  rewrite filter_cons in Hmax |- *. destruct (Hpc pc) as [->| ->]; [left|..].
  - rewrite decide_False in Hmax |- * by done. cbn [call_result]. rewrite wrap_small by (rewrite Z.add_0_r; split; lia).
    rewrite IH by (done || lia). lia.
  - rewrite decide_True in Hmax |- * by done. cbn [call_result length] in *. rewrite wrap_small by (split; lia).
    rewrite IH by (done || lia). lia.
Qed.

Lemma NoDup_fmap_filter {X Y} (f : X -> Y) (P : X -> Prop) `{forall x, Decision (P x)} (l : list X) :
  (forall i j x y, l !! i = Some x -> l !! j = Some y -> P x -> P y -> f x = f y -> i = j) -> NoDup (f <$> filter P l).
Proof.
  induction l as [|x l IH]; intros Hinj; [constructor|]. rewrite filter_cons.
  assert (IH' : NoDup (f <$> filter P l)).
  { apply IH. intros i j a b Ea Eb Pa Pb Hf. assert (S i = S j); [|lia]. by apply (Hinj (S i) (S j) a b). }
  destruct (decide (P x)) as [Px|]; [|done]. cbn. constructor; [|done]. intros Hin.
  apply list_elem_of_fmap in Hin as (y & Hf & Hy). apply list_elem_of_filter in Hy as [Py Hy].
  apply list_elem_of_lookup in Hy as [j Ey]. by specialize (Hinj 0%nat (S j) x y eq_refl Ey Px Py Hf).
Qed.

Lemma filter_snd {X Y} (P : Y -> Prop) `{forall y, Decision (P y)} (l : list (X * Y)) :
  length (filter (fun x => P x.2) l) = length (filter P l.*2).
Proof. induction l as [|x l IH]; [done|]. cbn [fmap list_fmap]. rewrite !filter_cons. destruct (decide (P x.2)); cbn; by rewrite IH. Qed.

Lemma claims_bound st pcs : round_inv st pcs -> (length (filter (fun pc => pc = C_done 1) pcs) <= n)%nat.
Proof.
  intros Hi. assert (Hz : (zip calls pcs).*2 = pcs) by (apply snd_zip; by rewrite (ri_length _ _ Hi)).
  rewrite <- Hz, <- (filter_snd (fun pc => pc = C_done 1)), <- (length_fmap (fun x => x.1.2)).
  trans (length (seqZ 0 (Z.of_nat n))); [|by rewrite length_seqZ, Nat2Z.id]. apply submseteq_length, NoDup_submseteq.
  - apply NoDup_fmap_filter. intros i j [[si di] pi] [[sj dj] pj] Ei Ej Hpi Hpj Heq. cbn in Hpi, Hpj, Heq. subst dj pi pj.
    apply lookup_zip_with_Some in Ei as (ei & qi & [= <- <-] & Ei1 & Ei2). apply lookup_zip_with_Some in Ej as (ej & qj & [= <- <-] & Ej1 & Ej2).
    eapply (ri_unique _ _ Hi); [done..|by right|by right].
  - intros v Hv. apply list_elem_of_fmap in Hv as ([[s d] q] & -> & Hv). apply list_elem_of_filter in Hv as [_ Hv].
    apply elem_of_zip_l in Hv. cbn. destruct (calls_ok _ _ Hv) as [_ ?]. apply elem_of_seqZ. lia.
Qed.

(** A round under any schedule: exactly the free targets get a parent, one of
    the sources that have an edge to them, and are marked and counted. *)
Lemma round_run sched b : wf b -> words_ok b -> size b = Z.of_nat n -> (forall v, ~ has b v) ->
  exists st cnt, run_round calls sched (Search p0 b) = Some (st, cnt) /\
    length (parent st) = n /\ wf (active_out st) /\ words_ok (active_out st) /\ size (active_out st) = Z.of_nat n /\
    (forall v, has (active_out st) v <-> p0 !! Z.to_nat v = Some INVALID_VID /\ exists src, (src, v) ∈ calls) /\
    (forall v, 0 <= v < Z.of_nat n -> ~ has (active_out st) v -> parent st !! Z.to_nat v = p0 !! Z.to_nat v) /\
    (forall v, has (active_out st) v -> exists src, (src, v) ∈ calls /\ parent st !! Z.to_nat v = Some src) /\
    (cnt = 0 <-> forall v, ~ has (active_out st) v).
Proof.
  intros Hw Hwo Hs Hb. pose proof (round_start b Hw Hwo Hs Hb) as H0. unfold run_round.
  destruct (run_all_inv (step_at calls) steps_left step_at_left round_inv step_at_inv sched _ _ H0) as (st & pcs & E & Hi & _ & Hret0).
  rewrite E. cbn [mbind option_bind]. clear E.
  assert (Hdone : forall i pc, pcs !! i = Some pc -> exists r, pc = C_done r).
  { intros i pc Ep. apply list_elem_of_lookup_2, Hret0 in Ep. destruct pc as [| | |r]; [done..|by exists r]. }
  assert (Hret : forall i src dst, calls !! i = Some (src, dst) -> pcs !! i = Some (C_done 1) \/
    pcs !! i = Some (C_done 0) /\ parent st !! Z.to_nat dst <> Some INVALID_VID).
  { intros i src dst Ec. destruct (lookup_lt_is_Some_2 pcs i) as [pc Ep]; [rewrite (ri_length _ _ Hi); by eapply lookup_lt_Some|].
    destruct (Hdone i pc Ep) as [r ->]. destruct (ri_lost _ _ Hi _ _ _ _ Ec Ep) as [->|[-> ?]]; auto. }
  assert (Hmark : forall v, has (active_out st) v -> exists src, (src, v) ∈ calls /\ parent st !! Z.to_nat v = Some src /\
    p0 !! Z.to_nat v = Some INVALID_VID).
  { intros v Hv. apply (ri_marked _ _ Hi) in Hv as (i & src & Ec & Ep). exists src.
    split; [by eapply list_elem_of_lookup_2|]. eapply (ri_claimed _ _ Hi); [done..|by right]. }
  eexists st, _. split; [done|]. split; [by eapply ri_parents|]. destruct (ri_bits _ _ Hi) as (H1 & H2 & H3).
  do 3 (split; [done|]). split; [|split; [|split]].
  - intros v. split; [intros Hv; destruct (Hmark v Hv) as (src & ? & ? & ?); eauto|]. intros [Hp (src & Hin)].
    apply list_elem_of_lookup in Hin as [i Ec]. apply (ri_marked _ _ Hi).
    destruct (Hret i src v Ec) as [Ep|[_ Hne]]; [by exists i, src|]. destruct (call_range _ _ _ Ec) as [_ Hv].
    destruct (ri_parent _ _ Hi v Hv) as [Heq|(j & s & q & Ej & Eq & Hq)]; [congruence|].
    destruct (Hdone j q Eq) as [r ->]. destruct Hq as [?|[= ->]]; [done|]. by exists j, s.
  - intros v Hv Hn. destruct (ri_parent _ _ Hi v Hv) as [?|(j & s & q & Ej & Eq & Hq)]; [done|]. destruct Hn.
    destruct (Hdone j q Eq) as [r ->]. destruct Hq as [?|[= ->]]; [done|]. apply (ri_marked _ _ Hi). by exists j, s.
  - intros v Hv. destruct (Hmark v Hv) as (src & ? & ? & _). by exists src.
  - rewrite sum_results; [|intros pc Hpc|done|].
    + split.
      * intros Hz v Hv. apply (ri_marked _ _ Hi) in Hv as (i & src & _ & Ep). assert (Hnil : filter (fun pc => pc = C_done 1) pcs = [])
          by (apply nil_length_inv; lia). apply list_elem_of_lookup_2 in Ep.
        assert (Hx : C_done 1 ∈ filter (fun pc => pc = C_done 1) pcs) by (by apply list_elem_of_filter).
        rewrite Hnil in Hx. by apply elem_of_nil in Hx.
      * intros Hn. destruct (filter (fun pc => pc = C_done 1) pcs) as [|pc l] eqn:Ef; [done|]. exfalso.
        assert (Hx : pc ∈ filter (fun pc => pc = C_done 1) pcs) by (rewrite Ef; left).
        apply list_elem_of_filter in Hx as [-> Hx]. apply list_elem_of_lookup in Hx as [i Ep].
        destruct (lookup_lt_is_Some_2 calls i) as [[src dst] Ec]; [rewrite <- (ri_length _ _ Hi); by eapply lookup_lt_Some|].
        apply (Hn dst), (ri_marked _ _ Hi). by exists i, src.
    + apply list_elem_of_lookup in Hpc as [i Ep].
      destruct (lookup_lt_is_Some_2 calls i) as [[src dst] Ec]; [rewrite <- (ri_length _ _ Hi); by eapply lookup_lt_Some|].
      destruct (Hret i src dst Ec) as [?|[? _]]; [right|left]; congruence.
    + pose proof (claims_bound _ _ Hi). unfold INVALID_VID in n_ok. lia.
Qed.

End Round.

(** ** The whole search *)

Section Search.
Context {D : Type} `{!NeighborReader D} `{!EdgeScanner D}.
Variables (d0 : D) (s : Z).
Hypothesis d0_closed : closed d0.
Hypothesis s_vertex : vertex d0 s.
Hypothesis count_ok : Z.of_nat (vertices d0) < INVALID_VID.

Definition bits_ok (b : bit_map_t) : Prop := wf b /\ words_ok b /\ size b = Z.of_nat (vertices d0).

Lemma rounds_run fuel : forall round sched d active_in active parent cnt k,
  level_inv d0 s k parent (has active) -> bits_ok active -> bits_ok active_in -> (cnt = 0 <-> forall v, ~ has active v) ->
  scannable d -> same_graph d0 d -> (vertices d0 <= k + fuel)%nat ->
  exists parent' d' k' active', rounds fuel round sched d active_in active parent cnt = Some (parent', d') /\
    same_graph d0 d' /\ level_inv d0 s k' parent' (has active') /\ forall v, ~ has active' v.
Proof.
  induction fuel as [|fuel IH]; intros round sched d active_in active parent cnt k Hi Hbo Hbi Hcnt Hsc Hg Hf; cbn [rounds].
  all: destruct (Z.eqb_spec cnt 0) as [Hz|Hne]; [exists parent, d, k, active; do 3 (split; [done|]); by apply Hcnt|].
  { destruct Hne. apply Hcnt. intros v Hv. apply (li_active _ _ _ _ _ Hi), distance_bound in Hv. lia. }
  destruct Hbo as (Ha1 & Ha2 & Ha3), Hbi as (Hi1 & Hi2 & Hi3).
  destruct (edge_scan_spec d active) as (calls & d1 & E & Hsc1 & Hg1 & Hcalls); [done|done|done|by rewrite (proj1 Hg)|].
  rewrite E. cbn [mbind option_bind]. destruct (clear_spec active_in Hi1) as (Hc1 & Hc2 & Hc3).
  assert (Hedge : forall u v, (u, v) ∈ calls <-> has active u /\ edge d0 u v).
  { intros u v. rewrite Hcalls, (proj2 Hg). split.
    - intros [Hu (l & El & Hl)]. assert (Hvu : vertex d0 u) by (by eapply active_vertex). split; [done|]. split; [done|].
      split; [by apply (d0_closed u l v)|by exists l].
    - intros [Hu (_ & _ & l)]. done. }
  destruct (round_run (vertices d0) calls parent count_ok) with (sched := sched round) (b := clear active_in)
    as (st & cnt' & E2 & H1 & H2 & H3 & H4 & H5 & H6 & H7 & H8); [|by eapply li_length|done|by apply words_ok_clear|congruence|done|].
  { intros src dst Hin. apply Hedge in Hin as [_ (Hs & Hd & _)]. done. }
  rewrite E2. cbn [mbind option_bind].
  apply (IH (S round) sched d1 active (active_out st) (ParallelBfs.parent st) cnt' (S k)); [|done..|by trans d|lia].
  eapply (level_step d0 s s_vertex count_ok k parent (has active)); [done|done|apply _| |done|].
  - intros v. rewrite H5. by setoid_rewrite Hedge.
  - intros v Hv. destruct (H7 v Hv) as (u & Hu & Hp). exists u. apply Hedge in Hu as [? ?]. done.
Qed.

(** Under every schedule the search returns, with the distances. *)
Lemma parallel_bfs_run raw_in raw_out sched fuel : scannable d0 ->
  Forall (fun w => 0 <= w < 2 ^ 64) raw_in -> Forall (fun w => 0 <= w < 2 ^ 64) raw_out -> (vertices d0 <= fuel)%nat ->
  exists res d', parallel_bfs raw_in raw_out sched fuel d0 s = Some (res, d') /\ same_graph d0 d' /\ NoDup res.*1 /\
    forall v x, (v, x) ∈ res <-> exists j, x = Z.of_nat j /\ distance d0 s v j.
Proof.
  intros Hsc Hri Hro Hf. unfold parallel_bfs. pose proof s_vertex as Hsv. unfold vertex in Hsv.
  set (n := Z.of_nat (vertices d0)). assert (Hn0 : 0 <= n) by lia.
  destruct (clear_spec (init raw_out n) (wf_init raw_out n Hn0)) as (Hw' & Hs' & Hempty).
  destruct (set_bit_spec (clear (init raw_out n)) s Hw') as (b & E & Hb1 & Hb2 & Hb3); [rewrite Hs'; cbn; lia|].
  rewrite E. cbn [mbind option_bind]. rewrite (proj2 (Z.leb_le _ _)), (proj2 (Z.ltb_lt _ _)) by lia. cbn [andb].
  assert (Hb : forall v, has b v <-> v = s) by (intros v; rewrite Hb3; split; [intros [Hv| ->]; [by destruct (Hempty v)|done]|by right]).
  destruct (rounds_run fuel 0 sched d0 (init raw_in n) b _ 1 0 (level_init d0 s s_vertex count_ok _ Hb))
    as (parent' & d' & k & active' & E2 & Hg & Hi' & Hnone); [| | |done|done|lia|].
  { split; [done|]. split; [|by rewrite Hb2, Hs']. eapply words_ok_set; [|done]. by apply words_ok_clear, words_ok_init. }
  { split; [by apply wf_init|]. split; [by apply words_ok_init|done]. }
  { split; [done|]. intros Hx. destruct (Hx s). by apply Hb. }
  rewrite E2. cbn [mbind option_bind]. rewrite (proj1 Hg). fold n.
  destruct (results_run d0 s s_vertex count_ok k parent' _ fuel Hi' Hnone Hf (seqZ 0 n)) as (res & -> & H1 & _ & H3).
  { intros v Hv. apply elem_of_seqZ in Hv. unfold vertex. lia. }
  { apply NoDup_seqZ. }
  cbn [mbind option_bind]. exists res, d'. split; [done|]. split; [done|]. split; [done|]. intros v x. rewrite H3.
  split; [tauto|]. intros Hx. split; [|done]. destruct Hx as (j & _ & [Hw _]). apply walk_vertex in Hw as [_ [? ?]].
  apply elem_of_seqZ. lia.
Qed.

End Search.

(** C16: the parallel breadth-first search over edge scans returns the same
    vertices with the same levels as the plain search, up to order, under every
    interleaving of the steps (test, compare-and-swap, bit set) of a round's
    callbacks and whatever the bitmaps' memory held before. *)
Theorem parallel_bfs_agrees {D : Type} `{!NeighborReader D} `{!EdgeScanner D} (d : D) (s : Z) (raw_in raw_out : list Z)
    (sched : nat -> list nat) (fuel : nat) :
  readable d -> closed d -> vertex d s -> Z.of_nat (vertices d) < INVALID_VID -> scannable d ->
  Forall (fun w => 0 <= w < 2 ^ 64) raw_in -> Forall (fun w => 0 <= w < 2 ^ 64) raw_out -> (vertices d <= fuel)%nat ->
  exists order d1 res d2, Bfs.bfs fuel d s = Some (order, d1) /\
    parallel_bfs raw_in raw_out sched fuel d s = Some (res, d2) /\ res ≡ₚ order /\ same_graph d d2.
Proof.
  intros Hr Hc Hv Hn Hsc Hi Ho Hf.
  destruct (Bfs.bfs_run d s fuel Hr Hv) as (order & d1 & E1 & _ & Hnd1 & Hd1 & _); [unfold INVALID_VID in Hn; lia|done|].
  destruct (parallel_bfs_run d s Hc Hv Hn raw_in raw_out sched fuel Hsc Hi Ho Hf) as (res & d2 & E2 & Hg & Hnd2 & Hd2).
  exists order, d1, res, d2. split; [done|]. split; [done|]. split; [by apply (Bfs.distances_permutation d s)|done].
Qed.

End ParallelBfs.
