(* ===== verification/Wcc.v ===== *)
(** * Components by repeated search ([bw_graph_db_t::wcc])

    From every vertex not yet labelled, in ascending order, a search along the
    edges labels what it reaches and was not labelled before.  A vertex is so
    labelled by the least vertex that reaches it; on a graph whose edges are
    stored in both directions the labels are the connected components. *)

From S2P Require Import Prelude GraphRead.

Local Open Scope Z_scope.

Module Wcc.
Import GraphRead.

Section Wcc.
Context {D : Type} `{!NeighborReader D}.

Definition UINT32_MAX : Z := 4294967295.

(** [neighbor < vertex_count && component_id[neighbor] == UINT32_MAX]. *)
Definition unlabelled (component_id : list Z) (neighbor : Z) : bool :=
  (0 <=? neighbor) && (neighbor <? Z.of_nat (length component_id)) &&
  bool_decide (component_id !! Z.to_nat neighbor = Some UINT32_MAX).

(** The loop over the neighbours. *)
Fixpoint spread (current_component : Z) (ns : list Z) (component_id to_visit : list Z) : list Z * list Z :=
  match ns with
  | [] => (component_id, to_visit)
  | n :: ns =>
    if unlabelled component_id n
    then spread current_component ns (<[Z.to_nat n := current_component]> component_id) (to_visit ++ [n])
    else spread current_component ns component_id to_visit
  end.

(** The search of one component. *)
Fixpoint component_loop (fuel : nat) (current_component : Z) (d : D) (component_id to_visit : list Z) :
    option (list Z * D) :=
  match to_visit with
  | [] => Some (component_id, d)
  | current_vertex :: rest =>
    match fuel with
    | O => None
    | S fuel =>
      '(neighbors, d) ← read d current_vertex;
      let '(component_id, to_visit) := spread current_component neighbors component_id rest in
      component_loop fuel current_component d component_id to_visit
    end
  end.

(** The loop over the start vertices. *)
Fixpoint wcc_loop (fuel : nat) (starts : list Z) (current_component : Z) (component_id : list Z) (d : D) :
    option (list Z * D) :=
  match starts with
  | [] => Some (component_id, d)
  | start_vertex :: starts =>
    if bool_decide (component_id !! Z.to_nat start_vertex = Some UINT32_MAX) then
      '(component_id, d) ← component_loop fuel current_component d
                             (<[Z.to_nat start_vertex := current_component]> component_id) [start_vertex];
      wcc_loop fuel starts (u32 (current_component + 1)) component_id d
    else wcc_loop fuel starts current_component component_id d
  end.

Definition wcc (fuel : nat) (d : D) : option (list (Z * Z) * D) :=
  let vertex_ids := seqZ 0 (Z.of_nat (vertices d)) in
  '(component_id, d) ← wcc_loop fuel vertex_ids 0 (replicate (vertices d) UINT32_MAX) d;
  Some (zip vertex_ids component_id, d).

(** ** One vertex's neighbours *)

(** [l] labels [v] with [c]. *)
Definition label (l : list Z) (v c : Z) : Prop := 0 <= v /\ l !! Z.to_nat v = Some c /\ c <> UINT32_MAX.

Definition labelled (l : list Z) (v : Z) : Prop := exists c, label l v c.

Lemma label_fun l v a b : label l v a -> label l v b -> a = b.
Proof. intros (_ & H1 & _) (_ & H2 & _). congruence. Qed.

Lemma unlabelled_spec l v : unlabelled l v = true <-> 0 <= v < Z.of_nat (length l) /\ ~ labelled l v.
Proof.
  unfold unlabelled. rewrite !andb_true_iff, Z.leb_le, Z.ltb_lt, bool_decide_eq_true. split.
  - intros [[H1 H2] H3]. split; [done|]. intros (c & _ & E & Hc). congruence.
  - intros [[H1 H2] H3]. split; [done|]. destruct (lookup_lt_is_Some_2 l (Z.to_nat v)) as [c E]; [lia|].
    destruct (decide (c = UINT32_MAX)) as [->|Hc]; [done|]. exfalso. apply H3. by exists c.
Qed.

Lemma label_insert l v c : 0 <= v < Z.of_nat (length l) -> c <> UINT32_MAX -> ~ labelled l v ->
  forall w a, label (<[Z.to_nat v := c]> l) w a <-> label l w a \/ w = v /\ a = c.
Proof.
  intros Hv Hc Hn w a. unfold label. destruct (decide (w = v)) as [->|Hne].
  - rewrite list_lookup_insert_eq by lia. split; [intros (_ & [= ->] & _); auto|].
    intros [H|[_ ->]]; [|split; [lia|done]]. destruct Hn. by exists a.
  - destruct (decide (0 <= w)) as [Hw|Hw]; [|naive_solver]. rewrite list_lookup_insert_ne by lia. naive_solver.
Qed.

Lemma spread_spec c ns : c <> UINT32_MAX -> forall l q l' q', spread c ns l q = (l', q') ->
  exists new, q' = q ++ new /\ NoDup new /\ length l' = length l /\
    (forall v a, label l' v a <-> label l v a \/ v ∈ new /\ a = c) /\
    (forall v, v ∈ new -> v ∈ ns /\ 0 <= v < Z.of_nat (length l) /\ ~ labelled l v) /\
    (forall v, v ∈ ns -> 0 <= v < Z.of_nat (length l) -> labelled l' v).
Proof.
  intros Hc. induction ns as [|n ns IH]; intros l q l' q'; cbn [spread].
  { intros [= <- <-]. exists []. rewrite app_nil_r. do 3 (split; [done || constructor|]).
    split; [intros v a; rewrite elem_of_nil; tauto|]. split; intros v Hv; by apply elem_of_nil in Hv. }
  destruct (unlabelled l n) eqn:Eu.
  - apply unlabelled_spec in Eu as [Hn Hnl]. pose proof (label_insert l n c Hn Hc Hnl) as Hi.
    intros E. apply IH in E as (new & -> & Hnd & Hlen & Hl & Hnew & Hall). rewrite length_insert in Hlen, Hnew, Hall.
    assert (Hnn : n ∉ new) by (intros Hin; destruct (Hnew n Hin) as (_ & _ & Hx); apply Hx; exists c; apply Hi; auto).
    exists (n :: new). rewrite <- app_assoc. split; [done|]. split; [by constructor|]. split; [done|].
    split; [|split].
    + intros v a. rewrite Hl, Hi, elem_of_cons. tauto.
    + intros v Hv. apply elem_of_cons in Hv as [->|Hv]; [split; [left|done]|].
      destruct (Hnew v Hv) as (? & ? & Hx). split; [by right|]. split; [done|]. intros [a Ha]. apply Hx. exists a. apply Hi; auto.
    + intros v Hv Hr. apply elem_of_cons in Hv as [->|Hv]; [|auto]. exists c. apply Hl. left. apply Hi; auto.
  - intros E. apply IH in E as (new & -> & Hnd & Hlen & Hl & Hnew & Hall). exists new.
    do 3 (split; [done|]). split; [done|]. split.
    + intros v Hv. destruct (Hnew v Hv) as (? & ?). split; [by right|done].
    + intros v Hv Hr. apply elem_of_cons in Hv as [->|Hv]; [|auto].
      destruct (unlabelled l n) eqn:E'; [done|]. destruct (decide (l !! Z.to_nat n = Some UINT32_MAX)) as [Hx|Hx].
      { exfalso. unfold unlabelled in E'. rewrite (proj2 (Z.leb_le _ _)), (proj2 (Z.ltb_lt _ _)) in E' by lia.
        by rewrite bool_decide_true in E'. }
      destruct (lookup_lt_is_Some_2 l (Z.to_nat n)) as [a Ea]; [lia|]. exists a. apply Hl. left. split; [lia|].
      split; [done|]. congruence.
Qed.

(** ** One component *)

Section Component.
Variables (d : D) (old : list Z) (c s : Z).
Hypothesis c_ok : c <> UINT32_MAX.

(** [dn]: the vertices already expanded; [todo]: the queue. *)
Record component_inv (l todo dn : list Z) : Prop := {
  ci_length : length l = vertices d;
  ci_start : s ∈ dn ++ todo;
  ci_nodup : NoDup (dn ++ todo);
  ci_label : forall v a, label l v a <-> label old v a \/ v ∈ dn ++ todo /\ a = c;
  ci_new : forall v, v ∈ dn ++ todo -> ~ labelled old v /\ reaches d s v;
  ci_closed : forall u v, u ∈ dn -> edge d u v -> labelled l v
}.

Lemma component_vertex l todo dn v : component_inv l todo dn -> v ∈ dn ++ todo -> vertex d v.
Proof. intros Hi Hv. destruct (ci_new _ _ _ Hi v Hv) as [_ [k Hw]]. by apply walk_vertex in Hw as [_ ?]. Qed.

Lemma component_bound l todo dn : component_inv l todo dn -> (length (dn ++ todo) <= vertices d)%nat.
Proof.
  intros Hi. apply vertices_bound; [by eapply ci_nodup|]. intros v. by eapply component_vertex.
Qed.

Lemma component_step l u todo dn ns l' q' : component_inv l (u :: todo) dn -> adj d u = Some ns ->
  spread c ns l todo = (l', q') -> component_inv l' q' (dn ++ [u]).
Proof.
  intros Hi Ha E. apply spread_spec in E as (new & -> & Hnd & Hlen & Hl & Hnew & Hall); [|done].
  rewrite (ci_length _ _ _ Hi) in Hlen, Hnew, Hall.
  assert (Hcat : (dn ++ [u]) ++ todo ++ new = (dn ++ u :: todo) ++ new) by (by rewrite <- !app_assoc).
  assert (Hu : u ∈ dn ++ u :: todo) by (apply elem_of_app; right; left).
  assert (Hvu : vertex d u) by (by eapply component_vertex).
  split; rewrite ?Hcat.
  - done.
  - apply elem_of_app. left. by eapply ci_start.
  - apply NoDup_app. split; [by eapply ci_nodup|]. split; [|done]. intros v Hv Hn.
    destruct (Hnew v Hn) as (_ & _ & Hx). apply Hx. exists c. apply (ci_label _ _ _ Hi). auto.
  - intros v a. rewrite Hl, (ci_label _ _ _ Hi), (elem_of_app _ new). tauto.
  - intros v Hv. apply elem_of_app in Hv as [Hv|Hv]; [by eapply ci_new|]. destruct (Hnew v Hv) as (Hin & Hr & Hx). split.
    + intros [a Hla]. apply Hx. exists a. apply (ci_label _ _ _ Hi). auto.
    + destruct (ci_new _ _ _ Hi u Hu) as [_ Hsu]. eapply reaches_trans; [done|]. apply reaches_edge.
      split; [done|]. split; [done|]. by exists ns.
  - intros a v Ha' He. apply elem_of_app in Ha' as [Ha'|Ha'].
    + destruct (ci_closed _ _ _ Hi a v Ha' He) as [b Hb]. exists b. apply Hl. auto.
    + apply list_elem_of_singleton in Ha' as ->. destruct He as (_ & Hv & m & Hm & Hin). apply Hall; [congruence|done].
Qed.

Lemma component_loop_run : readable d -> forall fuel db l todo dn, component_inv l todo dn -> same_graph d db ->
  (vertices d <= length dn + fuel)%nat ->
  exists l' db' dn', component_loop fuel c db l todo = Some (l', db') /\ component_inv l' [] dn' /\ same_graph d db'.
Proof.
  intros Hr fuel. induction fuel as [|fuel IH]; intros db l todo dn Hi Hg Hf.
  all: pose proof (component_bound _ _ _ Hi) as Hb; rewrite length_app in Hb.
  all: destruct todo as [|u todo]; [by exists l, db, dn|].
  { cbn in Hb. lia. }
  destruct (Hr u) as [ns Hns]; [apply (component_vertex _ _ _ _ Hi), elem_of_app; right; left|].
  destruct (read_run db u ns) as (db1 & Hread & Hg1); [by rewrite (proj2 Hg)|].
  cbn [component_loop]. rewrite Hread. cbn [mbind option_bind]. destruct (spread c ns l todo) as [l1 q1] eqn:E.
  apply (IH db1 l1 q1 (dn ++ [u])); [by eapply component_step|by trans db|]. rewrite length_app. cbn. lia.
Qed.

(** A search labels what its start reaches and was unlabelled. *)
Lemma component_done l dn : component_inv l [] dn -> (forall u v, labelled old u -> edge d u v -> labelled old v) ->
  forall v a, label l v a <-> label old v a \/ ~ labelled old v /\ reaches d s v /\ a = c.
Proof.
  intros Hi Hcl v a. rewrite (ci_label _ _ _ Hi), app_nil_r. split.
  - intros [?|[Hv ->]]; [by left|right]. destruct (ci_new _ _ _ Hi v) as [? ?]; [by rewrite app_nil_r|done].
  - intros [?|(Hn & [k Hw] & ->)]; [by left|right]. split; [|done].
    induction Hw as [Hs|k u v Hw IH He]; [pose proof (ci_start _ _ _ Hi) as Hx; by rewrite app_nil_r in Hx|].
    assert (Hu : u ∈ dn).
    { apply IH. intros Hu. by apply Hn, (Hcl u). }
    destruct (ci_closed _ _ _ Hi u v Hu He) as [b Hb]. apply (ci_label _ _ _ Hi) in Hb as [Hb|[Hb _]].
    + destruct Hn. by exists b.
    + by rewrite app_nil_r in Hb.
Qed.

End Component.

(** ** All components *)

(** [r] is the least vertex that reaches [v]. *)
Definition leader (d : D) (v r : Z) : Prop := reaches d r v /\ forall u, reaches d u v -> r <= u.

Lemma leader_fun d v a b : leader d v a -> leader d v b -> a = b.
Proof. intros [H1 H2] [H3 H4]. specialize (H2 _ H3). specialize (H4 _ H1). lia. Qed.

Section Components.
Variable d : D.

(** [l] after the starts below [i], [n] components having been found. *)
Record wcc_inv (i n : Z) (l : list Z) : Prop := {
  wi_length : length l = vertices d;
  wi_labelled : forall v, vertex d v -> labelled l v <-> exists u, reaches d u v /\ u < i;
  wi_leader : forall v c, label l v c -> 0 <= c < n /\ exists r, leader d v r /\ r < i;
  wi_order : forall v w cv cw rv rw, label l v cv -> label l w cw -> leader d v rv -> leader d w rw ->
    (cv < cw <-> rv < rw);
  wi_count : 0 <= n <= i
}.

Lemma wcc_inv_closed i n l : wcc_inv i n l -> forall u v, labelled l u -> edge d u v -> labelled l v.
Proof.
  intros Hi u v Hu He. pose proof He as (Hvu & Hvv & _). apply (wi_labelled _ _ _ Hi) in Hu as (w & Hw & Hlt); [|done].
  apply (wi_labelled _ _ _ Hi); [done|]. exists w. split; [|done]. eapply reaches_trans; [done|]. by apply reaches_edge.
Qed.

Lemma wcc_inv_init : wcc_inv 0 0 (replicate (vertices d) UINT32_MAX).
Proof.
  assert (Hn : forall v c, ~ label (replicate (vertices d) UINT32_MAX) v c).
  { intros v c (_ & E & Hc). by apply lookup_replicate in E as [-> _]. }
  split; [by rewrite length_replicate| | | |done].
  - intros v _. split; [intros [c Hc]; by destruct (Hn v c)|]. intros (u & [k Hw] & Hu).
    apply walk_vertex in Hw as [[? _] _]. lia.
  - intros v c Hc. by destruct (Hn v c).
  - intros v w cv cw rv rw Hc. by destruct (Hn v cv).
Qed.

(** A start that is already labelled reaches nothing new. *)
Lemma wcc_inv_skip i n l : wcc_inv i n l -> vertex d i -> labelled l i -> wcc_inv (i + 1) n l.
Proof.
  intros Hi Hv Hl. split; [by eapply wi_length| | |by eapply wi_order|pose proof (wi_count _ _ _ Hi); lia].
  - intros v Hvv. rewrite (wi_labelled _ _ _ Hi) by done. split; intros (u & Hr & Hu); [exists u; split; [done|lia]|].
    destruct (decide (u = i)) as [->|]; [|exists u; split; [done|lia]].
    apply (wi_labelled _ _ _ Hi) in Hl as (w & Hw & Hlt); [|done]. exists w. split; [by eapply reaches_trans|done].
  - intros v c Hc. destruct (wi_leader _ _ _ Hi v c Hc) as (? & r & ? & ?). split; [done|]. exists r. split; [done|lia].
Qed.

(** A start that is not labelled leads what it is the first to reach. *)
Lemma wcc_inv_found i n l l' : wcc_inv i n l -> vertex d i -> ~ labelled l i -> length l' = vertices d ->
  (forall v a, label l' v a <-> label l v a \/ ~ labelled l v /\ reaches d i v /\ a = n) ->
  wcc_inv (i + 1) (n + 1) l'.
Proof.
  intros Hi Hv Hn Hlen Hl. pose proof (wi_count _ _ _ Hi) as Hc.
  assert (Hnl : forall v, reaches d i v -> ~ labelled l v -> leader d v i).
  { intros v Hr Hx. split; [done|]. intros u Hu. destruct (decide (i <= u)) as [|Hlt]; [done|]. exfalso. apply Hx.
    destruct Hu as [k Hw]. apply (wi_labelled _ _ _ Hi); [by apply walk_vertex in Hw as [_ ?]|].
    exists u. split; [by exists k|lia]. }
  split; [done| | | |lia].
  - intros v Hvv. split.
    + intros [a Ha]. apply Hl in Ha as [Ha|(_ & Hr & _)]; [|exists i; split; [done|lia]].
      destruct (proj1 (wi_labelled _ _ _ Hi v Hvv)) as (u & ? & ?); [by exists a|]. exists u. split; [done|lia].
    + intros (u & Hr & Hu). destruct (decide (unlabelled l v = true)) as [E|E].
      * apply unlabelled_spec in E as [_ E]. exists n. apply Hl. right. split; [done|]. split; [|done].
        destruct (decide (u = i)) as [->|]; [done|]. destruct E. apply (wi_labelled _ _ _ Hi); [done|].
        exists u. split; [done|lia].
      * rewrite unlabelled_spec in E. destruct Hvv as [H1 H2].
        destruct (lookup_lt_is_Some_2 l (Z.to_nat v)) as [a Ea]; [rewrite (wi_length _ _ _ Hi); lia|].
        destruct (decide (a = UINT32_MAX)) as [->|Hne]; [|exists a; apply Hl; left; done].
        exfalso. apply E. rewrite (wi_length _ _ _ Hi). split; [done|]. intros (b & _ & Eb & Hb). congruence.
  - intros v a Ha. apply Hl in Ha as [Ha|(Hx & Hr & ->)].
    + destruct (wi_leader _ _ _ Hi v a Ha) as (? & r & ? & ?). split; [lia|]. exists r. split; [done|lia].
    + split; [lia|]. exists i. split; [by apply Hnl|lia].
  - intros v w cv cw rv rw Hcv Hcw Hrv Hrw. apply Hl in Hcv as [Hcv|(Hxv & Hiv & ->)], Hcw as [Hcw|(Hxw & Hiw & ->)].
    + by eapply wi_order.
    + rewrite (leader_fun _ _ _ _ Hrw (Hnl w Hiw Hxw)). destruct (wi_leader _ _ _ Hi v cv Hcv) as (? & r & Hr & ?).
      rewrite (leader_fun _ _ _ _ Hrv Hr). lia.
    + rewrite (leader_fun _ _ _ _ Hrv (Hnl v Hiv Hxv)). destruct (wi_leader _ _ _ Hi w cw Hcw) as (? & r & Hr & ?).
      rewrite (leader_fun _ _ _ _ Hrw Hr). lia.
    + rewrite (leader_fun _ _ _ _ Hrv (Hnl v Hiv Hxv)), (leader_fun _ _ _ _ Hrw (Hnl w Hiw Hxw)). lia.
Qed.

Lemma wcc_loop_run fuel : readable d -> Z.of_nat (vertices d) < UINT32_MAX -> (vertices d <= fuel)%nat ->
  forall m i n l db, wcc_inv i n l -> 0 <= i -> i + Z.of_nat m = Z.of_nat (vertices d) -> same_graph d db ->
  exists l' n' db', wcc_loop fuel (seqZ i (Z.of_nat m)) n l db = Some (l', db') /\
    wcc_inv (Z.of_nat (vertices d)) n' l' /\ same_graph d db'.
Proof.
  intros Hr Hmax Hf m. induction m as [|m IH]; intros i n l db Hi H0 Him Hg.
  { exists l, n, db. by replace (Z.of_nat (vertices d)) with i by lia. }
  rewrite seqZ_cons by lia. replace (Z.pred (Z.of_nat (S m))) with (Z.of_nat m) by lia.
  assert (Hv : vertex d i) by (split; lia). pose proof (wi_count _ _ _ Hi) as Hc. pose proof (wi_length _ _ _ Hi) as Hlen.
  assert (Hrange : 0 <= i < Z.of_nat (length l)) by (rewrite Hlen; exact Hv).
  assert (Hn : n <> UINT32_MAX) by lia.
  change (Z.succ i) with (i + 1). cbn [wcc_loop]. case_bool_decide as E.
  - assert (Hx : ~ labelled l i) by (intros (a & _ & Ea & Ha); congruence).
    destruct (component_loop_run d l n i Hn Hr fuel db (<[Z.to_nat i := n]> l) [i] []) as (l' & db' & dn & -> & Hci & Hg').
    { split; cbn [app].
      - by rewrite length_insert.
      - left.
      - apply NoDup_singleton.
      - intros v a. rewrite label_insert by done. by rewrite list_elem_of_singleton.
      - intros v ->%list_elem_of_singleton. split; [done|]. by apply reaches_refl.
      - intros u v Hu. by apply elem_of_nil in Hu. }
    { done. }
    { cbn. lia. }
    cbn [mbind option_bind]. rewrite wrap_small by (unfold UINT32_MAX in *; solve_width).
    apply IH; [|lia|lia|done]. eapply wcc_inv_found; [done..| |].
    + by eapply ci_length.
    + eapply component_done; [done|]. by eapply wcc_inv_closed.
  - apply IH; [|lia|lia|done]. apply wcc_inv_skip; [done..|]. destruct (lookup_lt_is_Some_2 l (Z.to_nat i)) as [a Ea]; [lia|].
    exists a. split; [done|]. split; [done|]. congruence.
Qed.

End Components.

(** The labels: one per vertex, ordered and told apart by the least vertex
    that reaches it. *)
Lemma wcc_run d fuel : readable d -> Z.of_nat (vertices d) < UINT32_MAX -> (vertices d <= fuel)%nat ->
  exists res d', wcc fuel d = Some (res, d') /\ same_graph d d' /\ res.*1 = seqZ 0 (Z.of_nat (vertices d)) /\
    (forall v c, (v, c) ∈ res -> exists r, leader d v r) /\
    (forall v w cv cw rv rw, (v, cv) ∈ res -> (w, cw) ∈ res -> leader d v rv -> leader d w rw -> (cv < cw <-> rv < rw)).
Proof.
  intros Hr Hmax Hf. unfold wcc.
  destruct (wcc_loop_run d fuel Hr Hmax Hf (vertices d) 0 0 _ d (wcc_inv_init d)) as (l & n & d' & -> & Hi & Hg); [lia|done..|].
  cbn [mbind option_bind]. exists (zip (seqZ 0 (Z.of_nat (vertices d))) l), d'. split; [done|]. split; [done|].
  pose proof (wi_length _ _ _ _ Hi) as Hlen.
  assert (Hlab : forall v c, (v, c) ∈ zip (seqZ 0 (Z.of_nat (vertices d))) l -> label l v c).
  { intros v c Hin. apply list_elem_of_lookup_1 in Hin as [i Hi']. apply lookup_zip_with_Some in Hi' as (v' & c' & [= <- <-] & E1 & E2).
    apply lookup_seqZ in E1 as [-> E1]. rewrite Z.add_0_l. split; [lia|]. rewrite Nat2Z.id. split; [done|]. intros ->.
    assert (Hvi : vertex d (Z.of_nat i)) by (split; lia).
    destruct (proj2 (wi_labelled _ _ _ _ Hi _ Hvi)) as (b & _ & Eb & Hb).
    { exists (Z.of_nat i). split; [by apply reaches_refl|lia]. }
    rewrite Nat2Z.id in Eb. congruence. }
  split; [apply fst_zip; rewrite length_seqZ; lia|]. split.
  - intros v c Hin. destruct (wi_leader _ _ _ _ Hi v c (Hlab v c Hin)) as (_ & r & ? & _). by exists r.
  - intros v w cv cw rv rw Hv Hw. eapply wi_order; eauto.
Qed.

(** On a symmetric graph two vertices have the same label exactly when one
    reaches the other. *)
Lemma wcc_symmetric_run d fuel : readable d -> Z.of_nat (vertices d) < UINT32_MAX -> (vertices d <= fuel)%nat ->
  symmetric d -> exists res d', wcc fuel d = Some (res, d') /\ res.*1 = seqZ 0 (Z.of_nat (vertices d)) /\
    forall v w cv cw, (v, cv) ∈ res -> (w, cw) ∈ res -> (cv = cw <-> reaches d v w).
Proof.
  intros Hr Hmax Hf Hs. destruct (wcc_run d fuel Hr Hmax Hf) as (res & d' & E & _ & Hids & Hlead & Hord).
  exists res, d'. split; [done|]. split; [done|]. intros v w cv cw Hv Hw.
  destruct (Hlead v cv Hv) as [rv Hrv], (Hlead w cw Hw) as [rw Hrw].
  assert (Heq : cv = cw <-> rv = rw).
  { pose proof (Hord v w cv cw rv rw Hv Hw Hrv Hrw). pose proof (Hord w v cw cv rw rv Hw Hv Hrw Hrv). lia. }
  rewrite Heq. split.
  - intros <-. eapply reaches_trans; [apply reaches_sym; [done|apply Hrv]|apply Hrw].
  - intros Hvw. eapply leader_fun; [done|]. split.
    + eapply reaches_trans; [apply Hrw|]. by apply reaches_sym.
    + intros u Hu. apply Hrw. by eapply reaches_trans.
Qed.

End Wcc.

(** C17: component labelling returns one label per vertex; labels order vertices
    as the least vertices that reach them do, and on a symmetric graph two
    vertices have the same label exactly when they are connected. *)
Theorem wcc_components {D : Type} `{!NeighborReader D} (d : D) (fuel : nat) :
  readable d -> Z.of_nat (vertices d) < UINT32_MAX -> (vertices d <= fuel)%nat ->
  exists res d', wcc fuel d = Some (res, d') /\ same_graph d d' /\ res.*1 = seqZ 0 (Z.of_nat (vertices d)) /\
    (forall v c, (v, c) ∈ res -> exists r, leader d v r) /\
    (forall v w cv cw rv rw, (v, cv) ∈ res -> (w, cw) ∈ res -> leader d v rv -> leader d w rw -> (cv < cw <-> rv < rw)) /\
    (symmetric d -> forall v w cv cw, (v, cv) ∈ res -> (w, cw) ∈ res -> (cv = cw <-> reaches d v w)).
Proof.
  intros Hr Hn Hf. destruct (wcc_run d fuel Hr Hn Hf) as (res & d' & E & Hg & H1 & H2 & H3). exists res, d'.
  do 5 (split; [done|]). intros Hs. destruct (wcc_symmetric_run d fuel Hr Hn Hf Hs) as (res' & d2 & E' & _ & H4).
  rewrite E in E'. injection E' as <- <-. exact H4.
Qed.

End Wcc.
