(* ===== verification/ParallelWcc.v ===== *)
(** * Parallel propagation of the least label ([parallel_wcc], [parallel_cdlp])

    Rounds of edge scans whose callback lowers the label of the target to that
    of the source with a loop of compare-and-swaps, and marks the target for
    the next round.  Every read and write of a label is a step, and the steps
    of different calls interleave.  Whatever the schedule, the labels end as
    the least vertices that reach their vertices: [parallel_wcc] gives what the
    sequential search of Wcc.v orders its labels by, and [parallel_cdlp] runs
    the same rounds, a bounded number of times. *)

From S2P Require Import Prelude GraphRead Bitmap EdgeScan Interleave ParallelBfs Wcc.

Local Open Scope Z_scope.

Module ParallelWcc.
Import Bitmap GraphRead Interleave.

Record prop_t := Prop_ { label : list Z; active_out : bit_map_t }.

(** Where a call of the callback is, with the values it has read.  [C_reload]
    follows a failed compare-and-swap; [C_load] is the first read of
    [old_label], after a test that read [b]. *)
Inductive call_pc :=
  | C_start | C_compare (a : Z) | C_load (b : Z) | C_reload (old_label : Z)
  | C_loop (old_label : Z) | C_argument (old_label : Z) | C_swap (old_label new_label : Z)
  | C_won | C_done (result : Z).

#[export] Instance call_pc_eq_dec : EqDecision call_pc.
Proof. solve_decision. Defined.

Definition get (l : list Z) (v : Z) : option Z := l !! Z.to_nat v.

(** One step of the call for the edge [e]; [None]: out of range. *)
Definition step_call (st : prop_t) (e : Z * Z) (pc : call_pc) : option (prop_t * call_pc) :=
  let '(src, dst) := e in
  match pc with
  | C_start => a ← get (label st) src; Some (st, C_compare a)
  | C_compare a => b ← get (label st) dst; Some (st, if a <? b then C_load b else C_done 0)
  | C_load _ => old_label ← get (label st) dst; Some (st, C_loop old_label)
  | C_reload _ => old_label ← get (label st) dst; Some (st, C_loop old_label)
  | C_loop old_label => c ← get (label st) src; Some (st, if c <? old_label then C_argument old_label else C_done 0)
  | C_argument old_label => new_label ← get (label st) src; Some (st, C_swap old_label new_label)
  | C_swap old_label new_label =>
    cur ← get (label st) dst;
    Some (if cur =? old_label
          then (Prop_ (<[Z.to_nat dst := new_label]> (label st)) (active_out st), C_won)
          else (st, C_reload old_label))
  | C_won => b ← set_bit (active_out st) dst; Some (Prop_ (label st) b, C_done 1)
  | C_done r => Some (st, C_done r)
  end.

(** A bound of the steps a call still has to take, for labels below [n]: every
    reload finds a smaller label. *)
Definition steps_left (n : nat) (pc : call_pc) : nat :=
  match pc with
  | C_start => 4 * n + 8
  | C_compare _ => 4 * n + 7
  | C_load b => 4 * Z.to_nat b + 5
  | C_reload o => 4 * Z.to_nat o + 1
  | C_loop o => 4 * Z.to_nat o + 4
  | C_argument o => 4 * Z.to_nat o + 3
  | C_swap o _ => 4 * Z.to_nat o + 2
  | C_won => 1
  | C_done _ => 0
  end.

Definition step_at (calls : list (Z * Z)) (st : prop_t) (i : nat) (pc : call_pc) : option (prop_t * call_pc) :=
  e ← calls !! i; step_call st e pc.

Definition call_result (pc : call_pc) : Z := match pc with C_done r => r | _ => 0 end.

(** A scan: all calls, interleaved; the results are added up in 32 bits. *)
Definition run_round (n : nat) (calls : list (Z * Z)) (sched : list nat) (st : prop_t) : option (prop_t * Z) :=
  '(st, pcs) ← run_all (step_at calls) (steps_left n) sched st (replicate (length calls) C_start);
  Some (st, foldl (fun a pc => u32 (a + call_result pc)) 0 pcs).

Section Algorithms.
Context {D : Type} `{!NeighborReader D} `{!EdgeScanner D}.

(** The body of the loops: swap the bitmaps, clear the new one, scan. *)
Definition propagate (sched : list nat) (d : D) (active_in active_out : bit_map_t) (label : list Z) :
    option (prop_t * Z * bit_map_t * D) :=
  let '(active_in, active_out) := (active_out, clear active_in) in
  '(calls, d) ← edge_scan d active_in;
  '(st, active_vertices) ← run_round (vertices d) calls sched (Prop_ label active_out);
  Some (st, active_vertices, active_in, d).

(** [while (active_vertices != 0)]; [None]: out of fuel. *)
Fixpoint wcc_rounds (fuel round : nat) (sched : nat -> list nat) (d : D) (active_in active_out : bit_map_t)
    (label : list Z) (active_vertices : Z) : option (list Z * D) :=
  if active_vertices =? 0 then Some (label, d)
  else match fuel with
  | O => None
  | S fuel =>
    '(st, active_vertices, active_in, d) ← propagate (sched round) d active_in active_out label;
    wcc_rounds fuel (S round) sched d active_in (ParallelWcc.active_out st) (ParallelWcc.label st) active_vertices
  end.

(** [for (iter = 0; iter < max_iterations; iter++)] with the test at its head. *)
Fixpoint cdlp_rounds (iterations round : nat) (sched : nat -> list nat) (d : D) (active_in active_out : bit_map_t)
    (label : list Z) (active_vertices : Z) : option (list Z * D) :=
  match iterations with
  | O => Some (label, d)
  | S iterations =>
    if active_vertices =? 0 then Some (label, d)
    else
      '(st, active_vertices, active_in, d) ← propagate (sched round) d active_in active_out label;
      cdlp_rounds iterations (S round) sched d active_in (ParallelWcc.active_out st) (ParallelWcc.label st) active_vertices
  end.

Definition labelled (label : list Z) : list (Z * Z) := imap (fun v c => (Z.of_nat v, c)) label.

(** [raw_in] and [raw_out]: what the bitmaps' memory held before. *)
Definition parallel_wcc (raw_in raw_out : list Z) (sched : nat -> list nat) (fuel : nat) (d : D) : option (list (Z * Z) * D) :=
  let n := Z.of_nat (vertices d) in
  '(label, d) ← wcc_rounds fuel 0 sched d (init raw_in n) (Bitmap.fill (init raw_out n)) (seqZ 0 n) (u32 n);
  Some (labelled label, d).

Definition parallel_cdlp (raw_in raw_out : list Z) (sched : nat -> list nat) (max_iterations : nat) (d : D) : option (list (Z * Z) * D) :=
  let n := Z.of_nat (vertices d) in
  '(label, d) ← cdlp_rounds max_iterations 0 sched d (init raw_in n) (Bitmap.fill (init raw_out n)) (seqZ 0 n) (u32 n);
  Some (labelled label, d).

End Algorithms.

(** ** One round, under any schedule *)

Section Round.
Variables (n : nat) (calls : list (Z * Z)) (l0 : list Z) (good : Z -> Z -> Prop).
Hypothesis calls_ok : forall src dst, (src, dst) ∈ calls -> 0 <= src < Z.of_nat n /\ 0 <= dst < Z.of_nat n.
(** [good c v]: [c] may be the label of [v]; labels may follow edges. *)
Hypothesis good_call : forall src dst c, (src, dst) ∈ calls -> good c src -> good c dst.
Hypothesis l0_length : length l0 = n.
Hypothesis l0_range : forall v c, get l0 v = Some c -> 0 <= c < Z.of_nat n.

Definition vert (v : Z) : Prop := 0 <= v < Z.of_nat n.

(** The label of [v], with [0] outside the array. *)
Definition lab (st : prop_t) (v : Z) : Z := default 0 (get (label st) v).
Definition lab0 (v : Z) : Z := default 0 (get l0 v).

(** A value the call has read as the source's label: still its label, unless
    that has dropped in this round. *)
Definition seen (st : prop_t) (src a : Z) : Prop := lab st src <= a < Z.of_nat n /\ (lab st src = a \/ lab st src < lab0 src).

Definition settled (st : prop_t) (src dst : Z) : Prop := lab st dst <= lab st src \/ lab st src < lab0 src.

Definition pc_ok (st : prop_t) (src dst : Z) (pc : call_pc) : Prop :=
  match pc with
  | C_start => True
  | C_compare a => seen st src a
  | C_load b => lab st dst <= b < Z.of_nat n
  | C_reload o => lab st dst < o < Z.of_nat n
  | C_loop o => lab st dst <= o < Z.of_nat n
  | C_argument o => lab st dst <= o < Z.of_nat n /\ lab st src < o
  | C_swap o c => lab st dst <= o < Z.of_nat n /\ c < o /\ seen st src c /\ 0 <= c /\ good c src
  | C_won => settled st src dst /\ lab st dst < lab0 dst
  | C_done r => settled st src dst /\ (r = 0 \/ r = 1 /\ has (active_out st) dst)
  end.

Record round_inv (st : prop_t) (pcs : list call_pc) : Prop := {
  ri_length : length pcs = length calls;
  ri_labels : length (label st) = n;
  ri_bits : wf (active_out st) /\ words_ok (active_out st) /\ size (active_out st) = Z.of_nat n;
  ri_range : forall v, vert v -> 0 <= lab st v <= lab0 v;
  ri_good : forall v, vert v -> good (lab st v) v;
  ri_calls : forall i src dst pc, calls !! i = Some (src, dst) -> pcs !! i = Some pc -> pc_ok st src dst pc;
  ri_changed : forall v, vert v -> lab st v < lab0 v ->
    has (active_out st) v \/ exists i src, calls !! i = Some (src, v) /\ pcs !! i = Some C_won;
  ri_marked : forall v, has (active_out st) v -> vert v /\ lab st v < lab0 v /\ exists i src, calls !! i = Some (src, v) /\ pcs !! i = Some (C_done 1)
}.

Lemma label_call_range i src dst : calls !! i = Some (src, dst) -> vert src /\ vert dst.
Proof. intros E. eapply calls_ok, list_elem_of_lookup_2, E. Qed.

Lemma get_lab st v : length (label st) = n -> vert v -> get (label st) v = Some (lab st v).
Proof.
  intros Hl Hv. unfold lab, get. destruct (lookup_lt_is_Some_2 (label st) (Z.to_nat v)) as [c E]; [unfold vert in Hv; lia|]. by rewrite E.
Qed.

Lemma lab0_range v : vert v -> 0 <= lab0 v < Z.of_nat n.
Proof.
  intros Hv. unfold lab0, get. destruct (lookup_lt_is_Some_2 l0 (Z.to_nat v)) as [c E]; [unfold vert in Hv; lia|].
  rewrite E. by apply (l0_range v).
Qed.

(** Labels only drop: what calls know stays true. *)
Lemma pc_ok_drop st st' src dst pc : vert src -> vert dst ->
  (forall v, vert v -> lab st' v <= lab st v <= lab0 v) -> (forall v, vert v -> lab st' v <> lab st v -> lab st' v < lab0 v) ->
  (forall v, has (active_out st) v -> has (active_out st') v) ->
  pc_ok st src dst pc -> pc_ok st' src dst pc.
Proof.
  intros Hs Hd Hle Hch Hb. pose proof (Hle src Hs). pose proof (Hle dst Hd).
  assert (Hseen : forall a, seen st src a -> seen st' src a).
  { unfold seen. intros a [? Ha]. split; [lia|]. destruct (decide (lab st' src = lab st src)); [|right; by apply Hch]. destruct Ha; [left|right]; lia. }
  assert (Hset : settled st src dst -> settled st' src dst).
  { unfold settled. intros Ha. destruct (decide (lab st' src = lab st src)); [|right; by apply Hch]. destruct Ha; [left|right]; lia. }
  destruct pc; cbn [pc_ok]; intros Hp; try tauto; try (by apply Hseen); try lia.
  - destruct Hp as (? & ? & ? & ? & ?). split; [lia|]. auto.
  - destruct Hp as [? ?]. split; [auto|lia].
  - destruct Hp as [? [?|[? ?]]]; auto.
Qed.

(** A step of a call that only reads. *)
Lemma label_round_quiet st pcs i src dst pc pc' : round_inv st pcs -> calls !! i = Some (src, dst) -> pcs !! i = Some pc ->
  pc <> C_won -> (forall r, pc = C_done r -> pc' = C_done r) -> pc_ok st src dst pc' -> round_inv st (<[i := pc']> pcs).
Proof.
  intros Hi Ec Ep Hw Hd Hok. assert (Hlt := lookup_lt_Some _ _ _ Ep). split; try by eapply Hi.
  - rewrite length_insert. by eapply ri_length.
  - intros j s d q E1 E2. destruct (decide (j = i)) as [->|].
    + rewrite list_lookup_insert_eq in E2 by done. rewrite Ec in E1. injection E1 as <- <-. by injection E2 as <-.
    + rewrite list_lookup_insert_ne in E2 by done. by eapply ri_calls.
  - intros v Hv Hc. destruct (ri_changed _ _ Hi v Hv Hc) as [?|(j & s & E1 & E2)]; [by left|right]. exists j, s. split; [done|].
    rewrite list_lookup_insert_ne; [done|]. intros ->. congruence.
  - intros v Hv. destruct (ri_marked _ _ Hi v Hv) as (? & ? & j & s & E1 & E2). split; [done|]. split; [done|]. exists j, s. split; [done|].
    destruct (decide (j = i)) as [->|]; [|by rewrite list_lookup_insert_ne].
    rewrite list_lookup_insert_eq by done. rewrite Ep in E2. injection E2 as ->. by rewrite (Hd 1).
Qed.

Lemma lab_insert st dst c b v : length (label st) = n -> vert dst -> vert v ->
  lab (Prop_ (<[Z.to_nat dst := c]> (label st)) b) v = if decide (v = dst) then c else lab st v.
Proof.
  intros Hl Hd Hv. unfold lab, get, vert in *. cbn [label]. destruct (decide (v = dst)) as [->|].
  - by rewrite list_lookup_insert_eq by lia.
  - by rewrite list_lookup_insert_ne by lia.
Qed.

(** The compare-and-swap succeeds. *)
Lemma round_swap st pcs i src dst c : round_inv st pcs -> calls !! i = Some (src, dst) -> pcs !! i = Some (C_swap (lab st dst) c) ->
  round_inv (Prop_ (<[Z.to_nat dst := c]> (label st)) (active_out st)) (<[i := C_won]> pcs).
Proof.
  intros Hi Ec Ep. assert (Hlt := lookup_lt_Some _ _ _ Ep). destruct (label_call_range _ _ _ Ec) as [Hsrc Hdst].
  destruct (ri_calls _ _ Hi _ _ _ _ Ec Ep) as (_ & Hco & Hseen & Hc0 & Hg). pose proof (ri_range _ _ Hi dst Hdst) as Hr.
  assert (Hl := ri_labels _ _ Hi). assert (Hne : src <> dst) by (intros ->; destruct Hseen; lia).
  assert (Hlab := fun v => lab_insert st dst c (active_out st) v Hl Hdst).
  assert (Hle : forall v, vert v -> lab (Prop_ (<[Z.to_nat dst := c]> (label st)) (active_out st)) v <= lab st v <= lab0 v).
  { intros v Hv. pose proof (ri_range _ _ Hi v Hv). rewrite Hlab by done. destruct (decide (v = dst)) as [->|]; lia. }
  assert (Hch : forall v, vert v -> lab (Prop_ (<[Z.to_nat dst := c]> (label st)) (active_out st)) v <> lab st v ->
    lab (Prop_ (<[Z.to_nat dst := c]> (label st)) (active_out st)) v < lab0 v).
  { intros v Hv Hnv. pose proof (ri_range _ _ Hi v Hv). pose proof (Hle v Hv). lia. }
  split; cbn [label active_out].
  - rewrite length_insert. by eapply ri_length.
  - by rewrite length_insert.
  - by eapply ri_bits.
  - intros v Hv. pose proof (ri_range _ _ Hi v Hv). rewrite Hlab by done. destruct (decide (v = dst)) as [->|]; lia.
  - intros v Hv. rewrite Hlab by done. destruct (decide (v = dst)) as [->|]; [|by eapply ri_good].
    eapply good_call; [by eapply list_elem_of_lookup_2|done].
  - intros j s d q E1 E2. destruct (decide (j = i)) as [->|].
    + rewrite list_lookup_insert_eq in E2 by done. rewrite Ec in E1. injection E1 as <- <-. injection E2 as <-. cbn [pc_ok].
      unfold settled. rewrite (Hlab src Hsrc), (Hlab dst Hdst). destruct (decide (src = dst)), (decide (dst = dst)); [done..| |done].
      destruct Hseen as [? [?|?]]; lia.
    + rewrite list_lookup_insert_ne in E2 by done. destruct (label_call_range _ _ _ E1) as [? ?].
      eapply (pc_ok_drop st); [done|done|exact Hle|exact Hch|done|]. by eapply ri_calls.
  - intros v Hv. rewrite Hlab by done. destruct (decide (v = dst)) as [->|Hvd]; intros Hlv.
    + right. exists i, src. by rewrite list_lookup_insert_eq.
    + destruct (ri_changed _ _ Hi v Hv Hlv) as [?|(j & s & E1 & E2)]; [by left|right]. exists j, s. split; [done|].
      rewrite list_lookup_insert_ne; [done|]. intros ->. congruence.
  - intros v Hv. destruct (ri_marked _ _ Hi v Hv) as (Hvv & Hlv & j & s & E1 & E2). split; [done|]. split.
    + pose proof (Hle v Hvv). lia.
    + exists j, s. split; [done|]. rewrite list_lookup_insert_ne; [done|]. intros ->. congruence.
Qed.

(** The target is marked. *)
Lemma label_round_mark st pcs i src dst b : round_inv st pcs -> calls !! i = Some (src, dst) -> pcs !! i = Some C_won ->
  set_bit (active_out st) dst = Some b -> round_inv (Prop_ (label st) b) (<[i := C_done 1]> pcs).
Proof.
  intros Hi Ec Ep Hb. assert (Hlt := lookup_lt_Some _ _ _ Ep). destruct (label_call_range _ _ _ Ec) as [Hsrc Hdst]. unfold vert in Hdst.
  destruct (ri_bits _ _ Hi) as (Hw & Hwo & Hs).
  destruct (set_bit_spec (active_out st) dst Hw) as (b' & E & Hw' & Hs' & Hhas); [lia|]. rewrite Hb in E. injection E as <-.
  destruct (ri_calls _ _ Hi _ _ _ _ Ec Ep) as [Hset Hlow].
  split; cbn [label active_out]; try (by eapply Hi).
  - rewrite length_insert. by eapply ri_length.
  - split; [done|]. split; [by eapply words_ok_set|congruence].
  - intros j s d q E1 E2. destruct (decide (j = i)) as [->|].
    + rewrite list_lookup_insert_eq in E2 by done. rewrite Ec in E1. injection E1 as <- <-. injection E2 as <-.
      split; [exact Hset|]. right. split; [done|]. apply Hhas. by right.
    + rewrite list_lookup_insert_ne in E2 by done. destruct (label_call_range _ _ _ E1) as [? ?].
      eapply (pc_ok_drop st); [done|done| | | |by eapply ri_calls]; cbn.
      * intros v Hv. pose proof (ri_range _ _ Hi v Hv). unfold lab in *. cbn. lia.
      * intros v Hv Hn. done.
      * intros v Hv. apply Hhas. by left.
  - intros v Hv Hlv. destruct (ri_changed _ _ Hi v Hv Hlv) as [?|(j & s & E1 & E2)]; [left; apply Hhas; by left|].
    destruct (decide (j = i)) as [->|]; [left; apply Hhas; right; congruence|right]. exists j, s. by rewrite list_lookup_insert_ne.
  - intros v Hv. apply Hhas in Hv as [Hv| ->].
    + destruct (ri_marked _ _ Hi v Hv) as (? & ? & j & s & E1 & E2). split; [done|]. split; [done|]. exists j, s. split; [done|].
      rewrite list_lookup_insert_ne; [done|]. intros ->. congruence.
    + split; [done|]. split; [done|]. exists i, src. by rewrite list_lookup_insert_eq.
Qed.

(** No step gets stuck; every step keeps the invariant and makes progress. *)
Lemma label_step_at_inv st pcs i pc : round_inv st pcs -> pcs !! i = Some pc ->
  exists st' pc', step_at calls st i pc = Some (st', pc') /\ round_inv st' (<[i := pc']> pcs) /\ (steps_left n pc' <= steps_left n pc - 1)%nat.
Proof.
  intros Hi Ep. destruct (lookup_lt_is_Some_2 calls i) as [[src dst] Ec]; [rewrite <- (ri_length _ _ Hi); by eapply lookup_lt_Some|].
  unfold step_at. rewrite Ec. cbn [mbind option_bind]. destruct (label_call_range _ _ _ Ec) as [Hsrc Hdst].
  assert (Es := get_lab st src (ri_labels _ _ Hi) Hsrc). assert (Ed := get_lab st dst (ri_labels _ _ Hi) Hdst).
  pose proof (ri_range _ _ Hi src Hsrc). pose proof (ri_range _ _ Hi dst Hdst). pose proof (lab0_range src Hsrc). pose proof (lab0_range dst Hdst).
  pose proof (ri_calls _ _ Hi _ _ _ _ Ec Ep) as Hok.
  assert (Hread : forall pc', pc <> C_won -> (forall r, pc = C_done r -> pc' = C_done r) -> pc_ok st src dst pc' ->
    round_inv st (<[i := pc']> pcs)) by (intros; by eapply label_round_quiet).
  destruct pc as [|a|b|o|o|o|o c| |r]; cbn [step_call pc_ok] in *; rewrite ?Es, ?Ed; cbn [mbind option_bind].
  - eexists _, _. split; [done|]. split; [apply Hread; [congruence|congruence|]; split; [lia|by left]|cbn; lia].
  - eexists _, _. split; [done|]. destruct Hok as [Ha Hse]. destruct (Z.ltb_spec a (lab st dst)); (split; [apply Hread; [congruence|congruence|]; cbn|cbn; lia]).
    + lia.
    + split; [|by left]. unfold settled. destruct Hse; [left|right]; lia.
  - eexists _, _. split; [done|]. split; [apply Hread; [congruence|congruence|]; cbn; lia|cbn; lia].
  - eexists _, _. split; [done|]. split; [apply Hread; [congruence|congruence|]; cbn; lia|cbn; lia].
  - eexists _, _. split; [done|]. destruct (Z.ltb_spec (lab st src) o); (split; [apply Hread; [congruence|congruence|]; cbn|cbn; lia]).
    + lia.
    + split; [|by left]. left. lia.
  - eexists _, _. split; [done|]. split; [apply Hread; [congruence|congruence|]; cbn|cbn; lia].
    split; [lia|]. split; [lia|]. split; [split; [lia|by left]|]. split; [lia|by eapply ri_good].
  - destruct (Z.eqb_spec (lab st dst) o) as [<-|Hne]; eexists _, _; (split; [done|]).
    + split; [by eapply round_swap|cbn; lia].
    + split; [apply Hread; [congruence|congruence|]; cbn; lia|cbn; lia].
  - destruct (ri_bits _ _ Hi) as (Hw & _ & Hs). unfold vert in Hdst.
    destruct (set_bit_spec (active_out st) dst Hw) as (b & E & _); [lia|]. rewrite E. cbn [mbind option_bind].
    eexists _, _. split; [done|]. split; [by eapply label_round_mark|cbn; lia].
  - eexists st, _. split; [done|]. split; [by rewrite list_insert_id|cbn; lia].
Qed.

Lemma label_round_start b : wf b -> words_ok b -> size b = Z.of_nat n -> (forall v, ~ has b v) -> (forall v, vert v -> good (lab0 v) v) ->
  round_inv (Prop_ l0 b) (replicate (length calls) C_start).
Proof.
  intros Hw Hwo Hs Hb Hg. split; cbn [label active_out]; try done.
  - by rewrite length_replicate.
  - intros v Hv. pose proof (lab0_range v Hv). unfold lab, lab0 in *. cbn. lia.
  - intros j s d q _ E. by apply lookup_replicate in E as [-> _].
  - intros v Hv. unfold lab, lab0. cbn. lia.
  - intros v Hv. by destruct (Hb v).
Qed.

Lemma sum_call_results pcs : (forall pc, pc ∈ pcs -> 0 <= call_result pc <= 1) -> forall a, 0 <= a -> a + Z.of_nat (length pcs) < 2 ^ 32 ->
  let s := foldl (fun a pc => u32 (a + call_result pc)) a pcs in
  a <= s /\ (s = a <-> forall pc, pc ∈ pcs -> call_result pc = 0).
Proof.
  induction pcs as [|pc pcs IH]; intros Hpc a Ha Hmax; cbn [foldl length] in *.
  { split; [lia|]. split; [|done]. intros _ pc Hin. by apply elem_of_nil in Hin. }
  assert (Hr := Hpc pc ltac:(left)). rewrite (wrap_small 32) by (unfold in_width; lia).
  destruct (IH ltac:(intros q Hq; apply Hpc; by right) (a + call_result pc) ltac:(lia) ltac:(lia)) as [Hle Heq].
  split; [lia|]. split.
  - intros Hs q Hq. assert (call_result pc = 0) as Hz by lia. rewrite Hz, Z.add_0_r in Heq, Hs. apply elem_of_cons in Hq as [->|Hq]; [done|].
    by apply Heq.
  - intros Hall. rewrite (Hall pc ltac:(left)), Z.add_0_r in Heq |- *. apply Heq. intros q Hq. apply Hall. by right.
Qed.

(** A round under any schedule: labels drop to labels of sources, the targets
    whose label has dropped are marked and counted, and every call's target is
    no higher than its source unless the source is marked. *)
Lemma label_round_run sched b : wf b -> words_ok b -> size b = Z.of_nat n -> (forall v, ~ has b v) -> (forall v, vert v -> good (lab0 v) v) ->
  Z.of_nat (length calls) < 2 ^ 32 ->
  exists st cnt, run_round n calls sched (Prop_ l0 b) = Some (st, cnt) /\ length (label st) = n /\
    wf (active_out st) /\ words_ok (active_out st) /\ size (active_out st) = Z.of_nat n /\
    (forall v, vert v -> 0 <= lab st v <= lab0 v /\ good (lab st v) v) /\
    (forall v, has (active_out st) v <-> vert v /\ lab st v < lab0 v) /\
    (forall src dst, (src, dst) ∈ calls -> lab st dst <= lab st src \/ has (active_out st) src) /\
    (cnt = 0 /\ (forall v, ~ has (active_out st) v) \/ cnt <> 0 /\ exists v, has (active_out st) v).
Proof.
  intros Hw Hwo Hs Hb Hg Hc. pose proof (label_round_start b Hw Hwo Hs Hb Hg) as H0. unfold run_round.
  destruct (run_all_descends (step_at calls) (steps_left n) round_inv label_step_at_inv sched _ _ H0) as (st & pcs & E & Hi & Hl & Hret).
  rewrite E. cbn [mbind option_bind]. clear E. rewrite length_replicate in Hl.
  assert (Hdone : forall i pc, pcs !! i = Some pc -> exists r, pc = C_done r).
  { intros i pc Ep. apply list_elem_of_lookup_2, Hret in Ep. destruct pc as [|?|?|?|?|?|? ?| |r]; cbn in Ep; try lia. by exists r. }
  assert (Hcall : forall i pc, pcs !! i = Some pc -> exists e, calls !! i = Some e).
  { intros i pc Ep. apply lookup_lt_is_Some_2. rewrite <- Hl. by eapply lookup_lt_Some. }
  assert (Hmark : forall v, has (active_out st) v <-> vert v /\ lab st v < lab0 v).
  { intros v. split; [intros Hv; by destruct (ri_marked _ _ Hi v Hv) as (? & ? & _)|]. intros [Hv Hlv].
    destruct (ri_changed _ _ Hi v Hv Hlv) as [?|(j & s & _ & E2)]; [done|]. by destruct (Hdone j _ E2). }
  eexists st, _. split; [done|]. split; [by eapply ri_labels|]. destruct (ri_bits _ _ Hi) as (H1 & H2 & H3).
  do 3 (split; [done|]). split; [intros v Hv; split; [by eapply ri_range|by eapply ri_good]|]. split; [done|]. split.
  - intros src dst Hin. apply list_elem_of_lookup in Hin as [i Ec]. destruct (lookup_lt_is_Some_2 pcs i) as [pc Ep]; [rewrite Hl; by eapply lookup_lt_Some|].
    destruct (Hdone i pc Ep) as [r ->]. destruct (ri_calls _ _ Hi _ _ _ _ Ec Ep) as [[?|?] _]; [by left|right]. apply Hmark.
    split; [by apply (label_call_range _ _ _ Ec)|done].
  - destruct (sum_call_results pcs) with (a := 0) as [_ Hz]; [|lia|rewrite Hl; lia|].
    { intros pc Hpc. apply list_elem_of_lookup in Hpc as [i Ep]. destruct (Hcall i pc Ep) as [[src dst] Ec].
      destruct (Hdone i pc Ep) as [r ->]. destruct (ri_calls _ _ Hi _ _ _ _ Ec Ep) as [_ [->|[-> _]]]; cbn; lia. }
    destruct (decide (Forall (fun pc => call_result pc = 0) pcs)) as [Hall|Hex]; [left|right].
    + rewrite Forall_forall in Hall. split; [by apply Hz|]. intros v Hv.
      destruct (ri_marked _ _ Hi v Hv) as (_ & _ & i & src & _ & Ep). by apply list_elem_of_lookup_2, Hall in Ep.
    + split; [intros Hc0; apply Hex, Forall_forall; by apply Hz|]. apply not_Forall_Exists, Exists_exists in Hex as (pc & Hpc & Hr); [|intros ?; apply _].
      apply list_elem_of_lookup in Hpc as [i Ep]. destruct (Hcall i pc Ep) as [[src dst] Ec]. destruct (Hdone i pc Ep) as [r ->].
      destruct (ri_calls _ _ Hi _ _ _ _ Ec Ep) as [_ [->|[_ Hh]]]; [by destruct Hr|by exists dst].
Qed.
End Round.

(** ** The loops *)

Section Loops.
Context {D : Type} `{!NeighborReader D} `{!EdgeScanner D}.
Variable d0 : D.
Hypothesis d0_closed : forall u l v, adj d0 u = Some l -> v ∈ l -> vertex d0 v.
(** The callback's results are added up in 32 bits. *)
Hypothesis scans_small : forall d b calls d', same_graph d0 d -> edge_scan d b = Some (calls, d') -> Z.of_nat (length calls) < 2 ^ 32.

Abbreviation n := (vertices d0).

(** Every label is a vertex that reaches its vertex, no greater than it; along
    an edge labels do not rise, unless the source is active. *)
Record labels_inv (l : list Z) (active : Z -> Prop) : Prop := {
  li_length : length l = n;
  li_label : forall v c, vertex d0 v -> get l v = Some c -> 0 <= c <= v /\ reaches d0 c v;
  li_edge : forall u v cu cv, edge d0 u v -> get l u = Some cu -> get l v = Some cv -> cv <= cu \/ active u;
  li_active : forall v, active v -> vertex d0 v
}.

Definition bits_ok (b : bit_map_t) : Prop := wf b /\ words_ok b /\ size b = Z.of_nat n.

Fixpoint zsum (l : list Z) : Z := match l with [] => 0 | x :: l => x + zsum l end.

Lemma zsum_le l : forall l', length l = length l' -> (forall i x y, l !! i = Some x -> l' !! i = Some y -> x <= y) -> 
  zsum l <= zsum l' /\ ((exists i x y, l !! i = Some x /\ l' !! i = Some y /\ x < y) -> zsum l < zsum l').
Proof.
  induction l as [|a l IH]; intros [|b l'] Hl Hle; try done.
  { split; [done|]. intros (i & x & y & E & _). done. }
  destruct (IH l' ltac:(cbn in Hl; lia) ltac:(intros i x y E1 E2; by apply (Hle (S i)))) as [H1 H2]. cbn [zsum].
  pose proof (Hle 0%nat a b eq_refl eq_refl). split; [lia|]. intros ([|i] & x & y & E1 & E2 & Hlt); cbn in E1, E2.
  - simplify_eq. lia.
  - assert (zsum l < zsum l') by (apply H2; by exists i, x, y). lia.
Qed.

Lemma zsum_nonneg l : Forall (Z.le 0) l -> 0 <= zsum l.
Proof. induction 1; cbn; lia. Qed.

Lemma labels_nonneg l active : labels_inv l active -> 0 <= zsum l.
Proof.
  intros Hi. apply zsum_nonneg, Forall_lookup. intros i x E.
  assert (Hv : vertex d0 (Z.of_nat i)) by (apply lookup_lt_Some in E; pose proof (li_length _ _ Hi); unfold vertex; lia).
  apply (li_label _ _ Hi (Z.of_nat i) x Hv). unfold get. by rewrite Nat2Z.id.
Qed.

Lemma get_some l v : length l = n -> vertex d0 v -> exists c, get l v = Some c.
Proof. intros Hl Hv. apply lookup_lt_is_Some_2. unfold vertex in Hv. lia. Qed.

Lemma propagate_run sched d active_in active l cnt : labels_inv l (has active) -> bits_ok active -> bits_ok active_in ->
  (cnt = 0 <-> forall v, ~ has active v) -> cnt <> 0 -> scannable d -> same_graph d0 d ->
  exists st cnt' d', propagate sched d active_in active l = Some (st, cnt', active, d') /\
    labels_inv (label st) (has (active_out st)) /\ bits_ok (active_out st) /\ scannable d' /\ same_graph d0 d' /\
    (cnt' = 0 <-> forall v, ~ has (active_out st) v) /\ zsum (label st) <= zsum l /\ (cnt' <> 0 -> zsum (label st) < zsum l).
Proof.
  intros Hi (Ha1 & Ha2 & Ha3) (Hi1 & Hi2 & Hi3) Hcnt Hne Hsc Hg. unfold propagate.
  destruct (edge_scan_spec d active) as (calls & d1 & E & Hsc1 & Hg1 & Hcalls); [done|done|done|by rewrite (proj1 Hg)|].
  pose proof (scans_small _ _ _ _ Hg E) as Hsmall. rewrite E. cbn [mbind option_bind].
  assert (Hgn : vertices d1 = n) by (rewrite (proj1 Hg1); apply Hg). rewrite Hgn.
  destruct (clear_spec active_in Hi1) as (Hc1 & Hc2 & Hc3).
  assert (Hedge : forall u v, (u, v) ∈ calls <-> has active u /\ edge d0 u v).
  { intros u v. rewrite Hcalls, (proj2 Hg). split.
    - intros [Ha (lu & El & Hl)]. split; [done|]. split; [by eapply li_active|]. split; [by apply (d0_closed u lu v)|by exists lu].
    - intros [Ha (_ & _ & lu)]. done. }
  assert (Hl := li_length _ _ Hi).
  assert (Hlab0 : forall v, vertex d0 v -> exists c, get l v = Some c /\ lab0 l v = c).
  { intros v Hv. destruct (get_some l v Hl Hv) as [c Ec]. exists c. unfold lab0. by rewrite Ec. }
  destruct (label_round_run n calls l (reaches d0)) with (sched := sched) (b := clear active_in)
    as (st & cnt' & E2 & H1 & H2 & H3 & H4 & H5 & H6 & H7 & H8).
  - intros src dst Hin. apply Hedge in Hin as [_ (Hs & Hd & _)]. done.
  - intros src dst c Hin Hr. apply Hedge in Hin as [_ He]. eapply reaches_trans; [done|by apply reaches_edge].
  - done.
  - intros v c Ec. assert (Hv : vertex d0 v \/ v < 0).
    { apply lookup_lt_Some in Ec. unfold vertex. lia. }
    destruct Hv as [Hv|Hv]; [destruct (li_label _ _ Hi v c Hv Ec); unfold vertex in Hv; lia|].
    unfold get in Ec. replace (Z.to_nat v) with (Z.to_nat 0) in Ec by lia. fold (get l 0) in Ec.
    assert (Hz : vertex d0 0) by (apply lookup_lt_Some in Ec; unfold vertex; lia). destruct (li_label _ _ Hi 0 c Hz Ec). unfold vertex in Hz. lia.
  - done.
  - by apply words_ok_clear.
  - congruence.
  - done.
  - intros v Hv. destruct (Hlab0 v Hv) as (c & Ec & ->). by apply (li_label _ _ Hi).
  - done.
  - rewrite E2. cbn [mbind option_bind]. exists st, cnt', d1. split; [done|].
    assert (Hlab : forall v, vertex d0 v -> exists c c', get l v = Some c /\ get (label st) v = Some c' /\ lab st v = c' /\ lab0 l v = c /\ 0 <= c' <= c).
    { intros v Hv. destruct (Hlab0 v Hv) as (c & Ec & El). destruct (get_some (label st) v H1 Hv) as [c' Ec'].
      destruct (H5 v Hv) as [Hr _]. assert (lab st v = c') as Hx by (unfold lab; by rewrite Ec'). exists c, c'. repeat split; try done; lia. }
    split; [split|split; [by split|split; [done|split; [by trans d|]]]].
    + done.
    + intros v c Hv Ec. destruct (Hlab v Hv) as (c0 & c' & E0 & E1 & Hx & Hy & Hr). replace c with c' by congruence.
      destruct (li_label _ _ Hi v c0 Hv E0). split; [lia|]. rewrite <- Hx. by apply H5.
    + intros u v cu cv He Eu Ev. pose proof He as (Hu & Hv & _). destruct (Hlab u Hu) as (u0 & u1 & A0 & A1 & Hx & Hy & Hr), (Hlab v Hv) as (v0 & v1 & B0 & B1 & Hx' & Hy' & Hr').
      replace cu with u1 by congruence. replace cv with v1 by congruence.
      destruct (decide (has active u)) as [Hact|Hact].
      * destruct (H7 u v) as [Hle|?]; [by apply Hedge|left; lia|by right].
      * destruct (li_edge _ _ Hi u v u0 v0 He A0 B0) as [Hle|?]; [|done]. destruct (Z.lt_ge_cases u1 u0); [right; apply H6; split; [done|lia]|left; lia].
    + intros v Hv. by apply H6 in Hv as [? _].
    + destruct (zsum_le (label st) l) as [Hz1 Hz2]; [by rewrite H1, Hl|..].
      * intros i x y Ex Ey. assert (Hv : vertex d0 (Z.of_nat i)) by (apply lookup_lt_Some in Ey; unfold vertex; lia).
        destruct (Hlab _ Hv) as (c & c' & E0 & E1 & _ & _ & Hr). unfold get in E0, E1. rewrite Nat2Z.id in E0, E1. simplify_eq. lia.
      * split; [destruct H8 as [[? ?]|[? [v Hv]]]; [done|split; [done|intros Hx; by destruct (Hx v)]]|].
        split; [done|]. intros Hcn. apply Hz2. destruct H8 as [[? _]|[_ [v Hv]]]; [done|]. apply H6 in Hv as [Hv Hlt].
        destruct (Hlab v Hv) as (c & c' & E0 & E1 & <- & <- & _). by exists (Z.to_nat v), (lab st v), (lab0 l v).
Qed.

Lemma wcc_rounds_run fuel : forall round sched d active_in active l cnt, labels_inv l (has active) -> bits_ok active -> bits_ok active_in ->
  (cnt = 0 <-> forall v, ~ has active v) -> scannable d -> same_graph d0 d -> zsum l < Z.of_nat fuel ->
  exists l' d' active', wcc_rounds fuel round sched d active_in active l cnt = Some (l', d') /\ same_graph d0 d' /\
    labels_inv l' active' /\ forall v, ~ active' v.
Proof.
  induction fuel as [|fuel IH]; intros round sched d active_in active l cnt Hi Hbo Hbi Hcnt Hsc Hg Hf; cbn [wcc_rounds].
  { pose proof (labels_nonneg l _ Hi). lia. }
  destruct (Z.eqb_spec cnt 0) as [Hz|Hne]; [exists l, d, (has active); do 3 (split; [done|]); by apply Hcnt|].
  destruct (propagate_run (sched round) d active_in active l cnt) as (st & cnt' & d' & -> & Hi' & Hb' & Hsc' & Hg' & Hc' & Hle & Hlt); [done..|].
  cbn [mbind option_bind]. destruct (decide (cnt' = 0)) as [->|Hne'].
  - exists (label st), d', (has (active_out st)). destruct fuel; cbn; (split; [done|]); (split; [done|]); (split; [done|by apply Hc']).
  - apply IH; [done..|]. specialize (Hlt Hne'). lia.
Qed.

Lemma cdlp_rounds_run iterations : forall round sched d active_in active l cnt, labels_inv l (has active) -> bits_ok active -> bits_ok active_in ->
  (cnt = 0 <-> forall v, ~ has active v) -> scannable d -> same_graph d0 d ->
  exists l' d' active', cdlp_rounds iterations round sched d active_in active l cnt = Some (l', d') /\ same_graph d0 d' /\
    labels_inv l' active' /\ (zsum l < Z.of_nat iterations -> forall v, ~ active' v).
Proof.
  induction iterations as [|iterations IH]; intros round sched d active_in active l cnt Hi Hbo Hbi Hcnt Hsc Hg; cbn [cdlp_rounds].
  { exists l, d, (has active). do 3 (split; [done|]). pose proof (labels_nonneg l _ Hi). lia. }
  destruct (Z.eqb_spec cnt 0) as [Hz|Hne]; [exists l, d, (has active); do 3 (split; [done|]); intros _; by apply Hcnt|].
  destruct (propagate_run (sched round) d active_in active l cnt) as (st & cnt' & d' & -> & Hi' & Hb' & Hsc' & Hg' & Hc' & Hle & Hlt); [done..|].
  cbn [mbind option_bind]. destruct (decide (cnt' = 0)) as [->|Hne'].
  - exists (label st), d', (has (active_out st)). destruct iterations; cbn; (split; [done|]); (split; [done|]); (split; [done|intros _; by apply Hc']).
  - specialize (Hlt Hne'). destruct (IH (S round) sched d' active (active_out st) (label st) cnt') as (l' & d2 & active' & E & ? & ? & Hn); [done..|].
    exists l', d2, active'. do 3 (split; [done|]). intros Hz. apply Hn. lia.
Qed.

(** Labels that no edge can lower are the least vertices that reach. *)
Lemma settled_leader l active v : labels_inv l active -> (forall u, ~ active u) -> vertex d0 v -> exists c, get l v = Some c /\ Wcc.leader d0 v c.
Proof.
  intros Hi Hn Hv. destruct (get_some l v (li_length _ _ Hi) Hv) as [c Ec]. exists c. split; [done|].
  split; [by apply (li_label _ _ Hi)|]. intros u [k Hk].
  assert (Hw : forall k w, walk d0 u k w -> forall cw, get l w = Some cw -> cw <= u); [|by eapply Hw].
  clear k Hk. intros k w Hw. induction Hw as [Hu|k w x Hw IH He]; intros cx Ex; [by apply (li_label _ _ Hi u)|].
  destruct (get_some l w (li_length _ _ Hi) (proj1 He)) as [cw Ew]. pose proof (IH cw Ew).
  destruct (li_edge _ _ Hi w x cw cx He Ew Ex) as [?|Ha]; [lia|by destruct (Hn w)].
Qed.

Lemma label_start_inv b : (forall v, has b v <-> 0 <= v < Z.of_nat n) -> labels_inv (seqZ 0 (Z.of_nat n)) (has b).
Proof.
  intros Hb. split.
  - rewrite length_seqZ. lia.
  - intros v c Hv Ec. apply lookup_seqZ in Ec as [-> _]. unfold vertex in Hv. rewrite Z2Nat.id, Z.add_0_l by lia. split; [lia|by apply reaches_refl].
  - intros u v cu cv (Hu & _) _ _. right. by apply Hb.
  - intros v Hv. by apply Hb.
Qed.

Lemma zsum_seqZ m : forall k, 0 <= k -> zsum (seqZ k (Z.of_nat m)) <= (k + Z.of_nat m) * Z.of_nat m.
Proof.
  induction m as [|m IH]; intros k Hk; [rewrite seqZ_nil by lia; cbn; lia|]. rewrite seqZ_cons by lia. cbn [zsum].
  replace (Z.pred (Z.of_nat (S m))) with (Z.of_nat m) by lia. pose proof (IH (Z.succ k) ltac:(lia)). nia.
Qed.
End Loops.

(** ** The results *)

Lemma labelled_elem l v c : (v, c) ∈ labelled l <-> 0 <= v /\ get l v = Some c.
Proof.
  unfold labelled, get. rewrite list_elem_of_lookup. setoid_rewrite list_lookup_imap. split.
  - intros (i & Ei). destruct (l !! i) as [x|] eqn:Ex; [|done]. injection Ei as <- <-. rewrite Nat2Z.id. split; [lia|done].
  - intros [Hv Ec]. exists (Z.to_nat v). rewrite Ec. cbn. by rewrite Z2Nat.id.
Qed.

Section Results.
Context {D : Type} `{!NeighborReader D} `{!EdgeScanner D}.
Variables (d : D) (raw_in raw_out : list Z) (sched : nat -> list nat).
Hypothesis d_closed : forall u l v, adj d u = Some l -> v ∈ l -> vertex d v.
Hypothesis scans_small : forall d' b calls d2, same_graph d d' -> edge_scan d' b = Some (calls, d2) -> Z.of_nat (length calls) < 2 ^ 32.
Hypothesis d_scannable : scannable d.
Hypothesis count_ok : Z.of_nat (vertices d) < 2 ^ 32.
Hypothesis raw_in_ok : Forall (fun w => 0 <= w < 2 ^ 64) raw_in.
Hypothesis raw_out_ok : Forall (fun w => 0 <= w < 2 ^ 64) raw_out.

Abbreviation N := (Z.of_nat (vertices d)).

Lemma labelled_keys l : length l = vertices d -> (labelled l).*1 = seqZ 0 N.
Proof.
  intros Hl. apply list_eq. intros i. unfold labelled. rewrite list_lookup_fmap, list_lookup_imap. destruct (l !! i) eqn:E.
  - cbn. symmetry. apply lookup_seqZ. apply lookup_lt_Some in E. lia.
  - cbn. symmetry. apply lookup_seqZ_ge. apply lookup_ge_None in E. lia.
Qed.

Lemma start_ok : bits_ok d (Bitmap.fill (init raw_out N)) /\ bits_ok d (init raw_in N) /\
  labels_inv d (seqZ 0 N) (has (Bitmap.fill (init raw_out N))) /\ (u32 N = 0 <-> forall v, ~ has (Bitmap.fill (init raw_out N)) v).
Proof.
  assert (Hn0 : 0 <= N) by lia. destruct (fill_spec (init raw_out N) (wf_init raw_out N Hn0)) as (Hw & Hs & Hb). cbn in Hs, Hb.
  split; [split; [done|split; [by apply words_ok_fill, words_ok_init|done]]|].
  split; [split; [by apply wf_init|split; [by apply words_ok_init|done]]|]. split; [by apply label_start_inv|].
  rewrite (wrap_small 32) by (unfold in_width; lia). split.
  - intros Hz v Hv. apply Hb in Hv. lia.
  - intros Hnone. destruct (decide (N = 0)); [done|]. destruct (Hnone 0). apply Hb. lia.
Qed.

Lemma parallel_wcc_run fuel : (vertices d * vertices d < fuel)%nat -> exists l d', parallel_wcc raw_in raw_out sched fuel d = Some (labelled l, d') /\
  same_graph d d' /\ length l = vertices d /\ forall v, vertex d v -> exists c, get l v = Some c /\ Wcc.leader d v c.
Proof.
  intros Hf. destruct start_ok as (H1 & H2 & H3 & H4). unfold parallel_wcc.
  destruct (wcc_rounds_run d d_closed scans_small fuel 0 sched d (init raw_in N) _ _ _ H3 H1 H2 H4 d_scannable) as (l & d' & active & -> & Hg & Hi & Hn); [done|..].
  { pose proof (zsum_seqZ (vertices d) 0). nia. }
  cbn [mbind option_bind]. exists l, d'. split; [done|]. split; [done|]. split; [by eapply li_length|]. intros v Hv. by eapply settled_leader.
Qed.

Lemma parallel_cdlp_run max_iterations : exists l d' active, parallel_cdlp raw_in raw_out sched max_iterations d = Some (labelled l, d') /\
  same_graph d d' /\ labels_inv d l active /\ ((vertices d * vertices d < max_iterations)%nat -> forall v, ~ active v).
Proof.
  destruct start_ok as (H1 & H2 & H3 & H4). unfold parallel_cdlp.
  destruct (cdlp_rounds_run d d_closed scans_small max_iterations 0 sched d (init raw_in N) _ _ _ H3 H1 H2 H4 d_scannable) as (l & d' & active & -> & Hg & Hi & Hn); [done|].
  cbn [mbind option_bind]. exists l, d', active. do 3 (split; [done|]). intros Hm. apply Hn. pose proof (zsum_seqZ (vertices d) 0). nia.
Qed.
End Results.

(** C20: under every interleaving of the steps of a round's callbacks, and
    whatever the bitmaps' memory held, the parallel component search ends and
    labels every vertex with the least vertex that reaches it; the labels
    order vertices as those of the sequential search do. *)
Theorem parallel_wcc_agrees {D : Type} `{!NeighborReader D} `{!EdgeScanner D} (d : D) (raw_in raw_out : list Z)
    (sched : nat -> list nat) (fuel : nat) :
  readable d -> (forall u l v, adj d u = Some l -> v ∈ l -> vertex d v) -> scannable d -> Z.of_nat (vertices d) < 2 ^ 32 - 1 ->
  (forall d' b calls d2, same_graph d d' -> edge_scan d' b = Some (calls, d2) -> Z.of_nat (length calls) < 2 ^ 32) ->
  Forall (fun w => 0 <= w < 2 ^ 64) raw_in -> Forall (fun w => 0 <= w < 2 ^ 64) raw_out -> (vertices d * vertices d < fuel)%nat ->
  exists res d' seq_res d2, parallel_wcc raw_in raw_out sched fuel d = Some (res, d') /\ same_graph d d' /\
    res.*1 = seqZ 0 (Z.of_nat (vertices d)) /\ (forall v c, (v, c) ∈ res -> Wcc.leader d v c) /\
    Wcc.wcc fuel d = Some (seq_res, d2) /\
    forall v w cv cw sv sw, (v, cv) ∈ res -> (w, cw) ∈ res -> (v, sv) ∈ seq_res -> (w, sw) ∈ seq_res -> (cv < cw <-> sv < sw).
Proof.
  intros Hr Hc Hsc Hn Hsm Hri Hro Hf.
  destruct (parallel_wcc_run d raw_in raw_out sched Hc Hsm Hsc ltac:(lia) Hri Hro fuel Hf) as (l & d' & E & Hg & Hl & Hlead).
  destruct (Wcc.wcc_run d fuel Hr Hn) as (res2 & d2 & E2 & _ & _ & _ & Hord); [nia|].
  assert (Hres : forall v c, (v, c) ∈ labelled l -> Wcc.leader d v c).
  { intros v c Hv. apply labelled_elem in Hv as [Hv Ec]. destruct (Hlead v) as (c' & Ec' & Hc'); [apply lookup_lt_Some in Ec; unfold vertex; lia|].
    replace c with c' by congruence. exact Hc'. }
  exists (labelled l), d', res2, d2. split; [done|]. split; [done|]. split; [by apply labelled_keys|]. split; [done|]. split; [done|].
  intros v w cv cw sv sw Hv Hw Hv2 Hw2. symmetry. by apply (Hord v w sv sw cv cw); auto.
Qed.

(** [parallel_cdlp] propagates least labels too, for a bounded number of
    rounds: every vertex gets a vertex that reaches it and is no greater, and
    with enough rounds the least one, so the communities are then the
    components. *)
Theorem parallel_cdlp_labels {D : Type} `{!NeighborReader D} `{!EdgeScanner D} (d : D) (raw_in raw_out : list Z)
    (sched : nat -> list nat) (max_iterations : nat) :
  (forall u l v, adj d u = Some l -> v ∈ l -> vertex d v) -> scannable d -> Z.of_nat (vertices d) < 2 ^ 32 ->
  (forall d' b calls d2, same_graph d d' -> edge_scan d' b = Some (calls, d2) -> Z.of_nat (length calls) < 2 ^ 32) ->
  Forall (fun w => 0 <= w < 2 ^ 64) raw_in -> Forall (fun w => 0 <= w < 2 ^ 64) raw_out ->
  exists res d', parallel_cdlp raw_in raw_out sched max_iterations d = Some (res, d') /\ same_graph d d' /\
    res.*1 = seqZ 0 (Z.of_nat (vertices d)) /\ (forall v c, (v, c) ∈ res -> c <= v /\ reaches d c v) /\
    ((vertices d * vertices d < max_iterations)%nat -> forall v c, (v, c) ∈ res -> Wcc.leader d v c).
Proof.
  intros Hc Hsc Hn Hsm Hri Hro.
  destruct (parallel_cdlp_run d raw_in raw_out sched Hc Hsm Hsc Hn Hri Hro max_iterations) as (l & d' & active & E & Hg & Hi & Hm).
  assert (Hlt : forall v c, 0 <= v -> get l v = Some c -> vertex d v).
  { intros v c Hv Ec. apply lookup_lt_Some in Ec. pose proof (li_length _ _ _ Hi). unfold vertex. lia. }
  exists (labelled l), d'. split; [done|]. split; [done|]. split; [apply labelled_keys; by eapply li_length|]. split.
  - intros v c Hv. apply labelled_elem in Hv as [Hv Ec]. destruct (li_label _ _ _ Hi v c (Hlt v c Hv Ec) Ec). split; [lia|done].
  - intros Hmax v c Hv. apply labelled_elem in Hv as [Hv Ec].
    destruct (settled_leader d l active v Hi (Hm Hmax) (Hlt v c Hv Ec)) as (c' & Ec' & Hc'). replace c with c' by congruence. exact Hc'.
Qed.

End ParallelWcc.
