(* ===== verification/WccSv.v ===== *)
(** * Components by hooking and pointer jumping ([bw_graph_db_t::wcc_sv])

    A forest of parents.  A round maps every edge with a functor that hooks the
    larger of two different roots under the smaller, then halves paths until
    nothing moves; the rounds end when no edge hooks.  Every load, store and
    compare-and-swap of a parent is a step, so the walks to the roots, the swap
    and the halving of different calls interleave.  On a symmetric graph the root
    of a vertex is in the end the least vertex of its component. *)

From S2P Require Import Prelude GraphRead VertexSet Interleave EdgeMap Bfs Wcc.

Local Open Scope Z_scope.

Module WccSv.
Import GraphRead VertexSet Interleave EdgeMap EdgeMapInv Wcc.

Record sv_state_t := SvState { parent : list Z; changed : bool; moved : bool }.

(** [None]: out of range, or more steps than there are vertices. *)
Fixpoint wcc_find_root (fuel : nat) (parent : list Z) (v : Z) : option Z :=
  match fuel with
  | O => None
  | S fuel => p ← parent !! Z.to_nat v; if p =? v then Some v else wcc_find_root fuel parent p
  end.

Definition find_root (parent : list Z) (v : Z) : option Z := wcc_find_root (length parent) parent v.

(** Where a call of [wcc_hook_functor_t] is: on the way to the root of the
    source (with the target in hand) and of the target (with the root of the
    source), before the compare-and-swap, before the store to [changed]. *)
Inductive hook_pc := FindSrc (cur dst : Z) | FindDst (cur src_root : Z) | Swap (hi lo : Z) | SetChanged.

Definition hook_step (st : sv_state_t) (pc : hook_pc) : option (sv_state_t * (hook_pc + bool)) :=
  match pc with
  | FindSrc cur dst =>
    p ← parent st !! Z.to_nat cur;
    Some (st, inl (if p =? cur then FindDst dst cur else FindSrc p dst))
  | FindDst cur src_root =>
    p ← parent st !! Z.to_nat cur;
    Some (st, if p =? cur then
                if src_root =? cur then inr false else inl (Swap (Z.max src_root cur) (Z.min src_root cur))
              else inl (FindDst p src_root))
  | Swap hi lo =>
    p ← parent st !! Z.to_nat hi;
    Some (if p =? hi then (SvState (<[Z.to_nat hi := lo]> (parent st)) (changed st) (moved st), inl SetChanged) else (st, inr false))
  | SetChanged => Some (SvState (parent st) true (moved st), inr true)
  end.

(** A walk goes down, when parents are no larger than their children. *)
Definition hook_weight (pc : hook_pc) : nat :=
  match pc with
  | FindSrc cur dst => Z.to_nat cur + Z.to_nat dst + 5
  | FindDst cur _ => Z.to_nat cur + 4
  | Swap _ _ => 2
  | SetChanged => 1
  end.

Definition hook_functor : call_functor_t sv_state_t hook_pc := CallFunctor (fun _ _ => Some true) FindSrc hook_step hook_weight.

(** [wcc_compress_functor_t]. *)
Inductive compress_pc := LoadParent (v : Z) | LoadGrand (v p : Z) | StoreParent (v gp : Z) | SetMoved.

Definition compress_step (st : sv_state_t) (pc : compress_pc) : option (sv_state_t * option compress_pc) :=
  match pc with
  | LoadParent v => p ← parent st !! Z.to_nat v; Some (st, Some (LoadGrand v p))
  | LoadGrand v p => gp ← parent st !! Z.to_nat p; Some (st, if p =? gp then None else Some (StoreParent v gp))
  | StoreParent v gp => Some (SvState (<[Z.to_nat v := gp]> (parent st)) (changed st) (moved st), Some SetMoved)
  | SetMoved => Some (SvState (parent st) (changed st) true, None)
  end.

Definition compress_weight (pc : compress_pc) : nat :=
  match pc with LoadParent _ => 4 | LoadGrand _ _ => 3 | StoreParent _ _ => 2 | SetMoved => 1 end.

Definition make_full_frontier (vertex_count : nat) : vertex_subset_t :=
  dense_subset (Z.of_nat vertex_count) (Z.of_nat vertex_count) (replicate vertex_count true).

(** Passes until none moves; [sched]: the interleaving of each pass. *)
Fixpoint compress_loop (fuel pass : nat) (sched : nat -> list nat) (all : vertex_subset_t) (st : sv_state_t) :
    option sv_state_t :=
  match fuel with
  | O => None
  | S fuel =>
    st ← bw_vertex_map_calls LoadParent compress_step compress_weight (sched pass) all (SvState (parent st) (changed st) false);
    if moved st then compress_loop fuel (S pass) sched all st else Some st
  end.

Section WccSv.
Context {D : Type} `{!NeighborReader D} `{!EdgeLister D}.

Fixpoint sv_loop (fuel round : nat) (raw : nat -> list Z) (sched : nat -> list nat) (csched : nat -> nat -> list nat)
    (threshold_divisor : Z) (all : vertex_subset_t) (st : sv_state_t) (d : D) : option (sv_state_t * D) :=
  match fuel with
  | O => None
  | S fuel' =>
    '(_, all, st, d) ← bw_edge_map_calls hook_functor raw (sched round) d all (SvState (parent st) false (moved st)) threshold_divisor;
    let any_hook := changed st in
    st ← compress_loop fuel 0 (csched round) all st;
    if any_hook then sv_loop fuel' (S round) raw sched csched threshold_divisor all st d else Some (st, d)
  end.

Definition wcc_sv (fuel : nat) (raw : nat -> list Z) (sched : nat -> list nat) (csched : nat -> nat -> list nat)
    (d : D) (threshold_divisor : Z) : option (list (Z * Z) * D) :=
  if (vertices d =? 0)%nat then Some ([], d)
  else
    let ids := seqZ 0 (Z.of_nat (vertices d)) in
    '(st, d) ← sv_loop fuel 0 raw sched csched threshold_divisor (make_full_frontier (vertices d)) (SvState ids false false) d;
    res ← mapM (fun i => r ← find_root (parent st) i; Some (i, r)) ids;
    Some (res, d).

End WccSv.

(** ** Forests *)

Section Forest.
Context {D : Type} `{!NeighborReader D}.
Variable d0 : D.

(** Parents are no larger and connected. *)
Definition forest (par : list Z) : Prop :=
  length par = vertices d0 /\
  forall v, vertex d0 v -> exists p, par !! Z.to_nat v = Some p /\ 0 <= p <= v /\ reaches d0 v p.

Inductive rooted (par : list Z) : Z -> Z -> Prop :=
  | rooted_here v : par !! Z.to_nat v = Some v -> rooted par v v
  | rooted_up v p r : par !! Z.to_nat v = Some p -> p <> v -> rooted par p r -> rooted par v r.

Lemma rooted_fun par v a b : rooted par v a -> rooted par v b -> a = b.
Proof.
  induction 1 as [v E|v p r E Hne _ IH]; inversion 1 as [? E'|? q ? E' Hne' Hq]; subst; [done|congruence|congruence|].
  apply IH. congruence.
Qed.

Lemma rooted_root par v r : rooted par v r -> par !! Z.to_nat r = Some r.
Proof. by induction 1. Qed.

Lemma parent_vertex par v p : forest par -> vertex d0 v -> par !! Z.to_nat v = Some p -> vertex d0 p /\ 0 <= p <= v /\ reaches d0 v p.
Proof.
  intros [_ Hf] Hv E. destruct (Hf v Hv) as (q & E' & Hq & Hr). replace p with q by congruence. split; [|done].
  destruct Hr as [k Hk]. by apply walk_vertex in Hk as [_ ?].
Qed.

(** Every vertex has a root, found within as many steps as its identifier. *)
Lemma find_root_run par v : forest par -> vertex d0 v ->
  exists r, find_root par v = Some r /\ rooted par v r /\ vertex d0 r /\ r <= v /\ reaches d0 v r.
Proof.
  intros Hf Hv. unfold find_root. rewrite (proj1 Hf). assert (Hfuel : (Z.to_nat v < vertices d0)%nat) by (destruct Hv; lia).
  revert Hfuel. generalize (vertices d0) as fuel. remember (Z.to_nat v) as k eqn:Ek.
  revert v Hv Ek. induction k as [k IH] using lt_wf_ind. intros v Hv Ek fuel Hfuel.
  destruct fuel as [|fuel]; [lia|]. cbn [wcc_find_root]. destruct (proj2 Hf v Hv) as (p & E & Hp & Hr). rewrite E. cbn [mbind option_bind].
  destruct (Z.eqb_spec p v) as [->|Hne].
  - exists v. split; [done|]. split; [by constructor|]. split; [done|]. split; [lia|done].
  - destruct (parent_vertex par v p Hf Hv E) as (Hvp & _ & _).
    destruct (IH (Z.to_nat p) ltac:(lia) p Hvp eq_refl fuel ltac:(lia)) as (r & Er & H1 & H2 & H3 & H4).
    exists r. split; [done|]. split; [by econstructor|]. split; [done|]. split; [lia|]. by eapply reaches_trans.
Qed.

(** The sum of the parents goes down with every change. *)
Definition weight (par : list Z) : nat := sum_list (Z.to_nat <$> par).
Arguments weight : simpl never.

Lemma weight_cons a par : weight (a :: par) = (Z.to_nat a + weight par)%nat.
Proof. done. Qed.

Lemma weight_insert par i p q : par !! i = Some p -> 0 <= q < p -> (weight (<[i := q]> par) < weight par)%nat.
Proof.
  revert i. induction par as [|a par IH]; intros [|i] E Hq; try done.
  - injection E as ->. change (<[0%nat := q]> (p :: par)) with (q :: par). rewrite !weight_cons. lia.
  - change (<[S i := q]> (a :: par)) with (a :: <[i := q]> par). rewrite !weight_cons. specialize (IH i E Hq). lia.
Qed.

Lemma forest_insert par v p : forest par -> vertex d0 v -> 0 <= p <= v -> reaches d0 v p -> forest (<[Z.to_nat v := p]> par).
Proof.
  intros [Hl Hf] Hv Hp Hr. split; [by rewrite length_insert|]. intros w Hw. destruct (decide (w = v)) as [->|Hne].
  - exists p. split; [|done]. apply list_lookup_insert_eq. destruct Hv. lia.
  - destruct Hv, Hw. rewrite list_lookup_insert_ne by lia. by apply Hf.
Qed.

Lemma rooted_parent par v p r : rooted par v r -> par !! Z.to_nat v = Some p -> rooted par p r.
Proof. inversion 1 as [? E|? q ? E Hq Hr]; subst; intros Ep; [replace p with r by congruence; by constructor|by replace p with q by congruence]. Qed.

(** Pointing a vertex at a smaller one with the same root changes no root. *)
Lemma rooted_move par v gp r0 : forest par -> vertex d0 v -> vertex d0 gp -> gp < v -> rooted par v r0 -> rooted par gp r0 ->
  forall w r, vertex d0 w -> rooted par w r -> rooted (<[Z.to_nat v := gp]> par) w r.
Proof.
  intros Hf Hv Hg Hlt Hrv Hrg w r Hw Hr. assert (Hl : (Z.to_nat v < length par)%nat) by (rewrite (proj1 Hf); destruct Hv; lia).
  remember (Z.to_nat w) as k eqn:Ek. revert w r Ek Hw Hr. induction k as [k IH] using lt_wf_ind. intros w r Ek Hw Hr.
  destruct (decide (w = v)) as [->|Hne].
  - replace r with r0 by (by eapply rooted_fun; [exact Hrv|]). eapply rooted_up; [by apply list_lookup_insert_eq|lia|].
    apply (IH (Z.to_nat gp)); [destruct Hg; lia|done..].
  - inversion Hr as [? E|? q ? E Hq Hr']; subst.
    + constructor. destruct Hw, Hv. by rewrite list_lookup_insert_ne by lia.
    + destruct (parent_vertex par w q Hf Hw E) as (Hvq & Hqw & _). apply rooted_up with q; [|done|].
      * destruct Hw, Hv. by rewrite list_lookup_insert_ne by lia.
      * apply (IH (Z.to_nat q)); [destruct Hvq; lia|done..].
Qed.

(** ** Compression *)

Section Pass.
(** The vertices of the pass and the state it starts from. *)
Variables (l : list Z) (st0 : sv_state_t).
Hypothesis l_nodup : NoDup l.
Hypothesis l_vertex : forall v, v ∈ l -> vertex d0 v.
Hypothesis st0_forest : forest (parent st0).

Definition compress_ok (st : sv_state_t) (v : Z) (t : option compress_pc) : Prop :=
  match t with
  | None => True
  | Some (LoadParent w) => w = v
  | Some (LoadGrand w p) => w = v /\ parent st !! Z.to_nat v = Some p
  | Some (StoreParent w gp) => w = v /\ vertex d0 gp /\ reaches d0 v gp /\
      (exists p, parent st !! Z.to_nat v = Some p /\ 0 <= gp < p) /\ exists r, rooted (parent st0) v r /\ rooted (parent st0) gp r
  | Some SetMoved => (weight (parent st) < weight (parent st0))%nat
  end.

Definition same_roots (st : sv_state_t) : Prop := forall w r, vertex d0 w -> rooted (parent st0) w r -> rooted (parent st) w r.

Record pass_inv (st : sv_state_t) (ts : list (option compress_pc)) : Prop := {
  pa_forest : forest (parent st);
  pa_changed : changed st = changed st0;
  pa_roots : same_roots st;
  pa_weight : (weight (parent st) <= weight (parent st0))%nat;
  pa_moved : moved st = true -> (weight (parent st) < weight (parent st0))%nat;
  pa_length : length ts = length l;
  pa_calls : forall i v t, l !! i = Some v -> ts !! i = Some t -> compress_ok st v t
}.

(** A step that writes no parent. *)
Lemma pass_quiet st st' ts i t' : pass_inv st ts -> parent st' = parent st -> changed st' = changed st ->
  (moved st' = true -> (weight (parent st) < weight (parent st0))%nat) -> (forall v, l !! i = Some v -> compress_ok st v t') ->
  pass_inv st' (<[i := t']> ts).
Proof.
  intros [H1 H2 H3 H4 H5 H6 H7] Ep Ec Em Ht. constructor; unfold same_roots in *; rewrite ?Ep, ?length_insert; try done; [congruence|].
  assert (Heq : forall v t, compress_ok st v t -> compress_ok st' v t) by (intros v [[]|]; cbn; by rewrite ?Ep).
  intros j v t Ej Et. apply Heq. apply list_lookup_insert_Some in Et as [(<- & <- & _)|[_ Et]]; [by apply Ht|by eapply H7].
Qed.

(** The store. *)
Lemma pass_store st ts i v gp : pass_inv st ts -> l !! i = Some v -> compress_ok st v (Some (StoreParent v gp)) ->
  pass_inv (SvState (<[Z.to_nat v := gp]> (parent st)) (changed st) (moved st)) (<[i := Some SetMoved]> ts).
Proof.
  intros [H1 H2 H3 H4 H5 H6 H7] Ei (_ & Hvg & Hre & (p & Ep & Hgp) & r & Hr1 & Hr2).
  assert (Hv : vertex d0 v) by (apply l_vertex; by eapply list_elem_of_lookup_2).
  destruct (parent_vertex _ v p H1 Hv Ep) as (_ & Hpv & _). pose proof (weight_insert _ _ p gp Ep ltac:(lia)) as Hw.
  constructor; cbn [parent changed moved]; [|done| |lia|lia|by rewrite length_insert|].
  - apply forest_insert; [done|done|lia|done].
  - intros w q Hw' Hq. cbn. apply (rooted_move _ v gp r); [done|done|done|lia|by apply H3|by apply H3|done|by apply H3].
  - intros j w t Ej Et. apply list_lookup_insert_Some in Et as [(<- & <- & _)|[Hne Et]]; [cbn; lia|].
    assert (Hwv : Z.to_nat w <> Z.to_nat v).
    { intros Hz. apply Hne. eapply (NoDup_lookup l); [done|exact Ei|]. assert (w = v) as -> by (destruct (l_vertex w), Hv; [by eapply list_elem_of_lookup_2|lia]). done. }
    specialize (H7 j w t Ej Et). destruct t as [[]|]; cbn in *; [done| |by rewrite list_lookup_insert_ne|lia|done].
    by rewrite list_lookup_insert_ne.
Qed.

Lemma pass_step st ts i t : pass_inv st ts -> ts !! i = Some t ->
  exists st' t', step_vertex_call compress_step st t = Some (st', t') /\ pass_inv st' (<[i := t']> ts).
Proof.
  intros Hi Et. pose proof Hi as [H1 H2 H3 H4 H5 H6 H7].
  destruct (lookup_lt_is_Some_2 l i) as [v Ei]; [rewrite <- H6; by eapply lookup_lt_Some|].
  assert (Hv : vertex d0 v) by (apply l_vertex; by eapply list_elem_of_lookup_2). pose proof (H7 i v t Ei Et) as Hok.
  destruct t as [[w|w p|w gp|]|]; cbn [step_vertex_call compress_step].
  - cbn in Hok. subst w. destruct (proj2 H1 v Hv) as (p & Ep & _). rewrite Ep. cbn [mbind option_bind].
    eexists _, _. split; [done|]. apply (pass_quiet st); [done..|]. intros x Ex. replace x with v by congruence. done.
  - destruct Hok as [-> Ep]. destruct (parent_vertex _ v p H1 Hv Ep) as (Hvp & Hpv & Hre).
    destruct (proj2 H1 p Hvp) as (gp & Eg & Hgp & Hrg). rewrite Eg. cbn [mbind option_bind].
    eexists _, _. split; [done|]. apply (pass_quiet st); [done..|]. intros x Ex. replace x with v by congruence. clear x Ex.
    destruct (Z.eqb_spec p gp) as [->|Hne]; [done|]. destruct (parent_vertex _ p gp H1 Hvp Eg) as (Hvg & _ & _).
    split; [done|]. split; [done|]. split; [by eapply reaches_trans|]. split; [exists p; split; [done|lia]|].
    destruct (find_root_run _ v st0_forest Hv) as (r & _ & Hr & _). exists r. split; [done|].
    destruct (find_root_run _ gp st0_forest Hvg) as (r' & _ & Hr' & _). replace r with r'; [done|].
    eapply rooted_fun; [by apply H3, Hr'|]. eapply rooted_parent; [|exact Eg]. eapply rooted_parent; [|exact Ep]. by apply H3.
  - pose proof Hok as [-> _]. eexists _, _. split; [done|]. by apply pass_store.
  - cbn in Hok. eexists _, _. split; [done|]. by apply (pass_quiet st).
  - eexists _, _. split; [done|]. by apply (pass_quiet st).
Qed.

Lemma pass_run sched : moved st0 = false -> exists st ts, run_all (fun st _ t => step_vertex_call compress_step st t) (from_option compress_weight 0%nat)
    sched st0 ((fun v => Some (LoadParent v)) <$> l) = Some (st, ts) /\ pass_inv st ts.
Proof.
  intros Hm. destruct (run_all_inv (fun st _ t => step_vertex_call compress_step st t) (from_option compress_weight 0%nat)) with
    (Inv := pass_inv) (sched := sched) (st := st0) (ts := (fun v => Some (LoadParent v)) <$> l) as (st & ts & E & Hi & _).
  - intros st _ [[]|] st' t'; cbn; repeat (match goal with |- context [parent ?s !! ?i] => destruct (parent s !! i); cbn end);
      intros; simplify_eq; cbn; try (case_match; cbn); lia.
  - intros st ts i t. by apply pass_step.
  - constructor; [done|done|by intros w r _ Hr|lia|congruence|by rewrite length_fmap|]. intros i v t Ei Et. rewrite list_lookup_fmap, Ei in Et. by injection Et as <-.
  - by exists st, ts.
Qed.

End Pass.

(** The frontier of all vertices. *)
Definition everything : gset Z := list_to_set (seqZ 0 (Z.of_nat (vertices d0))).

Lemma elem_of_everything v : v ∈ everything <-> vertex d0 v.
Proof. unfold everything, vertex. rewrite elem_of_list_to_set, elem_of_seqZ. lia. Qed.

Lemma mapped_run vs X : shows vs X -> VertexSet.is_empty vs = false -> exists l, mapped vs = Some l /\ NoDup l /\ forall v, v ∈ l -> v ∈ X.
Proof.
  intros Hs He. unfold VertexSet.is_empty in He. apply Z.eqb_neq in He. assert (Hm : 0 < m vs) by (pose proof (sh_count _ _ Hs); lia).
  unfold mapped, dense. destruct (is_dense vs) eqn:Ed.
  - rewrite (proj2 (mapM_Some (fun v => b ← is_in vs v; Some (v, b)) (seqZ 0 (num_vertices vs)) ((fun v => (v, bool_decide (v ∈ X))) <$> seqZ 0 (num_vertices vs)))).
    2:{ apply Forall2_fmap_r, Forall_Forall2_diag, Forall_forall. intros v Hv. apply elem_of_seqZ in Hv. cbn.
        by rewrite (is_in_shows vs X v Hs Ed) by (unfold num_vertices in Hv; lia). }
    cbn [mbind option_bind]. eexists. split; [done|]. split.
    + generalize (NoDup_seqZ 0 (num_vertices vs)). generalize (seqZ 0 (num_vertices vs)). intros vl. induction 1 as [|v vl Hv _ IH]; [constructor|].
      cbn [fmap list_fmap]. rewrite filter_cons. case_decide; [|done]. cbn [fmap list_fmap]. constructor; [|done].
      intros (q & Eq & (_ & (x & -> & Hx)%list_elem_of_fmap)%list_elem_of_filter)%list_elem_of_fmap. cbn in Eq. by subst x.
    + intros v (q & -> & (Hb & (x & -> & _)%list_elem_of_fmap)%list_elem_of_filter)%list_elem_of_fmap. by apply bool_decide_eq_true in Hb.
  - destruct (sh_form _ _ Hs Ed Hm) as [l El]. exists l. rewrite (vtx_shows vs X l Hs El). split; [done|]. destruct (sh_sparse _ _ Hs l El) as [Hnd Hx].
    split; [done|]. intros v Hv. by apply Hx.
Qed.

Lemma compress_loop_run sched all : shows all everything -> (0 < vertices d0)%nat ->
  forall fuel pass st, forest (parent st) -> (weight (parent st) < fuel)%nat ->
  exists st', compress_loop fuel pass sched all st = Some st' /\ forest (parent st') /\ changed st' = changed st /\
    (forall w r, vertex d0 w -> rooted (parent st) w r -> rooted (parent st') w r) /\ (weight (parent st') <= weight (parent st))%nat.
Proof.
  intros Hs Hpos fuel. induction fuel as [|fuel IH]; intros pass st Hf Hw; [lia|]. cbn [compress_loop].
  assert (He : VertexSet.is_empty all = false).
  { unfold VertexSet.is_empty. apply Z.eqb_neq. rewrite (sh_count _ _ Hs). assert (size everything <> 0%nat); [|lia].
    intros Hz. apply size_empty_inv in Hz. assert (H0 : 0 ∈ everything) by (apply elem_of_everything; split; lia). set_solver. }
  unfold bw_vertex_map_calls. rewrite He. destruct (mapped_run all everything Hs He) as (l & -> & Hnd & Hl). cbn [mbind option_bind].
  destruct (pass_run l (SvState (parent st) (changed st) false)) with (sched := sched pass) as (st2 & ts & E & [H1 H2 H3 H4 H5 _ _]);
    [done|intros v Hv; by apply elem_of_everything, Hl|done|done|].
  rewrite E. cbn [mbind option_bind]. cbn in H2, H4, H5. destruct (moved st2) eqn:Em; [|by exists st2].
  specialize (H5 eq_refl). destruct (IH (S pass) st2 H1) as (st3 & E3 & F1 & F2 & F3 & F4); [lia|].
  exists st3. split; [done|]. split; [done|]. split; [congruence|]. split; [|lia]. intros w r Hwv Hr. apply F3; [done|]. by apply H3.
Qed.

(** ** Hooking *)

Hypothesis d0_symmetric : symmetric d0.

Section Hook.
(** The parents when the map begins. *)
Variable par0 : list Z.

(** Something has been hooked, so another round follows. *)
Definition hooked (st : sv_state_t) : Prop := (weight (parent st) < weight par0)%nat.

(** Both ends have one root, unless something has been hooked. *)
Definition hook_handled (st : sv_state_t) (u v : Z) : Prop :=
  hooked st \/ exists r, rooted (parent st) u r /\ rooted (parent st) v r.

Definition meet (st : sv_state_t) (a b : Z) : Prop := exists r, rooted (parent st) a r /\ rooted (parent st) b r.

(** What a call knows: it stands at connected vertices, and at the right ones
    unless something has been hooked since. *)
Definition hook_call_ok (st : sv_state_t) (x : Z * Z * hook_pc) : Prop :=
  let '(u, v, pc) := x in
  edge d0 u v /\
  match pc with
  | FindSrc cur dst => dst = v /\ vertex d0 cur /\ reaches d0 u cur /\ (hooked st \/ meet st u cur)
  | FindDst cur src_root => vertex d0 cur /\ vertex d0 src_root /\ reaches d0 u src_root /\ reaches d0 v cur /\
      (hooked st \/ rooted (parent st) u src_root /\ meet st v cur)
  | Swap hi lo => vertex d0 hi /\ 0 <= lo < hi /\ reaches d0 hi lo /\ (hooked st \/ parent st !! Z.to_nat hi = Some hi)
  | SetChanged => hooked st
  end.

Record hook_inv (st : sv_state_t) (cs : list (Z * Z * hook_pc)) : Prop := {
  hi_forest : forest (parent st);
  hi_parent : hooked st \/ parent st = par0;
  hi_changed : changed st = true -> hooked st;
  hi_pending : hooked st -> changed st = true \/ SetChanged ∈ cs.*2;
  hi_calls : Forall (hook_call_ok st) cs
}.

(** A step writes no parent, or hooks. *)
Definition moves_on (st st' : sv_state_t) : Prop := hooked st' \/ parent st' = parent st.

Lemma hook_handled_mono st st' a c : moves_on st st' -> hook_handled st a c -> hook_handled st' a c.
Proof. intros [?|E]; [by left|]. unfold hook_handled, hooked. by rewrite E. Qed.

Lemma hook_call_mono st st' x : moves_on st st' -> hook_call_ok st x -> hook_call_ok st' x.
Proof.
  destruct x as [[u v] pc]. intros [Hh|E] [He Hx]; (split; [exact He|]).
  - destruct pc; cbn in *; tauto.
  - unfold hook_call_ok, hooked, meet in *. rewrite E. exact Hx.
Qed.

Lemma hook_calls_mono st st' cs : moves_on st st' -> Forall (hook_call_ok st) cs -> Forall (hook_call_ok st') cs.
Proof. intros Hm Hc. eapply Forall_impl; [exact Hc|]. intros x. by apply hook_call_mono. Qed.

(** A call goes on, or ends, without a write. *)
Lemma hook_quiet st cs u v pc pc' : hook_inv st ((u, v, pc) :: cs) -> pc <> SetChanged -> hook_call_ok st (u, v, pc') -> hook_inv st ((u, v, pc') :: cs).
Proof.
  intros [H1 H2 H3 H4 H5] Hne Hok. constructor; [done..| |constructor; [done|by apply Forall_cons in H5 as [_ ?]]].
  intros Hh. destruct (H4 Hh) as [?|Hin]; [by left|]. right. cbn in *. apply elem_of_cons in Hin as [Hx|?]; [congruence|by right].
Qed.

Lemma hook_end st cs u v pc : hook_inv st ((u, v, pc) :: cs) -> pc <> SetChanged -> hook_inv st cs.
Proof.
  intros [H1 H2 H3 H4 H5] Hne. constructor; [done..| |by apply Forall_cons in H5 as [_ ?]].
  intros Hh. destruct (H4 Hh) as [?|Hin]; [by left|]. right. cbn in *. apply elem_of_cons in Hin as [Hx|?]; [congruence|done].
Qed.

Lemma meet_up st a cur p : parent st !! Z.to_nat cur = Some p -> meet st a cur -> meet st a p.
Proof. intros E (r & H1 & H2). exists r. split; [done|by eapply rooted_parent]. Qed.

Lemma meet_root st a cur : parent st !! Z.to_nat cur = Some cur -> meet st a cur -> rooted (parent st) a cur.
Proof. intros E (r & H1 & H2). replace cur with r; [done|]. eapply rooted_fun; [exact H2|by constructor]. Qed.

Lemma meet_self st v : forest (parent st) -> vertex d0 v -> meet st v v.
Proof. intros Hf Hv. destruct (find_root_run _ v Hf Hv) as (r & _ & Hr & _). by exists r. Qed.

(** The swap that wins hooks [hi]; it can only lose when something was hooked. *)
Lemma hook_swap st cs u v hi lo : hook_inv st ((u, v, Swap hi lo) :: cs) -> parent st !! Z.to_nat hi = Some hi ->
  let st' := SvState (<[Z.to_nat hi := lo]> (parent st)) (changed st) (moved st) in
  hooked st' /\ hook_inv st' ((u, v, SetChanged) :: cs).
Proof.
  intros [H1 H2 H3 H4 H5] E st'. apply Forall_cons in H5 as [(He & Hvh & Hlo & Hre & _) H5].
  pose proof (weight_insert _ _ hi lo E Hlo) as Hw. assert (Hh : hooked st').
  { unfold hooked. cbn. destruct H2 as [Hh|Hp]; [unfold hooked in Hh; lia|]. rewrite <- Hp. done. }
  split; [done|]. constructor; [by apply forest_insert; [done|done|lia|]|by left|by intros _|intros _; right; cbn; left|].
  constructor; [done|]. apply (hook_calls_mono st); [by left|done].
Qed.

Lemma hook_calls_ok : calls_ok hook_functor hook_inv (edge d0) hook_handled.
Proof.
  constructor.
  - done.
  - intros st cs cs' Hp [H1 H2 H3 H4 H5]. constructor; [done..| |by rewrite <- Hp]. intros Hh. by rewrite <- Hp; auto.
  - intros st cs u v Hi He. pose proof He as (Hu & Hv & _). pose proof Hi as [H1 H2 H3 H4 H5]. constructor; [done..| |].
    + intros Hh. destruct (H4 Hh); [by left|]. right. by right.
    + constructor; [|done]. split; [done|]. split; [done|]. split; [done|]. split; [by apply reaches_refl|]. right. by apply meet_self.
  - intros st cs u v pc Hi. pose proof Hi as [H1 H2 H3 H4 H5]. apply Forall_cons in H5 as [[He Hok] H5]. pose proof He as (Hu & Hv & _).
    destruct pc as [cur dst|cur sr|hi lo|]; cbn [cf_step hook_functor hook_step].
    + destruct Hok as (-> & Hvc & Hre & Hm). destruct (proj2 H1 cur Hvc) as (p & Ep & Hp & Hr). rewrite Ep. cbn [mbind option_bind].
      eexists _, _. split; [done|]. split; [done|]. destruct (parent_vertex _ cur p H1 Hvc Ep) as (Hvp & _ & _).
      destruct (Z.eqb_spec p cur) as [->|Hne]; (split; [apply (hook_quiet st cs u v (FindSrc cur v)); [done|done|]; split; [done|]|cbn; lia]).
      * split; [done|]. split; [done|]. split; [done|]. split; [by apply reaches_refl|].
        destruct Hm as [?|Hm]; [by left|]. right. split; [by apply meet_root|by apply meet_self].
      * split; [done|]. split; [done|]. split; [by eapply reaches_trans|]. destruct Hm as [?|Hm]; [by left|]. right. by apply (meet_up st u cur).
    + destruct Hok as (Hvc & Hvs & Hru & Hrv & Hm). destruct (proj2 H1 cur Hvc) as (p & Ep & Hp & Hr). rewrite Ep. cbn [mbind option_bind].
      eexists _, _. split; [done|]. split; [done|]. destruct (parent_vertex _ cur p H1 Hvc Ep) as (Hvp & _ & _).
      destruct (Z.eqb_spec p cur) as [->|Hne].
      2:{ split; [apply (hook_quiet st cs u v (FindDst cur sr)); [done|done|]; split; [done|]|cbn; lia].
          split; [done|]. split; [done|]. split; [done|]. split; [by eapply reaches_trans|].
          destruct Hm as [?|[Hm1 Hm2]]; [by left|]. right. split; [done|]. by apply (meet_up st v cur). }
      destruct (Z.eqb_spec sr cur) as [->|Hne].
      { split; [by eapply hook_end|]. split; [|done]. destruct Hm as [?|[Hm1 Hm2]]; [by left|]. right. exists cur. split; [done|]. by apply meet_root. }
      split; [apply (hook_quiet st cs u v (FindDst cur sr)); [done|done|]; split; [done|]|cbn; lia].
      assert (Hconn : reaches d0 sr cur /\ reaches d0 cur sr).
      { assert (Hx : reaches d0 sr cur); [|split; [done|by apply reaches_sym]]. eapply reaches_trans; [apply reaches_sym; [done|exact Hru]|].
        eapply reaches_trans; [by apply reaches_edge|done]. }
      assert (Hroots : hooked st \/ parent st !! Z.to_nat sr = Some sr).
      { destruct Hm as [?|[Hm1 _]]; [by left|right; by eapply rooted_root]. }
      destruct Hvc, Hvs, Hconn. destruct (Z.max_spec sr cur) as [[? ->]|[? ->]]; destruct (Z.min_spec sr cur) as [[? ->]|[? ->]]; try lia;
        (split; [done|]); (split; [lia|]); (split; [done|]); [by right|done].
    + destruct Hok as (Hvh & Hlo & Hre & Hroot). destruct (proj2 H1 hi Hvh) as (p & Ep & _). rewrite Ep. cbn [mbind option_bind].
      destruct (Z.eqb_spec p hi) as [->|Hne]; (eexists _, _; split; [done|]).
      * destruct (hook_swap st cs u v hi lo Hi Ep) as [Hh Hi']. split; [intros a c _; by left|]. split; [done|cbn; lia].
      * split; [done|]. assert (Hh : hooked st) by (destruct Hroot as [?|Hx]; [done|congruence]).
        split; [by eapply hook_end|]. split; [by left|done].
    + eexists _, _. split; [done|]. split; [done|]. split; [|split; [by left|intros _ a c; by left]].
      constructor; [done|done|done|by left|]. apply (hook_calls_mono st); [by right|done].
Qed.

End Hook.

End Forest.

(** ** The whole computation *)

Section Run.
Context {D : Type} `{!NeighborReader D} `{!EdgeLister D}.
Variables (d0 : D) (raw : nat -> list Z) (sched : nat -> list nat) (csched : nat -> nat -> list nat) (div : Z).
Hypothesis raw_length : forall k, length (raw k) = k.
Hypothesis d0_symmetric : symmetric d0.
Hypothesis d0_closed : forall u l v, vertex d0 u -> adj d0 u = Some l -> v ∈ l -> vertex d0 v.
Hypothesis nonempty : (0 < vertices d0)%nat.

Lemma sv_loop_run fuel : forall round all st d, (weight (parent st) < fuel)%nat -> forest d0 (parent st) ->
  shows all (everything d0) -> VertexSet.n all = Z.of_nat (vertices d0) -> same_graph d0 d -> listable d ->
  exists st' d', sv_loop fuel round raw sched csched div all st d = Some (st', d') /\ same_graph d0 d' /\ forest d0 (parent st') /\
    forall u v, edge d0 u v -> exists r, rooted (parent st') u r /\ rooted (parent st') v r.
Proof.
  induction fuel as [|fuel IH]; intros round all st d Hw Hf Hs Hn Hg Hl; [lia|]. cbn [sv_loop].
  destruct (edge_map_inv hook_functor d0 (everything d0) (hook_inv d0 (parent st)) (edge d0) (hook_handled (parent st)) raw (sched round) d
    (SvState (parent st) false (moved st)) all div) as (out & all' & st1 & d1 & E & [Hf1 Hsame Hch Hpe _] & Hg1 & Hl1 & Hs1 & Hn1 & Hh).
  { by apply hook_calls_ok. }
  { intros v. by apply elem_of_everything. }
  { intros v l u Hv Ha Hin. assert (Hu : vertex d0 u) by by eapply d0_closed. assert (He : edge d0 v u) by (split; [done|]; split; [done|]; by exists l).
    split; [done|]. split; [by apply d0_symmetric|done]. }
  { done. }
  { done. }
  { done. }
  { done. }
  { done. }
  { done. }
  { constructor; [done|by right|done| |done]. intros Hx. exfalso. apply (Nat.lt_irrefl _ Hx). }
  rewrite E. cbn [mbind option_bind].
  assert (Hw1 : (weight (parent st1) <= weight (parent st))%nat) by (destruct Hsame as [Hx|Hx]; [unfold hooked in Hx; lia|by rewrite Hx]).
  destruct (compress_loop_run d0 (csched round) all' Hs1 nonempty (S fuel) 0 st1 Hf1) as (st2 & E2 & Hf2 & Hc2 & Hr2 & Hw2); [lia|].
  rewrite E2. cbn [mbind option_bind]. destruct (changed st1) eqn:Ec.
  - specialize (Hch eq_refl). unfold hooked in Hch. apply (IH (S round) all' st2 d1); [lia|done..].
  - exists st2, d1. split; [done|]. split; [done|]. split; [done|]. intros u v He. pose proof He as (Hu & Hv & l & Ha & Hin).
    destruct (Hh u l v) as [Hx|Hx]; [by apply elem_of_everything|by apply elem_of_everything|done|done|..];
      (destruct Hx as [Hx|(r & H1 & H2)]; [destruct (Hpe Hx) as [?|Hx2]; [congruence|by apply elem_of_nil in Hx2]|]); exists r; split; auto.
Qed.

Lemma forest_ids : forest d0 (seqZ 0 (Z.of_nat (vertices d0))).
Proof.
  split; [rewrite length_seqZ; lia|]. intros v Hv. exists v. pose proof Hv as [H0 H1]. split; [apply lookup_seqZ; lia|]. split; [lia|].
  by apply reaches_refl.
Qed.

Lemma full_frontier_shows : Z.of_nat (vertices d0) <= 2 ^ 32 -> shows (make_full_frontier (vertices d0)) (everything d0).
Proof.
  intros Hmax. assert (Hfl : flagged (replicate (vertices d0) true) = everything d0).
  { apply set_eq. intros v. rewrite elem_of_flagged, elem_of_everything. unfold vertex. split.
    - intros [Hv E]. apply lookup_replicate in E as [_ E]. lia.
    - intros [Hv E]. split; [done|]. apply lookup_replicate. split; [done|lia]. }
  assert (Hsz : Z.of_nat (vertices d0) = Z.of_nat (size (flagged (replicate (vertices d0) true)))).
  { rewrite Hfl. unfold everything. rewrite size_list_to_set by apply NoDup_seqZ. rewrite length_seqZ. lia. }
  unfold make_full_frontier. rewrite Hsz at 2. rewrite <- Hfl. apply shows_dense; [by rewrite length_replicate|done].
Qed.

(** A vertex's label is the least vertex of its component. *)
Lemma wcc_sv_run fuel : Z.of_nat (vertices d0) <= 2 ^ 32 -> listable d0 ->
  (weight (seqZ 0 (Z.of_nat (vertices d0))) < fuel)%nat ->
  exists res d', wcc_sv fuel raw sched csched d0 div = Some (res, d') /\ same_graph d0 d' /\
    res.*1 = seqZ 0 (Z.of_nat (vertices d0)) /\ forall v r, (v, r) ∈ res -> leader d0 v r.
Proof.
  intros Hmax Hl Hfuel. unfold wcc_sv. rewrite (proj2 (Nat.eqb_neq _ _)) by lia.
  destruct (sv_loop_run fuel 0 (make_full_frontier (vertices d0)) (SvState (seqZ 0 (Z.of_nat (vertices d0))) false false) d0) as
    (st & d' & E & Hg & Hf & Hedge); [done|apply forest_ids|by apply full_frontier_shows|done|done|done|].
  rewrite E. cbn [mbind option_bind].
  assert (Hres : exists res, mapM (fun i => r ← find_root (parent st) i; Some (i, r)) (seqZ 0 (Z.of_nat (vertices d0))) = Some res).
  { apply mapM_is_Some_2, Forall_forall. intros v Hv. apply elem_of_seqZ in Hv. assert (Hvv : vertex d0 v) by (unfold vertex; lia).
    destruct (find_root_run d0 _ v Hf Hvv) as (r & Er & _). cbn. rewrite Er. by eexists. }
  destruct Hres as [res Hres]. rewrite Hres. cbn [mbind option_bind]. exists res, d'. split; [done|]. split; [done|].
  apply mapM_Some_1 in Hres.
  assert (Hel : forall i v r, res !! i = Some (v, r) -> seqZ 0 (Z.of_nat (vertices d0)) !! i = Some v /\ find_root (parent st) v = Some r).
  { intros i v r Ei. destruct (Forall2_lookup_r _ _ _ _ _ Hres Ei) as (x & Ex & Hx). destruct (find_root (parent st) x) as [y|] eqn:Ey; [|done].
    injection Hx as <- <-. done. }
  split.
  - apply list_eq. intros i. rewrite list_lookup_fmap. destruct (res !! i) as [[v r]|] eqn:Ei; cbn.
    + symmetry. by eapply Hel.
    + apply lookup_ge_None in Ei. rewrite <- (Forall2_length _ _ _ Hres) in Ei. symmetry. by apply lookup_ge_None.
  - intros v r Hin. apply list_elem_of_lookup in Hin as [i Ei]. destruct (Hel i v r Ei) as [Ev Er].
    apply list_elem_of_lookup_2, elem_of_seqZ in Ev. assert (Hv : vertex d0 v) by (unfold vertex; lia).
    destruct (find_root_run d0 _ v Hf Hv) as (r' & Er' & Hr & _ & _ & Hreach). replace r' with r in * by congruence. split.
    + by apply reaches_sym.
    + intros u [k Hk]. assert (Hu : vertex d0 u) by (by apply walk_vertex in Hk as [? _]).
      destruct (find_root_run d0 _ u Hf Hu) as (ru & _ & Hru & _ & Hle & _). assert (ru = r); [|lia].
      assert (Hsame : forall j w, walk d0 u j w -> rooted (parent st) w ru).
      { induction 1 as [_|j w x _ IH He]; [done|]. destruct (Hedge w x He) as (q & Hq1 & Hq2). by rewrite <- (rooted_fun _ _ _ _ Hq1 IH). }
      eapply rooted_fun; [by eapply Hsame|done].
Qed.

End Run.

(** C18: on a symmetric graph whose lists name only vertices, hooking and
    compression end, under every interleaving of the accesses that the hooks of a
    round make and of those that the calls of a compression pass make, and label
    each vertex with the least vertex it is connected to. *)
Theorem wcc_sv_leaders {D : Type} `{!NeighborReader D} `{!EdgeLister D} (d : D) (raw : nat -> list Z) (sched : nat -> list nat)
    (csched : nat -> nat -> list nat) (threshold_divisor : Z) :
  (forall k, length (raw k) = k) -> symmetric d -> BfsLevels.closed d -> (0 < vertices d)%nat ->
  Z.of_nat (vertices d) <= 2 ^ 32 -> listable d ->
  exists fuel res d', wcc_sv fuel raw sched csched d threshold_divisor = Some (res, d') /\ same_graph d d' /\
    res.*1 = seqZ 0 (Z.of_nat (vertices d)) /\ forall v r, (v, r) ∈ res -> leader d v r.
Proof.
  intros Hraw Hs Hc Hpos Hn Hl. exists (S (weight (seqZ 0 (Z.of_nat (vertices d))))).
  apply wcc_sv_run; [done|done|intros u l v Hu Ha Hv; by eapply Hc|done|done|done|lia].
Qed.

End WccSv.

(** * Components by label propagation ([bw_graph_db_t::wcc_map])

    Every round maps the frontier with a functor that lowers the target's label
    to the source's, and continues with the vertices it activated.  In the dense
    mode a vertex stops at its first activating neighbour, whatever smaller
    labels the neighbours after it have. *)

Module WccMap.
Import GraphRead VertexSet EdgeMap.

Record labels_t := Labels { IDs : list Z; prevIDs : list Z }.

(** [wcc_min_functor_t]: the compare-and-swap loop of one call as one step. *)
Definition min_update_atomic (st : labels_t) (src dst : Z) : option (bool * labels_t) :=
  src_id ← IDs st !! Z.to_nat src;
  cur ← IDs st !! Z.to_nat dst;
  if cur <=? src_id then Some (false, st)
  else
    prev ← prevIDs st !! Z.to_nat dst;
    Some (cur =? prev, Labels (<[Z.to_nat dst := src_id]> (IDs st)) (prevIDs st)).

Definition min_functor : edge_functor_t labels_t := EdgeFunctor (fun _ _ => Some true) min_update_atomic.

(** [wcc_sync_functor_t]. *)
Definition sync (st : labels_t) (v : Z) : option labels_t :=
  id ← IDs st !! Z.to_nat v;
  _ ← prevIDs st !! Z.to_nat v;
  Some (Labels (IDs st) (<[Z.to_nat v := id]> (prevIDs st))).

Section WccMap.
Context {D : Type} `{!NeighborReader D} `{!EdgeLister D}.

Fixpoint map_loop (fuel round : nat) (raw : nat -> list Z) (sched : nat -> list nat) (perm : nat -> list Z -> list Z)
    (threshold_divisor : Z) (frontier : vertex_subset_t) (st : labels_t) (d : D) : option (labels_t * D) :=
  if VertexSet.is_empty frontier then Some (st, d)
  else match fuel with
  | O => None
  | S fuel =>
    st ← bw_vertex_map sync (perm round) frontier st;
    '(output, _, st, d) ← bw_edge_map min_functor raw (sched round) d frontier st threshold_divisor;
    map_loop fuel (S round) raw sched perm threshold_divisor output st d
  end.

Definition wcc_map (fuel : nat) (raw : nat -> list Z) (sched : nat -> list nat) (perm : nat -> list Z -> list Z)
    (d : D) (threshold_divisor : Z) : option (list (Z * Z) * D) :=
  if (vertices d =? 0)%nat then Some ([], d)
  else
    let ids := seqZ 0 (Z.of_nat (vertices d)) in
    '(st, d) ← map_loop fuel 0 raw sched perm threshold_divisor (WccSv.make_full_frontier (vertices d)) (Labels ids ids) d;
    Some (zip ids (IDs st), d).

End WccMap.
End WccMap.
