(* ===== verification/Cdlp.v ===== *)
(** * Communities by label propagation ([bw_graph_db_t::cdlp], [cdlp_voting_map])

    Every round gives each vertex the label most frequent among its
    neighbours, the least of several.  [lpa] is the algorithm on lists; the
    sequential version counts in an array shared by all vertices, in any order
    of the vertices, the voting version in a hash map per vertex, whose
    iteration order is not specified.  Both return the labels of [lpa]. *)

From S2P Require Import Prelude GraphRead.

Local Open Scope Z_scope.

Module Cdlp.
Import GraphRead.

(** ** The reference *)

Definition times (x : Z) (l : list Z) : Z := Z.of_nat (length (filter (fun y => y = x) l)).

(** The loop over labels and their counts, common to all versions. *)
Fixpoint pick_best (entries : list (Z * Z)) (best best_cnt : Z) : Z :=
  match entries with
  | [] => best
  | (lbl, cnt) :: entries =>
    if (best_cnt <? cnt) || ((cnt =? best_cnt) && (lbl <? best)) then pick_best entries lbl cnt
    else pick_best entries best best_cnt
  end.

Definition tally (votes : list Z) : list (Z * Z) := (fun l => (l, times l votes)) <$> remove_dups votes.

(** The most frequent vote, the own label when there are none. *)
Definition winner (own : Z) (votes : list Z) : Z := pick_best (tally votes) own 0.

Definition label_at (labels : list Z) (v : Z) : Z := default 0 (labels !! Z.to_nat v).

Definition in_graph (n : nat) (ns : list Z) : list Z := filter (fun u => 0 <= u < Z.of_nat n) ns.

Definition votes_of (labels ns : list Z) : list Z := label_at labels <$> in_graph (length labels) ns.

Definition propagate (lists : list (list Z)) (labels : list Z) : list Z :=
  zip_with (fun own ns => winner own (votes_of labels ns)) labels lists.

Fixpoint lpa (rounds : nat) (lists : list (list Z)) (labels : list Z) : list Z :=
  match rounds with
  | O => labels
  | S rounds =>
    let next := propagate lists labels in
    if decide (next = labels) then next else lpa rounds lists next
  end.

Section Cdlp.
Context {D : Type} `{!NeighborReader D}.

(** ** The sequential version *)

(** Counting the labels of the neighbours.  [None]: out of range. *)
Fixpoint count_labels (vertex_count : Z) (labels ns label_count touched : list Z) : option (list Z * list Z) :=
  match ns with
  | [] => Some (label_count, touched)
  | neighbor :: ns =>
    if (0 <=? neighbor) && (neighbor <? vertex_count) then
      neighbor_label ← labels !! Z.to_nat neighbor;
      c ← label_count !! Z.to_nat neighbor_label;
      count_labels vertex_count labels ns (<[Z.to_nat neighbor_label := u64 (c + 1)]> label_count)
        (if c =? 0 then touched ++ [neighbor_label] else touched)
    else count_labels vertex_count labels ns label_count touched
  end.

Definition clear_touched (label_count touched : list Z) : list Z :=
  foldl (fun lc l => <[Z.to_nat l := 0]> lc) label_count touched.

Record cdlp_state := CdlpState {
  new_labels : list Z;
  label_count : list Z;
  touched_labels : list Z;
  changed : bool
}.

Definition cdlp_vertex (labels : list Z) (st : cdlp_state) (d : D) (vertex_id : Z) : option (cdlp_state * D) :=
  own ← labels !! Z.to_nat vertex_id;
  '(neighbors, d) ← read d vertex_id;
  match neighbors with
  | [] => Some (CdlpState (<[Z.to_nat vertex_id := own]> (new_labels st)) (label_count st) (touched_labels st) (changed st), d)
  | _ =>
    '(lc, touched) ← count_labels (Z.of_nat (vertices d)) labels neighbors (clear_touched (label_count st) (touched_labels st)) [];
    entries ← mapM (fun l => c ← lc !! Z.to_nat l; Some (l, c)) touched;
    let new_label := pick_best entries own 0 in
    Some (CdlpState (<[Z.to_nat vertex_id := new_label]> (new_labels st)) lc touched (changed st || negb (new_label =? own)), d)
  end.

Fixpoint cdlp_sweep (labels : list Z) (vertex_order : list Z) (st : cdlp_state) (d : D) : option (cdlp_state * D) :=
  match vertex_order with
  | [] => Some (st, d)
  | v :: vertex_order => '(st, d) ← cdlp_vertex labels st d v; cdlp_sweep labels vertex_order st d
  end.

(** [shuffle]: what [std::shuffle] makes of the order in each iteration. *)
Fixpoint cdlp_loop (max_iterations iteration : nat) (shuffle : nat -> list Z -> list Z) (use_random_order : bool)
    (vertex_order labels : list Z) (st : cdlp_state) (d : D) : option (list Z * D) :=
  match max_iterations with
  | O => Some (labels, d)
  | S max_iterations =>
    let vertex_order := if use_random_order then shuffle iteration vertex_order else vertex_order in
    '(st, d) ← cdlp_sweep labels vertex_order (CdlpState (new_labels st) (label_count st) (touched_labels st) false) d;
    (* [swap(labels, new_labels)] *)
    let next := new_labels st in
    let st' := CdlpState labels (label_count st) (touched_labels st) (changed st) in
    if changed st then cdlp_loop max_iterations (S iteration) shuffle use_random_order vertex_order next st' d
    else Some (next, d)
  end.

Definition cdlp (shuffle : nat -> list Z -> list Z) (max_iterations : nat) (use_random_order : bool) (d : D) :
    option (list (Z * Z) * D) :=
  let ids := seqZ 0 (Z.of_nat (vertices d)) in
  '(labels, d) ← cdlp_loop max_iterations 0 shuffle use_random_order ids ids
                   (CdlpState ids (replicate (vertices d) 0) [] true) d;
  Some (zip ids labels, d).

(** ** The voting version *)

Fixpoint vote (vertex_count : Z) (current_labels ns : list Z) (vote_map : gmap Z Z) : option (gmap Z Z) :=
  match ns with
  | [] => Some vote_map
  | nb :: ns =>
    if (0 <=? nb) && (nb <? vertex_count) then
      l ← current_labels !! Z.to_nat nb;
      vote vertex_count current_labels ns (<[l := u32 (default 0 (vote_map !! l) + 1)]> vote_map)
    else vote vertex_count current_labels ns vote_map
  end.

(** [order]: the iteration order of the hash map. *)
Definition voting_vertex (order : gmap Z Z -> list (Z * Z)) (current_labels next_labels : list Z) (d : D) (v : Z) :
    option (list Z * D) :=
  own ← current_labels !! Z.to_nat v;
  '(neighbors, d) ← read d v;
  match neighbors with
  | [] => Some (<[Z.to_nat v := own]> next_labels, d)
  | _ =>
    vote_map ← vote (Z.of_nat (vertices d)) current_labels neighbors ∅;
    Some (<[Z.to_nat v := pick_best (order vote_map) own 0]> next_labels, d)
  end.

Fixpoint voting_sweep (order : Z -> gmap Z Z -> list (Z * Z)) (current_labels vs next_labels : list Z) (d : D) :
    option (list Z * D) :=
  match vs with
  | [] => Some (next_labels, d)
  | v :: vs => '(next, d) ← voting_vertex (order v) current_labels next_labels d v; voting_sweep order current_labels vs next d
  end.

(** The reduction that counts the changed labels. *)
Definition changed_count (current_labels next_labels : list Z) : Z :=
  Z.of_nat (length (filter (fun q => q.1 <> q.2) (zip current_labels next_labels))).

(** [perm]: the order in which the parallel loop comes to the vertices. *)
Fixpoint voting_loop (max_iterations iteration : nat) (perm : nat -> list Z -> list Z)
    (order : nat -> Z -> gmap Z Z -> list (Z * Z)) (current_labels next_labels : list Z) (d : D) : option (list Z * D) :=
  match max_iterations with
  | O => Some (current_labels, d)
  | S max_iterations =>
    '(next, d) ← voting_sweep (order iteration) current_labels (perm iteration (seqZ 0 (Z.of_nat (vertices d)))) next_labels d;
    if 0 <? changed_count current_labels next
    then voting_loop max_iterations (S iteration) perm order next current_labels d
    else Some (next, d)
  end.

Definition cdlp_voting_map (perm : nat -> list Z -> list Z) (order : nat -> Z -> gmap Z Z -> list (Z * Z))
    (max_iterations : nat) (d : D) : option (list (Z * Z) * D) :=
  if (vertices d =? 0)%nat then Some ([], d)
  else
    let ids := seqZ 0 (Z.of_nat (vertices d)) in
    '(labels, d) ← voting_loop max_iterations 0 perm order ids ids d;
    Some (zip ids labels, d).

End Cdlp.

(** ** The most frequent label of a map *)

(** [find_most_frequent_label]; [None]: of an empty map (undefined). *)
Definition find_most_frequent_label (order : gmap Z Z -> list (Z * Z)) (label_count : gmap Z Z) : option Z :=
  let entries := order label_count in
  let max_count := foldl (fun m q => if m <? q.2 then q.2 else m) 0 entries in
  match fst <$> filter (fun q => q.2 = max_count) entries with
  | [] => None
  | [l] => Some l
  | l :: ls => Some (foldl Z.min l ls)
  end.

(** ** Picking *)

(** [w] is the most frequent entry, the least of several. *)
Definition is_best (entries : list (Z * Z)) (w : Z) : Prop :=
  exists c, (w, c) ∈ entries /\ forall l k, (l, k) ∈ entries -> k < c \/ (k = c /\ w <= l).

Lemma pick_best_spec entries : forall best cnt,
  exists c, ((pick_best entries best cnt, c) = (best, cnt) \/ (pick_best entries best cnt, c) ∈ entries) /\
    forall l k, (l, k) = (best, cnt) \/ (l, k) ∈ entries -> k < c \/ (k = c /\ pick_best entries best cnt <= l).
Proof.
  induction entries as [|[l0 k0] entries IH]; intros best cnt; cbn [pick_best].
  { exists cnt. split; [by left|]. intros l k [[= -> ->]|H]; [lia|by apply elem_of_nil in H]. }
  destruct ((cnt <? k0) || ((k0 =? cnt) && (l0 <? best))) eqn:E.
  - destruct (IH l0 k0) as (c & H1 & H2). exists c. split; [right; destruct H1 as [->|H1]; [left|by right]|].
    assert (Hc := H2 l0 k0 (or_introl eq_refl)).
    assert (He : cnt < k0 \/ (k0 = cnt /\ l0 < best)) by lia.
    intros l k [[= -> ->]|[[= -> ->]|H]%elem_of_cons]; [lia|lia|by apply H2; right].
  - destruct (IH best cnt) as (c & H1 & H2). exists c. split; [destruct H1 as [->|H1]; [by left|right; by right]|].
    assert (Hc := H2 best cnt (or_introl eq_refl)).
    assert (He : k0 < cnt \/ (k0 = cnt /\ best <= l0)) by lia.
    intros l k [[= -> ->]|[[= -> ->]|H]%elem_of_cons]; [lia|lia|by apply H2; right].
Qed.

Definition positive (entries : list (Z * Z)) : Prop := forall l k, (l, k) ∈ entries -> 0 < k.

Lemma pick_best_best entries own : entries <> [] -> positive entries -> is_best entries (pick_best entries own 0).
Proof.
  intros Hne Hp. destruct (pick_best_spec entries own 0) as (c & [H1|H1] & H2).
  - injection H1 as H1 ->. destruct entries as [|[l k] entries]; [done|].
    specialize (H2 l k (or_intror (list_elem_of_here _ _))). specialize (Hp l k (list_elem_of_here _ _)). lia.
  - exists c. split; [done|]. intros l k Hl. apply H2. by right.
Qed.

Lemma best_unique e1 e2 w1 w2 : (forall x, x ∈ e1 <-> x ∈ e2) -> is_best e1 w1 -> is_best e2 w2 -> w1 = w2.
Proof.
  intros He (c1 & H1 & M1) (c2 & H2 & M2). apply He in H1. apply He in H2.
  pose proof (M2 _ _ H1). pose proof (M1 _ _ H2). lia.
Qed.

(** The pick depends on the set of entries only. *)
Lemma pick_best_ext e1 e2 own : (forall x, x ∈ e1 <-> x ∈ e2) -> positive e1 -> pick_best e1 own 0 = pick_best e2 own 0.
Proof.
  intros He Hp. destruct e1 as [|x e1].
  { destruct e2 as [|y e2]; [done|]. pose proof (proj2 (He y) (list_elem_of_here _ _)) as Hy. by apply elem_of_nil in Hy. }
  assert (Hne : e2 <> []). { intros ->. pose proof (proj1 (He x) (list_elem_of_here _ _)) as Hx. by apply elem_of_nil in Hx. }
  eapply best_unique; [exact He|by apply pick_best_best|]. apply pick_best_best; [done|]. intros l k Hl. apply (Hp l k). by apply He.
Qed.

Lemma times_pos x l : x ∈ l <-> 0 < times x l.
Proof.
  unfold times. split.
  - intros Hx. assert (Hf : x ∈ filter (fun y => y = x) l) by (by apply list_elem_of_filter).
    destruct (filter _ l); [by apply elem_of_nil in Hf|cbn; lia].
  - intros Hp. destruct (filter (fun y => y = x) l) as [|y f] eqn:E; [cbn in Hp; lia|].
    assert (Hy : y ∈ filter (fun y => y = x) l) by (rewrite E; left). by apply list_elem_of_filter in Hy as [-> ?].
Qed.

Lemma times_cons x y l : times x (y :: l) = (if decide (y = x) then 1 else 0) + times x l.
Proof. unfold times. rewrite filter_cons. case_decide; cbn [length]; lia. Qed.

Lemma times_app x l1 l2 : times x (l1 ++ l2) = times x l1 + times x l2.
Proof. unfold times. rewrite filter_app, length_app. lia. Qed.

Lemma times_bound x l : 0 <= times x l <= Z.of_nat (length l).
Proof. unfold times. pose proof (length_filter (fun y => y = x) l). lia. Qed.

Lemma elem_of_tally l k votes : (l, k) ∈ tally votes <-> l ∈ votes /\ k = times l votes.
Proof.
  unfold tally. rewrite list_elem_of_fmap. setoid_rewrite elem_of_remove_dups. naive_solver.
Qed.

(** Entries that count the votes give the winner. *)
Lemma pick_winner entries own votes : (forall l k, (l, k) ∈ entries <-> l ∈ votes /\ k = times l votes) ->
  pick_best entries own 0 = winner own votes.
Proof.
  intros He. unfold winner. apply pick_best_ext.
  - intros [l k]. by rewrite He, elem_of_tally.
  - intros l k Hl. apply He in Hl as [Hl ->]. by apply times_pos.
Qed.

Lemma winner_nil own : winner own [] = own.
Proof. done. Qed.

Lemma winner_in own votes : votes <> [] -> winner own votes ∈ votes.
Proof.
  intros Hv. unfold winner. destruct (pick_best_best (tally votes) own) as (c & Hc & _).
  - intros E. destruct votes as [|v votes]; [done|]. assert (H : (v, times v (v :: votes)) ∈ tally (v :: votes)).
    { apply elem_of_tally. split; [left|done]. } rewrite E in H. by apply elem_of_nil in H.
  - intros l k Hl. apply elem_of_tally in Hl as [Hl ->]. by apply times_pos.
  - by apply elem_of_tally in Hc as [Hc _].
Qed.

(** [find_most_frequent_label] breaks ties the same way. *)
Lemma most_frequent_best order (m : gmap Z Z) w : (forall m, order m ≡ₚ map_to_list m) -> (forall l k, m !! l = Some k -> 0 < k) ->
  find_most_frequent_label order m = Some w -> is_best (map_to_list m) w.
Proof.
  intros Ho Hp. unfold find_most_frequent_label. specialize (Ho m). set (es := order m) in *.
  assert (Hmax : forall l a, a <= foldl (fun m (q : Z * Z) => if m <? q.2 then q.2 else m) a l /\
    forall q, q ∈ l -> q.2 <= foldl (fun m (q : Z * Z) => if m <? q.2 then q.2 else m) a l).
  { induction l as [|q l IH]; intros a; cbn [foldl]; [split; [lia|intros q Hq; by apply elem_of_nil in Hq]|].
    destruct (IH (if a <? q.2 then q.2 else a)) as [H1 H2]. split; [destruct (Z.ltb_spec a q.2); lia|].
    intros r [->|Hr]%elem_of_cons; [destruct (Z.ltb_spec a q.2); lia|by apply H2]. }
  assert (Hmin : forall l a, (foldl Z.min a l = a \/ foldl Z.min a l ∈ l) /\ foldl Z.min a l <= a /\ forall x, x ∈ l -> foldl Z.min a l <= x).
  { induction l as [|q l IH]; intros a; cbn [foldl]; [split; [by left|split; [lia|intros q Hq; by apply elem_of_nil in Hq]]|].
    destruct (IH (Z.min a q)) as (H1 & H2 & H3). split; [|split; [lia|]].
    - destruct H1 as [H1|H1]; [|right; by right]. rewrite H1. destruct (Z.min_spec a q) as [[_ ->]|[_ ->]]; [by left|right; left].
    - intros x [->|Hx]%elem_of_cons; [lia|by apply H3]. }
  set (mx := foldl _ 0 es). destruct (Hmax es 0) as [_ Hle]. fold mx in Hle.
  destruct (fst <$> filter (fun q => q.2 = mx) es) as [|l ls] eqn:El; [done|]. intros E.
  assert (Hw : w = foldl Z.min l ls) by (destruct ls; by injection E). clear E.
  destruct (Hmin ls l) as (M1 & M2 & M3). rewrite <- Hw in *.
  assert (Hin : forall x, x ∈ l :: ls <-> (x, mx) ∈ es).
  { intros x. rewrite <- El, list_elem_of_fmap. split.
    - intros ([y k] & -> & Hy). apply list_elem_of_filter in Hy as [Hk Hy]. cbn in Hk |- *. by subst.
    - intros Hx. exists (x, mx). split; [done|]. by apply list_elem_of_filter. }
  exists mx. split.
  - rewrite <- Ho. apply Hin. destruct M1 as [->|M1]; [left|by right].
  - intros x k Hx. rewrite <- Ho in Hx. pose proof (Hle _ Hx) as Hk. cbn in Hk.
    destruct (decide (k = mx)) as [->|]; [|lia]. right. split; [done|]. apply Hin in Hx as [->|Hx]%elem_of_cons; [done|by apply M3].
Qed.

Section Runs.
Context {D : Type} `{!NeighborReader D}.
Variable d0 : D.

Abbreviation n := (vertices d0).
Abbreviation ids := (seqZ 0 (Z.of_nat n)).

Definition lists_of : list (list Z) := (fun v => default [] (adj d0 v)) <$> ids.

(** A label per vertex, each a vertex. *)
Definition labels_ok (labels : list Z) : Prop := length labels = n /\ Forall (fun l => 0 <= l < Z.of_nat n) labels.

Hypothesis d0_readable : readable d0.
(** Degrees are 32-bit. *)
Hypothesis d0_degrees : forall v l, vertex d0 v -> adj d0 v = Some l -> Z.of_nat (length l) < 2 ^ 32.

Definition next_label (labels : list Z) (v : Z) : Z := winner (label_at labels v) (votes_of labels (default [] (adj d0 v))).

Lemma write_all_propagate vs labels old : labels_ok labels -> length old = n -> vs ≡ₚ ids ->
  write_all (next_label labels) vs old = propagate lists_of labels.
Proof.
  intros [Hl _] Ho Hp. apply list_eq. intros i. unfold propagate. rewrite lookup_zip_with. unfold lists_of.
  rewrite list_lookup_fmap. destruct (decide (i < n)%nat) as [Hi|Hi].
  - rewrite write_all_lookup; [|lia|].
    + rewrite decide_True by (rewrite Hp; apply elem_of_seqZ; lia).
      destruct (lookup_lt_is_Some_2 labels i) as [own Eo]; [lia|]. rewrite Eo.
      assert (Ei : ids !! i = Some (Z.of_nat i)) by (apply lookup_seqZ; lia). rewrite Ei. cbn.
      unfold next_label, label_at. by rewrite Nat2Z.id, Eo.
    + intros v Hv. rewrite Hp in Hv. apply elem_of_seqZ in Hv. lia.
  - rewrite (lookup_ge_None_2 (write_all _ _ _)) by (rewrite length_write_all; lia).
    rewrite (lookup_ge_None_2 labels) by lia. done.
Qed.

Lemma label_at_ok labels v : labels_ok labels -> 0 <= v < Z.of_nat n -> labels !! Z.to_nat v = Some (label_at labels v) /\ 0 <= label_at labels v < Z.of_nat n.
Proof.
  intros [Hl Hf] Hv. unfold label_at. destruct (lookup_lt_is_Some_2 labels (Z.to_nat v)) as [l E]; [lia|].
  rewrite E. split; [done|]. by apply (Forall_lookup_1 _ _ _ _ Hf E).
Qed.

Lemma votes_in labels ns x : labels_ok labels -> x ∈ votes_of labels ns -> 0 <= x < Z.of_nat n.
Proof.
  intros Hl Hx. unfold votes_of in Hx. apply list_elem_of_fmap in Hx as (u & -> & Hu).
  apply list_elem_of_filter in Hu as [Hu _]. apply (label_at_ok labels u Hl). by rewrite (proj1 Hl) in Hu.
Qed.

Lemma propagate_ok labels : labels_ok labels -> labels_ok (propagate lists_of labels).
Proof.
  intros Hl. split.
  - unfold propagate, lists_of. rewrite length_zip_with, length_fmap, length_seqZ, (proj1 Hl). lia.
  - apply Forall_lookup. intros i w Hw. unfold propagate in Hw. apply lookup_zip_with_Some in Hw as (own & ns & -> & Ho & _).
    pose proof (Forall_lookup_1 _ _ _ _ (proj2 Hl) Ho) as Hown. destruct (decide (votes_of labels ns = [])) as [->|Hne]; [done|].
    eapply votes_in; [done|]. by apply winner_in.
Qed.

Lemma ids_ok : labels_ok ids.
Proof.
  split; [rewrite length_seqZ; lia|]. apply Forall_forall. intros v Hv. apply elem_of_seqZ in Hv. lia.
Qed.

Lemma votes_cons labels u ns : labels_ok labels -> votes_of labels (u :: ns) =
  if (0 <=? u) && (u <? Z.of_nat n) then label_at labels u :: votes_of labels ns else votes_of labels ns.
Proof.
  intros [Hl _]. unfold votes_of, in_graph. rewrite filter_cons, Hl. case_decide as Hd.
  - rewrite (proj2 (Z.leb_le 0 u)), (proj2 (Z.ltb_lt u (Z.of_nat n))) by lia. done.
  - destruct (Z.leb_spec 0 u), (Z.ltb_spec u (Z.of_nat n)); cbn [andb]; try done. lia.
Qed.

Lemma length_votes labels ns : (length (votes_of labels ns) <= length ns)%nat.
Proof. unfold votes_of, in_graph. rewrite length_fmap. apply length_filter. Qed.

(** *** The counting array *)

Definition counts (lc touched seen : list Z) : Prop :=
  length lc = n /\ (forall l, l ∈ touched <-> l ∈ seen) /\
  forall l, 0 <= l < Z.of_nat n -> lc !! Z.to_nat l = Some (times l seen).

Lemma count_labels_spec labels ns : labels_ok labels -> forall lc touched seen,
  counts lc touched seen -> Z.of_nat (length seen + length ns) < 2 ^ 64 -> (forall l, l ∈ seen -> 0 <= l < Z.of_nat n) ->
  exists lc' touched', count_labels (Z.of_nat n) labels ns lc touched = Some (lc', touched') /\
    counts lc' touched' (seen ++ votes_of labels ns).
Proof.
  intros Hl. induction ns as [|u ns IH]; intros lc touched seen Hc Hb Hs; cbn [count_labels].
  { exists lc, touched. split; [done|]. change (votes_of labels []) with (@nil Z). by rewrite app_nil_r. }
  rewrite votes_cons by done. cbn [length] in Hb. destruct ((0 <=? u) && (u <? Z.of_nat n)) eqn:Eu; [|by apply IH; [|lia|]].
  destruct (label_at_ok labels u Hl) as [El Hr]; [lia|]. rewrite El. cbn [mbind option_bind].
  destruct Hc as (C1 & C2 & C3). rewrite (C3 _ Hr). cbn [mbind option_bind].
  replace (seen ++ label_at labels u :: votes_of labels ns) with ((seen ++ [label_at labels u]) ++ votes_of labels ns) by by rewrite <- app_assoc.
  pose proof (times_bound (label_at labels u) seen) as Ht.
  apply IH; [|rewrite length_app; cbn [length]; lia|].
  - split; [by rewrite length_insert|]. split.
    + intros l. destruct (Z.eqb_spec (times (label_at labels u) seen) 0) as [Hz|Hz].
      * rewrite !elem_of_app, C2. done.
      * rewrite C2, elem_of_app, list_elem_of_singleton. split; [by left|]. intros [?| ->]; [done|]. apply times_pos. lia.
    + intros l Hlr. rewrite times_app, times_cons. change (times l []) with 0. rewrite wrap_small by (unfold in_width; lia).
      destruct (decide (label_at labels u = l)) as [->|Hne].
      * rewrite list_lookup_insert_eq by lia. f_equal; lia.
      * rewrite list_lookup_insert_ne, C3 by lia. f_equal; lia.
  - intros l [Hin| ->%list_elem_of_singleton]%elem_of_app; [by apply Hs|done].
Qed.

(** Only touched labels have counts. *)
Definition clean (lc touched : list Z) : Prop :=
  length lc = n /\ (forall l, l ∈ touched -> 0 <= l) /\ forall l, 0 <= l < Z.of_nat n -> l ∉ touched -> lc !! Z.to_nat l = Some 0.

Lemma counts_clean lc touched seen : counts lc touched seen -> (forall l, l ∈ seen -> 0 <= l < Z.of_nat n) -> clean lc touched.
Proof.
  intros (C1 & C2 & C3) Hs. split; [done|]. split; [intros l Hl; apply C2, Hs in Hl; lia|].
  intros l Hl Hn. rewrite C3 by done. f_equal. pose proof (times_bound l seen). rewrite C2, times_pos in Hn. lia.
Qed.

Lemma clear_touched_zero lc touched : clean lc touched -> counts (clear_touched lc touched) [] [].
Proof.
  intros (C1 & C2 & C3). change (clear_touched lc touched) with (write_all (fun _ => 0) touched lc).
  split; [by rewrite length_write_all|]. split; [done|]. intros l Hl. rewrite write_all_lookup by (lia || done).
  rewrite Z2Nat.id by lia. case_decide; [done|by apply C3].
Qed.

(** *** The sequential version *)

Lemma read_vertex d v : same_graph d0 d -> vertex d0 v -> exists ns d', adj d0 v = Some ns /\ read d v = Some (ns, d') /\
  same_graph d0 d' /\ vertices d' = n.
Proof.
  intros Hg Hv. destruct (d0_readable v Hv) as [ns Ha]. destruct (read_run d v ns) as (d' & E & Hg').
  { by rewrite (proj2 Hg). }
  exists ns, d'. split; [done|]. split; [done|]. assert (Hg2 : same_graph d0 d') by by trans d. split; [done|apply Hg2].
Qed.

Lemma cdlp_vertex_spec labels st d v : labels_ok labels -> vertex d0 v -> clean (label_count st) (touched_labels st) ->
  same_graph d0 d -> exists lc touched d', cdlp_vertex labels st d v = Some (CdlpState
      (<[Z.to_nat v := next_label labels v]> (new_labels st)) lc touched
      (changed st || negb (next_label labels v =? label_at labels v)), d') /\ clean lc touched /\ same_graph d0 d'.
Proof.
  intros Hl Hv Hc Hg. destruct (label_at_ok labels v Hl Hv) as [El Hr]. destruct (read_vertex d v Hg Hv) as (ns & d' & Ha & E & Hg' & Hn).
  unfold cdlp_vertex. rewrite El. cbn [mbind option_bind]. rewrite E. cbn [mbind option_bind]. unfold next_label. rewrite Ha. cbn [default from_option].
  destruct ns as [|u ns]; [exists (label_count st), (touched_labels st), d'|].
  { split; [|done]. change (winner (label_at labels v) (votes_of labels [])) with (label_at labels v).
    by rewrite Z.eqb_refl, orb_false_r. }
  rewrite Hn. destruct (count_labels_spec labels (u :: ns) Hl _ _ [] (clear_touched_zero _ _ Hc)) as (lc & touched & E' & C).
  { pose proof (d0_degrees v _ Hv Ha). change (length (@nil Z)) with 0%nat. lia. }
  { intros l Hin. by apply elem_of_nil in Hin. }
  rewrite E'. cbn [mbind option_bind app] in *. pose proof C as (C1 & C2 & C3).
  assert (Hm : mapM (fun l => c ← lc !! Z.to_nat l; Some (l, c)) touched = Some ((fun l => (l, times l (votes_of labels (u :: ns)))) <$> touched)).
  { apply mapM_Some_2. apply Forall2_fmap_r, Forall_Forall2_diag, Forall_forall. intros l Hin.
    rewrite C3; [done|]. apply (votes_in labels (u :: ns)); [done|]. by apply C2. }
  rewrite Hm. cbn [mbind option_bind]. exists lc, touched, d'.
  rewrite (pick_winner _ _ (votes_of labels (u :: ns))).
  - split; [done|]. split; [|done]. eapply counts_clean; [done|]. intros l Hin. by eapply votes_in.
  - intros l k. rewrite list_elem_of_fmap. split.
    + intros (x & [= -> ->] & Hx). by rewrite <- C2.
    + intros [Hx ->]. exists l. by rewrite C2.
Qed.

Definition differs (labels : list Z) (v : Z) : bool := negb (next_label labels v =? label_at labels v).

Lemma cdlp_sweep_spec labels vs : labels_ok labels -> forall st d, (forall v, v ∈ vs -> vertex d0 v) ->
  clean (label_count st) (touched_labels st) -> same_graph d0 d ->
  exists lc touched d', cdlp_sweep labels vs st d = Some (CdlpState (write_all (next_label labels) vs (new_labels st)) lc touched
      (changed st || existsb (differs labels) vs), d') /\ clean lc touched /\ same_graph d0 d'.
Proof.
  intros Hl. induction vs as [|v vs IH]; intros st d Hv Hc Hg.
  { exists (label_count st), (touched_labels st), d. cbn. rewrite orb_false_r. by destruct st. }
  destruct (cdlp_vertex_spec labels st d v Hl) as (lc & touched & d1 & E & Hc1 & Hg1); [apply Hv; left|done|done|].
  cbn [cdlp_sweep]. rewrite E. cbn [mbind option_bind].
  destruct (IH (CdlpState (<[Z.to_nat v := next_label labels v]> (new_labels st)) lc touched
      (changed st || negb (next_label labels v =? label_at labels v))) d1) as (lc' & touched' & d' & E' & Hc' & Hg'); [|done|done|].
  { intros w Hw. apply Hv. by right. }
  rewrite E'. cbn [new_labels changed existsb]. exists lc', touched', d'. split; [|done]. unfold differs at 2. by rewrite orb_assoc.
Qed.

(** Some label differs exactly when the round changed the labels. *)
Lemma differs_spec vs labels : labels_ok labels -> vs ≡ₚ ids ->
  existsb (differs labels) vs = negb (bool_decide (propagate lists_of labels = labels)).
Proof.
  intros Hl Hp. case_bool_decide as E; cbn [negb].
  - apply not_true_iff_false. intros (v & Hv & Hd)%existsb_exists. apply list_elem_of_In in Hv. rewrite Hp in Hv.
    apply elem_of_seqZ in Hv. unfold differs in Hd. apply negb_true_iff, Z.eqb_neq in Hd. apply Hd.
    pose proof (write_all_propagate ids labels labels Hl (proj1 Hl) (Permutation_refl _)) as Hw. rewrite E in Hw.
    apply (f_equal (fun l => l !! Z.to_nat v)) in Hw. destruct (label_at_ok labels v Hl) as [El _]; [lia|].
    rewrite write_all_lookup, El in Hw; [|destruct Hl; lia|intros w Hw'; apply elem_of_seqZ in Hw'; lia].
    rewrite Z2Nat.id, decide_True in Hw by (lia || (apply elem_of_seqZ; lia)). by injection Hw.
  - apply not_false_iff_true. intros Hno. apply E.
    rewrite <- (write_all_propagate ids labels labels Hl (proj1 Hl) (Permutation_refl _)). apply list_eq. intros i.
    destruct (decide (i < n)%nat) as [Hi|Hi].
    + rewrite write_all_lookup; [|destruct Hl; lia|intros w Hw'; apply elem_of_seqZ in Hw'; lia].
      assert (Hin : Z.of_nat i ∈ ids) by (apply elem_of_seqZ; lia). rewrite decide_True by done.
      destruct (label_at_ok labels (Z.of_nat i) Hl) as [El _]; [lia|]. rewrite Nat2Z.id in El. rewrite El. f_equal.
      destruct (Z.eqb_spec (next_label labels (Z.of_nat i)) (label_at labels (Z.of_nat i))) as [|Hne]; [done|]. exfalso.
      assert (Ht : existsb (differs labels) vs = true); [|congruence]. apply existsb_exists. exists (Z.of_nat i).
      split; [apply list_elem_of_In; by rewrite Hp|]. unfold differs. by apply negb_true_iff, Z.eqb_neq.
    + rewrite !lookup_ge_None_2; [done|destruct Hl; lia|rewrite length_write_all; destruct Hl; lia].
Qed.

Lemma cdlp_loop_spec (shuffle : nat -> list Z -> list Z) random rounds : (forall i l, shuffle i l ≡ₚ l) -> forall i order labels st d,
  order ≡ₚ ids -> labels_ok labels -> length (new_labels st) = n -> clean (label_count st) (touched_labels st) -> same_graph d0 d ->
  exists d', cdlp_loop rounds i shuffle random order labels st d = Some (lpa rounds lists_of labels, d') /\ same_graph d0 d'.
Proof.
  intros Hs. induction rounds as [|rounds IH]; intros i order labels st d Ho Hl Hn Hc Hg; [by exists d|].
  cbn [cdlp_loop lpa]. set (order' := if random then shuffle i order else order).
  assert (Ho' : order' ≡ₚ ids) by (unfold order'; destruct random; [by rewrite Hs|done]).
  destruct (cdlp_sweep_spec labels order' Hl (CdlpState (new_labels st) (label_count st) (touched_labels st) false) d)
    as (lc & touched & d1 & E & Hc1 & Hg1); [|done|done|].
  { intros v Hv. rewrite Ho' in Hv. apply elem_of_seqZ in Hv. unfold vertex. lia. }
  rewrite E. cbn [mbind option_bind changed new_labels label_count touched_labels orb].
  rewrite (write_all_propagate order' labels _ Hl Hn Ho'), (differs_spec order' labels Hl Ho').
  destruct (decide (propagate lists_of labels = labels)) as [Heq|Hne].
  - rewrite bool_decide_true by done. cbn [negb]. by exists d1.
  - rewrite bool_decide_false by done. cbn [negb]. apply IH; [done|by apply propagate_ok|apply Hl|done|done].
Qed.

Lemma cdlp_run (shuffle : nat -> list Z -> list Z) rounds random : (forall i l, shuffle i l ≡ₚ l) ->
  exists d', cdlp shuffle rounds random d0 = Some (zip ids (lpa rounds lists_of ids), d') /\ same_graph d0 d'.
Proof.
  intros Hs. unfold cdlp. destruct (cdlp_loop_spec shuffle random rounds Hs 0 ids ids (CdlpState ids (replicate n 0) [] true) d0)
    as (d' & E & Hg); [done|apply ids_ok|cbn; rewrite length_seqZ; lia| |done|].
  { cbn. split; [apply length_replicate|]. split; [intros l Hl; by apply elem_of_nil in Hl|].
    intros l Hl _. apply lookup_replicate_2. lia. }
  rewrite E. by exists d'.
Qed.

(** *** The voting version *)

Definition vote_counts (m : gmap Z Z) (seen : list Z) : Prop :=
  forall l, m !! l = if decide (l ∈ seen) then Some (times l seen) else None.

Lemma vote_spec labels ns : labels_ok labels -> forall m seen, vote_counts m seen ->
  Z.of_nat (length seen + length ns) < 2 ^ 32 ->
  exists m', vote (Z.of_nat n) labels ns m = Some m' /\ vote_counts m' (seen ++ votes_of labels ns).
Proof.
  intros Hl. induction ns as [|u ns IH]; intros m seen Hm Hb; cbn [vote].
  { exists m. split; [done|]. change (votes_of labels []) with (@nil Z). by rewrite app_nil_r. }
  rewrite votes_cons by done. cbn [length] in Hb. destruct ((0 <=? u) && (u <? Z.of_nat n)) eqn:Eu; [|apply IH; [done|lia]].
  destruct (label_at_ok labels u Hl) as [El Hr]; [lia|]. rewrite El. cbn [mbind option_bind].
  replace (seen ++ label_at labels u :: votes_of labels ns) with ((seen ++ [label_at labels u]) ++ votes_of labels ns) by by rewrite <- app_assoc.
  apply IH; [|rewrite length_app; cbn [length]; lia]. intros l. set (x := label_at labels u).
  pose proof (times_bound x seen) as Ht.
  assert (Hd : default 0 (m !! x) = times x seen).
  { rewrite Hm. case_decide as Hin; [done|]. cbn. rewrite times_pos in Hin. lia. }
  rewrite Hd, wrap_small by (unfold in_width; lia). rewrite times_app, times_cons. change (times l []) with 0.
  destruct (decide (x = l)) as [<-|Hne].
  - rewrite lookup_insert_eq, decide_True by set_solver. f_equal; lia.
  - rewrite lookup_insert_ne, Hm by done. change (0 + 0) with 0. rewrite Z.add_0_r.
    destruct (decide (l ∈ seen)) as [Hin|Hin]; [by rewrite decide_True by set_solver|by rewrite decide_False by set_solver].
Qed.

Lemma voting_vertex_spec (order : gmap Z Z -> list (Z * Z)) labels next d v : (forall m, order m ≡ₚ map_to_list m) ->
  labels_ok labels -> vertex d0 v -> same_graph d0 d ->
  exists d', voting_vertex order labels next d v = Some (<[Z.to_nat v := next_label labels v]> next, d') /\ same_graph d0 d'.
Proof.
  intros Ho Hl Hv Hg. destruct (label_at_ok labels v Hl Hv) as [El Hr]. destruct (read_vertex d v Hg Hv) as (ns & d' & Ha & E & Hg' & Hn).
  unfold voting_vertex. rewrite El. cbn [mbind option_bind]. rewrite E. cbn [mbind option_bind]. unfold next_label. rewrite Ha. cbn [default from_option].
  exists d'. destruct ns as [|u ns]; [done|]. rewrite Hn.
  destruct (vote_spec labels (u :: ns) Hl ∅ []) as (m & E' & Hm).
  { intros l. rewrite decide_False by apply not_elem_of_nil. apply lookup_empty. }
  { pose proof (d0_degrees v _ Hv Ha). change (length (@nil Z)) with 0%nat. lia. }
  rewrite E'. cbn [mbind option_bind app] in *. split; [|done]. do 3 f_equal. apply pick_winner. intros l k.
  rewrite Ho, elem_of_map_to_list, Hm. case_decide; naive_solver.
Qed.

Lemma voting_sweep_spec order labels vs : (forall v m, order v m ≡ₚ map_to_list m) -> labels_ok labels -> forall next d,
  (forall v, v ∈ vs -> vertex d0 v) -> same_graph d0 d ->
  exists d', voting_sweep order labels vs next d = Some (write_all (next_label labels) vs next, d') /\ same_graph d0 d'.
Proof.
  intros Ho Hl. induction vs as [|v vs IH]; intros next d Hv Hg; [by exists d|]. cbn [voting_sweep].
  destruct (voting_vertex_spec (order v) labels next d v (Ho v) Hl) as (d1 & E & Hg1); [apply Hv; left|done|].
  rewrite E. cbn [mbind option_bind]. apply IH; [|done]. intros w Hw. apply Hv. by right.
Qed.

Lemma changed_count_spec labels next : length next = length labels ->
  (0 <? changed_count labels next) = negb (bool_decide (next = labels)).
Proof.
  intros Hlen. unfold changed_count. case_bool_decide as E; cbn [negb].
  - subst next. apply Z.ltb_ge. clear Hlen. induction labels as [|l labels IH]; [done|]. cbn [zip_with].
    rewrite filter_cons. rewrite decide_False by (cbn; auto). done.
  - apply Z.ltb_lt. destruct (filter (fun q => q.1 <> q.2) (zip labels next)) as [|q f] eqn:Ef; [|cbn; lia]. exfalso. apply E.
    clear E. revert next Hlen Ef. induction labels as [|l labels IH]; intros [|x next] Hlen Ef; try done. cbn [zip_with] in Ef.
    rewrite filter_cons in Ef. case_decide as Hd; [done|]. cbn [fst snd] in Hd. subst x. f_equal. apply IH; [|done].
    by injection Hlen.
Qed.

Lemma voting_loop_spec (perm : nat -> list Z -> list Z) order rounds : (forall i l, perm i l ≡ₚ l) ->
  (forall i v m, order i v m ≡ₚ map_to_list m) -> forall i labels next d,
  labels_ok labels -> length next = n -> same_graph d0 d ->
  exists d', voting_loop rounds i perm order labels next d = Some (lpa rounds lists_of labels, d') /\ same_graph d0 d'.
Proof.
  intros Hp Ho. induction rounds as [|rounds IH]; intros i labels next d Hl Hn Hg; [by exists d|].
  cbn [voting_loop lpa]. rewrite (proj1 Hg).
  assert (Hpi : perm i ids ≡ₚ ids) by apply Hp.
  destruct (voting_sweep_spec (order i) labels (perm i ids) (Ho i) Hl next d) as (d1 & E & Hg1); [|done|].
  { intros v Hv. rewrite Hpi in Hv. apply elem_of_seqZ in Hv. unfold vertex. lia. }
  rewrite E. cbn [mbind option_bind]. rewrite (write_all_propagate (perm i ids) labels next Hl Hn Hpi).
  rewrite changed_count_spec by (rewrite (proj1 (propagate_ok labels Hl)); symmetry; apply Hl).
  destruct (decide (propagate lists_of labels = labels)) as [Heq|Hne].
  - rewrite bool_decide_true by done. cbn [negb]. by exists d1.
  - rewrite bool_decide_false by done. cbn [negb]. apply IH; [by apply propagate_ok|apply Hl|done].
Qed.

(** C19: both versions of community detection return the labels of synchronous
    label propagation: every vertex takes the most frequent label of its
    neighbours, the least of several, for at most the given number of rounds
    or until nothing changes; the order in which the vertices are visited, the
    shuffles and the iteration order of the hash maps make no difference. *)
Theorem cdlp_labels shuffle perm order rounds random :
  (forall i l, shuffle i l ≡ₚ l) -> (forall i l, perm i l ≡ₚ l) -> (forall i v m, order i v m ≡ₚ map_to_list m) ->
  exists d1 d2, cdlp shuffle rounds random d0 = Some (zip ids (lpa rounds lists_of ids), d1) /\
    cdlp_voting_map perm order rounds d0 = Some (zip ids (lpa rounds lists_of ids), d2) /\
    same_graph d0 d1 /\ same_graph d0 d2.
Proof.
  intros Hs Hp Ho. destruct (cdlp_run shuffle rounds random Hs) as (d1 & E1 & Hg1). unfold cdlp_voting_map.
  destruct (Nat.eqb_spec n 0) as [Hz|Hz].
  - exists d1, d0. split; [done|]. split; [by rewrite Hz|]. split; [done|reflexivity].
  - destruct (voting_loop_spec perm order rounds Hp Ho 0 ids ids d0 ids_ok) as (d2 & E2 & Hg2); [rewrite length_seqZ; lia|done|].
    exists d1, d2. rewrite E2. done.
Qed.

End Runs.

End Cdlp.
