(* ===== verification/CdlpMap.v ===== *)
(** * Communities by edge maps ([bw_graph_db_t::parallel_cdlp_map])

    Every vertex owns sixteen slots, a label and a count each, in two shared
    arrays.  An edge map votes: the call for an edge looks for its label in the
    target's slots, claims the first free one by compare-and-swap, and adds to
    the count; a call that finds sixteen other labels marks the target
    overflowed.  Vertex maps then commit the winners and empty the slots.  The
    steps of the calls interleave; the outcome of a round does not depend on
    how: a vertex that gets votes for more than sixteen labels keeps its own,
    every other takes the winner of its votes. *)

From S2P Require Import Prelude GraphRead VertexSet Interleave EdgeMap EdgePush Cdlp.

Local Open Scope Z_scope.

Module CdlpMap.
Import GraphRead VertexSet EdgeMap EdgePush Cdlp.

Definition kEmptyVoteKey : Z := 2 ^ 32 - 1.
Definition kCdlpInitSlots : nat := 16.

(** [slot_keys], [slot_counts] and [overflow]. *)
Record votes_t := Votes { slot_keys : list Z; slot_counts : list Z; overflow : list bool }.

(** Where a call of [update_atomic] is: it has looked at nothing; it is to
    load the key of a slot; it saw the slot free; it lost the slot to another
    call; it is to add to the count.  A call knows its target and label. *)
Inductive vote_pc :=
  | PcStart (src dst : Z)
  | PcLoad (dst label : Z) (probe : nat)
  | PcCas (dst label : Z) (probe : nat)
  | PcReload (dst label : Z) (probe : nat)
  | PcCount (dst label : Z) (probe : nat).

(** [base + probe], in 32 bits. *)
Definition slot_idx (dst : Z) (probe : nat) : nat :=
  Z.to_nat (u32 (u32 (dst * Z.of_nat kCdlpInitSlots) + Z.of_nat probe)).

(** One atomic step.  [None]: out of range. *)
Definition step_vote (current_labels : list Z) (st : votes_t) (pc : vote_pc) : option (votes_t * option vote_pc) :=
  match pc with
  | PcStart src dst =>
    o ← overflow st !! Z.to_nat dst;
    if o : bool then Some (st, None)
    else label ← current_labels !! Z.to_nat src; Some (st, Some (PcLoad dst label 0))
  | PcLoad dst label probe =>
    if decide (kCdlpInitSlots <= probe)%nat then
      _ ← overflow st !! Z.to_nat dst;
      Some (Votes (slot_keys st) (slot_counts st) (<[Z.to_nat dst := true]> (overflow st)), None)
    else
      cur ← slot_keys st !! slot_idx dst probe;
      Some (st, Some (if cur =? label then PcCount dst label probe
                      else if cur =? kEmptyVoteKey then PcCas dst label probe
                      else PcLoad dst label (S probe)))
  | PcCas dst label probe =>
    cur ← slot_keys st !! slot_idx dst probe;
    if cur =? kEmptyVoteKey
    then Some (Votes (<[slot_idx dst probe := label]> (slot_keys st)) (slot_counts st) (overflow st), Some (PcCount dst label probe))
    else Some (st, Some (PcReload dst label probe))
  | PcReload dst label probe =>
    cur ← slot_keys st !! slot_idx dst probe;
    Some (st, Some (if cur =? label then PcCount dst label probe else PcLoad dst label (S probe)))
  | PcCount dst label probe =>
    c ← slot_counts st !! slot_idx dst probe;
    Some (Votes (slot_keys st) (<[slot_idx dst probe := u32 (c + 1)]> (slot_counts st)) (overflow st), None)
  end.

Definition vote_weight (pc : vote_pc) : nat :=
  match pc with
  | PcStart _ _ => 60
  | PcLoad _ _ probe => if decide (16 <= probe) then 0 else 3 * (16 - probe) + 3
  | PcCas _ _ probe => 3 * (16 - probe) + 2
  | PcReload _ _ probe => 3 * (16 - probe) + 1
  | PcCount _ _ _ => 0
  end%nat.

Definition vote_functor (current_labels : list Z) : stepped_functor_t votes_t vote_pc :=
  SteppedFunctor (fun _ _ => Some true) PcStart (step_vote current_labels) vote_weight.

(** ** The vertex maps *)

(** [cdlp_commit_functor_t] on [next_labels]; [arena] holds keys and counts. *)
Definition commit (arena : list (Z * Z)) (current_labels : list Z) (ovf : list bool) (next_labels : list Z) (v : Z) : option (list Z) :=
  current ← current_labels !! Z.to_nat v;
  o ← ovf !! Z.to_nat v;
  if o : bool then Some (<[Z.to_nat v := current]> next_labels)
  else
    slots ← mapM (fun i => arena !! slot_idx v i) (seq 0 kCdlpInitSlots);
    Some (<[Z.to_nat v := pick_best (filter (fun slot => slot.1 <> kEmptyVoteKey) slots) current 0]> next_labels).

(** [cdlp_reset_functor_t]. *)
Definition reset (st : votes_t) (v : Z) : option votes_t :=
  let clear x l := foldl (fun l i => <[slot_idx v i := x]> l) l (seq 0 kCdlpInitSlots) in
  _ ← overflow st !! Z.to_nat v;
  Some (Votes (clear kEmptyVoteKey (slot_keys st)) (clear 0 (slot_counts st)) (<[Z.to_nat v := false]> (overflow st))).

Definition empty_votes (vertex_count : nat) : votes_t :=
  let total_slots := (vertex_count * kCdlpInitSlots)%nat in
  Votes (replicate total_slots kEmptyVoteKey) (replicate total_slots 0) (replicate vertex_count false).

Definition make_full_frontier (vertex_count : nat) : vertex_subset_t :=
  dense_subset (Z.of_nat vertex_count) (Z.of_nat vertex_count) (replicate vertex_count true).

Section Map.
Context {D : Type} `{!NeighborReader D} `{!EdgeLister D}.

(** [sched]: the interleaving of a round; [perm]: the order of its vertex
    maps, [raw] as for the conversions of frontiers. *)
Fixpoint cdlp_map_loop (max_iterations iteration : nat) (raw : nat -> list Z) (sched : nat -> list nat)
    (perm : nat -> bool -> list Z -> list Z) (frontier : vertex_subset_t) (current_labels next_labels : list Z)
    (vt : votes_t) (d : D) : option (list Z * D) :=
  match max_iterations with
  | O => Some (current_labels, d)
  | S max_iterations =>
    '(frontier, vt, d) ← bw_edge_map_no_output (vote_functor current_labels) raw (sched iteration) d frontier vt;
    let arena := zip (slot_keys vt) (slot_counts vt) in
    next ← bw_vertex_map (commit arena current_labels (overflow vt)) (perm iteration false) frontier next_labels;
    let changed := changed_count current_labels next in
    vt ← bw_vertex_map reset (perm iteration true) frontier vt;
    if 0 <? changed then cdlp_map_loop max_iterations (S iteration) raw sched perm frontier next current_labels vt d
    else Some (next, d)
  end.

Definition parallel_cdlp_map (raw : nat -> list Z) (sched : nat -> list nat) (perm : nat -> bool -> list Z -> list Z)
    (max_iterations : nat) (d : D) : option (list (Z * Z) * D) :=
  if (vertices d =? 0)%nat then Some ([], d)
  else
    let ids := seqZ 0 (Z.of_nat (vertices d)) in
    '(labels, d) ← cdlp_map_loop max_iterations 0 raw sched perm (make_full_frontier (vertices d)) ids ids
                     (empty_votes (vertices d)) d;
    Some (zip ids labels, d).

End Map.

(** The slots of vertices [2^28] apart are the same. *)
Lemma slots_shared v i : 0 <= v -> slot_idx (v + 2 ^ 28) i = slot_idx v i.
Proof.
  intros Hv. unfold slot_idx, kCdlpInitSlots, wrap. do 2 f_equal.
  replace ((v + 2 ^ 28) * Z.of_nat 16) with (v * Z.of_nat 16 + 1 * 2 ^ 32) by lia. by rewrite Z.mod_add by lia.
Qed.

(** ** The reference with slots *)

Definition slot_winner (own : Z) (votes : list Z) : Z :=
  if (length (remove_dups votes) <=? kCdlpInitSlots)%nat then winner own votes else own.

Definition propagate_slots (lists : list (list Z)) (labels : list Z) : list Z :=
  zip_with (fun own ns => slot_winner own (votes_of labels ns)) labels lists.

Fixpoint lpa_slots (rounds : nat) (lists : list (list Z)) (labels : list Z) : list Z :=
  match rounds with
  | O => labels
  | S rounds =>
    let next := propagate_slots lists labels in
    if decide (next = labels) then next else lpa_slots rounds lists next
  end.

(** ** One round of votes *)

Section Votes.
Variables (n : nat) (current_labels : list Z).
Hypothesis n_small : Z.of_nat n <= 2 ^ 28.
Hypothesis labels_length : length current_labels = n.
Hypothesis labels_range : Forall (fun l => 0 <= l < Z.of_nat n) current_labels.

Definition about (pc : vote_pc) : Z * Z :=
  match pc with
  | PcStart src dst => (dst, label_at current_labels src)
  | PcLoad dst label _ | PcCas dst label _ | PcReload dst label _ | PcCount dst label _ => (dst, label)
  end.

(** The labels voted for by the calls [es]. *)
Definition votes (v : Z) (es : list (Z * Z)) : list Z := label_at current_labels ∘ fst <$> filter (fun e => e.2 = v) es.

Definition pending (v l : Z) (pcs : list vote_pc) : Z := Z.of_nat (length (filter (fun pc => about pc = (v, l)) pcs)).

(** How far a call has come, the slots of its target holding [ks]. *)
Definition position_ok (ks : list Z) (pc : vote_pc) : Prop :=
  let passed label probe := forall i, (i < probe)%nat -> exists k, ks !! i = Some k /\ k <> label in
  match pc with
  | PcStart _ _ => True
  | PcLoad _ label probe => passed label probe /\ (probe <= 16)%nat
  | PcCas _ label probe => passed label probe /\ (probe < 16)%nat
  | PcReload _ label probe => passed label probe /\ (probe < length ks)%nat
  | PcCount _ label probe => ks !! probe = Some label
  end.

Definition slot (v : Z) (i : nat) : nat := (Z.to_nat v * 16 + i)%nat.

Record table_inv (es : list (Z * Z)) (st : votes_t) (pcs : list vote_pc) (v : Z) (ks : list Z) : Prop := {
  ti_length : (length ks <= 16)%nat;
  ti_nodup : NoDup ks;
  ti_votes : forall l, l ∈ ks -> l ∈ votes v es;
  ti_keys : forall i, (i < 16)%nat -> slot_keys st !! slot v i = Some (default kEmptyVoteKey (ks !! i));
  ti_counts : forall i, (i < 16)%nat -> is_Some (slot_counts st !! slot v i);
  ti_zero : forall i, (length ks <= i < 16)%nat -> slot_counts st !! slot v i = Some 0;
  ti_pcs : forall pc, pc ∈ pcs -> (about pc).1 = v -> position_ok ks pc;
  ti_flag : is_Some (overflow st !! Z.to_nat v);
  ti_count : overflow st !! Z.to_nat v = Some false -> forall i l, ks !! i = Some l ->
    slot_counts st !! slot v i = Some (u32 (times l (votes v es) - pending v l pcs));
  ti_absent : overflow st !! Z.to_nat v = Some false -> forall l, l ∉ ks -> times l (votes v es) = pending v l pcs;
  ti_overflow : overflow st !! Z.to_nat v = Some true -> length ks = 16%nat /\ exists l, l ∈ votes v es /\ l ∉ ks
}.

Definition pc_valid (es : list (Z * Z)) (pc : vote_pc) : Prop :=
  0 <= (about pc).1 < Z.of_nat n /\ 0 <= (about pc).2 < Z.of_nat n /\ (about pc).2 ∈ votes (about pc).1 es /\
  match pc with PcStart src _ => 0 <= src < Z.of_nat n | _ => True end.

Definition vote_inside (es : list (Z * Z)) (st : votes_t) (pcs : list vote_pc) : Prop :=
  Forall (fun e => 0 <= e.1 < Z.of_nat n) es /\ Forall (pc_valid es) pcs /\ forall v, 0 <= v < Z.of_nat n -> exists ks, table_inv es st pcs v ks.

Lemma slot_idx_slot v i : 0 <= v < Z.of_nat n -> (i < 16)%nat -> slot_idx v i = slot v i.
Proof.
  intros Hv Hi. unfold slot_idx, slot, kCdlpInitSlots. rewrite (wrap_small 32 (v * _)) by (unfold in_width; lia).
  rewrite wrap_small by (unfold in_width; lia). lia.
Qed.

Lemma slot_inj v w i j : 0 <= v -> 0 <= w -> (i < 16)%nat -> (j < 16)%nat -> slot v i = slot w j -> v = w /\ i = j.
Proof. unfold slot. lia. Qed.

Lemma pending_cons v l pc pcs : pending v l (pc :: pcs) = (if decide (about pc = (v, l)) then 1 else 0) + pending v l pcs.
Proof. unfold pending. rewrite filter_cons. destruct (decide (about pc = (v, l))); cbn [length]; lia. Qed.

Lemma votes_perm v es es' : es ≡ₚ es' -> votes v es ≡ₚ votes v es'.
Proof. intros Hp. unfold votes. by rewrite Hp. Qed.

Lemma times_perm l vs vs' : vs ≡ₚ vs' -> times l vs = times l vs'.
Proof. intros Hp. unfold times. by rewrite Hp. Qed.

Lemma vote_perm es es' st pcs pcs' : es ≡ₚ es' -> pcs ≡ₚ pcs' -> vote_inside es st pcs -> vote_inside es' st pcs'.
Proof.
  intros He Hp (H0 & H1 & H2). pose proof (fun v => votes_perm v es es' He) as Hv.
  assert (Hpend : forall v l, pending v l pcs' = pending v l pcs) by (intros v l; unfold pending; by rewrite Hp).
  split; [by rewrite <- He|]. split.
  - rewrite <- Hp. eapply Forall_impl; [exact H1|]. intros pc (A & B & C & E). unfold pc_valid. by rewrite <- (Hv _).
  - intros v Hr. destruct (H2 v Hr) as [ks [T1 T2 T3 T4 T5 T5z T6 T7 T8 T9 T10]]. exists ks. constructor; try done.
    + intros l Hl. rewrite <- (Hv v). by apply T3.
    + intros pc Hpc. rewrite <- Hp in Hpc. by apply T6.
    + intros Ho i l El. rewrite Hpend, <- (times_perm l _ _ (Hv v)). by apply T8.
    + intros Ho l Hl. rewrite Hpend, <- (times_perm l _ _ (Hv v)). by apply T9.
    + intros Ho. destruct (T10 Ho) as (? & l & Hl & ?). split; [done|]. exists l. by rewrite <- (Hv v).
Qed.

(** Beginning a call. *)
Lemma vote_begin es st pcs e : 0 <= e.1 < Z.of_nat n -> 0 <= e.2 < Z.of_nat n -> vote_inside es st pcs ->
  vote_inside (e :: es) st (PcStart e.1 e.2 :: pcs).
Proof.
  intros Hs Hd (H0 & H1 & H2). destruct e as [src dst]. cbn [fst snd] in *.
  assert (Hvs : forall v, votes v ((src, dst) :: es) = if decide (dst = v) then label_at current_labels src :: votes v es else votes v es).
  { intros v. unfold votes. rewrite filter_cons. cbn [snd]. by destruct (decide (dst = v)). }
  assert (Hsub : forall v l, l ∈ votes v es -> l ∈ votes v ((src, dst) :: es)).
  { intros v l Hl. rewrite Hvs. destruct (decide (dst = v)); [by right|done]. }
  assert (Hl : 0 <= label_at current_labels src < Z.of_nat n).
  { unfold label_at. destruct (lookup_lt_is_Some_2 current_labels (Z.to_nat src)) as [l E]; [lia|]. rewrite E.
    by apply (Forall_lookup_1 _ _ _ _ labels_range E). }
  assert (Ht : forall v l, times l (votes v ((src, dst) :: es)) = (if decide ((dst, label_at current_labels src) = (v, l)) then 1 else 0) + times l (votes v es)).
  { intros v l. rewrite Hvs. destruct (decide (dst = v)) as [->|Hne].
    - rewrite times_cons. destruct (decide (label_at current_labels src = l)) as [->|Hn2]; [by rewrite decide_True|].
      by rewrite decide_False by congruence.
    - by rewrite decide_False by congruence. }
  split; [by constructor|]. split.
  - constructor.
    + split; [done|]. split; [done|]. split; [|done]. change (label_at current_labels src ∈ votes dst ((src, dst) :: es)). rewrite Hvs, decide_True by done. left.
    + eapply Forall_impl; [exact H1|]. intros pc (A & B & C & E). split; [done|]. split; [done|]. split; [by apply Hsub|done].
  - intros v Hr. destruct (H2 v Hr) as [ks [T1 T2 T3 T4 T5 T5z T6 T7 T8 T9 T10]]. exists ks. constructor; try done.
    + intros l Hin. by apply Hsub, T3.
    + intros pc [->|Hpc]%elem_of_cons; [done|by apply T6].
    + intros Ho i l El. rewrite Ht, pending_cons. rewrite (T8 Ho i l El). cbn [about]. do 2 f_equal. lia.
    + intros Ho l Hin. rewrite Ht, pending_cons, (T9 Ho l Hin). done.
    + intros Ho. destruct (T10 Ho) as (? & l & Hin & ?). split; [done|]. exists l. split; [by apply Hsub|done].
Qed.

Abbreviation after pc' := (from_option (fun pc => [pc]) [] pc').

Lemma votes_range v es l : Forall (fun e => 0 <= e.1 < Z.of_nat n) es -> l ∈ votes v es -> 0 <= l < Z.of_nat n.
Proof.
  intros He Hl. unfold votes in Hl. apply list_elem_of_fmap in Hl as (e & -> & Hin). apply list_elem_of_filter in Hin as [_ Hin].
  rewrite Forall_forall in He. specialize (He e Hin). cbn. unfold label_at.
  destruct (lookup_lt_is_Some_2 current_labels (Z.to_nat e.1)) as [l E]; [lia|]. rewrite E. by apply (Forall_lookup_1 _ _ _ _ labels_range E).
Qed.

(** Only the target's table changes. *)
Lemma step_close es st st' pc pcs pc' ks' : vote_inside es st (pc :: pcs) ->
  (forall p, pc' = Some p -> about p = about pc /\ match p with PcStart _ _ => False | _ => True end) ->
  (forall w i, 0 <= w < Z.of_nat n -> w <> (about pc).1 -> (i < 16)%nat ->
     slot_keys st' !! slot w i = slot_keys st !! slot w i /\ slot_counts st' !! slot w i = slot_counts st !! slot w i) ->
  (forall w, 0 <= w < Z.of_nat n -> w <> (about pc).1 -> overflow st' !! Z.to_nat w = overflow st !! Z.to_nat w) ->
  table_inv es st' (after pc' ++ pcs) (about pc).1 ks' -> vote_inside es st' (after pc' ++ pcs).
Proof.
  intros (H0 & H1 & H2) Hp Hs Ho Ht. apply Forall_cons in H1 as [(V1 & V2 & V3 & V4) H1]. split; [done|]. split.
  - destruct pc' as [p|]; [|done]. cbn [from_option app]. constructor; [|done]. destruct (Hp p eq_refl) as [Ea Hst].
    unfold pc_valid. rewrite Ea. do 3 (split; [done|]). by destruct p.
  - intros w Hw. destruct (decide (w = (about pc).1)) as [->|Hne]; [by exists ks'|].
    destruct (H2 w Hw) as [ks [T1 T2 T3 T4 T5 T5z T6 T7 T8 T9 T10]]. exists ks.
    assert (Hpend : forall l, pending w l (after pc' ++ pcs) = pending w l (pc :: pcs)).
    { intros l. rewrite pending_cons, decide_False by (intros E; apply Hne; by rewrite E). destruct pc' as [p|]; [|done].
      cbn [from_option app]. destruct (Hp p eq_refl) as [Ea _]. rewrite pending_cons, Ea, decide_False; [done|].
      intros E. apply Hne. by rewrite E. }
    constructor; try done.
    + intros i Hi. destruct (Hs w i Hw Hne Hi) as [-> _]. by apply T4.
    + intros i Hi. destruct (Hs w i Hw Hne Hi) as [_ ->]. by apply T5.
    + intros i Hi. destruct (Hs w i Hw Hne ltac:(lia)) as [_ ->]. by apply T5z.
    + intros p Hin Ea. apply elem_of_app in Hin as [Hin|Hin].
      * destruct pc' as [q|]; cbn in Hin; [|by apply elem_of_nil in Hin]. apply list_elem_of_singleton in Hin as ->.
        destruct (Hp q eq_refl) as [Eq _]. rewrite Eq in Ea. by destruct Hne.
      * apply T6; [by right|done].
    + by rewrite Ho.
    + rewrite Ho by done. intros Hf i l El. rewrite Hpend. destruct (Hs w i Hw Hne) as [_ ->]; [apply lookup_lt_Some in El; lia|]. by apply T8.
    + rewrite Ho by done. intros Hf l Hl. rewrite Hpend. by apply T9.
    + rewrite Ho by done. done.
Qed.

(** A step that changes nothing shared and goes on. *)
Lemma table_same es st pc pcs p ks : table_inv es st (pc :: pcs) (about pc).1 ks -> about p = about pc -> position_ok ks p ->
  table_inv es st (p :: pcs) (about pc).1 ks.
Proof.
  intros [T1 T2 T3 T4 T5 T5z T6 T7 T8 T9 T10] Ea Hp.
  assert (Hpend : forall l, pending (about pc).1 l (p :: pcs) = pending (about pc).1 l (pc :: pcs)) by (intros l; by rewrite !pending_cons, Ea).
  constructor; try done.
  - intros q [->|Hq]%elem_of_cons Eq; [done|]. apply T6; [by right|done].
  - intros Hf i l El. rewrite Hpend. by apply T8.
  - intros Hf l Hl. rewrite Hpend. by apply T9.
Qed.

(** A call that ends on an overflowed vertex. *)
Lemma table_overflowed es st pc pcs st' ks : table_inv es st (pc :: pcs) (about pc).1 ks ->
  slot_keys st' = slot_keys st -> slot_counts st' = slot_counts st -> overflow st' !! Z.to_nat (about pc).1 = Some true ->
  length ks = 16%nat -> (exists l, l ∈ votes (about pc).1 es /\ l ∉ ks) -> table_inv es st' pcs (about pc).1 ks.
Proof.
  intros [T1 T2 T3 T4 T5 T5z T6 T7 T8 T9 T10] E1 E2 Ho Hlen Hl. constructor; rewrite ?E1, ?E2, ?Ho; try done.
  intros q Hq Eq. apply T6; [by right|done].
Qed.

(** A free slot is claimed. *)
Lemma table_claim es st v l probe pcs ks : Forall (fun e => 0 <= e.1 < Z.of_nat n) es -> 0 <= v < Z.of_nat n ->
  0 <= l < Z.of_nat n -> l ∈ votes v es ->
  table_inv es st (PcCas v l probe :: pcs) v ks -> slot_keys st !! slot v probe = Some kEmptyVoteKey ->
  table_inv es (Votes (<[slot v probe := l]> (slot_keys st)) (slot_counts st) (overflow st)) (PcCount v l probe :: pcs) v (ks ++ [l]).
Proof.
  intros Hes Hv Hl Hlv [T1 T2 T3 T4 T5 T5z T6 T7 T8 T9 T10] Hk.
  destruct (T6 (PcCas v l probe)) as [Hpass Hlt]; [left|done|].
  assert (Hge : (length ks <= probe)%nat).
  { destruct (decide (probe < length ks)%nat) as [Hp|]; [|lia]. destruct (lookup_lt_is_Some_2 ks probe Hp) as [k Ek].
    rewrite (T4 probe Hlt), Ek in Hk. injection Hk as Hk. cbn in Hk. assert (Hkr : 0 <= k < Z.of_nat n).
    { eapply votes_range; [done|]. apply T3. by eapply list_elem_of_lookup_2. } unfold kEmptyVoteKey in Hk. lia. }
  assert (Hlen : length ks = probe).
  { destruct (decide (length ks < probe)%nat) as [Hp|]; [|lia]. destruct (Hpass (length ks) Hp) as (k & Ek & _). apply lookup_lt_Some in Ek. lia. }
  assert (Hnin : l ∉ ks).
  { intros Hin. apply list_elem_of_lookup in Hin as [i Ei]. destruct (Hpass i) as (k & Ek & Hne); [apply lookup_lt_Some in Ei; lia|]. congruence. }
  assert (Hpend : forall w k, pending w k (PcCount v l probe :: pcs) = pending w k (PcCas v l probe :: pcs)) by (intros w k; by rewrite !pending_cons).
  assert (Hpos : forall pc, position_ok ks pc -> position_ok (ks ++ [l]) pc).
  { intros pc. destruct pc; cbn [position_ok]; [done|..].
    1-3: intros [Hp ?]; split; [intros i Hi; destruct (Hp i Hi) as (k & Ek & ?); exists k; split; [by apply lookup_app_l_Some|done]|rewrite ?length_app; lia].
    by apply lookup_app_l_Some. }
  constructor; cbn [slot_keys slot_counts overflow].
  - rewrite length_app. cbn. lia.
  - apply NoDup_app. split; [done|]. split; [|apply NoDup_singleton]. by intros x Hx ->%list_elem_of_singleton.
  - intros x [Hx| ->%list_elem_of_singleton]%elem_of_app; [by apply T3|done].
  - intros i Hi. destruct (decide (i = probe)) as [->|Hne].
    + rewrite list_lookup_insert_eq by (by eapply lookup_lt_Some). rewrite lookup_app_r by lia. by rewrite Hlen, Nat.sub_diag.
    + rewrite list_lookup_insert_ne by (intros E; destruct (slot_inj v v probe i); lia). rewrite T4 by done.
      destruct (decide (i < length ks)%nat); [by rewrite lookup_app_l by lia|].
      rewrite !lookup_ge_None_2; [done|rewrite length_app; cbn; lia|lia].
  - done.
  - intros i Hi. rewrite length_app in Hi. apply T5z. lia.
  - intros q [->|Hq]%elem_of_cons Eq; [|apply Hpos, T6; [by right|done]]. cbn. rewrite lookup_app_r by lia. by rewrite Hlen, Nat.sub_diag.
  - done.
  - intros Hf i x Ex. rewrite Hpend. apply lookup_snoc_Some in Ex as [[Hi Ex]|[Hi Hx]]; [by apply T8|]. subst x i.
    rewrite Hlen, T5z by lia. rewrite (T9 Hf l Hnin), Z.sub_diag. done.
  - intros Hf x Hx. rewrite Hpend. apply (T9 Hf). set_solver.
  - intros Ho. destruct (T10 Ho) as [? _]. lia.
Qed.

(** The count goes up as the call ends. *)
Lemma table_count es st v l probe pcs ks c : 0 <= v < Z.of_nat n ->
  table_inv es st (PcCount v l probe :: pcs) v ks -> slot_counts st !! slot v probe = Some c ->
  table_inv es (Votes (slot_keys st) (<[slot v probe := u32 (c + 1)]> (slot_counts st)) (overflow st)) pcs v ks.
Proof.
  intros Hv [T1 T2 T3 T4 T5 T5z T6 T7 T8 T9 T10] Hc. pose proof (T6 (PcCount v l probe) (list_elem_of_here _ _) eq_refl) as Hk. cbn in Hk.
  pose proof (lookup_lt_Some _ _ _ Hk) as Hlt. pose proof (lookup_lt_Some _ _ _ Hc) as Hcl.
  constructor; cbn [slot_keys slot_counts overflow]; try done.
  - intros i Hi. apply lookup_lt_is_Some. rewrite length_insert. apply lookup_lt_is_Some. by apply T5.
  - intros i Hi. rewrite list_lookup_insert_ne by (intros E; destruct (slot_inj v v probe i); lia). by apply T5z.
  - intros q Hq Eq. apply T6; [by right|done].
  - intros Hf i x Ex. pose proof (T8 Hf i x Ex) as Hx. rewrite pending_cons in Hx. cbn [about] in Hx. destruct (decide (i = probe)) as [->|Hne].
    + assert (x = l) as -> by congruence. rewrite list_lookup_insert_eq by done. rewrite decide_True in Hx by done.
      rewrite Hc in Hx. injection Hx as ->. f_equal. unfold wrap. rewrite Zplus_mod_idemp_l. f_equal. lia.
    + rewrite decide_False in Hx; [|intros [= ->]; apply Hne; by eapply (NoDup_lookup ks)].
      apply lookup_lt_Some in Ex. rewrite list_lookup_insert_ne by (intros E; destruct (slot_inj v v probe i); lia). exact Hx.
  - intros Hf x Hx. rewrite (T9 Hf x Hx), pending_cons. cbn [about]. rewrite decide_False; [lia|]. intros [= ->]. apply Hx. by eapply list_elem_of_lookup_2.
Qed.

Lemma vote_step es st pcs pc : vote_inside es st (pc :: pcs) ->
  exists st' pc', step_vote current_labels st pc = Some (st', pc') /\ vote_inside es st' (after pc' ++ pcs).
Proof.
  intros Hin. pose proof Hin as (H0 & H1 & H2). apply Forall_cons in H1 as [(V1 & V2 & V3 & V4) H1].
  destruct (H2 _ V1) as [ks T]. pose proof T as [T1 T2 T3 T4 T5 T5z T6 T7 T8 T9 T10].
  assert (Hpos := T6 pc (list_elem_of_here _ _) eq_refl).
  assert (Hsame : forall p, about p = about pc -> match p with PcStart _ _ => False | _ => True end -> position_ok ks p ->
    vote_inside es st (after (Some p) ++ pcs)).
  { intros p Ea Hst Hp. apply (step_close es st st pc pcs (Some p) ks Hin); [by intros q [= <-]|done|done|]. by apply table_same. }
  destruct pc as [src dst|v l probe|v l probe|v l probe|v l probe]; cbn [about fst snd] in *; cbn [step_vote].
  - destruct T7 as [o Eo]. rewrite Eo. cbn [mbind option_bind]. destruct o.
    + exists st, None. split; [done|]. destruct (T10 Eo) as [Hlen Hl].
      apply (step_close es st st (PcStart src dst) pcs None ks Hin); [done|done|done|]. by apply (table_overflowed es st (PcStart src dst) pcs st ks).
    + destruct (lookup_lt_is_Some_2 current_labels (Z.to_nat src)) as [l E]; [lia|]. rewrite E. cbn [mbind option_bind].
      exists st, (Some (PcLoad dst l 0)). split; [done|]. apply Hsame; [cbn; unfold label_at; by rewrite E|done|].
      split; [intros i Hi; lia|lia].
  - destruct Hpos as [Hpass Hle]. destruct (decide (kCdlpInitSlots <= probe)%nat) as [Hp|Hp]; unfold kCdlpInitSlots in Hp.
    + destruct T7 as [o Eo]. rewrite Eo. cbn [mbind option_bind]. eexists _, None. split; [done|].
      apply (step_close es st _ (PcLoad v l probe) pcs None ks Hin); [done|done| |].
      * intros w Hw Hne. cbn [overflow about fst] in *. by rewrite list_lookup_insert_ne by lia.
      * apply (table_overflowed es st (PcLoad v l probe)); [done|done|done|..].
        -- cbn [overflow about fst]. apply list_lookup_insert_eq. by eapply lookup_lt_Some.
        -- destruct (Hpass 15%nat) as (k & Ek & _); [lia|]. apply lookup_lt_Some in Ek. lia.
        -- exists l. split; [done|]. intros Hl. apply list_elem_of_lookup in Hl as [i Ei].
           destruct (Hpass i) as (k & Ek & Hne); [apply lookup_lt_Some in Ei; lia|]. congruence.
    + rewrite slot_idx_slot, T4 by lia. cbn [mbind option_bind]. eexists st, (Some _). split; [done|].
      destruct (ks !! probe) as [k|] eqn:Ek; cbn [from_option id].
      * assert (Hk : 0 <= k < Z.of_nat n) by (eapply votes_range; [done|]; apply T3; by eapply list_elem_of_lookup_2).
        destruct (Z.eqb_spec k l) as [->|Hne]; [by apply Hsame|].
        rewrite (proj2 (Z.eqb_neq k kEmptyVoteKey)) by (unfold kEmptyVoteKey; lia). apply Hsame; [done|done|].
        split; [|lia]. intros i Hi. destruct (decide (i = probe)) as [->|]; [by exists k|apply Hpass; lia].
      * rewrite (proj2 (Z.eqb_neq kEmptyVoteKey l)) by (unfold kEmptyVoteKey; lia). rewrite Z.eqb_refl. apply Hsame; [done|done|].
        split; [done|lia].
  - destruct Hpos as [Hpass Hlt]. rewrite slot_idx_slot, T4 by lia. cbn [mbind option_bind].
    destruct (Z.eqb_spec (default kEmptyVoteKey (ks !! probe)) kEmptyVoteKey) as [He|He].
    + eexists _, (Some _). split; [done|].
      apply (step_close es st _ (PcCas v l probe) pcs (Some (PcCount v l probe)) (ks ++ [l]) Hin); [by intros q [= <-]| |done|].
      * intros w i Hw Hne Hi. cbn [slot_keys slot_counts about fst] in *. split; [|done].
        apply list_lookup_insert_ne. intros E. destruct (slot_inj v w probe i); lia.
      * apply table_claim; [done|done|done|done|done|]. by rewrite T4, He.
    + eexists st, (Some _). split; [done|]. apply Hsame; [done|done|]. split; [done|].
      destruct (ks !! probe) eqn:Ek; [by eapply lookup_lt_Some|done].
  - destruct Hpos as [Hpass Hlt]. assert (probe < 16)%nat by lia. rewrite slot_idx_slot, T4 by lia. cbn [mbind option_bind]. eexists st, (Some _). split; [done|].
    destruct (lookup_lt_is_Some_2 ks probe Hlt) as [k Ek]. rewrite Ek. cbn [from_option id].
    destruct (Z.eqb_spec k l) as [->|Hne]; [by apply Hsame|]. apply Hsame; [done|done|].
    split; [|lia]. intros i Hi. destruct (decide (i = probe)) as [->|]; [by exists k|apply Hpass; lia].
  - cbn in Hpos. pose proof (lookup_lt_Some _ _ _ Hpos) as Hlt. rewrite slot_idx_slot by lia.
    destruct (T5 probe) as [c Ec]; [lia|]. rewrite Ec. cbn [mbind option_bind]. eexists _, None. split; [done|].
    apply (step_close es st _ (PcCount v l probe) pcs None ks Hin); [done| |done|by apply (table_count es st v l probe)].
    intros w i Hw Hne Hi. cbn [slot_keys slot_counts about fst] in *. split; [done|].
    apply list_lookup_insert_ne. intros E. destruct (slot_inj v w probe i); lia.
Qed.

Lemma vote_decreases st pc st' pc' : step_vote current_labels st pc = Some (st', Some pc') -> (vote_weight pc' < vote_weight pc)%nat.
Proof.
  destruct pc as [src dst|v l probe|v l probe|v l probe|v l probe]; cbn [step_vote].
  - destruct (overflow st !! _) as [[]|]; cbn [mbind option_bind]; [done| |done].
    destruct (current_labels !! _); cbn [mbind option_bind]; [|done]. intros [= _ <-]. unfold vote_weight; destruct (decide _); lia.
  - destruct (decide _) as [Hp|Hp]; [by destruct (overflow st !! _)|]. unfold kCdlpInitSlots in Hp.
    destruct (slot_keys st !! _) as [cur|]; cbn [mbind option_bind]; [|done]. intros [= _ <-].
    destruct (cur =? l); [|destruct (cur =? kEmptyVoteKey)]; unfold vote_weight; repeat destruct (decide _); lia.
  - destruct (slot_keys st !! _) as [cur|]; cbn [mbind option_bind]; [|done].
    destruct (cur =? kEmptyVoteKey); intros [= _ <-]; cbn [vote_weight]; lia.
  - destruct (slot_keys st !! _) as [cur|]; cbn [mbind option_bind]; [|done]. intros [= _ <-].
    destruct (cur =? l); unfold vote_weight; repeat destruct (decide _); lia.
  - by destruct (slot_counts st !! _).
Qed.

(** ** Committing and emptying *)

Lemma overflow_spec es st v ks : table_inv es st [] v ks ->
  overflow st !! Z.to_nat v = Some (negb (length (remove_dups (votes v es)) <=? kCdlpInitSlots)%nat).
Proof.
  intros [T1 T2 T3 T4 T5 T5z T6 [o Eo] T8 T9 T10]. rewrite Eo. f_equal. unfold kCdlpInitSlots. destruct o.
  - destruct (T10 Eo) as (Hlen & l & Hl & Hnin). symmetry. apply negb_true_iff, Nat.leb_gt.
    enough (length (l :: ks) <= length (remove_dups (votes v es)))%nat by (cbn [length] in *; lia).
    apply submseteq_length, NoDup_submseteq; [by constructor|]. intros x [->|Hx]%elem_of_cons; apply elem_of_remove_dups; auto.
  - symmetry. apply negb_false_iff, Nat.leb_le.
    enough (length (remove_dups (votes v es)) <= length ks)%nat by lia.
    apply submseteq_length, NoDup_submseteq; [apply NoDup_remove_dups|]. intros x Hx. rewrite elem_of_remove_dups in Hx.
    destruct (decide (x ∈ ks)) as [|Hn]; [done|]. apply times_pos in Hx. rewrite (T9 Eo x Hn) in Hx. change (pending v x []) with 0 in Hx. lia.
Qed.

Lemma commit_spec es st v next : vote_inside es st [] -> 0 <= v < Z.of_nat n -> Z.of_nat (length (votes v es)) < 2 ^ 32 ->
  commit (zip (slot_keys st) (slot_counts st)) current_labels (overflow st) next v =
    Some (<[Z.to_nat v := slot_winner (label_at current_labels v) (votes v es)]> next).
Proof.
  intros (H0 & _ & H2) Hv Hb. destruct (H2 v Hv) as [ks T]. pose proof (overflow_spec _ _ _ _ T) as Ho.
  destruct T as [T1 T2 T3 T4 T5 T5z T6 T7 T8 T9 T10]. unfold commit.
  destruct (lookup_lt_is_Some_2 current_labels (Z.to_nat v)) as [own E]; [lia|]. rewrite E. cbn [mbind option_bind].
  assert (Hown : label_at current_labels v = own) by (unfold label_at; by rewrite E). rewrite Hown, Ho. cbn [mbind option_bind].
  unfold slot_winner. destruct (length (remove_dups (votes v es)) <=? kCdlpInitSlots)%nat; cbn [negb] in *; [|done].
  assert (Hm : mapM (fun i => zip (slot_keys st) (slot_counts st) !! slot_idx v i) (seq 0 kCdlpInitSlots) =
    Some ((fun i => (default kEmptyVoteKey (ks !! i), default 0 (slot_counts st !! slot v i))) <$> seq 0 kCdlpInitSlots)).
  { apply mapM_Some_2. apply Forall2_fmap_r, Forall_Forall2_diag, Forall_forall. intros i Hi. apply elem_of_seq in Hi. unfold kCdlpInitSlots in Hi.
    rewrite slot_idx_slot by lia. destruct (T5 i ltac:(lia)) as [c Ec]. unfold compose. rewrite Ec. apply lookup_zip_with_Some.
    eexists _, _. split; [reflexivity|]. split; [apply T4; lia|done]. }
  rewrite Hm. cbn [mbind option_bind]. do 2 f_equal. apply pick_winner. intros l k. rewrite list_elem_of_filter, list_elem_of_fmap. split.
  - intros (Hne & i & [= -> ->] & Hi). cbn in Hne. apply elem_of_seq in Hi. unfold kCdlpInitSlots in Hi.
    destruct (ks !! i) as [l|] eqn:El; [|done]. cbn [default from_option id]. split; [apply T3; by eapply list_elem_of_lookup_2|].
    rewrite (T8 Ho i l El). cbn [default from_option id]. change (pending v l []) with 0. rewrite Z.sub_0_r. apply wrap_small.
    pose proof (times_bound l (votes v es)). unfold in_width. lia.
  - intros [Hl ->]. destruct (decide (l ∈ ks)) as [Hin|Hn]; [|apply times_pos in Hl; rewrite (T9 Ho l Hn) in Hl; change (pending v l []) with 0 in Hl; lia].
    apply list_elem_of_lookup in Hin as [i Ei]. pose proof (lookup_lt_Some _ _ _ Ei) as Hi. split.
    + cbn. pose proof (votes_range v es l H0 Hl). unfold kEmptyVoteKey. lia.
    + exists i. rewrite Ei, (T8 Ho i l Ei). cbn [default from_option id]. change (pending v l []) with 0. rewrite Z.sub_0_r, wrap_small.
      * split; [done|]. apply elem_of_seq. unfold kCdlpInitSlots. lia.
      * pose proof (times_bound l (votes v es)). unfold in_width. lia.
Qed.

(** A vertex whose slots are free, and one whose slots exist. *)
Definition emptied (st : votes_t) (v : Z) : Prop :=
  (forall i, (i < 16)%nat -> slot_keys st !! slot v i = Some kEmptyVoteKey /\ slot_counts st !! slot v i = Some 0) /\
  overflow st !! Z.to_nat v = Some false.

Definition sized (st : votes_t) : Prop :=
  length (slot_keys st) = (n * 16)%nat /\ length (slot_counts st) = (n * 16)%nat /\ length (overflow st) = n.

Lemma emptied_inside st : (forall v, 0 <= v < Z.of_nat n -> emptied st v) -> vote_inside [] st [].
Proof.
  intros He. split; [constructor|]. split; [constructor|]. intros v Hv. destruct (He v Hv) as [E1 E2]. exists []. constructor.
  - cbn. lia.
  - constructor.
  - intros l Hl. by apply elem_of_nil in Hl.
  - intros i Hi. by apply E1.
  - intros i Hi. exists 0. by apply E1.
  - intros i Hi. apply E1. lia.
  - intros pc Hpc. by apply elem_of_nil in Hpc.
  - by eexists.
  - intros _ i l Hl. by rewrite lookup_nil in Hl.
  - done.
  - by rewrite E2.
Qed.

Lemma empty_votes_emptied v : 0 <= v < Z.of_nat n -> emptied (empty_votes n) v.
Proof.
  intros Hv. unfold emptied, empty_votes, kCdlpInitSlots, slot. cbn [slot_keys slot_counts overflow]. split; [|apply lookup_replicate_2; lia].
  intros i Hi. split; apply lookup_replicate_2; lia.
Qed.

Lemma clear_lookup {X} (x : X) v l j : 0 <= v < Z.of_nat n -> length l = (n * 16)%nat ->
  let l' := foldl (fun l i => <[slot_idx v i := x]> l) l (seq 0 kCdlpInitSlots) in
  length l' = length l /\ ((exists i, (i < 16)%nat /\ j = slot v i) -> l' !! j = Some x) /\
  ((forall i, (i < 16)%nat -> j <> slot v i) -> l' !! j = l !! j).
Proof.
  intros Hv Hlen. cbn zeta. unfold kCdlpInitSlots.
  assert (Hg : forall k, (k <= 16)%nat -> let l' := foldl (fun l i => <[slot_idx v i := x]> l) l (seq 0 k) in
    length l' = length l /\ ((exists i, (i < k)%nat /\ j = slot v i) -> l' !! j = Some x) /\
    ((forall i, (i < k)%nat -> j <> slot v i) -> l' !! j = l !! j)).
  { induction k as [|k IH]; intros Hk; cbn zeta in *.
    - split; [done|]. split; [intros (i & ? & _); lia|done].
    - rewrite seq_S, foldl_snoc. destruct (IH ltac:(lia)) as (I1 & I2 & I3). rewrite Nat.add_0_l, slot_idx_slot by lia.
      split; [by rewrite length_insert|]. assert (Hlt : (slot v k < length l)%nat) by (unfold slot; lia). split.
      + intros (i & Hi & ->). destruct (decide (i = k)) as [->|Hne]; [apply list_lookup_insert_eq; lia|].
        rewrite list_lookup_insert_ne by (unfold slot; lia). apply I2. exists i. split; [lia|done].
      + intros Hj. rewrite list_lookup_insert_ne by (intros E; by apply (Hj k); [lia|]). apply I3. intros i Hi. apply Hj. lia. }
  by apply Hg.
Qed.

Lemma reset_spec st v : sized st -> 0 <= v < Z.of_nat n -> exists st', reset st v = Some st' /\ sized st' /\ emptied st' v /\
  forall w, 0 <= w < Z.of_nat n -> emptied st w -> emptied st' w.
Proof.
  intros (S1 & S2 & S3) Hv. unfold reset. destruct (lookup_lt_is_Some_2 (overflow st) (Z.to_nat v)) as [o Eo]; [lia|]. rewrite Eo.
  cbn [mbind option_bind]. eexists. split; [done|].
  assert (Hnew : emptied (Votes (foldl (fun l i => <[slot_idx v i := kEmptyVoteKey]> l) (slot_keys st) (seq 0 kCdlpInitSlots))
    (foldl (fun l i => <[slot_idx v i := 0]> l) (slot_counts st) (seq 0 kCdlpInitSlots)) (<[Z.to_nat v := false]> (overflow st))) v).
  { split; cbn [slot_keys slot_counts overflow]; [|apply list_lookup_insert_eq; lia]. intros i Hi.
    destruct (clear_lookup kEmptyVoteKey v _ (slot v i) Hv S1) as (_ & K & _), (clear_lookup 0 v _ (slot v i) Hv S2) as (_ & C & _).
    split; [apply K|apply C]; by exists i. }
  split; [|split; [done|]].
  - destruct (clear_lookup kEmptyVoteKey v _ 0 Hv S1) as (K & _), (clear_lookup 0 v _ 0 Hv S2) as (C & _).
    unfold sized. cbn [slot_keys slot_counts overflow]. rewrite length_insert. split; [congruence|]. split; [congruence|done].
  - intros w Hw [E1 E2]. destruct (decide (w = v)) as [->|Hne]; [done|]. split; cbn [slot_keys slot_counts overflow]; [|by rewrite list_lookup_insert_ne by lia].
    intros i Hi. destruct (clear_lookup kEmptyVoteKey v _ (slot w i) Hv S1) as (_ & _ & K), (clear_lookup 0 v _ (slot w i) Hv S2) as (_ & _ & C).
    rewrite K, C; [by apply E1|..]; intros k Hk E; destruct (slot_inj w v i k); lia.
Qed.

Lemma resets_spec vs : forall st, sized st -> (forall v, v ∈ vs -> 0 <= v < Z.of_nat n) ->
  exists st', foldl (fun acc v => st ← acc; reset st v) (Some st) vs = Some st' /\ sized st' /\ (forall v, v ∈ vs -> emptied st' v) /\
    forall w, 0 <= w < Z.of_nat n -> emptied st w -> emptied st' w.
Proof.
  induction vs as [|v vs IH]; intros st Hs Hv.
  { exists st. split; [done|]. split; [done|]. split; [|done]. intros v Hin. by apply elem_of_nil in Hin. }
  destruct (reset_spec st v Hs (Hv v (list_elem_of_here _ _))) as (st1 & E & Hs1 & He & Hk). cbn [foldl mbind option_bind]. rewrite E.
  destruct (IH st1 Hs1) as (st' & E' & Hs' & He' & Hk'); [intros w Hw; apply Hv; by right|].
  exists st'. split; [done|]. split; [done|]. split.
  - intros w [->|Hw]%elem_of_cons; [apply Hk'; [apply Hv; left|done]|by apply He'].
  - intros w Hw Hw'. apply Hk'; [done|by apply Hk].
Qed.

(** A round keeps the sizes of the arrays. *)
Lemma step_vote_sized st pc st' pc' : step_vote current_labels st pc = Some (st', pc') -> sized st -> sized st'.
Proof.
  unfold sized. destruct pc as [src dst|v l probe|v l probe|v l probe|v l probe]; cbn [step_vote].
  - destruct (overflow st !! _) as [[]|]; cbn [mbind option_bind]; [by intros [= <- _]| |done].
    destruct (current_labels !! _); cbn [mbind option_bind]; [|done]. by intros [= <- _].
  - destruct (decide _) as [Hp|Hp].
    + destruct (overflow st !! _); [|done]. intros [= <- _]. cbn. by rewrite length_insert.
    + destruct (slot_keys st !! _) as [cur|]; [|done]. by intros [= <- _].
  - destruct (slot_keys st !! _) as [cur|]; cbn [mbind option_bind]; [|done].
    destruct (cur =? kEmptyVoteKey); intros [= <- _]; [|done]. cbn. by rewrite length_insert.
  - destruct (slot_keys st !! _) as [cur|]; [|done]. by intros [= <- _].
  - destruct (slot_counts st !! _); [|done]. intros [= <- _]. cbn. by rewrite length_insert.
Qed.

(** What the edge map keeps. *)
Definition vote_phase (es : list (Z * Z)) (st : votes_t) (pcs : list vote_pc) : Prop := vote_inside es st pcs /\ sized st.

Lemma phase_perm es es' st pcs pcs' : es ≡ₚ es' -> pcs ≡ₚ pcs' -> vote_phase es st pcs -> vote_phase es' st pcs'.
Proof. intros H1 H2 [H3 H4]. split; [by eapply vote_perm|done]. Qed.

Lemma phase_call es st pcs e : 0 <= e.1 < Z.of_nat n /\ 0 <= e.2 < Z.of_nat n -> vote_phase es st pcs ->
  vote_phase (e :: es) st (PcStart e.1 e.2 :: pcs).
Proof. intros [H1 H2] [H3 H4]. split; [by apply vote_begin|done]. Qed.

Lemma phase_vote es st pcs pc : vote_phase es st (pc :: pcs) ->
  exists st' pc', step_vote current_labels st pc = Some (st', pc') /\ vote_phase es st' (after pc' ++ pcs).
Proof.
  intros [H1 H2]. destruct (vote_step _ _ _ _ H1) as (st' & pc' & E & H3). exists st', pc'. split; [done|]. split; [done|].
  by eapply step_vote_sized.
Qed.

End Votes.

(** ** The rounds *)

Lemma full_mapped k : mapped (make_full_frontier k) = Some (seqZ 0 (Z.of_nat k)).
Proof.
  unfold mapped. change (dense (make_full_frontier k)) with true. change (num_vertices (make_full_frontier k)) with (Z.of_nat k).
  rewrite (proj2 (mapM_Some (fun v => b ← is_in (make_full_frontier k) v; Some (v, b)) (seqZ 0 (Z.of_nat k)) ((fun v => (v, true)) <$> seqZ 0 (Z.of_nat k)))).
  - cbn [mbind option_bind]. f_equal. generalize (seqZ 0 (Z.of_nat k)). intros l. induction l as [|v l IH]; [done|].
    cbn [fmap list_fmap]. rewrite filter_cons_True by done. cbn [fmap list_fmap]. by f_equal.
  - apply Forall2_fmap_r, Forall_Forall2_diag, Forall_forall. intros v Hv. apply elem_of_seqZ in Hv. unfold compose, is_in. cbn.
    by rewrite lookup_replicate_2 by lia.
Qed.

Section Run.
Context {D : Type} `{!NeighborReader D} `{!EdgeLister D} `{!ExactLister D}.
Variable d0 : D.

Abbreviation n := (vertices d0).
Abbreviation ids := (seqZ 0 (Z.of_nat n)).

(** The sources of the edges to [v], as often as they list it. *)
Definition in_list (v : Z) : list Z := fst <$> filter (fun e => e.2 = v) (all_edges d0).

Definition in_lists : list (list Z) := in_list <$> ids.

Hypothesis n_small : Z.of_nat n <= 2 ^ 28.
Hypothesis d0_exact : exact d0.
(** Lists name vertices, and in-degrees are 32-bit. *)
Hypothesis d0_closed : forall v l u, vertex d0 v -> adj d0 v = Some l -> u ∈ l -> vertex d0 u.
Hypothesis d0_in_degrees : forall v, vertex d0 v -> Z.of_nat (length (in_list v)) < 2 ^ 32.

Lemma all_edges_ok : Forall (fun e => 0 <= e.1 < Z.of_nat n /\ 0 <= e.2 < Z.of_nat n) (all_edges d0).
Proof.
  apply Forall_forall. intros e He. unfold all_edges in He. apply list_elem_of_bind in He as (v & He & Hv).
  apply elem_of_seqZ in Hv. assert (Hvv : vertex d0 v) by (unfold vertex; lia).
  destruct (listable_readable d0 (exact_listable d0 d0_exact) v Hvv) as [l Hl]. rewrite Hl in He.
  apply list_elem_of_fmap in He as (u & -> & Hu). split; [done|]. by apply (d0_closed v l u).
Qed.

Lemma votes_in_list labels v : length labels = n -> votes labels v (all_edges d0) = votes_of labels (in_list v).
Proof.
  intros Hl. unfold votes, votes_of, in_list. rewrite list_fmap_compose. f_equal. unfold in_graph. rewrite Hl.
  assert (Hr : Forall (fun u => 0 <= u < Z.of_nat n) (fst <$> filter (fun e => e.2 = v) (all_edges d0))).
  { apply Forall_fmap, Forall_forall. intros e He. apply list_elem_of_filter in He as [_ He].
    pose proof all_edges_ok as Hok. rewrite Forall_forall in Hok. apply (Hok e He). }
  symmetry. clear -Hr. induction Hr as [|u l Hu _ IH]; [done|]. rewrite filter_cons_True by done. by rewrite IH.
Qed.

Definition slot_label (labels : list Z) (v : Z) : Z := slot_winner (label_at labels v) (votes_of labels (in_list v)).

Lemma write_all_slots vs labels old : length labels = n -> length old = n -> vs ≡ₚ ids ->
  write_all (slot_label labels) vs old = propagate_slots in_lists labels.
Proof.
  intros Hl Ho Hp. apply list_eq. intros i. unfold propagate_slots, in_lists. rewrite lookup_zip_with, list_lookup_fmap.
  destruct (decide (i < n)%nat) as [Hi|Hi].
  - rewrite write_all_lookup; [|lia|].
    + rewrite decide_True by (rewrite Hp; apply elem_of_seqZ; lia).
      destruct (lookup_lt_is_Some_2 labels i) as [own Eo]; [lia|]. rewrite Eo.
      assert (Ei : ids !! i = Some (Z.of_nat i)) by (apply lookup_seqZ; lia). rewrite Ei. cbn.
      unfold slot_label, label_at. by rewrite Nat2Z.id, Eo.
    + intros v Hv. rewrite Hp in Hv. apply elem_of_seqZ in Hv. lia.
  - rewrite (lookup_ge_None_2 (write_all _ _ _)) by (rewrite length_write_all; lia).
    rewrite (lookup_ge_None_2 labels) by lia. done.
Qed.

Lemma propagate_slots_ok labels : labels_ok d0 labels -> labels_ok d0 (propagate_slots in_lists labels).
Proof.
  intros Hl. split.
  - unfold propagate_slots, in_lists. rewrite length_zip_with, length_fmap, length_seqZ, (proj1 Hl). lia.
  - apply Forall_lookup. intros i w Hw. unfold propagate_slots in Hw. apply lookup_zip_with_Some in Hw as (own & ns & -> & Ho & _).
    pose proof (Forall_lookup_1 _ _ _ _ (proj2 Hl) Ho) as Hown. unfold slot_winner.
    destruct (_ <=? _)%nat; [|done]. destruct (decide (votes_of labels ns = [])) as [->|Hne]; [done|].
    eapply votes_in; [done|]. by apply winner_in.
Qed.

Lemma commits_spec labels vt vs : labels_ok d0 labels -> vote_inside n labels (all_edges d0) vt [] ->
  forall next, (forall v, v ∈ vs -> vertex d0 v) ->
  foldl (fun acc v => st ← acc; commit (zip (slot_keys vt) (slot_counts vt)) labels (overflow vt) st v) (Some next) vs =
    Some (write_all (slot_label labels) vs next).
Proof.
  intros Hl Hi. induction vs as [|v vs IH]; intros next Hv; [done|]. cbn [foldl mbind option_bind].
  rewrite (commit_spec n labels n_small (proj1 Hl) (proj2 Hl) (all_edges d0) vt v next Hi); [|apply Hv; left|].
  - rewrite votes_in_list by apply Hl. rewrite IH by (intros w Hw; apply Hv; by right). done.
  - rewrite votes_in_list by apply Hl. unfold votes_of, in_graph. rewrite length_fmap.
    pose proof (length_filter (fun u => 0 <= u < Z.of_nat (length labels)) (in_list v)).
    pose proof (d0_in_degrees v (Hv v (list_elem_of_here _ _))). lia.
Qed.

Lemma map_loop_spec raw sched (perm : nat -> bool -> list Z -> list Z) rounds : (0 < n)%nat -> (forall i b l, perm i b l ≡ₚ l) ->
  forall i labels next vt d, labels_ok d0 labels -> length next = n -> sized n vt -> (forall v, 0 <= v < Z.of_nat n -> emptied vt v) ->
  same_graph d0 d -> exact d ->
  exists d', cdlp_map_loop rounds i raw sched perm (make_full_frontier n) labels next vt d = Some (lpa_slots rounds in_lists labels, d') /\ same_graph d0 d'.
Proof.
  intros Hpos Hp. induction rounds as [|rounds IH]; intros i labels next vt d Hl Hn Hsz He Hg Hx; [by exists d|].
  cbn [cdlp_map_loop lpa_slots].
  assert (Hfe : VertexSet.is_empty (make_full_frontier n) = false).
  { unfold VertexSet.is_empty. cbn. apply Z.eqb_neq. lia. }
  destruct (edge_map_no_output_spec (vote_functor labels) (fun e => 0 <= e.1 < Z.of_nat n /\ 0 <= e.2 < Z.of_nat n)
    (vote_phase n labels) (vote_decreases n labels (proj1 Hl)) (phase_perm n labels) (fun _ _ => eq_refl)
    (fun es st pcs e => phase_call n labels (proj1 Hl) (proj2 Hl) es st pcs e)
    (fun es st pcs pc => phase_vote n labels n_small (proj1 Hl) (proj2 Hl) es st pcs pc) d0 all_edges_ok raw (sched i) (make_full_frontier n) vt d [])
    as (vt1 & d1 & E & Hg1 & Hx1 & Hi1 & Hs1); [done|done|done|done| | |].
  { intros v Hv. unfold is_in. cbn. apply lookup_replicate_2. unfold vertex in Hv. lia. }
  { split; [by apply (emptied_inside n labels (proj1 Hl))|done]. }
  rewrite E. cbn [mbind option_bind]. rewrite app_nil_r in Hi1.
  unfold bw_vertex_map. rewrite Hfe, full_mapped. cbn [mbind option_bind].
  assert (Hids : forall b v, v ∈ perm i b ids -> vertex d0 v).
  { intros b v Hv. rewrite (Hp i b ids) in Hv. apply elem_of_seqZ in Hv. unfold vertex. lia. }
  rewrite (commits_spec labels vt1 (perm i false ids) Hl Hi1 next (Hids false)). cbn [mbind option_bind].
  destruct (resets_spec n labels n_small (proj1 Hl) (perm i true ids) vt1 Hs1 (Hids true)) as (vt2 & E2 & Hs2 & He2 & _). rewrite E2. cbn [mbind option_bind].
  rewrite (write_all_slots (perm i false ids) labels next (proj1 Hl) Hn (Hp i false ids)).
  rewrite changed_count_spec by (rewrite (proj1 (propagate_slots_ok labels Hl)); symmetry; apply Hl).
  destruct (decide (propagate_slots in_lists labels = labels)) as [Heq|Hne].
  - rewrite bool_decide_true by done. cbn [negb]. by exists d1.
  - rewrite bool_decide_false by done. cbn [negb]. apply IH; [by apply propagate_slots_ok|apply Hl|done| |done|done].
    intros v Hv. apply He2. rewrite (Hp i true ids). apply elem_of_seqZ. lia.
Qed.

(** With few labels around every vertex the slots make no difference. *)
Lemma slot_winner_few own vs : (length (remove_dups vs) <= 16)%nat -> slot_winner own vs = winner own vs.
Proof. intros Hl. unfold slot_winner, kCdlpInitSlots. by rewrite (proj2 (Nat.leb_le _ _) Hl). Qed.

Lemma winner_perm own vs vs' : vs ≡ₚ vs' -> winner own vs = winner own vs'.
Proof.
  intros Hp. unfold winner. apply pick_best_ext.
  - intros [l k]. rewrite !elem_of_tally. unfold times. by rewrite Hp.
  - intros l k Hl. apply elem_of_tally in Hl as [Hl ->]. by apply times_pos.
Qed.

Definition balanced : Prop := forall v l, vertex d0 v -> adj d0 v = Some l -> in_list v ≡ₚ l /\ (length l <= 16)%nat.

Lemma balanced_lpa rounds : balanced -> forall labels, labels_ok d0 labels -> lpa_slots rounds in_lists labels = lpa rounds (lists_of d0) labels.
Proof.
  intros Hb. induction rounds as [|rounds IH]; intros labels Hl; [done|]. cbn [lpa_slots lpa].
  assert (E : propagate_slots in_lists labels = propagate (lists_of d0) labels).
  { apply list_eq. intros i. unfold propagate_slots, propagate, in_lists, lists_of. rewrite !lookup_zip_with, !list_lookup_fmap.
    destruct (labels !! i) as [own|] eqn:Eo; [|done]. cbn [mbind option_bind]. destruct (ids !! i) as [v|] eqn:Ev; [|done]. cbn.
    f_equal. apply lookup_seqZ in Ev as [-> Hi]. assert (Hv : vertex d0 (0 + Z.of_nat i)) by (unfold vertex; lia).
    destruct (listable_readable d0 (exact_listable d0 d0_exact) _ Hv) as [l Ha]. rewrite Ha. cbn.
    destruct (Hb _ l Hv Ha) as [Hperm Hlen].
    assert (Hvp : votes_of labels (in_list (0 + Z.of_nat i)) ≡ₚ votes_of labels l) by (unfold votes_of, in_graph; by rewrite Hperm).
    rewrite slot_winner_few; [by apply winner_perm|].
    trans (length (votes_of labels (in_list (0 + Z.of_nat i)))).
    - apply submseteq_length, NoDup_submseteq; [apply NoDup_remove_dups|]. intros x. by rewrite elem_of_remove_dups.
    - rewrite Hvp. pose proof (length_votes labels l). lia. }
  rewrite E. destruct (decide _); [done|]. apply IH. rewrite <- E. by apply propagate_slots_ok.
Qed.

(** The parallel version by edge maps is deterministic: whatever the
    interleaving of the steps of the votes (loads of slots, compare-and-swaps,
    additions), the order of the vertex maps and of the pages, it returns the
    labels of synchronous propagation along the edges, in which a vertex whose
    in-neighbours have more than sixteen different labels keeps its own; on a
    graph that lists every edge in both directions, with at most sixteen
    neighbours each, these are the labels of the other versions. *)
Theorem parallel_cdlp_map_labels raw sched (perm : nat -> bool -> list Z -> list Z) rounds :
  (forall i b l, perm i b l ≡ₚ l) ->
  exists d', parallel_cdlp_map raw sched perm rounds d0 = Some (zip ids (lpa_slots rounds in_lists ids), d') /\ same_graph d0 d' /\
    (balanced -> lpa_slots rounds in_lists ids = lpa rounds (lists_of d0) ids).
Proof.
  intros Hp. unfold parallel_cdlp_map. pose proof (ids_ok d0) as Hok. destruct (Nat.eqb_spec n 0) as [Hz|Hz].
  - exists d0. split; [by rewrite Hz|]. split; [reflexivity|]. intros Hb. by apply balanced_lpa.
  - destruct (map_loop_spec raw sched perm rounds ltac:(lia) Hp 0 ids ids (empty_votes n) d0) as (d' & E & Hg);
      [done|rewrite length_seqZ; lia| |intros v Hv; by eapply empty_votes_emptied, Hv; [apply Hok|..]|done|done|].
    { unfold sized, empty_votes, kCdlpInitSlots. cbn. rewrite !length_replicate. done. }
    rewrite E. exists d'. split; [done|]. split; [done|]. intros Hb. by apply balanced_lpa.
Qed.

End Run.

End CdlpMap.
