(* ===== verification/PageRankMap.v ===== *)
(** * PageRank by edge maps ([bw_graph_db_t::parallel_pagerank_map])

    A round pushes every vertex's share along its edges: a call of the functor
    loads the rank of its source and then adds to its target's sum, an atomic
    addition; the steps of the calls interleave.  Vertex maps then damp the
    sums and empty the other buffer.  Since additions of doubles depend on
    their order, a rank of the next round is a sum of the shares in some order;
    the change between rounds is summed over blocks in a tree that tbb chooses. *)

From S2P Require Import Prelude GraphRead VertexSet Interleave EdgeMap EdgePush Cdlp CdlpMap PageRank.

Local Open Scope Z_scope.

Module PageRankMap.
Import GraphRead VertexSet EdgeMap EdgePush PageRank.

(** How a range is reduced: by one body from the identity, or as two parts. *)
Inductive reduction := WholeRange | SplitAt (cut : nat) (left right : reduction).

Section Algorithm.
Context {R : Type} `{!Scalar R}.

Abbreviation zero := (of_int 0).
Abbreviation one := (of_int 1).

Fixpoint parallel_sum (r : reduction) (l : list R) : R :=
  match r with
  | WholeRange => sum_from_zero l
  | SplitAt cut a b => radd (parallel_sum a (take cut l)) (parallel_sum b (drop cut l))
  end.

(** A call of [pagerank_edge_functor_t]: about to load its source's rank, or
    about to add [value]. *)
Inductive push_pc := PushLoad (src dst : Z) | PushAdd (src dst : Z) (value : R).

Definition step_rank (current inverse_degree : list R) (next : list R) (pc : push_pc) : option (list R * option push_pc) :=
  match pc with
  | PushLoad src dst =>
    r ← current !! Z.to_nat src;
    i ← inverse_degree !! Z.to_nat src;
    Some (next, Some (PushAdd src dst (rmul r i)))
  | PushAdd _ dst value =>
    x ← next !! Z.to_nat dst;
    Some (<[Z.to_nat dst := radd x value]> next, None)
  end.

Definition rank_weight (pc : push_pc) : nat := match pc with PushLoad _ _ => 1 | PushAdd _ _ _ => 0 end.

Definition rank_functor (current inverse_degree : list R) : stepped_functor_t (list R) push_pc :=
  SteppedFunctor (fun _ _ => Some true) PushLoad (step_rank current inverse_degree) rank_weight.

(** [pagerank_vertex_functor_t] and [pagerank_reset_functor_t]. *)
Definition damp (damping_factor added_constant : R) (next : list R) (v : Z) : option (list R) :=
  value ← next !! Z.to_nat v;
  Some (<[Z.to_nat v := radd (rmul damping_factor value) added_constant]> next).

Definition clear_rank (values : list R) (v : Z) : option (list R) :=
  _ ← values !! Z.to_nat v;
  Some (<[Z.to_nat v := zero]> values).

Context {D : Type} `{!NeighborReader D} `{!EdgeLister D}.

Fixpoint inverse_degrees (vs : list Z) (d : D) : option (list R * D) :=
  match vs with
  | [] => Some ([], d)
  | v :: vs =>
    '(neighbors, d) ← read d v;
    '(rest, d) ← inverse_degrees vs d;
    Some ((if bool_decide (neighbors = []) then zero else rdiv one (of_int (Z.of_nat (length neighbors)))) :: rest, d)
  end.

(** [sched]: the interleaving of a round, [perm]: the order of its vertex
    maps, [tree]: the reduction of its change. *)
Fixpoint map_loop (max_iterations iteration : nat) (raw : nat -> list Z) (sched : nat -> list nat) (perm : nat -> bool -> list Z -> list Z)
    (tree : nat -> reduction) (frontier : vertex_subset_t) (inverse_degree : list R) (damping_factor added_constant threshold : R)
    (current next : list R) (d : D) : option (list R * D) :=
  match max_iterations with
  | O => Some (current, d)
  | S max_iterations =>
    '(frontier, next, d) ← bw_edge_map_no_output (rank_functor current inverse_degree) raw (sched iteration) d frontier next;
    next ← bw_vertex_map (damp damping_factor added_constant) (perm iteration false) frontier next;
    let l1_norm := parallel_sum (tree iteration) (differences current next) in
    if rlt l1_norm threshold then Some (next, d)
    else
      current ← bw_vertex_map clear_rank (perm iteration true) frontier current;
      map_loop max_iterations (S iteration) raw sched perm tree frontier inverse_degree damping_factor added_constant threshold next current d
  end.

Definition parallel_pagerank_map (raw : nat -> list Z) (sched : nat -> list nat) (perm : nat -> bool -> list Z -> list Z)
    (tree : nat -> reduction) (max_iterations : nat) (damping_factor threshold : R) (d : D) : option (list (Z * R) * D) :=
  let vertex_count := vertices d in
  if (vertex_count =? 0)%nat then Some ([], d)
  else
    let ids := seqZ 0 (Z.of_nat vertex_count) in
    '(inverse_degree, d) ← inverse_degrees ids d;
    let initial_rank := rdiv one (of_int (Z.of_nat vertex_count)) in
    '(ranks, d) ← map_loop max_iterations 0 raw sched perm tree (CdlpMap.make_full_frontier vertex_count) inverse_degree damping_factor
                    (rmul (rsub one damping_factor) initial_rank) threshold
                    (replicate vertex_count initial_rank) (replicate vertex_count zero) d;
    Some (zip ids ranks, d).

End Algorithm.

Arguments push_pc : clear implicits.

(** ** A round *)

Section Round.
Context {R : Type} `{!Scalar R} {D : Type} `{!NeighborReader D}.
Variable d0 : D.

Abbreviation n := (vertices d0).

(** The sum at [v] of the shares of the edges [es], in their order. *)
Definition received (rank : list R) (es : list (Z * Z)) (v : Z) : R :=
  sum_from_zero ((fun e => share d0 rank e.1) <$> filter (fun e => e.2 = v) es).

(** The ranks after a round whose additions came in the order [es]. *)
Definition push_step (damping_factor : R) (es : list (Z * Z)) (rank : list R) : list R :=
  (fun v => radd (rmul damping_factor (received rank es v))
                 (rmul (rsub (of_int 1) damping_factor) (rdiv (of_int 1) (of_int (Z.of_nat n))))) <$> seqZ 0 (Z.of_nat n).

Definition push_round (damping_factor threshold : R) (rank rank' : list R) (stop : bool) : Prop :=
  exists es tree, es ≡ₚ all_edges d0 /\ rank' = push_step damping_factor es rank /\
    stop = rlt (parallel_sum tree (differences rank rank')) threshold.

Definition inverses : list R := (fun v => inverse (deg d0 v)) <$> seqZ 0 (Z.of_nat n).

Lemma inverses_lookup v : 0 <= v < Z.of_nat n -> inverses !! Z.to_nat v = Some (inverse (deg d0 v)).
Proof. intros Hv. unfold inverses. by rewrite list_lookup_fmap, (proj2 (lookup_seqZ 0 _ (Z.to_nat v) v)) by lia. Qed.

Section Calls.
Variable rank : list R.
Hypothesis rank_length : length rank = n.

Definition edge_of (pc : push_pc R) : Z * Z := match pc with PushLoad u v | PushAdd u v _ => (u, v) end.

Definition in_range (e : Z * Z) : Prop := 0 <= e.1 < Z.of_nat n /\ 0 <= e.2 < Z.of_nat n.

Definition pc_value (pc : push_pc R) : Prop := match pc with PushLoad _ _ => True | PushAdd u _ x => x = share d0 rank u end.

(** The additions made so far, in their order, and those under way. *)
Definition rank_inside (es : list (Z * Z)) (next : list R) (pcs : list (push_pc R)) : Prop :=
  length next = n /\ Forall in_range es /\ Forall pc_value pcs /\
  exists made, made ++ (edge_of <$> pcs) ≡ₚ es /\ forall v, 0 <= v < Z.of_nat n -> next !! Z.to_nat v = Some (received rank made v).

Lemma rank_inside_perm es es' st pcs pcs' : es ≡ₚ es' -> pcs ≡ₚ pcs' -> rank_inside es st pcs -> rank_inside es' st pcs'.
Proof.
  intros He Hp (H1 & H2 & H3 & made & H4 & H5). split; [done|]. split; [by rewrite <- He|]. split; [by rewrite <- Hp|].
  exists made. split; [by rewrite <- Hp, H4|done].
Qed.

Lemma rank_call es st pcs e : in_range e -> rank_inside es st pcs -> rank_inside (e :: es) st (PushLoad e.1 e.2 :: pcs).
Proof.
  intros He (H1 & H2 & H3 & made & H4 & H5). split; [done|]. split; [by constructor|]. split; [by constructor|]. exists made. split; [|done].
  cbn [fmap list_fmap edge_of]. rewrite <- H4, <- Permutation_middle. by destruct e.
Qed.

Lemma received_snoc made e v : received rank (made ++ [e]) v = if decide (e.2 = v) then radd (received rank made v) (share d0 rank e.1) else received rank made v.
Proof.
  unfold received. rewrite filter_app, filter_cons, filter_nil. destruct (decide (e.2 = v)); [|by rewrite app_nil_r].
  rewrite fmap_app. unfold sum_from_zero. by rewrite foldl_app.
Qed.

Lemma rank_step es st pcs pc : rank_inside es st (pc :: pcs) ->
  exists st' pc', step_rank rank inverses st pc = Some (st', pc') /\ rank_inside es st' (from_option (fun pc => [pc]) [] pc' ++ pcs).
Proof.
  intros (H1 & H2 & H3 & made & H4 & H5). apply Forall_cons in H3 as [Hv H3].
  assert (Hr : in_range (edge_of pc)).
  { rewrite Forall_forall in H2. apply H2. rewrite <- H4. apply elem_of_app. right. left. }
  destruct pc as [u v|u v x]; cbn [edge_of step_rank] in *; destruct Hr as [Hu Hw]; cbn in Hu, Hw.
  - destruct (lookup_lt_is_Some_2 rank (Z.to_nat u)) as [r Er]; [lia|]. rewrite Er, inverses_lookup by done. cbn [mbind option_bind].
    eexists _, _. split; [done|]. split; [done|]. split; [done|]. split.
    { constructor; [|done]. cbn. unfold share, at_. by rewrite Er. }
    exists made. by split.
  - rewrite H5 by done. cbn [mbind option_bind]. eexists _, _. split; [done|]. split; [by rewrite length_insert|]. split; [done|]. split; [done|].
    exists (made ++ [(u, v)]). split.
    + cbn [from_option app]. rewrite <- H4, <- app_assoc. done.
    + intros w Hww. rewrite received_snoc. cbn [fst snd]. destruct (decide (v = w)) as [->|Hne].
      * rewrite list_lookup_insert_eq by lia. by rewrite Hv.
      * rewrite list_lookup_insert_ne by lia. by apply H5.
Qed.

Lemma rank_decreases st pc st' pc' : step_rank rank inverses st pc = Some (st', Some pc') -> (rank_weight pc' < rank_weight pc)%nat.
Proof.
  destruct pc as [u v|u v x]; cbn [step_rank].
  - destruct (rank !! _); [|done]. destruct (inverses !! _); [|done]. cbn. intros [= _ <-]. cbn. lia.
  - destruct (st !! _); [|done]. by cbn.
Qed.

End Calls.
End Round.

(** A vertex map that changes each value by itself. *)
Lemma pointwise_map {R : Type} (f : list R -> Z -> option (list R)) (g : R -> R) vs :
  (forall l v, f l v = x ← l !! Z.to_nat v; Some (<[Z.to_nat v := g x]> l)) -> NoDup vs -> forall l,
  (forall v, v ∈ vs -> 0 <= v < Z.of_nat (length l)) ->
  exists l', foldl (fun acc v => st ← acc; f st v) (Some l) vs = Some l' /\ length l' = length l /\
    forall i, l' !! i = if decide (Z.of_nat i ∈ vs) then g <$> l !! i else l !! i.
Proof.
  intros Hf. induction 1 as [|v vs Hv Hnd IH]; intros l Hr.
  { exists l. split; [done|]. split; [done|]. intros i. by rewrite decide_False by apply not_elem_of_nil. }
  destruct (lookup_lt_is_Some_2 l (Z.to_nat v)) as [x Ex]; [specialize (Hr v (list_elem_of_here _ _)); lia|].
  cbn [foldl mbind option_bind]. rewrite Hf, Ex. cbn [mbind option_bind].
  destruct (IH (<[Z.to_nat v := g x]> l)) as (l' & E & Hl & Hlk).
  { intros w Hw. rewrite length_insert. apply Hr. by right. }
  exists l'. split; [exact E|]. rewrite length_insert in Hl. split; [done|]. intros i. rewrite Hlk.
  assert (Hvr := Hr v (list_elem_of_here _ _)). destruct (decide (Z.of_nat i = v)) as [<-|Hne].
  - rewrite decide_False, decide_True by (done || left). rewrite Nat2Z.id in *. rewrite Ex.
    rewrite list_lookup_insert_eq by lia. done.
  - rewrite list_lookup_insert_ne by lia. destruct (decide (Z.of_nat i ∈ vs)) as [Hi|Hi].
    + by rewrite decide_True by (by right).
    + rewrite decide_False; [done|]. by intros [?|?]%elem_of_cons.
Qed.

Lemma whole_map {R : Type} (f : list R -> Z -> option (list R)) (g : R -> R) (perm : list Z -> list Z) l :
  (forall l v, f l v = x ← l !! Z.to_nat v; Some (<[Z.to_nat v := g x]> l)) -> (forall vs, perm vs ≡ₚ vs) -> (0 < length l)%nat ->
  bw_vertex_map f perm (CdlpMap.make_full_frontier (length l)) l = Some (g <$> l).
Proof.
  intros Hf Hp Hl. unfold bw_vertex_map. assert (He : is_empty (CdlpMap.make_full_frontier (length l)) = false).
  { unfold is_empty. cbn. apply Z.eqb_neq. lia. }
  rewrite He, CdlpMap.full_mapped. cbn [mbind option_bind].
  destruct (pointwise_map f g (perm (seqZ 0 (Z.of_nat (length l)))) Hf) with (l := l) as (l' & E & Hl' & Hlk).
  { rewrite Hp. apply NoDup_seqZ. }
  { intros v Hv. rewrite (Hp _) in Hv. apply elem_of_seqZ in Hv. lia. }
  rewrite E. f_equal. apply list_eq. intros i. rewrite Hlk, list_lookup_fmap.
  destruct (decide (i < length l)%nat) as [Hi|Hi].
  - rewrite decide_True; [done|]. rewrite Hp. apply elem_of_seqZ. lia.
  - rewrite (lookup_ge_None_2 l) by lia. by destruct (decide _).
Qed.

Lemma whole_map_at {R : Type} (f : list R -> Z -> option (list R)) (g : R -> R) (perm : list Z -> list Z) k l :
  length l = k -> (forall l v, f l v = x ← l !! Z.to_nat v; Some (<[Z.to_nat v := g x]> l)) -> (forall vs, perm vs ≡ₚ vs) -> (0 < k)%nat ->
  bw_vertex_map f perm (CdlpMap.make_full_frontier k) l = Some (g <$> l).
Proof. intros <-. apply whole_map. Qed.

(** ** The rounds *)

Section Run.
Context {R : Type} `{!Scalar R} {D : Type} `{!NeighborReader D} `{!EdgeLister D} `{!ExactLister D}.
Variable d0 : D.

Abbreviation n := (vertices d0).

Hypothesis d0_exact : exact d0.
Hypothesis d0_closed : forall v l u, vertex d0 v -> adj d0 v = Some l -> u ∈ l -> vertex d0 u.

Lemma inverse_degrees_run vs : (forall v, v ∈ vs -> vertex d0 v) -> forall d, same_graph d0 d -> exact d ->
  exists d', inverse_degrees vs d = Some ((fun v => inverse (deg d0 v)) <$> vs, d') /\ same_graph d0 d' /\ exact d'.
Proof.
  intros Hvs. induction vs as [|v vs IH]; intros d Hg Hx; [by exists d|]. cbn [inverse_degrees].
  destruct (listable_readable d0 (exact_listable d0 d0_exact) v) as [l Hl]; [apply Hvs; left|]. pose proof Hl as Hl'. rewrite <- (proj2 Hg) in Hl.
  destruct (read_run d v l Hl) as (d1 & E & Hg1). rewrite E. cbn [mbind option_bind].
  destruct (IH (fun w Hw => Hvs w (list_elem_of_further _ _ _ Hw)) d1) as (d2 & -> & Hg2 & Hx2); [by trans d|by eapply exact_read|]. cbn [mbind option_bind].
  exists d2. split; [|done]. cbn [fmap list_fmap]. do 3 f_equal. unfold deg. rewrite Hl'. cbn [default from_option id].
  unfold inverse. destruct l as [|u l]; [done|]. rewrite bool_decide_false by done. by rewrite (proj2 (Z.eqb_neq _ _)) by (cbn; lia).
Qed.

Lemma edges_in_range : Forall (in_range d0) (all_edges d0).
Proof. by apply CdlpMap.all_edges_ok. Qed.

Lemma length_push_step damping es (rank : list R) : length (push_step d0 damping es rank) = n.
Proof. unfold push_step. rewrite length_fmap, length_seqZ. lia. Qed.

(** The edge map and the two vertex maps of a round. *)
Lemma map_round_run raw sched damping rank next d : (0 < n)%nat -> length rank = n -> next = replicate n (of_int 0) -> same_graph d0 d -> exact d ->
  let frontier := CdlpMap.make_full_frontier n in
  exists sums d' es, bw_edge_map_no_output (rank_functor rank (inverses d0)) raw sched d frontier next = Some (frontier, sums, d') /\
    same_graph d0 d' /\ exact d' /\ es ≡ₚ all_edges d0 /\ length sums = n /\
    (fun value => radd (rmul damping value) (rmul (rsub (of_int 1) damping) (rdiv (of_int 1) (of_int (Z.of_nat n))))) <$> sums =
      push_step d0 damping es rank.
Proof.
  intros Hn Hl -> Hg Hx frontier.
  destruct (edge_map_no_output_spec (rank_functor rank (inverses d0)) (in_range d0) (rank_inside d0 rank) (rank_decreases d0 rank Hl)
    (rank_inside_perm d0 rank) (fun _ _ => eq_refl) (fun es st pcs e => rank_call d0 rank es st pcs e)
    (rank_step d0 rank Hl) d0 edges_in_range raw sched frontier (replicate n (of_int 0)) d [])
    as (sums & d' & E & Hg' & Hx' & Hs & _ & _ & made & Hp & Hm); [done|done|done|by apply Z.eqb_neq; cbn; lia| | |].
  { intros v Hv. unfold is_in. cbn. apply lookup_replicate_2. unfold vertex in Hv. lia. }
  { split; [apply length_replicate|]. split; [constructor|]. split; [constructor|]. exists []. split; [done|]. intros v Hv.
    by apply lookup_replicate_2; lia. }
  exists sums, d', made. rewrite !app_nil_r in Hp. do 5 (split; [done|]). apply list_eq. intros i. unfold push_step.
  rewrite !list_lookup_fmap. destruct (decide (i < n)%nat) as [Hi|Hi].
  - rewrite (proj2 (lookup_seqZ 0 (Z.of_nat n) i (Z.of_nat i))) by lia. specialize (Hm (Z.of_nat i) ltac:(lia)).
    rewrite Nat2Z.id in Hm. by rewrite Hm.
  - rewrite (lookup_ge_None_2 sums) by lia. rewrite (lookup_ge_None_2 (seqZ _ _)) by (rewrite length_seqZ; lia). done.
Qed.

Lemma map_loop_run raw sched (perm : nat -> bool -> list Z -> list Z) tree damping threshold k : (0 < n)%nat -> (forall i b l, perm i b l ≡ₚ l) ->
  forall i rank next d, length rank = n -> next = replicate n (of_int 0) -> same_graph d0 d -> exact d ->
  exists rank' d', map_loop k i raw sched perm tree (CdlpMap.make_full_frontier n) (inverses d0) damping
      (rmul (rsub (of_int 1) damping) (rdiv (of_int 1) (of_int (Z.of_nat n)))) threshold rank next d = Some (rank', d') /\
    same_graph d0 d' /\ iterates (push_round d0 damping threshold) k rank rank'.
Proof.
  intros Hn Hp. induction k as [|k IH]; intros i rank next d Hl Hnx Hg Hx; [exists rank, d; split; [done|split; [done|constructor]]|].
  cbn [map_loop]. destruct (map_round_run raw (sched i) damping rank next d Hn Hl Hnx Hg Hx) as (sums & d1 & es & -> & Hg1 & Hx1 & He & Hs & Hd).
  cbn [mbind option_bind].
  rewrite (whole_map_at (damp _ _) (fun value => radd (rmul damping value) (rmul (rsub (of_int 1) damping) (rdiv (of_int 1) (of_int (Z.of_nat n))))) _ n)
    by done. cbn [mbind option_bind]. rewrite Hd.
  destruct (rlt _ threshold) eqn:Et.
  - exists (push_step d0 damping es rank), d1. split; [done|]. split; [done|]. apply it_stop. by exists es, (tree i).
  - rewrite (whole_map_at clear_rank (fun _ => of_int 0) _ n) by done. cbn [mbind option_bind].
    destruct (IH (S i) (push_step d0 damping es rank) ((fun _ => of_int 0) <$> rank) d1) as (rank' & d' & E & Hg' & Hi); [apply length_push_step| |done|done|].
    { rewrite <- Hl. clear. induction rank as [|x rank IH]; [done|]. cbn. by f_equal. }
    exists rank', d'. split; [exact E|]. split; [done|]. eapply it_more; [|exact Hi]. by exists es, (tree i).
Qed.

Lemma parallel_pagerank_map_run raw sched (perm : nat -> bool -> list Z -> list Z) tree max_iterations damping threshold :
  (forall i b l, perm i b l ≡ₚ l) ->
  exists ranks d', parallel_pagerank_map raw sched perm tree max_iterations damping threshold d0 = Some (zip (seqZ 0 (Z.of_nat n)) ranks, d') /\
    same_graph d0 d' /\ iterates (push_round d0 damping threshold) max_iterations (initial_ranks d0) ranks.
Proof.
  intros Hp. unfold parallel_pagerank_map. destruct (Nat.eqb_spec n 0) as [Hn|Hn].
  - assert (Hit : forall k (a : list R), exists b, iterates (push_round d0 damping threshold) k a b).
    { induction k as [|k IH]; intros a; [exists a; constructor|]. set (b := push_step d0 damping (all_edges d0) a).
      destruct (rlt (parallel_sum WholeRange (differences a b)) threshold) eqn:E.
      - exists b. apply it_stop. exists (all_edges d0), WholeRange. by rewrite E.
      - destruct (IH b) as [c Hc]. exists c. eapply it_more; [|exact Hc]. exists (all_edges d0), WholeRange. by rewrite E. }
    destruct (Hit max_iterations (initial_ranks d0)) as [ranks Hr]. exists ranks, d0. rewrite Hn. by split.
  - destruct (inverse_degrees_run (seqZ 0 (Z.of_nat n))) with (d := d0) as (d1 & -> & Hg1 & Hx1); [|reflexivity|done|].
    { intros v Hv. apply elem_of_seqZ in Hv. unfold vertex. lia. }
    cbn [mbind option_bind].
    destruct (map_loop_run raw sched perm tree damping threshold max_iterations ltac:(lia) Hp 0 (initial_ranks d0) (replicate n (of_int 0)) d1)
      as (ranks & d' & E & Hg & Hi); [apply length_replicate|done|done|done|].
    unfold initial_ranks, inverses in E. rewrite E. by exists ranks, d'.
Qed.

End Run.

(** [parallel_pagerank_map] returns, whatever the interleaving of the
    loads and additions of its calls, the order of its vertex maps and the
    tree of its reductions, a result of synchronous rounds: starting from the
    uniform ranks, every round gives each vertex the damped sum of the shares
    that reach it, each edge counted once, added in the order of the round's
    additions; it stops after the given number of rounds or at the first whose
    change, summed in some tree, is below the threshold.  Nothing is said of
    the arithmetic, so this holds for rounded doubles. *)
Theorem parallel_pagerank_map_rounds {R D : Type} `{!Scalar R} `{!NeighborReader D} `{!EdgeLister D} `{!ExactLister D} (d : D)
    raw sched (perm : nat -> bool -> list Z -> list Z) tree max_iterations (damping threshold : R) :
  exact d -> (forall v l u, vertex d v -> adj d v = Some l -> u ∈ l -> vertex d u) -> (forall i b l, perm i b l ≡ₚ l) ->
  exists ranks d', parallel_pagerank_map raw sched perm tree max_iterations damping threshold d =
      Some (zip (seqZ 0 (Z.of_nat (vertices d))) ranks, d') /\
    same_graph d d' /\ iterates (push_round d damping threshold) max_iterations (initial_ranks d) ranks.
Proof. intros Hx Hc Hp. by apply parallel_pagerank_map_run. Qed.

End PageRankMap.
