(* ===== verification/PageRankExact.v ===== *)
(** * PageRank apart from rounding

    In exact arithmetic a sum does not depend on its order, so the version by
    edge maps has one result; and on a graph that lists every edge in both
    directions the sequential version moves rank around without creating or
    losing any. *)

From Stdlib Require Import QArith Qcanon.
From S2P Require Import Prelude GraphRead VertexSet Interleave EdgeMap EdgePush PageRank PageRankMap.

Local Open Scope Z_scope.

Module PageRankExact.
Import GraphRead EdgePush PageRank PageRankMap.

#[local] Existing Instance exact_scalar.

(** ** Sums of rationals *)

Definition qsum (l : list Qc) : Qc := foldr Qcplus 0%Qc l.

Lemma qsum_cons x l : qsum (x :: l) = (x + qsum l)%Qc.
Proof. done. Qed.

Lemma qsum_nil : qsum [] = 0%Qc.
Proof. done. Qed.

Lemma qsum_app l l' : qsum (l ++ l') = (qsum l + qsum l')%Qc.
Proof. induction l as [|x l IH]; cbn [app]; rewrite ?qsum_nil, ?qsum_cons, ?IH; ring. Qed.

#[export] Instance qsum_proper : Proper (Permutation ==> eq) qsum.
Proof. intros l l' Hp. induction Hp; rewrite ?qsum_cons; try congruence; ring. Qed.

Lemma qsum_bind {X} (f : X -> list Qc) l : qsum (l ≫= f) = qsum ((fun x => qsum (f x)) <$> l).
Proof. induction l as [|x l IH]; [done|]. cbn [mbind list_bind fmap list_fmap]. rewrite qsum_app, IH. done. Qed.

Lemma qsum_affine {X} (a b : Qc) (f : X -> Qc) l :
  qsum ((fun x => a + b * f x)%Qc <$> l) = (Qc_of_int (Z.of_nat (length l)) * a + b * qsum (f <$> l))%Qc.
Proof.
  induction l as [|x l IH]; [cbn [fmap list_fmap length]; rewrite qsum_nil; change (Qc_of_int (Z.of_nat 0)) with 0%Qc; ring|].
  cbn [fmap list_fmap length]. rewrite !qsum_cons, IH.
  assert (E : Qc_of_int (Z.of_nat (S (length l))) = (Qc_of_int (Z.of_nat (length l)) + 1)%Qc).
  { unfold Qc_of_int. replace (Z.of_nat (S (length l))) with (Z.of_nat (length l) + 1) by lia. apply Qc_is_canon. cbn.
    by rewrite !Qred_correct, inject_Z_plus. }
  rewrite E. ring.
Qed.

Lemma sum_from_zero_qsum l : sum_from_zero l = qsum l.
Proof.
  unfold sum_from_zero. change (@of_int Qc exact_scalar 0) with (0%Qc).
  assert (Hg : forall l a, foldl (@radd Qc exact_scalar) a l = (a + qsum l)%Qc).
  { clear. induction l as [|x l IH]; intros a; cbn [foldl]; [rewrite qsum_nil; ring|]. rewrite IH, qsum_cons. cbn [radd exact_scalar]. ring. }
  rewrite Hg. ring.
Qed.

(** However tbb splits the range. *)
Lemma parallel_sum_qsum tree : forall l, parallel_sum tree l = qsum l.
Proof.
  induction tree as [|cut a IHa b IHb]; intros l; cbn [parallel_sum]; [apply sum_from_zero_qsum|].
  rewrite IHa, IHb. cbn [radd exact_scalar]. by rewrite <- qsum_app, take_drop.
Qed.

Lemma Qc_of_int_nonzero z : z <> 0 -> Qc_of_int z <> 0%Qc.
Proof.
  intros Hz E. apply Hz. assert (H : (inject_Z z == 0)%Q); [|by apply (inject_Z_injective z 0) in H].
  rewrite <- (Qred_correct (inject_Z z)). change (Qred (inject_Z z)) with (this (Qc_of_int z)). by rewrite E.
Qed.

Lemma Qc_of_int_nonneg z : 0 <= z -> (0 <= Qc_of_int z)%Qc.
Proof.
  intros Hz. change (Qred 0 <= Qred (inject_Z z))%Q. rewrite !Qred_correct. change 0%Q with (inject_Z 0). by rewrite <- Zle_Qle.
Qed.

Lemma differences_sym (a : list Qc) : forall b, differences a b = differences b a.
Proof.
  unfold differences. induction a as [|x a IH]; intros [|y b]; [done..|]. cbn [zip_with]. rewrite IH. f_equal.
  cbn [rabs rsub exact_scalar]. replace (y - x)%Qc with (- (x - y))%Qc by ring.
  destruct (decide (x - y < 0)%Qc) as [H|H], (decide (- (x - y) < 0)%Qc) as [H'|H']; [|ring| |].
  - exfalso. apply Qclt_le_weak, Qcopp_le_compat in H. replace (- 0)%Qc with 0%Qc in H by ring. by apply (Qcle_not_lt _ _ H).
  - rewrite Qcopp_involutive. done.
  - apply Qcnot_lt_le in H, H'. assert (E : (x - y)%Qc = 0%Qc); [|rewrite E; ring]. apply Qcle_antisym; [|done].
    apply Qcopp_le_compat in H'. rewrite Qcopp_involutive in H'. by replace (- 0)%Qc with 0%Qc in H' by ring.
Qed.

Lemma filter_everything {X} (P : X -> Prop) `{!forall x, Decision (P x)} l : Forall P l -> filter P l = l.
Proof. induction 1 as [|x l Hx _ IH]; [done|]. by rewrite filter_cons_True, IH. Qed.

Lemma fmap_of_bind {X Y W} (f : Y -> W) (g : X -> list Y) l : f <$> (l ≫= g) = l ≫= fun x => f <$> g x.
Proof. induction l as [|x l IH]; [done|]. cbn [mbind list_bind]. by rewrite fmap_app, IH. Qed.

(** ** Graphs that list every edge in both directions *)

Section Symmetric.
Context {D : Type} `{!NeighborReader D}.
Variable d0 : D.

Abbreviation n := (vertices d0).
Abbreviation ids := (seqZ 0 (Z.of_nat n)).

Hypothesis d0_symmetric : prod_swap <$> all_edges d0 ≡ₚ all_edges d0.

Lemma all_edges_elem u v : (u, v) ∈ all_edges d0 <-> vertex d0 u /\ v ∈ default [] (adj d0 u).
Proof.
  unfold all_edges. rewrite list_elem_of_bind. split.
  - intros (w & He & Hw). apply elem_of_seqZ in Hw. apply list_elem_of_fmap in He as (x & [= -> ->] & Hx). unfold vertex. split; [lia|done].
  - intros [Hu Hv]. exists u. split; [apply list_elem_of_fmap; eauto|]. apply elem_of_seqZ. unfold vertex in Hu. lia.
Qed.

Lemma listed_back v u : vertex d0 v -> u ∈ default [] (adj d0 v) -> vertex d0 u /\ 0 < deg d0 u.
Proof.
  intros Hv Hu. assert (He : (u, v) ∈ all_edges d0).
  { rewrite <- d0_symmetric. apply list_elem_of_fmap. exists (v, u). split; [done|]. by apply all_edges_elem. }
  apply all_edges_elem in He as [H1 H2]. split; [done|]. unfold deg. destruct (default [] (adj d0 u)); [by apply elem_of_nil in H2|cbn; lia].
Qed.

Lemma pulled_all v : vertex d0 v -> pulled d0 v = default [] (adj d0 v).
Proof.
  intros Hv. unfold pulled. apply filter_everything. apply Forall_forall. intros u Hu. destruct (listed_back v u Hv Hu) as [H1 H2].
  unfold vertex in H1. lia.
Qed.

(** What reaches [v] along the edges is what it reads from its own list. *)
Lemma received_pulled (rank : list Qc) es v : es ≡ₚ all_edges d0 -> vertex d0 v ->
  received d0 rank es v = sum_from_zero (share d0 rank <$> pulled d0 v).
Proof.
  intros He Hv. unfold received. rewrite !sum_from_zero_qsum, pulled_all by done. rewrite He, <- d0_symmetric.
  apply f_equal. unfold all_edges.
  assert (Hg : forall vs, NoDup vs ->
    (fun e : Z * Z => share d0 rank e.1) <$> filter (fun e => e.2 = v) (prod_swap <$> (vs ≫= fun u => (fun dst => (u, dst)) <$> default [] (adj d0 u))) =
    if decide (v ∈ vs) then share d0 rank <$> default [] (adj d0 v) else []).
  { induction 1 as [|u vs Hu Hnd IH]; [done|]. cbn [mbind list_bind]. rewrite fmap_app, filter_app, fmap_app, IH.
    assert (E : (fun e : Z * Z => share d0 rank e.1) <$> filter (fun e => e.2 = v) (prod_swap <$> ((fun dst => (u, dst)) <$> default [] (adj d0 u))) =
      if decide (u = v) then share d0 rank <$> default [] (adj d0 u) else []).
    { clear. generalize (default [] (adj d0 u)) as l. intros l. destruct (decide (u = v)) as [->|Hne].
      - induction l as [|w l IHl]; [done|]. cbn [fmap list_fmap]. rewrite filter_cons_True by done. cbn [fmap list_fmap]. by rewrite <- IHl.
      - induction l as [|w l IHl]; [done|]. cbn [fmap list_fmap]. by rewrite filter_cons_False by done. }
    rewrite E. destruct (decide (u = v)) as [->|Hne].
    - rewrite decide_False by done. rewrite decide_True by left. apply app_nil_r.
    - cbn [app]. destruct (decide (v ∈ vs)) as [Hi|Hi]; [by rewrite decide_True by (by right)|].
      rewrite decide_False; [done|]. intros [?|?]%elem_of_cons; [congruence|done]. }
  rewrite Hg by apply NoDup_seqZ. rewrite decide_True; [done|]. apply elem_of_seqZ. unfold vertex in Hv. lia.
Qed.

Lemma share_back rank v : vertex d0 v ->
  (Qc_of_int (deg d0 v) * share d0 rank v)%Qc = (if decide (deg d0 v = 0%Z) then 0 else at_ rank v)%Qc.
Proof.
  intros Hv. unfold share, inverse. cbn [rmul rdiv of_int exact_scalar]. destruct (Z.eqb_spec (deg d0 v) 0) as [E|E].
  - rewrite decide_True by done. change (Qc_of_int 0) with 0%Qc. ring.
  - rewrite decide_False by done. change (Qc_of_int 1) with 1%Qc. field. by apply Qc_of_int_nonzero.
Qed.

(** Nothing is lost on the way. *)
Lemma pulled_total rank : qsum ((fun v => sum_from_zero (share d0 rank <$> pulled d0 v)) <$> ids) =
  qsum ((fun v => if decide (deg d0 v = 0%Z) then 0 else at_ rank v)%Qc <$> ids).
Proof.
  trans (qsum ((fun e => share d0 rank e.2) <$> all_edges d0)).
  - unfold all_edges. rewrite fmap_of_bind. rewrite qsum_bind. f_equal. apply list_fmap_ext. intros i v Hv.
    apply list_elem_of_lookup_2, elem_of_seqZ in Hv. rewrite sum_from_zero_qsum, pulled_all by (unfold vertex; lia).
    f_equal. by rewrite <- list_fmap_compose.
  - rewrite <- d0_symmetric, <- list_fmap_compose. unfold all_edges. rewrite fmap_of_bind. rewrite qsum_bind. f_equal.
    apply list_fmap_ext. intros i v Hv. apply list_elem_of_lookup_2, elem_of_seqZ in Hv. rewrite <- share_back by (unfold vertex; lia).
    rewrite <- list_fmap_compose. unfold compose. cbn [fst snd prod_swap].
    rewrite (list_fmap_ext _ (fun _ => 0 + share d0 rank v * 1)%Qc) by (intros; ring).
    rewrite qsum_affine. unfold deg.
    assert (E : qsum ((fun _ : Z => 1%Qc) <$> default [] (adj d0 v)) = Qc_of_int (Z.of_nat (length (default [] (adj d0 v))))).
    { rewrite (list_fmap_ext _ (fun _ => 1 + 0 * 0)%Qc) by (intros; ring). rewrite qsum_affine. ring. }
    rewrite E. ring.
Qed.

(** A rank vector as its values at the vertices. *)
Lemma ranks_values (rank : list Qc) : length rank = n -> at_ rank <$> ids = rank.
Proof.
  intros Hl. apply list_eq. intros i. rewrite list_lookup_fmap. destruct (decide (i < n)%nat) as [Hi|Hi].
  - rewrite (proj2 (lookup_seqZ 0 (Z.of_nat n) i (Z.of_nat i))) by lia. cbn [fmap option_fmap option_map]. unfold at_. rewrite Nat2Z.id.
    destruct (lookup_lt_is_Some_2 rank i) as [x Ex]; [lia|]. by rewrite Ex.
  - rewrite (lookup_ge_None_2 rank) by lia. by rewrite (lookup_ge_None_2 (seqZ _ _)) by (rewrite length_seqZ; lia).
Qed.

(** The rank of the vertices without neighbours and of the others. *)
Lemma dangling_split rank vs : (qsum (at_ rank <$> filter (fun v => deg d0 v = 0%Z) vs) +
  qsum ((fun v => if decide (deg d0 v = 0%Z) then 0 else at_ rank v) <$> vs) = qsum (at_ rank <$> vs))%Qc.
Proof.
  induction vs as [|v vs IH]; [done|]. rewrite filter_cons. cbn [fmap list_fmap]. rewrite !qsum_cons, <- IH.
  destruct (decide (deg d0 v = 0%Z)); cbn [fmap list_fmap]; rewrite ?qsum_cons; ring.
Qed.

Lemma pull_step_total damping rank : (0 < n)%nat -> length rank = n -> qsum rank = 1%Qc -> qsum (pull_step d0 damping rank) = 1%Qc.
Proof.
  intros Hn Hl Hs. unfold pull_step. cbn [radd rmul rsub rdiv of_int exact_scalar]. rewrite qsum_affine, pulled_total, length_seqZ, sum_from_zero_qsum.
  pose proof (dangling_split rank ids) as Hd. rewrite ranks_values, Hs in Hd by done.
  set (a := qsum (at_ rank <$> filter (fun v => deg d0 v = 0%Z) ids)) in *. set (b := qsum ((fun v => _) <$> ids)) in *.
  assert (Hb : b = (1 - a)%Qc) by (rewrite <- Hd; ring). rewrite Hb. rewrite Z2Nat.id by lia. change (Qc_of_int 1) with 1%Qc. field.
  apply Qc_of_int_nonzero. lia.
Qed.

Lemma qsum_nonneg l : Forall (fun x => 0 <= x)%Qc l -> (0 <= qsum l)%Qc.
Proof.
  induction 1 as [|x l Hx _ IH]; [done|]. rewrite qsum_cons. replace 0%Qc with (0 + 0)%Qc by ring. by apply Qcplus_le_compat.
Qed.

Lemma Qcdiv_nonneg x z : (0 <= x)%Qc -> 0 <= z -> (0 <= x / Qc_of_int z)%Qc.
Proof.
  intros Hx Hz. unfold Qcdiv. replace 0%Qc with (0 * / Qc_of_int z)%Qc by ring. apply Qcmult_le_compat_r; [done|].
  unfold Qcle, Qcinv. change (Qred 0 <= Qred (/ Qc_of_int z))%Q. rewrite !Qred_correct. apply Qinv_le_0_compat, (Qc_of_int_nonneg z Hz).
Qed.

Lemma Qcmult_nonneg x y : (0 <= x)%Qc -> (0 <= y)%Qc -> (0 <= x * y)%Qc.
Proof. intros Hx Hy. replace 0%Qc with (0 * y)%Qc by ring. by apply Qcmult_le_compat_r. Qed.

Lemma at_nonneg rank v : Forall (fun x => 0 <= x)%Qc rank -> (0 <= at_ rank v)%Qc.
Proof. intros Hr. unfold at_. destruct (rank !! Z.to_nat v) as [x|] eqn:E; [|done]. by eapply Forall_lookup_1 in E. Qed.

Lemma pull_step_nonneg damping rank : (0 <= damping)%Qc -> (damping <= 1)%Qc -> Forall (fun x => 0 <= x)%Qc rank ->
  Forall (fun x => 0 <= x)%Qc (pull_step d0 damping rank).
Proof.
  intros H0 H1 Hr. assert (Hsum : forall (f : Z -> Qc) vs, (forall v, 0 <= f v)%Qc -> (0 <= sum_from_zero (f <$> vs))%Qc).
  { intros f vs Hf. rewrite sum_from_zero_qsum. apply qsum_nonneg. apply Forall_fmap, Forall_forall. intros v _. apply Hf. }
  unfold pull_step. apply Forall_fmap, Forall_forall. intros v _. cbn [radd rmul rsub rdiv of_int exact_scalar compose].
  change (Qc_of_int 1) with 1%Qc.
  assert (Hplus : forall x y : Qc, (0 <= x)%Qc -> (0 <= y)%Qc -> (0 <= x + y)%Qc).
  { intros x y Hx Hy. replace 0%Qc with (0 + 0)%Qc by ring. by apply Qcplus_le_compat. }
  assert (Hc : (0 <= 1 - damping)%Qc). { replace 0%Qc with (damping + - damping)%Qc by ring. apply Qcplus_le_compat; [done|apply Qcle_refl]. }
  apply Hplus; [apply Hplus|].
  - apply Qcdiv_nonneg; [done|lia].
  - apply Qcdiv_nonneg; [|lia]. apply Qcmult_nonneg; [done|]. apply Hsum. intros w. by apply at_nonneg.
  - apply Qcmult_nonneg; [done|]. apply Hsum. intros w. unfold share. cbn [rmul exact_scalar]. apply Qcmult_nonneg; [by apply at_nonneg|].
    unfold inverse. destruct (deg d0 w =? 0); [done|]. cbn [rdiv of_int exact_scalar]. apply Qcdiv_nonneg; [|unfold deg; lia].
    apply (Qc_of_int_nonneg 1). lia.
Qed.

(** Where every vertex has neighbours a pushing round is a pulling round. *)
Lemma push_pull damping threshold rank rank' stop : (0 < n)%nat -> (forall v, vertex d0 v -> deg d0 v <> 0) ->
  push_round d0 damping threshold rank rank' stop -> pull_round d0 damping threshold rank rank' stop.
Proof.
  intros Hn Hdeg (es & tree & He & -> & ->). split.
  - unfold push_step, pull_step. apply list_fmap_ext. intros i v Hv. apply list_elem_of_lookup_2, elem_of_seqZ in Hv.
    rewrite (received_pulled rank es v He) by (unfold vertex; lia). cbn [radd rmul rsub rdiv of_int exact_scalar].
    replace (filter (fun v => deg d0 v = 0) ids) with (@nil Z).
    + cbn [fmap list_fmap]. change (sum_from_zero []) with 0%Qc. change (Qc_of_int 1) with 1%Qc. field. apply Qc_of_int_nonzero. lia.
    + symmetry. destruct (filter _ ids) as [|w l] eqn:E; [done|]. assert (Hw : w ∈ filter (fun v => deg d0 v = 0) ids) by (rewrite E; left).
      apply list_elem_of_filter in Hw as [Hw0 Hw]. apply elem_of_seqZ in Hw. destruct (Hdeg w); [unfold vertex; lia|done].
  - rewrite parallel_sum_qsum, sum_from_zero_qsum. by rewrite differences_sym.
Qed.

Lemma pull_iterates_unique damping threshold k a b c : iterates (pull_round d0 damping threshold) k a b ->
  iterates (pull_round d0 damping threshold) k a c -> b = c.
Proof.
  intros H1. revert c. induction H1 as [a|k a b [-> E1]|k a b b' [-> E1] H1 IH]; intros c H2; inversion H2 as [|? ? ? [-> E2]|? ? ? ? [-> E2] H3]; subst; try done.
  - congruence.
  - congruence.
  - by apply IH.
Qed.

Lemma push_iterates damping threshold k a b : (0 < n)%nat -> (forall v, vertex d0 v -> deg d0 v <> 0) ->
  iterates (push_round d0 damping threshold) k a b -> iterates (pull_round d0 damping threshold) k a b.
Proof.
  intros Hn Hd. induction 1; [constructor|apply it_stop; by apply push_pull|]. eapply it_more; [by apply push_pull|done].
Qed.

Lemma initial_total : (0 < n)%nat -> qsum (initial_ranks d0) = 1%Qc.
Proof.
  intros Hn. unfold initial_ranks. rewrite <- (ranks_values (replicate n _)) by apply length_replicate.
  cbn [rdiv of_int exact_scalar].
  rewrite (list_fmap_ext _ (fun _ => Qc_of_int 1 / Qc_of_int (Z.of_nat n) + 0 * 0)%Qc).
  - rewrite qsum_affine, length_seqZ, Z2Nat.id by lia. change (Qc_of_int 1) with 1%Qc. field. apply Qc_of_int_nonzero. lia.
  - intros i v Hv. apply lookup_seqZ in Hv as [-> Hi]. unfold at_. rewrite lookup_replicate_2 by lia. cbn [default from_option id]. ring.
Qed.

End Symmetric.

(** C21: in exact arithmetic, on a graph that lists every edge in both
    directions, [pagerank] ends with a probability distribution: the ranks sum
    to one after any number of rounds, and none is negative for a damping
    factor between zero and one; if every vertex has a neighbour,
    [parallel_pagerank_map] returns the same ranks for every interleaving,
    order and reduction tree. *)
Theorem pagerank_exact {D : Type} `{!NeighborReader D} `{!DegreeReader D} `{!EdgeLister D} `{!ExactLister D} (d : D)
    (k : nat) (damping threshold : Qc) :
  exact d -> (0 < vertices d)%nat -> prod_swap <$> all_edges d ≡ₚ all_edges d ->
  exists ranks d', pagerank k damping threshold d = Some (zip (seqZ 0 (Z.of_nat (vertices d))) ranks, d') /\ same_graph d d' /\
    length ranks = vertices d /\ qsum ranks = 1%Qc /\
    ((0 <= damping)%Qc -> (damping <= 1)%Qc -> Forall (fun x => 0 <= x)%Qc ranks) /\
    ((forall v, vertex d v -> deg d v <> 0) -> forall raw sched (perm : nat -> bool -> list Z -> list Z) tree, (forall i b l, perm i b l ≡ₚ l) ->
      exists d2, parallel_pagerank_map raw sched perm tree k damping threshold d = Some (zip (seqZ 0 (Z.of_nat (vertices d))) ranks, d2) /\
        same_graph d d2).
Proof.
  intros Hx Hn Hsym. assert (Hr : readable d) by (apply listable_readable; by apply exact_listable).
  assert (Hclosed : forall v l u, vertex d v -> adj d v = Some l -> u ∈ l -> vertex d u).
  { intros v l u Hv Ha Hu. apply (listed_back d Hsym v u Hv). by rewrite Ha. }
  destruct (pagerank_run d Hr (fun v l u Hv Ha Hu => proj1 (Hclosed v l u Hv Ha Hu)) damping threshold k) as (ranks & d' & E & Hg & Hi).
  exists ranks, d'. split; [done|]. split; [done|].
  assert (Hinv : length ranks = vertices d /\ qsum ranks = 1%Qc).
  { eapply (iterates_inv (fun r => length r = vertices d /\ qsum r = 1%Qc)); [|split; [apply length_replicate|by apply initial_total]|exact Hi].
    intros a b stop [Ha1 Ha2] [-> _]. split; [unfold pull_step; rewrite length_fmap, length_seqZ; lia|by apply pull_step_total]. }
  split; [apply Hinv|]. split; [apply Hinv|]. split.
  - intros H0 H1. eapply (iterates_inv (Forall (fun x => 0 <= x)%Qc)); [|apply Forall_replicate|exact Hi].
    + intros a b stop Ha [-> _]. by apply pull_step_nonneg.
    + apply Qcdiv_nonneg; [|lia]. apply (Qc_of_int_nonneg 1). lia.
  - intros Hdeg raw sched perm tree Hp.
    destruct (parallel_pagerank_map_run d Hx Hclosed raw sched perm tree k damping threshold Hp) as (ranks2 & d2 & E2 & Hg2 & Hi2).
    exists d2. split; [|done]. rewrite E2. do 2 f_equal. f_equal. apply (pull_iterates_unique d damping threshold k (initial_ranks d)); [|done].
    by apply push_iterates.
Qed.

End PageRankExact.
