(* ===== verification/PageRankScan.v ===== *)
(** * PageRank by edge scans ([bw_graph_db_t::parallel_pagerank])

    The version in [float]: a round scans all edges, a call adds its source's
    rank to its target's sum by a loop of compare-and-swaps on the sum's bits,
    then all ranks are recomputed.  Between rounds a rank is kept divided by
    the degree; the last of [max_iterations] rounds leaves it undivided.  A sum
    may be read and retried many times, so a call has no bound on its steps;
    but one of the calls always succeeds, and a call that runs alone ends. *)

From S2P Require Import Prelude GraphRead Interleave EdgePush PageRank.

Local Open Scope Z_scope.

Module PageRankScan.
Import GraphRead Interleave EdgePush PageRank.

Section Algorithm.
Context {R : Type} `{!Scalar R} `{!EqDecision R}.

Abbreviation zero := (of_int 0).
Abbreviation one := (of_int 1).

(** A call: about to read its source's rank; in [write_add], about to read the
    sum, or to swap it if it still is [old_val]; ended. *)
Inductive add_pc := AddStart | AddRead (val : R) | AddSwap (val old_val : R) | AddDone.

Definition step_add (pagerank : list R) (sum : list R) (t : (Z * Z) * add_pc) : option (list R * ((Z * Z) * add_pc)) :=
  let '((src, dst), pc) := t in
  match pc with
  | AddStart => val ← pagerank !! Z.to_nat src; Some (sum, ((src, dst), AddRead val))
  | AddRead val => old_val ← sum !! Z.to_nat dst; Some (sum, ((src, dst), AddSwap val old_val))
  | AddSwap val old_val =>
    cur ← sum !! Z.to_nat dst;
    if decide (cur = old_val) then Some (<[Z.to_nat dst := radd old_val val]> sum, ((src, dst), AddDone))
    else Some (sum, ((src, dst), AddRead val))
  | AddDone => Some (sum, t)
  end.

(** The steps a call needs at most when it runs alone. *)
Definition add_weight (t : (Z * Z) * add_pc) : nat :=
  match t.2 with AddStart => 3 | AddRead _ => 2 | AddSwap _ _ => 3 | AddDone => 0 end.

Definition run_adds (sched : list nat) (pagerank : list R) (calls : list (Z * Z)) (sum : list R) : option (list R) :=
  '(sum, _) ← run_all (fun sum _ t => step_add pagerank sum t) add_weight sched sum ((fun e => (e, AddStart)) <$> calls);
  Some sum.

Context {D : Type} `{!NeighborReader D} `{!DegreeReader D}.

(** [bw_edge_scan] without a bitmap: the calls for all edges. *)
Fixpoint scan_all (srcs : list Z) (d : D) : option (list (Z * Z) * D) :=
  match srcs with
  | [] => Some ([], d)
  | src :: srcs =>
    '(neighbors, d) ← read d src;
    '(calls, d) ← scan_all srcs d;
    Some (((fun dst => (src, dst)) <$> neighbors) ++ calls, d)
  end.

Fixpoint initial (vs : list Z) (d : D) : option (list R * D) :=
  match vs with
  | [] => Some ([], d)
  | v :: vs =>
    '(k, d) ← degree d v;
    '(rest, d) ← initial vs d;
    Some ((if 0 <? u32 k then rdiv one (of_int (u32 k)) else zero) :: rest, d)
  end.

(** The update of the last round. *)
Fixpoint update_last (damping_factor : R) (vs : list Z) (pagerank sum : list R) (delta : R) (d : D) : option (list R * R * D) :=
  match vs with
  | [] => Some (pagerank, delta, d)
  | v :: vs =>
    s ← sum !! Z.to_nat v;
    old ← pagerank !! Z.to_nat v;
    let new_pr := radd (rsub one damping_factor) (rmul damping_factor s) in
    '(k, d) ← degree d v;
    update_last damping_factor vs (<[Z.to_nat v := new_pr]> pagerank) sum (radd delta (rabs (rsub new_pr (rmul old (of_int k))))) d
  end.

Fixpoint update (damping_factor : R) (vs : list Z) (pagerank sum : list R) (delta : R) (d : D) : option (list R * list R * R * D) :=
  match vs with
  | [] => Some (pagerank, sum, delta, d)
  | v :: vs =>
    '(k, d) ← degree d v;
    s ← sum !! Z.to_nat v;
    let deg := u32 k in
    if 0 <? deg then
      old ← pagerank !! Z.to_nat v;
      let new_pr := rdiv (radd (rsub one damping_factor) (rmul damping_factor s)) (of_int deg) in
      update damping_factor vs (<[Z.to_nat v := new_pr]> pagerank) (<[Z.to_nat v := zero]> sum)
        (radd delta (rabs (rsub (rmul new_pr (of_int deg)) (rmul old (of_int deg))))) d
    else update damping_factor vs pagerank (<[Z.to_nat v := zero]> sum) delta d
  end.

Fixpoint scan_loop (iterations iter : nat) (sched : nat -> list nat) (damping_factor convergence_threshold : R) (ids : list Z)
    (pagerank sum : list R) (d : D) : option (list R * D) :=
  match iterations with
  | O => Some (pagerank, d)
  | S iterations =>
    '(calls, d) ← scan_all ids d;
    sum ← run_adds (sched iter) pagerank calls sum;
    match iterations with
    | O => '(pagerank, _, d) ← update_last damping_factor ids pagerank sum zero d; Some (pagerank, d)
    | S _ =>
      '(pagerank, sum, delta, d) ← update damping_factor ids pagerank sum zero d;
      if rlt zero convergence_threshold && rlt delta convergence_threshold then Some (pagerank, d)
      else scan_loop iterations (S iter) sched damping_factor convergence_threshold ids pagerank sum d
    end
  end.

Definition parallel_pagerank (sched : nat -> list nat) (max_iterations : nat) (damping_factor convergence_threshold : R) (d : D) :
    option (list (Z * R) * D) :=
  let ids := seqZ 0 (Z.of_nat (vertices d)) in
  let vertex_count := vertices d in
  '(pagerank, d) ← initial ids d;
  '(pagerank, d) ← scan_loop max_iterations 0 sched damping_factor convergence_threshold ids pagerank (replicate vertex_count zero) d;
  Some (zip ids pagerank, d).

End Algorithm.

Arguments add_pc : clear implicits.

(** ** The additions of a round *)

Section Adds.
Context {R : Type} `{!Scalar R} `{!EqDecision R}.
Variables (n : nat) (calls : list (Z * Z)) (rank : list R).
Hypothesis rank_length : length rank = n.
Hypothesis calls_ok : Forall (fun e => 0 <= e.1 < Z.of_nat n /\ 0 <= e.2 < Z.of_nat n) calls.

Abbreviation task := ((Z * Z) * add_pc R)%type.

(** The sum at [v] of the ranks of the sources of [es], in their order. *)
Definition added (es : list (Z * Z)) (v : Z) : R := sum_from_zero ((fun e => at_ rank e.1) <$> filter (fun e => e.2 = v) es).

Lemma added_snoc made e v : added (made ++ [e]) v = if decide (e.2 = v) then radd (added made v) (at_ rank e.1) else added made v.
Proof.
  unfold added. rewrite filter_app, filter_cons, filter_nil. destruct (decide (e.2 = v)); [|by rewrite app_nil_r].
  rewrite fmap_app. unfold sum_from_zero. by rewrite foldl_app.
Qed.

Definition pending (t : task) : list (Z * Z) := match t.2 with AddDone => [] | _ => [t.1] end.

Definition task_ok (t : task) : Prop := match t.2 with AddRead x | AddSwap x _ => x = at_ rank t.1.1 | _ => True end.

Definition left (sum : list R) (t : task) : nat :=
  match t.2 with
  | AddStart => 3 | AddRead _ => 2
  | AddSwap _ old => if decide (sum !! Z.to_nat t.1.2 = Some old) then 1 else 3
  | AddDone => 0
  end.

Record adds_inv (sum : list R) (ts : list task) : Prop := {
  ai_length : length sum = n;
  ai_calls : fst <$> ts = calls;
  ai_tasks : Forall task_ok ts;
  ai_made : exists made, made ++ (ts ≫= pending) ≡ₚ calls /\ forall v, 0 <= v < Z.of_nat n -> sum !! Z.to_nat v = Some (added made v)
}.

Lemma pending_split ts i t : ts !! i = Some t -> exists rest, (ts ≫= pending) ≡ₚ pending t ++ rest /\
  forall t', (<[i := t']> ts ≫= pending) ≡ₚ pending t' ++ rest.
Proof.
  intros E. exists ((take i ts ≫= pending) ++ (drop (S i) ts ≫= pending)). split.
  - rewrite <- (take_drop_middle ts i t E) at 1. rewrite bind_app. cbn [mbind list_bind].
    rewrite !app_assoc. apply Permutation_app_tail, Permutation_app_comm.
  - intros t'. rewrite insert_take_drop by (by eapply lookup_lt_Some). rewrite bind_app. cbn [mbind list_bind].
    rewrite !app_assoc. apply Permutation_app_tail, Permutation_app_comm.
Qed.

(** A step that adds nothing. *)
Lemma adds_quiet sum ts i t t' : adds_inv sum ts -> ts !! i = Some t -> t'.1 = t.1 -> task_ok t' -> pending t' = pending t ->
  adds_inv sum (<[i := t']> ts).
Proof.
  intros [H1 H2 H3 (made & H4 & H5)] E E1 Ho Hp. constructor; [done| | |].
  - rewrite list_fmap_insert, H2, E1. rewrite list_insert_id; [done|]. rewrite <- H2, list_lookup_fmap, E. done.
  - by apply Forall_insert.
  - exists made. split; [|done]. rewrite <- H4. apply Permutation_app_head. destruct (pending_split ts i t E) as (rest & P1 & P2).
    by rewrite P1, P2, Hp.
Qed.

Lemma step_add_inv sum ts i t : adds_inv sum ts -> ts !! i = Some t ->
  exists sum' t', step_add rank sum t = Some (sum', t') /\ adds_inv sum' (<[i := t']> ts) /\ (left sum' t' <= left sum t - 1)%nat.
Proof.
  intros Hi E. pose proof Hi as [H1 H2 H3 (made & H4 & H5)]. pose proof (Forall_lookup_1 _ _ _ _ H3 E) as Ho.
  assert (Hr : 0 <= t.1.1 < Z.of_nat n /\ 0 <= t.1.2 < Z.of_nat n).
  { rewrite <- H2 in calls_ok. rewrite Forall_fmap in calls_ok. apply (Forall_lookup_1 _ _ _ _ calls_ok E). }
  destruct t as [[u v] [|val|val old|]]; cbn in Ho, Hr; unfold step_add; destruct Hr as [Hu Hv].
  - destruct (lookup_lt_is_Some_2 rank (Z.to_nat u)) as [r Er]; [lia|]. rewrite Er. cbn [mbind option_bind]. eexists _, _. split; [done|].
    split; [|cbn; lia]. eapply adds_quiet; [done|exact E|done| |done]. cbn. unfold at_. by rewrite Er.
  - rewrite H5 by done. cbn [mbind option_bind]. eexists _, _. split; [done|]. split; [by eapply adds_quiet|].
    unfold left. cbn [fst snd]. rewrite H5, decide_True by done. lia.
  - rewrite H5 by done. cbn [mbind option_bind]. subst val. destruct (decide (added made v = old)) as [<-|Hne].
    + eexists _, _. split; [done|]. split; [|unfold left; cbn [fst snd]; lia]. constructor.
      * by rewrite length_insert.
      * rewrite list_fmap_insert, H2, list_insert_id; [done|]. by rewrite <- H2, list_lookup_fmap, E.
      * by apply Forall_insert.
      * exists (made ++ [(u, v)]). destruct (pending_split ts i _ E) as (rest & P1 & P2). split.
        { rewrite P2. cbn [pending snd app]. rewrite <- app_assoc. rewrite P1 in H4. exact H4. }
        intros w Hw. rewrite added_snoc. cbn [fst snd]. destruct (decide (v = w)) as [->|Hvw].
        { rewrite list_lookup_insert_eq by lia. done. }
        { rewrite list_lookup_insert_ne by lia. by apply H5. }
    + eexists _, _. split; [done|]. split; [by eapply adds_quiet|]. unfold left. cbn [fst snd]. rewrite H5, decide_False by (done || congruence). lia.
  - exists sum, ((u, v), AddDone). split; [done|]. rewrite list_insert_id by done. split; [done|cbn; lia].
Qed.

(** Every call adds once, whatever the schedule. *)
Lemma run_adds_spec sched sum : sum = replicate n (of_int 0) -> exists sum' es, run_adds sched rank calls sum = Some sum' /\ es ≡ₚ calls /\
  length sum' = n /\ forall v, 0 <= v < Z.of_nat n -> sum' !! Z.to_nat v = Some (added es v).
Proof.
  intros ->. unfold run_adds.
  destruct (run_all_lock_free (fun sum _ t => step_add rank sum t) add_weight left adds_inv
    (fun st ts i t => step_add_inv st ts i t)) with (sched := sched) (st := replicate n (of_int 0 : R)) (ts := (fun e => (e, AddStart : add_pc R)) <$> calls)
    as (sum' & ts' & E & [H1 H2 H3 (made & H4 & H5)] & _ & Hz).
  - intros st [e [|x|x o|]]; cbn; try lia. destruct (decide _); lia.
  - intros st st' [e [|x|x o|]]; cbn; try lia. destruct (decide _); lia.
  - constructor; [apply length_replicate| | |].
    + rewrite <- list_fmap_compose. unfold compose. cbn. apply list_fmap_id.
    + apply Forall_fmap, Forall_forall. done.
    + exists []. split.
      * cbn [app]. apply Permutation_refl'. clear. induction calls as [|e l IH]; [done|]. cbn [fmap list_fmap mbind list_bind]. by rewrite IH.
      * intros v Hv. by apply lookup_replicate_2; lia.
  - rewrite E. cbn [mbind option_bind]. exists sum', made. split; [done|]. split; [|done].
    assert (Hn : ts' ≫= pending = []).
    { clear -Hz. induction ts' as [|[e pc] ts IH]; [done|]. cbn [mbind list_bind]. rewrite IH by (intros u Hu; apply Hz; by right).
      specialize (Hz (e, pc) (list_elem_of_here _ _)). destruct pc as [|x|x o|]; cbn in Hz |- *; try lia; [|done]. destruct (decide _); lia. }
    by rewrite Hn, app_nil_r in H4.
Qed.

End Adds.

(** ** The rounds *)

Section Spec.
Context {R : Type} `{!Scalar R} {D : Type} `{!NeighborReader D}.
Variable d0 : D.

Abbreviation n := (Z.of_nat (vertices d0)).

Definition rank_of (damping_factor : R) (es : list (Z * Z)) (rank : list R) (v : Z) : R :=
  radd (rsub (of_int 1) damping_factor) (rmul damping_factor (added rank es v)).

(** A round but the last: ranks divided by degrees; a vertex without
    neighbours keeps its value. *)
Definition divided (damping_factor : R) (es : list (Z * Z)) (rank : list R) (v : Z) : R :=
  if decide (0 < deg d0 v) then rdiv (rank_of damping_factor es rank v) (of_int (deg d0 v)) else at_ rank v.

Definition change (damping_factor : R) (es : list (Z * Z)) (rank : list R) : R :=
  sum_from_zero ((fun v => rabs (rsub (rmul (divided damping_factor es rank v) (of_int (deg d0 v))) (rmul (at_ rank v) (of_int (deg d0 v))))) <$>
    filter (fun v => 0 < deg d0 v) (seqZ 0 n)).

Definition converged (threshold delta : R) : bool := rlt (of_int 0) threshold && rlt delta threshold.

Inductive scan_rounds (damping_factor threshold : R) : nat -> list R -> list R -> Prop :=
  | sr_none rank : scan_rounds damping_factor threshold 0 rank rank
  | sr_last rank es : es ≡ₚ all_edges d0 -> scan_rounds damping_factor threshold 1 rank (rank_of damping_factor es rank <$> seqZ 0 n)
  | sr_stop k rank es : es ≡ₚ all_edges d0 -> converged threshold (change damping_factor es rank) = true ->
      scan_rounds damping_factor threshold (S (S k)) rank (divided damping_factor es rank <$> seqZ 0 n)
  | sr_more k rank es rank' : es ≡ₚ all_edges d0 -> converged threshold (change damping_factor es rank) = false ->
      scan_rounds damping_factor threshold (S k) (divided damping_factor es rank <$> seqZ 0 n) rank' ->
      scan_rounds damping_factor threshold (S (S k)) rank rank'.

(** The ranks at the start, one over the degree. *)
Definition first_ranks : list R := (fun v => if decide (0 < deg d0 v) then rdiv (of_int 1) (of_int (deg d0 v)) else of_int 0) <$> seqZ 0 n.

End Spec.

Section Run.
Context {R : Type} `{!Scalar R} `{!EqDecision R} {D : Type} `{!NeighborReader D} `{!DegreeReader D}.
Variable d0 : D.

Abbreviation n := (Z.of_nat (vertices d0)).
Abbreviation ids := (seqZ 0 n).

Hypothesis d0_readable : readable d0.
Hypothesis d0_closed : forall v l u, vertex d0 v -> adj d0 v = Some l -> u ∈ l -> vertex d0 u.
Hypothesis d0_degrees : forall v, vertex d0 v -> deg d0 v < 2 ^ 32.

Lemma vertex_ids vs : vs ⊆ ids -> forall v, v ∈ vs -> vertex d0 v.
Proof. intros Hs v Hv. apply Hs, elem_of_seqZ in Hv. unfold vertex. lia. Qed.

Lemma degree_at v d : vertex d0 v -> same_graph d0 d -> exists d', degree d v = Some (deg d0 v, d') /\ same_graph d0 d'.
Proof.
  intros Hv Hg. destruct (d0_readable v Hv) as [l Hl]. pose proof Hl as Hl'. rewrite <- (proj2 Hg) in Hl'.
  destruct (degree_run d v l) as (d1 & E & Hg1); [by eapply same_graph_readable| |done|].
  { unfold vertex. by rewrite (proj1 Hg). }
  exists d1. split; [|by trans d]. rewrite E. unfold deg. by rewrite Hl.
Qed.

Lemma deg_u32 v : vertex d0 v -> u32 (deg d0 v) = deg d0 v.
Proof. intros Hv. apply wrap_small. split; [unfold deg; lia|by apply d0_degrees]. Qed.

Lemma scan_all_run vs : (forall v, v ∈ vs -> vertex d0 v) -> forall d, same_graph d0 d ->
  exists d', scan_all vs d = Some (vs ≫= fun v => (fun dst => (v, dst)) <$> default [] (adj d0 v), d') /\ same_graph d0 d'.
Proof.
  induction vs as [|v vs IH]; intros Hvs d Hg; [by exists d|]. cbn [scan_all].
  destruct (d0_readable v) as [l Hl]; [apply Hvs; left|]. pose proof Hl as Hl'. rewrite <- (proj2 Hg) in Hl'.
  destruct (read_run d v l Hl') as (d1 & -> & Hg1). cbn [mbind option_bind].
  destruct (IH (fun w Hw => Hvs w (list_elem_of_further _ _ _ Hw)) d1) as (d2 & -> & Hg2); [by trans d|]. cbn [mbind option_bind].
  exists d2. split; [|done]. cbn [list_bind]. by rewrite Hl.
Qed.

Lemma initial_run vs : (forall v, v ∈ vs -> vertex d0 v) -> forall d, same_graph d0 d ->
  exists d', initial vs d = Some ((fun v => if decide (0 < deg d0 v) then rdiv (of_int 1) (of_int (deg d0 v)) else of_int 0 : R) <$> vs, d') /\ same_graph d0 d'.
Proof.
  induction vs as [|v vs IH]; intros Hvs d Hg; [by exists d|]. cbn [initial]. assert (Hv : vertex d0 v) by (apply Hvs; left).
  destruct (degree_at v d Hv Hg) as (d1 & -> & Hg1). cbn [mbind option_bind].
  destruct (IH (fun w Hw => Hvs w (list_elem_of_further _ _ _ Hw)) d1 Hg1) as (d2 & -> & Hg2). cbn [mbind option_bind].
  exists d2. split; [|done]. cbn [fmap list_fmap]. rewrite deg_u32 by done. do 3 f_equal.
  destruct (Z.ltb_spec 0 (deg d0 v)), (decide (0 < deg d0 v)); done || lia.
Qed.

(** The updates as writes of new values at the vertices of a list. *)
Lemma update_run damping rank es vs : NoDup vs -> (forall v, v ∈ vs -> vertex d0 v) -> length rank = vertices d0 ->
  forall cur sum delta d, same_graph d0 d -> length cur = vertices d0 -> length sum = vertices d0 ->
  (forall v, v ∈ vs -> cur !! Z.to_nat v = rank !! Z.to_nat v /\ sum !! Z.to_nat v = Some (added rank es v)) ->
  exists d', update damping vs cur sum delta d =
    Some (write_all (divided d0 damping es rank) vs cur, write_all (fun _ => of_int 0) vs sum,
      foldl radd delta ((fun v => rabs (rsub (rmul (divided d0 damping es rank v) (of_int (deg d0 v))) (rmul (at_ rank v) (of_int (deg d0 v))))) <$>
        filter (fun v => 0 < deg d0 v) vs), d') /\ same_graph d0 d'.
Proof.
  intros Hnd Hvs Hl. induction Hnd as [|v vs Hv Hnd IH]; intros cur sum delta d Hg Hc Hs Hat; [by exists d|].
  assert (Hvv := Hvs v (list_elem_of_here _ _)). destruct (Hat v (list_elem_of_here _ _)) as [A1 A2].
  assert (Hvr : (Z.to_nat v < vertices d0)%nat) by (unfold vertex in Hvv; lia).
  assert (Hrest : forall x (l : list R), forall w, w ∈ vs -> <[Z.to_nat v := x]> l !! Z.to_nat w = l !! Z.to_nat w).
  { intros x l w Hw. apply list_lookup_insert_ne. intros E. assert (v = w); [|by subst].
    specialize (Hvs w (list_elem_of_further _ _ _ Hw)). unfold vertex in *. lia. }
  cbn [update]. destruct (degree_at v d Hvv Hg) as (d1 & -> & Hg1). cbn [mbind option_bind]. rewrite A2. cbn [mbind option_bind].
  rewrite deg_u32 by done. rewrite filter_cons. destruct (lookup_lt_is_Some_2 rank (Z.to_nat v)) as [old Eo]; [lia|].
  assert (Ea : at_ rank v = old) by (unfold at_; by rewrite Eo). rewrite Eo in A1. rewrite A1. cbn [mbind option_bind].
  assert (Hd : divided d0 damping es rank v = if decide (0 < deg d0 v)
    then rdiv (radd (rsub (of_int 1) damping) (rmul damping (added rank es v))) (of_int (deg d0 v)) else old).
  { unfold divided, rank_of. by rewrite Ea. }
  destruct (Z.ltb_spec 0 (deg d0 v)) as [Hp|Hp]; [rewrite (decide_True _ _ Hp) in Hd; rewrite (decide_True _ _ Hp)|assert (Hp' : ~ 0 < deg d0 v) by lia; rewrite (decide_False _ _ Hp') in Hd; rewrite (decide_False _ _ Hp')].
  - edestruct (IH (fun w Hw => Hvs w (list_elem_of_further _ _ _ Hw)) (<[Z.to_nat v := divided d0 damping es rank v]> cur) (<[Z.to_nat v := of_int 0]> sum))
      as (d2 & E & Hg2); [exact Hg1|by rewrite length_insert|by rewrite length_insert| |].
    { intros w Hw. rewrite !Hrest by done. apply Hat. by right. }
    rewrite <- Hd. rewrite E. exists d2. split; [|done]. cbn [fmap list_fmap foldl]. rewrite Ea. done.
  - edestruct (IH (fun w Hw => Hvs w (list_elem_of_further _ _ _ Hw)) cur (<[Z.to_nat v := of_int 0]> sum))
      as (d2 & E & Hg2); [exact Hg1|done|by rewrite length_insert| |].
    { intros w Hw. rewrite Hrest by done. apply Hat. by right. }
    rewrite E. exists d2. split; [|done]. unfold write_all. cbn [foldl]. rewrite Hd. by rewrite (list_insert_id cur) by done.
Qed.

Lemma update_last_run damping rank es vs : NoDup vs -> (forall v, v ∈ vs -> vertex d0 v) ->
  forall cur sum delta d, same_graph d0 d -> length cur = vertices d0 ->
  (forall v, v ∈ vs -> sum !! Z.to_nat v = Some (added rank es v)) ->
  exists delta' d', update_last damping vs cur sum delta d = Some (write_all (rank_of damping es rank) vs cur, delta', d') /\ same_graph d0 d'.
Proof.
  intros Hnd Hvs. induction Hnd as [|v vs Hv Hnd IH]; intros cur sum delta d Hg Hc Hat; [by exists delta, d|].
  assert (Hvv := Hvs v (list_elem_of_here _ _)). cbn [update_last]. rewrite (Hat v (list_elem_of_here _ _)). cbn [mbind option_bind].
  destruct (lookup_lt_is_Some_2 cur (Z.to_nat v)) as [old ->]; [unfold vertex in Hvv; lia|]. cbn [mbind option_bind].
  destruct (degree_at v d Hvv Hg) as (d1 & -> & Hg1). cbn [mbind option_bind].
  edestruct (IH (fun w Hw => Hvs w (list_elem_of_further _ _ _ Hw))) as (delta' & d2 & E & Hg2); [exact Hg1| | |].
  2: { intros w Hw. apply Hat. by right. }
  2: { rewrite E. by exists delta', d2. }
  by rewrite length_insert.
Qed.

Lemma edges_ok : Forall (fun e => 0 <= e.1 < n /\ 0 <= e.2 < n) (all_edges d0).
Proof.
  apply Forall_forall. intros e He. unfold all_edges in He. apply list_elem_of_bind in He as (v & He & Hv).
  apply elem_of_seqZ in Hv. assert (Hvv : vertex d0 v) by (unfold vertex; lia). destruct (d0_readable v Hvv) as [l Hl]. rewrite Hl in He.
  apply list_elem_of_fmap in He as (u & -> & Hu). split; [done|]. by apply (d0_closed v l u).
Qed.

Lemma ids_vertices v : v ∈ ids -> vertex d0 v.
Proof. intros Hv. apply elem_of_seqZ in Hv. unfold vertex. lia. Qed.

Lemma scan_loop_run sched damping threshold k : forall iter rank sum d, length rank = vertices d0 -> sum = replicate (vertices d0) (of_int 0) ->
  same_graph d0 d ->
  exists rank' d', scan_loop k iter sched damping threshold ids rank sum d = Some (rank', d') /\ same_graph d0 d' /\
    scan_rounds d0 damping threshold k rank rank'.
Proof.
  induction k as [|k IH]; intros iter rank sum d Hl Hs Hg; [exists rank, d; split; [done|split; [done|constructor]]|]. cbn [scan_loop].
  destruct (scan_all_run ids ids_vertices d Hg) as (d1 & E1 & Hg1). fold (all_edges d0) in E1. rewrite E1. cbn [mbind option_bind].
  destruct (run_adds_spec (vertices d0) (all_edges d0) rank Hl edges_ok (sched iter) sum Hs) as (sum' & es & -> & He & Hsl & Hsum).
  cbn [mbind option_bind]. destruct k as [|k].
  - destruct (update_last_run damping rank es ids (NoDup_seqZ _ _) ids_vertices rank sum' (of_int 0) d1 Hg1 Hl) as (delta' & d2 & -> & Hg2).
    { intros v Hv. apply Hsum, ids_vertices, Hv. }
    cbn [mbind option_bind]. eexists _, d2. split; [done|]. split; [done|]. rewrite write_all_ids by done. by apply sr_last.
  - destruct (update_run damping rank es ids (NoDup_seqZ _ _) ids_vertices Hl rank sum' (of_int 0) d1 Hg1 Hl Hsl) as (d2 & -> & Hg2).
    { intros v Hv. split; [done|]. apply Hsum, ids_vertices, Hv. }
    cbn [mbind option_bind]. rewrite !write_all_ids by done. fold (sum_from_zero (R := R)).
    match goal with |- context [rlt (foldl radd (of_int 0) ?l) threshold] => change (foldl radd (of_int 0) l) with (change d0 damping es rank) end.
    fold (converged threshold (change d0 damping es rank)). destruct (converged threshold (change d0 damping es rank)) eqn:Ec.
    + eexists _, d2. split; [done|]. split; [done|]. by apply sr_stop.
    + destruct (IH (S iter) (divided d0 damping es rank <$> ids) ((fun _ => of_int 0) <$> ids) d2) as (rank' & d' & E & Hg' & Hr);
        [rewrite length_fmap, length_seqZ; lia| |done|].
      { apply list_eq. intros i. rewrite list_lookup_fmap. destruct (decide (i < vertices d0)%nat) as [Hi|Hi].
        - rewrite (proj2 (lookup_seqZ 0 n i (Z.of_nat i))) by lia. by rewrite lookup_replicate_2.
        - rewrite (lookup_ge_None_2 (seqZ _ _)) by (rewrite length_seqZ; lia). symmetry. apply lookup_ge_None_2. rewrite length_replicate. lia. }
      exists rank', d'. split; [exact E|]. split; [done|]. by eapply sr_more.
Qed.

End Run.

(** C22: [parallel_pagerank] ends under every interleaving of the retries of
    its additions, with the ranks of synchronous rounds in which every edge
    contributes once, in some order; a round but the last keeps ranks divided
    by degrees, so that the result of a run that converges early is divided by
    the degrees and that of one that does not is not. *)
Theorem parallel_pagerank_rounds {R D : Type} `{!Scalar R} `{!EqDecision R} `{!NeighborReader D} `{!DegreeReader D} (d : D)
    (sched : nat -> list nat) (max_iterations : nat) (damping threshold : R) :
  readable d -> (forall v l u, vertex d v -> adj d v = Some l -> u ∈ l -> vertex d u) ->
  (forall v, vertex d v -> deg d v < 2 ^ 32) ->
  exists ranks d', parallel_pagerank sched max_iterations damping threshold d = Some (zip (seqZ 0 (Z.of_nat (vertices d))) ranks, d') /\
    same_graph d d' /\ scan_rounds d damping threshold max_iterations (first_ranks d) ranks.
Proof.
  intros Hr Hc Hd. unfold parallel_pagerank.
  destruct (initial_run d Hr Hd (seqZ 0 (Z.of_nat (vertices d))) (ids_vertices d) d (reflexivity d)) as (d1 & -> & Hg1).
  cbn [mbind option_bind].
  destruct (scan_loop_run d Hr Hc Hd sched damping threshold max_iterations 0 (first_ranks d) (replicate (vertices d) (of_int 0)) d1)
    as (ranks & d2 & E & Hg & Hs); [unfold first_ranks; rewrite length_fmap, length_seqZ; lia|done|done|].
  unfold first_ranks in E. rewrite E. by exists ranks, d2.
Qed.

End PageRankScan.
