(* ===== verification/Samples.v ===== *)
(** * A small database

    Three vertices on one CSR page, over the disk manager, the giant store and
    the sketch: the concrete instance on which the theorems about whole
    operations are applied. *)

From stdpp Require Import strings.
From S2P Require Import Prelude Config DeltaPage VertexIndex PageMap DiskManager CsrPage.
From S2P Require Import Db EdgeOps Builder GiantDb Sketch MemGraph ComGraph BuildDb.

Local Open Scope Z_scope.

Module Samples.
Import Delta VIndex PMap Csr DB EdgeOps.

#[local] Existing Instance small_config.
#[local] Existing Instances Giant.map_store Giant.fixed_group Giant.giant_store Sketch.update_sketch.
#[local] Instance delta_alloc : PageAllocator Disk.disk_manager_t (Z.of_nat DELTA_PAGE_SIZE) := Disk.disk_allocator _.

Definition adj : list (Z * list Z) := [(0, [1; 2]); (1, []); (2, [0])].

Definition page0 : csr_page_t :=
  match build_from_adjacency_map (new_page 0) adj ∅ with Ok r => r.1 | Throw _ => new_page 0 end.

Definition index3 : vertex_index_t :=
  VertexIndex [VItem (Some 0) NORMAL false; VItem (Some 1) NORMAL false; VItem (Some 2) NORMAL false]
    [dh_invalid; dh_invalid; dh_invalid]
    (list_to_map [(0, VertexVersion 0 0 None); (1, VertexVersion 0 1 None); (2, VertexVersion 0 2 None)])
    3 [] [] 0 0.

Abbreviation db := (bw_graph_db_t (A := Disk.disk_manager_t)
  (G := Giant.giant_vertex_db_t (R := gmap string (list Z))) (SK := Sketch.vertex_update_sketch_t)).

Definition db3 : db :=
  BwGraphDb index3 (Disk.empty_map small_config Disk.small_disk) {[0 := page0]} Disk.small_disk
    Giant.empty_giants (Some (Sketch.Sketch (replicate 3 (Sketch.VertexStat 0 0)))) true [].

Lemma case3 v : 0 <= v < 3 -> v = 0 \/ v = 1 \/ v = 2.
Proof. lia. Qed.

Lemma db3_inv : db_inv db3.
Proof.
  constructor.
  - apply (Disk.empty_map_wf (cfg := small_config)); [vm_compute; lia|vm_compute; discriminate|reflexivity].
  - eauto.
  - vm_compute. discriminate.
  - intros v Hv. destruct (case3 v Hv) as [->|[->| ->]]; eexists _, dh_invalid, [];
      (split; [vm_compute; reflexivity|]); (split; [reflexivity|]);
      (split; [split; vm_compute; split; congruence|]); (split; [|constructor]); constructor; reflexivity.
Defined.

Lemma db3_room k : (k <= 1000)%nat -> room (allocator (page_map_table db3)) k.
Proof. apply Disk.small_room. Defined.

Lemma db3_neighbors0 : neighbors db3 0 {[1; 2]}.
Proof.
  eexists _, dh_invalid, []. split; [vm_compute; reflexivity|]. split; [reflexivity|].
  split; [constructor; reflexivity|]. vm_compute. reflexivity.
Defined.

Lemma read_neighbor_clone_set_witness :
  exists n, forall fuel, (n <= fuel)%nat ->
    exists l s', read_neighbor_clone fuel db3 0 = Some (l, s') /\ list_to_set l = ({[1; 2]} : gset Z) /\
      db_inv s' /\ forall w Y, neighbors db3 w Y -> neighbors s' w Y.
Proof.
  apply (read_neighbor_clone_set db3 0).
  - apply db3_inv.
  - vm_compute. split; congruence.
  - apply db3_neighbors0.
Defined.

Lemma insert_edge_refines_witness :
  exists s', insert_edge db3 77 0 0 = Some (true, s') /\ edge_step db3 s' 0 (fun X => {[0]} ∪ X).
Proof.
  destruct (insert_edge_refines Disk.small_page_size_ok db3 77 0 0 0) as [H _].
  - apply db3_inv.
  - lia.
  - lia.
  - unfold in_width. lia.
  - apply db3_room. lia.
  - destruct H as (s' & H1 & H2 & _); [|eauto].
    split; (split; [vm_compute; split; congruence|reflexivity]).
Defined.

Lemma delete_edge_refines_witness :
  exists s', delete_edge db3 77 0 2 = Some (true, s') /\ edge_step db3 s' 0 (fun X => X ∖ {[2]}).
Proof.
  destruct (delete_edge_refines Disk.small_page_size_ok db3 77 0 2 0) as [H _].
  - apply db3_inv.
  - lia.
  - lia.
  - unfold in_width. lia.
  - apply db3_room. lia.
  - destruct H as (s' & H1 & H2 & _); [|eauto]. vm_compute. split; congruence.
Defined.

(** ** A built database: thirteen vertices, one of them giant, on four pages *)

Definition ls13 : list (list Z) :=
  (fun v => if v =? 3 then [0; 1; 2; 4; 5; 6; 7; 8] else (fun i => (v + i) `mod` 13) <$> seqZ 1 7) <$> seqZ 0 13.

Definition g13 : ComGraph.mem_sub_com_t := ComGraph.com_of_arrays (ComGraph.prefixes ls13) (mjoin ls13) [].

Definition page_disk : Disk.disk_manager_t := Disk.open_disk [] 256.

Definition sketch13 : Sketch.vertex_update_sketch_t := Sketch.Sketch (replicate 13 (Sketch.VertexStat 0 0)).

Lemma build_seq_db_holds_witness :
  exists r, BuildDb.build_seq_db g13 2 reverse Giant.empty_giants page_disk = Ok (Some r) /\
    let s := BuildDb.opened Disk.small_disk sketch13 r in
    db_inv s /\ vertex_count s = Z.of_nat (length ls13) /\
    forall v ns, 0 <= v -> ls13 !! Z.to_nat v = Some ns ->
      vertex_live s v = true /\ neighbors s v (list_to_set ns) /\ (is_giant_list ns = false -> base_of s v = Some ns).
Proof.
  apply (BuildDb.build_seq_db_holds (cfg := small_config)).
  - reflexivity.
  - vm_compute. congruence.
  - vm_compute. congruence.
  - vm_compute. split; congruence.
  - constructor.
    + constructor; vm_compute; reflexivity.
    + vm_compute. split; [congruence|reflexivity].
    + unfold ls13. apply Forall_forall. intros ns Hns.
      assert (H : forallb (fun ns => forallb (fun x => (0 <=? x) && (x <? 2 ^ 32)) ns && (Z.of_nat (length ns) <? 2 ^ 31) &&
        (is_giant_list ns || (Z.of_nat (METADATA_SIZE + neighbor_block_data_size + VERTEX_SIZE) + 4 * (Z.of_nat (length ns) + EDGE_SLOT_COUNT) <=? Z.of_nat PAGE_SIZE))) ls13 = true)
        by (vm_compute; reflexivity).
      rewrite forallb_forall in H. specialize (H ns (proj1 (list_elem_of_In _ _) Hns)).
      apply andb_true_iff in H as [[H1 H2]%andb_true_iff H3].
      assert (Hw : Forall (in_width 32) ns).
      { apply Forall_forall. intros x Hx. rewrite forallb_forall in H1. specialize (H1 x (proj1 (list_elem_of_In _ _) Hx)).
        unfold in_width. lia. }
      apply Z.ltb_lt in H2. split; [done|]. split; [done|]. destruct (is_giant_list ns) eqn:E.
      * split; [done|]. lia.
      * unfold Builder.Builder.fits_alone. rewrite E. by apply Z.leb_le.
    + apply Exists_exists. exists [1; 2; 3; 4; 5; 6; 7]. split; [|reflexivity].
      apply list_elem_of_lookup. exists 0%nat. vm_compute. reflexivity.
  - intros l. apply reverse_Permutation.
  - apply Disk.open_inv; [lia|cbn; lia].
  - reflexivity.
  - apply (Disk.empty_map_wf (cfg := small_config)); [vm_compute; lia|vm_compute; discriminate|reflexivity].
  - vm_compute. repeat split.
Defined.

End Samples.
