(* ===== verification/SmoSamples.v ===== *)
(** * A consolidation on a concrete database

    The database of [Samples] with a file of 256-byte CSR pages: an inserted
    edge queues the consolidation of page 0, the task runs, and the edge is
    still read. *)

From stdpp Require Import strings.
From S2P Require Import Prelude Config DeltaPage VertexIndex PageMap DiskManager CsrPage Db EdgeOps GiantDb Sketch.
From S2P Require Import Reorder Smo SmoMerge SmoBuild SmoInv SmoConsolidate SmoRun SmoSteps Samples.

Local Open Scope Z_scope.

Module SmoSamples.
Import Delta VIndex PMap Csr DB EdgeOps Consolidate Smo Merge Build Inv Run Steps LoadState.

#[local] Existing Instances small_config Reorder.elements_order.
#[local] Existing Instances Giant.map_store Giant.fixed_group Giant.giant_store Sketch.update_sketch.
#[local] Instance delta_alloc : PageAllocator Disk.disk_manager_t (Z.of_nat DELTA_PAGE_SIZE) := Disk.disk_allocator _.
#[local] Instance csr_alloc : PageAllocator Disk.disk_manager_t (Z.of_nat PAGE_SIZE) := Disk.disk_allocator _.
#[export] Instance list_order : MapOrder :=
  {| map_order := fun V _ m => map_to_list m; map_order_list := fun _ _ _ => reflexivity _ |}.

Abbreviation with_db s d := (upd_db (fun _ => d) s).
Abbreviation sample_t := (smo_t (A := Disk.disk_manager_t) (G := Giant.giant_vertex_db_t (R := gmap string (list Z)))
  (SK := Sketch.vertex_update_sketch_t)).

Definition csr_disk0 : Disk.disk_manager_t := (Disk.disk_allocate_page (Disk.open_disk [] 256)).2.

Definition db4 (manual : bool) : smo_t (A := Disk.disk_manager_t)
    (G := Giant.giant_vertex_db_t (R := gmap string (list Z))) (SK := Sketch.vertex_update_sketch_t) :=
  SmoState (set_csr Samples.db3 (csr_pages Samples.db3) csr_disk0) manual [] [].

Definition state_of {R} (o : option (R * bw_graph_db_t)) (s : smo_t (A := Disk.disk_manager_t)
    (G := Giant.giant_vertex_db_t (R := gmap string (list Z))) (SK := Sketch.vertex_update_sketch_t)) :=
  match o with Some (_, d) => upd_db (fun _ => d) s | None => s end.

Definition db5 manual := state_of (insert_edge (database (db4 manual)) 77 0 0) (db4 manual).

Definition db6 manual := (run_task 0 0 (db5 manual)).2.

(** ** The state before *)

Lemma page0_holds : page_holds Samples.page0 Samples.adj.
Proof.
  split; [|split; [|reflexivity]].
  - split; [reflexivity|]. split; [reflexivity|]. intros i q Hi.
    destruct i as [|[|[|i]]]; [..|done]; injection Hi as <-; (split; [|reflexivity]);
      eexists; (split; [reflexivity|]); (split; [reflexivity|]); split; reflexivity.
  - apply (bool_decide_unpack _). vm_compute. exact I.
Qed.

Lemma located4 m v P i : located (db4 m) v P i <-> P = 0 /\ i = v /\ 0 <= v < 3.
Proof.
  unfold located, known. change (Z.of_nat (length (items (vertex_index (database (db4 m)))))) with 3. split.
  - intros [Hv Hl]. destruct (Samples.case3 v Hv) as [->|[->| ->]]; vm_compute in Hl; by injection Hl as <- <-.
  - intros (-> & -> & Hv). split; [done|]. destruct (Samples.case3 v Hv) as [->|[->| ->]]; reflexivity.
Qed.

Lemma adj_ok0 : adj_ok Samples.adj.
Proof. repeat (constructor; [split; [unfold in_width; cbn; lia|repeat (constructor; [cbn; lia|]); constructor]|]). constructor. Qed.

Lemma slot4 m n v ns : slot (db4 m) 0 n v ns -> v = Z.of_nat n /\ 0 <= v < 3.
Proof.
  intros (adj & (_ & p & Hp & (Hsh & _)) & Hn). vm_compute in Hp.
  assert (p = Samples.page0) as -> by (injection Hp as <-; vm_compute; reflexivity).
  destruct (same_page_vertex _ _ _ _ _ _ (proj1 page0_holds) Hsh Hn) as [ns' Hn'].
  destruct n as [|[|[|n]]]; [..|done]; injection Hn' as <- <-; lia.
Qed.

Lemma db4_loaded m : loaded (db4 m).
Proof.
  constructor.
  - destruct Samples.db3_inv as [I1 I2 I3 I4]. by constructor.
  - reflexivity.
  - repeat (constructor; [reflexivity|]). constructor.
  - intros v b Hk Hg. exfalso. destruct (Samples.case3 v Hk) as [->|[->| ->]]; discriminate Hg.
  - constructor; cbn.
    + repeat (constructor; [eauto|]). constructor.
    + apply (bool_decide_unpack _). vm_compute. exact I.
    + repeat (constructor; [split; [vm_compute; eauto|reflexivity]|]). constructor.
    + constructor.
    + reflexivity.
  - assert (E : dom (csr_pages (database (db4 m))) = {[0]}) by (apply (bool_decide_unpack _); vm_compute; exact I).
    rewrite E. split; [vm_compute; lia|]. split; [vm_compute; discriminate|]. split; [|split; constructor].
    intros n Hn. apply elem_of_singleton in Hn as ->. vm_compute. split; congruence.
  - intros v P i Hl. apply located4 in Hl as (-> & -> & Hv).
    destruct (Samples.case3 v Hv) as [->|[->| ->]]; [exists 0%nat, [1; 2]|exists 1%nat, []|exists 2%nat, [0]];
      (split; [reflexivity|]); exists Samples.adj; (split; [|reflexivity]);
      (split; [apply adj_ok0|]); exists Samples.page0; (split; [vm_compute; reflexivity|apply page0_holds]).
  - intros P n v ns (w & i & Hw) Hs. apply located4 in Hw as (-> & _). apply slot4 in Hs as [-> Hv].
    by apply located4.
  - reflexivity.
  - repeat (constructor; [reflexivity|]). constructor.
  - reflexivity.
  - reflexivity.
  - reflexivity.
Qed.

Definition sets4 (v : Z) : gset Z := if v =? 0 then {[1; 2]} else if v =? 2 then {[0]} else ∅.

Lemma db4_represents m : represents (db4 m) sets4.
Proof.
  intros v Hv. destruct (Samples.case3 v Hv) as [->|[->| ->]]; eexists _, dh_invalid, [];
    (split; [vm_compute; reflexivity|]); (split; [reflexivity|]); (split; [constructor; reflexivity|reflexivity]).
Qed.

(** ** After the edge *)

Lemma bound0 : 0 <= GIANT_DEGREE_BOUND.
Proof. cbn. lia. Qed.

Lemma page16 : Z.of_nat PAGE_SIZE <= 2 ^ 16.
Proof. cbn. lia. Qed.

Lemma store_succeeds (g : Giant.giant_vertex_db_t (R := gmap string (list Z))) v ns :
  0 <= v -> g_storable ns -> (g_insert_vertex g v ns).1 = true.
Proof. done. Qed.

Lemma insert_step m : smo_step (Running (db4 m) [] []) (OpInsert 0 0) (Running (db5 m) [] []).
Proof.
  change (db5 m) with (with_db (db4 m) (database (db5 m))) at 1.
  apply (step_insert (db4 m) [] [] 77 0 0 (database (db5 m))).
  - split; [vm_compute; split; congruence|reflexivity].
  - split; [vm_compute; split; congruence|reflexivity].
  - unfold in_width. lia.
  - apply (Disk.small_room 2). lia.
  - unfold db5, state_of. destruct m; vm_compute; reflexivity.
Qed.

Lemma db5_follows m : follows (Running (db5 m) [] []) (effect (OpInsert 0 0) (sets4, [])).
Proof.
  apply (step_follows Disk.small_page_size_ok store_succeeds eq_refl page16 bound0 _ _ _ _ (insert_step m)).
  constructor; [apply loaded_consistent, db4_loaded|apply db4_represents|constructor].
Qed.

Lemma db5_consistent m : consistent (db5 m).
Proof. apply (db5_follows m). Qed.

Lemma db5_queue m : smo_queue (database (db5 m)) !! 0%nat = Some (0, 1).
Proof. destruct m; vm_compute; reflexivity. Qed.

Definition merged5 : gmap Z (list Z) := {[0 := [0; 1; 2]; 1 := []; 2 := [0]]}.

Lemma db5_room m : room_for (db5 m) 0.
Proof.
  apply (room_for_run (cfg := small_config) eq_refl (db5 m) 0 0 Samples.page0
    [DeltaRecord EDGE INSERT 0 0 77 INVALID_DELTA_PAGE_NO INVALID_DELTA_RECORD_IDX] merged5 (giant_db (database (db4 m)))).
  - apply db5_consistent.
  - exists 0, 0. split; [unfold known; vm_compute; destruct m; split; congruence|destruct m; reflexivity].
  - destruct m; vm_compute; apply not_elem_of_nil.
  - destruct m; vm_compute; reflexivity.
  - destruct m; (eexists; split; [eapply (page_chain_cons _ 0); [vm_compute; reflexivity|constructor]|vm_compute; reflexivity]).
  - destruct m; vm_compute; reflexivity.
  - apply fits_intro.
    + repeat (constructor; [split; [split; [repeat (constructor; [unfold in_width; cbn; lia|]); constructor|reflexivity]|reflexivity]|]).
      constructor.
    + split; [destruct m; vm_compute; reflexivity|destruct m; vm_compute; reflexivity].
    + destruct m; vm_compute; congruence.
Qed.

(** ** The task, the publication and a read *)

Lemma run_task_completes_witness :
  exists s', run_task 0 0 (db5 false) = (Ok tt, s') /\ consistent s' /\
    same_sets (database (db5 false)) (database s') /\ claimed (page_map_table (database s')) 0 = false /\
    ~ current s' 0 /\ 0 ∈ (reclaim_batches s').*2.
Proof.
  destruct (run_task_completes Disk.small_page_size_ok store_succeeds eq_refl page16 bound0 0 0 0 1 (db5 false)
    (db5_consistent false) (db5_queue false) (db5_room false)) as (s' & E & Hc & Hs & Hcl & Hr).
  exists s'. split; [exact E|]. split; [exact Hc|]. split; [exact Hs|]. split; [exact Hcl|]. apply Hr; [reflexivity|].
  intros [Hi|[Hi|(l & Hl & Hr0)]]; [vm_compute in Hi; discriminate|vm_compute in Hi; discriminate|].
  assert (E0 : page_chain (PMap.pages (page_map_table (database (db5 false)))) (Some 0) [0]).
  { eapply (page_chain_cons _ 0); [vm_compute; reflexivity|constructor]. }
  rewrite (page_chain_det _ _ _ _ Hl E0) in Hr0. vm_compute in Hr0. discriminate.
Defined.

Definition begin6 manual := begin_task 0 0 (db5 manual).

Definition switch6 manual : pending_version_switch_t :=
  match (begin6 manual).1 with Ok (Some q) => q | _ => Pending ∅ 0 ∅ 0 false [] end.

Definition after6 manual : sample_t := (begin6 manual).2.

(** The two halves of the task. *)
Lemma begin_step m : smo_step (Running (db5 m) [] []) OpBackground (Running (after6 m) [switch6 m] []).
Proof.
  apply (step_task_begin _ [] [] 0 0 0 1 (Some (switch6 m))); [apply db5_queue|apply db5_room|].
  destruct m; vm_compute; reflexivity.
Qed.

Lemma end_step m : smo_step (Running (after6 m) [switch6 m] []) OpBackground (Running (db6 m) [] []).
Proof.
  apply (step_task_end _ [] (switch6 m) [] [] 0).
  - right. intros r Hr. by apply elem_of_nil in Hr.
  - destruct m; vm_compute; reflexivity.
Qed.

Lemma db6_follows m : follows (Running (db6 m) [] []) (effect (OpInsert 0 0) (sets4, [])).
Proof.
  apply (step_follows Disk.small_page_size_ok store_succeeds eq_refl page16 bound0 _ _ _ _ (end_step m)).
  apply (step_follows Disk.small_page_size_ok store_succeeds eq_refl page16 bound0 _ _ _ _ (begin_step m)).
  apply db5_follows.
Qed.

Lemma publish_settles_witness :
  exists s', publish_pending_versions 0 id (db6 true) = (Ok tt, s') /\ (forall v, known s' v -> settled s' v) /\
    reclaim_batches s' = [] /\ 0 ∉ dom (csr_pages (database s')).
Proof.
  destruct (publish_settles (cfg := small_config) Disk.small_page_size_ok store_succeeds eq_refl page16 bound0 0 id (db6 true)) as (s' & E & _ & _ & _ & Hst & _ & Hg & Hb).
  - apply (db6_follows true).
  - exists s'. split; [exact E|]. split; [exact Hst|].
    destruct (pending_version_switches_ (db6 true)) as [|q l] eqn:Ep; [vm_compute in Ep; discriminate|].
    split; [by apply Hg|]. destruct (Hb q) as [Hb1 _]; [left|]. assert (Eq : old_page_no q = 0).
    { transitivity (default 1 (head (old_page_no <$> pending_version_switches_ (db6 true)))); [by rewrite Ep|vm_compute; reflexivity]. }
    by rewrite <- Eq.
Defined.

Definition begun (s : smo_t (A := Disk.disk_manager_t) (G := Giant.giant_vertex_db_t (R := gmap string (list Z)))
    (SK := Sketch.vertex_update_sketch_t)) (v : Z) : reader_t * bw_graph_db_t :=
  match clone_base (database s) v with
  | Some (base, h, d) => (start_read v base h, d)
  | None => (start_read v [] dh_invalid, database s)
  end.

(** A read that begins between the halves of the task and ends after the task. *)
Definition reading : reader_t * bw_graph_db_t := begun (after6 true) 0.
Definition read6 : sample_t := with_db (after6 true) reading.2.
Definition reading' : reader_t := default reading.1 (walk_step (PMap.pages (page_map_table (database read6))) reading.1).
Definition read7 : sample_t := (end_task 0 (switch6 true) read6).2.

Lemma steps_refine_witness :
  let os := [OpInsert 0 0; OpBackground; OpReadBegin 0; OpBackground; OpBackground; OpReadEnd 0 [1; 2; 0]] in
  allowed os (sets4, []) /\ exists r : run_t (A := Disk.disk_manager_t) (G := Giant.giant_vertex_db_t (R := gmap string (list Z)))
      (SK := Sketch.vertex_update_sketch_t),
    consistent_with (store r) (tasks r) /\ represents (store r) (effects os (sets4, [])).1.
Proof.
  intros os. destruct (steps_refine Disk.small_page_size_ok store_succeeds eq_refl page16 bound0 (db4 true) os
    (Running read7 [] []) sets4) as (H1 & H2 & H3).
  - eapply steps_cons; [apply insert_step|]. eapply steps_cons; [apply begin_step|].
    eapply steps_cons.
    { apply (step_read_begin _ [switch6 true] [] 0 (r_base reading.1) (r_cur reading.1) reading.2); [vm_compute; split; congruence|vm_compute; reflexivity]. }
    eapply steps_cons.
    { apply (step_read_walk _ [switch6 true] _ 0 reading.1 reading'); [vm_compute; reflexivity..]. }
    eapply steps_cons; [apply (step_task_end _ [] (switch6 true) [] _ 0 read7); [left; vm_compute; reflexivity|vm_compute; reflexivity]|].
    eapply steps_cons; [|constructor].
    apply (step_read_end read7 [] [reading'] 0 reading'); [reflexivity|vm_compute; reflexivity].
  - apply loaded_consistent, db4_loaded.
  - apply db4_represents.
  - split; [exact H1|]. by eexists.
Defined.

(** ** A read that loses edges

    The edge 0-0 was merged onto a page whose switch is pending, and the edge
    0-1 is then deleted, so that its record is on the new page.  A read of 0
    begins; the publication cuts the chain below the record on the new page; the
    read goes on with the base list of the old page and misses the edge 0-0. *)

Definition db7 : sample_t := state_of (delete_edge (database (db6 true)) 78 0 1) (db6 true).
Definition late : reader_t * bw_graph_db_t := begun db7 0.
Definition db8 : sample_t := with_db db7 late.2.
Definition db9 : sample_t := (publish_pending_versions 0 id db8).2.

Fixpoint walk_all (fuel : nat) (ps : gmap Z delta_page_t) (r : reader_t) : reader_t :=
  match fuel with
  | O => r
  | S fuel => if ptr_is_valid (r_cur r) then from_option (walk_all fuel ps) r (walk_step ps r) else r
  end.

Lemma walk_all_walks fuel ps : forall r, ptr_is_valid (r_cur (walk_all fuel ps r)) = false ->
  walks ps r (walk_all fuel ps r).
Proof.
  induction fuel as [|fuel IH]; intros r; cbn [walk_all]; [by constructor|].
  destruct (ptr_is_valid (r_cur r)) eqn:E; [|by constructor].
  destruct (walk_step ps r) as [r1|] eqn:E1; cbn [from_option]; [|intros; congruence].
  intros Hr. eapply walks_step; [done|done|by apply IH].
Qed.
Example read_loses_records :
  publish_pending_versions 0 id db8 = (Ok tt, db9) /\
  (exists r, walks (PMap.pages (page_map_table (database db8))) late.1 r /\ ptr_is_valid (r_cur r) = false /\ read_result r = [2; 0]) /\
  exists r, walks (PMap.pages (page_map_table (database db9))) late.1 r /\ ptr_is_valid (r_cur r) = false /\ read_result r = [2].
Proof.
  split; [vm_compute; reflexivity|]. split.
  - exists (walk_all 5 (PMap.pages (page_map_table (database db8))) late.1).
    split; [apply walk_all_walks|split]; vm_compute; reflexivity.
  - exists (walk_all 5 (PMap.pages (page_map_table (database db9))) late.1).
    split; [apply walk_all_walks|split]; vm_compute; reflexivity.
Qed.

(** The merge of the page with the inserted edge. *)
Lemma merged_graph_sets_witness :
  exists m gs, build_merged_graph 0 Samples.page0 [DeltaRecord EDGE INSERT 0 0 77 1 1] Samples.index3
      (giant_db Samples.db3) = Some (m, gs) /\ exists l, m !! 0 = Some l /\ StronglySorted Z.lt l /\
    (list_to_set l : gset Z) = {[0; 1; 2]}.
Proof.
  destruct (merged_graph_sets 0 Samples.page0 Samples.adj [DeltaRecord EDGE INSERT 0 0 77 1 1] Samples.index3
    (giant_db Samples.db3) page0_holds) as (m & gs & E & _ & Hm & _).
  - intros v Hv Hg. exfalso. revert Hg. vm_compute in Hv. repeat (apply elem_of_cons in Hv as [->|Hv]; [discriminate|]).
    by apply elem_of_nil in Hv.
  - exists m, gs. split; [exact E|]. destruct (Hm 0 [1; 2]) as (l & Hl & Hs & Hset); [reflexivity|].
    exists l. split; [exact Hl|]. split; [exact Hs|]. rewrite Hset. vm_compute. reflexivity.
Defined.

End SmoSamples.
