(* ===== verification/AlgoSamples.v ===== *)
(** * Small graphs for the algorithms

    A graph given by its lists is the simplest reader and lister; the database
    of [Samples] is the one the code has. *)

From stdpp Require Import strings.
From S2P Require Import Prelude Config DeltaPage VertexIndex PageMap DiskManager CsrPage Db EdgeOps GiantDb Sketch.
From S2P Require Import Bitmap Sequence VertexSet GraphRead EdgeScan PageScan Interleave EdgeMap EdgeMapDb.
From S2P Require Import Bfs BfsMap ParallelBfs Wcc ParallelWcc WccSv EdgePush Cdlp CdlpMap Samples.

Local Open Scope Z_scope.

Module ListGraph.
Import GraphRead.

(** The lists of the vertices 0, 1, ... *)
Definition list_graph : Type := list (list Z).

Definition list_adj (d : list_graph) (v : Z) : option (list Z) := if v <? 0 then None else d !! Z.to_nat v.

#[export, refine] Instance list_reader : NeighborReader list_graph := {|
  vertices := length;
  read := fun d v => l ← list_adj d v; Some (l, d);
  adj := list_adj
|}.
Proof.
  - intros d v. by destruct (list_adj d v).
  - intros d v l d' E. destruct (list_adj d v); [|done]. by injection E as <- <-.
Defined.

Definition entries (d : list_graph) : list (Z * list Z) := zip (seqZ 0 (Z.of_nat (length d))) d.

Lemma entries_elem d v l : (v, l) ∈ entries d <-> list_adj d v = Some l.
Proof.
  unfold entries, list_adj. rewrite list_elem_of_lookup. split.
  - intros [i Hi]. apply lookup_zip_with_Some in Hi as (x & y & [= <- <-] & E1 & E2). apply lookup_seqZ in E1 as [-> E1].
    rewrite (proj2 (Z.ltb_ge _ _)) by lia. by rewrite Z.add_0_l, Nat2Z.id.
  - destruct (Z.ltb_spec v 0) as [|Hv]; [done|]. intros E. exists (Z.to_nat v). apply lookup_zip_with_Some. exists v, l.
    split; [done|]. split; [|done]. apply lookup_lt_Some in E. apply lookup_seqZ. lia.
Qed.

#[export, refine] Instance list_lister : EdgeLister list_graph := {|
  page_lists := fun d => Some (entries d);
  giants := fun _ => [];
  giant_read := fun d _ => Some ([], d);
  total_edge_count := fun d => Z.of_nat (length (mjoin d));
  listable := fun _ => True
|}.
Proof.
  - intros d _. exists (entries d). split; [done|]. split.
    + intros v l Hin. apply entries_elem in Hin. split; [|by exists l]. unfold list_adj in Hin.
      destruct (Z.ltb_spec v 0); [done|]. apply lookup_lt_Some in Hin. unfold vertex. cbn. lia.
    + intros v l _ _ E. by apply entries_elem.
  - intros d v _ Hv. by apply elem_of_nil in Hv.
  - intros d v _ Hv. by apply elem_of_nil in Hv.
  - intros d _ v Hv. cbn in *. unfold list_adj. rewrite (proj2 (Z.ltb_ge _ _)) by lia. apply lookup_lt_is_Some_2. lia.
  - done.
Defined.

#[export, refine] Instance list_exact_lister : ExactLister list_graph := {| exact := fun _ => True |}.
Proof.
  - done.
  - intros d _. exists (entries d). split; [done|]. split.
    + apply Forall_forall. intros [v l] Hq. apply entries_elem in Hq. unfold list_adj in Hq. destruct (Z.ltb_spec v 0); [done|].
      apply lookup_lt_Some in Hq. unfold vertex. cbn. lia.
    + apply Permutation_refl'. unfold entries. cbn [vertices list_reader].
      assert (Hg : forall k (l : list_graph), length l = length (seqZ k (Z.of_nat (length l))) ->
        (forall i x, l !! i = Some x -> list_adj d (k + Z.of_nat i) = Some x) ->
        (zip (seqZ k (Z.of_nat (length l))) l ≫= fun q => (fun dst => (q.1, dst)) <$> q.2) =
        (seqZ k (Z.of_nat (length l)) ≫= fun v => (fun dst => (v, dst)) <$> (if bool_decide (v ∈ ([] : list Z)) then [] else default [] (list_adj d v)))).
      { intros k l _. revert k. induction l as [|x l IH]; intros k Hl; [done|]. cbn [length]. rewrite (seqZ_cons k) by lia.
        replace (Z.pred (Z.of_nat (S (length l)))) with (Z.of_nat (length l)) by lia. cbn [zip_with mbind list_bind fst snd]. f_equal.
        - rewrite bool_decide_false by apply not_elem_of_nil. specialize (Hl 0%nat x eq_refl). rewrite Z.add_0_r in Hl. by rewrite Hl.
        - apply IH. intros i y Hi. rewrite <- (Hl (S i) y Hi). f_equal. lia. }
      apply Hg; [rewrite length_seqZ; lia|]. intros i x Hi. unfold list_adj. rewrite (proj2 (Z.ltb_ge _ _)) by lia. by rewrite Z.add_0_l, Nat2Z.id.
  - intros d _. constructor.
  - done.
  - done.
Defined.

(** The edges of the marked vertices, in the order of the lists. *)
Definition marked_edges (d : list_graph) (b : Bitmap.bit_map_t) : list (Z * Z) :=
  entries d ≫= fun q => if Bitmap.has_dec b q.1 then pair q.1 <$> q.2 else [].

#[export, refine] Instance list_scanner : EdgeScanner list_graph := {|
  edge_scan := fun d b => Some (marked_edges d b, d);
  scannable := fun _ => True
|}.
Proof.
  intros d b _ _ _ _. exists (marked_edges d b), d. split; [done|]. split; [done|]. split; [done|]. intros u v. unfold marked_edges.
  rewrite list_elem_of_bind. split.
  - intros ([w l] & Hin & Hq). apply entries_elem in Hq. cbn in Hin. destruct (Bitmap.has_dec b w); [|by apply elem_of_nil in Hin].
    apply list_elem_of_fmap in Hin as (y & [= -> ->] & Hy). split; [done|]. by exists l.
  - intros [Hu (l & El & Hv)]. exists (u, l). split; [|by apply entries_elem]. cbn. destruct (Bitmap.has_dec b u); [|done].
    apply list_elem_of_fmap. by exists v.
Defined.

Lemma same_list_graph (d d' : list_graph) : same_graph d d' -> d' = d.
Proof.
  intros [_ H2]. apply list_eq. intros i. specialize (H2 (Z.of_nat i)). cbn in H2. unfold list_adj in H2.
  rewrite (proj2 (Z.ltb_ge _ _)) in H2 by lia. by rewrite Nat2Z.id in H2.
Qed.

Lemma marked_edges_bound d b : (length (marked_edges d b) <= length (mjoin d))%nat.
Proof.
  unfold marked_edges, entries. generalize 0%Z as k. generalize (Z.of_nat (length d)) at 1 as m.
  induction d as [|l d IH]; intros m k.
  { destruct (seqZ k m); cbn; lia. }
  destruct (seqZ k m) as [|v vs] eqn:E; [cbn; lia|]. cbn [zip_with mbind list_bind]. change (mjoin (l :: d)) with (l ++ mjoin d). rewrite !length_app.
  assert (Hvs : vs = seqZ (Z.succ k) (Z.pred m)).
  { destruct (Z.le_gt_cases m 0); [by rewrite seqZ_nil in E|]. rewrite seqZ_cons in E by lia. by injection E as _ <-. }
  rewrite Hvs. specialize (IH (Z.pred m) (Z.succ k)). cbn [fst snd]. destruct (Bitmap.has_dec b v); rewrite ?length_fmap; cbn [length]; unfold mbind, list_bind in IH |- *; lia.
Qed.

Definition edge_b (d : list_graph) (u v : Z) : bool :=
  match list_adj d u, list_adj d v with Some l, Some _ => bool_decide (v ∈ l) | _, _ => false end.

Lemma edge_b_spec d u v : edge d u v <-> edge_b d u v = true.
Proof.
  unfold edge, edge_b, vertex. cbn. assert (Hv : forall x, 0 <= x < Z.of_nat (length d) <-> is_Some (list_adj d x)).
  { intros x. unfold list_adj. destruct (Z.ltb_spec x 0); [split; [lia|by intros [? ?]]|]. rewrite lookup_lt_is_Some. lia. }
  rewrite !Hv. destruct (list_adj d u), (list_adj d v); rewrite ?bool_decide_eq_true; split; naive_solver.
Qed.

Definition ids (d : list_graph) : list Z := seqZ 0 (Z.of_nat (length d)).

(** Symmetry and closedness, decided on the lists. *)
Definition symmetric_b (d : list_graph) : bool :=
  forallb (fun u => forallb (fun v => implb (edge_b d u v) (edge_b d v u)) (ids d)) (ids d).

Lemma symmetric_b_spec d : symmetric_b d = true -> symmetric d.
Proof.
  intros Hs u v He. pose proof He as (Hu & Hv & _). unfold symmetric_b in Hs. rewrite forallb_forall in Hs.
  assert (Hids : forall x, vertex d x -> In x (ids d)) by (intros x Hx; apply list_elem_of_In, elem_of_seqZ; unfold vertex in Hx; cbn in Hx; lia).
  specialize (Hs u (Hids u Hu)). rewrite forallb_forall in Hs. specialize (Hs v (Hids v Hv)).
  apply edge_b_spec in He. rewrite He in Hs. by apply edge_b_spec.
Qed.

Definition closed_b (d : list_graph) : bool := forallb (fun v => (0 <=? v) && (v <? Z.of_nat (length d))) (mjoin d).

Lemma closed_b_spec d u l v : closed_b d = true -> adj d u = Some l -> v ∈ l -> vertex d v.
Proof.
  intros Hc Ha Hv. unfold closed_b in Hc. rewrite forallb_forall in Hc.
  assert (Hin : In v (mjoin d)).
  { apply list_elem_of_In, list_elem_of_join. exists l. split; [done|]. cbn in Ha. unfold list_adj in Ha. destruct (u <? 0); [done|].
    by eapply list_elem_of_lookup_2. }
  specialize (Hc v Hin). apply andb_prop in Hc as [H1 H2]. unfold vertex. cbn. lia.
Qed.

End ListGraph.

Module AlgoSamples.
Import ListGraph GraphRead.

(** A path 1 - 3 - 2 - 4 - 0, and the same state with nothing else to read. *)
Definition g5 : list_graph := [[4]; [3]; [3; 4]; [1; 2]; [0; 2]].

Definition zeros (k : nat) : list Z := replicate k 0.

Lemma g5_symmetric : symmetric g5.
Proof. by apply symmetric_b_spec. Defined.

Lemma g5_closed : BfsLevels.closed g5.
Proof. intros u l v _ Ha Hv. by eapply closed_b_spec. Defined.

Lemma g5_vertex : vertex g5 1.
Proof. unfold vertex. vm_compute. split; [discriminate|reflexivity]. Defined.

Lemma g5_readable : readable g5.
Proof. by apply listable_readable. Defined.

Lemma zeros_length k : length (zeros k) = k.
Proof. apply length_replicate. Defined.

(** The sparse mode, the dense mode and schedules that leave calls half done. *)
Lemma bfs_distances_witness : exists order d', Bfs.bfs 5 g5 1 = Some (order, d') /\ same_graph g5 d' /\ NoDup order.*1 /\
  (forall v k, (v, k) ∈ order <-> exists j, k = Z.of_nat j /\ distance g5 1 v j) /\
  (forall v, v ∈ order.*1 <-> reaches g5 1 v) /\ StronglySorted (Bfs.nearer g5 1) order.*1.
Proof. apply (Bfs.bfs_distances g5 1 5 g5_readable g5_vertex); [vm_compute; discriminate|cbn; lia]. Defined.

Lemma parallel_bfs_map_agrees_witness : exists order d1 res d2, Bfs.bfs 5 g5 1 = Some (order, d1) /\
  BfsMap.parallel_bfs_map 5 zeros (fun _ => [2; 0; 2]%nat) 1 1 g5 1 3 = Some (res, d2) /\ res ≡ₚ order /\ same_graph g5 d2.
Proof.
  apply (BfsMap.parallel_bfs_map_agrees g5 1 zeros 5 (fun _ => [2; 0; 2]%nat) 1 1 3 zeros_length g5_closed g5_symmetric g5_vertex);
    [vm_compute; reflexivity|exact I|cbn; lia].
Defined.

Lemma wcc_components_witness : exists res d', Wcc.wcc 5 g5 = Some (res, d') /\ same_graph g5 d' /\ res.*1 = seqZ 0 (Z.of_nat (vertices g5)) /\
  (forall v c, (v, c) ∈ res -> exists r, Wcc.leader g5 v r) /\
  (forall v w cv cw rv rw, (v, cv) ∈ res -> (w, cw) ∈ res -> Wcc.leader g5 v rv -> Wcc.leader g5 w rw -> (cv < cw <-> rv < rw)) /\
  (symmetric g5 -> forall v w cv cw, (v, cv) ∈ res -> (w, cw) ∈ res -> (cv = cw <-> reaches g5 v w)).
Proof. apply (Wcc.wcc_components g5 5 g5_readable); [vm_compute; reflexivity|cbn; lia]. Defined.

(** Three threads that take turns. *)
Definition hook_sched : nat -> list nat := fun _ => [0; 1; 2; 0; 1; 2; 2; 1; 0; 2; 1; 0; 0; 1; 2]%nat.

Lemma wcc_sv_leaders_witness : exists fuel res d', WccSv.wcc_sv fuel zeros hook_sched (fun _ _ => [1; 0; 1; 2]%nat) g5 20 = Some (res, d') /\
  same_graph g5 d' /\ res.*1 = seqZ 0 (Z.of_nat (vertices g5)) /\ forall v r, (v, r) ∈ res -> Wcc.leader g5 v r.
Proof.
  apply (WccSv.wcc_sv_leaders g5 zeros hook_sched (fun _ _ => [1; 0; 1; 2]%nat) 20 zeros_length);
    [apply g5_symmetric|apply g5_closed|cbn; lia|vm_compute; discriminate|exact I].
Defined.

(** A swap that loses: two calls have found the root 2 and the roots 0 and 1; the
    first hooks 2 under 0, and the second fails. *)
Example swap_loses :
  exists st', WccSv.hook_step (WccSv.SvState [0; 1; 2] false false) (WccSv.Swap 2 0) = Some (st', inl WccSv.SetChanged) /\
    WccSv.hook_step st' (WccSv.Swap 2 1) = Some (st', inr false).
Proof. eexists. split; reflexivity. Qed.

(** Label propagation by edge maps can stop with the vertices of one
    component labelled differently: in the dense mode a vertex takes the first
    smaller label in its list and skips the rest, and the vertex whose label it
    skipped is active no more. *)
Theorem wcc_map_splits_component : exists res d' v w cv cw,
  symmetric g5 /\ reaches g5 v w /\ WccMap.wcc_map 9 zeros (fun _ => []) (fun _ l => l) g5 20 = Some (res, d') /\
  (v, cv) ∈ res /\ (w, cw) ∈ res /\ cv <> cw.
Proof.
  eexists _, _, 4, 2, 0, 1. split; [apply g5_symmetric|]. split; [apply reaches_edge, edge_b_spec; reflexivity|].
  split; [vm_compute; reflexivity|]. split; [|split]; [apply list_elem_of_In; vm_compute; tauto|apply list_elem_of_In; vm_compute; tauto|lia].
Qed.

(** ** Containers *)

Lemma pack_selects_witness : Sequence.pack false zeros [5; 6; 7] [true; false; true] = Some (Sequence.selected [5; 6; 7] [true; false; true]) /\
  Sequence.pack true zeros [5; 6; 7] [true; false; true] = Some (Sequence.selected [5; 6; 7] [true; false; true]) /\
  exists l, Sequence.pack_index zeros [true; false; true] = Some l /\ NoDup l /\
    forall i, i ∈ l <-> 0 <= i /\ [true; false; true] !! Z.to_nat i = Some true.
Proof. apply (Sequence.pack_selects zeros zeros [5; 6; 7] [true; false; true] zeros_length zeros_length); [reflexivity|discriminate|vm_compute; discriminate]. Defined.

Lemma conversions_keep_set_witness : exists vs',
  foldl (fun acc b => vs ← acc; if b : bool then VertexSet.to_dense vs else VertexSet.to_sparse zeros vs)
    (Some (VertexSet.single_subset 5 3)) [true; false; true] = Some vs' /\
  VertexSet.shows vs' {[3]} /\ VertexSet.n vs' = 5 /\ VertexSet.num_non_zeros vs' = Z.of_nat (size ({[3]} : gset Z)) /\
  (VertexSet.is_dense vs' = true -> forall v, 0 <= v < VertexSet.n vs' -> VertexSet.is_in vs' v = Some (bool_decide (v ∈ ({[3]} : gset Z)))) /\
  (VertexSet.is_dense vs' = false -> ({[3]} : gset Z) <> ∅ ->
    exists l, mapM (VertexSet.vtx vs') (seqZ 0 (VertexSet.num_non_zeros vs')) = Some l /\ NoDup l /\ forall v, v ∈ l <-> v ∈ ({[3]} : gset Z)).
Proof.
  apply (VertexSet.conversions_keep_set zeros (VertexSet.single_subset 5 3) {[3]} [true; false; true] zeros_length).
  apply VertexSet.shows_single; lia.
Defined.

Lemma g5_case v : vertex g5 v -> v = 0 \/ v = 1 \/ v = 2 \/ v = 3 \/ v = 4.
Proof. unfold vertex. cbn. lia. Defined.

Definition by_list (m : gmap Z Z) : list (Z * Z) := reverse (map_to_list m).

Lemma cdlp_labels_witness : exists d1 d2,
  Cdlp.cdlp (fun _ => reverse) 7 true g5 = Some (zip (seqZ 0 (Z.of_nat (vertices g5))) (Cdlp.lpa 7 (Cdlp.lists_of g5) (seqZ 0 (Z.of_nat (vertices g5)))), d1) /\
  Cdlp.cdlp_voting_map (fun _ => reverse) (fun _ _ => by_list) 7 g5 =
    Some (zip (seqZ 0 (Z.of_nat (vertices g5))) (Cdlp.lpa 7 (Cdlp.lists_of g5) (seqZ 0 (Z.of_nat (vertices g5)))), d2) /\
  same_graph g5 d1 /\ same_graph g5 d2.
Proof.
  apply (Cdlp.cdlp_labels g5 g5_readable).
  - intros v l Hv Ha. destruct (g5_case v Hv) as [->|[->|[->|[->| ->]]]]; vm_compute in Ha; injection Ha as <-; vm_compute; reflexivity.
  - intros i l. apply reverse_Permutation.
  - intros i l. apply reverse_Permutation.
  - intros i v m. apply reverse_Permutation.
Defined.

Lemma parallel_cdlp_map_labels_witness : exists d',
  CdlpMap.parallel_cdlp_map zeros (fun i => [1; 3; 1; 2; 3; 3; 0; 4; 2; i; 1]%nat) (fun _ b => if b then reverse else id) 7 g5 =
    Some (zip (seqZ 0 (Z.of_nat (vertices g5))) (CdlpMap.lpa_slots 7 (CdlpMap.in_lists g5) (seqZ 0 (Z.of_nat (vertices g5)))), d') /\ same_graph g5 d' /\
  (CdlpMap.balanced g5 -> CdlpMap.lpa_slots 7 (CdlpMap.in_lists g5) (seqZ 0 (Z.of_nat (vertices g5))) = Cdlp.lpa 7 (Cdlp.lists_of g5) (seqZ 0 (Z.of_nat (vertices g5)))).
Proof.
  refine (CdlpMap.parallel_cdlp_map_labels g5 _ _ _ _ zeros (fun i => [1; 3; 1; 2; 3; 3; 0; 4; 2; i; 1]%nat) (fun _ b => if b then reverse else id) 7 _).
  - vm_compute. discriminate.
  - done.
  - intros v l u _ Ha Hu. by eapply (closed_b_spec g5).
  - intros v Hv. destruct (g5_case v Hv) as [->|[->|[->|[->| ->]]]]; vm_compute; reflexivity.
  - intros i b l. destruct b; [apply reverse_Permutation|reflexivity].
Defined.

(** ** The database *)

Import Samples DB VIndex PageScan.LocalScan.

#[local] Existing Instance small_config.
#[local] Existing Instances Giant.map_store Giant.fixed_group Giant.giant_store Sketch.update_sketch.
#[local] Instance delta_alloc : PageMap.PageAllocator Disk.disk_manager_t (Z.of_nat DELTA_PAGE_SIZE) := Disk.disk_allocator _.

Lemma db3_readable : readable db3.
Proof.
  intros v Hv. destruct (case3 v Hv) as [->|[->| ->]]; vm_compute; by eexists.
Defined.

Lemma db3_scannable : db_scannable 1 db3.
Proof.
  split; [apply db3_readable|]. split; [vm_compute; discriminate|].
  intros v loc Hv. destruct (case3 v Hv) as [->|[->| ->]]; vm_compute; intros [= <-]; split; congruence.
Defined.

(** Vertices 0 and 2. *)
Definition marks : Bitmap.bit_map_t := Bitmap.BitMap 3 [5].

Lemma local_scan_agrees_witness : exists calls s1 calls' s2, plain_edge_scan db3 (Some marks) = Some (calls, s1) /\
  bw_page_local_edge_scan db3 (Some marks) 1 = Some (calls', s2) /\ calls' ≡ₚ calls /\ same_graph db3 s1 /\ same_graph db3 s2 /\
  forall u v, (u, v) ∈ calls <-> Bitmap.has marks u /\ exists l, GraphRead.adj db3 u = Some l /\ v ∈ l.
Proof.
  apply (local_scan_agrees db3 marks 1); [split; [cbn; lia|reflexivity]| |reflexivity|apply db3_scannable].
  constructor; [split; [lia|reflexivity]|constructor].
Defined.

Lemma parallel_bfs_agrees_witness : exists order d1 res d2, Bfs.bfs 3 db3 0 = Some (order, d1) /\
  ParallelBfs.parallel_bfs (EdgeScanner0 := db_scanner 1 8) [7] [9] (fun _ => [1; 0; 1; 0]%nat) 3 db3 0 = Some (res, d2) /\
  res ≡ₚ order /\ same_graph db3 d2.
Proof.
  apply (ParallelBfs.parallel_bfs_agrees (EdgeScanner0 := db_scanner 1 8) db3 0 [7] [9] (fun _ => [1; 0; 1; 0]%nat) 3 db3_readable).
  - intros u l v Hu Ha Hv. destruct (case3 u Hu) as [->|[->| ->]]; vm_compute in Ha; injection Ha as <-; cbn in Hv; unfold vertex; set_unfold; cbn; lia.
  - split; vm_compute; [discriminate|reflexivity].
  - vm_compute. reflexivity.
  - apply db3_scannable.
  - constructor; [split; [lia|reflexivity]|constructor].
  - constructor; [split; [lia|reflexivity]|constructor].
  - cbn. lia.
Defined.


(** A graph with one-way edges. *)
Definition g4 : list_graph := [[1]; [2; 2]; []; [2]].

Lemma g4_scans d' b calls d2 : same_graph g4 d' -> edge_scan d' b = Some (calls, d2) -> Z.of_nat (length calls) < 2 ^ 32.
Proof.
  intros ->%same_list_graph [= <- _]. pose proof (marked_edges_bound g4 b) as Hb. cbn [g4 mjoin list_join app length] in Hb.
  change (2 ^ 32) with 4294967296. lia.
Defined.

Lemma g4_closed u l v : list_adj g4 u = Some l -> v ∈ l -> vertex g4 v.
Proof. intros Ha Hv. by eapply (closed_b_spec g4). Defined.

Lemma parallel_wcc_agrees_witness : exists res d' seq_res d2,
  ParallelWcc.parallel_wcc [5] [6] (fun _ => [3; 0; 3; 0; 1; 2; 2]%nat) 17 g4 = Some (res, d') /\ same_graph g4 d' /\
  res.*1 = seqZ 0 (Z.of_nat (vertices g4)) /\ (forall v c, (v, c) ∈ res -> Wcc.leader g4 v c) /\
  Wcc.wcc 17 g4 = Some (seq_res, d2) /\
  forall v w cv cw sv sw, (v, cv) ∈ res -> (w, cw) ∈ res -> (v, sv) ∈ seq_res -> (w, sw) ∈ seq_res -> (cv < cw <-> sv < sw).
Proof.
  apply (ParallelWcc.parallel_wcc_agrees g4 [5] [6] (fun _ => [3; 0; 3; 0; 1; 2; 2]%nat) 17);
    [by apply listable_readable|exact g4_closed|exact I|reflexivity|exact g4_scans|repeat constructor; lia..|cbn; lia].
Defined.

Lemma parallel_cdlp_labels_witness : exists res d',
  ParallelWcc.parallel_cdlp [5] [6] (fun _ => [3; 0; 3; 0; 1; 2; 2]%nat) 1 g4 = Some (res, d') /\ same_graph g4 d' /\
  res.*1 = seqZ 0 (Z.of_nat (vertices g4)) /\ (forall v c, (v, c) ∈ res -> c <= v /\ reaches g4 c v) /\
  ((vertices g4 * vertices g4 < 1)%nat -> forall v c, (v, c) ∈ res -> Wcc.leader g4 v c).
Proof.
  apply (ParallelWcc.parallel_cdlp_labels g4 [5] [6] (fun _ => [3; 0; 3; 0; 1; 2; 2]%nat) 1);
    [exact g4_closed|exact I|reflexivity|exact g4_scans|repeat constructor; lia..].
Defined.

End AlgoSamples.
