(* ===== verification/RankSamples.v ===== *)
(** * PageRank on small graphs

    The three versions applied in the arithmetic of the code and in exact
    arithmetic, on a triangle with a tail. *)

From Stdlib Require Import SpecFloat QArith Qcanon.
From stdpp Require Import strings.
From S2P Require Import Prelude GraphRead Interleave EdgeMap EdgePush PageRank PageRankMap PageRankExact PageRankScan AlgoSamples.

Local Open Scope Z_scope.

Module RankSamples.
Import GraphRead ListGraph EdgePush PageRank.

#[export, refine] Instance list_degree_reader : DegreeReader list_graph := {|
  degree := fun d v => l ← list_adj d v; Some (Z.of_nat (length l), d)
|}.
Proof. intros d v l _ _ Ha. change (list_adj d v = Some l) in Ha. rewrite Ha. by exists d. Defined.

Definition tail : list_graph := [[1; 2]; [0; 2]; [0; 1; 3]; [2]].

Lemma tail_case v : vertex tail v -> v = 0 \/ v = 1 \/ v = 2 \/ v = 3.
Proof. unfold vertex. cbn. lia. Defined.

Lemma tail_exact : exact tail.
Proof. done. Defined.

Lemma tail_closed v l u : vertex tail v -> adj tail v = Some l -> u ∈ l -> vertex tail u.
Proof. intros _ Ha Hu. by eapply (closed_b_spec tail). Defined.

Definition damping_085 : spec_float := @rdiv _ double (@of_int _ double 85) (@of_int _ double 100).
Definition epsilon : spec_float := @rdiv _ double (@of_int _ double 1) (@of_int _ double 1000000).

(** Two runs of the same algorithm on the same graph. *)
Definition map_run (sched : nat -> list nat) : option (list (Z * spec_float) * list_graph) :=
  PageRankMap.parallel_pagerank_map (Scalar0 := double) (fun _ => []) sched (fun _ _ => reverse)
    (fun _ => PageRankMap.SplitAt 2 PageRankMap.WholeRange PageRankMap.WholeRange) 3 damping_085 epsilon tail.

(** The last bits of a rank depend on the interleaving. *)
Lemma rounding_order : map_run (fun _ => []) <> map_run (fun _ => [3; 3; 3; 3; 1; 1; 1; 1; 1; 1]%nat).
Proof. vm_compute. discriminate. Defined.

Lemma parallel_pagerank_map_rounds_witness : exists ranks d',
  PageRankMap.parallel_pagerank_map (Scalar0 := double) (fun _ => []) (fun _ => [2; 0; 2; 1; 1]%nat) (fun _ _ => reverse)
    (fun _ => PageRankMap.SplitAt 2 PageRankMap.WholeRange PageRankMap.WholeRange) 3 damping_085 epsilon tail =
    Some (zip (seqZ 0 (Z.of_nat (vertices tail))) ranks, d') /\
  same_graph tail d' /\ iterates (PageRankMap.push_round (Scalar0 := double) tail damping_085 epsilon) 3 (initial_ranks (Scalar0 := double) tail) ranks.
Proof.
  apply (PageRankMap.parallel_pagerank_map_rounds (Scalar0 := double) tail (fun _ => []) (fun _ => [2; 0; 2; 1; 1]%nat) (fun _ _ => reverse)
    (fun _ => PageRankMap.SplitAt 2 PageRankMap.WholeRange PageRankMap.WholeRange) 3 damping_085 epsilon tail_exact tail_closed).
  intros i b l. apply reverse_Permutation.
Defined.

Lemma pagerank_exact_witness : exists ranks d',
  pagerank (Scalar0 := exact_scalar) 5 (Q2Qc (85 # 100)) (Q2Qc (1 # 1000000)) tail = Some (zip (seqZ 0 (Z.of_nat (vertices tail))) ranks, d') /\
  same_graph tail d' /\ length ranks = vertices tail /\ PageRankExact.qsum ranks = 1%Qc /\
  ((0 <= Q2Qc (85 # 100))%Qc -> (Q2Qc (85 # 100) <= 1)%Qc -> Forall (fun x => 0 <= x)%Qc ranks) /\
  ((forall v, vertex tail v -> deg tail v <> 0) ->
    forall raw sched (perm : nat -> bool -> list Z -> list Z) tree, (forall i b l, perm i b l ≡ₚ l) ->
      exists d2, PageRankMap.parallel_pagerank_map (Scalar0 := exact_scalar) raw sched perm tree 5 (Q2Qc (85 # 100)) (Q2Qc (1 # 1000000)) tail =
        Some (zip (seqZ 0 (Z.of_nat (vertices tail))) ranks, d2) /\ same_graph tail d2).
Proof.
  apply (PageRankExact.pagerank_exact tail 5 (Q2Qc (85 # 100)) (Q2Qc (1 # 1000000)) tail_exact); [cbn; lia|].
  apply (bool_decide_unpack _). vm_compute. exact I.
Defined.

(** The vertices of [tail] have neighbours, so both versions agree there. *)
Lemma tail_degrees v : vertex tail v -> deg tail v <> 0.
Proof. intros Hv. destruct (tail_case v Hv) as [->|[->|[->| ->]]]; discriminate. Defined.

Lemma parallel_pagerank_rounds_witness : exists ranks d',
  PageRankScan.parallel_pagerank (Scalar0 := float) (fun _ => [2; 0; 2; 1; 1; 5; 5; 5]%nat) 4
    (@rdiv _ float (@of_int _ float 85) (@of_int _ float 100)) (@rdiv _ float (@of_int _ float 1) (@of_int _ float 10)) tail =
    Some (zip (seqZ 0 (Z.of_nat (vertices tail))) ranks, d') /\
  same_graph tail d' /\
  PageRankScan.scan_rounds (Scalar0 := float) tail (@rdiv _ float (@of_int _ float 85) (@of_int _ float 100))
    (@rdiv _ float (@of_int _ float 1) (@of_int _ float 10)) 4 (PageRankScan.first_ranks (Scalar0 := float) tail) ranks.
Proof.
  apply (PageRankScan.parallel_pagerank_rounds (Scalar0 := float) tail (fun _ => [2; 0; 2; 1; 1; 5; 5; 5]%nat) 4
    (@rdiv _ float (@of_int _ float 85) (@of_int _ float 100)) (@rdiv _ float (@of_int _ float 1) (@of_int _ float 10))).
  - by apply listable_readable.
  - exact tail_closed.
  - intros v Hv. destruct (tail_case v Hv) as [->|[->|[->| ->]]]; reflexivity.
Defined.

End RankSamples.
