(* ===== verification/BuildSamples.v ===== *)
(** * Witnesses of the builds and of the partitioning: the graph of thirteen
    vertices of [Samples], one of them giant, built page by page *)

From stdpp Require Import strings.
From S2P Require Import Prelude Config DeltaPage VertexIndex PageMap DiskManager CsrPage Db EdgeOps GiantDb Smo Sketch.
From S2P Require Import MemGraph ComGraph BuildDb BuildPages BuildCompressed Samples SmoSamples.
From S2P Require Import Partition PartitionMap Sparsify.
From S2P Require Import IndexPage Reorder Tat TatSmo.

Local Open Scope Z_scope.

Module BuildSamples.
Import Delta VIndex PMap Csr DB EdgeOps Disk BuildDb BuildPages BuildCompressed Samples SmoSamples.

(** The configuration of the samples in a build that compresses. *)
Definition packed_config : Config := {|
  PAGE_SIZE := 256; DEFAULT_DB_IO_SIZE := 2; DELTA_PAGE_SIZE := 100;
  GIANT_DEGREE_BOUND := 8; INDEX_PAGE_SIZE := 256; MAX_BLOCK_NEIGHBOR := 2;
  MAX_DELTA_CHAIN_LENGTH := 1; EDGE_SLOT_COUNT := 0; INDEX_MAX_BLOCKS := 4;
  NEIGHBOR_COMPRESS := true |}.

#[local] Existing Instances packed_config Giant.map_store Giant.fixed_group Giant.giant_store Sketch.update_sketch.

Lemma build_compressed_db_holds_witness :
  exists st, build_compressed_db g13 Giant.empty_giants page_disk = Ok st /\
    let s := database_of Disk.small_disk sketch13 (BuildCompressed.vertex_index st) (BuildCompressed.giant_db st)
               (disk_manager st) (current_page_no st) in
    db_inv s /\ vertex_count s = Z.of_nat (length ls13) /\
    forall v ns, 0 <= v -> ls13 !! Z.to_nat v = Some ns ->
      vertex_live s v = true /\ neighbors s v (list_to_set ns) /\
      (is_giant_list ns = false -> base_of s v = Some (merge_sort Z.le ns)).
Proof.
  apply (build_compressed_db_holds (cfg := packed_config)).
  - vm_compute. congruence.
  - vm_compute. congruence.
  - constructor.
    + constructor; vm_compute; reflexivity.
    + vm_compute. reflexivity.
    + apply Forall_forall. intros ns Hns.
      assert (H : forallb (fun ns => forallb (fun x => (0 <=? x) && (x <? 2 ^ 30)) ns && (Z.of_nat (length ns) <? 2 ^ 31) &&
        (is_giant_list ns || (kFixed + vertex_bytes ns <=? Z.of_nat PAGE_SIZE))) ls13 = true) by (vm_compute; reflexivity).
      rewrite forallb_forall in H. specialize (H ns (proj1 (list_elem_of_In _ _) Hns)).
      apply andb_true_iff in H as [[H1 H2]%andb_true_iff H3].
      assert (Hw : Forall (fun x => 0 <= x < 2 ^ 30) ns).
      { apply Forall_forall. intros x Hx. rewrite forallb_forall in H1. specialize (H1 x (proj1 (list_elem_of_In _ _) Hx)). lia. }
      apply Z.ltb_lt in H2. split; [done|]. destruct (is_giant_list ns) eqn:E.
      * split; [|lia]. eapply Forall_impl; [exact Hw|]. unfold in_width. cbn beta. lia.
      * split; [exact Hw|]. by apply Z.leb_le.
    + apply Exists_exists. exists [1; 2; 3; 4; 5; 6; 7]. split; [|reflexivity].
      apply list_elem_of_lookup. exists 0%nat. vm_compute. reflexivity.
  - apply Disk.open_inv; [lia|cbn; lia].
  - reflexivity.
  - apply (Disk.empty_map_wf (cfg := packed_config)); [vm_compute; lia|vm_compute; discriminate|reflexivity].
  - vm_compute. repeat split.
Defined.

End BuildSamples.

(** * Witnesses of the partitioning: a partitioner that deals the nodes out in
    turn, on the graph of thirteen vertices of [Samples] and on a star of
    pages. *)

Module PartSamples.
Import MemGraph ComGraph Partition PartitionMap Sparsify Samples SmoSamples.

#[local] Existing Instance small_config.

#[export, refine] Instance round_robin : KaMinPar := {
  compute_partition := fun _ i => imap (fun j _ => Z.of_nat j `mod` block_count i) (node_weights i)
}.
Proof.
  - intros run i. apply length_imap.
  - intros run i Hk. apply Forall_forall. intros b Hb. apply elem_of_lookup_imap in Hb as (j & w & -> & _).
    apply Z.mod_pos_bound. lia.
Defined.

Lemma round_robin_splits : splits.
Proof.
  intros run i Hk Hn. exists 0%nat, 1%nat, 0, 1. cbn.
  destruct (lookup_lt_is_Some_2 (node_weights i) 0) as [w0 H0]; [lia|].
  destruct (lookup_lt_is_Some_2 (node_weights i) 1) as [w1 H1]; [lia|].
  rewrite !list_lookup_imap, H0, H1. cbn. rewrite Z.mod_0_l, Z.mod_1_l by lia. done.
Qed.

Lemma weights13 v : is_valid_vertex g13 v = true -> node_weight_original g13 v <= 20.
Proof.
  intros Hv. assert (H : forallb (fun v => node_weight_original g13 v <=? 20) (seqZ 0 13) = true) by (vm_compute; reflexivity).
  rewrite forallb_forall in H. apply Z.leb_le, H, list_elem_of_In, elem_of_seqZ. unfold is_valid_vertex in Hv.
  change (num_vertices g13) with 13%nat in Hv. rewrite andb_true_iff, Z.leb_le, Z.ltb_lt in Hv. lia.
Qed.

(** At most twenty units a block: two vertices of eight neighbours, and the
    giant one beside them. *)
Lemma partition_within_bound_witness :
  exists parts, compute_absolute_weight_graph_partition 170 0 g13 20 4 = Some (Ok parts) /\
    is_partition g13 parts /\ Forall (fun p => block_weight_original g13 p <= 20) parts.
Proof.
  apply (partition_within_bound g13 20 4 170 0).
  - lia.
  - vm_compute. lia.
  - vm_compute. reflexivity.
  - vm_compute. split; reflexivity.
  - exact round_robin_splits.
  - exact weights13.
  - vm_compute. lia.
Defined.

Lemma oversized_vertex_never_ends_witness : compute_absolute_weight_graph_partition 1000 0 g13 5 4 = None.
Proof.
  apply (oversized_vertex_never_ends g13 5 4 1000 0 2).
  - lia.
  - vm_compute. split; reflexivity.
  - vm_compute. reflexivity.
  - vm_compute. reflexivity.
Defined.

(** Page 1 beside the pages 2 to 5, and an edge between two of them. *)
Definition star : gmap Z (list Z) := list_to_map [(1, [2; 3; 4; 5]); (2, [1; 3]); (3, [1; 2]); (4, [1]); (5, [1])].

Lemma block_partition_covers_witness :
  exists vec block_of, absolute_weight_block_partition 0 star 2 = Some (Ok (vec, block_of)) /\
    mjoin vec ≡ₚ (map_to_list star).*1 /\ Forall (fun p => p <> []) vec /\
    forall p k, block_of !! p = Some k <-> 0 <= k /\ exists part, vec !! Z.to_nat k = Some part /\ p ∈ part.
Proof.
  apply (block_partition_covers 0 star 2).
  - lia.
  - vm_compute. discriminate.
  - vm_compute. reflexivity.
Defined.

Definition keep_order (l : list scored_edge) : list scored_edge := l.

Lemma star_closed u v : v ∈ default [] (star !! u) -> is_Some (star !! v) /\ u <> v.
Proof.
  intros Hv. destruct (star !! u) as [ns|] eqn:E; [|by apply elem_of_nil in Hv].
  assert (H : forallb (fun q => forallb (fun v => bool_decide (is_Some (star !! v)) && negb (q.1 =? v)) q.2) (map_to_list star) = true)
    by (vm_compute; reflexivity).
  rewrite forallb_forall in H. specialize (H (u, ns)). cbn [fst snd] in H.
  assert (Hq : In (u, ns) (map_to_list star)) by (by apply list_elem_of_In, elem_of_map_to_list). specialize (H Hq).
  rewrite forallb_forall in H. specialize (H v (proj1 (list_elem_of_In _ _) Hv)). apply andb_true_iff in H as [H1 H2].
  apply bool_decide_eq_true in H1. rewrite negb_true_iff, Z.eqb_neq in H2. done.
Qed.

Lemma sparsification_spec_witness :
  exists r T, graph_sparsification keep_order 0 star 2 = Some r /\
    (forall u, is_Some (r !! u) <-> is_Some (star !! u)) /\
    (forall u, NoDup (default [] (r !! u)) /\ Z.of_nat (length (default [] (r !! u))) <= 2) /\
    (forall u v, v ∈ default [] (r !! u) <-> u ∈ default [] (r !! v)) /\
    (forall u v, v ∈ default [] (r !! u) -> linked_in star u v) /\
    (forall u v, linked_in star u v -> v ∈ default [] (r !! u) \/
       Z.of_nat (length (default [] (r !! u))) = 2 \/ Z.of_nat (length (default [] (r !! v))) = 2) /\
    forest T /\ Forall (fun e => e.2 ∈ default [] (r !! e.1)) T /\
    forall u v, linked_in star u v -> rtsc (joins T) u v \/ saturated 2 T u \/ saturated 2 T v.
Proof.
  apply (sparsification_spec keep_order 0 star 2).
  - lia.
  - intros l. reflexivity.
  - exact star_closed.
Defined.

(** A block beside itself counts twice and exceeds the bound. *)
Example self_loop_exceeds : graph_sparsification keep_order 0 {[1 := [1]]} 1 = Some {[1 := [1; 1]]}.
Proof. vm_compute. reflexivity. Qed.

End PartSamples.

(** * Witnesses of the page hierarchy: a path of eight vertices on eight pages,
    and more roots than a page holds. *)

Module TatSamples.
Import VIndex Index ComGraph Reorder PartitionMap Tat TatSmo BuildDb PartSamples SmoSamples.

Definition tat_config : Config := {|
  PAGE_SIZE := 256; DEFAULT_DB_IO_SIZE := 2; DELTA_PAGE_SIZE := 100;
  GIANT_DEGREE_BOUND := 8; INDEX_PAGE_SIZE := 256; MAX_BLOCK_NEIGHBOR := 2;
  MAX_DELTA_CHAIN_LENGTH := 1; EDGE_SLOT_COUNT := 0; INDEX_MAX_BLOCKS := 5;
  NEIGHBOR_COMPRESS := false |}.
#[local] Existing Instance tat_config.

#[export] Instance tat_layout : @IndexLayout tat_config.
Proof. split; [apply Nat.leb_le; vm_compute; reflexivity..|vm_compute; reflexivity]. Qed.

(** Dealing out in turn gives no block more than its share. *)
#[export] Instance round_robin_balanced : Balanced.
Proof.
  intros run i W b _ Hk _ Hn. cbn. set (n := length (node_weights i)) in *. set (k := block_count i) in *.
  assert (HW : 0 <= W) by nia. rewrite <- (Z2Nat.id W) by done. apply inj_le. set (S := filter _ _).
  rewrite <- (length_seq (Z.to_nat W) 0), <- (length_fmap (fun j => Z.to_nat (Z.of_nat j `div` k)) S).
  assert (HS : forall j, j ∈ S -> (j < n)%nat /\ Z.of_nat j `mod` k = b).
  { intros j Hj. unfold S in Hj. apply list_elem_of_filter in Hj as [E Hj]. apply elem_of_seq in Hj.
    rewrite list_lookup_imap in E. destruct (node_weights i !! j); [|done]. injection E as <-. lia. }
  apply submseteq_length_le.
  - apply NoDup_fmap_2_strong; [|apply NoDup_filter, NoDup_seq]. intros x y Hx Hy E.
    destruct (HS x Hx) as [_ Ex], (HS y Hy) as [_ Ey]. pose proof (Z.div_mod (Z.of_nat x) k ltac:(lia)). pose proof (Z.div_mod (Z.of_nat y) k ltac:(lia)).
    assert (0 <= Z.of_nat x `div` k /\ 0 <= Z.of_nat y `div` k) by (split; apply Z.div_pos; lia). nia.
  - intros q Hq. apply list_elem_of_fmap in Hq as (j & -> & Hj). destruct (HS j Hj) as [Hjn _]. apply elem_of_seq.
    assert (0 <= Z.of_nat j `div` k) by (apply Z.div_pos; lia).
    assert (Z.of_nat j `div` k < W) by (apply Z.div_lt_upper_bound; lia). lia.
Qed.

Definition path8 : list (list Z) := (fun v => filter (fun u => 0 <= u < 8) [v - 1; v + 1]) <$> seqZ 0 8.
Definition g8 : mem_sub_com_t := com_of_arrays (prefixes path8) (mjoin path8) [].

Definition page8 (v : Z) : Csr.csr_page_t :=
  match Csr.build_uniform (Csr.new_page v) [(v, com_get_neighbors g8 v)] 0 with Ok (p, _) => p | Throw _ => Csr.new_page v end.
Definition pages8 : list Csr.csr_page_t := page8 <$> seqZ 0 8.
Definition index8 : vertex_index_t := default empty_index (assign_items (construct_index 8) ((fun v => (v, v, 0, NORMAL)) <$> seqZ 0 8)).
Definition graph8 : gmap Z (gset Z) := default ∅ (page_graph g8 index8 pages8).

Lemma chain_connected n (G : gmap Z (list Z)) :
  (forall u, is_Some (G !! u) -> 0 <= u < n) ->
  (forall k, 0 <= k -> k + 1 < n -> k + 1 ∈ get_neighbor_pages G k /\ k ∈ get_neighbor_pages G (k + 1)) -> connected G.
Proof.
  intros Hk Hstep.
  assert (H : forall d a, 0 <= a -> a + Z.of_nat d < n -> rtc (fun x y => y ∈ get_neighbor_pages G x) a (a + Z.of_nat d) /\
      rtc (fun x y => y ∈ get_neighbor_pages G x) (a + Z.of_nat d) a).
  { intros d. induction d as [|d IH]; intros a Ha Hd; [rewrite Z.add_0_r; split; apply rtc_refl|].
    destruct (IH a Ha ltac:(lia)) as [H1 H2]. destruct (Hstep (a + Z.of_nat d)) as [H3 H4]; [lia|lia|].
    replace (a + Z.of_nat (S d)) with (a + Z.of_nat d + 1) by lia. split; [by eapply rtc_r|by eapply rtc_l]. }
  intros u v Hu%Hk Hv%Hk. destruct (Z.leb_spec u v).
  - destruct (H (Z.to_nat (v - u)) u) as [H1 _]; [lia|lia|]. by replace (u + Z.of_nat (Z.to_nat (v - u))) with v in H1 by lia.
  - destruct (H (Z.to_nat (u - v)) v) as [_ H1]; [lia|lia|]. by replace (v + Z.of_nat (Z.to_nat (u - v))) with u in H1 by lia.
Qed.

Lemma keys8 u : is_Some (graph8 !! u) -> 0 <= u < 8.
Proof.
  intros [l Hl]. assert (H : forallb (fun q => (0 <=? q.1) && (q.1 <? 8)) (map_to_list graph8) = true) by (vm_compute; reflexivity).
  rewrite forallb_forall in H. specialize (H (u, l)). cbn in H. rewrite andb_true_iff, Z.leb_le, Z.ltb_lt in H.
  apply H, list_elem_of_In, elem_of_map_to_list, Hl.
Qed.

Lemma connected8 : connected (adj_lists 0 graph8).
Proof.
  apply (chain_connected 8).
  - intros u Hu. by apply keys8, (adj_lists_dom 0).
  - assert (H : forallb (fun k => bool_decide (k + 1 ∈ get_neighbor_pages (adj_lists 0 graph8) k) &&
        bool_decide (k ∈ get_neighbor_pages (adj_lists 0 graph8) (k + 1))) (seqZ 0 7) = true) by (vm_compute; reflexivity).
    intros k H0 H1. rewrite forallb_forall in H.
    assert (Hin : k ∈ seqZ 0 7) by (apply elem_of_seqZ; lia). apply list_elem_of_In in Hin. specialize (H k Hin).
    by rewrite andb_true_iff, !bool_decide_eq_true in H.
Qed.

Lemma tat_from_csr_pages_witness :
  exists pages' r n up0, build_tat_from_csr_pages keep_order (fun _ => 7) 0 pages8 8 index8 g8 = Some (Ok (pages', r)) /\
    Csr.page_no <$> pages' = Csr.page_no <$> pages8 /\
    (forall p, p ∈ pages' -> Csr.parent_page_no_ p = up0 (Csr.page_no p)) /\
    (forall p, p ∈ pages8 -> is_Some (adj_lists 0 graph8 !! Csr.page_no p)) /\
    tower keep_order 0 (index_pages r) n (adj_lists 0 graph8) up0 (root_page_no r) /\
    level_count r = Z.of_nat n + 1 /\ next_index_page_no r = root_page_no r - 1 /\ 0 < root_page_no r <= 8.
Proof.
  apply (tat_from_csr_pages keep_order (fun _ => 7) 0).
  - apply Nat.leb_le. vm_compute. reflexivity.
  - intros l. reflexivity.
  - vm_compute. reflexivity.
  - exact connected8.
  - intros E. apply (f_equal length) in E. vm_compute in E. discriminate.
  - intros u Hu. apply keys8 in Hu. unfold in_width. lia.
  - assert (size graph8 = 8%nat) as -> by (vm_compute; reflexivity). lia.
Defined.

(** The parents of the base pages, the root and the number of levels, and every
    index page with its blocks and parent: index pages and base pages share
    numbers. *)
Example hierarchy8 :
  (fun r : option (res (list Csr.csr_page_t * tat_build_result_t)) => match r with
    | Some (Ok (pages', r)) => Some (Csr.parent_page_no_ <$> pages', root_page_no r, level_count r,
        (fun q : Z * index_page_t => (q.1, get_blocks q.2, parent_page_no_ q.2)) <$> map_to_list (index_pages r))
    | _ => None end) (build_tat_hierarchy keep_order (fun _ => 7) 0 pages8 index8 g8) =
  Some ([8; 6; 7; 7; 8; 8; 6; 6], 5, 3, [(7, [3; 2], 5); (5, [7; 6; 8], 0); (6, [7; 6; 1], 5); (8, [5; 4; 0], 5)]).
Proof. vm_compute. reflexivity. Qed.

Definition lone_root (no : Z) : index_page_t := match index_page 7 no [] with Ok p => p | Throw _ => new_page 7 no end.
Definition lone_roots : gmap Z index_page_t := list_to_map ((fun no => (no, lone_root no)) <$> seqZ 100 6).

Lemma global_root_lists_nothing_witness :
  exists r root, build_tat_from_index_pages keep_order (fun _ => 7) 0 lone_roots (seqZ 100 6) 50 = Some (Ok r) /\
    index_pages r !! root_page_no r = Some root /\ get_blocks root = [] /\ level_count r = 3 /\
    forall no, root_page_no r < no <= 50 -> exists p, index_pages r !! no = Some p /\ parent_page_no_ p = root_page_no r.
Proof.
  apply (global_root_lists_nothing keep_order (fun _ => 7) 0).
  - apply Nat.leb_le. vm_compute. reflexivity.
  - intros l. reflexivity.
  - apply NoDup_seqZ.
  - intros no Hno. assert (H : forallb (fun no => (50 <? no) && (no <? 2 ^ 32) && match lone_roots !! no with Some p => bool_decide (read_neighbor_block_clone p = []) | None => false end) (seqZ 100 6) = true)
      by (vm_compute; reflexivity).
    rewrite forallb_forall in H. apply list_elem_of_In in Hno. specialize (H no Hno). rewrite !andb_true_iff, !Z.ltb_lt in H. destruct H as [H1 H2].
    split; [done|]. destruct (lone_roots !! no) as [p|]; [|done]. exists p. split; [done|]. by apply bool_decide_eq_true in H2.
  - apply Nat.ltb_lt. vm_compute. reflexivity.
  - vm_compute. discriminate.
Defined.

(** With room for nine neighbours, the second one. *)
Definition nine_config : Config := {|
  PAGE_SIZE := 256; DEFAULT_DB_IO_SIZE := 2; DELTA_PAGE_SIZE := 100;
  GIANT_DEGREE_BOUND := 8; INDEX_PAGE_SIZE := 256; MAX_BLOCK_NEIGHBOR := 9;
  MAX_DELTA_CHAIN_LENGTH := 1; EDGE_SLOT_COUNT := 0; INDEX_MAX_BLOCKS := 5;
  NEIGHBOR_COMPRESS := false |}.

Definition one_neighbor : Csr.csr_page_t :=
  match @Csr.build_uniform nine_config (@Csr.new_page nine_config 4) [(12, [13; 14])] 0 with
  | Ok (p, _) => (@Csr.add_neighbor_page_no nine_config p 77).2
  | Throw _ => Csr.new_page 4
  end.

Lemma neighbor_overwrites_vertex_witness :
  Csr.vertex_id <$> Csr.vertex_at one_neighbor 0 = Some 12 /\
  exists p', @Csr.add_neighbor_page_no nine_config one_neighbor 78 = (true, p') /\ Csr.vertex_id <$> Csr.vertex_at p' 0 = Some 78.
Proof.
  split; [vm_compute; reflexivity|]. apply (@neighbor_overwrites_vertex nine_config one_neighbor 78).
  - apply Nat.leb_le. vm_compute. reflexivity.
  - vm_compute. reflexivity.
  - apply (bool_decide_eq_true_1 _). vm_compute. reflexivity.
  - unfold in_width. lia.
  - vm_compute. reflexivity.
  - vm_compute. reflexivity.
  - apply Nat.leb_le. vm_compute. reflexivity.
Defined.

(** Two index pages under a root. *)
Definition fresh_index (no : Z) (adj : list (Z * list Z)) : index_page_t := match index_page 7 no adj with Ok p => p | Throw _ => new_page 7 no end.
Definition below_root (no : Z) (adj : list (Z * list Z)) : index_page_t := set_parent_page_no (fresh_index no adj) 30.

Definition adj30 : list (Z * list Z) := [(31, [32]); (32, [31])].
Definition adj31 : list (Z * list Z) := [(1, [2]); (2, [1; 3]); (3, [2])].

Definition tree : index_state :=
  IndexState {[130 := fresh_index 30 adj30; 131 := below_root 31 adj31; 132 := below_root 32 [(4, [5]); (5, [4])]]} 133
    {[30 := 130; 31 := 131; 32 := 132]} 130 20.

Lemma tree_ok : index_ok tree.
Proof.
  assert (Hm : forall no a, index_page_map_ tree !! no = Some a -> a = no + 100 /\ is_Some (index_heap tree !! a)).
  { intros no a Ha. assert (H : forallb (fun q => (q.2 =? q.1 + 100) && bool_decide (is_Some (index_heap tree !! q.2))) (map_to_list (index_page_map_ tree)) = true)
      by (vm_compute; reflexivity).
    rewrite forallb_forall in H. specialize (H (no, a) (proj1 (list_elem_of_In _ _) (proj2 (elem_of_map_to_list _ _ _) Ha))). cbn in H.
    apply andb_true_iff in H as [H1 H2]. apply Z.eqb_eq in H1. by apply bool_decide_eq_true in H2. }
  constructor.
  - intros no a Ha. by apply (Hm no).
  - intros no no' a H1 H2. apply Hm in H1 as [H1 _], H2 as [H2 _]. lia.
  - intros a [p Hp]. assert (H : forallb (fun q : Z * index_page_t => q.1 <? next_address tree) (map_to_list (index_heap tree)) = true) by (vm_compute; reflexivity).
    rewrite forallb_forall in H. specialize (H (a, p) (proj1 (list_elem_of_In _ _) (proj2 (elem_of_map_to_list _ _ _) Hp))). by apply Z.ltb_lt in H.
Qed.

Lemma fresh_rep no adj : NoDup adj.*1 -> Forall (in_width 32) adj.*1 -> (length adj <= 5)%nat -> rep (fresh_index no adj) (graph_of adj).
Proof. intros H1 H2 H3. destruct (@build_rep tat_config tat_layout 7 no adj H1 H2 H3) as (p & E & R). unfold fresh_index. by rewrite E. Qed.

Definition graph31 : index_graph := IndexGraph (ig_blocks (graph_of adj31)) (ig_edges (graph_of adj31)) [] 30.

Lemma rep31 : rep (below_root 31 adj31) graph31.
Proof.
  apply (set_parent_spec (fresh_index 31 adj31) _ _ [] 0 30); [|unfold in_width; lia]. apply (fresh_rep 31 adj31).
  - apply (bool_decide_eq_true_1 _). vm_compute. reflexivity.
  - repeat first [apply Forall_nil_2|apply Forall_cons_2]; unfold in_width; cbn; lia.
  - cbn. lia.
Qed.


Lemma no_split_renames_witness :
  exists st' p' g', update_index_no_split (fun _ => 7) 0 tree 2 9 31 = Some (Ok st') /\ index_ok st' /\ page_at st' 31 = Some p' /\ rep p' g' /\
    (forall x, x ∈ ig_blocks g' <-> exists b, b ∈ ig_blocks graph31 /\ renamed 2 9 b = x) /\
    (forall b c, b ∈ ig_blocks graph31 -> c ∈ ig_blocks graph31 -> (renamed 2 9 b, renamed 2 9 c) ∈ ig_edges g' <-> (b, c) ∈ ig_edges graph31) /\
    ig_neighbors g' = [] /\ ig_parent g' = 30 /\
    (forall no, no <> 31 -> page_at st' no = page_at tree no) /\
    (root_index_page_ tree = 131 -> index_heap st' !! root_index_page_ st' = None).
Proof.
  apply (no_split_renames (fun _ => 7) 0 tree 2 9 31 131 (below_root 31 adj31) graph31).
  - exact tree_ok.
  - vm_compute. reflexivity.
  - reflexivity.
  - exact rep31.
  - constructor.
  - unfold in_width. cbn. lia.
  - apply (bool_decide_eq_true_1 _). vm_compute. reflexivity.
  - unfold in_width. lia.
Defined.

(** The root pointer after the page of the root has been rebuilt. *)
Example root_dangles :
  (fun r : option (res index_state) => match r with Some (Ok st) => Some (bool_decide (is_Some (index_heap st !! root_index_page_ st))) | _ => None end)
    (update_index_no_split (fun _ => 7) 0 tree 32 40 30) = Some false.
Proof. vm_compute. reflexivity. Qed.



End TatSamples.
